(* ===== verification/_CoqProject ===== *)
-Q . S2P
Prelude.v
BitReflect.v
SphTypes.v
BlockBuffer.v
MessageBits.v
SphHash.v
Cubehash.v
Blake.v
KeccakF.v
Keccak.v
Keccak32.v
Ctaes.v
Aes.v
ArithUint256.v
BlockIndex.v
Chain.v
BigNum.v
Pow.v
Hasher.v
Sha2Spec.v
Sha256.v
Sha512.v
Hash.v
Merkle.v
VersionBits.v
Serialize.v
Script.v
Interpreter.v
InterpreterProps.v
Codec.v
Transaction.v
Dividend.v
Coins.v
Undo.v
Compressor.v
SigHash.v
TxVerify.v
Stake.v
Standard.v
Block.v
MerkleBlock.v
Base58.v
