(* ===== verification/Prelude.v ===== *)
(** * A verification of the consensus core of Chratos

    Chratos is a cryptocurrency node of the Bitcoin family with proof of stake: it keeps an index
    of block headers, a chain of blocks and the set of unspent transaction outputs, and accepts
    blocks and transactions by the rules in [src/src/main.cpp] and the files it uses.  This
    development translates the parts that decide what is accepted, with the data structures, formats
    and hash functions below them, and proves what those parts promise.

    ** How the parts fit together

    A header arrives as bytes ([Serialize], [Codec], [Block]), is hashed ([Sha256], [Hash]) and checked
    against the difficulty rules ([Pow], over [ArithUint256] and [BigNum]), its parent, the
    checkpoints and the versions ([VersionBits]), and enters the index ([BlockIndex]); the active
    chain is a vector over the index ([Chain]).  A block adds transactions ([Transaction]) under a
    Merkle root ([Merkle]) and a signature by the key of its coinstake ([Standard]); [Block] has the
    checks with and without context, [Stake] the kernel and the stake modifier.  A transaction is
    checked alone, for its lock times and against the coins that it spends ([TxVerify], over the views
    and caches of [Coins], with the dividends of [Dividend]); its scripts run in the interpreter
    ([Script], [Interpreter], [InterpreterProps]), which asks a signature checker ([SigHash]).
    Connecting a block changes the coins and gives undo data ([Undo]), both stored in compact
    formats ([Compressor]).  Light clients get partial Merkle trees ([MerkleBlock]); addresses are text
    in base 58 ([Base58]).  The wallet encrypts with [Aes] over [Ctaes].

    ** Files and sources (under [src/src])

    - [Prelude], [BitReflect]: words, bytes, lists, tactics and hints; a reflexive procedure for
      identities between bits.
    - [SphTypes], [BlockBuffer], [MessageBits], [SphHash]: [sph_types.h], and the context, buffer and
      interface that the functions of the sph library share.
    - [Cubehash] ([cubehash.c]), [Blake] ([blake.c]), [KeccakF], [Keccak], [Keccak32] ([keccak.c]).
    - [Ctaes] ([crypto/ctaes/ctaes.c]), [Aes] ([crypto/aes.cpp]).
    - [ArithUint256] ([arith_uint256.h], [.cpp]), [BigNum] ([bignum.h]).
    - [BlockIndex], [Chain] ([chain.h], [chain.cpp], [AddToBlockIndex] of [main.cpp]).
    - [Pow] ([pow.cpp], [pos.cpp], [GetNextTargetRequired] and [GetBlockSubsidy] of [main.cpp]).
    - [Hasher], [Sha2Spec], [Sha256], [Sha512] ([crypto/common.h], [crypto/sha256.cpp], [sha512.cpp]),
      [Hash] ([hash.h], [hash.cpp], [crypto/hmac_sha256.cpp], [hmac_sha512.cpp]).
    - [Merkle] ([consensus/merkle.cpp]), [VersionBits] ([versionbits.cpp], parts of [main.cpp]).
    - [Serialize], [Codec] ([serialize.h]), [Transaction] ([primitives/transaction.h], [.cpp]).
    - [Script] ([script/script.h], [.cpp]), [Interpreter], [InterpreterProps], [SigHash]
      ([script/interpreter.cpp], [CScriptCheck] of [main.cpp]), [Standard] ([script/standard.cpp]).
    - [Dividend] ([dividend/dividend.cpp], [dividendtx.cpp], [dividendledger.cpp]).
    - [Coins] ([coins.h], [coins.cpp], the coin database of [txdb.cpp]), [Undo] ([undo.h], [UpdateCoins]
      and [DisconnectBlock] of [main.cpp]), [Compressor] ([compressor.h], [.cpp]).
    - [TxVerify] (the rules for transactions of [main.cpp], [consensus/validation.h]), [Stake]
      ([GetWeight] to [CheckKernel] of [main.cpp]), [Block] ([primitives/block.h], [.cpp], [CheckBlock] to
      [AcceptBlockHeader] of [main.cpp]).
    - [MerkleBlock] ([merkleblock.h], [.cpp]), [Base58] ([base58.h], [.cpp]).

    ** How code is translated

    Definitions keep the names of the source.  A machine integer is a [Z] with its wrap-around or its
    overflow test written out ([u32], [u64], [int], [int64], [int_wrap]); a byte string is a list of [Z];
    a struct is a record, an enumeration an inductive type.  Pointers of the block index are keys of a
    heap ([gmap]); maps and sets of the code are [gmap]s, vectors are lists with the access outside of
    them as [None].  Undefined behaviour, a failed assertion and, where a file says so, an exception
    give [None]; exceptions that callers tell apart are values of a sum ([Serialize.result]) or of
    [Interpreter.outcome].  The validation state, the caches and the coins are passed explicitly.
    Abstract classes are type classes with their promises as a second class: [CCoinsView] with
    [CoinsViewSpec] and [CoinsViewSeen], [BaseSignatureChecker] with [CheckerSpec], [BlockCipher],
    [CryptoHash], [SphHash], [AbstractThresholdConditionChecker]; clients are proved against the promises
    and the implementations discharge them.

    Loops are structural where the data allows it.  The others take fuel, which the definitions set to a
    bound on the number of steps (bytes left, levels of a tree, heights of the chain, digits of a
    number); the theorems that say that a function answers include that this is enough.
    Local arrays that the code does not initialise are an argument [mem], about which nothing but the
    length is assumed.

    ** What is proved

    - Blocks and headers: [CheckBlock] and [ContextualCheckBlock] answer and accept exactly what keeps the
      listed rules; which refusals may be blamed on a header; [AcceptBlockHeader] keeps the invariant of
      the index; what the hash of a block and the witness commitment bind.
    - Index and chain: skip lists agree with walking back, [AddToBlockIndex] keeps heights, work and best
      header, [SetTip] and [FindFork] compute the chain and the fork.
    - Difficulty and reward: the compact formats, the retargeting rules, [CheckProofOfWork] as an
      equivalence, the money supply.
    - Stake: the stake modifier against its description, the acceptance of kernels as an equivalence.
    - Version bits: the cached computation is the state machine of BIP 9, up to the signal, which is the
      bit alone.
    - Scripts: evaluation ends without undefined behaviour, flags only restrict, multisignatures, templates
      and destinations, what signatures commit to in both versions.
    - Transactions and coins: the rules as equivalences, conservation of money, BIP 68, lock times that
      scripts ask for, caches as one map, connecting and disconnecting, formats on disk.
    - Formats: round trips and canonical encodings, with the exceptions that are raised.
    - Functions on bytes: SHA-2, HMAC, SipHash, BLAKE, CubeHash, Keccak and AES against their
      specifications, for data in any pieces.

    Where the code does not do what it says, the lemma beside the definition says what happens: for
    example [BlockIndex.GetBlockTrust_zero], [VersionBits.condition_ignores_top_bits],
    [Coins.coinstake_forgotten], [Undo.undo_loses_stake_mark], [Stake.kernel_out_of_range],
    [SigHash.coinstake_kernel_unchecked], [Block.oversized_signature], [Dividend.same_height_paid_twice].

    ** Parameters

    Code outside of the sources is an argument: the numbers of OpenSSL ([BigNum.OpenSSL], with its
    documented behaviour as [OpenSSL_spec]), the curve operations of secp256k1 ([Verify], [Check_key],
    [Compressor.KeyCurve]), the JSON reader, the sizes of structs that
    pace the reading of vectors ([Transaction.Platform]), [std::sort] where the order of equal keys shows.  So are
    parts of the repository that are not translated: the X13 hash of headers of version 6 and below
    ([Hash9]), SHA-1 and RIPEMD-160 for the interpreter ([ScriptCrypto]), the lookup of a transaction in the memory
    pool and the files ([GetTransaction]), the network switch [testnet].  No theorem assumes that a hash
    has no collisions: the statements give the collision instead.

    ** What is not modelled

    The ten other functions of X13; [ConnectBlock], [AcceptBlock] and the choice of the best chain, which
    combine the rules with the database, the files and the wallet; the memory pool, fee estimation and block
    assembly; networking, wallet storage, RPC and the graphical interface; files and threads everywhere.
    Locks are left out: each definition is the code between taking and releasing them. *)


From Stdlib Require Export ZArith Lia Btauto.
From stdpp Require Export base list numbers option tactics.

#[global] Open Scope Z_scope.

(** [lookup_total] on words reads 0 outside the array. *)
#[export] Instance Z_inhabited : Inhabited Z := populate 0.

(** ** Machine words *)

(** A [w]-bit unsigned integer is a [Z] in the range [0, 2^w). *)
Definition word (w x : Z) : Prop := 0 <= x < 2 ^ w.

(** An [unsigned char]. *)
Abbreviation byte := (word 8).

#[export] Instance word_dec w x : Decision (word w x).
Proof. unfold word. apply _. Defined.

(** [uint32_t] and [uint64_t] arithmetic. *)
Definition u32 (x : Z) : Z := x mod 2 ^ 32.
Definition u64 (x : Z) : Z := x mod 2 ^ 64.

Create HintDb words.

Lemma word_mod w x : 0 <= w -> word w (x mod 2 ^ w).
Proof. intros. apply Z.mod_pos_bound. lia. Qed.

Lemma word_mod_id w x : word w x -> x mod 2 ^ w = x.
Proof. intros. by apply Z.mod_small. Qed.

Lemma u32_small x : 0 <= x < 2 ^ 32 -> u32 x = x.
Proof. apply Z.mod_small. Qed.

Lemma word_testbit_high w x i : word w x -> w <= i -> Z.testbit x i = false.
Proof.
  intros Hx Hi. destruct (decide (w < 0)) as [Hw|Hw].
  { unfold word in Hx. rewrite Z.pow_neg_r in Hx; lia. }
  rewrite <- (word_mod_id w x Hx). apply Z.mod_pow2_bits_high. lia.
Qed.

(** A number is a [w]-bit word as soon as its bits at and above [w] vanish. *)
Lemma word_of_testbit w x :
  0 <= w -> 0 <= x -> (forall i, w <= i -> Z.testbit x i = false) -> word w x.
Proof.
  intros Hw Hx Hb. split; [done|].
  destruct (decide (x = 0)) as [->|Hne]; [lia|].
  apply Z.log2_lt_pow2; [lia|].
  destruct (decide (Z.log2 x < w)); [done|].
  specialize (Hb (Z.log2 x)). rewrite Z.bit_log2 in Hb by lia.
  discriminate Hb. lia.
Qed.

Lemma word_mono w w' x : 0 <= w <= w' -> word w x -> word w' x.
Proof. intros ? [? ?]. split; [done|]. pose proof (Z.pow_le_mono_r 2 w w'). lia. Qed.

Ltac word_bits :=
  apply word_of_testbit;
  [ done
  | rewrite ?Z.lxor_nonneg, ?Z.lor_nonneg, ?Z.land_nonneg; unfold word in *; tauto
  | let i := fresh "i" in
    intros i ?; rewrite ?Z.lxor_spec, ?Z.lor_spec, ?Z.land_spec;
    repeat erewrite (word_testbit_high _ _ i) by eassumption; btauto ].

Lemma word_lxor w x y : 0 <= w -> word w x -> word w y -> word w (Z.lxor x y).
Proof. intros. word_bits. Qed.

Lemma word_lor w x y : 0 <= w -> word w x -> word w y -> word w (Z.lor x y).
Proof. intros. word_bits. Qed.

Lemma word_land_l w x y : 0 <= w -> word w x -> word w (Z.land x y).
Proof.
  intros Hw Hx. apply word_of_testbit; [done| |].
  - apply Z.land_nonneg. left. apply Hx.
  - intros i Hi. rewrite Z.land_spec, (word_testbit_high w x i); done.
Qed.

Lemma word_land_r w x y : 0 <= w -> word w y -> word w (Z.land x y).
Proof. intros. rewrite Z.land_comm. by apply word_land_l. Qed.

Lemma word_0 w : 0 <= w -> word w 0.
Proof. intros. split; lia. Qed.

Lemma word_shiftr w x n : 0 <= n -> word w x -> word w (Z.shiftr x n).
Proof.
  intros Hn [Hx1 Hx2]. split.
  - by apply Z.shiftr_nonneg.
  - rewrite Z.shiftr_div_pow2 by done.
    apply Z.le_lt_trans with x; [|done].
    apply Z.div_le_upper_bound; [lia|]. pose proof (Z.pow_pos_nonneg 2 n). nia.
Qed.

#[export] Hint Resolve word_lxor word_lor word_land_l word_0 word_shiftr word_mod : words.
#[export] Hint Extern 1 (0 <= _) => lia : words.

(** Two [w]-bit words are equal as soon as their low [w] bits are. *)
Lemma word_ext w x y :
  word w x -> word w y ->
  (forall i, 0 <= i < w -> Z.testbit x i = Z.testbit y i) -> x = y.
Proof.
  intros Hx Hy Hb. apply Z.bits_inj'. intros i Hi.
  destruct (decide (i < w)); [by apply Hb|].
  rewrite !(word_testbit_high w) by (done || lia). done.
Qed.

(** ** C arrays *)

(** Copy [src] into [dst] at offset [off]; [None] is the undefined behaviour
    of a write that leaves the destination array. *)
Definition memcpy (dst : list Z) (off : nat) (src : list Z) : option (list Z) :=
  if (off + length src <=? length dst)%nat
  then Some (take off dst ++ src ++ drop (off + length src) dst)
  else None.

(** [memset(dst + off, v, n)]. *)
Definition memset (dst : list Z) (off : nat) (v : Z) (n : nat) : option (list Z) :=
  memcpy dst off (replicate n v).

(** [dst[i] = v] for an array of bytes. *)
Definition store (dst : list Z) (i : nat) (v : Z) : option (list Z) :=
  memcpy dst i [v].

Lemma memcpy_in_bounds dst off src :
  (off + length src <= length dst)%nat ->
  memcpy dst off src = Some (take off dst ++ src ++ drop (off + length src) dst).
Proof. intros H. unfold memcpy. by rewrite (proj2 (Nat.leb_le _ _) H). Qed.

Lemma memcpy_Some dst off src d :
  memcpy dst off src = Some d ->
  (off + length src <= length dst)%nat /\
  d = take off dst ++ src ++ drop (off + length src) dst.
Proof. unfold memcpy. destruct (Nat.leb_spec (off + length src) (length dst)); naive_solver. Qed.

Lemma memcpy_length dst off src d : memcpy dst off src = Some d -> length d = length dst.
Proof.
  intros [H ->]%memcpy_Some. rewrite !length_app, length_take, length_drop. lia.
Qed.

Lemma memcpy_take dst off src d :
  memcpy dst off src = Some d -> take (off + length src) d = take off dst ++ src.
Proof.
  intros [H ->]%memcpy_Some. rewrite app_assoc. rewrite take_app_length'; [done|].
  rewrite length_app, length_take. lia.
Qed.

Lemma memcpy_Forall (Q : Z -> Prop) dst off src d :
  Forall Q dst -> Forall Q src -> memcpy dst off src = Some d -> Forall Q d.
Proof.
  intros Hd Hs [_ ->]%memcpy_Some. auto using Forall_app_2, Forall_take, Forall_drop.
Qed.

(** Overwriting one segment of an array. *)
Lemma memcpy_app A B C src n :
  length B = length src -> n = length A -> memcpy (A ++ B ++ C) n src = Some (A ++ src ++ C).
Proof.
  intros HB ->. rewrite memcpy_in_bounds by (rewrite !length_app; lia). f_equal. f_equal.
  - by rewrite take_app_length.
  - f_equal. rewrite drop_app_add, <- HB. by rewrite drop_app_length.
Qed.

(** Store a byte and clear the rest of the array. *)
Lemma store_memset_tail b p v :
  (p < length b)%nat ->
  (b' ← store b p v; memset b' (p + 1) 0 (length b - (p + 1))) =
  Some (take p b ++ v :: replicate (length b - (p + 1)) 0).
Proof.
  intros Hp. unfold store. rewrite memcpy_in_bounds by (simpl; lia). cbn [mbind option_bind].
  assert (length (take p b ++ [v]) = (p + 1)%nat) as Hl
    by (rewrite length_app, length_take; simpl; lia).
  rewrite app_assoc. unfold memset. rewrite memcpy_in_bounds.
  2: { rewrite length_app, Hl, length_drop, length_replicate. simpl. lia. }
  f_equal. rewrite take_app_length' by done. rewrite length_replicate, drop_ge.
  - by rewrite app_nil_r, <- app_assoc.
  - rewrite length_app, Hl, length_drop. simpl. lia.
Qed.

(** ** Lists of words *)

Lemma lookup_total_map {A B} `{!Inhabited A, !Inhabited B} (f : A -> B) (l : list A) i :
  (i < length l)%nat -> map f l !!! i = f (l !!! i).
Proof.
  revert i. induction l as [|x l IH]; intros [|i] Hi; simpl in Hi; try lia; [done|].
  apply IH. lia.
Qed.

Lemma map_lookup_seq {A} (f : Z -> A) (l : list Z) w :
  (w <= length l)%nat -> map (fun z => f (l !!! z)) (seq 0 w) = map f (take w l).
Proof.
  revert w. induction l as [|x l IH]; intros w Hw; simpl in Hw.
  - by replace w with 0%nat by lia.
  - destruct w as [|w]; [done|]. cbn [seq map take]. f_equal.
    rewrite <- seq_shift, map_map. apply IH. lia.
Qed.

(** The first bytes of a list of words written one after the other. *)
Lemma take_concat_map (f : Z -> list Z) k w (l : list Z) :
  (forall x, length (f x) = k) ->
  take (k * w) (concat (map f l)) = concat (map f (take w l)).
Proof.
  intros Hf. revert l. induction w as [|w IH]; intros l; [by rewrite Nat.mul_0_r|].
  destruct l as [|x l]; [by destruct (k * S w)%nat|]. cbn [map concat take].
  replace (k * S w)%nat with (length (f x) + k * w)%nat by (rewrite Hf; lia).
  by rewrite take_app_add, IH.
Qed.

Lemma length_concat_map (f : Z -> list Z) k (l : list Z) :
  (forall x, length (f x) = k) -> length (concat (map f l)) = (k * length l)%nat.
Proof.
  intros Hf. induction l as [|x l IH]; simpl; [lia|]. rewrite length_app, Hf, IH. lia.
Qed.

Lemma Forall_concat_map (P : Z -> Prop) (f : Z -> list Z) (l : list Z) :
  (forall x, Forall P (f x)) -> Forall P (concat (map f l)).
Proof. intros Hf. induction l as [|x l IH]; simpl; [done|]. by apply Forall_app_2. Qed.

(** Writing words one after the other at the start of an array. *)
Lemma memcpy_words (f : nat -> list Z) k n tmp :
  (forall i, length (f i) = k) -> (k * n <= length tmp)%nat ->
  foldl (fun tmp i => tmp ← tmp; memcpy tmp (k * i) (f i)) (Some tmp) (seq 0 n) =
  Some (concat (map f (seq 0 n)) ++ drop (k * n) tmp).
Proof.
  intros Hf. induction n as [|n IH]; intros Hn; [by rewrite Nat.mul_0_r|].
  rewrite seq_S, foldl_app, map_app, concat_app, IH by lia. cbn [foldl mbind option_bind map concat].
  rewrite app_nil_r. set (pre := concat (map f (seq 0 n))).
  assert (length pre = k * n)%nat as Hpre.
  { unfold pre. clear -Hf. induction n as [|n IH]; [simpl; lia|].
    rewrite seq_S, map_app, concat_app, length_app, IH. cbn [map concat].
    rewrite app_nil_r, Hf. lia. }
  rewrite <- (take_drop k (drop (k * n) tmp)), drop_drop.
  rewrite memcpy_app; [|rewrite length_take, length_drop, Hf; lia|done].
  rewrite <- app_assoc. do 3 f_equal. f_equal. lia.
Qed.

Lemma lookup_total_Forall {A} `{!Inhabited A} (P : A -> Prop) l i :
  Forall P l -> P inhabitant -> P (l !!! i).
Proof.
  intros H Hd. rewrite list_lookup_total_alt. destruct (l !! i) as [x|] eqn:E; [|done].
  by eapply Forall_lookup_1.
Qed.

Lemma lookup_total_Forall2 {A B} `{!Inhabited A, !Inhabited B} (R : A -> B -> Prop) l k i :
  Forall2 R l k -> R inhabitant inhabitant -> R (l !!! i) (k !!! i).
Proof.
  intros H Hd. rewrite !list_lookup_total_alt. destruct (l !! i) as [x|] eqn:E.
  - by destruct (Forall2_lookup_l _ _ _ _ _ H E) as (y&->&?).
  - apply lookup_ge_None in E. rewrite (Forall2_length H) in E. by rewrite (lookup_ge_None_2 k).
Qed.

(** A loop that has failed stays failed. *)
Lemma foldl_bind_None {A B} (f : A -> B -> option A) l :
  foldl (fun o b => a ← o; f a b) None l = None.
Proof. by induction l. Qed.

(** A loop that updates each of the first elements of an array in turn. *)
Lemma foldl_insert_imap {A} `{!Inhabited A} (f : nat -> A -> A) (w : list A) k :
  foldl (fun w i => <[i := f i (w !!! i)]> w) w (seq 0 k) =
  imap (fun i x => if (i <? k)%nat then f i x else x) w.
Proof.
  induction k as [|k IH].
  { cbn [seq foldl]. symmetry. apply list_eq. intros i. rewrite list_lookup_imap.
    by destruct (w !! i). }
  rewrite seq_S, foldl_app, IH. cbn [foldl Nat.add]. apply list_eq. intros i.
  rewrite list_lookup_imap. destruct (decide (i = k)) as [->|Hne].
  - destruct (w !! k) as [x|] eqn:E; simpl.
    + rewrite list_lookup_insert_eq by (rewrite length_imap; by eapply lookup_lt_Some).
      rewrite list_lookup_total_alt, list_lookup_imap, E. simpl.
      by rewrite Nat.ltb_irrefl, (proj2 (Nat.ltb_lt k (S k))) by lia.
    + apply lookup_ge_None in E. apply lookup_ge_None. by rewrite length_insert, length_imap.
  - rewrite list_lookup_insert_ne, list_lookup_imap by done.
    destruct (w !! i) as [x|]; [|done]. simpl. f_equal.
    destruct (Nat.ltb_spec i k), (Nat.ltb_spec i (S k)); done || lia.
Qed.

(** ** Option-valued steps *)

Lemma bind_Some_inv {A B} (m : option A) (f : A -> option B) y :
  m ≫= f = Some y -> exists x, m = Some x /\ f x = Some y.
Proof. destruct m; naive_solver. Qed.


(** ** Bit-level reasoning *)

Declare Scope c_scope.
Infix "⊕" := Z.lxor (at level 50, left associativity) : c_scope.
Infix ".&" := Z.land (at level 45, left associativity) : c_scope.
Infix ".|" := Z.lor (at level 52, left associativity) : c_scope.
Infix "<<" := Z.shiftl (at level 40, left associativity) : c_scope.
Infix ">>" := Z.shiftr (at level 40, left associativity) : c_scope.

(** A property of all bit positions below a literal width, position by
    position. *)
Lemma below_literal w (P : Z -> Prop) :
  Forall P (seqZ 0 w) -> forall i, 0 <= i < w -> P i.
Proof. rewrite Forall_forall. intros H i Hi. apply H, list_elem_of_In, elem_of_seqZ. lia. Qed.

Create Rewrite HintDb bits.
#[export] Hint Rewrite Z.lxor_spec Z.lor_spec Z.land_spec Z.testbit_0_l : bits.
#[export] Hint Rewrite Z.shiftr_spec Z.shiftl_spec Z.lnot_spec using lia : bits.

(** Compute [Z.testbit c k] for literals [c] and [k], and literal sums of bit
    indices. *)
Ltac simpl_literals :=
  repeat match goal with
  | |- context [Z.testbit ?a (Z.neg ?p)] => change (Z.testbit a (Z.neg p)) with false
  | |- context [Z.testbit ?c ?k] =>
      let c' := eval vm_compute in c in
      match c' with Z0 => idtac | Zpos _ => idtac | Zneg _ => idtac end;
      match isZcst k with true => idtac end;
      let r := eval vm_compute in (Z.testbit c k) in
      change (Z.testbit c k) with r
  | |- context [Z.add ?a ?b] =>
      match isZcst a with true => idtac end;
      match isZcst b with true => idtac end;
      let r := eval vm_compute in (Z.add a b) in change (Z.add a b) with r
  | |- context [Z.sub ?a ?b] =>
      match isZcst a with true => idtac end;
      match isZcst b with true => idtac end;
      let r := eval vm_compute in (Z.sub a b) in change (Z.sub a b) with r
  end.
