(* ===== verification/BitReflect.v ===== *)
(** * A reflexive decision procedure for linear bit identities

    Byte swaps, rotations, shifts, masks and exclusive-ors move and add bits
    without multiplying them: every bit of the result is the exclusive-or of
    some input bits.  [bit_linear] proves an equation between two such word
    expressions by computing, for every bit position, the set of input bits on
    each side. *)

From S2P Require Import Prelude.

(** ** Expressions *)

Inductive bexp :=
  | BVar (v : nat)
  | BConst (c : Z)
  | BXor (a b : bexp)
  | BOr (a b : bexp)
  | BAnd (a b : bexp)
  | BShl (a : bexp) (n : Z)
  | BShr (a : bexp) (n : Z)
  | BNot (a : bexp).

Fixpoint bdenote (env : list Z) (e : bexp) : Z :=
  match e with
  | BVar v => env !!! v
  | BConst c => c
  | BXor a b => Z.lxor (bdenote env a) (bdenote env b)
  | BOr a b => Z.lor (bdenote env a) (bdenote env b)
  | BAnd a b => Z.land (bdenote env a) (bdenote env b)
  | BShl a n => Z.shiftl (bdenote env a) n
  | BShr a n => Z.shiftr (bdenote env a) n
  | BNot a => Z.lnot (bdenote env a)
  end.

(** ** Symbolic bits *)

(** The exclusive-or of a constant and a set of input bits (word, position). *)
Record lin := Lin { lin_const : bool; lin_atoms : list (nat * Z) }.

Definition atom_eqb (a b : nat * Z) : bool :=
  Nat.eqb a.1 b.1 && Z.eqb a.2 b.2.

Fixpoint toggle (a : nat * Z) (l : list (nat * Z)) : list (nat * Z) :=
  match l with
  | [] => [a]
  | b :: l => if atom_eqb a b then l else b :: toggle a l
  end.

Definition lin_xor (x y : lin) : lin :=
  Lin (xorb (lin_const x) (lin_const y)) (foldr toggle (lin_atoms y) (lin_atoms x)).

Definition lin_is_const (x : lin) : option bool :=
  match lin_atoms x with [] => Some (lin_const x) | _ => None end.

Definition lin_and (x y : lin) : option lin :=
  match lin_is_const x, lin_is_const y with
  | Some true, _ => Some y
  | Some false, _ => Some (Lin false [])
  | _, Some true => Some x
  | _, Some false => Some (Lin false [])
  | _, _ => None
  end.

Definition lin_or (x y : lin) : option lin :=
  match lin_is_const x, lin_is_const y with
  | Some false, _ => Some y
  | Some true, _ => Some (Lin true [])
  | _, Some false => Some x
  | _, Some true => Some (Lin true [])
  | _, _ => None
  end.

(** Bit [i] of an expression whose variables have the widths [ws]. *)
Fixpoint symbit (ws : list Z) (e : bexp) (i : Z) : option lin :=
  if i <? 0 then Some (Lin false []) else
  match e with
  | BVar v => Some (if i <? ws !!! v then Lin false [(v, i)] else Lin false [])
  | BConst c => Some (Lin (Z.testbit c i) [])
  | BXor a b => x ← symbit ws a i; y ← symbit ws b i; Some (lin_xor x y)
  | BOr a b => x ← symbit ws a i; y ← symbit ws b i; lin_or x y
  | BAnd a b => x ← symbit ws a i; y ← symbit ws b i; lin_and x y
  | BShl a n => symbit ws a (i - n)
  | BShr a n => symbit ws a (i + n)
  | BNot a => x ← symbit ws a i; Some (lin_xor (Lin true []) x)
  end.

Definition lin_eqb (x y : lin) : bool :=
  match lin_is_const (lin_xor x y) with Some false => true | _ => false end.

(** Do [e1] and [e2] agree on the bit positions below [w]? *)
Definition same_bits (ws : list Z) (w : Z) (e1 e2 : bexp) : bool :=
  forallb (fun i => match symbit ws e1 i, symbit ws e2 i with
                    | Some x, Some y => lin_eqb x y
                    | _, _ => false
                    end) (seqZ 0 w).

(** ** Soundness *)

Definition atom_denote (env : list Z) (a : nat * Z) : bool := Z.testbit (env !!! a.1) a.2.

Definition lin_denote (env : list Z) (x : lin) : bool :=
  foldr (fun a b => xorb (atom_denote env a) b) (lin_const x) (lin_atoms x).

Section soundness.
Context (env ws : list Z).
Context (Hws : forall v, word (ws !!! v) (env !!! v)).

Lemma atom_eqb_eq a b : atom_eqb a b = true -> a = b.
Proof.
  destruct a, b. unfold atom_eqb. simpl. intros [->%Nat.eqb_eq ->%Z.eqb_eq]%andb_true_iff.
  done.
Qed.

Lemma toggle_denote c a l :
  lin_denote env (Lin c (toggle a l)) =
  xorb (atom_denote env a) (lin_denote env (Lin c l)).
Proof.
  unfold lin_denote. simpl. induction l as [|b l IH]; simpl; [done|].
  destruct (atom_eqb a b) eqn:E; simpl.
  - apply atom_eqb_eq in E as ->. btauto.
  - rewrite IH. btauto.
Qed.

Lemma lin_const_denote c d l :
  lin_denote env (Lin (xorb c d) l) = xorb c (lin_denote env (Lin d l)).
Proof. unfold lin_denote. simpl. induction l as [|a l IH]; simpl; [done|]. rewrite IH. btauto. Qed.

Lemma lin_xor_denote x y :
  lin_denote env (lin_xor x y) = xorb (lin_denote env x) (lin_denote env y).
Proof.
  destruct x as [c l], y as [d m]. unfold lin_xor. simpl.
  rewrite lin_const_denote. induction l as [|a l IH]; simpl.
  - done.
  - rewrite toggle_denote.
    change (lin_denote env (Lin c (a :: l))) with
      (xorb (atom_denote env a) (lin_denote env (Lin c l))).
    rewrite xorb_assoc, <- IH. btauto.
Qed.

Lemma lin_is_const_denote x b : lin_is_const x = Some b -> lin_denote env x = b.
Proof. destruct x as [c [|]]; [by intros [= <-]|discriminate]. Qed.

Lemma lin_denote_nil b : lin_denote env (Lin b []) = b.
Proof. done. Qed.

Lemma lin_and_denote x y z :
  lin_and x y = Some z -> lin_denote env z = lin_denote env x && lin_denote env y.
Proof.
  unfold lin_and.
  destruct (lin_is_const x) as [[]|] eqn:Ex, (lin_is_const y) as [[]|] eqn:Ey;
    intros [= <-];
    repeat match goal with
    | H : lin_is_const _ = Some _ |- _ => apply lin_is_const_denote in H; rewrite H
    end; rewrite ?lin_denote_nil; btauto.
Qed.

Lemma lin_or_denote x y z :
  lin_or x y = Some z -> lin_denote env z = lin_denote env x || lin_denote env y.
Proof.
  unfold lin_or.
  destruct (lin_is_const x) as [[]|] eqn:Ex, (lin_is_const y) as [[]|] eqn:Ey;
    intros [= <-];
    repeat match goal with
    | H : lin_is_const _ = Some _ |- _ => apply lin_is_const_denote in H; rewrite H
    end; rewrite ?lin_denote_nil; btauto.
Qed.

Lemma symbit_sound e i x :
  symbit ws e i = Some x -> Z.testbit (bdenote env e) i = lin_denote env x.
Proof.
  revert i x.
  induction e as [v|c|a IHa b IHb|a IHa b IHb|a IHa b IHb|a IHa n|a IHa n|a IHa];
    intros i x; simpl;
    (destruct (Z.ltb_spec i 0); [intros [= <-]; by apply Z.testbit_neg_r|]).
  - intros [= <-]. destruct (Z.ltb_spec i (ws !!! v)).
    + by unfold lin_denote, atom_denote; simpl; rewrite xorb_false_r.
    + by apply (word_testbit_high (ws !!! v)).
  - by intros [= <-].
  - intros (p&Hp&(q&Hq&[= <-])%bind_Some_inv)%bind_Some_inv.
    by rewrite Z.lxor_spec, (IHa _ _ Hp), (IHb _ _ Hq), lin_xor_denote.
  - intros (p&Hp&(q&Hq&Hx)%bind_Some_inv)%bind_Some_inv.
    by rewrite Z.lor_spec, (IHa _ _ Hp), (IHb _ _ Hq), (lin_or_denote _ _ _ Hx).
  - intros (p&Hp&(q&Hq&Hx)%bind_Some_inv)%bind_Some_inv.
    by rewrite Z.land_spec, (IHa _ _ Hp), (IHb _ _ Hq), (lin_and_denote _ _ _ Hx).
  - intros Hx. by rewrite Z.shiftl_spec, (IHa _ _ Hx).
  - intros Hx. by rewrite Z.shiftr_spec, (IHa _ _ Hx).
  - intros (p&Hp&[= <-])%bind_Some_inv.
    rewrite Z.lnot_spec, (IHa _ _ Hp), lin_xor_denote by done. by destruct (lin_denote env p).
Qed.

Lemma lin_eqb_denote x y : lin_eqb x y = true -> lin_denote env x = lin_denote env y.
Proof.
  unfold lin_eqb. destruct (lin_is_const (lin_xor x y)) as [[]|] eqn:E; try done.
  intros _. apply lin_is_const_denote in E. rewrite lin_xor_denote in E.
  by apply xorb_eq.
Qed.

Lemma same_bits_sound w e1 e2 :
  same_bits ws w e1 e2 = true ->
  forall i, 0 <= i < w -> Z.testbit (bdenote env e1) i = Z.testbit (bdenote env e2) i.
Proof.
  unfold same_bits. rewrite forallb_forall. intros H i Hi.
  specialize (H i). rewrite <- list_elem_of_In, elem_of_seqZ in H.
  specialize (H ltac:(lia)).
  destruct (symbit ws e1 i) as [x|] eqn:E1, (symbit ws e2 i) as [y|] eqn:E2; try done.
  rewrite (symbit_sound _ _ _ E1), (symbit_sound _ _ _ E2). by apply lin_eqb_denote.
Qed.
End soundness.

(** The environment of [bit_linear]: every variable has the width listed for it. *)
Lemma widths_ok (env ws : list Z) :
  Forall2 word ws env -> forall v, word (ws !!! v) (env !!! v).
Proof.
  intros H v. destruct (decide (v < length env)%nat) as [Hv|Hv].
  - destruct (lookup_lt_is_Some_2 env v Hv) as [x Hx].
    destruct (Forall2_lookup_r _ _ _ _ _ H Hx) as (w&Hw&?).
    by rewrite (list_lookup_total_correct _ _ _ Hw), (list_lookup_total_correct _ _ _ Hx).
  - pose proof (Forall2_length H).
    rewrite !list_lookup_total_alt, !lookup_ge_None_2 by lia. done.
Qed.

Lemma bit_linear_sound w (ws env : list Z) e1 e2 :
  Forall2 word ws env -> same_bits ws w e1 e2 = true ->
  forall i, 0 <= i < w -> Z.testbit (bdenote env e1) i = Z.testbit (bdenote env e2) i.
Proof. intros Hw. by apply same_bits_sound, widths_ok. Qed.

(** Expressions that only move bits: bit [i] is the input bit [f i]. *)
Definition moves_bits (ws : list Z) (w : Z) (e : bexp) (f : Z -> nat * Z) : bool :=
  forallb (fun i => match symbit ws e i with
                    | Some x => lin_eqb x (Lin false [f i])
                    | None => false
                    end) (seqZ 0 w).

Lemma bit_moves_sound w (ws env : list Z) e f :
  Forall2 word ws env -> moves_bits ws w e f = true ->
  forall i, 0 <= i < w -> Z.testbit (bdenote env e) i = Z.testbit (env !!! (f i).1) (f i).2.
Proof.
  intros Hw. unfold moves_bits. rewrite forallb_forall. intros H i Hi.
  specialize (H i). rewrite <- list_elem_of_In, elem_of_seqZ in H. specialize (H ltac:(lia)).
  destruct (symbit ws e i) as [x|] eqn:E; [|done].
  rewrite (symbit_sound env ws (widths_ok _ _ Hw) _ _ _ E), (lin_eqb_denote env _ _ H).
  unfold lin_denote, atom_denote. simpl. apply xorb_false_r.
Qed.

(** ** Reification *)

Ltac is_literal c := match isZcst c with true => idtac end.

Ltac find_var env x :=
  match env with
  | x :: _ => constr:(O)
  | _ :: ?env => let n := find_var env x in constr:(S n)
  end.

Ltac reify env e :=
  match e with
  | Z.lxor ?a ?b => let a := reify env a in let b := reify env b in constr:(BXor a b)
  | Z.lor ?a ?b => let a := reify env a in let b := reify env b in constr:(BOr a b)
  | Z.land ?a ?b => let a := reify env a in let b := reify env b in constr:(BAnd a b)
  | Z.shiftl ?a ?n => let a := reify env a in constr:(BShl a n)
  | Z.shiftr ?a ?n => let a := reify env a in constr:(BShr a n)
  | Z.lnot ?a => let a := reify env a in constr:(BNot a)
  | ?c => let _ := match goal with _ => is_literal c end in constr:(BConst c)
  | ?x => let n := find_var env x in constr:(BVar n)
  end.

(** [bit_linear w ws env] proves that two expressions over the words [env], of
    widths [ws], have the same bits below [w]. *)
Ltac bit_linear w ws env :=
  match goal with
  | |- forall i, 0 <= i < _ -> Z.testbit ?a i = Z.testbit ?b i =>
      let ea := reify env a in
      let eb := reify env b in
      apply (bit_linear_sound w ws env ea eb);
      [ repeat (apply Forall2_cons_2; [assumption|]); apply Forall2_nil_2
      | vm_compute; reflexivity ]
  end.

(** [bit_moves w ws env f] proves that bit [i] of an expression over [env] is the
    input bit [f i], below [w]. *)
Ltac bit_moves w ws env f :=
  match goal with
  | |- forall i, 0 <= i < _ -> Z.testbit ?a i = _ =>
      let ea := reify env a in
      apply (bit_moves_sound w ws env ea f);
      [ repeat (apply Forall2_cons_2; [assumption|]); apply Forall2_nil_2
      | vm_compute; reflexivity ]
  end.
