(* ===== verification/SphTypes.v ===== *)
(** * Word arithmetic and byte codecs of [src/src/sph_types.h]

    The 32- and 64-bit word operations used by all the hash functions, and the
    functions that read and write words in byte arrays.  Where the header has a
    portable branch and a branch for little-endian machines, both are modelled
    and shown equal. *)

From S2P Require Import Prelude BitReflect.

#[local] Open Scope c_scope.

(** ** Words *)

Definition SPH_T32 (x : Z) : Z := x .& 0xFFFFFFFF.
Definition SPH_T64 (x : Z) : Z := x .& 0xFFFFFFFFFFFFFFFF.

Definition SPH_ROTL32 (x n : Z) : Z := SPH_T32 ((x << n) .| (x >> (32 - n))).
Definition SPH_ROTR32 (x n : Z) : Z := SPH_ROTL32 x (32 - n).
Definition SPH_ROTL64 (x n : Z) : Z := SPH_T64 ((x << n) .| (x >> (64 - n))).
Definition SPH_ROTR64 (x n : Z) : Z := SPH_ROTL64 x (64 - n).

(** Conversion to [unsigned char]. *)
Definition uchar (x : Z) : Z := x .& 0xFF.

(** ** Byte order *)

(** What a little-endian machine stores for an [n]-byte word, and what it loads
    from memory. *)
Fixpoint store_le (n : nat) (v : Z) : list Z :=
  match n with
  | O => []
  | S n => uchar v :: store_le n (v >> 8)
  end.

Fixpoint load_le (n : nat) (src : list Z) : Z :=
  match n, src with
  | S n, b :: src => b .| (load_le n src << 8)
  | _, _ => 0
  end.

(** The portable [sph_bswap32] and [sph_bswap64]. *)
Definition sph_bswap32 (x : Z) : Z :=
  let x := SPH_T32 ((x << 16) .| (x >> 16)) in
  ((x .& 0xFF00FF00) >> 8) .| ((x .& 0x00FF00FF) << 8).

Definition sph_bswap64 (x : Z) : Z :=
  let x := SPH_T64 ((x << 32) .| (x >> 32)) in
  let x := ((x .& 0xFFFF0000FFFF0000) >> 16) .| ((x .& 0x0000FFFF0000FFFF) << 16) in
  ((x .& 0xFF00FF00FF00FF00) >> 8) .| ((x .& 0x00FF00FF00FF00FF) << 8).

(** The bytes each encoder writes at its destination (portable branches). *)
Definition sph_enc16be (val : Z) : list Z := [uchar (val >> 8); uchar val].
Definition sph_enc16le (val : Z) : list Z := [uchar val; uchar (val >> 8)].
Definition sph_enc32be (val : Z) : list Z :=
  [uchar (val >> 24); uchar (val >> 16); uchar (val >> 8); uchar val].
Definition sph_enc32le (val : Z) : list Z :=
  [uchar val; uchar (val >> 8); uchar (val >> 16); uchar (val >> 24)].
Definition sph_enc64be (val : Z) : list Z :=
  [uchar (val >> 56); uchar (val >> 48); uchar (val >> 40); uchar (val >> 32);
   uchar (val >> 24); uchar (val >> 16); uchar (val >> 8); uchar val].
Definition sph_enc64le (val : Z) : list Z :=
  [uchar val; uchar (val >> 8); uchar (val >> 16); uchar (val >> 24);
   uchar (val >> 32); uchar (val >> 40); uchar (val >> 48); uchar (val >> 56)].

(** The word each decoder reads at [src] (portable branches). *)
Definition sph_dec16be (src : list Z) : Z :=
  ((src !!! 0%nat) << 8) .| (src !!! 1%nat).
Definition sph_dec16le (src : list Z) : Z :=
  (src !!! 0%nat) .| ((src !!! 1%nat) << 8).
Definition sph_dec32be (src : list Z) : Z :=
  ((src !!! 0%nat) << 24) .| ((src !!! 1%nat) << 16)
  .| ((src !!! 2%nat) << 8) .| (src !!! 3%nat).
Definition sph_dec32le (src : list Z) : Z :=
  (src !!! 0%nat) .| ((src !!! 1%nat) << 8)
  .| ((src !!! 2%nat) << 16) .| ((src !!! 3%nat) << 24).
Definition sph_dec64be (src : list Z) : Z :=
  ((src !!! 0%nat) << 56) .| ((src !!! 1%nat) << 48)
  .| ((src !!! 2%nat) << 40) .| ((src !!! 3%nat) << 32)
  .| ((src !!! 4%nat) << 24) .| ((src !!! 5%nat) << 16)
  .| ((src !!! 6%nat) << 8) .| (src !!! 7%nat).
Definition sph_dec64le (src : list Z) : Z :=
  (src !!! 0%nat) .| ((src !!! 1%nat) << 8)
  .| ((src !!! 2%nat) << 16) .| ((src !!! 3%nat) << 24)
  .| ((src !!! 4%nat) << 32) .| ((src !!! 5%nat) << 40)
  .| ((src !!! 6%nat) << 48) .| ((src !!! 7%nat) << 56).

(** The branches taken on a little-endian machine ([SPH_LITTLE_ENDIAN]). *)
Definition sph_enc32be_aligned (val : Z) : list Z := store_le 4 (sph_bswap32 val).
Definition sph_dec32be_aligned (src : list Z) : Z := sph_bswap32 (load_le 4 src).
Definition sph_enc32le_aligned (val : Z) : list Z := store_le 4 val.
Definition sph_dec32le_aligned (src : list Z) : Z := load_le 4 src.
Definition sph_enc64be_aligned (val : Z) : list Z := store_le 8 (sph_bswap64 val).
Definition sph_dec64be_aligned (src : list Z) : Z := sph_bswap64 (load_le 8 src).
Definition sph_enc64le_aligned (val : Z) : list Z := store_le 8 val.
Definition sph_dec64le_aligned (src : list Z) : Z := load_le 8 src.

(** ** Word lemmas *)

Lemma SPH_T32_mod x : SPH_T32 x = x mod 2 ^ 32.
Proof. unfold SPH_T32. by rewrite <- (Z.land_ones x 32). Qed.

Lemma SPH_T64_mod x : SPH_T64 x = x mod 2 ^ 64.
Proof. unfold SPH_T64. by rewrite <- (Z.land_ones x 64). Qed.

Lemma uchar_mod x : uchar x = x mod 2 ^ 8.
Proof. unfold uchar. by rewrite <- (Z.land_ones x 8). Qed.

Lemma SPH_T32_word x : word 32 (SPH_T32 x).
Proof. rewrite SPH_T32_mod. by apply word_mod. Qed.

Lemma SPH_T64_word x : word 64 (SPH_T64 x).
Proof. rewrite SPH_T64_mod. by apply word_mod. Qed.

Lemma uchar_byte x : byte (uchar x).
Proof. rewrite uchar_mod. by apply word_mod. Qed.

Lemma SPH_T32_id x : word 32 x -> SPH_T32 x = x.
Proof. intros. rewrite SPH_T32_mod. by apply word_mod_id. Qed.

Lemma SPH_T64_id x : word 64 x -> SPH_T64 x = x.
Proof. intros. rewrite SPH_T64_mod. by apply word_mod_id. Qed.

Lemma SPH_ROTL32_word x n : word 32 (SPH_ROTL32 x n).
Proof. apply SPH_T32_word. Qed.

Lemma SPH_ROTR32_word x n : word 32 (SPH_ROTR32 x n).
Proof. apply SPH_T32_word. Qed.

Lemma SPH_ROTL64_word x n : word 64 (SPH_ROTL64 x n).
Proof. apply SPH_T64_word. Qed.

Lemma SPH_ROTR64_word x n : word 64 (SPH_ROTR64 x n).
Proof. apply SPH_T64_word. Qed.

#[export] Hint Resolve SPH_T32_word SPH_T64_word uchar_byte
  SPH_ROTL32_word SPH_ROTR32_word SPH_ROTL64_word SPH_ROTR64_word : words.

Lemma SPH_T32_testbit x i :
  Z.testbit (SPH_T32 x) i = bool_decide (i < 32) && Z.testbit x i.
Proof.
  destruct (decide (i < 0)); [by rewrite !Z.testbit_neg_r, andb_false_r by lia|].
  rewrite SPH_T32_mod. case_bool_decide.
  - by rewrite Z.mod_pow2_bits_low by lia.
  - by rewrite Z.mod_pow2_bits_high by lia.
Qed.

Lemma SPH_T64_testbit x i :
  Z.testbit (SPH_T64 x) i = bool_decide (i < 64) && Z.testbit x i.
Proof.
  destruct (decide (i < 0)); [by rewrite !Z.testbit_neg_r, andb_false_r by lia|].
  rewrite SPH_T64_mod. case_bool_decide.
  - by rewrite Z.mod_pow2_bits_low by lia.
  - by rewrite Z.mod_pow2_bits_high by lia.
Qed.

(** A rotation moves bit [i - n] (cyclically) to position [i]. *)
Lemma rotl_testbit_aux w x n i :
  word w x -> 0 < n < w -> 0 <= i < w ->
  Z.testbit ((x << n) .| (x >> (w - n))) i = Z.testbit x ((i - n) mod w).
Proof.
  intros Hx Hn Hi. rewrite Z.lor_spec, Z.shiftl_spec, Z.shiftr_spec by lia.
  destruct (decide (n <= i)).
  - rewrite (Z.mod_small (i - n)) by lia.
    rewrite (word_testbit_high w x (i + (w - n))) by (done || lia).
    apply orb_false_r.
  - rewrite (Z.testbit_neg_r x (i - n)) by lia. simpl. f_equal.
    apply Z.mod_unique with (-1); lia.
Qed.

Lemma SPH_ROTL32_testbit x n i :
  word 32 x -> 0 < n < 32 -> 0 <= i < 32 ->
  Z.testbit (SPH_ROTL32 x n) i = Z.testbit x ((i - n) mod 32).
Proof.
  intros. unfold SPH_ROTL32. rewrite SPH_T32_testbit, bool_decide_true by lia.
  by apply rotl_testbit_aux.
Qed.

Lemma SPH_ROTL64_testbit x n i :
  word 64 x -> 0 < n < 64 -> 0 <= i < 64 ->
  Z.testbit (SPH_ROTL64 x n) i = Z.testbit x ((i - n) mod 64).
Proof.
  intros. unfold SPH_ROTL64. rewrite SPH_T64_testbit, bool_decide_true by lia.
  by apply rotl_testbit_aux.
Qed.

Lemma SPH_ROTR32_ROTL32 x n :
  word 32 x -> 0 < n < 32 -> SPH_ROTR32 (SPH_ROTL32 x n) n = x.
Proof.
  intros Hx Hn. apply (word_ext 32); auto with words. intros i Hi.
  unfold SPH_ROTR32. rewrite SPH_ROTL32_testbit by (auto with words || lia).
  rewrite SPH_ROTL32_testbit by (done || lia || by apply Z.mod_pos_bound). f_equal.
  rewrite Zminus_mod_idemp_l. symmetry. apply Z.mod_unique with (-1); lia.
Qed.

Lemma SPH_ROTL32_ROTR32 x n :
  word 32 x -> 0 < n < 32 -> SPH_ROTL32 (SPH_ROTR32 x n) n = x.
Proof.
  intros Hx Hn. unfold SPH_ROTR32.
  replace n with (32 - (32 - n)) at 2 by lia.
  apply (SPH_ROTR32_ROTL32 x (32 - n)); [done|lia].
Qed.

Lemma SPH_ROTR64_ROTL64 x n :
  word 64 x -> 0 < n < 64 -> SPH_ROTR64 (SPH_ROTL64 x n) n = x.
Proof.
  intros Hx Hn. apply (word_ext 64); auto with words. intros i Hi.
  unfold SPH_ROTR64. rewrite SPH_ROTL64_testbit by (auto with words || lia).
  rewrite SPH_ROTL64_testbit by (done || lia || by apply Z.mod_pos_bound). f_equal.
  rewrite Zminus_mod_idemp_l. symmetry. apply Z.mod_unique with (-1); lia.
Qed.

Lemma SPH_ROTL64_ROTR64 x n :
  word 64 x -> 0 < n < 64 -> SPH_ROTL64 (SPH_ROTR64 x n) n = x.
Proof.
  intros Hx Hn. unfold SPH_ROTR64.
  replace n with (64 - (64 - n)) at 2 by lia.
  apply (SPH_ROTR64_ROTL64 x (64 - n)); [done|lia].
Qed.

(** Modular addition is undone by modular subtraction. *)
Lemma SPH_T32_add_sub x y : word 32 y -> SPH_T32 (SPH_T32 (x + y) - x) = y.
Proof.
  intros. rewrite !SPH_T32_mod, Zminus_mod_idemp_l.
  replace (x + y - x) with y by lia. by apply word_mod_id.
Qed.

Lemma SPH_T64_add_sub x y : word 64 y -> SPH_T64 (SPH_T64 (x + y) - x) = y.
Proof.
  intros. rewrite !SPH_T64_mod, Zminus_mod_idemp_l.
  replace (x + y - x) with y by lia. by apply word_mod_id.
Qed.

(** ** Codec lemmas *)

Ltac unfold_codec :=
  unfold sph_dec16be, sph_dec16le, sph_dec32be, sph_dec32le, sph_dec64be, sph_dec64le,
    sph_enc16be, sph_enc16le, sph_enc32be, sph_enc32le, sph_enc64be, sph_enc64le,
    sph_bswap32, sph_bswap64, SPH_T32, SPH_T64, uchar;
  cbv beta zeta;
  cbn [lookup_total list_lookup_total].

Lemma word_shiftl w n x : 0 <= n <= w -> word (w - n) x -> word w (x << n).
Proof.
  intros Hn [H1 H2]. split; [by apply Z.shiftl_nonneg|].
  rewrite Z.shiftl_mul_pow2 by lia. replace w with ((w - n) + n) by lia.
  rewrite Z.pow_add_r by lia. pose proof (Z.pow_pos_nonneg 2 n). nia.
Qed.

Lemma uchar_id x : byte x -> uchar x = x.
Proof. intros. rewrite uchar_mod. by apply word_mod_id. Qed.

Lemma uchar_lor_shiftl x y : byte x -> uchar (x .| (y << 8)) = x.
Proof.
  intros Hx. unfold uchar. rewrite Z.land_lor_distr_l.
  change (x .& 255) with (uchar x). rewrite uchar_id by done.
  replace ((y << 8) .& 255) with 0; [apply Z.lor_0_r|].
  symmetry. change 255 with (Z.ones 8). rewrite Z.land_ones, Z.shiftl_mul_pow2 by lia.
  by apply Z.mod_mul.
Qed.

Lemma lor_shiftl_shiftr x y : byte x -> 0 <= y -> (x .| (y << 8)) >> 8 = y.
Proof.
  intros Hx Hy. rewrite Z.shiftr_lor, Z.shiftr_shiftl_l, Z.shiftl_0_r by lia.
  rewrite Z.shiftr_div_pow2, (Z.div_small x) by (done || lia). done.
Qed.

Lemma uchar_lor_shiftr v : uchar v .| ((v >> 8) << 8) = v.
Proof.
  apply Z.bits_inj'. intros i Hi.
  unfold uchar. change 255 with (Z.ones 8).
  rewrite Z.lor_spec, Z.land_spec, Z.shiftl_spec, Z.testbit_ones_nonneg by lia.
  destruct (Z.ltb_spec i 8).
  - rewrite (Z.testbit_neg_r _ (i - 8)) by lia. by rewrite andb_true_r, orb_false_r.
  - rewrite Z.shiftr_spec by lia. replace (i - 8 + 8) with i by lia.
    by rewrite andb_false_r.
Qed.

Lemma length_store_le n v : length (store_le n v) = n.
Proof. revert v. induction n; simpl; auto. Qed.

Lemma store_le_bytes n v : Forall byte (store_le n v).
Proof. revert v. induction n; simpl; auto with words. Qed.

Lemma load_le_word n src :
  Forall byte src -> (n <= length src)%nat -> word (8 * Z.of_nat n) (load_le n src).
Proof.
  revert src. induction n as [|n IH]; intros src Hb Hl; [by apply word_0|].
  destruct src as [|b src]; simpl in Hl; [lia|].
  apply Forall_cons_1 in Hb as [Hb Hbs]. cbn [load_le].
  apply word_lor; [lia| |].
  - apply (word_mono 8); [lia|done].
  - apply word_shiftl; [lia|].
    replace (8 * Z.of_nat (S n) - 8) with (8 * Z.of_nat n) by lia.
    apply IH; [done|lia].
Qed.

(** Also when the array is too short: the missing bytes read as 0. *)
Lemma load_le_word_short n src :
  Forall byte src -> word (8 * Z.of_nat n) (load_le n src).
Proof.
  revert src. induction n as [|n IH]; intros src Hb; [by apply word_0|].
  destruct src as [|b src]; [apply word_0; lia|].
  apply Forall_cons_1 in Hb as [Hb Hbs]. cbn [load_le].
  apply word_lor; [lia|apply (word_mono 8); [lia|done]|].
  apply word_shiftl; [lia|].
  replace (8 * Z.of_nat (S n) - 8) with (8 * Z.of_nat n) by lia. by apply IH.
Qed.

Lemma store_le_load_le n src :
  Forall byte src -> length src = n -> store_le n (load_le n src) = src.
Proof.
  revert src. induction n as [|n IH]; intros src Hb Hl; [by destruct src|].
  destruct src as [|b src]; simpl in Hl; [lia|].
  apply Forall_cons_1 in Hb as [Hb Hbs]. cbn [load_le store_le].
  rewrite uchar_lor_shiftl by done.
  rewrite lor_shiftl_shiftr by (done || eapply load_le_word; eauto; lia).
  f_equal. apply IH; [done|lia].
Qed.

Lemma load_le_store_le n v :
  word (8 * Z.of_nat n) v -> load_le n (store_le n v) = v.
Proof.
  revert v. induction n as [|n IH]; intros v Hv.
  { unfold word in Hv. simpl in *. lia. }
  cbn [load_le store_le].
  rewrite IH; [apply uchar_lor_shiftr|].
  destruct Hv as [H1 H2]. split; [by apply Z.shiftr_nonneg|].
  rewrite Z.shiftr_div_pow2 by lia. apply Z.div_lt_upper_bound; [lia|].
  rewrite <- Z.pow_add_r by lia. by replace (8 + 8 * Z.of_nat n) with (8 * Z.of_nat (S n)) by lia.
Qed.

(** Wide accesses as two narrow ones. *)
Lemma load_le_nil n : load_le n [] = 0.
Proof. by destruct n. Qed.

Lemma load_le_add n m src :
  load_le (n + m) src = load_le n src .| (load_le m (drop n src) << (8 * Z.of_nat n)).
Proof.
  revert src. induction n as [|n IH]; intros src; [by rewrite Z.shiftl_0_r|].
  destruct src as [|b src]; [by rewrite !load_le_nil, Z.shiftl_0_l|]. cbn [Nat.add load_le drop].
  rewrite IH. rewrite Z.shiftl_lor, Z.shiftl_shiftl, Z.lor_assoc by lia.
  do 2 f_equal. lia.
Qed.

Lemma store_le_add n m v :
  store_le (n + m) v = store_le n v ++ store_le m (v >> (8 * Z.of_nat n)).
Proof.
  revert v. induction n as [|n IH]; intros v; [by rewrite Z.shiftr_0_r|].
  cbn [Nat.add store_le app]. rewrite IH, Z.shiftr_shiftr by lia.
  by replace (8 + 8 * Z.of_nat n) with (8 * Z.of_nat (S n)) by lia.
Qed.

Lemma store_le_ext n v v' :
  (forall i, 0 <= i < 8 * Z.of_nat n -> Z.testbit v i = Z.testbit v' i) -> store_le n v = store_le n v'.
Proof.
  revert v v'. induction n as [|n IH]; intros v v' Hb; [done|]. cbn [store_le]. f_equal.
  - apply (word_ext 8); [auto with words..|]. intros i Hi. rewrite !uchar_mod.
    rewrite !Z.mod_pow2_bits_low by lia. apply Hb. lia.
  - apply IH. intros i Hi. rewrite !Z.shiftr_spec by lia. apply Hb. lia.
Qed.

(** A load reads no further than its width. *)
Lemma load_le_take n k l : (n <= k)%nat -> load_le n (take k l) = load_le n l.
Proof.
  revert k l. induction n as [|n IH]; intros k l Hk; [done|].
  destruct k as [|k]; [lia|]. destruct l as [|x l]; [done|].
  cbn [load_le take]. rewrite IH by lia. done.
Qed.

(** The portable codecs in terms of little-endian memory accesses. *)
Lemma sph_enc32le_store v : sph_enc32le v = store_le 4 v.
Proof. unfold sph_enc32le, store_le. by rewrite !Z.shiftr_shiftr by lia. Qed.

Lemma sph_enc64le_store v : sph_enc64le v = store_le 8 v.
Proof. unfold sph_enc64le, store_le. by rewrite !Z.shiftr_shiftr by lia. Qed.

Lemma sph_enc32be_store v : sph_enc32be v = rev (store_le 4 v).
Proof. unfold sph_enc32be, store_le. by rewrite !Z.shiftr_shiftr by lia. Qed.

Lemma sph_enc64be_store v : sph_enc64be v = rev (store_le 8 v).
Proof. unfold sph_enc64be, store_le. by rewrite !Z.shiftr_shiftr by lia. Qed.

Ltac unfold_load :=
  cbn [load_le rev app];
  rewrite ?Z.shiftl_lor, ?Z.shiftl_shiftl, ?Z.shiftl_0_l, ?Z.lor_0_r by lia;
  cbn [Z.add Pos.add Pos.succ]; rewrite ?Z.lor_assoc.

Lemma sph_dec32le_load a b c d r :
  sph_dec32le (a :: b :: c :: d :: r) = load_le 4 [a; b; c; d].
Proof. unfold_codec. by unfold_load. Qed.

Lemma sph_dec64le_load a b c d e f g h r :
  sph_dec64le (a :: b :: c :: d :: e :: f :: g :: h :: r) =
  load_le 8 [a; b; c; d; e; f; g; h].
Proof. unfold_codec. by unfold_load. Qed.

Lemma lor_rev4 a b c d : a .| b .| c .| d = d .| c .| b .| a.
Proof. apply Z.bits_inj. intros i. rewrite !Z.lor_spec. btauto. Qed.

Lemma lor_rev8 a b c d e f g h :
  a .| b .| c .| d .| e .| f .| g .| h = h .| g .| f .| e .| d .| c .| b .| a.
Proof. apply Z.bits_inj. intros i. rewrite !Z.lor_spec. btauto. Qed.

Lemma sph_dec32be_load a b c d r :
  sph_dec32be (a :: b :: c :: d :: r) = load_le 4 (rev [a; b; c; d]).
Proof. unfold_codec. unfold_load. apply lor_rev4. Qed.

Lemma sph_dec64be_load a b c d e f g h r :
  sph_dec64be (a :: b :: c :: d :: e :: f :: g :: h :: r) =
  load_le 8 (rev [a; b; c; d; e; f; g; h]).
Proof. unfold_codec. unfold_load. apply lor_rev8. Qed.

(** Byte swapping reverses the bytes of the memory image. *)
Lemma word_mask_shiftr w x m n :
  0 <= w -> 0 <= n -> word w m -> word w ((x .& m) >> n).
Proof. intros. apply word_shiftr; [done|]. by apply word_land_r. Qed.

Lemma word_mask_shiftl w x m n :
  0 <= n <= w -> word (w - n) m -> word w ((x .& m) << n).
Proof. intros. apply word_shiftl; [done|]. apply word_land_r; [lia|done]. Qed.

Lemma sph_bswap32_word x : word 32 (sph_bswap32 x).
Proof.
  apply word_lor; [done|apply word_mask_shiftr|apply word_mask_shiftl]; done.
Qed.

Lemma sph_bswap64_word x : word 64 (sph_bswap64 x).
Proof.
  apply word_lor; [done|apply word_mask_shiftr|apply word_mask_shiftl]; done.
Qed.

Lemma sph_bswap32_load src :
  Forall byte src -> length src = 4%nat ->
  sph_bswap32 (load_le 4 src) = load_le 4 (rev src).
Proof.
  intros Hb Hl. destruct src as [|a [|b [|c [|d []]]]]; try discriminate Hl.
  apply (word_ext 32).
  - apply sph_bswap32_word.
  - apply (load_le_word 4); [by apply Forall_rev|done].
  - rewrite !list.Forall_cons in Hb. destruct_and! Hb.
    unfold_codec. cbn [load_le rev app].
    bit_linear 32 [8; 8; 8; 8] [a; b; c; d].
Qed.

Lemma sph_bswap64_load src :
  Forall byte src -> length src = 8%nat ->
  sph_bswap64 (load_le 8 src) = load_le 8 (rev src).
Proof.
  intros Hb Hl.
  destruct src as [|a [|b [|c [|d [|e [|f [|g [|h []]]]]]]]]; try discriminate Hl.
  apply (word_ext 64).
  - apply sph_bswap64_word.
  - apply (load_le_word 8); [by apply Forall_rev|done].
  - rewrite !list.Forall_cons in Hb. destruct_and! Hb.
    unfold_codec. cbn [load_le rev app].
    bit_linear 64 [8; 8; 8; 8; 8; 8; 8; 8] [a; b; c; d; e; f; g; h].
Qed.

Lemma sph_bswap32_store v :
  word 32 v -> store_le 4 (sph_bswap32 v) = rev (store_le 4 v).
Proof.
  intros Hv. rewrite <- (load_le_store_le 4 v Hv) at 1.
  rewrite sph_bswap32_load by (done || apply store_le_bytes).
  apply store_le_load_le; [|done]. apply Forall_rev, store_le_bytes.
Qed.

Lemma sph_bswap64_store v :
  word 64 v -> store_le 8 (sph_bswap64 v) = rev (store_le 8 v).
Proof.
  intros Hv. rewrite <- (load_le_store_le 8 v Hv) at 1.
  rewrite sph_bswap64_load by (done || apply store_le_bytes).
  apply store_le_load_le; [|done]. apply Forall_rev, store_le_bytes.
Qed.

(** The decoders on an array of exactly one word. *)
Lemma sph_dec32_load src :
  length src = 4%nat ->
  sph_dec32le src = load_le 4 src /\ sph_dec32be src = load_le 4 (rev src).
Proof.
  intros Hl. destruct src as [|a [|b [|c [|d []]]]]; try discriminate Hl.
  split; [apply sph_dec32le_load|apply sph_dec32be_load].
Qed.

Lemma sph_dec64_load src :
  length src = 8%nat ->
  sph_dec64le src = load_le 8 src /\ sph_dec64be src = load_le 8 (rev src).
Proof.
  intros Hl.
  destruct src as [|a [|b [|c [|d [|e [|f [|g [|h []]]]]]]]]; try discriminate Hl.
  split; [apply sph_dec64le_load|apply sph_dec64be_load].
Qed.

(** ** Codec theorems *)

Definition word_codec (n : nat) (enc : Z -> list Z) (dec : list Z -> Z) : Prop :=
  (forall v, word (8 * Z.of_nat n) v -> dec (enc v) = v) /\
  (forall src, Forall byte src -> length src = n -> enc (dec src) = src).

Lemma store_load_codec n : word_codec n (store_le n) (load_le n).
Proof. split; [apply load_le_store_le|apply store_le_load_le]. Qed.

Lemma store_load_rev_codec n :
  word_codec n (fun v => rev (store_le n v)) (fun src => load_le n (rev src)).
Proof.
  split; intros.
  - rewrite rev_involutive. by apply load_le_store_le.
  - rewrite store_le_load_le; [apply rev_involutive|by apply Forall_rev|by rewrite length_rev].
Qed.

Lemma word_codec_ext n enc enc' dec dec' :
  word_codec n enc dec ->
  (forall v, length (enc v) = n) ->
  (forall v, enc v = enc' v) ->
  (forall src, length src = n -> dec src = dec' src) ->
  word_codec n enc' dec'.
Proof.
  intros [H1 H2] Hl He Hd. split; intros.
  - rewrite <- He, <- Hd by done. by apply H1.
  - rewrite <- He, <- Hd by done. by apply H2.
Qed.

(** each encoder of [sph_types.h] is inverse to the decoder of the same
    width and byte order: a word that is written and read back is unchanged,
    and so is an array of bytes that is read as a word and written back. *)
Theorem sph_codecs_roundtrip :
  word_codec 4 sph_enc32le sph_dec32le /\ word_codec 4 sph_enc32be sph_dec32be /\
  word_codec 8 sph_enc64le sph_dec64le /\ word_codec 8 sph_enc64be sph_dec64be.
Proof.
  split_and!.
  - eapply word_codec_ext; [apply store_load_codec|apply length_store_le|..].
    + intros. symmetry. apply sph_enc32le_store.
    + intros src H. symmetry. apply sph_dec32_load, H.
  - eapply word_codec_ext; [apply store_load_rev_codec| |..].
    + intros v. cbv beta. by rewrite length_rev, length_store_le.
    + intros. symmetry. apply sph_enc32be_store.
    + intros src H. symmetry. apply sph_dec32_load, H.
  - eapply word_codec_ext; [apply store_load_codec|apply length_store_le|..].
    + intros. symmetry. apply sph_enc64le_store.
    + intros src H. symmetry. apply sph_dec64_load, H.
  - eapply word_codec_ext; [apply store_load_rev_codec| |..].
    + intros v. cbv beta. by rewrite length_rev, length_store_le.
    + intros. symmetry. apply sph_enc64be_store.
    + intros src H. symmetry. apply sph_dec64_load, H.
Qed.

(** the branches compiled on a little-endian machine (a plain memory access,
    with a byte swap for the big-endian formats) agree with the portable
    byte-by-byte branches, for all words and all 8-byte arrays. *)
Theorem sph_little_endian_branches v src :
  word 64 v -> Forall byte src -> length src = 8%nat ->
  sph_enc32le_aligned (SPH_T32 v) = sph_enc32le (SPH_T32 v) /\
  sph_enc32be_aligned (SPH_T32 v) = sph_enc32be (SPH_T32 v) /\
  sph_enc64le_aligned v = sph_enc64le v /\
  sph_enc64be_aligned v = sph_enc64be v /\
  sph_dec32le_aligned (take 4 src) = sph_dec32le (take 4 src) /\
  sph_dec32be_aligned (take 4 src) = sph_dec32be (take 4 src) /\
  sph_dec64le_aligned src = sph_dec64le src /\
  sph_dec64be_aligned src = sph_dec64be src.
Proof.
  intros Hv Hb Hl.
  assert (length (take 4 src) = 4%nat) as Hl4 by (rewrite length_take; lia).
  destruct (sph_dec32_load (take 4 src) Hl4) as [-> ->].
  destruct (sph_dec64_load src Hl) as [-> ->].
  rewrite sph_enc32le_store, sph_enc64le_store, sph_enc32be_store, sph_enc64be_store.
  unfold sph_enc32be_aligned, sph_enc64be_aligned, sph_dec32be_aligned, sph_dec64be_aligned.
  rewrite sph_bswap32_store, sph_bswap64_store by auto with words.
  rewrite sph_bswap32_load by (done || by apply Forall_take).
  by rewrite sph_bswap64_load.
Qed.

Lemma sph_little_endian_branches_witness :
  sph_dec64be_aligned [1; 2; 3; 4; 5; 6; 7; 8] = sph_dec64be [1; 2; 3; 4; 5; 6; 7; 8].
Proof.
  apply (sph_little_endian_branches 0x0102030405060708 [1; 2; 3; 4; 5; 6; 7; 8]);
    [done|repeat constructor; done|reflexivity].
Defined.
