(* ===== verification/BlockBuffer.v ===== *)
(** * The block buffer shared by the hash functions

    Every hash function of [src/src] keeps a context with a byte buffer, the
    number of pending bytes in it and a chaining value, and has the same
    function that adds data: it fills the buffer, runs the compression function
    each time the buffer is full, and leaves the remainder pending.  This file
    models that function once, over an arbitrary compression function, and
    relates it to the obvious definition on whole messages ([absorb]).

    An access outside the buffer, or a loop that does not end within the number
    of iterations allotted to it, gives [None]; [update_absorb] shows that
    neither happens. *)

From S2P Require Import Prelude.

(** ** Contexts *)

Record block_ctx (St : Type) := BlockCtx {
  buf : list Z;
  ptr : nat;
  chain : St;
}.
Arguments BlockCtx {St} _ _ _.
Arguments buf {St} _.
Arguments ptr {St} _.
Arguments chain {St} _.

(** The bytes that have been added and not yet compressed. *)
Definition pending {St} (c : block_ctx St) : list Z := take (ptr c) (buf c).

(** Two contexts are equivalent when they differ only in the part of the buffer
    that holds no pending byte. *)
#[export] Instance block_ctx_equiv {St} : Equiv (block_ctx St) := fun c1 c2 =>
  chain c1 = chain c2 /\ ptr c1 = ptr c2 /\ length (buf c1) = length (buf c2) /\
  pending c1 = pending c2.

#[export] Instance block_ctx_equivalence {St} : Equivalence (≡@{block_ctx St}).
Proof.
  unfold equiv, block_ctx_equiv. split.
  - done.
  - intros c1 c2 (?&?&?&?). done.
  - intros c1 c2 c3. intros (?&?&?&?) (?&?&?&?). split_and!; congruence.
Qed.

(** ** The function that adds data *)

Section update.
Context {St : Type} (bs : nat) (process : list Z -> St -> St).

(** [while (len > 0) { ... }]; [fuel] bounds the number of iterations. *)
Fixpoint update_loop (fuel : nat) (b : list Z) (p : nat) (data : list Z) (st : St)
    : option (block_ctx St) :=
  match data, fuel with
  | [], _ => Some (BlockCtx b p st)
  | _, O => None
  | _, S fuel =>
      let clen := Nat.min (bs - p) (length data) in
      b ← memcpy b p (take clen data);
      let p := (p + clen)%nat in
      let data := drop clen data in
      if (p =? bs)%nat
      then update_loop fuel b 0 data (process b st)
      else update_loop fuel b p data st
  end.

(** The whole function: when the data fits without filling the buffer it is
    only copied. *)
Definition update (c : block_ctx St) (data : list Z) : option (block_ctx St) :=
  if (length data <? bs - ptr c)%nat then
    b ← memcpy (buf c) (ptr c) data;
    Some (BlockCtx b (ptr c + length data) (chain c))
  else
    update_loop (length data) (buf c) (ptr c) data (chain c).

(** A sequence of calls. *)
Definition updates (c : block_ctx St) (chunks : list (list Z)) : option (block_ctx St) :=
  foldl (fun oc data => c ← oc; update c data) (Some c) chunks.

(** ** Reference: whole messages *)

Fixpoint fold_blocks (n : nat) (m : list Z) (st : St) : St :=
  match n with
  | O => st
  | S n => fold_blocks n (drop bs m) (process (take bs m) st)
  end.

(** The chaining value after all full blocks of [m], and what remains of [m]. *)
Definition absorb (st : St) (m : list Z) : St * list Z :=
  let n := (length m / bs)%nat in (fold_blocks n m st, drop (n * bs) m).

(** ** Lemmas *)

Context (Hbs : (0 < bs)%nat).

(** The compression function reads the first [bs] bytes of the buffer. *)
Context (process_take : forall b st, process (take bs b) st = process b st).

Definition ctx_ok (c : block_ctx St) : Prop :=
  (bs <= length (buf c))%nat /\ (ptr c < bs)%nat.

Lemma length_pending c : ctx_ok c -> length (pending c) = ptr c.
Proof. intros [? ?]. unfold pending. rewrite length_take. lia. Qed.

Lemma absorb_short st m : (length m < bs)%nat -> absorb st m = (st, m).
Proof. intros H. unfold absorb. by rewrite Nat.div_small. Qed.

Lemma fold_blocks_take n m st :
  fold_blocks n (take (n * bs) m) st = fold_blocks n m st.
Proof.
  revert m st. induction n as [|n IH]; intros m st; [done|]. cbn [fold_blocks].
  rewrite take_take, Nat.min_l by lia. rewrite skipn_firstn_comm.
  replace (S n * bs - bs)%nat with (n * bs)%nat by lia. apply IH.
Qed.

Lemma fold_blocks_add n k m st :
  fold_blocks (n + k) m st = fold_blocks k (drop (n * bs) m) (fold_blocks n m st).
Proof.
  revert m st. induction n as [|n IH]; intros m st; [done|].
  cbn [Nat.add fold_blocks]. rewrite IH, drop_drop. done.
Qed.

Lemma fold_blocks_app n m1 m2 st :
  (n * bs <= length m1)%nat -> fold_blocks n (m1 ++ m2) st = fold_blocks n m1 st.
Proof.
  intros. rewrite <- (fold_blocks_take n (m1 ++ m2)), <- (fold_blocks_take n m1).
  by rewrite take_app_le.
Qed.

Lemma absorb_block st b m :
  length b = bs -> absorb st (b ++ m) = absorb (process b st) m.
Proof.
  intros Hb. unfold absorb. rewrite length_app, Hb.
  replace (bs + length m)%nat with (length m + 1 * bs)%nat by lia.
  rewrite Nat.div_add by lia. rewrite Nat.add_comm. cbn [Nat.add fold_blocks].
  rewrite take_app_length', drop_app_length' by done. f_equal.
  replace (S (length m / bs) * bs)%nat with (length b + length m / bs * bs)%nat by lia.
  by rewrite drop_app_add.
Qed.

(** Absorbing in two steps is absorbing the concatenation. *)
Lemma absorb_app st m1 m2 :
  absorb st (m1 ++ m2) = let '(st', r) := absorb st m1 in absorb st' (r ++ m2).
Proof.
  remember (length m1 / bs)%nat as n eqn:Hn. revert m1 st Hn.
  induction n as [|n IH]; intros m1 st Hn.
  - symmetry in Hn. apply Nat.div_small_iff in Hn; [|lia]. by rewrite (absorb_short st m1).
  - assert (bs <= length m1)%nat as Hle.
    { destruct (decide (length m1 < bs)%nat); [|lia]. by rewrite Nat.div_small in Hn. }
    rewrite <- (take_drop bs m1) at 1 2. rewrite <- app_assoc.
    rewrite !(absorb_block _ (take bs m1)) by (rewrite length_take; lia).
    apply IH. rewrite length_drop.
    replace (length m1) with ((length m1 - bs) + 1 * bs)%nat in Hn by lia.
    rewrite Nat.div_add in Hn by lia. lia.
Qed.

Lemma absorb_rest_length st m : length (absorb st m).2 = (length m mod bs)%nat.
Proof.
  unfold absorb. simpl. rewrite length_drop.
  pose proof (Nat.div_mod (length m) bs). lia.
Qed.

Lemma absorb_one st b : length b = bs -> absorb st b = (process b st, []).
Proof.
  intros Hb. rewrite <- (app_nil_r b) at 1. rewrite absorb_block by done.
  by rewrite absorb_short by (simpl; lia).
Qed.

(** A message that is completed to a whole number of blocks by a tail that
    fits in the last block. *)
Lemma absorb_tail st m tail :
  (length m mod bs + length tail = bs)%nat ->
  absorb st (m ++ tail) = let '(st', r) := absorb st m in (process (r ++ tail) st', []).
Proof.
  intros H. rewrite absorb_app. pose proof (absorb_rest_length st m) as Hl.
  destruct (absorb st m) as [st' r]. simpl in Hl. apply absorb_one.
  rewrite length_app. lia.
Qed.

(** What every block preserves, a whole message preserves. *)
Lemma fold_blocks_inv (P : St -> Prop) n m st :
  (forall b st, P st -> P (process b st)) -> P st -> P (fold_blocks n m st).
Proof. intros Hp. revert m st. induction n; simpl; auto. Qed.

Lemma absorb_inv (P : St -> Prop) st m :
  (forall b st, P st -> P (process b st)) -> P st -> P (absorb st m).1.
Proof. apply fold_blocks_inv. Qed.

(** The same for messages whose elements satisfy [Q]. *)
Lemma fold_blocks_inv_Forall (Q : Z -> Prop) (P : St -> Prop) n m st :
  (forall b st, Forall Q b -> P st -> P (process b st)) ->
  Forall Q m -> P st -> P (fold_blocks n m st).
Proof.
  intros Hp. revert m st. induction n as [|n IH]; intros m st Hm HP; [done|]. cbn [fold_blocks].
  auto using Forall_take, Forall_drop.
Qed.

(** A message that is a whole number of blocks. *)
Lemma absorb_whole st m n : length m = (n * bs)%nat -> absorb st m = (fold_blocks n m st, []).
Proof. intros Hm. unfold absorb. rewrite Hm, Nat.div_mul by lia. by rewrite drop_ge by lia. Qed.

Lemma update_loop_absorb fuel b p data st :
  (length data <= fuel)%nat -> (bs <= length b)%nat -> (p < bs)%nat ->
  exists c, update_loop fuel b p data st = Some c /\
    ctx_ok c /\ length (buf c) = length b /\
    (chain c, pending c) = absorb st (take p b ++ data).
Proof.
  revert b p data st. induction fuel as [|fuel IH]; intros b p data st Hf Hb Hp.
  - destruct data; simpl in Hf; [|lia]. eexists. split; [done|].
    rewrite app_nil_r, absorb_short by (rewrite length_take; lia). done.
  - destruct data as [|d0 data0]; [|remember (d0 :: data0) as data eqn:Hd].
    { eexists. split; [done|].
      rewrite app_nil_r, absorb_short by (rewrite length_take; lia). done. }
    assert (0 < length data)%nat by (subst; simpl; lia).
    set (clen := Nat.min (bs - p) (length data)).
    assert (length (take clen data) = clen) as Hcl by (rewrite length_take; lia).
    pose proof (memcpy_in_bounds b p (take clen data)) as Hcpy.
    rewrite Hcl in Hcpy. specialize (Hcpy ltac:(lia)).
    set (b' := take p b ++ take clen data ++ drop (p + clen) b) in Hcpy.
    pose proof (memcpy_length _ _ _ _ Hcpy) as Hlb.
    pose proof (memcpy_take _ _ _ _ Hcpy) as Htk. rewrite Hcl in Htk.
    assert (update_loop (S fuel) b p data st =
            if (p + clen =? bs)%nat then update_loop fuel b' 0 (drop clen data) (process b' st)
            else update_loop fuel b' (p + clen) (drop clen data) st) as ->.
    { rewrite Hd at 1. cbn [update_loop]. rewrite <- Hd. fold clen. by rewrite Hcpy. }
    replace (take p b ++ data) with (take (p + clen) b' ++ drop clen data)
      by (by rewrite Htk, <- app_assoc, take_drop).
    destruct (Nat.eqb_spec (p + clen) bs) as [Heq|Hne].
    + destruct (IH b' 0%nat (drop clen data) (process b' st)) as (c&Hc&Hok&Hl&Habs);
        [rewrite length_drop; lia|lia|lia|].
      exists c. split_and!; [done|done|lia|].
      rewrite Habs. simpl. rewrite Heq, absorb_block by (rewrite length_take; lia).
      by rewrite process_take.
    + destruct (IH b' (p + clen)%nat (drop clen data) st) as (c&Hc&Hok&Hl&Habs);
        [rewrite length_drop; lia|lia|lia|].
      exists c. split_and!; [done|done|lia|done].
Qed.

(** Adding data never fails, and does to the chaining value and the pending
    bytes what [absorb] does. *)
Lemma update_absorb c data :
  ctx_ok c ->
  exists c', update c data = Some c' /\ ctx_ok c' /\
    length (buf c') = length (buf c) /\
    (chain c', pending c') = absorb (chain c) (pending c ++ data).
Proof.
  intros [Hb Hp]. unfold update.
  destruct (Nat.ltb_spec (length data) (bs - ptr c)) as [Hlt|Hge].
  - pose proof (memcpy_in_bounds (buf c) (ptr c) data) as Hcpy.
    specialize (Hcpy ltac:(lia)). rewrite Hcpy. eexists. split; [done|].
    pose proof (memcpy_length _ _ _ _ Hcpy) as Hl.
    pose proof (memcpy_take _ _ _ _ Hcpy) as Ht.
    split_and!.
    + unfold ctx_ok. cbn [buf ptr]. rewrite Hl. lia.
    + exact Hl.
    + unfold pending at 1. cbn [buf ptr chain]. rewrite Ht.
      rewrite absorb_short; [done|]. unfold pending. rewrite length_app, length_take. lia.
  - apply update_loop_absorb; lia.
Qed.

(** An invariant of the contexts, from one of the chaining values. *)
Lemma update_inv (P : St -> Prop) c data c' :
  (forall b st, P st -> P (process b st)) ->
  ctx_ok c /\ P (chain c) -> update c data = Some c' -> ctx_ok c' /\ P (chain c').
Proof.
  intros Hpres [Hok HP] Hu. destruct (update_absorb c data Hok) as (c1&H1&Hok1&_&Habs).
  assert (c1 = c') as <- by congruence. split; [done|].
  change (chain c1) with (chain c1, pending c1).1. rewrite Habs. by apply absorb_inv.
Qed.

Lemma updates_absorb c chunks :
  ctx_ok c ->
  exists c', updates c chunks = Some c' /\ ctx_ok c' /\
    length (buf c') = length (buf c) /\
    (chain c', pending c') = absorb (chain c) (pending c ++ concat chunks).
Proof.
  unfold updates. revert c. induction chunks as [|d chunks IH]; intros c Hok.
  - exists c. split_and!; try done. cbn [concat]. rewrite app_nil_r, absorb_short; [done|].
    rewrite length_pending by done. apply Hok.
  - destruct (update_absorb c d Hok) as (c1&H1&Hok1&Hl1&Habs1).
    destruct (IH c1 Hok1) as (c2&H2&Hok2&Hl2&Habs2).
    exists c2. cbn [foldl mbind option_bind]. rewrite H1.
    split_and!; [done|done|congruence|].
    cbn [concat]. rewrite app_assoc, absorb_app, <- Habs1. exact Habs2.
Qed.

(** Equivalent contexts are indistinguishable by further calls. *)
Lemma ctx_equiv_ok c1 c2 : c1 ≡ c2 -> ctx_ok c1 -> ctx_ok c2.
Proof. unfold equiv, block_ctx_equiv, ctx_ok. intros (?&?&?&?). lia. Qed.

Lemma ctx_equiv_alt c1 c2 :
  ctx_ok c1 -> ctx_ok c2 -> length (buf c1) = length (buf c2) ->
  (chain c1, pending c1) = (chain c2, pending c2) -> c1 ≡ c2.
Proof.
  intros Hok1 Hok2 Hl [= Hc Hp]. unfold equiv, block_ctx_equiv. split_and!; try done.
  by rewrite <- (length_pending c1), <- (length_pending c2), Hp.
Qed.

(** Splitting the data of one call over two calls leaves an equivalent
    context. *)
Lemma update_app c d1 d2 c' :
  ctx_ok c -> update c (d1 ++ d2) = Some c' ->
  exists c1 c2, update c d1 = Some c1 /\ update c1 d2 = Some c2 /\ c2 ≡ c'.
Proof.
  intros Hok H.
  destruct (update_absorb c (d1 ++ d2) Hok) as (c''&H'&Hok'&Hl'&Habs').
  assert (c'' = c') as -> by congruence.
  destruct (update_absorb c d1 Hok) as (c1&H1&Hok1&Hl1&Habs1).
  destruct (update_absorb c1 d2 Hok1) as (c2&H2&Hok2&Hl2&Habs2).
  exists c1, c2. split_and!; try done.
  apply ctx_equiv_alt; try done; [congruence|].
  rewrite Habs2, Habs'. rewrite app_assoc, (absorb_app (chain c)), <- Habs1. done.
Qed.
End update.

(** ** Replacing the compression function

    Two compression functions that agree on the buffers and the states that can
    occur.  [Q] is what is known of each element of the buffer, for instance that
    it is a byte. *)

Section update_ext.
Context {St : Type} (bs : nat) (process process' : list Z -> St -> St).
Context (Q : Z -> Prop) (P : St -> Prop).
Context (agree : forall b st, Forall Q b -> P st -> process b st = process' b st).
Context (preserved : forall b st, Forall Q b -> P st -> P (process' b st)).

Lemma update_loop_ext fuel b p data st :
  Forall Q b -> Forall Q data -> P st ->
  update_loop bs process fuel b p data st = update_loop bs process' fuel b p data st.
Proof.
  revert b p data st. induction fuel as [|fuel IH]; intros b p data st Hb Hd HP; [by destruct data|].
  destruct data as [|d data]; [done|]. cbn [update_loop].
  destruct (memcpy b p _) as [b'|] eqn:E; [|done]. cbn [mbind option_bind].
  apply (memcpy_Forall Q) in E; [|done|by apply Forall_take].
  case_match; [rewrite agree by done|]; auto using Forall_drop.
Qed.

Lemma update_ext c data :
  Forall Q (buf c) -> Forall Q data -> P (chain c) ->
  update bs process c data = update bs process' c data.
Proof. intros. unfold update. case_match; [done|]. by apply update_loop_ext. Qed.

(** The contents of the buffer, and the state. *)
Lemma update_loop_Forall fuel b p data st c' :
  Forall Q b -> Forall Q data -> P st ->
  update_loop bs process' fuel b p data st = Some c' -> Forall Q (buf c') /\ P (chain c').
Proof.
  revert b p data st. induction fuel as [|fuel IH]; intros b p data st Hb Hd HP.
  { destruct data; naive_solver. }
  destruct data as [|d data]; [by intros [= <-]|]. cbn [update_loop].
  destruct (memcpy b p _) as [b'|] eqn:E; [|done]. cbn [mbind option_bind].
  apply (memcpy_Forall Q) in E; [|done|by apply Forall_take].
  case_match; apply IH; auto using Forall_drop.
Qed.

Lemma update_Forall c data c' :
  Forall Q (buf c) -> Forall Q data -> P (chain c) ->
  update bs process' c data = Some c' -> Forall Q (buf c') /\ P (chain c').
Proof.
  intros Hb Hd HP. unfold update. case_match.
  2: { intros E. eapply update_loop_Forall; [..|exact E]; done. }
  destruct (memcpy (buf c) (ptr c) data) as [b'|] eqn:E; [|done]. cbn [mbind option_bind].
  intros [= <-]. split; [|done]. eapply memcpy_Forall; [..|exact E]; done.
Qed.
End update_ext.

(** ** Simulation

    Two compression functions on different representations of the state. *)

Section update_sim.
Context {St1 St2 : Type} (bs : nat).
Context (process1 : list Z -> St1 -> St1) (process2 : list Z -> St2 -> St2).
Context (Q : Z -> Prop) (R : St1 -> St2 -> Prop).
Context (sim : forall b s1 s2, Forall Q b -> R s1 s2 -> R (process1 b s1) (process2 b s2)).

Definition ctx_sim (c1 : block_ctx St1) (c2 : block_ctx St2) : Prop :=
  buf c1 = buf c2 /\ ptr c1 = ptr c2 /\ R (chain c1) (chain c2).

Lemma update_loop_sim fuel b p data s1 s2 c1 :
  Forall Q b -> Forall Q data -> R s1 s2 ->
  update_loop bs process1 fuel b p data s1 = Some c1 ->
  exists c2, update_loop bs process2 fuel b p data s2 = Some c2 /\ ctx_sim c1 c2.
Proof.
  revert b p data s1 s2. induction fuel as [|fuel IH]; intros b p data s1 s2 Hb Hd HR.
  { destruct data; [|done]. intros [= <-]. by eexists. }
  destruct data as [|d data]; [intros [= <-]; by eexists|]. cbn [update_loop].
  destruct (memcpy b p _) as [b'|] eqn:E; [|done]. cbn [mbind option_bind].
  apply (memcpy_Forall Q) in E; [|done|by apply Forall_take].
  case_match; apply IH; auto using Forall_drop.
Qed.

Lemma update_sim c1 c2 data c1' :
  Forall Q (buf c1) -> Forall Q data -> ctx_sim c1 c2 ->
  update bs process1 c1 data = Some c1' ->
  exists c2', update bs process2 c2 data = Some c2' /\ ctx_sim c1' c2'.
Proof.
  intros Hb Hd (Eb&Ep&HR). unfold update. rewrite <- Eb, <- Ep. case_match.
  - destruct (memcpy _ _ _); [|done]. cbn [mbind option_bind]. intros [= <-]. by eexists.
  - intros Hu. eapply update_loop_sim; [..|exact Hu]; done.
Qed.
End update_sim.

Lemma Forall_True {A} (l : list A) : Forall (fun _ => True) l.
Proof. by apply Forall_true. Qed.
#[export] Hint Resolve Forall_True : core.

(** A sequence of calls of a function that behaves as [update]. *)
Lemma foldl_updates {St} bs (process : list Z -> St -> St) (P : block_ctx St -> Prop)
    (f : block_ctx St -> list Z -> option (block_ctx St)) c chunks :
  (forall c data, P c -> f c data = update bs process c data) ->
  (forall c data c', P c -> update bs process c data = Some c' -> P c') ->
  P c ->
  foldl (fun oc data => c ← oc; f c data) (Some c) chunks = updates bs process c chunks.
Proof.
  intros Hf Hpres. unfold updates. revert c.
  assert (forall oc, (forall c, oc = Some c -> P c) ->
    foldl (fun oc data => c ← oc; f c data) oc chunks =
    foldl (fun oc data => c ← oc; update bs process c data) oc chunks) as Hgen.
  { induction chunks as [|d chunks IH]; intros oc Hoc; [done|]. cbn [foldl].
    destruct oc as [c|]; cbn [mbind option_bind].
    - rewrite Hf by eauto. apply IH. eauto.
    - by apply IH. }
  intros c Hc. apply Hgen. naive_solver.
Qed.

(** ** Local copies of the chaining value

    Some functions copy the chaining value to local variables before the loop
    and back after it ([READ_STATE], [WRITE_STATE]). *)

Section update_local.
Context {St Loc : Type} (bs : nat).
Context (read : St -> Loc) (write : Loc -> St) (process : list Z -> Loc -> Loc).

Definition update_local (c : block_ctx St) (data : list Z) : option (block_ctx St) :=
  if (length data <? bs - ptr c)%nat then
    b ← memcpy (buf c) (ptr c) data;
    Some (BlockCtx b (ptr c + length data) (chain c))
  else
    c ← update_loop bs process (length data) (buf c) (ptr c) data (read (chain c));
    Some (BlockCtx (buf c) (ptr c) (write (chain c))).

Context (read_write : forall l, read (write l) = l).

(** One block, between states. *)
Definition process_local (b : list Z) (st : St) : St := write (process b (read st)).

Lemma update_loop_local fuel b p data l :
  update_loop bs process_local fuel b p data (write l) =
  c ← update_loop bs process fuel b p data l;
  Some (BlockCtx (buf c) (ptr c) (write (chain c))).
Proof.
  revert b p data l. induction fuel as [|fuel IH]; intros b p data l; [by destruct data|].
  destruct data as [|d data]; [done|]. cbn [update_loop].
  destruct (memcpy b p _) as [b'|]; [|done]. cbn [mbind option_bind].
  case_match; [|apply IH].
  unfold process_local. rewrite read_write. apply IH.
Qed.

Lemma update_local_update c data :
  write (read (chain c)) = chain c ->
  update_local c data = update bs process_local c data.
Proof.
  intros Hc. unfold update_local, update. case_match; [done|].
  by rewrite <- Hc, update_loop_local, read_write.
Qed.
End update_local.

(** ** The last byte of a message

    The closing functions take up to 7 extra bits, the upper [n] bits of [ub],
    and append a 1 bit to them: [z = 0x80 >> n; ((ub & -z) | z) & 0xFF], in
    unsigned 32-bit arithmetic. *)
Definition last_byte (ub n : Z) : Z :=
  let z := Z.shiftr 0x80 n in
  Z.land (Z.lor (Z.land ub ((- z) mod 2 ^ 32)) z) 0xFF.

Lemma last_byte_byte ub n : byte (last_byte ub n).
Proof. unfold last_byte. by apply word_land_r. Qed.

(** What the last byte is made of: the extra bits, then a 1 bit, then zeros. *)
Lemma last_byte_bits ub n :
  0 <= n < 8 -> forall i, 0 <= i < 8 ->
  Z.testbit (last_byte ub n) i =
    if decide (7 - n < i) then Z.testbit ub i else bool_decide (i = 7 - n).
Proof.
  intros Hn i Hi. unfold last_byte. cbv zeta.
  rewrite !Z.land_spec, Z.lor_spec, Z.land_spec. generalize (Z.testbit ub i). intros u.
  assert (n = 0 \/ n = 1 \/ n = 2 \/ n = 3 \/ n = 4 \/ n = 5 \/ n = 6 \/ n = 7) by lia.
  assert (i = 0 \/ i = 1 \/ i = 2 \/ i = 3 \/ i = 4 \/ i = 5 \/ i = 6 \/ i = 7) by lia.
  clear Hn Hi. by destruct_or!; subst; destruct u.
Qed.
