(* ===== verification/MessageBits.v ===== *)
(** * Messages as bit strings

    The hash functions take a message as bytes, followed by up to 7 extra bits
    when it is closed, and pad it bit by bit.  This file relates the byte arrays
    that the code handles to the bit strings in terms of which the padding rules
    of the hash functions are stated.  Bits are in the order of the message: the
    upper bit of a byte comes first. *)

From S2P Require Import Prelude SphTypes BlockBuffer.

(** The low [w] bits of [x], the most significant one first. *)
Fixpoint be_bits (w : nat) (x : Z) : list bool :=
  match w with
  | O => []
  | S w => Z.testbit x (Z.of_nat w) :: be_bits w x
  end.

Definition byte_bits (b : Z) : list bool := be_bits 8 b.
Definition bytes_bits (l : list Z) : list bool := concat (map byte_bits l).

(** Bits to bytes; an incomplete last byte is dropped. *)
Definition bits_Z (l : list bool) : Z := foldl (fun a b => 2 * a + Z.b2z b) 0 l.

Fixpoint pack (l : list bool) : list Z :=
  match l with
  | b7 :: b6 :: b5 :: b4 :: b3 :: b2 :: b1 :: b0 :: l =>
      bits_Z [b7; b6; b5; b4; b3; b2; b1; b0] :: pack l
  | _ => []
  end.

(** The message made of the bytes [m] and the upper [n] bits of [ub]. *)
Definition message (m : list Z) (ub n : Z) : list bool :=
  bytes_bits m ++ take (Z.to_nat n) (byte_bits ub).

(** ** Lemmas *)

Lemma length_be_bits w x : length (be_bits w x) = w.
Proof. induction w; simpl; auto. Qed.

Lemma be_bits_app a b x :
  be_bits (a + b) x = be_bits a (Z.shiftr x (Z.of_nat b)) ++ be_bits b x.
Proof.
  induction a as [|a IH]; [done|]. cbn [Nat.add be_bits app]. rewrite IH. f_equal.
  rewrite Z.shiftr_spec by lia. f_equal. lia.
Qed.

Lemma be_bits_ext w x y :
  (forall i, 0 <= i < Z.of_nat w -> Z.testbit x i = Z.testbit y i) -> be_bits w x = be_bits w y.
Proof.
  intros H. induction w as [|w IH]; [done|]. cbn [be_bits].
  rewrite H by lia. rewrite IH; [done|]. intros. apply H. lia.
Qed.

Lemma be_bits_mod w x : be_bits w (x mod 2 ^ Z.of_nat w) = be_bits w x.
Proof. apply be_bits_ext. intros i Hi. apply Z.mod_pow2_bits_low. lia. Qed.

Lemma be_bits_0 w : be_bits w 0 = replicate w false.
Proof. induction w as [|w IH]; [done|]. cbn [be_bits replicate]. by rewrite IH, Z.testbit_0_l. Qed.

Lemma bytes_bits_app l1 l2 : bytes_bits (l1 ++ l2) = bytes_bits l1 ++ bytes_bits l2.
Proof. unfold bytes_bits. by rewrite map_app, concat_app. Qed.

Lemma length_bytes_bits l : length (bytes_bits l) = (8 * length l)%nat.
Proof.
  induction l as [|b l IH]; [done|]. unfold bytes_bits in *. cbn [map concat].
  rewrite length_app, IH. unfold byte_bits. rewrite length_be_bits. simpl. lia.
Qed.

Lemma bytes_bits_zeros k : bytes_bits (replicate k 0) = replicate (8 * k) false.
Proof.
  induction k as [|k IH]; [done|]. replace (8 * S k)%nat with (8 + 8 * k)%nat by lia.
  rewrite replicate_add, <- IH. done.
Qed.

Lemma bytes_bits_be k v : bytes_bits (rev (store_le k v)) = be_bits (8 * k) v.
Proof.
  revert v. induction k as [|k IH]; intros v; [done|]. cbn [store_le rev].
  rewrite bytes_bits_app, IH. replace (8 * S k)%nat with (8 * k + 8)%nat by lia.
  rewrite be_bits_app. f_equal. unfold bytes_bits. cbn [map concat]. rewrite app_nil_r.
  unfold byte_bits. rewrite uchar_mod. apply (be_bits_mod 8).
Qed.

(** Two words, the upper one first, are one word of twice the width. *)
Lemma be_bits_pair w hi lo x :
  hi mod 2 ^ Z.of_nat w = Z.shiftr x (Z.of_nat w) mod 2 ^ Z.of_nat w ->
  lo mod 2 ^ Z.of_nat w = x mod 2 ^ Z.of_nat w ->
  be_bits w hi ++ be_bits w lo = be_bits (w + w) x.
Proof.
  intros Hh Hl. rewrite be_bits_app. f_equal.
  - by rewrite <- (be_bits_mod w hi), Hh, be_bits_mod.
  - by rewrite <- (be_bits_mod w lo), Hl, be_bits_mod.
Qed.

Lemma bits_Z_byte_bits b : byte b -> bits_Z (byte_bits b) = b.
Proof.
  revert b. apply (below_literal 256 (fun b => bits_Z (byte_bits b) = b)).
  apply (bool_decide_unpack _). by vm_compute.
Qed.

(** Packing the bits of bytes gives the bytes back. *)
Lemma pack_bytes_bits l : Forall byte l -> pack (bytes_bits l) = l.
Proof.
  induction 1 as [|b l Hb _ IH]; [done|].
  unfold bytes_bits in *. cbn [map concat]. unfold byte_bits at 1. cbn [be_bits app pack].
  rewrite IH. f_equal. by apply (bits_Z_byte_bits b).
Qed.

Lemma length_message m ub n :
  0 <= n < 8 -> Z.of_nat (length (message m ub n)) = 8 * Z.of_nat (length m) + n.
Proof.
  intros Hn. unfold message. rewrite length_app, length_bytes_bits, length_take.
  unfold byte_bits. rewrite length_be_bits. lia.
Qed.

(** The bits of the last byte. *)
Lemma last_byte_byte_bits ub n :
  0 <= n < 8 ->
  byte_bits (last_byte ub n) =
  take (Z.to_nat n) (byte_bits ub) ++ true :: replicate (Z.to_nat (7 - n)) false.
Proof.
  intros Hn. unfold byte_bits. cbn [be_bits Z.of_nat Pos.of_succ_nat Pos.succ].
  rewrite !last_byte_bits by lia.
  assert (n = 0 \/ n = 1 \/ n = 2 \/ n = 3 \/ n = 4 \/ n = 5 \/ n = 6 \/ n = 7) as Hc by lia.
  clear Hn. by destruct_or! Hc; subst.
Qed.

(** The last byte of a message and [k] zero bytes. *)
Lemma last_byte_zeros_bits ub n k :
  0 <= n < 8 ->
  bytes_bits (last_byte ub n :: replicate k 0) =
  take (Z.to_nat n) (byte_bits ub) ++ true :: replicate (8 * k + Z.to_nat (7 - n)) false.
Proof.
  intros Hn. change (last_byte ub n :: replicate k 0) with ([last_byte ub n] ++ replicate k 0).
  rewrite bytes_bits_app, bytes_bits_zeros.
  unfold bytes_bits. cbn [map concat]. rewrite app_nil_r, last_byte_byte_bits by done.
  rewrite <- app_assoc. cbn [app]. do 2 f_equal. rewrite <- replicate_add. f_equal. lia.
Qed.

Lemma message_tail m ub n k :
  0 <= n < 8 ->
  bytes_bits (m ++ last_byte ub n :: replicate k 0) =
  message m ub n ++ true :: replicate (8 * k + Z.to_nat (7 - n)) false.
Proof.
  intros. unfold message. by rewrite bytes_bits_app, last_byte_zeros_bits, <- app_assoc.
Qed.

(** ** Least significant bit first

    Keccak numbers the bits of a byte from the least significant one. *)

Definition le_byte_bits (b : Z) : list bool := rev (byte_bits b).
Definition le_bytes_bits (l : list Z) : list bool := concat (map le_byte_bits l).

Fixpoint pack_le (l : list bool) : list Z :=
  match l with
  | b0 :: b1 :: b2 :: b3 :: b4 :: b5 :: b6 :: b7 :: l =>
      bits_Z [b7; b6; b5; b4; b3; b2; b1; b0] :: pack_le l
  | _ => []
  end.

(** The message made of the bytes [m] and the upper [n] bits of [ub]: these are
    moved to the least significant bits of the last byte. *)
Definition message_le (m : list Z) (ub n : Z) : list bool :=
  le_bytes_bits m ++ rev (take (Z.to_nat n) (byte_bits ub)).

Lemma le_bytes_bits_app l1 l2 : le_bytes_bits (l1 ++ l2) = le_bytes_bits l1 ++ le_bytes_bits l2.
Proof. unfold le_bytes_bits. by rewrite map_app, concat_app. Qed.

Lemma le_bytes_bits_cons b l : le_bytes_bits (b :: l) = le_byte_bits b ++ le_bytes_bits l.
Proof. done. Qed.

Lemma length_le_bytes_bits l : length (le_bytes_bits l) = (8 * length l)%nat.
Proof.
  induction l as [|b l IH]; [done|]. rewrite le_bytes_bits_cons, length_app, IH.
  unfold le_byte_bits, byte_bits. rewrite length_rev, length_be_bits. simpl. lia.
Qed.

Lemma le_bytes_bits_zeros k : le_bytes_bits (replicate k 0) = replicate (8 * k) false.
Proof.
  induction k as [|k IH]; [done|]. replace (8 * S k)%nat with (8 + 8 * k)%nat by lia.
  rewrite replicate_add, <- IH. done.
Qed.

Lemma pack_le_bytes_bits l : Forall byte l -> pack_le (le_bytes_bits l) = l.
Proof.
  induction 1 as [|b l Hb _ IH]; [done|]. rewrite le_bytes_bits_cons.
  unfold le_byte_bits, byte_bits. cbn [be_bits rev app pack_le]. rewrite IH. f_equal.
  by apply (bits_Z_byte_bits b).
Qed.

Lemma length_message_le m ub n :
  0 <= n < 8 -> Z.of_nat (length (message_le m ub n)) = 8 * Z.of_nat (length m) + n.
Proof.
  intros Hn. unfold message_le. rewrite length_app, length_le_bytes_bits, length_rev, length_take.
  unfold byte_bits. rewrite length_be_bits. lia.
Qed.
