(* ===== verification/SphHash.v ===== *)
(** * The interface of the hash functions

    Every hash function of [src/src] exports the same four operations on an
    opaque context: [init], the function that adds data, [addbits_and_close]
    and [close].  [SphHash] holds the operations, [SphHashSpec] what an
    implementation promises to its callers: the digest depends only on the
    concatenation of the data, and after closing the context is ready for
    another computation. *)

From S2P Require Import Prelude.

Class SphHash (C : Type) := {
  sph_init : C -> C;
  sph_update : C -> list Z -> option C;
  sph_addbits_and_close : C -> Z -> Z -> option (list Z * C);
}.

(** [sph_X_close(cc, dst)] is [sph_X_addbits_and_close(cc, 0, 0, dst)]. *)
Definition sph_close {C} `{SphHash C} (c : C) : option (list Z * C) :=
  sph_addbits_and_close c 0 0.

(** Add the chunks one call at a time. *)
Definition sph_updates {C} `{SphHash C} (c : C) (chunks : list (list Z)) : option C :=
  foldl (fun oc data => c ← oc; sph_update c data) (Some c) chunks.

Class SphHashSpec (C : Type) `{SphHash C} `{Equiv C} := {
  (** The storage of a context, whatever its contents. *)
  sph_mem : C -> Prop;
  (** Length of the digest, in bytes. *)
  sph_size : nat;
  (** The digest of a message followed by the upper [n] bits of [ub]. *)
  sph_digest : list Z -> Z -> Z -> list Z;
  sph_digest_ok m ub n :
    Forall byte m -> length (sph_digest m ub n) = sph_size /\ Forall byte (sph_digest m ub n);
  sph_stream c chunks ub n :
    sph_mem c -> Forall (Forall byte) chunks -> 0 <= n < 8 ->
    exists c1 c2, sph_updates (sph_init c) chunks = Some c1 /\
      sph_addbits_and_close c1 ub n = Some (sph_digest (concat chunks) ub n, c2) /\
      c2 ≡ sph_init c /\ sph_mem c2;
}.

(** ** Clients *)

Section client.
Context {C : Type} `{SphHashSpec C}.

(** [init], one call that adds all the data, [close]: the sequence used by
    [Hash9]. *)
Definition sph_hash (c : C) (m : list Z) : option (list Z * C) :=
  c ← sph_update (sph_init c) m; sph_close c.

Lemma sph_hash_digest c m :
  sph_mem c -> Forall byte m ->
  exists c', sph_hash c m = Some (sph_digest m 0 0, c') /\ c' ≡ sph_init c /\ sph_mem c'.
Proof.
  intros Hc Hm.
  destruct (sph_stream c [m] 0 0) as (c1&c2&Hu&Hd&?&?); [done|auto|lia|].
  cbn [concat] in Hd. rewrite app_nil_r in Hd.
  exists c2. split; [|done]. unfold sph_hash, sph_close.
  unfold sph_updates in Hu. simpl in Hu. by rewrite Hu.
Qed.

(** The way the message is cut into calls does not matter. *)
Lemma sph_stream_chunking c chunks1 chunks2 ub n :
  sph_mem c -> Forall (Forall byte) chunks1 -> Forall (Forall byte) chunks2 ->
  0 <= n < 8 -> concat chunks1 = concat chunks2 ->
  (fun r => r.1) <$> (c1 ← sph_updates (sph_init c) chunks1; sph_addbits_and_close c1 ub n) =
  (fun r => r.1) <$> (c1 ← sph_updates (sph_init c) chunks2; sph_addbits_and_close c1 ub n).
Proof.
  intros Hc Hl Hr Hn Heq.
  destruct (sph_stream c chunks1 ub n) as (a1&a2&Ha&Hb&_); [done..|].
  destruct (sph_stream c chunks2 ub n) as (b1&b2&Hc'&Hd&_); [done..|].
  rewrite Ha, Hc'. simpl. rewrite Hb, Hd. simpl. by rewrite Heq.
Qed.
End client.
