(* ===== verification/Cubehash.v ===== *)
(** * CubeHash: [src/src/cubehash.c]

    CubeHash 16/32 with 224, 256, 384 and 512 bits of output.  The rounds are
    unrolled in pairs over 32 local variables, with the word permutation of the
    algorithm folded into the variable names.  The main theorems: the unrolled
    rounds are the rounds of the CubeHash specification, a round is a
    permutation of the state, the four initial states are the ones the
    specification derives from the parameters, and the streaming interface
    computes the specified digest. *)

From S2P Require Import Prelude BitReflect SphTypes BlockBuffer SphHash.

#[local] Open Scope c_scope.

(** ** Constants *)

Definition IV224 : list Z := [
  0xB0FC8217; 0x1BEE1A90; 0x829E1A22; 0x6362C342;
  0x24D91C30; 0x03A7AA24; 0xA63721C8; 0x85B0E2EF;
  0xF35D13F3; 0x41DA807D; 0x21A70CA6; 0x1F4E9774;
  0xB3E1C932; 0xEB0A79A8; 0xCDDAAA66; 0xE2F6ECAA;
  0x0A713362; 0xAA3080E0; 0xD8F23A32; 0xCEF15E28;
  0xDB086314; 0x7F709DF7; 0xACD228A4; 0x704D6ECE;
  0xAA3EC95F; 0xE387C214; 0x3A6445FF; 0x9CAB81C3;
  0xC73D4B98; 0xD277AEBE; 0xFD20151C; 0x00CB573E].

Definition IV256 : list Z := [
  0xEA2BD4B4; 0xCCD6F29F; 0x63117E71; 0x35481EAE;
  0x22512D5B; 0xE5D94E63; 0x7E624131; 0xF4CC12BE;
  0xC2D0B696; 0x42AF2070; 0xD0720C35; 0x3361DA8C;
  0x28CCECA4; 0x8EF8AD83; 0x4680AC00; 0x40E5FBAB;
  0xD89041C3; 0x6107FBD5; 0x6C859D41; 0xF0B26679;
  0x09392549; 0x5FA25603; 0x65C892FD; 0x93CB6285;
  0x2AF2B5AE; 0x9E4B4E60; 0x774ABFDD; 0x85254725;
  0x15815AEB; 0x4AB6AAD6; 0x9CDAF8AF; 0xD6032C0A].

Definition IV384 : list Z := [
  0xE623087E; 0x04C00C87; 0x5EF46453; 0x69524B13;
  0x1A05C7A9; 0x3528DF88; 0x6BDD01B5; 0x5057B792;
  0x6AA7A922; 0x649C7EEE; 0xF426309F; 0xCB629052;
  0xFC8E20ED; 0xB3482BAB; 0xF89E5E7E; 0xD83D4DE4;
  0x44BFC10D; 0x5FC1E63D; 0x2104E6CB; 0x17958F7F;
  0xDBEAEF70; 0xB4B97E1E; 0x32C195F6; 0x6184A8E4;
  0x796C2543; 0x23DE176D; 0xD33BBAEC; 0x0C12E5D2;
  0x4EB95A7B; 0x2D18BA01; 0x04EE475F; 0x1FC5F22E].

Definition IV512 : list Z := [
  0x2AEA2A61; 0x50F494D4; 0x2D538B8B; 0x4167D83E;
  0x3FEE2313; 0xC701CF8C; 0xCC39968E; 0x50AC5695;
  0x4D42C787; 0xA647A8B3; 0x97CF0BEF; 0x825B4537;
  0xEEF864D2; 0xF22090C4; 0xD0E5CD33; 0xA23911AE;
  0xFCD398D9; 0x148FE485; 0x1B017BEF; 0xB6444532;
  0x6A536159; 0x2FF5781C; 0x91FA7934; 0x0DBADEA9;
  0xD65C8A2B; 0xA5A70E75; 0xB1C62456; 0xBC796576;
  0x1921C8F7; 0xE7989AF1; 0x7795D246; 0xD43E3B44].

(** ** State *)

(** The local variables [x0] to [xv] of [DECL_STATE]. *)
Record xstate := XState {
  x0 : Z; x1 : Z; x2 : Z; x3 : Z; x4 : Z; x5 : Z; x6 : Z; x7 : Z;
  x8 : Z; x9 : Z; xa : Z; xb : Z; xc : Z; xd : Z; xe : Z; xf : Z;
  xg : Z; xh : Z; xi : Z; xj : Z; xk : Z; xl : Z; xm : Z; xn : Z;
  xo : Z; xp : Z; xq : Z; xr : Z; xs : Z; xt : Z; xu : Z; xv : Z;
}.

Definition READ_STATE (state : list Z) : xstate :=
  XState
    (state !!! 0%nat) (state !!! 1%nat) (state !!! 2%nat) (state !!! 3%nat)
    (state !!! 4%nat) (state !!! 5%nat) (state !!! 6%nat) (state !!! 7%nat)
    (state !!! 8%nat) (state !!! 9%nat) (state !!! 10%nat) (state !!! 11%nat)
    (state !!! 12%nat) (state !!! 13%nat) (state !!! 14%nat) (state !!! 15%nat)
    (state !!! 16%nat) (state !!! 17%nat) (state !!! 18%nat) (state !!! 19%nat)
    (state !!! 20%nat) (state !!! 21%nat) (state !!! 22%nat) (state !!! 23%nat)
    (state !!! 24%nat) (state !!! 25%nat) (state !!! 26%nat) (state !!! 27%nat)
    (state !!! 28%nat) (state !!! 29%nat) (state !!! 30%nat) (state !!! 31%nat).

Definition WRITE_STATE (s : xstate) : list Z :=
  match s with XState
    x0 x1 x2 x3 x4 x5 x6 x7
    x8 x9 xa xb xc xd xe xf
    xg xh xi xj xk xl xm xn
    xo xp xq xr xs xt xu xv =>
    [x0; x1; x2; x3; x4; x5; x6; x7;
     x8; x9; xa; xb; xc; xd; xe; xf;
     xg; xh; xi; xj; xk; xl; xm; xn;
     xo; xp; xq; xr; xs; xt; xu; xv]
  end.

(** ** Rounds *)

Definition INPUT_BLOCK (buf : list Z) (s : xstate) : xstate :=
  match s with XState
    x0 x1 x2 x3 x4 x5 x6 x7
    x8 x9 xa xb xc xd xe xf
    xg xh xi xj xk xl xm xn
    xo xp xq xr xs xt xu xv =>
  let x0 := x0 ⊕ sph_dec32le_aligned (drop 0 buf) in
  let x1 := x1 ⊕ sph_dec32le_aligned (drop 4 buf) in
  let x2 := x2 ⊕ sph_dec32le_aligned (drop 8 buf) in
  let x3 := x3 ⊕ sph_dec32le_aligned (drop 12 buf) in
  let x4 := x4 ⊕ sph_dec32le_aligned (drop 16 buf) in
  let x5 := x5 ⊕ sph_dec32le_aligned (drop 20 buf) in
  let x6 := x6 ⊕ sph_dec32le_aligned (drop 24 buf) in
  let x7 := x7 ⊕ sph_dec32le_aligned (drop 28 buf) in
  XState
    x0 x1 x2 x3 x4 x5 x6 x7
    x8 x9 xa xb xc xd xe xf
    xg xh xi xj xk xl xm xn
    xo xp xq xr xs xt xu xv
  end.

Definition ROUND_EVEN (s : xstate) : xstate :=
  match s with XState
    x0 x1 x2 x3 x4 x5 x6 x7
    x8 x9 xa xb xc xd xe xf
    xg xh xi xj xk xl xm xn
    xo xp xq xr xs xt xu xv =>
  let xg := SPH_T32 (x0 + xg) in
  let x0 := SPH_ROTL32 x0 7 in
  let xh := SPH_T32 (x1 + xh) in
  let x1 := SPH_ROTL32 x1 7 in
  let xi := SPH_T32 (x2 + xi) in
  let x2 := SPH_ROTL32 x2 7 in
  let xj := SPH_T32 (x3 + xj) in
  let x3 := SPH_ROTL32 x3 7 in
  let xk := SPH_T32 (x4 + xk) in
  let x4 := SPH_ROTL32 x4 7 in
  let xl := SPH_T32 (x5 + xl) in
  let x5 := SPH_ROTL32 x5 7 in
  let xm := SPH_T32 (x6 + xm) in
  let x6 := SPH_ROTL32 x6 7 in
  let xn := SPH_T32 (x7 + xn) in
  let x7 := SPH_ROTL32 x7 7 in
  let xo := SPH_T32 (x8 + xo) in
  let x8 := SPH_ROTL32 x8 7 in
  let xp := SPH_T32 (x9 + xp) in
  let x9 := SPH_ROTL32 x9 7 in
  let xq := SPH_T32 (xa + xq) in
  let xa := SPH_ROTL32 xa 7 in
  let xr := SPH_T32 (xb + xr) in
  let xb := SPH_ROTL32 xb 7 in
  let xs := SPH_T32 (xc + xs) in
  let xc := SPH_ROTL32 xc 7 in
  let xt := SPH_T32 (xd + xt) in
  let xd := SPH_ROTL32 xd 7 in
  let xu := SPH_T32 (xe + xu) in
  let xe := SPH_ROTL32 xe 7 in
  let xv := SPH_T32 (xf + xv) in
  let xf := SPH_ROTL32 xf 7 in
  let x8 := x8 ⊕ xg in
  let x9 := x9 ⊕ xh in
  let xa := xa ⊕ xi in
  let xb := xb ⊕ xj in
  let xc := xc ⊕ xk in
  let xd := xd ⊕ xl in
  let xe := xe ⊕ xm in
  let xf := xf ⊕ xn in
  let x0 := x0 ⊕ xo in
  let x1 := x1 ⊕ xp in
  let x2 := x2 ⊕ xq in
  let x3 := x3 ⊕ xr in
  let x4 := x4 ⊕ xs in
  let x5 := x5 ⊕ xt in
  let x6 := x6 ⊕ xu in
  let x7 := x7 ⊕ xv in
  let xi := SPH_T32 (x8 + xi) in
  let x8 := SPH_ROTL32 x8 11 in
  let xj := SPH_T32 (x9 + xj) in
  let x9 := SPH_ROTL32 x9 11 in
  let xg := SPH_T32 (xa + xg) in
  let xa := SPH_ROTL32 xa 11 in
  let xh := SPH_T32 (xb + xh) in
  let xb := SPH_ROTL32 xb 11 in
  let xm := SPH_T32 (xc + xm) in
  let xc := SPH_ROTL32 xc 11 in
  let xn := SPH_T32 (xd + xn) in
  let xd := SPH_ROTL32 xd 11 in
  let xk := SPH_T32 (xe + xk) in
  let xe := SPH_ROTL32 xe 11 in
  let xl := SPH_T32 (xf + xl) in
  let xf := SPH_ROTL32 xf 11 in
  let xq := SPH_T32 (x0 + xq) in
  let x0 := SPH_ROTL32 x0 11 in
  let xr := SPH_T32 (x1 + xr) in
  let x1 := SPH_ROTL32 x1 11 in
  let xo := SPH_T32 (x2 + xo) in
  let x2 := SPH_ROTL32 x2 11 in
  let xp := SPH_T32 (x3 + xp) in
  let x3 := SPH_ROTL32 x3 11 in
  let xu := SPH_T32 (x4 + xu) in
  let x4 := SPH_ROTL32 x4 11 in
  let xv := SPH_T32 (x5 + xv) in
  let x5 := SPH_ROTL32 x5 11 in
  let xs := SPH_T32 (x6 + xs) in
  let x6 := SPH_ROTL32 x6 11 in
  let xt := SPH_T32 (x7 + xt) in
  let x7 := SPH_ROTL32 x7 11 in
  let xc := xc ⊕ xi in
  let xd := xd ⊕ xj in
  let xe := xe ⊕ xg in
  let xf := xf ⊕ xh in
  let x8 := x8 ⊕ xm in
  let x9 := x9 ⊕ xn in
  let xa := xa ⊕ xk in
  let xb := xb ⊕ xl in
  let x4 := x4 ⊕ xq in
  let x5 := x5 ⊕ xr in
  let x6 := x6 ⊕ xo in
  let x7 := x7 ⊕ xp in
  let x0 := x0 ⊕ xu in
  let x1 := x1 ⊕ xv in
  let x2 := x2 ⊕ xs in
  let x3 := x3 ⊕ xt in
  XState
    x0 x1 x2 x3 x4 x5 x6 x7
    x8 x9 xa xb xc xd xe xf
    xg xh xi xj xk xl xm xn
    xo xp xq xr xs xt xu xv
  end.

Definition ROUND_ODD (s : xstate) : xstate :=
  match s with XState
    x0 x1 x2 x3 x4 x5 x6 x7
    x8 x9 xa xb xc xd xe xf
    xg xh xi xj xk xl xm xn
    xo xp xq xr xs xt xu xv =>
  let xj := SPH_T32 (xc + xj) in
  let xc := SPH_ROTL32 xc 7 in
  let xi := SPH_T32 (xd + xi) in
  let xd := SPH_ROTL32 xd 7 in
  let xh := SPH_T32 (xe + xh) in
  let xe := SPH_ROTL32 xe 7 in
  let xg := SPH_T32 (xf + xg) in
  let xf := SPH_ROTL32 xf 7 in
  let xn := SPH_T32 (x8 + xn) in
  let x8 := SPH_ROTL32 x8 7 in
  let xm := SPH_T32 (x9 + xm) in
  let x9 := SPH_ROTL32 x9 7 in
  let xl := SPH_T32 (xa + xl) in
  let xa := SPH_ROTL32 xa 7 in
  let xk := SPH_T32 (xb + xk) in
  let xb := SPH_ROTL32 xb 7 in
  let xr := SPH_T32 (x4 + xr) in
  let x4 := SPH_ROTL32 x4 7 in
  let xq := SPH_T32 (x5 + xq) in
  let x5 := SPH_ROTL32 x5 7 in
  let xp := SPH_T32 (x6 + xp) in
  let x6 := SPH_ROTL32 x6 7 in
  let xo := SPH_T32 (x7 + xo) in
  let x7 := SPH_ROTL32 x7 7 in
  let xv := SPH_T32 (x0 + xv) in
  let x0 := SPH_ROTL32 x0 7 in
  let xu := SPH_T32 (x1 + xu) in
  let x1 := SPH_ROTL32 x1 7 in
  let xt := SPH_T32 (x2 + xt) in
  let x2 := SPH_ROTL32 x2 7 in
  let xs := SPH_T32 (x3 + xs) in
  let x3 := SPH_ROTL32 x3 7 in
  let x4 := x4 ⊕ xj in
  let x5 := x5 ⊕ xi in
  let x6 := x6 ⊕ xh in
  let x7 := x7 ⊕ xg in
  let x0 := x0 ⊕ xn in
  let x1 := x1 ⊕ xm in
  let x2 := x2 ⊕ xl in
  let x3 := x3 ⊕ xk in
  let xc := xc ⊕ xr in
  let xd := xd ⊕ xq in
  let xe := xe ⊕ xp in
  let xf := xf ⊕ xo in
  let x8 := x8 ⊕ xv in
  let x9 := x9 ⊕ xu in
  let xa := xa ⊕ xt in
  let xb := xb ⊕ xs in
  let xh := SPH_T32 (x4 + xh) in
  let x4 := SPH_ROTL32 x4 11 in
  let xg := SPH_T32 (x5 + xg) in
  let x5 := SPH_ROTL32 x5 11 in
  let xj := SPH_T32 (x6 + xj) in
  let x6 := SPH_ROTL32 x6 11 in
  let xi := SPH_T32 (x7 + xi) in
  let x7 := SPH_ROTL32 x7 11 in
  let xl := SPH_T32 (x0 + xl) in
  let x0 := SPH_ROTL32 x0 11 in
  let xk := SPH_T32 (x1 + xk) in
  let x1 := SPH_ROTL32 x1 11 in
  let xn := SPH_T32 (x2 + xn) in
  let x2 := SPH_ROTL32 x2 11 in
  let xm := SPH_T32 (x3 + xm) in
  let x3 := SPH_ROTL32 x3 11 in
  let xp := SPH_T32 (xc + xp) in
  let xc := SPH_ROTL32 xc 11 in
  let xo := SPH_T32 (xd + xo) in
  let xd := SPH_ROTL32 xd 11 in
  let xr := SPH_T32 (xe + xr) in
  let xe := SPH_ROTL32 xe 11 in
  let xq := SPH_T32 (xf + xq) in
  let xf := SPH_ROTL32 xf 11 in
  let xt := SPH_T32 (x8 + xt) in
  let x8 := SPH_ROTL32 x8 11 in
  let xs := SPH_T32 (x9 + xs) in
  let x9 := SPH_ROTL32 x9 11 in
  let xv := SPH_T32 (xa + xv) in
  let xa := SPH_ROTL32 xa 11 in
  let xu := SPH_T32 (xb + xu) in
  let xb := SPH_ROTL32 xb 11 in
  let x0 := x0 ⊕ xh in
  let x1 := x1 ⊕ xg in
  let x2 := x2 ⊕ xj in
  let x3 := x3 ⊕ xi in
  let x4 := x4 ⊕ xl in
  let x5 := x5 ⊕ xk in
  let x6 := x6 ⊕ xn in
  let x7 := x7 ⊕ xm in
  let x8 := x8 ⊕ xp in
  let x9 := x9 ⊕ xo in
  let xa := xa ⊕ xr in
  let xb := xb ⊕ xq in
  let xc := xc ⊕ xt in
  let xd := xd ⊕ xs in
  let xe := xe ⊕ xv in
  let xf := xf ⊕ xu in
  XState
    x0 x1 x2 x3 x4 x5 x6 x7
    x8 x9 xa xb xc xd xe xf
    xg xh xi xj xk xl xm xn
    xo xp xq xr xs xt xu xv
  end.

(** Sixteen rounds, with the default full unrolling ([SPH_CUBEHASH_UNROLL] is
    0) and with the loops of the other settings. *)
Definition SIXTEEN_ROUNDS (s : xstate) : xstate :=
  let s := ROUND_EVEN s in
  let s := ROUND_ODD s in
  let s := ROUND_EVEN s in
  let s := ROUND_ODD s in
  let s := ROUND_EVEN s in
  let s := ROUND_ODD s in
  let s := ROUND_EVEN s in
  let s := ROUND_ODD s in
  let s := ROUND_EVEN s in
  let s := ROUND_ODD s in
  let s := ROUND_EVEN s in
  let s := ROUND_ODD s in
  let s := ROUND_EVEN s in
  let s := ROUND_ODD s in
  let s := ROUND_EVEN s in
  let s := ROUND_ODD s in
  s.

Definition SIXTEEN_ROUNDS_2 (s : xstate) : xstate :=
  Nat.iter 8 (fun s =>
    let s := ROUND_EVEN s in
    let s := ROUND_ODD s in
    s) s.

Definition SIXTEEN_ROUNDS_4 (s : xstate) : xstate :=
  Nat.iter 4 (fun s =>
    let s := ROUND_EVEN s in
    let s := ROUND_ODD s in
    let s := ROUND_EVEN s in
    let s := ROUND_ODD s in
    s) s.

Definition SIXTEEN_ROUNDS_8 (s : xstate) : xstate :=
  Nat.iter 2 (fun s =>
    let s := ROUND_EVEN s in
    let s := ROUND_ODD s in
    let s := ROUND_EVEN s in
    let s := ROUND_ODD s in
    let s := ROUND_EVEN s in
    let s := ROUND_ODD s in
    let s := ROUND_EVEN s in
    let s := ROUND_ODD s in
    s) s.

(** ** Contexts and operations *)

(** [unsigned char buf[32]; size_t ptr; sph_u32 state[32]] *)
Definition sph_cubehash_context : Type := block_ctx (list Z).

Definition cubehash_init (sc : sph_cubehash_context) (iv : list Z) : sph_cubehash_context :=
  BlockCtx (buf sc) 0 iv.

Definition cubehash_core (sc : sph_cubehash_context) (data : list Z)
    : option sph_cubehash_context :=
  update_local 32 READ_STATE WRITE_STATE
    (fun buf s => SIXTEEN_ROUNDS (INPUT_BLOCK buf s)) sc data.

(** [for (i = 0; i < 11; i ++) { SIXTEEN_ROUNDS; if (i == 0) xv ^= 1; }] *)
Definition close_step (s : xstate) (i : nat) : xstate :=
  let s := SIXTEEN_ROUNDS s in
  if (i =? 0)%nat then
    match s with XState
      x0 x1 x2 x3 x4 x5 x6 x7
      x8 x9 xa xb xc xd xe xf
      xg xh xi xj xk xl xm xn
      xo xp xq xr xs xt xu xv =>
      let xv := xv ⊕ 1 in
      XState
      x0 x1 x2 x3 x4 x5 x6 x7
      x8 x9 xa xb xc xd xe xf
      xg xh xi xj xk xl xm xn
      xo xp xq xr xs xt xu xv
    end
  else s.

Definition cubehash_close (sc : sph_cubehash_context) (ub n : Z) (out_size_w32 : nat)
    : option (list Z * sph_cubehash_context) :=
  b ← store (buf sc) (ptr sc) (last_byte ub n);
  let ptr := (ptr sc + 1)%nat in
  b ← memset b ptr 0 (32 - ptr);
  let s := INPUT_BLOCK b (READ_STATE (chain sc)) in
  let s := foldl close_step s (seq 0 11) in
  let state := WRITE_STATE s in
  let out := concat (map (fun z => sph_enc32le (state !!! z)) (seq 0 out_size_w32)) in
  Some (out, BlockCtx b (BlockBuffer.ptr sc) state).

Definition sph_cubehash224_init (cc : sph_cubehash_context) : sph_cubehash_context :=
  cubehash_init cc IV224.
Definition sph_cubehash224 (cc : sph_cubehash_context) (data : list Z)
    : option sph_cubehash_context :=
  cubehash_core cc data.
Definition sph_cubehash224_addbits_and_close (cc : sph_cubehash_context) (ub n : Z)
    : option (list Z * sph_cubehash_context) :=
  '(dst, cc) ← cubehash_close cc ub n 7;
  Some (dst, sph_cubehash224_init cc).
Definition sph_cubehash224_close (cc : sph_cubehash_context)
    : option (list Z * sph_cubehash_context) :=
  sph_cubehash224_addbits_and_close cc 0 0.

Definition sph_cubehash256_init (cc : sph_cubehash_context) : sph_cubehash_context :=
  cubehash_init cc IV256.
Definition sph_cubehash256 (cc : sph_cubehash_context) (data : list Z)
    : option sph_cubehash_context :=
  cubehash_core cc data.
Definition sph_cubehash256_addbits_and_close (cc : sph_cubehash_context) (ub n : Z)
    : option (list Z * sph_cubehash_context) :=
  '(dst, cc) ← cubehash_close cc ub n 8;
  Some (dst, sph_cubehash256_init cc).
Definition sph_cubehash256_close (cc : sph_cubehash_context)
    : option (list Z * sph_cubehash_context) :=
  sph_cubehash256_addbits_and_close cc 0 0.

Definition sph_cubehash384_init (cc : sph_cubehash_context) : sph_cubehash_context :=
  cubehash_init cc IV384.
Definition sph_cubehash384 (cc : sph_cubehash_context) (data : list Z)
    : option sph_cubehash_context :=
  cubehash_core cc data.
Definition sph_cubehash384_addbits_and_close (cc : sph_cubehash_context) (ub n : Z)
    : option (list Z * sph_cubehash_context) :=
  '(dst, cc) ← cubehash_close cc ub n 12;
  Some (dst, sph_cubehash384_init cc).
Definition sph_cubehash384_close (cc : sph_cubehash_context)
    : option (list Z * sph_cubehash_context) :=
  sph_cubehash384_addbits_and_close cc 0 0.

Definition sph_cubehash512_init (cc : sph_cubehash_context) : sph_cubehash_context :=
  cubehash_init cc IV512.
Definition sph_cubehash512 (cc : sph_cubehash_context) (data : list Z)
    : option sph_cubehash_context :=
  cubehash_core cc data.
Definition sph_cubehash512_addbits_and_close (cc : sph_cubehash_context) (ub n : Z)
    : option (list Z * sph_cubehash_context) :=
  '(dst, cc) ← cubehash_close cc ub n 16;
  Some (dst, sph_cubehash512_init cc).
Definition sph_cubehash512_close (cc : sph_cubehash_context)
    : option (list Z * sph_cubehash_context) :=
  sph_cubehash512_addbits_and_close cc 0 0.

(** ** The CubeHash specification

    The state is a list of 32 words; a word index is written [ijklm] in binary,
    [i] being the most significant bit.  [exchange k] swaps the words of a half
    state whose indices differ in the bit [k]. *)

Definition exchange (k : nat) (half : list Z) : list Z :=
  map (fun i => half !!! Nat.lxor i k) (seq 0 16).

Definition add_into (lo hi : list Z) : list Z := zip_with (fun a b => SPH_T32 (a + b)) lo hi.
Definition xor_into (hi lo : list Z) : list Z := zip_with (fun a b => b ⊕ a) hi lo.
Definition rotate (n : Z) (lo : list Z) : list Z := map (fun x => SPH_ROTL32 x n) lo.

(** One round, on the halves [x_0jklm] and [x_1jklm]. *)
Definition spec_round (s : list Z * list Z) : list Z * list Z :=
  let '(lo, hi) := s in
  let hi := add_into lo hi in
  let lo := rotate 7 lo in
  let lo := exchange 8 lo in
  let lo := xor_into hi lo in
  let hi := exchange 2 hi in
  let hi := add_into lo hi in
  let lo := rotate 11 lo in
  let lo := exchange 4 lo in
  let lo := xor_into hi lo in
  let hi := exchange 1 hi in
  (lo, hi).

Definition halves (state : list Z) : list Z * list Z := (take 16 state, drop 16 state).

Definition spec_rounds (n : nat) (state : list Z) : list Z :=
  let '(lo, hi) := Nat.iter n spec_round (halves state) in lo ++ hi.

(** The initial state for [h] bits of output: the parameters [h/8], [b = 32] and
    [r = 16], followed by [10 r] rounds. *)
Definition spec_iv (h : Z) : list Z := spec_rounds 160 ([h / 8; 32; 16] ++ replicate 29 0).

(** A 32-byte block is added to the first words of the state. *)
Definition spec_block (b state : list Z) : list Z :=
  spec_rounds 16
    (zip_with Z.lxor (take 8 state) (map (fun i => load_le 4 (drop (4 * i) b)) (seq 0 8))
     ++ drop 8 state).

(** A 1 bit and zeros complete the last block. *)
Definition spec_pad (m : list Z) (ub n : Z) : list Z :=
  m ++ last_byte ub n :: replicate (31 - length m mod 32) 0.

Definition spec_final (state : list Z) : list Z :=
  spec_rounds 160 (take 31 state ++ [(state !!! 31%nat) ⊕ 1]).

Definition cubehash_spec (h : Z) (m : list Z) (ub n : Z) : list Z :=
  let p := spec_pad m ub n in
  let state := fold_blocks 32 spec_block (length p / 32) p (spec_iv h) in
  take (Z.to_nat (h / 8)) (concat (map (store_le 4) (spec_final state))).

(** The inverse of a round. *)
Definition unadd (lo hi : list Z) : list Z := zip_with (fun a b => SPH_T32 (b - a)) lo hi.
Definition unrotate (n : Z) (lo : list Z) : list Z := map (fun x => SPH_ROTR32 x n) lo.

Definition spec_unround (s : list Z * list Z) : list Z * list Z :=
  let '(lo, hi) := s in
  let hi := exchange 1 hi in
  let lo := xor_into hi lo in
  let lo := exchange 4 lo in
  let lo := unrotate 11 lo in
  let hi := unadd lo hi in
  let hi := exchange 2 hi in
  let lo := xor_into hi lo in
  let lo := exchange 8 lo in
  let lo := unrotate 7 lo in
  let hi := unadd lo hi in
  (lo, hi).

(** ** Rounds: lemmas *)

Lemma READ_WRITE_STATE s : READ_STATE (WRITE_STATE s) = s.
Proof. by destruct s. Qed.

Lemma length_WRITE_STATE s : length (WRITE_STATE s) = 32%nat.
Proof. by destruct s. Qed.

(** A list of literal length as its elements. *)
Ltac destruct_list l H :=
  repeat (let x := fresh "w" in destruct l as [|x l]; [discriminate H|]);
  destruct l; [|discriminate H].

Lemma WRITE_READ_STATE st : length st = 32%nat -> WRITE_STATE (READ_STATE st) = st.
Proof. intros H. do 32 (destruct st as [|? st]; [discriminate H|]). by destruct st. Qed.

(** [exchange] by pattern matching: comparing states then only compares words. *)
Definition swap (k : nat) (half : list Z) : list Z :=
  match half with
  | [a0; a1; a2; a3; a4; a5; a6; a7; a8; a9; a10; a11; a12; a13; a14; a15] =>
      match k with
      | 8%nat => [a8; a9; a10; a11; a12; a13; a14; a15; a0; a1; a2; a3; a4; a5; a6; a7]
      | 4%nat => [a4; a5; a6; a7; a0; a1; a2; a3; a12; a13; a14; a15; a8; a9; a10; a11]
      | 2%nat => [a2; a3; a0; a1; a6; a7; a4; a5; a10; a11; a8; a9; a14; a15; a12; a13]
      | _ => [a1; a0; a3; a2; a5; a4; a7; a6; a9; a8; a11; a10; a13; a12; a15; a14]
      end
  | _ => half
  end.

Definition half_ok (half : list Z) : Prop := length half = 16%nat.

Lemma exchange_swap k half :
  half_ok half -> (k = 1 \/ k = 2 \/ k = 4 \/ k = 8)%nat -> exchange k half = swap k half.
Proof.
  intros H Hk. do 16 (destruct half as [|? half]; [discriminate H|]).
  destruct half; [|discriminate H].
  by destruct_or! Hk; subst k.
Qed.

Definition swap_round (s : list Z * list Z) : list Z * list Z :=
  let '(lo, hi) := s in
  let hi := add_into lo hi in
  let lo := swap 8 (rotate 7 lo) in
  let lo := xor_into hi lo in
  let hi := add_into lo (swap 2 hi) in
  let lo := swap 4 (rotate 11 lo) in
  (xor_into hi lo, swap 1 hi).

Lemma length_exchange k half : half_ok (exchange k half).
Proof. unfold half_ok, exchange. by rewrite length_map, length_seq. Qed.

Lemma length_add_into lo hi : half_ok lo -> half_ok hi -> half_ok (add_into lo hi).
Proof. unfold half_ok, add_into. intros. rewrite length_zip_with. lia. Qed.

Lemma length_xor_into hi lo : half_ok hi -> half_ok lo -> half_ok (xor_into hi lo).
Proof. unfold half_ok, xor_into. intros. rewrite length_zip_with. lia. Qed.

Lemma length_rotate n lo : half_ok lo -> half_ok (rotate n lo).
Proof. unfold half_ok, rotate. by rewrite length_map. Qed.

Create HintDb halves.
#[local] Hint Resolve length_exchange length_add_into length_xor_into length_rotate : halves.

Lemma spec_round_swap s :
  half_ok s.1 -> half_ok s.2 -> spec_round s = swap_round s.
Proof.
  destruct s as [lo hi]. simpl. intros Hlo Hhi. unfold spec_round, swap_round.
  rewrite <- !exchange_swap; [done|..]; auto 10 with halves.
Qed.

(** Two rounds of the specification are the two unrolled rounds. *)
Lemma round_pair s :
  halves (WRITE_STATE (ROUND_ODD (ROUND_EVEN s))) = swap_round (swap_round (halves (WRITE_STATE s))).
Proof. destruct s. reflexivity. Qed.

Lemma spec_round_ok s : half_ok s.1 -> half_ok s.2 ->
  half_ok (spec_round s).1 /\ half_ok (spec_round s).2.
Proof. destruct s as [lo hi]. simpl. auto 20 with halves. Qed.

Lemma halves_ok st : length st = 32%nat -> half_ok (halves st).1 /\ half_ok (halves st).2.
Proof. intros H. unfold half_ok, halves. simpl. rewrite length_take, length_drop. lia. Qed.

Lemma halves_app lo hi : half_ok lo -> halves (lo ++ hi) = (lo, hi).
Proof. intros H. unfold halves. by rewrite take_app_length', drop_app_length'. Qed.

Lemma app_halves st : (halves st).1 ++ (halves st).2 = st.
Proof. apply take_drop. Qed.

Lemma round_pair_spec s :
  halves (WRITE_STATE (ROUND_ODD (ROUND_EVEN s))) =
  spec_round (spec_round (halves (WRITE_STATE s))).
Proof.
  destruct (halves_ok _ (length_WRITE_STATE s)) as [H1 H2].
  destruct (spec_round_ok _ H1 H2).
  rewrite round_pair, !spec_round_swap; done || by rewrite <- spec_round_swap.
Qed.

Lemma spec_rounds_iter n st :
  length st = 32%nat ->
  length (spec_rounds n st) = 32%nat /\ halves (spec_rounds n st) = Nat.iter n spec_round (halves st).
Proof.
  intros Hst. unfold spec_rounds.
  assert (half_ok (Nat.iter n spec_round (halves st)).1 /\
          half_ok (Nat.iter n spec_round (halves st)).2) as [H1 H2].
  { induction n as [|n [IH1 IH2]]; [by apply halves_ok|by apply spec_round_ok]. }
  destruct (Nat.iter n spec_round (halves st)) as [lo hi]. simpl in *.
  split; [|by apply halves_app]. rewrite length_app. unfold half_ok in *. lia.
Qed.

Lemma length_spec_rounds n st : length st = 32%nat -> length (spec_rounds n st) = 32%nat.
Proof. apply spec_rounds_iter. Qed.

#[local] Hint Resolve length_spec_rounds length_WRITE_STATE : halves.

Lemma spec_rounds_add n k st :
  length st = 32%nat -> spec_rounds (n + k) st = spec_rounds n (spec_rounds k st).
Proof.
  intros Hst. destruct (spec_rounds_iter k st Hst) as [_ Hk].
  unfold spec_rounds at 1 2. by rewrite Hk, Nat.iter_add.
Qed.

Lemma spec_rounds_0 st : spec_rounds 0 st = st.
Proof. apply take_drop. Qed.

(** An even number of rounds of the specification is a sequence of unrolled
    pairs. *)
Lemma round_pair_rounds s :
  WRITE_STATE (ROUND_ODD (ROUND_EVEN s)) = spec_rounds 2 (WRITE_STATE s).
Proof.
  rewrite <- app_halves at 1. rewrite round_pair_spec. unfold spec_rounds. simpl.
  by destruct (spec_round (spec_round (halves (WRITE_STATE s)))).
Qed.

Lemma sixteen_rounds_spec s :
  WRITE_STATE (SIXTEEN_ROUNDS s) = spec_rounds 16 (WRITE_STATE s).
Proof.
  unfold SIXTEEN_ROUNDS. rewrite !round_pair_rounds.
  rewrite <- !spec_rounds_add; [done|..]; auto 10 with halves.
Qed.

(** ** Blocks and closing: lemmas *)

Lemma length_spec_block b st : length st = 32%nat -> length (spec_block b st) = 32%nat.
Proof.
  intros H. apply length_spec_rounds.
  rewrite length_app, length_zip_with, length_take, length_drop, length_map, length_seq. lia.
Qed.

Lemma spec_block_take b st : spec_block (take 32 b) st = spec_block b st.
Proof.
  unfold spec_block. do 3 f_equal. apply map_ext_in. intros i Hi%in_seq.
  rewrite skipn_firstn_comm. apply load_le_take. lia.
Qed.

(** One iteration of the loop of [cubehash_core] on a full buffer. *)
Lemma process_block b st :
  length st = 32%nat ->
  process_local READ_STATE WRITE_STATE (fun buf s => SIXTEEN_ROUNDS (INPUT_BLOCK buf s)) b st =
  spec_block b st.
Proof.
  intros H. unfold process_local. rewrite sixteen_rounds_spec. unfold spec_block. f_equal.
  do 32 (destruct st as [|? st]; [discriminate H|]). by destruct st.
Qed.

Definition state_ok (st : list Z) : Prop := length st = 32%nat.

Lemma cubehash_core_update c data :
  state_ok (chain c) -> cubehash_core c data = update 32 spec_block c data.
Proof.
  intros Hc. unfold cubehash_core.
  rewrite update_local_update; [|apply READ_WRITE_STATE|by apply WRITE_READ_STATE].
  apply (update_ext _ _ _ (fun _ => True) state_ok); [| |apply Forall_True..|done].
  - intros b st _. exact (process_block b st).
  - intros b st _. exact (length_spec_block b st).
Qed.

Lemma close_step_rounds s i :
  i <> 0%nat -> WRITE_STATE (close_step s i) = spec_rounds 16 (WRITE_STATE s).
Proof.
  intros Hi. unfold close_step. destruct (Nat.eqb_spec i 0); [done|]. apply sixteen_rounds_spec.
Qed.

Lemma close_step_0 s :
  WRITE_STATE (close_step s 0) =
  let st := spec_rounds 16 (WRITE_STATE s) in take 31 st ++ [(st !!! 31%nat) ⊕ 1].
Proof. rewrite <- sixteen_rounds_spec. unfold close_step. cbn [Nat.eqb]. by destruct (SIXTEEN_ROUNDS s). Qed.

Lemma close_steps s :
  WRITE_STATE (foldl close_step s (seq 0 11)) = spec_final (spec_rounds 16 (WRITE_STATE s)).
Proof.
  cbn [foldl seq]. rewrite !(close_step_rounds _ (S _)) by done.
  rewrite close_step_0. unfold spec_final. cbv zeta.
  set (st := take 31 _ ++ _).
  assert (length st = 32%nat) as Hst.
  { unfold st. rewrite length_app, length_take, length_spec_rounds by apply length_WRITE_STATE.
    done. }
  by rewrite <- !spec_rounds_add by auto 20 with halves.
Qed.

Lemma length_spec_final st : state_ok st -> state_ok (spec_final st).
Proof.
  unfold state_ok, spec_final. intros H. apply length_spec_rounds.
  by rewrite length_app, length_take, H.
Qed.

(** Closing a context that holds [ptr] pending bytes. *)
Lemma cubehash_close_spec c ub n w :
  ctx_ok 32 c -> length (buf c) = 32%nat -> state_ok (chain c) -> (w <= 32)%nat ->
  exists c', cubehash_close c ub n w =
    Some (take (4 * w) (concat (map (store_le 4)
            (spec_final (spec_block (pending c ++ last_byte ub n :: replicate (31 - ptr c) 0)
                           (chain c))))), c') /\
    length (buf c') = 32%nat.
Proof.
  intros [_ Hp] Hb Hc Hw. unfold cubehash_close.
  pose proof (store_memset_tail (buf c) (ptr c) (last_byte ub n)) as Hpad.
  rewrite Hb in Hpad. specialize (Hpad Hp).
  destruct (store (buf c) (ptr c) (last_byte ub n)) as [b|]; [|discriminate Hpad].
  cbn [mbind option_bind] in *. rewrite Hpad.
  replace (32 - (ptr c + 1))%nat with (31 - ptr c)%nat by lia.
  fold (pending c). set (blk := pending c ++ _).
  assert (length blk = 32%nat) as Hblk.
  { unfold blk. rewrite length_app, (length_pending 32) by (unfold ctx_ok; lia). simpl.
    rewrite length_replicate. lia. }
  cbn [mbind option_bind]. eexists (BlockCtx blk (ptr c) _). split; [|exact Hblk]. f_equal. f_equal.
  rewrite (map_ext _ (fun z => store_le 4 (WRITE_STATE (foldl close_step
             (INPUT_BLOCK blk (READ_STATE (chain c))) (seq 0 11)) !!! z)))
    by (intros; apply sph_enc32le_store).
  rewrite (map_lookup_seq (store_le 4)) by (rewrite length_WRITE_STATE; lia).
  rewrite <- (take_concat_map _ 4) by apply length_store_le.
  do 3 f_equal. rewrite close_steps. f_equal.
  rewrite <- sixteen_rounds_spec, <- (process_block blk (chain c) Hc).
  unfold process_local. reflexivity.
Qed.

(** ** The four variants *)

Inductive cubehash_size := CH224 | CH256 | CH384 | CH512.

Definition size_bits (v : cubehash_size) : Z :=
  match v with CH224 => 224 | CH256 => 256 | CH384 => 384 | CH512 => 512 end.

Definition cubehash_ops (v : cubehash_size) : SphHash sph_cubehash_context :=
  match v with
  | CH224 => {| sph_init := sph_cubehash224_init; sph_update := sph_cubehash224;
                sph_addbits_and_close := sph_cubehash224_addbits_and_close |}
  | CH256 => {| sph_init := sph_cubehash256_init; sph_update := sph_cubehash256;
                sph_addbits_and_close := sph_cubehash256_addbits_and_close |}
  | CH384 => {| sph_init := sph_cubehash384_init; sph_update := sph_cubehash384;
                sph_addbits_and_close := sph_cubehash384_addbits_and_close |}
  | CH512 => {| sph_init := sph_cubehash512_init; sph_update := sph_cubehash512;
                sph_addbits_and_close := sph_cubehash512_addbits_and_close |}
  end.

(** What the four functions have in common. *)
Definition size_iv (v : cubehash_size) : list Z :=
  match v with CH224 => IV224 | CH256 => IV256 | CH384 => IV384 | CH512 => IV512 end.
Definition size_words (v : cubehash_size) : nat :=
  match v with CH224 => 7 | CH256 => 8 | CH384 => 12 | CH512 => 16 end.

Lemma cubehash_ops_init v c : @sph_init _ (cubehash_ops v) c = cubehash_init c (size_iv v).
Proof. by destruct v. Qed.

Lemma cubehash_ops_update v c data : @sph_update _ (cubehash_ops v) c data = cubehash_core c data.
Proof. by destruct v. Qed.

Lemma cubehash_ops_close v c ub n :
  @sph_addbits_and_close _ (cubehash_ops v) c ub n =
  '(dst, c) ← cubehash_close c ub n (size_words v); Some (dst, cubehash_init c (size_iv v)).
Proof. by destruct v. Qed.

Lemma size_iv_spec v : size_iv v = spec_iv (size_bits v).
Proof. by destruct v; vm_compute. Qed.

Lemma size_iv_ok v : state_ok (size_iv v).
Proof. by destruct v. Qed.

Lemma size_words_bytes v : (4 * size_words v = Z.to_nat (size_bits v / 8) /\ size_words v <= 16)%nat.
Proof. destruct v; (split; [reflexivity|simpl; lia]). Qed.

(** The digest from the state and the pending bytes that the calls leave. *)
Lemma cubehash_spec_absorb h m ub n :
  cubehash_spec h m ub n =
  let '(st, r) := absorb 32 spec_block (spec_iv h) m in
  take (Z.to_nat (h / 8)) (concat (map (store_le 4)
    (spec_final (spec_block (r ++ last_byte ub n :: replicate (31 - length r) 0) st)))).
Proof.
  unfold cubehash_spec. cbv zeta.
  change (fold_blocks 32 spec_block (length (spec_pad m ub n) / 32) (spec_pad m ub n) (spec_iv h))
    with (absorb 32 spec_block (spec_iv h) (spec_pad m ub n)).1.
  unfold spec_pad. pose proof (Nat.mod_upper_bound (length m) 32).
  rewrite absorb_tail by (rewrite ?length_cons, ?length_replicate; lia).
  pose proof (absorb_rest_length 32 spec_block ltac:(lia) (spec_iv h) m) as Hr.
  destruct (absorb 32 spec_block (spec_iv h) m) as [st r]. simpl in Hr. by rewrite Hr.
Qed.

Lemma cubehash_stream v c chunks ub n :
  length (buf c) = 32%nat ->
  exists c1 c2, @sph_updates _ (cubehash_ops v) (@sph_init _ (cubehash_ops v) c) chunks = Some c1 /\
    @sph_addbits_and_close _ (cubehash_ops v) c1 ub n =
      Some (cubehash_spec (size_bits v) (concat chunks) ub n, c2) /\
    c2 ≡ @sph_init _ (cubehash_ops v) c /\ length (buf c2) = 32%nat.
Proof.
  intros Hb. rewrite cubehash_ops_init. set (c0 := cubehash_init c (size_iv v)).
  assert (ctx_ok 32 c0) as Hok0 by (unfold ctx_ok; simpl; lia).
  destruct (updates_absorb 32 spec_block ltac:(lia) spec_block_take c0 chunks Hok0)
    as (c1&Hu&Hok1&Hl1&Habs).
  assert (state_ok (chain c1)) as Hc1.
  { change (chain c1) with (chain c1, pending c1).1. rewrite Habs.
    apply absorb_inv; [apply length_spec_block|apply size_iv_ok]. }
  destruct (cubehash_close_spec c1 ub n (size_words v)) as (c2&Hcl&Hl2);
    [done|by rewrite Hl1|done|pose proof (size_words_bytes v); lia|].
  exists c1, (cubehash_init c2 (size_iv v)). split_and!.
  - etransitivity; [|exact Hu].
    apply (foldl_updates _ _ (fun c => ctx_ok 32 c /\ state_ok (chain c))).
    + intros c' data [_ Hc']. rewrite cubehash_ops_update. by apply cubehash_core_update.
    + intros c' data c''. apply update_inv; [lia|apply spec_block_take|apply length_spec_block].
    + split; [done|apply size_iv_ok].
  - rewrite cubehash_ops_close, Hcl. cbn [mbind option_bind]. do 2 f_equal.
    rewrite cubehash_spec_absorb, <- size_iv_spec.
    change (pending c0) with ([] : list Z) in Habs. simpl in Habs. rewrite <- Habs.
    rewrite (length_pending 32) by (done || lia). by rewrite (proj1 (size_words_bytes v)).
  - unfold equiv, block_ctx_equiv. simpl. split_and!; [done|done|lia|done].
  - done.
Qed.

Lemma cubehash_spec_ok v m ub n :
  length (cubehash_spec (size_bits v) m ub n) = Z.to_nat (size_bits v / 8) /\
  Forall byte (cubehash_spec (size_bits v) m ub n).
Proof.
  unfold cubehash_spec. cbv zeta. set (st := fold_blocks _ _ _ _ _).
  assert (state_ok (spec_final st)) as Hst.
  { apply length_spec_final, fold_blocks_inv; [apply length_spec_block|].
    rewrite <- size_iv_spec. apply size_iv_ok. }
  split.
  - rewrite <- (proj1 (size_words_bytes v)), (take_concat_map _ 4) by apply length_store_le.
    rewrite length_concat_map with (k := 4%nat) by apply length_store_le.
    rewrite length_take, Hst. pose proof (size_words_bytes v). lia.
  - apply Forall_take, Forall_concat_map. apply store_le_bytes.
Qed.

Definition cubehash_hash_spec (v : cubehash_size) : @SphHashSpec _ (cubehash_ops v) _ :=
  @Build_SphHashSpec _ (cubehash_ops v) _
    (fun c => length (buf c) = 32%nat) (Z.to_nat (size_bits v / 8))
    (cubehash_spec (size_bits v))
    (fun m ub n _ => cubehash_spec_ok v m ub n)
    (fun c chunks ub n Hc _ _ => cubehash_stream v c chunks ub n Hc).

(** The instance used by [Hash9]. *)
#[export] Instance sph_cubehash512_ops : SphHash sph_cubehash_context := cubehash_ops CH512.
#[export] Instance sph_cubehash512_spec : SphHashSpec sph_cubehash_context :=
  cubehash_hash_spec CH512.

(** ** Rounds are permutations: lemmas *)

Abbreviation words32 := (Forall (word 32)).

Lemma exchange_involutive k half :
  half_ok half -> (k = 1 \/ k = 2 \/ k = 4 \/ k = 8)%nat -> exchange k (exchange k half) = half.
Proof.
  intros H Hk. rewrite !exchange_swap by auto with halves.
  do 16 (destruct half as [|? half]; [discriminate H|]). destruct half; [|discriminate H].
  by destruct_or! Hk; subst k.
Qed.

Lemma xor_into_involutive hi lo : length hi = length lo -> xor_into hi (xor_into hi lo) = lo.
Proof.
  revert lo. induction hi as [|h hi IH]; intros [|l lo] H; simpl in *; try lia; [done|].
  f_equal; [|apply IH; lia]. by rewrite Z.lxor_assoc, Z.lxor_nilpotent, Z.lxor_0_r.
Qed.

Lemma unadd_add_into lo hi :
  words32 hi -> length lo = length hi -> unadd lo (add_into lo hi) = hi.
Proof.
  revert hi. induction lo as [|l lo IH]; intros [|h hi] Hw H; simpl in *; try lia; [done|].
  apply Forall_cons_1 in Hw as [Hh Hhi].
  f_equal; [by apply SPH_T32_add_sub|apply IH; [done|lia]].
Qed.

Lemma unrotate_rotate n lo : 0 < n < 32 -> words32 lo -> unrotate n (rotate n lo) = lo.
Proof.
  intros Hn. induction 1 as [|l lo Hl Hlo IH]; simpl; [done|].
  by rewrite SPH_ROTR32_ROTL32, IH.
Qed.

Lemma words32_add_into lo hi : words32 (add_into lo hi).
Proof.
  unfold add_into. revert hi. induction lo; intros [|]; simpl; auto with words.
Qed.

Lemma words32_rotate n lo : words32 (rotate n lo).
Proof. unfold rotate. induction lo; simpl; auto with words. Qed.

Lemma words32_xor_into hi lo : words32 hi -> words32 lo -> words32 (xor_into hi lo).
Proof.
  intros H. revert lo. unfold xor_into. induction H; intros [|] Hlo; simpl; auto.
  apply Forall_cons_1 in Hlo as [??]. auto with words.
Qed.

Lemma words32_exchange k half : words32 half -> words32 (exchange k half).
Proof.
  intros H. unfold exchange. apply Forall_map, Forall_true. intros i.
  rewrite list_lookup_total_alt. destruct (half !! Nat.lxor i k) eqn:E; simpl; [|by apply word_0].
  by eapply Forall_lookup_1.
Qed.

#[local] Hint Resolve words32_add_into words32_rotate words32_xor_into words32_exchange : halves.

Lemma spec_unround_round s :
  half_ok s.1 -> half_ok s.2 -> words32 s.1 -> words32 s.2 -> spec_unround (spec_round s) = s.
Proof.
  destruct s as [lo hi]. cbn [fst snd]. intros Hlo Hhi Wlo Whi. unfold spec_unround, spec_round.
  rewrite (exchange_involutive 1) by auto 10 with halves.
  set (hi1 := add_into lo hi).
  set (lo1 := xor_into hi1 (exchange 8 (rotate 7 lo))).
  assert (half_ok hi1 /\ half_ok lo1 /\ words32 hi1 /\ words32 lo1) as (?&?&?&?).
  { unfold lo1, hi1. split_and!; auto 10 with halves. }
  set (hi2 := add_into lo1 (exchange 2 hi1)).
  assert (half_ok hi2) by (unfold hi2; auto with halves).
  assert (half_ok (exchange 4 (rotate 11 lo1))) as H4 by auto with halves.
  rewrite xor_into_involutive by (unfold half_ok in *; congruence).
  rewrite (exchange_involutive 4) by auto with halves.
  rewrite unrotate_rotate by (done || lia).
  unfold hi2. rewrite unadd_add_into by (auto with halves; unfold half_ok in *;
    pose proof (length_exchange 2 hi1); unfold half_ok in *; congruence).
  rewrite (exchange_involutive 2) by auto with halves.
  unfold lo1. pose proof (length_exchange 8 (rotate 7 lo)).
  rewrite xor_into_involutive by (unfold half_ok in *; congruence).
  rewrite (exchange_involutive 8) by auto with halves.
  rewrite unrotate_rotate by (done || lia).
  unfold hi1. rewrite unadd_add_into by (done || unfold half_ok in *; congruence). done.
Qed.

(** The states that can occur: two halves of sixteen 32-bit words. *)
Definition halves_wf (s : list Z * list Z) : Prop :=
  half_ok s.1 /\ half_ok s.2 /\ words32 s.1 /\ words32 s.2.

Lemma spec_round_wf s : halves_wf s -> halves_wf (spec_round s).
Proof.
  destruct s as [lo hi]. unfold halves_wf, spec_round. cbn [fst snd].
  intros (?&?&?&?). split_and!; auto 20 with halves.
Qed.

Lemma spec_rounds_wf n s : halves_wf s -> halves_wf (Nat.iter n spec_round s).
Proof. intros H. induction n as [|n IH]; [done|]. by apply spec_round_wf. Qed.

Lemma spec_unrounds_rounds n s :
  halves_wf s -> Nat.iter n spec_unround (Nat.iter n spec_round s) = s.
Proof.
  intros H. induction n as [|n IH]; [done|]. rewrite Nat.iter_succ_r.
  cbn [Nat.iter nat_rect]. rewrite spec_unround_round; [done|..];
    apply (spec_rounds_wf n s H).
Qed.

(** The 32-bit local variables of the rounds. *)
Definition xstate_wf (s : xstate) : Prop := words32 (WRITE_STATE s).

Lemma xstate_halves_wf s : xstate_wf s -> halves_wf (halves (WRITE_STATE s)).
Proof.
  intros H. destruct (halves_ok _ (length_WRITE_STATE s)).
  split_and!; [done..|by apply Forall_take|by apply Forall_drop].
Qed.

(** ** Theorems *)

(** for every size, every previous contents of the context and every way of
    cutting the message into calls, [init], the calls that add data and
    [addbits_and_close] stay inside the buffer, return the CubeHash16/32 digest
    of the message followed by the extra bits, and leave the context as [init]
    does. *)
Theorem cubehash_streaming v c chunks ub n :
  length (buf c) = 32%nat ->
  exists c1 c2, @sph_updates _ (cubehash_ops v) (@sph_init _ (cubehash_ops v) c) chunks = Some c1 /\
    @sph_addbits_and_close _ (cubehash_ops v) c1 ub n =
      Some (cubehash_spec (size_bits v) (concat chunks) ub n, c2) /\
    c2 ≡ @sph_init _ (cubehash_ops v) c.
Proof.
  intros Hc. destruct (cubehash_stream v c chunks ub n Hc) as (c1&c2&?&?&?&?). eauto 10.
Qed.

Lemma cubehash_streaming_witness :
  exists c1 c2,
    @sph_updates _ (cubehash_ops CH512)
      (@sph_init _ (cubehash_ops CH512) (BlockCtx (replicate 32 255) 9 [])) [[104; 101]; [108; 108; 111]]
      = Some c1 /\
    @sph_addbits_and_close _ (cubehash_ops CH512) c1 0 0 =
      Some (cubehash_spec 512 [104; 101; 108; 108; 111] 0 0, c2) /\
    c2 ≡ @sph_init _ (cubehash_ops CH512) (BlockCtx (replicate 32 255) 9 []).
Proof. apply (cubehash_streaming CH512 _ [[104; 101]; [108; 108; 111]] 0 0). reflexivity. Defined.

(** the unrolled rounds, for each of the four unrolling settings, are sixteen
    rounds of the CubeHash specification (addition, rotation, exchange and
    exclusive-or steps over the 32-word state). *)
Theorem cubehash_rounds_equiv s :
  WRITE_STATE (SIXTEEN_ROUNDS s) = spec_rounds 16 (WRITE_STATE s) /\
  SIXTEEN_ROUNDS_2 s = SIXTEEN_ROUNDS s /\
  SIXTEEN_ROUNDS_4 s = SIXTEEN_ROUNDS s /\
  SIXTEEN_ROUNDS_8 s = SIXTEEN_ROUNDS s.
Proof. split; [apply sixteen_rounds_spec|done]. Qed.

(** sixteen rounds are a permutation of the 32-bit states: the inverse rounds
    give back the state before the rounds, so two different states never meet. *)
Theorem cubehash_rounds_permutation s1 s2 :
  xstate_wf s1 -> xstate_wf s2 ->
  Nat.iter 16 spec_unround (halves (WRITE_STATE (SIXTEEN_ROUNDS s1))) = halves (WRITE_STATE s1) /\
  (SIXTEEN_ROUNDS s1 = SIXTEEN_ROUNDS s2 -> s1 = s2).
Proof.
  intros H1 H2.
  assert (forall s, xstate_wf s ->
    Nat.iter 16 spec_unround (halves (WRITE_STATE (SIXTEEN_ROUNDS s))) = halves (WRITE_STATE s))
    as Hinv.
  { intros s Hs. rewrite sixteen_rounds_spec.
    rewrite (proj2 (spec_rounds_iter 16 _ (length_WRITE_STATE s))).
    by apply spec_unrounds_rounds, xstate_halves_wf. }
  split; [by apply Hinv|]. intros Heq.
  pose proof (Hinv s1 H1) as E1. rewrite Heq, (Hinv s2 H2) in E1.
  rewrite <- (READ_WRITE_STATE s1), <- (READ_WRITE_STATE s2), <- (app_halves (WRITE_STATE s1)).
  by rewrite <- E1, app_halves.
Qed.

Lemma cubehash_rounds_permutation_witness :
  Nat.iter 16 spec_unround (halves (WRITE_STATE (SIXTEEN_ROUNDS (READ_STATE IV256)))) =
  halves (WRITE_STATE (READ_STATE IV256)).
Proof.
  apply (cubehash_rounds_permutation (READ_STATE IV256) (READ_STATE IV512));
    apply (bool_decide_unpack _); vm_compute; exact I.
Defined.

(** the four constant initial states are the ones that the specification
    derives from the output size [h], block size 32 and 16 rounds per block by
    running 160 rounds on the state [(h/8, 32, 16, 0, ...)]. *)
Theorem cubehash_initial_states :
  IV224 = spec_iv 224 /\ IV256 = spec_iv 256 /\ IV384 = spec_iv 384 /\ IV512 = spec_iv 512.
Proof. by vm_compute. Qed.

(** Known answer: CubeHash16/32-512 of the empty message. *)
Example cubehash512_empty :
  (fun r => r.1) <$> sph_cubehash512_close (sph_cubehash512_init (BlockCtx (replicate 32 0) 0 [])) =
  Some [0x4a; 0x1d; 0x00; 0xbb; 0xcf; 0xcb; 0x5a; 0x95; 0x62; 0xfb; 0x98; 0x1e; 0x7f; 0x7d; 0xb3;
        0x35; 0x0f; 0xe2; 0x65; 0x86; 0x39; 0xd9; 0x48; 0xb9; 0xd5; 0x74; 0x52; 0xc2; 0x23; 0x28;
        0xbb; 0x32; 0xf4; 0x68; 0xb0; 0x72; 0x20; 0x84; 0x50; 0xba; 0xd5; 0xee; 0x17; 0x82; 0x71;
        0x40; 0x8b; 0xe0; 0xb1; 0x6e; 0x56; 0x33; 0xac; 0x8a; 0x1e; 0x3c; 0xf9; 0x86; 0x4c; 0xfb;
        0xfc; 0x8e; 0x04; 0x3a].
Proof. by vm_compute. Qed.
