(* ===== verification/Blake.v ===== *)
(** * BLAKE: [src/src/blake.c]

    The BLAKE-224/256 (32-bit words) and BLAKE-384/512 (64-bit words) hash
    functions, with both implementations of the rounds: the unrolled one, which
    selects message words by macro expansion, and the compact one, which reads
    the [sigma] table.  The functions are compared with the definition of BLAKE
    on bit strings ([blake_spec]). *)

From S2P Require Import Prelude SphTypes BlockBuffer MessageBits SphHash.

#[local] Open Scope c_scope.

(** ** Tables *)

Definition IV224 : list Z :=
  [0xC1059ED8; 0x367CD507; 0x3070DD17; 0xF70E5939;
   0xFFC00B31; 0x68581511; 0x64F98FA7; 0xBEFA4FA4].

Definition IV256 : list Z :=
  [0x6A09E667; 0xBB67AE85; 0x3C6EF372; 0xA54FF53A;
   0x510E527F; 0x9B05688C; 0x1F83D9AB; 0x5BE0CD19].

Definition IV384 : list Z :=
  [0xCBBB9D5DC1059ED8; 0x629A292A367CD507; 0x9159015A3070DD17; 0x152FECD8F70E5939;
   0x67332667FFC00B31; 0x8EB44A8768581511; 0xDB0C2E0D64F98FA7; 0x47B5481DBEFA4FA4].

Definition IV512 : list Z :=
  [0x6A09E667F3BCC908; 0xBB67AE8584CAA73B; 0x3C6EF372FE94F82B; 0xA54FF53A5F1D36F1;
   0x510E527FADE682D1; 0x9B05688C2B3E6C1F; 0x1F83D9ABFB41BD6B; 0x5BE0CD19137E2179].

(** The table of the compact version. *)
Definition sigma : list (list nat) :=
  [[0; 1; 2; 3; 4; 5; 6; 7; 8; 9; 10; 11; 12; 13; 14; 15];
   [14; 10; 4; 8; 9; 15; 13; 6; 1; 12; 0; 2; 11; 7; 5; 3];
   [11; 8; 12; 0; 5; 2; 15; 13; 10; 14; 3; 6; 7; 1; 9; 4];
   [7; 9; 3; 1; 13; 12; 11; 14; 2; 6; 5; 10; 4; 0; 15; 8];
   [9; 0; 5; 7; 2; 4; 10; 15; 14; 1; 11; 12; 6; 8; 3; 13];
   [2; 12; 6; 10; 0; 11; 8; 3; 4; 13; 7; 5; 15; 14; 1; 9];
   [12; 5; 1; 15; 14; 13; 4; 10; 0; 7; 6; 3; 9; 2; 8; 11];
   [13; 11; 7; 14; 12; 1; 3; 9; 5; 0; 15; 4; 8; 6; 2; 10];
   [6; 15; 14; 9; 11; 3; 0; 8; 12; 2; 13; 7; 1; 4; 10; 5];
   [10; 2; 8; 4; 7; 6; 1; 5; 15; 11; 9; 14; 3; 12; 13; 0];
   [0; 1; 2; 3; 4; 5; 6; 7; 8; 9; 10; 11; 12; 13; 14; 15];
   [14; 10; 4; 8; 9; 15; 13; 6; 1; 12; 0; 2; 11; 7; 5; 3];
   [11; 8; 12; 0; 5; 2; 15; 13; 10; 14; 3; 6; 7; 1; 9; 4];
   [7; 9; 3; 1; 13; 12; 11; 14; 2; 6; 5; 10; 4; 0; 15; 8];
   [9; 0; 5; 7; 2; 4; 10; 15; 14; 1; 11; 12; 6; 8; 3; 13];
   [2; 12; 6; 10; 0; 11; 8; 3; 4; 13; 7; 5; 15; 14; 1; 9]]%nat.

(** The macros [Z00] to [Z9F]: [Zri] names the message word of position [i] in
    round [r]. *)
Definition Zmacros : list (list nat) :=
  [[0; 1; 2; 3; 4; 5; 6; 7; 8; 9; 10; 11; 12; 13; 14; 15];
   [14; 10; 4; 8; 9; 15; 13; 6; 1; 12; 0; 2; 11; 7; 5; 3];
   [11; 8; 12; 0; 5; 2; 15; 13; 10; 14; 3; 6; 7; 1; 9; 4];
   [7; 9; 3; 1; 13; 12; 11; 14; 2; 6; 5; 10; 4; 0; 15; 8];
   [9; 0; 5; 7; 2; 4; 10; 15; 14; 1; 11; 12; 6; 8; 3; 13];
   [2; 12; 6; 10; 0; 11; 8; 3; 4; 13; 7; 5; 15; 14; 1; 9];
   [12; 5; 1; 15; 14; 13; 4; 10; 0; 7; 6; 3; 9; 2; 8; 11];
   [13; 11; 7; 14; 12; 1; 3; 9; 5; 0; 15; 4; 8; 6; 2; 10];
   [6; 15; 14; 9; 11; 3; 0; 8; 12; 2; 13; 7; 1; 4; 10; 5];
   [10; 2; 8; 4; 7; 6; 1; 5; 15; 11; 9; 14; 3; 12; 13; 0]]%nat.

(** The macros [CS0] to [CSF]. *)
Definition CS_macros : list Z :=
  [0x243F6A88; 0x85A308D3; 0x13198A2E; 0x03707344;
   0xA4093822; 0x299F31D0; 0x082EFA98; 0xEC4E6C89;
   0x452821E6; 0x38D01377; 0xBE5466CF; 0x34E90C6C;
   0xC0AC29B7; 0xC97C50DD; 0x3F84D5B5; 0xB5470917].

(** The array [CS] of the compact version. *)
Definition CS : list Z :=
  [0x243F6A88; 0x85A308D3; 0x13198A2E; 0x03707344;
   0xA4093822; 0x299F31D0; 0x082EFA98; 0xEC4E6C89;
   0x452821E6; 0x38D01377; 0xBE5466CF; 0x34E90C6C;
   0xC0AC29B7; 0xC97C50DD; 0x3F84D5B5; 0xB5470917].

(** The macros [CB0] to [CBF]. *)
Definition CB_macros : list Z :=
  [0x243F6A8885A308D3; 0x13198A2E03707344; 0xA4093822299F31D0; 0x082EFA98EC4E6C89;
   0x452821E638D01377; 0xBE5466CF34E90C6C; 0xC0AC29B7C97C50DD; 0x3F84D5B5B5470917;
   0x9216D5D98979FB1B; 0xD1310BA698DFB5AC; 0x2FFD72DBD01ADFB7; 0xB8E1AFED6A267E96;
   0xBA7C9045F12C7F99; 0x24A19947B3916CF7; 0x0801F2E2858EFC16; 0x636920D871574E69].

(** The array [CB] of the compact version. *)
Definition CB : list Z :=
  [0x243F6A8885A308D3; 0x13198A2E03707344; 0xA4093822299F31D0; 0x082EFA98EC4E6C89;
   0x452821E638D01377; 0xBE5466CF34E90C6C; 0xC0AC29B7C97C50DD; 0x3F84D5B5B5470917;
   0x9216D5D98979FB1B; 0xD1310BA698DFB5AC; 0x2FFD72DBD01ADFB7; 0xB8E1AFED6A267E96;
   0xBA7C9045F12C7F99; 0x24A19947B3916CF7; 0x0801F2E2858EFC16; 0x636920D871574E69].

(** ** Rounds *)

(** The local variables [V0] to [VF]. *)
Record vstate := VState {
  V0 : Z; V1 : Z; V2 : Z; V3 : Z; V4 : Z; V5 : Z; V6 : Z; V7 : Z;
  V8 : Z; V9 : Z; VA : Z; VB : Z; VC : Z; VD : Z; VE : Z; VF : Z }.

(** [Mx(r, i)], [CSx(r, i)] and [CBx(r, i)]: the names built from [Zri]. *)
Definition Zri (r i : nat) : nat := (Zmacros !!! r) !!! i.
Definition Mx (M : list Z) (r i : nat) : Z := M !!! Zri r i.
Definition CSx (r i : nat) : Z := CS_macros !!! Zri r i.
Definition CBx (r i : nat) : Z := CB_macros !!! Zri r i.

(** [sigma[r][i]]. *)
Definition sig (r i : nat) : nat := (sigma !!! r) !!! i.

Definition GS (m0 m1 c0 c1 a b c d : Z) : Z * Z * Z * Z :=
  let a := SPH_T32 (a + b + (m0 ⊕ c1)) in
  let d := SPH_ROTR32 (d ⊕ a) 16 in
  let c := SPH_T32 (c + d) in
  let b := SPH_ROTR32 (b ⊕ c) 12 in
  let a := SPH_T32 (a + b + (m1 ⊕ c0)) in
  let d := SPH_ROTR32 (d ⊕ a) 8 in
  let c := SPH_T32 (c + d) in
  let b := SPH_ROTR32 (b ⊕ c) 7 in
  (a, b, c, d).

Definition ROUND_S (r : nat) (M : list Z) (v : vstate) : vstate :=
  match v with VState V0 V1 V2 V3 V4 V5 V6 V7 V8 V9 VA VB VC VD VE VF =>
  let '(V0, V4, V8, VC) := GS (Mx M r 0) (Mx M r 1) (CSx r 0) (CSx r 1) V0 V4 V8 VC in
  let '(V1, V5, V9, VD) := GS (Mx M r 2) (Mx M r 3) (CSx r 2) (CSx r 3) V1 V5 V9 VD in
  let '(V2, V6, VA, VE) := GS (Mx M r 4) (Mx M r 5) (CSx r 4) (CSx r 5) V2 V6 VA VE in
  let '(V3, V7, VB, VF) := GS (Mx M r 6) (Mx M r 7) (CSx r 6) (CSx r 7) V3 V7 VB VF in
  let '(V0, V5, VA, VF) := GS (Mx M r 8) (Mx M r 9) (CSx r 8) (CSx r 9) V0 V5 VA VF in
  let '(V1, V6, VB, VC) := GS (Mx M r 10) (Mx M r 11) (CSx r 10) (CSx r 11) V1 V6 VB VC in
  let '(V2, V7, V8, VD) := GS (Mx M r 12) (Mx M r 13) (CSx r 12) (CSx r 13) V2 V7 V8 VD in
  let '(V3, V4, V9, VE) := GS (Mx M r 14) (Mx M r 15) (CSx r 14) (CSx r 15) V3 V4 V9 VE in
  VState V0 V1 V2 V3 V4 V5 V6 V7 V8 V9 VA VB VC VD VE VF end.

Definition ROUND_S_compact (r : nat) (M : list Z) (v : vstate) : vstate :=
  match v with VState V0 V1 V2 V3 V4 V5 V6 V7 V8 V9 VA VB VC VD VE VF =>
  let '(V0, V4, V8, VC) := GS (M !!! sig r 0) (M !!! sig r 1) (CS !!! sig r 0) (CS !!! sig r 1) V0
      V4 V8 VC in
  let '(V1, V5, V9, VD) := GS (M !!! sig r 2) (M !!! sig r 3) (CS !!! sig r 2) (CS !!! sig r 3) V1
      V5 V9 VD in
  let '(V2, V6, VA, VE) := GS (M !!! sig r 4) (M !!! sig r 5) (CS !!! sig r 4) (CS !!! sig r 5) V2
      V6 VA VE in
  let '(V3, V7, VB, VF) := GS (M !!! sig r 6) (M !!! sig r 7) (CS !!! sig r 6) (CS !!! sig r 7) V3
      V7 VB VF in
  let '(V0, V5, VA, VF) := GS (M !!! sig r 8) (M !!! sig r 9) (CS !!! sig r 8) (CS !!! sig r 9) V0
      V5 VA VF in
  let '(V1, V6, VB, VC) := GS (M !!! sig r 10) (M !!! sig r 11) (CS !!! sig r 10) (CS !!! sig r 11)
      V1 V6 VB VC in
  let '(V2, V7, V8, VD) := GS (M !!! sig r 12) (M !!! sig r 13) (CS !!! sig r 12) (CS !!! sig r 13)
      V2 V7 V8 VD in
  let '(V3, V4, V9, VE) := GS (M !!! sig r 14) (M !!! sig r 15) (CS !!! sig r 14) (CS !!! sig r 15)
      V3 V4 V9 VE in
  VState V0 V1 V2 V3 V4 V5 V6 V7 V8 V9 VA VB VC VD VE VF end.

Definition GB (m0 m1 c0 c1 a b c d : Z) : Z * Z * Z * Z :=
  let a := SPH_T64 (a + b + (m0 ⊕ c1)) in
  let d := SPH_ROTR64 (d ⊕ a) 32 in
  let c := SPH_T64 (c + d) in
  let b := SPH_ROTR64 (b ⊕ c) 25 in
  let a := SPH_T64 (a + b + (m1 ⊕ c0)) in
  let d := SPH_ROTR64 (d ⊕ a) 16 in
  let c := SPH_T64 (c + d) in
  let b := SPH_ROTR64 (b ⊕ c) 11 in
  (a, b, c, d).

Definition ROUND_B (r : nat) (M : list Z) (v : vstate) : vstate :=
  match v with VState V0 V1 V2 V3 V4 V5 V6 V7 V8 V9 VA VB VC VD VE VF =>
  let '(V0, V4, V8, VC) := GB (Mx M r 0) (Mx M r 1) (CBx r 0) (CBx r 1) V0 V4 V8 VC in
  let '(V1, V5, V9, VD) := GB (Mx M r 2) (Mx M r 3) (CBx r 2) (CBx r 3) V1 V5 V9 VD in
  let '(V2, V6, VA, VE) := GB (Mx M r 4) (Mx M r 5) (CBx r 4) (CBx r 5) V2 V6 VA VE in
  let '(V3, V7, VB, VF) := GB (Mx M r 6) (Mx M r 7) (CBx r 6) (CBx r 7) V3 V7 VB VF in
  let '(V0, V5, VA, VF) := GB (Mx M r 8) (Mx M r 9) (CBx r 8) (CBx r 9) V0 V5 VA VF in
  let '(V1, V6, VB, VC) := GB (Mx M r 10) (Mx M r 11) (CBx r 10) (CBx r 11) V1 V6 VB VC in
  let '(V2, V7, V8, VD) := GB (Mx M r 12) (Mx M r 13) (CBx r 12) (CBx r 13) V2 V7 V8 VD in
  let '(V3, V4, V9, VE) := GB (Mx M r 14) (Mx M r 15) (CBx r 14) (CBx r 15) V3 V4 V9 VE in
  VState V0 V1 V2 V3 V4 V5 V6 V7 V8 V9 VA VB VC VD VE VF end.

Definition ROUND_B_compact (r : nat) (M : list Z) (v : vstate) : vstate :=
  match v with VState V0 V1 V2 V3 V4 V5 V6 V7 V8 V9 VA VB VC VD VE VF =>
  let '(V0, V4, V8, VC) := GB (M !!! sig r 0) (M !!! sig r 1) (CB !!! sig r 0) (CB !!! sig r 1) V0
      V4 V8 VC in
  let '(V1, V5, V9, VD) := GB (M !!! sig r 2) (M !!! sig r 3) (CB !!! sig r 2) (CB !!! sig r 3) V1
      V5 V9 VD in
  let '(V2, V6, VA, VE) := GB (M !!! sig r 4) (M !!! sig r 5) (CB !!! sig r 4) (CB !!! sig r 5) V2
      V6 VA VE in
  let '(V3, V7, VB, VF) := GB (M !!! sig r 6) (M !!! sig r 7) (CB !!! sig r 6) (CB !!! sig r 7) V3
      V7 VB VF in
  let '(V0, V5, VA, VF) := GB (M !!! sig r 8) (M !!! sig r 9) (CB !!! sig r 8) (CB !!! sig r 9) V0
      V5 VA VF in
  let '(V1, V6, VB, VC) := GB (M !!! sig r 10) (M !!! sig r 11) (CB !!! sig r 10) (CB !!! sig r 11)
      V1 V6 VB VC in
  let '(V2, V7, V8, VD) := GB (M !!! sig r 12) (M !!! sig r 13) (CB !!! sig r 12) (CB !!! sig r 13)
      V2 V7 V8 VD in
  let '(V3, V4, V9, VE) := GB (M !!! sig r 14) (M !!! sig r 15) (CB !!! sig r 14) (CB !!! sig r 15)
      V3 V4 V9 VE in
  VState V0 V1 V2 V3 V4 V5 V6 V7 V8 V9 VA VB VC VD VE VF end.

(** ** Compression *)

(** [H[8]], [S[4]], [T0] and [T1] of the contexts. *)
Record blake_state := BlakeState { bH : list Z; bS : list Z; bT0 : Z; bT1 : Z }.

(** The local copies ([DECL_STATE32], [DECL_STATE64]). *)
Record decl_state := DeclState {
  H0 : Z; H1 : Z; H2 : Z; H3 : Z; H4 : Z; H5 : Z; H6 : Z; H7 : Z;
  S0 : Z; S1 : Z; S2 : Z; S3 : Z; lT0 : Z; lT1 : Z }.

Definition READ_STATE32 (state : blake_state) : decl_state :=
  DeclState
    (bH state !!! 0%nat) (bH state !!! 1%nat) (bH state !!! 2%nat) (bH state !!! 3%nat)
    (bH state !!! 4%nat) (bH state !!! 5%nat) (bH state !!! 6%nat) (bH state !!! 7%nat)
    (bS state !!! 0%nat) (bS state !!! 1%nat) (bS state !!! 2%nat) (bS state !!! 3%nat)
    (bT0 state) (bT1 state).

Definition WRITE_STATE32 (l : decl_state) : blake_state :=
  BlakeState [H0 l; H1 l; H2 l; H3 l; H4 l; H5 l; H6 l; H7 l]
    [S0 l; S1 l; S2 l; S3 l] (lT0 l) (lT1 l).

Definition READ_STATE64 (state : blake_state) : decl_state :=
  DeclState
    (bH state !!! 0%nat) (bH state !!! 1%nat) (bH state !!! 2%nat) (bH state !!! 3%nat)
    (bH state !!! 4%nat) (bH state !!! 5%nat) (bH state !!! 6%nat) (bH state !!! 7%nat)
    (bS state !!! 0%nat) (bS state !!! 1%nat) (bS state !!! 2%nat) (bS state !!! 3%nat)
    (bT0 state) (bT1 state).

Definition WRITE_STATE64 (l : decl_state) : blake_state :=
  BlakeState [H0 l; H1 l; H2 l; H3 l; H4 l; H5 l; H6 l; H7 l]
    [S0 l; S1 l; S2 l; S3 l] (lT0 l) (lT1 l).

Definition COMPRESS32 (buf : list Z) (l : decl_state) : decl_state :=
  match l with DeclState H0 H1 H2 H3 H4 H5 H6 H7 S0 S1 S2 S3 T0 T1 =>
  let v := VState H0 H1 H2 H3 H4 H5 H6 H7
    (S0 ⊕ (CS_macros !!! 0%nat)) (S1 ⊕ (CS_macros !!! 1%nat))
    (S2 ⊕ (CS_macros !!! 2%nat)) (S3 ⊕ (CS_macros !!! 3%nat))
    (T0 ⊕ (CS_macros !!! 4%nat)) (T0 ⊕ (CS_macros !!! 5%nat))
    (T1 ⊕ (CS_macros !!! 6%nat)) (T1 ⊕ (CS_macros !!! 7%nat)) in
  let M :=
    [sph_dec32be_aligned (drop 0 buf); sph_dec32be_aligned (drop 4 buf);
     sph_dec32be_aligned (drop 8 buf); sph_dec32be_aligned (drop 12 buf);
     sph_dec32be_aligned (drop 16 buf); sph_dec32be_aligned (drop 20 buf);
     sph_dec32be_aligned (drop 24 buf); sph_dec32be_aligned (drop 28 buf);
     sph_dec32be_aligned (drop 32 buf); sph_dec32be_aligned (drop 36 buf);
     sph_dec32be_aligned (drop 40 buf); sph_dec32be_aligned (drop 44 buf);
     sph_dec32be_aligned (drop 48 buf); sph_dec32be_aligned (drop 52 buf);
     sph_dec32be_aligned (drop 56 buf); sph_dec32be_aligned (drop 60 buf)] in
  let v := ROUND_S 0 M v in
  let v := ROUND_S 1 M v in
  let v := ROUND_S 2 M v in
  let v := ROUND_S 3 M v in
  let v := ROUND_S 4 M v in
  let v := ROUND_S 5 M v in
  let v := ROUND_S 6 M v in
  let v := ROUND_S 7 M v in
  let v := ROUND_S 8 M v in
  let v := ROUND_S 9 M v in
  let v := ROUND_S 0 M v in
  let v := ROUND_S 1 M v in
  let v := ROUND_S 2 M v in
  let v := ROUND_S 3 M v in
  match v with VState V0 V1 V2 V3 V4 V5 V6 V7 V8 V9 VA VB VC VD VE VF =>
  let H0 := H0 ⊕ (S0 ⊕ V0 ⊕ V8) in
  let H1 := H1 ⊕ (S1 ⊕ V1 ⊕ V9) in
  let H2 := H2 ⊕ (S2 ⊕ V2 ⊕ VA) in
  let H3 := H3 ⊕ (S3 ⊕ V3 ⊕ VB) in
  let H4 := H4 ⊕ (S0 ⊕ V4 ⊕ VC) in
  let H5 := H5 ⊕ (S1 ⊕ V5 ⊕ VD) in
  let H6 := H6 ⊕ (S2 ⊕ V6 ⊕ VE) in
  let H7 := H7 ⊕ (S3 ⊕ V7 ⊕ VF) in
  DeclState H0 H1 H2 H3 H4 H5 H6 H7 S0 S1 S2 S3 T0 T1 end end.

Definition COMPRESS32_compact (buf : list Z) (l : decl_state) : decl_state :=
  match l with DeclState H0 H1 H2 H3 H4 H5 H6 H7 S0 S1 S2 S3 T0 T1 =>
  let v := VState H0 H1 H2 H3 H4 H5 H6 H7
    (S0 ⊕ (CS_macros !!! 0%nat)) (S1 ⊕ (CS_macros !!! 1%nat))
    (S2 ⊕ (CS_macros !!! 2%nat)) (S3 ⊕ (CS_macros !!! 3%nat))
    (T0 ⊕ (CS_macros !!! 4%nat)) (T0 ⊕ (CS_macros !!! 5%nat))
    (T1 ⊕ (CS_macros !!! 6%nat)) (T1 ⊕ (CS_macros !!! 7%nat)) in
  let M :=
    [sph_dec32be_aligned (drop 0 buf); sph_dec32be_aligned (drop 4 buf);
     sph_dec32be_aligned (drop 8 buf); sph_dec32be_aligned (drop 12 buf);
     sph_dec32be_aligned (drop 16 buf); sph_dec32be_aligned (drop 20 buf);
     sph_dec32be_aligned (drop 24 buf); sph_dec32be_aligned (drop 28 buf);
     sph_dec32be_aligned (drop 32 buf); sph_dec32be_aligned (drop 36 buf);
     sph_dec32be_aligned (drop 40 buf); sph_dec32be_aligned (drop 44 buf);
     sph_dec32be_aligned (drop 48 buf); sph_dec32be_aligned (drop 52 buf);
     sph_dec32be_aligned (drop 56 buf); sph_dec32be_aligned (drop 60 buf)] in
  let v := foldl (fun v r => ROUND_S_compact r M v) v (seq 0 14) in
  match v with VState V0 V1 V2 V3 V4 V5 V6 V7 V8 V9 VA VB VC VD VE VF =>
  let H0 := H0 ⊕ (S0 ⊕ V0 ⊕ V8) in
  let H1 := H1 ⊕ (S1 ⊕ V1 ⊕ V9) in
  let H2 := H2 ⊕ (S2 ⊕ V2 ⊕ VA) in
  let H3 := H3 ⊕ (S3 ⊕ V3 ⊕ VB) in
  let H4 := H4 ⊕ (S0 ⊕ V4 ⊕ VC) in
  let H5 := H5 ⊕ (S1 ⊕ V5 ⊕ VD) in
  let H6 := H6 ⊕ (S2 ⊕ V6 ⊕ VE) in
  let H7 := H7 ⊕ (S3 ⊕ V7 ⊕ VF) in
  DeclState H0 H1 H2 H3 H4 H5 H6 H7 S0 S1 S2 S3 T0 T1 end end.

Definition COMPRESS64 (buf : list Z) (l : decl_state) : decl_state :=
  match l with DeclState H0 H1 H2 H3 H4 H5 H6 H7 S0 S1 S2 S3 T0 T1 =>
  let v := VState H0 H1 H2 H3 H4 H5 H6 H7
    (S0 ⊕ (CB_macros !!! 0%nat)) (S1 ⊕ (CB_macros !!! 1%nat))
    (S2 ⊕ (CB_macros !!! 2%nat)) (S3 ⊕ (CB_macros !!! 3%nat))
    (T0 ⊕ (CB_macros !!! 4%nat)) (T0 ⊕ (CB_macros !!! 5%nat))
    (T1 ⊕ (CB_macros !!! 6%nat)) (T1 ⊕ (CB_macros !!! 7%nat)) in
  let M :=
    [sph_dec64be_aligned (drop 0 buf); sph_dec64be_aligned (drop 8 buf);
     sph_dec64be_aligned (drop 16 buf); sph_dec64be_aligned (drop 24 buf);
     sph_dec64be_aligned (drop 32 buf); sph_dec64be_aligned (drop 40 buf);
     sph_dec64be_aligned (drop 48 buf); sph_dec64be_aligned (drop 56 buf);
     sph_dec64be_aligned (drop 64 buf); sph_dec64be_aligned (drop 72 buf);
     sph_dec64be_aligned (drop 80 buf); sph_dec64be_aligned (drop 88 buf);
     sph_dec64be_aligned (drop 96 buf); sph_dec64be_aligned (drop 104 buf);
     sph_dec64be_aligned (drop 112 buf); sph_dec64be_aligned (drop 120 buf)] in
  let v := ROUND_B 0 M v in
  let v := ROUND_B 1 M v in
  let v := ROUND_B 2 M v in
  let v := ROUND_B 3 M v in
  let v := ROUND_B 4 M v in
  let v := ROUND_B 5 M v in
  let v := ROUND_B 6 M v in
  let v := ROUND_B 7 M v in
  let v := ROUND_B 8 M v in
  let v := ROUND_B 9 M v in
  let v := ROUND_B 0 M v in
  let v := ROUND_B 1 M v in
  let v := ROUND_B 2 M v in
  let v := ROUND_B 3 M v in
  let v := ROUND_B 4 M v in
  let v := ROUND_B 5 M v in
  match v with VState V0 V1 V2 V3 V4 V5 V6 V7 V8 V9 VA VB VC VD VE VF =>
  let H0 := H0 ⊕ (S0 ⊕ V0 ⊕ V8) in
  let H1 := H1 ⊕ (S1 ⊕ V1 ⊕ V9) in
  let H2 := H2 ⊕ (S2 ⊕ V2 ⊕ VA) in
  let H3 := H3 ⊕ (S3 ⊕ V3 ⊕ VB) in
  let H4 := H4 ⊕ (S0 ⊕ V4 ⊕ VC) in
  let H5 := H5 ⊕ (S1 ⊕ V5 ⊕ VD) in
  let H6 := H6 ⊕ (S2 ⊕ V6 ⊕ VE) in
  let H7 := H7 ⊕ (S3 ⊕ V7 ⊕ VF) in
  DeclState H0 H1 H2 H3 H4 H5 H6 H7 S0 S1 S2 S3 T0 T1 end end.

Definition COMPRESS64_compact (buf : list Z) (l : decl_state) : decl_state :=
  match l with DeclState H0 H1 H2 H3 H4 H5 H6 H7 S0 S1 S2 S3 T0 T1 =>
  let v := VState H0 H1 H2 H3 H4 H5 H6 H7
    (S0 ⊕ (CB_macros !!! 0%nat)) (S1 ⊕ (CB_macros !!! 1%nat))
    (S2 ⊕ (CB_macros !!! 2%nat)) (S3 ⊕ (CB_macros !!! 3%nat))
    (T0 ⊕ (CB_macros !!! 4%nat)) (T0 ⊕ (CB_macros !!! 5%nat))
    (T1 ⊕ (CB_macros !!! 6%nat)) (T1 ⊕ (CB_macros !!! 7%nat)) in
  let M :=
    [sph_dec64be_aligned (drop 0 buf); sph_dec64be_aligned (drop 8 buf);
     sph_dec64be_aligned (drop 16 buf); sph_dec64be_aligned (drop 24 buf);
     sph_dec64be_aligned (drop 32 buf); sph_dec64be_aligned (drop 40 buf);
     sph_dec64be_aligned (drop 48 buf); sph_dec64be_aligned (drop 56 buf);
     sph_dec64be_aligned (drop 64 buf); sph_dec64be_aligned (drop 72 buf);
     sph_dec64be_aligned (drop 80 buf); sph_dec64be_aligned (drop 88 buf);
     sph_dec64be_aligned (drop 96 buf); sph_dec64be_aligned (drop 104 buf);
     sph_dec64be_aligned (drop 112 buf); sph_dec64be_aligned (drop 120 buf)] in
  let v := foldl (fun v r => ROUND_B_compact r M v) v (seq 0 16) in
  match v with VState V0 V1 V2 V3 V4 V5 V6 V7 V8 V9 VA VB VC VD VE VF =>
  let H0 := H0 ⊕ (S0 ⊕ V0 ⊕ V8) in
  let H1 := H1 ⊕ (S1 ⊕ V1 ⊕ V9) in
  let H2 := H2 ⊕ (S2 ⊕ V2 ⊕ VA) in
  let H3 := H3 ⊕ (S3 ⊕ V3 ⊕ VB) in
  let H4 := H4 ⊕ (S0 ⊕ V4 ⊕ VC) in
  let H5 := H5 ⊕ (S1 ⊕ V5 ⊕ VD) in
  let H6 := H6 ⊕ (S2 ⊕ V6 ⊕ VE) in
  let H7 := H7 ⊕ (S3 ⊕ V7 ⊕ VF) in
  DeclState H0 H1 H2 H3 H4 H5 H6 H7 S0 S1 S2 S3 T0 T1 end end.

(** ** Contexts and operations on 32-bit words *)

(** [sph_blake_small_context]. *)
Abbreviation sph_blake_small_context := (block_ctx blake_state).

Definition salt_zero_small : list Z := [0; 0; 0; 0].

Definition blake32_init (sc : sph_blake_small_context) (iv salt : list Z) : sph_blake_small_context
    :=
  BlockCtx (buf sc) 0 (BlakeState iv salt 0 0).

(** What the loop of [blake32] does with a full buffer. *)
Definition blake32_block (buf : list Z) (l : decl_state) : decl_state :=
  match l with DeclState H0 H1 H2 H3 H4 H5 H6 H7 S0 S1 S2 S3 T0 T1 =>
  let T0 := SPH_T32 (T0 + 512) in
  let T1 := if T0 <? 512 then SPH_T32 (T1 + 1) else T1 in
  COMPRESS32 buf (DeclState H0 H1 H2 H3 H4 H5 H6 H7 S0 S1 S2 S3 T0 T1) end.

Definition blake32 (sc : sph_blake_small_context) (data : list Z) : option sph_blake_small_context
    :=
  update_local 64 READ_STATE32 WRITE_STATE32 blake32_block sc data.

(** [u] is what the local array [u.buf] holds on entry: it is not initialised. *)
Definition blake32_close (u : list Z) (sc : sph_blake_small_context) (ub n : Z) (out_size_w32 : nat)
    : option (list Z * sph_blake_small_context) :=
  let ptr := ptr sc in
  let st := chain sc in
  let bit_len := (Z.of_nat ptr << 3) + n in
  u ← store u ptr (last_byte ub n);
  let tl := SPH_T32 (bT0 st + bit_len) in
  let th := bT1 st in
  let st :=
    if (ptr =? 0)%nat && (n =? 0) then
      BlakeState (bH st) (bS st) 0xFFFFFE00 0xFFFFFFFF
    else if bT0 st =? 0 then
      BlakeState (bH st) (bS st) (SPH_T32 (0xFFFFFE00 + bit_len)) (SPH_T32 (bT1 st - 1))
    else
      BlakeState (bH st) (bS st) (SPH_T32 (bT0 st - (512 - bit_len))) (bT1 st) in
  let sc := BlockCtx (buf sc) ptr st in
  sc ← if bit_len <=? 446 then
      u ← memset u (ptr + 1) 0 (55 - ptr);
      u ← if (out_size_w32 =? 8)%nat then store u 55 ((u !!! 55%nat) .| 1) else Some u;
      u ← memcpy u 56 (sph_enc32be_aligned th);
      u ← memcpy u 60 (sph_enc32be_aligned tl);
      blake32 sc (take (64 - ptr) (drop ptr u))
    else
      u ← memset u (ptr + 1) 0 (63 - ptr);
      sc ← blake32 sc (take (64 - ptr) (drop ptr u));
      let st := chain sc in
      let sc := BlockCtx (buf sc) (BlockBuffer.ptr sc) (BlakeState (bH st) (bS st) 0xFFFFFE00
          0xFFFFFFFF) in
      u ← memset u 0 0 56;
      u ← if (out_size_w32 =? 8)%nat then store u 55 1 else Some u;
      u ← memcpy u 56 (sph_enc32be_aligned th);
      u ← memcpy u 60 (sph_enc32be_aligned tl);
      blake32 sc (take 64 u);
  Some (concat (map (fun k => sph_enc32be (bH (chain sc) !!! k)) (seq 0 out_size_w32)), sc).

(** ** Contexts and operations on 64-bit words *)

(** [sph_blake_big_context]. *)
Abbreviation sph_blake_big_context := (block_ctx blake_state).

Definition salt_zero_big : list Z := [0; 0; 0; 0].

Definition blake64_init (sc : sph_blake_big_context) (iv salt : list Z) : sph_blake_big_context :=
  BlockCtx (buf sc) 0 (BlakeState iv salt 0 0).

(** What the loop of [blake64] does with a full buffer. *)
Definition blake64_block (buf : list Z) (l : decl_state) : decl_state :=
  match l with DeclState H0 H1 H2 H3 H4 H5 H6 H7 S0 S1 S2 S3 T0 T1 =>
  let T0 := SPH_T64 (T0 + 1024) in
  let T1 := if T0 <? 1024 then SPH_T64 (T1 + 1) else T1 in
  COMPRESS64 buf (DeclState H0 H1 H2 H3 H4 H5 H6 H7 S0 S1 S2 S3 T0 T1) end.

Definition blake64 (sc : sph_blake_big_context) (data : list Z) : option sph_blake_big_context :=
  update_local 128 READ_STATE64 WRITE_STATE64 blake64_block sc data.

(** [u] is what the local array [u.buf] holds on entry: it is not initialised. *)
Definition blake64_close (u : list Z) (sc : sph_blake_big_context) (ub n : Z) (out_size_w64 : nat)
    : option (list Z * sph_blake_big_context) :=
  let ptr := ptr sc in
  let st := chain sc in
  let bit_len := (Z.of_nat ptr << 3) + n in
  u ← store u ptr (last_byte ub n);
  let tl := SPH_T64 (bT0 st + bit_len) in
  let th := bT1 st in
  let st :=
    if (ptr =? 0)%nat && (n =? 0) then
      BlakeState (bH st) (bS st) 0xFFFFFFFFFFFFFC00 0xFFFFFFFFFFFFFFFF
    else if bT0 st =? 0 then
      BlakeState (bH st) (bS st) (SPH_T64 (0xFFFFFFFFFFFFFC00 + bit_len)) (SPH_T64 (bT1 st - 1))
    else
      BlakeState (bH st) (bS st) (SPH_T64 (bT0 st - (1024 - bit_len))) (bT1 st) in
  let sc := BlockCtx (buf sc) ptr st in
  sc ← if bit_len <=? 894 then
      u ← memset u (ptr + 1) 0 (111 - ptr);
      u ← if (out_size_w64 =? 8)%nat then store u 111 ((u !!! 111%nat) .| 1) else Some u;
      u ← memcpy u 112 (sph_enc64be_aligned th);
      u ← memcpy u 120 (sph_enc64be_aligned tl);
      blake64 sc (take (128 - ptr) (drop ptr u))
    else
      u ← memset u (ptr + 1) 0 (127 - ptr);
      sc ← blake64 sc (take (128 - ptr) (drop ptr u));
      let st := chain sc in
      let sc := BlockCtx (buf sc) (BlockBuffer.ptr sc) (BlakeState (bH st) (bS st)
          0xFFFFFFFFFFFFFC00 0xFFFFFFFFFFFFFFFF) in
      u ← memset u 0 0 112;
      u ← if (out_size_w64 =? 8)%nat then store u 111 1 else Some u;
      u ← memcpy u 112 (sph_enc64be_aligned th);
      u ← memcpy u 120 (sph_enc64be_aligned tl);
      blake64 sc (take 128 u);
  Some (concat (map (fun k => sph_enc64be (bH (chain sc) !!! k)) (seq 0 out_size_w64)), sc).

(** ** The exported functions *)

Definition sph_blake224_init (cc : sph_blake_small_context) : sph_blake_small_context :=
  blake32_init cc IV224 salt_zero_small.
Definition sph_blake224 (cc : sph_blake_small_context) (data : list Z) : option
    sph_blake_small_context :=
  blake32 cc data.
Definition sph_blake224_addbits_and_close (u : list Z) (cc : sph_blake_small_context) (ub n : Z)
    : option (list Z * sph_blake_small_context) :=
  '(dst, cc) ← blake32_close u cc ub n 7; Some (dst, sph_blake224_init cc).
Definition sph_blake224_close (u : list Z) (cc : sph_blake_small_context)
    : option (list Z * sph_blake_small_context) :=
  sph_blake224_addbits_and_close u cc 0 0.

Definition sph_blake256_init (cc : sph_blake_small_context) : sph_blake_small_context :=
  blake32_init cc IV256 salt_zero_small.
Definition sph_blake256 (cc : sph_blake_small_context) (data : list Z) : option
    sph_blake_small_context :=
  blake32 cc data.
Definition sph_blake256_addbits_and_close (u : list Z) (cc : sph_blake_small_context) (ub n : Z)
    : option (list Z * sph_blake_small_context) :=
  '(dst, cc) ← blake32_close u cc ub n 8; Some (dst, sph_blake256_init cc).
Definition sph_blake256_close (u : list Z) (cc : sph_blake_small_context)
    : option (list Z * sph_blake_small_context) :=
  sph_blake256_addbits_and_close u cc 0 0.

Definition sph_blake384_init (cc : sph_blake_big_context) : sph_blake_big_context :=
  blake64_init cc IV384 salt_zero_big.
Definition sph_blake384 (cc : sph_blake_big_context) (data : list Z) : option sph_blake_big_context
    :=
  blake64 cc data.
Definition sph_blake384_addbits_and_close (u : list Z) (cc : sph_blake_big_context) (ub n : Z)
    : option (list Z * sph_blake_big_context) :=
  '(dst, cc) ← blake64_close u cc ub n 6; Some (dst, sph_blake384_init cc).
Definition sph_blake384_close (u : list Z) (cc : sph_blake_big_context)
    : option (list Z * sph_blake_big_context) :=
  sph_blake384_addbits_and_close u cc 0 0.

Definition sph_blake512_init (cc : sph_blake_big_context) : sph_blake_big_context :=
  blake64_init cc IV512 salt_zero_big.
Definition sph_blake512 (cc : sph_blake_big_context) (data : list Z) : option sph_blake_big_context
    :=
  blake64 cc data.
Definition sph_blake512_addbits_and_close (u : list Z) (cc : sph_blake_big_context) (ub n : Z)
    : option (list Z * sph_blake_big_context) :=
  '(dst, cc) ← blake64_close u cc ub n 8; Some (dst, sph_blake512_init cc).
Definition sph_blake512_close (u : list Z) (cc : sph_blake_big_context)
    : option (list Z * sph_blake_big_context) :=
  sph_blake512_addbits_and_close u cc 0 0.

(** ** The definition of BLAKE

    The two families differ in the word size, the rotation distances, the number
    of rounds and the constants. *)

Record blake_width := BlakeWidth {
  word_bytes : nat;
  trunc : Z -> Z;
  rotr : Z -> Z -> Z;
  distances : Z * Z * Z * Z;
  constants : list Z;
  rounds : nat;
  dec_be : list Z -> Z;
  enc_be : Z -> list Z;
}.

Definition W32 : blake_width :=
  BlakeWidth 4 SPH_T32 SPH_ROTR32 (16, 12, 8, 7) CS_macros 14 sph_dec32be_aligned sph_enc32be.
Definition W64 : blake_width :=
  BlakeWidth 8 SPH_T64 SPH_ROTR64 (32, 25, 16, 11) CB_macros 16 sph_dec64be_aligned sph_enc64be.

(** The ten permutations; round [r] uses the one of index [r mod 10]. *)
Definition spec_sigma (r i : nat) : nat :=
  (match r mod 10 with
   | 0 => [0; 1; 2; 3; 4; 5; 6; 7; 8; 9; 10; 11; 12; 13; 14; 15]
   | 1 => [14; 10; 4; 8; 9; 15; 13; 6; 1; 12; 0; 2; 11; 7; 5; 3]
   | 2 => [11; 8; 12; 0; 5; 2; 15; 13; 10; 14; 3; 6; 7; 1; 9; 4]
   | 3 => [7; 9; 3; 1; 13; 12; 11; 14; 2; 6; 5; 10; 4; 0; 15; 8]
   | 4 => [9; 0; 5; 7; 2; 4; 10; 15; 14; 1; 11; 12; 6; 8; 3; 13]
   | 5 => [2; 12; 6; 10; 0; 11; 8; 3; 4; 13; 7; 5; 15; 14; 1; 9]
   | 6 => [12; 5; 1; 15; 14; 13; 4; 10; 0; 7; 6; 3; 9; 2; 8; 11]
   | 7 => [13; 11; 7; 14; 12; 1; 3; 9; 5; 0; 15; 4; 8; 6; 2; 10]
   | 8 => [6; 15; 14; 9; 11; 3; 0; 8; 12; 2; 13; 7; 1; 4; 10; 5]
   | _ => [10; 2; 8; 4; 7; 6; 1; 5; 15; 11; 9; 14; 3; 12; 13; 0]
   end !!! i)%nat.

Section blake_spec.
Context (W : blake_width).

(** Word and block size. *)
Definition wbits : Z := 8 * Z.of_nat (word_bytes W).
Definition block_bytes : nat := 16 * word_bytes W.
Definition block_bits : Z := 8 * Z.of_nat block_bytes.

Definition spec_G (m0 m1 c0 c1 a b c d : Z) : Z * Z * Z * Z :=
  let '(r1, r2, r3, r4) := distances W in
  let a := trunc W (a + b + (m0 ⊕ c1)) in
  let d := rotr W (d ⊕ a) r1 in
  let c := trunc W (c + d) in
  let b := rotr W (b ⊕ c) r2 in
  let a := trunc W (a + b + (m1 ⊕ c0)) in
  let d := rotr W (d ⊕ a) r3 in
  let c := trunc W (c + d) in
  let b := rotr W (b ⊕ c) r4 in
  (a, b, c, d).

(** The positions of the four columns and of the four diagonals of the state,
    seen as a 4x4 matrix stored by rows. *)
Definition lane (i : nat) : nat * nat * nat * nat :=
  let j := (i mod 4)%nat in
  let k := (if i <? 4 then 0 else 1)%nat in
  (j, 4 + (j + k) mod 4, 8 + (j + 2 * k) mod 4, 12 + (j + 3 * k) mod 4)%nat.

(** One application of [G] in a round whose permutation is [s]. *)
Definition spec_step (s : nat -> nat) (m v : list Z) (i : nat) : list Z :=
  let '(ia, ib, ic, id) := lane i in
  let j := s (2 * i)%nat in
  let k := s (2 * i + 1)%nat in
  let '(a, b, c, d) := spec_G (m !!! j) (m !!! k) (constants W !!! j) (constants W !!! k)
                         (v !!! ia) (v !!! ib) (v !!! ic) (v !!! id) in
  <[ia := a]> (<[ib := b]> (<[ic := c]> (<[id := d]> v))).

Definition spec_round (s : nat -> nat) (m v : list Z) : list Z :=
  foldl (spec_step s m) v (seq 0 8).

(** The compression function, on the chain value [h], the salt [s], the two
    halves of the counter and the message words [m]. *)
Definition spec_compress (h s : list Z) (t0 t1 : Z) (m : list Z) : list Z :=
  let c := constants W in
  let v := h ++ zip_with Z.lxor s (take 4 c) ++
           [t0 ⊕ (c !!! 4%nat); t0 ⊕ (c !!! 5%nat); t1 ⊕ (c !!! 6%nat); t1 ⊕ (c !!! 7%nat)] in
  let v := foldl (fun v r => spec_round (spec_sigma r) m v) v (seq 0 (rounds W)) in
  zip_with Z.lxor h (zip_with Z.lxor (zip_with Z.lxor (s ++ s) (take 8 v)) (drop 8 v)).

(** The words of a block. *)
Definition block_words (b : list Z) : list Z :=
  map (fun i => dec_be W (drop (i * word_bytes W) b)) (seq 0 16).

(** Padding: a 1 bit, as few 0 bits as possible, a bit that tells the two sizes
    of a family apart, and the length on two words. *)
Definition spec_pad (flag : bool) (msg : list bool) : list bool :=
  let len := Z.of_nat (length msg) in
  msg ++ true :: replicate (Z.to_nat ((block_bits - 2 * wbits - 2 - len) mod block_bits)) false ++
  flag :: be_bits (8 * word_bytes W + 8 * word_bytes W) len.

(** The counter of block [i] is the number of message bits hashed up to the end
    of the block, or 0 when the block holds no message bit. *)
Definition spec_counter (len : Z) (i : nat) : Z :=
  if block_bits * Z.of_nat i <? len then Z.min (block_bits * Z.of_nat (i + 1)) len else 0.

Definition spec_block (s : list Z) (p : list Z) (len : Z) (h : list Z) (i : nat) : list Z :=
  let t := spec_counter len i in
  spec_compress h s (t mod 2 ^ wbits) ((t / 2 ^ wbits) mod 2 ^ wbits)
    (block_words (drop (i * block_bytes) p)).

Definition blake_spec (iv salt : list Z) (flag : bool) (out : nat) (msg : list bool) : list Z :=
  let p := pack (spec_pad flag msg) in
  let h := foldl (spec_block salt p (Z.of_nat (length msg))) iv
             (seq 0 (length p / block_bytes)) in
  concat (map (enc_be W) (take out h)).
End blake_spec.

(** ** Rounds: lemmas *)

Definition vlist (v : vstate) : list Z :=
  [V0 v; V1 v; V2 v; V3 v; V4 v; V5 v; V6 v; V7 v; V8 v; V9 v; VA v; VB v; VC v; VD v; VE v; VF v].

(** [spec_step] by pattern matching: comparing states then only compares words. *)
Definition match_step (g : Z -> Z -> Z -> Z -> Z -> Z -> Z -> Z -> Z * Z * Z * Z)
    (c : list Z) (s : nat -> nat) (m v : list Z) (i : nat) : list Z :=
  match v with
  | [v0; v1; v2; v3; v4; v5; v6; v7; v8; v9; v10; v11; v12; v13; v14; v15] =>
      match i with
      | 0%nat =>
          let '(v0, v4, v8, v12) := g (m !!! s 0%nat) (m !!! s 1%nat) (c !!! s 0%nat) (c !!! s 1%nat)
            v0 v4 v8 v12 in
          [v0; v1; v2; v3; v4; v5; v6; v7; v8; v9; v10; v11; v12; v13; v14; v15]
      | 1%nat =>
          let '(v1, v5, v9, v13) := g (m !!! s 2%nat) (m !!! s 3%nat) (c !!! s 2%nat) (c !!! s 3%nat)
            v1 v5 v9 v13 in
          [v0; v1; v2; v3; v4; v5; v6; v7; v8; v9; v10; v11; v12; v13; v14; v15]
      | 2%nat =>
          let '(v2, v6, v10, v14) := g (m !!! s 4%nat) (m !!! s 5%nat) (c !!! s 4%nat) (c !!! s 5%nat)
            v2 v6 v10 v14 in
          [v0; v1; v2; v3; v4; v5; v6; v7; v8; v9; v10; v11; v12; v13; v14; v15]
      | 3%nat =>
          let '(v3, v7, v11, v15) := g (m !!! s 6%nat) (m !!! s 7%nat) (c !!! s 6%nat) (c !!! s 7%nat)
            v3 v7 v11 v15 in
          [v0; v1; v2; v3; v4; v5; v6; v7; v8; v9; v10; v11; v12; v13; v14; v15]
      | 4%nat =>
          let '(v0, v5, v10, v15) := g (m !!! s 8%nat) (m !!! s 9%nat) (c !!! s 8%nat) (c !!! s 9%nat)
            v0 v5 v10 v15 in
          [v0; v1; v2; v3; v4; v5; v6; v7; v8; v9; v10; v11; v12; v13; v14; v15]
      | 5%nat =>
          let '(v1, v6, v11, v12) := g (m !!! s 10%nat) (m !!! s 11%nat) (c !!! s 10%nat) (c !!! s 11%nat)
            v1 v6 v11 v12 in
          [v0; v1; v2; v3; v4; v5; v6; v7; v8; v9; v10; v11; v12; v13; v14; v15]
      | 6%nat =>
          let '(v2, v7, v8, v13) := g (m !!! s 12%nat) (m !!! s 13%nat) (c !!! s 12%nat) (c !!! s 13%nat)
            v2 v7 v8 v13 in
          [v0; v1; v2; v3; v4; v5; v6; v7; v8; v9; v10; v11; v12; v13; v14; v15]
      | 7%nat =>
          let '(v3, v4, v9, v14) := g (m !!! s 14%nat) (m !!! s 15%nat) (c !!! s 14%nat) (c !!! s 15%nat)
            v3 v4 v9 v14 in
          [v0; v1; v2; v3; v4; v5; v6; v7; v8; v9; v10; v11; v12; v13; v14; v15]
      | _ => v
      end
  | _ => v
  end.

Lemma spec_step_match W s m v i :
  length v = 16%nat -> (i < 8)%nat ->
  spec_step W s m v i = match_step (spec_G W) (constants W) s m v i.
Proof.
  intros H Hi. do 16 (destruct v as [|? v]; [discriminate H|]). destruct v; [|discriminate H].
  do 8 (destruct i as [|i]; [reflexivity|]). lia.
Qed.

Lemma length_spec_step W s m v i : length (spec_step W s m v i) = length v.
Proof. unfold spec_step. repeat case_match. by rewrite !length_insert. Qed.

Lemma length_spec_round W s m v : length (spec_round W s m v) = length v.
Proof.
  unfold spec_round. generalize (seq 0 8). intros l. revert v.
  induction l as [|i l IH]; intros v; [done|]. cbn [foldl]. by rewrite IH, length_spec_step.
Qed.

Lemma spec_round_match W s m v :
  length v = 16%nat ->
  spec_round W s m v = foldl (match_step (spec_G W) (constants W) s m) v (seq 0 8).
Proof.
  intros H. unfold spec_round.
  assert (Forall (fun i => i < 8)%nat (seq 0 8)) as Hl by (repeat constructor; lia).
  revert v H Hl. generalize (seq 0 8). intros l. induction l as [|i l IH]; intros v H Hl; [done|].
  apply Forall_cons_1 in Hl as [Hi Hl]. cbn [foldl].
  rewrite <- spec_step_match by done. apply IH; [by rewrite length_spec_step|done].
Qed.

(** Compare a round with its specification, one application of [G] after the
    other. *)
Ltac round_spec G :=
  match goal with v : vstate |- _ =>
    let l := fresh in let E := fresh in
    remember (vlist v) as l eqn:E; destruct v;
    cbv [vlist V0 V1 V2 V3 V4 V5 V6 V7 V8 V9 VA VB VC VD VE VF] in E; subst l
  end;
  cbn [foldl seq];
  repeat (cbn beta iota delta [match_step];
    match goal with
    | |- context [G ?m0 ?m1 ?c0 ?c1 ?a ?b ?c ?d] =>
        destruct (G m0 m1 c0 c1 a b c d) as [[[? ?] ?] ?]
    end);
  reflexivity.

Lemma ROUND_S_spec r M v :
  vlist (ROUND_S r M v) = spec_round W32 (Zri r) M (vlist v).
Proof.
  unfold ROUND_S, Mx, CSx, CBx.
  rewrite spec_round_match by done. change (spec_G W32) with GS. change (constants W32) with CS_macros.
  round_spec GS.
Qed.

Lemma ROUND_S_compact_spec r M v :
  vlist (ROUND_S_compact r M v) = spec_round W32 (sig r) M (vlist v).
Proof.
  unfold ROUND_S_compact. change CS with CS_macros.
  rewrite spec_round_match by done. change (spec_G W32) with GS. change (constants W32) with CS_macros.
  round_spec GS.
Qed.

Lemma ROUND_B_spec r M v :
  vlist (ROUND_B r M v) = spec_round W64 (Zri r) M (vlist v).
Proof.
  unfold ROUND_B, Mx, CSx, CBx.
  rewrite spec_round_match by done. change (spec_G W64) with GB. change (constants W64) with CB_macros.
  round_spec GB.
Qed.

Lemma ROUND_B_compact_spec r M v :
  vlist (ROUND_B_compact r M v) = spec_round W64 (sig r) M (vlist v).
Proof.
  unfold ROUND_B_compact. change CB with CB_macros.
  rewrite spec_round_match by done. change (spec_G W64) with GB. change (constants W64) with CB_macros.
  round_spec GB.
Qed.

(** A round only reads its permutation below 16. *)
Lemma spec_round_ext W s s' m v :
  (forall i, (i < 16)%nat -> s i = s' i) -> spec_round W s m v = spec_round W s' m v.
Proof.
  intros Hs. unfold spec_round.
  assert (Forall (fun i => i < 8)%nat (seq 0 8)) as Hl by (repeat constructor; lia).
  revert v Hl. generalize (seq 0 8). intros l. induction l as [|i l IH]; intros v Hl; [done|].
  apply Forall_cons_1 in Hl as [Hi Hl]. cbn [foldl]. rewrite IH by done. f_equal.
  unfold spec_step. by rewrite !Hs by lia.
Qed.

Lemma sigma_tables :
  Forall (fun r => Forall (fun i => Zri (r mod 10) i = spec_sigma r i /\ sig r i = spec_sigma r i)
                     (seq 0 16)) (seq 0 16).
Proof. apply (bool_decide_unpack _). by vm_compute. Qed.

Lemma sigma_spec r i :
  (r < 16)%nat -> (i < 16)%nat -> Zri (r mod 10) i = spec_sigma r i /\ sig r i = spec_sigma r i.
Proof.
  intros Hr Hi. pose proof sigma_tables as H. rewrite Forall_forall in H.
  specialize (H r ltac:(apply in_seq; lia)). rewrite Forall_forall in H. apply H, in_seq. lia.
Qed.

(** All the rounds of a compression: the rounds [f r] selected for [r] in [rs]
    agree with the rounds of the specification. *)
Lemma rounds_spec W (f : nat -> list Z -> vstate -> vstate) (s : nat -> nat -> nat) g M v n :
  (forall r v, vlist (f r M v) = spec_round W (s r) M (vlist v)) ->
  (n <= 16)%nat ->
  (forall r i, (r < 16)%nat -> (i < 16)%nat -> s (g r) i = spec_sigma r i) ->
  vlist (foldl (fun v r => f r M v) v (map g (seq 0 n))) =
  foldl (fun v r => spec_round W (spec_sigma r) M v) (vlist v) (seq 0 n).
Proof.
  intros Hf Hn Hs.
  assert (Forall (fun r => r < 16)%nat (seq 0 n)) as Hl.
  { apply Forall_forall. intros r Hr%in_seq. lia. }
  revert v Hl. generalize (seq 0 n). intros l.
  induction l as [|r l IH]; intros v Hl; [done|]. apply Forall_cons_1 in Hl as [Hr Hl].
  cbn [map foldl]. rewrite IH by done. rewrite Hf.
  rewrite (spec_round_ext W (s (g r)) (spec_sigma r)); [done|]. intros. by apply Hs.
Qed.

(** The end of the compression functions. *)
Definition finish (l : decl_state) (v : vstate) : decl_state :=
  match l, v with
  | DeclState H0 H1 H2 H3 H4 H5 H6 H7 S0 S1 S2 S3 T0 T1,
    VState V0 V1 V2 V3 V4 V5 V6 V7 V8 V9 VA VB VC VD VE VF =>
      DeclState (H0 ⊕ (S0 ⊕ V0 ⊕ V8)) (H1 ⊕ (S1 ⊕ V1 ⊕ V9)) (H2 ⊕ (S2 ⊕ V2 ⊕ VA))
        (H3 ⊕ (S3 ⊕ V3 ⊕ VB)) (H4 ⊕ (S0 ⊕ V4 ⊕ VC)) (H5 ⊕ (S1 ⊕ V5 ⊕ VD))
        (H6 ⊕ (S2 ⊕ V6 ⊕ VE)) (H7 ⊕ (S3 ⊕ V7 ⊕ VF)) S0 S1 S2 S3 T0 T1
  end.

Definition start (c : list Z) (l : decl_state) : vstate :=
  match l with DeclState H0 H1 H2 H3 H4 H5 H6 H7 S0 S1 S2 S3 T0 T1 =>
  VState H0 H1 H2 H3 H4 H5 H6 H7
    (S0 ⊕ (c !!! 0%nat)) (S1 ⊕ (c !!! 1%nat)) (S2 ⊕ (c !!! 2%nat)) (S3 ⊕ (c !!! 3%nat))
    (T0 ⊕ (c !!! 4%nat)) (T0 ⊕ (c !!! 5%nat)) (T1 ⊕ (c !!! 6%nat)) (T1 ⊕ (c !!! 7%nat)) end.

Definition compress_state (W : blake_width) (buf : list Z) (st : blake_state) : blake_state :=
  BlakeState (spec_compress W (bH st) (bS st) (bT0 st) (bT1 st) (block_words W buf))
    (bS st) (bT0 st) (bT1 st).

Lemma finish_spec W l v M :
  (4 <= length (constants W))%nat ->
  vlist v = foldl (fun v r => spec_round W (spec_sigma r) M v) (vlist (start (constants W) l))
              (seq 0 (rounds W)) ->
  WRITE_STATE32 (finish l v) =
  BlakeState (spec_compress W (bH (WRITE_STATE32 l)) (bS (WRITE_STATE32 l))
                (bT0 (WRITE_STATE32 l)) (bT1 (WRITE_STATE32 l)) M)
    (bS (WRITE_STATE32 l)) (bT0 (WRITE_STATE32 l)) (bT1 (WRITE_STATE32 l)).
Proof.
  intros Hc Hv. unfold spec_compress. cbv zeta.
  assert (bH (WRITE_STATE32 l) ++ zip_with Z.lxor (bS (WRITE_STATE32 l)) (take 4 (constants W)) ++
    [bT0 (WRITE_STATE32 l) ⊕ (constants W !!! 4%nat); bT0 (WRITE_STATE32 l) ⊕ (constants W !!! 5%nat);
     bT1 (WRITE_STATE32 l) ⊕ (constants W !!! 6%nat); bT1 (WRITE_STATE32 l) ⊕ (constants W !!! 7%nat)]
    = vlist (start (constants W) l)) as ->.
  { destruct (constants W) as [|? [|? [|? [|? c]]]]; simpl in Hc; try lia. by destruct l. }
  rewrite <- Hv. by destruct l, v.
Qed.

Lemma COMPRESS32_spec buf l :
  WRITE_STATE32 (COMPRESS32 buf l) = compress_state W32 buf (WRITE_STATE32 l).
Proof.
  transitivity (WRITE_STATE32 (finish l (foldl (fun v r => ROUND_S r (block_words W32 buf) v)
    (start CS_macros l) [0; 1; 2; 3; 4; 5; 6; 7; 8; 9; 0; 1; 2; 3]%nat))).
  { unfold COMPRESS32, finish, start. destruct l.
    cbv [foldl block_words map seq W32 W64 word_bytes dec_be Nat.mul Nat.add]. reflexivity. }
  apply (finish_spec W32); [simpl; lia|].
  change [0; 1; 2; 3; 4; 5; 6; 7; 8; 9; 0; 1; 2; 3]%nat with (map (fun r => (r mod 10)%nat) (seq 0 14)).
  apply (rounds_spec W32 ROUND_S Zri (fun r => (r mod 10)%nat)); [|simpl; lia|apply sigma_spec].
  intros. apply ROUND_S_spec.
Qed.

Lemma COMPRESS32_compact_spec buf l :
  WRITE_STATE32 (COMPRESS32_compact buf l) = compress_state W32 buf (WRITE_STATE32 l).
Proof.
  transitivity (WRITE_STATE32 (finish l (foldl (fun v r => ROUND_S_compact r (block_words W32 buf) v)
    (start CS_macros l) (seq 0 14)))).
  { unfold COMPRESS32_compact, finish, start. destruct l.
    cbv [foldl block_words map seq W32 W64 word_bytes dec_be Nat.mul Nat.add]. reflexivity. }
  apply (finish_spec W32); [simpl; lia|].
  change (seq 0 14) with (map (fun r => r) (seq 0 14)).
  apply (rounds_spec W32 ROUND_S_compact sig (fun r => r)); [|simpl; lia|apply sigma_spec].
  intros. apply ROUND_S_compact_spec.
Qed.

Lemma COMPRESS64_spec buf l :
  WRITE_STATE64 (COMPRESS64 buf l) = compress_state W64 buf (WRITE_STATE64 l).
Proof.
  transitivity (WRITE_STATE32 (finish l (foldl (fun v r => ROUND_B r (block_words W64 buf) v)
    (start CB_macros l) [0; 1; 2; 3; 4; 5; 6; 7; 8; 9; 0; 1; 2; 3; 4; 5]%nat))).
  { unfold COMPRESS64, finish, start. destruct l.
    cbv [foldl block_words map seq W32 W64 word_bytes dec_be Nat.mul Nat.add]. reflexivity. }
  apply (finish_spec W64); [simpl; lia|].
  change [0; 1; 2; 3; 4; 5; 6; 7; 8; 9; 0; 1; 2; 3; 4; 5]%nat with (map (fun r => (r mod 10)%nat) (seq 0 16)).
  apply (rounds_spec W64 ROUND_B Zri (fun r => (r mod 10)%nat)); [|simpl; lia|apply sigma_spec].
  intros. apply ROUND_B_spec.
Qed.

Lemma COMPRESS64_compact_spec buf l :
  WRITE_STATE64 (COMPRESS64_compact buf l) = compress_state W64 buf (WRITE_STATE64 l).
Proof.
  transitivity (WRITE_STATE32 (finish l (foldl (fun v r => ROUND_B_compact r (block_words W64 buf) v)
    (start CB_macros l) (seq 0 16)))).
  { unfold COMPRESS64_compact, finish, start. destruct l.
    cbv [foldl block_words map seq W32 W64 word_bytes dec_be Nat.mul Nat.add]. reflexivity. }
  apply (finish_spec W64); [simpl; lia|].
  change (seq 0 16) with (map (fun r => r) (seq 0 16)).
  apply (rounds_spec W64 ROUND_B_compact sig (fun r => r)); [|simpl; lia|apply sigma_spec].
  intros. apply ROUND_B_compact_spec.
Qed.

(** ** The generic functions

    [blake32]/[blake64] and their closing functions are the same functions at
    two word sizes. *)

Definition spec_process (W : blake_width) (b : list Z) (st : blake_state) : blake_state :=
  let t := bT0 st + 2 ^ wbits W * bT1 st + block_bits W in
  compress_state W b
    (BlakeState (bH st) (bS st) (t mod 2 ^ wbits W) ((t / 2 ^ wbits W) mod 2 ^ wbits W)).

Definition adjust (W : blake_width) (ptr : nat) (n bit_len : Z) (st : blake_state) : blake_state :=
  let top := 2 ^ wbits W - block_bits W in
  if (ptr =? 0)%nat && (n =? 0) then
    BlakeState (bH st) (bS st) top (2 ^ wbits W - 1)
  else if bT0 st =? 0 then
    BlakeState (bH st) (bS st) (trunc W (top + bit_len)) (trunc W (bT1 st - 1))
  else
    BlakeState (bH st) (bS st) (trunc W (bT0 st - (block_bits W - bit_len))) (bT1 st).

Definition close_gen (W : blake_width) (enc : Z -> list Z)
    (core : block_ctx blake_state -> list Z -> option (block_ctx blake_state))
    (u : list Z) (sc : block_ctx blake_state) (ub n : Z) (out : nat)
    : option (list Z * block_ctx blake_state) :=
  let ptr := ptr sc in
  let st := chain sc in
  let bit_len := (Z.of_nat ptr << 3) + n in
  let lo := (14 * word_bytes W)%nat in
  u ← store u ptr (last_byte ub n);
  let tl := trunc W (bT0 st + bit_len) in
  let th := bT1 st in
  let sc := BlockCtx (buf sc) ptr (adjust W ptr n bit_len st) in
  sc ← if bit_len <=? block_bits W - 2 * wbits W - 2 then
      u ← memset u (ptr + 1) 0 (lo - 1 - ptr);
      u ← if (out =? 8)%nat then store u (lo - 1) ((u !!! (lo - 1)%nat) .| 1) else Some u;
      u ← memcpy u lo (enc th);
      u ← memcpy u (lo + word_bytes W) (enc tl);
      core sc (take (block_bytes W - ptr) (drop ptr u))
    else
      u ← memset u (ptr + 1) 0 (block_bytes W - 1 - ptr);
      sc ← core sc (take (block_bytes W - ptr) (drop ptr u));
      let st := chain sc in
      let sc := BlockCtx (buf sc) (BlockBuffer.ptr sc)
        (BlakeState (bH st) (bS st) (2 ^ wbits W - block_bits W) (2 ^ wbits W - 1)) in
      u ← memset u 0 0 lo;
      u ← if (out =? 8)%nat then store u (lo - 1) 1 else Some u;
      u ← memcpy u lo (enc th);
      u ← memcpy u (lo + word_bytes W) (enc tl);
      core sc (take (block_bytes W) u);
  Some (concat (map (fun k => enc_be W (bH (chain sc) !!! k)) (seq 0 out)), sc).

Lemma blake32_close_gen u sc ub n out :
  blake32_close u sc ub n out = close_gen W32 sph_enc32be_aligned blake32 u sc ub n out.
Proof. reflexivity. Qed.

Lemma blake64_close_gen u sc ub n out :
  blake64_close u sc ub n out = close_gen W64 sph_enc64be_aligned blake64 u sc ub n out.
Proof. reflexivity. Qed.

(** What the two word sizes have in common. *)
Class WidthOk (W : blake_width) := {
  w_size : (word_bytes W = 4 \/ word_bytes W = 8)%nat;
  w_trunc x : trunc W x = x mod 2 ^ wbits W;
  w_dec l : dec_be W (take (word_bytes W) l) = dec_be W l;
  w_enc v : enc_be W v = rev (store_le (word_bytes W) v);
  w_constants : length (constants W) = 16%nat;
}.

#[export] Instance W32_ok : WidthOk W32.
Proof.
  split.
  - by left.
  - apply SPH_T32_mod.
  - intros l. cbn [dec_be word_bytes W32]. unfold sph_dec32be_aligned. by rewrite load_le_take.
  - apply sph_enc32be_store.
  - done.
Qed.

#[export] Instance W64_ok : WidthOk W64.
Proof.
  split.
  - by right.
  - apply SPH_T64_mod.
  - intros l. cbn [dec_be word_bytes W64]. unfold sph_dec64be_aligned. by rewrite load_le_take.
  - apply sph_enc64be_store.
  - done.
Qed.

Section generic.
Context (W : blake_width) `{!WidthOk W}.

Lemma block_bytes_pos : (0 < block_bytes W)%nat.
Proof. unfold block_bytes. destruct w_size; lia. Qed.

(** The chain values that can occur: right lengths, and the counter [t]. *)
Definition chain_state (h s : list Z) (t : Z) : blake_state :=
  BlakeState h s (t mod 2 ^ wbits W) ((t / 2 ^ wbits W) mod 2 ^ wbits W).

Definition state_ok (st : blake_state) : Prop :=
  length (bH st) = 8%nat /\ length (bS st) = 4%nat /\
  word (wbits W) (bT0 st) /\ word (wbits W) (bT1 st).

Lemma wbits_pos : 0 <= wbits W.
Proof. unfold wbits. lia. Qed.

Lemma chain_state_ok h s t :
  length h = 8%nat -> length s = 4%nat -> state_ok (chain_state h s t).
Proof. intros. pose proof wbits_pos. split_and!; try done; by apply word_mod. Qed.

Lemma length_spec_compress h s t0 t1 m :
  length h = 8%nat -> length s = 4%nat -> length (spec_compress W h s t0 t1 m) = 8%nat.
Proof.
  intros Hh Hs. unfold spec_compress. cbv zeta. set (v := h ++ _).
  assert (length v = 16%nat) as Hv.
  { unfold v. rewrite !length_app, length_zip_with, length_take, w_constants. simpl. lia. }
  assert (forall l v, length v = 16%nat ->
    length (foldl (fun v r => spec_round W (spec_sigma r) m v) v l) = 16%nat) as Hl.
  { intros l. induction l as [|r l IH]; intros v' Hv'; [done|]. cbn [foldl].
    apply IH. by rewrite length_spec_round. }
  rewrite !length_zip_with, length_app, length_take, length_drop, Hl by done. lia.
Qed.

Lemma block_words_take b : block_words W (take (block_bytes W) b) = block_words W b.
Proof.
  unfold block_words. apply map_ext_in. intros i Hi%in_seq.
  rewrite <- w_dec, <- (w_dec (drop (i * word_bytes W) b)).
  rewrite skipn_firstn_comm, take_take. f_equal. f_equal. unfold block_bytes. nia.
Qed.

Lemma block_words_app b r :
  length b = block_bytes W -> block_words W (b ++ r) = block_words W b.
Proof. intros Hb. by rewrite <- block_words_take, take_app_length'. Qed.

Lemma spec_process_take b st :
  spec_process W (take (block_bytes W) b) st = spec_process W b st.
Proof. unfold spec_process, compress_state. by rewrite block_words_take. Qed.

Lemma spec_process_ok b st : state_ok st -> state_ok (spec_process W b st).
Proof.
  intros (?&?&?&?). pose proof wbits_pos. unfold spec_process, compress_state. cbn [bH bS bT0 bT1].
  split_and!; cbn [bH bS bT0 bT1]; [by apply length_spec_compress|done|by apply word_mod..].
Qed.

(** One block moves the counter forward by the size of a block. *)
Lemma spec_process_chain b h s t :
  0 <= t ->
  spec_process W b (chain_state h s t) =
  chain_state (spec_compress W h s ((t + block_bits W) mod 2 ^ wbits W)
    (((t + block_bits W) / 2 ^ wbits W) mod 2 ^ wbits W) (block_words W b)) s (t + block_bits W).
Proof.
  intros Ht. pose proof wbits_pos as Hw. unfold spec_process, chain_state, compress_state.
  cbn [bH bS bT0 bT1]. set (M := 2 ^ wbits W).
  assert (0 < M) by (apply Z.pow_pos_nonneg; lia).
  set (x := t mod M + M * ((t / M) mod M) + block_bits W).
  assert (x = t + block_bits W + ((- (t / M / M)) * M) * M) as Hx.
  { unfold x. rewrite (Z.mod_eq t M), (Z.mod_eq (t / M) M) by lia. ring. }
  assert (x mod M = (t + block_bits W) mod M) as ->.
  { rewrite Hx. by rewrite Z.mod_add by lia. }
  assert ((x / M) mod M = ((t + block_bits W) / M) mod M) as ->; [|done].
  rewrite Hx, Z.div_add, Z.mod_add by lia. done.
Qed.

(** The blocks of the message proper. *)
Lemma block_bits_pos : 0 < block_bits W.
Proof. unfold block_bits. pose proof block_bytes_pos. lia. Qed.

Lemma fold_blocks_spec q m p len s iv :
  (q * block_bytes W <= length m)%nat -> block_bits W * Z.of_nat q <= len ->
  take (q * block_bytes W) p = take (q * block_bytes W) m ->
  fold_blocks (block_bytes W) (spec_process W) q m (chain_state iv s 0) =
  chain_state (foldl (spec_block W s p len) iv (seq 0 q)) s (block_bits W * Z.of_nat q).
Proof.
  pose proof block_bits_pos as Hb. pose proof block_bytes_pos as Hbb.
  induction q as [|q IH]; intros Hm Hlen Hp.
  { cbn [fold_blocks seq foldl]. by rewrite Z.mul_0_r. }
  replace (S q) with (q + 1)%nat by lia. rewrite fold_blocks_add, seq_app, foldl_app.
  rewrite IH; [|lia|lia|].
  2: { apply (f_equal (take (q * block_bytes W))) in Hp. rewrite !take_take in Hp.
       by rewrite !Nat.min_l in Hp by lia. }
  cbn [fold_blocks Nat.add seq foldl]. rewrite spec_process_take, spec_process_chain by lia.
  replace (block_bits W * Z.of_nat q + block_bits W) with (block_bits W * Z.of_nat (q + 1)) by lia.
  unfold spec_block at 2. cbv zeta. unfold spec_counter.
  rewrite (proj2 (Z.ltb_lt _ _)) by lia. rewrite Z.min_l by lia.
  assert (block_words W (drop (q * block_bytes W) p) = block_words W (drop (q * block_bytes W) m))
    as ->; [|done].
  rewrite <- (block_words_take (drop _ m)), <- (block_words_take (drop _ p)).
  rewrite !take_drop_commute. replace (q * block_bytes W + block_bytes W)%nat
    with (S q * block_bytes W)%nat by lia. by rewrite Hp.
Qed.

(** Adding the bits of an incomplete block never carries into the upper half of
    the counter. *)
Lemma counter_low t bl :
  t mod block_bits W = 0 -> 0 <= bl < block_bits W ->
  let M := 2 ^ wbits W in
  (t + bl) mod M = t mod M + bl /\ (t + bl) / M = t / M /\
  (t mod M <> 0 -> block_bits W <= t mod M) /\ t mod M + bl < M /\ block_bits W <= M.
Proof.
  intros Hmod Hbl. cbv zeta. pose proof block_bits_pos as Hb.
  assert (exists k, 2 ^ wbits W = k * block_bits W /\ 0 < k) as (k&Hk&Hk0).
  { unfold wbits, block_bits, block_bytes. destruct w_size as [->| ->].
    - exists (2 ^ 32 / 512). by vm_compute.
    - exists (2 ^ 64 / 1024). by vm_compute. }
  set (M := 2 ^ wbits W) in *. set (B := block_bits W) in *.
  assert (t mod M mod B = 0) as HB.
  { rewrite Hk, Z.mul_comm, Z.rem_mul_r by lia. rewrite Hmod, Z.add_0_l, Z.mul_comm.
    apply Z.mod_mul. lia. }
  assert (0 <= t mod M < M) as Hr by (apply Z.mod_pos_bound; nia).
  apply Z.mod_divide in HB as [z Hz]; [|lia].
  assert (t mod M + bl < M) as Hsum by (assert (z < k) by nia; nia).
  assert (t + bl = M * (t / M) + (t mod M + bl)) as E.
  { rewrite (Z.div_mod t M) at 1 by nia. ring. }
  split_and!; [| | |done|nia].
  - symmetry. apply Z.mod_unique with (t / M); lia.
  - symmetry. apply Z.div_unique with (t mod M + bl); lia.
  - intros. assert (0 < z) by nia. nia.
Qed.

(** The counter before the last blocks is set so that the block that follows is
    hashed with the number of message bits, or with 0. *)
Lemma adjust_spec b h s t ptr n :
  t mod block_bits W = 0 -> 0 <= n < 8 -> (ptr < block_bytes W)%nat ->
  let bit_len := 8 * Z.of_nat ptr + n in
  let t' := if (ptr =? 0)%nat && (n =? 0) then 0 else t + bit_len in
  spec_process W b (adjust W ptr n bit_len (chain_state h s t)) =
  compress_state W b (chain_state h s t').
Proof.
  intros Hmod Hn Hptr. cbv zeta. pose proof block_bits_pos as Hb.
  set (bl := 8 * Z.of_nat ptr + n). assert (0 <= bl < block_bits W) as Hbl.
  { unfold bl, block_bits. lia. }
  destruct (counter_low t bl Hmod Hbl) as (E1&E2&Hne&Hsum&HBM).
  unfold adjust, spec_process. cbv zeta. fold bl. unfold chain_state. cbn [bH bS bT0 bT1].
  set (M := 2 ^ wbits W) in *. set (B := block_bits W) in *.
  assert (0 <= (t / M) mod M < M) as Hr by (apply Z.mod_pos_bound; lia).
  destruct ((ptr =? 0)%nat && (n =? 0)).
  { cbn [bH bS bT0 bT1].
    replace (M - B + M * (M - 1) + B) with (M * M) by ring.
    by rewrite Z.mod_mul, Z.div_mul, Z.mod_same, Z.mod_0_l, Z.div_0_l, Z.mod_0_l by lia. }
  rewrite E1, E2. destruct (Z.eqb_spec (t mod M) 0) as [H0|H0].
  - cbn [bH bS bT0 bT1]. rewrite !w_trunc. fold M. rewrite H0 in *.
    rewrite (Z.mod_small (M - B + bl)) by lia.
    set (T1 := (t / M) mod M) in *.
    replace (M - B + bl + M * ((T1 - 1) mod M) + B) with (bl + (1 + (T1 - 1) mod M) * M) by ring.
    rewrite Z.mod_add, (Z.mod_small bl), Z.div_add, (Z.div_small bl) by lia.
    rewrite Z.add_0_l, Z.add_mod_idemp_r by lia. replace (1 + (T1 - 1)) with T1 by ring.
    by rewrite (Z.mod_small T1) by lia.
  - cbn [bH bS bT0 bT1]. rewrite !w_trunc. fold M. specialize (Hne H0).
    rewrite (Z.mod_small (t mod M - _)) by lia.
    replace (t mod M - (B - bl) + M * ((t / M) mod M) + B)
      with ((t mod M + bl) + ((t / M) mod M) * M) by ring.
    rewrite Z.mod_add, (Z.mod_small (t mod M + bl)), Z.div_add, (Z.div_small (t mod M + bl)) by lia.
    by rewrite Z.add_0_l, (Z.mod_small ((t / M) mod M)) by lia.
Qed.

(** The bytes from the last byte of the message up to the length field. *)
Definition mark (f : bool) (k : nat) (x : Z) : list Z :=
  match f, k with
  | false, _ => x :: replicate k 0
  | true, O => [x .| 1]
  | true, S k => x :: replicate k 0 ++ [1]
  end.

Lemma length_mark f k x : length (mark f k x) = S k.
Proof. destruct f, k; simpl; rewrite ?length_app, ?length_replicate; simpl; lia. Qed.

(** What the statements that fill the last block leave in the array. *)
Lemma fill_short (f : bool) u ptr x a b :
  length u = block_bytes W -> (ptr < 14 * word_bytes W)%nat ->
  length a = word_bytes W -> length b = word_bytes W ->
  (u ← store u ptr x;
   u ← memset u (ptr + 1) 0 (14 * word_bytes W - 1 - ptr);
   u ← if f then store u (14 * word_bytes W - 1) ((u !!! (14 * word_bytes W - 1)%nat) .| 1)
       else Some u;
   u ← memcpy u (14 * word_bytes W) a;
   memcpy u (14 * word_bytes W + word_bytes W) b) =
  Some (take ptr u ++ mark f (14 * word_bytes W - 1 - ptr) x ++ a ++ b).
Proof.
  set (lo := (14 * word_bytes W)%nat). set (k := (lo - 1 - ptr)%nat).
  intros Hu Hp Ha Hb. unfold block_bytes in Hu.
  assert (exists p y z a0 b0, u = p ++ y :: z ++ a0 ++ b0 /\ length p = ptr /\ length z = k /\
    length a0 = length a /\ length b0 = length b) as (p&y&z&a0&b0&->&Hlp&Hz&Ha0&Hb0).
  { exists (take ptr u). destruct (drop ptr u) as [|y r] eqn:E.
    { apply (f_equal length) in E. rewrite length_drop in E. simpl in E. lia. }
    assert (length r = (length u - ptr - 1)%nat) as Hr.
    { apply (f_equal length) in E. rewrite length_drop in E. simpl in E. lia. }
    exists y, (take k r), (take (length a) (drop k r)), (drop (length a) (drop k r)).
    rewrite !take_drop, <- E, take_drop, !length_take, !length_drop. split_and!; [done|..]; lia. }
  rewrite take_app_length' by done.
  unfold store, memset. change (p ++ y :: z ++ a0 ++ b0) with (p ++ [y] ++ z ++ a0 ++ b0).
  rewrite memcpy_app by done. cbn [mbind option_bind].
  replace (p ++ [x] ++ z ++ a0 ++ b0) with ((p ++ [x]) ++ z ++ a0 ++ b0) by (by rewrite <- app_assoc).
  rewrite memcpy_app by (rewrite ?length_replicate, ?length_app; simpl; lia). cbn [mbind option_bind].
  assert ((if f then memcpy ((p ++ [x]) ++ replicate k 0 ++ a0 ++ b0) (lo - 1)
     [(((p ++ [x]) ++ replicate k 0 ++ a0 ++ b0) !!! (lo - 1)%nat) .| 1]
     else Some ((p ++ [x]) ++ replicate k 0 ++ a0 ++ b0)) = Some ((p ++ mark f k x) ++ a0 ++ b0)) as ->.
  { destruct f; cbn [mark]; [|by rewrite <- !app_assoc].
    destruct k as [|k'] eqn:Ek.
    - cbn [replicate app]. rewrite <- !app_assoc.
      assert ((p ++ [x] ++ a0 ++ b0) !!! (lo - 1)%nat = x) as ->
        by (apply list_lookup_total_middle; lia).
      rewrite memcpy_app by (done || lia). done.
    - replace (S k') with (k' + 1)%nat by lia. rewrite replicate_add. cbn [replicate].
      replace ((p ++ [x]) ++ (replicate k' 0 ++ [0]) ++ a0 ++ b0)
        with ((p ++ x :: replicate k' 0) ++ [0] ++ a0 ++ b0)
        by (by rewrite <- !app_assoc).
      assert (((p ++ x :: replicate k' 0) ++ [0] ++ a0 ++ b0) !!! (lo - 1)%nat = 0) as ->
        by (apply list_lookup_total_middle; rewrite length_app; simpl; rewrite length_replicate; lia).
      rewrite memcpy_app by (done || rewrite length_app; simpl; rewrite length_replicate; lia).
      f_equal. rewrite <- !app_assoc. cbn [app]. by rewrite <- ?app_assoc. }
  cbn [mbind option_bind].
  rewrite memcpy_app by (done || rewrite length_app, length_mark; lia). cbn [mbind option_bind].
  replace ((p ++ mark f k x) ++ a ++ b0) with (((p ++ mark f k x) ++ a) ++ b0 ++ [])
    by (by rewrite app_nil_r, <- app_assoc).
  rewrite memcpy_app by (done || rewrite !length_app, length_mark; lia).
  by rewrite app_nil_r, <- !app_assoc.
Qed.

Lemma fill_long (f : bool) u a b :
  length u = block_bytes W -> length a = word_bytes W -> length b = word_bytes W ->
  (u ← memset u 0 0 (14 * word_bytes W);
   u ← if f then store u (14 * word_bytes W - 1) 1 else Some u;
   u ← memcpy u (14 * word_bytes W) a;
   memcpy u (14 * word_bytes W + word_bytes W) b) =
  Some (replicate (14 * word_bytes W - 1) 0 ++ Z.b2z f :: a ++ b).
Proof.
  intros Hu Ha Hb. unfold block_bytes in Hu. unfold memset, store.
  assert (0 < word_bytes W)%nat by (destruct w_size; lia).
  set (lo := (14 * word_bytes W)%nat) in *.
  assert (exists z a0 b0, u = z ++ a0 ++ b0 /\ length z = lo /\
    length a0 = length a /\ length b0 = length b) as (z&a0&b0&->&Hz&Ha0&Hb0).
  { exists (take lo u), (take (length a) (drop lo u)), (drop (length a) (drop lo u)).
    rewrite !take_drop, !length_take, !length_drop. split_and!; [done|..]; lia. }
  change (z ++ a0 ++ b0) with ([] ++ z ++ a0 ++ b0).
  rewrite memcpy_app by (rewrite ?length_replicate; done). cbn [mbind option_bind app].
  assert (replicate lo 0 = replicate (lo - 1) 0 ++ [0]) as ->.
  { replace lo with ((lo - 1) + 1)%nat at 1 by lia. by rewrite replicate_add. }
  rewrite <- app_assoc.
  assert ((if f then memcpy (replicate (lo - 1) 0 ++ [0] ++ a0 ++ b0) (lo - 1) [1]
    else Some (replicate (lo - 1) 0 ++ [0] ++ a0 ++ b0)) =
    Some ((replicate (lo - 1) 0 ++ [Z.b2z f]) ++ a0 ++ b0)) as ->.
  { destruct f; [|by rewrite <- app_assoc].
    rewrite memcpy_app by (done || by rewrite length_replicate). by rewrite <- app_assoc. }
  cbn [mbind option_bind].
  rewrite memcpy_app by (done || rewrite length_app, length_replicate; simpl; lia).
  cbn [mbind option_bind].
  replace ((replicate (lo - 1) 0 ++ [Z.b2z f]) ++ a ++ b0)
    with (((replicate (lo - 1) 0 ++ [Z.b2z f]) ++ a) ++ b0 ++ []) by (by rewrite app_nil_r, <- app_assoc).
  rewrite memcpy_app by (done || rewrite !length_app, length_replicate; simpl; lia).
  by rewrite app_nil_r, <- !app_assoc.
Qed.

(** ** Padding *)

Lemma mark_bits f k ub n :
  0 <= n < 8 -> (0 < k)%nat \/ n <= 6 ->
  bytes_bits (mark f k (last_byte ub n)) =
  take (Z.to_nat n) (byte_bits ub) ++
  true :: replicate (Z.to_nat (8 * Z.of_nat k + 6 - n)) false ++ [f].
Proof.
  intros Hn Hk. destruct f, k as [|k]; cbn [mark].
  - unfold bytes_bits. cbn [map concat]. rewrite app_nil_r. unfold byte_bits at 1.
    cbn [be_bits Z.of_nat Pos.of_succ_nat Pos.succ]. rewrite !Z.lor_spec, !last_byte_bits by lia.
    assert (n = 0 \/ n = 1 \/ n = 2 \/ n = 3 \/ n = 4 \/ n = 5 \/ n = 6) as Hc by lia.
    clear Hn Hk. destruct_or! Hc; subst; simpl; rewrite ?orb_false_r; done.
  - change (last_byte ub n :: replicate k 0 ++ [1]) with ((last_byte ub n :: replicate k 0) ++ [1]).
    rewrite bytes_bits_app, last_byte_zeros_bits, <- app_assoc by done. f_equal. cbn [app]. f_equal.
    change (bytes_bits [1]) with (replicate 7 false ++ [true]). rewrite app_assoc, <- replicate_add.
    do 2 f_equal. lia.
  - rewrite last_byte_zeros_bits by done. do 2 f_equal.
    change [false] with (replicate 1 false). rewrite <- replicate_add. f_equal. lia.
  - rewrite last_byte_zeros_bits by done. do 2 f_equal.
    change [false] with (replicate 1 false). rewrite <- replicate_add. f_equal. lia.
Qed.

Lemma Forall_mark f k ub n : Forall byte (mark f k (last_byte ub n)).
Proof.
  assert (forall j, Forall byte (replicate j 0)) as Hr by (intros; by apply Forall_replicate).
  pose proof (last_byte_byte ub n).
  assert (byte (last_byte ub n .| 1)) by (by apply word_lor).
  destruct f, k; cbn [mark]; repeat (apply Forall_cons_2; [done|]); try done.
  apply Forall_app_2; [done|]. by apply Forall_cons_2.
Qed.

(** The length field. *)
Definition len_bytes (L : Z) : list Z :=
  rev (store_le (word_bytes W) (L / 2 ^ wbits W mod 2 ^ wbits W)) ++
  rev (store_le (word_bytes W) (L mod 2 ^ wbits W)).

Lemma len_bytes_bits L :
  bytes_bits (len_bytes L) = be_bits (8 * word_bytes W + 8 * word_bytes W) L.
Proof.
  unfold len_bytes. rewrite bytes_bits_app, !bytes_bits_be. unfold wbits.
  replace (8 * Z.of_nat (word_bytes W)) with (Z.of_nat (8 * word_bytes W)) by lia.
  apply be_bits_pair; [|by rewrite Z.mod_mod by (apply Z.pow_nonzero; lia)].
  rewrite Z.mod_mod by (apply Z.pow_nonzero; lia). by rewrite Z.shiftr_div_pow2 by lia.
Qed.

Lemma length_len_bytes L : length (len_bytes L) = (2 * word_bytes W)%nat.
Proof. unfold len_bytes. rewrite length_app, !length_rev, !length_store_le. lia. Qed.

Lemma Forall_len_bytes L : Forall byte (len_bytes L).
Proof. apply Forall_app_2; apply Forall_rev, store_le_bytes. Qed.

(** The bytes of the padding, for [ptr] pending bytes. *)
Definition pad_bytes (f : bool) (ptr : nat) (ub n L : Z) : list Z :=
  let lo := (14 * word_bytes W)%nat in
  if 8 * Z.of_nat ptr + n <=? block_bits W - 2 * wbits W - 2 then
    mark f (lo - 1 - ptr) (last_byte ub n) ++ len_bytes L
  else
    (last_byte ub n :: replicate (block_bytes W - 1 - ptr) 0) ++
    replicate (lo - 1) 0 ++ Z.b2z f :: len_bytes L.

(** The code's padding is the padding of the specification. *)
Lemma spec_pad_bytes f m ub n :
  Forall byte m -> 0 <= n < 8 ->
  let L := 8 * Z.of_nat (length m) + n in
  pack (spec_pad W f (message m ub n)) =
  m ++ pad_bytes f (length m mod block_bytes W) ub n L.
Proof.
  intros Hm Hn. cbv zeta. set (L := 8 * Z.of_nat (length m) + n).
  set (ptr := (length m mod block_bytes W)%nat).
  pose proof block_bytes_pos as Hbb. pose proof block_bits_pos as Hb.
  assert (ptr < block_bytes W)%nat as Hp by (apply Nat.mod_upper_bound; lia).
  assert (Forall byte (pad_bytes f ptr ub n L)) as Hpb.
  { assert (forall j, Forall byte (replicate j 0)) as Hr by (intros; by apply Forall_replicate).
    unfold pad_bytes. cbv zeta. case_match.
    - apply Forall_app_2; [apply Forall_mark|apply Forall_len_bytes].
    - apply Forall_app_2; [apply Forall_cons_2; [apply last_byte_byte|done]|].
      apply Forall_app_2; [done|]. apply Forall_cons_2; [by destruct f|apply Forall_len_bytes]. }
  rewrite <- (pack_bytes_bits (m ++ _)) by (by apply Forall_app_2). f_equal.
  unfold spec_pad. cbv zeta. rewrite length_message by done. fold L.
  rewrite bytes_bits_app. unfold message. rewrite <- !app_assoc. f_equal.
  set (z := Z.to_nat _).
  assert (8 * Z.of_nat ptr = 8 * Z.of_nat (length m) - block_bits W * Z.of_nat (length m / block_bytes W))
    as Hptr.
  { unfold ptr, block_bits. rewrite (Nat.div_mod (length m) (block_bytes W)) at 2 by lia. lia. }
  clearbody ptr. generalize dependent (Z.of_nat (length m / block_bytes W)). intros q Hptr.
  assert (block_bits W = 16 * wbits W /\ 32 <= wbits W) as [HB Hw].
  { unfold block_bits, block_bytes, wbits. destruct w_size; lia. }
  assert (wbits W = 8 * Z.of_nat (word_bytes W)) as Hwb by done.
  unfold pad_bytes. cbv zeta. destruct (Z.leb_spec (8 * Z.of_nat ptr + n) (block_bits W - 2 * wbits W - 2)).
  - rewrite bytes_bits_app, len_bytes_bits, mark_bits by lia.
    rewrite <- !app_assoc. f_equal. cbn [app]. f_equal. rewrite <- app_assoc. f_equal. f_equal.
    unfold z. f_equal. symmetry.
    apply Z.mod_unique with (- q); unfold L; [left; lia|].
    rewrite Z.mul_opp_r. generalize dependent (block_bits W * q). intros. lia.
  - rewrite !bytes_bits_app, last_byte_zeros_bits by done. rewrite <- !app_assoc. f_equal.
    cbn [app]. f_equal.
    change (Z.b2z f :: len_bytes L) with ([Z.b2z f] ++ len_bytes L).
    rewrite bytes_bits_app, len_bytes_bits, bytes_bits_zeros.
    replace (bytes_bits [Z.b2z f]) with (replicate 7 false ++ [f]) by (by destruct f).
    rewrite <- !app_assoc, !app_assoc, <- !replicate_add, <- app_assoc. f_equal. f_equal.
    unfold z.
    assert ((block_bits W - 2 * wbits W - 2 - L) mod block_bits W =
      block_bits W + (block_bits W - 2 * wbits W - 2) - (8 * Z.of_nat ptr + n)) as ->.
    { symmetry. assert (block_bits W = 8 * Z.of_nat (block_bytes W)) by done.
      apply Z.mod_unique with (- q - 1); unfold L; [left|]; lia. }
    unfold block_bits in *. lia.
Qed.

(** ** Closing *)

Context (enc : Z -> list Z)
  (core : block_ctx blake_state -> list Z -> option (block_ctx blake_state)).
Context (enc_spec : forall v, word (wbits W) v -> enc v = rev (store_le (word_bytes W) v)).
Context (core_update : forall c data, state_ok (chain c) ->
  core c data = update (block_bytes W) (spec_process W) c data).

(** Data that completes the pending block. *)
Lemma core_block c data :
  ctx_ok (block_bytes W) c -> state_ok (chain c) ->
  (ptr c + length data = block_bytes W)%nat ->
  exists c', core c data = Some c' /\ ctx_ok (block_bytes W) c' /\ ptr c' = 0%nat /\
    length (buf c') = length (buf c) /\ chain c' = spec_process W (pending c ++ data) (chain c).
Proof.
  intros Hok Hst Hl. pose proof block_bytes_pos as Hbb. rewrite core_update by done.
  destruct (update_absorb _ _ Hbb spec_process_take c data Hok) as (c'&->&Hok'&Hl'&Habs).
  exists c'. rewrite absorb_one in Habs.
  2: done.
  2: by rewrite length_app, (length_pending (block_bytes W)).
  injection Habs as Hc Hp. split_and!; [done..| |done|done].
  by rewrite <- (length_pending (block_bytes W) Hbb c' Hok'), Hp.
Qed.

Lemma adjust_ok p n bl st : state_ok st -> 0 <= n -> state_ok (adjust W p n bl st).
Proof.
  intros (?&?&?&?) ?. pose proof wbits_pos.
  assert (0 < block_bits W <= 2 ^ wbits W) as HB.
  { pose proof block_bits_pos.
    destruct (counter_low 0 0) as (_&_&_&_&?); [apply Z.mod_0_l; lia|lia|lia]. }
  assert (0 < 2 ^ wbits W) by lia.
  unfold adjust. repeat case_match; split_and!; cbn [bH bS bT0 bT1]; try done;
    rewrite ?w_trunc; try (by apply word_mod); unfold word; lia.
Qed.

Lemma spec_counter_last q ptr n :
  (ptr < block_bytes W)%nat -> 0 <= n < 8 ->
  let L := block_bits W * Z.of_nat q + (8 * Z.of_nat ptr + n) in
  spec_counter W L q = (if (ptr =? 0)%nat && (n =? 0) then 0 else L) /\
  spec_counter W L (q + 1) = 0.
Proof.
  intros Hp Hn. cbv zeta. unfold spec_counter.
  assert (block_bits W = 8 * Z.of_nat (block_bytes W)) as HB by done.
  set (x := block_bits W * Z.of_nat q).
  assert (block_bits W * Z.of_nat (q + 1) = x + block_bits W) as -> by (unfold x; lia).
  rewrite (proj2 (Z.ltb_ge (x + block_bits W) _)) by lia. split; [|done].
  destruct (Nat.eqb_spec ptr 0), (Z.eqb_spec n 0); cbn [andb];
    destruct (Z.ltb_spec x (x + (8 * Z.of_nat ptr + n))); lia.
Qed.

Lemma length_be v : length (rev (store_le (word_bytes W) v)) = word_bytes W.
Proof. by rewrite length_rev, length_store_le. Qed.

(** A context that has absorbed [q] blocks, and the padded message [p]. *)
Section closing.
Context (u : list Z) (c : block_ctx blake_state) (ub n : Z) (out : nat) (h s p : list Z) (q : nat).
Context (Hok : ctx_ok (block_bytes W) c) (Hu : length u = block_bytes W).
Context (Hn : 0 <= n < 8) (Hout : (out <= 8)%nat) (Hh : length h = 8%nat) (Hs : length s = 4%nat).
Context (Hc : chain c = chain_state h s (block_bits W * Z.of_nat q)).

Definition close_len : Z := block_bits W * Z.of_nat q + (8 * Z.of_nat (ptr c) + n).

Context (Hp : drop (q * block_bytes W) p =
  pending c ++ pad_bytes (out =? 8)%nat (ptr c) ub n close_len).

(** The context after the counter has been adjusted. *)
Definition close_ctx : block_ctx blake_state :=
  BlockCtx (buf c) (ptr c) (adjust W (ptr c) n (8 * Z.of_nat (ptr c) + n)
    (chain_state h s (block_bits W * Z.of_nat q))).

Lemma q_blocks_mod : (block_bits W * Z.of_nat q) mod block_bits W = 0.
Proof. pose proof block_bits_pos. rewrite Z.mul_comm. apply Z.mod_mul. lia. Qed.

Lemma close_ctx_ok : ctx_ok (block_bytes W) close_ctx /\ state_ok (chain close_ctx).
Proof. split; [exact Hok|]. apply adjust_ok; [by apply chain_state_ok|lia]. Qed.

Lemma close_process b :
  spec_process W b (chain close_ctx) =
  let t := spec_counter W close_len q in
  chain_state (spec_compress W h s (t mod 2 ^ wbits W) (t / 2 ^ wbits W mod 2 ^ wbits W)
                 (block_words W b)) s t.
Proof.
  cbv zeta. unfold close_ctx. cbn [chain].
  rewrite adjust_spec by (apply q_blocks_mod || done || apply Hok).
  unfold close_len. by rewrite (proj1 (spec_counter_last q (ptr c) n (proj2 Hok) Hn)).
Qed.

(** The closing function up to the choice between one and two blocks, with the
    length field in place. *)
Lemma close_gen_unfold :
  close_gen W enc core u c ub n out =
  let lo := (14 * word_bytes W)%nat in
  let th := rev (store_le (word_bytes W) (close_len / 2 ^ wbits W mod 2 ^ wbits W)) in
  let tl := rev (store_le (word_bytes W) (close_len mod 2 ^ wbits W)) in
  u ← store u (ptr c) (last_byte ub n);
  sc ← if 8 * Z.of_nat (ptr c) + n <=? block_bits W - 2 * wbits W - 2 then
      u ← memset u (ptr c + 1) 0 (lo - 1 - ptr c);
      u ← if (out =? 8)%nat then store u (lo - 1) ((u !!! (lo - 1)%nat) .| 1) else Some u;
      u ← memcpy u lo th;
      u ← memcpy u (lo + word_bytes W) tl;
      core close_ctx (take (block_bytes W - ptr c) (drop (ptr c) u))
    else
      u ← memset u (ptr c + 1) 0 (block_bytes W - 1 - ptr c);
      sc ← core close_ctx (take (block_bytes W - ptr c) (drop (ptr c) u));
      let sc := BlockCtx (buf sc) (ptr sc)
        (adjust W 0 0 0 (chain_state (bH (chain sc)) (bS (chain sc)) 0)) in
      u ← memset u 0 0 lo;
      u ← if (out =? 8)%nat then store u (lo - 1) 1 else Some u;
      u ← memcpy u lo th;
      u ← memcpy u (lo + word_bytes W) tl;
      core sc (take (block_bytes W) u);
  Some (concat (map (fun k => enc_be W (bH (chain sc) !!! k)) (seq 0 out)), sc).
Proof.
  assert (0 < 2 ^ wbits W) as HM by (apply Z.pow_pos_nonneg; [lia|apply wbits_pos]).
  destruct (counter_low (block_bits W * Z.of_nat q) (8 * Z.of_nat (ptr c) + n)) as (E1&E2&_);
    [apply q_blocks_mod|unfold block_bits; pose proof (proj2 Hok); lia|].
  unfold close_gen. rewrite Hc.
  replace (Z.of_nat (ptr c) << 3) with (8 * Z.of_nat (ptr c)) by (rewrite Z.shiftl_mul_pow2; lia).
  cbn [bT0 bT1 chain_state]. rewrite w_trunc, <- E1, Z.mod_mod, <- E2 by lia.
  fold close_len. cbv zeta. by rewrite !enc_spec by (apply word_mod, wbits_pos).
Qed.

Lemma close_short :
  8 * Z.of_nat (ptr c) + n <= block_bits W - 2 * wbits W - 2 ->
  exists c', close_gen W enc core u c ub n out =
    Some (concat (map (enc_be W) (take out (foldl (spec_block W s p close_len) h (seq q 1)))), c') /\
    length (buf c') = length (buf c).
Proof.
  intros Hsh. destruct close_ctx_ok as [Hok1 Hst1]. rewrite close_gen_unfold. cbv zeta.
  pose proof (proj2 (Z.leb_le _ _) Hsh) as Es. unfold pad_bytes in Hp. rewrite Es in Hp |- *.
  destruct Hok as [_ Hptr].
  assert (ptr c < 14 * word_bytes W)%nat as Hlo by (unfold block_bits, wbits, block_bytes in *; lia).
  pose proof (fill_short (out =? 8)%nat u (ptr c) (last_byte ub n) _ _ Hu Hlo
    (length_be (close_len / 2 ^ wbits W mod 2 ^ wbits W))
    (length_be (close_len mod 2 ^ wbits W))) as Hfill.
  do 4 (apply bind_Some_inv in Hfill as (?&->&Hfill); cbn [mbind option_bind]).
  rewrite Hfill. cbn [mbind option_bind]. rewrite drop_app_length' by (rewrite length_take; lia).
  fold (len_bytes close_len). cbv zeta in Hp. set (tail := mark _ _ _ ++ _) in *.
  assert (length tail = block_bytes W - ptr c)%nat as Ht.
  { unfold tail. rewrite length_app, length_mark, length_len_bytes. unfold block_bytes in *. lia. }
  rewrite take_ge by lia.
  destruct (core_block close_ctx tail) as (c'&->&_&_&Hl'&Hch);
    [done|done|unfold close_ctx; cbn [ptr]; lia|].
  exists c'. split; [|exact Hl'].
  cbn [mbind option_bind seq foldl]. do 3 f_equal. rewrite Hch, close_process. cbn [bH chain_state].
  rewrite map_lookup_seq by (rewrite length_spec_compress; lia).
  unfold spec_block. cbv zeta. by rewrite Hp.
Qed.

(** The block that only holds padding. *)
Lemma last_block_core h1 (c2 : block_ctx blake_state) blk :
  ctx_ok (block_bytes W) c2 -> ptr c2 = 0%nat -> length h1 = 8%nat -> length blk = block_bytes W ->
  exists c4,
    core (BlockCtx (buf c2) (ptr c2) (adjust W 0 0 0 (chain_state h1 s 0)))
      (take (block_bytes W) blk) = Some c4 /\
    length (buf c4) = length (buf c2) /\
    bH (chain c4) = spec_compress W h1 s (0 mod 2 ^ wbits W) (0 / 2 ^ wbits W mod 2 ^ wbits W)
                      (block_words W blk).
Proof.
  intros Hok2 Hp2 Hh1 Hblk. pose proof block_bits_pos. rewrite take_ge by lia.
  set (c3 := BlockCtx (buf c2) (ptr c2) _).
  destruct (core_block c3 blk) as (c4&->&_&_&Hl4&Hch4).
  { done. }
  { apply adjust_ok; [|lia]. by apply chain_state_ok. }
  { rewrite Hblk. unfold c3. cbn [ptr]. by rewrite Hp2. }
  exists c4. split_and!; [done|done|].
  assert (pending c3 = []) as Hpend by (unfold pending, c3; cbn [ptr]; by rewrite Hp2).
  rewrite Hch4, Hpend. cbn [app]. unfold c3. cbn [chain].
  pose proof (adjust_spec blk h1 s 0 0 0) as Hadj. cbv zeta in Hadj.
  change (8 * Z.of_nat 0 + 0) with 0 in Hadj.
  rewrite Hadj; [done|apply Z.mod_0_l; lia|lia|apply block_bytes_pos].
Qed.

(** Two blocks of the specification at the end of the message. *)
Lemma spec_block_two h1 tail blk :
  drop (q * block_bytes W) p = pending c ++ tail ++ blk ->
  (length tail = block_bytes W - ptr c)%nat ->
  h1 = (let t := spec_counter W close_len q in
        spec_compress W h s (t mod 2 ^ wbits W) (t / 2 ^ wbits W mod 2 ^ wbits W)
          (block_words W (pending c ++ tail))) ->
  spec_block W s p close_len (spec_block W s p close_len h q) (S q) =
  spec_compress W h1 s (0 mod 2 ^ wbits W) (0 / 2 ^ wbits W mod 2 ^ wbits W) (block_words W blk).
Proof.
  intros Hd Ht Hh1. pose proof (length_pending _ block_bytes_pos c Hok) as Hpl.
  destruct Hok as [_ Hptr].
  assert (length (pending c ++ tail) = block_bytes W) as Hl by (rewrite length_app; lia).
  assert (spec_block W s p close_len h q = h1) as ->.
  { rewrite Hh1. unfold spec_block. cbv zeta. rewrite Hd, app_assoc. by rewrite block_words_app. }
  unfold spec_block. cbv zeta. replace (S q) with (q + 1)%nat by lia.
  unfold close_len. rewrite (proj2 (spec_counter_last q (ptr c) n Hptr Hn)).
  replace ((q + 1) * block_bytes W)%nat with (q * block_bytes W + block_bytes W)%nat by lia.
  by rewrite <- drop_drop, Hd, app_assoc, drop_app_length'.
Qed.

Lemma close_long :
  block_bits W - 2 * wbits W - 2 < 8 * Z.of_nat (ptr c) + n ->
  exists c', close_gen W enc core u c ub n out =
    Some (concat (map (enc_be W) (take out (foldl (spec_block W s p close_len) h (seq q 2)))), c') /\
    length (buf c') = length (buf c).
Proof.
  intros Hlg. destruct close_ctx_ok as [Hok1 Hst1]. rewrite close_gen_unfold. cbv zeta.
  pose proof (proj2 (Z.leb_gt _ _) Hlg) as Es. unfold pad_bytes in Hp. rewrite Es in Hp |- *.
  pose proof block_bytes_pos as Hbb. pose proof block_bits_pos as HB. destruct Hok as [Hbuf Hptr].
  pose proof (store_memset_tail u (ptr c) (last_byte ub n) ltac:(lia)) as Hfill.
  replace (length u - (ptr c + 1))%nat with (block_bytes W - 1 - ptr c)%nat in Hfill by lia.
  apply bind_Some_inv in Hfill as (u1&->&Hfill). cbn [mbind option_bind].
  rewrite Hfill. cbn [mbind option_bind].
  set (u2 := take (ptr c) u ++ _) in *.
  assert (length u2 = block_bytes W) as Hu2.
  { unfold u2. rewrite length_app, length_take. simpl. rewrite length_replicate. lia. }
  assert (drop (ptr c) u2 = last_byte ub n :: replicate (block_bytes W - 1 - ptr c) 0) as ->
    by (apply drop_app_length'; rewrite length_take; lia).
  cbv zeta in Hp. set (tail := last_byte ub n :: _) in *.
  assert (length tail = block_bytes W - ptr c)%nat as Ht
    by (unfold tail; simpl; rewrite length_replicate; lia).
  rewrite (take_ge tail) by lia.
  destruct (core_block close_ctx tail) as (c2&->&_&Hp2&Hl2&Hch2);
    [done|done|unfold close_ctx; cbn [ptr]; lia|].
  rewrite close_process in Hch2. cbn [mbind option_bind]. rewrite Hch2. cbn [bH bS chain_state].
  set (h1 := spec_compress W h s _ _ _) in *.
  assert (length h1 = 8%nat) as Hh1 by (by apply length_spec_compress).
  pose proof (fill_long (out =? 8)%nat u2 _ _ Hu2
    (length_be (close_len / 2 ^ wbits W mod 2 ^ wbits W))
    (length_be (close_len mod 2 ^ wbits W))) as Hfill2.
  do 3 (apply bind_Some_inv in Hfill2 as (?&->&Hfill2); cbn [mbind option_bind]).
  rewrite Hfill2. cbn [mbind option_bind]. fold (len_bytes close_len).
  set (blk := replicate _ 0 ++ Z.b2z _ :: len_bytes close_len) in *.
  destruct (last_block_core h1 c2 blk) as (c4&->&Hl4&Hch4).
  { unfold ctx_ok. rewrite Hl2, Hp2. split; [exact Hbuf|lia]. }
  { done. }
  { done. }
  { unfold blk. rewrite length_app, length_replicate. simpl. rewrite length_len_bytes.
    unfold block_bytes in *. lia. }
  exists c4. split; [|rewrite Hl4; exact Hl2].
  cbn [mbind option_bind seq foldl]. do 3 f_equal. rewrite Hch4.
  rewrite map_lookup_seq by (rewrite length_spec_compress; lia).
  by rewrite (spec_block_two h1 tail blk).
Qed.
End closing.

(** The digest, for [q] full blocks and the pending bytes. *)
Lemma close_gen_spec u c ub n out h s q p :
  let short := 8 * Z.of_nat (ptr c) + n <=? block_bits W - 2 * wbits W - 2 in
  ctx_ok (block_bytes W) c -> length u = block_bytes W -> 0 <= n < 8 -> (out <= 8)%nat ->
  length h = 8%nat -> length s = 4%nat -> chain c = chain_state h s (block_bits W * Z.of_nat q) ->
  drop (q * block_bytes W) p = pending c ++ pad_bytes (out =? 8)%nat (ptr c) ub n (close_len c n q) ->
  exists c', close_gen W enc core u c ub n out =
    Some (concat (map (enc_be W) (take out
      (foldl (spec_block W s p (close_len c n q)) h (seq q (if short then 1 else 2))))), c') /\
    length (buf c') = length (buf c).
Proof.
  intros short **. unfold short.
  destruct (Z.leb_spec (8 * Z.of_nat (ptr c) + n) (block_bits W - 2 * wbits W - 2));
    [by apply close_short|by apply close_long].
Qed.

Lemma length_pad_bytes f p ub n L :
  (p < block_bytes W)%nat -> 0 <= n ->
  let short := 8 * Z.of_nat p + n <=? block_bits W - 2 * wbits W - 2 in
  (p + length (pad_bytes f p ub n L) = (if short then 1 else 2) * block_bytes W)%nat.
Proof.
  intros Hp Hn. unfold pad_bytes. cbv zeta. assert (0 < word_bytes W)%nat by (destruct w_size; lia).
  destruct (Z.leb_spec (8 * Z.of_nat p + n) (block_bits W - 2 * wbits W - 2)) as [Hs|Hs].
  - rewrite length_app, length_mark, length_len_bytes.
    unfold block_bits, wbits, block_bytes in *. lia.
  - rewrite !length_app. cbn [length]. rewrite !length_replicate, length_len_bytes.
    unfold block_bytes in *. lia.
Qed.

(** A whole computation. *)
Lemma stream_gen u (c : block_ctx blake_state) chunks ub n iv out :
  length (buf c) = block_bytes W -> length u = block_bytes W -> length iv = 8%nat ->
  0 <= n < 8 -> (out <= 8)%nat -> Forall (Forall byte) chunks ->
  exists c1 c2,
    foldl (fun oc data => c ← oc; core c data)
      (Some (BlockCtx (buf c) 0 (BlakeState iv [0; 0; 0; 0] 0 0))) chunks = Some c1 /\
    close_gen W enc core u c1 ub n out =
      Some (blake_spec W iv [0; 0; 0; 0] (out =? 8)%nat out (message (concat chunks) ub n), c2) /\
    length (buf c2) = block_bytes W.
Proof.
  intros Hbuf Hu Hiv Hn Hout Hchunks. set (s := [0; 0; 0; 0]).
  pose proof block_bytes_pos as Hbb. pose proof block_bits_pos as HB.
  assert (BlakeState iv s 0 0 = chain_state iv s 0) as ->.
  { unfold chain_state. by rewrite Z.mod_0_l, Z.div_0_l, Z.mod_0_l by (apply Z.pow_nonzero; [lia|apply wbits_pos]). }
  set (c0 := BlockCtx (buf c) 0 (chain_state iv s 0)).
  assert (ctx_ok (block_bytes W) c0) as Hok0 by (unfold ctx_ok; simpl; lia).
  assert (state_ok (chain c0)) as Hst0 by (by apply chain_state_ok).
  destruct (updates_absorb _ _ Hbb spec_process_take c0 chunks Hok0) as (c1&Hup&Hok1&Hl1&Habs).
  change (pending c0 ++ concat chunks) with (concat chunks) in Habs.
  set (m := concat chunks) in *.
  assert (Forall byte m) as Hm by (by apply Forall_concat).
  set (q := (length m / block_bytes W)%nat).
  assert (ptr c1 = length m mod block_bytes W)%nat as Hptr.
  { rewrite <- (length_pending _ Hbb c1 Hok1), <- (absorb_rest_length _ (spec_process W) Hbb (chain c0) m).
    by rewrite <- Habs. }
  set (L := 8 * Z.of_nat (length m) + n).
  set (p := m ++ pad_bytes (out =? 8)%nat (ptr c1) ub n L).
  pose proof (Nat.div_mod (length m) (block_bytes W) ltac:(lia)) as Hdm. fold q in Hdm.
  assert (chain c1 = chain_state (foldl (spec_block W s p L) iv (seq 0 q)) s (block_bits W * Z.of_nat q))
    as Hch.
  { change (chain c1) with (chain c1, pending c1).1. rewrite Habs. unfold absorb. cbn [fst].
    apply fold_blocks_spec; [lia|unfold L, block_bits; lia|].
    unfold p. rewrite take_app_le by lia. done. }
  assert (L = block_bits W * Z.of_nat q + (8 * Z.of_nat (ptr c1) + n)) as HL.
  { unfold L, block_bits. rewrite Hptr. lia. }
  assert (state_ok (chain c1)) as Hst1.
  { change (chain c1) with (chain c1, pending c1).1. rewrite Habs.
    apply absorb_inv; [apply spec_process_ok|done]. }
  rewrite Hch in Hst1. destruct Hst1 as (Hh&_). cbn [bH chain_state] in Hh.
  destruct (close_gen_spec u c1 ub n out _ s q p Hok1 Hu Hn Hout Hh eq_refl Hch) as (c2&Hcl&Hl2).
  { fold (close_len c1 n q) in HL. rewrite <- HL. unfold p. rewrite drop_app_le by lia. f_equal.
    change (pending c1) with (chain c1, pending c1).2. by rewrite Habs. }
  exists c1, c2. split_and!.
  - rewrite <- Hup. apply (foldl_updates _ _ (fun c => ctx_ok (block_bytes W) c /\ state_ok (chain c))).
    + intros c' data [_ ?]. by apply core_update.
    + intros c' data c''. apply update_inv; [done|apply spec_process_take|apply spec_process_ok].
    + done.
  - rewrite Hcl. do 2 f_equal. unfold blake_spec. cbv zeta.
    rewrite spec_pad_bytes, length_message by done. rewrite <- Hptr. fold L p.
    fold (close_len c1 n q) in HL. rewrite <- HL.
    pose proof (length_pad_bytes (out =? 8)%nat (ptr c1) ub n L (proj2 Hok1) ltac:(lia)) as Hlp.
    cbv zeta in Hlp. set (k := if 8 * Z.of_nat (ptr c1) + n <=? _ then 1%nat else 2%nat) in *.
    assert (length p = (q + k) * block_bytes W)%nat as ->.
    { unfold p. rewrite length_app. lia. }
    rewrite Nat.div_mul by lia. by rewrite seq_app, foldl_app.
  - rewrite Hl2, Hl1. done.
Qed.
End generic.

(** ** The two word sizes: lemmas *)

(** The carry between the two halves of the counter. *)
Lemma counter_carry w k t0 t1 :
  0 <= w -> 0 < k <= 2 ^ w -> word w t0 -> word w t1 ->
  (t0 + k) mod 2 ^ w = (t0 + 2 ^ w * t1 + k) mod 2 ^ w /\
  (if (t0 + k) mod 2 ^ w <? k then (t1 + 1) mod 2 ^ w else t1) =
  ((t0 + 2 ^ w * t1 + k) / 2 ^ w) mod 2 ^ w.
Proof.
  intros Hw Hk H0 H1. unfold word in *. set (M := 2 ^ w) in *.
  replace (t0 + M * t1 + k) with (t0 + k + t1 * M) by ring.
  rewrite Z.mod_add, Z.div_add by lia. split; [done|].
  destruct (decide (t0 + k < M)).
  - rewrite (Z.mod_small (t0 + k)), (Z.div_small (t0 + k)) by lia.
    rewrite (proj2 (Z.ltb_ge _ _)) by lia. by rewrite Z.mod_small by lia.
  - assert ((t0 + k) mod M = t0 + k - M) as -> by (symmetry; apply Z.mod_unique with 1; lia).
    assert ((t0 + k) / M = 1) as -> by (symmetry; apply Z.div_unique with (t0 + k - M); lia).
    rewrite (proj2 (Z.ltb_lt _ _)) by lia. f_equal. lia.
Qed.

Lemma READ_WRITE_STATE32 l : READ_STATE32 (WRITE_STATE32 l) = l.
Proof. by destruct l. Qed.

Lemma WRITE_READ_STATE32 W st : state_ok W st -> WRITE_STATE32 (READ_STATE32 st) = st.
Proof.
  destruct st as [h s t0 t1]. intros (Hh&Hs&_). cbn [bH bS] in *.
  do 8 (destruct h as [|? h]; [discriminate Hh|]). destruct h; [|discriminate Hh].
  do 4 (destruct s as [|? s]; [discriminate Hs|]). by destruct s; [|discriminate Hs].
Qed.

Lemma blake32_block_spec b st :
  state_ok W32 st ->
  process_local READ_STATE32 WRITE_STATE32 blake32_block b st = spec_process W32 b st.
Proof.
  intros Hst. pose proof Hst as (_&_&H0&H1).
  destruct (counter_carry 32 512 (bT0 st) (bT1 st)) as [E0 E1]; [done..|].
  rewrite <- (WRITE_READ_STATE32 W32 st Hst) at 2. rewrite <- (WRITE_READ_STATE32 W32 st Hst) in E0, E1.
  unfold process_local. set (l := READ_STATE32 st) in *. clearbody l. clear st Hst H0 H1.
  destruct l. cbn [blake32_block WRITE_STATE32 bT0 bT1 lT0 lT1] in *.
  rewrite COMPRESS32_spec, !SPH_T32_mod. unfold spec_process.
  cbn [WRITE_STATE32 WRITE_STATE64 bH bS bT0 bT1 lT0 lT1].
  change (2 ^ wbits W32) with (2 ^ 32). change (block_bits W32) with 512.
  rewrite <- E0, <- E1. done.
Qed.

Lemma blake64_block_spec b st :
  state_ok W64 st ->
  process_local READ_STATE64 WRITE_STATE64 blake64_block b st = spec_process W64 b st.
Proof.
  intros Hst. pose proof Hst as (_&_&H0&H1).
  destruct (counter_carry 64 1024 (bT0 st) (bT1 st)) as [E0 E1]; [done..|].
  rewrite <- (WRITE_READ_STATE32 W64 st Hst) at 2. rewrite <- (WRITE_READ_STATE32 W64 st Hst) in E0, E1.
  unfold process_local. change (READ_STATE64 st) with (READ_STATE32 st).
  set (l := READ_STATE32 st) in *. clearbody l. clear st Hst H0 H1.
  destruct l. cbn [blake64_block WRITE_STATE32 bT0 bT1 lT0 lT1] in *.
  rewrite COMPRESS64_spec, !SPH_T64_mod. unfold spec_process.
  cbn [WRITE_STATE32 WRITE_STATE64 bH bS bT0 bT1 lT0 lT1].
  change (2 ^ wbits W64) with (2 ^ 64). change (block_bits W64) with 1024.
  rewrite <- E0, <- E1. done.
Qed.

Lemma blake32_update c data :
  state_ok W32 (chain c) -> blake32 c data = update 64 (spec_process W32) c data.
Proof.
  intros Hc. unfold blake32.
  rewrite update_local_update; [|apply READ_WRITE_STATE32|by eapply WRITE_READ_STATE32].
  apply (update_ext _ _ _ (fun _ => True) (state_ok W32)); [| |apply Forall_True..|done].
  - intros b st _. exact (blake32_block_spec b st).
  - intros b st _. exact (spec_process_ok W32 b st).
Qed.

Lemma blake64_update c data :
  state_ok W64 (chain c) -> blake64 c data = update 128 (spec_process W64) c data.
Proof.
  intros Hc. unfold blake64.
  rewrite update_local_update; [|apply READ_WRITE_STATE32|by eapply WRITE_READ_STATE32].
  apply (update_ext _ _ _ (fun _ => True) (state_ok W64)); [| |apply Forall_True..|done].
  - intros b st _. exact (blake64_block_spec b st).
  - intros b st _. exact (spec_process_ok W64 b st).
Qed.

(** ** The four variants *)

Inductive blake_size := B224 | B256 | B384 | B512.

Definition size_bits (v : blake_size) : nat :=
  match v with B224 => 224 | B256 => 256 | B384 => 384 | B512 => 512 end.
Definition size_width (v : blake_size) : blake_width :=
  match v with B224 | B256 => W32 | _ => W64 end.
Definition size_iv (v : blake_size) : list Z :=
  match v with B224 => IV224 | B256 => IV256 | B384 => IV384 | B512 => IV512 end.
(** The bit that the padding sets for the larger size of each family. *)
Definition size_flag (v : blake_size) : bool :=
  match v with B256 | B512 => true | _ => false end.
Definition size_words (v : blake_size) : nat :=
  match v with B224 => 7 | B384 => 6 | _ => 8 end.

Definition blake_ops (u : list Z) (v : blake_size) : SphHash (block_ctx blake_state) :=
  match v with
  | B224 => {| sph_init := sph_blake224_init; sph_update := sph_blake224;
               sph_addbits_and_close := sph_blake224_addbits_and_close u |}
  | B256 => {| sph_init := sph_blake256_init; sph_update := sph_blake256;
               sph_addbits_and_close := sph_blake256_addbits_and_close u |}
  | B384 => {| sph_init := sph_blake384_init; sph_update := sph_blake384;
               sph_addbits_and_close := sph_blake384_addbits_and_close u |}
  | B512 => {| sph_init := sph_blake512_init; sph_update := sph_blake512;
               sph_addbits_and_close := sph_blake512_addbits_and_close u |}
  end.

(** The BLAKE digest of size [v] of a bit string, with a zero salt. *)
Definition blake (v : blake_size) (msg : list bool) : list Z :=
  blake_spec (size_width v) (size_iv v) [0; 0; 0; 0] (size_flag v) (size_words v) msg.

Definition size_block (v : blake_size) : nat := block_bytes (size_width v).

(** One of the four sizes, from the computation at its word size. *)
Ltac stream_size Hinit H Hgen :=
  let c1 := fresh "c" in let c2 := fresh "c" in
  let Hup := fresh in let Hcl := fresh in let Hl := fresh in
  destruct H as (c1&c2&Hup&Hcl&Hl); [done|done|done|done|lia|done|];
  exists c1; eexists; split_and!;
    [ exact Hup
    | cbn [sph_addbits_and_close blake_ops];
      unfold sph_blake224_addbits_and_close, sph_blake256_addbits_and_close,
        sph_blake384_addbits_and_close, sph_blake512_addbits_and_close;
      rewrite Hgen, Hcl; cbn [mbind option_bind]; reflexivity
    | apply (Hinit c2 Hl)
    | exact Hl ].

Lemma blake_stream u v c chunks ub n :
  length (buf c) = size_block v -> length u = size_block v -> 0 <= n < 8 ->
  Forall (Forall byte) chunks ->
  exists c1 c2, @sph_updates _ (blake_ops u v) (@sph_init _ (blake_ops u v) c) chunks = Some c1 /\
    @sph_addbits_and_close _ (blake_ops u v) c1 ub n =
      Some (blake v (message (concat chunks) ub n), c2) /\
    c2 ≡ @sph_init _ (blake_ops u v) c /\ length (buf c2) = size_block v.
Proof.
  intros Hc Hu Hn Hch.
  assert (forall c', length (buf c') = size_block v ->
    @sph_init _ (blake_ops u v) c' ≡ @sph_init _ (blake_ops u v) c) as Hinit.
  { intros c' Hc'. unfold equiv, block_ctx_equiv. rewrite <- Hc in Hc'. by destruct v. }
  destruct v;
    [ stream_size Hinit (stream_gen W32 sph_enc32be_aligned blake32 sph_bswap32_store blake32_update
        u c chunks ub n IV224 7) blake32_close_gen
    | stream_size Hinit (stream_gen W32 sph_enc32be_aligned blake32 sph_bswap32_store blake32_update
        u c chunks ub n IV256 8) blake32_close_gen
    | stream_size Hinit (stream_gen W64 sph_enc64be_aligned blake64 sph_bswap64_store blake64_update
        u c chunks ub n IV384 6) blake64_close_gen
    | stream_size Hinit (stream_gen W64 sph_enc64be_aligned blake64 sph_bswap64_store blake64_update
        u c chunks ub n IV512 8) blake64_close_gen ].
Qed.

Lemma length_spec_blocks W `{!WidthOk W} s p L l h :
  length s = 4%nat -> length h = 8%nat -> length (foldl (spec_block W s p L) h l) = 8%nat.
Proof.
  intros Hs. revert h. induction l as [|i l IH]; intros h Hh; [done|]. cbn [foldl].
  apply IH. by apply length_spec_compress.
Qed.

Lemma blake_ok v msg :
  length (blake v msg) = (size_bits v / 8)%nat /\ Forall byte (blake v msg).
Proof.
  assert (WidthOk (size_width v)) as HW by (destruct v; apply _).
  unfold blake, blake_spec. cbv zeta. split.
  - rewrite length_concat_map with (k := word_bytes (size_width v))
      by (intros; by rewrite w_enc, length_rev, length_store_le).
    rewrite length_take, length_spec_blocks by (done || by destruct v). by destruct v.
  - apply Forall_concat_map. intros x. rewrite w_enc. apply Forall_rev, store_le_bytes.
Qed.

Definition blake_hash_spec (u : list Z) (v : blake_size) (Hu : length u = size_block v)
    : @SphHashSpec _ (blake_ops u v) _ :=
  @Build_SphHashSpec _ (blake_ops u v) _
    (fun c => length (buf c) = size_block v) (size_bits v / 8)
    (fun m ub n => blake v (message m ub n))
    (fun m ub n _ => blake_ok v (message m ub n))
    (fun c chunks ub n Hc Hch Hn => blake_stream u v c chunks ub n Hc Hu Hn Hch).

(** ** Constants: where they come from *)

(** The first [w] bits of the fractional part of the square root of [p]. *)
Definition sqrt_frac (w p : Z) : Z := Z.sqrt (p * 2 ^ (2 * w)) mod 2 ^ w.

(** ** Theorems *)

(** for every size, every previous contents of the context and of the local
    buffer of the closing function, and every way of cutting the message into
    calls, [init], the calls that add data and [addbits_and_close] stay inside
    their buffers and return the BLAKE digest of the message followed by the
    extra bits, and leave the context as [init] does. *)
Theorem blake_streaming u v c chunks ub n :
  length (buf c) = size_block v -> length u = size_block v -> 0 <= n < 8 ->
  Forall (Forall byte) chunks ->
  exists c1 c2, @sph_updates _ (blake_ops u v) (@sph_init _ (blake_ops u v) c) chunks = Some c1 /\
    @sph_addbits_and_close _ (blake_ops u v) c1 ub n =
      Some (blake v (message (concat chunks) ub n), c2) /\
    c2 ≡ @sph_init _ (blake_ops u v) c.
Proof.
  intros Hc Hu Hn Hch. destruct (blake_stream u v c chunks ub n Hc Hu Hn Hch) as (c1&c2&?&?&?&_).
  eauto 10.
Qed.

Lemma blake_streaming_witness :
  exists c1 c2,
    @sph_updates _ (blake_ops (replicate 128 9) B512)
      (@sph_init _ (blake_ops (replicate 128 9) B512)
         (BlockCtx (replicate 128 255) 5 (BlakeState [] [] 7 7))) [[104; 101]; [108; 108; 111]]
      = Some c1 /\
    @sph_addbits_and_close _ (blake_ops (replicate 128 9) B512) c1 0xC0 3 =
      Some (blake B512 (message [104; 101; 108; 108; 111] 0xC0 3), c2) /\
    c2 ≡ @sph_init _ (blake_ops (replicate 128 9) B512)
           (BlockCtx (replicate 128 255) 5 (BlakeState [] [] 7 7)).
Proof.
  apply (blake_streaming (replicate 128 9) B512 _ [[104; 101]; [108; 108; 111]] 0xC0 3);
    [reflexivity|reflexivity|lia|]. repeat constructor; done.
Defined.

(** the compact compression functions, which read the table [sigma], and the
    unrolled ones, in which the preprocessor selects the message words, compute
    the compression function of the specification. *)
Theorem blake_compress_equiv b l :
  WRITE_STATE32 (COMPRESS32 b l) = compress_state W32 b (WRITE_STATE32 l) /\
  COMPRESS32_compact b l = COMPRESS32 b l /\
  WRITE_STATE64 (COMPRESS64 b l) = compress_state W64 b (WRITE_STATE64 l) /\
  COMPRESS64_compact b l = COMPRESS64 b l.
Proof.
  split_and!; [apply COMPRESS32_spec| |apply COMPRESS64_spec|].
  - rewrite <- (READ_WRITE_STATE32 (COMPRESS32_compact b l)), <- (READ_WRITE_STATE32 (COMPRESS32 b l)).
    by rewrite COMPRESS32_compact_spec, COMPRESS32_spec.
  - rewrite <- (READ_WRITE_STATE32 (COMPRESS64_compact b l)), <- (READ_WRITE_STATE32 (COMPRESS64 b l)).
    change WRITE_STATE32 with WRITE_STATE64. by rewrite COMPRESS64_compact_spec, COMPRESS64_spec.
Qed.

(** the initial values are fractional parts of square roots of the first 16
    primes, as in SHA-2, the constants of the 32-bit family are the halves of the
    first constants of the 64-bit one, the arrays and the macros agree, and the
    rows of [sigma] and of the macros [Zri] are permutations that repeat with
    period 10. *)
Theorem blake_constants :
  IV256 = map (sqrt_frac 32) [2; 3; 5; 7; 11; 13; 17; 19] /\
  IV512 = map (sqrt_frac 64) [2; 3; 5; 7; 11; 13; 17; 19] /\
  IV384 = map (sqrt_frac 64) [23; 29; 31; 37; 41; 43; 47; 53] /\
  IV224 = map (fun x => x mod 2 ^ 32) IV384 /\
  CB = CB_macros /\ CS = CS_macros /\
  CS = concat (map (fun x => [x >> 32; x mod 2 ^ 32]) (take 8 CB)) /\
  Forall (fun row => Forall (fun i => i ∈ row) (seq 0 16) /\ length row = 16%nat) (sigma ++ Zmacros) /\
  sigma = Zmacros ++ take 6 Zmacros.
Proof.
  split_and!; try (by vm_compute). apply (bool_decide_unpack _). by vm_compute.
Qed.

(** Known answers: BLAKE-256 and BLAKE-512 of one zero byte. *)
Example blake_zero_byte :
  blake B256 (message [0] 0 0) =
    [0x0c; 0xe8; 0xd4; 0xef; 0x4d; 0xd7; 0xcd; 0x8d; 0x62; 0xdf; 0xde; 0xd9; 0xd4; 0xed; 0xb0; 0xa7;
     0x74; 0xae; 0x6a; 0x41; 0x92; 0x9a; 0x74; 0xda; 0x23; 0x10; 0x9e; 0x8f; 0x11; 0x13; 0x9c; 0x87] /\
  take 16 (blake B512 (message [0] 0 0)) =
    [0x97; 0x96; 0x15; 0x87; 0xf6; 0xd9; 0x70; 0xfa; 0xba; 0x6d; 0x24; 0x78; 0x04; 0x5d; 0xe6; 0xd1].
Proof. by vm_compute. Qed.
