(* ===== verification/KeccakF.v ===== *)
(** * The Keccak-f[1600] permutation: [src/src/keccak.c]

    The source writes the permutation once, over macros that handle one 64-bit
    lane ([XOR64], [ROL64], ...), and defines these macros for 64-bit and for
    32-bit words.  [LaneOps] is that set of macros; this file models the
    permutation over any lanes, with all its unrolling settings, and the 64-bit
    lanes.  [keccak_f] is the permutation as FIPS 202 defines it; the code keeps
    six lanes complemented ([mask]). *)

From S2P Require Import Prelude SphTypes.

#[local] Open Scope c_scope.

(** ** Lanes *)

Class LaneOps (L : Type) := {
  XOR64 : L -> L -> L;
  AND64 : L -> L -> L;
  OR64 : L -> L -> L;
  NOT64 : L -> L;
  ROL64 : L -> Z -> L;
}.

(** The state variables: [aXY] is [u.wide[X + 5 * Y]]. *)
Definition a00 : nat := 0.
Definition a10 : nat := 1.
Definition a20 : nat := 2.
Definition a30 : nat := 3.
Definition a40 : nat := 4.
Definition a01 : nat := 5.
Definition a11 : nat := 6.
Definition a21 : nat := 7.
Definition a31 : nat := 8.
Definition a41 : nat := 9.
Definition a02 : nat := 10.
Definition a12 : nat := 11.
Definition a22 : nat := 12.
Definition a32 : nat := 13.
Definition a42 : nat := 14.
Definition a03 : nat := 15.
Definition a13 : nat := 16.
Definition a23 : nat := 17.
Definition a33 : nat := 18.
Definition a43 : nat := 19.
Definition a04 : nat := 20.
Definition a14 : nat := 21.
Definition a24 : nat := 22.
Definition a34 : nat := 23.
Definition a44 : nat := 24.

(** The lists of variables [P0] to [P23]. *)
Definition Pmacros : list (list nat) :=
  [[a00; a01; a02; a03; a04; a10; a11; a12; a13; a14; a20; a21; a22;
    a23; a24; a30; a31; a32; a33; a34; a40; a41; a42; a43; a44];
   [a00; a30; a10; a40; a20; a11; a41; a21; a01; a31; a22; a02; a32;
    a12; a42; a33; a13; a43; a23; a03; a44; a24; a04; a34; a14];
   [a00; a33; a11; a44; a22; a41; a24; a02; a30; a13; a32; a10; a43;
    a21; a04; a23; a01; a34; a12; a40; a14; a42; a20; a03; a31];
   [a00; a23; a41; a14; a32; a24; a42; a10; a33; a01; a43; a11; a34;
    a02; a20; a12; a30; a03; a21; a44; a31; a04; a22; a40; a13];
   [a00; a12; a24; a31; a43; a42; a04; a11; a23; a30; a34; a41; a03;
    a10; a22; a21; a33; a40; a02; a14; a13; a20; a32; a44; a01];
   [a00; a21; a42; a13; a34; a04; a20; a41; a12; a33; a03; a24; a40;
    a11; a32; a02; a23; a44; a10; a31; a01; a22; a43; a14; a30];
   [a00; a02; a04; a01; a03; a20; a22; a24; a21; a23; a40; a42; a44;
    a41; a43; a10; a12; a14; a11; a13; a30; a32; a34; a31; a33];
   [a00; a10; a20; a30; a40; a22; a32; a42; a02; a12; a44; a04; a14;
    a24; a34; a11; a21; a31; a41; a01; a33; a43; a03; a13; a23];
   [a00; a11; a22; a33; a44; a32; a43; a04; a10; a21; a14; a20; a31;
    a42; a03; a41; a02; a13; a24; a30; a23; a34; a40; a01; a12];
   [a00; a41; a32; a23; a14; a43; a34; a20; a11; a02; a31; a22; a13;
    a04; a40; a24; a10; a01; a42; a33; a12; a03; a44; a30; a21];
   [a00; a24; a43; a12; a31; a34; a03; a22; a41; a10; a13; a32; a01;
    a20; a44; a42; a11; a30; a04; a23; a21; a40; a14; a33; a02];
   [a00; a42; a34; a21; a13; a03; a40; a32; a24; a11; a01; a43; a30;
    a22; a14; a04; a41; a33; a20; a12; a02; a44; a31; a23; a10];
   [a00; a04; a03; a02; a01; a40; a44; a43; a42; a41; a30; a34; a33;
    a32; a31; a20; a24; a23; a22; a21; a10; a14; a13; a12; a11];
   [a00; a20; a40; a10; a30; a44; a14; a34; a04; a24; a33; a03; a23;
    a43; a13; a22; a42; a12; a32; a02; a11; a31; a01; a21; a41];
   [a00; a22; a44; a11; a33; a14; a31; a03; a20; a42; a23; a40; a12;
    a34; a01; a32; a04; a21; a43; a10; a41; a13; a30; a02; a24];
   [a00; a32; a14; a41; a23; a31; a13; a40; a22; a04; a12; a44; a21;
    a03; a30; a43; a20; a02; a34; a11; a24; a01; a33; a10; a42];
   [a00; a43; a31; a24; a12; a13; a01; a44; a32; a20; a21; a14; a02;
    a40; a33; a34; a22; a10; a03; a41; a42; a30; a23; a11; a04];
   [a00; a34; a13; a42; a21; a01; a30; a14; a43; a22; a02; a31; a10;
    a44; a23; a03; a32; a11; a40; a24; a04; a33; a12; a41; a20];
   [a00; a03; a01; a04; a02; a30; a33; a31; a34; a32; a10; a13; a11;
    a14; a12; a40; a43; a41; a44; a42; a20; a23; a21; a24; a22];
   [a00; a40; a30; a20; a10; a33; a23; a13; a03; a43; a11; a01; a41;
    a31; a21; a44; a34; a24; a14; a04; a22; a12; a02; a42; a32];
   [a00; a44; a33; a22; a11; a23; a12; a01; a40; a34; a41; a30; a24;
    a13; a02; a14; a03; a42; a31; a20; a32; a21; a10; a04; a43];
   [a00; a14; a23; a32; a41; a12; a21; a30; a44; a03; a24; a33; a42;
    a01; a10; a31; a40; a04; a13; a22; a43; a02; a11; a20; a34];
   [a00; a31; a12; a43; a24; a21; a02; a33; a14; a40; a42; a23; a04;
    a30; a11; a13; a44; a20; a01; a32; a34; a10; a41; a22; a03];
   [a00; a13; a21; a34; a42; a02; a10; a23; a31; a44; a04; a12; a20;
    a33; a41; a01; a14; a22; a30; a43; a03; a11; a24; a32; a40]].

Definition P (r : nat) : list nat := Pmacros !!! r.
Section permutation.
Context {L : Type} `{!Inhabited L} `{!LaneOps L}.

Definition TH_ELT (c0 c1 c2 c3 c4 d0 d1 d2 d3 d4 : L) : L :=
  let tt0 := XOR64 d0 d1 in
  let tt1 := XOR64 d2 d3 in
  let tt0 := XOR64 tt0 d4 in
  let tt0 := XOR64 tt0 tt1 in
  let tt0 := ROL64 tt0 1 in
  let tt2 := XOR64 c0 c1 in
  let tt3 := XOR64 c2 c3 in
  let tt0 := XOR64 tt0 c4 in
  let tt2 := XOR64 tt2 tt3 in
  let t := XOR64 tt0 tt2 in
  t.

Definition THETA (b : list L) : list L :=
  match b with
  | [b00; b01; b02; b03; b04; b10; b11; b12; b13; b14;
    b20; b21; b22; b23; b24; b30; b31; b32; b33; b34;
    b40; b41; b42; b43; b44] =>
  let t0 := TH_ELT b40 b41 b42 b43 b44 b10 b11 b12 b13 b14 in
  let t1 := TH_ELT b00 b01 b02 b03 b04 b20 b21 b22 b23 b24 in
  let t2 := TH_ELT b10 b11 b12 b13 b14 b30 b31 b32 b33 b34 in
  let t3 := TH_ELT b20 b21 b22 b23 b24 b40 b41 b42 b43 b44 in
  let t4 := TH_ELT b30 b31 b32 b33 b34 b00 b01 b02 b03 b04 in
  let b00 := XOR64 b00 t0 in
  let b01 := XOR64 b01 t0 in
  let b02 := XOR64 b02 t0 in
  let b03 := XOR64 b03 t0 in
  let b04 := XOR64 b04 t0 in
  let b10 := XOR64 b10 t1 in
  let b11 := XOR64 b11 t1 in
  let b12 := XOR64 b12 t1 in
  let b13 := XOR64 b13 t1 in
  let b14 := XOR64 b14 t1 in
  let b20 := XOR64 b20 t2 in
  let b21 := XOR64 b21 t2 in
  let b22 := XOR64 b22 t2 in
  let b23 := XOR64 b23 t2 in
  let b24 := XOR64 b24 t2 in
  let b30 := XOR64 b30 t3 in
  let b31 := XOR64 b31 t3 in
  let b32 := XOR64 b32 t3 in
  let b33 := XOR64 b33 t3 in
  let b34 := XOR64 b34 t3 in
  let b40 := XOR64 b40 t4 in
  let b41 := XOR64 b41 t4 in
  let b42 := XOR64 b42 t4 in
  let b43 := XOR64 b43 t4 in
  let b44 := XOR64 b44 t4 in
  [b00; b01; b02; b03; b04; b10; b11; b12; b13; b14;
   b20; b21; b22; b23; b24; b30; b31; b32; b33; b34;
   b40; b41; b42; b43; b44]
  | _ => b
  end.

Definition RHO (b : list L) : list L :=
  match b with
  | [b00; b01; b02; b03; b04; b10; b11; b12; b13; b14;
    b20; b21; b22; b23; b24; b30; b31; b32; b33; b34;
    b40; b41; b42; b43; b44] =>
  let b01 := ROL64 b01 36 in
  let b02 := ROL64 b02 3 in
  let b03 := ROL64 b03 41 in
  let b04 := ROL64 b04 18 in
  let b10 := ROL64 b10 1 in
  let b11 := ROL64 b11 44 in
  let b12 := ROL64 b12 10 in
  let b13 := ROL64 b13 45 in
  let b14 := ROL64 b14 2 in
  let b20 := ROL64 b20 62 in
  let b21 := ROL64 b21 6 in
  let b22 := ROL64 b22 43 in
  let b23 := ROL64 b23 15 in
  let b24 := ROL64 b24 61 in
  let b30 := ROL64 b30 28 in
  let b31 := ROL64 b31 55 in
  let b32 := ROL64 b32 25 in
  let b33 := ROL64 b33 21 in
  let b34 := ROL64 b34 56 in
  let b40 := ROL64 b40 27 in
  let b41 := ROL64 b41 20 in
  let b42 := ROL64 b42 39 in
  let b43 := ROL64 b43 8 in
  let b44 := ROL64 b44 14 in
  [b00; b01; b02; b03; b04; b10; b11; b12; b13; b14;
   b20; b21; b22; b23; b24; b30; b31; b32; b33; b34;
   b40; b41; b42; b43; b44]
  | _ => b
  end.

Definition KHI_XO (a b c : L) : L :=
  let kt := OR64 b c in
  let d := XOR64 a kt in
  d.

Definition KHI_XA (a b c : L) : L :=
  let kt := AND64 b c in
  let d := XOR64 a kt in
  d.

Definition KHI (b : list L) : list L :=
  match b with
  | [b00; b01; b02; b03; b04; b10; b11; b12; b13; b14;
    b20; b21; b22; b23; b24; b30; b31; b32; b33; b34;
    b40; b41; b42; b43; b44] =>
  let bnn := NOT64 b20 in
  let c0 := KHI_XO b00 b10 b20 in
  let c1 := KHI_XO b10 bnn b30 in
  let c2 := KHI_XA b20 b30 b40 in
  let c3 := KHI_XO b30 b40 b00 in
  let c4 := KHI_XA b40 b00 b10 in
  let b00 := c0 in
  let b10 := c1 in
  let b20 := c2 in
  let b30 := c3 in
  let b40 := c4 in
  let bnn := NOT64 b41 in
  let c0 := KHI_XO b01 b11 b21 in
  let c1 := KHI_XA b11 b21 b31 in
  let c2 := KHI_XO b21 b31 bnn in
  let c3 := KHI_XO b31 b41 b01 in
  let c4 := KHI_XA b41 b01 b11 in
  let b01 := c0 in
  let b11 := c1 in
  let b21 := c2 in
  let b31 := c3 in
  let b41 := c4 in
  let bnn := NOT64 b32 in
  let c0 := KHI_XO b02 b12 b22 in
  let c1 := KHI_XA b12 b22 b32 in
  let c2 := KHI_XA b22 bnn b42 in
  let c3 := KHI_XO bnn b42 b02 in
  let c4 := KHI_XA b42 b02 b12 in
  let b02 := c0 in
  let b12 := c1 in
  let b22 := c2 in
  let b32 := c3 in
  let b42 := c4 in
  let bnn := NOT64 b33 in
  let c0 := KHI_XA b03 b13 b23 in
  let c1 := KHI_XO b13 b23 b33 in
  let c2 := KHI_XO b23 bnn b43 in
  let c3 := KHI_XA bnn b43 b03 in
  let c4 := KHI_XO b43 b03 b13 in
  let b03 := c0 in
  let b13 := c1 in
  let b23 := c2 in
  let b33 := c3 in
  let b43 := c4 in
  let bnn := NOT64 b14 in
  let c0 := KHI_XA b04 bnn b24 in
  let c1 := KHI_XO bnn b24 b34 in
  let c2 := KHI_XA b24 b34 b44 in
  let c3 := KHI_XO b34 b44 b04 in
  let c4 := KHI_XA b44 b04 b14 in
  let b04 := c0 in
  let b14 := c1 in
  let b24 := c2 in
  let b34 := c3 in
  let b44 := c4 in
  [b00; b01; b02; b03; b04; b10; b11; b12; b13; b14;
   b20; b21; b22; b23; b24; b30; b31; b32; b33; b34;
   b40; b41; b42; b43; b44]
  | _ => b
  end.

(** [MOV64(d, s)] on the state. *)
Definition MOV64 (d s : nat) (st : list L) : list L := <[d := st !!! s]> st.

Definition P1_TO_P0 (st : list L) : list L :=
  let t := st !!! a01 in
  let st := MOV64 a01 a30 st in
  let st := MOV64 a30 a33 st in
  let st := MOV64 a33 a23 st in
  let st := MOV64 a23 a12 st in
  let st := MOV64 a12 a21 st in
  let st := MOV64 a21 a02 st in
  let st := MOV64 a02 a10 st in
  let st := MOV64 a10 a11 st in
  let st := MOV64 a11 a41 st in
  let st := MOV64 a41 a24 st in
  let st := MOV64 a24 a42 st in
  let st := MOV64 a42 a04 st in
  let st := MOV64 a04 a20 st in
  let st := MOV64 a20 a22 st in
  let st := MOV64 a22 a32 st in
  let st := MOV64 a32 a43 st in
  let st := MOV64 a43 a34 st in
  let st := MOV64 a34 a03 st in
  let st := MOV64 a03 a40 st in
  let st := MOV64 a40 a44 st in
  let st := MOV64 a44 a14 st in
  let st := MOV64 a14 a31 st in
  let st := MOV64 a31 a13 st in
  let st := <[a13 := t]> st in
  st.

Definition P2_TO_P0 (st : list L) : list L :=
  let t := st !!! a01 in
  let st := MOV64 a01 a33 st in
  let st := MOV64 a33 a12 st in
  let st := MOV64 a12 a02 st in
  let st := MOV64 a02 a11 st in
  let st := MOV64 a11 a24 st in
  let st := MOV64 a24 a04 st in
  let st := MOV64 a04 a22 st in
  let st := MOV64 a22 a43 st in
  let st := MOV64 a43 a03 st in
  let st := MOV64 a03 a44 st in
  let st := MOV64 a44 a31 st in
  let st := <[a31 := t]> st in
  let t := st !!! a10 in
  let st := MOV64 a10 a41 st in
  let st := MOV64 a41 a42 st in
  let st := MOV64 a42 a20 st in
  let st := MOV64 a20 a32 st in
  let st := MOV64 a32 a34 st in
  let st := MOV64 a34 a40 st in
  let st := MOV64 a40 a14 st in
  let st := MOV64 a14 a13 st in
  let st := MOV64 a13 a30 st in
  let st := MOV64 a30 a23 st in
  let st := MOV64 a23 a21 st in
  let st := <[a21 := t]> st in
  st.

Definition P4_TO_P0 (st : list L) : list L :=
  let t := st !!! a01 in
  let st := MOV64 a01 a12 st in
  let st := MOV64 a12 a11 st in
  let st := MOV64 a11 a04 st in
  let st := MOV64 a04 a43 st in
  let st := MOV64 a43 a44 st in
  let st := <[a44 := t]> st in
  let t := st !!! a02 in
  let st := MOV64 a02 a24 st in
  let st := MOV64 a24 a22 st in
  let st := MOV64 a22 a03 st in
  let st := MOV64 a03 a31 st in
  let st := MOV64 a31 a33 st in
  let st := <[a33 := t]> st in
  let t := st !!! a10 in
  let st := MOV64 a10 a42 st in
  let st := MOV64 a42 a32 st in
  let st := MOV64 a32 a40 st in
  let st := MOV64 a40 a13 st in
  let st := MOV64 a13 a23 st in
  let st := <[a23 := t]> st in
  let t := st !!! a14 in
  let st := MOV64 a14 a30 st in
  let st := MOV64 a30 a21 st in
  let st := MOV64 a21 a41 st in
  let st := MOV64 a41 a20 st in
  let st := MOV64 a20 a34 st in
  let st := <[a34 := t]> st in
  st.

Definition P6_TO_P0 (st : list L) : list L :=
  let t := st !!! a01 in
  let st := MOV64 a01 a02 st in
  let st := MOV64 a02 a04 st in
  let st := MOV64 a04 a03 st in
  let st := <[a03 := t]> st in
  let t := st !!! a10 in
  let st := MOV64 a10 a20 st in
  let st := MOV64 a20 a40 st in
  let st := MOV64 a40 a30 st in
  let st := <[a30 := t]> st in
  let t := st !!! a11 in
  let st := MOV64 a11 a22 st in
  let st := MOV64 a22 a44 st in
  let st := MOV64 a44 a33 st in
  let st := <[a33 := t]> st in
  let t := st !!! a12 in
  let st := MOV64 a12 a24 st in
  let st := MOV64 a24 a43 st in
  let st := MOV64 a43 a31 st in
  let st := <[a31 := t]> st in
  let t := st !!! a13 in
  let st := MOV64 a13 a21 st in
  let st := MOV64 a21 a42 st in
  let st := MOV64 a42 a34 st in
  let st := <[a34 := t]> st in
  let t := st !!! a14 in
  let st := MOV64 a14 a23 st in
  let st := MOV64 a23 a41 st in
  let st := MOV64 a41 a32 st in
  let st := <[a32 := t]> st in
  st.

Definition P8_TO_P0 (st : list L) : list L :=
  let t := st !!! a01 in
  let st := MOV64 a01 a11 st in
  let st := MOV64 a11 a43 st in
  let st := <[a43 := t]> st in
  let t := st !!! a02 in
  let st := MOV64 a02 a22 st in
  let st := MOV64 a22 a31 st in
  let st := <[a31 := t]> st in
  let t := st !!! a03 in
  let st := MOV64 a03 a33 st in
  let st := MOV64 a33 a24 st in
  let st := <[a24 := t]> st in
  let t := st !!! a04 in
  let st := MOV64 a04 a44 st in
  let st := MOV64 a44 a12 st in
  let st := <[a12 := t]> st in
  let t := st !!! a10 in
  let st := MOV64 a10 a32 st in
  let st := MOV64 a32 a13 st in
  let st := <[a13 := t]> st in
  let t := st !!! a14 in
  let st := MOV64 a14 a21 st in
  let st := MOV64 a21 a20 st in
  let st := <[a20 := t]> st in
  let t := st !!! a23 in
  let st := MOV64 a23 a42 st in
  let st := MOV64 a42 a40 st in
  let st := <[a40 := t]> st in
  let t := st !!! a30 in
  let st := MOV64 a30 a41 st in
  let st := MOV64 a41 a34 st in
  let st := <[a34 := t]> st in
  st.

Definition P12_TO_P0 (st : list L) : list L :=
  let t := st !!! a01 in
  let st := MOV64 a01 a04 st in
  let st := <[a04 := t]> st in
  let t := st !!! a02 in
  let st := MOV64 a02 a03 st in
  let st := <[a03 := t]> st in
  let t := st !!! a10 in
  let st := MOV64 a10 a40 st in
  let st := <[a40 := t]> st in
  let t := st !!! a11 in
  let st := MOV64 a11 a44 st in
  let st := <[a44 := t]> st in
  let t := st !!! a12 in
  let st := MOV64 a12 a43 st in
  let st := <[a43 := t]> st in
  let t := st !!! a13 in
  let st := MOV64 a13 a42 st in
  let st := <[a42 := t]> st in
  let t := st !!! a14 in
  let st := MOV64 a14 a41 st in
  let st := <[a41 := t]> st in
  let t := st !!! a20 in
  let st := MOV64 a20 a30 st in
  let st := <[a30 := t]> st in
  let t := st !!! a21 in
  let st := MOV64 a21 a34 st in
  let st := <[a34 := t]> st in
  let t := st !!! a22 in
  let st := MOV64 a22 a33 st in
  let st := <[a33 := t]> st in
  let t := st !!! a23 in
  let st := MOV64 a23 a32 st in
  let st := <[a32 := t]> st in
  let t := st !!! a24 in
  let st := MOV64 a24 a31 st in
  let st := <[a31 := t]> st in
  st.

(** A macro applied to the variables [p]: it reads and writes them in place. *)
Definition read (p : list nat) (st : list L) : list L := map (fun i => st !!! i) p.
Definition write (p : list nat) (b : list L) (st : list L) : list L :=
  foldr (fun iv st => <[iv.1 := iv.2]> st) st (zip p b).
Definition in_place (p : list nat) (f : list L -> list L) (st : list L) : list L :=
  write p (f (read p st)) st.

Definition IOTA (r : L) (st : list L) : list L := <[a00 := XOR64 (st !!! a00) r]> st.

Definition KF_ELT (r s : nat) (k : L) (st : list L) : list L :=
  let st := in_place (P r) THETA st in
  let st := in_place (P r) RHO st in
  let st := in_place (P s) KHI st in
  IOTA k st.

Context (RC : list L).

Definition KECCAK_F_1600_1 (st : list L) : list L :=
  foldl (fun st j =>
    let st := KF_ELT 0 1 (RC !!! (j + 0)%nat) st in
    P1_TO_P0 st) st [0; 1; 2; 3; 4; 5; 6; 7; 8; 9; 10; 11; 12; 13; 14; 15; 16; 17; 18; 19; 20; 21; 22; 23]%nat.

Definition KECCAK_F_1600_2 (st : list L) : list L :=
  foldl (fun st j =>
    let st := KF_ELT 0 1 (RC !!! (j + 0)%nat) st in
    let st := KF_ELT 1 2 (RC !!! (j + 1)%nat) st in
    P2_TO_P0 st) st [0; 2; 4; 6; 8; 10; 12; 14; 16; 18; 20; 22]%nat.

Definition KECCAK_F_1600_4 (st : list L) : list L :=
  foldl (fun st j =>
    let st := KF_ELT 0 1 (RC !!! (j + 0)%nat) st in
    let st := KF_ELT 1 2 (RC !!! (j + 1)%nat) st in
    let st := KF_ELT 2 3 (RC !!! (j + 2)%nat) st in
    let st := KF_ELT 3 4 (RC !!! (j + 3)%nat) st in
    P4_TO_P0 st) st [0; 4; 8; 12; 16; 20]%nat.

Definition KECCAK_F_1600_6 (st : list L) : list L :=
  foldl (fun st j =>
    let st := KF_ELT 0 1 (RC !!! (j + 0)%nat) st in
    let st := KF_ELT 1 2 (RC !!! (j + 1)%nat) st in
    let st := KF_ELT 2 3 (RC !!! (j + 2)%nat) st in
    let st := KF_ELT 3 4 (RC !!! (j + 3)%nat) st in
    let st := KF_ELT 4 5 (RC !!! (j + 4)%nat) st in
    let st := KF_ELT 5 6 (RC !!! (j + 5)%nat) st in
    P6_TO_P0 st) st [0; 6; 12; 18]%nat.

Definition KECCAK_F_1600_8 (st : list L) : list L :=
  foldl (fun st j =>
    let st := KF_ELT 0 1 (RC !!! (j + 0)%nat) st in
    let st := KF_ELT 1 2 (RC !!! (j + 1)%nat) st in
    let st := KF_ELT 2 3 (RC !!! (j + 2)%nat) st in
    let st := KF_ELT 3 4 (RC !!! (j + 3)%nat) st in
    let st := KF_ELT 4 5 (RC !!! (j + 4)%nat) st in
    let st := KF_ELT 5 6 (RC !!! (j + 5)%nat) st in
    let st := KF_ELT 6 7 (RC !!! (j + 6)%nat) st in
    let st := KF_ELT 7 8 (RC !!! (j + 7)%nat) st in
    P8_TO_P0 st) st [0; 8; 16]%nat.

Definition KECCAK_F_1600_12 (st : list L) : list L :=
  foldl (fun st j =>
    let st := KF_ELT 0 1 (RC !!! (j + 0)%nat) st in
    let st := KF_ELT 1 2 (RC !!! (j + 1)%nat) st in
    let st := KF_ELT 2 3 (RC !!! (j + 2)%nat) st in
    let st := KF_ELT 3 4 (RC !!! (j + 3)%nat) st in
    let st := KF_ELT 4 5 (RC !!! (j + 4)%nat) st in
    let st := KF_ELT 5 6 (RC !!! (j + 5)%nat) st in
    let st := KF_ELT 6 7 (RC !!! (j + 6)%nat) st in
    let st := KF_ELT 7 8 (RC !!! (j + 7)%nat) st in
    let st := KF_ELT 8 9 (RC !!! (j + 8)%nat) st in
    let st := KF_ELT 9 10 (RC !!! (j + 9)%nat) st in
    let st := KF_ELT 10 11 (RC !!! (j + 10)%nat) st in
    let st := KF_ELT 11 12 (RC !!! (j + 11)%nat) st in
    P12_TO_P0 st) st [0; 12]%nat.

(** All the rounds unrolled. *)
Definition KECCAK_F_1600_0 (st : list L) : list L :=
  let st := KF_ELT 0 1 (RC !!! 0%nat) st in
  let st := KF_ELT 1 2 (RC !!! 1%nat) st in
  let st := KF_ELT 2 3 (RC !!! 2%nat) st in
  let st := KF_ELT 3 4 (RC !!! 3%nat) st in
  let st := KF_ELT 4 5 (RC !!! 4%nat) st in
  let st := KF_ELT 5 6 (RC !!! 5%nat) st in
  let st := KF_ELT 6 7 (RC !!! 6%nat) st in
  let st := KF_ELT 7 8 (RC !!! 7%nat) st in
  let st := KF_ELT 8 9 (RC !!! 8%nat) st in
  let st := KF_ELT 9 10 (RC !!! 9%nat) st in
  let st := KF_ELT 10 11 (RC !!! 10%nat) st in
  let st := KF_ELT 11 12 (RC !!! 11%nat) st in
  let st := KF_ELT 12 13 (RC !!! 12%nat) st in
  let st := KF_ELT 13 14 (RC !!! 13%nat) st in
  let st := KF_ELT 14 15 (RC !!! 14%nat) st in
  let st := KF_ELT 15 16 (RC !!! 15%nat) st in
  let st := KF_ELT 16 17 (RC !!! 16%nat) st in
  let st := KF_ELT 17 18 (RC !!! 17%nat) st in
  let st := KF_ELT 18 19 (RC !!! 18%nat) st in
  let st := KF_ELT 19 20 (RC !!! 19%nat) st in
  let st := KF_ELT 20 21 (RC !!! 20%nat) st in
  let st := KF_ELT 21 22 (RC !!! 21%nat) st in
  let st := KF_ELT 22 23 (RC !!! 22%nat) st in
  let st := KF_ELT 23 0 (RC !!! 23%nat) st in
  st.

End permutation.
(** ** 64-bit lanes *)

#[export] Instance lanes64 : LaneOps Z := {|
  XOR64 a b := a ⊕ b;
  AND64 a b := a .& b;
  OR64 a b := a .| b;
  NOT64 s := SPH_T64 (Z.lnot s);
  ROL64 v n := SPH_ROTL64 v n;
|}.

Definition RC : list Z :=
  [0x0000000000000001; 0x0000000000008082; 0x800000000000808A; 0x8000000080008000;
   0x000000000000808B; 0x0000000080000001; 0x8000000080008081; 0x8000000000008009;
   0x000000000000008A; 0x0000000000000088; 0x0000000080008009; 0x000000008000000A;
   0x000000008000808B; 0x800000000000008B; 0x8000000000008089; 0x8000000000008003;
   0x8000000000008002; 0x8000000000000080; 0x000000000000800A; 0x800000008000000A;
   0x8000000080008081; 0x8000000000008080; 0x0000000080000001; 0x8000000080008008].

(** ** Keccak-f[1600] as in FIPS 202

    The state is a 5x5 array of 64-bit lanes; lane [(x, y)] is at index
    [x + 5 y] of the list. *)

Definition lane (A : list Z) (x y : nat) : Z := A !!! (x mod 5 + 5 * (y mod 5))%nat.
Definition plane (f : nat -> nat -> Z) : list Z := map (fun i => f (i mod 5) (i / 5))%nat (seq 0 25).

Definition parity (A : list Z) (x : nat) : Z :=
  lane A x 0 ⊕ lane A x 1 ⊕ lane A x 2 ⊕ lane A x 3 ⊕ lane A x 4.
Definition theta_d (A : list Z) (x : nat) : Z :=
  parity A (x + 4) ⊕ SPH_ROTL64 (parity A (x + 1)) 1.
Definition theta (A : list Z) : list Z := plane (fun x y => lane A x y ⊕ theta_d A x).

(** The rotation offsets: a walk over the lanes other than [(0, 0)]. *)
Fixpoint rho_walk (n : nat) (t : Z) (x y : nat) : list (nat * nat * Z) :=
  match n with
  | O => []
  | S n => (x, y, ((t + 1) * (t + 2) / 2) mod 64) :: rho_walk n (t + 1) y ((2 * x + 3 * y) mod 5)
  end.
Definition rho_offset (x y : nat) : Z :=
  default 0 (snd <$> List.find (fun e => (e.1.1 =? x)%nat && (e.1.2 =? y)%nat) (rho_walk 24 0 1 0)).
Definition rho (A : list Z) : list Z :=
  plane (fun x y => SPH_ROTL64 (lane A x y) (rho_offset x y)).

Definition pi (A : list Z) : list Z := plane (fun x y => lane A (x + 3 * y) x).

Definition chi (A : list Z) : list Z :=
  plane (fun x y => lane A x y ⊕ (SPH_T64 (Z.lnot (lane A (x + 1) y)) .& lane A (x + 2) y)).

(** The round constants: bits of a linear feedback shift register. *)
Definition lfsr_step (r : Z) : Z :=
  let r := 2 * r in if 256 <=? r then r ⊕ 0x171 else r.
Definition rc (t : nat) : bool := Z.odd (Nat.iter t lfsr_step 1).
Definition round_constant (i : nat) : Z :=
  foldl (fun a j => a .| (Z.b2z (rc (j + 7 * i)) << (2 ^ Z.of_nat j - 1))) 0 (seq 0 7).

Definition iota (k : Z) (A : list Z) : list Z := <[0%nat := (A !!! 0%nat) ⊕ k]> A.

Definition keccak_round (k : Z) (A : list Z) : list Z := iota k (chi (pi (rho (theta A)))).
Definition keccak_f (A : list Z) : list Z :=
  foldl (fun A i => keccak_round (round_constant i) A) A (seq 0 24).

(** The lanes that the code keeps complemented. *)
Definition masked_lanes : list nat := [1; 2; 8; 12; 17; 20]%nat.
Definition cm (m : bool) (x : Z) : Z := if m then SPH_T64 (Z.lnot x) else x.
Definition mask_at (i : nat) : bool := bool_decide (i ∈ masked_lanes).
Definition mask (A : list Z) : list Z := imap (fun i x => cm (mask_at i) x) A.

(** ** Renamed variables: lemmas *)

Section views.
Context {L : Type} `{!Inhabited L} `{!LaneOps L}.
Implicit Types (st b : list L) (p q : list nat).

Lemma length_write p b st : length (write p b st) = length st.
Proof.
  unfold write. induction (zip p b) as [|iv l IH]; simpl; [done|]. by rewrite length_insert.
Qed.

Lemma read_write p b st :
  NoDup p -> length b = length p -> Forall (fun i => i < length st)%nat p ->
  read p (write p b st) = b.
Proof.
  revert b. induction p as [|i p IH]; intros [|v b] Hnd Hl Hlt; try discriminate Hl; [done|].
  apply list.NoDup_cons in Hnd as [Hi Hnd]. apply Forall_cons_1 in Hlt as [Hlt1 Hlt].
  cbn [read map]. unfold write. cbn [zip zip_with foldr fst snd]. fold (write p b st). f_equal.
  - apply list_lookup_total_insert_eq. by rewrite length_write.
  - etransitivity; [|apply (IH b Hnd); [by injection Hl|done]].
    apply map_ext_in. intros j Hj%list_elem_of_In.
    apply list_lookup_total_insert_ne. congruence.
Qed.

Lemma read_map p q st :
  Forall (fun i => i < length p)%nat q ->
  read (map (fun i => p !!! i) q) st = read q (read p st).
Proof.
  unfold read. rewrite map_map. induction 1 as [|i q Hi Hq IH]; [done|]. cbn [map]. f_equal; [|done].
  symmetry. by apply (lookup_total_map (fun i => st !!! i)).
Qed.

(** The order in which the lists [P1], ..., [P23], [P0] name the variables of the
    list before. *)
Definition next_view : list nat := map (fun i => 5 * (i mod 5) + i / 5)%nat (P 1).

Lemma P_lists :
  Forall (fun r => NoDup (P r) /\ length (P r) = 25%nat /\ Forall (fun i => i < 25)%nat (P r) /\
    take 1 (P r) = [0%nat] /\
    P ((r + 1) mod 24) = map (fun i => P r !!! i) next_view) (seq 0 24).
Proof. apply (bool_decide_unpack _). by vm_compute. Qed.

Lemma P_list r : (r < 24)%nat ->
  NoDup (P r) /\ length (P r) = 25%nat /\ Forall (fun i => i < 25)%nat (P r) /\
  take 1 (P r) = [0%nat] /\
  P ((r + 1) mod 24) = map (fun i => P r !!! i) next_view.
Proof.
  intros Hr. pose proof P_lists as H. rewrite Forall_forall in H. apply H, in_seq. lia.
Qed.

Lemma next_view_ok : Forall (fun i => i < 25)%nat next_view /\ length next_view = 25%nat.
Proof. split; [|done]. apply (bool_decide_unpack _). by vm_compute. Qed.

(** One round, on the lanes in the order of their list. *)
Definition iota_view (k : L) b : list L :=
  match b with
  | x :: b => XOR64 x k :: b
  | [] => []
  end.
Definition round_view (k : L) b : list L :=
  iota_view k (KHI (read next_view (RHO (THETA b)))).

Ltac explode b H :=
  do 25 (destruct b as [|? b]; [discriminate H|]); destruct b; [|discriminate H].

Lemma length_THETA b : length b = 25%nat -> length (THETA b) = 25%nat.
Proof. intros H. by explode b H. Qed.
Lemma length_RHO b : length b = 25%nat -> length (RHO b) = 25%nat.
Proof. intros H. by explode b H. Qed.
Lemma length_KHI b : length b = 25%nat -> length (KHI b) = 25%nat.
Proof. intros H. by explode b H. Qed.
Lemma length_read p st : length (read p st) = length p.
Proof. apply length_map. Qed.

(** The state holds the lanes [b], in the order of the list [P r]. *)
Definition view (r : nat) b st : Prop := length st = 25%nat /\ read (P r) st = b.

Lemma in_place_view r f b st :
  (r < 24)%nat -> (forall b, length b = 25%nat -> length (f b) = 25%nat) ->
  view r b st -> view r (f b) (in_place (P r) f st).
Proof.
  intros Hr Hf [Hl <-]. destruct (P_list r Hr) as (Hnd&HlP&Hlt&_).
  unfold view, in_place. rewrite length_write. split; [done|].
  apply read_write; [done| |by rewrite Hl]. rewrite Hf; rewrite ?length_read; done.
Qed.

Lemma next_view_view r b st :
  (r < 24)%nat -> view r b st -> view ((r + 1) mod 24) (read next_view b) st.
Proof.
  intros Hr [Hl <-]. split; [done|]. destruct (P_list r Hr) as (_&HlP&_&_&->).
  apply read_map. rewrite HlP. apply next_view_ok.
Qed.

Lemma IOTA_view r k b st : (r < 24)%nat -> view r b st -> view r (iota_view k b) (IOTA k st).
Proof.
  intros Hr [Hl <-]. destruct (P_list r Hr) as (Hnd&_&_&Hhd&_).
  unfold view, IOTA. rewrite length_insert. split; [done|].
  destruct (P r) as [|i p]; [done|]. injection Hhd as ->.
  apply list.NoDup_cons in Hnd as [Hi _]. cbn [read map iota_view]. f_equal.
  - apply list_lookup_total_insert_eq. rewrite Hl. unfold a00. lia.
  - apply map_ext_in. intros j Hj%list_elem_of_In. apply list_lookup_total_insert_ne.
    unfold a00. congruence.
Qed.

Lemma KF_ELT_view r s k b st :
  (r < 24)%nat -> s = ((r + 1) mod 24)%nat ->
  view r b st -> view s (round_view k b) (KF_ELT r s k st).
Proof.
  intros Hr -> Hv. assert ((r + 1) mod 24 < 24)%nat as Hs by (apply Nat.mod_upper_bound; lia).
  unfold KF_ELT, round_view. apply IOTA_view; [done|].
  apply in_place_view; [done|apply length_KHI|]. apply next_view_view; [done|].
  apply in_place_view; [done|apply length_RHO|]. apply in_place_view; [done|apply length_THETA|done].
Qed.

(** Moving the lanes back to the variables of [P0]. *)
Ltac to_P0 st :=
  let H := fresh in intros [H <-]; explode st H; split; reflexivity.

Lemma P1_TO_P0_view b st : view 1 b st -> view 0 b (P1_TO_P0 st).
Proof. to_P0 st. Qed.
Lemma P2_TO_P0_view b st : view 2 b st -> view 0 b (P2_TO_P0 st).
Proof. to_P0 st. Qed.
Lemma P4_TO_P0_view b st : view 4 b st -> view 0 b (P4_TO_P0 st).
Proof. to_P0 st. Qed.
Lemma P6_TO_P0_view b st : view 6 b st -> view 0 b (P6_TO_P0 st).
Proof. to_P0 st. Qed.
Lemma P8_TO_P0_view b st : view 8 b st -> view 0 b (P8_TO_P0 st).
Proof. to_P0 st. Qed.
Lemma P12_TO_P0_view b st : view 12 b st -> view 0 b (P12_TO_P0 st).
Proof. to_P0 st. Qed.

(** All the unrolling settings run the 24 rounds. *)
Definition rounds_view (rc : list L) b : list L :=
  foldl (fun b i => round_view (rc !!! i) b) b (seq 0 24).

Ltac rounds_tac to_P0 :=
  cbn [foldl seq]; unfold rounds_view; cbn [foldl seq];
  repeat (first [ apply to_P0 | eapply KF_ELT_view; [lia|reflexivity|] ]); done.

Lemma KECCAK_F_1600_0_view rc b st : view 0 b st -> view 0 (rounds_view rc b) (KECCAK_F_1600_0 rc st).
Proof. intros. unfold KECCAK_F_1600_0. rounds_tac P1_TO_P0_view. Qed.
Lemma KECCAK_F_1600_1_view rc b st : view 0 b st -> view 0 (rounds_view rc b) (KECCAK_F_1600_1 rc st).
Proof. intros. unfold KECCAK_F_1600_1. rounds_tac P1_TO_P0_view. Qed.
Lemma KECCAK_F_1600_2_view rc b st : view 0 b st -> view 0 (rounds_view rc b) (KECCAK_F_1600_2 rc st).
Proof. intros. unfold KECCAK_F_1600_2. rounds_tac P2_TO_P0_view. Qed.
Lemma KECCAK_F_1600_4_view rc b st : view 0 b st -> view 0 (rounds_view rc b) (KECCAK_F_1600_4 rc st).
Proof. intros. unfold KECCAK_F_1600_4. rounds_tac P4_TO_P0_view. Qed.
Lemma KECCAK_F_1600_6_view rc b st : view 0 b st -> view 0 (rounds_view rc b) (KECCAK_F_1600_6 rc st).
Proof. intros. unfold KECCAK_F_1600_6. rounds_tac P6_TO_P0_view. Qed.
Lemma KECCAK_F_1600_8_view rc b st : view 0 b st -> view 0 (rounds_view rc b) (KECCAK_F_1600_8 rc st).
Proof. intros. unfold KECCAK_F_1600_8. rounds_tac P8_TO_P0_view. Qed.
Lemma KECCAK_F_1600_12_view rc b st : view 0 b st -> view 0 (rounds_view rc b) (KECCAK_F_1600_12 rc st).
Proof. intros. unfold KECCAK_F_1600_12. rounds_tac P12_TO_P0_view. Qed.

(** A state is determined by its lanes in the order of [P0]. *)
Lemma view_0_inj b st st' : view 0 b st -> view 0 b st' -> st = st'.
Proof.
  intros [H <-] [H' Hr]. explode st H. explode st' H'.
  unfold read in Hr. cbv [P Pmacros lookup_total list_lookup_total map a00 a01 a02 a03 a04 a10 a11
    a12 a13 a14 a20 a21 a22 a23 a24 a30 a31 a32 a33 a34 a40 a41 a42 a43 a44] in Hr.
  congruence.
Qed.
End views.

(** ** 64-bit lanes: complemented lanes *)

Abbreviation words64 := (Forall (word 64)).

Lemma cm_word m x : word 64 x -> word 64 (cm m x).
Proof. destruct m; simpl; auto with words. Qed.

Lemma cm_testbit m x i :
  0 <= i < 64 -> Z.testbit (cm m x) i = xorb m (Z.testbit x i).
Proof.
  intros Hi. destruct m; cbn [cm xorb]; [|by destruct (Z.testbit x i)].
  rewrite SPH_T64_testbit, bool_decide_true, Z.lnot_spec by lia. done.
Qed.

#[local] Hint Resolve cm_word : words.

(** Equality of 64-bit words, bit by bit, without rotations. *)
Ltac word64_bits :=
  apply (word_ext 64); [eauto 10 with words|eauto 10 with words|];
  let i := fresh "i" in let Hi := fresh "Hi" in intros i Hi;
  rewrite ?cm_testbit, ?Z.lxor_spec, ?Z.lor_spec, ?Z.land_spec, ?SPH_T64_testbit, ?Z.lnot_spec,
    ?cm_testbit, ?(bool_decide_true (i < 64)) by lia;
  cbn [xorb]; btauto.

Lemma cm_lxor m n x y : word 64 x -> word 64 y -> cm m x ⊕ cm n y = cm (xorb m n) (x ⊕ y).
Proof. intros. word64_bits. Qed.

Lemma cm_ROTL m x n : word 64 x -> 0 < n < 64 -> SPH_ROTL64 (cm m x) n = cm m (SPH_ROTL64 x n).
Proof.
  intros Hx Hn. apply (word_ext 64); [auto with words..|]. intros i Hi.
  rewrite cm_testbit, !SPH_ROTL64_testbit by (auto with words || lia).
  apply cm_testbit. by apply Z.mod_pos_bound.
Qed.

Definition xorb5 (a b c d e : bool) : bool := xorb (xorb (xorb (xorb a b) c) d) e.

Lemma TH_ELT_cm m0 m1 m2 m3 m4 n0 n1 n2 n3 n4 c0 c1 c2 c3 c4 d0 d1 d2 d3 d4 :
  word 64 c0 -> word 64 c1 -> word 64 c2 -> word 64 c3 -> word 64 c4 ->
  word 64 d0 -> word 64 d1 -> word 64 d2 -> word 64 d3 -> word 64 d4 ->
  TH_ELT (cm m0 c0) (cm m1 c1) (cm m2 c2) (cm m3 c3) (cm m4 c4)
    (cm n0 d0) (cm n1 d1) (cm n2 d2) (cm n3 d3) (cm n4 d4) =
  cm (xorb (xorb5 m0 m1 m2 m3 m4) (xorb5 n0 n1 n2 n3 n4))
    ((c0 ⊕ c1 ⊕ c2 ⊕ c3 ⊕ c4) ⊕ SPH_ROTL64 (d0 ⊕ d1 ⊕ d2 ⊕ d3 ⊕ d4) 1).
Proof.
  intros. unfold TH_ELT. cbn [XOR64 ROL64 lanes64].
  rewrite !cm_lxor, cm_ROTL by (auto with words || lia). rewrite !cm_lxor by auto with words.
  assert (d0 ⊕ d1 ⊕ d4 ⊕ (d2 ⊕ d3) = d0 ⊕ d1 ⊕ d2 ⊕ d3 ⊕ d4) as ->.
  { apply Z.bits_inj. intros i. rewrite !Z.lxor_spec. btauto. }
  generalize (SPH_ROTL64_word (d0 ⊕ d1 ⊕ d2 ⊕ d3 ⊕ d4) 1).
  generalize (SPH_ROTL64 (d0 ⊕ d1 ⊕ d2 ⊕ d3 ⊕ d4) 1). intros r Hr.
  apply (word_ext 64); [auto 10 with words..|]. intros i Hi.
  rewrite !cm_testbit, !Z.lxor_spec by lia. unfold xorb5. btauto.
Qed.

(** Masks, in the order of [P0]: of the state, after theta, and before chi. *)
Definition mask_0 : list bool := map mask_at (P 0).
Definition mask_theta : list bool :=
  let c x := xorb5 (mask_at x) (mask_at (x + 5)) (mask_at (x + 10)) (mask_at (x + 15))
               (mask_at (x + 20)) in
  map (fun i => xorb (mask_at i) (xorb (c ((i + 4) mod 5)%nat) (c ((i + 1) mod 5)%nat))) (P 0).
Definition mask_pi : list bool := map (fun i => mask_theta !!! i) next_view.

Definition masked (m : list bool) (b : list Z) : list Z := zip_with cm m b.

Ltac explode A H :=
  do 25 (destruct A as [|? A]; [discriminate H|]); destruct A; [|discriminate H].

(** A literal list of masks, computed. *)
Ltac eval_mask m :=
  let m' := eval vm_compute in m in change m with m'.

(** A literal list of lanes in another order. *)
Ltac eval_list l :=
  let l' := eval cbv [read P Pmacros next_view lookup_total list_lookup_total map seq
    a00 a01 a02 a03 a04 a10 a11 a12 a13 a14 a20 a21 a22 a23 a24 a30 a31 a32 a33 a34
    a40 a41 a42 a43 a44 Nat.modulo Nat.div Nat.divmod Nat.mul Nat.add Nat.sub fst snd
    plane lane theta rho pi chi theta_d parity] in l in
  change l with l'.

Lemma theta_step A :
  length A = 25%nat -> words64 A ->
  THETA (masked mask_0 (read (P 0) A)) = masked mask_theta (read (P 0) (theta A)).
Proof.
  intros H HA. explode A H. rewrite !list.Forall_cons in HA. destruct_and! HA.
  eval_mask mask_0. eval_mask mask_theta.
  match goal with |- context [read (P 0) (theta ?A)] => eval_list (read (P 0) (theta A)) end.
  match goal with |- context [read (P 0) ?A] => eval_list (read (P 0) A) end.
  cbv [masked zip_with]. cbv [THETA]. rewrite !TH_ELT_cm by assumption.
  cbn [XOR64 lanes64]. rewrite !cm_lxor by auto 10 with words. reflexivity.
Qed.

Lemma rho_offsets :
  map (fun i => rho_offset (i mod 5) (i / 5)) (seq 0 25) =
  [0; 1; 62; 28; 27; 36; 44; 6; 55; 20; 3; 10; 43; 25; 39; 41; 45; 15; 21; 8; 18; 2; 61; 56; 14].
Proof. by vm_compute. Qed.

Lemma rho_alt A :
  rho A = zip_with SPH_ROTL64 (map (fun i => lane A (i mod 5) (i / 5)) (seq 0 25))
            [0; 1; 62; 28; 27; 36; 44; 6; 55; 20; 3; 10; 43; 25; 39; 41; 45; 15; 21; 8; 18; 2; 61; 56; 14].
Proof.
  rewrite <- rho_offsets. unfold rho, plane. generalize (seq 0 25). intros l.
  induction l as [|i l IH]; [done|]. cbn [map zip_with]. by rewrite IH.
Qed.

Lemma SPH_ROTL64_0 x : word 64 x -> SPH_ROTL64 x 0 = x.
Proof.
  intros Hx. unfold SPH_ROTL64. rewrite Z.shiftl_0_r, Z.shiftr_div_pow2 by lia.
  change (2 ^ (64 - 0)) with (2 ^ 64). rewrite (Z.div_small x) by apply Hx.
  rewrite Z.lor_0_r. by apply SPH_T64_id.
Qed.

Lemma rho_step A :
  length A = 25%nat -> words64 A ->
  RHO (masked mask_theta (read (P 0) A)) = masked mask_theta (read (P 0) (rho A)).
Proof.
  intros H HA. rewrite rho_alt. explode A H. rewrite !list.Forall_cons in HA. destruct_and! HA.
  eval_mask mask_theta.
  match goal with |- context [zip_with SPH_ROTL64 ?l ?o] =>
    eval_list l; cbn [zip_with] end.
  rewrite SPH_ROTL64_0 by assumption.
  repeat match goal with |- context [read (P 0) ?A] => eval_list (read (P 0) A) end.
  cbv [masked zip_with]. cbv [RHO]. cbn [ROL64 lanes64].
  rewrite !cm_ROTL by (assumption || lia). reflexivity.
Qed.

Lemma pi_step A :
  length A = 25%nat ->
  read next_view (masked mask_theta (read (P 0) A)) = masked mask_pi (read (P 0) (pi A)).
Proof. intros H. explode A H. reflexivity. Qed.

Lemma chi_step A :
  length A = 25%nat -> words64 A ->
  KHI (masked mask_pi (read (P 0) A)) = masked mask_0 (read (P 0) (chi A)).
Proof.
  intros H HA. explode A H. rewrite !list.Forall_cons in HA. destruct_and! HA.
  eval_mask mask_0. eval_mask mask_pi.
  match goal with |- context [read (P 0) (chi ?A)] => eval_list (read (P 0) (chi A)) end.
  match goal with |- context [read (P 0) ?A] => eval_list (read (P 0) A) end.
  cbv [masked zip_with]. cbv [KHI KHI_XO KHI_XA]. cbn [XOR64 AND64 OR64 NOT64 lanes64].
  repeat (apply (f_equal2 cons); [word64_bits|]). done.
Qed.

(** ** The whole permutation *)

Lemma length_plane f : length (plane f) = 25%nat.
Proof. unfold plane. by rewrite length_map, length_seq. Qed.

Lemma words64_lookup A i : words64 A -> word 64 (A !!! i).
Proof.
  intros HA. rewrite list_lookup_total_alt. destruct (A !! i) eqn:E; simpl; [|by apply word_0].
  by eapply Forall_lookup_1.
Qed.

Lemma words64_plane f : (forall x y, word 64 (f x y)) -> words64 (plane f).
Proof. intros Hf. unfold plane. apply Forall_map, Forall_true. auto. Qed.

Definition keccak_ok (A : list Z) : Prop := length A = 25%nat /\ words64 A.

Lemma lane_word A x y : words64 A -> word 64 (lane A x y).
Proof. apply words64_lookup. Qed.

#[local] Hint Resolve lane_word : words.

Lemma theta_ok A : keccak_ok A -> keccak_ok (theta A).
Proof.
  intros [_ HA]. split; [apply length_plane|]. apply words64_plane. intros.
  unfold theta_d, parity. auto 10 with words.
Qed.

Lemma rho_ok A : keccak_ok (rho A).
Proof. split; [apply length_plane|]. apply words64_plane. auto with words. Qed.

Lemma pi_ok A : keccak_ok A -> keccak_ok (pi A).
Proof. intros [_ HA]. split; [apply length_plane|]. apply words64_plane. auto with words. Qed.

Lemma chi_ok A : keccak_ok A -> keccak_ok (chi A).
Proof. intros [_ HA]. split; [apply length_plane|]. apply words64_plane. auto with words. Qed.

Lemma iota_ok k A : word 64 k -> keccak_ok A -> keccak_ok (iota k A).
Proof.
  intros Hk [Hl HA]. unfold iota. split; [by rewrite length_insert|].
  apply Forall_insert; [done|]. apply word_lxor; [lia|by apply words64_lookup|done].
Qed.

Lemma keccak_round_ok k A : word 64 k -> keccak_ok A -> keccak_ok (keccak_round k A).
Proof. intros. unfold keccak_round. auto using iota_ok, chi_ok, pi_ok, rho_ok. Qed.

(** The initial and final complement, in the order of [P0]. *)
Lemma read_mask A : length A = 25%nat -> read (P 0) (mask A) = masked mask_0 (read (P 0) A).
Proof. intros H. explode A H. reflexivity. Qed.

Lemma length_mask A : length (mask A) = length A.
Proof. apply length_imap. Qed.

Lemma iota_step k A :
  length A = 25%nat ->
  iota_view k (masked mask_0 (read (P 0) A)) = masked mask_0 (read (P 0) (iota k A)).
Proof. intros H. explode A H. reflexivity. Qed.

Lemma round_step k A :
  keccak_ok A ->
  round_view k (masked mask_0 (read (P 0) A)) = masked mask_0 (read (P 0) (keccak_round k A)).
Proof.
  intros HA. pose proof (theta_ok A HA) as Ht. pose proof (rho_ok (theta A)) as Hr.
  pose proof (pi_ok _ Hr) as Hp. pose proof (chi_ok _ Hp) as Hc. unfold round_view, keccak_round.
  rewrite theta_step by apply HA. rewrite rho_step by apply Ht. rewrite pi_step by apply Hr.
  rewrite chi_step by apply Hp. apply iota_step, Hc.
Qed.

Lemma RC_spec : map round_constant (seq 0 24) = RC.
Proof. by vm_compute. Qed.

Lemma RC_words : words64 RC.
Proof. apply (bool_decide_unpack _). by vm_compute. Qed.

Lemma RC_round_constant i : (i < 24)%nat -> RC !!! i = round_constant i.
Proof.
  intros Hi. rewrite <- RC_spec, lookup_total_map by (by rewrite length_seq).
  f_equal. rewrite list_lookup_total_alt, lookup_seq_lt by done. done.
Qed.

Lemma rounds_step A l :
  Forall (fun i => i < 24)%nat l -> keccak_ok A ->
  foldl (fun b i => round_view (RC !!! i) b) (masked mask_0 (read (P 0) A)) l =
    masked mask_0 (read (P 0) (foldl (fun A i => keccak_round (round_constant i) A) A l)) /\
  keccak_ok (foldl (fun A i => keccak_round (round_constant i) A) A l).
Proof.
  intros Hl. revert A. induction Hl as [|i l Hi Hl IH]; intros A HA; [done|]. cbn [foldl].
  rewrite round_step, RC_round_constant by done.
  apply IH, keccak_round_ok; [|done]. rewrite <- RC_round_constant by done.
  apply words64_lookup, RC_words.
Qed.

Lemma seq_24 : Forall (fun i => i < 24)%nat (seq 0 24).
Proof. apply (bool_decide_unpack _). by vm_compute. Qed.

Lemma keccak_f_ok A : keccak_ok A -> keccak_ok (keccak_f A).
Proof. intros HA. apply (rounds_step A (seq 0 24) seq_24 HA). Qed.

Lemma view_mask A : length A = 25%nat -> view 0 (masked mask_0 (read (P 0) A)) (mask A).
Proof. intros H. split; [by rewrite length_mask|by apply read_mask]. Qed.

(** Any function that runs the 24 rounds is Keccak-f on complemented lanes. *)
Lemma rounds_keccak_f (F : list Z -> list Z) A :
  (forall b st, view 0 b st -> view 0 (rounds_view RC b) (F st)) ->
  keccak_ok A -> F (mask A) = mask (keccak_f A).
Proof.
  intros HF HA. pose proof (keccak_f_ok A HA) as Hf.
  eapply view_0_inj; [apply HF, view_mask, HA|].
  unfold rounds_view. rewrite (proj1 (rounds_step A (seq 0 24) seq_24 HA)). apply view_mask, Hf.
Qed.

(** ** Theorems *)

(** C40: on a state of 64-bit lanes with the six lanes complemented, the code of
    the permutation computes Keccak-f[1600] of FIPS 202 (theta, rho, pi, chi and
    iota, with the offsets and round constants of the standard), for each of the
    seven unrolling settings. *)
Theorem keccak_f_1600_spec A :
  length A = 25%nat -> words64 A ->
  KECCAK_F_1600_8 RC (mask A) = mask (keccak_f A) /\
  KECCAK_F_1600_0 RC (mask A) = mask (keccak_f A) /\
  KECCAK_F_1600_1 RC (mask A) = mask (keccak_f A) /\
  KECCAK_F_1600_2 RC (mask A) = mask (keccak_f A) /\
  KECCAK_F_1600_4 RC (mask A) = mask (keccak_f A) /\
  KECCAK_F_1600_6 RC (mask A) = mask (keccak_f A) /\
  KECCAK_F_1600_12 RC (mask A) = mask (keccak_f A).
Proof.
  intros Hl HA. split_and!; apply rounds_keccak_f; try done;
    auto using KECCAK_F_1600_0_view, KECCAK_F_1600_1_view, KECCAK_F_1600_2_view,
      KECCAK_F_1600_4_view, KECCAK_F_1600_6_view, KECCAK_F_1600_8_view, KECCAK_F_1600_12_view.
Qed.

Lemma keccak_f_1600_spec_witness :
  KECCAK_F_1600_8 RC (mask (replicate 25 1)) = mask (keccak_f (replicate 25 1)).
Proof.
  apply (keccak_f_1600_spec (replicate 25 1)); [reflexivity|].
  apply (bool_decide_unpack _). vm_compute. exact I.
Defined.
