(* ===== verification/Keccak.v ===== *)
(** * Keccak: [src/src/keccak.c], 64-bit implementation

    The sponge around the permutation of [KeccakF]: contexts, the function that
    adds data and the four closing functions, compared with the sponge
    construction with the padding [10*1] on bit strings. *)

From S2P Require Import Prelude SphTypes BlockBuffer MessageBits SphHash KeccakF.

#[local] Open Scope c_scope.

(** ** Contexts *)

(** [u.wide] and [lim] of [sph_keccak_context]. *)
Record keccak_state := KeccakState { wide : list Z; klim : Z }.

Abbreviation sph_keccak_context := (block_ctx keccak_state).

Definition all_ones : Z := 0xFFFFFFFFFFFFFFFF.

Definition keccak_init (kc : sph_keccak_context) (out_size : Z) : sph_keccak_context :=
  let w := replicate 25 0 in
  let w := <[1%nat := all_ones]> w in
  let w := <[2%nat := all_ones]> w in
  let w := <[8%nat := all_ones]> w in
  let w := <[12%nat := all_ones]> w in
  let w := <[17%nat := all_ones]> w in
  let w := <[20%nat := all_ones]> w in
  BlockCtx (buf kc) 0 (KeccakState w (200 - (out_size >> 2))).

(** ** Adding data *)

(** [for (j = 0; j < size; j += 8) kc->u.wide[j >> 3] ^= ...], for [j = 8 i]. *)
Definition INPUT_BUF (size : nat) (buf w : list Z) : list Z :=
  foldl (fun w i => <[i := (w !!! i) ⊕ sph_dec64le_aligned (drop (8 * i) buf)]> w) w
    (seq 0 ((size + 7) / 8)).

(** The macros of the same names for a state in local variables: one statement
    per word, up to the [break] for the given size. *)
Definition input_word (buf : list Z) (d : nat) (off : nat) (w : list Z) : list Z :=
  <[d := (w !!! d) ⊕ sph_dec64le_aligned (drop off buf)]> w.

Definition INPUT_BUF72 (buf w : list Z) : list Z :=
  let w := input_word buf a00 0 w in
  let w := input_word buf a10 8 w in
  let w := input_word buf a20 16 w in
  let w := input_word buf a30 24 w in
  let w := input_word buf a40 32 w in
  let w := input_word buf a01 40 w in
  let w := input_word buf a11 48 w in
  let w := input_word buf a21 56 w in
  input_word buf a31 64 w.

Definition INPUT_BUF104 (buf w : list Z) : list Z :=
  let w := input_word buf a00 0 w in
  let w := input_word buf a10 8 w in
  let w := input_word buf a20 16 w in
  let w := input_word buf a30 24 w in
  let w := input_word buf a40 32 w in
  let w := input_word buf a01 40 w in
  let w := input_word buf a11 48 w in
  let w := input_word buf a21 56 w in
  let w := input_word buf a31 64 w in
  let w := input_word buf a41 72 w in
  let w := input_word buf a02 80 w in
  let w := input_word buf a12 88 w in
  input_word buf a22 96 w.

Definition INPUT_BUF136 (buf w : list Z) : list Z :=
  let w := input_word buf a00 0 w in
  let w := input_word buf a10 8 w in
  let w := input_word buf a20 16 w in
  let w := input_word buf a30 24 w in
  let w := input_word buf a40 32 w in
  let w := input_word buf a01 40 w in
  let w := input_word buf a11 48 w in
  let w := input_word buf a21 56 w in
  let w := input_word buf a31 64 w in
  let w := input_word buf a41 72 w in
  let w := input_word buf a02 80 w in
  let w := input_word buf a12 88 w in
  let w := input_word buf a22 96 w in
  let w := input_word buf a32 104 w in
  let w := input_word buf a42 112 w in
  let w := input_word buf a03 120 w in
  input_word buf a13 128 w.

Definition INPUT_BUF144 (buf w : list Z) : list Z :=
  let w := input_word buf a00 0 w in
  let w := input_word buf a10 8 w in
  let w := input_word buf a20 16 w in
  let w := input_word buf a30 24 w in
  let w := input_word buf a40 32 w in
  let w := input_word buf a01 40 w in
  let w := input_word buf a11 48 w in
  let w := input_word buf a21 56 w in
  let w := input_word buf a31 64 w in
  let w := input_word buf a41 72 w in
  let w := input_word buf a02 80 w in
  let w := input_word buf a12 88 w in
  let w := input_word buf a22 96 w in
  let w := input_word buf a32 104 w in
  let w := input_word buf a42 112 w in
  let w := input_word buf a03 120 w in
  let w := input_word buf a13 128 w in
  input_word buf a23 136 w.

Definition INPUT_BUF_copy (lim : nat) (buf w : list Z) : list Z :=
  let w := input_word buf a00 0 w in
  let w := input_word buf a10 8 w in
  let w := input_word buf a20 16 w in
  let w := input_word buf a30 24 w in
  let w := input_word buf a40 32 w in
  let w := input_word buf a01 40 w in
  let w := input_word buf a11 48 w in
  let w := input_word buf a21 56 w in
  let w := input_word buf a31 64 w in
  if (lim =? 72)%nat then w else
  let w := input_word buf a41 72 w in
  let w := input_word buf a02 80 w in
  let w := input_word buf a12 88 w in
  let w := input_word buf a22 96 w in
  if (lim =? 104)%nat then w else
  let w := input_word buf a32 104 w in
  let w := input_word buf a42 112 w in
  let w := input_word buf a03 120 w in
  let w := input_word buf a13 128 w in
  if (lim =? 136)%nat then w else
  input_word buf a23 136 w.

(** What the loop of [keccak_core] does with a full buffer. *)
Definition keccak_block (lim : nat) (buf : list Z) (kc : keccak_state) : keccak_state :=
  KeccakState (KECCAK_F_1600_8 RC (INPUT_BUF lim buf (wide kc))) (klim kc).

Definition keccak_core (kc : sph_keccak_context) (data : list Z) (lim : nat)
    : option sph_keccak_context :=
  update lim (keccak_block lim) kc data.

(** ** Closing *)

(** [DEFCLOSE(d, lim)]; [tmp] is what the local array [u.tmp], which is not
    initialised, holds on entry. *)
Definition keccak_close (d lim : nat) (tmp : list Z) (kc : sph_keccak_context) (ub n : Z)
    : option (list Z * sph_keccak_context) :=
  let eb := (0x100 .| (ub .& 0xFF)) >> (8 - n) in
  '(tmp, j) ←
    if (ptr kc =? lim - 1)%nat then
      if n =? 7 then
        tmp ← store tmp 0 (uchar eb);
        tmp ← memset tmp 1 0 (lim - 1);
        tmp ← store tmp lim 0x80;
        Some (tmp, (1 + lim)%nat)
      else
        tmp ← store tmp 0 (uchar (eb .| 0x80));
        Some (tmp, 1%nat)
    else
      let j := (lim - ptr kc)%nat in
      tmp ← store tmp 0 (uchar eb);
      tmp ← memset tmp 1 0 (j - 2);
      tmp ← store tmp (j - 1) 0x80;
      Some (tmp, j);
  kc ← keccak_core kc (take j tmp) lim;
  let w := wide (chain kc) in
  let w := <[1%nat := SPH_T64 (Z.lnot (w !!! 1%nat))]> w in
  let w := <[2%nat := SPH_T64 (Z.lnot (w !!! 2%nat))]> w in
  let w := <[8%nat := SPH_T64 (Z.lnot (w !!! 8%nat))]> w in
  let w := <[12%nat := SPH_T64 (Z.lnot (w !!! 12%nat))]> w in
  let w := <[17%nat := SPH_T64 (Z.lnot (w !!! 17%nat))]> w in
  let w := <[20%nat := SPH_T64 (Z.lnot (w !!! 20%nat))]> w in
  tmp ← foldl (fun tmp i => tmp ← tmp; memcpy tmp (8 * i) (sph_enc64le_aligned (w !!! i)))
          (Some tmp) (seq 0 ((d + 7) / 8));
  Some (take d tmp, keccak_init kc (Z.of_nat d << 3)).

Definition keccak_close28 := keccak_close 28 144.
Definition keccak_close32 := keccak_close 32 136.
Definition keccak_close48 := keccak_close 48 104.
Definition keccak_close64 := keccak_close 64 72.

(** ** The exported functions *)

Definition sph_keccak224_init (cc : sph_keccak_context) : sph_keccak_context :=
  keccak_init cc 224.
Definition sph_keccak224 (cc : sph_keccak_context) (data : list Z) : option sph_keccak_context :=
  keccak_core cc data 144.
Definition sph_keccak224_addbits_and_close (tmp : list Z) (cc : sph_keccak_context) (ub n : Z)
    : option (list Z * sph_keccak_context) :=
  keccak_close28 tmp cc ub n.
Definition sph_keccak224_close (tmp : list Z) (cc : sph_keccak_context)
    : option (list Z * sph_keccak_context) :=
  sph_keccak224_addbits_and_close tmp cc 0 0.

Definition sph_keccak256_init (cc : sph_keccak_context) : sph_keccak_context :=
  keccak_init cc 256.
Definition sph_keccak256 (cc : sph_keccak_context) (data : list Z) : option sph_keccak_context :=
  keccak_core cc data 136.
Definition sph_keccak256_addbits_and_close (tmp : list Z) (cc : sph_keccak_context) (ub n : Z)
    : option (list Z * sph_keccak_context) :=
  keccak_close32 tmp cc ub n.
Definition sph_keccak256_close (tmp : list Z) (cc : sph_keccak_context)
    : option (list Z * sph_keccak_context) :=
  sph_keccak256_addbits_and_close tmp cc 0 0.

Definition sph_keccak384_init (cc : sph_keccak_context) : sph_keccak_context :=
  keccak_init cc 384.
Definition sph_keccak384 (cc : sph_keccak_context) (data : list Z) : option sph_keccak_context :=
  keccak_core cc data 104.
Definition sph_keccak384_addbits_and_close (tmp : list Z) (cc : sph_keccak_context) (ub n : Z)
    : option (list Z * sph_keccak_context) :=
  keccak_close48 tmp cc ub n.
Definition sph_keccak384_close (tmp : list Z) (cc : sph_keccak_context)
    : option (list Z * sph_keccak_context) :=
  sph_keccak384_addbits_and_close tmp cc 0 0.

Definition sph_keccak512_init (cc : sph_keccak_context) : sph_keccak_context :=
  keccak_init cc 512.
Definition sph_keccak512 (cc : sph_keccak_context) (data : list Z) : option sph_keccak_context :=
  keccak_core cc data 72.
Definition sph_keccak512_addbits_and_close (tmp : list Z) (cc : sph_keccak_context) (ub n : Z)
    : option (list Z * sph_keccak_context) :=
  keccak_close64 tmp cc ub n.
Definition sph_keccak512_close (tmp : list Z) (cc : sph_keccak_context)
    : option (list Z * sph_keccak_context) :=
  sph_keccak512_addbits_and_close tmp cc 0 0.

(** ** The sponge construction, on bit strings

    [r] is the rate in bytes. *)

(** Exclusive-or of a block into the first lanes of the state. *)
Definition xor_block (r : nat) (b A : list Z) : list Z :=
  imap (fun i x => if (i <? r / 8)%nat then x ⊕ load_le 8 (drop (8 * i) b) else x) A.

Definition sponge_block (r : nat) (b A : list Z) : list Z := keccak_f (xor_block r b A).

(** Padding: a 1 bit, as few 0 bits as possible, a 1 bit. *)
Definition spec_pad (r : nat) (msg : list bool) : list bool :=
  msg ++ true ::
  replicate (Z.to_nat ((- (Z.of_nat (length msg) + 2)) mod (8 * Z.of_nat r))) false ++ [true].

(** The digest of [d] bytes. *)
Definition sponge (r d : nat) (msg : list bool) : list Z :=
  let p := pack_le (spec_pad r msg) in
  take d (concat (map (store_le 8)
    (fold_blocks r (sponge_block r) (length p / r) p (replicate 25 0)))).

(** ** Absorbing: lemmas *)

Lemma cm_cm m x : word 64 x -> cm m (cm m x) = x.
Proof.
  intros Hx. apply (word_ext 64); [by apply cm_word, cm_word|done|]. intros i Hi.
  rewrite !cm_testbit by done. by destruct m, (Z.testbit x i).
Qed.

Lemma mask_mask A : words64 A -> mask (mask A) = A.
Proof.
  intros HA. apply list_eq. intros i. unfold mask. rewrite !list_lookup_imap.
  destruct (A !! i) as [x|] eqn:E; [|done]. simpl. f_equal.
  apply cm_cm. by eapply Forall_lookup_1.
Qed.

Lemma imap_words (f : nat -> Z -> Z) A :
  (forall i x, word 64 x -> word 64 (f i x)) -> words64 A -> words64 (imap f A).
Proof.
  intros Hf HA. apply Forall_lookup_2. intros i x. rewrite list_lookup_imap.
  destruct (A !! i) as [y|] eqn:E; simpl; [|done]. intros [= <-]. apply Hf.
  by eapply Forall_lookup_1.
Qed.

Lemma mask_ok A : keccak_ok A -> keccak_ok (mask A).
Proof.
  intros [Hl HA]. split; [by rewrite length_mask|]. apply imap_words; [|done].
  intros. by apply cm_word.
Qed.

Lemma load8_word b i : Forall byte b -> word 64 (load_le 8 (drop i b)).
Proof. intros. apply (load_le_word_short 8). by apply Forall_drop. Qed.

Lemma xor_block_ok r b A : Forall byte b -> keccak_ok A -> keccak_ok (xor_block r b A).
Proof.
  intros Hb [Hl HA]. split; [unfold xor_block; by rewrite length_imap|].
  apply imap_words; [|done]. intros. case_match; [|done].
  apply word_lxor; [lia|done|by apply load8_word].
Qed.

Lemma sponge_block_ok r b A : Forall byte b -> keccak_ok A -> keccak_ok (sponge_block r b A).
Proof. intros. by apply keccak_f_ok, xor_block_ok. Qed.

(** Adding the block to complemented lanes. *)
Lemma cm_lxor_r m x y : word 64 x -> word 64 y -> cm m x ⊕ y = cm m (x ⊕ y).
Proof.
  intros. change y with (cm false y) at 1. rewrite cm_lxor by done. by rewrite xorb_false_r.
Qed.

Lemma INPUT_BUF_mask r b A :
  (r mod 8 = 0)%nat -> Forall byte b -> keccak_ok A ->
  INPUT_BUF r b (mask A) = mask (xor_block r b A).
Proof.
  intros Hr Hb [_ HA]. unfold INPUT_BUF, sph_dec64le_aligned.
  rewrite (foldl_insert_imap (fun i x => x ⊕ load_le 8 (drop (8 * i) b))).
  replace ((r + 7) / 8)%nat with (r / 8)%nat.
  2: { apply Nat.Div0.mod_divides in Hr as [k ->]. rewrite Nat.mul_comm, Nat.div_mul by lia.
       rewrite Nat.div_add_l by lia. simpl. lia. }
  unfold mask, xor_block. apply list_eq. intros i. rewrite !list_lookup_imap.
  destruct (A !! i) as [x|] eqn:E; [|done]. simpl. case_match; [|done]. f_equal.
  apply cm_lxor_r; [by eapply Forall_lookup_1|by apply load8_word].
Qed.

Definition state_ok (st : keccak_state) : Prop := keccak_ok (wide st).

(** One block, on the complemented state. *)
Definition masked_block (r : nat) (b : list Z) (st : keccak_state) : keccak_state :=
  KeccakState (mask (sponge_block r b (mask (wide st)))) (klim st).

Lemma keccak_block_spec r b st :
  (r mod 8 = 0)%nat -> Forall byte b -> state_ok st -> keccak_block r b st = masked_block r b st.
Proof.
  intros Hr Hb Hst. unfold keccak_block, masked_block. f_equal.
  rewrite <- (mask_mask (wide st)) at 1 by apply Hst.
  rewrite INPUT_BUF_mask by (done || by apply mask_ok).
  apply rounds_keccak_f; [apply KECCAK_F_1600_8_view|].
  apply xor_block_ok; [done|by apply mask_ok].
Qed.

Lemma masked_block_ok r b st :
  Forall byte b -> state_ok st -> state_ok (masked_block r b st).
Proof. intros. by apply mask_ok, sponge_block_ok, mask_ok. Qed.

Lemma fold_masked_blocks r n m A l :
  Forall byte m -> keccak_ok A ->
  fold_blocks r (masked_block r) n m (KeccakState (mask A) l) =
  KeccakState (mask (fold_blocks r (sponge_block r) n m A)) l.
Proof.
  revert m A. induction n as [|n IH]; intros m A Hm HA; [done|]. cbn [fold_blocks].
  unfold masked_block at 2. cbn [wide klim]. rewrite mask_mask by apply HA.
  apply IH; [by apply Forall_drop|]. apply sponge_block_ok; [by apply Forall_take|done].
Qed.

Lemma load_le_drop_take n k i b :
  (i + n <= k)%nat -> load_le n (drop i (take k b)) = load_le n (drop i b).
Proof. intros H. rewrite skipn_firstn_comm. apply load_le_take. lia. Qed.

Lemma xor_block_take r b A : (r mod 8 = 0)%nat -> xor_block r (take r b) A = xor_block r b A.
Proof.
  intros Hr. unfold xor_block. apply list_eq. intros i. rewrite !list_lookup_imap.
  destruct (A !! i); [|done]. cbn [fmap option_fmap option_map].
  destruct (Nat.ltb_spec i (r / 8)); [|done]. rewrite load_le_drop_take; [done|].
  apply Nat.Div0.mod_divides in Hr as [k ->]. rewrite Nat.mul_comm, Nat.div_mul in * by lia. lia.
Qed.

Lemma masked_block_take r b st :
  (r mod 8 = 0)%nat -> masked_block r (take r b) st = masked_block r b st.
Proof. intros Hr. unfold masked_block, sponge_block. by rewrite xor_block_take. Qed.

(** ** Padding: lemmas *)

(** The last byte of the message: the extra bits and a 1 bit. *)
Definition eb_byte (ub n : Z) : Z := uchar ((0x100 .| (ub .& 0xFF)) >> (8 - n)).

Lemma eb_cases n (P : Z -> Prop) :
  0 <= n < 8 -> P 0 -> P 1 -> P 2 -> P 3 -> P 4 -> P 5 -> P 6 -> P 7 -> P n.
Proof.
  intros Hn. intros.
  assert (n = 0 \/ n = 1 \/ n = 2 \/ n = 3 \/ n = 4 \/ n = 5 \/ n = 6 \/ n = 7) as Hc by lia.
  by destruct_or! Hc; subst.
Qed.

Lemma eb_byte_testbit ub n i :
  0 <= n < 8 -> 0 <= i < 8 ->
  Z.testbit (eb_byte ub n) i =
  if decide (i < n) then Z.testbit ub (i + 8 - n) else bool_decide (i = n).
Proof.
  intros Hn Hi. unfold eb_byte. rewrite uchar_mod, Z.mod_pow2_bits_low by lia.
  rewrite Z.shiftr_spec, Z.lor_spec, Z.land_spec by lia.
  change 255 with (Z.ones 8). change 256 with (2 ^ 8).
  rewrite Z.testbit_ones_nonneg by lia. rewrite Z.pow2_bits_eqb by lia.
  replace (i + (8 - n)) with (i + 8 - n) by lia.
  case_decide.
  - rewrite (proj2 (Z.ltb_lt _ _)), (proj2 (Z.eqb_neq _ _)) by lia. by rewrite andb_true_r.
  - rewrite (proj2 (Z.ltb_ge (i + 8 - n) _)), andb_false_r, orb_false_r by lia.
    case_bool_decide; [by apply Z.eqb_eq; lia|by apply Z.eqb_neq; lia].
Qed.

Lemma eb_byte_bits ub n :
  0 <= n < 8 ->
  le_byte_bits (eb_byte ub n) =
  rev (take (Z.to_nat n) (byte_bits ub)) ++ true :: replicate (Z.to_nat (7 - n)) false.
Proof.
  intros Hn. unfold le_byte_bits, byte_bits. cbn [be_bits rev app Z.of_nat Pos.of_succ_nat Pos.succ].
  rewrite !eb_byte_testbit by lia. revert Hn. intros Hn. pattern n.
  apply eb_cases; [done|reflexivity..].
Qed.

Lemma eb_byte_or_bits ub n :
  0 <= n < 7 ->
  le_byte_bits (uchar (((0x100 .| (ub .& 0xFF)) >> (8 - n)) .| 0x80)) =
  rev (take (Z.to_nat n) (byte_bits ub)) ++ true :: replicate (Z.to_nat (6 - n)) false ++ [true].
Proof.
  intros Hn.
  assert (uchar (((0x100 .| (ub .& 0xFF)) >> (8 - n)) .| 0x80) = eb_byte ub n .| 0x80) as ->.
  { unfold eb_byte, uchar. by rewrite Z.land_lor_distr_l. }
  unfold le_byte_bits, byte_bits. cbn [be_bits rev app Z.of_nat Pos.of_succ_nat Pos.succ].
  rewrite !Z.lor_spec, !eb_byte_testbit by lia.
  assert (n = 0 \/ n = 1 \/ n = 2 \/ n = 3 \/ n = 4 \/ n = 5 \/ n = 6) as Hc by lia. clear Hn.
  destruct_or! Hc; subst; simpl; rewrite ?orb_false_r; reflexivity.
Qed.

(** The bytes that the closing function adds. *)
Definition pad_bytes (r p : nat) (ub n : Z) : list Z :=
  if (p =? r - 1)%nat then
    if n =? 7 then eb_byte ub n :: replicate (r - 1) 0 ++ [0x80]
    else [uchar (((0x100 .| (ub .& 0xFF)) >> (8 - n)) .| 0x80)]
  else eb_byte ub n :: replicate (r - p - 2) 0 ++ [0x80].

Lemma length_keccak_pad r p ub n :
  (p < r)%nat ->
  (p + length (pad_bytes r p ub n) = (if (p =? r - 1)%nat && (n =? 7)%Z then 2 else 1) * r)%nat.
Proof.
  intros Hp. unfold pad_bytes. destruct (Nat.eqb_spec p (r - 1)), (Z.eqb_spec n 7); simpl;
    rewrite ?length_app, ?length_replicate; simpl; lia.
Qed.

Lemma Forall_pad_bytes r p ub n : Forall byte (pad_bytes r p ub n).
Proof.
  assert (forall k, Forall byte (replicate k 0 ++ [0x80])).
  { intros. apply Forall_app_2; [by apply Forall_replicate|by apply Forall_cons_2]. }
  unfold pad_bytes, eb_byte. repeat case_match; repeat (apply Forall_cons_2; auto with words).
Qed.

Lemma zeros_0x80_bits k : le_bytes_bits (replicate k 0 ++ [0x80]) = replicate (8 * k + 7) false ++ [true].
Proof.
  rewrite le_bytes_bits_app, le_bytes_bits_zeros.
  change (le_bytes_bits [0x80]) with (replicate 7 false ++ [true]).
  by rewrite app_assoc, <- replicate_add.
Qed.

(** The code's padding is the padding of the specification. *)
Lemma keccak_pad_bytes r m ub n :
  (0 < r)%nat -> Forall byte m -> 0 <= n < 8 ->
  pack_le (spec_pad r (message_le m ub n)) = m ++ pad_bytes r (length m mod r) ub n.
Proof.
  intros Hr Hm Hn.
  rewrite <- (pack_le_bytes_bits (m ++ _)) by (apply Forall_app_2; [done|apply Forall_pad_bytes]).
  f_equal. unfold spec_pad. rewrite length_message_le by done.
  rewrite le_bytes_bits_app. unfold message_le. rewrite <- !app_assoc. f_equal.
  pose proof (Nat.div_mod (length m) r ltac:(lia)) as Hdm.
  pose proof (Nat.mod_upper_bound (length m) r ltac:(lia)) as Hp.
  set (p := (length m mod r)%nat) in *.
  set (q := (length m / r)%nat) in *. clearbody p q.
  assert (forall z, 0 <= z < 8 * Z.of_nat r -> (exists k, 8 * Z.of_nat p + n + 2 + z = k * (8 * Z.of_nat r)) ->
    (- (8 * Z.of_nat (length m) + n + 2)) mod (8 * Z.of_nat r) = z) as Hz.
  { intros z Hz [k Hk]. symmetry. apply Z.mod_unique with (- Z.of_nat q - k); [lia|]. nia. }
  unfold pad_bytes. destruct (Nat.eqb_spec p (r - 1)) as [->|Hne].
  - destruct (Z.eqb_spec n 7) as [->|Hn7].
    + rewrite le_bytes_bits_cons, eb_byte_bits, zeros_0x80_bits by done.
      rewrite <- app_assoc. f_equal. cbn [app]. f_equal. change (Z.to_nat (7 - 7)) with 0%nat.
      cbn [replicate app]. f_equal. f_equal.
      rewrite (Hz (8 * Z.of_nat r - 1)); [lia|lia|]. exists 2. lia.
    + unfold le_bytes_bits. cbn [map concat]. rewrite app_nil_r, eb_byte_or_bits by lia.
      f_equal. f_equal. f_equal. f_equal. rewrite (Hz (6 - n)); [lia|lia|]. exists 1. lia.
  - rewrite le_bytes_bits_cons, eb_byte_bits, zeros_0x80_bits by done.
    rewrite <- app_assoc. f_equal. cbn [app]. f_equal. rewrite app_assoc, <- replicate_add.
    f_equal. f_equal. rewrite (Hz (8 * Z.of_nat (r - p - 2) + 14 - n)); [lia|lia|]. exists 1. lia.
Qed.

(** ** Closing: lemmas *)

(** The end of the closing functions: complement six lanes and write the words. *)
Definition unmask (w : list Z) : list Z :=
  let w := <[1%nat := SPH_T64 (Z.lnot (w !!! 1%nat))]> w in
  let w := <[2%nat := SPH_T64 (Z.lnot (w !!! 2%nat))]> w in
  let w := <[8%nat := SPH_T64 (Z.lnot (w !!! 8%nat))]> w in
  let w := <[12%nat := SPH_T64 (Z.lnot (w !!! 12%nat))]> w in
  let w := <[17%nat := SPH_T64 (Z.lnot (w !!! 17%nat))]> w in
  <[20%nat := SPH_T64 (Z.lnot (w !!! 20%nat))]> w.

Lemma unmask_mask w : length w = 25%nat -> unmask w = mask w.
Proof.
  intros H. do 25 (destruct w as [|? w]; [discriminate H|]). destruct w; [|discriminate H].
  reflexivity.
Qed.

(** The bytes that the closing function prepares in [u.tmp]. *)
Definition close_tmp (r : nat) (tmp : list Z) (p : nat) (ub n : Z) : option (list Z * nat) :=
  let eb := (0x100 .| (ub .& 0xFF)) >> (8 - n) in
  if (p =? r - 1)%nat then
    if n =? 7 then
      tmp ← store tmp 0 (uchar eb);
      tmp ← memset tmp 1 0 (r - 1);
      tmp ← store tmp r 0x80;
      Some (tmp, (1 + r)%nat)
    else
      tmp ← store tmp 0 (uchar (eb .| 0x80));
      Some (tmp, 1%nat)
  else
    let j := (r - p)%nat in
    tmp ← store tmp 0 (uchar eb);
    tmp ← memset tmp 1 0 (j - 2);
    tmp ← store tmp (j - 1) 0x80;
    Some (tmp, j).

Lemma keccak_close_alt d r tmp kc ub n :
  keccak_close d r tmp kc ub n =
  '(tmp, j) ← close_tmp r tmp (ptr kc) ub n;
  kc ← keccak_core kc (take j tmp) r;
  tmp ← foldl (fun t i => t ← t; memcpy t (8 * i) (sph_enc64le_aligned (unmask (wide (chain kc)) !!! i)))
          (Some tmp) (seq 0 ((d + 7) / 8));
  Some (take d tmp, keccak_init kc (Z.of_nat d << 3)).
Proof. reflexivity. Qed.

(** A byte, zeros and the byte 0x80 at the start of an array. *)
Lemma fill_pad tmp x k :
  (k + 2 <= length tmp)%nat ->
  (tmp ← store tmp 0 x; tmp ← memset tmp 1 0 k; store tmp (k + 1) 0x80) =
  Some (x :: replicate k 0 ++ 0x80 :: drop (k + 2) tmp).
Proof.
  intros Hk. destruct tmp as [|y tmp]; simpl in Hk; [lia|].
  unfold store, memset. change (y :: tmp) with ([] ++ [y] ++ tmp) at 1.
  rewrite memcpy_app by done. cbn [mbind option_bind app].
  rewrite <- (take_drop k tmp). change (x :: take k tmp ++ drop k tmp) with ([x] ++ take k tmp ++ drop k tmp).
  rewrite memcpy_app by (rewrite ?length_replicate, ?length_take; simpl; lia).
  cbn [mbind option_bind].
  destruct (drop k tmp) as [|z r] eqn:E.
  { apply (f_equal length) in E. rewrite length_drop in E. simpl in E. lia. }
  change (z :: r) with ([z] ++ r). rewrite app_assoc.
  rewrite memcpy_app by (rewrite ?length_app, ?length_replicate; simpl; lia).
  f_equal. cbn [app]. f_equal. f_equal. f_equal.
  replace (k + 2)%nat with (S (k + 1)) by lia. cbn [drop]. rewrite <- E, take_drop, <- drop_drop, E. done.
Qed.

Lemma close_tmp_spec r tmp p ub n :
  (2 <= r)%nat -> (p < r)%nat -> length tmp = (r + 1)%nat ->
  exists tmp' j, close_tmp r tmp p ub n = Some (tmp', j) /\ length tmp' = (r + 1)%nat /\
    take j tmp' = pad_bytes r p ub n.
Proof.
  intros Hr Hp Ht. unfold close_tmp, pad_bytes, eb_byte. cbv zeta.
  set (x := uchar (_ >> _)).
  assert (forall k j, (k + 2 <= r + 1)%nat -> j = (k + 2)%nat -> exists tmp',
    (tmp ← store tmp 0 x; tmp ← memset tmp 1 0 k; store tmp (k + 1) 0x80) = Some tmp' /\
    length tmp' = (r + 1)%nat /\ take j tmp' = x :: replicate k 0 ++ [0x80]) as Hfill.
  { intros k j Hk ->. exists (x :: replicate k 0 ++ 0x80 :: drop (k + 2) tmp).
    rewrite fill_pad by lia. split_and!; [done| |].
    - simpl. rewrite length_app, length_replicate. simpl. rewrite length_drop. lia.
    - replace (k + 2)%nat with (S (k + 1)) by lia. cbn [take]. f_equal.
      rewrite take_app_add' by (by rewrite length_replicate). done. }
  destruct (Nat.eqb_spec p (r - 1)); [destruct (Z.eqb_spec n 7)|].
  - destruct (Hfill (r - 1)%nat (1 + r)%nat) as (tmp'&E&Hl&Htk); [lia|lia|].
    exists tmp', (1 + r)%nat. split; [|done].
    apply bind_Some_inv in E as (t1&->&E). cbn [mbind option_bind].
    apply bind_Some_inv in E as (t2&->&E). cbn [mbind option_bind].
    replace (r - 1 + 1)%nat with r in E by lia. by rewrite E.
  - destruct tmp as [|y tmp]; [simpl in Ht; lia|].
    set (z := uchar (_ .| 0x80)). exists (z :: tmp), 1%nat. split_and!; [|exact Ht|done].
    unfold store. change (y :: tmp) with ([] ++ [y] ++ tmp). by rewrite memcpy_app.
  - destruct (Hfill (r - p - 2)%nat (r - p)%nat) as (tmp'&E&Hl&Htk); [lia|lia|].
    exists tmp', (r - p)%nat. split; [|done].
    apply bind_Some_inv in E as (t1&->&E). cbn [mbind option_bind].
    apply bind_Some_inv in E as (t2&->&E). cbn [mbind option_bind].
    replace (r - p - 2 + 1)%nat with (r - p - 1)%nat in E by lia. by rewrite E.
Qed.

(** The sizes that occur: digest length and rate, in bytes. *)
Inductive keccak_size := K224 | K256 | K384 | K512.
Definition size_bits (v : keccak_size) : nat :=
  match v with K224 => 224 | K256 => 256 | K384 => 384 | K512 => 512 end.
Definition size_bytes (v : keccak_size) : nat := size_bits v / 8.
Definition rate (v : keccak_size) : nat := 200 - 2 * size_bytes v.

Lemma rate_ok v : (2 <= rate v <= 144 /\ rate v mod 8 = 0 /\ 8 * ((size_bytes v + 7) / 8) <= rate v + 1 /\
  (size_bytes v + 7) / 8 <= 25 /\ size_bytes v <= 8 * ((size_bytes v + 7) / 8))%nat.
Proof. destruct v; vm_compute; repeat split; lia. Qed.

Definition ctx_bytes (c : sph_keccak_context) : Prop :=
  length (buf c) = 144%nat /\ Forall byte (buf c).

Definition init_state (v : keccak_size) : keccak_state :=
  KeccakState (mask (replicate 25 0)) (Z.of_nat (rate v)).

Lemma keccak_init_spec v c : keccak_init c (Z.of_nat (size_bits v)) = BlockCtx (buf c) 0 (init_state v).
Proof. by destruct v. Qed.

Lemma keccak_core_update v c data :
  ctx_bytes c -> Forall byte data -> state_ok (chain c) ->
  keccak_core c data (rate v) = update (rate v) (masked_block (rate v)) c data.
Proof.
  intros [_ Hb] Hd Hst. destruct (rate_ok v) as (_&Hr&_).
  apply (update_ext _ _ _ byte state_ok); [| |done..].
  - intros b st. by apply keccak_block_spec.
  - intros b st. apply masked_block_ok.
Qed.

(** ** The four sizes *)

Definition keccak_ops (tmp : list Z) (v : keccak_size) : SphHash sph_keccak_context :=
  match v with
  | K224 => {| sph_init := sph_keccak224_init; sph_update := sph_keccak224;
               sph_addbits_and_close := sph_keccak224_addbits_and_close tmp |}
  | K256 => {| sph_init := sph_keccak256_init; sph_update := sph_keccak256;
               sph_addbits_and_close := sph_keccak256_addbits_and_close tmp |}
  | K384 => {| sph_init := sph_keccak384_init; sph_update := sph_keccak384;
               sph_addbits_and_close := sph_keccak384_addbits_and_close tmp |}
  | K512 => {| sph_init := sph_keccak512_init; sph_update := sph_keccak512;
               sph_addbits_and_close := sph_keccak512_addbits_and_close tmp |}
  end.

(** The Keccak digest of a bit string. *)
Definition keccak (v : keccak_size) (msg : list bool) : list Z := sponge (rate v) (size_bytes v) msg.

Lemma keccak_ops_init tmp v c :
  @sph_init _ (keccak_ops tmp v) c = BlockCtx (buf c) 0 (init_state v).
Proof. rewrite <- keccak_init_spec. by destruct v. Qed.

Lemma keccak_ops_update tmp v c data :
  @sph_update _ (keccak_ops tmp v) c data = keccak_core c data (rate v).
Proof. by destruct v. Qed.

Lemma keccak_ops_close tmp v c ub n :
  @sph_addbits_and_close _ (keccak_ops tmp v) c ub n =
  keccak_close (size_bytes v) (rate v) tmp c ub n.
Proof. by destruct v. Qed.

Lemma init_state_ok v : state_ok (init_state v).
Proof. apply mask_ok. split; [done|]. by apply Forall_replicate. Qed.

(** The invariant of the contexts during a computation. *)
Definition ctx_inv (v : keccak_size) (c : sph_keccak_context) : Prop :=
  ctx_ok (rate v) c /\ ctx_bytes c /\ state_ok (chain c).

Lemma update_ctx_inv v c data c' :
  Forall byte data -> ctx_inv v c ->
  update (rate v) (masked_block (rate v)) c data = Some c' -> ctx_inv v c'.
Proof.
  intros Hd (Hok&[Hl Hb]&Hst) Hu. destruct (rate_ok v) as (Hr2&Hr&_).
  destruct (update_absorb (rate v) (masked_block (rate v)) ltac:(lia)
    (fun b st => masked_block_take _ b st Hr) c data Hok) as (c1&H1&Hok1&Hl1&_).
  assert (c1 = c') as -> by congruence.
  destruct (update_Forall (rate v) (masked_block (rate v)) byte state_ok
    (fun b st Hb => masked_block_ok (rate v) b st Hb) c data c' Hb Hd Hst Hu) as [??].
  split_and!; [done| |done]. split; [by rewrite Hl1|done].
Qed.

(** The calls that add data, and the state and pending bytes they leave. *)
Lemma keccak_updates tmp v c chunks :
  ctx_inv v c -> Forall (Forall byte) chunks ->
  exists c', @sph_updates _ (keccak_ops tmp v) c chunks = Some c' /\ ctx_inv v c' /\
    (chain c', pending c') =
      absorb (rate v) (masked_block (rate v)) (chain c) (pending c ++ concat chunks).
Proof.
  intros Hc Hch. destruct (rate_ok v) as (Hr2&Hr&_).
  assert (forall b st, masked_block (rate v) (take (rate v) b) st = masked_block (rate v) b st)
    as Htk by (intros; by apply masked_block_take).
  unfold sph_updates. revert c Hc. induction Hch as [|d chunks Hd Hch IH]; intros c Hc.
  - exists c. cbn [foldl concat]. rewrite app_nil_r. split_and!; [done|done|].
    destruct Hc as (Hok&_). rewrite absorb_short; [done|].
    rewrite (length_pending (rate v)) by (done || lia). apply Hok.
  - cbn [foldl mbind option_bind concat]. rewrite keccak_ops_update.
    rewrite keccak_core_update by (done || apply Hc).
    destruct (update_absorb (rate v) (masked_block (rate v)) ltac:(lia) Htk c d (proj1 Hc))
      as (c1&H1&_&_&Habs).
    rewrite H1. destruct (IH c1) as (c2&H2&Hc2&Habs2); [by eapply update_ctx_inv|].
    exists c2. split_and!; [done|done|].
    rewrite app_assoc, absorb_app, <- Habs by lia. exact Habs2.
Qed.

Lemma enc_words v tmp w :
  length tmp = (rate v + 1)%nat -> length w = 25%nat ->
  exists tmp', foldl (fun t i => t ← t; memcpy t (8 * i) (sph_enc64le_aligned (w !!! i)))
      (Some tmp) (seq 0 ((size_bytes v + 7) / 8)) = Some tmp' /\
    take (size_bytes v) tmp' = take (size_bytes v) (concat (map (store_le 8) w)).
Proof.
  intros Ht Hw. destruct (rate_ok v) as (_&_&Hd8&Hd25&Hd).
  rewrite (memcpy_words (fun i => sph_enc64le_aligned (w !!! i)) 8)
    by (try lia; intros; apply length_store_le).
  eexists. split; [done|]. set (k := ((size_bytes v + 7) / 8)%nat) in *.
  unfold sph_enc64le_aligned. rewrite (map_lookup_seq (store_le 8)) by lia.
  rewrite take_app_le, <- (take_concat_map _ 8) by (try (intros; apply length_store_le);
    rewrite (length_concat_map _ 8), length_take by (intros; apply length_store_le); lia).
  by rewrite take_take, Nat.min_l by lia.
Qed.

(** Closing after the message [m]. *)
Lemma keccak_close_spec v tmp c ub n m l :
  ctx_inv v c -> length tmp = (rate v + 1)%nat -> Forall byte m -> 0 <= n < 8 ->
  (chain c, pending c) =
    absorb (rate v) (masked_block (rate v)) (KeccakState (mask (replicate 25 0)) l) m ->
  exists c', keccak_close (size_bytes v) (rate v) tmp c ub n =
    Some (keccak v (message_le m ub n), keccak_init c' (Z.of_nat (size_bits v))) /\ ctx_bytes c'.
Proof.
  intros Hc Ht Hm Hn Habs. destruct (rate_ok v) as (Hr2&Hr&_).
  assert (forall b st, masked_block (rate v) (take (rate v) b) st = masked_block (rate v) b st)
    as Htk by (intros; by apply masked_block_take).
  assert (ptr c = length m mod rate v)%nat as Hp.
  { rewrite <- (length_pending (rate v) ltac:(lia) c (proj1 Hc)).
    change (pending c) with (chain c, pending c).2. rewrite Habs. apply absorb_rest_length. lia. }
  rewrite keccak_close_alt.
  destruct (close_tmp_spec (rate v) tmp (ptr c) ub n) as (tmp'&j&->&Ht'&Hj);
    [lia|apply Hc|done|]. cbn [mbind option_bind]. rewrite Hj.
  rewrite keccak_core_update by (apply Hc || apply Forall_pad_bytes).
  destruct (update_absorb (rate v) (masked_block (rate v)) ltac:(lia) Htk c
    (pad_bytes (rate v) (ptr c) ub n) (proj1 Hc)) as (c1&H1&_&_&Habs1).
  rewrite H1. cbn [mbind option_bind].
  apply update_ctx_inv in H1 as Hc1; [|apply Forall_pad_bytes|done].
  pose proof (absorb_app (rate v) (masked_block (rate v)) ltac:(lia)
    (KeccakState (mask (replicate 25 0)) l) m (pad_bytes (rate v) (ptr c) ub n)) as Happ.
  rewrite <- Habs, <- Habs1 in Happ. rewrite Hp, <- keccak_pad_bytes in Happ by (done || lia).
  set (p := pack_le (spec_pad (rate v) (message_le m ub n))) in *.
  assert (length p = (length p / rate v) * rate v)%nat as Hpl.
  { pose proof (length_keccak_pad (rate v) (length m mod rate v) ub n
      ltac:(apply Nat.mod_upper_bound; lia)) as Hpad.
    unfold p. rewrite keccak_pad_bytes, length_app by (done || lia).
    pose proof (Nat.div_mod (length m) (rate v)). set (k := (if (_ =? _)%nat && (n =? 7)%Z then 2 else 1)%nat) in Hpad.
    replace (length m + length (pad_bytes (rate v) (length m mod rate v) ub n))%nat
      with ((length m / rate v + k) * rate v)%nat by lia. rewrite Nat.div_mul by lia. done. }
  assert (Forall byte p) as Hpb.
  { unfold p. rewrite keccak_pad_bytes by (done || lia).
    apply Forall_app_2; [done|apply Forall_pad_bytes]. }
  rewrite (absorb_whole (rate v) _ ltac:(lia) _ p (length p / rate v) Hpl) in Happ.
  assert (keccak_ok (replicate 25 0)) as H0 by (split; [done|by apply Forall_replicate]).
  rewrite fold_masked_blocks in Happ by done. injection Happ as Hch _. rewrite <- Hch. cbn [wide].
  set (A := fold_blocks _ _ _ p _).
  assert (keccak_ok A) as HA.
  { apply (fold_blocks_inv_Forall _ _ byte keccak_ok); [|done..]. intros. by apply sponge_block_ok. }
  rewrite unmask_mask, mask_mask by (apply HA || by rewrite length_mask; apply HA).
  destruct (enc_words v tmp' A Ht' (proj1 HA)) as (tmp''&->&Htk'). cbn [mbind option_bind].
  rewrite Htk'.
  exists c1. split; [|apply Hc1]. unfold keccak, sponge. fold p A. by destruct v.
Qed.

Lemma keccak_stream tmp v c chunks ub n :
  ctx_bytes c -> length tmp = (rate v + 1)%nat -> 0 <= n < 8 -> Forall (Forall byte) chunks ->
  exists c1 c2, @sph_updates _ (keccak_ops tmp v) (@sph_init _ (keccak_ops tmp v) c) chunks = Some c1 /\
    @sph_addbits_and_close _ (keccak_ops tmp v) c1 ub n =
      Some (keccak v (message_le (concat chunks) ub n), c2) /\
    c2 ≡ @sph_init _ (keccak_ops tmp v) c /\ ctx_bytes c2.
Proof.
  intros Hc Ht Hn Hch. destruct (rate_ok v) as (Hr2&_). rewrite keccak_ops_init.
  set (c0 := BlockCtx (buf c) 0 (init_state v)).
  assert (ctx_inv v c0) as H0.
  { split_and!; [|done|apply init_state_ok]. unfold ctx_ok. simpl. destruct Hc as [-> _]. lia. }
  destruct (keccak_updates tmp v c0 chunks H0 Hch) as (c1&Hup&Hc1&Habs).
  change (pending c0 ++ concat chunks) with (concat chunks) in Habs.
  destruct (keccak_close_spec v tmp c1 ub n (concat chunks) (Z.of_nat (rate v)) Hc1 Ht) as (c2&Hcl&Hc2);
    [by apply Forall_concat|done|exact Habs|].
  rewrite keccak_init_spec in Hcl.
  exists c1, (BlockCtx (buf c2) 0 (init_state v)). split_and!; [done|by rewrite keccak_ops_close| |done].
  unfold equiv, block_ctx_equiv. cbn [chain ptr buf c0].
  destruct Hc as [-> _], Hc2 as [-> _]. done.
Qed.

Lemma keccak_ok_digest v msg :
  length (keccak v msg) = size_bytes v /\ Forall byte (keccak v msg).
Proof.
  unfold keccak, sponge. cbv zeta. set (A := fold_blocks _ _ _ _ _). split.
  - assert (length A = 25%nat) as HA.
    { apply (fold_blocks_inv _ _ (fun A => length A = 25%nat)); [|done]. intros b st _.
      unfold sponge_block, keccak_f. generalize (xor_block (rate v) b st). intros A'.
      change (seq 0 24) with (seq 0 23 ++ [23%nat]). rewrite foldl_app. cbn [foldl].
      unfold keccak_round at 1, iota. rewrite length_insert. apply length_plane. }
    rewrite length_take, (length_concat_map _ 8), HA by apply length_store_le. by destruct v.
  - apply Forall_take, Forall_concat_map. apply store_le_bytes.
Qed.

Definition keccak_hash_spec (tmp : list Z) (v : keccak_size) (Ht : length tmp = (rate v + 1)%nat)
    : @SphHashSpec _ (keccak_ops tmp v) _ :=
  @Build_SphHashSpec _ (keccak_ops tmp v) _ ctx_bytes (size_bytes v)
    (fun m ub n => keccak v (message_le m ub n))
    (fun m ub n _ => keccak_ok_digest v (message_le m ub n))
    (fun c chunks ub n Hc Hch Hn => keccak_stream tmp v c chunks ub n Hc Ht Hn Hch).

(** ** Theorems *)

(** for every size, every previous contents of the context and of the local
    array of the closing function, and every way of cutting the message into
    calls, [init], the calls that add data and [addbits_and_close] stay inside
    their arrays and return the digest of the sponge construction over
    Keccak-f[1600] with the padding [10*1] on the bit string, and leave the
    context as [init] does. *)
Theorem keccak_streaming tmp v c chunks ub n :
  length (buf c) = 144%nat -> Forall byte (buf c) -> length tmp = (rate v + 1)%nat ->
  0 <= n < 8 -> Forall (Forall byte) chunks ->
  exists c1 c2, @sph_updates _ (keccak_ops tmp v) (@sph_init _ (keccak_ops tmp v) c) chunks = Some c1 /\
    @sph_addbits_and_close _ (keccak_ops tmp v) c1 ub n =
      Some (keccak v (message_le (concat chunks) ub n), c2) /\
    c2 ≡ @sph_init _ (keccak_ops tmp v) c.
Proof.
  intros Hl Hb Ht Hn Hch.
  destruct (keccak_stream tmp v c chunks ub n (conj Hl Hb) Ht Hn Hch) as (c1&c2&?&?&?&_). eauto 10.
Qed.

Lemma keccak_streaming_witness :
  exists c1 c2,
    @sph_updates _ (keccak_ops (replicate 73 9) K512)
      (@sph_init _ (keccak_ops (replicate 73 9) K512)
         (BlockCtx (replicate 144 255) 5 (KeccakState [] 7))) [[104; 101]; [108; 108; 111]]
      = Some c1 /\
    @sph_addbits_and_close _ (keccak_ops (replicate 73 9) K512) c1 0xC0 3 =
      Some (keccak K512 (message_le [104; 101; 108; 108; 111] 0xC0 3), c2) /\
    c2 ≡ @sph_init _ (keccak_ops (replicate 73 9) K512)
           (BlockCtx (replicate 144 255) 5 (KeccakState [] 7)).
Proof.
  apply (keccak_streaming (replicate 73 9) K512
    (BlockCtx (replicate 144 255) 5 (KeccakState [] 7)) [[104; 101]; [108; 108; 111]] 0xC0 3);
    [reflexivity| |reflexivity|lia|].
  - apply (bool_decide_unpack _). vm_compute. exact I.
  - repeat constructor; done.
Defined.

Lemma INPUT_BUF_words r b w :
  INPUT_BUF r b w = foldl (fun w i => input_word b i (8 * i) w) w (seq 0 ((r + 7) / 8)).
Proof. done. Qed.

(** the macros that add a block to a state in local variables, one per rate
    and one for all rates with early exits, do what the loop over the array
    does, for the four rates. *)
Theorem keccak_input_equiv v b w :
  INPUT_BUF_copy (rate v) b w = INPUT_BUF (rate v) b w /\
  (match v with
   | K224 => INPUT_BUF144 | K256 => INPUT_BUF136 | K384 => INPUT_BUF104 | K512 => INPUT_BUF72
   end) b w = INPUT_BUF (rate v) b w.
Proof.
  rewrite INPUT_BUF_words. destruct v; split;
    cbv [INPUT_BUF_copy INPUT_BUF144 INPUT_BUF136 INPUT_BUF104 INPUT_BUF72 rate size_bytes size_bits
      foldl seq a00 a10 a20 a30 a40 a01 a11 a21 a31 a41 a02 a12 a22 a32 a42 a03 a13 a23
      Nat.mul Nat.add Nat.sub Nat.div Nat.divmod Nat.eqb fst];
    reflexivity.
Qed.

(** Known answer: Keccak-512 of the empty message. *)
Example keccak512_empty :
  keccak K512 [] =
  [0x0e; 0xab; 0x42; 0xde; 0x4c; 0x3c; 0xeb; 0x92; 0x35; 0xfc; 0x91; 0xac; 0xff; 0xe7; 0x46; 0xb2;
   0x9c; 0x29; 0xa8; 0xc3; 0x66; 0xb7; 0xc6; 0x0e; 0x4e; 0x67; 0xc4; 0x66; 0xf3; 0x6a; 0x43; 0x04;
   0xc0; 0x0f; 0xa9; 0xca; 0xf9; 0xd8; 0x79; 0x76; 0xba; 0x46; 0x9b; 0xcb; 0xe0; 0x67; 0x13; 0xb4;
   0x35; 0xf0; 0x91; 0xef; 0x27; 0x69; 0xfb; 0x16; 0x0c; 0xda; 0xb3; 0x3d; 0x36; 0x70; 0x68; 0x0e].
Proof. by vm_compute. Qed.
