(* ===== verification/Keccak32.v ===== *)
(** * Keccak with 32-bit words: [src/src/keccak.c], 32-bit implementation

    On machines without a 64-bit type every lane is a pair of 32-bit words: its
    lower and upper halves or, with [SPH_KECCAK_INTERLEAVE], its bits of even and
    of odd index.  The model follows the macros of the source for both settings
    and shows that the 32-bit functions compute what the 64-bit ones compute. *)

From S2P Require Import Prelude BitReflect SphTypes BlockBuffer MessageBits SphHash KeccakF Keccak.

#[local] Open Scope c_scope.

(** ** Lanes as pairs [(l, h)] *)

Definition XOR64_32 (a b : Z * Z) : Z * Z := (a.1 ⊕ b.1, a.2 ⊕ b.2).
Definition AND64_32 (a b : Z * Z) : Z * Z := (a.1 .& b.1, a.2 .& b.2).
Definition OR64_32 (a b : Z * Z) : Z * Z := (a.1 .| b.1, a.2 .| b.2).
Definition NOT64_32 (s : Z * Z) : Z * Z := (SPH_T32 (Z.lnot s.1), SPH_T32 (Z.lnot s.2)).

(** Rotations of interleaved lanes. *)
Definition ROL64_odd1 (v : Z * Z) : Z * Z :=
  let tmp := v.1 in
  (SPH_T32 (v.2 << 1) .| (v.2 >> 31), tmp).
Definition ROL64_odd63 (v : Z * Z) : Z * Z :=
  let tmp := SPH_T32 (v.1 << 31) .| (v.1 >> 1) in
  (v.2, tmp).
Definition ROL64_odd (v : Z * Z) (n : Z) : Z * Z :=
  let tmp := SPH_T32 (v.1 << (n - 1)) .| (v.1 >> (33 - n)) in
  (SPH_T32 (v.2 << n) .| (v.2 >> (32 - n)), tmp).
Definition ROL64_even (v : Z * Z) (n : Z) : Z * Z :=
  (SPH_T32 (v.1 << n) .| (v.1 >> (32 - n)), SPH_T32 (v.2 << n) .| (v.2 >> (32 - n))).

(** The macros [ROL64_0] to [ROL64_63]: even distances are halved and rotate both
    words, odd ones exchange them. *)
Definition ROL64_il (v : Z * Z) (n : Z) : Z * Z :=
  if n =? 0 then v
  else if n =? 1 then ROL64_odd1 v
  else if n =? 63 then ROL64_odd63 v
  else if Z.odd n then ROL64_odd v ((n + 1) / 2)
  else ROL64_even v (n / 2).

(** Rotations of lanes in two halves. *)
Definition ROL64_small (v : Z * Z) (n : Z) : Z * Z :=
  let tmp := SPH_T32 (v.1 << n) .| (v.2 >> (32 - n)) in
  (tmp, SPH_T32 (v.2 << n) .| (v.1 >> (32 - n))).
Definition ROL64_32 (v : Z * Z) : Z * Z := (v.2, v.1).
Definition ROL64_big (v : Z * Z) (n : Z) : Z * Z :=
  let tr := ROL64_small v n in (tr.2, tr.1).
Definition ROL64_halves (v : Z * Z) (n : Z) : Z * Z :=
  if n =? 0 then v
  else if n <? 32 then ROL64_small v n
  else if n =? 32 then ROL64_32 v
  else ROL64_big v (n - 32).

(** [il] is the setting [SPH_KECCAK_INTERLEAVE]. *)
Definition ROL64_of (il : bool) : Z * Z -> Z -> Z * Z := if il then ROL64_il else ROL64_halves.

Definition lanes32 (il : bool) : LaneOps (Z * Z) := {|
  XOR64 := XOR64_32; AND64 := AND64_32; OR64 := OR64_32; NOT64 := NOT64_32; ROL64 := ROL64_of il |}.

(** The round constants, as [(low, high)]. *)
Definition RC_il : list (Z * Z) :=
  [(0x00000001, 0x00000000); (0x00000000, 0x00000089); (0x00000000, 0x8000008B);
   (0x00000000, 0x80008080); (0x00000001, 0x0000008B); (0x00000001, 0x00008000);
   (0x00000001, 0x80008088); (0x00000001, 0x80000082); (0x00000000, 0x0000000B);
   (0x00000000, 0x0000000A); (0x00000001, 0x00008082); (0x00000000, 0x00008003);
   (0x00000001, 0x0000808B); (0x00000001, 0x8000000B); (0x00000001, 0x8000008A);
   (0x00000001, 0x80000081); (0x00000000, 0x80000081); (0x00000000, 0x80000008);
   (0x00000000, 0x00000083); (0x00000000, 0x80008003); (0x00000001, 0x80008088);
   (0x00000000, 0x80000088); (0x00000001, 0x00008000); (0x00000000, 0x80008082)].

Definition RC_halves : list (Z * Z) :=
  [(0x00000001, 0x00000000); (0x00008082, 0x00000000); (0x0000808A, 0x80000000);
   (0x80008000, 0x80000000); (0x0000808B, 0x00000000); (0x80000001, 0x00000000);
   (0x80008081, 0x80000000); (0x00008009, 0x80000000); (0x0000008A, 0x00000000);
   (0x00000088, 0x00000000); (0x80008009, 0x00000000); (0x8000000A, 0x00000000);
   (0x8000808B, 0x00000000); (0x0000008B, 0x80000000); (0x00008089, 0x80000000);
   (0x00008003, 0x80000000); (0x00008002, 0x80000000); (0x00000080, 0x80000000);
   (0x0000800A, 0x00000000); (0x8000000A, 0x80000000); (0x80008081, 0x80000000);
   (0x00008080, 0x80000000); (0x80000001, 0x00000000); (0x80008008, 0x80000000)].

Definition RC32 (il : bool) : list (Z * Z) := if il then RC_il else RC_halves.

Definition INTERLEAVE_il (x : Z * Z) : Z * Z :=
  let (l, h) := x in
  let t := (l ⊕ (l >> 1)) .& 0x22222222 in
  let l := l ⊕ (t ⊕ (t << 1)) in
  let t := (h ⊕ (h >> 1)) .& 0x22222222 in
  let h := h ⊕ (t ⊕ (t << 1)) in
  let t := (l ⊕ (l >> 2)) .& 0x0C0C0C0C in
  let l := l ⊕ (t ⊕ (t << 2)) in
  let t := (h ⊕ (h >> 2)) .& 0x0C0C0C0C in
  let h := h ⊕ (t ⊕ (t << 2)) in
  let t := (l ⊕ (l >> 4)) .& 0x00F000F0 in
  let l := l ⊕ (t ⊕ (t << 4)) in
  let t := (h ⊕ (h >> 4)) .& 0x00F000F0 in
  let h := h ⊕ (t ⊕ (t << 4)) in
  let t := (l ⊕ (l >> 8)) .& 0x0000FF00 in
  let l := l ⊕ (t ⊕ (t << 8)) in
  let t := (h ⊕ (h >> 8)) .& 0x0000FF00 in
  let h := h ⊕ (t ⊕ (t << 8)) in
  let t := (l ⊕ SPH_T32 (h << 16)) .& 0xFFFF0000 in
  let l := l ⊕ (t) in
  let h := h ⊕ (t >> 16) in
  (l, h).

Definition UNINTERLEAVE_il (x : Z * Z) : Z * Z :=
  let (l, h) := x in
  let t := (l ⊕ SPH_T32 (h << 16)) .& 0xFFFF0000 in
  let l := l ⊕ (t) in
  let h := h ⊕ (t >> 16) in
  let t := (l ⊕ (l >> 8)) .& 0x0000FF00 in
  let l := l ⊕ (t ⊕ (t << 8)) in
  let t := (h ⊕ (h >> 8)) .& 0x0000FF00 in
  let h := h ⊕ (t ⊕ (t << 8)) in
  let t := (l ⊕ (l >> 4)) .& 0x00F000F0 in
  let l := l ⊕ (t ⊕ (t << 4)) in
  let t := (h ⊕ (h >> 4)) .& 0x00F000F0 in
  let h := h ⊕ (t ⊕ (t << 4)) in
  let t := (l ⊕ (l >> 2)) .& 0x0C0C0C0C in
  let l := l ⊕ (t ⊕ (t << 2)) in
  let t := (h ⊕ (h >> 2)) .& 0x0C0C0C0C in
  let h := h ⊕ (t ⊕ (t << 2)) in
  let t := (l ⊕ (l >> 1)) .& 0x22222222 in
  let l := l ⊕ (t ⊕ (t << 1)) in
  let t := (h ⊕ (h >> 1)) .& 0x22222222 in
  let h := h ⊕ (t ⊕ (t << 1)) in
  (l, h).

(** Without interleaving both macros are empty. *)
Definition INTERLEAVE (il : bool) (x : Z * Z) : Z * Z := if il then INTERLEAVE_il x else x.
Definition UNINTERLEAVE (il : bool) (x : Z * Z) : Z * Z := if il then UNINTERLEAVE_il x else x.

(** ** Contexts and operations *)

(** Lane [i] is [(u.narrow[2 * i], u.narrow[2 * i + 1])]. *)
Record keccak_state32 := KeccakState32 { narrow : list (Z * Z); klim32 : Z }.

Abbreviation sph_keccak_context32 := (block_ctx keccak_state32).

Definition all_ones32 : Z * Z := (0xFFFFFFFF, 0xFFFFFFFF).

Definition keccak_init32 (kc : sph_keccak_context32) (out_size : Z) : sph_keccak_context32 :=
  let w := replicate 25 (0, 0) in
  let w := <[1%nat := all_ones32]> w in
  let w := <[2%nat := all_ones32]> w in
  let w := <[8%nat := all_ones32]> w in
  let w := <[12%nat := all_ones32]> w in
  let w := <[17%nat := all_ones32]> w in
  let w := <[20%nat := all_ones32]> w in
  BlockCtx (buf kc) 0 (KeccakState32 w (200 - (out_size >> 2))).

Section il.
Context (il : bool).

(** The iteration [j = 8 i] of the loop. *)
Definition INPUT_BUF32 (size : nat) (buf : list Z) (w : list (Z * Z)) : list (Z * Z) :=
  foldl (fun w i =>
      let tl := sph_dec32le_aligned (drop (8 * i + 0) buf) in
      let th := sph_dec32le_aligned (drop (8 * i + 4) buf) in
      let (tl, th) := INTERLEAVE il (tl, th) in
      <[i := ((w !!! i).1 ⊕ tl, (w !!! i).2 ⊕ th)]> w)
    w (seq 0 ((size + 7) / 8)).

(** [READ64(d, off)], for a state in local variables. *)
Definition READ64 (buf : list Z) (d : nat) (off : nat) (w : list (Z * Z)) : list (Z * Z) :=
  let tl := sph_dec32le_aligned (drop off buf) in
  let th := sph_dec32le_aligned (drop (off + 4) buf) in
  let (tl, th) := INTERLEAVE il (tl, th) in
  <[d := ((w !!! d).1 ⊕ tl, (w !!! d).2 ⊕ th)]> w.

Definition INPUT_BUF14432 (buf : list Z) (w : list (Z * Z)) : list (Z * Z) :=
  let w := READ64 buf a00 0 w in
  let w := READ64 buf a10 8 w in
  let w := READ64 buf a20 16 w in
  let w := READ64 buf a30 24 w in
  let w := READ64 buf a40 32 w in
  let w := READ64 buf a01 40 w in
  let w := READ64 buf a11 48 w in
  let w := READ64 buf a21 56 w in
  let w := READ64 buf a31 64 w in
  let w := READ64 buf a41 72 w in
  let w := READ64 buf a02 80 w in
  let w := READ64 buf a12 88 w in
  let w := READ64 buf a22 96 w in
  let w := READ64 buf a32 104 w in
  let w := READ64 buf a42 112 w in
  let w := READ64 buf a03 120 w in
  let w := READ64 buf a13 128 w in
  READ64 buf a23 136 w.

Definition INPUT_BUF13632 (buf : list Z) (w : list (Z * Z)) : list (Z * Z) :=
  let w := READ64 buf a00 0 w in
  let w := READ64 buf a10 8 w in
  let w := READ64 buf a20 16 w in
  let w := READ64 buf a30 24 w in
  let w := READ64 buf a40 32 w in
  let w := READ64 buf a01 40 w in
  let w := READ64 buf a11 48 w in
  let w := READ64 buf a21 56 w in
  let w := READ64 buf a31 64 w in
  let w := READ64 buf a41 72 w in
  let w := READ64 buf a02 80 w in
  let w := READ64 buf a12 88 w in
  let w := READ64 buf a22 96 w in
  let w := READ64 buf a32 104 w in
  let w := READ64 buf a42 112 w in
  let w := READ64 buf a03 120 w in
  READ64 buf a13 128 w.

Definition INPUT_BUF10432 (buf : list Z) (w : list (Z * Z)) : list (Z * Z) :=
  let w := READ64 buf a00 0 w in
  let w := READ64 buf a10 8 w in
  let w := READ64 buf a20 16 w in
  let w := READ64 buf a30 24 w in
  let w := READ64 buf a40 32 w in
  let w := READ64 buf a01 40 w in
  let w := READ64 buf a11 48 w in
  let w := READ64 buf a21 56 w in
  let w := READ64 buf a31 64 w in
  let w := READ64 buf a41 72 w in
  let w := READ64 buf a02 80 w in
  let w := READ64 buf a12 88 w in
  READ64 buf a22 96 w.

Definition INPUT_BUF7232 (buf : list Z) (w : list (Z * Z)) : list (Z * Z) :=
  let w := READ64 buf a00 0 w in
  let w := READ64 buf a10 8 w in
  let w := READ64 buf a20 16 w in
  let w := READ64 buf a30 24 w in
  let w := READ64 buf a40 32 w in
  let w := READ64 buf a01 40 w in
  let w := READ64 buf a11 48 w in
  let w := READ64 buf a21 56 w in
  READ64 buf a31 64 w.

Definition INPUT_BUF32_copy (lim : nat) (buf : list Z) (w : list (Z * Z)) : list (Z * Z) :=
  let w := READ64 buf a00 0 w in
  let w := READ64 buf a10 8 w in
  let w := READ64 buf a20 16 w in
  let w := READ64 buf a30 24 w in
  let w := READ64 buf a40 32 w in
  let w := READ64 buf a01 40 w in
  let w := READ64 buf a11 48 w in
  let w := READ64 buf a21 56 w in
  let w := READ64 buf a31 64 w in
  if (lim =? 72)%nat then w else
  let w := READ64 buf a41 72 w in
  let w := READ64 buf a02 80 w in
  let w := READ64 buf a12 88 w in
  let w := READ64 buf a22 96 w in
  if (lim =? 104)%nat then w else
  let w := READ64 buf a32 104 w in
  let w := READ64 buf a42 112 w in
  let w := READ64 buf a03 120 w in
  let w := READ64 buf a13 128 w in
  if (lim =? 136)%nat then w else
  READ64 buf a23 136 w.

Definition keccak_block32 (lim : nat) (buf : list Z) (kc : keccak_state32) : keccak_state32 :=
  KeccakState32 (@KECCAK_F_1600_8 _ _ (lanes32 il) (RC32 il) (INPUT_BUF32 lim buf (narrow kc)))
    (klim32 kc).

Definition keccak_core32 (kc : sph_keccak_context32) (data : list Z) (lim : nat)
    : option sph_keccak_context32 :=
  update lim (keccak_block32 lim) kc data.

(** [~kc->u.narrow[2 * i]] and [~kc->u.narrow[2 * i + 1]]. *)
Definition complement32 (i : nat) (w : list (Z * Z)) : list (Z * Z) :=
  <[i := NOT64_32 (w !!! i)]> w.

(** [DEFCLOSE(d, lim)] *)
Definition keccak_close_32 (d lim : nat) (tmp : list Z) (kc : sph_keccak_context32) (ub n : Z)
    : option (list Z * sph_keccak_context32) :=
  let eb := (0x100 .| (ub .& 0xFF)) >> (8 - n) in
  '(tmp, j) ←
    if (ptr kc =? lim - 1)%nat then
      if n =? 7 then
        tmp ← store tmp 0 (uchar eb);
        tmp ← memset tmp 1 0 (lim - 1);
        tmp ← store tmp lim 0x80;
        Some (tmp, (1 + lim)%nat)
      else
        tmp ← store tmp 0 (uchar (eb .| 0x80));
        Some (tmp, 1%nat)
    else
      let j := (lim - ptr kc)%nat in
      tmp ← store tmp 0 (uchar eb);
      tmp ← memset tmp 1 0 (j - 2);
      tmp ← store tmp (j - 1) 0x80;
      Some (tmp, j);
  kc ← keccak_core32 kc (take j tmp) lim;
  let w := narrow (chain kc) in
  let w := complement32 1 w in
  let w := complement32 2 w in
  let w := complement32 8 w in
  let w := complement32 12 w in
  let w := complement32 17 w in
  let w := complement32 20 w in
  let w := map (UNINTERLEAVE il) w in
  let words := concat (map (fun x => [x.1; x.2]) w) in
  tmp ← foldl (fun tmp i => tmp ← tmp; memcpy tmp (4 * i) (sph_enc32le_aligned (words !!! i)))
          (Some tmp) (seq 0 ((d + 3) / 4));
  Some (take d tmp, keccak_init32 kc (Z.of_nat d << 3)).

(** The exported functions, for the four sizes. *)
Definition keccak32_ops (tmp : list Z) (v : keccak_size) : SphHash sph_keccak_context32 :=
  match v with
  | K224 => {| sph_init cc := keccak_init32 cc 224; sph_update cc data := keccak_core32 cc data 144;
               sph_addbits_and_close := keccak_close_32 28 144 tmp |}
  | K256 => {| sph_init cc := keccak_init32 cc 256; sph_update cc data := keccak_core32 cc data 136;
               sph_addbits_and_close := keccak_close_32 32 136 tmp |}
  | K384 => {| sph_init cc := keccak_init32 cc 384; sph_update cc data := keccak_core32 cc data 104;
               sph_addbits_and_close := keccak_close_32 48 104 tmp |}
  | K512 => {| sph_init cc := keccak_init32 cc 512; sph_update cc data := keccak_core32 cc data 72;
               sph_addbits_and_close := keccak_close_32 64 72 tmp |}
  end.
End il.

(** ** Related lanes give related permutations

    The permutation is written over the lane macros, so it maps related states to
    related states as soon as the macros do. *)

Create HintDb lanes_rel.

Section relation.
Context {L1 L2 : Type} `{!Inhabited L1} `{!Inhabited L2} (ops1 : LaneOps L1) (ops2 : LaneOps L2).
Context (R : L1 -> L2 -> Prop).
Context (R_inhabitant : R inhabitant inhabitant).
Context (R_xor : forall a b c d, R a b -> R c d -> R (XOR64 a c) (XOR64 b d)).
Context (R_and : forall a b c d, R a b -> R c d -> R (AND64 a c) (AND64 b d)).
Context (R_or : forall a b c d, R a b -> R c d -> R (OR64 a c) (OR64 b d)).
Context (R_not : forall a b, R a b -> R (NOT64 a) (NOT64 b)).
Context (R_rol : forall n a b, 0 < n < 64 -> R a b -> R (ROL64 a n) (ROL64 b n)).

#[local] Hint Resolve R_xor R_and R_or R_not : lanes_rel.
#[local] Hint Extern 1 (R (ROL64 _ _) (ROL64 _ _)) => apply R_rol; [lia|] : lanes_rel.

Lemma TH_ELT_rel c0 c1 c2 c3 c4 d0 d1 d2 d3 d4 c0' c1' c2' c3' c4' d0' d1' d2' d3' d4' :
  R c0 c0' -> R c1 c1' -> R c2 c2' -> R c3 c3' -> R c4 c4' ->
  R d0 d0' -> R d1 d1' -> R d2 d2' -> R d3 d3' -> R d4 d4' ->
  R (TH_ELT c0 c1 c2 c3 c4 d0 d1 d2 d3 d4) (TH_ELT c0' c1' c2' c3' c4' d0' d1' d2' d3' d4').
Proof. intros. unfold TH_ELT. auto 10 with lanes_rel. Qed.

#[local] Hint Resolve TH_ELT_rel : lanes_rel.

Ltac lanes_rel :=
  let b1 := fresh "b" in let b2 := fresh "b" in let Hl := fresh in let H := fresh in
  intros b1 b2 Hl H;
  do 25 (destruct b1 as [|? b1]; [discriminate Hl|];
         apply Forall2_cons_inv_l in H as (?&?&?&H&->));
  destruct b1; [|discriminate Hl]; apply Forall2_nil_inv_l in H as ->;
  cbv beta iota zeta delta [THETA RHO KHI KHI_XO KHI_XA];
  repeat (apply Forall2_cons_2; [auto 10 with lanes_rel|]); apply Forall2_nil_2.

Lemma THETA_rel : forall b b', length b = 25%nat -> Forall2 R b b' -> Forall2 R (THETA b) (THETA b').
Proof. lanes_rel. Qed.
Lemma RHO_rel : forall b b', length b = 25%nat -> Forall2 R b b' -> Forall2 R (RHO b) (RHO b').
Proof. lanes_rel. Qed.
Lemma KHI_rel : forall b b', length b = 25%nat -> Forall2 R b b' -> Forall2 R (KHI b) (KHI b').
Proof. lanes_rel. Qed.

Lemma lookup_total_rel b b' i : Forall2 R b b' -> R (b !!! i) (b' !!! i).
Proof. intros H. by apply (lookup_total_Forall2 R). Qed.

Lemma read_rel p b b' : Forall2 R b b' -> Forall2 R (read p b) (read p b').
Proof.
  intros H. induction p as [|i p IH]; cbn [read map]; [apply Forall2_nil_2|].
  apply Forall2_cons_2; [by apply lookup_total_rel|done].
Qed.

Lemma round_view_rel k k' b b' :
  R k k' -> length b = 25%nat -> Forall2 R b b' -> Forall2 R (round_view k b) (round_view k' b').
Proof.
  intros Hk Hl H. unfold round_view.
  assert (Forall2 R (KHI (read next_view (RHO (THETA b)))) (KHI (read next_view (RHO (THETA b')))))
    as HK.
  { apply KHI_rel; [by rewrite length_read|]. apply read_rel, RHO_rel; [by apply length_THETA|].
    by apply THETA_rel. }
  destruct HK as [|x y t t' Hx Ht]; cbn [iota_view]; [apply Forall2_nil_2|].
  apply Forall2_cons_2; [by apply R_xor|done].
Qed.

Lemma length_round_view k b : length b = 25%nat -> length (@round_view L1 _ _ k b) = 25%nat.
Proof.
  intros Hl. unfold round_view.
  assert (length (KHI (read next_view (RHO (THETA b)))) = 25%nat) as H
    by (apply length_KHI; by rewrite length_read).
  by destruct (KHI _).
Qed.

Lemma rounds_view_rel rc rc' b b' :
  Forall2 R rc rc' -> length b = 25%nat -> Forall2 R b b' ->
  Forall2 R (rounds_view rc b) (rounds_view rc' b').
Proof.
  intros Hrc. unfold rounds_view. generalize (seq 0 24). intros l. revert b b'.
  induction l as [|i l IH]; intros b b' Hl H; [done|]. cbn [foldl].
  apply IH; [by apply length_round_view|]. by apply round_view_rel; [apply lookup_total_rel| |].
Qed.

(** Reading twice in the order of [P0] gives the state back. *)
Lemma read_P0_involutive {L} `{!Inhabited L} (st : list L) :
  length st = 25%nat -> read (P 0) (read (P 0) st) = st.
Proof.
  intros H. do 25 (destruct st as [|? st]; [discriminate H|]). destruct st; [|discriminate H].
  reflexivity.
Qed.

Lemma KECCAK_F_1600_8_rel rc rc' st st' :
  Forall2 R rc rc' -> length st = 25%nat -> Forall2 R st st' ->
  Forall2 R (KECCAK_F_1600_8 rc st) (KECCAK_F_1600_8 rc' st').
Proof.
  intros Hrc Hl H. pose proof (Forall2_length H) as Hl'.
  destruct (KECCAK_F_1600_8_view rc (read (P 0) st) st (conj Hl eq_refl)) as [Hf Hr].
  destruct (KECCAK_F_1600_8_view rc' (read (P 0) st') st' (conj (eq_trans (eq_sym Hl') Hl) eq_refl))
    as [Hf' Hr'].
  rewrite <- (read_P0_involutive (KECCAK_F_1600_8 rc st)) by done.
  rewrite <- (read_P0_involutive (KECCAK_F_1600_8 rc' st')) by done.
  rewrite Hr, Hr'. by apply read_rel, rounds_view_rel; [|rewrite length_read|apply read_rel].
Qed.
End relation.

(** ** A 64-bit lane and a pair of 32-bit words *)

(** The bits of the lane that the words hold. *)
Definition lo_pos (il : bool) (i : Z) : Z := if il then 2 * i else i.
Definition hi_pos (il : bool) (i : Z) : Z := if il then 2 * i + 1 else 32 + i.

Definition lane_rel (il : bool) (x : Z) (p : Z * Z) : Prop :=
  word 64 x /\ word 32 p.1 /\ word 32 p.2 /\
  forall i, 0 <= i < 32 ->
    Z.testbit p.1 i = Z.testbit x (lo_pos il i) /\ Z.testbit p.2 i = Z.testbit x (hi_pos il i).

Ltac split_rel :=
  refine (conj _ (conj _ (conj _ _))); cbn [XOR64_32 AND64_32 OR64_32 NOT64_32 fst snd].

Lemma pos_bounds il i : 0 <= i < 32 -> 0 <= lo_pos il i < 64 /\ 0 <= hi_pos il i < 64.
Proof. unfold lo_pos, hi_pos. destruct il; lia. Qed.

Lemma lane_rel_xor il a b c d :
  lane_rel il a b -> lane_rel il c d -> lane_rel il (a ⊕ c) (XOR64_32 b d).
Proof.
  intros (?&?&?&H) (?&?&?&H'). split_rel; [auto with words..|].
  intros i Hi. destruct (H i Hi) as [E1 E2], (H' i Hi) as [E3 E4]. cbn [XOR64_32 fst snd].
  by rewrite !Z.lxor_spec, E1, E2, E3, E4.
Qed.

Lemma lane_rel_and il a b c d :
  lane_rel il a b -> lane_rel il c d -> lane_rel il (a .& c) (AND64_32 b d).
Proof.
  intros (?&?&?&H) (?&?&?&H'). split_rel; [auto with words..|].
  intros i Hi. destruct (H i Hi) as [E1 E2], (H' i Hi) as [E3 E4]. cbn [AND64_32 fst snd].
  by rewrite !Z.land_spec, E1, E2, E3, E4.
Qed.

Lemma lane_rel_or il a b c d :
  lane_rel il a b -> lane_rel il c d -> lane_rel il (a .| c) (OR64_32 b d).
Proof.
  intros (?&?&?&H) (?&?&?&H'). split_rel; [auto with words..|].
  intros i Hi. destruct (H i Hi) as [E1 E2], (H' i Hi) as [E3 E4]. cbn [OR64_32 fst snd].
  by rewrite !Z.lor_spec, E1, E2, E3, E4.
Qed.

Lemma lane_rel_not il a b :
  lane_rel il a b -> lane_rel il (SPH_T64 (Z.lnot a)) (NOT64_32 b).
Proof.
  intros (?&?&?&H). split_rel; [auto with words..|].
  intros i Hi. destruct (H i Hi) as [E1 E2]. destruct (pos_bounds il i Hi). cbn [NOT64_32 fst snd].
  rewrite !SPH_T32_testbit, !SPH_T64_testbit, !bool_decide_true by lia.
  by rewrite !Z.lnot_spec, E1, E2 by lia.
Qed.

(** The rotation of a 32-bit word, as the macros write it. *)
Lemma rot32_testbit x n i :
  word 32 x -> 0 < n < 32 -> 0 <= i < 32 ->
  Z.testbit (SPH_T32 (x << n) .| (x >> (32 - n))) i = Z.testbit x ((i - n) mod 32).
Proof.
  intros Hx Hn Hi. rewrite <- (rotl_testbit_aux 32 x n i) by done.
  rewrite !Z.lor_spec, SPH_T32_testbit, bool_decide_true by lia. done.
Qed.

Lemma rot32_word x y n : word 32 y -> 0 < n < 32 -> word 32 (SPH_T32 (x << n) .| (y >> (32 - n))).
Proof. intros. apply word_lor; [lia|auto with words|]. apply word_shiftr; [lia|done]. Qed.

(** Distances in pairs of bits. *)
Lemma double_mod i : (2 * i) mod 64 = 2 * (i mod 32).
Proof. change 64 with (2 * 32). by rewrite Z.mul_mod_distr_l by lia. Qed.

Lemma double_succ_mod i : (2 * i + 1) mod 64 = 2 * (i mod 32) + 1.
Proof.
  symmetry. apply Z.mod_unique with (i / 32).
  - pose proof (Z.mod_pos_bound i 32). lia.
  - rewrite (Z.div_mod i 32) at 1 by lia. ring.
Qed.

Section rol_il.
Context (x : Z) (v : Z * Z) (Hrel : lane_rel true x v).

Lemma ROL64_even_rel n : 0 < n < 32 -> lane_rel true (SPH_ROTL64 x (2 * n)) (ROL64_even v n).
Proof.
  destruct Hrel as (Hx&H1&H2&Hb). intros Hn. unfold ROL64_even.
  split_rel; [auto with words|by apply rot32_word..|]. intros i Hi. cbn [fst snd lo_pos hi_pos].
  assert (0 <= (i - n) mod 32 < 32) as Hm by (by apply Z.mod_pos_bound).
  destruct (Hb _ Hm) as [E1 E2]. cbn [lo_pos hi_pos] in E1, E2.
  rewrite !rot32_testbit, !SPH_ROTL64_testbit by (done || lia).
  replace (2 * i - 2 * n) with (2 * (i - n)) by lia.
  replace (2 * i + 1 - 2 * n) with (2 * (i - n) + 1) by lia.
  by rewrite double_mod, double_succ_mod.
Qed.

Lemma ROL64_odd_rel n : 1 < n < 32 -> lane_rel true (SPH_ROTL64 x (2 * n - 1)) (ROL64_odd v n).
Proof.
  destruct Hrel as (Hx&H1&H2&Hb). intros Hn. unfold ROL64_odd.
  replace (33 - n) with (32 - (n - 1)) by lia.
  split_rel; [auto with words|apply rot32_word; (done || lia)..|]. intros i Hi.
  cbn [fst snd lo_pos hi_pos].
  assert (0 <= (i - n) mod 32 < 32) as Hm by (by apply Z.mod_pos_bound).
  assert (0 <= (i - (n - 1)) mod 32 < 32) as Hm' by (by apply Z.mod_pos_bound).
  destruct (Hb _ Hm) as [_ E2], (Hb _ Hm') as [E1 _]. cbn [lo_pos hi_pos] in E1, E2.
  rewrite !rot32_testbit, !SPH_ROTL64_testbit by (done || lia).
  replace (2 * i - (2 * n - 1)) with (2 * (i - n) + 1) by lia.
  replace (2 * i + 1 - (2 * n - 1)) with (2 * (i - (n - 1))) by lia.
  by rewrite double_mod, double_succ_mod.
Qed.

Lemma ROL64_odd1_rel : lane_rel true (SPH_ROTL64 x 1) (ROL64_odd1 v).
Proof.
  destruct Hrel as (Hx&H1&H2&Hb). unfold ROL64_odd1.
  split_rel; [auto with words|by apply (rot32_word _ _ 1)|done|]. intros i Hi.
  cbn [fst snd lo_pos hi_pos].
  assert (0 <= (i - 1) mod 32 < 32) as Hm by (by apply Z.mod_pos_bound).
  destruct (Hb _ Hm) as [_ E2], (Hb _ Hi) as [E1 _]. cbn [lo_pos hi_pos] in E1, E2.
  rewrite (rot32_testbit v.2 1), !SPH_ROTL64_testbit by (done || lia).
  replace (2 * i - 1) with (2 * (i - 1) + 1) by lia.
  replace (2 * i + 1 - 1) with (2 * i) by lia.
  rewrite double_mod, double_succ_mod, (Z.mod_small i) by lia. done.
Qed.

Lemma ROL64_odd63_rel : lane_rel true (SPH_ROTL64 x 63) (ROL64_odd63 v).
Proof.
  destruct Hrel as (Hx&H1&H2&Hb). unfold ROL64_odd63.
  split_rel; [auto with words|done|by apply (rot32_word _ _ 31)|]. intros i Hi.
  cbn [fst snd lo_pos hi_pos].
  assert (0 <= (i - 31) mod 32 < 32) as Hm by (by apply Z.mod_pos_bound).
  destruct (Hb _ Hm) as [E1 _], (Hb _ Hi) as [_ E2]. cbn [lo_pos hi_pos] in E1, E2.
  rewrite (rot32_testbit v.1 31), !SPH_ROTL64_testbit by (done || lia).
  replace (2 * i - 63) with (2 * (i + -1 * 32) + 1) by lia.
  replace (2 * i + 1 - 63) with (2 * (i - 31)) by lia.
  rewrite double_mod, double_succ_mod, Z.mod_add, (Z.mod_small i) by lia. done.
Qed.

Lemma ROL64_il_rel n : 0 < n < 64 -> lane_rel true (SPH_ROTL64 x n) (ROL64_il v n).
Proof.
  intros Hn. unfold ROL64_il.
  destruct (Z.eqb_spec n 0); [lia|]. destruct (Z.eqb_spec n 1) as [->|]; [apply ROL64_odd1_rel|].
  destruct (Z.eqb_spec n 63) as [->|]; [apply ROL64_odd63_rel|].
  destruct (Z.odd n) eqn:E.
  - apply Z.odd_spec in E as [k ->]. replace ((2 * k + 1 + 1) / 2) with (k + 1).
    2: { apply Z.div_unique with 0; lia. }
    replace (2 * k + 1) with (2 * (k + 1) - 1) by lia. apply ROL64_odd_rel. lia.
  - rewrite <- Z.negb_even in E. apply negb_false_iff, Z.even_spec in E as [k ->].
    rewrite Z.mul_comm, Z.div_mul, Z.mul_comm by lia. apply ROL64_even_rel. lia.
Qed.
End rol_il.

(** Lanes in two halves. *)
Section rol_halves.
Context (x : Z) (v : Z * Z) (Hrel : lane_rel false x v).

Lemma halves_testbit i : 0 <= i < 64 ->
  Z.testbit x i = if i <? 32 then Z.testbit v.1 i else Z.testbit v.2 (i - 32).
Proof.
  destruct Hrel as (_&_&_&Hb). intros Hi. destruct (Z.ltb_spec i 32).
  - symmetry. apply Hb. lia.
  - destruct (Hb (i - 32) ltac:(lia)) as [_ ->]. cbn [hi_pos]. f_equal. lia.
Qed.

Lemma shift_pair_testbit a b n i :
  word 32 a -> word 32 b -> 0 < n < 32 -> 0 <= i < 32 ->
  Z.testbit (SPH_T32 (a << n) .| (b >> (32 - n))) i =
  if i <? n then Z.testbit b (i + (32 - n)) else Z.testbit a (i - n).
Proof.
  intros Ha Hb Hn Hi. rewrite Z.lor_spec, SPH_T32_testbit, bool_decide_true by lia.
  rewrite Z.shiftl_spec, Z.shiftr_spec by lia. destruct (Z.ltb_spec i n).
  - by rewrite (Z.testbit_neg_r a) by lia.
  - rewrite (word_testbit_high 32 b) by (done || lia). apply orb_false_r.
Qed.

Lemma ROL64_small_rel n : 0 < n < 32 -> lane_rel false (SPH_ROTL64 x n) (ROL64_small v n).
Proof.
  destruct Hrel as (Hx&H1&H2&_). intros Hn. unfold ROL64_small.
  split_rel; [auto with words|by apply rot32_word..|]. intros i Hi. cbn [fst snd lo_pos hi_pos].
  rewrite !shift_pair_testbit, !SPH_ROTL64_testbit by (done || lia).
  rewrite !halves_testbit by (by apply Z.mod_pos_bound).
  destruct (Z.ltb_spec i n).
  - assert ((i - n) mod 64 = i - n + 64) as -> by (symmetry; apply Z.mod_unique with (-1); lia).
    rewrite (Z.mod_small (32 + i - n)) by lia.
    rewrite (proj2 (Z.ltb_ge _ _)), (proj2 (Z.ltb_lt _ _)) by lia. split; f_equal; lia.
  - rewrite (Z.mod_small (i - n)), (Z.mod_small (32 + i - n)) by lia.
    rewrite (proj2 (Z.ltb_lt _ _)), (proj2 (Z.ltb_ge _ _)) by lia. split; f_equal; lia.
Qed.
End rol_halves.

(** Exchanging the halves is a rotation by 32. *)
Lemma swap_rel x v : lane_rel false x v -> lane_rel false (SPH_ROTL64 x 32) (v.2, v.1).
Proof.
  intros (Hx&H1&H2&Hb). split_rel; [auto with words|done|done|]. intros i Hi.
  cbn [fst snd lo_pos hi_pos]. destruct (Hb i Hi) as [-> ->]. cbn [lo_pos hi_pos].
  rewrite !SPH_ROTL64_testbit by (done || lia).
  assert ((i - 32) mod 64 = 32 + i) as -> by (symmetry; apply Z.mod_unique with (-1); lia).
  replace (32 + i - 32) with i by lia. by rewrite Z.mod_small by lia.
Qed.

Lemma ROTL64_add x n m :
  word 64 x -> 0 < n -> 0 < m -> n + m < 64 -> SPH_ROTL64 (SPH_ROTL64 x n) m = SPH_ROTL64 x (n + m).
Proof.
  intros Hx Hn Hm Hnm. apply (word_ext 64); [auto with words..|]. intros i Hi.
  rewrite !SPH_ROTL64_testbit by (auto with words || lia || by apply Z.mod_pos_bound).
  f_equal. rewrite Zminus_mod_idemp_l. f_equal. lia.
Qed.

Lemma ROL64_halves_rel x v n :
  lane_rel false x v -> 0 < n < 64 -> lane_rel false (SPH_ROTL64 x n) (ROL64_halves v n).
Proof.
  intros Hrel Hn. unfold ROL64_halves. destruct (Z.eqb_spec n 0); [lia|].
  destruct (Z.ltb_spec n 32); [apply ROL64_small_rel; [done|lia]|].
  destruct (Z.eqb_spec n 32) as [->|]; [by apply swap_rel|].
  unfold ROL64_big. cbv zeta.
  replace n with ((n - 32) + 32) at 1 by lia. rewrite <- ROTL64_add by (apply Hrel || lia).
  apply swap_rel, ROL64_small_rel; [done|lia].
Qed.

Lemma lane_rel_rol il n x v :
  0 < n < 64 -> lane_rel il x v -> lane_rel il (SPH_ROTL64 x n) (ROL64_of il v n).
Proof. intros. destruct il; [by apply ROL64_il_rel|by apply ROL64_halves_rel]. Qed.

(** ** Interleaving

    Each line of the macros exchanges the bits selected by a mask with those
    [s] places above them; [t = (x ^ (x >> s)) & m; x ^= t ^ (t << s)]. *)

Definition exchange_bits (s m x : Z) : Z :=
  let t := (x ⊕ (x >> s)) .& m in x ⊕ (t ⊕ (t << s)).

(** Where bit [i] of the result comes from. *)
Definition exchanged (s m i : Z) : Z :=
  if Z.testbit m i then i + s else if Z.testbit m (i - s) then i - s else i.

Lemma exchanged_nonneg s m i : 0 <= s -> 0 <= i -> 0 <= exchanged s m i.
Proof.
  intros. unfold exchanged. case_match; [lia|]. destruct (Z.testbit m (i - s)) eqn:E; [|done].
  destruct (decide (i < s)); [|lia]. by rewrite Z.testbit_neg_r in E by lia.
Qed.

Lemma exchange_bits_testbit s m x i :
  0 <= s -> m .& (m << s) = 0 -> 0 <= i ->
  Z.testbit (exchange_bits s m x) i = Z.testbit x (exchanged s m i).
Proof.
  intros Hs Hm Hi. unfold exchange_bits, exchanged. cbv zeta.
  rewrite !Z.lxor_spec, Z.shiftl_spec, !Z.land_spec, !Z.lxor_spec, Z.shiftr_spec by lia.
  apply (f_equal (fun z => Z.testbit z i)) in Hm.
  rewrite Z.land_spec, Z.shiftl_spec, Z.testbit_0_l in Hm by lia.
  destruct (Z.testbit m i); simpl in Hm.
  - rewrite Hm, andb_true_r, andb_false_r. by destruct (Z.testbit x i), (Z.testbit x (i + s)).
  - rewrite andb_false_r. destruct (Z.testbit m (i - s)) eqn:E.
    + destruct (decide (i < s)); [by rewrite Z.testbit_neg_r in E by lia|].
      rewrite Z.shiftr_spec by lia. replace (i - s + s) with i by lia.
      by destruct (Z.testbit x i), (Z.testbit x (i - s)).
    + rewrite andb_false_r. by destruct (Z.testbit x i).
Qed.

Lemma exchange_bits_word s m x :
  0 <= s <= 32 -> word (32 - s) m -> word 32 x -> word 32 (exchange_bits s m x).
Proof.
  intros Hs Hm Hx. unfold exchange_bits. cbv zeta.
  apply word_lxor; [done..|]. apply word_lxor; [done|apply word_land_l; [done|]|].
  - apply word_lxor; [done..|]. apply word_shiftr; [lia|done].
  - by apply word_mask_shiftl.
Qed.

(** The four lines for one word, in both orders. *)
Definition gather (x : Z) : Z :=
  exchange_bits 8 0x0000FF00 (exchange_bits 4 0x00F000F0
    (exchange_bits 2 0x0C0C0C0C (exchange_bits 1 0x22222222 x))).
Definition scatter (x : Z) : Z :=
  exchange_bits 1 0x22222222 (exchange_bits 2 0x0C0C0C0C
    (exchange_bits 4 0x00F000F0 (exchange_bits 8 0x0000FF00 x))).

(** The last line: the upper half of [l] with the lower half of [h]. *)
Definition exchange_halves (x : Z * Z) : Z * Z :=
  let t := (x.1 ⊕ SPH_T32 (x.2 << 16)) .& 0xFFFF0000 in (x.1 ⊕ t, x.2 ⊕ (t >> 16)).

Lemma INTERLEAVE_il_alt x : INTERLEAVE_il x = exchange_halves (gather x.1, gather x.2).
Proof. by destruct x. Qed.
Lemma UNINTERLEAVE_il_alt x :
  UNINTERLEAVE_il x = (scatter (exchange_halves x).1, scatter (exchange_halves x).2).
Proof. by destruct x. Qed.

Ltac exchanges :=
  rewrite !exchange_bits_testbit by (first [done | repeat apply exchanged_nonneg; lia]).

(** Where the bits of [gather] and [scatter] come from. *)
Lemma gather_testbit x i :
  0 <= i < 32 -> Z.testbit (gather x) i = Z.testbit x (if i <? 16 then 2 * i else 2 * (i - 16) + 1).
Proof.
  intros Hi. unfold gather. exchanges. f_equal.
  assert (forallb (fun i => Z.eqb
    (exchanged 1 0x22222222 (exchanged 2 0x0C0C0C0C (exchanged 4 0x00F000F0 (exchanged 8 0x0000FF00 i))))
    (if i <? 16 then 2 * i else 2 * (i - 16) + 1)) (seqZ 0 32) = true) as H by (by vm_compute).
  rewrite forallb_forall in H. apply Z.eqb_eq, H, list_elem_of_In, elem_of_seqZ. lia.
Qed.

Lemma scatter_testbit x i :
  0 <= i < 32 -> Z.testbit (scatter x) i = Z.testbit x (if Z.odd i then 16 + i / 2 else i / 2).
Proof.
  intros Hi. unfold scatter. exchanges. f_equal.
  assert (forallb (fun i => Z.eqb
    (exchanged 8 0x0000FF00 (exchanged 4 0x00F000F0 (exchanged 2 0x0C0C0C0C (exchanged 1 0x22222222 i))))
    (if Z.odd i then 16 + i / 2 else i / 2)) (seqZ 0 32) = true) as H by (by vm_compute).
  rewrite forallb_forall in H. apply Z.eqb_eq, H, list_elem_of_In, elem_of_seqZ. lia.
Qed.

Lemma gather_word x : word 32 x -> word 32 (gather x).
Proof. intros. unfold gather. by repeat (apply exchange_bits_word; [lia|done|]). Qed.
Lemma scatter_word x : word 32 x -> word 32 (scatter x).
Proof. intros. unfold scatter. by repeat (apply exchange_bits_word; [lia|done|]). Qed.

Lemma exchange_halves_word x : word 32 x.1 -> word 32 x.2 ->
  word 32 (exchange_halves x).1 /\ word 32 (exchange_halves x).2.
Proof. intros. unfold exchange_halves. cbv zeta. cbn [fst snd]. split; auto 6 with words. Qed.

Lemma exchange_halves_testbit x i : 0 <= i < 32 ->
  Z.testbit (exchange_halves x).1 i = (if i <? 16 then Z.testbit x.1 i else Z.testbit x.2 (i - 16)) /\
  Z.testbit (exchange_halves x).2 i = (if i <? 16 then Z.testbit x.1 (i + 16) else Z.testbit x.2 i).
Proof.
  intros Hi. unfold exchange_halves. cbv zeta. cbn [fst snd].
  assert (forall j, 0 <= j -> Z.testbit 0xFFFF0000 j = (16 <=? j) && (j <? 32)) as Hm.
  { intros j Hj. change 0xFFFF0000 with (Z.ones 16 << 16). rewrite Z.shiftl_spec by lia.
    destruct (Z.leb_spec 16 j); [|by rewrite Z.testbit_neg_r by lia].
    rewrite Z.testbit_ones by lia.
    rewrite (proj2 (Z.leb_le _ _)) by lia. simpl. apply eq_iff_eq_true.
    rewrite !Z.ltb_lt. lia. }
  rewrite !Z.lxor_spec, Z.shiftr_spec, !Z.land_spec, !Z.lxor_spec, !SPH_T32_testbit, !Hm by lia.
  destruct (Z.ltb_spec i 16).
  - rewrite (proj2 (Z.leb_gt 16 i)), (proj2 (Z.leb_le 16 (i + 16))), (proj2 (Z.ltb_lt (i + 16) 32)) by lia.
    rewrite (bool_decide_true (i + 16 < 32)), !Z.shiftl_spec by lia.
    replace (i + 16 - 16) with i by lia. rewrite andb_false_r. simpl.
    generalize (Z.testbit x.1 i), (Z.testbit x.1 (i + 16)), (Z.testbit x.2 i). by intros [] [] [].
  - rewrite (proj2 (Z.leb_le 16 i)), (proj2 (Z.ltb_lt i 32)), (proj2 (Z.ltb_ge (i + 16) 32)) by lia.
    rewrite (bool_decide_true (i < 32)), !Z.shiftl_spec by lia.
    rewrite !andb_false_r. simpl.
    generalize (Z.testbit x.1 i), (Z.testbit x.2 i), (Z.testbit x.2 (i - 16)). by intros [] [] [].
Qed.

Lemma INTERLEAVE_rel il x p : lane_rel false x p -> lane_rel il x (INTERLEAVE il p).
Proof.
  destruct il; [|done]. intros (Hx&H1&H2&Hb). cbn [INTERLEAVE]. rewrite INTERLEAVE_il_alt.
  destruct (exchange_halves_word (gather p.1, gather p.2)); [by apply gather_word..|].
  split_rel; [done..|]. intros i Hi.
  destruct (exchange_halves_testbit (gather p.1, gather p.2) i Hi) as [-> ->]. cbn [fst snd lo_pos hi_pos].
  destruct (Z.ltb_spec i 16); rewrite !gather_testbit by lia.
  - rewrite (proj2 (Z.ltb_lt i 16)), (proj2 (Z.ltb_ge (i + 16) 16)) by lia.
    destruct (Hb (2 * i) ltac:(lia)) as [-> _], (Hb (2 * (i + 16 - 16) + 1) ltac:(lia)) as [-> _].
    cbn [lo_pos]. split; f_equal; lia.
  - rewrite (proj2 (Z.ltb_lt (i - 16) 16)), (proj2 (Z.ltb_ge i 16)) by lia.
    destruct (Hb (2 * (i - 16)) ltac:(lia)) as [_ ->], (Hb (2 * (i - 16) + 1) ltac:(lia)) as [_ ->].
    cbn [hi_pos]. split; f_equal; lia.
Qed.

Lemma UNINTERLEAVE_rel il x p : lane_rel il x p -> lane_rel false x (UNINTERLEAVE il p).
Proof.
  destruct il; [|done]. intros (Hx&H1&H2&Hb). cbn [UNINTERLEAVE]. rewrite UNINTERLEAVE_il_alt.
  destruct (exchange_halves_word p H1 H2).
  split_rel; [done|by apply scatter_word..|]. intros i Hi. rewrite !scatter_testbit by done.
  cbn [lo_pos hi_pos].
  pose proof (Z.div_mod i 2 ltac:(lia)) as Hd. rewrite Zmod_odd in Hd.
  destruct (Z.odd i).
  - destruct (exchange_halves_testbit p (16 + i / 2)) as [-> ->]; [lia|].
    rewrite (proj2 (Z.ltb_ge _ 16)) by lia.
    destruct (Hb (16 + i / 2 - 16) ltac:(lia)) as [_ ->], (Hb (16 + i / 2) ltac:(lia)) as [_ ->].
    cbn [hi_pos]. split; f_equal; lia.
  - destruct (exchange_halves_testbit p (i / 2)) as [-> ->]; [lia|].
    rewrite (proj2 (Z.ltb_lt _ 16)) by lia.
    destruct (Hb (i / 2) ltac:(lia)) as [-> _], (Hb (i / 2 + 16) ltac:(lia)) as [-> _].
    cbn [lo_pos]. split; f_equal; lia.
Qed.

(** ** Loading, storing and constants *)

Lemma halves_rel l h : word 32 l -> word 32 h -> lane_rel false (l .| (h << 32)) (l, h).
Proof.
  intros Hl Hh. split_rel; [|done..|].
  - apply word_lor; [done|by apply (word_mono 32)|by apply word_shiftl].
  - intros i Hi. cbn [lo_pos hi_pos]. rewrite !Z.lor_spec, !Z.shiftl_spec by lia.
    rewrite (Z.testbit_neg_r h (i - 32)), (word_testbit_high 32 l (32 + i)) by (done || lia).
    rewrite orb_false_r, orb_false_l. split; f_equal; lia.
Qed.

Lemma lane_rel_of il x : word 64 x -> lane_rel il x (INTERLEAVE il (SPH_T32 x, x >> 32)).
Proof.
  intros Hx. apply INTERLEAVE_rel. split_rel; [done|auto with words| |].
  - split; [apply Z.shiftr_nonneg, Hx|]. rewrite Z.shiftr_div_pow2 by done.
    apply Z.div_lt_upper_bound; [done|]. apply Hx.
  - intros i Hi. rewrite SPH_T32_testbit, bool_decide_true, Z.shiftr_spec by lia.
    split; [done|]. cbn [hi_pos]. f_equal. lia.
Qed.

Lemma dec_rel il b k :
  Forall byte b ->
  lane_rel il (sph_dec64le_aligned (drop k b))
    (INTERLEAVE il (sph_dec32le_aligned (drop k b), sph_dec32le_aligned (drop (k + 4) b))).
Proof.
  intros Hb. apply INTERLEAVE_rel. unfold sph_dec64le_aligned, sph_dec32le_aligned.
  rewrite (load_le_add 4 4), drop_drop.
  apply halves_rel; apply (load_le_word_short 4); by apply Forall_drop.
Qed.

Lemma store_rel x p : lane_rel false x p -> store_le 8 x = store_le 4 p.1 ++ store_le 4 p.2.
Proof.
  intros (_&_&_&Hb). rewrite (store_le_add 4 4). f_equal; apply store_le_ext; intros i Hi.
  - symmetry. by apply Hb.
  - destruct (Hb i Hi) as [_ ->]. rewrite Z.shiftr_spec by lia. cbn [hi_pos]. f_equal. lia.
Qed.

Lemma lanes_rel_of il l :
  words64 l -> Forall2 (lane_rel il) l (map (fun x => INTERLEAVE il (SPH_T32 x, x >> 32)) l).
Proof. induction 1; simpl; constructor; [by apply lane_rel_of|done]. Qed.

Lemma RC_rel il : Forall2 (lane_rel il) RC (RC32 il).
Proof.
  assert (RC32 il = map (fun x => INTERLEAVE il (SPH_T32 x, x >> 32)) RC) as ->
    by (destruct il; by vm_compute).
  apply lanes_rel_of. apply (bool_decide_unpack _). by vm_compute.
Qed.

(** ** The 32-bit functions simulate the 64-bit ones *)

Section simulation.
Context (il : bool).

Abbreviation lanes_sim := (Forall2 (lane_rel il)).

Lemma lane_rel_0 : lane_rel il 0 (0, 0).
Proof. pose proof (lane_rel_of il 0 (word_0 64 ltac:(lia))) as H. by destruct il. Qed.

Lemma lane_rel_all_ones : lane_rel il all_ones all_ones32.
Proof.
  pose proof (lane_rel_of il all_ones ltac:(done)) as H.
  assert (INTERLEAVE il (SPH_T32 all_ones, all_ones >> 32) = all_ones32) as <-
    by (destruct il; by vm_compute). done.
Qed.

Lemma insert_sim i x p w w' :
  lane_rel il x p -> lanes_sim w w' -> lanes_sim (<[i := x]> w) (<[i := p]> w').
Proof. intros. by apply Forall2_insert. Qed.

Lemma lookup_sim i w w' : lanes_sim w w' -> lane_rel il (w !!! i) (w' !!! i).
Proof. apply lookup_total_rel, lane_rel_0. Qed.

Lemma INPUT_BUF_sim r b w w' :
  Forall byte b -> lanes_sim w w' -> lanes_sim (INPUT_BUF r b w) (INPUT_BUF32 il r b w').
Proof.
  intros Hb. unfold INPUT_BUF, INPUT_BUF32. generalize (seq 0 ((r + 7) / 8)). intros l.
  revert w w'. induction l as [|i l IH]; intros w w' Hw; [done|]. cbn [foldl]. apply IH.
  pose proof (dec_rel il b (8 * i) Hb) as Hd. rewrite Nat.add_0_r.
  destruct (INTERLEAVE il _) as [tl th]. apply insert_sim; [|done].
  exact (lane_rel_xor il _ _ _ (tl, th) (lookup_sim i w w' Hw) Hd).
Qed.

Definition state_sim (s1 : keccak_state) (s2 : keccak_state32) : Prop :=
  length (wide s1) = 25%nat /\ klim s1 = klim32 s2 /\ lanes_sim (wide s1) (narrow s2).

Lemma length_INPUT_BUF r b w : length (INPUT_BUF r b w) = length w.
Proof.
  unfold INPUT_BUF. rewrite (foldl_insert_imap (fun i x => x ⊕ sph_dec64le_aligned (drop (8 * i) b))).
  apply length_imap.
Qed.

Lemma length_KECCAK_F rc w :
  length w = 25%nat -> length (@KECCAK_F_1600_8 Z _ lanes64 rc w) = 25%nat.
Proof. intros Hl. by destruct (KECCAK_F_1600_8_view rc (read (P 0) w) w (conj Hl eq_refl)). Qed.

Lemma keccak_block_sim r b s1 s2 :
  Forall byte b -> state_sim s1 s2 -> state_sim (keccak_block r b s1) (keccak_block32 il r b s2).
Proof.
  intros Hb (Hl&Hk&Hw). unfold state_sim, keccak_block, keccak_block32. cbn [wide klim klim32 narrow].
  split_and!; [by apply length_KECCAK_F; rewrite length_INPUT_BUF|done|].
  apply (KECCAK_F_1600_8_rel lanes64 (lanes32 il) (lane_rel il)).
  - exact lane_rel_0.
  - apply lane_rel_xor.
  - apply lane_rel_and.
  - apply lane_rel_or.
  - apply lane_rel_not.
  - apply lane_rel_rol.
  - apply RC_rel.
  - by rewrite length_INPUT_BUF.
  - by apply INPUT_BUF_sim.
Qed.

Abbreviation ctx_sim32 := (ctx_sim state_sim).

Lemma keccak_init_sim c c' size :
  buf c = buf c' -> ctx_sim32 (keccak_init c size) (keccak_init32 c' size).
Proof.
  intros Hb. unfold keccak_init, keccak_init32. split_and!; [done|done|].
  unfold state_sim. cbn [chain wide narrow klim klim32]. split_and!; [done|done|].
  repeat (apply insert_sim; [apply lane_rel_all_ones|]).
  apply Forall2_replicate, lane_rel_0.
Qed.

Lemma keccak_core_sim r c c' data c1 :
  Forall byte (buf c) -> Forall byte data -> ctx_sim32 c c' -> keccak_core c data r = Some c1 ->
  exists c1', keccak_core32 il c' data r = Some c1' /\ ctx_sim32 c1 c1'.
Proof.
  intros Hb Hd. apply (update_sim _ _ _ byte); [|done..]. intros. by apply keccak_block_sim.
Qed.

(** The words that the closing function writes. *)
Definition unmask32 (w : list (Z * Z)) : list (Z * Z) :=
  complement32 20 (complement32 17 (complement32 12 (complement32 8 (complement32 2 (complement32 1 w))))).

Definition out_words (w : list (Z * Z)) : list Z :=
  concat (map (fun x => [x.1; x.2]) (map (UNINTERLEAVE il) (unmask32 w))).

Lemma keccak_close_32_alt d r tmp kc ub n :
  keccak_close_32 il d r tmp kc ub n =
  '(tmp, j) ← close_tmp r tmp (ptr kc) ub n;
  kc ← keccak_core32 il kc (take j tmp) r;
  tmp ← foldl (fun t i => t ← t; memcpy t (4 * i) (sph_enc32le_aligned (out_words (narrow (chain kc)) !!! i)))
          (Some tmp) (seq 0 ((d + 3) / 4));
  Some (take d tmp, keccak_init32 kc (Z.of_nat d << 3)).
Proof. reflexivity. Qed.

Lemma unmask_sim w w' : lanes_sim w w' -> lanes_sim (unmask w) (unmask32 w').
Proof.
  assert (forall i w w', lanes_sim w w' ->
    lanes_sim (<[i := SPH_T64 (Z.lnot (w !!! i))]> w) (complement32 i w')) as Hc.
  { intros i v v' Hv. apply insert_sim; [|done]. by apply lane_rel_not, lookup_sim. }
  intros Hw. unfold unmask, unmask32. cbv zeta. by repeat apply Hc.
Qed.

Lemma out_bytes w w' :
  lanes_sim w w' ->
  concat (map (store_le 4) (concat (map (fun x => [x.1; x.2]) (map (UNINTERLEAVE il) w')))) =
  concat (map (store_le 8) w).
Proof.
  induction 1 as [|x p w w' Hx _ IH]; [done|]. cbn [map concat app].
  rewrite IH, (store_rel x (UNINTERLEAVE il p)) by (by eapply UNINTERLEAVE_rel).
  by rewrite <- app_assoc.
Qed.

Lemma enc_words32 v tmp w :
  length tmp = (rate v + 1)%nat -> length w = 50%nat ->
  exists tmp', foldl (fun t i => t ← t; memcpy t (4 * i) (sph_enc32le_aligned (w !!! i)))
      (Some tmp) (seq 0 ((size_bytes v + 3) / 4)) = Some tmp' /\
    take (size_bytes v) tmp' = take (size_bytes v) (concat (map (store_le 4) w)).
Proof.
  intros Ht Hw.
  assert (4 * ((size_bytes v + 3) / 4) <= rate v + 1 /\ (size_bytes v + 3) / 4 <= 50 /\
    size_bytes v <= 4 * ((size_bytes v + 3) / 4))%nat as (Hd4&Hd50&Hd).
  { destruct v; vm_compute; repeat split; lia. }
  rewrite (memcpy_words (fun i => sph_enc32le_aligned (w !!! i)) 4)
    by (try lia; intros; apply length_store_le).
  eexists. split; [done|]. set (k := ((size_bytes v + 3) / 4)%nat) in *.
  unfold sph_enc32le_aligned. rewrite (map_lookup_seq (store_le 4)) by lia.
  rewrite take_app_le, <- (take_concat_map _ 4) by (try (intros; apply length_store_le);
    rewrite (length_concat_map _ 4), length_take by (intros; apply length_store_le); lia).
  by rewrite take_take, Nat.min_l by lia.
Qed.

Lemma length_pairs (l : list (Z * Z)) :
  length (concat (map (fun x => [x.1; x.2]) l)) = (2 * length l)%nat.
Proof. induction l as [|x l IH]; [done|]. cbn [map concat app length]. rewrite IH. lia. Qed.

Lemma length_unmask w : length (unmask w) = length w.
Proof. unfold unmask. cbv zeta. by rewrite !length_insert. Qed.

Lemma keccak_close_sim v tmp c c' ub n out c1 :
  ctx_inv v c -> ctx_sim32 c c' -> length tmp = (rate v + 1)%nat ->
  keccak_close (size_bytes v) (rate v) tmp c ub n = Some (out, c1) ->
  exists c1', keccak_close_32 il (size_bytes v) (rate v) tmp c' ub n = Some (out, c1') /\
    ctx_sim32 c1 c1'.
Proof.
  intros Hc Hs Ht. destruct (rate_ok v) as (Hr2&_).
  rewrite keccak_close_alt, keccak_close_32_alt. destruct Hs as (Eb&Ep&Hst). rewrite <- Ep.
  destruct (close_tmp_spec (rate v) tmp (ptr c) ub n) as (tmp'&j&->&Ht'&Hj);
    [lia|apply Hc|done|]. cbn [mbind option_bind]. rewrite Hj.
  destruct (keccak_core c _ _) as [k|] eqn:E; [|done]. cbn [mbind option_bind].
  destruct (keccak_core_sim (rate v) c c' (pad_bytes (rate v) (ptr c) ub n) k)
    as (k'&->&(Eb'&Ep'&Hl&Hk&Hw)); [apply Hc|apply Forall_pad_bytes|done|done|].
  cbn [mbind option_bind].
  destruct (enc_words v tmp' (unmask (wide (chain k))) Ht' ltac:(by rewrite length_unmask))
    as (t1&->&E1).
  pose proof (unmask_sim _ _ Hw) as Hu.
  assert (length (out_words (narrow (chain k'))) = 50%nat) as H50.
  { unfold out_words. rewrite length_pairs.
    by rewrite length_map, <- (Forall2_length Hu), length_unmask, Hl. }
  destruct (enc_words32 v tmp' _ Ht' H50) as (t2&->&E2). cbn [mbind option_bind].
  intros [= <- <-]. eexists. split; [|by apply keccak_init_sim].
  do 2 f_equal. rewrite E1, E2. f_equal. unfold out_words. by rewrite (out_bytes _ _ Hu).
Qed.

Lemma keccak32_ops_init tmp v c :
  @sph_init _ (keccak32_ops il tmp v) c = keccak_init32 c (Z.of_nat (size_bits v)).
Proof. by destruct v. Qed.
Lemma keccak32_ops_update tmp v c data :
  @sph_update _ (keccak32_ops il tmp v) c data = keccak_core32 il c data (rate v).
Proof. by destruct v. Qed.
Lemma keccak32_ops_close tmp v c ub n :
  @sph_addbits_and_close _ (keccak32_ops il tmp v) c ub n =
  keccak_close_32 il (size_bytes v) (rate v) tmp c ub n.
Proof. by destruct v. Qed.

Lemma keccak_updates_sim tmp v c c' chunks c1 :
  ctx_inv v c -> ctx_sim32 c c' -> Forall (Forall byte) chunks ->
  @sph_updates _ (keccak_ops tmp v) c chunks = Some c1 ->
  exists c1', @sph_updates _ (keccak32_ops il tmp v) c' chunks = Some c1' /\ ctx_sim32 c1 c1'.
Proof.
  intros Hc Hs Hch. unfold sph_updates. revert c c' Hc Hs.
  induction Hch as [|d chunks Hd Hch IH]; intros c c' Hc Hs; [intros [= <-]; by exists c'|].
  cbn [foldl mbind option_bind]. rewrite keccak_ops_update, keccak32_ops_update.
  destruct (keccak_core c d (rate v)) as [c2|] eqn:E; [|by rewrite foldl_bind_None].
  destruct (keccak_core_sim (rate v) c c' d c2) as (c2'&->&Hs2); [apply Hc|done..|].
  apply IH; [|done]. rewrite keccak_core_update in E by (done || apply Hc).
  by eapply update_ctx_inv.
Qed.
End simulation.

(** The simulation, for whole computations. *)
Lemma keccak32_stream il tmp v c chunks ub n :
  length (buf c) = 144%nat -> Forall byte (buf c) -> length tmp = (rate v + 1)%nat ->
  0 <= n < 8 -> Forall (Forall byte) chunks ->
  exists c1 c2, @sph_updates _ (keccak32_ops il tmp v) (@sph_init _ (keccak32_ops il tmp v) c) chunks = Some c1 /\
    @sph_addbits_and_close _ (keccak32_ops il tmp v) c1 ub n =
      Some (keccak v (message_le (concat chunks) ub n), c2) /\
    c2 ≡ @sph_init _ (keccak32_ops il tmp v) c /\ (length (buf c2) = 144%nat /\ Forall byte (buf c2)).
Proof.
  intros Hl Hb Ht Hn Hch. set (w := BlockCtx (buf c) 0 (KeccakState [] 0)).
  destruct (rate_ok v) as (Hr2&_).
  destruct (keccak_stream tmp v w chunks ub n (conj Hl Hb) Ht Hn Hch) as (c1&c2&Hu&Hcl&Heq&Hm).
  assert (ctx_sim (state_sim il) (@sph_init _ (keccak_ops tmp v) w) (@sph_init _ (keccak32_ops il tmp v) c))
    as Hi.
  { rewrite keccak_ops_init, <- keccak_init_spec, keccak32_ops_init. by apply keccak_init_sim. }
  assert (ctx_inv v (@sph_init _ (keccak_ops tmp v) w)) as H0.
  { rewrite keccak_ops_init. split_and!; [|done|apply init_state_ok]. unfold ctx_ok. simpl. lia. }
  destruct (keccak_updates_sim il tmp v _ _ chunks c1 H0 Hi Hch Hu) as (c1'&Hu'&Hs1).
  assert (ctx_inv v c1) as Hc1.
  { destruct (keccak_updates tmp v _ chunks H0 Hch) as (c1x&Hx&?&_). congruence. }
  rewrite keccak_ops_close in Hcl.
  destruct (keccak_close_sim il v tmp c1 c1' ub n _ _ Hc1 Hs1 Ht Hcl) as (c2'&Hcl'&Hs2).
  exists c1', c2'. split_and!; [done|by rewrite keccak32_ops_close| |..].
  2, 3: destruct Hs2 as (<-&_), Hm; done.
  assert (exists k, c2' = keccak_init32 k (Z.of_nat (size_bits v))) as [k ->].
  { rewrite keccak_close_32_alt in Hcl'. apply bind_Some_inv in Hcl' as ([t j]&_&Hcl').
    apply bind_Some_inv in Hcl' as (k&_&Hcl'). apply bind_Some_inv in Hcl' as (t'&_&Hcl').
    exists k. injection Hcl' as _ <-. by destruct v. }
  rewrite keccak32_ops_init. unfold equiv, block_ctx_equiv.
  destruct Hs2 as (Eb&_), Hm as [Hm _]. rewrite Eb in Hm. simpl in *. by rewrite Hm, Hl.
Qed.

(** with lanes of two 32-bit words, interleaved or in halves, the Keccak
    functions return for every size and every way of cutting the message into
    calls the digest of the sponge construction, the one the 64-bit functions
    return, and leave the context as [init] does. *)
Theorem keccak32_streaming il tmp v c chunks ub n :
  length (buf c) = 144%nat -> Forall byte (buf c) -> length tmp = (rate v + 1)%nat ->
  0 <= n < 8 -> Forall (Forall byte) chunks ->
  exists c1 c2, @sph_updates _ (keccak32_ops il tmp v) (@sph_init _ (keccak32_ops il tmp v) c) chunks = Some c1 /\
    @sph_addbits_and_close _ (keccak32_ops il tmp v) c1 ub n =
      Some (keccak v (message_le (concat chunks) ub n), c2) /\
    c2 ≡ @sph_init _ (keccak32_ops il tmp v) c.
Proof.
  intros Hl Hb Ht Hn Hch.
  destruct (keccak32_stream il tmp v c chunks ub n Hl Hb Ht Hn Hch) as (c1&c2&?&?&?&_). eauto 10.
Qed.

Lemma keccak32_streaming_witness :
  exists c1 c2,
    @sph_updates _ (keccak32_ops true (replicate 145 9) K224)
      (@sph_init _ (keccak32_ops true (replicate 145 9) K224)
         (BlockCtx (replicate 144 255) 5 (KeccakState32 [] 7))) [[104; 101]; [108; 108; 111]]
      = Some c1 /\
    @sph_addbits_and_close _ (keccak32_ops true (replicate 145 9) K224) c1 0xC0 3 =
      Some (keccak K224 (message_le [104; 101; 108; 108; 111] 0xC0 3), c2) /\
    c2 ≡ @sph_init _ (keccak32_ops true (replicate 145 9) K224)
           (BlockCtx (replicate 144 255) 5 (KeccakState32 [] 7)).
Proof.
  apply (keccak32_streaming true (replicate 145 9) K224
    (BlockCtx (replicate 144 255) 5 (KeccakState32 [] 7)) [[104; 101]; [108; 108; 111]] 0xC0 3);
    [reflexivity| |reflexivity|lia|].
  - apply (bool_decide_unpack _). vm_compute. exact I.
  - repeat constructor; done.
Defined.

Lemma INPUT_BUF32_words il r b w :
  INPUT_BUF32 il r b w = foldl (fun w i => READ64 il b i (8 * i) w) w (seq 0 ((r + 7) / 8)).
Proof.
  unfold INPUT_BUF32, READ64. generalize (seq 0 ((r + 7) / 8)). intros l. revert w.
  induction l as [|i l IH]; intros w; [done|]. cbn [foldl]. by rewrite IH, Nat.add_0_r.
Qed.

(** the 32-bit macros that add a block to a state in local variables do what
    the loop over the array does, for the four rates and both representations
    of lanes. *)
Theorem keccak32_input_equiv il v b w :
  INPUT_BUF32_copy il (rate v) b w = INPUT_BUF32 il (rate v) b w /\
  (match v with
   | K224 => INPUT_BUF14432 | K256 => INPUT_BUF13632 | K384 => INPUT_BUF10432 | K512 => INPUT_BUF7232
   end) il b w = INPUT_BUF32 il (rate v) b w.
Proof.
  rewrite INPUT_BUF32_words. destruct v; split;
    cbv [INPUT_BUF32_copy INPUT_BUF14432 INPUT_BUF13632 INPUT_BUF10432 INPUT_BUF7232 rate size_bytes size_bits
      foldl seq a00 a10 a20 a30 a40 a01 a11 a21 a31 a41 a02 a12 a22 a32 a42 a03 a13 a23
      Nat.mul Nat.add Nat.sub Nat.div Nat.divmod Nat.eqb fst];
    reflexivity.
Qed.
