(* ===== verification/Ctaes.v ===== *)
(** * Constant-time AES: [src/src/crypto/ctaes/ctaes.c]

    The cipher of the wallet encryption.  A state is kept in bit slices: slice [i]
    holds bit [i] of the 16 cells, the cell of row [r] and column [c] at position
    [4 r + c].  The model follows the code on slices; the theorems compare it with
    FIPS 197 on bytes and show that decryption inverts encryption. *)

From S2P Require Import Prelude BitReflect SphTypes.

#[local] Open Scope c_scope.

(** ** States *)

(** [uint16_t slice[8]] *)
Abbreviation AES_state := (list Z).

(** The conversion to [uint16_t] of an assignment. *)
Definition u16 (x : Z) : Z := x .& 0xFFFF.

Definition zero_state : AES_state := replicate 8 0.

(** [s->slice[i] |= (byte & 1) << (r * 4 + c); byte >>= 1], for each slice. *)
Fixpoint LoadByte_from (slice : list Z) (byte : Z) (shift : Z) : list Z :=
  match slice with
  | [] => []
  | x :: slice => u16 (x .| ((byte .& 1) << shift)) :: LoadByte_from slice (byte >> 1) shift
  end.

Definition LoadByte (s : AES_state) (byte : Z) (r c : nat) : AES_state :=
  LoadByte_from s byte (Z.of_nat (r * 4 + c)).

(** The two nested loops over columns and rows, in order. *)
Definition cell_order : list (nat * nat) :=
  c ← seq 0 4; r ← seq 0 4; [(r, c)].

(** [LoadByte(s, *(data16++), r, c)]; reading past the end of the array is an error. *)
Definition LoadBytes (s : AES_state) (data16 : list Z) : option AES_state :=
  fst <$> foldl (fun o rc =>
      '(s, data16) ← o;
      match data16 with
      | byte :: data16 => Some (LoadByte s byte rc.1 rc.2, data16)
      | [] => None
      end) (Some (s, data16)) cell_order.

(** The bytes written to [data16], in order. *)
Definition SaveByte (s : AES_state) (r c : nat) : Z :=
  foldl (fun v b => uchar (v .| ((((s !!! b) >> Z.of_nat (r * 4 + c)) .& 1) << Z.of_nat b))) 0 (seq 0 8).

Definition SaveBytes (s : AES_state) : list Z := map (fun rc => SaveByte s rc.1 rc.2) cell_order.

(** ** The S-box circuit *)

(** The assignments before the non-linear part, for both values of [inv]: the
    22 variables that it reads. *)
Definition SubBytes_before (inv : bool) (slice : list Z) : list Z :=
  match slice with
  | [U7; U6; U5; U4; U3; U2; U1; U0] =>
  if inv then
    let T23 := U0 ⊕ U3 in
    let T22 := u16 (Z.lnot (U1 ⊕ U3)) in
    let T2 := u16 (Z.lnot (U0 ⊕ U1)) in
    let T1 := U3 ⊕ U4 in
    let T24 := u16 (Z.lnot (U4 ⊕ U7)) in
    let R5 := U6 ⊕ U7 in
    let T8 := u16 (Z.lnot (U1 ⊕ T23)) in
    let T19 := T22 ⊕ R5 in
    let T9 := u16 (Z.lnot (U7 ⊕ T1)) in
    let T10 := T2 ⊕ T24 in
    let T13 := T2 ⊕ R5 in
    let T3 := T1 ⊕ R5 in
    let T25 := u16 (Z.lnot (U2 ⊕ T1)) in
    let R13 := U1 ⊕ U6 in
    let T17 := u16 (Z.lnot (U2 ⊕ T19)) in
    let T20 := T24 ⊕ R13 in
    let T4 := U4 ⊕ T8 in
    let R17 := u16 (Z.lnot (U2 ⊕ U5)) in
    let R18 := u16 (Z.lnot (U5 ⊕ U6)) in
    let R19 := u16 (Z.lnot (U2 ⊕ U4)) in
    let D := U0 ⊕ R17 in
    let T6 := T22 ⊕ R17 in
    let T16 := R13 ⊕ R19 in
    let T27 := T1 ⊕ R18 in
    let T15 := T10 ⊕ T27 in
    let T14 := T10 ⊕ R18 in
    let T26 := T3 ⊕ T16 in
    [T1; T2; T3; T4; T6; T8; T9; T10; T13; T14; T15; T16; T17; T19; T20; T22; T23; T24;
     T25; T26; T27; D]
  else
    let T1 := U0 ⊕ U3 in
    let T2 := U0 ⊕ U5 in
    let T3 := U0 ⊕ U6 in
    let T4 := U3 ⊕ U5 in
    let T5 := U4 ⊕ U6 in
    let T6 := T1 ⊕ T5 in
    let T7 := U1 ⊕ U2 in
    let T8 := U7 ⊕ T6 in
    let T9 := U7 ⊕ T7 in
    let T10 := T6 ⊕ T7 in
    let T11 := U1 ⊕ U5 in
    let T12 := U2 ⊕ U5 in
    let T13 := T3 ⊕ T4 in
    let T14 := T6 ⊕ T11 in
    let T15 := T5 ⊕ T11 in
    let T16 := T5 ⊕ T12 in
    let T17 := T9 ⊕ T16 in
    let T18 := U3 ⊕ U7 in
    let T19 := T7 ⊕ T18 in
    let T20 := T1 ⊕ T19 in
    let T21 := U6 ⊕ U7 in
    let T22 := T7 ⊕ T21 in
    let T23 := T2 ⊕ T22 in
    let T24 := T2 ⊕ T10 in
    let T25 := T20 ⊕ T17 in
    let T26 := T3 ⊕ T16 in
    let T27 := T1 ⊕ T12 in
    let D := U7 in
    [T1; T2; T3; T4; T6; T8; T9; T10; T13; T14; T15; T16; T17; T19; T20; T22; T23; T24;
     T25; T26; T27; D]
  | _ => []
  end.

Definition SubBytes_nonlinear (t : list Z) : list Z :=
  match t with
  | [T1; T2; T3; T4; T6; T8; T9; T10; T13; T14; T15; T16; T17; T19; T20; T22; T23; T24;
     T25; T26; T27; D] =>
    let M1 := T13 .& T6 in
    let M6 := T3 .& T16 in
    let M11 := T1 .& T15 in
    let M13 := (T4 .& T27) ⊕ M11 in
    let M15 := (T2 .& T10) ⊕ M11 in
    let M20 := T14 ⊕ M1 ⊕ (T23 .& T8) ⊕ M13 in
    let M21 := (T19 .& D) ⊕ M1 ⊕ T24 ⊕ M15 in
    let M22 := T26 ⊕ M6 ⊕ (T22 .& T9) ⊕ M13 in
    let M23 := (T20 .& T17) ⊕ M6 ⊕ M15 ⊕ T25 in
    let M25 := M22 .& M20 in
    let M37 := M21 ⊕ ((M20 ⊕ M21) .& (M23 ⊕ M25)) in
    let M38 := M20 ⊕ M25 ⊕ (M21 .| (M20 .& M23)) in
    let M39 := M23 ⊕ ((M22 ⊕ M23) .& (M21 ⊕ M25)) in
    let M40 := M22 ⊕ M25 ⊕ (M23 .| (M21 .& M22)) in
    let M41 := M38 ⊕ M40 in
    let M42 := M37 ⊕ M39 in
    let M43 := M37 ⊕ M38 in
    let M44 := M39 ⊕ M40 in
    let M45 := M42 ⊕ M41 in
    let M46 := M44 .& T6 in
    let M47 := M40 .& T8 in
    let M48 := M39 .& D in
    let M49 := M43 .& T16 in
    let M50 := M38 .& T9 in
    let M51 := M37 .& T17 in
    let M52 := M42 .& T15 in
    let M53 := M45 .& T27 in
    let M54 := M41 .& T10 in
    let M55 := M44 .& T13 in
    let M56 := M40 .& T23 in
    let M57 := M39 .& T19 in
    let M58 := M43 .& T3 in
    let M59 := M38 .& T22 in
    let M60 := M37 .& T20 in
    let M61 := M42 .& T1 in
    let M62 := M45 .& T4 in
    let M63 := M41 .& T2 in
    [M46; M47; M48; M49; M50; M51; M52; M53; M54; M55; M56; M57; M58; M59; M60; M61; M62;
     M63]
  | _ => []
  end.

Definition SubBytes_after (inv : bool) (m : list Z) : list Z :=
  match m with
  | [M46; M47; M48; M49; M50; M51; M52; M53; M54; M55; M56; M57; M58; M59; M60; M61; M62;
     M63] =>
  if inv then
    let P0 := M52 ⊕ M61 in
    let P1 := M58 ⊕ M59 in
    let P2 := M54 ⊕ M62 in
    let P3 := M47 ⊕ M50 in
    let P4 := M48 ⊕ M56 in
    let P5 := M46 ⊕ M51 in
    let P6 := M49 ⊕ M60 in
    let P7 := P0 ⊕ P1 in
    let P8 := M50 ⊕ M53 in
    let P9 := M55 ⊕ M63 in
    let P10 := M57 ⊕ P4 in
    let P11 := P0 ⊕ P3 in
    let P12 := M46 ⊕ M48 in
    let P13 := M49 ⊕ M51 in
    let P14 := M49 ⊕ M62 in
    let P15 := M54 ⊕ M59 in
    let P16 := M57 ⊕ M61 in
    let P17 := M58 ⊕ P2 in
    let P18 := M63 ⊕ P5 in
    let P19 := P2 ⊕ P3 in
    let P20 := P4 ⊕ P6 in
    let P22 := P2 ⊕ P7 in
    let P23 := P7 ⊕ P8 in
    let P24 := P5 ⊕ P7 in
    let P25 := P6 ⊕ P10 in
    let P26 := P9 ⊕ P11 in
    let P27 := P10 ⊕ P18 in
    let P28 := P11 ⊕ P25 in
    let P29 := P15 ⊕ P20 in
    [P9 ⊕ P16; P14 ⊕ P23; P19 ⊕ P24; P23 ⊕ P27; P12 ⊕ P22; P17 ⊕ P28; P26 ⊕ P29; P13 ⊕
     P22]
  else
    let L0 := M61 ⊕ M62 in
    let L1 := M50 ⊕ M56 in
    let L2 := M46 ⊕ M48 in
    let L3 := M47 ⊕ M55 in
    let L4 := M54 ⊕ M58 in
    let L5 := M49 ⊕ M61 in
    let L6 := M62 ⊕ L5 in
    let L7 := M46 ⊕ L3 in
    let L8 := M51 ⊕ M59 in
    let L9 := M52 ⊕ M53 in
    let L10 := M53 ⊕ L4 in
    let L11 := M60 ⊕ L2 in
    let L12 := M48 ⊕ M51 in
    let L13 := M50 ⊕ L0 in
    let L14 := M52 ⊕ M61 in
    let L15 := M55 ⊕ L1 in
    let L16 := M56 ⊕ L0 in
    let L17 := M57 ⊕ L1 in
    let L18 := M58 ⊕ L8 in
    let L19 := M63 ⊕ L4 in
    let L20 := L0 ⊕ L1 in
    let L21 := L1 ⊕ L7 in
    let L22 := L3 ⊕ L12 in
    let L23 := L18 ⊕ L2 in
    let L24 := L15 ⊕ L9 in
    let L25 := L6 ⊕ L10 in
    let L26 := L7 ⊕ L9 in
    let L27 := L8 ⊕ L10 in
    let L28 := L11 ⊕ L14 in
    let L29 := L11 ⊕ L17 in
    [u16 (Z.lnot (L6 ⊕ L23)); u16 (Z.lnot (L13 ⊕ L27)); L25 ⊕ L29; L20 ⊕ L22; L6 ⊕ L21;
     u16 (Z.lnot (L19 ⊕ L28)); u16 (Z.lnot (L16 ⊕ L26)); L6 ⊕ L24]
  | _ => []
  end.

Definition SubBytes (s : AES_state) (inv : bool) : AES_state :=
  SubBytes_after inv (SubBytes_nonlinear (SubBytes_before inv s)).

(** ** Rows and columns *)

Definition BIT_RANGE (from to : Z) : Z := ((1 << (to - from)) - 1) << from.
Definition BIT_RANGE_LEFT (x from to shift : Z) : Z := (x .& BIT_RANGE from to) << shift.
Definition BIT_RANGE_RIGHT (x from to shift : Z) : Z := (x .& BIT_RANGE from to) >> shift.

Definition ShiftRows_slice (v : Z) : Z :=
  u16 ((v .& BIT_RANGE 0 4) .|
    BIT_RANGE_LEFT v 4 5 3 .| BIT_RANGE_RIGHT v 5 8 1 .|
    BIT_RANGE_LEFT v 8 10 2 .| BIT_RANGE_RIGHT v 10 12 2 .|
    BIT_RANGE_LEFT v 12 15 1 .| BIT_RANGE_RIGHT v 15 16 3).
Definition ShiftRows (s : AES_state) : AES_state := map ShiftRows_slice s.

Definition InvShiftRows_slice (v : Z) : Z :=
  u16 ((v .& BIT_RANGE 0 4) .|
    BIT_RANGE_LEFT v 4 7 1 .| BIT_RANGE_RIGHT v 7 8 3 .|
    BIT_RANGE_LEFT v 8 10 2 .| BIT_RANGE_RIGHT v 10 12 2 .|
    BIT_RANGE_LEFT v 12 13 3 .| BIT_RANGE_RIGHT v 13 16 1).
Definition InvShiftRows (s : AES_state) : AES_state := map InvShiftRows_slice s.

Definition ROT (x b : Z) : Z := (x >> (b * 4)) .| (x << ((4 - b) * 4)).

Definition MixColumns (s : AES_state) (inv : bool) : AES_state :=
  match s with
  | [s0; s1; s2; s3; s4; s5; s6; s7] =>
    let s0_01 := u16 (s0 ⊕ ROT s0 1) in let s0_123 := u16 (ROT s0_01 1 ⊕ ROT s0 3) in
    let s1_01 := u16 (s1 ⊕ ROT s1 1) in let s1_123 := u16 (ROT s1_01 1 ⊕ ROT s1 3) in
    let s2_01 := u16 (s2 ⊕ ROT s2 1) in let s2_123 := u16 (ROT s2_01 1 ⊕ ROT s2 3) in
    let s3_01 := u16 (s3 ⊕ ROT s3 1) in let s3_123 := u16 (ROT s3_01 1 ⊕ ROT s3 3) in
    let s4_01 := u16 (s4 ⊕ ROT s4 1) in let s4_123 := u16 (ROT s4_01 1 ⊕ ROT s4 3) in
    let s5_01 := u16 (s5 ⊕ ROT s5 1) in let s5_123 := u16 (ROT s5_01 1 ⊕ ROT s5 3) in
    let s6_01 := u16 (s6 ⊕ ROT s6 1) in let s6_123 := u16 (ROT s6_01 1 ⊕ ROT s6 3) in
    let s7_01 := u16 (s7 ⊕ ROT s7 1) in let s7_123 := u16 (ROT s7_01 1 ⊕ ROT s7 3) in
    let s0 := s7_01 ⊕ s0_123 in
    let s1 := s7_01 ⊕ s0_01 ⊕ s1_123 in
    let s2 := s1_01 ⊕ s2_123 in
    let s3 := s7_01 ⊕ s2_01 ⊕ s3_123 in
    let s4 := s7_01 ⊕ s3_01 ⊕ s4_123 in
    let s5 := s4_01 ⊕ s5_123 in
    let s6 := s5_01 ⊕ s6_123 in
    let s7 := s6_01 ⊕ s7_123 in
    if inv then
      let t0_02 := u16 (s0 ⊕ ROT s0 2) in
      let t1_02 := u16 (s1 ⊕ ROT s1 2) in
      let t2_02 := u16 (s2 ⊕ ROT s2 2) in
      let t3_02 := u16 (s3 ⊕ ROT s3 2) in
      let t4_02 := u16 (s4 ⊕ ROT s4 2) in
      let t5_02 := u16 (s5 ⊕ ROT s5 2) in
      let t6_02 := u16 (s6 ⊕ ROT s6 2) in
      let t7_02 := u16 (s7 ⊕ ROT s7 2) in
      let s0 := s0 ⊕ t6_02 in
      let s1 := s1 ⊕ (t6_02 ⊕ t7_02) in
      let s2 := s2 ⊕ (t0_02 ⊕ t7_02) in
      let s3 := s3 ⊕ (t1_02 ⊕ t6_02) in
      let s4 := s4 ⊕ (t2_02 ⊕ t6_02 ⊕ t7_02) in
      let s5 := s5 ⊕ (t3_02 ⊕ t7_02) in
      let s6 := s6 ⊕ t4_02 in
      let s7 := s7 ⊕ t5_02 in
      [s0; s1; s2; s3; s4; s5; s6; s7]
    else [s0; s1; s2; s3; s4; s5; s6; s7]
  | _ => []
  end.

Definition AddRoundKey (s round : AES_state) : AES_state := zip_with (fun x y => x ⊕ y) s round.

(** ** Key schedule *)

Definition GetOneColumn (a : AES_state) (c : Z) : AES_state :=
  map (fun x => (x >> c) .& 0x1111) a.

(** The new values of [s] and [r]. *)
Definition KeySetupColumnMix (s r a : AES_state) (c1 c2 : Z) : AES_state * AES_state :=
  let s := zip_with (fun x y => x ⊕ ((y >> c2) .& 0x1111)) s a in
  (s, zip_with (fun x y => u16 (y .| ((x .& 0x1111) << c1))) s r).

Definition KeySetupTransform (s r : AES_state) : AES_state :=
  zip_with (fun x y => u16 (((x >> 4) .| (x << 12)) ⊕ y)) s r.

Definition MultX (s : AES_state) : AES_state :=
  match s with
  | [s0; s1; s2; s3; s4; s5; s6; top] =>
    [top; s0 ⊕ top; s1; s2 ⊕ top; s3 ⊕ top; s4; s5; s6]
  | _ => []
  end.

(** Access to the array of round keys; outside it is an error. *)
Definition update_key (rounds : list AES_state) (i : nat) (f : AES_state -> AES_state)
    : option (list AES_state) :=
  s ← rounds !! i; Some (<[i := f s]> rounds).

(** The variables of the second loop: round keys, [column], [rcon], [pos]. *)
Record setup_vars := SetupVars {
  sv_rounds : list AES_state; sv_column : AES_state; sv_rcon : AES_state; sv_pos : nat }.

(** The body of the second loop. *)
Definition setup_step (nkeywords : nat) (v : setup_vars) (i : nat) : option setup_vars :=
  let column := sv_column v in
  let rcon := sv_rcon v in
  let pos := sv_pos v in
  let '(column, rcon) :=
    if (pos =? 0)%nat then
      (KeySetupTransform (SubBytes column false) rcon, MultX rcon)
    else if (6 <? nkeywords)%nat && (pos =? 4)%nat then (SubBytes column false, rcon)
    else (column, rcon) in
  let pos := if (S pos =? nkeywords)%nat then 0%nat else S pos in
  r ← sv_rounds v !! (i / 4)%nat;
  a ← sv_rounds v !! ((i - nkeywords) / 4)%nat;
  let '(column, r) :=
    KeySetupColumnMix column r a (Z.of_nat (i mod 4)) (Z.of_nat ((i - nkeywords) mod 4)) in
  Some (SetupVars (<[(i / 4)%nat := r]> (sv_rounds v)) column rcon pos).

(** [rounds] holds the previous contents of the array, which has at least
    [nrounds + 1] elements. *)
Definition AES_setup (rounds : list AES_state) (key : list Z) (nkeywords nrounds : nat)
    : option (list AES_state) :=
  let rcon := [1; 0; 0; 0; 0; 0; 0; 0] in
  rounds ← foldl (fun o i => rounds ← o; update_key rounds i (fun _ => zero_state))
             (Some rounds) (seq 0 (nrounds + 1));
  '(rounds, key) ← foldl (fun o ir =>
      '(rounds, key) ← o;
      match key with
      | byte :: key =>
        rounds ← update_key rounds (ir.1 / 4) (fun s => LoadByte s byte ir.2 (ir.1 mod 4));
        Some (rounds, key)
      | [] => None
      end) (Some (rounds, key)) (i ← seq 0 nkeywords; r ← seq 0 4; [(i, r)]);
  a ← rounds !! ((nkeywords - 1) / 4)%nat;
  let column := GetOneColumn a (Z.of_nat ((nkeywords - 1) mod 4)) in
  v ← foldl (fun o i => v ← o; setup_step nkeywords v i)
        (Some (SetupVars rounds column rcon 0)) (seq nkeywords (4 * (nrounds + 1) - nkeywords));
  Some (sv_rounds v).

(** ** One block *)

Definition AES_encrypt (rounds : list AES_state) (nrounds : nat) (plain16 : list Z)
    : option (list Z) :=
  s ← LoadBytes zero_state plain16;
  k ← rounds !! 0%nat;
  let s := AddRoundKey s k in
  s ← foldl (fun o round =>
      s ← o;
      let s := SubBytes s false in
      let s := ShiftRows s in
      let s := MixColumns s false in
      k ← rounds !! round;
      Some (AddRoundKey s k)) (Some s) (seq 1 (nrounds - 1));
  let s := SubBytes s false in
  let s := ShiftRows s in
  k ← rounds !! nrounds;
  Some (SaveBytes (AddRoundKey s k)).

Definition AES_decrypt (rounds : list AES_state) (nrounds : nat) (cipher16 : list Z)
    : option (list Z) :=
  s ← LoadBytes zero_state cipher16;
  k ← rounds !! nrounds;
  let s := AddRoundKey s k in
  s ← foldl (fun o round =>
      s ← o;
      let s := InvShiftRows s in
      let s := SubBytes s true in
      k ← rounds !! (nrounds - round)%nat;
      let s := AddRoundKey s k in
      Some (MixColumns s true)) (Some s) (seq 1 (nrounds - 1));
  let s := InvShiftRows s in
  let s := SubBytes s true in
  k ← rounds !! 0%nat;
  Some (SaveBytes (AddRoundKey s k)).

(** ** The exported functions *)

(** [while (blocks--) { f(...); cipher16 += 16; plain16 += 16; }] *)
Fixpoint each_block (f : list Z -> option (list Z)) (blocks : nat) (data : list Z)
    : option (list Z) :=
  match blocks with
  | O => Some []
  | S blocks => out ← f data; rest ← each_block f blocks (drop 16 data); Some (out ++ rest)
  end.

Definition AES128_init (rk : list AES_state) (key16 : list Z) : option (list AES_state) :=
  AES_setup rk key16 4 10.
Definition AES128_encrypt (rk : list AES_state) (blocks : nat) (plain16 : list Z) : option (list Z) :=
  each_block (AES_encrypt rk 10) blocks plain16.
Definition AES128_decrypt (rk : list AES_state) (blocks : nat) (cipher16 : list Z) : option (list Z) :=
  each_block (AES_decrypt rk 10) blocks cipher16.

Definition AES192_init (rk : list AES_state) (key24 : list Z) : option (list AES_state) :=
  AES_setup rk key24 6 12.
Definition AES192_encrypt (rk : list AES_state) (blocks : nat) (plain16 : list Z) : option (list Z) :=
  each_block (AES_encrypt rk 12) blocks plain16.
Definition AES192_decrypt (rk : list AES_state) (blocks : nat) (cipher16 : list Z) : option (list Z) :=
  each_block (AES_decrypt rk 12) blocks cipher16.

Definition AES256_init (rk : list AES_state) (key32 : list Z) : option (list AES_state) :=
  AES_setup rk key32 8 14.
Definition AES256_encrypt (rk : list AES_state) (blocks : nat) (plain16 : list Z) : option (list Z) :=
  each_block (AES_encrypt rk 14) blocks plain16.
Definition AES256_decrypt (rk : list AES_state) (blocks : nat) (cipher16 : list Z) : option (list Z) :=
  each_block (AES_decrypt rk 14) blocks cipher16.

(** ** FIPS 197, on bytes

    A state is the list of its 16 bytes in the order of the input block: the cell
    of row [r] and column [c] has index [r + 4 c]. *)

(** Arithmetic in GF(2^8) modulo x^8 + x^4 + x^3 + x + 1. *)
Definition xtime (x : Z) : Z := (x << 1) ⊕ (if Z.testbit x 7 then 0x11B else 0).

Fixpoint gmul_bits (n : nat) (x y : Z) : Z :=
  match n with
  | O => 0
  | S n => (if Z.odd x then y else 0) ⊕ gmul_bits n (x >> 1) (xtime y)
  end.
Definition gmul (x y : Z) : Z := gmul_bits 8 x y.

(** x^254, the inverse of x, and 0 for 0. *)
Definition ginv (x : Z) : Z :=
  let x2 := gmul x x in
  let x4 := gmul x2 x2 in
  let x8 := gmul x4 x4 in
  let x16 := gmul x8 x8 in
  let x32 := gmul x16 x16 in
  let x64 := gmul x32 x32 in
  let x128 := gmul x64 x64 in
  gmul x128 (gmul x64 (gmul x32 (gmul x16 (gmul x8 (gmul x4 x2))))).

Definition rotl8 (x n : Z) : Z := ((x << n) .| (x >> (8 - n))) .& 0xFF.
Definition sbox (x : Z) : Z :=
  let y := ginv x in y ⊕ rotl8 y 1 ⊕ rotl8 y 2 ⊕ rotl8 y 3 ⊕ rotl8 y 4 ⊕ 0x63.
Definition inv_sbox (x : Z) : Z := ginv (rotl8 x 1 ⊕ rotl8 x 3 ⊕ rotl8 x 6 ⊕ 0x05).

Definition at_cell (A : list Z) (r c : nat) : Z := A !!! (r mod 4 + 4 * (c mod 4))%nat.
Definition of_cells (f : nat -> nat -> Z) : list Z := map (fun k => f (k mod 4) (k / 4))%nat (seq 0 16).

Definition sub_bytes (A : list Z) : list Z := map sbox A.
Definition inv_sub_bytes (A : list Z) : list Z := map inv_sbox A.
Definition shift_rows (A : list Z) : list Z := of_cells (fun r c => at_cell A r (c + r)).
Definition inv_shift_rows (A : list Z) : list Z := of_cells (fun r c => at_cell A r (c + 4 - r)).
Definition mix_columns (A : list Z) : list Z := of_cells (fun r c =>
  gmul 2 (at_cell A r c) ⊕ gmul 3 (at_cell A (r + 1) c) ⊕ at_cell A (r + 2) c ⊕ at_cell A (r + 3) c).
Definition inv_mix_columns (A : list Z) : list Z := of_cells (fun r c =>
  gmul 0xe (at_cell A r c) ⊕ gmul 0xb (at_cell A (r + 1) c) ⊕
  gmul 0xd (at_cell A (r + 2) c) ⊕ gmul 0x9 (at_cell A (r + 3) c)).

(** The key schedule [w], a list of words of 4 bytes. *)
Definition xor_bytes (a b : list Z) : list Z := zip_with Z.lxor a b.
Definition rot_word (a : list Z) : list Z := drop 1 a ++ take 1 a.
Definition Rcon (i : nat) : list Z := [Nat.iter (i - 1) xtime 1; 0; 0; 0].

Definition next_word (nk i : nat) (w : list (list Z)) : list Z :=
  let temp := w !!! (i - 1)%nat in
  let temp :=
    if (i mod nk =? 0)%nat then xor_bytes (sub_bytes (rot_word temp)) (Rcon (i / nk))
    else if (6 <? nk)%nat && (i mod nk =? 4)%nat then sub_bytes temp
    else temp in
  xor_bytes (w !!! (i - nk)%nat) temp.

Fixpoint words4 (n : nat) (key : list Z) : list (list Z) :=
  match n with O => [] | S n => take 4 key :: words4 n (drop 4 key) end.

Definition key_expansion (nk nr : nat) (key : list Z) : list (list Z) :=
  foldl (fun w i => w ++ [next_word nk i w]) (words4 nk key) (seq nk (4 * (nr + 1) - nk)).

(** The round key: words [4 i] to [4 i + 3]. *)
Definition round_key (w : list (list Z)) (i : nat) : list Z := concat (take 4 (drop (4 * i) w)).

Definition cipher (nr : nat) (w : list (list Z)) (input : list Z) : list Z :=
  let A := xor_bytes input (round_key w 0) in
  let A := foldl (fun A i => xor_bytes (mix_columns (shift_rows (sub_bytes A))) (round_key w i))
             A (seq 1 (nr - 1)) in
  xor_bytes (shift_rows (sub_bytes A)) (round_key w nr).

Definition inv_cipher (nr : nat) (w : list (list Z)) (input : list Z) : list Z :=
  let A := xor_bytes input (round_key w nr) in
  let A := foldl (fun A i => inv_mix_columns (xor_bytes (inv_sub_bytes (inv_shift_rows A)) (round_key w i)))
             A (rev (seq 1 (nr - 1))) in
  xor_bytes (inv_sub_bytes (inv_shift_rows A)) (round_key w 0).

(** ** Cells of a sliced state *)

Definition state_ok (s : AES_state) : Prop := length s = 8%nat /\ Forall (word 16) s.

(** The byte at a position. *)
Definition cell (s : AES_state) (p : Z) : Z :=
  foldr (fun x v => Z.b2z (Z.testbit x p) + 2 * v) 0 s.

(** The 16 bytes in the order of the input block. *)
Definition bytes_of (s : AES_state) : list Z :=
  of_cells (fun r c => cell s (Z.of_nat (r * 4 + c))).

Lemma cell_testbit s p b : 0 <= b -> Z.testbit (cell s p) b = Z.testbit (s !!! Z.to_nat b) p.
Proof.
  revert b. induction s as [|x s IH]; intros b Hb.
  { by rewrite list_lookup_total_alt, lookup_nil, !Z.testbit_0_l. }
  cbn [cell foldr]. fold (cell s p). rewrite Z.add_comm.
  destruct (decide (b = 0)) as [->|Hne]; [by rewrite Z.testbit_0_r|].
  rewrite Z.add_comm. replace b with (Z.succ (b - 1)) at 1 by lia.
  rewrite Z.add_comm, Z.testbit_succ_r, IH by lia.
  replace (Z.to_nat b) with (S (Z.to_nat (b - 1))) by lia. done.
Qed.

Lemma cell_bound s p : 0 <= cell s p < 2 ^ Z.of_nat (length s).
Proof.
  induction s as [|x s IH]; [done|]. cbn [cell foldr length]. fold (cell s p).
  rewrite Nat2Z.inj_succ, Z.pow_succ_r by lia. destruct (Z.testbit x p); simpl Z.b2z; lia.
Qed.

Lemma cell_byte s p : length s = 8%nat -> byte (cell s p).
Proof. intros H. pose proof (cell_bound s p) as Hb. by rewrite H in Hb. Qed.

Lemma cell_ext s p x :
  length s = 8%nat -> byte x -> (forall b, (b < 8)%nat -> Z.testbit (s !!! b) p = Z.testbit x (Z.of_nat b)) ->
  cell s p = x.
Proof.
  intros Hs Hx Hb. apply (word_ext 8); [by apply cell_byte|done|]. intros i Hi.
  rewrite cell_testbit, Hb by lia. by rewrite Z2Nat.id by lia.
Qed.

Lemma u16_testbit x i : Z.testbit (u16 x) i = bool_decide (i < 16) && Z.testbit x i.
Proof.
  unfold u16. rewrite Z.land_spec. change 0xFFFF with (Z.ones 16).
  destruct (decide (i < 0)); [by rewrite !Z.testbit_neg_r, !andb_false_r by lia|].
  rewrite Z.testbit_ones_nonneg by lia. rewrite andb_comm. f_equal.
  case_bool_decide; [by apply Z.ltb_lt|by apply Z.ltb_ge; lia].
Qed.

Lemma u16_word x : word 16 (u16 x).
Proof. by apply word_land_r. Qed.
#[export] Hint Resolve u16_word : words.

(** ** The S-box circuit computes the S-box

    The circuit only uses bitwise operations, so position [p] of its result is
    position 0 of the circuit applied to the bits at position [p]; there are 256
    such inputs. *)

Section circuit.
Context (R : Z -> Z -> Prop).
Context (R_xor : forall a b c d, R a b -> R c d -> R (a ⊕ c) (b ⊕ d)).
Context (R_and : forall a b c d, R a b -> R c d -> R (a .& c) (b .& d)).
Context (R_or : forall a b c d, R a b -> R c d -> R (a .| c) (b .| d)).
Context (R_not : forall a b, R a b -> R (u16 (Z.lnot a)) (u16 (Z.lnot b))).

Ltac gates := repeat first [assumption | apply R_not | apply R_xor | apply R_and | apply R_or].

(** One assignment of the circuit. *)
Lemma rel_let a b (f g : Z -> list Z) :
  R a b -> (forall x y, R x y -> Forall2 R (f x) (g y)) ->
  Forall2 R (let x := a in f x) (let y := b in g y).
Proof. intros H Hf. by apply Hf. Qed.

Ltac circuit :=
  repeat lazymatch goal with
  | |- Forall2 _ (let x := ?a in @?f x) (let y := ?b in @?g y) =>
      apply (rel_let a b f g); [gates|intros ?x ?y ?]; cbv beta
  end;
  repeat (apply Forall2_cons_2; [gates|]); apply Forall2_nil_2.

Lemma SubBytes_before_rel inv s s' :
  length s = 8%nat -> Forall2 R s s' ->
  Forall2 R (SubBytes_before inv s) (SubBytes_before inv s').
Proof.
  intros Hl H. do 8 (destruct s as [|? s]; [discriminate Hl|];
    apply Forall2_cons_inv_l in H as (?&?&?&H&->)).
  destruct s; [|discriminate Hl]. apply Forall2_nil_inv_l in H as ->.
  cbv beta iota delta [SubBytes_before]. destruct inv; circuit.
Qed.

Lemma SubBytes_nonlinear_rel s s' :
  length s = 22%nat -> Forall2 R s s' ->
  Forall2 R (SubBytes_nonlinear s) (SubBytes_nonlinear s').
Proof.
  intros Hl H. do 22 (destruct s as [|? s]; [discriminate Hl|];
    apply Forall2_cons_inv_l in H as (?&?&?&H&->)).
  destruct s; [|discriminate Hl]. apply Forall2_nil_inv_l in H as ->.
  cbv beta iota delta [SubBytes_nonlinear]. circuit.
Qed.

Lemma SubBytes_after_rel inv s s' :
  length s = 18%nat -> Forall2 R s s' ->
  Forall2 R (SubBytes_after inv s) (SubBytes_after inv s').
Proof.
  intros Hl H. do 18 (destruct s as [|? s]; [discriminate Hl|];
    apply Forall2_cons_inv_l in H as (?&?&?&H&->)).
  destruct s; [|discriminate Hl]. apply Forall2_nil_inv_l in H as ->.
  cbv beta iota delta [SubBytes_after]. destruct inv; circuit.
Qed.

Lemma SubBytes_rel inv s s' :
  length s = 8%nat -> Forall2 R s s' -> Forall2 R (SubBytes s inv) (SubBytes s' inv).
Proof.
  intros Hl H. do 8 (destruct s as [|? s]; [discriminate Hl|]). destruct s; [|discriminate Hl].
  apply SubBytes_after_rel; [by destruct inv|].
  apply SubBytes_nonlinear_rel; [by destruct inv|]. by apply SubBytes_before_rel.
Qed.
End circuit.

Lemma length_SubBytes inv s : length s = 8%nat -> length (SubBytes s inv) = 8%nat.
Proof.
  intros Hl. do 8 (destruct s as [|? s]; [discriminate Hl|]). destruct s; [|discriminate Hl].
  by destruct inv.
Qed.

Lemma SubBytes_ok inv s : state_ok s -> state_ok (SubBytes s inv).
Proof.
  intros [Hl Hw]. split; [by apply length_SubBytes|].
  assert (Forall2 (fun x _ => word 16 x) s s) as Hs by (by apply Forall_Forall2_diag).
  eapply (SubBytes_rel (fun x _ => word 16 x)) in Hs; [|auto with words..|done].
  apply (Forall2_Forall_l _ (word 16)) in Hs; [exact Hs|]. by apply Forall_true.
Qed.

(** The eight bits of a byte, as slices with one position. *)
Definition byte_slices (x : Z) : AES_state := map (fun b => Z.b2z (Z.testbit x b)) (seqZ 0 8).

Lemma SubBytes_table inv :
  forallb (fun x => cell (SubBytes (byte_slices x) inv) 0 =? (if inv then inv_sbox else sbox) x)
    (seqZ 0 256) = true.
Proof. destruct inv; vm_compute; reflexivity. Qed.

Lemma SubBytes_cell inv s p :
  length s = 8%nat -> 0 <= p < 16 ->
  cell (SubBytes s inv) p = (if inv then inv_sbox else sbox) (cell s p).
Proof.
  intros Hl Hp. set (same_bit := fun x y => Z.testbit x p = Z.testbit y 0).
  assert (Forall2 same_bit (SubBytes s inv) (SubBytes (byte_slices (cell s p)) inv)) as H.
  { apply SubBytes_rel; [| | | |done|]; subst same_bit; cbv beta.
    - intros a b c d. rewrite !Z.lxor_spec. congruence.
    - intros a b c d. rewrite !Z.land_spec. congruence.
    - intros a b c d. rewrite !Z.lor_spec. congruence.
    - intros a b H. rewrite !u16_testbit, !bool_decide_true, !Z.lnot_spec by lia. by rewrite H.
    - apply Forall2_same_length_lookup_2; [by rewrite Hl|]. intros i x y Hx Hy.
      unfold byte_slices in Hy. rewrite list_lookup_fmap in Hy.
      destruct (seqZ 0 8 !! i) as [b|] eqn:E; [|done]. injection Hy as <-.
      apply lookup_seqZ in E as [-> Hi]. rewrite Z.b2z_bit0, cell_testbit by lia.
      rewrite Z.add_0_l, Nat2Z.id. by rewrite (list_lookup_total_correct _ _ _ Hx). }
  pose proof (SubBytes_table inv) as HT. rewrite forallb_forall in HT.
  specialize (HT (cell s p)). rewrite <- list_elem_of_In, elem_of_seqZ in HT.
  apply Z.eqb_eq in HT as <-; [|pose proof (cell_byte s p Hl) as Hb; unfold word in Hb; lia].
  apply (word_ext 8); [apply cell_byte; by apply length_SubBytes..|].
  intros i Hi. rewrite !cell_testbit by lia.
  apply (lookup_total_Forall2 same_bit); [done|exact (Z.testbit_0_l p)].
Qed.


(** ** Lists of cells *)

Lemma of_cells_ext f g :
  (forall r c, (r < 4)%nat -> (c < 4)%nat -> f r c = g r c) -> of_cells f = of_cells g.
Proof.
  intros H. apply list_fmap_ext. intros i k Hk. apply lookup_seq in Hk as [-> Hi].
  apply H; [by apply Nat.mod_upper_bound|]. apply Nat.Div0.div_lt_upper_bound. lia.
Qed.

Lemma length_of_cells f : length (of_cells f) = 16%nat.
Proof. done. Qed.

Lemma at_of_cells f r c : (r < 4)%nat -> (c < 4)%nat -> at_cell (of_cells f) r c = f r c.
Proof.
  intros Hr Hc. unfold at_cell. rewrite (Nat.mod_small r), (Nat.mod_small c) by done.
  destruct r as [|[|[|[|]]]], c as [|[|[|[|]]]]; first [lia | reflexivity].
Qed.

Lemma at_cell_mod A r c : at_cell A r c = at_cell A (r mod 4) (c mod 4).
Proof. unfold at_cell. by rewrite !Nat.Div0.mod_mod. Qed.

Lemma map_of_cells h f : map h (of_cells f) = of_cells (fun r c => h (f r c)).
Proof. done. Qed.

Lemma xor_of_cells f g :
  xor_bytes (of_cells f) (of_cells g) = of_cells (fun r c => f r c ⊕ g r c).
Proof. done. Qed.

Lemma of_at_cells A : length A = 16%nat -> of_cells (at_cell A) = A.
Proof.
  intros H. do 16 (destruct A as [|? A]; [discriminate H|]). destruct A; [|discriminate H]. done.
Qed.

(** ** Linear operations on cells *)

Lemma cell_map (f : Z -> Z) s p q :
  Forall (fun x => Z.testbit (f x) p = Z.testbit x q) s -> cell (map f s) p = cell s q.
Proof. induction 1 as [|x s Hx _ IH]; [done|]. cbn [map cell foldr]. fold (cell s q). by rewrite Hx, <- IH. Qed.

Lemma cell_zip_with (f : Z -> Z -> Z) s t p x :
  length s = 8%nat -> length t = 8%nat -> byte x ->
  (forall b, (b < 8)%nat -> Z.testbit (f (s !!! b) (t !!! b)) p = Z.testbit x (Z.of_nat b)) ->
  cell (zip_with f s t) p = x.
Proof.
  intros Hs Ht Hx Hb. apply cell_ext; [rewrite length_zip_with; lia|done|]. intros b Hlt.
  rewrite <- Hb by done. f_equal. apply list_lookup_total_correct.
  rewrite lookup_zip_with, !list_lookup_lookup_total_lt by lia. done.
Qed.

Lemma AddRoundKey_cell s k p :
  length s = 8%nat -> length k = 8%nat -> cell (AddRoundKey s k) p = cell s p ⊕ cell k p.
Proof.
  intros Hs Hk. apply cell_zip_with; [done..|apply word_lxor; [done|by apply cell_byte..]|].
  intros b Hb. by rewrite !Z.lxor_spec, !cell_testbit, Nat2Z.id by lia.
Qed.

Lemma zip_with_ok (f : Z -> Z -> Z) s t :
  (forall x y, word 16 x -> word 16 y -> word 16 (f x y)) -> state_ok s -> state_ok t ->
  state_ok (zip_with f s t).
Proof.
  intros Hf [Hl Hs] [Hl' Ht]. split; [rewrite length_zip_with; lia|].
  clear Hl Hl'. revert t Ht. induction Hs as [|x s Hx Hs IH]; intros [|y t] Ht; [done..|].
  cbn [zip_with]. apply Forall_cons_1 in Ht as [??]. apply Forall_cons_2; auto.
Qed.

Lemma AddRoundKey_ok s k : state_ok s -> state_ok k -> state_ok (AddRoundKey s k).
Proof. apply zip_with_ok. auto with words. Qed.

Lemma map_ok (f : Z -> Z) s : (forall x, word 16 (f x)) -> state_ok s -> state_ok (map f s).
Proof. intros Hf [Hl _]. split; [by rewrite length_map|]. by apply Forall_map, Forall_true. Qed.

Ltac bit_ranges :=
  repeat match goal with |- context [BIT_RANGE ?a ?b] =>
    let c := eval vm_compute in (BIT_RANGE a b) in change (BIT_RANGE a b) with c end.

Lemma ShiftRows_testbit v : word 16 v -> forall p, 0 <= p < 16 ->
  Z.testbit (ShiftRows_slice v) p = Z.testbit v (4 * (p / 4) + (p + p / 4) mod 4).
Proof.
  intros Hv. cbv beta delta [ShiftRows_slice u16 BIT_RANGE_LEFT BIT_RANGE_RIGHT]. bit_ranges.
  bit_moves 16 [16] [v] (fun p => (0%nat, 4 * (p / 4) + (p + p / 4) mod 4)).
Qed.

Lemma InvShiftRows_testbit v : word 16 v -> forall p, 0 <= p < 16 ->
  Z.testbit (InvShiftRows_slice v) p = Z.testbit v (4 * (p / 4) + (p + 4 - p / 4) mod 4).
Proof.
  intros Hv. cbv beta delta [InvShiftRows_slice u16 BIT_RANGE_LEFT BIT_RANGE_RIGHT]. bit_ranges.
  bit_moves 16 [16] [v] (fun p => (0%nat, 4 * (p / 4) + (p + 4 - p / 4) mod 4)).
Qed.

(** *** Columns *)

Lemma rot_testbit x k p :
  word 16 x -> 0 < k < 4 -> 0 <= p < 16 -> Z.testbit (u16 (ROT x k)) p = Z.testbit x ((p + 4 * k) mod 16).
Proof.
  intros Hx Hk Hp. unfold ROT. rewrite u16_testbit, bool_decide_true by lia. cbn [andb].
  rewrite Z.lor_spec, Z.shiftr_spec, Z.shiftl_spec by lia.
  destruct (decide (p + 4 * k < 16)).
  - rewrite Z.mod_small, (Z.testbit_neg_r _ (p - _)), orb_false_r by lia. f_equal. lia.
  - rewrite (word_testbit_high 16 x (p + k * 4)) by (done || lia). cbn [orb]. f_equal.
    apply Z.mod_unique with 1; lia.
Qed.

Lemma mix_01_testbit x p :
  word 16 x -> 0 <= p < 16 ->
  Z.testbit (u16 (x ⊕ ROT x 1)) p = xorb (Z.testbit x p) (Z.testbit x ((p + 4) mod 16)).
Proof.
  intros Hx Hp. rewrite <- (rot_testbit x 1) by (done || lia).
  rewrite !u16_testbit, !bool_decide_true by lia. cbn [andb]. apply Z.lxor_spec.
Qed.

Lemma mix_02_testbit x p :
  word 16 x -> 0 <= p < 16 ->
  Z.testbit (u16 (x ⊕ ROT x 2)) p = xorb (Z.testbit x p) (Z.testbit x ((p + 8) mod 16)).
Proof.
  intros Hx Hp. rewrite <- (rot_testbit x 2) by (done || lia).
  rewrite !u16_testbit, !bool_decide_true by lia. cbn [andb]. apply Z.lxor_spec.
Qed.

Lemma mix_123_testbit x p :
  word 16 x -> 0 <= p < 16 ->
  Z.testbit (u16 (ROT (u16 (x ⊕ ROT x 1)) 1 ⊕ ROT x 3)) p =
  xorb (xorb (Z.testbit x ((p + 4) mod 16)) (Z.testbit x ((p + 8) mod 16))) (Z.testbit x ((p + 12) mod 16)).
Proof.
  intros Hx Hp. rewrite <- (rot_testbit x 3) by (done || lia).
  assert (0 <= (p + 4) mod 16 < 16) by (by apply Z.mod_pos_bound).
  transitivity (xorb (Z.testbit (u16 (ROT (u16 (x ⊕ ROT x 1)) 1)) p) (Z.testbit (u16 (ROT x 3)) p)).
  { rewrite !u16_testbit, !bool_decide_true by lia. cbn [andb]. apply Z.lxor_spec. }
  f_equal. rewrite rot_testbit by (auto with words || lia). change (4 * 1) with 4.
  rewrite mix_01_testbit by done. f_equal. f_equal. rewrite Zplus_mod_idemp_l. f_equal. lia.
Qed.

(** *** Multiplication in the field *)

Lemma xtime_lxor x y : xtime (x ⊕ y) = xtime x ⊕ xtime y.
Proof.
  unfold xtime. rewrite Z.lxor_spec, Z.shiftl_lxor.
  generalize (x << 1), (y << 1). intros a b.
  destruct (Z.testbit x 7), (Z.testbit y 7); cbn [xorb]; apply Z.bits_inj'; intros i Hi;
    rewrite !Z.lxor_spec, ?Z.testbit_0_l; btauto.
Qed.

Lemma xtime_testbit x b :
  0 <= b < 8 -> Z.testbit (xtime x) b =
  xorb (Z.testbit x (b - 1)) (Z.testbit x 7 && Z.testbit 0x1B b).
Proof.
  intros Hb. unfold xtime. rewrite Z.lxor_spec, Z.shiftl_spec by lia. f_equal.
  destruct (Z.testbit x 7); [|by rewrite Z.testbit_0_l]. cbn [andb].
  change 0x11B with (0x1B .| (1 << 8)). rewrite Z.lor_spec, Z.shiftl_spec by lia.
  by rewrite (Z.testbit_neg_r 1 (b - 8)), orb_false_r by lia.
Qed.

Lemma xtime_byte x : byte x -> byte (xtime x).
Proof.
  intros Hx. apply word_of_testbit; [done| |].
  - unfold xtime. apply Z.lxor_nonneg. split; intros _; [destruct (Z.testbit x 7); lia|].
    apply Z.shiftl_nonneg, Hx.
  - intros i Hi. unfold xtime. rewrite Z.lxor_spec, Z.shiftl_spec by lia.
    destruct (decide (i = 8)) as [->|Hne]; [change (8 - 1) with 7; by destruct (Z.testbit x 7)|].
    rewrite (word_testbit_high 8 x) by (done || lia).
    destruct (Z.testbit x 7); [|by rewrite Z.testbit_0_l].
    rewrite (word_testbit_high 9 0x11B) by (done || lia). done.
Qed.
#[export] Hint Resolve xtime_byte : words.

Ltac gmul := intros; unfold gmul; cbn [gmul_bits]; simpl Z.odd; cbv iota;
  rewrite ?Z.lxor_0_l, ?Z.lxor_0_r; reflexivity.
Lemma gmul_2 y : gmul 2 y = xtime y.
Proof. gmul. Qed.
Lemma gmul_3 y : gmul 3 y = y ⊕ xtime y.
Proof. gmul. Qed.
Lemma gmul_9 y : gmul 0x9 y = y ⊕ xtime (xtime (xtime y)).
Proof. gmul. Qed.
Lemma gmul_b y : gmul 0xb y = y ⊕ (xtime y ⊕ xtime (xtime (xtime y))).
Proof. gmul. Qed.
Lemma gmul_d y : gmul 0xd y = y ⊕ (xtime (xtime y) ⊕ xtime (xtime (xtime y))).
Proof. gmul. Qed.
Lemma gmul_e y : gmul 0xe y = xtime y ⊕ (xtime (xtime y) ⊕ xtime (xtime (xtime y))).
Proof. gmul. Qed.

Lemma bit_cases b (P : Z -> Prop) :
  0 <= b < 8 -> P 0 -> P 1 -> P 2 -> P 3 -> P 4 -> P 5 -> P 6 -> P 7 -> P b.
Proof.
  intros Hb. intros.
  assert (b = 0 \/ b = 1 \/ b = 2 \/ b = 3 \/ b = 4 \/ b = 5 \/ b = 6 \/ b = 7) as Hc by lia.
  by destruct_or! Hc; subst.
Qed.

(** The second half of the inverse transformation. *)
Definition mix_more (s : AES_state) : AES_state :=
  match s with
  | [s0; s1; s2; s3; s4; s5; s6; s7] =>
    let t0 := u16 (s0 ⊕ ROT s0 2) in let t1 := u16 (s1 ⊕ ROT s1 2) in
    let t2 := u16 (s2 ⊕ ROT s2 2) in let t3 := u16 (s3 ⊕ ROT s3 2) in
    let t4 := u16 (s4 ⊕ ROT s4 2) in let t5 := u16 (s5 ⊕ ROT s5 2) in
    let t6 := u16 (s6 ⊕ ROT s6 2) in let t7 := u16 (s7 ⊕ ROT s7 2) in
    [s0 ⊕ t6; s1 ⊕ (t6 ⊕ t7); s2 ⊕ (t0 ⊕ t7); s3 ⊕ (t1 ⊕ t6); s4 ⊕ (t2 ⊕ t6 ⊕ t7);
     s5 ⊕ (t3 ⊕ t7); s6 ⊕ t4; s7 ⊕ t5]
  | _ => []
  end.

Lemma MixColumns_inv s : MixColumns s true = mix_more (MixColumns s false).
Proof. do 8 (destruct s as [|? s]; [done|]). by destruct s. Qed.

Ltac split_state H :=
  lazymatch type of H with state_ok ?s =>
    let Hl := fresh in let Hw := fresh in destruct H as [Hl Hw];
    do 8 (destruct s as [|? s]; [discriminate Hl|];
          let Hx := fresh in apply Forall_cons_1 in Hw as [Hx Hw]);
    destruct s; [|discriminate Hl]; clear Hl Hw
  end.

Lemma MixColumns_ok s inv : state_ok s -> state_ok (MixColumns s inv).
Proof.
  assert (forall s, state_ok s -> state_ok (mix_more s)) as Hm.
  { intros t Ht. split_state Ht. cbn [mix_more]. split; [done|].
    repeat (apply Forall_cons_2; [auto 10 with words|]). done. }
  intros Hs. assert (state_ok (MixColumns s false)).
  { split_state Hs. cbn [MixColumns]. split; [done|].
    repeat (apply Forall_cons_2; [auto 10 with words|]). done. }
  destruct inv; [rewrite MixColumns_inv; auto|done].
Qed.

Ltac lookup_slice :=
  change (Z.to_nat 0) with 0%nat; change (Z.to_nat 1) with 1%nat; change (Z.to_nat 2) with 2%nat;
  change (Z.to_nat 3) with 3%nat; change (Z.to_nat 4) with 4%nat; change (Z.to_nat 5) with 5%nat;
  change (Z.to_nat 6) with 6%nat; change (Z.to_nat 7) with 7%nat;
  cbn [lookup_total list_lookup_total].

Lemma testbit_m1 x : Z.testbit x (-1) = false.
Proof. by apply Z.testbit_neg_r. Qed.

Ltac minus_1 :=
  change (0 - 1) with (-1); change (1 - 1) with 0; change (2 - 1) with 1; change (3 - 1) with 2;
  change (4 - 1) with 3; change (5 - 1) with 4; change (6 - 1) with 5; change (7 - 1) with 6.

(** One bit of a slice against one bit of cells. *)
Ltac slice_bits rw :=
  minus_1; simpl (Z.testbit 0x1B _);
  rewrite ?testbit_m1; rewrite ?cell_testbit by lia; lookup_slice;
  rewrite !Z.lxor_spec; rw (); btauto.

Lemma MixColumns_cell s p :
  state_ok s -> 0 <= p < 16 ->
  cell (MixColumns s false) p =
  xtime (cell s p) ⊕ (cell s ((p + 4) mod 16) ⊕ xtime (cell s ((p + 4) mod 16))) ⊕
  cell s ((p + 8) mod 16) ⊕ cell s ((p + 12) mod 16).
Proof.
  intros Hs Hp. pose proof (MixColumns_ok s false Hs) as [Hl' _]. pose proof Hs as [Hl _].
  apply (word_ext 8); [by apply cell_byte| |].
  { repeat first [by apply cell_byte | apply xtime_byte | apply word_lxor; [done|..]]. }
  split_state Hs. clear Hl Hl'. cbv beta iota zeta delta [MixColumns]. intros b Hb.
  rewrite !Z.lxor_spec, !xtime_testbit by done. pattern b. apply bit_cases; 
    [done|slice_bits ltac:(fun _ => rewrite ?mix_01_testbit, ?mix_123_testbit by assumption)..].
Qed.

Lemma mix_more_cell s p :
  state_ok s -> 0 <= p < 16 ->
  cell (mix_more s) p = cell s p ⊕ xtime (xtime (cell s p ⊕ cell s ((p + 8) mod 16))).
Proof.
  intros Hs Hp. pose proof Hs as [Hl _].
  assert (byte (xtime (cell s p ⊕ cell s ((p + 8) mod 16)))) as Hx.
  { apply xtime_byte, word_lxor; [done|by apply cell_byte..]. }
  apply (word_ext 8).
  - apply cell_byte. split_state Hs. done.
  - apply word_lxor; [done|by apply cell_byte|by apply xtime_byte].
  - clear Hx. split_state Hs. clear Hl. cbv beta iota zeta delta [mix_more]. intros b Hb.
    rewrite !Z.lxor_spec, !xtime_testbit by done. pattern b. apply bit_cases; [done|..];
      minus_1; rewrite ?testbit_m1, ?xtime_testbit by lia; rewrite ?Z.lxor_spec;
      slice_bits ltac:(fun _ => rewrite ?mix_02_testbit by assumption).
Qed.

(** ** The round operations on the bytes of a state *)

Lemma pos_bound r c : (r < 4)%nat -> (c < 4)%nat -> 0 <= Z.of_nat (r * 4 + c) < 16.
Proof. lia. Qed.

Lemma at_bytes_of s r c :
  at_cell (bytes_of s) r c = cell s (Z.of_nat (r mod 4 * 4 + c mod 4)).
Proof.
  rewrite at_cell_mod. unfold bytes_of. apply at_of_cells; by apply Nat.mod_upper_bound.
Qed.

Lemma SubBytes_bytes inv s :
  state_ok s -> bytes_of (SubBytes s inv) = (if inv then inv_sub_bytes else sub_bytes) (bytes_of s).
Proof.
  intros [Hl _]. transitivity (map (if inv then inv_sbox else sbox) (bytes_of s)); [|by destruct inv].
  unfold bytes_of. rewrite map_of_cells. apply of_cells_ext. intros r c Hr Hc.
  apply SubBytes_cell; [done|by apply pos_bound].
Qed.

Lemma AddRoundKey_bytes s k :
  state_ok s -> state_ok k -> bytes_of (AddRoundKey s k) = xor_bytes (bytes_of s) (bytes_of k).
Proof.
  intros [Hs _] [Hk _]. unfold bytes_of. rewrite xor_of_cells. apply of_cells_ext. intros.
  by apply AddRoundKey_cell.
Qed.

Lemma ShiftRows_ok s : state_ok s -> state_ok (ShiftRows s).
Proof. apply map_ok. intros. apply u16_word. Qed.
Lemma InvShiftRows_ok s : state_ok s -> state_ok (InvShiftRows s).
Proof. apply map_ok. intros. apply u16_word. Qed.

(** Sixteen cases, one per cell. *)
Ltac each_cell := intros r c Hr Hc; destruct r as [|[|[|[|]]]], c as [|[|[|[|]]]]; try lia.

Lemma ShiftRows_bytes s : state_ok s -> bytes_of (ShiftRows s) = shift_rows (bytes_of s).
Proof.
  intros [_ Hw]. unfold shift_rows, bytes_of at 1. apply of_cells_ext.
  each_cell; rewrite at_bytes_of; apply cell_map;
    (eapply Forall_impl; [|exact Hw]; intros x Hx; cbv beta;
     rewrite ShiftRows_testbit by (done || lia); reflexivity).
Qed.

Lemma InvShiftRows_bytes s : state_ok s -> bytes_of (InvShiftRows s) = inv_shift_rows (bytes_of s).
Proof.
  intros [_ Hw]. unfold inv_shift_rows, bytes_of at 1. apply of_cells_ext.
  each_cell; rewrite at_bytes_of; apply cell_map;
    (eapply Forall_impl; [|exact Hw]; intros x Hx; cbv beta;
     rewrite InvShiftRows_testbit by (done || lia); reflexivity).
Qed.

Lemma MixColumns_bytes s : state_ok s -> bytes_of (MixColumns s false) = mix_columns (bytes_of s).
Proof.
  intros Hs. unfold mix_columns, bytes_of at 1. apply of_cells_ext.
  each_cell; rewrite !at_bytes_of, MixColumns_cell, gmul_2, gmul_3 by (done || lia); reflexivity.
Qed.

(** Exclusive-ors of the same terms. *)
Ltac xor_terms :=
  rewrite ?xtime_lxor; apply Z.bits_inj'; intros ?i _; rewrite !Z.lxor_spec; btauto.

(** The two factors of the inverse polynomial. *)
Lemma inverse_factors a0 a1 a2 a3 :
  xtime a0 ⊕ (a1 ⊕ xtime a1) ⊕ a2 ⊕ a3 ⊕
  xtime (xtime (xtime a0 ⊕ (a1 ⊕ xtime a1) ⊕ a2 ⊕ a3 ⊕ (xtime a2 ⊕ (a3 ⊕ xtime a3) ⊕ a0 ⊕ a1))) =
  xtime a0 ⊕ (xtime (xtime a0) ⊕ xtime (xtime (xtime a0))) ⊕
  (a1 ⊕ (xtime a1 ⊕ xtime (xtime (xtime a1)))) ⊕
  (a2 ⊕ (xtime (xtime a2) ⊕ xtime (xtime (xtime a2)))) ⊕ (a3 ⊕ xtime (xtime (xtime a3))).
Proof. xor_terms. Qed.

Lemma InvMixColumns_bytes s : state_ok s -> bytes_of (MixColumns s true) = inv_mix_columns (bytes_of s).
Proof.
  intros Hs. rewrite MixColumns_inv. pose proof (MixColumns_ok s false Hs) as Hs'.
  unfold inv_mix_columns, bytes_of at 1. apply of_cells_ext.
  each_cell; rewrite !at_bytes_of, mix_more_cell, gmul_e, gmul_b, gmul_d, gmul_9 by (done || lia);
    rewrite !MixColumns_cell by (done || (vm_compute; done) || lia);
    exact (inverse_factors (cell s _) (cell s _) (cell s _) (cell s _)).
Qed.

(** ** The inverse operations, on bytes *)

Lemma inv_mix_column a0 a1 a2 a3 :
  let m0 := gmul 2 a0 ⊕ gmul 3 a1 ⊕ a2 ⊕ a3 in
  let m1 := gmul 2 a1 ⊕ gmul 3 a2 ⊕ a3 ⊕ a0 in
  let m2 := gmul 2 a2 ⊕ gmul 3 a3 ⊕ a0 ⊕ a1 in
  let m3 := gmul 2 a3 ⊕ gmul 3 a0 ⊕ a1 ⊕ a2 in
  gmul 0xe m0 ⊕ gmul 0xb m1 ⊕ gmul 0xd m2 ⊕ gmul 0x9 m3 = a0.
Proof. cbv zeta. rewrite !gmul_e, !gmul_b, !gmul_d, !gmul_9, !gmul_2, !gmul_3. xor_terms. Qed.

Lemma inv_mix_columns_id A : length A = 16%nat -> inv_mix_columns (mix_columns A) = A.
Proof.
  intros H. rewrite <- (of_at_cells A H) at 2. apply of_cells_ext.
  each_cell; exact (inv_mix_column (at_cell A _ _) (at_cell A _ _) (at_cell A _ _) (at_cell A _ _)).
Qed.

Lemma inv_shift_rows_id A : length A = 16%nat -> inv_shift_rows (shift_rows A) = A.
Proof.
  intros H. rewrite <- (of_at_cells A H) at 2. apply of_cells_ext. each_cell; reflexivity.
Qed.

Lemma inv_sbox_table : forallb (fun x => inv_sbox (sbox x) =? x) (seqZ 0 256) = true.
Proof. vm_compute. reflexivity. Qed.

Lemma inv_sub_bytes_id A : Forall byte A -> inv_sub_bytes (sub_bytes A) = A.
Proof.
  unfold inv_sub_bytes, sub_bytes. induction 1 as [|x A Hx _ IH]; [done|]. cbn [map]. rewrite IH.
  f_equal. pose proof inv_sbox_table as HT. rewrite forallb_forall in HT.
  apply Z.eqb_eq, HT, list_elem_of_In, elem_of_seqZ. unfold word in Hx. lia.
Qed.

Lemma xor_bytes_cancel A k :
  length A = length k -> xor_bytes (xor_bytes A k) k = A.
Proof.
  unfold xor_bytes. revert k. induction A as [|x A IH]; intros [|y k] H; simplify_eq/=; [done|].
  rewrite IH by done. by rewrite Z.lxor_assoc, Z.lxor_nilpotent, Z.lxor_0_r.
Qed.

(** ** Blocks of sixteen bytes *)

Definition block (A : list Z) : Prop := length A = 16%nat /\ Forall byte A.

Lemma bytes_of_block s : length s = 8%nat -> block (bytes_of s).
Proof. intros. split; [done|]. apply Forall_map, Forall_true. intros. by apply cell_byte. Qed.

Lemma byte_in_table x : byte x -> In x (seqZ 0 256).
Proof. intros [??]. apply list_elem_of_In, elem_of_seqZ. lia. Qed.

Lemma sbox_byte (inv : bool) x : byte x -> byte ((if inv then inv_sbox else sbox) x).
Proof.
  intros Hx. pose proof (SubBytes_table inv) as HT. rewrite forallb_forall in HT.
  pose proof (HT x (byte_in_table x Hx)) as E. apply Z.eqb_eq in E as <-.
  by apply cell_byte, length_SubBytes.
Qed.

Lemma of_cells_block f : (forall r c, byte (f r c)) -> block (of_cells f).
Proof. intros. split; [done|]. apply Forall_map, Forall_true. intros. done. Qed.

Lemma at_cell_byte A r c : Forall byte A -> byte (at_cell A r c).
Proof. intros. by apply (lookup_total_Forall byte). Qed.

Lemma sub_bytes_block A : block A -> block (sub_bytes A).
Proof.
  intros [Hl HA]. split; [unfold sub_bytes; by rewrite length_map|].
  apply Forall_map. eapply Forall_impl; [|exact HA]. apply (sbox_byte false).
Qed.

Lemma shift_rows_block A : block A -> block (shift_rows A).
Proof. intros [_ HA]. apply of_cells_block. intros. by apply at_cell_byte. Qed.

Lemma mix_columns_block A : block A -> block (mix_columns A).
Proof.
  intros [_ HA]. apply of_cells_block. intros. rewrite gmul_2, gmul_3.
  repeat first [by apply at_cell_byte | apply xtime_byte | apply word_lxor; [done|..]].
Qed.

Lemma xor_bytes_block A k : block A -> block k -> block (xor_bytes A k).
Proof.
  intros [Hl HA] [Hl' Hk]. split; [unfold xor_bytes; rewrite length_zip_with; lia|].
  clear Hl Hl'. revert k Hk. unfold xor_bytes.
  induction HA as [|x A Hx HA IH]; intros [|y k] Hk; [done..|].
  apply Forall_cons_1 in Hk as [??]. cbn [zip_with]. apply Forall_cons_2; [by apply word_lxor|auto].
Qed.

(** *** The inverse cipher inverts the cipher *)

Definition round_step (A k : list Z) : list Z := xor_bytes (mix_columns (shift_rows (sub_bytes A))) k.
Definition inv_round_step (A k : list Z) : list Z :=
  inv_mix_columns (xor_bytes (inv_sub_bytes (inv_shift_rows A)) k).

Lemma round_step_block A k : block A -> block k -> block (round_step A k).
Proof. intros. by apply xor_bytes_block; [apply mix_columns_block, shift_rows_block, sub_bytes_block|]. Qed.

Lemma rounds_block ks A : Forall block ks -> block A -> block (foldl round_step A ks).
Proof.
  intros Hks. revert A. induction Hks as [|k ks Hk _ IH]; intros A HA; [done|]. cbn [foldl].
  apply IH. by apply round_step_block.
Qed.

Lemma inv_half A : block A -> inv_sub_bytes (inv_shift_rows (shift_rows (sub_bytes A))) = A.
Proof.
  intros HA. rewrite inv_shift_rows_id by (apply sub_bytes_block, HA). apply inv_sub_bytes_id, HA.
Qed.

Lemma inv_rounds ks A :
  Forall block ks -> block A ->
  foldl inv_round_step (shift_rows (sub_bytes (foldl round_step A ks))) (rev ks) =
  shift_rows (sub_bytes A).
Proof.
  induction ks as [|k ks IH] using rev_ind; intros Hks HA; [done|].
  apply Forall_app in Hks as [Hks Hk]. apply Forall_cons_1 in Hk as [Hk _].
  rewrite rev_app_distr, !foldl_app. cbn [rev app foldl].
  set (B := foldl round_step A ks). assert (block B) as HB by (by apply rounds_block).
  assert (inv_round_step (shift_rows (sub_bytes (round_step B k))) k = shift_rows (sub_bytes B)) as ->.
  { unfold inv_round_step. rewrite inv_half by (by apply round_step_block).
    assert (block (mix_columns (shift_rows (sub_bytes B)))) as [Hl _]
      by (by apply mix_columns_block, shift_rows_block, sub_bytes_block).
    unfold round_step. rewrite xor_bytes_cancel by (rewrite Hl; symmetry; apply Hk).
    by apply inv_mix_columns_id. }
  by apply IH.
Qed.

Definition keys_block (nr : nat) (w : list (list Z)) : Prop :=
  forall i, (i <= nr)%nat -> block (round_key w i).

Lemma foldl_map_keys {A B C} (f : A -> C -> A) (g : B -> C) a l :
  foldl (fun a i => f a (g i)) a l = foldl f a (map g l).
Proof. revert a. induction l as [|x l IH]; intros a; [done|]. apply IH. Qed.

Lemma inv_cipher_id nr w A :
  keys_block nr w -> block A -> (1 <= nr)%nat -> inv_cipher nr w (cipher nr w A) = A.
Proof.
  intros Hw HA Hnr. unfold inv_cipher, cipher.
  rewrite (foldl_map_keys round_step (round_key w)), (foldl_map_keys inv_round_step (round_key w)).
  set (ks := map (round_key w) (seq 1 (nr - 1))).
  assert (Forall block ks) as Hks.
  { apply Forall_map, Forall_forall. intros i Hi. apply list_elem_of_In, elem_of_seq in Hi. apply Hw. lia. }
  set (A0 := xor_bytes A (round_key w 0)).
  assert (block A0) as H0 by (apply xor_bytes_block; [done|apply Hw; lia]).
  set (B := foldl round_step A0 ks). assert (block B) as HB by (by apply rounds_block).
  assert (block (shift_rows (sub_bytes B))) as [Hl _] by (by apply shift_rows_block, sub_bytes_block).
  rewrite xor_bytes_cancel by (rewrite Hl; symmetry; by apply Hw).
  rewrite map_rev. unfold B. rewrite inv_rounds, inv_half by done.
  apply xor_bytes_cancel. destruct HA as [-> _]. symmetry. apply Hw. lia.
Qed.

(** ** Loading and saving *)

Lemma uchar_testbit x i : 0 <= i < 8 -> Z.testbit (uchar x) i = Z.testbit x i.
Proof. intros. rewrite uchar_mod. apply Z.mod_pow2_bits_low. lia. Qed.

Lemma one_bit_testbit x p b i :
  0 <= p -> 0 <= b -> 0 <= i ->
  Z.testbit (((x >> p) .& 1) << b) i = bool_decide (i = b) && Z.testbit x p.
Proof.
  intros Hp Hb Hi. rewrite Z.shiftl_spec by done. change 1 with (Z.ones 1).
  case_bool_decide as E.
  - subst. rewrite Z.sub_diag, Z.land_spec, Z.shiftr_spec by lia. cbn [andb Z.add].
    by rewrite Z.ones_spec_low, andb_true_r by lia.
  - destruct (decide (i < b)); [by rewrite Z.testbit_neg_r by lia|].
    by rewrite Z.land_spec, Z.ones_spec_high, andb_false_r by lia.
Qed.

Lemma SaveByte_cell s r c : length s = 8%nat -> SaveByte s r c = cell s (Z.of_nat (r * 4 + c)).
Proof.
  intros Hl. unfold SaveByte. cbn [foldl seq]. set (p := Z.of_nat (r * 4 + c)).
  assert (0 <= p) by lia.
  apply (word_ext 8); [apply uchar_byte|by apply cell_byte|]. intros i Hi.
  rewrite cell_testbit by lia.
  repeat first [rewrite uchar_testbit by done | rewrite Z.lor_spec | rewrite one_bit_testbit by lia].
  rewrite Z.testbit_0_l. pattern i.
  apply bit_cases; [done|..]; simpl; rewrite ?orb_false_r; reflexivity.
Qed.

Lemma SaveBytes_bytes s : length s = 8%nat -> SaveBytes s = bytes_of s.
Proof.
  intros Hl. unfold SaveBytes, bytes_of, of_cells, cell_order.
  cbn [seq map mbind list_bind app fst snd Nat.modulo Nat.div Nat.divmod Nat.sub].
  by rewrite !SaveByte_cell.
Qed.

Lemma LoadByte_from_lookup s byte shift b :
  (b < length s)%nat ->
  LoadByte_from s byte shift !!! b = u16 ((s !!! b) .| (((byte >> Z.of_nat b) .& 1) << shift)).
Proof.
  revert byte b. induction s as [|x s IH]; intros byte b Hb; [simpl in Hb; lia|].
  destruct b as [|b]; [by rewrite Z.shiftr_0_r|]. cbn [LoadByte_from].
  change ((?y :: ?l) !!! S b) with (l !!! b). rewrite IH by (simpl in Hb; lia).
  rewrite Z.shiftr_shiftr by lia. by replace (1 + Z.of_nat b) with (Z.of_nat (S b)) by lia.
Qed.

Lemma length_LoadByte_from s byte shift : length (LoadByte_from s byte shift) = length s.
Proof. revert byte. induction s as [|x s IH]; intros byte; [done|]. cbn [LoadByte_from length]. by rewrite IH. Qed.

Lemma LoadByte_ok s byte r c : state_ok s -> state_ok (LoadByte s byte r c).
Proof.
  intros [Hl _]. unfold LoadByte. split; [by rewrite length_LoadByte_from|].
  clear Hl. revert byte. induction s as [|x s IH]; intros byte; [done|].
  cbn [LoadByte_from]. apply Forall_cons_2; auto with words.
Qed.

Lemma LoadByte_cell s x r c p :
  length s = 8%nat -> byte x -> (r < 4)%nat -> (c < 4)%nat -> 0 <= p < 16 ->
  cell (LoadByte s x r c) p =
  if bool_decide (p = Z.of_nat (r * 4 + c)) then cell s p .| x else cell s p.
Proof.
  intros Hl Hx Hr Hc Hp. unfold LoadByte. apply cell_ext.
  - by rewrite length_LoadByte_from.
  - case_match; [apply word_lor; [done|by apply cell_byte|done]|by apply cell_byte].
  - intros b Hb. rewrite LoadByte_from_lookup by lia.
    rewrite u16_testbit, bool_decide_true, Z.lor_spec, one_bit_testbit by lia. cbn [andb].
    case_bool_decide; [rewrite Z.lor_spec|]; rewrite cell_testbit, Nat2Z.id by lia; [done|].
    apply orb_false_r.
Qed.

Lemma zero_state_cell p : cell zero_state p = 0.
Proof. unfold cell, zero_state. cbn [replicate foldr]. by rewrite !Z.testbit_0_l. Qed.

Lemma zero_state_ok : state_ok zero_state.
Proof. split; [done|]. by apply Forall_replicate. Qed.

(** The loop of [LoadBytes], over any sequence of distinct cells. *)
Definition load_step (o : option (AES_state * list Z)) (rc : nat * nat) : option (AES_state * list Z) :=
  '(s, data16) ← o;
  match data16 with
  | byte :: data16 => Some (LoadByte s byte rc.1 rc.2, data16)
  | [] => None
  end.

Lemma load_loop l s data :
  Forall (fun rc => rc.1 < 4 /\ rc.2 < 4)%nat l -> NoDup l -> (length l <= length data)%nat ->
  Forall byte data -> state_ok s ->
  exists s', foldl load_step (Some (s, data)) l = Some (s', drop (length l) data) /\ state_ok s' /\
    (forall r c, (r < 4)%nat -> (c < 4)%nat -> (r, c) ∉ l ->
       cell s' (Z.of_nat (r * 4 + c)) = cell s (Z.of_nat (r * 4 + c))) /\
    (forall j r c, l !! j = Some (r, c) ->
       cell s' (Z.of_nat (r * 4 + c)) = cell s (Z.of_nat (r * 4 + c)) .| (data !!! j)).
Proof.
  revert s data. induction l as [|[r c] l IH]; intros s data Hl Hnd Hlen Hd Hs; [by exists s|].
  destruct data as [|x data]; [simpl in Hlen; lia|].
  apply list.Forall_cons in Hl as [[Hr Hc] Hl]. apply list.NoDup_cons in Hnd as [Hni Hnd].
  apply list.Forall_cons in Hd as [Hx Hd]. cbn [fst snd] in Hr, Hc.
  destruct (IH (LoadByte s x r c) data) as (s'&E&Hs'&Hout&Hin);
    [done|done|simpl in Hlen; lia|done|by apply LoadByte_ok|].
  exists s'. split_and!; [exact E|done| |].
  - intros r' c' Hr' Hc' Hni'. apply not_elem_of_cons in Hni' as [Hne Hni'].
    rewrite Hout, LoadByte_cell by (done || apply Hs || lia).
    rewrite bool_decide_false; [done|]. intros Heq. apply Hne. f_equal; lia.
  - intros [|j] r' c' Hj.
    + injection Hj as <- <-. rewrite Hout, LoadByte_cell by (done || apply Hs || lia).
      by rewrite bool_decide_true.
    + rewrite (Hin j r' c' Hj). change ((x :: data) !!! S j) with (data !!! j). f_equal.
      assert ((r', c') ∈ l) as Hel by (by eapply list_elem_of_lookup_2).
      pose proof (proj1 (list.Forall_forall _ _) Hl _ Hel) as [Hr' Hc']. cbn [fst snd] in Hr', Hc'.
      rewrite LoadByte_cell by (done || apply Hs || lia).
      rewrite bool_decide_false; [done|]. intros Heq. apply Hni.
      replace (r, c) with (r', c'); [done|]. f_equal; lia.
Qed.

Lemma map_take_lookup {A B} `{!Inhabited B} (f : A -> B) l data :
  (length l <= length data)%nat -> (forall j x, l !! j = Some x -> f x = data !!! j) ->
  map f l = take (length l) data.
Proof.
  revert data. induction l as [|x l IH]; intros [|y data] Hl H; simpl in Hl; [done|done|lia|].
  cbn [map length take]. rewrite (H 0%nat x eq_refl). f_equal. apply IH; [lia|].
  intros j z Hj. apply (H (S j) z Hj).
Qed.

Lemma LoadBytes_bytes data :
  (16 <= length data)%nat -> Forall byte data ->
  exists s, LoadBytes zero_state data = Some s /\ state_ok s /\ bytes_of s = take 16 data.
Proof.
  intros Hl Hd.
  destruct (load_loop cell_order zero_state data) as (s&E&Hs&_&Hin);
    [by apply (bool_decide_unpack _); vm_compute|by apply (bool_decide_unpack _); vm_compute
    |done|done|apply zero_state_ok|].
  exists s. split_and!; [|done|].
  { change (LoadBytes zero_state data) with (fst <$> foldl load_step (Some (zero_state, data)) cell_order).
    by rewrite E. }
  change (bytes_of s) with (map (fun rc => cell s (Z.of_nat (rc.1 * 4 + rc.2))) cell_order).
  apply (map_take_lookup _ cell_order); [done|]. intros j [r c] Hj.
  cbn [fst snd]. rewrite (Hin j r c Hj), zero_state_cell. done.
Qed.

(** ** One block: the code against the specification *)

(** The round keys of the array are those of the schedule [w]. *)
Definition keys_rel (rounds : list AES_state) (nr : nat) (w : list (list Z)) : Prop :=
  forall i, (i <= nr)%nat ->
    exists k, rounds !! i = Some k /\ state_ok k /\ bytes_of k = round_key w i.

Lemma keys_rel_block rounds nr w : keys_rel rounds nr w -> keys_block nr w.
Proof. intros H i Hi. destruct (H i Hi) as (k&_&[Hl _]&<-). by apply bytes_of_block. Qed.

Section one_block.
Context (rounds : list AES_state) (nr : nat) (w : list (list Z)).
Context (Hkeys : keys_rel rounds nr w) (Hnr : (1 <= nr)%nat).

(** A state and the bytes it stands for. *)
Definition stands_for (s : AES_state) (A : list Z) : Prop := state_ok s /\ bytes_of s = A.

Lemma add_key s A i :
  (i <= nr)%nat -> stands_for s A ->
  exists k, rounds !! i = Some k /\ stands_for (AddRoundKey s k) (xor_bytes A (round_key w i)).
Proof.
  intros Hi [Hs <-]. destruct (Hkeys i Hi) as (k&E&Hk&<-). exists k.
  split; [done|]. split; [by apply AddRoundKey_ok|by apply AddRoundKey_bytes].
Qed.

Lemma sub_shift s A :
  stands_for s A -> stands_for (ShiftRows (SubBytes s false)) (shift_rows (sub_bytes A)).
Proof.
  intros [Hs <-]. pose proof (SubBytes_ok false s Hs).
  split; [by apply ShiftRows_ok|]. by rewrite ShiftRows_bytes, SubBytes_bytes.
Qed.

Lemma inv_shift_sub s A :
  stands_for s A -> stands_for (SubBytes (InvShiftRows s) true) (inv_sub_bytes (inv_shift_rows A)).
Proof.
  intros [Hs <-]. pose proof (InvShiftRows_ok s Hs).
  split; [by apply SubBytes_ok|]. by rewrite SubBytes_bytes, InvShiftRows_bytes.
Qed.

Lemma mix_stands (inv : bool) s A :
  stands_for s A -> stands_for (MixColumns s inv) ((if inv then inv_mix_columns else mix_columns) A).
Proof.
  intros [Hs <-]. split; [by apply MixColumns_ok|].
  destruct inv; [by apply InvMixColumns_bytes|by apply MixColumns_bytes].
Qed.

Lemma encrypt_rounds l s A :
  Forall (fun i => i <= nr)%nat l -> stands_for s A ->
  exists s', foldl (fun o round =>
      s ← o;
      let s := SubBytes s false in
      let s := ShiftRows s in
      let s := MixColumns s false in
      k ← rounds !! round;
      Some (AddRoundKey s k)) (Some s) l = Some s' /\
    stands_for s' (foldl (fun A i => xor_bytes (mix_columns (shift_rows (sub_bytes A))) (round_key w i)) A l).
Proof.
  intros Hl. revert s A. induction Hl as [|i l Hi Hl IH]; intros s A Hs; [by exists s|].
  cbn [foldl mbind option_bind].
  destruct (add_key _ _ i Hi (mix_stands false _ _ (sub_shift _ _ Hs))) as (k&->&Hk). by apply IH.
Qed.

Lemma decrypt_rounds l s A :
  Forall (fun i => i <= nr)%nat (map (fun r => nr - r)%nat l) -> stands_for s A ->
  exists s', foldl (fun o round =>
      s ← o;
      let s := InvShiftRows s in
      let s := SubBytes s true in
      k ← rounds !! (nr - round)%nat;
      let s := AddRoundKey s k in
      Some (MixColumns s true)) (Some s) l = Some s' /\
    stands_for s' (foldl (fun A i => inv_mix_columns (xor_bytes (inv_sub_bytes (inv_shift_rows A)) (round_key w i)))
      A (map (fun r => nr - r)%nat l)).
Proof.
  revert s A. induction l as [|i l IH]; intros s A Hl Hs; [by exists s|].
  apply list.Forall_cons in Hl as [Hi Hl]. cbn [foldl mbind option_bind map].
  destruct (add_key _ _ _ Hi (inv_shift_sub _ _ Hs)) as (k&->&Hk). apply IH; [done|].
  by apply (mix_stands true).
Qed.

Lemma AES_encrypt_cipher data :
  (16 <= length data)%nat -> Forall byte data ->
  AES_encrypt rounds nr data = Some (cipher nr w (take 16 data)).
Proof.
  intros Hl Hd. unfold AES_encrypt, cipher.
  destruct (LoadBytes_bytes data Hl Hd) as (s&->&Hs&HA). cbn [mbind option_bind].
  destruct (add_key s (take 16 data) 0 ltac:(lia) (conj Hs HA)) as (k&->&Hk). cbn [mbind option_bind].
  edestruct (encrypt_rounds (seq 1 (nr - 1))) as (s'&E&Hs'); [|exact Hk|].
  { apply list.Forall_forall. intros i Hi. apply elem_of_seq in Hi. lia. }
  cbv zeta in E |- *. rewrite E. cbn [mbind option_bind].
  destruct (add_key _ _ nr ltac:(lia) (sub_shift _ _ Hs')) as (kn&->&[Hok <-]). cbn [mbind option_bind].
  f_equal. apply SaveBytes_bytes, Hok.
Qed.

Lemma rev_seq_sub : map (fun r => nr - r)%nat (seq 1 (nr - 1)) = rev (seq 1 (nr - 1)).
Proof.
  destruct nr as [|n]; [lia|]. replace (S n - 1)%nat with n by lia. clear.
  induction n as [|n IH]; [done|]. rewrite (seq_S n 1) at 2. rewrite rev_app_distr, <- IH. cbn [rev app seq map].
  f_equal. rewrite <- seq_shift, map_map. apply map_ext. intros. lia.
Qed.

Lemma AES_decrypt_cipher data :
  (16 <= length data)%nat -> Forall byte data ->
  AES_decrypt rounds nr data = Some (inv_cipher nr w (take 16 data)).
Proof.
  intros Hl Hd. unfold AES_decrypt, inv_cipher.
  destruct (LoadBytes_bytes data Hl Hd) as (s&->&Hs&HA). cbn [mbind option_bind].
  destruct (add_key s (take 16 data) nr ltac:(lia) (conj Hs HA)) as (k&->&Hk). cbn [mbind option_bind].
  edestruct (decrypt_rounds (seq 1 (nr - 1))) as (s'&E&Hs'); [|exact Hk|].
  { apply list.Forall_forall. intros i Hi. apply list_elem_of_fmap in Hi as (j&->&_). lia. }
  cbv zeta in E |- *. rewrite E. cbn [mbind option_bind]. rewrite rev_seq_sub in Hs'.
  destruct (add_key _ _ 0 ltac:(lia) (inv_shift_sub _ _ Hs')) as (kn&->&[Hok <-]). cbn [mbind option_bind].
  f_equal. apply SaveBytes_bytes, Hok.
Qed.
End one_block.

(** ** The key schedule *)

(** Column [c] of a state, from row 0 down. *)
Definition col (s : AES_state) (c : nat) : list Z := map (fun r => cell s (Z.of_nat (r * 4 + c))) (seq 0 4).

Definition zero_word : list Z := [0; 0; 0; 0].

Lemma col_ext s t c :
  (forall r, (r < 4)%nat -> cell s (Z.of_nat (r * 4 + c)) = cell t (Z.of_nat (r * 4 + c))) ->
  col s c = col t c.
Proof. intros H. unfold col. cbn [map seq]. by rewrite !H by lia. Qed.

Lemma bytes_of_cols s : bytes_of s = concat (map (col s) (seq 0 4)).
Proof. reflexivity. Qed.

Lemma xor_bytes_comm a b : xor_bytes a b = xor_bytes b a.
Proof.
  unfold xor_bytes. revert b. induction a as [|x a IH]; intros [|y b]; [done..|].
  cbn [zip_with]. by rewrite IH, Z.lxor_comm.
Qed.

Lemma MultX_cell s p : state_ok s -> cell (MultX s) p = xtime (cell s p).
Proof.
  intros Hs. pose proof Hs as [Hl _]. apply (word_ext 8).
  - apply cell_byte. split_state Hs. done.
  - by apply xtime_byte, cell_byte.
  - split_state Hs. clear Hl. cbv beta iota zeta delta [MultX]. intros b Hb.
    rewrite !xtime_testbit by done. pattern b. apply bit_cases; [done|..];
      minus_1; simpl (Z.testbit 0x1B _); rewrite ?testbit_m1; rewrite ?cell_testbit by lia;
      lookup_slice; rewrite ?Z.lxor_spec; btauto.
Qed.

Lemma MultX_ok s : state_ok s -> state_ok (MultX s).
Proof.
  intros Hs. split_state Hs. cbn [MultX]. split; [done|].
  repeat (apply Forall_cons_2; [auto with words|]). done.
Qed.

Lemma KeySetupTransform_ok s r : state_ok s -> state_ok r -> state_ok (KeySetupTransform s r).
Proof. apply zip_with_ok. auto with words. Qed.

Lemma KeySetupTransform_cell s r p :
  state_ok s -> state_ok r -> 0 <= p < 16 ->
  cell (KeySetupTransform s r) p = cell s ((p + 4) mod 16) ⊕ cell r p.
Proof.
  intros [Hs Hw] [Hr _] Hp. apply cell_zip_with; [done..|apply word_lxor; [done|by apply cell_byte..]|].
  intros b Hb. rewrite Z.lxor_spec, !cell_testbit, Nat2Z.id by lia.
  rewrite <- (rot_testbit (s !!! b) 1 p) by (lia || by apply (lookup_total_Forall (word 16))).
  rewrite !u16_testbit, bool_decide_true, Z.lxor_spec by lia. done.
Qed.

Lemma GetOneColumn_ok a c : state_ok a -> state_ok (GetOneColumn a c).
Proof. apply map_ok. intros. by apply word_land_r. Qed.

(** Bits 0, 4, 8 and 12 of the mask. *)
Lemma mask_bit r c : (r < 4)%nat -> (c < 4)%nat -> Z.testbit 0x1111 (Z.of_nat (r * 4 + c)) = (c =? 0)%nat.
Proof. intros Hr Hc. destruct r as [|[|[|[|]]]], c as [|[|[|[|]]]]; first [lia | reflexivity]. Qed.

Lemma GetOneColumn_col a c : col (GetOneColumn a (Z.of_nat c)) 0 = col a c.
Proof.
  apply map_ext_in. intros r Hr. apply in_seq in Hr. apply cell_map, Forall_true. intros x.
  rewrite Z.land_spec, mask_bit, Z.shiftr_spec, andb_true_r by lia. f_equal. lia.
Qed.

Lemma KeySetupColumnMix_ok s r a c1 c2 :
  state_ok s -> state_ok r -> state_ok a ->
  state_ok (KeySetupColumnMix s r a c1 c2).1 /\ state_ok (KeySetupColumnMix s r a c1 c2).2.
Proof.
  intros Hs Hr Ha. unfold KeySetupColumnMix. cbn [fst snd].
  assert (state_ok (zip_with (fun x y => x ⊕ ((y >> c2) .& 0x1111)) s a)) as Hs'.
  { apply zip_with_ok; [|done..]. intros x y Hx _. apply word_lxor; [done..|]. by apply word_land_r. }
  split; [done|]. apply zip_with_ok; [|done..]. auto with words.
Qed.

Lemma KeySetupColumnMix_s s r a c1 c2 :
  state_ok s -> state_ok a ->
  col (KeySetupColumnMix s r a c1 (Z.of_nat c2)).1 0 = xor_bytes (col s 0) (col a c2).
Proof.
  intros [Hs _] [Ha _].
  transitivity (map (fun r => cell s (Z.of_nat (r * 4 + 0)) ⊕ cell a (Z.of_nat (r * 4 + c2))) (seq 0 4)); [|done].
  apply map_ext_in. intros k Hk. apply in_seq in Hk. cbn [KeySetupColumnMix fst].
  apply cell_zip_with; [done..|apply word_lxor; [done|by apply cell_byte..]|].
  intros b Hb. rewrite !Z.lxor_spec, Z.land_spec, mask_bit, Z.shiftr_spec, andb_true_r by lia.
  rewrite !cell_testbit, Nat2Z.id by lia. do 2 f_equal. lia.
Qed.

Lemma col_zero s c : col s c = zero_word -> forall r, (r < 4)%nat -> cell s (Z.of_nat (r * 4 + c)) = 0.
Proof.
  intros [= H0 H1 H2 H3] r Hr. destruct r as [|[|[|[|]]]];
    [exact H0|exact H1|exact H2|exact H3|lia].
Qed.

Lemma KeySetupColumnMix_r s r a c1 c2 c :
  state_ok s -> state_ok r -> state_ok a -> (c1 < 4)%nat -> (c < 4)%nat -> col r c1 = zero_word ->
  col (KeySetupColumnMix s r a (Z.of_nat c1) c2).2 c =
  if (c =? c1)%nat then col (KeySetupColumnMix s r a (Z.of_nat c1) c2).1 0 else col r c.
Proof.
  intros Hs Hr Ha Hc1 Hc Hz.
  destruct (KeySetupColumnMix_ok s r a (Z.of_nat c1) c2 Hs Hr Ha) as [[Hs' _] _].
  destruct Hr as [Hr _]. unfold KeySetupColumnMix in *. cbn [fst snd] in *.
  set (s' := zip_with _ s a) in *.
  assert (forall k, (k < 4)%nat -> cell (zip_with (fun x y => u16 (y .| ((x .& 0x1111) << Z.of_nat c1))) s' r)
      (Z.of_nat (k * 4 + c)) =
    cell r (Z.of_nat (k * 4 + c)) .| (if (c =? c1)%nat then cell s' (Z.of_nat (k * 4 + 0)) else 0)) as Hcell.
  { intros k Hk. apply cell_zip_with; [done..| |].
    { apply word_lor; [done|by apply cell_byte|]. case_match; [by apply cell_byte|done]. }
    intros b Hb. rewrite u16_testbit, bool_decide_true by lia. cbn [andb].
    rewrite !Z.lor_spec, (cell_testbit r), Nat2Z.id, Z.shiftl_spec, Z.land_spec by lia. f_equal.
    destruct (Nat.eqb_spec c c1) as [->|Hne].
    - rewrite cell_testbit, Nat2Z.id by lia.
      replace (Z.of_nat (k * 4 + c1) - Z.of_nat c1) with (Z.of_nat (k * 4 + 0)) by lia.
      by rewrite mask_bit, andb_true_r by lia.
    - rewrite Z.testbit_0_l. clear - Hk Hc Hc1 Hne.
      destruct k as [|[|[|[|]]]], c as [|[|[|[|]]]], c1 as [|[|[|[|]]]];
        first [lia | apply andb_false_r | (simpl; apply andb_false_r) | reflexivity]. }
  pose proof (col_zero r c1 Hz) as Hz'.
  unfold col at 1. cbn [map seq]. rewrite !Hcell by lia. destruct (Nat.eqb_spec c c1) as [->|Hne].
  - rewrite !Hz' by lia. reflexivity.
  - rewrite !Z.lor_0_r. reflexivity.
Qed.

(** *** The loops of [AES_setup] *)

Lemma update_key_lookup rounds i s f : rounds !! i = Some s -> update_key rounds i f = Some (<[i := f s]> rounds).
Proof. unfold update_key. by intros ->. Qed.

Lemma clear_keys l n :
  (n <= length l)%nat ->
  foldl (fun o i => rounds ← o; update_key rounds i (fun _ => zero_state)) (Some l) (seq 0 n) =
  Some (replicate n zero_state ++ drop n l).
Proof.
  induction n as [|n IH]; intros Hn; [done|].
  rewrite seq_S, foldl_app, IH by lia. cbn [foldl mbind option_bind Nat.add].
  destruct (drop n l) as [|x t] eqn:E.
  { apply (f_equal length) in E. rewrite length_drop in E. simpl in E. lia. }
  rewrite (update_key_lookup _ _ x).
  2: { rewrite lookup_app_r, length_replicate, Nat.sub_diag by (rewrite length_replicate; lia). done. }
  f_equal. rewrite insert_app_r_alt, length_replicate, Nat.sub_diag by (rewrite length_replicate; lia).
  cbn [insert list_insert]. rewrite replicate_S_end, <- app_assoc. cbn [app]. do 2 f_equal.
  replace (S n) with (n + 1)%nat by lia. by rewrite <- drop_drop, E.
Qed.

Section words.
Context (nr : nat).

(** Column [j] of the array of round keys. *)
Definition kcol (rounds : list AES_state) (j : nat) : list Z := col (rounds !!! (j / 4)%nat) (j mod 4).

(** The first [length w] columns hold the words [w], the others are zero. *)
Definition holds_words (rounds : list AES_state) (w : list (list Z)) : Prop :=
  length rounds = (nr + 1)%nat /\ Forall state_ok rounds /\
  forall j, (j < 4 * (nr + 1))%nat ->
    kcol rounds j = if (j <? length w)%nat then w !!! j else zero_word.

Lemma div4_lt j : (j < 4 * (nr + 1))%nat -> (j / 4 < nr + 1)%nat.
Proof. intros. apply Nat.Div0.div_lt_upper_bound. lia. Qed.

Lemma holds_lookup rounds w j :
  holds_words rounds w -> (j < 4 * (nr + 1))%nat ->
  rounds !! (j / 4)%nat = Some (rounds !!! (j / 4)%nat) /\ state_ok (rounds !!! (j / 4)%nat).
Proof.
  intros (Hl&Hok&_) Hj. apply div4_lt in Hj.
  assert (rounds !! (j / 4)%nat = Some (rounds !!! (j / 4)%nat)) as E
    by (apply list_lookup_lookup_total_lt; lia).
  split; [done|]. by eapply Forall_lookup_1.
Qed.

(** Writing the next word. *)
Lemma holds_next rounds w s x :
  holds_words rounds w -> (length w < 4 * (nr + 1))%nat -> state_ok s ->
  (forall c, (c < 4)%nat -> col s c = if (c =? length w mod 4)%nat then x
                                      else col (rounds !!! (length w / 4)%nat) c) ->
  holds_words (<[(length w / 4)%nat := s]> rounds) (w ++ [x]).
Proof.
  intros (Hl&Hok&Hcols) Hw Hs Hc. pose proof (div4_lt _ Hw) as Hlt. split_and!.
  - by rewrite length_insert.
  - by apply Forall_insert.
  - intros j Hj. unfold kcol. rewrite length_app. cbn [length].
    assert (j mod 4 < 4)%nat as Hm by (by apply Nat.mod_upper_bound).
    destruct (decide (j / 4 = length w / 4)%nat) as [E|Hne].
    + rewrite E, list_lookup_total_insert_eq, Hc by (done || lia).
      destruct (Nat.eqb_spec (j mod 4) (length w mod 4)) as [Em|Hne].
      * assert (j = length w) as ->.
        { rewrite (Nat.div_mod j 4), (Nat.div_mod (length w) 4), E, Em by lia. done. }
        rewrite (proj2 (Nat.ltb_lt _ _)) by lia.
        by rewrite list_lookup_total_middle.
      * rewrite <- E. change (col (rounds !!! (j / 4)%nat) (j mod 4)) with (kcol rounds j).
        rewrite Hcols by done.
        assert (j <> length w) by (intros ->; done).
        destruct (Nat.ltb_spec j (length w)).
        -- rewrite (proj2 (Nat.ltb_lt _ _)) by lia. by rewrite lookup_total_app_l.
        -- by rewrite (proj2 (Nat.ltb_ge _ _)) by lia.
    + rewrite list_lookup_total_insert_ne by done.
      change (col (rounds !!! (j / 4)%nat) (j mod 4)) with (kcol rounds j). rewrite Hcols by done.
      assert (j <> length w) by (intros ->; done).
      destruct (Nat.ltb_spec j (length w)).
      -- rewrite (proj2 (Nat.ltb_lt _ _)) by lia. by rewrite lookup_total_app_l.
      -- by rewrite (proj2 (Nat.ltb_ge _ _)) by lia.
Qed.

(** The first loop: one word of the key. *)
Definition key_step (o : option (list AES_state * list Z)) (ir : nat * nat)
    : option (list AES_state * list Z) :=
  '(rounds, key) ← o;
  match key with
  | byte :: key =>
    rounds ← update_key rounds (ir.1 / 4) (fun s => LoadByte s byte ir.2 (ir.1 mod 4));
    Some (rounds, key)
  | [] => None
  end.

Lemma LoadByte_col_other s x r c c' :
  state_ok s -> byte x -> (r < 4)%nat -> (c < 4)%nat -> (c' < 4)%nat -> c' <> c ->
  col (LoadByte s x r c) c' = col s c'.
Proof.
  intros [Hl _] Hx Hr Hc Hc' Hne. apply col_ext. intros k Hk.
  rewrite LoadByte_cell, bool_decide_false by (done || lia). done.
Qed.

Lemma load_column s c b0 b1 b2 b3 :
  state_ok s -> Forall byte [b0; b1; b2; b3] -> (c < 4)%nat -> col s c = zero_word ->
  let s' := LoadByte (LoadByte (LoadByte (LoadByte s b0 0 c) b1 1 c) b2 2 c) b3 3 c in
  state_ok s' /\
  forall c', (c' < 4)%nat -> col s' c' = if (c' =? c)%nat then [b0; b1; b2; b3] else col s c'.
Proof.
  intros Hs Hb Hc Hz. cbv zeta.
  do 4 (let H := fresh "Hb" in apply list.Forall_cons in Hb as [H Hb]).
  pose proof (LoadByte_ok s b0 0 c Hs) as H1. pose proof (LoadByte_ok _ b1 1 c H1) as H2.
  pose proof (LoadByte_ok _ b2 2 c H2) as H3. pose proof (LoadByte_ok _ b3 3 c H3) as H4.
  split; [done|]. intros c' Hc'. destruct (Nat.eqb_spec c' c) as [->|Hne].
  - pose proof (col_zero s c Hz) as Hz'. unfold col. cbn [map seq].
    rewrite !LoadByte_cell by (done || lia || apply H3 || apply H2 || apply H1 || apply Hs).
    rewrite !Hz' by lia.
    repeat first [rewrite bool_decide_true by lia | rewrite bool_decide_false by lia]. done.
  - by rewrite !LoadByte_col_other by (done || lia).
Qed.

Lemma load_key_word rounds w b0 b1 b2 b3 key :
  holds_words rounds w -> (length w < 4 * (nr + 1))%nat -> Forall byte [b0; b1; b2; b3] ->
  exists rounds', foldl key_step (Some (rounds, b0 :: b1 :: b2 :: b3 :: key))
      (r ← seq 0 4; [(length w, r)]) = Some (rounds', key) /\
    holds_words rounds' (w ++ [[b0; b1; b2; b3]]).
Proof.
  intros Hh Hw Hb. destruct (holds_lookup rounds w (length w) Hh Hw) as [E Hs].
  set (i := (length w / 4)%nat) in *. set (c := (length w mod 4)%nat).
  assert (c < 4)%nat as Hc by (by apply Nat.mod_upper_bound).
  assert (i < length rounds)%nat as Hi by (by apply lookup_lt_Some in E).
  destruct (load_column (rounds !!! i) c b0 b1 b2 b3 Hs Hb Hc) as [Hok Hcols].
  { destruct Hh as (_&_&Hcols). pose proof (Hcols (length w) Hw) as Hz.
    unfold kcol in Hz. by rewrite Nat.ltb_irrefl in Hz. }
  eexists. split; [|by apply holds_next].
  cbn [seq mbind list_bind app foldl key_step option_bind fst snd]. fold i c.
  rewrite (update_key_lookup _ _ _ _ E). cbn [mbind option_bind].
  rewrite (update_key_lookup _ _ _ _ (list_lookup_insert_eq _ _ _ Hi)). cbn [mbind option_bind].
  rewrite list_insert_insert_eq.
  rewrite (update_key_lookup _ _ _ _ (list_lookup_insert_eq _ _ _ Hi)). cbn [mbind option_bind].
  rewrite list_insert_insert_eq.
  rewrite (update_key_lookup _ _ _ _ (list_lookup_insert_eq _ _ _ Hi)). cbn [mbind option_bind].
  by rewrite list_insert_insert_eq.
Qed.

Lemma load_key n rounds w key :
  holds_words rounds w -> (length w + n <= 4 * (nr + 1))%nat -> length key = (4 * n)%nat ->
  Forall byte key ->
  exists rounds', foldl key_step (Some (rounds, key))
      (i ← seq (length w) n; r ← seq 0 4; [(i, r)]) = Some (rounds', []) /\
    holds_words rounds' (w ++ words4 n key).
Proof.
  revert rounds w key. induction n as [|n IH]; intros rounds w key Hh Hn Hl Hb.
  { destruct key; [|done]. exists rounds. by rewrite app_nil_r. }
  do 4 (destruct key as [|? key]; [simpl in Hl; lia|]).
  destruct (load_key_word rounds w z z0 z1 z2 key) as (r1&E1&H1); [done|lia| |].
  { exact (Forall_take byte 4%nat _ Hb). }
  change (seq (length w) (S n)) with (length w :: seq (S (length w)) n).
  rewrite bind_cons, foldl_app, E1.
  destruct (IH r1 (w ++ [[z; z0; z1; z2]]) key) as (r2&E2&H2);
    [done|rewrite length_app; simpl; lia|simpl in Hl; lia|exact (Forall_drop byte 4%nat _ Hb)|].
  exists r2. rewrite length_app, Nat.add_comm in E2. split; [exact E2|].
  by rewrite <- app_assoc in H2.
Qed.

End words.

(** The second loop. *)
Section schedule.
Context (nk nr : nat) (Hnk : (4 <= nk)%nat).

Definition setup_inv (w : list (list Z)) (v : setup_vars) : Prop :=
  holds_words nr (sv_rounds v) w /\ state_ok (sv_column v) /\
  col (sv_column v) 0 = w !!! (length w - 1)%nat /\ state_ok (sv_rcon v) /\
  col (sv_rcon v) 0 = [Nat.iter ((length w - 1) / nk) xtime 1; 0; 0; 0] /\
  sv_pos v = (length w mod nk)%nat.

Lemma pos_next i : (if (S (i mod nk) =? nk)%nat then 0 else S (i mod nk))%nat = (S i mod nk)%nat.
Proof.
  pose proof (Nat.mod_upper_bound i nk ltac:(lia)) as Hm.
  pose proof (Nat.div_mod i nk ltac:(lia)) as Hd. destruct (Nat.eqb_spec (S (i mod nk)) nk) as [E|Hne].
  - apply Nat.mod_unique with (S (i / nk)); lia.
  - apply Nat.mod_unique with (i / nk)%nat; lia.
Qed.

Lemma div_next i : (i mod nk <> 0 -> (i - 1) / nk = i / nk)%nat.
Proof.
  intros Hm. pose proof (Nat.mod_upper_bound i nk ltac:(lia)). pose proof (Nat.div_mod i nk ltac:(lia)).
  symmetry. apply Nat.div_unique with (i mod nk - 1)%nat; lia.
Qed.

Lemma div_wrap i : (0 < i -> i mod nk = 0 -> i / nk = S ((i - 1) / nk))%nat.
Proof.
  intros Hi Hm. pose proof (Nat.div_mod i nk ltac:(lia)) as Hd. rewrite Hm, Nat.add_0_r in Hd.
  destruct (i / nk)%nat as [|q] eqn:E; [lia|]. f_equal. apply Nat.div_unique with (nk - 1)%nat; lia.
Qed.

Lemma col_SubBytes s c : state_ok s -> (c < 4)%nat -> col (SubBytes s false) c = sub_bytes (col s c).
Proof.
  intros [Hl _] Hc. unfold col, sub_bytes. rewrite map_map. apply map_ext_in. intros r Hr.
  apply in_seq in Hr. apply (SubBytes_cell false); [done|lia].
Qed.

Lemma col_KeySetupTransform s r :
  state_ok s -> state_ok r -> col (KeySetupTransform s r) 0 = xor_bytes (rot_word (col s 0)) (col r 0).
Proof.
  intros Hs Hr. unfold col. cbn [map seq]. rewrite !KeySetupTransform_cell by (done || lia). reflexivity.
Qed.

Lemma col_MultX s c : state_ok s -> col (MultX s) c = map xtime (col s c).
Proof. intros Hs. unfold col. rewrite map_map. apply map_ext. intros. by apply MultX_cell. Qed.

Lemma iter_S {A} (f : A -> A) n x : f (Nat.iter n f x) = Nat.iter (S n) f x.
Proof. done. Qed.

(** The transformation of the column. *)
Lemma transform_column w v :
  (1 <= length w)%nat -> setup_inv w v ->
  let cr := if (sv_pos v =? 0)%nat then
              (KeySetupTransform (SubBytes (sv_column v) false) (sv_rcon v), MultX (sv_rcon v))
            else if (6 <? nk)%nat && (sv_pos v =? 4)%nat then (SubBytes (sv_column v) false, sv_rcon v)
            else (sv_column v, sv_rcon v) in
  state_ok cr.1 /\ state_ok cr.2 /\
  col cr.2 0 = [Nat.iter (length w / nk) xtime 1; 0; 0; 0] /\
  xor_bytes (col cr.1 0) (w !!! (length w - nk)%nat) = next_word nk (length w) w.
Proof.
  intros Hw (_&Hc&Hcol&Hr&Hrcon&Hpos). cbv zeta. unfold next_word. rewrite <- Hpos. cbv zeta.
  rewrite (xor_bytes_comm (w !!! (length w - nk)%nat)).
  pose proof (SubBytes_ok false _ Hc) as Hsub.
  destruct (Nat.eqb_spec (sv_pos v) 0) as [E0|E0]; cbn [fst snd].
  - rewrite Hpos in E0. pose proof (div_wrap (length w) Hw E0) as Ed.
    split_and!; [by apply KeySetupTransform_ok|by apply MultX_ok| |].
    + rewrite col_MultX, Hrcon, Ed by done. reflexivity.
    + f_equal. rewrite col_KeySetupTransform, col_SubBytes, Hcol, Hrcon by (done || lia).
      unfold Rcon. rewrite Ed. cbn [Nat.sub]. rewrite Nat.sub_0_r. f_equal.
      unfold rot_word, sub_bytes. by rewrite map_app, firstn_map, skipn_map.
  - rewrite Hpos in E0. rewrite (div_next _ E0) in Hrcon.
    destruct ((6 <? nk)%nat && (sv_pos v =? 4)%nat); cbn [fst snd]; split_and!; try done.
    + f_equal. by rewrite col_SubBytes, Hcol by (done || lia).
    + by rewrite Hcol.
Qed.

Lemma setup_step_inv w v :
  (nk <= length w < 4 * (nr + 1))%nat -> setup_inv w v ->
  exists v', setup_step nk v (length w) = Some v' /\ setup_inv (w ++ [next_word nk (length w) w]) v'.
Proof.
  intros Hw Hv. destruct (transform_column w v ltac:(lia) Hv) as (Hc&Hr&Hrcon&Hnext).
  destruct Hv as (Hh&_&_&_&_&Hpos). unfold setup_step. cbv zeta in *.
  destruct (if (sv_pos v =? 0)%nat then _ else _) as [column rcon]. cbn [fst snd] in *.
  destruct (holds_lookup nr _ _ (length w) Hh ltac:(lia)) as [Er Hrok].
  destruct (holds_lookup nr _ _ (length w - nk)%nat Hh ltac:(lia)) as [Ea Haok].
  rewrite Er, Ea. cbn [mbind option_bind].
  set (r := sv_rounds v !!! (length w / 4)%nat) in *.
  set (a := sv_rounds v !!! ((length w - nk) / 4)%nat) in *.
  assert (col a ((length w - nk) mod 4) = w !!! (length w - nk)%nat) as Hacol.
  { destruct Hh as (_&_&Hcols). pose proof (Hcols (length w - nk)%nat ltac:(lia)) as H.
    by rewrite (proj2 (Nat.ltb_lt _ _)) in H by lia. }
  assert (col r (length w mod 4) = zero_word) as Hz.
  { destruct Hh as (_&_&Hcols). pose proof (Hcols (length w) ltac:(lia)) as H.
    by rewrite Nat.ltb_irrefl in H. }
  assert (length w mod 4 < 4)%nat as Hm by (by apply Nat.mod_upper_bound).
  pose proof (KeySetupColumnMix_ok column r a (Z.of_nat (length w mod 4))
    (Z.of_nat ((length w - nk) mod 4)) Hc Hrok Haok) as [Hs1 Hs2].
  pose proof (KeySetupColumnMix_s column r a (Z.of_nat (length w mod 4)) ((length w - nk) mod 4) Hc Haok)
    as Hcs. rewrite Hacol, Hnext in Hcs.
  pose proof (fun c => KeySetupColumnMix_r column r a (length w mod 4)
    (Z.of_nat ((length w - nk) mod 4)) c Hc Hrok Haok Hm) as Hcr. rewrite Hcs in Hcr.
  destruct (KeySetupColumnMix column r a _ _) as [column' r']. cbn [fst snd] in *.
  eexists. split; [done|]. unfold setup_inv. cbn [sv_rounds sv_column sv_rcon sv_pos].
  rewrite length_app, Nat.add_comm. cbn [length Nat.add]. rewrite Hpos, pos_next.
  split_and!; try done.
  - apply holds_next; [done|lia|done|]. intros c Hc4. by apply Hcr.
  - rewrite Hcs. replace (S (length w) - 1)%nat with (length w) by lia.
    by rewrite list_lookup_total_middle.
  - by replace (S (length w) - 1)%nat with (length w) by lia.
Qed.

Lemma setup_loop n w v :
  (nk <= length w)%nat -> (length w + n <= 4 * (nr + 1))%nat -> setup_inv w v ->
  exists v', foldl (fun o i => v ← o; setup_step nk v i) (Some v) (seq (length w) n) = Some v' /\
    setup_inv (foldl (fun w i => w ++ [next_word nk i w]) w (seq (length w) n)) v' /\
    length (foldl (fun w i => w ++ [next_word nk i w]) w (seq (length w) n)) = (length w + n)%nat.
Proof.
  revert w v. induction n as [|n IH]; intros w v Hw Hn Hv.
  { exists v. cbn [seq foldl]. by rewrite Nat.add_0_r. }
  destruct (setup_step_inv w v ltac:(lia) Hv) as (v1&E1&H1). cbn [seq foldl mbind option_bind].
  rewrite E1. destruct (IH (w ++ [next_word nk (length w) w]) v1) as (v2&E2&H2&L2);
    [rewrite length_app; simpl; lia|rewrite length_app; simpl; lia|done|].
  rewrite length_app, (Nat.add_comm (length w)) in E2, H2, L2. exists v2.
  split_and!; [exact E2|exact H2|]. etrans; [exact L2|]. simpl. lia.
Qed.
End schedule.

Lemma length_words4 n key : length (words4 n key) = n.
Proof. revert key. induction n as [|n IH]; intros key; [done|]. cbn [words4 length]. by rewrite IH. Qed.

Lemma take4_drop (w : list (list Z)) i :
  (4 * i + 4 <= length w)%nat -> take 4 (drop (4 * i) w) = map (fun c => w !!! (4 * i + c)%nat) (seq 0 4).
Proof.
  intros Hl. symmetry. change 4%nat with (length (seq 0 4)) at 3. apply map_take_lookup.
  - rewrite length_drop. simpl. lia.
  - intros j x Hj. apply lookup_seq in Hj as [-> Hj]. rewrite !list_lookup_total_alt, lookup_drop. done.
Qed.

(** The words that the array holds at the end are the round keys. *)
Lemma holds_keys nr rounds w :
  holds_words nr rounds w -> length w = (4 * (nr + 1))%nat -> keys_rel rounds nr w.
Proof.
  intros Hh Hw i Hi. destruct (holds_lookup nr rounds w (4 * i) Hh ltac:(lia)) as [E Hs].
  assert (4 * i / 4 = i)%nat as E4 by (rewrite Nat.mul_comm; by apply Nat.div_mul).
  rewrite E4 in E, Hs. exists (rounds !!! i). split_and!; [done|done|].
  rewrite bytes_of_cols. unfold round_key. rewrite take4_drop by lia. f_equal.
  apply map_ext_in. intros c Hc. apply in_seq in Hc. destruct Hh as (_&_&Hcols).
  pose proof (Hcols (4 * i + c)%nat ltac:(lia)) as H. unfold kcol in H.
  rewrite (proj2 (Nat.ltb_lt _ _)) in H by lia. rewrite <- H. f_equal; [f_equal|].
  - apply Nat.div_unique with c; lia.
  - apply Nat.mod_unique with i; lia.
Qed.

Lemma AES_setup_spec rounds key nk nr :
  (4 <= nk)%nat -> (nk <= 4 * (nr + 1))%nat -> length rounds = (nr + 1)%nat ->
  length key = (4 * nk)%nat -> Forall byte key ->
  exists rk, AES_setup rounds key nk nr = Some rk /\ length rk = (nr + 1)%nat /\
    keys_rel rk nr (key_expansion nk nr key).
Proof.
  intros Hnk Hnr Hl Hk Hb. unfold AES_setup. cbv zeta.
  rewrite clear_keys by lia. cbn [mbind option_bind].
  rewrite drop_ge, app_nil_r by lia.
  assert (holds_words nr (replicate (nr + 1) zero_state) []) as H0.
  { split_and!; [by rewrite length_replicate|apply Forall_replicate, zero_state_ok|].
    intros j Hj. apply div4_lt in Hj. unfold kcol, col. cbn [length Nat.ltb Nat.leb].
    rewrite lookup_total_replicate_2 by lia. cbn [map seq]. by rewrite !zero_state_cell. }
  destruct (load_key nr nk _ [] key H0 Hnr Hk Hb) as (r1&E1&H1).
  match goal with |- context [foldl ?f (Some (replicate _ _, key)) ?l] =>
    change (foldl f (Some (replicate (nr + 1) zero_state, key)) l)
      with (foldl key_step (Some (replicate (nr + 1) zero_state, key)) (i ← seq 0 nk; r ← seq 0 4; [(i, r)]))
  end.
  change (length (@nil (list Z))) with 0%nat in E1. rewrite E1. cbn [mbind option_bind app] in *.
  destruct (holds_lookup nr r1 _ (nk - 1) H1 ltac:(lia)) as [Ea Ha]. rewrite Ea. cbn [mbind option_bind].
  set (a := r1 !!! ((nk - 1) / 4)%nat) in *.
  destruct (setup_loop nk nr Hnk (4 * (nr + 1) - nk) (words4 nk key)
    (SetupVars r1 (GetOneColumn a (Z.of_nat ((nk - 1) mod 4))) [1; 0; 0; 0; 0; 0; 0; 0] 0))
    as (v&E2&(Hh&_)&Hlen); [by rewrite length_words4|rewrite length_words4; lia| |].
  { unfold setup_inv. rewrite length_words4. cbn [sv_rounds sv_column sv_rcon sv_pos]. split_and!.
    - done.
    - by apply GetOneColumn_ok.
    - rewrite GetOneColumn_col. destruct H1 as (_&_&Hcols). pose proof (Hcols (nk - 1)%nat ltac:(lia)) as H.
      rewrite length_words4, (proj2 (Nat.ltb_lt _ _)) in H by lia. done.
    - split; [done|]. by apply (bool_decide_unpack _).
    - rewrite Nat.div_small by lia. reflexivity.
    - by rewrite Nat.Div0.mod_same. }
  rewrite length_words4 in E2, Hh, Hlen. rewrite E2. cbn [mbind option_bind].
  exists (sv_rounds v). split_and!; [done|apply Hh|]. apply holds_keys; [done|]. unfold key_expansion. lia.
Qed.

(** ** The three key sizes *)

Inductive aes_size := AES128 | AES192 | AES256.
Definition key_words (z : aes_size) : nat := match z with AES128 => 4 | AES192 => 6 | AES256 => 8 end.
Definition num_rounds (z : aes_size) : nat := match z with AES128 => 10 | AES192 => 12 | AES256 => 14 end.
Definition aes_init (z : aes_size) : list AES_state -> list Z -> option (list AES_state) :=
  match z with AES128 => AES128_init | AES192 => AES192_init | AES256 => AES256_init end.
Definition aes_encrypt (z : aes_size) : list AES_state -> nat -> list Z -> option (list Z) :=
  match z with AES128 => AES128_encrypt | AES192 => AES192_encrypt | AES256 => AES256_encrypt end.
Definition aes_decrypt (z : aes_size) : list AES_state -> nat -> list Z -> option (list Z) :=
  match z with AES128 => AES128_decrypt | AES192 => AES192_decrypt | AES256 => AES256_decrypt end.

(** The blocks of a message, each through a function. *)
Fixpoint on_blocks (f : list Z -> list Z) (n : nat) (data : list Z) : list Z :=
  match n with O => [] | S n => f (take 16 data) ++ on_blocks f n (drop 16 data) end.

Lemma each_block_spec f g n data :
  (forall data, (16 <= length data)%nat -> Forall byte data -> f data = Some (g (take 16 data))) ->
  length data = (16 * n)%nat -> Forall byte data -> each_block f n data = Some (on_blocks g n data).
Proof.
  intros Hf. revert data. induction n as [|n IH]; intros data Hl Hb; [done|].
  cbn [each_block on_blocks]. rewrite Hf by (done || lia). cbn [mbind option_bind].
  rewrite IH; [done|rewrite length_drop; lia|by apply Forall_drop].
Qed.

Lemma aes_keys z rounds key :
  length rounds = (num_rounds z + 1)%nat -> length key = (4 * key_words z)%nat -> Forall byte key ->
  exists rk, aes_init z rounds key = Some rk /\
    keys_rel rk (num_rounds z) (key_expansion (key_words z) (num_rounds z) key).
Proof.
  intros Hl Hk Hb.
  destruct (AES_setup_spec rounds key (key_words z) (num_rounds z)) as (rk&E&_&H);
    [destruct z; simpl; lia..|done|done|done|].
  exists rk. split; [|done]. by destruct z.
Qed.

Lemma aes_encrypt_blocks z rk w n data :
  keys_rel rk (num_rounds z) w -> length data = (16 * n)%nat -> Forall byte data ->
  aes_encrypt z rk n data = Some (on_blocks (cipher (num_rounds z) w) n data).
Proof.
  intros Hk Hl Hb.
  assert (aes_encrypt z rk n data = each_block (AES_encrypt rk (num_rounds z)) n data) as -> by (by destruct z).
  apply each_block_spec; [|done..]. intros. apply AES_encrypt_cipher; [done|destruct z; simpl; lia|done..].
Qed.

Lemma aes_decrypt_blocks z rk w n data :
  keys_rel rk (num_rounds z) w -> length data = (16 * n)%nat -> Forall byte data ->
  aes_decrypt z rk n data = Some (on_blocks (inv_cipher (num_rounds z) w) n data).
Proof.
  intros Hk Hl Hb.
  assert (aes_decrypt z rk n data = each_block (AES_decrypt rk (num_rounds z)) n data) as -> by (by destruct z).
  apply each_block_spec; [|done..]. intros. apply AES_decrypt_cipher; [done|destruct z; simpl; lia|done..].
Qed.

Lemma cipher_block nr w A : keys_block nr w -> block A -> (1 <= nr)%nat -> block (cipher nr w A).
Proof.
  intros Hw HA Hnr. unfold cipher. rewrite (foldl_map_keys round_step (round_key w)).
  apply xor_bytes_block; [|by apply Hw]. apply shift_rows_block, sub_bytes_block, rounds_block.
  - apply Forall_map, list.Forall_forall. intros i Hi. apply elem_of_seq in Hi. apply Hw. lia.
  - apply xor_bytes_block; [done|apply Hw; lia].
Qed.

Lemma on_blocks_inverse f g n data :
  (forall A, block A -> block (f A) /\ g (f A) = A) ->
  length data = (16 * n)%nat -> Forall byte data ->
  length (on_blocks f n data) = (16 * n)%nat /\ Forall byte (on_blocks f n data) /\
  on_blocks g n (on_blocks f n data) = data.
Proof.
  intros Hf. revert data. induction n as [|n IH]; intros data Hl Hb; [by destruct data|].
  cbn [on_blocks]. destruct (Hf (take 16 data)) as [[Hl1 Hb1] Hg].
  { split; [rewrite length_take; lia|by apply Forall_take]. }
  destruct (IH (drop 16 data)) as (Hl2&Hb2&Hi); [rewrite length_drop; lia|by apply Forall_drop|].
  rewrite length_app, take_app_length', drop_app_length', Hg, Hi, take_drop by done.
  split_and!; [lia|by apply Forall_app_2|done].
Qed.

(** ** Theorems *)

(** C38: for the three key sizes, whatever the context held before, [init] expands
    the key inside its array and [encrypt] returns, for every number of blocks,
    the FIPS 197 cipher of each block under the FIPS 197 key schedule. *)
Theorem aes_encrypt_fips197 z rounds key n data :
  length rounds = (num_rounds z + 1)%nat -> length key = (4 * key_words z)%nat -> Forall byte key ->
  length data = (16 * n)%nat -> Forall byte data ->
  exists rk, aes_init z rounds key = Some rk /\
    aes_encrypt z rk n data =
      Some (on_blocks (cipher (num_rounds z) (key_expansion (key_words z) (num_rounds z) key)) n data).
Proof.
  intros Hl Hk Hkb Hd Hb. destruct (aes_keys z rounds key Hl Hk Hkb) as (rk&E&Hrk).
  exists rk. split; [done|]. by apply aes_encrypt_blocks.
Qed.

Lemma aes_encrypt_fips197_witness :
  exists rk, aes_init AES192 (replicate 13 [7]) (seqZ 0 24) = Some rk /\
    aes_encrypt AES192 rk 2 (seqZ 100 32) =
      Some (on_blocks (cipher 12 (key_expansion 6 12 (seqZ 0 24))) 2 (seqZ 100 32)).
Proof.
  apply (aes_encrypt_fips197 AES192 (replicate 13 [7]) (seqZ 0 24) 2 (seqZ 100 32));
    [reflexivity|reflexivity| |reflexivity|]; apply (bool_decide_unpack _); vm_compute; exact I.
Defined.

(** [decrypt] with the same key returns what [encrypt] was given, for every
    key size, key and number of blocks. *)
Theorem aes_roundtrip z rounds key n data :
  length rounds = (num_rounds z + 1)%nat -> length key = (4 * key_words z)%nat -> Forall byte key ->
  length data = (16 * n)%nat -> Forall byte data ->
  exists rk c, aes_init z rounds key = Some rk /\ aes_encrypt z rk n data = Some c /\
    length c = (16 * n)%nat /\ aes_decrypt z rk n c = Some data.
Proof.
  intros Hl Hk Hkb Hd Hb. destruct (aes_keys z rounds key Hl Hk Hkb) as (rk&E&Hrk).
  set (w := key_expansion _ _ _) in *. pose proof (keys_rel_block _ _ _ Hrk) as Hw.
  assert (1 <= num_rounds z)%nat as Hnr by (destruct z; simpl; lia).
  destruct (on_blocks_inverse (cipher (num_rounds z) w) (inv_cipher (num_rounds z) w) n data)
    as (Hlc&Hbc&Hi); [|done..|].
  { intros A HA. split; [by apply cipher_block|by apply inv_cipher_id]. }
  eexists rk, _. split_and!; [done|by apply aes_encrypt_blocks|done|].
  rewrite (aes_decrypt_blocks z rk w) by done. by rewrite Hi.
Qed.

Lemma aes_roundtrip_witness :
  exists rk c, aes_init AES256 (replicate 15 [7]) (seqZ 0 32) = Some rk /\
    aes_encrypt AES256 rk 1 (seqZ 60 16) = Some c /\ length c = 16%nat /\
    aes_decrypt AES256 rk 1 c = Some (seqZ 60 16).
Proof.
  apply (aes_roundtrip AES256 (replicate 15 [7]) (seqZ 0 32) 1 (seqZ 60 16));
    [reflexivity|reflexivity| |reflexivity|]; apply (bool_decide_unpack _); vm_compute; exact I.
Defined.

(** the bit-sliced circuit applies to each of the 16 cells the S-box of FIPS
    197, inversion in GF(2^8) and an affine map, and with [inv] its inverse. *)
Theorem ctaes_sbox (inv : bool) s r c :
  length s = 8%nat -> (r < 4)%nat -> (c < 4)%nat ->
  cell (SubBytes s inv) (Z.of_nat (r * 4 + c)) =
  (if inv then inv_sbox else sbox) (cell s (Z.of_nat (r * 4 + c))).
Proof. intros. apply SubBytes_cell; [done|lia]. Qed.

Lemma ctaes_sbox_witness :
  cell (SubBytes [0xFFFF; 0; 0x1234; 0; 0; 7; 9; 0x8000] true) (Z.of_nat (2 * 4 + 1)) =
  inv_sbox (cell [0xFFFF; 0; 0x1234; 0; 0; 7; 9; 0x8000] (Z.of_nat (2 * 4 + 1))).
Proof. apply (ctaes_sbox true); [reflexivity|lia|lia]. Defined.

(** Known answer: appendix C.1 of FIPS 197. *)
Example aes128_fips197 :
  (rk ← AES128_init (replicate 11 []) (seqZ 0 16);
   AES128_encrypt rk 1 (map (fun i => 0x11 * i) (seqZ 0 16))) =
  Some [0x69; 0xc4; 0xe0; 0xd8; 0x6a; 0x7b; 0x04; 0x30; 0xd8; 0xcd; 0xb7; 0x80; 0x70; 0xb4; 0xc5; 0x5a].
Proof. vm_compute. reflexivity. Qed.
