(* ===== verification/Aes.v ===== *)
(** * AES in CBC mode: [src/src/crypto/aes.cpp]

    The classes around the block cipher of [Ctaes]: the templates [CBCEncrypt] and
    [CBCDecrypt] over any block cipher that keeps the promises of the class
    [BlockCipher], with their return values, padding and checks, and the wrapper
    classes for AES-128 and AES-256. *)

From S2P Require Import Prelude SphTypes Ctaes.

#[local] Open Scope c_scope.

(** [int] addition; overflow is undefined. *)
Definition int_add (a b : Z) : option Z :=
  if bool_decide (- 2 ^ 31 <= a + b < 2 ^ 31) then Some (a + b) else None.

Definition AES_BLOCKSIZE : Z := 16.

(** ** The templates

    A pointer is the list of the bytes from its target on, [None] when it is null;
    the result is [None] when the function leaves an array, and otherwise its return
    value and what the output array holds. *)

(** [for (int i = from; i != to; i++) mixed[i] ^= *data++] *)
Definition mix_data (mixed data : list Z) (from to : nat) : option (list Z * list Z) :=
  foldl (fun o i =>
      '(mixed, data) ← o;
      x ← mixed !! i;
      match data with
      | d :: data => Some (<[i := x ⊕ d]> mixed, data)
      | [] => None
      end) (Some (mixed, data)) (seq from (to - from)).

(** [for (int i = padsize; i != AES_BLOCKSIZE; i++) mixed[i] ^= AES_BLOCKSIZE - padsize] *)
Definition mix_padding (mixed : list Z) (padsize : nat) : option (list Z) :=
  foldl (fun o i =>
      mixed ← o;
      x ← mixed !! i;
      Some (<[i := uchar (x ⊕ (AES_BLOCKSIZE - Z.of_nat padsize))]> mixed))
    (Some mixed) (seq padsize (16 - padsize)).

Section templates.
(** [enc.Encrypt] and [dec.Decrypt]: the 16 bytes they write. *)
Context (Encrypt Decrypt : list Z -> option (list Z)).

(** [while (written + AES_BLOCKSIZE <= size)]; [size] iterations are enough. *)
Fixpoint cbc_encrypt_loop (fuel : nat) (size : Z) (written : Z) (mixed data out : list Z)
    : option (Z * list Z * list Z * list Z) :=
  next ← int_add written AES_BLOCKSIZE;
  if next <=? size then
    match fuel with
    | O => None
    | S fuel =>
      '(mixed, data) ← mix_data mixed data 0 16;
      c ← Encrypt mixed;
      out ← memcpy out (Z.to_nat written) c;
      cbc_encrypt_loop fuel size next c data out
    end
  else Some (written, mixed, data, out).

Definition CBCEncrypt (iv : list Z) (data : option (list Z)) (size : Z) (pad : bool)
    (out : option (list Z)) : option (Z * option (list Z)) :=
  let padsize := Z.rem size AES_BLOCKSIZE in
  match data, out with
  | Some data, Some out =>
    if size =? 0 then Some (0, Some out)
    else if negb pad && negb (padsize =? 0) then Some (0, Some out)
    else
      '(written, mixed, data, out) ← cbc_encrypt_loop (Z.to_nat size) size 0 (take 16 iv) data out;
      if pad then
        '(mixed, data) ← mix_data mixed data 0 (Z.to_nat padsize);
        mixed ← mix_padding mixed (Z.to_nat padsize);
        c ← Encrypt mixed;
        out ← memcpy out (Z.to_nat written) c;
        written ← int_add written AES_BLOCKSIZE;
        Some (written, Some out)
      else Some (written, Some out)
  | _, _ => Some (0, out)
  end.

(** [while (written != size)]; the bytes of [out] from [written] on are those at the
    incremented pointer. *)
Fixpoint cbc_decrypt_loop (fuel : nat) (size : Z) (written : Z) (prev data out : list Z)
    : option (Z * list Z) :=
  if written =? size then Some (written, out)
  else
    match fuel with
    | O => None
    | S fuel =>
      m ← Decrypt (drop (Z.to_nat written) data);
      out ← memcpy out (Z.to_nat written) (zip_with Z.lxor m (take 16 prev));
      next ← int_add written AES_BLOCKSIZE;
      cbc_decrypt_loop fuel size next (drop (Z.to_nat written) data) data out
    end.

(** [for (int i = AES_BLOCKSIZE; i != 0; i--) fail |= (i > AES_BLOCKSIZE - padsize) &
    ( *out-- != padsize)], from the last byte at [last] backwards. *)
Definition check_padding (out : list Z) (last : nat) (padsize : Z) (fail : bool) : option bool :=
  foldl (fun o k =>
      fail ← o;
      x ← out !! (last - k)%nat;
      Some (fail || ((AES_BLOCKSIZE - Z.of_nat k >? AES_BLOCKSIZE - padsize) && negb (x =? padsize))))
    (Some fail) (seq 0 16).

Definition CBCDecrypt (iv : list Z) (data : option (list Z)) (size : Z) (pad : bool)
    (out : option (list Z)) : option (Z * option (list Z)) :=
  match data, out with
  | Some data, Some out =>
    if size =? 0 then Some (0, Some out)
    else if negb (Z.rem size AES_BLOCKSIZE =? 0) then Some (0, Some out)
    else
      '(written, out) ← cbc_decrypt_loop (Z.to_nat size) size 0 iv data out;
      if pad then
        let last := Z.to_nat (written - 1) in
        padsize ← out !! last;
        let fail := (padsize =? 0) || (padsize >? AES_BLOCKSIZE) in
        let padsize := padsize * Z.b2z (negb fail) in
        fail ← check_padding out last padsize fail;
        Some ((written - padsize) * Z.b2z (negb fail), Some out)
      else Some (written, Some out)
  | _, _ => Some (0, out)
  end.
End templates.

(** ** The wrapper classes

    An object holds the expanded key, or the key material of the mode. *)

Definition AES128Encrypt (ctx : list AES_state) (key : list Z) : option (list AES_state) := AES128_init ctx key.
Definition AES128Encrypt_Encrypt (ctx : list AES_state) (plaintext : list Z) : option (list Z) :=
  AES128_encrypt ctx 1 plaintext.
Definition AES128Decrypt (ctx : list AES_state) (key : list Z) : option (list AES_state) := AES128_init ctx key.
Definition AES128Decrypt_Decrypt (ctx : list AES_state) (ciphertext : list Z) : option (list Z) :=
  AES128_decrypt ctx 1 ciphertext.
Definition AES256Encrypt (ctx : list AES_state) (key : list Z) : option (list AES_state) := AES256_init ctx key.
Definition AES256Encrypt_Encrypt (ctx : list AES_state) (plaintext : list Z) : option (list Z) :=
  AES256_encrypt ctx 1 plaintext.
Definition AES256Decrypt (ctx : list AES_state) (key : list Z) : option (list AES_state) := AES256_init ctx key.
Definition AES256Decrypt_Decrypt (ctx : list AES_state) (ciphertext : list Z) : option (list Z) :=
  AES256_decrypt ctx 1 ciphertext.

(** [enc] or [dec], [iv] and [pad] of the four mode classes. *)
Record cbc_object := CbcObject { cbc_ctx : list AES_state; cbc_iv : list Z; cbc_pad : bool }.

Definition AES256CBCEncrypt (ctx : list AES_state) (key ivIn : list Z) (padIn : bool) : option cbc_object :=
  ctx ← AES256Encrypt ctx key; iv ← memcpy (replicate 16 0) 0 (take 16 ivIn); Some (CbcObject ctx iv padIn).
Definition AES256CBCEncrypt_Encrypt (o : cbc_object) (data : option (list Z)) (size : Z)
    (out : option (list Z)) : option (Z * option (list Z)) :=
  CBCEncrypt (AES256Encrypt_Encrypt (cbc_ctx o)) (cbc_iv o) data size (cbc_pad o) out.
Definition AES256CBCDecrypt (ctx : list AES_state) (key ivIn : list Z) (padIn : bool) : option cbc_object :=
  ctx ← AES256Decrypt ctx key; iv ← memcpy (replicate 16 0) 0 (take 16 ivIn); Some (CbcObject ctx iv padIn).
Definition AES256CBCDecrypt_Decrypt (o : cbc_object) (data : option (list Z)) (size : Z)
    (out : option (list Z)) : option (Z * option (list Z)) :=
  CBCDecrypt (AES256Decrypt_Decrypt (cbc_ctx o)) (cbc_iv o) data size (cbc_pad o) out.
Definition AES128CBCEncrypt (ctx : list AES_state) (key ivIn : list Z) (padIn : bool) : option cbc_object :=
  ctx ← AES128Encrypt ctx key; iv ← memcpy (replicate 16 0) 0 (take 16 ivIn); Some (CbcObject ctx iv padIn).
Definition AES128CBCEncrypt_Encrypt (o : cbc_object) (data : option (list Z)) (size : Z)
    (out : option (list Z)) : option (Z * option (list Z)) :=
  CBCEncrypt (AES128Encrypt_Encrypt (cbc_ctx o)) (cbc_iv o) data size (cbc_pad o) out.
Definition AES128CBCDecrypt (ctx : list AES_state) (key ivIn : list Z) (padIn : bool) : option cbc_object :=
  ctx ← AES128Decrypt ctx key; iv ← memcpy (replicate 16 0) 0 (take 16 ivIn); Some (CbcObject ctx iv padIn).
Definition AES128CBCDecrypt_Decrypt (o : cbc_object) (data : option (list Z)) (size : Z)
    (out : option (list Z)) : option (Z * option (list Z)) :=
  CBCDecrypt (AES128Decrypt_Decrypt (cbc_ctx o)) (cbc_iv o) data size (cbc_pad o) out.

(** ** Specification *)

(** What the templates use of a block cipher: on 16 bytes or more, the functions
    return a permutation of the first 16 and its inverse. *)
Class BlockCipher (Encrypt Decrypt : list Z -> option (list Z)) := {
  bc_E : list Z -> list Z;
  bc_D : list Z -> list Z;
  bc_encrypt data : (16 <= length data)%nat -> Forall byte data -> Encrypt data = Some (bc_E (take 16 data));
  bc_decrypt data : (16 <= length data)%nat -> Forall byte data -> Decrypt data = Some (bc_D (take 16 data));
  bc_E_block A : block A -> block (bc_E A);
  bc_D_block A : block A -> block (bc_D A);
  bc_D_E A : block A -> bc_D (bc_E A) = A;
}.

(** CBC encryption and decryption of [n] blocks. *)
Fixpoint cbc_enc (E : list Z -> list Z) (n : nat) (iv data : list Z) : list Z :=
  match n with
  | O => []
  | S n => let c := E (xor_bytes iv (take 16 data)) in c ++ cbc_enc E n c (drop 16 data)
  end.

Fixpoint cbc_dec (D : list Z -> list Z) (n : nat) (iv data : list Z) : list Z :=
  match n with
  | O => []
  | S n => xor_bytes (D (take 16 data)) iv ++ cbc_dec D n (take 16 data) (drop 16 data)
  end.

(** PKCS #7: pad to whole blocks with bytes that give the length of the padding. *)
Definition pkcs7_pad (data : list Z) : list Z :=
  let p := (16 - length data mod 16)%nat in data ++ replicate p (Z.of_nat p).

Definition pkcs7_unpad (m : list Z) : option (list Z) :=
  p ← list.last m;
  if bool_decide (1 <= p <= 16 /\ (Z.to_nat p <= length m)%nat /\
                  drop (length m - Z.to_nat p) m = replicate (Z.to_nat p) p)
  then Some (take (length m - Z.to_nat p) m) else None.

(** ** Lemmas *)

Lemma int_add_Some a b : - 2 ^ 31 <= a + b < 2 ^ 31 -> int_add a b = Some (a + b).
Proof. intros. unfold int_add. by rewrite bool_decide_true. Qed.

Lemma mix_data_spec mixed data k :
  (k <= length mixed)%nat -> (k <= length data)%nat ->
  mix_data mixed data 0 k = Some (xor_bytes (take k mixed) (take k data) ++ drop k mixed, drop k data).
Proof.
  unfold mix_data. rewrite Nat.sub_0_r. induction k as [|k IH]; intros Hm Hd; [done|].
  rewrite seq_S, foldl_app, IH by lia. cbn [foldl mbind option_bind Nat.add].
  destruct (lookup_lt_is_Some_2 mixed k) as [x Hx]; [lia|].
  destruct (lookup_lt_is_Some_2 data k) as [d Hd']; [lia|].
  assert (length (xor_bytes (take k mixed) (take k data)) = k) as Hl
    by (unfold xor_bytes; rewrite length_zip_with, !length_take; lia).
  rewrite lookup_app_r, Hl, Nat.sub_diag, lookup_drop, Nat.add_0_r, Hx by lia. cbn [mbind option_bind].
  rewrite (drop_S data d k Hd'). f_equal. f_equal.
  rewrite insert_app_r_alt, Hl, Nat.sub_diag, (drop_S mixed x k Hx) by lia.
  rewrite (take_S_r mixed k x Hx), (take_S_r data k d Hd'). unfold xor_bytes.
  rewrite zip_with_app by (rewrite !length_take; lia). by rewrite <- app_assoc.
Qed.

Lemma mix_padding_spec A B :
  (length A + length B = 16)%nat -> Forall byte B ->
  mix_padding (A ++ B) (length A) =
  Some (A ++ xor_bytes B (replicate (length B) (16 - Z.of_nat (length A)))).
Proof.
  intros Hl HB. unfold mix_padding. replace (16 - length A)%nat with (length B) by lia.
  set (p := 16 - Z.of_nat (length A)). change (AES_BLOCKSIZE - Z.of_nat (length A)) with p.
  assert (byte p) as Hp by (unfold p, word; lia). clearbody p. clear Hl.
  revert A. induction HB as [|x B Hx HB IH]; intros A; [done|].
  cbn [length seq foldl mbind option_bind replicate]. rewrite list_lookup_middle by done.
  cbn [mbind option_bind]. rewrite insert_app_r_alt, Nat.sub_diag by lia. cbn [insert list_insert].
  rewrite uchar_id by (by apply word_lxor).
  replace (A ++ (x ⊕ p) :: B) with ((A ++ [x ⊕ p]) ++ B) by (by rewrite <- app_assoc).
  replace (S (length A)) with (length (A ++ [x ⊕ p])) by (rewrite length_app; simpl; lia).
  rewrite IH. by rewrite <- app_assoc.
Qed.

Lemma xor_bytes_app A B C D :
  length A = length C -> xor_bytes (A ++ B) (C ++ D) = xor_bytes A C ++ xor_bytes B D.
Proof. intros. by apply zip_with_app. Qed.

Section cbc.
Context {Encrypt Decrypt : list Z -> option (list Z)} `{!BlockCipher Encrypt Decrypt}.

Lemma cbc_enc_length n iv data :
  block iv -> length data = (16 * n)%nat -> Forall byte data ->
  length (cbc_enc bc_E n iv data) = (16 * n)%nat /\ Forall byte (cbc_enc bc_E n iv data).
Proof.
  revert iv data. induction n as [|n IH]; intros iv data Hiv Hl Hb; [done|]. cbn [cbc_enc].
  assert (block (bc_E (xor_bytes iv (take 16 data)))) as [Hc1 Hc2].
  { apply bc_E_block, xor_bytes_block; [done|]. split; [rewrite length_take; lia|by apply Forall_take]. }
  destruct (IH (bc_E (xor_bytes iv (take 16 data))) (drop 16 data)) as [H1 H2];
    [done|rewrite length_drop; lia|by apply Forall_drop|].
  split; [rewrite length_app; lia|by apply Forall_app_2].
Qed.

Lemma cbc_dec_enc n iv data :
  block iv -> length data = (16 * n)%nat -> Forall byte data ->
  cbc_dec bc_D n iv (cbc_enc bc_E n iv data) = data.
Proof.
  revert iv data. induction n as [|n IH]; intros iv data Hiv Hl Hb; [by destruct data|].
  cbn [cbc_enc cbc_dec].
  assert (block (take 16 data)) as Ht by (split; [rewrite length_take; lia|by apply Forall_take]).
  assert (block (xor_bytes iv (take 16 data))) as Hx by (by apply xor_bytes_block).
  pose proof (bc_E_block _ Hx) as Hc.
  rewrite take_app_length', drop_app_length' by (symmetry; apply Hc).
  rewrite bc_D_E, IH by (done || (rewrite length_drop; lia) || by apply Forall_drop).
  rewrite (xor_bytes_comm iv), xor_bytes_cancel by (destruct Ht as [-> _], Hiv as [-> _]; done).
  apply take_drop.
Qed.

(** The last chaining value. *)
Fixpoint cbc_last (n : nat) (iv data : list Z) : list Z :=
  match n with
  | O => iv
  | S n => cbc_last n (bc_E (xor_bytes iv (take 16 data))) (drop 16 data)
  end.

Lemma cbc_last_block n iv data :
  block iv -> (16 * n <= length data)%nat -> Forall byte data -> block (cbc_last n iv data).
Proof.
  revert iv data. induction n as [|n IH]; intros iv data Hiv Hl Hb; [done|]. cbn [cbc_last].
  apply IH; [|rewrite length_drop; lia|by apply Forall_drop].
  apply bc_E_block, xor_bytes_block; [done|]. split; [rewrite length_take; lia|by apply Forall_take].
Qed.

Lemma cbc_last_take n iv data : cbc_last n iv (take (16 * n) data) = cbc_last n iv data.
Proof.
  revert iv data. induction n as [|n IH]; intros iv data; [done|]. cbn [cbc_last].
  rewrite take_take, Nat.min_l, skipn_firstn_comm by lia.
  replace (16 * S n - 16)%nat with (16 * n)%nat by lia. apply IH.
Qed.

Lemma cbc_enc_app n iv data rest :
  length data = (16 * n)%nat -> length rest = 16%nat ->
  cbc_enc bc_E (S n) iv (data ++ rest) =
  cbc_enc bc_E n iv data ++ bc_E (xor_bytes (cbc_last n iv data) rest).
Proof.
  revert iv data. induction n as [|n IH]; intros iv data Hl Hr.
  - destruct data; [|done]. cbn [cbc_enc app cbc_last]. rewrite app_nil_r, take_ge by lia. done.
  - remember (S n) as m eqn:Em. cbn [cbc_enc]. rewrite Em at 2 3. cbn [cbc_enc cbc_last].
    rewrite take_app_le, drop_app_le by lia. subst m. rewrite IH by (rewrite ?length_drop; lia).
    apply app_assoc.
Qed.

Lemma cbc_encrypt_loop_spec n fuel size written mixed data A B C :
  block mixed -> Forall byte data -> (16 * n <= length data)%nat -> (n <= fuel)%nat ->
  written = Z.of_nat (length A) -> length B = (16 * n)%nat ->
  written + 16 * Z.of_nat n <= size < written + 16 * Z.of_nat n + 16 -> size + 16 < 2 ^ 31 ->
  cbc_encrypt_loop Encrypt fuel size written mixed data (A ++ B ++ C) =
  Some (written + 16 * Z.of_nat n, cbc_last n mixed data, drop (16 * n) data,
        A ++ cbc_enc bc_E n mixed (take (16 * n) data) ++ C).
Proof.
  revert fuel written mixed data A B. induction n as [|n IH];
    intros fuel written mixed data A B Hm Hd Hl Hf Hw HB Hs Hmax.
  - destruct B; [|done]. destruct fuel; cbn [cbc_encrypt_loop];
      (rewrite int_add_Some by (unfold AES_BLOCKSIZE; lia)); cbn [mbind option_bind];
      (rewrite (proj2 (Z.leb_gt _ _)) by (unfold AES_BLOCKSIZE; lia));
      by rewrite Z.add_0_r.
  - destruct fuel as [|fuel]; [lia|]. cbn [cbc_encrypt_loop].
    rewrite int_add_Some by (unfold AES_BLOCKSIZE; lia). cbn [mbind option_bind].
    rewrite (proj2 (Z.leb_le _ _)) by (unfold AES_BLOCKSIZE; lia).
    pose proof Hm as [Hm16 _]. rewrite mix_data_spec by lia. cbn [mbind option_bind].
    rewrite (take_ge mixed), (drop_ge mixed), app_nil_r by lia.
    assert (block (take 16 data)) as Ht by (split; [rewrite length_take; lia|by apply Forall_take]).
    pose proof (xor_bytes_block _ _ Hm Ht) as Hx. pose proof (bc_E_block _ Hx) as Hc.
    rewrite bc_encrypt by (destruct Hx; (done || lia)). cbn [mbind option_bind].
    rewrite (take_ge (xor_bytes _ _)) by (destruct Hx; lia).
    set (c := bc_E (xor_bytes mixed (take 16 data))) in *. pose proof Hc as [Hc16 _].
    rewrite <- (take_drop 16 B), <- app_assoc.
    rewrite memcpy_app by (rewrite ?length_take; lia). cbn [mbind option_bind].
    rewrite app_assoc, (IH fuel _ c (drop 16 data) (A ++ c) (drop 16 B));
      [|done|by apply Forall_drop|rewrite length_drop; lia|lia
       |rewrite length_app, Hc16; unfold AES_BLOCKSIZE; lia|rewrite length_drop; lia
       |unfold AES_BLOCKSIZE; lia|done].
    rewrite drop_drop. cbn [cbc_last cbc_enc]. rewrite take_take, Nat.min_l by lia.
    fold c. rewrite skipn_firstn_comm. unfold AES_BLOCKSIZE.
    replace (16 * S n - 16)%nat with (16 * n)%nat by lia.
    replace (16 + 16 * n)%nat with (16 * S n)%nat by lia.
    replace (written + 16 + 16 * Z.of_nat n) with (written + 16 * Z.of_nat (S n)) by lia.
    by rewrite <- !app_assoc.
Qed.


(** [CBCEncrypt] on valid arguments: the message is padded when [pad] is set. *)
Definition cbc_message (pad : bool) (data : list Z) : list Z := if pad then pkcs7_pad data else data.

Lemma cbc_message_length (pad : bool) data :
  (pad = true \/ (length data mod 16 = 0)%nat) ->
  length (cbc_message pad data) = (16 * (length data / 16 + (if pad then 1 else 0)))%nat.
Proof.
  intros Hp. pose proof (Nat.div_mod (length data) 16 ltac:(lia)).
  pose proof (Nat.mod_upper_bound (length data) 16 ltac:(lia)).
  destruct pad; cbn [cbc_message]; [|destruct Hp; [done|lia]].
  unfold pkcs7_pad. cbv zeta. rewrite length_app, length_replicate. lia.
Qed.

Lemma cbc_message_bytes (pad : bool) data : Forall byte data -> Forall byte (cbc_message pad data).
Proof.
  intros. destruct pad; [|done]. apply Forall_app_2; [done|]. apply Forall_replicate. unfold word. lia.
Qed.

Lemma rem_mod n : Z.rem (Z.of_nat n) AES_BLOCKSIZE = Z.of_nat (n mod 16).
Proof. unfold AES_BLOCKSIZE. rewrite Nat2Z.inj_mod. apply Z.rem_mod_nonneg; lia. Qed.

Lemma CBCEncrypt_spec iv data (pad : bool) out :
  block iv -> Forall byte data -> (0 < length data)%nat -> Z.of_nat (length data) + 16 < 2 ^ 31 ->
  (pad = true \/ (length data mod 16 = 0)%nat) ->
  (length (cbc_message pad data) <= length out)%nat ->
  CBCEncrypt Encrypt iv (Some data) (Z.of_nat (length data)) pad (Some out) =
  let m := cbc_message pad data in
  Some (Z.of_nat (length m), Some (cbc_enc bc_E (length m / 16) iv m ++ drop (length m) out)).
Proof.
  intros Hiv Hd Hl Hmax Hpad Hout. cbv zeta.
  pose proof (cbc_message_length pad data Hpad) as Hm.
  set (n := (length data / 16)%nat) in *. set (r := (length data mod 16)%nat) in *.
  pose proof (Nat.div_mod (length data) 16 ltac:(lia)) as Hnr. fold n r in Hnr.
  assert (r < 16)%nat as Hr by (by apply Nat.mod_upper_bound).
  unfold CBCEncrypt. rewrite rem_mod. fold r.
  rewrite (proj2 (Z.eqb_neq _ 0)) by lia.
  assert (negb pad && negb (Z.of_nat r =? 0) = false) as ->.
  { destruct pad; [done|]. destruct Hpad; [done|]. by rewrite (proj2 (Z.eqb_eq _ 0)) by lia. }
  rewrite (take_ge iv) by (destruct Hiv; lia).
  set (k := if pad then 1%nat else 0%nat) in *.
  rewrite <- (take_drop (16 * n) out) at 1.
  rewrite (cbc_encrypt_loop_spec n (Z.to_nat (Z.of_nat (length data))) _ 0 iv data []
    (take (16 * n) out) (drop (16 * n) out));
    [|done|done|lia|lia|done|rewrite length_take; lia|lia|done].
  cbn [mbind option_bind app]. rewrite Z.add_0_l.
  pose proof (cbc_last_block n iv data Hiv ltac:(lia) Hd) as [Hlast Hlastb].
  assert (length (take (16 * n) data) = (16 * n)%nat) as Htk by (rewrite length_take; lia).
  destruct (cbc_enc_length n iv (take (16 * n) data) Hiv Htk) as [Hcl _]; [by apply Forall_take|].
  destruct pad; cbn [k] in *.
  - rewrite Nat2Z.id.
    assert (length (drop (16 * n) data) = r) as Hrest by (rewrite length_drop; lia).
    rewrite mix_data_spec by lia. cbn [mbind option_bind].
    rewrite (take_ge (drop (16 * n) data)) by lia.
    set (last := cbc_last n iv data) in *.
    assert (length (xor_bytes (take r last) (drop (16 * n) data)) = r) as Hxr
      by (unfold xor_bytes; rewrite length_zip_with, length_take; lia).
    pose proof (mix_padding_spec (xor_bytes (take r last) (drop (16 * n) data)) (drop r last)) as Hmp.
    rewrite Hxr, length_drop in Hmp. rewrite Hmp; [|lia|by apply Forall_drop].
    cbn [mbind option_bind].
    rewrite <- xor_bytes_app by (rewrite length_take; lia). rewrite take_drop.
    set (tail := drop (16 * n) data ++ replicate (length last - r) (16 - Z.of_nat r)).
    assert (length tail = 16%nat) as Htail by (unfold tail; rewrite length_app, length_replicate; lia).
    assert (block (xor_bytes last tail)) as Hx.
    { apply xor_bytes_block; [done|]. split; [done|]. apply Forall_app_2; [by apply Forall_drop|].
      apply Forall_replicate. unfold word. lia. }
    pose proof (bc_E_block _ Hx) as [Hc _]. destruct Hx as [Hx16 Hxb].
    rewrite bc_encrypt by (done || lia). cbn [mbind option_bind]. rewrite (take_ge (xor_bytes _ _)) by lia.
    rewrite <- (take_drop 16 (drop (16 * n) out)).
    rewrite memcpy_app by (rewrite ?length_take, ?length_drop, ?Hcl; lia). cbn [mbind option_bind].
    rewrite int_add_Some by (unfold AES_BLOCKSIZE; lia). cbn [mbind option_bind].
    assert (cbc_message true data = take (16 * n) data ++ tail) as ->.
    { unfold tail. rewrite Hlast, app_assoc, take_drop. cbn [cbc_message]. unfold pkcs7_pad. cbv zeta. fold r.
      do 2 f_equal. lia. }
    rewrite length_app, Htk, Htail.
    replace ((16 * n + 16) / 16)%nat with (S n) by (apply Nat.div_unique with 0%nat; lia).
    rewrite cbc_enc_app by done. rewrite drop_drop, <- app_assoc. unfold AES_BLOCKSIZE.
    replace (16 * Z.of_nat n + 16) with (Z.of_nat (16 * n + 16)) by lia.
    unfold last. by rewrite cbc_last_take.
  - destruct Hpad as [?|Hr0]; [done|]. cbn [cbc_message] in *.
    assert (16 * n = length data)%nat as Hfull by lia. rewrite Hfull, take_ge by lia.
    fold n. f_equal. f_equal. lia.
Qed.

(** ** Decryption *)

Lemma cbc_decrypt_loop_spec n fuel size written prev data A B C :
  Forall byte data -> block (take 16 prev) -> (n <= fuel)%nat -> written = Z.of_nat (length A) ->
  length B = (16 * n)%nat -> size = written + 16 * Z.of_nat n -> size < 2 ^ 31 ->
  (length A + 16 * n <= length data)%nat ->
  cbc_decrypt_loop Decrypt fuel size written prev data (A ++ B ++ C) =
  Some (size, A ++ cbc_dec bc_D n (take 16 prev) (drop (length A) data) ++ C).
Proof.
  intros Hd. revert fuel written prev A B. induction n as [|n IH];
    intros fuel written prev A B Hp Hf Hw HB Hs Hmax Hl.
  - destruct B; [|done]. destruct fuel; cbn [cbc_decrypt_loop];
      rewrite (proj2 (Z.eqb_eq _ _)) by lia; cbn [cbc_dec app]; do 2 f_equal; lia.
  - destruct fuel as [|fuel]; [lia|]. cbn [cbc_decrypt_loop].
    rewrite (proj2 (Z.eqb_neq _ _)) by lia. rewrite Hw, Nat2Z.id.
    set (D := drop (length A) data) in *.
    assert (length D = length data - length A)%nat as HD by (unfold D; by rewrite length_drop).
    assert (Forall byte D) as HDb by (by apply Forall_drop).
    rewrite bc_decrypt by (done || lia). cbn [mbind option_bind].
    assert (block (take 16 D)) as Ht by (split; [rewrite length_take; lia|by apply Forall_take]).
    pose proof (xor_bytes_block _ _ (bc_D_block _ Ht) Hp) as [Hx _].
    rewrite <- (take_drop 16 B), <- app_assoc.
    fold (xor_bytes (bc_D (take 16 D)) (take 16 prev)).
    rewrite memcpy_app by (rewrite ?length_take; lia). cbn [mbind option_bind].
    rewrite int_add_Some by (unfold AES_BLOCKSIZE; lia). cbn [mbind option_bind].
    set (x := xor_bytes _ _) in *.
    rewrite app_assoc, (IH fuel _ D (A ++ x) (drop 16 B));
      [|done|lia|rewrite length_app, Hx; unfold AES_BLOCKSIZE; lia|rewrite length_drop; lia
       |unfold AES_BLOCKSIZE; lia|done|rewrite length_app; lia].
    cbn [cbc_dec]. rewrite length_app, Hx, <- drop_drop. fold D x. by rewrite <- !app_assoc.
Qed.

Lemma cbc_dec_block n iv data :
  block iv -> length data = (16 * n)%nat -> Forall byte data ->
  length (cbc_dec bc_D n iv data) = (16 * n)%nat /\ Forall byte (cbc_dec bc_D n iv data).
Proof.
  revert iv data. induction n as [|n IH]; intros iv data Hiv Hl Hb; [done|]. cbn [cbc_dec].
  assert (block (take 16 data)) as Ht by (split; [rewrite length_take; lia|by apply Forall_take]).
  pose proof (xor_bytes_block _ _ (bc_D_block _ Ht) Hiv) as [H1 H2].
  destruct (IH (take 16 data) (drop 16 data)) as [H3 H4];
    [done|rewrite length_drop; lia|by apply Forall_drop|].
  split; [rewrite length_app; lia|by apply Forall_app_2].
Qed.
End cbc.

(** ** Padding *)

Lemma check_padding_fold (out : list Z) last p fail l :
  (forall k, k ∈ l -> (last - k < length out)%nat) ->
  foldl (fun o k =>
      fail ← o;
      x ← out !! (last - k)%nat;
      Some (fail || ((AES_BLOCKSIZE - Z.of_nat k >? AES_BLOCKSIZE - p) && negb (x =? p))))
    (Some fail) l =
  Some (fail || existsb (fun k => (Z.of_nat k <? p) && negb (out !!! (last - k)%nat =? p)) l).
Proof.
  revert fail. induction l as [|k l IH]; intros fail Hl; [by rewrite orb_false_r|].
  cbn [foldl mbind option_bind existsb].
  rewrite list_lookup_lookup_total_lt by (apply Hl; apply list_elem_of_here). cbn [mbind option_bind].
  rewrite IH by (intros; apply Hl; by apply list_elem_of_further). f_equal. rewrite <- orb_assoc. f_equal. f_equal. f_equal.
  rewrite Z.gtb_ltb. unfold AES_BLOCKSIZE. destruct (Z.ltb_spec (Z.of_nat k) p), (Z.ltb_spec (16 - p) (16 - Z.of_nat k));
    (done || lia).
Qed.

(** The last [p] bytes are all [p]. *)
Lemma padding_bytes (m rest : list Z) p :
  0 <= p <= 16 -> (16 <= length m)%nat ->
  existsb (fun k => (Z.of_nat k <? p) && negb ((m ++ rest) !!! (length m - 1 - k)%nat =? p)) (seq 0 16) = false <->
  drop (length m - Z.to_nat p) m = replicate (Z.to_nat p) p.
Proof.
  intros Hp Hm. split.
  - intros He. apply list_eq. intros i. destruct (decide (i < Z.to_nat p)%nat) as [Hi|Hi].
    + rewrite lookup_drop, lookup_replicate_2 by done.
      rewrite list_lookup_lookup_total_lt by lia. f_equal.
      set (k := (Z.to_nat p - 1 - i)%nat).
      destruct (((m ++ rest) !!! (length m - 1 - k)%nat) =? p) eqn:Ek.
      * apply Z.eqb_eq in Ek. rewrite lookup_total_app_l in Ek by (unfold k; lia).
        etrans; [|exact Ek]. f_equal. unfold k. lia.
      * exfalso. rewrite <- not_true_iff_false, existsb_exists in He. apply He. exists k.
        rewrite in_seq, Ek. split; [unfold k; lia|]. rewrite andb_true_r. apply Z.ltb_lt. unfold k. lia.
    + rewrite !lookup_ge_None_2; [done|rewrite length_replicate; lia|rewrite length_drop; lia].
  - intros He. apply not_true_iff_false. rewrite existsb_exists. intros (k&Hk&Hb).
    apply in_seq in Hk. apply andb_true_iff in Hb as [Hkp Hne]. apply Z.ltb_lt in Hkp.
    apply negb_true_iff, Z.eqb_neq in Hne. apply Hne. rewrite lookup_total_app_l by lia.
    apply (f_equal (fun l => l !!! (Z.to_nat p - 1 - k)%nat)) in He.
    rewrite lookup_total_replicate_2 in He by lia. etrans; [|exact He].
    rewrite !list_lookup_total_alt, lookup_drop. do 2 f_equal. lia.
Qed.

Lemma pkcs7_unpad_pad data : Forall byte data -> pkcs7_unpad (pkcs7_pad data) = Some data.
Proof.
  intros Hd. unfold pkcs7_unpad, pkcs7_pad. cbv zeta.
  pose proof (Nat.mod_upper_bound (length data) 16 ltac:(lia)).
  set (p := (16 - length data mod 16)%nat). assert (1 <= p <= 16)%nat as Hp by (unfold p; lia).
  clearbody p. assert (list.last (data ++ replicate p (Z.of_nat p)) = Some (Z.of_nat p)) as ->.
  { destruct p as [|p]; [lia|]. rewrite replicate_S_end, app_assoc. apply last_snoc. }
  cbn [mbind option_bind]. rewrite Nat2Z.id, length_app, length_replicate.
  replace (length data + p - p)%nat with (length data) by lia.
  rewrite drop_app_length, take_app_length. rewrite bool_decide_true; [done|]. split_and!; (done || lia).
Qed.

Section decrypt.
Context {Encrypt Decrypt : list Z -> option (list Z)} `{!BlockCipher Encrypt Decrypt}.

Lemma CBCDecrypt_spec iv data (pad : bool) out :
  block iv -> Forall byte data -> (0 < length data)%nat -> (length data mod 16 = 0)%nat ->
  Z.of_nat (length data) < 2 ^ 31 -> (length data <= length out)%nat ->
  let m := cbc_dec bc_D (length data / 16) iv data in
  CBCDecrypt Decrypt iv (Some data) (Z.of_nat (length data)) pad (Some out) =
  Some (if pad then match pkcs7_unpad m with Some d => Z.of_nat (length d) | None => 0 end
        else Z.of_nat (length data), Some (m ++ drop (length data) out)) /\
  length m = length data.
Proof.
  intros Hiv Hd Hl Hr Hmax Hout. cbv zeta.
  set (n := (length data / 16)%nat) in *.
  assert (length data = 16 * n)%nat as Hn by (pose proof (Nat.div_mod (length data) 16); lia).
  destruct (cbc_dec_block n iv data Hiv Hn Hd) as [Hml Hmb].
  set (m := cbc_dec bc_D n iv data) in *. split; [|lia].
  unfold CBCDecrypt. rewrite rem_mod, Hr. rewrite (proj2 (Z.eqb_neq _ 0)) by lia. change (negb (Z.of_nat 0 =? 0)) with false. cbv iota.
  rewrite <- (take_drop (length data) out) at 1.
  rewrite (cbc_decrypt_loop_spec n _ _ 0 iv data [] (take (length data) out) (drop (length data) out));
    [|done|rewrite take_ge by (destruct Hiv; lia); done|lia|done|rewrite length_take; lia|lia|done|simpl; lia].
  rewrite take_ge by (destruct Hiv; lia). cbn [length mbind option_bind app]. rewrite drop_0. fold m.
  destruct pad; [|done].
  assert (Z.to_nat (Z.of_nat (length data) - 1) = length m - 1)%nat as -> by lia.
  assert (exists p, m !! (length m - 1)%nat = Some p) as [p Hp] by (apply lookup_lt_is_Some_2; lia).
  rewrite (lookup_app_l m), Hp by lia. cbn [mbind option_bind].
  assert (byte p) as Hpb by (by eapply Forall_lookup_1).
  unfold check_padding. rewrite check_padding_fold by (intros; rewrite length_app; lia).
  cbn [mbind option_bind]. unfold pkcs7_unpad. rewrite last_lookup.
  replace (pred (length m)) with (length m - 1)%nat by lia. rewrite Hp. cbn [mbind option_bind].
  destruct ((p =? 0) || (p >? AES_BLOCKSIZE)) eqn:Ef; cbn [orb negb Z.b2z].
  - rewrite Z.mul_0_r. rewrite bool_decide_false; [done|]. intros [Hr1 _].
    apply orb_true_iff in Ef as [->%Z.eqb_eq|Hgt]; [lia|]. rewrite Z.gtb_ltb in Hgt.
    apply Z.ltb_lt in Hgt. unfold AES_BLOCKSIZE in Hgt. lia.
  - apply orb_false_iff in Ef as [Hne%Z.eqb_neq Hgt]. rewrite Z.gtb_ltb in Hgt. apply Z.ltb_ge in Hgt.
    unfold AES_BLOCKSIZE in Hgt. destruct Hpb as [Hp0 _]. rewrite Z.mul_1_r.
    pose proof (padding_bytes m (drop (length data) out) p ltac:(lia) ltac:(lia)) as Hpad.
    destruct (existsb _ _) eqn:Ex; cbn [negb Z.b2z].
    + rewrite Z.mul_0_r, bool_decide_false; [done|]. intros (_&_&H). by apply Hpad in H.
    + rewrite Z.mul_1_r, bool_decide_true by (split_and!; [lia..|by apply Hpad]).
      do 2 f_equal. rewrite length_take. lia.
Qed.
End decrypt.

(** ** The AES objects are block ciphers *)

Lemma inv_cipher_block nr w A : keys_block nr w -> block A -> (1 <= nr)%nat -> block (inv_cipher nr w A).
Proof.
  intros Hw HA Hnr. unfold inv_cipher.
  assert (forall B, block B -> block (inv_sub_bytes (inv_shift_rows B))) as Hhalf.
  { intros B [_ HB]. split; [done|]. apply Forall_map. eapply Forall_impl.
    - intros x. apply (sbox_byte true).
    - apply of_cells_block. intros. by apply at_cell_byte. }
  assert (forall B, block B -> block (inv_mix_columns B)) as Hmix.
  { intros B [_ HB]. apply of_cells_block. intros. rewrite gmul_e, gmul_b, gmul_d, gmul_9.
    repeat first [by apply at_cell_byte | apply xtime_byte | apply word_lxor; [done|..]]. }
  apply xor_bytes_block; [|apply Hw; lia]. apply Hhalf.
  assert (Forall (fun i => (i <= nr)%nat) (rev (seq 1 (nr - 1)))) as Hl.
  { apply list.Forall_forall. intros i Hi. apply list_elem_of_In, in_rev, in_seq in Hi. lia. }
  assert (block (xor_bytes A (round_key w nr))) as H0 by (apply xor_bytes_block; [done|apply Hw; lia]).
  revert H0. generalize (xor_bytes A (round_key w nr)). induction Hl as [|i l Hi Hl IH]; intros B HB; [done|].
  cbn [foldl]. apply IH, Hmix, xor_bytes_block; [by apply Hhalf|by apply Hw].
Qed.

Lemma each_block_one f data : each_block f 1 data = f data.
Proof. cbn [each_block]. destruct (f data); [|done]. cbn. by rewrite app_nil_r. Qed.

(** Keys expanded by the constructors give a cipher that keeps the promises. *)
Definition aes_block_cipher (z : aes_size) (rk : list AES_state) (w : list (list Z))
    (Hk : keys_rel rk (num_rounds z) w) :
  BlockCipher (aes_encrypt z rk 1) (aes_decrypt z rk 1).
Proof.
  assert (1 <= num_rounds z)%nat as Hnr by (destruct z; simpl; lia).
  pose proof (keys_rel_block _ _ _ Hk) as Hw.
  refine {| bc_E := cipher (num_rounds z) w; bc_D := inv_cipher (num_rounds z) w |}.
  - intros. transitivity (AES_encrypt rk (num_rounds z) data); [by destruct z; apply each_block_one|].
    by apply AES_encrypt_cipher.
  - intros. transitivity (AES_decrypt rk (num_rounds z) data); [by destruct z; apply each_block_one|].
    by apply AES_decrypt_cipher.
  - intros. by apply cipher_block.
  - intros. by apply inv_cipher_block.
  - intros. by apply inv_cipher_id.
Defined.

(** The mode classes, by key size. *)
Inductive cbc_size := CBC128 | CBC256.
Definition cbc_aes (z : cbc_size) : aes_size := match z with CBC128 => AES128 | CBC256 => AES256 end.
Definition cbc_encryptor (z : cbc_size) : list AES_state -> list Z -> list Z -> bool -> option cbc_object :=
  match z with CBC128 => AES128CBCEncrypt | CBC256 => AES256CBCEncrypt end.
Definition cbc_decryptor (z : cbc_size) : list AES_state -> list Z -> list Z -> bool -> option cbc_object :=
  match z with CBC128 => AES128CBCDecrypt | CBC256 => AES256CBCDecrypt end.
Definition cbc_encrypt (z : cbc_size) : cbc_object -> option (list Z) -> Z -> option (list Z) ->
    option (Z * option (list Z)) :=
  match z with CBC128 => AES128CBCEncrypt_Encrypt | CBC256 => AES256CBCEncrypt_Encrypt end.
Definition cbc_decrypt (z : cbc_size) : cbc_object -> option (list Z) -> Z -> option (list Z) ->
    option (Z * option (list Z)) :=
  match z with CBC128 => AES128CBCDecrypt_Decrypt | CBC256 => AES256CBCDecrypt_Decrypt end.

Lemma cbc_objects z ctx ctx' key iv pad :
  length ctx = (num_rounds (cbc_aes z) + 1)%nat -> length ctx' = (num_rounds (cbc_aes z) + 1)%nat ->
  length key = (4 * key_words (cbc_aes z))%nat -> Forall byte key -> block iv ->
  exists rk rk' w, keys_rel rk (num_rounds (cbc_aes z)) w /\ keys_rel rk' (num_rounds (cbc_aes z)) w /\
    cbc_encryptor z ctx key iv pad = Some (CbcObject rk iv pad) /\
    cbc_decryptor z ctx' key iv pad = Some (CbcObject rk' iv pad).
Proof.
  intros Hc Hc' Hk Hkb [Hiv _].
  destruct (aes_keys (cbc_aes z) ctx key Hc Hk Hkb) as (rk&E&Hrk).
  destruct (aes_keys (cbc_aes z) ctx' key Hc' Hk Hkb) as (rk'&E'&Hrk').
  exists rk, rk', (key_expansion (key_words (cbc_aes z)) (num_rounds (cbc_aes z)) key).
  assert (memcpy (replicate 16 0) 0 (take 16 iv) = Some iv) as Hm.
  { rewrite take_ge by lia. rewrite memcpy_in_bounds by (rewrite length_replicate; lia).
    cbn [take app Nat.add]. rewrite drop_ge by (rewrite length_replicate; lia). by rewrite app_nil_r. }
  split_and!; [done|done|..]; destruct z; cbn [cbc_aes aes_init] in E, E';
    [unfold cbc_encryptor, AES128CBCEncrypt, AES128Encrypt; by rewrite E; cbn [mbind option_bind]; rewrite Hm
    |unfold cbc_encryptor, AES256CBCEncrypt, AES256Encrypt; by rewrite E; cbn [mbind option_bind]; rewrite Hm
    |unfold cbc_decryptor, AES128CBCDecrypt, AES128Decrypt; by rewrite E'; cbn [mbind option_bind]; rewrite Hm
    |unfold cbc_decryptor, AES256CBCDecrypt, AES256Decrypt; by rewrite E'; cbn [mbind option_bind]; rewrite Hm].
Qed.

(** ** Theorems *)

(** C39: for both key sizes, with padding or with whole blocks, encrypting a
    message and decrypting the result with the same key and initialisation vector
    succeed inside their arrays, return the length of the padded message and of
    the message, and give the message back. *)
Theorem aes_cbc_roundtrip z ctx ctx' key iv (pad : bool) data out out' :
  length ctx = (num_rounds (cbc_aes z) + 1)%nat -> length ctx' = (num_rounds (cbc_aes z) + 1)%nat ->
  length key = (4 * key_words (cbc_aes z))%nat -> Forall byte key -> block iv ->
  Forall byte data -> (0 < length data)%nat -> Z.of_nat (length data) + 16 < 2 ^ 31 ->
  pad = true \/ (length data mod 16 = 0)%nat ->
  (length (cbc_message pad data) <= length out)%nat -> (length (cbc_message pad data) <= length out')%nat ->
  exists enc dec n c plain,
    cbc_encryptor z ctx key iv pad = Some enc /\ cbc_decryptor z ctx' key iv pad = Some dec /\
    cbc_encrypt z enc (Some data) (Z.of_nat (length data)) (Some out) = Some (n, Some c) /\
    n = Z.of_nat (length (cbc_message pad data)) /\
    cbc_decrypt z dec (Some (take (Z.to_nat n) c)) n (Some out') = Some (Z.of_nat (length data), Some plain) /\
    take (length data) plain = data.
Proof.
  intros Hc Hc' Hk Hkb Hiv Hd Hl Hmax Hpad Hout Hout'.
  destruct (cbc_objects z ctx ctx' key iv pad Hc Hc' Hk Hkb Hiv) as (rk&rk'&w&Hrk&Hrk'&Henc&Hdec).
  set (m := cbc_message pad data) in *.
  pose proof (cbc_message_length pad data Hpad) as Hm. fold m in Hm.
  pose proof (cbc_message_bytes pad data Hd) as Hmb. fold m in Hmb.
  set (blocks := (length data / 16 + (if pad then 1 else 0))%nat) in Hm.
  assert (length m / 16 = blocks)%nat as Hdiv by (rewrite Hm, Nat.mul_comm; by apply Nat.div_mul).
  assert (length data <= length m)%nat as Hle.
  { unfold m, cbc_message, pkcs7_pad. destruct pad; [rewrite length_app; lia|lia]. }
  assert (length m <= length data + 16)%nat as Hle'.
  { unfold m, cbc_message, pkcs7_pad. destruct pad; [rewrite length_app, length_replicate; lia|lia]. }
  pose proof (CBCEncrypt_spec (BlockCipher0 := aes_block_cipher (cbc_aes z) rk w Hrk)
    iv data pad out Hiv Hd Hl Hmax Hpad Hout) as HE. fold m in HE. cbv zeta in HE. rewrite Hdiv in HE.
  set (E := @bc_E _ _ (aes_block_cipher (cbc_aes z) rk w Hrk)) in HE.
  destruct (cbc_enc_length (BlockCipher0 := aes_block_cipher (cbc_aes z) rk w Hrk) blocks iv m Hiv Hm Hmb)
    as [Hcl Hcb]. fold E in Hcl, Hcb.
  set (ct := cbc_enc E blocks iv m) in *.
  pose proof (CBCDecrypt_spec (BlockCipher0 := aes_block_cipher (cbc_aes z) rk' w Hrk')
    iv ct pad out' Hiv Hcb ltac:(lia) ltac:(rewrite Hcl, Nat.mul_comm; apply Nat.Div0.mod_mul) ltac:(lia) ltac:(lia))
    as [HD _].
  assert (cbc_dec (@bc_D _ _ (aes_block_cipher (cbc_aes z) rk' w Hrk')) (length ct / 16) iv ct = m) as Hid.
  { replace (length ct / 16)%nat with blocks by (rewrite Hcl, Nat.mul_comm; symmetry; by apply Nat.div_mul).
    exact (cbc_dec_enc (BlockCipher0 := aes_block_cipher (cbc_aes z) rk w Hrk) blocks iv m Hiv Hm Hmb). }
  rewrite Hid in HD.
  exists (CbcObject rk iv pad), (CbcObject rk' iv pad), (Z.of_nat (length m)),
    (ct ++ drop (length m) out), (m ++ drop (length ct) out').
  split_and!; [done|done|destruct z; exact HE|done| |].
  - rewrite Nat2Z.id, take_app_length' by lia.
    replace (length m) with (length ct) by lia.
    transitivity (Some (Z.of_nat (length data), Some (m ++ drop (length ct) out'))); [|done].
    assert ((if pad then match pkcs7_unpad m with Some d => Z.of_nat (length d) | None => 0 end
             else Z.of_nat (length ct)) = Z.of_nat (length data)) as Hret.
    { destruct pad; [unfold m; cbn [cbc_message]; by rewrite pkcs7_unpad_pad|]. rewrite Hcl, <- Hm. done. }
    rewrite Hret in HD. destruct z; exact HD.
  - rewrite take_app_le by lia. unfold m. destruct pad; cbn [cbc_message]; [|by rewrite take_ge].
    unfold pkcs7_pad. cbv zeta. by rewrite take_app_length.
Qed.

Lemma aes_cbc_roundtrip_witness :
  exists enc dec n c plain,
    cbc_encryptor CBC128 (replicate 11 []) (seqZ 0 16) (seqZ 20 16) true = Some enc /\
    cbc_decryptor CBC128 (replicate 11 [1]) (seqZ 0 16) (seqZ 20 16) true = Some dec /\
    cbc_encrypt CBC128 enc (Some (seqZ 0 21)) 21 (Some (replicate 32 9)) = Some (n, Some c) /\
    n = 32 /\
    cbc_decrypt CBC128 dec (Some (take (Z.to_nat n) c)) n (Some (replicate 32 9)) = Some (21, Some plain) /\
    take 21 plain = seqZ 0 21.
Proof.
  apply (aes_cbc_roundtrip CBC128 (replicate 11 []) (replicate 11 [1]) (seqZ 0 16) (seqZ 20 16) true
    (seqZ 0 21) (replicate 32 9) (replicate 32 9));
    [reflexivity|reflexivity|reflexivity| |split; [reflexivity|]| | | |by left| | ];
    apply (bool_decide_unpack _); vm_compute; exact I.
Defined.

(** for any block cipher that keeps its promises, [CBCEncrypt] and
    [CBCDecrypt] return 0 and leave the output alone for a null pointer, for no
    data, and for a length that is not a whole number of blocks where it has to
    be; and decryption with padding returns, for any ciphertext of whole blocks,
    the length of the message when the plaintext ends in a valid padding and 0
    otherwise. *)
Theorem cbc_checks Encrypt Decrypt (BC : BlockCipher Encrypt Decrypt) iv data size pad out c o :
  block iv -> Forall byte c -> (0 < length c)%nat -> (length c mod 16 = 0)%nat ->
  Z.of_nat (length c) < 2 ^ 31 -> (length c <= length o)%nat ->
  CBCEncrypt Encrypt iv None size pad out = Some (0, out) /\
  CBCDecrypt Decrypt iv None size pad out = Some (0, out) /\
  CBCEncrypt Encrypt iv data size pad None = Some (0, None) /\
  CBCDecrypt Decrypt iv data size pad None = Some (0, None) /\
  CBCEncrypt Encrypt iv data 0 pad out = Some (0, out) /\
  CBCDecrypt Decrypt iv data 0 pad out = Some (0, out) /\
  (Z.rem size 16 <> 0 -> CBCEncrypt Encrypt iv data size false out = Some (0, out)) /\
  (Z.rem size 16 <> 0 -> CBCDecrypt Decrypt iv data size pad out = Some (0, out)) /\
  let m := cbc_dec bc_D (length c / 16) iv c in
  CBCDecrypt Decrypt iv (Some c) (Z.of_nat (length c)) true (Some o) =
    Some (match pkcs7_unpad m with Some d => Z.of_nat (length d) | None => 0 end,
          Some (m ++ drop (length c) o)).
Proof.
  intros Hiv Hc Hl Hr Hmax Ho. split_and!; try (by destruct data, out; done).
  - intros Hrem. destruct data, out; try done. unfold CBCEncrypt. case_match; [done|].
    by rewrite (proj2 (Z.eqb_neq (Z.rem size AES_BLOCKSIZE) 0)).
  - intros Hrem. destruct data, out; try done. unfold CBCDecrypt. case_match; [done|].
    by rewrite (proj2 (Z.eqb_neq (Z.rem size AES_BLOCKSIZE) 0)).
  - exact (proj1 (CBCDecrypt_spec iv c true o Hiv Hc Hl Hr Hmax Ho)).
Qed.

(** The identity is a block cipher in this sense. *)
Definition copy_block (data : list Z) : option (list Z) :=
  if (16 <=? length data)%nat then Some (take 16 data) else None.
Definition copy_cipher : BlockCipher copy_block copy_block.
Proof.
  refine {| bc_E := id; bc_D := id |}; try done;
    intros data Hl _; unfold copy_block; by rewrite (proj2 (Nat.leb_le _ _)).
Defined.

Lemma cbc_checks_witness :
  CBCEncrypt copy_block (replicate 16 0) (Some [1]) 1 false (Some [7]) = Some (0, Some [7]) /\
  CBCDecrypt copy_block (replicate 16 0) (Some (replicate 14 7 ++ [2; 2])) 16 true (Some (replicate 16 9))
    = Some (14, Some (replicate 14 7 ++ [2; 2])).
Proof.
  destruct (cbc_checks copy_block copy_block copy_cipher (replicate 16 0) (Some [1]) 1 false (Some [7])
    (replicate 14 7 ++ [2; 2]) (replicate 16 9)) as (_&_&_&_&_&_&H1&_&H2);
    [split; [reflexivity|apply (bool_decide_unpack _); vm_compute; exact I]
    |apply (bool_decide_unpack _); vm_compute; exact I|cbn; lia|reflexivity|reflexivity|cbn; lia|].
  split; [apply H1; discriminate|exact H2].
Defined.
