(* ===== verification/ArithUint256.v ===== *)
(** * 256-bit unsigned integers: [src/src/arith_uint256.h], [src/src/arith_uint256.cpp]

    The integers of the difficulty and chain-work computations, as arrays of 32-bit
    limbs with the carries, shifts and the long division of the source.  The
    theorems state what each operator does to the value of the array. *)

From S2P Require Import Prelude SphTypes.

#[local] Open Scope c_scope.

(** [uint32_t pn[WIDTH]], least significant limb first. *)
Abbreviation base_uint := (list Z).
Definition WIDTH : nat := 8.

Definition zero_uint : base_uint := replicate WIDTH 0.

(** [base_uint(uint64_t)] and [operator=(uint64_t)] *)
Definition of_uint64 (b : Z) : base_uint := u32 b :: u32 (b >> 32) :: replicate (WIDTH - 2) 0.

(** [operator!] *)
Definition op_not (a : base_uint) : bool := forallb (fun x => x =? 0) a.
(** [operator~] *)
Definition op_compl (a : base_uint) : base_uint := map (fun x => u32 (Z.lnot x)) a.

(** [operator++]: [while (++pn[i] == 0 && i < WIDTH-1) i++] *)
Fixpoint op_incr (a : base_uint) : base_uint :=
  match a with
  | [] => []
  | x :: a => let x := u32 (x + 1) in if x =? 0 then x :: op_incr a else x :: a
  end.
(** [operator--] *)
Fixpoint op_decr (a : base_uint) : base_uint :=
  match a with
  | [] => []
  | x :: a => let x := u32 (x - 1) in if x =? 0xFFFFFFFF then x :: op_decr a else x :: a
  end.
(** [operator-()] *)
Definition op_opp (a : base_uint) : base_uint := op_incr (op_compl a).

(** [operator^=], [operator&=], [operator|=] *)
Definition op_xor (a b : base_uint) : base_uint := zip_with Z.lxor a b.
Definition op_and (a b : base_uint) : base_uint := zip_with Z.land a b.
Definition op_or (a b : base_uint) : base_uint := zip_with Z.lor a b.
(** [operator^=(uint64_t)], [operator|=(uint64_t)] *)
Definition op_xor64 (a : base_uint) (b : Z) : base_uint :=
  let a := <[0%nat := Z.lxor (a !!! 0%nat) (u32 b)]> a in
  <[1%nat := Z.lxor (a !!! 1%nat) (u32 (b >> 32))]> a.
Definition op_or64 (a : base_uint) (b : Z) : base_uint :=
  let a := <[0%nat := (a !!! 0%nat) .| u32 b]> a in
  <[1%nat := (a !!! 1%nat) .| u32 (b >> 32)]> a.

(** [operator+=] *)
Fixpoint add_carry (carry : Z) (a b : base_uint) : base_uint :=
  match a, b with
  | x :: a, y :: b =>
    let n := u64 (carry + x + y) in
    (n .& 0xFFFFFFFF) :: add_carry (n >> 32) a b
  | _, _ => []
  end.
Definition op_add (a b : base_uint) : base_uint := add_carry 0 a b.
Definition op_sub (a b : base_uint) : base_uint := op_add a (op_opp b).
Definition op_add64 (a : base_uint) (b64 : Z) : base_uint := op_add a (of_uint64 b64).
Definition op_sub64 (a : base_uint) (b64 : Z) : base_uint := op_add a (op_opp (of_uint64 b64)).

(** [pn[i] |= x] *)
Definition or_limb (pn : base_uint) (i : nat) (x : Z) : base_uint := <[i := (pn !!! i) .| x]> pn.

(** [operator<<=] *)
Definition op_shl (a : base_uint) (shift : Z) : base_uint :=
  let k := Z.to_nat (shift / 32) in
  let shift := shift mod 32 in
  foldl (fun pn i =>
      let pn := if (i + k + 1 <? WIDTH)%nat && negb (shift =? 0)
                then or_limb pn (i + k + 1) ((a !!! i) >> (32 - shift)) else pn in
      if (i + k <? WIDTH)%nat then or_limb pn (i + k) (u32 ((a !!! i) << shift)) else pn)
    zero_uint (seq 0 WIDTH).

(** [operator>>=]; [i - k - 1 >= 0] is [k + 1 <= i]. *)
Definition op_shr (a : base_uint) (shift : Z) : base_uint :=
  let k := Z.to_nat (shift / 32) in
  let shift := shift mod 32 in
  foldl (fun pn i =>
      let pn := if (k + 1 <=? i)%nat && negb (shift =? 0)
                then or_limb pn (i - k - 1) (u32 ((a !!! i) << (32 - shift))) else pn in
      if (k <=? i)%nat then or_limb pn (i - k) ((a !!! i) >> shift) else pn)
    zero_uint (seq 0 WIDTH).

(** [operator*=(uint32_t)] *)
Fixpoint mul_carry (carry : Z) (a : base_uint) (b32 : Z) : base_uint :=
  match a with
  | x :: a =>
    let n := u64 (carry + b32 * x) in
    (n .& 0xFFFFFFFF) :: mul_carry (n >> 32) a b32
  | [] => []
  end.
Definition op_mul32 (a : base_uint) (b32 : Z) : base_uint := mul_carry 0 a b32.

(** [operator*=(const base_uint&)]: the inner loop, on [pn + j], and the outer one. *)
Fixpoint mul_row (carry : Z) (pn : base_uint) (aj : Z) (b : base_uint) : base_uint :=
  match pn, b with
  | p :: pn, y :: b =>
    let n := u64 (carry + p + aj * y) in
    (n .& 0xFFFFFFFF) :: mul_row (n >> 32) pn aj b
  | _, _ => pn
  end.
Definition op_mul (a b : base_uint) : base_uint :=
  foldl (fun pn j => take j pn ++ mul_row 0 (drop j pn) (a !!! j) b) zero_uint (seq 0 WIDTH).

(** [a *= a]: [b] is the object itself, so the loop reads the limbs it writes, after
    [*this = 0]. *)
Definition op_mul_self (a : base_uint) : base_uint :=
  foldl (fun pn j =>
      snd (foldl (fun '(carry, pn) i =>
          let n := u64 (carry + (pn !!! (i + j)%nat) + (a !!! j) * (pn !!! i)) in
          (n >> 32, <[(i + j)%nat := n .& 0xFFFFFFFF]> pn))
        (0, pn) (seq 0 (WIDTH - j))))
    zero_uint (seq 0 WIDTH).

(** [bits]: the highest limb that is not zero, then its highest bit. *)
Fixpoint top_bit (x : Z) (bits : nat) : Z :=
  match bits with
  | O => 1
  | S b => if negb ((x .& (1 << Z.of_nat bits)) =? 0) then Z.of_nat bits + 1 else top_bit x b
  end.
Fixpoint bits_from (a : base_uint) (pos : nat) : Z :=
  match pos with
  | O => 0
  | S p => if negb (a !!! p =? 0) then 32 * Z.of_nat p + top_bit (a !!! p) 31 else bits_from a p
  end.
Definition bits (a : base_uint) : Z := bits_from a WIDTH.

(** [CompareTo] *)
Fixpoint compare_from (a b : base_uint) (i : nat) : Z :=
  match i with
  | O => 0
  | S j => if a !!! j <? b !!! j then -1
           else if a !!! j >? b !!! j then 1
           else compare_from a b j
  end.
Definition CompareTo (a b : base_uint) : Z := compare_from a b WIDTH.
Definition op_gt (a b : base_uint) : bool := CompareTo a b >? 0.
Definition op_lt (a b : base_uint) : bool := CompareTo a b <? 0.
Definition op_ge (a b : base_uint) : bool := CompareTo a b >=? 0.
Definition op_le (a b : base_uint) : bool := CompareTo a b <=? 0.

(** [operator==]: [memcmp] of the arrays. *)
Definition op_eq (a b : base_uint) : bool := bool_decide (a = b).

(** [EqualTo(uint64_t)] *)
Definition EqualTo (a : base_uint) (b : Z) : bool :=
  forallb (fun x => x =? 0) (drop 2 a) && (a !!! 1%nat =? b >> 32) && (a !!! 0%nat =? b .& 0xFFFFFFFF).

Definition GetLow64 (a : base_uint) : Z := (a !!! 0%nat) .| ((a !!! 1%nat) << 32).

(** [operator/=]; [None] is the exception [uint_error]. *)
Fixpoint div_loop (fuel : nat) (shift : Z) (num div pn : base_uint) : base_uint :=
  match fuel with
  | O => pn
  | S fuel =>
    let '(num, pn) :=
      if op_ge num div
      then (op_sub num div, or_limb pn (Z.to_nat (shift / 32)) (1 << (shift .& 31)))
      else (num, pn) in
    div_loop fuel (shift - 1) num (op_shr div 1) pn
  end.

(** The loop runs [shift + 1] times. *)
Definition op_div (a b : base_uint) : option base_uint :=
  let num_bits := bits a in
  let div_bits := bits b in
  if div_bits =? 0 then None
  else if num_bits <? div_bits then Some zero_uint
  else
    let shift := num_bits - div_bits in
    Some (div_loop (Z.to_nat (shift + 1)) shift a (op_shl b shift) zero_uint).

(** The bytes of [uint256], least significant first. *)
Definition ArithToUint256 (a : base_uint) : list Z := concat (map (store_le 4) a).
Definition UintToArith256 (b : list Z) : base_uint := map (fun x => load_le 4 (drop (x * 4) b)) (seq 0 WIDTH).

(** ** The compact format *)

(** The value, [*pfNegative] and [*pfOverflow]. *)
Definition SetCompact (nCompact : Z) : base_uint * bool * bool :=
  let nSize := nCompact >> 24 in
  let nWord := nCompact .& 0x007FFFFF in
  let '(nWord, a) :=
    if nSize <=? 3 then
      let nWord := nWord >> (8 * (3 - nSize)) in (nWord, of_uint64 nWord)
    else (nWord, op_shl (of_uint64 nWord) (8 * (nSize - 3))) in
  (a,
   negb (nWord =? 0) && negb ((nCompact .& 0x00800000) =? 0),
   negb (nWord =? 0) && ((nSize >? 34) || ((nWord >? 0xFF) && (nSize >? 33)) ||
                         ((nWord >? 0xFFFF) && (nSize >? 32)))).

Definition GetCompact (a : base_uint) (fNegative : bool) : option Z :=
  let nSize := (bits a + 7) / 8 in
  let nCompact :=
    if nSize <=? 3 then u32 (u64 (GetLow64 a << (8 * (3 - nSize))))
    else u32 (GetLow64 (op_shr a (8 * (nSize - 3)))) in
  let '(nCompact, nSize) :=
    if negb ((nCompact .& 0x00800000) =? 0) then (nCompact >> 8, nSize + 1) else (nCompact, nSize) in
  if negb ((nCompact .& u32 (Z.lnot 0x007FFFFF)) =? 0) then None
  else if negb (nSize <? 256) then None
  else
    let nCompact := nCompact .| (nSize << 24) in
    Some (nCompact .| (if fNegative && negb ((nCompact .& 0x007FFFFF) =? 0) then 0x00800000 else 0)).

(** [SetUnsignedCompact] writes the size and the bytes to limbs 3 to 6. *)
Definition SetUnsignedCompact (a : base_uint) (nCompact : Z) : base_uint :=
  let nSize := nCompact >> 24 in
  let a := <[3%nat := nSize]> a in
  let a := if nSize >=? 1 then <[4%nat := (nCompact >> 16) .& 0xFF]> a else a in
  let a := if nSize >=? 2 then <[5%nat := (nCompact >> 8) .& 0xFF]> a else a in
  if nSize >=? 3 then <[6%nat := (nCompact >> 0) .& 0xFF]> a else a.

(** ** Values *)

Fixpoint val (l : list Z) : Z := match l with [] => 0 | x :: l => x + 2 ^ 32 * val l end.

Abbreviation limbs := (Forall (word 32)).

(** The invariant of the class: [WIDTH] limbs of 32 bits. *)
Definition uint_ok (a : base_uint) : Prop := length a = WIDTH /\ limbs a.

Definition modulus (l : base_uint) : Z := 2 ^ (32 * Z.of_nat (length l)).

Lemma modulus_cons x l : modulus (x :: l) = 2 ^ 32 * modulus l.
Proof. unfold modulus. cbn [length]. rewrite <- Z.pow_add_r by lia. f_equal. lia. Qed.

Lemma modulus_pos l : 0 < modulus l.
Proof. unfold modulus. lia. Qed.

Lemma val_bound l : limbs l -> 0 <= val l < modulus l.
Proof.
  induction 1 as [|x l [Hx1 Hx2] _ IH]; [done|]. cbn [val]. rewrite modulus_cons.
  pose proof (modulus_pos l). nia.
Qed.

Lemma modulus_ok a : uint_ok a -> modulus a = 2 ^ 256.
Proof. intros [H _]. unfold modulus. by rewrite H. Qed.

Lemma val_ok a : uint_ok a -> 0 <= val a < 2 ^ 256.
Proof. intros H. rewrite <- (modulus_ok a H). apply val_bound, H. Qed.

(** The value determines the limbs. *)
Lemma val_inj a b : limbs a -> limbs b -> length a = length b -> val a = val b -> a = b.
Proof.
  intros Ha. revert b. induction Ha as [|x a Hx Ha IH]; intros [|y b] Hb Hl Hv; try done.
  apply list.Forall_cons in Hb as [Hy Hb]. cbn [val] in Hv.
  assert (val a = val b /\ x = y) as [Hv' ->] by (unfold word in *; lia).
  f_equal. apply IH; [done|by injection Hl|done].
Qed.

Lemma uint_ext a b : uint_ok a -> uint_ok b -> val a = val b -> a = b.
Proof. intros [Ha1 Ha2] [Hb1 Hb2]. apply val_inj; [done..|congruence]. Qed.

Lemma low32 n : n .& 0xFFFFFFFF = n mod 2 ^ 32.
Proof. change 0xFFFFFFFF with (Z.ones 32). by rewrite Z.land_ones. Qed.

Lemma high32 n : n >> 32 = n / 2 ^ 32.
Proof. by rewrite Z.shiftr_div_pow2. Qed.

(** One step of a carry chain: the limb and the carry that leaves it. *)
Lemma carry_step n v m : 0 < m ->
  (n mod 2 ^ 32) + 2 ^ 32 * ((n / 2 ^ 32 + v) mod m) = (n + 2 ^ 32 * v) mod (2 ^ 32 * m).
Proof.
  intros Hm. pose proof (Z.mod_pos_bound (n / 2 ^ 32 + v) m Hm).
  pose proof (Z.mod_pos_bound n (2 ^ 32)). pose proof (Z.div_mod n (2 ^ 32)).
  pose proof (Z.div_mod (n / 2 ^ 32 + v) m).
  apply Z.mod_unique with ((n / 2 ^ 32 + v) / m); [left|]; nia.
Qed.

Lemma u64_small n : 0 <= n < 2 ^ 64 -> u64 n = n.
Proof. apply Z.mod_small. Qed.

Lemma carry_bound n k : 0 <= n < 2 ^ (32 + k) -> 0 <= k -> 0 <= n / 2 ^ 32 < 2 ^ k.
Proof.
  intros Hn Hk. rewrite Z.pow_add_r in Hn by lia. split; [apply Z.div_pos; lia|].
  apply Z.div_lt_upper_bound; lia.
Qed.

Lemma add_carry_spec c a b :
  0 <= c <= 1 -> limbs a -> limbs b -> length a = length b ->
  length (add_carry c a b) = length a /\ limbs (add_carry c a b) /\
  val (add_carry c a b) = (val a + val b + c) mod modulus a.
Proof.
  intros Hc Ha. revert c b Hc. induction Ha as [|x a Hx Ha IH]; intros c [|y b] Hc Hb Hl; try done.
  { cbn [add_carry val]. unfold modulus. cbn. rewrite Z.mod_1_r. done. }
  apply list.Forall_cons in Hb as [Hy Hb]. cbn [add_carry]. unfold word in Hx, Hy.
  rewrite (u64_small (c + x + y)), low32, high32 by lia. set (n := c + x + y).
  assert (0 <= n / 2 ^ 32 <= 1) as Hn.
  { split; [apply Z.div_pos; lia|]. apply Z.lt_succ_r, Z.div_lt_upper_bound; lia. }
  destruct (IH (n / 2 ^ 32) b) as (IH1&IH2&IH3); [done..|by injection Hl|].
  split_and!; [cbn [length]; by rewrite IH1|by apply Forall_cons_2; [apply word_mod|]|].
  cbn [val]. rewrite IH3, modulus_cons.
  replace (val a + val b + n / 2 ^ 32) with (n / 2 ^ 32 + (val a + val b)) by lia.
  rewrite carry_step by apply modulus_pos. f_equal. unfold n. lia.
Qed.

Lemma op_add_spec a b :
  uint_ok a -> uint_ok b -> uint_ok (op_add a b) /\ val (op_add a b) = (val a + val b) mod 2 ^ 256.
Proof.
  intros Ha Hb. rewrite <- (modulus_ok a Ha). destruct Ha as [Hl Ha], Hb as [Hl' Hb].
  destruct (add_carry_spec 0 a b) as (H1&H2&H3); [lia|done..|congruence|].
  unfold op_add. split; [split; [by rewrite H1|done]|]. by rewrite H3, Z.add_0_r.
Qed.

Lemma op_incr_spec a :
  limbs a -> length (op_incr a) = length a /\ limbs (op_incr a) /\ val (op_incr a) = (val a + 1) mod modulus a.
Proof.
  induction 1 as [|x a Hx Ha (IH1&IH2&IH3)]; [done|]. cbn [op_incr]. unfold u32.
  pose proof (modulus_pos a) as Hm. pose proof (val_bound a Ha) as Hv. unfold word in Hx.
  destruct (decide (x + 1 = 2 ^ 32)) as [E|Hne].
  - rewrite E, Z.mod_same by lia. cbn [Z.eqb length val]. split_and!; [lia| |].
    + by apply Forall_cons_2.
    + rewrite IH3, modulus_cons. replace (x + 2 ^ 32 * val a + 1) with (2 ^ 32 * (val a + 1)) by lia.
      rewrite Zmult_mod_distr_l. lia.
  - rewrite (Z.mod_small (x + 1)) by lia. rewrite (proj2 (Z.eqb_neq _ 0)) by lia. cbn [length val].
    split_and!; [done|apply Forall_cons_2; [unfold word; lia|done]|].
    rewrite modulus_cons, Z.mod_small by nia. lia.
Qed.

Lemma op_decr_spec a :
  limbs a -> length (op_decr a) = length a /\ limbs (op_decr a) /\ val (op_decr a) = (val a - 1) mod modulus a.
Proof.
  induction 1 as [|x a Hx Ha (IH1&IH2&IH3)]; [done|]. cbn [op_decr]. unfold u32.
  pose proof (modulus_pos a) as Hm. pose proof (val_bound a Ha) as Hv. unfold word in Hx.
  destruct (decide (x = 0)) as [->|Hne].
  - replace ((0 - 1) mod 2 ^ 32) with 0xFFFFFFFF by reflexivity. cbn [Z.eqb Pos.eqb length val].
    split_and!; [lia|by apply Forall_cons_2|].
    rewrite IH3, modulus_cons. pose proof (Z.mod_pos_bound (val a - 1) (modulus a) Hm).
    pose proof (Z.div_mod (val a - 1) (modulus a)).
    apply Z.mod_unique with ((val a - 1) / modulus a); [left|]; nia.
  - rewrite (Z.mod_small (x - 1)) by lia. rewrite (proj2 (Z.eqb_neq _ 0xFFFFFFFF)) by lia. cbn [length val].
    split_and!; [done|apply Forall_cons_2; [unfold word; lia|done]|].
    rewrite modulus_cons, Z.mod_small by nia. lia.
Qed.

Lemma op_compl_spec a :
  limbs a -> length (op_compl a) = length a /\ limbs (op_compl a) /\ val (op_compl a) = modulus a - 1 - val a.
Proof.
  induction 1 as [|x a Hx Ha (IH1&IH2&IH3)]; [done|]. cbn [op_compl map].
  change (map (fun x => u32 (Z.lnot x)) a) with (op_compl a).
  assert (u32 (Z.lnot x) = 2 ^ 32 - 1 - x) as ->.
  { unfold u32, Z.lnot. unfold word in Hx. symmetry. apply Z.mod_unique with (-1); [left|]; lia. }
  unfold word in Hx. cbn [length val]. split_and!; [by rewrite IH1|apply Forall_cons_2; [unfold word; lia|done]|].
  rewrite IH3, modulus_cons. lia.
Qed.

Lemma op_compl_ok a : uint_ok a -> uint_ok (op_compl a) /\ val (op_compl a) = 2 ^ 256 - 1 - val a.
Proof.
  intros H. rewrite <- (modulus_ok a H). destruct H as [Hl Ha].
  destruct (op_compl_spec a Ha) as (H1&H2&H3). split; [split; congruence || done|done].
Qed.

Lemma op_opp_spec a : uint_ok a -> uint_ok (op_opp a) /\ val (op_opp a) = (- val a) mod 2 ^ 256.
Proof.
  intros H. destruct (op_compl_ok a H) as [Hc Hv]. rewrite <- (modulus_ok _ Hc).
  destruct (op_incr_spec (op_compl a) (proj2 Hc)) as (H1&H2&H3).
  split; [split; [unfold op_opp; rewrite H1; apply Hc|done]|]. unfold op_opp. rewrite H3.
  rewrite (modulus_ok _ Hc), Hv. replace (2 ^ 256 - 1 - val a + 1) with (- val a + 1 * 2 ^ 256) by lia.
  by rewrite Z.mod_add.
Qed.

Lemma op_sub_spec a b :
  uint_ok a -> uint_ok b -> uint_ok (op_sub a b) /\ val (op_sub a b) = (val a - val b) mod 2 ^ 256.
Proof.
  intros Ha Hb. destruct (op_opp_spec b Hb) as [Ho Hv]. destruct (op_add_spec a (op_opp b) Ha Ho) as [H1 H2].
  split; [done|]. unfold op_sub. rewrite H2, Hv, Zplus_mod_idemp_r. done.
Qed.

Lemma of_uint64_spec b : word 64 b -> uint_ok (of_uint64 b) /\ val (of_uint64 b) = b.
Proof.
  intros [H1 H2]. unfold of_uint64, u32. rewrite high32.
  rewrite (Z.mod_small (b / 2 ^ 32)) by (apply (carry_bound b 32); lia). split.
  - split; [done|]. apply Forall_cons_2; [by apply word_mod|].
    apply Forall_cons_2; [apply (carry_bound b 32); lia|]. by apply Forall_replicate.
  - cbn [replicate WIDTH Nat.sub val]. pose proof (Z.div_mod b (2 ^ 32)). lia.
Qed.

(** ** Multiplication *)

Lemma mul_carry_spec c a b :
  0 <= c < 2 ^ 32 -> word 32 b -> limbs a ->
  length (mul_carry c a b) = length a /\ limbs (mul_carry c a b) /\
  val (mul_carry c a b) = (val a * b + c) mod modulus a.
Proof.
  intros Hc Hb Ha. revert c Hc. induction Ha as [|x a Hx Ha IH]; intros c Hc.
  { cbn [mul_carry val]. unfold modulus. cbn. by rewrite Z.mod_1_r. }
  cbn [mul_carry]. unfold word in Hx, Hb. rewrite (u64_small (c + b * x)), low32, high32 by nia.
  set (n := c + b * x). assert (0 <= n / 2 ^ 32 < 2 ^ 32) as Hn by (apply (carry_bound n 32); unfold n; nia).
  destruct (IH (n / 2 ^ 32) Hn) as (IH1&IH2&IH3).
  split_and!; [cbn [length]; by rewrite IH1|by apply Forall_cons_2; [apply word_mod|]|].
  cbn [val]. rewrite IH3, modulus_cons, (Z.add_comm (val a * b)), carry_step by apply modulus_pos.
  f_equal. unfold n. lia.
Qed.

Lemma op_mul32_spec a b :
  uint_ok a -> word 32 b -> uint_ok (op_mul32 a b) /\ val (op_mul32 a b) = (val a * b) mod 2 ^ 256.
Proof.
  intros Ha Hb. rewrite <- (modulus_ok a Ha). destruct Ha as [Hl Ha].
  destruct (mul_carry_spec 0 a b) as (H1&H2&H3); [lia|done..|].
  split; [split; [unfold op_mul32; congruence|done]|]. unfold op_mul32. by rewrite H3, Z.add_0_r.
Qed.

Lemma mul_row_spec c pn x b :
  0 <= c < 2 ^ 32 -> word 32 x -> limbs pn -> limbs b -> (length pn <= length b)%nat ->
  length (mul_row c pn x b) = length pn /\ limbs (mul_row c pn x b) /\
  val (mul_row c pn x b) = (val pn + x * val b + c) mod modulus pn.
Proof.
  intros Hc Hx Hp. revert c b Hc. induction Hp as [|p pn Hp0 Hp IH]; intros c b Hc Hb Hl.
  { unfold modulus. cbn. by rewrite Z.mod_1_r. }
  destruct b as [|y b]; [simpl in Hl; lia|]. apply list.Forall_cons in Hb as [Hy Hb].
  cbn [mul_row]. unfold word in Hx, Hp0, Hy. rewrite (u64_small (c + p + x * y)), low32, high32 by nia.
  set (n := c + p + x * y).
  assert (0 <= n / 2 ^ 32 < 2 ^ 32) as Hn by (apply (carry_bound n 32); unfold n; nia).
  destruct (IH (n / 2 ^ 32) b Hn Hb) as (IH1&IH2&IH3); [simpl in Hl; lia|].
  split_and!; [cbn [length]; by rewrite IH1|by apply Forall_cons_2; [apply word_mod|]|].
  cbn [val]. rewrite IH3, modulus_cons.
  replace (val pn + x * val b + n / 2 ^ 32) with (n / 2 ^ 32 + (val pn + x * val b)) by lia.
  rewrite carry_step by apply modulus_pos. f_equal. unfold n. lia.
Qed.

Lemma val_app a b : val (a ++ b) = val a + modulus a * val b.
Proof.
  induction a as [|x a IH]; [unfold modulus; simpl; lia|]. cbn [app val]. rewrite IH, modulus_cons. lia.
Qed.

Lemma val_zeros n : val (replicate n 0) = 0.
Proof. induction n as [|n IH]; [done|]. cbn [replicate val]. lia. Qed.

Lemma take_S_val (l : list Z) j : (j < length l)%nat -> val (take (S j) l) = val (take j l) + modulus (take j l) * (l !!! j).
Proof.
  intros Hj. destruct (lookup_lt_is_Some_2 l j Hj) as [x Hx].
  rewrite (take_S_r l j x Hx), val_app, (list_lookup_total_correct _ _ _ Hx). cbn [val]. lia.
Qed.

Lemma low_mod t M v m : 0 <= t < M -> 0 < m -> t + M * (v mod m) = (t + M * v) mod (M * m).
Proof.
  intros Ht Hm. pose proof (Z.mod_pos_bound v m Hm). pose proof (Z.div_mod v m).
  apply Z.mod_unique with (v / m); [left|]; nia.
Qed.

Lemma op_mul_spec a b :
  uint_ok a -> uint_ok b -> uint_ok (op_mul a b) /\ val (op_mul a b) = (val a * val b) mod 2 ^ 256.
Proof.
  intros Ha Hb. unfold op_mul.
  assert (forall k, (k <= WIDTH)%nat ->
    let pn := foldl (fun pn j => take j pn ++ mul_row 0 (drop j pn) (a !!! j) b) zero_uint (seq 0 k) in
    uint_ok pn /\ val pn = (val (take k a) * val b) mod 2 ^ 256) as H.
  2: { destruct (H WIDTH ltac:(lia)) as [H1 H2]. rewrite take_ge in H2 by (destruct Ha; lia). done. }
  induction k as [|k IH]; intros Hk; cbv zeta.
  { split; [split; [done|by apply Forall_replicate]|reflexivity]. }
  rewrite seq_S, foldl_app. cbn [foldl Nat.add]. destruct (IH ltac:(lia)) as [[Hl Hp] Hv]. clear IH.
  set (pn := foldl _ _ (seq 0 k)) in *. destruct Ha as [Hla Ha], Hb as [Hlb Hb].
  assert (length (drop k pn) = 8 - k)%nat as Hdl by (rewrite length_drop, Hl; done).
  assert (length (take k pn) = k) as Htl by (rewrite length_take, Hl; unfold WIDTH in *; lia).
  assert (length (take k a) = k) as Hta by (rewrite length_take, Hla; unfold WIDTH in *; lia).
  destruct (mul_row_spec 0 (drop k pn) (a !!! k) b) as (H1&H2&H3);
    [lia|by apply (lookup_total_Forall (word 32))|by apply Forall_drop|done|rewrite Hdl, Hlb; unfold WIDTH; lia|].
  split.
  - split; [rewrite length_app, H1, Htl, Hdl; unfold WIDTH in *; lia|].
    apply Forall_app_2; [by apply Forall_take|done].
  - rewrite val_app, H3, Z.add_0_r, take_S_val by (rewrite Hla; done).
    assert (modulus (take k pn) * modulus (drop k pn) = 2 ^ 256) as HM.
    { unfold modulus. rewrite Htl, Hdl, <- Z.pow_add_r by lia. f_equal. unfold WIDTH in Hk. lia. }
    assert (modulus (take k a) = modulus (take k pn)) as -> by (unfold modulus; by rewrite Hta, Htl).
    pose proof (val_bound (take k pn) ltac:(by apply Forall_take)) as Hb0.
    set (M := modulus (take k pn)) in *. set (y := drop k pn) in *.
    assert (val pn = val (take k pn) + M * val y) as Hpn by (rewrite <- val_app; unfold y; by rewrite take_drop).
    transitivity ((val (take k pn) + M * (val y + (a !!! k) * val b)) mod 2 ^ 256).
    + rewrite <- HM. apply low_mod; [done|apply modulus_pos].
    + replace (val (take k pn) + M * (val y + (a !!! k) * val b))
        with (val pn + M * (a !!! k) * val b) by lia.
      rewrite Hv, Zplus_mod_idemp_l. f_equal. lia.
Qed.

(** ** Bits of the value *)

Lemma val_testbit l n :
  limbs l -> 0 <= n -> Z.testbit (val l) n = Z.testbit (l !!! Z.to_nat (n / 32)) (n mod 32).
Proof.
  intros Hl. revert n. induction Hl as [|x l Hx Hl IH]; intros n Hn.
  { cbn [val]. rewrite list_lookup_total_alt. cbn. by rewrite !Z.testbit_0_l. }
  cbn [val]. destruct (decide (n < 32)) as [Hs|Hs].
  - rewrite (Z.div_small n 32), (Z.mod_small n 32) by lia. cbn [Z.to_nat lookup_total list_lookup_total].
    rewrite <- (Z.mod_pow2_bits_low (x + _) 32) by lia.
    rewrite (Z.mul_comm (2 ^ 32)), Z.mod_add, Z.mod_small by (unfold word in Hx; lia). done.
  - replace n with (n - 32 + 32) at 1 by lia. rewrite <- Z.div_pow2_bits by lia.
    rewrite (Z.mul_comm (2 ^ 32)), Z.div_add, Z.div_small by (unfold word in Hx; lia).
    rewrite Z.add_0_l, IH by lia.
    replace (n / 32) with ((n - 32) / 32 + 1) by (rewrite <- Z.div_add by lia; f_equal; lia).
    replace (n mod 32) with ((n - 32) mod 32) by (rewrite <- (Z.mod_add (n - 32) 1 32) by lia; f_equal; lia).
    rewrite Z2Nat.inj_add by (try apply Z.div_pos; lia). rewrite Nat.add_1_r. done.
Qed.

Lemma limb_word l i : limbs l -> word 32 (l !!! i).
Proof. intros H. by apply (lookup_total_Forall (word 32)). Qed.

(** The limbs [operator<<=] and [operator>>=] compute. *)
Definition shl_limb (a : base_uint) (k : nat) (t : Z) (j : nat) : Z :=
  (if (k + 1 <=? j)%nat && negb (t =? 0) then (a !!! (j - k - 1)%nat) >> (32 - t) else 0) .|
  (if (k <=? j)%nat then u32 ((a !!! (j - k)%nat) << t) else 0).

Definition shr_limb (a : base_uint) (k : nat) (t : Z) (j : nat) : Z :=
  (if (j + k + 1 <? WIDTH)%nat && negb (t =? 0) then u32 ((a !!! (j + k + 1)%nat) << (32 - t)) else 0) .|
  (if (j + k <? WIDTH)%nat then (a !!! (j + k)%nat) >> t else 0).

Lemma eight (a : base_uint) : length a = WIDTH -> exists a0 a1 a2 a3 a4 a5 a6 a7, a = [a0; a1; a2; a3; a4; a5; a6; a7].
Proof.
  intros H. do 8 (destruct a as [|? a]; [done|]). destruct a; [|done]. by eauto 10.
Qed.

Ltac limb_cases :=
  cbv -[Z.lor Z.shiftl Z.shiftr u32 Z.sub];
  rewrite ?Z.lor_0_r, ?Z.lor_0_l;
  repeat (apply (f_equal2 cons); [first [reflexivity|apply Z.lor_comm]|]); reflexivity.

Lemma op_shl_limbs a s :
  length a = WIDTH -> op_shl a s = map (shl_limb a (Z.to_nat (s / 32)) (s mod 32)) (seq 0 WIDTH).
Proof.
  intros (a0&a1&a2&a3&a4&a5&a6&a7&->)%eight. unfold op_shl, shl_limb.
  generalize (Z.to_nat (s / 32)) as k. generalize (s mod 32) as t. intros t k. cbv zeta.
  generalize (negb (t =? 0)) as z. intros z.
  do 8 (destruct k as [|k]; [destruct z; limb_cases|]).
  destruct z; limb_cases.
Qed.

Lemma op_shr_limbs a s :
  length a = WIDTH -> op_shr a s = map (shr_limb a (Z.to_nat (s / 32)) (s mod 32)) (seq 0 WIDTH).
Proof.
  intros (a0&a1&a2&a3&a4&a5&a6&a7&->)%eight. unfold op_shr, shr_limb.
  generalize (Z.to_nat (s / 32)) as k. generalize (s mod 32) as t. intros t k. cbv zeta.
  generalize (negb (t =? 0)) as z. intros z.
  do 8 (destruct k as [|k]; [destruct z; limb_cases|]).
  destruct z; limb_cases.
Qed.

Lemma uint_of_map f : (forall j, word 32 (f j)) -> uint_ok (map f (seq 0 WIDTH)).
Proof.
  intros H. split; [done|]. apply list.Forall_forall. intros x (j&->&_)%list_elem_of_fmap. apply H.
Qed.

Lemma lookup_map_seq (f : nat -> Z) n j : (j < n)%nat -> map f (seq 0 n) !!! j = f j.
Proof.
  intros Hj. apply list_lookup_total_correct. change (map f) with (fmap (M := list) f).
  by rewrite list_lookup_fmap, lookup_seq_lt.
Qed.

Lemma lookup_map_seq_out (f : nat -> Z) n j : (n <= j)%nat -> map f (seq 0 n) !!! j = 0.
Proof.
  intros Hj. rewrite list_lookup_total_alt. change (map f) with (fmap (M := list) f).
  by rewrite list_lookup_fmap, lookup_seq_ge.
Qed.

Lemma lookup_out (a : base_uint) j : length a = WIDTH -> (WIDTH <= j)%nat -> a !!! j = 0.
Proof. intros H1 H2. rewrite list_lookup_total_alt, lookup_ge_None_2 by lia. done. Qed.

Lemma shl_limb_bit a k t j r :
  limbs a -> 0 <= t < 32 -> 0 <= r < 32 ->
  Z.testbit (shl_limb a k t j) r =
  if t <=? r then (k <=? j)%nat && Z.testbit (a !!! (j - k)%nat) (r - t)
  else (k + 1 <=? j)%nat && Z.testbit (a !!! (j - k - 1)%nat) (32 + r - t).
Proof.
  intros Ha Ht Hr. unfold shl_limb, u32. rewrite Z.lor_spec. destruct (Z.leb_spec t r).
  - transitivity (false || (k <=? j)%nat && Z.testbit (a !!! (j - k)%nat) (r - t)); [f_equal|done].
    + case_match; [|apply Z.testbit_0_l]. rewrite Z.shiftr_spec by lia.
      apply (word_testbit_high 32); [by apply limb_word|lia].
    + case_match; [|apply Z.testbit_0_l]. rewrite Z.mod_pow2_bits_low by lia.
      cbn [andb]. by rewrite Z.shiftl_spec by lia.
  - rewrite orb_comm. transitivity (false || (k + 1 <=? j)%nat && Z.testbit (a !!! (j - k - 1)%nat) (32 + r - t));
      [f_equal|done].
    + case_match; [|apply Z.testbit_0_l]. rewrite Z.mod_pow2_bits_low by lia.
      by rewrite Z.shiftl_spec_low by lia.
    + rewrite (proj2 (Z.eqb_neq t 0)) by lia. rewrite andb_true_r. case_match; [|apply Z.testbit_0_l].
      rewrite Z.shiftr_spec by lia. cbn [andb]. f_equal. lia.
Qed.

Lemma shr_limb_bit a k t j r :
  uint_ok a -> 0 <= t < 32 -> 0 <= r < 32 ->
  Z.testbit (shr_limb a k t j) r =
  if r + t <? 32 then Z.testbit (a !!! (j + k)%nat) (r + t)
  else Z.testbit (a !!! (j + k + 1)%nat) (r + t - 32).
Proof.
  intros [Hl Ha] Ht Hr. unfold shr_limb, u32. rewrite Z.lor_spec. destruct (Z.ltb_spec (r + t) 32).
  - transitivity (false || Z.testbit (a !!! (j + k)%nat) (r + t)); [f_equal|done].
    + case_match; [|apply Z.testbit_0_l]. rewrite Z.mod_pow2_bits_low by lia.
      by rewrite Z.shiftl_spec_low by lia.
    + destruct (Nat.ltb_spec (j + k) WIDTH); [by rewrite Z.shiftr_spec by lia|].
      by rewrite lookup_out, !Z.testbit_0_l.
  - rewrite orb_comm. transitivity (false || Z.testbit (a !!! (j + k + 1)%nat) (r + t - 32)); [f_equal|done].
    + case_match; [|apply Z.testbit_0_l]. rewrite Z.shiftr_spec by lia.
      apply (word_testbit_high 32); [by apply limb_word|lia].
    + rewrite (proj2 (Z.eqb_neq t 0)) by lia. rewrite andb_true_r.
      destruct (Nat.ltb_spec (j + k + 1) WIDTH); [|by rewrite lookup_out, !Z.testbit_0_l].
      rewrite Z.mod_pow2_bits_low, Z.shiftl_spec by lia. f_equal. lia.
Qed.

Lemma shl_limb_word a k t j : limbs a -> 0 <= t < 32 -> word 32 (shl_limb a k t j).
Proof.
  intros Ha Ht. unfold shl_limb, u32. apply word_lor; [lia|..].
  - case_match; [|done]. apply word_shiftr; [lia|by apply limb_word].
  - case_match; [by apply word_mod|done].
Qed.

Lemma shr_limb_word a k t j : limbs a -> 0 <= t < 32 -> word 32 (shr_limb a k t j).
Proof.
  intros Ha Ht. unfold shr_limb, u32. apply word_lor; [lia|..].
  - case_match; [by apply word_mod|done].
  - case_match; [|done]. apply word_shiftr; [lia|by apply limb_word].
Qed.

(** A bit position in limbs: [n = 32 * j + r]. *)
Lemma bit_index n j r : 0 <= r < 32 -> n = 32 * j + r -> n / 32 = j /\ n mod 32 = r.
Proof.
  intros Hr E. split; symmetry; [apply Z.div_unique with r|apply Z.mod_unique with j]; lia.
Qed.

Lemma val_bit l n j r :
  limbs l -> 0 <= j -> 0 <= r < 32 -> n = 32 * j + r -> Z.testbit (val l) n = Z.testbit (l !!! Z.to_nat j) r.
Proof. intros Hl Hj Hr E. rewrite val_testbit by (done || lia). by destruct (bit_index n j r Hr E) as [-> ->]. Qed.

Lemma op_shl_spec a s :
  uint_ok a -> 0 <= s -> uint_ok (op_shl a s) /\ val (op_shl a s) = (val a * 2 ^ s) mod 2 ^ 256.
Proof.
  intros Ha Hs. pose proof (Z.mod_pos_bound s 32 ltac:(lia)) as Ht. pose proof (Z.div_pos s 32 Hs ltac:(lia)) as Hk.
  pose proof (Z.div_mod s 32 ltac:(lia)) as Es. rewrite op_shl_limbs by apply Ha.
  set (t := s mod 32) in *. set (k := s / 32) in *.
  assert (uint_ok (map (shl_limb a (Z.to_nat k) t) (seq 0 WIDTH))) as Hok
    by (apply uint_of_map; intros j; by apply shl_limb_word, Ht; apply Ha).
  split; [done|]. apply Z.bits_inj'. intros n Hn. pose proof (Z.div_mod n 32 ltac:(lia)) as En.
  pose proof (Z.mod_pos_bound n 32 ltac:(lia)) as Hr. pose proof (Z.div_pos n 32 Hn ltac:(lia)) as Hj.
  rewrite val_testbit by (apply Hok || done). set (j := n / 32) in *. set (r := n mod 32) in *.
  destruct (decide (256 <= n)) as [Hb|Hb].
  { rewrite Z.mod_pow2_bits_high, lookup_map_seq_out by (unfold WIDTH; lia). apply Z.testbit_0_l. }
  rewrite Z.mod_pow2_bits_low, lookup_map_seq by (unfold WIDTH; lia).
  rewrite shl_limb_bit by (done || apply Ha). rewrite Z.mul_pow2_bits by lia.
  destruct (Z.leb_spec t r).
  - destruct (Nat.leb_spec (Z.to_nat k) (Z.to_nat j)); cbn [andb].
    + rewrite (val_bit a (n - s) (j - k) (r - t)), Z2Nat.inj_sub by (apply Ha || lia). done.
    + symmetry. apply Z.testbit_neg_r. lia.
  - destruct (Nat.leb_spec (Z.to_nat k + 1) (Z.to_nat j)); cbn [andb].
    + rewrite (val_bit a (n - s) (j - k - 1) (32 + r - t)) by (apply Ha || lia). do 2 f_equal. lia.
    + symmetry. apply Z.testbit_neg_r. lia.
Qed.

Lemma op_shr_spec a s :
  uint_ok a -> 0 <= s -> uint_ok (op_shr a s) /\ val (op_shr a s) = val a / 2 ^ s.
Proof.
  intros Ha Hs. pose proof (Z.mod_pos_bound s 32 ltac:(lia)) as Ht. pose proof (Z.div_pos s 32 Hs ltac:(lia)) as Hk.
  pose proof (Z.div_mod s 32 ltac:(lia)) as Es. rewrite op_shr_limbs by apply Ha.
  set (t := s mod 32) in *. set (k := s / 32) in *.
  assert (uint_ok (map (shr_limb a (Z.to_nat k) t) (seq 0 WIDTH))) as Hok
    by (apply uint_of_map; intros j; by apply shr_limb_word, Ht; apply Ha).
  split; [done|]. apply Z.bits_inj'. intros n Hn. pose proof (Z.div_mod n 32 ltac:(lia)) as En.
  pose proof (Z.mod_pos_bound n 32 ltac:(lia)) as Hr. pose proof (Z.div_pos n 32 Hn ltac:(lia)) as Hj.
  rewrite val_testbit by (apply Hok || done). set (j := n / 32) in *. set (r := n mod 32) in *.
  rewrite Z.div_pow2_bits by lia.
  destruct (decide (256 <= n)) as [Hb|Hb].
  { rewrite lookup_map_seq_out by (unfold WIDTH; lia). rewrite Z.testbit_0_l. symmetry.
    apply (word_testbit_high 256); [by apply val_ok|lia]. }
  rewrite lookup_map_seq by (unfold WIDTH; lia). rewrite shr_limb_bit by done.
  destruct (Z.ltb_spec (r + t) 32).
  - rewrite (val_bit a (n + s) (j + k) (r + t)), Z2Nat.inj_add by (apply Ha || lia). done.
  - rewrite (val_bit a (n + s) (j + k + 1) (r + t - 32)) by (apply Ha || lia). do 2 f_equal. lia.
Qed.

(** ** Number of bits and comparison *)

Lemma land_bit x n : 0 <= n -> ((x .& (1 << n)) =? 0) = negb (Z.testbit x n).
Proof.
  intros Hn. rewrite Z.shiftl_1_l. destruct (Z.testbit x n) eqn:E.
  - apply Z.eqb_neq. intros H. apply (f_equal (fun z => Z.testbit z n)) in H.
    rewrite Z.land_spec, E, Z.pow2_bits_true, Z.testbit_0_l in H by lia. done.
  - apply Z.eqb_eq. apply Z.bits_inj'. intros m Hm. rewrite Z.land_spec, Z.testbit_0_l.
    destruct (decide (m = n)) as [->|]; [by rewrite E|].
    rewrite Z.pow2_bits_false by lia. apply andb_false_r.
Qed.

Lemma top_bit_spec x b : 0 < x < 2 ^ (Z.of_nat b + 1) -> top_bit x b = Z.log2 x + 1.
Proof.
  induction b as [|b IH]; intros Hx.
  { assert (x = 1) as -> by (simpl in Hx; lia). done. }
  cbn [top_bit]. rewrite land_bit, negb_involutive by lia.
  replace (Z.of_nat (S b) + 1) with (Z.succ (Z.of_nat (S b))) in Hx by lia.
  destruct (decide (2 ^ Z.of_nat (S b) <= x)) as [Hb|Hb].
  - assert (Z.log2 x = Z.of_nat (S b)) as E by (apply Z.log2_unique; lia).
    rewrite E, <- E, Z.bit_log2 by lia. done.
  - rewrite (word_testbit_high (Z.of_nat (S b)) x) by (unfold word; lia). apply IH.
    replace (Z.of_nat b + 1) with (Z.of_nat (S b)) by lia. lia.
Qed.

(** Number of binary digits. *)
Definition bitlen (v : Z) : Z := if v =? 0 then 0 else Z.log2 v + 1.

Lemma val_take_bound a p : uint_ok a -> (p <= WIDTH)%nat -> 0 <= val (take p a) < 2 ^ (32 * Z.of_nat p).
Proof.
  intros [Hl Ha] Hp. pose proof (val_bound (take p a) ltac:(by apply Forall_take)) as H.
  unfold modulus in H. rewrite length_take, Hl, Nat.min_l in H by lia. done.
Qed.

Lemma val_take_S a p :
  uint_ok a -> (p < WIDTH)%nat -> val (take (S p) a) = val (take p a) + 2 ^ (32 * Z.of_nat p) * (a !!! p).
Proof.
  intros [Hl Ha] Hp. rewrite take_S_val by lia. unfold modulus. rewrite length_take, Hl, Nat.min_l by lia. done.
Qed.

Lemma val_take_all a : uint_ok a -> val (take WIDTH a) = val a.
Proof. intros [Hl _]. by rewrite take_ge by lia. Qed.

Lemma bits_from_spec a p : uint_ok a -> (p <= WIDTH)%nat -> bits_from a p = bitlen (val (take p a)).
Proof.
  intros Ha. induction p as [|p IH]; intros Hp; [done|]. cbn [bits_from].
  rewrite val_take_S by (done || lia). pose proof (val_take_bound a p Ha ltac:(lia)) as Hb.
  pose proof (limb_word a p ltac:(apply Ha)) as [Hw1 Hw2]. unfold bitlen.
  destruct (Z.eqb_spec (a !!! p) 0) as [E|Hne]; cbn [negb].
  - rewrite IH, E by lia. unfold bitlen. by rewrite Z.mul_0_r, Z.add_0_r.
  - rewrite top_bit_spec by (simpl Z.of_nat; lia). rewrite (proj2 (Z.eqb_neq _ 0)) by nia.
    assert (0 < a !!! p) as Hp0 by lia. pose proof (Z.log2_spec _ Hp0) as Hlog. pose proof (Z.log2_nonneg (a !!! p)).
    rewrite (Z.log2_unique (_ + _) (32 * Z.of_nat p + Z.log2 (a !!! p))); [lia|lia|].
    rewrite <- Z.add_succ_r, !Z.pow_add_r by lia. nia.
Qed.

Lemma bits_spec a : uint_ok a -> bits a = bitlen (val a).
Proof. intros Ha. unfold bits. by rewrite bits_from_spec, val_take_all. Qed.

Lemma bitlen_le v n : 0 <= v -> 0 <= n -> bitlen v <= n <-> v < 2 ^ n.
Proof.
  intros Hv Hn. unfold bitlen. destruct (Z.eqb_spec v 0) as [->|Hne]; [split; lia|].
  rewrite (Z.log2_lt_pow2 v n) by lia. lia.
Qed.

Lemma bitlen_nonneg v : 0 <= bitlen v.
Proof. unfold bitlen. pose proof (Z.log2_nonneg v). case_match; lia. Qed.

Lemma bitlen_0 v : bitlen v = 0 <-> v = 0.
Proof.
  unfold bitlen. pose proof (Z.log2_nonneg v). destruct (Z.eqb_spec v 0); [done|]. split; lia.
Qed.

(** The value lies between the powers of two its number of bits gives. *)
Lemma bitlen_bounds v : 0 < v -> 2 ^ (bitlen v - 1) <= v < 2 ^ bitlen v.
Proof.
  intros Hv. unfold bitlen. rewrite (proj2 (Z.eqb_neq v 0)) by lia. pose proof (Z.log2_spec v Hv).
  rewrite Z.add_simpl_r. lia.
Qed.

(** The sign of a comparison. *)
Definition sign (c : comparison) : Z := match c with Lt => -1 | Eq => 0 | Gt => 1 end.

Lemma compare_from_spec a b p :
  uint_ok a -> uint_ok b -> (p <= WIDTH)%nat ->
  compare_from a b p = sign (val (take p a) ?= val (take p b)).
Proof.
  intros Ha Hb. induction p as [|p IH]; intros Hp; [done|]. cbn [compare_from].
  rewrite !val_take_S by (done || lia). pose proof (val_take_bound a p Ha ltac:(lia)) as Hta.
  pose proof (val_take_bound b p Hb ltac:(lia)) as Htb. set (M := 2 ^ (32 * Z.of_nat p)) in *.
  destruct (Z.ltb_spec (a !!! p) (b !!! p)).
  { rewrite (proj2 (Z.compare_lt_iff _ _)) by nia. done. }
  rewrite Z.gtb_ltb. destruct (Z.ltb_spec (b !!! p) (a !!! p)).
  { rewrite (proj2 (Z.compare_gt_iff _ _)) by nia. done. }
  assert (a !!! p = b !!! p) as -> by lia. rewrite IH by lia.
  rewrite !(Z.add_comm _ (M * _)), Z.add_compare_mono_l. done.
Qed.

Lemma CompareTo_spec a b : uint_ok a -> uint_ok b -> CompareTo a b = sign (val a ?= val b).
Proof. intros Ha Hb. unfold CompareTo. rewrite compare_from_spec, !val_take_all by done. done. Qed.

Lemma op_cmp_spec a b : uint_ok a -> uint_ok b ->
  op_gt a b = (val b <? val a) /\ op_lt a b = (val a <? val b) /\
  op_ge a b = (val b <=? val a) /\ op_le a b = (val a <=? val b).
Proof.
  intros Ha Hb. unfold op_gt, op_lt, op_ge, op_le. rewrite CompareTo_spec by done.
  destruct (Z.compare_spec (val a) (val b)); cbn [sign]; split_and!; symmetry;
    first [apply Z.ltb_lt|apply Z.ltb_ge|apply Z.leb_le|apply Z.leb_gt]; lia.
Qed.

(** ** Division *)

Lemma or_limb_ok pn i x : uint_ok pn -> word 32 x -> uint_ok (or_limb pn i x).
Proof.
  intros [Hl Hp] Hx. unfold or_limb. split; [by rewrite length_insert|].
  apply Forall_insert; [done|]. apply word_lor; [lia|by apply limb_word|done].
Qed.

(** Setting a bit that is clear adds its weight. *)
Lemma or_limb_bit pn n :
  uint_ok pn -> 0 <= n < 256 -> Z.testbit (val pn) n = false ->
  let pn' := or_limb pn (Z.to_nat (n / 32)) (1 << (n .& 31)) in
  uint_ok pn' /\ val pn' = val pn + 2 ^ n.
Proof.
  intros Hp Hn Hc. cbv zeta. change 31 with (Z.ones 5). rewrite Z.land_ones by lia. change (2 ^ 5) with 32.
  pose proof (Z.mod_pos_bound n 32 ltac:(lia)) as Hr. pose proof (Z.div_mod n 32 ltac:(lia)) as En.
  assert (word 32 (1 << (n mod 32))) as Hw.
  { rewrite Z.shiftl_1_l. split; [lia|]. apply Z.pow_lt_mono_r; lia. }
  assert (Z.to_nat (n / 32) < WIDTH)%nat as Hi by (unfold WIDTH; lia).
  split; [by apply or_limb_ok|].
  pose proof (or_limb_ok pn (Z.to_nat (n / 32)) _ Hp Hw) as Hok.
  assert (val pn .& 2 ^ n = 0) as Hd.
  { rewrite <- Z.shiftl_1_l. apply Z.eqb_eq. rewrite land_bit by lia. by rewrite Hc. }
  rewrite <- Z.add_lor_land, Hd, Z.add_0_r. apply Z.bits_inj'. intros m Hm.
  rewrite Z.lor_spec, !val_testbit by (apply Hok || apply Hp || done). unfold or_limb.
  pose proof (Z.mod_pos_bound m 32 ltac:(lia)). pose proof (Z.div_mod m 32 ltac:(lia)) as Em.
  destruct (decide (m / 32 = n / 32)) as [E|Hne].
  - rewrite E, list_lookup_total_insert_eq by (destruct Hp; lia). rewrite Z.lor_spec, Z.shiftl_1_l. f_equal.
    rewrite !Z.pow2_bits_eqb by lia. destruct (Z.eqb_spec (n mod 32) (m mod 32)), (Z.eqb_spec n m); lia.
  - rewrite list_lookup_total_insert_ne by (intros E%Z2Nat.inj; lia).
    rewrite Z.pow2_bits_false by (intros ->; done). by rewrite orb_false_r.
Qed.

Lemma zero_uint_ok : uint_ok zero_uint.
Proof. split; [done|by apply Forall_replicate]. Qed.

Lemma multiple_testbit v n : 0 <= n -> v mod 2 ^ (n + 1) = 0 -> Z.testbit v n = false.
Proof.
  intros Hn H. rewrite <- (Z.mod_pow2_bits_low v (n + 1)) by lia. rewrite H. apply Z.testbit_0_l.
Qed.

(** The loop: what is left is below [2 ^ (shift + 1)] divisors, and the quotient so far
    is a multiple of that power. *)
Lemma div_loop_spec fuel shift num div pn d v :
  uint_ok num -> uint_ok div -> uint_ok pn -> 0 < d -> Z.of_nat fuel = shift + 1 -> 0 <= v < 2 ^ 256 ->
  (0 <= shift -> val div = d * 2 ^ shift) ->
  val num < d * 2 ^ (shift + 1) -> val pn * d + val num = v -> val pn mod 2 ^ (shift + 1) = 0 ->
  uint_ok (div_loop fuel shift num div pn) /\ val (div_loop fuel shift num div pn) = v / d.
Proof.
  revert shift num div pn. induction fuel as [|fuel IH]; intros shift num div pn Hn Hdv Hp Hd Hf Hv Ediv Hlt E Hm.
  { assert (shift = -1) as -> by lia. split; [done|]. cbn [div_loop]. rewrite Z.pow_0_r in Hlt.
    pose proof (val_ok num Hn). apply Z.div_unique with (val num); lia. }
  assert (0 <= shift) as Hs by lia. specialize (Ediv Hs). cbn [div_loop].
  destruct (op_cmp_spec num div Hn Hdv) as (_&_&->&_). rewrite Ediv.
  pose proof (val_ok num Hn) as Hnv. pose proof (val_ok pn Hp) as Hpv. pose proof (val_ok div Hdv) as Hdiv.
  assert (2 ^ (shift + 1) = 2 * 2 ^ shift) as Epow by (rewrite Z.pow_add_r; lia).
  assert (0 < 2 ^ shift) as Hpos by lia.
  destruct (op_shr_spec div 1 Hdv ltac:(lia)) as [Hsh Esh].
  assert (0 <= shift - 1 -> val (op_shr div 1) = d * 2 ^ (shift - 1)) as Ediv'.
  { intros Hs1. rewrite Esh, Ediv. replace shift with (shift - 1 + 1) at 1 by lia. rewrite Z.pow_add_r by lia.
    rewrite Z.mul_assoc, Z.div_mul by lia. done. }
  assert (val pn mod 2 ^ shift = 0) as Hm'.
  { apply Z.mod_divide in Hm as [q Eq]; [|lia]. apply Z.mod_divide; [lia|]. exists (q * 2). lia. }
  destruct (Z.leb_spec (d * 2 ^ shift) (val num)) as [Hge|Hltd].
  - destruct (op_sub_spec num div Hn Hdv) as [Hns Ens]. rewrite Ediv, Z.mod_small in Ens by lia.
    assert (shift < 256) as Hs256.
    { apply Z.nle_gt. intros Hc. assert (2 ^ 256 <= 2 ^ shift) by (apply Z.pow_le_mono_r; lia). nia. }
    destruct (or_limb_bit pn shift Hp ltac:(lia) ltac:(by apply multiple_testbit)) as [Hpo Epo].
    apply IH; try done; rewrite ?Z.sub_add; try lia.
    rewrite Epo, Zplus_mod, Hm', Z.mod_same by lia. done.
  - apply IH; try done; rewrite ?Z.sub_add; lia.
Qed.

(** Division by zero raises the error; any other division returns the quotient. *)
Lemma op_div_spec a b :
  uint_ok a -> uint_ok b ->
  match op_div a b with
  | None => val b = 0
  | Some q => val b <> 0 /\ uint_ok q /\ val q = val a / val b
  end.
Proof.
  intros Ha Hb. unfold op_div. rewrite !bits_spec by done.
  pose proof (val_ok a Ha) as Hva. pose proof (val_ok b Hb) as Hvb.
  destruct (Z.eqb_spec (bitlen (val b)) 0) as [E|Hne]; [by apply bitlen_0|].
  assert (val b <> 0) as Hb0 by (intros E; by apply Hne, bitlen_0).
  pose proof (bitlen_bounds (val b) ltac:(lia)) as Hbb. pose proof (bitlen_nonneg (val b)).
  assert (val a < 2 ^ bitlen (val a)) as Hab by (apply bitlen_le; [lia|apply bitlen_nonneg|done]).
  pose proof (bitlen_nonneg (val a)).
  assert (bitlen (val a) <= 256) as H256 by (apply bitlen_le; lia).
  destruct (Z.ltb_spec (bitlen (val a)) (bitlen (val b))) as [Hlt|Hge]; (split; [done|]).
  - split; [exact zero_uint_ok|]. change (val zero_uint) with 0. symmetry. apply Z.div_small.
    split; [lia|]. assert (2 ^ bitlen (val a) <= 2 ^ (bitlen (val b) - 1)) by (apply Z.pow_le_mono_r; lia). lia.
  - set (s := bitlen (val a) - bitlen (val b)) in *.
    assert (2 ^ bitlen (val a) = 2 ^ bitlen (val b) * 2 ^ s) as Ep by (rewrite <- Z.pow_add_r by lia; f_equal; lia).
    assert (2 ^ bitlen (val a) = 2 ^ (bitlen (val b) - 1) * 2 ^ (s + 1)) as Ep'
      by (rewrite <- Z.pow_add_r by lia; f_equal; lia).
    assert (2 ^ bitlen (val a) <= 2 ^ 256) as Hmax by (apply Z.pow_le_mono_r; lia).
    destruct (op_shl_spec b s Hb ltac:(lia)) as [Hsh Esh].
    assert (0 < 2 ^ s) by lia. rewrite Z.mod_small in Esh by nia.
    apply div_loop_spec; try done; try lia.
    + apply zero_uint_ok.
    + assert (0 < 2 ^ (s + 1)) by lia. nia.
Qed.

(** ** The compact format *)

Lemma lor_disjoint x y n : word n x -> 0 <= n -> x .| (y << n) = x + y * 2 ^ n.
Proof.
  intros Hx Hn. rewrite <- Z.shiftl_mul_pow2, <- Z.add_lor_land by done.
  enough (x .& (y << n) = 0) as -> by lia. apply Z.bits_inj'. intros i Hi. rewrite Z.land_spec, Z.testbit_0_l.
  destruct (decide (i < n)); [rewrite Z.shiftl_spec_low by lia; apply andb_false_r|].
  by rewrite (word_testbit_high n x) by (done || lia).
Qed.

Lemma GetLow64_spec a : uint_ok a -> GetLow64 a = val a mod 2 ^ 64.
Proof.
  intros [(a0&a1&a2&a3&a4&a5&a6&a7&->)%eight Ha]. unfold GetLow64. simpl lookup_total.
  pose proof (limb_word _ 0 Ha) as H0. pose proof (limb_word _ 1 Ha) as H1. simpl lookup_total in *.
  unfold word in *. rewrite lor_disjoint by (done || unfold word; lia).
  apply Z.mod_unique with (val [a2; a3; a4; a5; a6; a7]); [left; lia|]. cbn [val]. lia.
Qed.

Lemma shift_mul x k : 0 <= k -> x << (8 * k) = x * 256 ^ k.
Proof. intros Hk. rewrite Z.shiftl_mul_pow2, Z.pow_mul_r by lia. done. Qed.

Lemma shift_div x k : 0 <= k -> x >> (8 * k) = x / 256 ^ k.
Proof. intros Hk. rewrite Z.shiftr_div_pow2, Z.pow_mul_r by lia. done. Qed.

Lemma mask23 x : x .& 0x007FFFFF = x mod 2 ^ 23.
Proof. change 0x007FFFFF with (Z.ones 23). by rewrite Z.land_ones. Qed.

Lemma sign_bit x : ((x .& 0x00800000) =? 0) = negb (Z.testbit x 23).
Proof. by rewrite <- land_bit. Qed.

Lemma above23 x : word 23 x -> x .& u32 (Z.lnot 0x007FFFFF) = 0.
Proof.
  intros Hx. change (u32 (Z.lnot 0x007FFFFF)) with (511 << 23). apply Z.bits_inj'. intros i Hi.
  rewrite Z.land_spec, Z.testbit_0_l. destruct (decide (i < 23)).
  - rewrite Z.shiftl_spec_low by lia. apply andb_false_r.
  - by rewrite (word_testbit_high 23 x) by (done || lia).
Qed.

(** The number a compact word denotes, the sign apart. *)
Definition compact_value (nCompact : Z) : Z :=
  let nSize := nCompact / 2 ^ 24 in
  let nWord := nCompact mod 2 ^ 23 in
  if nSize <=? 3 then nWord / 256 ^ (3 - nSize) else nWord * 256 ^ (nSize - 3).

(** The overflow flag of [SetCompact] is exact: it is set when the number does not fit. *)
Lemma compact_overflow m s :
  0 <= m < 2 ^ 23 -> 3 < s < 256 ->
  negb (m =? 0) && ((s >? 34) || ((m >? 0xFF) && (s >? 33)) || ((m >? 0xFFFF) && (s >? 32))) =
  (2 ^ 256 <=? m * 256 ^ (s - 3)).
Proof.
  intros Hm Hs. rewrite !Z.gtb_ltb. destruct (Z.eqb_spec m 0) as [->|Hm0]; [done|]. cbn [negb andb].
  assert (forall e, 0 <= e -> 256 ^ e = 2 ^ (8 * e)) as Hp by (intros e He; by rewrite Z.pow_mul_r by lia).
  destruct (decide (s <= 32)) as [Hle|Hgt].
  - rewrite !(proj2 (Z.ltb_ge _ s)) by lia. rewrite !andb_false_r. symmetry. apply Z.leb_gt.
    assert (256 ^ (s - 3) <= 256 ^ 29) by (apply Z.pow_le_mono_r; lia).
    change (256 ^ 29) with (2 ^ 232) in *. nia.
  - destruct (decide (s = 33)) as [->|]; [|destruct (decide (s = 34)) as [->|]].
    + change (256 ^ (33 - 3)) with (2 ^ 240). cbn [Z.ltb Z.compare Pos.compare Pos.compare_cont].
      rewrite andb_false_r, andb_true_r. cbn [orb].
      destruct (Z.ltb_spec 65535 m), (Z.leb_spec (2 ^ 256) (m * 2 ^ 240)); lia.
    + change (256 ^ (34 - 3)) with (2 ^ 248). cbn [Z.ltb Z.compare Pos.compare Pos.compare_cont].
      rewrite !andb_true_r. cbn [orb].
      destruct (Z.ltb_spec 65535 m), (Z.ltb_spec 255 m), (Z.leb_spec (2 ^ 256) (m * 2 ^ 248)); lia.
    + rewrite (proj2 (Z.ltb_lt 34 s)) by lia. cbn [orb]. symmetry. apply Z.leb_le.
      assert (256 ^ 32 <= 256 ^ (s - 3)) by (apply Z.pow_le_mono_r; lia).
      change (256 ^ 32) with (2 ^ 256) in *. nia.
Qed.

Lemma SetCompact_spec n :
  word 32 n ->
  let '(a, fNegative, fOverflow) := SetCompact n in
  uint_ok a /\ val a = compact_value n mod 2 ^ 256 /\
  fOverflow = (2 ^ 256 <=? compact_value n) /\
  fNegative = negb (compact_value n =? 0) && Z.testbit n 23.
Proof.
  intros Hn. unfold SetCompact, compact_value. rewrite sign_bit, negb_involutive, mask23.
  rewrite (Z.shiftr_div_pow2 n 24) by lia.
  pose proof (Z.mod_pos_bound n (2 ^ 23) ltac:(lia)) as Hm. set (m := n mod 2 ^ 23) in *.
  assert (0 <= n / 2 ^ 24 < 256) as Hs.
  { split; [apply Z.div_pos; unfold word in Hn; lia|apply Z.div_lt_upper_bound; unfold word in Hn; lia]. }
  set (s := n / 2 ^ 24) in *. destruct (Z.leb_spec s 3).
  - rewrite shift_div by lia. assert (0 < 256 ^ (3 - s)) by lia.
    assert (0 <= m / 256 ^ (3 - s) < 2 ^ 23) as Hd.
    { split; [apply Z.div_pos; lia|]. apply Z.le_lt_trans with m; [apply Z.div_le_upper_bound; nia|lia]. }
    destruct (of_uint64_spec (m / 256 ^ (3 - s))) as [Hok E]; [unfold word; lia|].
    split_and!; [apply Hok|rewrite E, Z.mod_small; lia| |done].
    rewrite !Z.gtb_ltb. rewrite !(proj2 (Z.ltb_ge _ s)) by lia. rewrite !andb_false_r. symmetry.
    apply Z.leb_gt. lia.
  - destruct (of_uint64_spec m) as [Hok E]; [unfold word; lia|].
    destruct (op_shl_spec (of_uint64 m) (8 * (s - 3)) Hok ltac:(lia)) as [Hok' E'].
    rewrite E, Z.pow_mul_r in E' by lia. change (2 ^ 8) with 256 in E'.
    split_and!; [apply Hok'|done|apply compact_overflow; lia|].
    f_equal. f_equal. assert (0 < 256 ^ (s - 3)) by lia.
    destruct (Z.eqb_spec m 0), (Z.eqb_spec (m * 256 ^ (s - 3)) 0); try done; nia.
Qed.

(** Exponent and mantissa of the compact form of [v]. *)
Definition compact_size (v : Z) : Z := if v =? 0 then 0 else bitlen v / 8 + 1.
Definition leading (v s : Z) : Z := if s <=? 3 then v * 256 ^ (3 - s) else v / 256 ^ (s - 3).
Definition compact_word (v : Z) : Z := leading v (compact_size v).

Lemma pow256 e : 0 <= e -> 256 ^ e = 2 ^ (8 * e).
Proof. intros He. by rewrite Z.pow_mul_r by lia. Qed.

Lemma div_shift_bounds v lo hi e :
  0 <= lo -> 0 <= e -> 2 ^ (lo + e) <= v < 2 ^ (hi + e) -> 0 <= hi -> 2 ^ lo <= v / 2 ^ e < 2 ^ hi.
Proof.
  intros Hlo He [H1 H2] Hhi. rewrite Z.pow_add_r in H1, H2 by lia. split.
  - apply Z.div_le_lower_bound; lia.
  - apply Z.div_lt_upper_bound; lia.
Qed.

Lemma compact_size_bound v : 0 <= v < 2 ^ 256 -> 0 <= compact_size v <= 33.
Proof.
  intros Hv. unfold compact_size. destruct (Z.eqb_spec v 0); [lia|]. pose proof (bitlen_nonneg v).
  assert (bitlen v <= 256) by (apply bitlen_le; lia). pose proof (Z.div_pos (bitlen v) 8).
  assert (bitlen v / 8 <= 32) by (apply Z.div_le_upper_bound; lia). lia.
Qed.

(** The mantissa has its top byte in use and its sign bit clear. *)
Lemma compact_word_bounds v : 0 < v < 2 ^ 256 -> 2 ^ 15 <= compact_word v < 2 ^ 23.
Proof.
  intros Hv. unfold compact_word, leading. pose proof (bitlen_bounds v ltac:(lia)) as Hb.
  pose proof (compact_size_bound v ltac:(lia)) as Hs. unfold compact_size in *.
  rewrite (proj2 (Z.eqb_neq v 0)) in * by lia. set (n := bitlen v) in *.
  pose proof (bitlen_nonneg v). fold n in H.
  assert (n <> 0) as Hn0 by (unfold n; rewrite bitlen_0; lia).
  pose proof (Z.div_mod n 8 ltac:(lia)) as En. pose proof (Z.mod_pos_bound n 8 ltac:(lia)).
  set (q := n / 8) in *. set (r := n mod 8) in *.
  assert (2 ^ (8 * q - 1) <= v \/ q = 0) as Hlo.
  { destruct (decide (q = 0)); [by right|left]. etransitivity; [|apply Hb]. apply Z.pow_le_mono_r; lia. }
  assert (v < 2 ^ (8 * q + 7)) as Hhi.
  { eapply Z.lt_le_trans; [apply Hb|]. apply Z.pow_le_mono_r; lia. }
  destruct (Z.leb_spec (q + 1) 3); rewrite pow256 by lia.
  - assert (q = 0 \/ q = 1 \/ q = 2) as [Eq|[Eq|Eq]] by lia; clearbody q; subst q; cbn in *; lia.
  - apply div_shift_bounds; [lia|lia| |lia]. split; [destruct Hlo as [Hlo|]; [|lia]|].
    + replace (15 + 8 * (q + 1 - 3)) with (8 * q - 1) by lia. done.
    + replace (23 + 8 * (q + 1 - 3)) with (8 * q + 7) by lia. done.
Qed.

Lemma leading_next v s : leading v s / 256 = leading v (s + 1).
Proof.
  unfold leading. destruct (Z.leb_spec s 3) as [H|H], (Z.leb_spec (s + 1) 3); try lia.
  - replace (3 - s) with (3 - (s + 1) + 1) by lia. rewrite Z.pow_add_r, Z.mul_assoc, Z.div_mul by lia. done.
  - assert (s = 3) as -> by lia. by rewrite Z.mul_1_r.
  - replace (s + 1 - 3) with (s - 3 + 1) by lia. rewrite Z.pow_add_r by lia. rewrite Z.div_div by lia. done.
Qed.

Lemma leading_nonneg v s : 0 <= v -> 0 <= leading v s.
Proof.
  intros Hv. unfold leading. destruct (s <=? 3).
  - apply Z.mul_nonneg_nonneg; [lia|apply Z.pow_nonneg; lia].
  - apply Z_div_nonneg_nonneg; [lia|apply Z.pow_nonneg; lia].
Qed.

(** The three leading bytes of a number of [s] bytes. *)
Lemma leading_bounds v : 0 < v -> leading v ((bitlen v + 7) / 8) < 2 ^ 24.
Proof.
  intros Hv. unfold leading. pose proof (bitlen_bounds v Hv) as Hb. pose proof (bitlen_nonneg v).
  set (n := bitlen v) in *. pose proof (Z.div_mod (n + 7) 8 ltac:(lia)) as En.
  pose proof (Z.mod_pos_bound (n + 7) 8 ltac:(lia)). set (q := (n + 7) / 8) in *.
  assert (v < 2 ^ (8 * q)) by (eapply Z.lt_le_trans; [apply Hb|]; apply Z.pow_le_mono_r; lia).
  destruct (Z.leb_spec q 3); rewrite pow256 by lia.
  - replace (2 ^ 24) with (2 ^ (8 * q) * 2 ^ (8 * (3 - q))) by (rewrite <- Z.pow_add_r by lia; f_equal; lia).
    assert (0 < 2 ^ (8 * (3 - q))) by lia. nia.
  - apply Z.div_lt_upper_bound; [lia|]. rewrite <- Z.pow_add_r by lia.
    replace (8 * (q - 3) + 24) with (8 * q) by lia. done.
Qed.

(** The code's bytes, before the adjustment for the sign bit. *)
Lemma GetCompact_leading a :
  uint_ok a -> 0 < val a ->
  let s := (bits a + 7) / 8 in
  (if s <=? 3 then u32 (u64 (GetLow64 a << (8 * (3 - s)))) else u32 (GetLow64 (op_shr a (8 * (s - 3)))))
  = leading (val a) s.
Proof.
  intros Ha Hv. cbv zeta. rewrite bits_spec by done. pose proof (leading_bounds (val a) Hv) as Hb.
  pose proof (bitlen_nonneg (val a)). pose proof (Z.div_pos (bitlen (val a) + 7) 8 ltac:(lia) ltac:(lia)).
  set (s := (bitlen (val a) + 7) / 8) in *. unfold leading in *. unfold u32, u64.
  destruct (Z.leb_spec s 3).
  - assert (0 < 256 ^ (3 - s)) by lia. rewrite GetLow64_spec, shift_mul by (done || lia).
    assert (val a <= val a * 256 ^ (3 - s)) by nia. rewrite (Z.mod_small (val a)) by lia.
    rewrite !(Z.mod_small (_ * _)) by lia. done.
  - destruct (op_shr_spec a (8 * (s - 3)) Ha ltac:(lia)) as [Hok E]. rewrite GetLow64_spec, E by done.
    rewrite Z.pow_mul_r by lia. change (2 ^ 8) with 256.
    assert (0 <= val a / 256 ^ (s - 3)) by (apply Z.div_pos; lia).
    rewrite !(Z.mod_small (_ / _)) by lia. done.
Qed.

Lemma bit23 x : 0 <= x < 2 ^ 24 -> Z.testbit x 23 = (2 ^ 23 <=? x).
Proof.
  intros Hx. destruct (Z.leb_spec (2 ^ 23) x).
  - replace 23 with (Z.log2 x) by (apply Z.log2_unique; lia). apply Z.bit_log2. lia.
  - apply (word_testbit_high 23); [unfold word|]; lia.
Qed.

(** After the adjustment. *)
Lemma leading_adjust v :
  0 < v < 2 ^ 256 ->
  let s := (bitlen v + 7) / 8 in
  (if 2 ^ 23 <=? leading v s then (leading v s >> 8, s + 1) else (leading v s, s)) = (compact_word v, compact_size v).
Proof.
  intros Hv. cbv zeta. pose proof (compact_word_bounds v Hv) as Hw. unfold compact_word in *.
  rewrite (Z.shiftr_div_pow2 _ 8) by lia. change (2 ^ 8) with 256.
  pose proof (bitlen_bounds v ltac:(lia)) as Hb.
  pose proof (leading_bounds v ltac:(lia)) as Hlt. unfold compact_size in *.
  rewrite (proj2 (Z.eqb_neq v 0)) in * by lia. pose proof (bitlen_nonneg v).
  pose proof (Z.div_mod (bitlen v) 8 ltac:(lia)) as En. pose proof (Z.mod_pos_bound (bitlen v) 8 ltac:(lia)) as Hr.
  set (q := bitlen v / 8) in *. set (r := bitlen v mod 8) in *.
  destruct (decide (r = 0)) as [Er|Hr0].
  - assert ((bitlen v + 7) / 8 = q) as E by (symmetry; apply Z.div_unique with 7; lia).
    rewrite E, leading_next in *. rewrite (proj2 (Z.leb_le _ _)); [done|].
    pose proof (leading_next v q) as Hn. pose proof (Z.div_mod (leading v q) 256 ltac:(lia)).
    pose proof (Z.mod_pos_bound (leading v q) 256 ltac:(lia)). lia.
  - assert ((bitlen v + 7) / 8 = q + 1) as -> by (symmetry; apply Z.div_unique with (r - 1); lia).
    rewrite (proj2 (Z.leb_gt _ _)) by lia. done.
Qed.

Lemma GetCompact_spec a fNegative :
  uint_ok a ->
  GetCompact a fNegative =
  Some (compact_word (val a) + compact_size (val a) * 2 ^ 24 + (if fNegative && negb (val a =? 0) then 2 ^ 23 else 0)).
Proof.
  intros Ha. pose proof (val_ok a Ha) as Hv. unfold GetCompact.
  destruct (decide (val a = 0)) as [E|Hne].
  { rewrite bits_spec, GetLow64_spec, E by done. rewrite (eq_refl : (bitlen 0 + 7) / 8 = 0).
    cbn [Z.leb Z.compare]. destruct fNegative; vm_compute; reflexivity. }
  pose proof (GetCompact_leading a Ha ltac:(lia)) as E. cbv zeta in E. rewrite E.
  pose proof (leading_bounds (val a) ltac:(lia)) as Hlt.
  rewrite bits_spec by done. pose proof (leading_adjust (val a) ltac:(lia)) as E'. cbv zeta in E'.
  rewrite sign_bit, negb_involutive, bit23.
  2: { split; [apply leading_nonneg; lia|done]. }
  rewrite E'. pose proof (compact_word_bounds (val a) ltac:(lia)) as Hw.
  pose proof (compact_size_bound (val a) Hv) as Hs.
  rewrite above23 by (unfold word; lia). cbn [Z.eqb negb]. rewrite (proj2 (Z.ltb_lt _ _)) by lia. cbn [negb].
  rewrite (lor_disjoint _ _ 24) by (unfold word; lia). set (w := compact_word _) in *. set (s := compact_size _) in *.
  rewrite mask23. replace (w + s * 2 ^ 24) with (w + s * 2 * 2 ^ 23) at 2 by lia.
  rewrite Z.mod_add, Z.mod_small by lia. rewrite (proj2 (Z.eqb_neq w 0)), (proj2 (Z.eqb_neq (val a) 0)) by lia.
  f_equal. destruct fNegative; cbn [negb andb]; [|by rewrite Z.lor_0_r, Z.add_0_r].
  rewrite <- (lor_disjoint w s 24) by (unfold word; lia).
  rewrite <- Z.lor_assoc, (Z.lor_comm (s << 24)), Z.lor_assoc. change 0x00800000 with (1 << 23) at 1.
  rewrite (lor_disjoint w 1 23), !(lor_disjoint _ s 24) by (unfold word; lia). lia.
Qed.

(** The sign apart, decoding an encoded number gives the number with the bytes below its
    three leading ones cleared. *)
Lemma compact_value_encode v neg :
  0 <= v < 2 ^ 256 ->
  compact_value (compact_word v + compact_size v * 2 ^ 24 + (if neg : bool then 2 ^ 23 else 0)) =
  let k := Z.max 0 (compact_size v - 3) in v / 256 ^ k * 256 ^ k.
Proof.
  intros Hv. unfold compact_value. pose proof (compact_size_bound v Hv) as Hs.
  assert (0 <= compact_word v < 2 ^ 23) as Hw.
  { destruct (decide (v = 0)) as [->|]; [done|]. pose proof (compact_word_bounds v ltac:(lia)). lia. }
  set (n := compact_word v + _ + _).
  assert (n mod 2 ^ 23 = compact_word v) as ->.
  { symmetry. apply Z.mod_unique with (2 * compact_size v + (if neg then 1 else 0)); [lia|].
    unfold n. destruct neg; lia. }
  assert (n / 2 ^ 24 = compact_size v) as ->.
  { symmetry. apply Z.div_unique with (compact_word v + (if neg then 2 ^ 23 else 0)); unfold n; destruct neg; lia. }
  cbv zeta. unfold compact_word, leading. destruct (Z.leb_spec (compact_size v) 3).
  - rewrite Z.div_mul by lia. rewrite Z.max_l by lia. by rewrite Z.pow_0_r, Z.div_1_r, Z.mul_1_r.
  - by rewrite Z.max_r by lia.
Qed.

Lemma encode_sign v neg :
  0 <= v < 2 ^ 256 ->
  let n := compact_word v + compact_size v * 2 ^ 24 + (if neg : bool then 2 ^ 23 else 0) in
  word 32 n /\ Z.testbit n 23 = neg.
Proof.
  intros Hv. cbv zeta. pose proof (compact_size_bound v Hv) as Hs.
  assert (0 <= compact_word v < 2 ^ 23) as Hw.
  { destruct (decide (v = 0)) as [->|]; [done|]. pose proof (compact_word_bounds v ltac:(lia)). lia. }
  set (w := compact_word v) in *. set (s := compact_size v) in *. split; [unfold word; destruct neg; lia|].
  rewrite <- (Z.mod_pow2_bits_low _ 24) by lia.
  replace (w + s * 2 ^ 24 + (if neg then 2 ^ 23 else 0)) with (w + (if neg then 2 ^ 23 else 0) + s * 2 ^ 24) by lia.
  rewrite Z.mod_add, Z.mod_small by (destruct neg; lia). rewrite bit23 by (destruct neg; lia).
  destruct neg; [apply Z.leb_le|apply Z.leb_gt]; lia.
Qed.

(** ** Bitwise operators, equality and byte arrays *)

Lemma zip_bitwise (f : Z -> Z -> Z) (g : bool -> bool -> bool) a b :
  (forall x y i, 0 <= i -> Z.testbit (f x y) i = g (Z.testbit x i) (Z.testbit y i)) ->
  (forall x y, word 32 x -> word 32 y -> word 32 (f x y)) -> f 0 0 = 0 ->
  uint_ok a -> uint_ok b ->
  uint_ok (zip_with f a b) /\ forall i, 0 <= i ->
    Z.testbit (val (zip_with f a b)) i = g (Z.testbit (val a) i) (Z.testbit (val b) i).
Proof.
  intros Hf Hw H0 [Hla Ha] [Hlb Hb].
  assert (uint_ok (zip_with f a b)) as Hok.
  { split; [rewrite length_zip_with; lia|]. clear -Ha Hb Hw. revert b Hb.
    induction Ha as [|x a Hx Ha IH]; intros [|y b] Hb; [constructor..|].
    apply list.Forall_cons in Hb as [Hy Hb]. cbn. apply Forall_cons_2; auto. }
  split; [done|]. intros i Hi. rewrite !val_testbit by (apply Hok || done).
  pose proof (Z.mod_pos_bound i 32 ltac:(lia)). rewrite <- Hf by lia. f_equal.
  generalize (Z.to_nat (i / 32)). intros j. rewrite !list_lookup_total_alt, lookup_zip_with.
  destruct (decide (j < WIDTH)%nat) as [Hj|Hj].
  - destruct (lookup_lt_is_Some_2 a j) as [x ->]; [lia|]. destruct (lookup_lt_is_Some_2 b j) as [y ->]; [lia|]. done.
  - rewrite !lookup_ge_None_2 by lia. symmetry. exact H0.
Qed.

Lemma op_bitwise_spec a b : uint_ok a -> uint_ok b ->
  (uint_ok (op_xor a b) /\ val (op_xor a b) = Z.lxor (val a) (val b)) /\
  (uint_ok (op_and a b) /\ val (op_and a b) = val a .& val b) /\
  (uint_ok (op_or a b) /\ val (op_or a b) = val a .| val b).
Proof.
  intros Ha Hb. split; [|split].
  - destruct (zip_bitwise Z.lxor xorb a b) as [Hok H]; [by intros; rewrite Z.lxor_spec|by intros; apply word_lxor|done..|].
    split; [done|]. apply Z.bits_inj'. intros i Hi. rewrite Z.lxor_spec. by apply H.
  - destruct (zip_bitwise Z.land andb a b) as [Hok H]; [by intros; rewrite Z.land_spec|by intros; apply word_land_l|done..|].
    split; [done|]. apply Z.bits_inj'. intros i Hi. rewrite Z.land_spec. by apply H.
  - destruct (zip_bitwise Z.lor orb a b) as [Hok H]; [by intros; rewrite Z.lor_spec|by intros; apply word_lor|done..|].
    split; [done|]. apply Z.bits_inj'. intros i Hi. rewrite Z.lor_spec. by apply H.
Qed.

Lemma op_bitwise64 a b : uint_ok a -> op_xor64 a b = op_xor a (of_uint64 b) /\ op_or64 a b = op_or a (of_uint64 b).
Proof.
  intros [(a0&a1&a2&a3&a4&a5&a6&a7&->)%eight _]. unfold op_xor64, op_or64, op_xor, op_or, of_uint64. simpl.
  by rewrite !Z.lxor_0_r, !Z.lor_0_r.
Qed.

Lemma op_eq_spec a b : uint_ok a -> uint_ok b -> op_eq a b = (val a =? val b).
Proof.
  intros Ha Hb. unfold op_eq. destruct (Z.eqb_spec (val a) (val b)) as [E|Hne].
  - by apply bool_decide_eq_true, uint_ext.
  - apply bool_decide_eq_false. by intros ->.
Qed.

Lemma op_not_spec a : uint_ok a -> op_not a = (val a =? 0).
Proof.
  intros [_ Ha]. induction Ha as [|x a Hx Ha IH]; [done|]. unfold op_not in *. cbn [forallb val]. rewrite IH.
  pose proof (val_bound a Ha). unfold word in Hx.
  destruct (Z.eqb_spec x 0), (Z.eqb_spec (val a) 0), (Z.eqb_spec (x + 2 ^ 32 * val a) 0); cbn; lia.
Qed.

Lemma EqualTo_spec a b : uint_ok a -> word 64 b -> EqualTo a b = (val a =? b).
Proof.
  intros Ha Hb. destruct (of_uint64_spec b Hb) as [Hok E]. rewrite <- E at 2. rewrite <- op_eq_spec by done.
  destruct Ha as [(a0&a1&a2&a3&a4&a5&a6&a7&->)%eight _]. unfold EqualTo, op_eq, of_uint64, u32. simpl.
  rewrite low32, high32. rewrite (Z.mod_small (b / 2 ^ 32)) by (apply (carry_bound b 32); unfold word in Hb; lia).
  repeat match goal with |- context [?x =? ?y] => destruct (Z.eqb_spec x y); subst end; cbn;
    symmetry; first [by apply bool_decide_eq_true|apply bool_decide_eq_false; congruence].
Qed.

Lemma store_limbs l : limbs l -> concat (map (store_le 4) l) = store_le (4 * length l) (val l).
Proof.
  induction 1 as [|x l Hx Hl IH]; [done|]. cbn [map concat length val]. rewrite IH.
  replace (4 * S (length l))%nat with (4 + 4 * length l)%nat by lia. rewrite store_le_add. unfold word in Hx. f_equal.
  - apply store_le_ext. intros i Hi. rewrite <- (Z.mod_pow2_bits_low (x + _) 32) by lia.
    rewrite (Z.mul_comm (2 ^ 32)), Z.mod_add, Z.mod_small by lia. done.
  - f_equal. rewrite Z.shiftr_div_pow2 by lia. change (8 * Z.of_nat 4) with 32.
    rewrite (Z.mul_comm (2 ^ 32)), Z.div_add, Z.div_small by lia. lia.
Qed.

Definition load_limbs (n : nat) (b : list Z) : base_uint := map (fun x => load_le 4 (drop (x * 4) b)) (seq 0 n).

Lemma load_limbs_S n b : load_limbs (S n) b = load_le 4 b :: load_limbs n (drop 4 b).
Proof.
  unfold load_limbs. cbn [seq map Nat.mul drop]. f_equal. rewrite <- seq_shift, map_map. apply map_ext.
  intros x. by rewrite drop_drop.
Qed.

Lemma load_store_limbs n b :
  Forall byte b -> length b = (4 * n)%nat ->
  limbs (load_limbs n b) /\ concat (map (store_le 4) (load_limbs n b)) = b.
Proof.
  revert b. induction n as [|n IH]; intros b Hb Hl; [split; [constructor|by destruct b]|].
  rewrite load_limbs_S. cbn [map concat]. destruct (IH (drop 4 b)) as [H1 H2];
    [by apply Forall_drop|rewrite length_drop; lia|]. split.
  - apply Forall_cons_2; [|done]. apply (load_le_word 4); [done|lia].
  - rewrite H2. rewrite <- (load_le_take 4 4) by lia.
    rewrite store_le_load_le by (try apply Forall_take; rewrite ?length_take; done || lia). apply take_drop.
Qed.

(** Conversions to and from the byte array are inverse to each other and little-endian. *)
Lemma ArithToUint256_spec a :
  uint_ok a -> ArithToUint256 a = store_le 32 (val a) /\ UintToArith256 (ArithToUint256 a) = a.
Proof.
  intros [Hl Ha]. split; [unfold ArithToUint256; rewrite store_limbs, Hl by done; done|].
  destruct (eight a Hl) as (a0&a1&a2&a3&a4&a5&a6&a7&->).
  repeat (apply list.Forall_cons in Ha as [? Ha]). unfold UintToArith256, ArithToUint256.
  cbn [seq map WIDTH Nat.mul Nat.add drop concat store_le app].
  repeat (apply (f_equal2 cons); [by apply (load_le_store_le 4)|]). done.
Qed.

Lemma UintToArith256_spec b :
  Forall byte b -> length b = 32%nat ->
  uint_ok (UintToArith256 b) /\ ArithToUint256 (UintToArith256 b) = b /\ val (UintToArith256 b) = load_le 32 b.
Proof.
  intros Hb Hl. destruct (load_store_limbs 8 b Hb Hl) as [H1 H2].
  assert (uint_ok (UintToArith256 b)) as Hok by (split; done). split_and!; [done|done|].
  rewrite <- H2 at 2. change (load_limbs 8 b) with (UintToArith256 b).
  rewrite store_limbs by apply Hok. symmetry. apply (load_le_store_le 32). by apply val_ok.
Qed.

(** Multiplying an object by itself in place loses the value. *)
Lemma op_mul_self_zero a : length a = WIDTH -> op_mul_self a = zero_uint.
Proof.
  intros (a0&a1&a2&a3&a4&a5&a6&a7&->)%eight. unfold op_mul_self, zero_uint.
  assert (forall x, u64 (0 + 0 + x * 0) = 0) as H by (intros x; by rewrite Z.mul_0_r).
  cbn -[u64 Z.add Z.mul Z.land Z.shiftr]. rewrite !H. change (0 >> 32) with 0. change (0 .& 0xFFFFFFFF) with 0.
  repeat (cbn -[u64 Z.add Z.mul Z.land Z.shiftr]; rewrite H; change (0 >> 32) with 0; change (0 .& 0xFFFFFFFF) with 0).
  done.
Qed.

(** ** What the class promises *)

(** C35: On well-formed arrays the operators of [arith_uint256] are the integer operations
    modulo [2^256], keep the invariant and never read or write outside the array:
    addition, subtraction, negation, increment, decrement, both multiplications, both
    shifts, the bitwise operators, the comparisons and the number of bits. *)
Theorem arith_uint256_ops a b s x :
  uint_ok a -> uint_ok b -> 0 <= s -> word 32 x ->
  let computes r v := uint_ok r /\ val r = v mod 2 ^ 256 in
  computes (op_add a b) (val a + val b) /\ computes (op_sub a b) (val a - val b) /\
  computes (op_opp a) (- val a) /\ computes (op_incr a) (val a + 1) /\ computes (op_decr a) (val a - 1) /\
  computes (op_mul a b) (val a * val b) /\ computes (op_mul32 a x) (val a * x) /\
  computes (op_shl a s) (val a * 2 ^ s) /\ computes (op_shr a s) (val a / 2 ^ s) /\
  computes (op_compl a) (Z.lnot (val a)) /\ computes (op_xor a b) (Z.lxor (val a) (val b)) /\
  computes (op_and a b) (val a .& val b) /\ computes (op_or a b) (val a .| val b) /\
  CompareTo a b = sign (val a ?= val b) /\ op_eq a b = (val a =? val b) /\ op_not a = (val a =? 0) /\
  bits a = bitlen (val a) /\ GetLow64 a = val a mod 2 ^ 64.
Proof.
  intros Ha Hb Hs Hx computes.
  assert (forall r v, uint_ok r /\ val r = v -> computes r v) as Hc.
  { intros r v [H1 <-]. split; [done|]. by rewrite Z.mod_small by (by apply val_ok). }
  destruct (op_incr_spec a (proj2 Ha)) as (I1&I2&I3). destruct (op_decr_spec a (proj2 Ha)) as (D1&D2&D3).
  rewrite modulus_ok in I3, D3 by done. destruct (op_bitwise_spec a b Ha Hb) as (X&A&O).
  split; [by apply op_add_spec|]. split; [by apply op_sub_spec|]. split; [by apply op_opp_spec|].
  split; [split; [split; [rewrite I1; apply Ha|done]|done]|].
  split; [split; [split; [rewrite D1; apply Ha|done]|done]|].
  split; [by apply op_mul_spec|]. split; [by apply op_mul32_spec|]. split; [by apply op_shl_spec|].
  split; [by apply Hc, op_shr_spec|]. split.
  { pose proof (val_ok a Ha). destruct (op_compl_ok a Ha) as [H1 H2]. split; [done|]. rewrite H2. unfold Z.lnot.
    apply Z.mod_unique with (-1); lia. }
  do 3 (split; [by apply Hc|]).
  split; [by apply CompareTo_spec|]. split; [by apply op_eq_spec|]. split; [by apply op_not_spec|].
  split; [by apply bits_spec|by apply GetLow64_spec].
Qed.

Lemma arith_uint256_ops_witness :
  let a := of_uint64 (2 ^ 64 - 1) in
  uint_ok (op_add a a) /\ val (op_add a a) = (val a + val a) mod 2 ^ 256.
Proof.
  cbv zeta. pose proof (of_uint64_spec (2 ^ 64 - 1) ltac:(done)) as [H _].
  exact (proj1 (arith_uint256_ops (of_uint64 (2 ^ 64 - 1)) (of_uint64 (2 ^ 64 - 1)) 5 7 H H ltac:(lia) ltac:(done))).
Defined.

(** C36: Long division terminates within its [shift + 1] steps and returns the integer
    quotient; the error is raised exactly for a zero divisor. *)
Theorem arith_uint256_div a b :
  uint_ok a -> uint_ok b ->
  (val b = 0 -> op_div a b = None) /\
  (val b <> 0 -> exists q, op_div a b = Some q /\ uint_ok q /\ val q = val a / val b).
Proof.
  intros Ha Hb. pose proof (op_div_spec a b Ha Hb) as H. destruct (op_div a b) as [q|]; split; intros Hz.
  - by destruct H.
  - exists q. by destruct H as (_&H1&H2).
  - done.
  - done.
Qed.

Lemma arith_uint256_div_witness :
  exists q, op_div (of_uint64 1000) (of_uint64 7) = Some q /\ uint_ok q /\ val q = val (of_uint64 1000) / val (of_uint64 7).
Proof.
  apply (proj2 (arith_uint256_div (of_uint64 1000) (of_uint64 7)
    (proj1 (of_uint64_spec 1000 ltac:(done))) (proj1 (of_uint64_spec 7 ltac:(done))))).
  vm_compute. discriminate.
Defined.

(** [SetCompact] decodes [mantissa * 256^(exponent - 3)] exactly; the overflow flag is
    set if and only if that number does not fit in 256 bits, and the negative flag if and
    only if it is not zero and the sign bit is set. *)
Theorem compact_decode n :
  word 32 n ->
  let '(a, fNegative, fOverflow) := SetCompact n in
  uint_ok a /\ val a = compact_value n mod 2 ^ 256 /\
  (fOverflow = true <-> 2 ^ 256 <= compact_value n) /\
  (fNegative = true <-> compact_value n <> 0 /\ Z.testbit n 23 = true).
Proof.
  intros Hn. pose proof (SetCompact_spec n Hn) as H. destruct (SetCompact n) as [[a neg] ov].
  destruct H as (H1&H2&->&->). split; [done|]. split; [done|]. split; [by rewrite Z.leb_le|].
  rewrite andb_true_iff, negb_true_iff, Z.eqb_neq. done.
Qed.

Lemma compact_decode_witness :
  let '(a, fNegative, fOverflow) := SetCompact 0x1d00ffff in
  uint_ok a /\ val a = compact_value 0x1d00ffff mod 2 ^ 256 /\
  (fOverflow = true <-> 2 ^ 256 <= compact_value 0x1d00ffff) /\
  (fNegative = true <-> compact_value 0x1d00ffff <> 0 /\ Z.testbit 0x1d00ffff 23 = true).
Proof. apply (compact_decode 0x1d00ffff). done. Defined.

(** [GetCompact] never fails its assertions; [SetCompact] of its result gives back the
    sign, no overflow, and the number with every byte below its three leading ones
    cleared, so an error of less than one part in [2^15]. *)
Theorem compact_roundtrip a fNegative :
  uint_ok a ->
  exists n a', GetCompact a fNegative = Some n /\ word 32 n /\
    SetCompact n = (a', fNegative && negb (val a =? 0), false) /\ uint_ok a' /\
    (let k := Z.max 0 (compact_size (val a) - 3) in val a' = val a / 256 ^ k * 256 ^ k) /\
    val a' <= val a /\ (val a - val a') * 2 ^ 15 <= val a.
Proof.
  intros Ha. pose proof (val_ok a Ha) as Hv. set (v := val a) in *. set (neg := fNegative && negb (v =? 0)).
  set (n := compact_word v + compact_size v * 2 ^ 24 + (if neg then 2 ^ 23 else 0)).
  destruct (encode_sign v neg Hv) as [Hn Hb]. fold n in Hn, Hb.
  pose proof (compact_value_encode v neg Hv) as E. cbv zeta in E. fold n in E.
  pose proof (SetCompact_spec n Hn) as Hs. rewrite E, Hb in Hs.
  destruct (SetCompact n) as [[a' ng] ov] eqn:ES. exists n, a'. rewrite ES. destruct Hs as (H1&H2&H3&H4).
  set (k := Z.max 0 (compact_size v - 3)) in *. assert (0 < 256 ^ k) as Hk by lia.
  pose proof (Z.mod_pos_bound v (256 ^ k) Hk) as Hm. pose proof (Z.div_mod v (256 ^ k)) as Hd.
  assert (0 <= v / 256 ^ k) by (apply Z.div_pos; lia).
  rewrite Z.mod_small in H2 by lia. subst ng ov.
  rewrite (proj2 (Z.leb_gt _ _)) by lia.
  assert (negb (v / 256 ^ k * 256 ^ k =? 0) && neg = neg) as ->.
  { unfold neg. destruct (Z.eqb_spec v 0) as [->|Hne]; [by rewrite andb_false_r, andb_false_r|].
    pose proof (compact_word_bounds v ltac:(lia)) as Hw. unfold compact_word, leading in Hw.
    rewrite (proj2 (Z.eqb_neq _ 0)); [done|]. unfold k. destruct (Z.leb_spec (compact_size v) 3).
    - rewrite Z.max_l, Z.pow_0_r, Z.div_1_r by lia. lia.
    - rewrite Z.max_r by lia. assert (0 < 256 ^ (compact_size v - 3)) by lia. nia. }
  split; [by apply GetCompact_spec|]. split; [done|]. split; [done|]. split; [done|]. split; [done|].
  split; [lia|]. rewrite H2. replace (v - v / 256 ^ k * 256 ^ k) with (v mod 256 ^ k) by lia.
  destruct (decide (v = 0)) as [->|Hne]; [by rewrite Z.mod_0_l|].
  pose proof (compact_word_bounds v ltac:(lia)) as Hw. unfold compact_word, leading in Hw.
  unfold k in *. destruct (Z.leb_spec (compact_size v) 3).
  - rewrite Z.max_l, Z.pow_0_r, Z.mod_1_r by lia. lia.
  - rewrite Z.max_r in * by lia. nia.
Qed.

Lemma compact_roundtrip_witness :
  exists n a', GetCompact (of_uint64 0xc0de000000) false = Some n /\ word 32 n /\
    SetCompact n = (a', false && negb (val (of_uint64 0xc0de000000) =? 0), false) /\ uint_ok a' /\
    (let k := Z.max 0 (compact_size (val (of_uint64 0xc0de000000)) - 3) in
     val a' = val (of_uint64 0xc0de000000) / 256 ^ k * 256 ^ k) /\
    val a' <= val (of_uint64 0xc0de000000) /\
    (val (of_uint64 0xc0de000000) - val a') * 2 ^ 15 <= val (of_uint64 0xc0de000000).
Proof.
  apply (compact_roundtrip (of_uint64 0xc0de000000) false).
  exact (proj1 (of_uint64_spec 0xc0de000000 ltac:(done))).
Defined.

(** The examples of the header's comment. *)
Example compact_examples :
  GetCompact (of_uint64 0x1234560000) false = Some 0x05123456 /\
  GetCompact (of_uint64 0xc0de000000) false = Some 0x0600c0de /\
  GetCompact (fst (fst (SetCompact 0x1d00ffff))) false = Some 0x1d00ffff.
Proof. repeat split; vm_compute; reflexivity. Qed.

(** [SetUnsignedCompact] does not decode the compact format. *)
Example SetUnsignedCompact_differs :
  val (SetUnsignedCompact zero_uint 0x03123456) <> compact_value 0x03123456.
Proof. vm_compute. discriminate. Qed.
