(* ===== verification/BlockIndex.v ===== *)
(** * The block index: [src/src/chain.h], [src/src/chain.cpp]

    [CBlockIndex] entries live in a heap and point to each other with [pprev] and
    [pskip].  The file models the entry, its status flags, the skip list with
    [GetAncestor] and [BuildSkip], and the insertion of a header into the index
    ([AddToBlockIndex] of [main.cpp]).  The theorems are about heaps in which the
    pointers form a forest, an invariant the insertion keeps. *)

From S2P Require Import Prelude SphTypes ArithUint256.
From stdpp Require Export gmap.

#[local] Open Scope Z_scope.
#[local] Open Scope c_scope.

(** [int] results; overflow is undefined. *)
Definition int (x : Z) : option Z := if bool_decide (- 2 ^ 31 <= x < 2 ^ 31) then Some x else None.

Abbreviation uint256 := (list Z).

Definition uint256_null : uint256 := replicate 32 0.

(** ** [CBlockFileInfo] and [CDiskBlockPos] *)

Record CBlockFileInfo := mkFileInfo {
  nBlocks : Z; nSize : Z; nUndoSize : Z;
  nHeightFirst : Z; nHeightLast : Z; nTimeFirst : Z; nTimeLast : Z }.

Definition CBlockFileInfo_SetNull : CBlockFileInfo := mkFileInfo 0 0 0 0 0 0 0.

Definition AddBlock (f : CBlockFileInfo) (nHeightIn nTimeIn : Z) : CBlockFileInfo :=
  let hf := if (nBlocks f =? 0) || (nHeightFirst f >? nHeightIn) then nHeightIn else nHeightFirst f in
  let tf := if (nBlocks f =? 0) || (nTimeFirst f >? nTimeIn) then nTimeIn else nTimeFirst f in
  let n := u32 (nBlocks f + 1) in
  let hl := if nHeightIn >? nHeightLast f then nHeightIn else nHeightLast f in
  let tl := if nTimeIn >? nTimeLast f then nTimeIn else nTimeLast f in
  mkFileInfo n (nSize f) (nUndoSize f) hf hl tf tl.

Record CDiskBlockPos := mkPos { pos_nFile : Z; pos_nPos : Z }.

#[export] Instance CDiskBlockPos_eq_dec : EqDecision CDiskBlockPos.
Proof. solve_decision. Defined.

Definition CDiskBlockPos_SetNull : CDiskBlockPos := mkPos (-1) 0.
Definition CDiskBlockPos_IsNull (p : CDiskBlockPos) : bool := pos_nFile p =? -1.
Definition CDiskBlockPos_eq (a b : CDiskBlockPos) : bool :=
  (pos_nFile a =? pos_nFile b) && (pos_nPos a =? pos_nPos b).

(** ** [BlockStatus] *)

Definition BLOCK_VALID_UNKNOWN : Z := 0.
Definition BLOCK_VALID_HEADER : Z := 1.
Definition BLOCK_VALID_TREE : Z := 2.
Definition BLOCK_VALID_TRANSACTIONS : Z := 3.
Definition BLOCK_VALID_CHAIN : Z := 4.
Definition BLOCK_VALID_STAKE : Z := 5.
Definition BLOCK_VALID_SCRIPTS : Z := 6.
Definition BLOCK_VALID_MASK : Z :=
  BLOCK_VALID_HEADER .| BLOCK_VALID_TREE .| BLOCK_VALID_TRANSACTIONS .|
  BLOCK_VALID_CHAIN .| BLOCK_VALID_SCRIPTS .| BLOCK_VALID_STAKE.
Definition BLOCK_HAVE_DATA : Z := 8.
Definition BLOCK_HAVE_UNDO : Z := 16.
Definition BLOCK_HAVE_MASK : Z := BLOCK_HAVE_DATA .| BLOCK_HAVE_UNDO.
Definition BLOCK_FAILED_VALID : Z := 32.
Definition BLOCK_FAILED_CHILD : Z := 64.
Definition BLOCK_FAILED_MASK : Z := BLOCK_FAILED_VALID .| BLOCK_FAILED_CHILD.
Definition BLOCK_OPT_WITNESS : Z := 128.

Definition BLOCK_PROOF_OF_STAKE : Z := 0x01.
Definition BLOCK_STAKE_ENTROPY : Z := 0x02.
Definition BLOCK_STAKE_MODIFIER : Z := 0x04.

(** ** [CBlockHeader] and [CBlockIndex] *)

Record CBlockHeader := mkHeader {
  hdr_nVersion : Z; hdr_hashPrevBlock : uint256; hdr_hashMerkleRoot : uint256;
  hdr_nTime : Z; hdr_nBits : Z; hdr_nNonce : Z }.

(** A [CBlockIndex*] that is not null. *)
Abbreviation ptr := positive.

Record CBlockIndex := mkIndex {
  phashBlock : option uint256;
  pprev : option ptr; pnext : option ptr; pskip : option ptr;
  nHeight : Z;
  nFile : Z; nDataPos : Z; nUndoPos : Z;
  nChainWork : base_uint;
  nTx : Z; nChainTx : Z; nStatus : Z;
  nVersion : Z; hashMerkleRoot : uint256; nTime : Z; nBits : Z; nNonce : Z;
  nMint : Z; nMoneySupply : Z; nDividendFund : Z;
  strDZeel : list Z;
  nFlags : Z; nStakeModifier : Z;
  prevoutStake : uint256 * Z; nStakeTime : Z;
  hashProof : base_uint;
  nSequenceId : Z }.

(** The objects [CBlockIndex*] point to. *)
Abbreviation heap := (gmap ptr CBlockIndex).

(** Assignments to the fields. *)
Definition set_links (b : CBlockIndex) (hash : option uint256) (prev : option ptr) (height : Z) : CBlockIndex :=
  let '(mkIndex _ _ c d _ f g h i j k l m n o p q r s t dz u v w x y z) := b in
  mkIndex hash prev c d height f g h i j k l m n o p q r s t dz u v w x y z.
Definition set_pskip (b : CBlockIndex) (skip : option ptr) : CBlockIndex :=
  let '(mkIndex a b c _ e f g h i j k l m n o p q r s t dz u v w x y z) := b in
  mkIndex a b c skip e f g h i j k l m n o p q r s t dz u v w x y z.
Definition set_nChainWork (b : CBlockIndex) (work : base_uint) : CBlockIndex :=
  let '(mkIndex a b c d e f g h _ j k l m n o p q r s t dz u v w x y z) := b in
  mkIndex a b c d e f g h work j k l m n o p q r s t dz u v w x y z.
Definition set_nStatus (b : CBlockIndex) (status : Z) : CBlockIndex :=
  let '(mkIndex a b c d e f g h i j k _ m n o p q r s t dz u v w x y z) := b in
  mkIndex a b c d e f g h i j k status m n o p q r s t dz u v w x y z.
Definition set_nFlags (b : CBlockIndex) (flags : Z) : CBlockIndex :=
  let '(mkIndex a b c d e f g h i j k l m n o p q r s t dz _ v w x y z) := b in
  mkIndex a b c d e f g h i j k l m n o p q r s t dz flags v w x y z.
Definition set_nStakeModifier (b : CBlockIndex) (modifier : Z) : CBlockIndex :=
  let '(mkIndex a b c d e f g h i j k l m n o p q r s t dz u _ w x y z) := b in
  mkIndex a b c d e f g h i j k l m n o p q r s t dz u modifier w x y z.

(** [SetNull] on a fresh object; it leaves [strDZeel], an empty string by construction, and
    [nSequenceId] alone. *)
Definition CBlockIndex_SetNull : CBlockIndex :=
  mkIndex None None None None 0 0 0 0 zero_uint 0 0 0 0 uint256_null 0 0 0 0 0 0 [] 0 0
    (uint256_null, 0xFFFFFFFF) 0 zero_uint 0.

(** [CBlockIndex(const CBlockHeader&)] *)
Definition CBlockIndex_of_header (block : CBlockHeader) : CBlockIndex :=
  let '(mkIndex a b c d e f g h i j k l _ _ _ _ _ r s t dz u v w x y z) := CBlockIndex_SetNull in
  mkIndex a b c d e f g h i j k l
    (hdr_nVersion block) (hdr_hashMerkleRoot block) (hdr_nTime block) (hdr_nBits block) (hdr_nNonce block)
    r s t dz u v w x y z.

Definition GetBlockPos (b : CBlockIndex) : CDiskBlockPos :=
  if negb ((nStatus b .& BLOCK_HAVE_DATA) =? 0) then mkPos (nFile b) (nDataPos b) else CDiskBlockPos_SetNull.
Definition GetUndoPos (b : CBlockIndex) : CDiskBlockPos :=
  if negb ((nStatus b .& BLOCK_HAVE_UNDO) =? 0) then mkPos (nFile b) (nUndoPos b) else CDiskBlockPos_SetNull.

(** [None] when a null pointer is followed. *)
Definition GetBlockHeader (h : heap) (b : CBlockIndex) : option CBlockHeader :=
  prev ← match pprev b with
         | Some q => bq ← h !! q; phashBlock bq
         | None => Some uint256_null
         end;
  Some (mkHeader (nVersion b) prev (hashMerkleRoot b) (nTime b) (nBits b) (nNonce b)).

Definition GetBlockTime (b : CBlockIndex) : Z := nTime b.
Definition GetPastTimeLimit (b : CBlockIndex) : Z := GetBlockTime b - 120.

(** [IsValid] and [RaiseValidity]; [None] when the assertion fails. *)
Definition IsValid (b : CBlockIndex) (nUpTo : Z) : option bool :=
  if negb ((nUpTo .& u32 (Z.lnot BLOCK_VALID_MASK)) =? 0) then None
  else if negb ((nStatus b .& BLOCK_FAILED_MASK) =? 0) then Some false
  else Some ((nStatus b .& BLOCK_VALID_MASK) >=? nUpTo).

Definition RaiseValidity (b : CBlockIndex) (nUpTo : Z) : option (bool * CBlockIndex) :=
  if negb ((nUpTo .& u32 (Z.lnot BLOCK_VALID_MASK)) =? 0) then None
  else if negb ((nStatus b .& BLOCK_FAILED_MASK) =? 0) then Some (false, b)
  else if (nStatus b .& BLOCK_VALID_MASK) <? nUpTo
  then Some (true, set_nStatus b ((nStatus b .& u32 (Z.lnot BLOCK_VALID_MASK)) .| nUpTo))
  else Some (false, b).

Definition IsProofOfWork (b : CBlockIndex) : bool := (nFlags b .& BLOCK_PROOF_OF_STAKE) =? 0.
Definition IsProofOfStake (b : CBlockIndex) : bool := negb ((nFlags b .& BLOCK_PROOF_OF_STAKE) =? 0).
Definition SetProofOfStake (b : CBlockIndex) : CBlockIndex := set_nFlags b (nFlags b .| BLOCK_PROOF_OF_STAKE).
Definition GetStakeEntropyBit (b : CBlockIndex) : Z := (nFlags b .& BLOCK_STAKE_ENTROPY) >> 1.
Definition SetStakeEntropyBit (b : CBlockIndex) (nEntropyBit : Z) : bool * CBlockIndex :=
  if nEntropyBit >? 1 then (false, b)
  else (true, set_nFlags b (nFlags b .| (if negb (nEntropyBit =? 0) then BLOCK_STAKE_ENTROPY else 0))).
Definition SetStakeModifier (b : CBlockIndex) (nModifier : Z) (fGeneratedStakeModifier : bool) : CBlockIndex :=
  let b := set_nStakeModifier b nModifier in
  if fGeneratedStakeModifier then set_nFlags b (nFlags b .| BLOCK_STAKE_MODIFIER) else b.
Definition GeneratedStakeModifier (b : CBlockIndex) : bool := negb ((nFlags b .& BLOCK_STAKE_MODIFIER) =? 0).

(** ** The skip list *)

Definition InvertLowestOne (n : Z) : Z := n .& (n - 1).

Definition GetSkipHeight (height : Z) : Z :=
  if height <? 2 then 0
  else if negb ((height .& 1) =? 0) then InvertLowestOne (InvertLowestOne (height - 1)) + 1
  else InvertLowestOne height.

(** The loop of [GetAncestor]; [None] when the assertion fails, a pointer dangles or the
    fuel is used up. *)
Fixpoint GetAncestor_loop (fuel : nat) (h : heap) (pindexWalk : ptr) (heightWalk height : Z) : option ptr :=
  if heightWalk >? height then
    match fuel with
    | O => None
    | S fuel =>
      b ← h !! pindexWalk;
      let heightSkip := GetSkipHeight heightWalk in
      let heightSkipPrev := GetSkipHeight (heightWalk - 1) in
      let follow := (heightSkip =? height) ||
        ((heightSkip >? height) && negb ((heightSkipPrev <? heightSkip - 2) && (heightSkipPrev >=? height))) in
      match pskip b with
      | Some s =>
        if follow then GetAncestor_loop fuel h s heightSkip height
        else q ← pprev b; GetAncestor_loop fuel h q (heightWalk - 1) height
      | None => q ← pprev b; GetAncestor_loop fuel h q (heightWalk - 1) height
      end
    end
  else Some pindexWalk.

(** [GetAncestor]: the inner option is the null pointer.  Each step goes down by one at
    least, so the distance is enough fuel. *)
Definition GetAncestor (h : heap) (this : ptr) (height : Z) : option (option ptr) :=
  b ← h !! this;
  if (height >? nHeight b) || (height <? 0) then Some None
  else Some <$> GetAncestor_loop (Z.to_nat (nHeight b - height)) h this (nHeight b) height.

Definition BuildSkip (h : heap) (b : CBlockIndex) : option CBlockIndex :=
  match pprev b with
  | Some q => s ← GetAncestor h q (GetSkipHeight (nHeight b)); Some (set_pskip b s)
  | None => Some b
  end.

(** [GetLastBlockIndex] of [main.cpp]; the heap's size is enough fuel. *)
Fixpoint GetLastBlockIndex_loop (fuel : nat) (h : heap) (pindex : ptr) (fProofOfStake : bool) : option ptr :=
  b ← h !! pindex;
  match pprev b with
  | Some q =>
    if negb (eqb (IsProofOfStake b) fProofOfStake) then
      match fuel with
      | O => None
      | S fuel => GetLastBlockIndex_loop fuel h q fProofOfStake
      end
    else Some pindex
  | None => Some pindex
  end.

Definition GetLastBlockIndex (h : heap) (pindex : option ptr) (fProofOfStake : bool) : option (option ptr) :=
  match pindex with
  | Some p => b ← h !! p; Some <$> GetLastBlockIndex_loop (Z.to_nat (nHeight b)) h p fProofOfStake
  | None => Some None
  end.

(** ** Work *)

(** [GetBlockProof]; [None] is the exception of the division. *)
Definition GetBlockProof (b : CBlockIndex) : option base_uint :=
  let '(bnTarget, fNegative, fOverflow) := SetCompact (nBits b) in
  if fNegative || fOverflow || EqualTo bnTarget 0 then Some (of_uint64 0)
  else
    q ← op_div (op_compl bnTarget) (op_add bnTarget (of_uint64 1));
    Some (op_add q (of_uint64 1)).

(** [GetBlockTrust] *)
Definition GetBlockTrust (b : CBlockIndex) : option uint256 :=
  let '(bnTarget, _, _) := SetCompact (nBits b) in
  if op_le bnTarget (of_uint64 0) then Some uint256_null
  else q ← op_div (op_shl (of_uint64 1) 256) (op_add bnTarget (of_uint64 1)); Some (ArithToUint256 q).

(** A [uint64_t] converted to [int64_t]. *)
Definition to_int64 (x : Z) : Z := let x := u64 x in if x <? 2 ^ 63 then x else x - 2 ^ 64.

Definition GetBlockProofEquivalentTime (to from tip : CBlockIndex) (nPowTargetSpacing : Z) : option Z :=
  let '(r, sign) :=
    if op_gt (nChainWork to) (nChainWork from)
    then (op_sub (nChainWork to) (nChainWork from), 1)
    else (op_sub (nChainWork from) (nChainWork to), -1) in
  d ← GetBlockProof tip;
  r ← op_div (op_mul r (of_uint64 (u64 nPowTargetSpacing))) d;
  if bits r >? 63 then Some (sign * (2 ^ 63 - 1))
  else Some (to_int64 (u64 sign * GetLow64 r)).

(** ** Insertion *)

(** The globals [AddToBlockIndex] uses: the objects, the map by hash, the best header and
    the entries to write. *)
Record index_state := mkIndexState {
  st_heap : heap;
  mapBlockIndex : gmap uint256 ptr;
  pindexBestHeader : option ptr;
  setDirtyBlockIndex : gset ptr }.

Section insertion.
(** [CBlockHeader::GetHash] and the address [new] returns. *)
Context (GetHash : CBlockHeader -> uint256).

Definition AddToBlockIndex (st : index_state) (block : CBlockHeader) (new : ptr) : option (ptr * index_state) :=
  let hash := GetHash block in
  match mapBlockIndex st !! hash with
  | Some p => Some (p, st)
  | None =>
    let b := set_links (CBlockIndex_of_header block) (Some hash) None 0 in
    let m := <[hash := new]> (mapBlockIndex st) in
    let h := <[new := b]> (st_heap st) in
    b ← match m !! hdr_hashPrevBlock block with
        | Some q =>
          bq ← h !! q;
          height ← int (nHeight bq + 1);
          let b := set_links b (Some hash) (Some q) height in
          BuildSkip (<[new := b]> h) b
        | None => Some b
        end;
    let h := <[new := b]> h in
    prevWork ← match pprev b with
               | Some q => nChainWork <$> h !! q
               | None => Some (of_uint64 0)
               end;
    proof ← GetBlockProof b;
    let b := set_nChainWork b (op_add prevWork proof) in
    let h := <[new := b]> h in
    best ← match pindexBestHeader st with
           | None => Some new
           | Some t => bt ← h !! t; Some (if op_lt (nChainWork bt) (nChainWork b) then new else t)
           end;
    '(_, b) ← RaiseValidity b BLOCK_VALID_TREE;
    Some (new, mkIndexState (<[new := b]> h) m (Some best) ({[new]} ∪ setDirtyBlockIndex st))
  end.
End insertion.

(** ** Walking back *)

(** [n] steps along [pprev]. *)
Fixpoint back (h : heap) (n : nat) (p : ptr) : option ptr :=
  match n with
  | O => Some p
  | S n => b ← h !! p; q ← pprev b; back h n q
  end.

(** The pointers form a forest: heights count the ancestors, and a skip pointer leads to
    the ancestor at [GetSkipHeight]. *)
Definition prev_ok (h : heap) (b : CBlockIndex) : Prop :=
  match pprev b with
  | None => nHeight b = 0
  | Some q => exists bq, h !! q = Some bq /\ nHeight b = nHeight bq + 1
  end.

Definition skip_ok (h : heap) (p : ptr) (b : CBlockIndex) : Prop :=
  match pskip b with
  | None => True
  | Some s => back h (Z.to_nat (nHeight b - GetSkipHeight (nHeight b))) p = Some s
  end.

Definition block_ok (h : heap) (p : ptr) (b : CBlockIndex) : Prop :=
  0 <= nHeight b < 2 ^ 31 /\ prev_ok h b /\ skip_ok h p b.

Definition index_ok (h : heap) : Prop := map_Forall (block_ok h) h.

Lemma back_add h m n p : back h (m + n) p = back h m p ≫= back h n.
Proof.
  revert p. induction m as [|m IH]; intros p; [done|]. cbn [back Nat.add].
  destruct (h !! p) as [b|]; [|done]. cbn. destruct (pprev b) as [q|]; [|done]. cbn. apply IH.
Qed.

(** Down to height 0 every step is possible. *)
Lemma back_ok h n p b :
  index_ok h -> h !! p = Some b -> Z.of_nat n <= nHeight b ->
  exists q bq, back h n p = Some q /\ h !! q = Some bq /\ nHeight bq = nHeight b - Z.of_nat n.
Proof.
  intros Hok. revert p b. induction n as [|n IH]; intros p b Hp Hn.
  { exists p, b. split_and!; [done|done|lia]. }
  cbn [back]. rewrite Hp. cbn. destruct (Hok p b Hp) as (_&Hprev&_). unfold prev_ok in Hprev.
  destruct (pprev b) as [q|]; [|lia]. destruct Hprev as (bq&Hq&E). cbn.
  destruct (IH q bq Hq ltac:(lia)) as (r&br&H1&H2&H3). exists r, br. split_and!; [done|done|lia].
Qed.

(** ** The heights skip pointers lead to *)

Lemma land_le_r a b : 0 <= b -> 0 <= a .& b <= b.
Proof.
  intros Hb. split; [apply Z.land_nonneg; by right|].
  rewrite Z.land_comm. pose proof (Z.lor_ldiff_and b a) as E.
  pose proof (Z.add_lor_land (Z.ldiff b a) (b .& a)) as E2. rewrite E in E2.
  assert (0 <= Z.ldiff b a) by (apply Z.ldiff_nonneg; by left).
  assert (Z.ldiff b a .& (b .& a) = 0) as E3.
  { apply Z.bits_inj'. intros i _. rewrite !Z.land_spec, Z.ldiff_spec, Z.testbit_0_l. btauto. }
  lia.
Qed.

Lemma InvertLowestOne_bound n : 0 <= n -> 0 <= InvertLowestOne n <= Z.max 0 (n - 1).
Proof.
  intros Hn. unfold InvertLowestOne. destruct (decide (n = 0)) as [->|]; [done|].
  pose proof (land_le_r n (n - 1) ltac:(lia)). lia.
Qed.

Lemma GetSkipHeight_bound n : 0 < n -> 0 <= GetSkipHeight n < n.
Proof.
  intros Hn. unfold GetSkipHeight. destruct (Z.ltb_spec n 2); [lia|].
  pose proof (InvertLowestOne_bound n ltac:(lia)).
  pose proof (InvertLowestOne_bound (n - 1) ltac:(lia)) as H1.
  pose proof (InvertLowestOne_bound (InvertLowestOne (n - 1)) ltac:(lia)). destruct (negb _); lia.
Qed.

(** ** [GetAncestor] *)

Lemma back_split h (x y z : Z) p :
  z <= y <= x -> back h (Z.to_nat (x - z)) p = back h (Z.to_nat (x - y)) p ≫= back h (Z.to_nat (y - z)).
Proof. intros H. rewrite <- back_add. f_equal. lia. Qed.

Lemma GetAncestor_loop_spec fuel h p b height :
  index_ok h -> h !! p = Some b -> 0 <= height <= nHeight b -> (Z.to_nat (nHeight b - height) <= fuel)%nat ->
  GetAncestor_loop fuel h p (nHeight b) height = back h (Z.to_nat (nHeight b - height)) p.
Proof.
  intros Hok. revert p b. induction fuel as [|fuel IH]; intros p b Hp Hh Hf; cbn [GetAncestor_loop];
    rewrite Z.gtb_ltb; destruct (Z.ltb_spec height (nHeight b)) as [Hlt|Hge]; try lia;
    try (by replace (Z.to_nat (nHeight b - height)) with O by lia).
  rewrite Hp. cbn. destruct (Hok p b Hp) as (_&Hprev&Hskip). unfold prev_ok in Hprev.
  assert ((q ← pprev b; GetAncestor_loop fuel h q (nHeight b - 1) height) =
          back h (Z.to_nat (nHeight b - height)) p) as Hback.
  { destruct (pprev b) as [q|] eqn:Eq; [|lia]. destruct Hprev as (bq&Hq&E). cbn.
    replace (nHeight b - 1) with (nHeight bq) by lia. rewrite (IH q bq Hq) by lia.
    replace (Z.to_nat (nHeight b - height)) with (S (Z.to_nat (nHeight bq - height))) by lia.
    cbn [back]. by rewrite Hp; cbn; rewrite Eq. }
  unfold skip_ok in Hskip. destruct (pskip b) as [s|]; [|done].
  destruct ((GetSkipHeight (nHeight b) =? height) || _) eqn:Efollow; [|done].
  pose proof (GetSkipHeight_bound (nHeight b) ltac:(lia)) as Hs.
  assert (height <= GetSkipHeight (nHeight b)) as Hle.
  { apply orb_true_iff in Efollow as [E%Z.eqb_eq|[E%Z.gtb_lt _]%andb_true_iff]; lia. }
  destruct (back_ok h (Z.to_nat (nHeight b - GetSkipHeight (nHeight b))) p b Hok Hp ltac:(lia))
    as (s'&bs&Es&Hs'&Ehs).
  rewrite Hskip in Es. injection Es as <-. replace (GetSkipHeight (nHeight b)) with (nHeight bs) in * by lia.
  rewrite (IH s bs Hs') by lia. rewrite (back_split h (nHeight b) (nHeight bs) height) by lia. by rewrite Hskip.
Qed.

(** The ancestor at a height, by definition. *)
Definition ancestor (h : heap) (p : ptr) (height : Z) : option ptr :=
  b ← h !! p;
  if bool_decide (0 <= height <= nHeight b) then back h (Z.to_nat (nHeight b - height)) p else None.

Lemma GetAncestor_spec h p b height :
  index_ok h -> h !! p = Some b -> GetAncestor h p height = Some (ancestor h p height).
Proof.
  intros Hok Hp. unfold GetAncestor, ancestor. rewrite Hp. cbn.
  destruct (decide (0 <= height <= nHeight b)) as [Hh|Hh].
  - rewrite bool_decide_true by done. rewrite Z.gtb_ltb, (proj2 (Z.ltb_ge _ _)), (proj2 (Z.ltb_ge _ _)) by lia. cbn.
    rewrite GetAncestor_loop_spec by (done || lia).
    destruct (back_ok h (Z.to_nat (nHeight b - height)) p b Hok Hp ltac:(lia)) as (q&_&->&_). done.
  - rewrite bool_decide_false by done. rewrite Z.gtb_ltb.
    destruct (Z.ltb_spec (nHeight b) height), (Z.ltb_spec height 0); done || lia.
Qed.

Lemma ancestor_ok h p b height :
  index_ok h -> h !! p = Some b -> 0 <= height <= nHeight b ->
  exists q bq, ancestor h p height = Some q /\ h !! q = Some bq /\ nHeight bq = height.
Proof.
  intros Hok Hp Hh. unfold ancestor. rewrite Hp. cbn. rewrite bool_decide_true by done.
  destruct (back_ok h (Z.to_nat (nHeight b - height)) p b Hok Hp ltac:(lia)) as (q&bq&H1&H2&H3).
  exists q, bq. split_and!; [done|done|lia].
Qed.

(** ** Work *)

(** A compact number is below [2^23] or a multiple of 256. *)
Lemma compact_value_shape n : word 32 n -> 0 <= compact_value n /\ (compact_value n < 2 ^ 23 \/ compact_value n mod 256 = 0).
Proof.
  intros Hn. unfold compact_value. pose proof (Z.mod_pos_bound n (2 ^ 23) ltac:(lia)) as Hm.
  set (m := n mod 2 ^ 23) in *. destruct (Z.leb_spec (n / 2 ^ 24) 3).
  - assert (0 <= n / 2 ^ 24) by (apply Z.div_pos; unfold word in Hn; lia).
    assert (0 < 256 ^ (3 - n / 2 ^ 24)) by lia. split; [apply Z.div_pos; lia|left].
    apply Z.le_lt_trans with m; [apply Z.div_le_upper_bound; nia|lia].
  - split; [apply Z.mul_nonneg_nonneg; [lia|apply Z.pow_nonneg; lia]|right].
    replace (n / 2 ^ 24 - 3) with (n / 2 ^ 24 - 4 + 1) by lia. rewrite Z.pow_add_r by lia.
    rewrite Z.mul_assoc. apply Z.mod_mul. lia.
Qed.

(** The target a compact word sets is never the largest number. *)
Lemma target_succ n :
  word 32 n -> let '(a, _, _) := SetCompact n in
  uint_ok a /\ uint_ok (op_add a (of_uint64 1)) /\ val (op_add a (of_uint64 1)) = val a + 1.
Proof.
  intros Hn. pose proof (SetCompact_spec n Hn) as H. destruct (SetCompact n) as [[a neg] ov].
  destruct H as (Ha&Ev&_). destruct (of_uint64_spec 1 ltac:(done)) as [H1 E1].
  destruct (op_add_spec a (of_uint64 1) Ha H1) as [Hok E]. split; [done|]. split; [done|].
  rewrite E, E1. apply Z.mod_small. pose proof (val_ok a Ha) as Hv. split; [lia|].
  destruct (decide (val a = 2 ^ 256 - 1)) as [Emax|]; [exfalso|lia].
  destruct (compact_value_shape n Hn) as [H0 [Hlt|Hm]].
  - rewrite Z.mod_small in Ev by lia. lia.
  - assert (val a mod 256 = 0) as Hz.
    { rewrite Ev. change (2 ^ 256) with (256 * 2 ^ 248). rewrite Z.rem_mul_r by lia. rewrite Hm.
      rewrite Z.add_0_l, Z.mul_comm. apply Z.mod_mul. lia. }
    rewrite Emax in Hz. vm_compute in Hz. discriminate.
Qed.

(** The expected number of hashes for a target; 0 for one that is not valid. *)
Definition proof_value (n : Z) : Z :=
  let t := compact_value n in
  if (t =? 0) || Z.testbit n 23 || (2 ^ 256 <=? t) then 0 else 2 ^ 256 / (t + 1).

Lemma GetBlockProof_spec b :
  word 32 (nBits b) ->
  exists w, GetBlockProof b = Some w /\ uint_ok w /\ val w = proof_value (nBits b).
Proof.
  intros Hn. unfold GetBlockProof, proof_value. pose proof (SetCompact_spec _ Hn) as H.
  pose proof (target_succ _ Hn) as Hs. destruct (SetCompact (nBits b)) as [[a neg] ov].
  destruct H as (Ha&Ev&->&->), Hs as (_&Hs&Es). rewrite EqualTo_spec by done.
  destruct (compact_value_shape _ Hn) as [Hnn _]. set (t := compact_value (nBits b)) in *.
  destruct (of_uint64_spec 0 ltac:(done)) as [H0 E0]. destruct (of_uint64_spec 1 ltac:(done)) as [H1 E1].
  destruct (Z.eqb_spec t 0) as [Et|Ht].
  { rewrite Et in *. rewrite Z.mod_0_l in Ev by lia. rewrite Ev. exists (of_uint64 0). by rewrite !orb_true_r. }
  destruct (Z.testbit (nBits b) 23); [by exists (of_uint64 0)|].
  destruct (Z.leb_spec (2 ^ 256) t); [by exists (of_uint64 0)|]. cbn [negb andb orb].
  rewrite Z.mod_small in Ev by lia. rewrite (proj2 (Z.eqb_neq (val a) 0)) by lia.
  destruct (op_compl_ok a Ha) as [Hc Ec].
  pose proof (op_div_spec (op_compl a) (op_add a (of_uint64 1)) Hc Hs) as Hd.
  destruct (op_div _ _) as [q|]; [|lia]. destruct Hd as (_&Hq&Eq). cbn.
  destruct (op_add_spec q (of_uint64 1) Hq H1) as [Hok E]. exists (op_add q (of_uint64 1)).
  split; [done|]. split; [done|]. rewrite E, E1, Eq, Ec, Es, Ev.
  assert ((2 ^ 256 - 1 - t) / (t + 1) + 1 = 2 ^ 256 / (t + 1)) as ->.
  { rewrite <- Z.div_add by lia. f_equal. lia. }
  apply Z.mod_small. split; [apply Z.div_pos; lia|apply Z.div_lt; lia].
Qed.

Lemma GetBlockTrust_zero b : word 32 (nBits b) -> GetBlockTrust b = Some uint256_null.
Proof.
  intros Hn. unfold GetBlockTrust. pose proof (target_succ _ Hn) as Hs.
  destruct (SetCompact (nBits b)) as [[a neg] ov]. destruct Hs as (Ha&Hs&Es). pose proof (val_ok a Ha).
  destruct (op_le a _); [done|]. destruct (of_uint64_spec 1 ltac:(done)) as [H1 E1].
  destruct (op_shl_spec (of_uint64 1) 256 H1 ltac:(lia)) as [Hsh Esh].
  pose proof (op_div_spec (op_shl (of_uint64 1) 256) (op_add a (of_uint64 1)) Hsh Hs) as Hd.
  destruct (op_div _ _) as [q|]; [|lia]. destruct Hd as (_&Hq&Eq). cbn. f_equal.
  rewrite (proj1 (ArithToUint256_spec q Hq)), Eq, Esh, E1. rewrite Z.mul_1_l, Z.mod_same, Z.div_0_l by lia. done.
Qed.

(** [GetBlockProofEquivalentTime]: the work difference in time units of the tip's proof,
    capped at the largest [int64_t]. *)
Lemma GetBlockProofEquivalentTime_spec to from tip spacing :
  uint_ok (nChainWork to) -> uint_ok (nChainWork from) -> word 32 (nBits tip) -> 0 <= spacing < 2 ^ 63 ->
  proof_value (nBits tip) <> 0 ->
  Z.abs (val (nChainWork to) - val (nChainWork from)) * spacing < 2 ^ 256 ->
  let d := val (nChainWork to) - val (nChainWork from) in
  GetBlockProofEquivalentTime to from tip spacing =
  Some (Z.sgn d * Z.min (2 ^ 63 - 1) (Z.abs d * spacing / proof_value (nBits tip))).
Proof.
  intros Hto Hfr Hn Hsp Hp Hov d. unfold GetBlockProofEquivalentTime.
  pose proof (val_ok _ Hto). pose proof (val_ok _ Hfr).
  destruct (op_cmp_spec _ _ Hto Hfr) as (->&_).
  assert (exists r, uint_ok r /\ val r = Z.abs d /\
    (if val (nChainWork from) <? val (nChainWork to)
     then (op_sub (nChainWork to) (nChainWork from), 1) else (op_sub (nChainWork from) (nChainWork to), -1)) =
    (r, if 0 <? d then 1 else -1)) as (r&Hr&Er&->).
  { destruct (Z.ltb_spec (val (nChainWork from)) (val (nChainWork to))).
    - destruct (op_sub_spec _ _ Hto Hfr) as [Hsb Esb]. eexists. split; [exact Hsb|].
      rewrite Z.mod_small in Esb by lia. split; [unfold d; lia|].
      by rewrite (proj2 (Z.ltb_lt 0 d)) by (unfold d; lia).
    - destruct (op_sub_spec _ _ Hfr Hto) as [Hsb Esb]. eexists. split; [exact Hsb|].
      rewrite Z.mod_small in Esb by lia. split; [unfold d; lia|].
      by rewrite (proj2 (Z.ltb_ge 0 d)) by (unfold d; lia). }
  destruct (GetBlockProof_spec tip Hn) as (w&->&Hw&Ew). cbn [mbind option_bind].
  rewrite (u64_small spacing) by lia. destruct (of_uint64_spec spacing ltac:(unfold word; lia)) as [Hs Es].
  destruct (op_mul_spec r _ Hr Hs) as [Hm Em].
  rewrite Er, Es, Z.mod_small in Em by (fold d in Hov; nia).
  pose proof (op_div_spec _ w Hm Hw) as Hd. destruct (op_div _ w) as [q|]; [|congruence].
  destruct Hd as (_&Hq&Eq). cbn [mbind option_bind]. rewrite Em, Ew in Eq. rewrite <- Eq. pose proof (val_ok q Hq) as Hqv.
  assert (d = 0 -> val q = 0) as Hd0 by (intros Ez; rewrite Eq, Ez; apply Z.div_0_l; done).
  rewrite bits_spec, Z.gtb_ltb by done. destruct (Z.ltb_spec 63 (bitlen (val q))) as [Hbig|Hsmall].
  - assert (2 ^ 63 <= val q) as Hge by (apply Z.nlt_ge; intros Hc; apply bitlen_le in Hc; lia).
    rewrite Z.min_l by lia. f_equal. destruct (Z.ltb_spec 0 d); [lia|].
    assert (d <> 0); [|lia]. intros Ez%Hd0. lia.
  - apply bitlen_le in Hsmall; [|lia..]. rewrite Z.min_r by lia. f_equal.
    rewrite GetLow64_spec, Z.mod_small by (done || lia). unfold to_int64, u64.
    destruct (Z.ltb_spec 0 d).
    + rewrite (Z.mod_small 1), Z.mul_1_l, Z.mod_small by lia. rewrite (proj2 (Z.ltb_lt _ _)) by lia. lia.
    + rewrite Zmult_mod_idemp_l. destruct (decide (val q = 0)) as [E0|Hne].
      { by rewrite E0, !Z.mul_0_r. }
      assert (d <> 0) by (by intros Ez%Hd0).
      replace ((-1 * val q) mod 2 ^ 64) with (2 ^ 64 - val q) by (apply Z.mod_unique with (-1); lia).
      rewrite (proj2 (Z.ltb_ge _ _)) by lia. lia.
Qed.

(** ** Insertion keeps the index well formed *)

Lemma back_insert h new b p bp n :
  index_ok h -> h !! new = None -> h !! p = Some bp -> back (<[new := b]> h) n p = back h n p.
Proof.
  intros Hok Hn. revert p bp. induction n as [|n IH]; intros p bp Hp; [done|]. cbn [back].
  rewrite lookup_insert_ne by congruence. rewrite Hp. cbn. destruct (Hok p bp Hp) as (_&Hprev&_).
  unfold prev_ok in Hprev. destruct (pprev bp) as [q|]; [|done]. destruct Hprev as (bq&Hq&_). by apply (IH q bq).
Qed.

Lemma prev_ok_mono h h' b : h ⊆ h' -> prev_ok h b -> prev_ok h' b.
Proof.
  intros Hsub. unfold prev_ok. destruct (pprev b) as [q|]; [|done]. intros (bq&Hq&E). exists bq.
  split; [by eapply lookup_weaken|done].
Qed.

Lemma index_insert h new b :
  index_ok h -> h !! new = None -> block_ok (<[new := b]> h) new b -> index_ok (<[new := b]> h).
Proof.
  intros Hok Hn Hb p bp Hp. destruct (decide (p = new)) as [->|Hne].
  - rewrite lookup_insert_eq in Hp. by injection Hp as <-.
  - rewrite lookup_insert_ne in Hp by done. destruct (Hok p bp Hp) as (H1&H2&H3). split; [done|]. split.
    + apply (prev_ok_mono h); [by apply insert_subseteq|done].
    + unfold skip_ok in *. destruct (pskip bp); [|done]. by rewrite (back_insert h new b p bp).
Qed.

(** Work of the parent. *)
Definition prev_work (h : heap) (b : CBlockIndex) : Z :=
  match pprev b with Some q => from_option (fun bq => val (nChainWork bq)) 0 (h !! q) | None => 0 end.

Definition work_ok (h : heap) (b : CBlockIndex) : Prop :=
  word 32 (nBits b) /\ word 32 (nTime b) /\ uint_ok (nChainWork b) /\
  val (nChainWork b) = (prev_work h b + proof_value (nBits b)) mod 2 ^ 256.

(** The best header has the most work. *)
Definition best_ok (h : heap) (best : option ptr) : Prop :=
  match best with
  | None => h = ∅
  | Some t => exists bt, h !! t = Some bt /\ map_Forall (fun _ b => val (nChainWork b) <= val (nChainWork bt)) h
  end.

Record state_ok (st : index_state) : Prop := {
  ok_index : index_ok (st_heap st);
  ok_work : map_Forall (fun _ => work_ok (st_heap st)) (st_heap st);
  ok_hash : map_Forall (fun _ b => is_Some (phashBlock b)) (st_heap st);
  ok_map : forall hash p, mapBlockIndex st !! hash = Some p <->
             exists b, st_heap st !! p = Some b /\ phashBlock b = Some hash;
  ok_best : best_ok (st_heap st) (pindexBestHeader st) }.

(** The entry [AddToBlockIndex] makes. *)
Definition new_entry (block : CBlockHeader) (hash : uint256) (prev skip : option ptr) (height : Z)
    (work : base_uint) (status : Z) : CBlockIndex :=
  set_nStatus (set_nChainWork (set_pskip (set_links (CBlockIndex_of_header block) (Some hash) prev height) skip) work)
    status.

Lemma RaiseValidity_new b :
  nStatus b = 0 -> RaiseValidity b BLOCK_VALID_TREE = Some (true, set_nStatus b BLOCK_VALID_TREE).
Proof. intros E. unfold RaiseValidity. rewrite E. reflexivity. Qed.

Ltac entry_cbn := cbn -[GetAncestor insert lookup GetBlockProof RaiseValidity op_lt op_add zero_uint of_uint64 int] in *.

(** What it computes once the parent's pointer, height and work are known. *)
Lemma AddToBlockIndex_new GetHash st block new prev height skip prevWork proof best :
  let hash := GetHash block in
  let e skip work := new_entry block hash prev skip height work 0 in
  let h work := <[new := e skip work]> (st_heap st) in
  mapBlockIndex st !! hash = None ->
  <[hash := new]> (mapBlockIndex st) !! hdr_hashPrevBlock block = prev ->
  match prev with
  | Some q => exists bq, <[new := e None zero_uint]> (st_heap st) !! q = Some bq /\ q <> new /\
      int (nHeight bq + 1) = Some height /\ nChainWork bq = prevWork /\
      GetAncestor (<[new := e None zero_uint]> (st_heap st)) q (GetSkipHeight height) = Some skip
  | None => height = 0 /\ skip = None /\ prevWork = of_uint64 0
  end ->
  GetBlockProof (e skip zero_uint) = Some proof ->
  let w := op_add prevWork proof in
  match pindexBestHeader st with
  | None => best = new
  | Some t => exists bt, h w !! t = Some bt /\ best = if op_lt (nChainWork bt) w then new else t
  end ->
  AddToBlockIndex GetHash st block new =
  Some (new, mkIndexState (<[new := new_entry block hash prev skip height w BLOCK_VALID_TREE]> (st_heap st))
               (<[hash := new]> (mapBlockIndex st)) (Some best) ({[new]} ∪ setDirtyBlockIndex st)).
Proof.
  cbv zeta. intros Hm Hprev Hp Hproof Hbest. unfold AddToBlockIndex. rewrite Hm, Hprev. cbv zeta.
  destruct prev as [q|].
  - destruct Hp as (bq&Hq&Hne&Hh&<-&Ha). rewrite lookup_insert_ne in Hq by done.
    rewrite lookup_insert_ne, Hq by done. cbn [mbind option_bind]. rewrite Hh. cbn [mbind option_bind].
    rewrite insert_insert_eq. unfold BuildSkip. entry_cbn. rewrite Ha. entry_cbn. rewrite !insert_insert_eq.
    rewrite lookup_insert_ne, Hq by done. entry_cbn. rewrite Hproof. entry_cbn. rewrite !insert_insert_eq.
    destruct (pindexBestHeader st) as [t|]; [destruct Hbest as (bt&->&->)|subst best];
      entry_cbn; rewrite RaiseValidity_new by done; entry_cbn; by rewrite !insert_insert_eq.
  - destruct Hp as (->&->&->). entry_cbn. rewrite Hproof. entry_cbn. rewrite !insert_insert_eq.
    destruct (pindexBestHeader st) as [t|]; [destruct Hbest as (bt&->&->)|subst best];
      entry_cbn; rewrite RaiseValidity_new by done; entry_cbn; by rewrite !insert_insert_eq.
Qed.

(** The new entry is linked to its parent, at the next height, with the skip pointer that
    [GetAncestor] computes. *)
Lemma new_entry_skip h new block hash q bq work status :
  index_ok h -> h !! new = None -> h !! q = Some bq -> nHeight bq + 1 < 2 ^ 31 ->
  let height := nHeight bq + 1 in
  let skip := ancestor h q (GetSkipHeight height) in
  let e skip := new_entry block hash (Some q) skip height work status in
  GetAncestor (<[new := e None]> h) q (GetSkipHeight height) = Some skip /\ index_ok (<[new := e skip]> h).
Proof.
  intros Hok Hn Hq Hh height skip e. destruct (Hok q bq Hq) as (Hqh&_&_). assert (q <> new) as Hne by congruence.
  assert (forall skip, prev_ok (<[new := e skip]> h) (e skip)) as Hp.
  { intros s. exists bq. split; [by rewrite lookup_insert_ne|done]. }
  assert (index_ok (<[new := e None]> h)) as Hok0.
  { apply index_insert; [done|done|]. split; [cbn; lia|]. split; [apply Hp|done]. }
  assert (<[new := e None]> h !! q = Some bq) as Hq0 by (by rewrite lookup_insert_ne).
  pose proof (GetSkipHeight_bound height ltac:(lia)) as Hs.
  assert (ancestor (<[new := e None]> h) q (GetSkipHeight height) = skip) as Ea.
  { unfold skip, ancestor. rewrite Hq0, Hq. cbn -[back]. by rewrite (back_insert h new _ q bq). }
  rewrite (GetAncestor_spec _ q bq), Ea by done. split; [done|].
  apply index_insert; [done|done|]. split; [cbn; lia|]. split; [apply Hp|]. unfold skip_ok. cbn -[GetSkipHeight back skip].
  unfold skip. destruct (ancestor_ok h q bq (GetSkipHeight height) Hok Hq ltac:(lia)) as (s&_&Es&_). rewrite Es.
  fold height. replace (Z.to_nat (height - GetSkipHeight height))
    with (S (Z.to_nat (nHeight bq - GetSkipHeight height))) by lia.
  cbn [back]. rewrite lookup_insert_eq. cbn -[back]. rewrite (back_insert h new _ q bq) by done.
  unfold ancestor in Es. rewrite Hq in Es. cbn -[back] in Es. by rewrite bool_decide_true in Es by lia.
Qed.

(** A root. *)
Lemma new_entry_root h new block hash work status :
  index_ok h -> h !! new = None -> index_ok (<[new := new_entry block hash None None 0 work status]> h).
Proof. intros Hok Hn. apply index_insert; [done|done|]. split; [cbn; lia|]. by split. Qed.

Lemma prev_work_insert h new e b :
  h !! new = None -> prev_ok h b -> prev_work (<[new := e]> h) b = prev_work h b.
Proof.
  intros Hn Hp. unfold prev_ok, prev_work in *. destruct (pprev b) as [q|]; [|done]. destruct Hp as (bq&Hq&_).
  by rewrite lookup_insert_ne by congruence.
Qed.

(** The other parts of the invariant. *)
Lemma state_insert st new e best hash dirty :
  state_ok st -> st_heap st !! new = None -> mapBlockIndex st !! hash = None ->
  let h := <[new := e]> (st_heap st) in
  index_ok h -> work_ok h e -> phashBlock e = Some hash ->
  match pindexBestHeader st with
  | None => best = new
  | Some t => exists bt, h !! t = Some bt /\ best = if op_lt (nChainWork bt) (nChainWork e) then new else t
  end ->
  state_ok (mkIndexState h (<[hash := new]> (mapBlockIndex st)) (Some best) dirty).
Proof.
  intros [Hi Hw Hs Hm Hb] Hn Hh h Hok Hwe He Hbest. split; cbn [st_heap mapBlockIndex pindexBestHeader].
  - done.
  - apply map_Forall_insert; [done|]. split; [done|]. intros p b Hp. destruct (Hw p b Hp) as (H1&H2&H3&H4).
    do 3 (split; [done|]). unfold h. rewrite prev_work_insert; [done|done|]. apply (Hi p b Hp).
  - apply map_Forall_insert; [done|]. split; [by rewrite He|done].
  - intros hash' p. unfold h. destruct (decide (hash' = hash)) as [->|Hne].
    + rewrite lookup_insert_eq. split.
      * intros [= <-]. exists e. by rewrite lookup_insert_eq.
      * intros (b&Hp&Hph). destruct (decide (p = new)) as [->|Hne']; [done|].
        rewrite lookup_insert_ne in Hp by done.
        assert (mapBlockIndex st !! hash = Some p) by (apply Hm; by exists b). congruence.
    + rewrite lookup_insert_ne by done. rewrite Hm. split; intros (b&Hp&Hph); exists b; split; try done.
      * by rewrite lookup_insert_ne by congruence.
      * destruct (decide (p = new)) as [->|Hne']; [|by rewrite lookup_insert_ne in Hp].
        rewrite lookup_insert_eq in Hp. congruence.
  - unfold best_ok in *. destruct (pindexBestHeader st) as [t|].
    + destruct Hbest as (bt&Ht&->), Hb as (bt'&Ht'&Hmax). assert (t <> new) as Hne by congruence.
      unfold h in Ht. rewrite lookup_insert_ne in Ht by done. rewrite Ht in Ht'. injection Ht' as <-.
      destruct (op_cmp_spec (nChainWork bt) (nChainWork e)) as (_&->&_); [apply (Hw t bt Ht)|apply Hwe|].
      unfold h. destruct (Z.ltb_spec (val (nChainWork bt)) (val (nChainWork e))).
      * exists e. rewrite lookup_insert_eq. split; [done|]. apply map_Forall_insert; [done|]. split; [lia|].
        intros p b Hp. specialize (Hmax p b Hp). cbn in Hmax. lia.
      * exists bt. rewrite lookup_insert_ne by done. split; [done|]. by apply map_Forall_insert.
    + subst best. exists e. unfold h. rewrite lookup_insert_eq. split; [done|]. rewrite Hb.
      intros p b. rewrite insert_empty, lookup_singleton_Some. by intros [-> ->].
Qed.

(** What the caller of [AddToBlockIndex] provides: a fresh address, a header whose words
    have their width and that is not its own parent, and a parent below the last height
    an [int] can count. *)
Record add_pre (GetHash : CBlockHeader -> uint256) (st : index_state) (block : CBlockHeader) (new : ptr) : Prop := {
  pre_fresh : st_heap st !! new = None;
  pre_bits : word 32 (hdr_nBits block);
  pre_time : word 32 (hdr_nTime block);
  pre_parent : hdr_hashPrevBlock block <> GetHash block;
  pre_height : forall q bq, mapBlockIndex st !! hdr_hashPrevBlock block = Some q -> st_heap st !! q = Some bq ->
                 nHeight bq + 1 < 2 ^ 31 }.

Lemma best_choice st new w :
  state_ok st -> st_heap st !! new = None ->
  exists best, forall e, nChainWork e = w -> match pindexBestHeader st with
  | None => best = new
  | Some t => exists bt, <[new := e]> (st_heap st) !! t = Some bt /\ best = if op_lt (nChainWork bt) w then new else t
  end.
Proof.
  intros [_ _ _ _ Hb] Hn. unfold best_ok in Hb. destruct (pindexBestHeader st) as [t|]; [|by exists new].
  destruct Hb as (bt&Ht&_). eexists. intros e _. exists bt. rewrite lookup_insert_ne by congruence. done.
Qed.

(** Parent, height, skip pointer and work of the parent of a new entry. *)
Lemma parent_entry st block hash new :
  let h := st_heap st in
  let prev := mapBlockIndex st !! hdr_hashPrevBlock block in
  state_ok st -> h !! new = None ->
  (forall q bq, prev = Some q -> h !! q = Some bq -> nHeight bq + 1 < 2 ^ 31) ->
  exists height skip prevWork, uint_ok prevWork /\
    (forall e, pprev e = prev -> prev_work (<[new := e]> h) e = val prevWork) /\
    (forall work status, index_ok (<[new := new_entry block hash prev skip height work status]> h)) /\
    match prev with
    | Some q => exists bq, <[new := new_entry block hash prev None height zero_uint 0]> h !! q = Some bq /\ q <> new /\
        int (nHeight bq + 1) = Some height /\ nChainWork bq = prevWork /\
        GetAncestor (<[new := new_entry block hash prev None height zero_uint 0]> h) q (GetSkipHeight height) = Some skip
    | None => height = 0 /\ skip = None /\ prevWork = of_uint64 0
    end.
Proof.
  intros h prev Hst Hn Hheight. destruct prev as [q|] eqn:Eprev.
  - destruct (proj1 (ok_map st Hst _ _) Eprev) as (bq&Hq&_). fold h in Hq.
    specialize (Hheight q bq eq_refl Hq). assert (q <> new) as Hne by congruence.
    pose proof (fun work status => new_entry_skip h new block hash q bq work status (ok_index st Hst) Hn Hq Hheight) as Hs.
    exists (nHeight bq + 1), (ancestor h q (GetSkipHeight (nHeight bq + 1))), (nChainWork bq).
    split; [apply (ok_work st Hst q bq Hq)|]. split.
    { intros e E. unfold prev_work. rewrite E, lookup_insert_ne, Hq by done. done. }
    split; [intros work status; apply Hs|]. exists bq. rewrite lookup_insert_ne by done. split; [done|]. split; [done|].
    split; [|split; [done|apply Hs]]. unfold int. rewrite bool_decide_true; [done|].
    destruct (ok_index st Hst q bq Hq) as (?&_). lia.
  - exists 0, None, (of_uint64 0). destruct (of_uint64_spec 0 ltac:(done)) as [H0 E0]. split; [done|]. split.
    { intros e E. unfold prev_work. by rewrite E, E0. }
    split; [|done]. intros work status. apply new_entry_root; [apply (ok_index st Hst)|done].
Qed.

(** A header that is new is inserted below its parent. *)
Lemma AddToBlockIndex_spec GetHash st block new :
  state_ok st -> add_pre GetHash st block new -> mapBlockIndex st !! GetHash block = None ->
  exists st' e, AddToBlockIndex GetHash st block new = Some (new, st') /\ state_ok st' /\
    st_heap st' = <[new := e]> (st_heap st) /\ phashBlock e = Some (GetHash block) /\
    pprev e = mapBlockIndex st !! hdr_hashPrevBlock block /\
    nVersion e = hdr_nVersion block /\ hashMerkleRoot e = hdr_hashMerkleRoot block /\ nTime e = hdr_nTime block /\
    nBits e = hdr_nBits block /\ nNonce e = hdr_nNonce block.
Proof.
  intros Hst [Hn Hbits Htime Hself Hheight] Hm. set (hash := GetHash block) in *. set (h := st_heap st) in *.
  destruct (parent_entry st block hash new Hst Hn Hheight) as (height&skip&prevWork&Hpw&Epw&Hidx&Hparent).
  fold h in Epw, Hidx, Hparent. set (prev := mapBlockIndex st !! hdr_hashPrevBlock block) in *.
  destruct (GetBlockProof_spec (new_entry block hash prev skip height zero_uint 0) Hbits) as (proof&Eproof&Hproof&Evp).
  destruct (op_add_spec prevWork proof Hpw Hproof) as [Hw Ew].
  set (e := new_entry block hash prev skip height (op_add prevWork proof) BLOCK_VALID_TREE).
  destruct (best_choice st new (op_add prevWork proof) Hst Hn) as (best&Hbest).
  exists (mkIndexState (<[new := e]> h) (<[hash := new]> (mapBlockIndex st)) (Some best)
            ({[new]} ∪ setDirtyBlockIndex st)), e.
  split.
  { apply (AddToBlockIndex_new GetHash st block new prev height skip prevWork proof best); try done.
    - by rewrite lookup_insert_ne by done.
    - by apply Hbest. }
  split; [|done]. apply (state_insert st new e best hash); try done.
  - apply Hidx.
  - split; [exact Hbits|]. split; [exact Htime|]. split; [exact Hw|]. fold h. rewrite (Epw e eq_refl). cbn -[op_add val proof_value]. by rewrite Ew, Evp.
  - by apply (Hbest e).
Qed.

(** ** Sequences of insertions *)

Definition add_preb (GetHash : CBlockHeader -> uint256) (st : index_state) (block : CBlockHeader) (new : ptr) : bool :=
  bool_decide (st_heap st !! new = None) && bool_decide (word 32 (hdr_nBits block)) &&
  bool_decide (word 32 (hdr_nTime block)) &&
  bool_decide (hdr_hashPrevBlock block <> GetHash block) &&
  match mapBlockIndex st !! hdr_hashPrevBlock block ≫= (fun q => st_heap st !! q) with
  | Some bq => nHeight bq + 1 <? 2 ^ 31
  | None => true
  end.

Lemma add_preb_pre GetHash st block new : add_preb GetHash st block new = true -> add_pre GetHash st block new.
Proof.
  unfold add_preb. rewrite !andb_true_iff, !bool_decide_eq_true. intros [[[[H1 H2] Ht] H3] H4]. split; try done.
  intros q bq Hm Hq. rewrite Hm in H4. cbn in H4. rewrite Hq in H4. by apply Z.ltb_lt.
Qed.

Definition empty_index : index_state := mkIndexState ∅ ∅ None ∅.

Lemma empty_index_ok : state_ok empty_index.
Proof.
  split; [apply map_Forall_empty..| |done]. intros hash p. split.
  - cbn. by rewrite lookup_empty.
  - cbn. intros (b&H&_). by rewrite lookup_empty in H.
Qed.

(** Headers inserted one after the other, at the given addresses. *)
Fixpoint add_headers (GetHash : CBlockHeader -> uint256) (st : index_state) (l : list (CBlockHeader * ptr))
    : option index_state :=
  match l with
  | [] => Some st
  | (block, new) :: l =>
    if add_preb GetHash st block new
    then '(_, st) ← AddToBlockIndex GetHash st block new; add_headers GetHash st l
    else None
  end.

Lemma AddToBlockIndex_ok GetHash st block new p st' :
  state_ok st -> add_pre GetHash st block new -> AddToBlockIndex GetHash st block new = Some (p, st') -> state_ok st'.
Proof.
  intros Hst Hpre E. destruct (mapBlockIndex st !! GetHash block) as [q|] eqn:Em.
  - unfold AddToBlockIndex in E. rewrite Em in E. congruence.
  - destruct (AddToBlockIndex_spec GetHash st block new Hst Hpre Em) as (st''&e&E'&H&_). congruence.
Qed.

Lemma add_headers_ok GetHash st l st' : state_ok st -> add_headers GetHash st l = Some st' -> state_ok st'.
Proof.
  revert st. induction l as [|[block new] l IH]; intros st Hst E; cbn in E; [congruence|].
  destruct (add_preb GetHash st block new) eqn:Hpre; [|done].
  destruct (AddToBlockIndex GetHash st block new) as [[p st1]|] eqn:E1; [|done]. cbn in E.
  apply (IH st1); [|done]. eapply AddToBlockIndex_ok; [exact Hst|by apply add_preb_pre|exact E1].
Qed.

(** A small index: a chain of seven blocks and a fork of two. *)
Module Sample.
Definition hash_of (block : CBlockHeader) : uint256 := store_le 32 (hdr_nNonce block + 1).
Definition header (nonce prev : Z) : CBlockHeader :=
  mkHeader 1 (store_le 32 prev) uint256_null (1000 + nonce) 0x207fffff nonce.
Definition headers : list (CBlockHeader * ptr) :=
  [(header 0 0, 1%positive); (header 1 1, 2%positive); (header 2 2, 3%positive); (header 3 3, 4%positive);
   (header 4 4, 5%positive); (header 5 5, 6%positive); (header 6 6, 7%positive);
   (header 7 4, 8%positive); (header 8 8, 9%positive)].
Definition index : index_state := default empty_index (add_headers hash_of empty_index headers).
Definition block (p : ptr) : CBlockIndex := default CBlockIndex_SetNull (st_heap index !! p).
End Sample.

Lemma sample_ok : state_ok Sample.index.
Proof.
  unfold Sample.index. destruct (add_headers _ _ _) as [st|] eqn:E; [|exact empty_index_ok].
  exact (add_headers_ok _ _ _ _ empty_index_ok E).
Qed.

Example sample_heights :
  map (fun p => nHeight (Sample.block p)) [1; 2; 3; 4; 5; 6; 7; 8; 9]%positive = [0; 1; 2; 3; 4; 5; 6; 4; 5] /\
  map (fun p => pskip (Sample.block p)) [7; 8; 9]%positive = [Some 5; Some 1; Some 2]%positive.
Proof. vm_compute. done. Qed.

(** ** What the index promises *)

(** C29: In a well-formed index [GetAncestor] follows skip pointers to the very entry that
    [nHeight - height] steps along [pprev] lead to, and returns the null pointer for a
    height outside the chain.  It never fails its assertion, never follows a dangling
    pointer, and ends within that number of steps. *)
Theorem get_ancestor_is_walk h p b height :
  index_ok h -> h !! p = Some b ->
  (0 <= height <= nHeight b -> exists q bq, GetAncestor h p height = Some (Some q) /\
     back h (Z.to_nat (nHeight b - height)) p = Some q /\ h !! q = Some bq /\ nHeight bq = height) /\
  (height < 0 \/ nHeight b < height -> GetAncestor h p height = Some None).
Proof.
  intros Hok Hp. rewrite (GetAncestor_spec h p b) by done. unfold ancestor. rewrite Hp. cbn -[back]. split; intros Hh.
  - destruct (ancestor_ok h p b height Hok Hp Hh) as (q&bq&Ha&Hq&E). unfold ancestor in Ha. rewrite Hp in Ha.
    cbn -[back] in Ha. rewrite bool_decide_true in * by done. exists q, bq. by rewrite Ha.
  - by rewrite bool_decide_false by lia.
Qed.

(** C5: Inserting a header keeps the invariant of the block index: heights count the
    ancestors, skip pointers lead to the ancestors [GetAncestor] expects, the work of an
    entry is that of its parent plus its own proof, the map by hash is exactly the set
    of entries, and the best header has the most work.  A known header leaves the state
    as it is; a new one adds one entry whose header can be read back. *)
Theorem add_to_block_index GetHash st block new :
  state_ok st -> add_pre GetHash st block new ->
  exists p st' b, AddToBlockIndex GetHash st block new = Some (p, st') /\ state_ok st' /\
    st_heap st ⊆ st_heap st' /\ st_heap st' !! p = Some b /\ phashBlock b = Some (GetHash block) /\
    (is_Some (mapBlockIndex st !! GetHash block) -> st' = st) /\
    (mapBlockIndex st !! GetHash block = None ->
     is_Some (mapBlockIndex st !! hdr_hashPrevBlock block) \/ hdr_hashPrevBlock block = uint256_null /\
       mapBlockIndex st !! hdr_hashPrevBlock block = None ->
     GetBlockHeader (st_heap st') b = Some block).
Proof.
  intros Hst Hpre. destruct (mapBlockIndex st !! GetHash block) as [p|] eqn:Em.
  - destruct (proj1 (ok_map st Hst _ _) Em) as (b&Hb&Hh). exists p, st, b.
    split; [unfold AddToBlockIndex; by rewrite Em|]. by split_and!.
  - destruct (AddToBlockIndex_spec GetHash st block new Hst Hpre Em) as (st'&e&E&Hst'&Eh&Hh&Hp&E1&E2&E3&E4&E5).
    exists new, st', e. split; [done|]. split; [done|]. rewrite Eh.
    split; [by apply insert_subseteq, Hpre|]. split; [by rewrite lookup_insert_eq|]. split; [done|].
    split; [by intros [? ?]|]. intros _ Hparent. unfold GetBlockHeader. rewrite Hp, E1, E2, E3, E4, E5.
    destruct Hparent as [[q Hq]|[Hnull Hnone]].
    + rewrite Hq. destruct (proj1 (ok_map st Hst _ _) Hq) as (bq&Hbq&Hphq).
      rewrite lookup_insert_ne by (intros ->; rewrite (pre_fresh _ _ _ _ Hpre) in Hbq; done).
      rewrite Hbq. cbn. rewrite Hphq. cbn. by destruct block.
    + rewrite Hnone. cbn [mbind option_bind]. rewrite <- Hnull. by destruct block.
Qed.

(** The work of a block is [2^256 / (target + 1)], and 0 for a target that is
    negative, zero or too large; no division by zero and no overflow occurs. *)
Theorem block_proof_is_expected_work b :
  word 32 (nBits b) ->
  exists w, GetBlockProof b = Some w /\ uint_ok w /\
    let t := compact_value (nBits b) in
    (t = 0 \/ Z.testbit (nBits b) 23 = true \/ 2 ^ 256 <= t -> val w = 0) /\
    (0 < t < 2 ^ 256 -> Z.testbit (nBits b) 23 = false -> val w = 2 ^ 256 / (t + 1)).
Proof.
  intros Hn. destruct (GetBlockProof_spec b Hn) as (w&E&Hw&Ev). exists w. split; [done|]. split; [done|].
  cbv zeta. rewrite Ev. unfold proof_value. split.
  - intros [->|[->|H]]; [done|by rewrite orb_true_r|]. rewrite (proj2 (Z.leb_le _ _) H). by rewrite !orb_true_r.
  - intros Ht ->. by rewrite (proj2 (Z.eqb_neq _ 0)), (proj2 (Z.leb_gt _ _)) by lia.
Qed.

Lemma get_ancestor_is_walk_witness :
  exists q bq, GetAncestor (st_heap Sample.index) 9 1 = Some (Some q) /\
    back (st_heap Sample.index) (Z.to_nat (nHeight (Sample.block 9) - 1)) 9 = Some q /\
    st_heap Sample.index !! q = Some bq /\ nHeight bq = 1.
Proof.
  apply (get_ancestor_is_walk (st_heap Sample.index) 9 (Sample.block 9) 1); [apply sample_ok|vm_compute; reflexivity|].
  vm_compute. split; discriminate.
Defined.

Lemma add_to_block_index_witness :
  let block := Sample.header 9 9 in
  exists p st' b, AddToBlockIndex Sample.hash_of Sample.index block 10 = Some (p, st') /\ state_ok st' /\
    st_heap Sample.index ⊆ st_heap st' /\ st_heap st' !! p = Some b /\ phashBlock b = Some (Sample.hash_of block) /\
    (is_Some (mapBlockIndex Sample.index !! Sample.hash_of block) -> st' = Sample.index) /\
    (mapBlockIndex Sample.index !! Sample.hash_of block = None ->
     is_Some (mapBlockIndex Sample.index !! hdr_hashPrevBlock block) \/ hdr_hashPrevBlock block = uint256_null /\
       mapBlockIndex Sample.index !! hdr_hashPrevBlock block = None ->
     GetBlockHeader (st_heap st') b = Some block).
Proof.
  apply (add_to_block_index Sample.hash_of Sample.index (Sample.header 9 9) 10); [exact sample_ok|].
  apply add_preb_pre. vm_compute. reflexivity.
Defined.

Lemma block_proof_is_expected_work_witness :
  exists w, GetBlockProof (Sample.block 9) = Some w /\ uint_ok w /\
    let t := compact_value (nBits (Sample.block 9)) in
    (t = 0 \/ Z.testbit (nBits (Sample.block 9)) 23 = true \/ 2 ^ 256 <= t -> val w = 0) /\
    (0 < t < 2 ^ 256 -> Z.testbit (nBits (Sample.block 9)) 23 = false -> val w = 2 ^ 256 / (t + 1)).
Proof. apply (block_proof_is_expected_work (Sample.block 9)). vm_compute. split; [discriminate|reflexivity]. Defined.
