(* ===== verification/Chain.v ===== *)
(** * The active chain: [CChain] of [src/src/chain.h] and [src/src/chain.cpp]

    The vector of block pointers indexed by height, with [SetTip], [FindFork] and
    [GetLocator], and the median time of [CBlockIndex].  The refinement is against the
    list of the ancestors of the tip. *)

From S2P Require Import Prelude SphTypes ArithUint256 BlockIndex.
From stdpp Require Import sorting.

#[local] Open Scope Z_scope.
#[local] Open Scope c_scope.

(** [std::vector<CBlockIndex*> vChain] *)
Abbreviation CChain := (list (option ptr)).

(** [vChain[i]] within the vector's size. *)
Definition Genesis (vChain : CChain) : option ptr := if (0 <? length vChain)%nat then vChain !!! 0%nat else None.
Definition Tip (vChain : CChain) : option ptr :=
  if (0 <? length vChain)%nat then vChain !!! (length vChain - 1)%nat else None.

(** [operator[]] *)
Definition at_height (vChain : CChain) (nHeight : Z) : option ptr :=
  if (nHeight <? 0) || (nHeight >=? Z.of_nat (length vChain)) then None else vChain !!! Z.to_nat nHeight.

(** [operator==]; [None] when an empty vector is indexed. *)
Definition chain_eq (a b : CChain) : option bool :=
  if (length a =? length b)%nat then
    x ← a !! (length a - 1)%nat; y ← b !! (length b - 1)%nat; Some (bool_decide (x = y))
  else Some false.

(** The outer option is a dangling pointer. *)
Definition Contains (h : heap) (vChain : CChain) (pindex : option ptr) : option bool :=
  match pindex with
  | None => Some false
  | Some p => b ← h !! p; Some (bool_decide (at_height vChain (nHeight b) = Some p))
  end.

Definition Next (h : heap) (vChain : CChain) (pindex : option ptr) : option (option ptr) :=
  c ← Contains h vChain pindex;
  if c : bool then p ← pindex; b ← h !! p; height ← int (nHeight b + 1); Some (at_height vChain height)
  else Some None.

Definition Height (vChain : CChain) : Z := Z.of_nat (length vChain) - 1.

(** [while (pindex && vChain[pindex->nHeight] != pindex)]; [None] when the index is outside
    the vector.  Heights go down, so the height plus two is enough fuel. *)
Fixpoint SetTip_loop (fuel : nat) (h : heap) (vChain : CChain) (pindex : option ptr) : option CChain :=
  match pindex with
  | None => Some vChain
  | Some p =>
    match fuel with
    | O => None
    | S fuel =>
      b ← h !! p;
      if 0 <=? nHeight b then
        e ← vChain !! Z.to_nat (nHeight b);
        if bool_decide (e = Some p) then Some vChain
        else SetTip_loop fuel h (<[Z.to_nat (nHeight b) := Some p]> vChain) (pprev b)
      else None
    end
  end.

Definition SetTip (h : heap) (vChain : CChain) (pindex : option ptr) : option CChain :=
  match pindex with
  | None => Some []
  | Some p =>
    b ← h !! p;
    size ← int (nHeight b + 1);
    SetTip_loop (Z.to_nat (nHeight b) + 2) h (resize (Z.to_nat size) None vChain) (Some p)
  end.

(** [while (pindex && !Contains(pindex)) pindex = pindex->pprev] *)
Fixpoint FindFork_loop (fuel : nat) (h : heap) (vChain : CChain) (pindex : option ptr) : option (option ptr) :=
  match pindex with
  | None => Some None
  | Some p =>
    c ← Contains h vChain (Some p);
    if c : bool then Some (Some p)
    else
      match fuel with
      | O => None
      | S fuel => b ← h !! p; FindFork_loop fuel h vChain (pprev b)
      end
  end.

Definition FindFork (h : heap) (vChain : CChain) (pindex : option ptr) : option (option ptr) :=
  match pindex with
  | None => Some None
  | Some p =>
    b ← h !! p;
    pindex ← if nHeight b >? Height vChain then GetAncestor h p (Height vChain) else Some (Some p);
    FindFork_loop (Z.to_nat (nHeight b) + 1) h vChain pindex
  end.

(** [GetLocator]: the hashes pushed so far are [vHave]. *)
Fixpoint GetLocator_loop (fuel : nat) (h : heap) (vChain : CChain) (pindex : option ptr) (nStep : Z)
    (vHave : list uint256) : option (list uint256) :=
  match pindex with
  | None => Some vHave
  | Some p =>
    match fuel with
    | O => None
    | S fuel =>
      b ← h !! p;
      hash ← phashBlock b;
      let vHave := vHave ++ [hash] in
      if nHeight b =? 0 then Some vHave
      else
        let height := Z.max (nHeight b - nStep) 0 in
        c ← Contains h vChain (Some p);
        pindex ← if c : bool then Some (at_height vChain height) else GetAncestor h p height;
        nStep ← if (10 <? length vHave)%nat then int (nStep * 2) else Some nStep;
        GetLocator_loop fuel h vChain pindex nStep vHave
    end
  end.

Definition GetLocator (h : heap) (vChain : CChain) (pindex : option ptr) : option (list uint256) :=
  let pindex := match pindex with None => Tip vChain | _ => pindex end in
  match pindex with
  | None => Some []
  | Some p => b ← h !! p; GetLocator_loop (Z.to_nat (nHeight b) + 1) h vChain (Some p) 1 []
  end.

(** ** Median time *)

Definition nMedianTimeSpan : nat := 11.

(** The times of up to [n] blocks, the given one first. *)
Fixpoint past_times (h : heap) (n : nat) (pindex : option ptr) : option (list Z) :=
  match n, pindex with
  | S n, Some p => b ← h !! p; ts ← past_times h n (pprev b); Some (GetBlockTime b :: ts)
  | _, _ => Some []
  end.

(** [*(--pbegin)] fills the array from its end, so that it holds the times oldest first. *)
Definition GetMedianTimePast (h : heap) (p : ptr) : option Z :=
  ts ← past_times h nMedianTimeSpan (Some p);
  merge_sort Z.le (rev ts) !! (length ts / 2)%nat.

(** ** The chain of a block *)

(** The ancestors of [p], from height 0 on. *)
Definition chain_of (h : heap) (p : ptr) (n : nat) : CChain := map (fun i => back h (n - i) p) (seq 0 (S n)).

(** The vector is empty or the chain of some block. *)
Definition chain_ok (h : heap) (vChain : CChain) : Prop :=
  vChain = [] \/ exists p b, h !! p = Some b /\ vChain = chain_of h p (Z.to_nat (nHeight b)).

Section chains.
Context (h : heap) (Hok : index_ok h).

(** [p] is an entry of height [n]. *)
Definition at_ (p : ptr) (n : nat) : Prop := exists b, h !! p = Some b /\ nHeight b = Z.of_nat n.

Lemma at_intro p b : h !! p = Some b -> at_ p (Z.to_nat (nHeight b)).
Proof. intros H. exists b. split; [done|]. destruct (Hok p b H) as (?&_). lia. Qed.

Lemma at_inj p n m : at_ p n -> at_ p m -> n = m.
Proof. intros (b&H1&H2) (b'&H3&H4). rewrite H1 in H3. injection H3 as <-. lia. Qed.

Lemma back_at p n k : at_ p n -> (k <= n)%nat -> exists q, back h k p = Some q /\ at_ q (n - k).
Proof.
  intros (b&Hp&Hn) Hk. destruct (back_ok h k p b Hok Hp ltac:(lia)) as (q&bq&H1&H2&H3).
  exists q. split; [done|]. exists bq. split; [done|lia].
Qed.

Lemma length_chain_of p n : length (chain_of h p n) = S n.
Proof. unfold chain_of. by rewrite length_map, length_seq. Qed.

Lemma chain_of_lookup p n i : (i <= n)%nat -> chain_of h p n !! i = Some (back h (n - i) p).
Proof.
  intros Hi. unfold chain_of. change (map ?f) with (fmap (M := list) f).
  by rewrite list_lookup_fmap, lookup_seq_lt by lia.
Qed.

Lemma chain_of_at_height p n i : (i <= n)%nat -> at_height (chain_of h p n) (Z.of_nat i) = back h (n - i) p.
Proof.
  intros Hi. unfold at_height. rewrite length_chain_of, Z.geb_leb, (proj2 (Z.ltb_ge _ _)), (proj2 (Z.leb_gt _ _)) by lia.
  cbn [orb]. rewrite Nat2Z.id. apply list_lookup_total_correct. by apply chain_of_lookup.
Qed.

(** The chain up to an ancestor is the ancestor's chain. *)
Lemma take_chain_of p n i q : (i <= n)%nat -> back h (n - i) p = Some q -> take (S i) (chain_of h p n) = chain_of h q i.
Proof.
  intros Hi Hb. apply list_eq. intros j. destruct (decide (j <= i)%nat) as [Hj|Hj].
  - rewrite lookup_take_lt, !chain_of_lookup by lia. f_equal.
    replace (n - j)%nat with ((n - i) + (i - j))%nat by lia. by rewrite back_add, Hb.
  - rewrite lookup_take_ge by lia. symmetry. apply lookup_ge_None_2. rewrite length_chain_of. lia.
Qed.

(** In the vector a block's position tells the blocks before it. *)
Definition prefix_ok (v : CChain) : Prop := forall i x, v !! i = Some (Some x) -> take (S i) v = chain_of h x i.

Lemma chain_ok_prefix v : chain_ok h v -> prefix_ok v.
Proof.
  intros [->|(p&b&Hp&->)] i x Hi; [done|]. pose proof (lookup_lt_Some _ _ _ Hi) as Hl. rewrite length_chain_of in Hl.
  rewrite chain_of_lookup in Hi by lia. injection Hi as Hi. apply take_chain_of; [lia|done].
Qed.

Lemma resize_prefix v n : prefix_ok v -> prefix_ok (resize n None v).
Proof.
  intros Hv i x Hi. assert (i < length v)%nat as Hl.
  { apply Nat.nle_gt. intros Hge. pose proof (lookup_lt_Some _ _ _ Hi) as Hn. rewrite length_resize in Hn.
    rewrite lookup_resize_new in Hi by lia. congruence. }
  pose proof (lookup_lt_Some _ _ _ Hi) as Hn. rewrite length_resize in Hn.
  rewrite lookup_resize in Hi by lia. rewrite <- (Hv i x Hi). by rewrite take_resize_le, resize_le by lia.
Qed.

Lemma SetTip_loop_spec fuel v0 tip n k q :
  at_ tip n -> prefix_ok v0 -> length v0 = S n -> (k <= n)%nat -> back h (n - k) tip = Some q -> (k < fuel)%nat ->
  SetTip_loop fuel h (take (S k) v0 ++ drop (S k) (chain_of h tip n)) (Some q) = Some (chain_of h tip n).
Proof.
  intros Ht Hpre Hlen. revert k q. induction fuel as [|fuel IH]; intros k q Hk Hq Hf; [lia|].
  destruct (back_at tip n (n - k) Ht ltac:(lia)) as (q'&Eq&Hat). rewrite Hq in Eq. injection Eq as <-.
  replace (n - (n - k))%nat with k in Hat by lia. destruct Hat as (b&Hb&Hh). cbn [SetTip_loop]. rewrite Hb. cbn [mbind option_bind].
  rewrite (proj2 (Z.leb_le 0 _)) by lia. rewrite Hh, Nat2Z.id.
  assert (length (take (S k) v0) = S k) as Hlt by (rewrite length_take; lia).
  rewrite lookup_app_l, lookup_take_lt by lia. destruct (lookup_lt_is_Some_2 v0 k ltac:(lia)) as [e He]. rewrite He.
  cbn [mbind option_bind]. case_bool_decide as Hc.
  - subst e. rewrite (Hpre k q He), <- (take_chain_of tip n k q) by done. by rewrite take_drop.
  - rewrite insert_app_l by lia.
    assert (<[k := Some q]> (take (S k) v0) ++ drop (S k) (chain_of h tip n) = take k v0 ++ drop k (chain_of h tip n)) as ->.
    { rewrite (take_S_r v0 k e He). rewrite insert_app_r_alt by (rewrite length_take; lia).
      rewrite length_take, Nat.min_l, Nat.sub_diag by lia.
      change (<[0%nat := Some q]> [e]) with [Some q]. rewrite <- app_assoc. f_equal. cbn [app].
      symmetry. apply drop_S. by rewrite chain_of_lookup, Hq by lia. }
    destruct (Hok q b Hb) as (_&Hprev&_). unfold prev_ok in Hprev. destruct (pprev b) as [q'|] eqn:Ep.
    + destruct Hprev as (bq&Hbq&E). destruct k as [|k]; [destruct (Hok q' bq Hbq) as (?&_); lia|].
      apply IH; [lia| |lia]. replace (n - k)%nat with ((n - S k) + 1)%nat by lia. rewrite back_add, Hq. cbn.
      by rewrite Hb; cbn; rewrite Ep.
    + assert (k = O) as -> by lia. by destruct fuel.
Qed.

Lemma SetTip_spec v tip b :
  chain_ok h v -> h !! tip = Some b -> nHeight b + 1 < 2 ^ 31 ->
  SetTip h v (Some tip) = Some (chain_of h tip (Z.to_nat (nHeight b))).
Proof.
  intros Hv Hb Hh. destruct (Hok tip b Hb) as (Hr&_). unfold SetTip. rewrite Hb. cbn [mbind option_bind].
  unfold int. rewrite bool_decide_true by lia. cbn [mbind option_bind].
  set (n := Z.to_nat (nHeight b)). replace (Z.to_nat (nHeight b + 1)) with (S n) by lia.
  set (v0 := resize (S n) None v). assert (length v0 = S n) as Hl by apply length_resize.
  rewrite <- (take_ge v0 (S n)) by lia. rewrite <- (app_nil_r (take (S n) v0)).
  rewrite <- (drop_ge (chain_of h tip n) (S n)) by (rewrite length_chain_of; lia).
  apply SetTip_loop_spec; [by apply at_intro|by apply resize_prefix, chain_ok_prefix|done|lia| |lia].
  by rewrite Nat.sub_diag.
Qed.

(** ** [FindFork] *)

(** [q] is [p] or an ancestor of [p]. *)
Definition anc (p q : ptr) : Prop := exists k, back h k p = Some q.

Definition on_chain (v : CChain) (p : ptr) : Prop := Contains h v (Some p) = Some true.

Lemma Contains_at v p n : at_ p n -> Contains h v (Some p) = Some (bool_decide (at_height v (Z.of_nat n) = Some p)).
Proof. intros (b&Hb&<-). unfold Contains. by rewrite Hb. Qed.

(** A block ends after as many steps as its height. *)
Lemma back_height p n k q : at_ p n -> back h k p = Some q -> (k <= n)%nat /\ at_ q (n - k).
Proof.
  intros Hp Hk. assert (k <= n)%nat as Hle.
  { apply Nat.nlt_ge. intros Hlt. destruct (back_at p n n Hp ltac:(lia)) as (r&Hr&br&Hbr&Hz).
    replace k with (n + S (k - n - 1))%nat in Hk by lia. rewrite back_add, Hr in Hk. cbn in Hk. rewrite Hbr in Hk. cbn in Hk.
    destruct (Hok r br Hbr) as (_&Hprev&_). unfold prev_ok in Hprev. destruct (pprev br) as [s|]; [|done].
    destruct Hprev as (bs&Hs&E). destruct (Hok s bs Hs) as (?&_). lia. }
  split; [done|]. destruct (back_at p n k Hp Hle) as (q'&E&Hat). congruence.
Qed.

(** The blocks in the vector of a tip are the tip's ancestors. *)
Lemma on_chain_anc tip n p : at_ tip n -> on_chain (chain_of h tip n) p <-> anc tip p.
Proof.
  intros Ht. split.
  - intros Hc. unfold on_chain, Contains in Hc. destruct (h !! p) as [b|] eqn:Hb; [|done]. cbn [mbind option_bind] in Hc.
    injection Hc as Hc%bool_decide_eq_true. destruct (Hok p b Hb) as (Hr&_).
    assert (at_ p (Z.to_nat (nHeight b))) as Hp by (by apply at_intro).
    replace (nHeight b) with (Z.of_nat (Z.to_nat (nHeight b))) in Hc by lia.
    destruct (decide (Z.to_nat (nHeight b) <= n)%nat) as [Hle|Hgt].
    + rewrite chain_of_at_height in Hc by done. by eexists.
    + unfold at_height in Hc. rewrite length_chain_of in Hc. rewrite Z.geb_leb, (proj2 (Z.leb_le _ _)), orb_true_r in Hc by lia.
      done.
  - intros (k&Hk). destruct (back_height tip n k p Ht Hk) as [Hle Hp]. unfold on_chain. rewrite (Contains_at _ p (n - k)) by done.
    f_equal. apply bool_decide_eq_true. rewrite chain_of_at_height by lia. by replace (n - (n - k))%nat with k by lia.
Qed.

(** The first block on the way back from [p] that is in the vector. *)
Definition first_on (v : CChain) (p : ptr) (r : option ptr) : Prop :=
  match r with
  | Some q => exists k, back h k p = Some q /\ on_chain v q /\
                forall j x, (j < k)%nat -> back h j p = Some x -> ~ on_chain v x
  | None => forall j x, back h j p = Some x -> ~ on_chain v x
  end.

Lemma first_on_back v p m q r :
  back h m p = Some q -> (forall j x, (j < m)%nat -> back h j p = Some x -> ~ on_chain v x) ->
  first_on v q r -> first_on v p r.
Proof.
  intros Hm Hbefore Hr.
  assert (forall j x, (m <= j)%nat -> back h j p = Some x -> back h (j - m) q = Some x) as Hshift.
  { intros j x Hj Hx. replace j with (m + (j - m))%nat in Hx by lia. by rewrite back_add, Hm in Hx. }
  destruct r as [s|]; cbn in *.
  - destruct Hr as (k&Hk&Hs&Hlt). exists (m + k)%nat. rewrite back_add, Hm. split; [done|]. split; [done|].
    intros j x Hj Hx. destruct (decide (j < m)%nat) as [Hjm|Hjm]; [by apply (Hbefore j)|].
    apply (Hlt (j - m)%nat); [lia|]. apply Hshift; [lia|done].
  - intros j x Hx. destruct (decide (j < m)%nat) as [Hjm|Hjm]; [by apply (Hbefore j)|].
    apply (Hr (j - m)%nat). apply Hshift; [lia|done].
Qed.

Lemma FindFork_loop_spec fuel v p n :
  at_ p n -> (n < fuel)%nat -> exists r, FindFork_loop fuel h v (Some p) = Some r /\ first_on v p r.
Proof.
  revert p n. induction fuel as [|fuel IH]; intros p n Hp Hf; [lia|]. cbn [FindFork_loop].
  pose proof (Contains_at v p n Hp) as Hc. rewrite Hc. cbn [mbind option_bind]. case_bool_decide as Hin.
  { exists (Some p). split; [done|]. exists O. split; [done|]. split; [done|]. lia. }
  assert (~ on_chain v p) as Hnot by (unfold on_chain; rewrite Hc; congruence).
  destruct Hp as (b&Hb&Hh). rewrite Hb. cbn [mbind option_bind]. destruct (Hok p b Hb) as (_&Hprev&_). unfold prev_ok in Hprev.
  assert (forall j x, (j < 1)%nat -> back h j p = Some x -> ~ on_chain v x) as Hfirst.
  { intros j x Hj Hx. assert (j = O) as -> by lia. injection Hx as <-. done. }
  destruct (pprev b) as [q|] eqn:Ep.
  - destruct Hprev as (bq&Hq&E). destruct (Hok q bq Hq) as (?&_).
    destruct (IH q (n - 1)%nat) as (r&Hr&Hfst); [exists bq; split; [done|lia]|lia|].
    exists r. split; [done|]. apply (first_on_back v p 1 q); [|done|done]. cbn. rewrite Hb. cbn. by rewrite Ep.
  - exists None. split; [by destruct fuel|]. intros [|j] x Hx; [by apply (Hfirst O); [lia|]|].
    cbn in Hx. rewrite Hb in Hx. cbn in Hx. by rewrite Ep in Hx.
Qed.

Lemma FindFork_spec v p b :
  h !! p = Some b -> exists r, FindFork h v (Some p) = Some r /\ first_on v p r.
Proof.
  intros Hb. unfold FindFork. rewrite Hb. cbn [mbind option_bind]. destruct (Hok p b Hb) as (Hr&_).
  assert (at_ p (Z.to_nat (nHeight b))) as Hp by (by apply at_intro).
  rewrite Z.gtb_ltb. destruct (Z.ltb_spec (Height v) (nHeight b)) as [Hlt|Hge].
  2: { cbn [mbind option_bind]. apply (FindFork_loop_spec _ v p (Z.to_nat (nHeight b))); [done|lia]. }
  assert (forall x n, at_ x n -> Height v < Z.of_nat n -> ~ on_chain v x) as Habove.
  { intros x n Hx Hn. unfold on_chain. rewrite (Contains_at v x n) by done. unfold at_height, Height in *.
    rewrite Z.geb_leb, (proj2 (Z.leb_le _ _)), orb_true_r by lia. by rewrite bool_decide_false. }
  rewrite (GetAncestor_spec h p b) by done. cbn [mbind option_bind].
  destruct (decide (0 <= Height v)) as [H0|H0].
  - destruct (ancestor_ok h p b (Height v) Hok Hb ltac:(lia)) as (q&bq&Ha&Hq&Eh). rewrite Ha.
    destruct (FindFork_loop_spec (Z.to_nat (nHeight b) + 1) v q (Z.to_nat (nHeight bq))) as (r&Hrr&Hf);
      [by apply at_intro|lia|]. exists r. split; [done|].
    unfold ancestor in Ha. rewrite Hb in Ha. cbn -[back] in Ha. rewrite bool_decide_true in Ha by lia.
    eapply (first_on_back v p); [exact Ha| |done]. intros j x Hj Hx.
    destruct (back_height p _ j x Hp Hx) as [_ Hat]. apply (Habove x _ Hat). lia.
  - assert (ancestor h p (Height v) = None) as ->.
    { unfold ancestor. rewrite Hb. cbn. by rewrite bool_decide_false by lia. }
    exists None. split; [by destruct (Z.to_nat (nHeight b))|]. intros j x Hx.
    destruct (back_height p _ j x Hp Hx) as [_ Hat]. apply (Habove x _ Hat). lia.
Qed.

(** ** [GetLocator] *)

(** The heights of a locator: one by one for the first blocks, then by doubling steps,
    down to the first block. *)
Fixpoint locator_heights (fuel : nat) (height step count : nat) : list nat :=
  match fuel with
  | O => []
  | S fuel =>
    height ::
    (if (height =? 0)%nat then []
     else locator_heights fuel (height - step) (if (10 <? S count)%nat then step * 2 else step)%nat (S count))
  end.

(** [hash] is the hash of the ancestor of [p], a block of height [n], at height [k]. *)
Definition ancestor_hash (p : ptr) (n k : nat) (hash : uint256) : Prop :=
  (k <= n)%nat /\ exists q b, back h (n - k) p = Some q /\ h !! q = Some b /\ phashBlock b = Some hash.

(** Within the vector or with skip pointers: the ancestor. *)
Lemma locator_next v p n k :
  prefix_ok v -> at_ p n -> (k <= n)%nat ->
  (c ← Contains h v (Some p); if c : bool then Some (at_height v (Z.of_nat k)) else GetAncestor h p (Z.of_nat k)) =
  Some (back h (n - k) p).
Proof.
  intros Hv Hp Hk. rewrite (Contains_at v p n) by done. cbn [mbind option_bind]. destruct Hp as (b&Hb&Hn).
  case_bool_decide as Hc.
  - f_equal. unfold at_height in *. destruct (Z.ltb_spec (Z.of_nat n) 0); [lia|].
    rewrite Z.geb_leb in *. destruct (Z.leb_spec (Z.of_nat (length v)) (Z.of_nat n)) as [Hle|Hlt]; [done|].
    cbn [orb] in Hc. rewrite Nat2Z.id in Hc. rewrite (proj2 (Z.ltb_ge _ _)), (proj2 (Z.leb_gt _ _)) by lia.
    cbn [orb]. rewrite Nat2Z.id. destruct (lookup_lt_is_Some_2 v n ltac:(lia)) as [e He].
    rewrite (list_lookup_total_correct _ _ _ He) in Hc. subst e. pose proof (Hv n p He) as Ht.
    apply list_lookup_total_correct. rewrite <- (lookup_take_lt v (S n)) by lia. rewrite Ht. by apply chain_of_lookup.
  - rewrite (GetAncestor_spec h p b) by done. f_equal. unfold ancestor. rewrite Hb. cbn [mbind option_bind].
    rewrite bool_decide_true by lia. f_equal. lia.
Qed.

Lemma GetLocator_loop_spec fuel v p n step (n0 : nat) vHave :
  prefix_ok v -> map_Forall (fun _ b => is_Some (phashBlock b)) h ->
  at_ p n -> (n < fuel)%nat -> Z.of_nat n0 < 2 ^ 30 -> (1 <= step)%nat -> (n = O \/ step <= 1 + n0 - n)%nat -> (n <= n0)%nat ->
  exists hashes, GetLocator_loop fuel h v (Some p) (Z.of_nat step) vHave = Some (vHave ++ hashes) /\
    Forall2 (ancestor_hash p n) (locator_heights fuel n step (length vHave)) hashes.
Proof.
  intros Hv Hhash. revert p n step vHave. induction fuel as [|fuel IH]; intros p n step vHave Hp Hf H0 Hs Hstep Hn; [lia|].
  pose proof (locator_next v p n (n - step) Hv Hp ltac:(lia)) as Hnext.
  pose proof Hp as (b&Hb&Hh). cbn [GetLocator_loop locator_heights]. rewrite Hb. cbn [mbind option_bind].
  destruct (Hhash p b Hb) as [hash Ehash]. rewrite Ehash. cbn [mbind option_bind]. rewrite Hh.
  assert (ancestor_hash p n n hash) as Hself by (split; [lia|]; exists p, b; by rewrite Nat.sub_diag).
  destruct n as [|n].
  { exists [hash]. split; [done|]. by constructor. }
  rewrite (proj2 (Z.eqb_neq _ 0)) by lia. cbn [Nat.eqb].
  replace (Z.max (Z.of_nat (S n) - Z.of_nat step) 0) with (Z.of_nat (S n - step)) by lia.
  destruct (Contains h v (Some p)) as [c|] eqn:Ec; [|done]. cbn [mbind option_bind] in Hnext |- *. rewrite Hnext.
  cbn [mbind option_bind]. destruct (back_at p (S n) (S n - (S n - step)) Hp ltac:(lia)) as (q&Hq&Hat). rewrite Hq.
  replace (S n - (S n - (S n - step)))%nat with (S n - step)%nat in Hat by lia.
  rewrite length_app, Nat.add_1_r. cbn [length]. set (double := (10 <? S (length vHave))%nat).
  assert ((if double then int (Z.of_nat step * 2) else Some (Z.of_nat step)) =
          Some (Z.of_nat (if double then step * 2 else step))) as ->.
  { destruct double; [|done]. unfold int. rewrite bool_decide_true by lia. f_equal. lia. }
  cbn [mbind option_bind].
  destruct (IH q (S n - step)%nat (if double then step * 2 else step)%nat (vHave ++ [hash])) as (hashes&E&Hall);
    [done|lia|done|destruct double; lia|destruct double; lia|lia|].
  exists (hash :: hashes). rewrite E, <- app_assoc. split; [done|]. constructor; [done|].
  rewrite length_app, Nat.add_1_r in Hall. eapply Forall2_impl; [exact Hall|]. intros k x (Hk&r&br&Hr&Hbr&Hx).
  split; [lia|]. exists r, br. split; [|done].
  replace (S n - k)%nat with ((S n - (S n - step)) + (S n - step - k))%nat by lia. by rewrite back_add, Hq.
Qed.

End chains.

Lemma locator_heights_sorted fuel n step count :
  (n < fuel)%nat -> (1 <= step)%nat ->
  let l := locator_heights fuel n step count in
  head l = Some n /\ list.last l = Some O /\ StronglySorted (fun x y => (y < x)%nat) l.
Proof.
  revert n step count. induction fuel as [|fuel IH]; intros n step count Hf Hs; [lia|]. cbn [locator_heights].
  destruct (Nat.eqb_spec n 0) as [->|Hn]; [split_and!; [done|done|repeat constructor]|].
  destruct (IH (n - step)%nat (if (10 <? S count)%nat then step * 2 else step)%nat (S count)) as (H1&H2&H3);
    [lia|destruct (10 <? S count)%nat; lia|]. set (l := locator_heights fuel _ _ _) in *.
  split; [done|]. destruct l as [|m l]; [done|]. injection H1 as ->. split; [done|].
  constructor; [done|]. apply StronglySorted_inv in H3 as [_ H3].
  apply Forall_cons_2; [lia|]. apply (list.Forall_impl _ _ _ H3). cbn. lia.
Qed.

(** Once the step doubles. *)
Lemma locator_doubling fuel n step count k :
  (10 <= count)%nat -> (n <= step * (2 ^ k - 1))%nat -> (length (locator_heights fuel n step count) <= k + 1)%nat.
Proof.
  revert n step count k. induction fuel as [|fuel IH]; intros n step count k Hc Hn; [cbn; lia|]. cbn [locator_heights length].
  destruct (Nat.eqb_spec n 0) as [->|Hn0]; [cbn; lia|]. rewrite (proj2 (Nat.ltb_lt 10 _)) by lia.
  destruct k as [|k]; [cbn in Hn; lia|].
  specialize (IH (n - step)%nat (step * 2)%nat (S count) k ltac:(lia)). cbn [Nat.pow] in Hn.
  destruct (2 ^ k)%nat as [|x] eqn:Ex; [by apply Nat.pow_nonzero in Ex|].
  replace (S x + (S x + 0) - 1)%nat with (2 * x + 1)%nat in Hn by lia. replace (S x - 1)%nat with x in IH by lia. nia.
Qed.

Lemma locator_linear fuel n count k :
  (count <= 10)%nat -> (n <= (10 - count) + (2 ^ k - 1))%nat ->
  (length (locator_heights fuel n 1 count) <= (10 - count) + k + 1)%nat.
Proof.
  revert n count. induction fuel as [|fuel IH]; intros n count Hc Hn; [cbn; lia|].
  destruct (decide (count = 10)%nat) as [->|Hne]; [apply (locator_doubling (S fuel) n 1 10 k); lia|].
  cbn [locator_heights length]. destruct (Nat.eqb_spec n 0) as [->|Hn0]; [cbn; lia|].
  rewrite (proj2 (Nat.ltb_ge 10 _)) by lia. specialize (IH (n - 1)%nat (S count) ltac:(lia)). lia.
Qed.

(** ** Median time *)

Lemma past_times_spec h n p b :
  index_ok h -> h !! p = Some b ->
  exists ts, past_times h n (Some p) = Some ts /\ length ts = Nat.min n (S (Z.to_nat (nHeight b))) /\
    forall i t, ts !! i = Some t -> exists q bq, back h i p = Some q /\ h !! q = Some bq /\ t = GetBlockTime bq.
Proof.
  intros Hok. revert p b. induction n as [|n IH]; intros p b Hp; [by exists []|]. cbn [past_times]. rewrite Hp. cbn [mbind option_bind].
  destruct (Hok p b Hp) as (Hr&Hprev&_). unfold prev_ok in Hprev. destruct (pprev b) as [q|] eqn:Ep.
  - destruct Hprev as (bq&Hq&E). destruct (Hok q bq Hq) as (Hrq&_). destruct (IH q bq Hq) as (ts&->&Hl&Hts). cbn [mbind option_bind].
    exists (GetBlockTime b :: ts). split; [done|]. split; [cbn [length]; rewrite Hl; lia|].
    intros [|i] t Ht; [injection Ht as <-; by exists p, b|]. destruct (Hts i t Ht) as (r&br&Hbk&?&?).
    exists r, br. split; [|done]. cbn [back]. rewrite Hp. cbn. by rewrite Ep.
  - exists [GetBlockTime b]. split; [by destruct n|]. split; [rewrite Hprev; cbn; lia|].
    intros [|i] t Ht; [injection Ht as <-; by exists p, b|done].
Qed.

Lemma GetMedianTimePast_spec h p b :
  index_ok h -> h !! p = Some b ->
  exists ts l r, past_times h nMedianTimeSpan (Some p) = Some ts /\ (0 < length ts <= nMedianTimeSpan)%nat /\
    l ≡ₚ ts /\ StronglySorted Z.le l /\ l !! (length ts / 2)%nat = Some r /\ GetMedianTimePast h p = Some r.
Proof.
  intros Hok Hp. destruct (past_times_spec h nMedianTimeSpan p b Hok Hp) as (ts&Ets&Hl&_).
  assert (0 < length ts <= nMedianTimeSpan)%nat as Hlen by (unfold nMedianTimeSpan in *; lia).
  pose proof (merge_sort_Permutation Z.le (rev ts)) as Hperm.
  assert (length (merge_sort Z.le (rev ts)) = length ts) as Hsl by (rewrite Hperm; apply length_rev).
  destruct (lookup_lt_is_Some_2 (merge_sort Z.le (rev ts)) (length ts / 2)) as [r Hr].
  { rewrite Hsl. apply Nat.div_lt; lia. }
  exists ts, (merge_sort Z.le (rev ts)), r. split; [done|]. split; [done|].
  split; [by rewrite Hperm, <- Permutation_rev|].
  split; [apply StronglySorted_merge_sort; [intros x y z; lia|intros x y; lia]|]. split; [done|].
  unfold GetMedianTimePast. rewrite Ets. cbn [mbind option_bind]. done.
Qed.

(** ** What the chain promises *)

(** C31: [SetTip] turns a vector that held any chain (or nothing) into the chain of the new
    tip, stopping early where the two chains meet: position [i] holds the ancestor of the
    tip at height [i], [Tip] is the tip, [Height] its height and [Contains] says which
    blocks are its ancestors.  The loop ends and stays inside the vector. *)
Theorem set_tip_is_chain h v tip b :
  index_ok h -> chain_ok h v -> h !! tip = Some b -> nHeight b + 1 < 2 ^ 31 ->
  exists v', SetTip h v (Some tip) = Some v' /\ chain_ok h v' /\
    Tip v' = Some tip /\ Height v' = nHeight b /\
    (forall i, 0 <= i <= nHeight b -> at_height v' i = ancestor h tip i) /\
    (forall p bp, h !! p = Some bp -> Contains h v' (Some p) = Some true <-> anc h tip p).
Proof.
  intros Hok Hv Hb Hh. destruct (Hok tip b Hb) as (Hr&_). set (n := Z.to_nat (nHeight b)).
  exists (chain_of h tip n). split; [by apply SetTip_spec|]. split; [right; by exists tip, b|]. split_and!.
  - unfold Tip. rewrite length_chain_of. cbn [Nat.ltb Nat.leb]. replace (S n - 1)%nat with n by lia.
    apply list_lookup_total_correct. rewrite chain_of_lookup by lia. by rewrite Nat.sub_diag.
  - unfold Height. rewrite length_chain_of. lia.
  - intros i Hi. replace i with (Z.of_nat (Z.to_nat i)) at 1 by lia. rewrite chain_of_at_height by lia.
    unfold ancestor. rewrite Hb. cbn -[back]. rewrite bool_decide_true by done. f_equal. lia.
  - intros p bp Hp. apply (on_chain_anc h Hok tip n p). by apply at_intro.
Qed.

Lemma set_tip_is_chain_witness :
  exists v', SetTip (st_heap Sample.index) [] (Some 9%positive) = Some v' /\ chain_ok (st_heap Sample.index) v' /\
    Tip v' = Some 9%positive /\ Height v' = nHeight (Sample.block 9) /\
    (forall i, 0 <= i <= nHeight (Sample.block 9) -> at_height v' i = ancestor (st_heap Sample.index) 9 i) /\
    (forall p bp, st_heap Sample.index !! p = Some bp ->
       Contains (st_heap Sample.index) v' (Some p) = Some true <-> anc (st_heap Sample.index) 9 p).
Proof.
  apply (set_tip_is_chain (st_heap Sample.index) [] 9 (Sample.block 9));
    [apply sample_ok|by left|vm_compute; reflexivity|vm_compute; reflexivity].
Defined.

(** [FindFork] returns the last common block of the active chain and a block: it is an
    ancestor of both, and every common ancestor is an ancestor of it; the null pointer
    means that there is none.  It ends without following a dangling pointer. *)
Theorem find_fork_last_common h tip bt p b :
  index_ok h -> h !! tip = Some bt -> h !! p = Some b ->
  exists r, FindFork h (chain_of h tip (Z.to_nat (nHeight bt))) (Some p) = Some r /\
    match r with
    | Some q => anc h p q /\ anc h tip q /\ forall x, anc h p x -> anc h tip x -> anc h q x
    | None => forall x, anc h p x -> anc h tip x -> False
    end.
Proof.
  intros Hok Ht Hp. destruct (FindFork_spec h Hok (chain_of h tip (Z.to_nat (nHeight bt))) p b Hp) as (r&Hr&Hf).
  exists r. split; [done|]. pose proof (fun x => on_chain_anc h Hok tip _ x (at_intro h Hok tip bt Ht)) as Hc.
  destruct r as [q|]; cbn in Hf.
  - destruct Hf as (k&Hk&Hq&Hlt). split; [by exists k|]. split; [by apply Hc|].
    intros x (j&Hj) Hx. assert (k <= j)%nat as Hle.
    { apply Nat.nlt_ge. intros Hjk. by apply (Hlt j x Hjk Hj), Hc. }
    exists (j - k)%nat. replace j with (k + (j - k))%nat in Hj by lia. by rewrite back_add, Hk in Hj.
  - intros x (j&Hj) Hx. by apply (Hf j x Hj), Hc.
Qed.

Lemma find_fork_last_common_witness :
  exists r, FindFork (st_heap Sample.index) (chain_of (st_heap Sample.index) 7 (Z.to_nat (nHeight (Sample.block 7)))) (Some 9%positive)
      = Some r /\
    match r with
    | Some q => anc (st_heap Sample.index) 9 q /\ anc (st_heap Sample.index) 7 q /\
        forall x, anc (st_heap Sample.index) 9 x -> anc (st_heap Sample.index) 7 x -> anc (st_heap Sample.index) q x
    | None => forall x, anc (st_heap Sample.index) 9 x -> anc (st_heap Sample.index) 7 x -> False
    end.
Proof.
  apply (find_fork_last_common (st_heap Sample.index) 7 (Sample.block 7) 9 (Sample.block 9));
    [apply sample_ok|vm_compute; reflexivity..].
Defined.

(** [GetLocator] ends, without overflow of its [int] step for heights below [2^30], and
    lists the hashes of ancestors of the block at strictly decreasing heights, from the
    block itself down to the first block; a block of height below [2^k] needs at most
    [k + 11] hashes. *)
Theorem get_locator_spec h v p b :
  index_ok h -> map_Forall (fun _ b => is_Some (phashBlock b)) h -> chain_ok h v ->
  h !! p = Some b -> nHeight b < 2 ^ 30 ->
  let n := Z.to_nat (nHeight b) in
  exists heights hashes, GetLocator h v (Some p) = Some hashes /\
    Forall2 (ancestor_hash h p n) heights hashes /\
    head heights = Some n /\ list.last heights = Some O /\ StronglySorted (fun x y => (y < x)%nat) heights /\
    (forall k, (n < 2 ^ k)%nat -> (length hashes <= k + 11)%nat).
Proof.
  intros Hok Hhash Hv Hb Hh n. destruct (Hok p b Hb) as (Hr&_).
  destruct (GetLocator_loop_spec h Hok (n + 1) v p n 1 n []) as (hashes&E&Hall);
    [by apply chain_ok_prefix|done|by apply at_intro|lia|lia|lia|lia|lia|].
  exists (locator_heights (n + 1) n 1 0), hashes. unfold GetLocator. rewrite Hb. cbn [mbind option_bind].
  split; [exact E|]. split; [exact Hall|]. destruct (locator_heights_sorted (n + 1) n 1 0) as (H1&H2&H3); [lia|lia|].
  split_and!; [done|done|done|]. intros k Hk. rewrite <- (Forall2_length _ _ _ Hall).
  pose proof (locator_linear (n + 1) n 0 k). cbn [length]. lia.
Qed.

Lemma get_locator_spec_witness :
  let n := Z.to_nat (nHeight (Sample.block 9)) in
  exists heights hashes, GetLocator (st_heap Sample.index) [] (Some 9%positive) = Some hashes /\
    Forall2 (ancestor_hash (st_heap Sample.index) 9 n) heights hashes /\
    head heights = Some n /\ list.last heights = Some O /\ StronglySorted (fun x y => (y < x)%nat) heights /\
    (forall k, (n < 2 ^ k)%nat -> (length hashes <= k + 11)%nat).
Proof.
  apply (get_locator_spec (st_heap Sample.index) [] 9 (Sample.block 9));
    [apply sample_ok|apply sample_ok|by left|vm_compute; reflexivity..].
Defined.
