(* ===== verification/BigNum.v ===== *)
(** * Signed big numbers: [src/src/bignum.h]

    [CBigNum] wraps the [BIGNUM] of OpenSSL, which is not part of the sources: it is the
    parameter [OpenSSL] below, with the behaviour its manual documents as the class
    [OpenSSL_spec].  The conversions, which build and take apart the library's MPI byte
    format by hand, and the compact format are modelled from the header. *)

From S2P Require Import Prelude SphTypes ArithUint256.

#[local] Open Scope Z_scope.
#[local] Open Scope c_scope.

(** The functions of the library that the header calls.  [None] is the return value 0. *)
Class OpenSSL := {
  BIGNUM : Type;
  BN_mpi2bn : list Z -> BIGNUM;
  BN_bn2mpi : BIGNUM -> list Z;
  BN_set_word : Z -> BIGNUM;
  BN_get_word : BIGNUM -> Z;
  BN_is_negative : BIGNUM -> bool;
  BN_set_negative : BIGNUM -> bool -> BIGNUM;
  BN_add : BIGNUM -> BIGNUM -> option BIGNUM;
  BN_sub : BIGNUM -> BIGNUM -> option BIGNUM;
  BN_mul : BIGNUM -> BIGNUM -> option BIGNUM;
  BN_div : BIGNUM -> BIGNUM -> option BIGNUM;
  BN_nnmod : BIGNUM -> BIGNUM -> option BIGNUM;
  BN_lshift : BIGNUM -> Z -> option BIGNUM;
  BN_rshift : BIGNUM -> Z -> option BIGNUM;
  BN_cmp : BIGNUM -> BIGNUM -> Z }.

(** Four bytes, most significant first. *)
Definition be32 (n : Z) : list Z := [(n >> 24) .& 0xFF; (n >> 16) .& 0xFF; (n >> 8) .& 0xFF; n .& 0xFF].

Section bignum.
Context `{OpenSSL}.

(** ** Conversions *)

Definition setulong (n : Z) : BIGNUM := BN_set_word n.
Definition getulong (self : BIGNUM) : Z := BN_get_word self.
Definition getuint (self : BIGNUM) : Z := u32 (BN_get_word self).
Definition getint (self : BIGNUM) : Z :=
  let n := BN_get_word self in
  if negb (BN_is_negative self) then (if n >? 2 ^ 31 - 1 then 2 ^ 31 - 1 else n)
  else (if n >? 2 ^ 31 - 1 then - 2 ^ 31 else - n).

(** One byte of the loops of [setint64], [setuint64] and [setuint256]: what it appends
    to the buffer, and the flag for the leading zeroes. *)
Definition put_byte (fNegative : bool) (st : bool * list Z) (c : Z) : bool * list Z :=
  let '(fLeadingZeroes, pch) := st in
  if fLeadingZeroes : bool then
    if c =? 0 then (fLeadingZeroes, pch)
    else if negb ((c .& 0x80) =? 0) then (false, pch ++ [if fNegative then 0x80 else 0; c])
    else (false, pch ++ [if fNegative then c .| 0x80 else c])
  else (fLeadingZeroes, pch ++ [c]).

(** [for (int i = 0; i < 8; i++) { c = (n >> 56) & 0xff; n <<= 8; ... }] *)
Fixpoint put_uint64 (i : nat) (fNegative : bool) (n : Z) (st : bool * list Z) : list Z :=
  match i with
  | O => snd st
  | S i => put_uint64 i fNegative (u64 (n << 8)) (put_byte fNegative st ((n >> 56) .& 0xFF))
  end.

(** The buffer with its size in front. *)
Definition mpi_of (pch : list Z) : list Z := be32 (Z.of_nat (length pch)) ++ pch.

Definition setint64 (sn : Z) : BIGNUM :=
  let '(n, fNegative) := if sn <? 0 then (u64 (u64 (- (sn + 1)) + 1), true) else (u64 sn, false) in
  BN_mpi2bn (mpi_of (put_uint64 8 fNegative n (true, []))).

Definition setuint64 (n : Z) : BIGNUM := BN_mpi2bn (mpi_of (put_uint64 8 false n (true, []))).

(** The bytes of [n] from the last to the first. *)
Definition setuint256 (n : list Z) : BIGNUM :=
  BN_mpi2bn (mpi_of (snd (foldl (put_byte false) (true, []) (rev n)))).

(** The loop of [getuint64] and [getuint256]: byte [i] from the end of the buffer, for as
    many bytes as the type has. *)
Definition get_bytes (size : nat) (self : BIGNUM) : list Z :=
  let vch := BN_bn2mpi self in
  if (length vch <? 4)%nat then replicate size 0
  else
    let vch := if (4 <? length vch)%nat then <[4%nat := (vch !!! 4%nat) .& 0x7F]> vch else vch in
    take size (rev (drop 4 vch) ++ replicate size 0).

Definition getuint64 (self : BIGNUM) : Z := load_le 8 (get_bytes 8 self).
Definition getuint256 (self : BIGNUM) : list Z := get_bytes 32 self.

Definition setvch (vch : list Z) : BIGNUM := BN_mpi2bn (mpi_of (rev vch)).
Definition getvch (self : BIGNUM) : list Z :=
  let vch := BN_bn2mpi self in
  if (length vch <=? 4)%nat then [] else rev (drop 4 vch).

(** ** The compact format *)

(** The size is written to [vch[3]] only: it fits a byte. *)
Definition CBigNum_SetCompact (nCompact : Z) : BIGNUM :=
  let nSize := nCompact >> 24 in
  let vch := replicate (4 + Z.to_nat nSize) 0 in
  let vch := <[3%nat := nSize]> vch in
  let vch := if nSize >=? 1 then <[4%nat := (nCompact >> 16) .& 0xFF]> vch else vch in
  let vch := if nSize >=? 2 then <[5%nat := (nCompact >> 8) .& 0xFF]> vch else vch in
  let vch := if nSize >=? 3 then <[6%nat := (nCompact >> 0) .& 0xFF]> vch else vch in
  BN_mpi2bn vch.

Definition CBigNum_GetCompact (self : BIGNUM) : Z :=
  let vch := BN_bn2mpi self in
  let nSize := u32 (Z.of_nat (length vch) - 4) in
  let nCompact := u32 (nSize << 24) in
  let nCompact := if nSize >=? 1 then nCompact .| ((vch !!! 4%nat) << 16) else nCompact in
  let nCompact := if nSize >=? 2 then nCompact .| ((vch !!! 5%nat) << 8) else nCompact in
  if nSize >=? 3 then nCompact .| ((vch !!! 6%nat) << 0) else nCompact.

(** ** Operators; [None] is the exception [bignum_error]. *)

Definition bn_neg (a : BIGNUM) : BIGNUM := BN_set_negative a (negb (BN_is_negative a)).

(** [operator>>=] *)
Definition bn_shr (self : BIGNUM) (shift : Z) : option BIGNUM :=
  a ← BN_lshift (setulong 1) shift;
  if BN_cmp a self >? 0 then Some (setulong 0) else BN_rshift self shift.

Definition bn_eq (a b : BIGNUM) : bool := BN_cmp a b =? 0.
Definition bn_le (a b : BIGNUM) : bool := BN_cmp a b <=? 0.
Definition bn_ge (a b : BIGNUM) : bool := BN_cmp a b >=? 0.
Definition bn_lt (a b : BIGNUM) : bool := BN_cmp a b <? 0.
Definition bn_gt (a b : BIGNUM) : bool := BN_cmp a b >? 0.
End bignum.

(** ** The library's documented behaviour *)

(** A big-endian number. *)
Definition be_val (l : list Z) : Z := foldl (fun a c => a * 256 + c) 0 l.

(** The most significant bit of the bytes is the sign. *)
Definition mpi_val (l : list Z) : Z :=
  match l with
  | [] => 0
  | c :: l => if Z.testbit c 7 then - be_val ((c .& 0x7F) :: l) else be_val (c :: l)
  end.

(** The bytes of a magnitude, most significant first, without leading zeroes. *)
Definition be_bytes (v : Z) : list Z := rev (store_le (Z.to_nat ((bitlen v + 7) / 8)) v).

(** With a byte in front when the top bit is in use. *)
Definition mpi_bytes (v : Z) : list Z :=
  match be_bytes (Z.abs v) with
  | [] => []
  | c :: l =>
    if Z.testbit c 7 then (if v <? 0 then 0x80 else 0) :: c :: l
    else (if v <? 0 then c .| 0x80 else c) :: l
  end.

Class OpenSSL_spec `{OpenSSL} := {
  bn_val : BIGNUM -> Z;
  bn_mpi2bn : forall l, Forall byte l -> Z.of_nat (length l) < 2 ^ 31 -> bn_val (BN_mpi2bn (mpi_of l)) = mpi_val l;
  bn_bn2mpi : forall x, BN_bn2mpi x = mpi_of (mpi_bytes (bn_val x));
  bn_set_word : forall n, word 64 n -> bn_val (BN_set_word n) = n;
  bn_get_word : forall x, Z.abs (bn_val x) < 2 ^ 64 - 1 -> BN_get_word x = Z.abs (bn_val x);
  bn_is_negative : forall x, BN_is_negative x = (bn_val x <? 0);
  bn_set_negative : forall x s, bn_val (BN_set_negative x s) = if s : bool then - Z.abs (bn_val x) else Z.abs (bn_val x);
  bn_add : forall x y, exists r, BN_add x y = Some r /\ bn_val r = bn_val x + bn_val y;
  bn_sub : forall x y, exists r, BN_sub x y = Some r /\ bn_val r = bn_val x - bn_val y;
  bn_mul : forall x y, exists r, BN_mul x y = Some r /\ bn_val r = bn_val x * bn_val y;
  bn_div : forall x y, bn_val y <> 0 -> exists r, BN_div x y = Some r /\ bn_val r = Z.quot (bn_val x) (bn_val y);
  bn_div_0 : forall x y, bn_val y = 0 -> BN_div x y = None;
  bn_nnmod : forall x y, bn_val y <> 0 -> exists r, BN_nnmod x y = Some r /\ bn_val r = bn_val x mod Z.abs (bn_val y);
  bn_lshift : forall x n, 0 <= n -> exists r, BN_lshift x n = Some r /\ bn_val r = bn_val x * 2 ^ n;
  bn_rshift : forall x n, 0 <= n -> exists r, BN_rshift x n = Some r /\ bn_val r = Z.quot (bn_val x) (2 ^ n);
  bn_cmp : forall x y, BN_cmp x y = sign (bn_val x ?= bn_val y) }.

(** The integers implement the documented behaviour. *)
#[export] Instance Z_OpenSSL : OpenSSL := {
  BIGNUM := Z;
  BN_mpi2bn l := mpi_val (drop 4 l);
  BN_bn2mpi v := mpi_of (mpi_bytes v);
  BN_set_word n := n;
  BN_get_word v := Z.abs v;
  BN_is_negative v := v <? 0;
  BN_set_negative v s := if s : bool then - Z.abs v else Z.abs v;
  BN_add x y := Some (x + y);
  BN_sub x y := Some (x - y);
  BN_mul x y := Some (x * y);
  BN_div x y := if y =? 0 then None else Some (Z.quot x y);
  BN_nnmod x y := if y =? 0 then None else Some (x mod Z.abs y);
  BN_lshift x n := Some (x * 2 ^ n);
  BN_rshift x n := Some (Z.quot x (2 ^ n));
  BN_cmp x y := sign (x ?= y) }.

#[export] Instance Z_OpenSSL_spec : @OpenSSL_spec Z_OpenSSL.
Proof.
  refine {| bn_val := fun v : @BIGNUM Z_OpenSSL => v |}; intros; cbn; try done; eauto.
  - by rewrite (proj2 (Z.eqb_neq _ 0)) by done; eauto.
  - by rewrite (proj2 (Z.eqb_eq _ 0)).
  - by rewrite (proj2 (Z.eqb_neq _ 0)) by done; eauto.
Defined.

(** ** Big-endian numbers *)

Lemma be_val_acc l a : foldl (fun a c => a * 256 + c) a l = a * 256 ^ Z.of_nat (length l) + be_val l.
Proof.
  unfold be_val. revert a. induction l as [|c l IH]; intros a; cbn [foldl length]; [rewrite Z.pow_0_r; lia|].
  rewrite (IH (a * 256 + c)), (IH (0 * 256 + c)). rewrite Nat2Z.inj_succ, Z.pow_succ_r by lia. lia.
Qed.

Lemma be_val_cons c l : be_val (c :: l) = c * 256 ^ Z.of_nat (length l) + be_val l.
Proof. unfold be_val at 1. cbn [foldl]. by rewrite be_val_acc. Qed.

Lemma be_val_app l k : be_val (l ++ k) = be_val l * 256 ^ Z.of_nat (length k) + be_val k.
Proof. unfold be_val at 1. by rewrite foldl_app, be_val_acc. Qed.

Lemma be_val_zeros n : be_val (replicate n 0) = 0.
Proof. induction n as [|n IH]; [done|]. cbn [replicate]. rewrite be_val_cons, IH. lia. Qed.

Lemma be_val_bound l : Forall byte l -> 0 <= be_val l < 256 ^ Z.of_nat (length l).
Proof.
  induction 1 as [|c l [Hc1 Hc2] _ IH]; [done|]. rewrite be_val_cons. cbn [length].
  rewrite Nat2Z.inj_succ, Z.pow_succ_r by lia. nia.
Qed.

Lemma be_val_rev_store n v : be_val (rev (store_le n v)) = v mod 256 ^ Z.of_nat n.
Proof.
  revert v. induction n as [|n IH]; intros v; [by rewrite Z.pow_0_r, Z.mod_1_r|].
  cbn [store_le rev]. rewrite be_val_app, IH. cbn [length]. change (be_val [uchar v]) with (0 * 256 + uchar v).
  rewrite uchar_mod, Z.shiftr_div_pow2 by lia. change (2 ^ 8) with 256. change (256 ^ Z.of_nat 1) with 256.
  rewrite Nat2Z.inj_succ, Z.pow_succ_r by lia. rewrite Z.rem_mul_r by lia. lia.
Qed.

Lemma top_bit_byte c : byte c -> Z.testbit c 7 = (128 <=? c).
Proof.
  intros [Hc1 Hc2]. destruct (Z.leb_spec 128 c).
  - replace 7 with (Z.log2 c) by (apply Z.log2_unique; lia). apply Z.bit_log2. lia.
  - apply (word_testbit_high 7); [unfold word|]; lia.
Qed.

Lemma sign7 c : ((c .& 0x80) =? 0) = negb (Z.testbit c 7).
Proof. by rewrite <- land_bit. Qed.

Lemma mask7 c : c .& 0x7F = c mod 128.
Proof. change 0x7F with (Z.ones 7). by rewrite Z.land_ones. Qed.

Lemma set7 c : 0 <= c < 128 -> c .| 0x80 = c + 128.
Proof. intros Hc. change 0x80 with (1 << 7). rewrite lor_disjoint by (unfold word; lia). done. Qed.

(** The sign byte in front of a magnitude with its top bit in use, the sign in the first
    byte otherwise. *)
Definition sign_bytes (neg : bool) (l : list Z) : list Z :=
  match l with
  | [] => []
  | c :: l => if Z.testbit c 7 then (if neg then 0x80 else 0) :: c :: l else (if neg then c .| 0x80 else c) :: l
  end.

Lemma sign_bytes_ok neg l :
  Forall byte l ->
  Forall byte (sign_bytes neg l) /\ mpi_val (sign_bytes neg l) = (if neg then - be_val l else be_val l) /\
  match sign_bytes neg l with [] => l = [] | c :: k => be_val ((c .& 0x7F) :: k) = be_val l end.
Proof.
  intros Hl. destruct Hl as [|c l Hc Hl]; [by destruct neg|]. cbn [sign_bytes]. rewrite top_bit_byte by done.
  assert (0 <= c < 256) as Hcb by exact Hc. destruct (Z.leb_spec 128 c) as [Hb|Hb].
  - split; [apply Forall_cons_2; [by destruct neg|by apply Forall_cons_2]|].
    assert (be_val (0 :: c :: l) = be_val (c :: l)) as E by (rewrite (be_val_cons 0); lia).
    destruct neg; cbn [mpi_val]; (split; [|exact E]).
    + change (Z.testbit 128 7) with true. change (128 .& 127) with 0. by rewrite E.
    + change (Z.testbit 0 7) with false. by rewrite E.
  - assert (byte (if neg then c .| 128 else c) /\ (if neg then c .| 128 else c) .& 127 = c /\
            Z.testbit (if neg then c .| 128 else c) 7 = neg) as (Hb'&Em&Et).
    { destruct neg.
      - rewrite set7 by lia. split; [unfold word; lia|]. rewrite mask7, top_bit_byte by (unfold word; lia).
        split; [|apply Z.leb_le; lia]. symmetry. apply Z.mod_unique with 1; lia.
      - split; [done|]. rewrite mask7, top_bit_byte by done. split; [apply Z.mod_small; lia|]. apply Z.leb_gt. lia. }
    split; [by apply Forall_cons_2|]. cbn [mpi_val]. rewrite Et, Em. by destruct neg.
Qed.

(** ** The conversion loops *)

Lemma put_byte_after neg pch l : foldl (put_byte neg) (false, pch) l = (false, pch ++ l).
Proof.
  revert pch. induction l as [|c l IH]; intros pch; [by rewrite app_nil_r|]. cbn [foldl]. unfold put_byte at 2.
  by rewrite IH, <- app_assoc.
Qed.

(** Leading zeroes removed. *)
Fixpoint strip (l : list Z) : list Z := match l with c :: k => if c =? 0 then strip k else l | [] => [] end.

Lemma strip_val l : be_val (strip l) = be_val l.
Proof.
  induction l as [|c l IH]; [done|]. cbn [strip]. destruct (Z.eqb_spec c 0) as [->|]; [|done].
  rewrite IH, be_val_cons. lia.
Qed.

Lemma strip_bytes l : Forall byte l -> Forall byte (strip l) /\ (length (strip l) <= length l)%nat.
Proof.
  induction 1 as [|c l Hc Hl [IH1 IH2]]; [by split|]. cbn [strip length]. destruct (c =? 0); [split; [done|lia]|].
  split; [by apply Forall_cons_2|done].
Qed.

Lemma put_bytes_spec neg l : Forall byte l -> snd (foldl (put_byte neg) (true, []) l) = sign_bytes neg (strip l).
Proof.
  induction 1 as [|c l Hc Hl IH]; [done|]. cbn [foldl strip]. unfold put_byte at 2.
  destruct (Z.eqb_spec c 0) as [->|Hne]; [done|]. rewrite sign7, negb_involutive. cbn [sign_bytes].
  destruct (Z.testbit c 7); by rewrite put_byte_after.
Qed.

Lemma put_uint64_spec i neg n st :
  word 64 n -> (i <= 8)%nat ->
  put_uint64 i neg n st = snd (foldl (put_byte neg) st (rev (store_le i (n >> (64 - 8 * Z.of_nat i))))).
Proof.
  revert n st. induction i as [|i IH]; intros n st Hn Hi; [done|]. cbn [put_uint64].
  rewrite IH by (try apply word_mod; lia). rewrite <- (Nat.add_1_r i), store_le_add, rev_app_distr, foldl_app.
  cbn [store_le rev app foldl]. rewrite Z.shiftr_shiftr by lia.
  replace (64 - 8 * Z.of_nat (i + 1) + 8 * Z.of_nat i) with 56 by lia.
  change ((n >> 56) .& 0xFF) with (uchar (n >> 56)). do 3 f_equal. apply store_le_ext. intros j Hj.
  unfold u64. rewrite !Z.shiftr_spec by lia. rewrite Z.mod_pow2_bits_low, Z.shiftl_spec by lia. f_equal. lia.
Qed.

Lemma rev_bytes (l : list Z) : Forall byte l -> Forall byte (rev l).
Proof. intros H. by apply Forall_rev. Qed.

(** The number a buffer of up to [2^31] bytes holds. *)
Section laws.
Context `{OpenSSL_spec}.

Lemma set_bytes_val neg l :
  Forall byte l -> Z.of_nat (length l) < 2 ^ 30 ->
  bn_val (BN_mpi2bn (mpi_of (sign_bytes neg (strip l)))) = if neg then - be_val l else be_val l.
Proof.
  intros Hl Hlen. destruct (strip_bytes l Hl) as [Hs Hsl]. destruct (sign_bytes_ok neg (strip l) Hs) as (H1&H2&_).
  rewrite bn_mpi2bn, H2, strip_val; [done|done|].
  assert (length (sign_bytes neg (strip l)) <= S (length (strip l)))%nat; [|lia].
  destruct (strip l) as [|c k]; cbn [sign_bytes]; [cbn; lia|]. destruct (Z.testbit c 7); cbn [length]; lia.
Qed.

Lemma setuint64_val n : word 64 n -> bn_val (setuint64 n) = n.
Proof.
  intros Hn. unfold setuint64. rewrite put_uint64_spec, put_bytes_spec by (done || apply rev_bytes, store_le_bytes).
  rewrite set_bytes_val by (try apply rev_bytes, store_le_bytes; rewrite ?length_rev, ?length_store_le; lia).
  rewrite be_val_rev_store, Z.shiftr_0_r. by apply Z.mod_small.
Qed.

Lemma setint64_val n : - 2 ^ 63 <= n < 2 ^ 63 -> bn_val (setint64 n) = n.
Proof.
  intros Hn. unfold setint64.
  assert ((if n <? 0 then (u64 (u64 (- (n + 1)) + 1), true) else (u64 n, false)) = (Z.abs n, n <? 0)) as ->.
  { destruct (Z.ltb_spec n 0); f_equal; unfold u64; [rewrite (Z.mod_small (- (n + 1))) by lia|];
      rewrite Z.mod_small by lia; lia. }
  rewrite put_uint64_spec, put_bytes_spec by (try apply rev_bytes, store_le_bytes; unfold word; lia).
  rewrite set_bytes_val by (try apply rev_bytes, store_le_bytes; rewrite ?length_rev, ?length_store_le; lia).
  rewrite be_val_rev_store, Z.shiftr_0_r. change (256 ^ Z.of_nat 8) with (2 ^ 64). rewrite Z.mod_small by lia.
  destruct (Z.ltb_spec n 0); lia.
Qed.

Lemma setuint256_val l : Forall byte l -> length l = 32%nat -> bn_val (setuint256 l) = load_le 32 l.
Proof.
  intros Hl Hlen. unfold setuint256. rewrite put_bytes_spec by (by apply rev_bytes).
  rewrite set_bytes_val by (try apply rev_bytes; rewrite ?length_rev; done || lia).
  rewrite <- (store_le_load_le 32 l Hl Hlen) at 1. rewrite be_val_rev_store.
  apply Z.mod_small. pose proof (load_le_word 32 l Hl ltac:(lia)) as [? ?]. split; [done|].
  by change (256 ^ Z.of_nat 32) with (2 ^ (8 * Z.of_nat 32)).
Qed.
End laws.

(** ** Reading a number back *)

Lemma be_bytes_ok v : 0 <= v -> Forall byte (be_bytes v) /\ be_val (be_bytes v) = v.
Proof.
  intros Hv. unfold be_bytes. split; [apply rev_bytes, store_le_bytes|]. rewrite be_val_rev_store. apply Z.mod_small.
  split; [done|]. pose proof (bitlen_nonneg v). pose proof (Z.div_mod (bitlen v + 7) 8 ltac:(lia)).
  pose proof (Z.mod_pos_bound (bitlen v + 7) 8 ltac:(lia)).
  rewrite Z2Nat.id by (apply Z.div_pos; lia). rewrite pow256 by (apply Z.div_pos; lia). apply bitlen_le; lia.
Qed.

Lemma mpi_bytes_sign v : mpi_bytes v = sign_bytes (v <? 0) (be_bytes (Z.abs v)).
Proof. unfold mpi_bytes, sign_bytes. by destruct (be_bytes (Z.abs v)). Qed.

Lemma mpi_bytes_ok v : Forall byte (mpi_bytes v) /\ mpi_val (mpi_bytes v) = v.
Proof.
  rewrite mpi_bytes_sign. destruct (be_bytes_ok (Z.abs v)) as [H1 H2]; [lia|].
  destruct (sign_bytes_ok (v <? 0) _ H1) as (H3&->&_). split; [done|]. rewrite H2. destruct (Z.ltb_spec v 0); lia.
Qed.

(** The size of the format, which is the exponent of the compact one. *)
Lemma mpi_bytes_length v : 0 <= v -> Z.of_nat (length (mpi_bytes v)) = compact_size v.
Proof.
  intros Hv. rewrite mpi_bytes_sign, (proj2 (Z.ltb_ge v 0)), Z.abs_eq by lia. unfold compact_size.
  destruct (Z.eqb_spec v 0) as [->|Hne]; [done|]. pose proof (bitlen_nonneg v). unfold be_bytes.
  pose proof (bitlen_bounds v ltac:(lia)) as Hb. set (n := bitlen v) in *.
  pose proof (Z.div_mod (n + 7) 8 ltac:(lia)). pose proof (Z.mod_pos_bound (n + 7) 8 ltac:(lia)).
  assert (n <> 0) as Hn0 by (unfold n; rewrite bitlen_0; lia). set (k := (n + 7) / 8) in *.
  replace (Z.to_nat k) with (Z.to_nat (k - 1) + 1)%nat by lia. rewrite store_le_add, rev_app_distr.
  cbn [store_le rev app sign_bytes].
  assert (Z.testbit (uchar (v >> (8 * Z.of_nat (Z.to_nat (k - 1))))) 7 = (n =? 8 * k)) as ->.
  { rewrite uchar_mod, Z.mod_pow2_bits_low, Z.shiftr_spec, Z2Nat.id by lia. destruct (Z.eqb_spec n (8 * k)).
    - replace (7 + 8 * (k - 1)) with (Z.log2 v); [apply Z.bit_log2; lia|]. apply Z.log2_unique; [lia|].
      replace (Z.succ (7 + 8 * (k - 1))) with n by lia. replace (7 + 8 * (k - 1)) with (n - 1) by lia. done.
    - apply (word_testbit_high n); [unfold word; lia|lia]. }
  pose proof (Z.div_mod n 8 ltac:(lia)). pose proof (Z.mod_pos_bound n 8 ltac:(lia)).
  destruct (Z.eqb_spec n (8 * k)); cbn [length]; rewrite length_rev, length_store_le; lia.
Qed.

Lemma store_le_zero n : store_le n 0 = replicate n 0.
Proof. induction n as [|n IH]; [done|]. cbn [store_le replicate]. rewrite Z.shiftr_0_l, IH. done. Qed.

Lemma store_le_short k m v : 0 <= v < 256 ^ Z.of_nat k -> store_le (k + m) v = store_le k v ++ replicate m 0.
Proof.
  intros Hv. rewrite store_le_add. f_equal.
  rewrite Z.shiftr_div_pow2, <- pow256, Z.div_small by lia. apply store_le_zero.
Qed.

Lemma take_store_le n k v : (n <= k)%nat -> take n (store_le k v) = store_le n v.
Proof.
  intros Hn. replace k with (n + (k - n))%nat by lia. rewrite store_le_add. by rewrite take_app_length' by (by rewrite length_store_le).
Qed.

(** The bytes of a big-endian list, reversed, padded and cut. *)
Lemma rev_be_take size l : Forall byte l -> take size (rev l ++ replicate size 0) = store_le size (be_val l).
Proof.
  intros Hl. pose proof (be_val_bound l Hl) as Hb.
  assert (rev l = store_le (length l) (be_val l)) as ->.
  { pose proof (be_val_rev_store (length l) (be_val l)) as E. rewrite Z.mod_small in E by done.
    rewrite <- (rev_involutive (store_le (length l) (be_val l))). f_equal.
    assert (length (rev (store_le (length l) (be_val l))) = length l) as Hlen by (rewrite length_rev; apply length_store_le).
    assert (Forall byte (rev (store_le (length l) (be_val l)))) as Hrb by apply rev_bytes, store_le_bytes.
    clear Hb. revert Hlen Hrb E. generalize (rev (store_le (length l) (be_val l))). intros k. revert k.
    induction Hl as [|c l Hc Hl IH]; intros [|d k] Hlen Hk E; try done. injection Hlen as Hlen.
    apply list.Forall_cons in Hk as [Hd Hk]. rewrite !be_val_cons, Hlen in E.
    pose proof (be_val_bound l Hl) as H1. pose proof (be_val_bound k Hk) as H2. rewrite Hlen in H2.
    destruct (Z.div_mod_unique (256 ^ Z.of_nat (length l)) d c (be_val k) (be_val l)) as [-> E']; [lia..|].
    f_equal. by apply IH. }
  rewrite <- store_le_short by done. apply take_store_le. lia.
Qed.

Section laws2.
Context `{OpenSSL_spec}.

Lemma get_bytes_val size x : get_bytes size x = store_le size (Z.abs (bn_val x)).
Proof.
  unfold get_bytes. rewrite bn_bn2mpi. set (v := bn_val x). unfold mpi_of.
  rewrite length_app. change (length (be32 _)) with 4%nat. rewrite (proj2 (Nat.ltb_ge _ 4)) by lia.
  rewrite mpi_bytes_sign. destruct (be_bytes_ok (Z.abs v)) as [H1 H2]; [lia|].
  destruct (sign_bytes_ok (v <? 0) _ H1) as (H3&_&H4). destruct (sign_bytes (v <? 0) (be_bytes (Z.abs v))) as [|c k].
  - rewrite H4 in H2. cbn in H2. rewrite <- H2. cbn [length Nat.add Nat.ltb Nat.leb app drop be32]. cbn [rev app].
    rewrite take_ge by (rewrite length_replicate; lia). symmetry. apply store_le_zero.
  - apply list.Forall_cons in H3 as [Hc Hk]. rewrite (proj2 (Nat.ltb_lt 4 _)) by (cbn [length]; lia).
    rewrite lookup_total_app_r by (cbn; lia). rewrite insert_app_r_alt by (cbn; lia).
    change (length (be32 _)) with 4%nat. rewrite Nat.sub_diag. cbn [lookup_total list_lookup_total insert list_insert].
    rewrite drop_app_length' by done. rewrite rev_be_take, H4, H2; [done|]. apply Forall_cons_2; [|done].
    rewrite mask7. pose proof (Z.mod_pos_bound c 128). unfold word. lia.
Qed.

Lemma setvch_getvch x : Z.of_nat (length (mpi_bytes (bn_val x))) < 2 ^ 31 -> bn_val (setvch (getvch x)) = bn_val x.
Proof.
  intros Hl. unfold setvch, getvch. rewrite bn_bn2mpi. unfold mpi_of at 2 3. rewrite length_app.
  change (length (be32 _)) with 4%nat. destruct (mpi_bytes_ok (bn_val x)) as [Hb Hv].
  destruct (mpi_bytes (bn_val x)) as [|c k] eqn:E.
  - cbn [length Nat.add Nat.leb rev]. rewrite bn_mpi2bn by (done || (cbn; lia)). done.
  - rewrite (proj2 (Nat.leb_gt _ 4)) by (cbn [length]; lia). rewrite drop_app_length' by done. rewrite rev_involutive.
    by rewrite bn_mpi2bn.
Qed.
End laws2.

(** ** The compact format *)

Lemma byte_at n k : 0 <= k -> (n >> k) .& 0xFF = (n / 2 ^ k) mod 256.
Proof. intros Hk. change 0xFF with (Z.ones 8). rewrite Z.land_ones, Z.shiftr_div_pow2 by lia. done. Qed.

Lemma be32_small s : 0 <= s < 256 -> be32 s = [0; 0; 0; s].
Proof.
  intros Hs. unfold be32. rewrite !byte_at by lia. change (s .& 0xFF) with (uchar s). rewrite uchar_mod.
  rewrite !(Z.div_small s) by lia. rewrite Z.mod_0_l, (Z.mod_small s) by lia. done.
Qed.

(** The mantissa from its three bytes, without the sign. *)
Lemma mantissa_bytes n :
  ((n / 2 ^ 16) mod 256) mod 128 * 65536 + (n / 2 ^ 8) mod 256 * 256 + n mod 256 = n mod 2 ^ 23.
Proof.
  change (2 ^ 23) with (256 * (256 * 128)). rewrite !Z.rem_mul_r by lia. change (2 ^ 8) with 256.
  rewrite Z.div_div by lia. change (256 * 256) with (2 ^ 16).
  replace (((n / 2 ^ 16) mod 256) mod 128) with ((n / 2 ^ 16) mod 128); [lia|].
  change 256 with (128 * 2) at 1. rewrite Z.rem_mul_r by lia.
  rewrite (Z.mul_comm 128), Z.mod_add by lia. by rewrite Z.mod_mod by lia.
Qed.

Lemma mpi_val_signed c l :
  byte c -> mpi_val (c :: l) = (if Z.testbit c 7 then -1 else 1) * be_val ((c mod 128) :: l).
Proof.
  intros Hc. cbn [mpi_val]. rewrite mask7. destruct (Z.testbit c 7) eqn:E; [lia|].
  rewrite top_bit_byte in E by done. apply Z.leb_gt in E. unfold word in Hc. rewrite (Z.mod_small c) by lia. lia.
Qed.

Lemma byte_bit n : Z.testbit ((n >> 16) .& 0xFF) 7 = Z.testbit n 23.
Proof.
  change ((n >> 16) .& 0xFF) with (uchar (n >> 16)). rewrite uchar_mod, Z.mod_pow2_bits_low, Z.shiftr_spec by lia. done.
Qed.

Section compact.
Context `{OpenSSL_spec}.

(** The number a compact word denotes, with its sign and of any size. *)
Definition signed_compact (n : Z) : Z := (if Z.testbit n 23 then -1 else 1) * compact_value n.

Lemma SetCompact_bytes n :
  word 32 n ->
  exists l, CBigNum_SetCompact n = BN_mpi2bn (mpi_of l) /\ Forall byte l /\ (length l < 256)%nat /\
    mpi_val l = signed_compact n.
Proof.
  intros Hn. unfold CBigNum_SetCompact, signed_compact, compact_value. rewrite (Z.shiftr_div_pow2 n 24) by lia.
  assert (0 <= n / 2 ^ 24 < 256) as Hs.
  { unfold word in Hn. split; [apply Z.div_pos; lia|apply Z.div_lt_upper_bound; lia]. }
  set (s := n / 2 ^ 24) in *. clearbody s.
  assert (forall x, byte (x .& 0xFF)) as Hbyte by (intros x; exact (uchar_byte x)).
  pose proof (byte_bit n) as Hbit. pose proof (mantissa_bytes n) as Hm. rewrite (Z.shiftr_0_r n).
  rewrite !byte_at in * by lia. change (n .& 0xFF) with (uchar n). rewrite uchar_mod. change (2 ^ 8) with 256 in *.
  pose proof (Z.mod_pos_bound (n / 2 ^ 16) 256 ltac:(lia)) as H1. pose proof (Z.mod_pos_bound (n / 256) 256 ltac:(lia)) as H2.
  pose proof (Z.mod_pos_bound n 256 ltac:(lia)) as H3. set (b1 := (n / 2 ^ 16) mod 256) in *.
  set (b2 := (n / 256) mod 256) in *. set (b3 := n mod 256) in *. pose proof (Z.mod_pos_bound b1 128 ltac:(lia)) as H4.
  rewrite <- Hm, <- Hbit. clearbody b1 b2 b3. clear Hm Hbit Hbyte Hn.
  assert (byte b1 /\ byte b2 /\ byte b3) as (Hb1&Hb2&Hb3) by (unfold word; lia).
  destruct (decide (3 <= s)) as [Hge|Hlt].
  - exists ([b1; b2; b3] ++ replicate (Z.to_nat (s - 3)) 0).
    rewrite !Z.geb_leb, !(proj2 (Z.leb_le _ s)) by lia. split.
    { f_equal. unfold mpi_of. rewrite length_app, length_replicate. cbn [length].
      replace (Z.of_nat (3 + Z.to_nat (s - 3))) with s by lia. rewrite be32_small by lia.
      replace (4 + Z.to_nat s)%nat with (7 + Z.to_nat (s - 3))%nat by lia. done. }
    split; [repeat (apply Forall_cons_2; [done|]); by apply Forall_replicate|].
    split; [rewrite length_app, length_replicate; cbn [length]; lia|].
    cbn [app]. rewrite mpi_val_signed by done. f_equal.
    change (b1 mod 128 :: b2 :: b3 :: replicate (Z.to_nat (s - 3)) 0) with ([b1 mod 128; b2; b3] ++ replicate (Z.to_nat (s - 3)) 0).
    rewrite be_val_app, be_val_zeros, length_replicate, Z2Nat.id by lia.
    unfold be_val. cbn [foldl]. destruct (Z.leb_spec s 3); [|lia].
    assert (s = 3) as -> by lia. cbn. rewrite Z.div_1_r. lia.
  - assert (s = 0 \/ s = 1 \/ s = 2) as [->|[->| ->]] by lia.
    + exists []. split_and!; [done|constructor|cbn; lia|]. cbn [mpi_val]. cbn [Z.leb Z.compare].
      change (256 ^ (3 - 0)) with (256 * 65536). rewrite Z.div_small by lia. lia.
    + exists [b1]. split_and!; [done|by apply Forall_cons_2|cbn; lia|]. rewrite mpi_val_signed by done. f_equal.
      cbn [Z.leb Z.compare Pos.compare Pos.compare_cont]. change (256 ^ (3 - 1)) with 65536.
      unfold be_val. cbn [foldl]. apply Z.div_unique with (b2 * 256 + b3); lia.
    + exists [b1; b2]. split_and!; [done|repeat (apply Forall_cons_2; [done|]); constructor|cbn; lia|]. rewrite mpi_val_signed by done. f_equal.
      cbn [Z.leb Z.compare Pos.compare Pos.compare_cont]. change (256 ^ (3 - 2)) with 256.
      unfold be_val. cbn [foldl]. apply Z.div_unique with b3; lia.
Qed.

Lemma CBigNum_SetCompact_val n : word 32 n -> bn_val (CBigNum_SetCompact n) = signed_compact n.
Proof.
  intros Hn. destruct (SetCompact_bytes n Hn) as (l&->&Hl&Hlen&<-). apply bn_mpi2bn; [done|lia].
Qed.

(** The three leading bytes of a big-endian number. *)
Lemma leading_bytes l :
  Forall byte l ->
  leading (be_val l) (Z.of_nat (length l)) =
  (if 1 <=? Z.of_nat (length l) then (l !!! 0%nat) << 16 else 0) +
  (if 2 <=? Z.of_nat (length l) then (l !!! 1%nat) << 8 else 0) +
  (if 3 <=? Z.of_nat (length l) then l !!! 2%nat else 0).
Proof.
  intros Hl. unfold leading. rewrite !Z.shiftl_mul_pow2 by lia.
  destruct l as [|b1 [|b2 [|b3 l]]]; [done|..]; repeat (apply list.Forall_cons in Hl as [? Hl]).
  - cbn [length lookup_total list_lookup_total]. change (Z.of_nat 1) with 1. unfold be_val. cbn. lia.
  - cbn [length lookup_total list_lookup_total]. change (Z.of_nat 2) with 2. unfold be_val. cbn. lia.
  - cbn [length lookup_total list_lookup_total].
    change (b1 :: b2 :: b3 :: l) with ([b1; b2; b3] ++ l). rewrite be_val_app.
    pose proof (be_val_bound l Hl) as Hb. change (be_val [b1; b2; b3]) with (((0 * 256 + b1) * 256 + b2) * 256 + b3).
    rewrite !(proj2 (Z.leb_le _ (Z.of_nat (S (S (S (length l))))))) by lia.
    destruct (Z.leb_spec (Z.of_nat (S (S (S (length l))))) 3).
    + destruct l; [|cbn in *; lia]. cbn. lia.
    + replace (Z.of_nat (S (S (S (length l)))) - 3) with (Z.of_nat (length l)) by lia.
      symmetry. apply Z.div_unique with (be_val l); lia.
Qed.

Lemma sign_bytes_pos l : be_val (sign_bytes false l) = be_val l.
Proof.
  destruct l as [|c l]; [done|]. cbn [sign_bytes]. destruct (Z.testbit c 7); [|done]. rewrite (be_val_cons 0). lia.
Qed.

Lemma lor_high x y n : 0 <= n -> word n y -> (x * 2 ^ n) .| y = x * 2 ^ n + y.
Proof. intros Hn Hy. rewrite Z.lor_comm, <- Z.shiftl_mul_pow2, lor_disjoint by done. rewrite Z.shiftl_mul_pow2 by done. lia. Qed.

Lemma join_bytes s b1 b2 b3 :
  byte b1 -> byte b2 -> byte b3 ->
  ((s * 2 ^ 24) .| (b1 << 16)) = s * 2 ^ 24 + (b1 << 16) /\
  (s * 2 ^ 24 + (b1 << 16)) .| (b2 << 8) = s * 2 ^ 24 + (b1 << 16) + (b2 << 8) /\
  (s * 2 ^ 24 + (b1 << 16) + (b2 << 8)) .| (b3 << 0) = s * 2 ^ 24 + (b1 << 16) + (b2 << 8) + b3.
Proof.
  unfold word. intros H1 H2 H3. rewrite !Z.shiftl_mul_pow2 by lia. split_and!.
  - apply lor_high; [lia|unfold word; lia].
  - replace (s * 2 ^ 24 + b1 * 2 ^ 16) with ((s * 256 + b1) * 2 ^ 16) by lia. apply lor_high; [lia|unfold word; lia].
  - replace (s * 2 ^ 24 + b1 * 2 ^ 16 + b2 * 2 ^ 8) with ((s * 65536 + b1 * 256 + b2) * 2 ^ 8) by lia.
    rewrite Z.pow_0_r, Z.mul_1_r. apply lor_high; [lia|unfold word; lia].
Qed.

Lemma CBigNum_GetCompact_val x :
  0 <= bn_val x < 2 ^ 256 -> CBigNum_GetCompact x = compact_word (bn_val x) + compact_size (bn_val x) * 2 ^ 24.
Proof.
  intros Hv. unfold CBigNum_GetCompact. rewrite bn_bn2mpi. set (v := bn_val x) in *.
  pose proof (mpi_bytes_length v ltac:(lia)) as Hlen. destruct (mpi_bytes_ok v) as [Hb _].
  assert (be_val (mpi_bytes v) = v) as Ev.
  { rewrite mpi_bytes_sign, (proj2 (Z.ltb_ge v 0)), Z.abs_eq by lia. rewrite sign_bytes_pos. apply be_bytes_ok. lia. }
  pose proof (leading_bytes _ Hb) as Hl. rewrite Ev, Hlen in Hl. unfold compact_word. rewrite Hl.
  pose proof (compact_size_bound v Hv) as Hs. unfold mpi_of. rewrite length_app. change (length (be32 _)) with 4%nat.
  replace (Z.of_nat (4 + length (mpi_bytes v)) - 4) with (compact_size v) by lia.
  rewrite !lookup_total_app_r by (cbn; lia). change (length (be32 _)) with 4%nat. cbn [Nat.sub].
  unfold u32. rewrite Z.shiftl_mul_pow2, !(Z.mod_small (compact_size v)) by lia.
  rewrite (Z.mod_small (_ * _)) by lia. set (s := compact_size v) in *.
  assert (forall i, byte (mpi_bytes v !!! i)) as Hbyte by (intros i; by apply (lookup_total_Forall byte)).
  destruct (join_bytes s _ _ _ (Hbyte 0%nat) (Hbyte 1%nat) (Hbyte 2%nat)) as (J1&J2&J3). rewrite !Z.geb_leb.
  destruct (Z.leb_spec 1 s), (Z.leb_spec 2 s), (Z.leb_spec 3 s); try lia; rewrite ?J1, ?J2, ?J3; lia.
Qed.
End compact.

(** ** What the class promises *)

(** The conversions of [CBigNum] are exact: a number from any [int64_t], [uint64_t] or
    256-bit array has that value, the arrays and words read back are those of the
    magnitude, truncated to the type, and [setvch] reads what [getvch] writes. *)
Theorem bignum_conversions `{OpenSSL_spec} :
  (forall n, - 2 ^ 63 <= n < 2 ^ 63 -> bn_val (setint64 n) = n) /\
  (forall n, word 64 n -> bn_val (setuint64 n) = n /\ getuint64 (setuint64 n) = n) /\
  (forall l, Forall byte l -> length l = 32%nat ->
     bn_val (setuint256 l) = load_le 32 l /\ getuint256 (setuint256 l) = l) /\
  (forall x, getuint256 x = store_le 32 (Z.abs (bn_val x))) /\
  (forall x, Z.of_nat (length (mpi_bytes (bn_val x))) < 2 ^ 31 -> bn_val (setvch (getvch x)) = bn_val x).
Proof.
  split; [apply setint64_val|]. split.
  { intros n Hn. pose proof (setuint64_val n Hn) as E. split; [done|]. unfold getuint64. rewrite get_bytes_val, E, Z.abs_eq.
    - by apply (load_le_store_le 8).
    - apply Hn. }
  split.
  { intros l Hl Hlen. pose proof (setuint256_val l Hl Hlen) as E. split; [done|]. unfold getuint256.
    rewrite get_bytes_val, E, Z.abs_eq by (apply (load_le_word 32); [done|lia]). by apply store_le_load_le. }
  split; [intros x; apply get_bytes_val|intros x; apply setvch_getvch].
Qed.

Lemma bignum_conversions_witness :
  bn_val (setint64 (H := Z_OpenSSL) (-5000000000)) = -5000000000.
Proof. apply (proj1 (bignum_conversions (H := Z_OpenSSL) (H0 := Z_OpenSSL_spec)) (-5000000000)). lia. Defined.

(** The compact format of [CBigNum], which goes through OpenSSL's byte format, and that
    of [arith_uint256], which shifts, are the same: they write the same word for every
    256-bit number, and read the same number from every word that is neither negative
    nor too large. *)
Theorem bignum_compact_equiv `{OpenSSL_spec} :
  (forall x a, uint_ok a -> bn_val x = val a -> GetCompact a false = Some (CBigNum_GetCompact x)) /\
  (forall n, word 32 n ->
     let '(a, fNegative, fOverflow) := SetCompact n in
     fNegative = false -> fOverflow = false -> bn_val (CBigNum_SetCompact n) = val a) /\
  (forall n, word 32 n -> bn_val (CBigNum_SetCompact n) = signed_compact n).
Proof.
  split.
  { intros x a Ha E. rewrite GetCompact_spec by done. cbn [andb]. pose proof (val_ok a Ha).
    rewrite CBigNum_GetCompact_val, E by lia. f_equal. lia. }
  split; [|intros n Hn; by apply CBigNum_SetCompact_val].
  intros n Hn. pose proof (SetCompact_spec n Hn) as Hs. destruct (SetCompact n) as [[a neg] ov].
  destruct Hs as (_&Ev&->&->). intros Hneg Hov%Z.leb_gt. rewrite CBigNum_SetCompact_val by done. unfold signed_compact.
  assert (0 <= compact_value n) as H1.
  { unfold compact_value. pose proof (Z.mod_pos_bound n (2 ^ 23) ltac:(lia)).
    destruct (n / 2 ^ 24 <=? 3); [apply Z_div_nonneg_nonneg|apply Z.mul_nonneg_nonneg]; try apply Z.pow_nonneg; lia. }
  rewrite Ev, Z.mod_small by lia. destruct (Z.eqb_spec (compact_value n) 0) as [->|]; [by destruct (Z.testbit n 23)|].
  cbn [negb andb] in Hneg. rewrite Hneg. lia.
Qed.

Lemma bignum_compact_equiv_witness :
  GetCompact (of_uint64 0x1234560000) false = Some (CBigNum_GetCompact (H := Z_OpenSSL) 0x1234560000).
Proof.
  apply (proj1 (bignum_compact_equiv (H := Z_OpenSSL) (H0 := Z_OpenSSL_spec))); [|reflexivity].
  exact (proj1 (of_uint64_spec 0x1234560000 ltac:(done))).
Defined.
