(* ===== verification/Pow.v ===== *)
(** * Proof of work and difficulty: [src/src/pow.cpp], parts of [src/src/main.cpp] and [src/src/pos.cpp]

    The retargeting rules over the block index, once with [arith_uint256] (the rule the
    code inherits) and once with [CBigNum] (the rule the chain uses), the check of a
    header's hash against its target, and the reward schedule. *)

From S2P Require Import Prelude SphTypes ArithUint256 BlockIndex BigNum.

#[local] Open Scope Z_scope.
#[local] Open Scope c_scope.

(** [int64_t] results; overflow is undefined. *)
Definition int64 (x : Z) : option Z := if bool_decide (- 2 ^ 63 <= x < 2 ^ 63) then Some x else None.

(** Conversion to [int]. *)
Definition to_int32 (x : Z) : Z := let x := u32 x in if x <? 2 ^ 31 then x else x - 2 ^ 32.

(** The fields of [Consensus::Params] these functions read. *)
Record Params := mkParams {
  powLimit : uint256;
  fPowAllowMinDifficultyBlocks : bool;
  fPowNoRetargeting : bool;
  nPowTargetSpacing : Z;
  nPowTargetTimespan : Z;
  nLastPOWBlock : Z;
  nTargetSpacing : Z;
  nTargetTimespan : Z }.

(** [None] is a division by zero. *)
Definition DifficultyAdjustmentInterval (params : Params) : option Z :=
  if nPowTargetSpacing params =? 0 then None else Some (Z.quot (nPowTargetTimespan params) (nPowTargetSpacing params)).

(** [CalculateNextWorkRequired].  [bnNew *= nActualTimespan] multiplies by a [uint32_t],
    [bnNew /= params.nPowTargetTimespan] divides by the conversion of a [uint64_t]. *)
Definition CalculateNextWorkRequired (pindexLast : CBlockIndex) (nFirstBlockTime : Z) (params : Params) : option Z :=
  if fPowNoRetargeting params then Some (nBits pindexLast)
  else
    nActualTimespan ← int64 (GetBlockTime pindexLast - nFirstBlockTime);
    let nActualTimespan :=
      if nActualTimespan <? Z.quot (nPowTargetTimespan params) 4 then Z.quot (nPowTargetTimespan params) 4
      else nActualTimespan in
    max ← int64 (nPowTargetTimespan params * 4);
    let nActualTimespan := if nActualTimespan >? max then max else nActualTimespan in
    let bnPowLimit := UintToArith256 (powLimit params) in
    let '(bnNew, _, _) := SetCompact (nBits pindexLast) in
    let bnNew := op_mul32 bnNew (u32 nActualTimespan) in
    bnNew ← op_div bnNew (of_uint64 (u64 (nPowTargetTimespan params)));
    let bnNew := if op_gt bnNew bnPowLimit then bnPowLimit else bnNew in
    GetCompact bnNew false.

(** [while (pindex->pprev && pindex->nHeight % interval != 0 && pindex->nBits == nProofOfWorkLimit)] *)
Fixpoint last_normal (fuel : nat) (h : heap) (pindex : ptr) (interval nProofOfWorkLimit : Z) : option Z :=
  b ← h !! pindex;
  match pprev b with
  | Some q =>
    if negb (Z.rem (nHeight b) interval =? 0) && (nBits b =? nProofOfWorkLimit) then
      match fuel with
      | O => None
      | S fuel => last_normal fuel h q interval nProofOfWorkLimit
      end
    else Some (nBits b)
  | None => Some (nBits b)
  end.

Definition GetNextWorkRequired (h : heap) (pindexLast : option ptr) (pblock : CBlockHeader) (params : Params) : option Z :=
  nProofOfWorkLimit ← GetCompact (UintToArith256 (powLimit params)) false;
  match pindexLast with
  | None => Some nProofOfWorkLimit
  | Some p =>
    b ← h !! p;
    interval ← DifficultyAdjustmentInterval params;
    next ← int (nHeight b + 1);
    if interval =? 0 then None
    else if negb (Z.rem next interval =? 0) then
      if fPowAllowMinDifficultyBlocks params then
        limit ← int64 (GetBlockTime b + nPowTargetSpacing params * 2);
        if hdr_nTime pblock >? limit then Some nProofOfWorkLimit
        else last_normal (Z.to_nat (nHeight b)) h p interval nProofOfWorkLimit
      else Some (nBits b)
    else
      let nHeightFirst := to_int32 (nHeight b - (interval - 1)) in
      if nHeightFirst >=? 0 then
        o ← GetAncestor h p nHeightFirst;
        q ← o;
        bFirst ← h !! q;
        CalculateNextWorkRequired b (GetBlockTime bFirst) params
      else None
  end.

(** [height] is [chainActive.Height()]. *)
Definition CheckProofOfWork (height : Z) (hash : uint256) (nBits : Z) (params : Params) : bool :=
  if height >=? nLastPOWBlock params then true
  else
    let '(bnTarget, fNegative, fOverflow) := SetCompact nBits in
    if fNegative || EqualTo bnTarget 0 || fOverflow || op_gt bnTarget (UintToArith256 (powLimit params)) then false
    else if op_gt (UintToArith256 hash) bnTarget then false
    else true.

(** [ComputeMaxBits]: [while (nTime > 0 && bnResult < bnTargetLimit)]; each turn takes a day
    off [nTime]. *)
Fixpoint max_bits_loop (fuel : nat) (bnResult bnTargetLimit : base_uint) (nTime : Z) : option base_uint :=
  if (nTime >? 0) && op_lt bnResult bnTargetLimit then
    match fuel with
    | O => None
    | S fuel => max_bits_loop fuel (op_mul32 bnResult 2) bnTargetLimit (nTime - 24 * 60 * 60)
    end
  else Some bnResult.

Definition ComputeMaxBits (bnTargetLimit : base_uint) (nBase nTime : Z) : option Z :=
  let '(bnResult, _, _) := SetCompact nBase in
  let bnResult := op_mul32 bnResult 2 in
  bnResult ← max_bits_loop (Z.to_nat nTime) bnResult bnTargetLimit nTime;
  let bnResult := if op_gt bnResult bnTargetLimit then bnTargetLimit else bnResult in
  GetCompact bnResult false.

(** [bnProofOfStakeLimit], [bnProofOfStakeLimitV2] *)
Definition bnProofOfStakeLimit : base_uint := op_shr (op_compl zero_uint) 20.
Definition bnProofOfStakeLimitV2 : base_uint := op_shr (op_compl zero_uint) 20.

Definition GetProofOfStakeLimit (nHeight : Z) : base_uint := bnProofOfStakeLimitV2.

Definition ComputedMinStake (nBase nTime nBlockTime : Z) : option Z := ComputeMaxBits bnProofOfStakeLimit nBase nTime.

Section target.
Context `{OpenSSL}.

(** The end of [GetNextTargetRequired], from the old target on.  The arithmetic is that of
    [CBigNum]; [nTargetTimespan / nTargetSpacing] is unsigned. *)
Definition move_target (params : Params) (nBits nActualSpacing : Z) (bnTargetLimit : BIGNUM) : option Z :=
  let bnNew := CBigNum_SetCompact nBits in
  if u32 (nTargetSpacing params) =? 0 then None
  else
    let nInterval := setulong (nTargetTimespan params / u32 (nTargetSpacing params)) in
    let spacing := if nTargetSpacing params >=? 0 then setulong (nTargetSpacing params)
                   else setint64 (nTargetSpacing params) in
    let actual := if nActualSpacing >=? 0 then setulong nActualSpacing else setint64 nActualSpacing in
    m ← BN_sub nInterval (setulong 1);
    m ← BN_mul m spacing;
    m ← BN_add m actual;
    m ← BN_add m actual;
    bnNew ← BN_mul bnNew m;
    d ← BN_add nInterval (setulong 1);
    d ← BN_mul d spacing;
    bnNew ← BN_div bnNew d;
    let bnNew := if bn_le bnNew (setulong 0) || bn_gt bnNew bnTargetLimit then bnTargetLimit else bnNew in
    Some (CBigNum_GetCompact bnNew).

(** [GetNextTargetRequired]; [bnProofOfWorkLimit] is [Params().ProofOfWorkLimit()].  [None]
    when a null pointer is followed or an operation throws. *)
Definition GetNextTargetRequired (h : heap) (bnProofOfWorkLimit : base_uint) (params : Params)
    (pindexLast : option ptr) (fProofOfStake : bool) : option Z :=
  limit ← if fProofOfStake : bool
          then p ← pindexLast; b ← h !! p; Some (GetProofOfStakeLimit (nHeight b))
          else Some bnProofOfWorkLimit;
  let bnTargetLimit := setuint256 (ArithToUint256 limit) in
  match pindexLast with
  | None => Some (CBigNum_GetCompact bnTargetLimit)
  | Some _ =>
    o ← GetLastBlockIndex h pindexLast fProofOfStake;
    p ← o; prev ← h !! p;
    match pprev prev with
    | None => Some (CBigNum_GetCompact bnTargetLimit)
    | Some _ =>
      o ← GetLastBlockIndex h (pprev prev) fProofOfStake;
      q ← o; prevPrev ← h !! q;
      match pprev prevPrev with
      | None => Some (CBigNum_GetCompact bnTargetLimit)
      | Some _ =>
        nActualSpacing ← int64 (GetBlockTime prev - GetBlockTime prevPrev);
        let nActualSpacing := if nActualSpacing <? 0 then nTargetSpacing params else nActualSpacing in
        move_target params (nBits prev) nActualSpacing bnTargetLimit
      end
    end
  end.
End target.

Definition COIN : Z := 100000000.

(** [GetProofOfStakeReward]; the coin age and the previous block are not used. *)
Definition GetProofOfStakeReward (nHeight nCoinAge nFees : Z) : option Z :=
  let nRewardCoinBlock :=
    if (nHeight >? 100) && (nHeight <=? 986175) then 12
    else if (nHeight >? 986175) && (nHeight <=? 1972350) then 6
    else if (nHeight >? 1972350) && (nHeight <=? 3944700) then 3
    else 0 in
  let nSubsidy := nRewardCoinBlock * COIN in
  int64 (nSubsidy + nFees).

(** [GetBlockSubsidy]: what a coinbase may create; the division is of integers. *)
Definition GetBlockSubsidy (nHeight : Z) : Z :=
  if nHeight <=? 100 then (7889400 / 100) * COIN else 12 * COIN.

(** ** Retargeting with [arith_uint256] *)

Lemma int64_Some x : - 2 ^ 63 <= x < 2 ^ 63 -> int64 x = Some x.
Proof. intros H. unfold int64. by rewrite bool_decide_true. Qed.

Lemma to_int32_id x : - 2 ^ 31 <= x < 2 ^ 31 -> to_int32 x = x.
Proof.
  intros Hx. unfold to_int32, u32. destruct (decide (0 <= x)).
  - rewrite Z.mod_small, (proj2 (Z.ltb_lt _ _)) by lia. done.
  - replace (x mod 2 ^ 32) with (x + 2 ^ 32) by (apply Z.mod_unique with (-1); lia).
    rewrite (proj2 (Z.ltb_ge _ _)) by lia. lia.
Qed.

(** The array of a hash or of the limit. *)
Definition hash_ok (l : uint256) : Prop := Forall byte l /\ length l = 32%nat.

(** Parameters for which the arithmetic of the rule does not overflow. *)
Record params_ok (params : Params) : Prop := {
  limit_ok : hash_ok (powLimit params);
  timespan_ok : 0 < nPowTargetTimespan params < 2 ^ 30 }.

(** The time between the blocks, within a factor of four of the target. *)
Definition clamp_timespan (t actual : Z) : Z := Z.min (Z.max actual (t / 4)) (t * 4).

Lemma CalculateNextWorkRequired_spec b first params :
  params_ok params -> fPowNoRetargeting params = false -> word 32 (nBits b) -> word 32 (nTime b) -> word 32 first ->
  let t := nPowTargetTimespan params in
  let limit := load_le 32 (powLimit params) in
  let old := compact_value (nBits b) in
  let ts := clamp_timespan t (nTime b - first) in
  exists a, uint_ok a /\ val a = Z.min limit ((old mod 2 ^ 256 * ts) mod 2 ^ 256 / t) /\
    CalculateNextWorkRequired b first params = GetCompact a false.
Proof.
  intros [[Hlb Hll] Ht] Hre Hbits Htime Hfirst t limit old ts. unfold CalculateNextWorkRequired. rewrite Hre.
  unfold word in *. unfold GetBlockTime. rewrite int64_Some by lia. cbn [mbind option_bind].
  rewrite int64_Some by lia. cbn [mbind option_bind]. fold t. rewrite Z.quot_div_nonneg by lia.
  assert ((if (if nTime b - first <? t / 4 then t / 4 else nTime b - first) >? t * 4 then t * 4
           else (if nTime b - first <? t / 4 then t / 4 else nTime b - first)) = ts) as ->.
  { unfold ts, clamp_timespan. rewrite Z.gtb_ltb. destruct (Z.ltb_spec (nTime b - first) (t / 4)).
    - destruct (Z.ltb_spec (t * 4) (t / 4)); lia.
    - destruct (Z.ltb_spec (t * 4) (nTime b - first)); lia. }
  assert (0 <= t / 4) by (apply Z.div_pos; lia). assert (0 <= ts < 2 ^ 32) as Hts by (unfold ts, clamp_timespan; lia).
  unfold u32, u64. rewrite (Z.mod_small ts), (Z.mod_small t) by lia.
  pose proof (SetCompact_spec (nBits b) Hbits) as Hs. destruct (SetCompact (nBits b)) as [[a0 neg] ov].
  destruct Hs as (Ha0&Ev&_). destruct (op_mul32_spec a0 ts Ha0 Hts) as [Hm Em].
  destruct (of_uint64_spec t) as [Hto Eto]; [unfold word; lia|].
  pose proof (op_div_spec _ _ Hm Hto) as Hd. destruct (op_div _ _) as [q|]; [|lia]. destruct Hd as (_&Hq&Eq).
  cbn [mbind option_bind]. destruct (UintToArith256_spec (powLimit params) Hlb Hll) as (Hlim&_&Elim).
  destruct (op_cmp_spec q (UintToArith256 (powLimit params)) Hq Hlim) as (->&_).
  rewrite Elim. fold limit. fold old in Ev. rewrite Em, Ev, Eto in Eq.
  destruct (Z.ltb_spec limit (val q)).
  - exists (UintToArith256 (powLimit params)). rewrite Elim. fold limit. split; [done|]. split; [lia|done].
  - exists q. split; [done|]. split; [lia|done].
Qed.

(** ** The check of a hash *)

Lemma CheckProofOfWork_spec height hash n params :
  hash_ok hash -> hash_ok (powLimit params) -> word 32 n ->
  CheckProofOfWork height hash n params =
  (nLastPOWBlock params <=? height) ||
  (negb (Z.testbit n 23) && (0 <? compact_value n) && (compact_value n <=? load_le 32 (powLimit params)) &&
   (load_le 32 hash <=? compact_value n)).
Proof.
  intros [Hh Hhl] [Hp Hpl] Hn. unfold CheckProofOfWork. rewrite Z.geb_leb.
  destruct (nLastPOWBlock params <=? height); [done|]. cbn [orb].
  pose proof (SetCompact_spec n Hn) as Hs. destruct (SetCompact n) as [[a neg] ov]. destruct Hs as (Ha&Ev&->&->).
  destruct (UintToArith256_spec hash Hh Hhl) as (Hha&_&Eh). destruct (UintToArith256_spec _ Hp Hpl) as (Hpa&_&Ep).
  rewrite EqualTo_spec by done. destruct (op_cmp_spec a _ Ha Hpa) as (->&_). destruct (op_cmp_spec _ a Hha Ha) as (->&_).
  rewrite Eh, Ep. pose proof (val_ok _ Hpa) as Hb. rewrite Ep in Hb. destruct (compact_value_shape n Hn) as [H0 _].
  rewrite Ev. set (t := compact_value n) in *. set (lim := load_le 32 (powLimit params)) in *.
  destruct (Z.leb_spec (2 ^ 256) t).
  { rewrite orb_true_r. cbn [orb]. rewrite (proj2 (Z.leb_gt t lim)) by lia. by rewrite andb_false_r. }
  rewrite Z.mod_small by lia. destruct (Z.eqb_spec t 0) as [->|Hne]; [by destruct (Z.testbit n 23)|].
  destruct (Z.testbit n 23); [done|]. cbn [negb andb orb]. rewrite (proj2 (Z.ltb_lt 0 t)) by lia. cbn [andb].
  destruct (Z.ltb_spec lim t), (Z.leb_spec t lim); try lia; try done.
  destruct (Z.ltb_spec t (load_le 32 hash)), (Z.leb_spec (load_le 32 hash) t); try lia; done.
Qed.

(** ** Retargeting with [CBigNum] *)

(** The nearest block of a kind, or the first block of the chain. *)
Lemma GetLastBlockIndex_loop_spec fuel h p b f :
  index_ok h -> h !! p = Some b -> nHeight b <= Z.of_nat fuel ->
  exists q bq k, GetLastBlockIndex_loop fuel h p f = Some q /\ h !! q = Some bq /\ back h k p = Some q /\
    (pprev bq = None \/ IsProofOfStake bq = f) /\
    forall j x bx, (j < k)%nat -> back h j p = Some x -> h !! x = Some bx -> IsProofOfStake bx <> f.
Proof.
  intros Hok. revert p b. induction fuel as [|fuel IH]; intros p b Hp Hf; cbn [GetLastBlockIndex_loop]; rewrite Hp;
    cbn [mbind option_bind]; destruct (Hok p b Hp) as (Hr&Hprev&_); unfold prev_ok in Hprev;
    destruct (pprev b) as [q|] eqn:Ep; try (exists p, b, O; split_and!; [done|done|done|by auto|intros; lia]).
  - destruct Hprev as (bq&Hq&E). destruct (Hok q bq Hq) as (?&_). lia.
  - destruct Hprev as (bq&Hq&E). destruct (IsProofOfStake b) eqn:Eb, f eqn:Ef; cbn [eqb negb];
      try (exists p, b, O; split_and!; [done|done|done|by auto|intros; lia]).
    all: destruct (IH q bq Hq ltac:(lia)) as (r&br&k&H1&H2&H3&H4&H5); exists r, br, (S k);
      cbn [back]; rewrite Hp; cbn [mbind option_bind]; rewrite Ep; cbn [mbind option_bind]; split_and!; try done;
      intros [|j] x bx Hj Hx Hbx; [injection Hx as <-; rewrite Hp in Hbx; injection Hbx as <-; congruence|];
      cbn [back] in Hx; rewrite Hp in Hx; cbn [mbind option_bind] in Hx; rewrite Ep in Hx; apply (H5 j x bx); [lia|done|done].
Qed.

Lemma GetLastBlockIndex_spec h p b f :
  index_ok h -> h !! p = Some b ->
  exists q bq, GetLastBlockIndex h (Some p) f = Some (Some q) /\ h !! q = Some bq /\
    (pprev bq = None \/ IsProofOfStake bq = f).
Proof.
  intros Hok Hp. destruct (Hok p b Hp) as (Hr&_). unfold GetLastBlockIndex. rewrite Hp. cbn [mbind option_bind].
  destruct (GetLastBlockIndex_loop_spec (Z.to_nat (nHeight b)) h p b f Hok Hp ltac:(lia)) as (q&bq&k&->&H1&_&H2&_).
  by exists q, bq.
Qed.

(** The word that encodes a target. *)
Definition encode (v : Z) : Z := compact_word v + compact_size v * 2 ^ 24.

(** The rule: the old target moves toward the target spacing, and stays positive and within
    the limit. *)
Definition retarget (params : Params) (old actual limit : Z) : Z :=
  let interval := nTargetTimespan params / nTargetSpacing params in
  let spacing := nTargetSpacing params in
  let v := Z.quot (old * ((interval - 1) * spacing + actual + actual)) ((interval + 1) * spacing) in
  if (v <=? 0) || (limit <? v) then limit else v.

Record target_params_ok (params : Params) : Prop := {
  spacing_ok : 0 < nTargetSpacing params < 2 ^ 31;
  target_timespan_ok : word 32 (nTargetTimespan params) }.

Section target_spec.
Context `{OpenSSL_spec}.
Context (h : heap) (Hok : index_ok h).
Context (Hwords : map_Forall (fun _ b => word 32 (nBits b) /\ word 32 (nTime b)) h).
Context (bnProofOfWorkLimit : base_uint) (Hlimit : uint_ok bnProofOfWorkLimit).
Context (params : Params) (Hparams : target_params_ok params).

Definition target_limit (fProofOfStake : bool) : base_uint :=
  if fProofOfStake then bnProofOfStakeLimitV2 else bnProofOfWorkLimit.

Lemma target_limit_ok f : uint_ok (target_limit f).
Proof.
  destruct f; [|done]. apply op_shr_spec; [|lia]. apply op_compl_ok. apply zero_uint_ok.
Qed.

Lemma limit_bn f : bn_val (setuint256 (ArithToUint256 (target_limit f))) = val (target_limit f).
Proof.
  pose proof (target_limit_ok f) as Hl. destruct (ArithToUint256_spec _ Hl) as [E _]. rewrite E.
  rewrite setuint256_val by (apply store_le_bytes || apply length_store_le).
  apply (load_le_store_le 32). by apply val_ok.
Qed.

Lemma limit_compact f : CBigNum_GetCompact (setuint256 (ArithToUint256 (target_limit f))) = encode (val (target_limit f)).
Proof. rewrite CBigNum_GetCompact_val; rewrite limit_bn; [done|]. apply val_ok, target_limit_ok. Qed.

Lemma setulong_val n : 0 <= n < 2 ^ 64 -> bn_val (setulong n) = n.
Proof. apply bn_set_word. Qed.

Lemma sign_le x y : (sign (x ?= y) <=? 0) = (x <=? y).
Proof. unfold Z.leb. by destruct (x ?= y). Qed.

Lemma sign_gt x y : (sign (x ?= y) >? 0) = (y <? x).
Proof. rewrite Z.gtb_ltb. unfold Z.ltb at 2. rewrite Z.compare_antisym. by destruct (y ?= x). Qed.

Lemma retarget_bounds old actual limit : 0 <= limit -> 0 <= retarget params old actual limit <= limit.
Proof.
  intros Hl. unfold retarget. destruct (_ || _) eqn:E; [lia|].
  apply orb_false_iff in E as [E1%Z.leb_gt E2%Z.ltb_ge]. lia.
Qed.

Lemma move_target_spec n actual f :
  word 32 n -> 0 <= actual < 2 ^ 63 ->
  move_target params n actual (setuint256 (ArithToUint256 (target_limit f))) =
  Some (encode (retarget params (signed_compact n) actual (val (target_limit f)))).
Proof.
  intros Hn Hact. destruct Hparams as [Hsp Hts]. unfold word in Hts. unfold move_target.
  rewrite (u32_small (nTargetSpacing params)) by lia. rewrite (proj2 (Z.eqb_neq _ 0)) by lia.
  rewrite !Z.geb_leb, !(proj2 (Z.leb_le 0 _)) by lia.
  assert (0 <= nTargetTimespan params / nTargetSpacing params < 2 ^ 32) as Hint.
  { split; [apply Z.div_pos; lia|]. apply Z.div_lt_upper_bound; nia. }
  set (I := nTargetTimespan params / nTargetSpacing params) in *. set (T := nTargetSpacing params) in *.
  destruct (bn_sub (setulong I) (setulong 1)) as (m1&->&E1). cbn [mbind option_bind].
  destruct (bn_mul m1 (setulong T)) as (m2&->&E2). cbn [mbind option_bind].
  destruct (bn_add m2 (setulong actual)) as (m3&->&E3). cbn [mbind option_bind].
  destruct (bn_add m3 (setulong actual)) as (m4&->&E4). cbn [mbind option_bind].
  destruct (bn_mul (CBigNum_SetCompact n) m4) as (m5&->&E5). cbn [mbind option_bind].
  destruct (bn_add (setulong I) (setulong 1)) as (d1&->&F1). cbn [mbind option_bind].
  destruct (bn_mul d1 (setulong T)) as (d2&->&F2). cbn [mbind option_bind].
  rewrite !setulong_val in * by lia. rewrite CBigNum_SetCompact_val in E5 by done.
  destruct (bn_div m5 d2) as (m6&->&E6); [nia|]. cbn [mbind option_bind]. f_equal.
  unfold bn_le, bn_gt. rewrite !bn_cmp, limit_bn, setulong_val, sign_le, sign_gt by lia.
  pose proof (val_ok _ (target_limit_ok f)) as Hlim.
  pose proof (retarget_bounds (signed_compact n) actual (val (target_limit f)) ltac:(lia)) as Hb.
  unfold retarget in *. cbv zeta in Hb |- *. fold T in Hb |- *. fold I in Hb |- *.
  rewrite E5, E4, E3, E2, E1, F2, F1 in E6. rewrite <- E6 in Hb |- *.
  destruct (_ || _); rewrite CBigNum_GetCompact_val; rewrite ?limit_bn; done || lia.
Qed.

(** What the function computes for a block that has one. *)
Lemma GetNextTargetRequired_spec p b f :
  h !! p = Some b ->
  let lim := val (target_limit f) in
  exists q bq, GetLastBlockIndex h (Some p) f = Some (Some q) /\ h !! q = Some bq /\
  match pprev bq with
  | None => GetNextTargetRequired h bnProofOfWorkLimit params (Some p) f = Some (encode lim)
  | Some q1 => exists r br, GetLastBlockIndex h (Some q1) f = Some (Some r) /\ h !! r = Some br /\
    match pprev br with
    | None => GetNextTargetRequired h bnProofOfWorkLimit params (Some p) f = Some (encode lim)
    | Some _ =>
      let actual := nTime bq - nTime br in
      GetNextTargetRequired h bnProofOfWorkLimit params (Some p) f =
      Some (encode (retarget params (signed_compact (nBits bq)) (if actual <? 0 then nTargetSpacing params else actual) lim))
    end
  end.
Proof.
  intros Hp lim. destruct (GetLastBlockIndex_spec h p b f Hok Hp) as (q&bq&Eq&Hq&_). exists q, bq. split; [done|]. split; [done|].
  assert (forall A (k : base_uint -> option A), (l ← (if f then p0 ← Some p; b0 ← h !! p0; Some (GetProofOfStakeLimit (nHeight b0))
    else Some bnProofOfWorkLimit); k l) = k (target_limit f)) as Hl.
  { intros A k. destruct f; cbn [mbind option_bind]; [rewrite Hp|]; done. }
  unfold GetNextTargetRequired. rewrite Hl, limit_compact, Eq. cbn [mbind option_bind]. rewrite Hq. cbn [mbind option_bind].
  destruct (pprev bq) as [q1|] eqn:Ep; [|done]. destruct (Hok q bq Hq) as (_&Hprev&_). unfold prev_ok in Hprev. rewrite Ep in Hprev.
  destruct Hprev as (b1&Hq1&_). destruct (GetLastBlockIndex_spec h q1 b1 f Hok Hq1) as (r&br&Er&Hr&_).
  exists r, br. split; [done|]. split; [done|]. rewrite Er. cbn [mbind option_bind]. rewrite Hr. cbn [mbind option_bind].
  destruct (pprev br) as [r1|]; [|done]. destruct (Hwords q bq Hq) as [Hb1 Ht1], (Hwords r br Hr) as [Hb2 Ht2].
  cbv zeta. unfold GetBlockTime. unfold word in Ht1, Ht2. rewrite int64_Some by lia. cbn [mbind option_bind].
  apply move_target_spec; [done|]. destruct (spacing_ok _ Hparams). destruct (Z.ltb_spec (nTime bq - nTime br) 0); lia.
Qed.
End target_spec.

(** ** [GetNextWorkRequired] *)

Lemma last_normal_spec fuel h p b interval limit :
  index_ok h -> h !! p = Some b -> nHeight b <= Z.of_nat fuel ->
  exists k q bq, last_normal fuel h p interval limit = Some (nBits bq) /\ back h k p = Some q /\ h !! q = Some bq.
Proof.
  intros Hok. revert p b. induction fuel as [|fuel IH]; intros p b Hp Hf; cbn [last_normal]; rewrite Hp;
    cbn [mbind option_bind]; destruct (Hok p b Hp) as (Hr&Hprev&_); unfold prev_ok in Hprev;
    destruct (pprev b) as [q|] eqn:Ep; try (by exists O, p, b).
  - destruct Hprev as (bq&Hq&E). destruct (Hok q bq Hq) as (?&_). lia.
  - destruct Hprev as (bq&Hq&E). destruct (negb _ && _); [|by exists O, p, b].
    destruct (IH q bq Hq ltac:(lia)) as (k&r&br&H1&H2&H3). exists (S k), r, br. split; [done|]. split; [|done].
    cbn [back]. rewrite Hp. cbn [mbind option_bind]. by rewrite Ep.
Qed.

Lemma GetCompact_encode a : uint_ok a -> GetCompact a false = Some (encode (val a)).
Proof. intros Ha. rewrite GetCompact_spec by done. cbn [andb]. by rewrite Z.add_0_r. Qed.

(** ** The reward schedule *)

(** Coins created at a height. *)
Definition subsidy (nHeight : Z) : Z := default 0 (GetProofOfStakeReward nHeight 0 0).

Definition MAX_MONEY : Z := 31557600 * COIN.

(** The sum of a schedule with three periods. *)
Definition schedule_sum (n : Z) : Z :=
  12 * Z.max 0 (Z.min n 986175 - 100) + 6 * Z.max 0 (Z.min n 1972350 - 986175) +
  3 * Z.max 0 (Z.min n 3944700 - 1972350).

Lemma reward_value nHeight age fees :
  0 <= fees < 2 ^ 62 ->
  exists s, GetProofOfStakeReward nHeight age fees = Some (s + fees) /\ s = subsidy nHeight /\ 0 <= s <= 12 * COIN /\
    s = (schedule_sum nHeight - schedule_sum (nHeight - 1)) * COIN.
Proof.
  intros Hf. unfold subsidy, GetProofOfStakeReward, schedule_sum. unfold COIN. rewrite !Z.gtb_ltb.
  destruct (Z.ltb_spec 100 nHeight), (Z.leb_spec nHeight 986175), (Z.ltb_spec 986175 nHeight),
    (Z.leb_spec nHeight 1972350), (Z.ltb_spec 1972350 nHeight), (Z.leb_spec nHeight 3944700); try lia; cbn [andb];
    (eexists; rewrite !int64_Some by lia; cbn [from_option id]; split; [done|]; split_and!; lia).
Qed.

(** ** What the rules promise *)

(** C2: A header passes [CheckProofOfWork] exactly when the chain has passed the last block
    of proof of work, or its target is positive, not negative and within the limit, and
    its hash, read as a little-endian number, does not exceed the target. *)
Theorem check_proof_of_work_iff height hash n params :
  hash_ok hash -> hash_ok (powLimit params) -> word 32 n ->
  CheckProofOfWork height hash n params = true <->
  nLastPOWBlock params <= height \/
  (Z.testbit n 23 = false /\ 0 < compact_value n <= load_le 32 (powLimit params) /\ load_le 32 hash <= compact_value n).
Proof.
  intros Hh Hp Hn. rewrite CheckProofOfWork_spec by done.
  rewrite orb_true_iff, !andb_true_iff, negb_true_iff, !Z.leb_le, Z.ltb_lt. tauto.
Qed.

Lemma check_proof_of_work_iff_witness :
  let params := mkParams (store_le 32 (2 ^ 240 - 1)) false false 30 30 100 150 750 in
  CheckProofOfWork 5 (store_le 32 12345) 0x1e00ffff params = true <->
  nLastPOWBlock params <= 5 \/
  (Z.testbit 0x1e00ffff 23 = false /\ 0 < compact_value 0x1e00ffff <= load_le 32 (powLimit params) /\
   load_le 32 (store_le 32 12345) <= compact_value 0x1e00ffff).
Proof.
  apply (check_proof_of_work_iff 5 (store_le 32 12345) 0x1e00ffff
           (mkParams (store_le 32 (2 ^ 240 - 1)) false false 30 30 100 150 750)); [split..|done].
  all: apply store_le_bytes || apply length_store_le.
Defined.

(** The retargeting rule of [pow.cpp] never fails an assertion, never divides by zero and
    ends, and what it returns is the encoded limit, the word of an ancestor, or the
    encoding of a target within the limit: the old one times the time of the interval,
    within a factor of four, over the target time. *)
Theorem next_work_required h p b pblock params interval :
  index_ok h -> map_Forall (fun _ b => word 32 (nBits b) /\ word 32 (nTime b)) h -> params_ok params ->
  DifficultyAdjustmentInterval params = Some interval -> 0 < interval < 2 ^ 31 -> 0 <= nPowTargetSpacing params < 2 ^ 61 ->
  h !! p = Some b -> nHeight b + 1 < 2 ^ 31 ->
  let limit := load_le 32 (powLimit params) in
  exists n, GetNextWorkRequired h (Some p) pblock params = Some n /\
    (n = encode limit \/ (exists k q bq, back h k p = Some q /\ h !! q = Some bq /\ n = nBits bq) \/
     (exists q bq, back h (Z.to_nat (interval - 1)) p = Some q /\ h !! q = Some bq /\
        let t := nPowTargetTimespan params in
        n = encode (Z.min limit ((compact_value (nBits b) mod 2 ^ 256 * clamp_timespan t (nTime b - nTime bq)) mod 2 ^ 256 / t)))).
Proof.
  intros Hok Hwords Hparams Hint Hi Hsp Hp Hh limit. destruct (Hok p b Hp) as (Hr&_).
  destruct Hparams as [[Hlb Hll] Ht] eqn:Epar. destruct (UintToArith256_spec _ Hlb Hll) as (Hlim&_&Elim).
  unfold GetNextWorkRequired. rewrite GetCompact_encode, Elim by done. fold limit. cbn [mbind option_bind]. rewrite Hp.
  cbn [mbind option_bind]. rewrite Hint. cbn [mbind option_bind]. unfold int. rewrite bool_decide_true by lia.
  cbn [mbind option_bind]. rewrite (proj2 (Z.eqb_neq interval 0)) by lia. destruct (Hwords p b Hp) as [Hbits Htime].
  destruct (Z.eqb_spec (Z.rem (nHeight b + 1) interval) 0) as [Er|Er]; cbn [negb].
  - rewrite Z.rem_mod_nonneg in Er by lia. apply Z.mod_divide in Er as [c Ec]; [|lia].
    assert (interval <= nHeight b + 1) as Hle by (apply Z.divide_pos_le; [lia|by exists c]).
    rewrite to_int32_id, Z.geb_leb, (proj2 (Z.leb_le 0 _)) by lia.
    rewrite (GetAncestor_spec h p b) by done. cbn [mbind option_bind].
    destruct (ancestor_ok h p b (nHeight b - (interval - 1)) Hok Hp ltac:(lia)) as (q&bq&Ea&Hq&_). rewrite Ea.
    cbn [mbind option_bind]. rewrite Hq. cbn [mbind option_bind]. destruct (Hwords q bq Hq) as [_ Htq].
    unfold ancestor in Ea. rewrite Hp in Ea. cbn [mbind option_bind] in Ea. rewrite bool_decide_true in Ea by lia.
    replace (nHeight b - (nHeight b - (interval - 1))) with (interval - 1) in Ea by lia.
    destruct (fPowNoRetargeting params) eqn:Enr.
    + exists (nBits b). unfold CalculateNextWorkRequired. rewrite Enr. split; [done|]. right; left. by exists O, p, b.
    + destruct (CalculateNextWorkRequired_spec b (GetBlockTime bq) params Hparams Enr Hbits Htime Htq) as (a&Ha&Eva&->).
      rewrite GetCompact_encode, Eva by done. eexists. split; [done|]. right; right. exists q, bq. done.
  - destruct (fPowAllowMinDifficultyBlocks params).
    + unfold word in Htime. rewrite int64_Some by (unfold GetBlockTime; lia). cbn [mbind option_bind].
      destruct (_ >? _); [by eexists; split; [done|left]|].
      destruct (last_normal_spec (Z.to_nat (nHeight b)) h p b interval (encode limit) Hok Hp ltac:(lia)) as (k&q&bq&->&H1&H2).
      eexists. split; [done|]. right; left. by exists k, q, bq.
    + eexists. split; [done|]. right; left. by exists O, p, b.
Qed.

Lemma sample_words : map_Forall (fun _ b => word 32 (nBits b) /\ word 32 (nTime b)) (st_heap Sample.index).
Proof. intros p b Hp. destruct (ok_work _ sample_ok p b Hp) as (H1&H2&_). exact (conj H1 H2). Qed.

Definition sample_params : Params := mkParams (store_le 32 (2 ^ 240 - 1)) false false 30 60 100 150 750.

Lemma next_work_required_witness :
  let limit := load_le 32 (powLimit sample_params) in
  exists n, GetNextWorkRequired (st_heap Sample.index) (Some 9%positive) (Sample.header 9 9) sample_params = Some n /\
    (n = encode limit \/
     (exists k q bq, back (st_heap Sample.index) k 9 = Some q /\ st_heap Sample.index !! q = Some bq /\ n = nBits bq) \/
     (exists q bq, back (st_heap Sample.index) (Z.to_nat (2 - 1)) 9 = Some q /\ st_heap Sample.index !! q = Some bq /\
        let t := nPowTargetTimespan sample_params in
        n = encode (Z.min limit ((compact_value (nBits (Sample.block 9)) mod 2 ^ 256 *
              clamp_timespan t (nTime (Sample.block 9) - nTime bq)) mod 2 ^ 256 / t)))).
Proof.
  apply (next_work_required (st_heap Sample.index) 9 (Sample.block 9) (Sample.header 9 9) sample_params 2);
    [apply sample_ok|exact sample_words| |reflexivity|lia|cbn; lia|vm_compute; reflexivity|vm_compute; reflexivity].
  split; [split; [apply store_le_bytes|apply length_store_le]|cbn; lia].
Defined.

(** C30: The rule the chain uses: [GetNextTargetRequired] always returns the encoding of a
    target that is not negative and within the limit of its kind of block; with two
    earlier blocks of that kind it is the last one's target, moved toward the target
    spacing by the time between the two.  It needs a last block: for stake, a null
    pointer is followed. *)
Theorem next_target_required `{OpenSSL_spec} h bnProofOfWorkLimit params p b fProofOfStake :
  index_ok h -> map_Forall (fun _ b => word 32 (nBits b) /\ word 32 (nTime b)) h ->
  uint_ok bnProofOfWorkLimit -> target_params_ok params -> h !! p = Some b ->
  let lim := val (target_limit bnProofOfWorkLimit fProofOfStake) in
  (exists v, GetNextTargetRequired h bnProofOfWorkLimit params (Some p) fProofOfStake = Some (encode v) /\
     0 <= v <= lim /\
     forall q bq q1 r br r1, GetLastBlockIndex h (Some p) fProofOfStake = Some (Some q) -> h !! q = Some bq ->
       pprev bq = Some q1 -> GetLastBlockIndex h (Some q1) fProofOfStake = Some (Some r) -> h !! r = Some br ->
       pprev br = Some r1 ->
       let actual := nTime bq - nTime br in
       v = retarget params (signed_compact (nBits bq)) (if actual <? 0 then nTargetSpacing params else actual) lim) /\
  GetNextTargetRequired h bnProofOfWorkLimit params None false = Some (encode (val bnProofOfWorkLimit)) /\
  GetNextTargetRequired h bnProofOfWorkLimit params None true = None.
Proof.
  intros Hok Hwords Hlim Hpar Hp lim.
  pose proof (val_ok _ (target_limit_ok bnProofOfWorkLimit Hlim fProofOfStake)) as Hl. fold lim in Hl.
  split; [|split; [exact (f_equal Some (limit_compact bnProofOfWorkLimit Hlim false))|done]].
  destruct (GetNextTargetRequired_spec h Hok Hwords bnProofOfWorkLimit Hlim params Hpar p b fProofOfStake Hp)
    as (q&bq&Eq&Hq&Hcase). fold lim in Hcase. destruct (pprev bq) as [q1|] eqn:Ep.
  - destruct Hcase as (r&br&Er&Hr&Hcase). destruct (pprev br) as [r1|] eqn:Epr.
    + eexists. split; [exact Hcase|]. split; [apply retarget_bounds; lia|].
      intros q' bq' q1' r' br' r1' Eq' Hq' Ep' Er' Hr' Epr' actual.
      rewrite Eq in Eq'. injection Eq' as <-. rewrite Hq in Hq'. injection Hq' as <-. rewrite Ep in Ep'. injection Ep' as <-.
      rewrite Er in Er'. injection Er' as <-. rewrite Hr in Hr'. by injection Hr' as <-.
    + exists lim. split; [done|]. split; [lia|]. intros q' bq' q1' r' br' r1' Eq' Hq' Ep' Er' Hr' Epr'.
      rewrite Eq in Eq'. injection Eq' as <-. rewrite Hq in Hq'. injection Hq' as <-. rewrite Ep in Ep'. injection Ep' as <-.
      rewrite Er in Er'. injection Er' as <-. rewrite Hr in Hr'. injection Hr' as <-. congruence.
  - exists lim. split; [done|]. split; [lia|]. intros q' bq' q1' r' br' r1' Eq' Hq' Ep'.
    rewrite Eq in Eq'. injection Eq' as <-. congruence.
Qed.

Lemma next_target_required_witness :
  let L := of_uint64 (2 ^ 63) in
  exists v, GetNextTargetRequired (H := Z_OpenSSL) (st_heap Sample.index) L sample_params (Some 9%positive) false = Some (encode v) /\
    0 <= v <= val (target_limit L false).
Proof.
  cbv zeta. pose proof (proj1 (of_uint64_spec (2 ^ 63) ltac:(done))) as HL.
  assert (target_params_ok sample_params) as Hp by (split; vm_compute; split; done || discriminate).
  destruct (proj1 (next_target_required (H := Z_OpenSSL) (H0 := Z_OpenSSL_spec) (st_heap Sample.index) (of_uint64 (2 ^ 63))
    sample_params 9 (Sample.block 9) false (ok_index _ sample_ok) sample_words HL Hp ltac:(vm_compute; reflexivity)))
    as (v&E&Hv&_).
  exists v. split; [exact E|exact Hv].
Defined.

(** What the blocks from height 1 to [n] create on the main network, where [stake] says which of
    them are proof of stake *)
Fixpoint money_supply (stake : Z -> bool) (n : nat) : Z :=
  match n with
  | O => 0
  | S m => money_supply stake m + (if stake (Z.of_nat n) then subsidy (Z.of_nat n) else GetBlockSubsidy (Z.of_nat n))
  end.

(** [nLastPOWBlock] of the main network *)
Definition main_nLastPOWBlock : Z := 100.

Lemma subsidy_step n : subsidy (Z.of_nat (S n)) = (schedule_sum (Z.of_nat (S n)) - schedule_sum (Z.of_nat n)) * COIN.
Proof.
  destruct (reward_value (Z.of_nat (S n)) 0 0 ltac:(lia)) as (s&_&<-&_&->). by replace (Z.of_nat (S n) - 1) with (Z.of_nat n) by lia.
Qed.

Lemma schedule_early n : n <= 100 -> schedule_sum n = 0.
Proof. unfold schedule_sum. lia. Qed.

Lemma schedule_mono n : schedule_sum (Z.of_nat n) <= schedule_sum (Z.of_nat (S n)).
Proof. unfold schedule_sum. lia. Qed.

Lemma money_supply_bound stake n :
  (forall h, stake h = false -> h <= main_nLastPOWBlock) ->
  0 <= money_supply stake n <= (78894 * Z.min (Z.of_nat n) 100 + schedule_sum (Z.of_nat n)) * COIN.
Proof.
  intros Hs. unfold main_nLastPOWBlock in Hs. induction n as [|n IH]; [done|]. cbn [money_supply]. unfold COIN in *.
  destruct (stake (Z.of_nat (S n))) eqn:E.
  - rewrite subsidy_step. pose proof (schedule_mono n). unfold COIN. lia.
  - apply Hs in E. unfold GetBlockSubsidy, COIN. change (7889400 / 100) with 78894. rewrite (proj2 (Z.leb_le _ _)) by done.
    rewrite !schedule_early in * by lia. lia.
Qed.

Lemma money_supply_reached stake n :
  (forall h, stake h = negb (h <=? 100)) ->
  money_supply stake n = (78894 * Z.min (Z.of_nat n) 100 + schedule_sum (Z.of_nat n)) * COIN.
Proof.
  intros Hs. induction n as [|n IH]; [done|]. cbn [money_supply]. rewrite IH, Hs. unfold GetBlockSubsidy.
  change (7889400 / 100) with 78894. destruct (Z.leb_spec (Z.of_nat (S n)) 100); cbn [negb].
  - rewrite !schedule_early by lia. unfold COIN. lia.
  - rewrite subsidy_step. unfold COIN. lia.
Qed.



(** With a limit of zero no header can pass the check before the last block of proof of
    work: the only target the rule gives is zero. *)
Lemma zero_limit_rejects `{OpenSSL_spec} h params p b hash height :
  index_ok h -> map_Forall (fun _ b => word 32 (nBits b) /\ word 32 (nTime b)) h -> target_params_ok params ->
  h !! p = Some b -> hash_ok hash -> hash_ok (powLimit params) -> height < nLastPOWBlock params ->
  exists n, GetNextTargetRequired h zero_uint params (Some p) false = Some n /\ CheckProofOfWork height hash n params = false.
Proof.
  intros Hok Hwords Hpar Hp Hh Hpl Hheight. exists 0.
  destruct (GetNextTargetRequired_spec h Hok Hwords zero_uint zero_uint_ok params Hpar p b false Hp) as (q&bq&_&_&Hcase).
  change (val (target_limit zero_uint false)) with 0 in Hcase.
  assert (forall v, 0 <= v <= 0 -> encode v = 0) as He by (intros v Hv; replace v with 0 by lia; reflexivity).
  split.
  - destruct (pprev bq); [|done]. destruct Hcase as (r&br&_&_&Hcase). destruct (pprev br); [|done].
    rewrite Hcase. f_equal. apply He, retarget_bounds. lia.
  - rewrite CheckProofOfWork_spec by done. rewrite (proj2 (Z.leb_gt _ _)) by lia. done.
Qed.
