(* ===== verification/Hasher.v ===== *)
(** * The hashers of [src/src/crypto]: byte order, buffering and padding

    The classes [CSHA1], [CSHA256], [CSHA512] and [CRIPEMD160] have the same [Write] and
    the same padding in [Finalize] around their own [Transform]; this file models both
    over an arbitrary [Transform], with the accessors of [src/src/crypto/common.h] on a
    little-endian machine. *)

From S2P Require Import Prelude BitReflect SphTypes BlockBuffer.

#[local] Open Scope c_scope.

(** ** [compat/byteswap.h], [crypto/common.h] *)

Definition bswap_32 (x : Z) : Z :=
  ((x .& 0xff000000) >> 24) .| ((x .& 0x00ff0000) >> 8) .|
  ((x .& 0x0000ff00) << 8) .| ((x .& 0x000000ff) << 24).

Definition bswap_64 (x : Z) : Z :=
  ((x .& 0xff00000000000000) >> 56) .| ((x .& 0x00ff000000000000) >> 40) .|
  ((x .& 0x0000ff0000000000) >> 24) .| ((x .& 0x000000ff00000000) >> 8) .|
  ((x .& 0x00000000ff000000) << 8) .| ((x .& 0x0000000000ff0000) << 24) .|
  ((x .& 0x000000000000ff00) << 40) .| ((x .& 0x00000000000000ff) << 56).

Definition ReadLE32 (p : list Z) : Z := load_le 4 p.
Definition ReadLE64 (p : list Z) : Z := load_le 8 p.
Definition WriteLE32 (x : Z) : list Z := store_le 4 x.
Definition WriteLE64 (x : Z) : list Z := store_le 8 x.
Definition ReadBE32 (p : list Z) : Z := bswap_32 (load_le 4 p).
Definition ReadBE64 (p : list Z) : Z := bswap_64 (load_le 8 p).
Definition WriteBE32 (x : Z) : list Z := store_le 4 (bswap_32 x).
Definition WriteBE64 (x : Z) : list Z := store_le 8 (bswap_64 x).

(** ** The object *)

(** [s], [buf] and [bytes]. *)
Record CHasher := Hasher { hs : list Z; hbuf : list Z; bytes : Z }.

Section write.
Context (bs : nat) (Transform : list Z -> list Z -> list Z).

(** [bytes += n] on [uint64_t]. *)
Definition add_bytes (h : CHasher) (n : nat) : Z := (bytes h + Z.of_nat n) mod 2 ^ 64.

(** [bytes % 64] *)
Definition bufsize_of (h : CHasher) : nat := Z.to_nat (bytes h mod Z.of_nat bs).

(** Fill the buffer, and process it. *)
Definition Write_fill (h : CHasher) (data : list Z) : option (CHasher * nat * list Z) :=
  let bufsize := bufsize_of h in
  if negb (bufsize =? 0)%nat && (bs <=? bufsize + length data)%nat then
    b ← memcpy (hbuf h) bufsize (take (bs - bufsize) data);
    Some (Hasher (Transform (hs h) b) b (add_bytes h (bs - bufsize)), 0%nat,
          drop (bs - bufsize) data)
  else Some (h, bufsize, data).

(** [while (end >= data + 64)]: process full chunks directly from the source. *)
Fixpoint Write_chunks (fuel : nat) (h : CHasher) (data : list Z) : option (CHasher * list Z) :=
  if (bs <=? length data)%nat then
    match fuel with
    | O => None
    | S fuel =>
        Write_chunks fuel (Hasher (Transform (hs h) (take bs data)) (hbuf h) (add_bytes h bs))
          (drop bs data)
    end
  else Some (h, data).

Definition Write (h : CHasher) (data : list Z) : option CHasher :=
  '(h, bufsize, data) ← Write_fill h data;
  '(h, data) ← Write_chunks (length data) h data;
  if (0 <? length data)%nat then
    b ← memcpy (hbuf h) bufsize data;
    Some (Hasher (hs h) b (add_bytes h (length data)))
  else Some h.

Definition Writes (h : CHasher) (chunks : list (list Z)) : option CHasher :=
  foldl (fun oh data => h ← oh; Write h data) (Some h) chunks.

(** [static const unsigned char pad[64] = {0x80}] *)
Definition pad : list Z := 0x80 :: replicate (bs - 1) 0.

(** The calls of [Write] in [Finalize]; [k] is the constant 119 or 239, and reading past
    the end of [pad] gives [None]. *)
Definition Write_padding (k : Z) (h : CHasher) (sizedesc : list Z) : option CHasher :=
  let n := Z.to_nat (1 + (k - bytes h mod Z.of_nat bs) mod Z.of_nat bs) in
  if (n <=? length pad)%nat then
    h ← Write h (take n pad);
    Write h sizedesc
  else None.

(** [bytes << 3] *)
Definition bit_count (h : CHasher) : Z := (bytes h << 3) mod 2 ^ 64.
End write.

(** ** Reference: padding and whole messages *)

(** The message, a 1 bit, zeros up to a whole number of blocks and the [sz] bytes of the
    length field. *)
Definition md_pad (bs sz : nat) (size : Z -> list Z) (m : list Z) : list Z :=
  let zeros := (Z.of_nat bs - 1 - Z.of_nat sz - Z.of_nat (length m)) mod Z.of_nat bs in
  m ++ 0x80 :: replicate (Z.to_nat zeros) 0 ++ size (8 * Z.of_nat (length m)).

(** The Merkle-Damgard iteration over the padded message. *)
Definition md_hash (bs sz : nat) (size : Z -> list Z) (compress : list Z -> list Z -> list Z)
    (iv m : list Z) : list Z :=
  let p := md_pad bs sz size m in
  fold_blocks bs (fun b s => compress s b) (length p / bs) p iv.

(** ** Lemmas on byte order *)

Lemma bswap_32_word x : word 32 (bswap_32 x).
Proof.
  unfold bswap_32. repeat (apply word_lor; [done| |]).
  1,2: by apply word_mask_shiftr. all: by apply word_mask_shiftl.
Qed.

Lemma bswap_64_word x : word 64 (bswap_64 x).
Proof.
  unfold bswap_64. repeat (apply word_lor; [done| |]).
  1-4: by apply word_mask_shiftr. all: by apply word_mask_shiftl.
Qed.

Lemma bswap_32_sph x : word 32 x -> bswap_32 x = sph_bswap32 x.
Proof.
  intros Hx. apply (word_ext 32); [apply bswap_32_word|apply sph_bswap32_word|].
  unfold bswap_32. unfold_codec. bit_linear 32 [32] [x].
Qed.

Lemma bswap_64_sph x : word 64 x -> bswap_64 x = sph_bswap64 x.
Proof.
  intros Hx. apply (word_ext 64); [apply bswap_64_word|apply sph_bswap64_word|].
  unfold bswap_64. unfold_codec. bit_linear 64 [64] [x].
Qed.

Lemma ReadBE32_load p : Forall byte p -> length p = 4%nat -> ReadBE32 p = load_le 4 (rev p).
Proof.
  intros Hp Hl. unfold ReadBE32. rewrite bswap_32_sph by (apply (load_le_word_short 4); done).
  by apply sph_bswap32_load.
Qed.

Lemma ReadBE64_load p : Forall byte p -> length p = 8%nat -> ReadBE64 p = load_le 8 (rev p).
Proof.
  intros Hp Hl. unfold ReadBE64. rewrite bswap_64_sph by (apply (load_le_word_short 8); done).
  by apply sph_bswap64_load.
Qed.

Lemma WriteBE32_store v : word 32 v -> WriteBE32 v = rev (store_le 4 v).
Proof. intros. unfold WriteBE32. rewrite bswap_32_sph by done. by apply sph_bswap32_store. Qed.

Lemma WriteBE64_store v : word 64 v -> WriteBE64 v = rev (store_le 8 v).
Proof. intros. unfold WriteBE64. rewrite bswap_64_sph by done. by apply sph_bswap64_store. Qed.

Lemma length_WriteBE32 v : length (WriteBE32 v) = 4%nat.
Proof. apply length_store_le. Qed.
Lemma length_WriteBE64 v : length (WriteBE64 v) = 8%nat.
Proof. apply length_store_le. Qed.

(** ** Buffering *)

Section write_proofs.
Context (bs : nat) (Transform : list Z -> list Z -> list Z) (iv : list Z).
Context (Hbs : (0 < bs)%nat) (Hdiv : (Z.of_nat bs | 2 ^ 64)).

#[local] Abbreviation absorb := (absorb bs (fun b s => Transform s b)).

(** The object after the bytes [m] have been written. *)
Definition hasher_ok (h : CHasher) (m : list Z) : Prop :=
  length (hbuf h) = bs /\ bytes h = Z.of_nat (length m) mod 2 ^ 64 /\
  (hs h, take (bufsize_of bs h) (hbuf h)) = absorb iv m.

Lemma bytes_mod n : n mod 2 ^ 64 mod Z.of_nat bs = n mod Z.of_nat bs.
Proof.
  destruct Hdiv as [q Hq]. rewrite Hq, Z.mul_comm.
  destruct (decide (q = 0)) as [->|]; [lia|].
  rewrite Z.rem_mul_r by lia.
  rewrite Z.add_mod, (Z.mul_comm (Z.of_nat bs)), Z.mod_mul, Z.add_0_r, !Z.mod_mod by lia. done.
Qed.

Lemma bufsize_of_mod h n : bytes h = Z.of_nat n mod 2 ^ 64 -> bufsize_of bs h = (n mod bs)%nat.
Proof. intros E. unfold bufsize_of. rewrite E, bytes_mod, <- Nat2Z.inj_mod. lia. Qed.

Lemma add_bytes_mod h n k :
  bytes h = Z.of_nat n mod 2 ^ 64 -> add_bytes h k = Z.of_nat (n + k) mod 2 ^ 64.
Proof. intros E. unfold add_bytes. rewrite E, Z.add_mod_idemp_l by done. f_equal. lia. Qed.

(** The pending bytes are the last [length m mod bs] bytes of the message. *)
Lemma absorb_rest st m : length (absorb st m).2 = (length m mod bs)%nat.
Proof.
  unfold BlockBuffer.absorb. simpl. rewrite length_drop, Nat.Div0.mod_eq. lia.
Qed.

Lemma absorb_nil_rest st m : (bs | length m)%nat -> (absorb st m).2 = [].
Proof. intros H. apply nil_length_inv. rewrite absorb_rest. by apply Nat.Lcm0.mod_divide. Qed.

Lemma absorb_single st b : length b = bs -> absorb st b = (Transform st b, []).
Proof.
  intros Hb. rewrite <- (app_nil_r b) at 1. by rewrite absorb_block, absorb_short.
Qed.

(** Objects in which the buffer holds nothing. *)
Lemma hasher_ok_empty h m :
  length (hbuf h) = bs -> bytes h = Z.of_nat (length m) mod 2 ^ 64 ->
  (bs | length m)%nat -> hs h = (absorb iv m).1 -> hasher_ok h m.
Proof.
  intros Hl Hb Hd Hs. split_and!; [done|done|].
  rewrite (bufsize_of_mod _ _ Hb), (proj2 (Nat.Lcm0.mod_divide _ _) Hd), Hs.
  rewrite (surjective_pairing (absorb iv m)) at 2. f_equal. by rewrite absorb_nil_rest.
Qed.

Lemma hasher_ok_full h m b :
  hasher_ok h m -> (bs | length m)%nat -> length b = bs ->
  hasher_ok (Hasher (Transform (hs h) b) (hbuf h) (add_bytes h bs)) (m ++ b).
Proof.
  intros (Hl&Hb&Habs) Hd Hlb. apply hasher_ok_empty; cbn [hs hbuf bytes].
  - done.
  - rewrite length_app, Hlb. by apply add_bytes_mod.
  - rewrite length_app, Hlb. apply Nat.divide_add_r; [done|apply Nat.divide_refl].
  - rewrite absorb_app by done.
    pose proof (absorb_nil_rest iv m Hd) as Hr.
    destruct (absorb iv m) as [st r]. cbn [snd] in Hr. subst r. injection Habs as <- _.
    by rewrite app_nil_l, absorb_single.
Qed.

Lemma Write_chunks_short fuel h data :
  (length data < bs)%nat -> Write_chunks bs Transform fuel h data = Some (h, data).
Proof. intros H. destruct fuel; simpl; destruct (Nat.leb_spec bs (length data)); done || lia. Qed.

Lemma Write_chunks_ok fuel h m data :
  (length data <= fuel)%nat -> hasher_ok h m -> (bs | length m)%nat ->
  exists h' m' data', Write_chunks bs Transform fuel h data = Some (h', data') /\
    hasher_ok h' m' /\ (bs | length m')%nat /\ m ++ data = m' ++ data' /\ (length data' < bs)%nat.
Proof.
  revert h m data. induction fuel as [|fuel IH]; intros h m data Hf Hok Hd; cbn [Write_chunks];
    destruct (Nat.leb_spec bs (length data)) as [Hle|Hlt]; [lia|by exists h, m, data| |by exists h, m, data].
  assert (length (take bs data) = bs) as Ht by (rewrite length_take; lia).
  destruct (IH (Hasher (Transform (hs h) (take bs data)) (hbuf h) (add_bytes h bs))
              (m ++ take bs data) (drop bs data)) as (h'&m'&data'&Hw&Hok'&Hd'&E&Hlt).
  - rewrite length_drop. lia.
  - by apply hasher_ok_full.
  - rewrite length_app, Ht. apply Nat.divide_add_r; [done|apply Nat.divide_refl].
  - exists h', m', data'. split_and!; try done. by rewrite <- E, <- app_assoc, take_drop.
Qed.

Lemma Write_fill_ok h m data :
  hasher_ok h m ->
  exists h' n m' data', Write_fill bs Transform h data = Some (h', n, data') /\
    hasher_ok h' m' /\ n = bufsize_of bs h' /\ m ++ data = m' ++ data' /\
    ((bs | length m')%nat \/ (n + length data' < bs)%nat).
Proof.
  intros Hok. pose proof Hok as (Hl&Hb&Habs). pose proof (bufsize_of_mod _ _ Hb) as Hn.
  pose proof (Nat.mod_upper_bound (length m) bs ltac:(lia)) as Hlt.
  unfold Write_fill. destruct (Nat.eqb_spec (bufsize_of bs h) 0) as [H0|H0]; cbn [negb andb].
  { exists h, (bufsize_of bs h), m, data. split_and!; try done. left.
    apply Nat.Lcm0.mod_divide. lia. }
  destruct (Nat.leb_spec bs (bufsize_of bs h + length data)) as [Hle|Hgt].
  2: { exists h, (bufsize_of bs h), m, data. split_and!; try done. by right. }
  set (n := bufsize_of bs h) in *.
  assert (length (take (bs - n) data) = (bs - n)%nat) as Ht by (rewrite length_take; lia).
  rewrite memcpy_in_bounds by lia. cbn [mbind option_bind].
  set (b := take n (hbuf h) ++ take (bs - n) data ++ drop (n + length (take (bs - n) data)) (hbuf h)).
  assert (b = take n (hbuf h) ++ take (bs - n) data) as Eb.
  { subst b. rewrite Ht, drop_ge by lia. by rewrite app_nil_r. }
  assert (length b = bs) as Hlb by (rewrite Eb, length_app, length_take; lia).
  assert (bs | length (m ++ take (bs - n) data))%nat as Hdv.
  { rewrite length_app, Ht. apply Nat.Lcm0.mod_divide.
    rewrite <- Nat.Div0.add_mod_idemp_l, <- Hn. replace (n + (bs - n))%nat with bs by lia.
    by rewrite Nat.Div0.mod_same. }
  eexists _, 0%nat, (m ++ take (bs - n) data), _. split; [done|].
  assert (bytes (Hasher (Transform (hs h) b) b (add_bytes h (bs - n))) =
    Z.of_nat (length (m ++ take (bs - n) data)) mod 2 ^ 64) as Hby.
  { cbn [bytes]. rewrite length_app, Ht. by apply add_bytes_mod. }
  split_and!.
  - apply hasher_ok_empty; try done. cbn [hs]. rewrite absorb_app by done.
    rewrite <- Habs. fold n. by rewrite <- Eb, absorb_single.
  - rewrite (bufsize_of_mod _ _ Hby). symmetry. by apply Nat.Lcm0.mod_divide.
  - by rewrite <- app_assoc, take_drop.
  - by left.
Qed.

(** Copying less than what fills the buffer. *)
Lemma hasher_ok_copy h m data :
  hasher_ok h m -> (bufsize_of bs h + length data < bs)%nat ->
  exists b, memcpy (hbuf h) (bufsize_of bs h) data = Some b /\
    hasher_ok (Hasher (hs h) b (add_bytes h (length data))) (m ++ data).
Proof.
  intros (Hl&Hb&Habs) Hlt. destruct (memcpy _ _ data) as [b|] eqn:E.
  2: { rewrite memcpy_in_bounds in E by lia. done. }
  exists b. split; [done|].
  assert (bytes (Hasher (hs h) b (add_bytes h (length data))) =
    Z.of_nat (length (m ++ data)) mod 2 ^ 64) as Hby.
  { cbn [bytes]. rewrite length_app. by apply add_bytes_mod. }
  split_and!; [cbn [hbuf]; rewrite (memcpy_length _ _ _ _ E); lia|done|].
  rewrite (bufsize_of_mod _ _ Hby). cbn [hs hbuf]. rewrite absorb_app, <- Habs by done.
  rewrite absorb_short.
  2: { rewrite length_app, length_take. lia. }
  f_equal. rewrite <- (memcpy_take _ _ _ _ E). f_equal.
  rewrite length_app, (bufsize_of_mod _ _ Hb) in *.
  rewrite <- Nat.Div0.add_mod_idemp_l, Nat.mod_small by lia. done.
Qed.

(** Writing never fails, and appends to the message. *)
Lemma Write_ok h m data :
  hasher_ok h m -> exists h', Write bs Transform h data = Some h' /\ hasher_ok h' (m ++ data).
Proof.
  intros Hok. destruct (Write_fill_ok h m data Hok) as (h1&n&m1&d1&E1&Hok1&Hn&Em1&Hor).
  unfold Write. rewrite E1. cbn [mbind option_bind].
  assert (exists h2 m2 d2, Write_chunks bs Transform (length d1) h1 d1 = Some (h2, d2) /\
    hasher_ok h2 m2 /\ m ++ data = m2 ++ d2 /\ n = bufsize_of bs h2 /\ (n + length d2 < bs)%nat)
    as (h2&m2&d2&E2&Hok2&Em2&Hn2&Hlt).
  { assert (forall k, (bs | k)%nat -> (k mod bs = 0)%nat) as Hdm
      by (intros; by apply Nat.Lcm0.mod_divide).
    destruct Hor as [Hd|Hlt].
    - destruct (Write_chunks_ok (length d1) h1 m1 d1) as (h2&m2&d2&E2&Hok2&Hd2&Em2&Hlt); [done..|].
      exists h2, m2, d2. pose proof Hok1 as (_&Hb1&_). pose proof Hok2 as (_&Hb2&_).
      rewrite (bufsize_of_mod _ _ Hb2), Hdm by done.
      rewrite (bufsize_of_mod _ _ Hb1), Hdm in Hn by done. subst n.
      split_and!; try done. by rewrite Em1.
    - exists h1, m1, d1. split_and!; try done.
      apply Write_chunks_short. lia. }
  rewrite E2. cbn [mbind option_bind]. rewrite Em2. destruct (Nat.ltb_spec 0 (length d2)) as [H|H].
  - rewrite Hn2 in Hlt |- *. destruct (hasher_ok_copy h2 m2 d2 Hok2 Hlt) as (b&->&Hb). eauto.
  - destruct d2; [|simpl in H; lia]. rewrite app_nil_r. eauto.
Qed.

Lemma Writes_ok h m chunks :
  hasher_ok h m ->
  exists h', Writes bs Transform h chunks = Some h' /\ hasher_ok h' (m ++ concat chunks).
Proof.
  unfold Writes. revert h m. induction chunks as [|d chunks IH]; intros h m Hok.
  - exists h. by rewrite app_nil_r.
  - destruct (Write_ok h m d Hok) as (h1&E1&Hok1). cbn [foldl mbind option_bind concat].
    rewrite E1, app_assoc. by apply IH.
Qed.

(** The two calls of [Write] in [Finalize] complete the padded message. *)
Lemma Write_padding_ok sz k h m sizedesc :
  k = 2 * Z.of_nat bs - 1 - Z.of_nat sz -> length sizedesc = sz -> hasher_ok h m ->
  let p := m ++ 0x80 :: replicate (Z.to_nat ((Z.of_nat bs - 1 - Z.of_nat sz - Z.of_nat (length m))
             mod Z.of_nat bs)) 0 ++ sizedesc in
  exists h', Write_padding bs Transform k h sizedesc = Some h' /\ length (hbuf h') = bs /\
    hs h' = fold_blocks bs (fun b s => Transform s b) (length p / bs) p iv.
Proof.
  intros -> Hsz Hok p. pose proof Hok as (Hl&Hb&Habs).
  set (z := (Z.of_nat bs - 1 - Z.of_nat sz - Z.of_nat (length m)) mod Z.of_nat bs) in *.
  assert (0 <= z < Z.of_nat bs) as Hz by (apply Z.mod_pos_bound; lia).
  assert ((2 * Z.of_nat bs - 1 - Z.of_nat sz - bytes h mod Z.of_nat bs) mod Z.of_nat bs = z) as Ez.
  { rewrite Hb, bytes_mod, Zminus_mod_idemp_r.
    replace (2 * Z.of_nat bs - 1 - Z.of_nat sz - Z.of_nat (length m)) with
      (Z.of_nat bs - 1 - Z.of_nat sz - Z.of_nat (length m) + 1 * Z.of_nat bs) by lia.
    by rewrite Z.mod_add by lia. }
  unfold Write_padding. rewrite Ez.
  assert (length (pad bs) = bs) as Hlp by (unfold pad; simpl; rewrite length_replicate; lia).
  destruct (Nat.leb_spec (Z.to_nat (1 + z)) (length (pad bs))) as [_|?]; [|lia].
  assert (take (Z.to_nat (1 + z)) (pad bs) = 0x80 :: replicate (Z.to_nat z) 0) as Ep.
  { replace (Z.to_nat (1 + z)) with (S (Z.to_nat z)) by lia. unfold pad. cbn [take].
    by rewrite take_replicate, Nat.min_l by lia. }
  rewrite Ep.
  destruct (Write_ok h m (0x80 :: replicate (Z.to_nat z) 0) Hok) as (h1&->&Hok1).
  cbn [mbind option_bind].
  destruct (Write_ok h1 _ sizedesc Hok1) as (h2&->&(Hl2&_&Habs2)).
  exists h2. split; [done|]. split; [done|]. apply (f_equal fst) in Habs2. cbn [fst] in Habs2.
  rewrite Habs2. unfold BlockBuffer.absorb. cbn [fst]. by rewrite <- app_assoc.
Qed.
End write_proofs.

(** A padded message is a whole number of blocks. *)
Lemma md_pad_length bs sz size m :
  (0 < bs)%nat -> (forall x, length (size x) = sz) -> (bs | length (md_pad bs sz size m))%nat.
Proof.
  intros Hbs Hsz. unfold md_pad. rewrite length_app. cbn [length].
  rewrite length_app, length_replicate, Hsz. apply Nat.Lcm0.mod_divide.
  set (z := (_ - _) mod _).
  assert (0 <= z) by (apply Z.mod_pos_bound; lia).
  apply Nat2Z.inj. rewrite Nat2Z.inj_mod.
  replace (Z.of_nat (length m + S (Z.to_nat z + sz))) with
    (z + (Z.of_nat (length m) + 1 + Z.of_nat sz)) by lia.
  unfold z. rewrite Z.add_mod_idemp_l by lia.
  replace (_ + _) with (1 * Z.of_nat bs) by lia. by rewrite Z.mod_mul by lia.
Qed.

(** Two compression functions that agree on blocks of bytes. *)
Lemma fold_blocks_agree {St} bs (f g : list Z -> St -> St) (P : St -> Prop) n m st :
  (forall b st, Forall byte b -> length b = bs -> P st -> f b st = g b st /\ P (g b st)) ->
  (n * bs <= length m)%nat -> Forall byte m -> P st ->
  fold_blocks bs f n m st = fold_blocks bs g n m st /\ P (fold_blocks bs g n m st).
Proof.
  intros Hfg. revert m st. induction n as [|n IH]; intros m st Hl Hm HP; [done|].
  cbn [fold_blocks].
  destruct (Hfg (take bs m) st) as [-> HP']; [by apply Forall_take|rewrite length_take; lia|done|].
  apply IH; [rewrite length_drop; lia|by apply Forall_drop|done].
Qed.

Lemma md_pad_bytes bs sz size m :
  Forall byte m -> (forall x, Forall byte (size x)) -> Forall byte (md_pad bs sz size m).
Proof.
  intros Hm Hs. unfold md_pad. apply Forall_app_2; [done|]. apply Forall_cons_2; [done|].
  apply Forall_app_2; [|done]. by apply Forall_replicate.
Qed.

(** The count of bits that the length field gets. *)
Lemma bit_count_ok bs Tr iv h m :
  hasher_ok bs Tr iv h m -> 8 * Z.of_nat (length m) < 2 ^ 64 ->
  bit_count h = 8 * Z.of_nat (length m).
Proof.
  intros (_&Hb&_) Hl. unfold bit_count. rewrite Hb, Z.shiftl_mul_pow2 by done.
  rewrite (Z.mod_small (Z.of_nat _)) by lia. rewrite Z.mod_small by lia. lia.
Qed.

(** The initial object. *)
Lemma hasher_ok_init bs Tr iv b :
  (0 < bs)%nat -> length b = bs -> hasher_ok bs Tr iv (Hasher iv b 0) [].
Proof.
  intros Hbs Hb. split_and!; [done|done|]. unfold bufsize_of. cbn [bytes hs hbuf].
  rewrite Z.mod_0_l by lia. by rewrite absorb_short.
Qed.

(** ** The interface of the hashers

    What a client of one of the classes uses, and what it may rely on: [hash_rep h m]
    says that the object has been given the bytes [m], and [digest] is the function that
    the object computes. *)

Class CryptoHash := {
  hash_block : nat;
  hash_size : nat;
  hash_new : list Z -> CHasher;
  hash_write : CHasher -> list Z -> option CHasher;
  hash_finalize : CHasher -> option (CHasher * list Z);
  hash_reset : CHasher -> CHasher;
}.

Class CryptoHashSpec (ops : CryptoHash) := {
  digest : list Z -> list Z;
  hash_rep : CHasher -> list Z -> Prop;
  hash_new_rep mem : length mem = hash_block -> hash_rep (hash_new mem) [];
  hash_write_rep h m data :
    hash_rep h m -> exists h', hash_write h data = Some h' /\ hash_rep h' (m ++ data);
  hash_finalize_rep h m :
    hash_rep h m -> Forall byte m -> 8 * Z.of_nat (length m) < 2 ^ 64 ->
    exists h', hash_finalize h = Some (h', digest m) /\ hash_rep (hash_reset h') [];
  length_digest m : length (digest m) = hash_size;
  digest_bytes m : Forall byte (digest m);
  hash_size_block : (hash_size <= hash_block)%nat;
}.
#[export] Hint Mode CryptoHashSpec ! : typeclass_instances.
