(* ===== verification/Sha2Spec.v ===== *)
(** * The SHA-2 functions of FIPS 180-4

    The reference for [Sha256] and [Sha512]: the message schedule, the rounds and the
    compression function over words of [w] bits, as the standard states them, and the
    same rounds over a window of 16 schedule words, which is how the code computes
    them. *)

From S2P Require Import Prelude.

#[local] Open Scope c_scope.

(** ** Constants *)

Definition is_prime (p : nat) : bool :=
  (2 <=? p)%nat && forallb (fun d => negb (p mod d =? 0)%nat) (seq 2 (p - 2)).

(** The first primes, up to 409. *)
Definition primes : list Z := map Z.of_nat (filter (fun p => Is_true (is_prime p)) (seq 0 410)).

(** The largest [r < 2 ^ bits] with [r ^ e <= x], from the top bit down. *)
Fixpoint int_root (bits : nat) (e x r : Z) : Z :=
  match bits with
  | O => r
  | S bits =>
      let r' := r + 2 ^ Z.of_nat bits in
      int_root bits e x (if r' ^ e <=? x then r' else r)
  end.

(** The first [w] bits of the fractional parts of the [e]-th roots of the first [n]
    primes. *)
Definition fips_constants (w e : Z) (n : nat) : list Z :=
  map (fun p => int_root (Z.to_nat w + 5) e (p * 2 ^ (w * e)) 0 mod 2 ^ w) (take n primes).

Section sha2.
(** The word size, the six rotation triples (the third entry of a small sigma is a
    shift) and the round constants. *)
Context (w : Z) (rS0 rS1 rs0 rs1 : Z * Z * Z).

Definition add (x y : Z) : Z := (x + y) mod 2 ^ w.
Lemma add3 a b c : add (add a b) c = (a + b + c) mod 2 ^ w.
Proof. unfold add. apply Zplus_mod_idemp_l. Qed.
Lemma add4 a b c d : add (add (add a b) c) d = (a + b + c + d) mod 2 ^ w.
Proof. unfold add at 1. rewrite add3. apply Zplus_mod_idemp_l. Qed.
Lemma add5 a b c d e : add (add (add (add a b) c) d) e = (a + b + c + d + e) mod 2 ^ w.
Proof. unfold add at 1. rewrite add4. apply Zplus_mod_idemp_l. Qed.

Definition ROTR (n x : Z) : Z := (x >> n) .| ((x << (w - n)) mod 2 ^ w).
Definition SHR (n x : Z) : Z := x >> n.

Definition fips_Ch (x y z : Z) : Z := (x .& y) ⊕ (Z.lnot x .& z).
Definition fips_Maj (x y z : Z) : Z := (x .& y) ⊕ (x .& z) ⊕ (y .& z).
Definition fips_Sigma (r : Z * Z * Z) (x : Z) : Z :=
  let '(i, j, k) := r in ROTR i x ⊕ ROTR j x ⊕ ROTR k x.
Definition fips_sigma (r : Z * Z * Z) (x : Z) : Z :=
  let '(i, j, k) := r in ROTR i x ⊕ ROTR j x ⊕ SHR k x.

(** The forms of the two functions that the code uses. *)
Lemma fips_Ch_code x y z : z ⊕ (x .& (y ⊕ z)) = fips_Ch x y z.
Proof.
  apply Z.bits_inj'. intros i Hi. unfold fips_Ch. autorewrite with bits. btauto.
Qed.

Lemma fips_Maj_code x y z : (x .& y) .| (z .& (x .| y)) = fips_Maj x y z.
Proof.
  apply Z.bits_inj'. intros i Hi. unfold fips_Maj. autorewrite with bits. btauto.
Qed.

(** The eight working variables. *)
Definition vars : Type := Z * Z * Z * Z * Z * Z * Z * Z.

Definition fips_round (v : vars) (kw : Z * Z) : vars :=
  let '(a, b, c, d, e, f, g, h) := v in
  let T1 := add (add (add (add h (fips_Sigma rS1 e)) (fips_Ch e f g)) kw.1) kw.2 in
  let T2 := add (fips_Sigma rS0 a) (fips_Maj a b c) in
  (add T1 T2, a, b, c, add d T1, e, f, g).

(** [W] extended by the next word. *)
Definition fips_next (W : list Z) : Z :=
  let t := length W in
  add (add (add (fips_sigma rs1 (W !!! (t - 2)%nat)) (W !!! (t - 7)%nat))
        (fips_sigma rs0 (W !!! (t - 15)%nat))) (W !!! (t - 16)%nat).

Definition fips_schedule (n : nat) (M : list Z) : list Z :=
  Nat.iter n (fun W => W ++ [fips_next W]) M.

Definition to_vars (s : list Z) : vars :=
  (s !!! 0%nat, s !!! 1%nat, s !!! 2%nat, s !!! 3%nat,
   s !!! 4%nat, s !!! 5%nat, s !!! 6%nat, s !!! 7%nat).
Definition of_vars (v : vars) : list Z :=
  let '(a, b, c, d, e, f, g, h) := v in [a; b; c; d; e; f; g; h].

(** The hash computation on one block of 16 words [M] with the constants [K]. *)
Definition fips_compress (K s M : list Z) : list Z :=
  let W := fips_schedule (length K - 16) M in
  zip_with add s (of_vars (foldl fips_round (to_vars s) (zip K W))).

(** ** The same over a window of 16 words *)

Definition window_step (vW : vars * list Z) (k : Z) : vars * list Z :=
  let '(v, W) := vW in
  let n := fips_next W in (fips_round v (k, n), drop 1 W ++ [n]).

Definition window_compress (K s M : list Z) : list Z :=
  let v := foldl fips_round (to_vars s) (zip (take 16 K) M) in
  zip_with add s (of_vars (foldl window_step (v, M) (drop 16 K)).1).

Lemma fips_next_window W X :
  length W = 16%nat -> fips_next (X ++ W) = fips_next W.
Proof.
  intros Hl. unfold fips_next. rewrite length_app, Hl. cbv zeta.
  assert (forall k, (k <= 16)%nat -> (0 < k)%nat ->
    (X ++ W) !!! (length X + 16 - k)%nat = W !!! (16 - k)%nat) as E.
  { intros k Hk H0. rewrite lookup_total_app_r by lia. f_equal. lia. }
  by rewrite !E by lia.
Qed.

Lemma length_fips_schedule n M : length (fips_schedule n M) = (length M + n)%nat.
Proof. induction n as [|n IH]; simpl; [lia|]. rewrite length_app, IH. simpl. lia. Qed.

(** The rounds over the window read the words of the schedule. *)
Lemma window_step_schedule X W ks v :
  length W = 16%nat ->
  (foldl window_step (v, W) ks).1 =
  foldl fips_round v (zip ks (drop (length X + 16) (fips_schedule (length ks) (X ++ W)))).
Proof.
  intros Hl. revert X W v Hl. induction ks as [|k ks IH]; intros X W v Hl; [done|].
  cbn [foldl]. unfold window_step at 2. cbv zeta.
  destruct W as [|w0 W]; [done|]. assert (length W = 15%nat) as Hl' by (simpl in Hl; lia).
  rewrite (IH (X ++ [w0])) by (rewrite length_app, length_drop; simpl; lia).
  assert (fips_schedule (length (k :: ks)) (X ++ w0 :: W) =
          fips_schedule (length ks) ((X ++ [w0]) ++ drop 1 (w0 :: W) ++ [fips_next (w0 :: W)])) as ->.
  { cbn [length]. unfold fips_schedule. rewrite Nat.iter_succ_r. f_equal.
    rewrite fips_next_window by done. cbn [drop]. by rewrite <- !app_assoc. }
  set (S := fips_schedule _ _).
  assert (drop (length X + 16) S = fips_next (w0 :: W) :: drop (length (X ++ [w0]) + 16) S) as ->.
  { assert (S !! (length X + 16)%nat = Some (fips_next (w0 :: W))) as Hlk.
    { subst S. generalize (length ks). intros n. induction n as [|n IHn].
      - cbn [fips_schedule Nat.iter nat_rect]. rewrite app_assoc.
        apply list_lookup_middle. rewrite !length_app, length_drop. simpl. lia.
      - unfold fips_schedule in IHn |- *. rewrite Nat.iter_succ. by apply lookup_app_l_Some. }
    rewrite (drop_S _ _ _ Hlk). f_equal. f_equal. rewrite length_app. simpl. lia. }
  done.
Qed.

Lemma length_window vW ks : length vW.2 = 16%nat -> length (foldl window_step vW ks).2 = 16%nat.
Proof.
  revert vW. induction ks as [|k ks IH]; intros [v W] Hl; [done|]. apply IH.
  cbn [window_step snd]. rewrite length_app, length_drop. simpl in *. lia.
Qed.

Lemma fips_schedule_prefix n M : take (length M) (fips_schedule n M) = M.
Proof.
  induction n as [|n IH]; [by apply firstn_all|]. unfold fips_schedule in *.
  rewrite Nat.iter_succ, take_app_le; [done|].
  fold (fips_schedule n M). rewrite length_fips_schedule. lia.
Qed.

Lemma window_compress_spec K s M :
  length M = 16%nat -> (16 <= length K)%nat -> window_compress K s M = fips_compress K s M.
Proof.
  intros HM HK. unfold window_compress, fips_compress. cbv zeta. f_equal. f_equal.
  rewrite (window_step_schedule []) by done. cbn [app length Nat.add].
  rewrite <- foldl_app. f_equal. rewrite length_drop.
  set (W := fips_schedule _ M).
  rewrite <- (fips_schedule_prefix (length K - 16) M) at 1. rewrite HM. fold W.
  assert (length W = length K) by (subst W; rewrite length_fips_schedule; lia).
  rewrite <- zip_with_app by (rewrite !length_take; lia). by rewrite !take_drop.
Qed.
Lemma fips_compress_words K s M :
  0 <= w -> length s = 8%nat ->
  length (fips_compress K s M) = 8%nat /\ Forall (word w) (fips_compress K s M).
Proof.
  intros Hw Hs. unfold fips_compress. cbv zeta.
  destruct (foldl _ _ _) as [[[[[[[a b] c] d] e] f] g] h]. cbn [of_vars].
  split; [by rewrite length_zip_with, Hs|].
  do 8 (destruct s as [|? s]; [done|]). cbn [zip_with].
  repeat (apply Forall_cons_2; [by apply word_mod|]). by destruct s.
Qed.
End sha2.
