(* ===== verification/Sha256.v ===== *)
(** * SHA-256: [src/src/crypto/sha256.cpp]

    The unrolled compression function on local variables and the class around it,
    compared with FIPS 180-4. *)

From S2P Require Import Prelude BitReflect SphTypes BlockBuffer Hasher Sha2Spec.

#[local] Open Scope c_scope.

Definition Ch (x y z : Z) : Z := z ⊕ (x .& (y ⊕ z)).
Definition Maj (x y z : Z) : Z := (x .& y) .| (z .& (x .| y)).
Definition Sigma0 (x : Z) : Z :=
  ((x >> 2) .| u32 (x << 30)) ⊕ ((x >> 13) .| u32 (x << 19)) ⊕ ((x >> 22) .| u32 (x << 10)).
Definition Sigma1 (x : Z) : Z :=
  ((x >> 6) .| u32 (x << 26)) ⊕ ((x >> 11) .| u32 (x << 21)) ⊕ ((x >> 25) .| u32 (x << 7)).
Definition sigma0 (x : Z) : Z :=
  ((x >> 7) .| u32 (x << 25)) ⊕ ((x >> 18) .| u32 (x << 14)) ⊕ (x >> 3).
Definition sigma1 (x : Z) : Z :=
  ((x >> 17) .| u32 (x << 15)) ⊕ ((x >> 19) .| u32 (x << 13)) ⊕ (x >> 10).

(** One round; the references [d] and [h] are the result. *)
Definition Round (a b c d e f g h k w : Z) : Z * Z :=
  let t1 := u32 (h + Sigma1 e + Ch e f g + k + w) in
  let t2 := u32 (Sigma0 a + Maj a b c) in
  (u32 (d + t1), u32 (t1 + t2)).

Definition Initialize : list Z :=
  [0x6a09e667; 0xbb67ae85; 0x3c6ef372; 0xa54ff53a;
   0x510e527f; 0x9b05688c; 0x1f83d9ab; 0x5be0cd19].

(** ** [Transform], in groups of 16 rounds *)

(** The first group reads the block: [w0 = ReadBE32(chunk + 0)] and so on. *)
Definition Transform_0 (v : vars) (chunk : list Z) : vars * list Z :=
  let '(a, b, c, d, e, f, g, h) := v in
  let w0 := ReadBE32 (take 4 (drop 0 chunk)) in
  let '(d, h) := Round a b c d e f g h 0x428a2f98 w0 in
  let w1 := ReadBE32 (take 4 (drop 4 chunk)) in
  let '(c, g) := Round h a b c d e f g 0x71374491 w1 in
  let w2 := ReadBE32 (take 4 (drop 8 chunk)) in
  let '(b, f) := Round g h a b c d e f 0xb5c0fbcf w2 in
  let w3 := ReadBE32 (take 4 (drop 12 chunk)) in
  let '(a, e) := Round f g h a b c d e 0xe9b5dba5 w3 in
  let w4 := ReadBE32 (take 4 (drop 16 chunk)) in
  let '(h, d) := Round e f g h a b c d 0x3956c25b w4 in
  let w5 := ReadBE32 (take 4 (drop 20 chunk)) in
  let '(g, c) := Round d e f g h a b c 0x59f111f1 w5 in
  let w6 := ReadBE32 (take 4 (drop 24 chunk)) in
  let '(f, b) := Round c d e f g h a b 0x923f82a4 w6 in
  let w7 := ReadBE32 (take 4 (drop 28 chunk)) in
  let '(e, a) := Round b c d e f g h a 0xab1c5ed5 w7 in
  let w8 := ReadBE32 (take 4 (drop 32 chunk)) in
  let '(d, h) := Round a b c d e f g h 0xd807aa98 w8 in
  let w9 := ReadBE32 (take 4 (drop 36 chunk)) in
  let '(c, g) := Round h a b c d e f g 0x12835b01 w9 in
  let w10 := ReadBE32 (take 4 (drop 40 chunk)) in
  let '(b, f) := Round g h a b c d e f 0x243185be w10 in
  let w11 := ReadBE32 (take 4 (drop 44 chunk)) in
  let '(a, e) := Round f g h a b c d e 0x550c7dc3 w11 in
  let w12 := ReadBE32 (take 4 (drop 48 chunk)) in
  let '(h, d) := Round e f g h a b c d 0x72be5d74 w12 in
  let w13 := ReadBE32 (take 4 (drop 52 chunk)) in
  let '(g, c) := Round d e f g h a b c 0x80deb1fe w13 in
  let w14 := ReadBE32 (take 4 (drop 56 chunk)) in
  let '(f, b) := Round c d e f g h a b 0x9bdc06a7 w14 in
  let w15 := ReadBE32 (take 4 (drop 60 chunk)) in
  let '(e, a) := Round b c d e f g h a 0xc19bf174 w15 in
  ((a, b, c, d, e, f, g, h), [w0; w1; w2; w3; w4; w5; w6; w7; w8; w9; w10; w11; w12; w13; w14; w15]).

Definition Transform_1 (vW : vars * list Z) : vars * list Z :=
  let '(a, b, c, d, e, f, g, h, W) := vW in
  let w0 := W !!! 0%nat in let w1 := W !!! 1%nat in let w2 := W !!! 2%nat in let w3 := W !!! 3%nat in
  let w4 := W !!! 4%nat in let w5 := W !!! 5%nat in let w6 := W !!! 6%nat in let w7 := W !!! 7%nat in
  let w8 := W !!! 8%nat in let w9 := W !!! 9%nat in let w10 := W !!! 10%nat in let w11 := W !!! 11%nat in
  let w12 := W !!! 12%nat in let w13 := W !!! 13%nat in let w14 := W !!! 14%nat in let w15 := W !!! 15%nat in
  let w0 := u32 (w0 + (sigma1 w14 + w9 + sigma0 w1)) in
  let '(d, h) := Round a b c d e f g h 0xe49b69c1 w0 in
  let w1 := u32 (w1 + (sigma1 w15 + w10 + sigma0 w2)) in
  let '(c, g) := Round h a b c d e f g 0xefbe4786 w1 in
  let w2 := u32 (w2 + (sigma1 w0 + w11 + sigma0 w3)) in
  let '(b, f) := Round g h a b c d e f 0x0fc19dc6 w2 in
  let w3 := u32 (w3 + (sigma1 w1 + w12 + sigma0 w4)) in
  let '(a, e) := Round f g h a b c d e 0x240ca1cc w3 in
  let w4 := u32 (w4 + (sigma1 w2 + w13 + sigma0 w5)) in
  let '(h, d) := Round e f g h a b c d 0x2de92c6f w4 in
  let w5 := u32 (w5 + (sigma1 w3 + w14 + sigma0 w6)) in
  let '(g, c) := Round d e f g h a b c 0x4a7484aa w5 in
  let w6 := u32 (w6 + (sigma1 w4 + w15 + sigma0 w7)) in
  let '(f, b) := Round c d e f g h a b 0x5cb0a9dc w6 in
  let w7 := u32 (w7 + (sigma1 w5 + w0 + sigma0 w8)) in
  let '(e, a) := Round b c d e f g h a 0x76f988da w7 in
  let w8 := u32 (w8 + (sigma1 w6 + w1 + sigma0 w9)) in
  let '(d, h) := Round a b c d e f g h 0x983e5152 w8 in
  let w9 := u32 (w9 + (sigma1 w7 + w2 + sigma0 w10)) in
  let '(c, g) := Round h a b c d e f g 0xa831c66d w9 in
  let w10 := u32 (w10 + (sigma1 w8 + w3 + sigma0 w11)) in
  let '(b, f) := Round g h a b c d e f 0xb00327c8 w10 in
  let w11 := u32 (w11 + (sigma1 w9 + w4 + sigma0 w12)) in
  let '(a, e) := Round f g h a b c d e 0xbf597fc7 w11 in
  let w12 := u32 (w12 + (sigma1 w10 + w5 + sigma0 w13)) in
  let '(h, d) := Round e f g h a b c d 0xc6e00bf3 w12 in
  let w13 := u32 (w13 + (sigma1 w11 + w6 + sigma0 w14)) in
  let '(g, c) := Round d e f g h a b c 0xd5a79147 w13 in
  let w14 := u32 (w14 + (sigma1 w12 + w7 + sigma0 w15)) in
  let '(f, b) := Round c d e f g h a b 0x06ca6351 w14 in
  let w15 := u32 (w15 + (sigma1 w13 + w8 + sigma0 w0)) in
  let '(e, a) := Round b c d e f g h a 0x14292967 w15 in
  ((a, b, c, d, e, f, g, h), [w0; w1; w2; w3; w4; w5; w6; w7; w8; w9; w10; w11; w12; w13; w14; w15]).

Definition Transform_2 (vW : vars * list Z) : vars * list Z :=
  let '(a, b, c, d, e, f, g, h, W) := vW in
  let w0 := W !!! 0%nat in let w1 := W !!! 1%nat in let w2 := W !!! 2%nat in let w3 := W !!! 3%nat in
  let w4 := W !!! 4%nat in let w5 := W !!! 5%nat in let w6 := W !!! 6%nat in let w7 := W !!! 7%nat in
  let w8 := W !!! 8%nat in let w9 := W !!! 9%nat in let w10 := W !!! 10%nat in let w11 := W !!! 11%nat in
  let w12 := W !!! 12%nat in let w13 := W !!! 13%nat in let w14 := W !!! 14%nat in let w15 := W !!! 15%nat in
  let w0 := u32 (w0 + (sigma1 w14 + w9 + sigma0 w1)) in
  let '(d, h) := Round a b c d e f g h 0x27b70a85 w0 in
  let w1 := u32 (w1 + (sigma1 w15 + w10 + sigma0 w2)) in
  let '(c, g) := Round h a b c d e f g 0x2e1b2138 w1 in
  let w2 := u32 (w2 + (sigma1 w0 + w11 + sigma0 w3)) in
  let '(b, f) := Round g h a b c d e f 0x4d2c6dfc w2 in
  let w3 := u32 (w3 + (sigma1 w1 + w12 + sigma0 w4)) in
  let '(a, e) := Round f g h a b c d e 0x53380d13 w3 in
  let w4 := u32 (w4 + (sigma1 w2 + w13 + sigma0 w5)) in
  let '(h, d) := Round e f g h a b c d 0x650a7354 w4 in
  let w5 := u32 (w5 + (sigma1 w3 + w14 + sigma0 w6)) in
  let '(g, c) := Round d e f g h a b c 0x766a0abb w5 in
  let w6 := u32 (w6 + (sigma1 w4 + w15 + sigma0 w7)) in
  let '(f, b) := Round c d e f g h a b 0x81c2c92e w6 in
  let w7 := u32 (w7 + (sigma1 w5 + w0 + sigma0 w8)) in
  let '(e, a) := Round b c d e f g h a 0x92722c85 w7 in
  let w8 := u32 (w8 + (sigma1 w6 + w1 + sigma0 w9)) in
  let '(d, h) := Round a b c d e f g h 0xa2bfe8a1 w8 in
  let w9 := u32 (w9 + (sigma1 w7 + w2 + sigma0 w10)) in
  let '(c, g) := Round h a b c d e f g 0xa81a664b w9 in
  let w10 := u32 (w10 + (sigma1 w8 + w3 + sigma0 w11)) in
  let '(b, f) := Round g h a b c d e f 0xc24b8b70 w10 in
  let w11 := u32 (w11 + (sigma1 w9 + w4 + sigma0 w12)) in
  let '(a, e) := Round f g h a b c d e 0xc76c51a3 w11 in
  let w12 := u32 (w12 + (sigma1 w10 + w5 + sigma0 w13)) in
  let '(h, d) := Round e f g h a b c d 0xd192e819 w12 in
  let w13 := u32 (w13 + (sigma1 w11 + w6 + sigma0 w14)) in
  let '(g, c) := Round d e f g h a b c 0xd6990624 w13 in
  let w14 := u32 (w14 + (sigma1 w12 + w7 + sigma0 w15)) in
  let '(f, b) := Round c d e f g h a b 0xf40e3585 w14 in
  let w15 := u32 (w15 + (sigma1 w13 + w8 + sigma0 w0)) in
  let '(e, a) := Round b c d e f g h a 0x106aa070 w15 in
  ((a, b, c, d, e, f, g, h), [w0; w1; w2; w3; w4; w5; w6; w7; w8; w9; w10; w11; w12; w13; w14; w15]).

Definition Transform_3 (vW : vars * list Z) : vars :=
  let '(a, b, c, d, e, f, g, h, W) := vW in
  let w0 := W !!! 0%nat in let w1 := W !!! 1%nat in let w2 := W !!! 2%nat in let w3 := W !!! 3%nat in
  let w4 := W !!! 4%nat in let w5 := W !!! 5%nat in let w6 := W !!! 6%nat in let w7 := W !!! 7%nat in
  let w8 := W !!! 8%nat in let w9 := W !!! 9%nat in let w10 := W !!! 10%nat in let w11 := W !!! 11%nat in
  let w12 := W !!! 12%nat in let w13 := W !!! 13%nat in let w14 := W !!! 14%nat in let w15 := W !!! 15%nat in
  let w0 := u32 (w0 + (sigma1 w14 + w9 + sigma0 w1)) in
  let '(d, h) := Round a b c d e f g h 0x19a4c116 w0 in
  let w1 := u32 (w1 + (sigma1 w15 + w10 + sigma0 w2)) in
  let '(c, g) := Round h a b c d e f g 0x1e376c08 w1 in
  let w2 := u32 (w2 + (sigma1 w0 + w11 + sigma0 w3)) in
  let '(b, f) := Round g h a b c d e f 0x2748774c w2 in
  let w3 := u32 (w3 + (sigma1 w1 + w12 + sigma0 w4)) in
  let '(a, e) := Round f g h a b c d e 0x34b0bcb5 w3 in
  let w4 := u32 (w4 + (sigma1 w2 + w13 + sigma0 w5)) in
  let '(h, d) := Round e f g h a b c d 0x391c0cb3 w4 in
  let w5 := u32 (w5 + (sigma1 w3 + w14 + sigma0 w6)) in
  let '(g, c) := Round d e f g h a b c 0x4ed8aa4a w5 in
  let w6 := u32 (w6 + (sigma1 w4 + w15 + sigma0 w7)) in
  let '(f, b) := Round c d e f g h a b 0x5b9cca4f w6 in
  let w7 := u32 (w7 + (sigma1 w5 + w0 + sigma0 w8)) in
  let '(e, a) := Round b c d e f g h a 0x682e6ff3 w7 in
  let w8 := u32 (w8 + (sigma1 w6 + w1 + sigma0 w9)) in
  let '(d, h) := Round a b c d e f g h 0x748f82ee w8 in
  let w9 := u32 (w9 + (sigma1 w7 + w2 + sigma0 w10)) in
  let '(c, g) := Round h a b c d e f g 0x78a5636f w9 in
  let w10 := u32 (w10 + (sigma1 w8 + w3 + sigma0 w11)) in
  let '(b, f) := Round g h a b c d e f 0x84c87814 w10 in
  let w11 := u32 (w11 + (sigma1 w9 + w4 + sigma0 w12)) in
  let '(a, e) := Round f g h a b c d e 0x8cc70208 w11 in
  let w12 := u32 (w12 + (sigma1 w10 + w5 + sigma0 w13)) in
  let '(h, d) := Round e f g h a b c d 0x90befffa w12 in
  let w13 := u32 (w13 + (sigma1 w11 + w6 + sigma0 w14)) in
  let '(g, c) := Round d e f g h a b c 0xa4506ceb w13 in
  let '(f, b) := Round c d e f g h a b 0xbef9a3f7 (u32 (w14 + sigma1 w12 + w7 + sigma0 w15)) in
  let '(e, a) := Round b c d e f g h a 0xc67178f2 (u32 (w15 + sigma1 w13 + w8 + sigma0 w0)) in
  (a, b, c, d, e, f, g, h).

(** [s[0] += a] to [s[7] += h] *)
Definition Transform (s chunk : list Z) : list Z :=
  let '(a, b, c, d, e, f, g, h) :=
    Transform_3 (Transform_2 (Transform_1 (Transform_0 (to_vars s) chunk))) in
  [u32 (s !!! 0%nat + a); u32 (s !!! 1%nat + b); u32 (s !!! 2%nat + c); u32 (s !!! 3%nat + d);
   u32 (s !!! 4%nat + e); u32 (s !!! 5%nat + f); u32 (s !!! 6%nat + g); u32 (s !!! 7%nat + h)].

(** ** The class [CSHA256] *)

(** The buffer of a new object holds whatever was in memory. *)
Definition CSHA256 (mem : list Z) : CHasher := Hasher Initialize mem 0.
Definition CSHA256_Write : CHasher -> list Z -> option CHasher := Write 64 Transform.
Definition CSHA256_Reset (h : CHasher) : CHasher := Hasher Initialize (hbuf h) 0.

Definition CSHA256_Finalize (h : CHasher) : option (CHasher * list Z) :=
  let sizedesc := WriteBE64 (bit_count h) in
  h ← Write_padding 64 Transform 119 h sizedesc;
  let s := hs h in
  Some (h, WriteBE32 (s !!! 0%nat) ++ WriteBE32 (s !!! 1%nat) ++ WriteBE32 (s !!! 2%nat) ++ WriteBE32 (s !!! 3%nat) ++
           WriteBE32 (s !!! 4%nat) ++ WriteBE32 (s !!! 5%nat) ++ WriteBE32 (s !!! 6%nat) ++ WriteBE32 (s !!! 7%nat)).

(** The round constants that the calls above list. *)
Definition K : list Z := Eval vm_compute in fips_constants 32 3 64.

(** ** Reference *)

Definition sha256_compress (s b : list Z) : list Z :=
  fips_compress 32 (2, 13, 22) (6, 11, 25) (7, 18, 3) (17, 19, 10) (fips_constants 32 3 64) s
    (map (fun i => load_le 4 (rev (take 4 (drop (4 * i) b)))) (seq 0 16)).

(** SHA-256 of FIPS 180-4 on a message of bytes. *)
Definition sha256 (m : list Z) : list Z :=
  concat (map (fun x => rev (store_le 4 x))
    (md_hash 64 8 (fun x => rev (store_le 8 x)) sha256_compress (fips_constants 32 2 8) m)).

(** ** Constants *)

Lemma K_fips : K = fips_constants 32 3 64.
Proof. vm_compute. reflexivity. Qed.

Lemma Initialize_fips : Initialize = fips_constants 32 2 8.
Proof. vm_compute. reflexivity. Qed.

(** ** Rounds *)

#[local] Abbreviation round := (fips_round 32 (2, 13, 22) (6, 11, 25)).
#[local] Abbreviation step := (window_step 32 (2, 13, 22) (6, 11, 25) (7, 18, 3) (17, 19, 10)).

Lemma Sigma0_fips x : Sigma0 x = fips_Sigma 32 (2, 13, 22) x.
Proof. reflexivity. Qed.
Lemma Sigma1_fips x : Sigma1 x = fips_Sigma 32 (6, 11, 25) x.
Proof. reflexivity. Qed.

Lemma Round_fips a b c d e f g h k w :
  round (a, b, c, d, e, f, g, h) (k, w) =
  let '(d, h) := Round a b c d e f g h k w in (h, a, b, c, d, e, f, g).
Proof.
  unfold fips_round, Round, Ch, Maj. rewrite fips_Ch_code, fips_Maj_code. cbv zeta. cbn [fst snd].
  rewrite (add5 _ h), <- Sigma0_fips, <- Sigma1_fips. unfold add, u32. reflexivity.
Qed.

Lemma step_code v w0 w1 w2 w3 w4 w5 w6 w7 w8 w9 w10 w11 w12 w13 w14 w15 k :
  step (v, [w0; w1; w2; w3; w4; w5; w6; w7; w8; w9; w10; w11; w12; w13; w14; w15]) k =
  let n := u32 (w0 + (sigma1 w14 + w9 + sigma0 w1)) in
  (round v (k, n), [w1; w2; w3; w4; w5; w6; w7; w8; w9; w10; w11; w12; w13; w14; w15; n]).
Proof.
  unfold window_step. cbn [drop app].
  assert (fips_next 32 (7, 18, 3) (17, 19, 10)
    [w0; w1; w2; w3; w4; w5; w6; w7; w8; w9; w10; w11; w12; w13; w14; w15] =
    u32 (w0 + (sigma1 w14 + w9 + sigma0 w1))) as ->; [|done].
  unfold fips_next, u32. cbv zeta. rewrite add4. cbn [length Nat.sub lookup_total list_lookup_total]. f_equal. rewrite Z.add_comm. reflexivity.
Qed.

(** The last two rounds add the four words from the left. *)
Lemma step_code_last v w0 w1 w2 w3 w4 w5 w6 w7 w8 w9 w10 w11 w12 w13 w14 w15 k :
  step (v, [w0; w1; w2; w3; w4; w5; w6; w7; w8; w9; w10; w11; w12; w13; w14; w15]) k =
  let n := u32 (w0 + sigma1 w14 + w9 + sigma0 w1) in
  (round v (k, n), [w1; w2; w3; w4; w5; w6; w7; w8; w9; w10; w11; w12; w13; w14; w15; n]).
Proof. rewrite step_code. by rewrite !Z.add_assoc. Qed.

(** The rounds of a group, one at a time. *)
Ltac sha_round :=
  rewrite Round_fips;
  match goal with |- context [Round ?a ?b ?c ?d ?e ?f ?g ?h ?k ?w] =>
    destruct (Round a b c d e f g h k w) as [? ?] end; cbv iota.

Tactic Notation "sha_group" integer(n) :=
  repeat match goal with v : vars |- _ => destruct v as [[[[[[[? ?] ?] ?] ?] ?] ?] ?] end;
  cbn [foldl]; do n (rewrite step_code; cbv zeta); repeat (rewrite step_code_last; cbv zeta);
  do 16 sha_round.

(** The schedule words of a block. *)
Definition block_words (chunk : list Z) : list Z :=
  map (fun i => ReadBE32 (take 4 (drop (4 * i) chunk))) (seq 0 16).

Ltac sixteen W :=
  do 16 (destruct W as [|? W]; [done|]); destruct W; [|done].

Lemma Transform_0_fips v chunk :
  Transform_0 v chunk = (foldl round v (zip (take 16 K) (block_words chunk)), block_words chunk).
Proof.
  unfold Transform_0, K, block_words. cbn [take seq map zip zip_with Nat.mul Nat.add]. cbv zeta.
  sha_group 0. reflexivity.
Qed.

Lemma Transform_1_fips vW :
  length vW.2 = 16%nat -> Transform_1 vW = foldl step vW (take 16 (drop 16 K)).
Proof.
  destruct vW as [v W]. intros Hl. cbn [snd] in Hl. sixteen W.
  unfold Transform_1, K. cbn [take drop]. cbv zeta. cbn [lookup_total list_lookup_total].
  sha_group 16. reflexivity.
Qed.

Lemma Transform_2_fips vW :
  length vW.2 = 16%nat -> Transform_2 vW = foldl step vW (take 16 (drop 32 K)).
Proof.
  destruct vW as [v W]. intros Hl. cbn [snd] in Hl. sixteen W.
  unfold Transform_2, K. cbn [take drop]. cbv zeta. cbn [lookup_total list_lookup_total].
  sha_group 16. reflexivity.
Qed.

Lemma Transform_3_fips vW :
  length vW.2 = 16%nat -> Transform_3 vW = (foldl step vW (drop 48 K)).1.
Proof.
  destruct vW as [v W]. intros Hl. cbn [snd] in Hl. sixteen W.
  unfold Transform_3, K. cbn [take drop]. cbv zeta. cbn [lookup_total list_lookup_total].
  sha_group 14. cbn [fst]. reflexivity.
Qed.

(** Replace the window after a group by a new variable. *)
Ltac apply_window x Hl :=
  match goal with |- context [foldl step x ?ks] =>
    let y := fresh "y" in let Hy := fresh "Hy" in
    pose proof (length_window _ _ _ _ _ x ks Hl : length (foldl step x ks).2 = 16%nat) as Hy;
    set (y := foldl step x ks) in *; clearbody y; clear x Hl; rename y into x, Hy into Hl
  end.

Lemma Transform_fips s chunk :
  length s = 8%nat ->
  Transform s chunk = fips_compress 32 (2, 13, 22) (6, 11, 25) (7, 18, 3) (17, 19, 10) K s (block_words chunk).
Proof.
  intros Hs. rewrite <- window_compress_spec by (done || (apply Nat.leb_le; done)). unfold Transform, window_compress. cbv zeta.
  set (v := foldl round _ _).
  rewrite Transform_0_fips. fold v.
  set (x := (v, block_words chunk)). assert (length x.2 = 16%nat) as Hl by done. clearbody x.
  change (drop 16 K) with (take 16 (drop 16 K) ++ take 16 (drop 32 K) ++ drop 48 K).
  rewrite !foldl_app.
  rewrite (Transform_1_fips x Hl). apply_window x Hl.
  rewrite (Transform_2_fips x Hl). apply_window x Hl.
  rewrite (Transform_3_fips x Hl).
  destruct (foldl step _ _).1 as [[[[[[[a b] c] d] e] f] g] h].
  do 8 (destruct s as [|? s]; [done|]). destruct s; [|done]. reflexivity.
Qed.

(** ** The whole function *)

Definition state_ok (s : list Z) : Prop := length s = 8%nat /\ Forall (word 32) s.

Lemma block_words_load b :
  Forall byte b -> length b = 64%nat ->
  block_words b = map (fun i => load_le 4 (rev (take 4 (drop (4 * i) b)))) (seq 0 16).
Proof.
  intros Hb Hl. apply map_ext_in. intros i Hi%in_seq. apply ReadBE32_load.
  - by apply Forall_take, Forall_drop.
  - rewrite length_take, length_drop. lia.
Qed.

Lemma Transform_compress b s :
  Forall byte b -> length b = 64%nat -> state_ok s ->
  Transform s b = sha256_compress s b /\ state_ok (sha256_compress s b).
Proof.
  intros Hb Hl [Hs _]. unfold sha256_compress. rewrite <- K_fips.
  split; [|apply fips_compress_words; [lia|exact Hs]].
  rewrite Transform_fips, block_words_load by done. reflexivity.
Qed.

Lemma Initialize_ok : state_ok Initialize.
Proof. split; [done|]. by repeat (apply Forall_cons_2; [done|]). Qed.

(** The words of the state, most significant byte first. *)
Lemma digest_ok s :
  state_ok s ->
  WriteBE32 (s !!! 0%nat) ++ WriteBE32 (s !!! 1%nat) ++ WriteBE32 (s !!! 2%nat) ++ WriteBE32 (s !!! 3%nat) ++
  WriteBE32 (s !!! 4%nat) ++ WriteBE32 (s !!! 5%nat) ++ WriteBE32 (s !!! 6%nat) ++ WriteBE32 (s !!! 7%nat) =
  concat (map (fun x => rev (store_le 4 x)) s).
Proof.
  intros [Hl Hw]. do 8 (destruct s as [|? s]; [done|]). destruct s; [|done].
  rewrite !list.Forall_cons in Hw. destruct_and! Hw.
  cbn [lookup_total list_lookup_total map concat]. rewrite !WriteBE32_store by done.
  by rewrite app_nil_r.
Qed.

Lemma padded_bytes m :
  Forall byte m -> Forall byte (md_pad 64 8 (fun x => rev (store_le 8 x)) m).
Proof. intros. apply md_pad_bytes; [done|]. intros. apply Forall_rev, store_le_bytes. Qed.

(** [Finalize] on an object that was given the bytes [m]. *)
Lemma CSHA256_Finalize_ok h m :
  hasher_ok 64 Transform Initialize h m -> Forall byte m ->
  8 * Z.of_nat (length m) < 2 ^ 64 ->
  exists h', CSHA256_Finalize h = Some (h', sha256 m) /\ length (hbuf h') = 64%nat.
Proof.
  intros Hok Hm Hlen. unfold CSHA256_Finalize. rewrite (bit_count_ok _ _ _ _ _ Hok Hlen).
  set (x := 8 * Z.of_nat (length m)) in *.
  assert (word 64 x) as Hx by (unfold word; lia).
  rewrite WriteBE64_store by done.
  destruct (Write_padding_ok 64 Transform Initialize ltac:(lia) ltac:(by exists (2 ^ 58)) 8 119 h m
    (rev (store_le 8 x))) as (h'&->&Hl&Hs);
    [done|by rewrite length_rev, length_store_le|done|].
  exists h'. cbn [mbind option_bind]. cbv zeta. split; [|done]. repeat f_equal.
  assert (state_ok (hs h') /\
    hs h' = md_hash 64 8 (fun x => rev (store_le 8 x)) sha256_compress Initialize m) as [Hst E].
  { unfold md_hash. cbv zeta. set (p := md_pad _ _ _ m).
    change (hs h' = fold_blocks 64 (fun b s => Transform s b) (length p / 64) p Initialize) in Hs.
    rewrite Hs.
    destruct (fold_blocks_agree 64 (fun b s => Transform s b) (fun b s => sha256_compress s b)
      state_ok (length p / 64) p Initialize) as [-> HP]; try done.
    - intros b s Hb Hl' Hst. by apply Transform_compress.
    - rewrite Nat.mul_comm. apply Nat.Div0.mul_div_le.
    - by apply padded_bytes.
    - apply Initialize_ok. }
  rewrite digest_ok by done. by rewrite E, Initialize_fips.
Qed.

(** C37: However the message is split over calls of [Write], and whatever memory the
    object was created in, [Finalize] returns the SHA-256 digest of FIPS 180-4 of the whole
    message, no access leaves the buffers, and after [Reset] the object is a new one. The
    standard, and the 64-bit counter of bytes, limit messages to fewer than 2^64 bits. *)
Theorem sha256_streaming mem chunks :
  length mem = 64%nat -> Forall byte (concat chunks) ->
  8 * Z.of_nat (length (concat chunks)) < 2 ^ 64 ->
  exists h h' mem',
    foldl (fun oh data => h ← oh; CSHA256_Write h data) (Some (CSHA256 mem)) chunks = Some h /\
    CSHA256_Finalize h = Some (h', sha256 (concat chunks)) /\
    CSHA256_Reset h' = CSHA256 mem' /\ length mem' = 64%nat.
Proof.
  intros Hmem Hb Hlen.
  destruct (Writes_ok 64 Transform Initialize ltac:(lia) ltac:(by exists (2 ^ 58)) (CSHA256 mem) [] chunks)
    as (h&Hw&Hok); [by apply hasher_ok_init; [lia|]|].
  destruct (CSHA256_Finalize_ok h (concat chunks) Hok Hb Hlen) as (h'&Hf&Hl).
  exists h, h', (hbuf h'). split_and!; done.
Qed.

(** The message [abc], in two calls. *)
Lemma sha256_streaming_witness :
  exists h h' mem',
    foldl (fun oh data => h ← oh; CSHA256_Write h data) (Some (CSHA256 (replicate 64 0xcc))) [[97]; [98; 99]]
      = Some h /\
    CSHA256_Finalize h = Some (h', sha256 [97; 98; 99]) /\
    CSHA256_Reset h' = CSHA256 mem' /\ length mem' = 64%nat.
Proof.
  apply (sha256_streaming (replicate 64 0xcc) [[97]; [98; 99]]); [done| |done].
  by repeat (apply Forall_cons_2; [done|]).
Defined.

(** The digest of [abc] that the standard lists. *)
Example sha256_abc :
  sha256 [97; 98; 99] =
  [0xba; 0x78; 0x16; 0xbf; 0x8f; 0x01; 0xcf; 0xea; 0x41; 0x41; 0x40; 0xde; 0x5d; 0xae; 0x22; 0x23;
   0xb0; 0x03; 0x61; 0xa3; 0x96; 0x17; 0x7a; 0x9c; 0xb4; 0x10; 0xff; 0x61; 0xf2; 0x00; 0x15; 0xad].
Proof. vm_compute. reflexivity. Qed.

(** ** The interface *)

Lemma concat_words_length s :
  length (concat (map (fun x => rev (store_le 4 x)) s)) = (4 * length s)%nat.
Proof.
  induction s as [|x s IH]; [done|]. cbn [map concat]. rewrite length_app, length_rev, length_store_le, IH.
  cbn [length]. lia.
Qed.

Lemma sha256_state m :
  length (md_hash 64 8 (fun x => rev (store_le 8 x)) sha256_compress (fips_constants 32 2 8) m)
  = 8%nat.
Proof.
  unfold md_hash. cbv zeta. set (p := md_pad _ _ _ m). clearbody p.
  apply (fold_blocks_inv 64 _ (fun s => length s = 8%nat)); [|rewrite <- Initialize_fips; done].
  intros b s Hs. unfold sha256_compress. rewrite <- K_fips. by apply fips_compress_words.
Qed.

#[export] Instance SHA256_ops : CryptoHash := {
  hash_block := 64;
  hash_size := 32;
  hash_new := CSHA256;
  hash_write := CSHA256_Write;
  hash_finalize := CSHA256_Finalize;
  hash_reset := CSHA256_Reset;
}.

#[export, refine] Instance SHA256_spec : CryptoHashSpec SHA256_ops := {
  digest := sha256;
  hash_rep := hasher_ok 64 Transform Initialize;
}.
Proof.
  - intros mem Hm. apply hasher_ok_init; [lia|exact Hm].
  - intros h m data Hok. apply Write_ok; [lia|by exists (2 ^ 58)|exact Hok].
  - intros h m Hok Hm Hl. destruct (CSHA256_Finalize_ok h m Hok Hm Hl) as (h'&E&Hl').
    exists h'. split; [exact E|]. apply hasher_ok_init; [lia|exact Hl'].
  - intros m. unfold sha256. rewrite concat_words_length, sha256_state. reflexivity.
  - intros m. apply Forall_concat, Forall_map, Forall_true. intros x. apply Forall_rev, store_le_bytes.
  - cbn. lia.
Defined.
