(* ===== verification/Sha512.v ===== *)
(** * SHA-512: [src/src/crypto/sha512.cpp]

    The unrolled compression function on local variables and the class around it,
    compared with FIPS 180-4. *)

From S2P Require Import Prelude BitReflect SphTypes BlockBuffer Hasher Sha2Spec.

#[local] Open Scope c_scope.

Definition Ch (x y z : Z) : Z := z ⊕ (x .& (y ⊕ z)).
Definition Maj (x y z : Z) : Z := (x .& y) .| (z .& (x .| y)).
Definition Sigma0 (x : Z) : Z :=
  ((x >> 28) .| u64 (x << 36)) ⊕ ((x >> 34) .| u64 (x << 30)) ⊕ ((x >> 39) .| u64 (x << 25)).
Definition Sigma1 (x : Z) : Z :=
  ((x >> 14) .| u64 (x << 50)) ⊕ ((x >> 18) .| u64 (x << 46)) ⊕ ((x >> 41) .| u64 (x << 23)).
Definition sigma0 (x : Z) : Z :=
  ((x >> 1) .| u64 (x << 63)) ⊕ ((x >> 8) .| u64 (x << 56)) ⊕ (x >> 7).
Definition sigma1 (x : Z) : Z :=
  ((x >> 19) .| u64 (x << 45)) ⊕ ((x >> 61) .| u64 (x << 3)) ⊕ (x >> 6).

(** One round; the references [d] and [h] are the result. *)
Definition Round (a b c d e f g h k w : Z) : Z * Z :=
  let t1 := u64 (h + Sigma1 e + Ch e f g + k + w) in
  let t2 := u64 (Sigma0 a + Maj a b c) in
  (u64 (d + t1), u64 (t1 + t2)).

Definition Initialize : list Z :=
  [0x6a09e667f3bcc908; 0xbb67ae8584caa73b; 0x3c6ef372fe94f82b; 0xa54ff53a5f1d36f1;
   0x510e527fade682d1; 0x9b05688c2b3e6c1f; 0x1f83d9abfb41bd6b; 0x5be0cd19137e2179].

(** ** [Transform], in groups of 16 rounds *)

(** The first group reads the block: [w0 = ReadBE64(chunk + 0)] and so on. *)
Definition Transform_0 (v : vars) (chunk : list Z) : vars * list Z :=
  let '(a, b, c, d, e, f, g, h) := v in
  let w0 := ReadBE64 (take 8 (drop 0 chunk)) in
  let '(d, h) := Round a b c d e f g h 0x428a2f98d728ae22 w0 in
  let w1 := ReadBE64 (take 8 (drop 8 chunk)) in
  let '(c, g) := Round h a b c d e f g 0x7137449123ef65cd w1 in
  let w2 := ReadBE64 (take 8 (drop 16 chunk)) in
  let '(b, f) := Round g h a b c d e f 0xb5c0fbcfec4d3b2f w2 in
  let w3 := ReadBE64 (take 8 (drop 24 chunk)) in
  let '(a, e) := Round f g h a b c d e 0xe9b5dba58189dbbc w3 in
  let w4 := ReadBE64 (take 8 (drop 32 chunk)) in
  let '(h, d) := Round e f g h a b c d 0x3956c25bf348b538 w4 in
  let w5 := ReadBE64 (take 8 (drop 40 chunk)) in
  let '(g, c) := Round d e f g h a b c 0x59f111f1b605d019 w5 in
  let w6 := ReadBE64 (take 8 (drop 48 chunk)) in
  let '(f, b) := Round c d e f g h a b 0x923f82a4af194f9b w6 in
  let w7 := ReadBE64 (take 8 (drop 56 chunk)) in
  let '(e, a) := Round b c d e f g h a 0xab1c5ed5da6d8118 w7 in
  let w8 := ReadBE64 (take 8 (drop 64 chunk)) in
  let '(d, h) := Round a b c d e f g h 0xd807aa98a3030242 w8 in
  let w9 := ReadBE64 (take 8 (drop 72 chunk)) in
  let '(c, g) := Round h a b c d e f g 0x12835b0145706fbe w9 in
  let w10 := ReadBE64 (take 8 (drop 80 chunk)) in
  let '(b, f) := Round g h a b c d e f 0x243185be4ee4b28c w10 in
  let w11 := ReadBE64 (take 8 (drop 88 chunk)) in
  let '(a, e) := Round f g h a b c d e 0x550c7dc3d5ffb4e2 w11 in
  let w12 := ReadBE64 (take 8 (drop 96 chunk)) in
  let '(h, d) := Round e f g h a b c d 0x72be5d74f27b896f w12 in
  let w13 := ReadBE64 (take 8 (drop 104 chunk)) in
  let '(g, c) := Round d e f g h a b c 0x80deb1fe3b1696b1 w13 in
  let w14 := ReadBE64 (take 8 (drop 112 chunk)) in
  let '(f, b) := Round c d e f g h a b 0x9bdc06a725c71235 w14 in
  let w15 := ReadBE64 (take 8 (drop 120 chunk)) in
  let '(e, a) := Round b c d e f g h a 0xc19bf174cf692694 w15 in
  ((a, b, c, d, e, f, g, h), [w0; w1; w2; w3; w4; w5; w6; w7; w8; w9; w10; w11; w12; w13; w14; w15]).

Definition Transform_1 (vW : vars * list Z) : vars * list Z :=
  let '(a, b, c, d, e, f, g, h, W) := vW in
  let w0 := W !!! 0%nat in let w1 := W !!! 1%nat in let w2 := W !!! 2%nat in let w3 := W !!! 3%nat in
  let w4 := W !!! 4%nat in let w5 := W !!! 5%nat in let w6 := W !!! 6%nat in let w7 := W !!! 7%nat in
  let w8 := W !!! 8%nat in let w9 := W !!! 9%nat in let w10 := W !!! 10%nat in let w11 := W !!! 11%nat in
  let w12 := W !!! 12%nat in let w13 := W !!! 13%nat in let w14 := W !!! 14%nat in let w15 := W !!! 15%nat in
  let w0 := u64 (w0 + (sigma1 w14 + w9 + sigma0 w1)) in
  let '(d, h) := Round a b c d e f g h 0xe49b69c19ef14ad2 w0 in
  let w1 := u64 (w1 + (sigma1 w15 + w10 + sigma0 w2)) in
  let '(c, g) := Round h a b c d e f g 0xefbe4786384f25e3 w1 in
  let w2 := u64 (w2 + (sigma1 w0 + w11 + sigma0 w3)) in
  let '(b, f) := Round g h a b c d e f 0x0fc19dc68b8cd5b5 w2 in
  let w3 := u64 (w3 + (sigma1 w1 + w12 + sigma0 w4)) in
  let '(a, e) := Round f g h a b c d e 0x240ca1cc77ac9c65 w3 in
  let w4 := u64 (w4 + (sigma1 w2 + w13 + sigma0 w5)) in
  let '(h, d) := Round e f g h a b c d 0x2de92c6f592b0275 w4 in
  let w5 := u64 (w5 + (sigma1 w3 + w14 + sigma0 w6)) in
  let '(g, c) := Round d e f g h a b c 0x4a7484aa6ea6e483 w5 in
  let w6 := u64 (w6 + (sigma1 w4 + w15 + sigma0 w7)) in
  let '(f, b) := Round c d e f g h a b 0x5cb0a9dcbd41fbd4 w6 in
  let w7 := u64 (w7 + (sigma1 w5 + w0 + sigma0 w8)) in
  let '(e, a) := Round b c d e f g h a 0x76f988da831153b5 w7 in
  let w8 := u64 (w8 + (sigma1 w6 + w1 + sigma0 w9)) in
  let '(d, h) := Round a b c d e f g h 0x983e5152ee66dfab w8 in
  let w9 := u64 (w9 + (sigma1 w7 + w2 + sigma0 w10)) in
  let '(c, g) := Round h a b c d e f g 0xa831c66d2db43210 w9 in
  let w10 := u64 (w10 + (sigma1 w8 + w3 + sigma0 w11)) in
  let '(b, f) := Round g h a b c d e f 0xb00327c898fb213f w10 in
  let w11 := u64 (w11 + (sigma1 w9 + w4 + sigma0 w12)) in
  let '(a, e) := Round f g h a b c d e 0xbf597fc7beef0ee4 w11 in
  let w12 := u64 (w12 + (sigma1 w10 + w5 + sigma0 w13)) in
  let '(h, d) := Round e f g h a b c d 0xc6e00bf33da88fc2 w12 in
  let w13 := u64 (w13 + (sigma1 w11 + w6 + sigma0 w14)) in
  let '(g, c) := Round d e f g h a b c 0xd5a79147930aa725 w13 in
  let w14 := u64 (w14 + (sigma1 w12 + w7 + sigma0 w15)) in
  let '(f, b) := Round c d e f g h a b 0x06ca6351e003826f w14 in
  let w15 := u64 (w15 + (sigma1 w13 + w8 + sigma0 w0)) in
  let '(e, a) := Round b c d e f g h a 0x142929670a0e6e70 w15 in
  ((a, b, c, d, e, f, g, h), [w0; w1; w2; w3; w4; w5; w6; w7; w8; w9; w10; w11; w12; w13; w14; w15]).

Definition Transform_2 (vW : vars * list Z) : vars * list Z :=
  let '(a, b, c, d, e, f, g, h, W) := vW in
  let w0 := W !!! 0%nat in let w1 := W !!! 1%nat in let w2 := W !!! 2%nat in let w3 := W !!! 3%nat in
  let w4 := W !!! 4%nat in let w5 := W !!! 5%nat in let w6 := W !!! 6%nat in let w7 := W !!! 7%nat in
  let w8 := W !!! 8%nat in let w9 := W !!! 9%nat in let w10 := W !!! 10%nat in let w11 := W !!! 11%nat in
  let w12 := W !!! 12%nat in let w13 := W !!! 13%nat in let w14 := W !!! 14%nat in let w15 := W !!! 15%nat in
  let w0 := u64 (w0 + (sigma1 w14 + w9 + sigma0 w1)) in
  let '(d, h) := Round a b c d e f g h 0x27b70a8546d22ffc w0 in
  let w1 := u64 (w1 + (sigma1 w15 + w10 + sigma0 w2)) in
  let '(c, g) := Round h a b c d e f g 0x2e1b21385c26c926 w1 in
  let w2 := u64 (w2 + (sigma1 w0 + w11 + sigma0 w3)) in
  let '(b, f) := Round g h a b c d e f 0x4d2c6dfc5ac42aed w2 in
  let w3 := u64 (w3 + (sigma1 w1 + w12 + sigma0 w4)) in
  let '(a, e) := Round f g h a b c d e 0x53380d139d95b3df w3 in
  let w4 := u64 (w4 + (sigma1 w2 + w13 + sigma0 w5)) in
  let '(h, d) := Round e f g h a b c d 0x650a73548baf63de w4 in
  let w5 := u64 (w5 + (sigma1 w3 + w14 + sigma0 w6)) in
  let '(g, c) := Round d e f g h a b c 0x766a0abb3c77b2a8 w5 in
  let w6 := u64 (w6 + (sigma1 w4 + w15 + sigma0 w7)) in
  let '(f, b) := Round c d e f g h a b 0x81c2c92e47edaee6 w6 in
  let w7 := u64 (w7 + (sigma1 w5 + w0 + sigma0 w8)) in
  let '(e, a) := Round b c d e f g h a 0x92722c851482353b w7 in
  let w8 := u64 (w8 + (sigma1 w6 + w1 + sigma0 w9)) in
  let '(d, h) := Round a b c d e f g h 0xa2bfe8a14cf10364 w8 in
  let w9 := u64 (w9 + (sigma1 w7 + w2 + sigma0 w10)) in
  let '(c, g) := Round h a b c d e f g 0xa81a664bbc423001 w9 in
  let w10 := u64 (w10 + (sigma1 w8 + w3 + sigma0 w11)) in
  let '(b, f) := Round g h a b c d e f 0xc24b8b70d0f89791 w10 in
  let w11 := u64 (w11 + (sigma1 w9 + w4 + sigma0 w12)) in
  let '(a, e) := Round f g h a b c d e 0xc76c51a30654be30 w11 in
  let w12 := u64 (w12 + (sigma1 w10 + w5 + sigma0 w13)) in
  let '(h, d) := Round e f g h a b c d 0xd192e819d6ef5218 w12 in
  let w13 := u64 (w13 + (sigma1 w11 + w6 + sigma0 w14)) in
  let '(g, c) := Round d e f g h a b c 0xd69906245565a910 w13 in
  let w14 := u64 (w14 + (sigma1 w12 + w7 + sigma0 w15)) in
  let '(f, b) := Round c d e f g h a b 0xf40e35855771202a w14 in
  let w15 := u64 (w15 + (sigma1 w13 + w8 + sigma0 w0)) in
  let '(e, a) := Round b c d e f g h a 0x106aa07032bbd1b8 w15 in
  ((a, b, c, d, e, f, g, h), [w0; w1; w2; w3; w4; w5; w6; w7; w8; w9; w10; w11; w12; w13; w14; w15]).

Definition Transform_3 (vW : vars * list Z) : vars * list Z :=
  let '(a, b, c, d, e, f, g, h, W) := vW in
  let w0 := W !!! 0%nat in let w1 := W !!! 1%nat in let w2 := W !!! 2%nat in let w3 := W !!! 3%nat in
  let w4 := W !!! 4%nat in let w5 := W !!! 5%nat in let w6 := W !!! 6%nat in let w7 := W !!! 7%nat in
  let w8 := W !!! 8%nat in let w9 := W !!! 9%nat in let w10 := W !!! 10%nat in let w11 := W !!! 11%nat in
  let w12 := W !!! 12%nat in let w13 := W !!! 13%nat in let w14 := W !!! 14%nat in let w15 := W !!! 15%nat in
  let w0 := u64 (w0 + (sigma1 w14 + w9 + sigma0 w1)) in
  let '(d, h) := Round a b c d e f g h 0x19a4c116b8d2d0c8 w0 in
  let w1 := u64 (w1 + (sigma1 w15 + w10 + sigma0 w2)) in
  let '(c, g) := Round h a b c d e f g 0x1e376c085141ab53 w1 in
  let w2 := u64 (w2 + (sigma1 w0 + w11 + sigma0 w3)) in
  let '(b, f) := Round g h a b c d e f 0x2748774cdf8eeb99 w2 in
  let w3 := u64 (w3 + (sigma1 w1 + w12 + sigma0 w4)) in
  let '(a, e) := Round f g h a b c d e 0x34b0bcb5e19b48a8 w3 in
  let w4 := u64 (w4 + (sigma1 w2 + w13 + sigma0 w5)) in
  let '(h, d) := Round e f g h a b c d 0x391c0cb3c5c95a63 w4 in
  let w5 := u64 (w5 + (sigma1 w3 + w14 + sigma0 w6)) in
  let '(g, c) := Round d e f g h a b c 0x4ed8aa4ae3418acb w5 in
  let w6 := u64 (w6 + (sigma1 w4 + w15 + sigma0 w7)) in
  let '(f, b) := Round c d e f g h a b 0x5b9cca4f7763e373 w6 in
  let w7 := u64 (w7 + (sigma1 w5 + w0 + sigma0 w8)) in
  let '(e, a) := Round b c d e f g h a 0x682e6ff3d6b2b8a3 w7 in
  let w8 := u64 (w8 + (sigma1 w6 + w1 + sigma0 w9)) in
  let '(d, h) := Round a b c d e f g h 0x748f82ee5defb2fc w8 in
  let w9 := u64 (w9 + (sigma1 w7 + w2 + sigma0 w10)) in
  let '(c, g) := Round h a b c d e f g 0x78a5636f43172f60 w9 in
  let w10 := u64 (w10 + (sigma1 w8 + w3 + sigma0 w11)) in
  let '(b, f) := Round g h a b c d e f 0x84c87814a1f0ab72 w10 in
  let w11 := u64 (w11 + (sigma1 w9 + w4 + sigma0 w12)) in
  let '(a, e) := Round f g h a b c d e 0x8cc702081a6439ec w11 in
  let w12 := u64 (w12 + (sigma1 w10 + w5 + sigma0 w13)) in
  let '(h, d) := Round e f g h a b c d 0x90befffa23631e28 w12 in
  let w13 := u64 (w13 + (sigma1 w11 + w6 + sigma0 w14)) in
  let '(g, c) := Round d e f g h a b c 0xa4506cebde82bde9 w13 in
  let w14 := u64 (w14 + (sigma1 w12 + w7 + sigma0 w15)) in
  let '(f, b) := Round c d e f g h a b 0xbef9a3f7b2c67915 w14 in
  let w15 := u64 (w15 + (sigma1 w13 + w8 + sigma0 w0)) in
  let '(e, a) := Round b c d e f g h a 0xc67178f2e372532b w15 in
  ((a, b, c, d, e, f, g, h), [w0; w1; w2; w3; w4; w5; w6; w7; w8; w9; w10; w11; w12; w13; w14; w15]).

Definition Transform_4 (vW : vars * list Z) : vars :=
  let '(a, b, c, d, e, f, g, h, W) := vW in
  let w0 := W !!! 0%nat in let w1 := W !!! 1%nat in let w2 := W !!! 2%nat in let w3 := W !!! 3%nat in
  let w4 := W !!! 4%nat in let w5 := W !!! 5%nat in let w6 := W !!! 6%nat in let w7 := W !!! 7%nat in
  let w8 := W !!! 8%nat in let w9 := W !!! 9%nat in let w10 := W !!! 10%nat in let w11 := W !!! 11%nat in
  let w12 := W !!! 12%nat in let w13 := W !!! 13%nat in let w14 := W !!! 14%nat in let w15 := W !!! 15%nat in
  let w0 := u64 (w0 + (sigma1 w14 + w9 + sigma0 w1)) in
  let '(d, h) := Round a b c d e f g h 0xca273eceea26619c w0 in
  let w1 := u64 (w1 + (sigma1 w15 + w10 + sigma0 w2)) in
  let '(c, g) := Round h a b c d e f g 0xd186b8c721c0c207 w1 in
  let w2 := u64 (w2 + (sigma1 w0 + w11 + sigma0 w3)) in
  let '(b, f) := Round g h a b c d e f 0xeada7dd6cde0eb1e w2 in
  let w3 := u64 (w3 + (sigma1 w1 + w12 + sigma0 w4)) in
  let '(a, e) := Round f g h a b c d e 0xf57d4f7fee6ed178 w3 in
  let w4 := u64 (w4 + (sigma1 w2 + w13 + sigma0 w5)) in
  let '(h, d) := Round e f g h a b c d 0x06f067aa72176fba w4 in
  let w5 := u64 (w5 + (sigma1 w3 + w14 + sigma0 w6)) in
  let '(g, c) := Round d e f g h a b c 0x0a637dc5a2c898a6 w5 in
  let w6 := u64 (w6 + (sigma1 w4 + w15 + sigma0 w7)) in
  let '(f, b) := Round c d e f g h a b 0x113f9804bef90dae w6 in
  let w7 := u64 (w7 + (sigma1 w5 + w0 + sigma0 w8)) in
  let '(e, a) := Round b c d e f g h a 0x1b710b35131c471b w7 in
  let w8 := u64 (w8 + (sigma1 w6 + w1 + sigma0 w9)) in
  let '(d, h) := Round a b c d e f g h 0x28db77f523047d84 w8 in
  let w9 := u64 (w9 + (sigma1 w7 + w2 + sigma0 w10)) in
  let '(c, g) := Round h a b c d e f g 0x32caab7b40c72493 w9 in
  let w10 := u64 (w10 + (sigma1 w8 + w3 + sigma0 w11)) in
  let '(b, f) := Round g h a b c d e f 0x3c9ebe0a15c9bebc w10 in
  let w11 := u64 (w11 + (sigma1 w9 + w4 + sigma0 w12)) in
  let '(a, e) := Round f g h a b c d e 0x431d67c49c100d4c w11 in
  let w12 := u64 (w12 + (sigma1 w10 + w5 + sigma0 w13)) in
  let '(h, d) := Round e f g h a b c d 0x4cc5d4becb3e42b6 w12 in
  let w13 := u64 (w13 + (sigma1 w11 + w6 + sigma0 w14)) in
  let '(g, c) := Round d e f g h a b c 0x597f299cfc657e2a w13 in
  let '(f, b) := Round c d e f g h a b 0x5fcb6fab3ad6faec (u64 (w14 + sigma1 w12 + w7 + sigma0 w15)) in
  let '(e, a) := Round b c d e f g h a 0x6c44198c4a475817 (u64 (w15 + sigma1 w13 + w8 + sigma0 w0)) in
  (a, b, c, d, e, f, g, h).

(** [s[0] += a] to [s[7] += h] *)
Definition Transform (s chunk : list Z) : list Z :=
  let '(a, b, c, d, e, f, g, h) :=
    Transform_4 (Transform_3 (Transform_2 (Transform_1 (Transform_0 (to_vars s) chunk)))) in
  [u64 (s !!! 0%nat + a); u64 (s !!! 1%nat + b); u64 (s !!! 2%nat + c); u64 (s !!! 3%nat + d);
   u64 (s !!! 4%nat + e); u64 (s !!! 5%nat + f); u64 (s !!! 6%nat + g); u64 (s !!! 7%nat + h)].

(** ** The class [CSHA512] *)

(** The buffer of a new object holds whatever was in memory. *)
Definition CSHA512 (mem : list Z) : CHasher := Hasher Initialize mem 0.
Definition CSHA512_Write : CHasher -> list Z -> option CHasher := Write 128 Transform.
Definition CSHA512_Reset (h : CHasher) : CHasher := Hasher Initialize (hbuf h) 0.

Definition CSHA512_Finalize (h : CHasher) : option (CHasher * list Z) :=
  sizedesc ← memcpy (replicate 16 0) 8 (WriteBE64 (bit_count h));
  h ← Write_padding 128 Transform 239 h sizedesc;
  let s := hs h in
  Some (h, WriteBE64 (s !!! 0%nat) ++ WriteBE64 (s !!! 1%nat) ++ WriteBE64 (s !!! 2%nat) ++ WriteBE64 (s !!! 3%nat) ++
           WriteBE64 (s !!! 4%nat) ++ WriteBE64 (s !!! 5%nat) ++ WriteBE64 (s !!! 6%nat) ++ WriteBE64 (s !!! 7%nat)).

(** The round constants that the calls above list. *)
Definition K : list Z := Eval vm_compute in fips_constants 64 3 80.

(** ** Reference *)

Definition sha512_compress (s b : list Z) : list Z :=
  fips_compress 64 (28, 34, 39) (14, 18, 41) (1, 8, 7) (19, 61, 6) (fips_constants 64 3 80) s
    (map (fun i => load_le 8 (rev (take 8 (drop (8 * i) b)))) (seq 0 16)).

(** SHA-512 of FIPS 180-4 on a message of bytes. *)
Definition sha512 (m : list Z) : list Z :=
  concat (map (fun x => rev (store_le 8 x))
    (md_hash 128 16 (fun x => rev (store_le 16 x)) sha512_compress (fips_constants 64 2 8) m)).

(** ** Constants *)

Lemma K_fips_512 : K = fips_constants 64 3 80.
Proof. vm_compute. reflexivity. Qed.

Lemma Initialize_fips_512 : Initialize = fips_constants 64 2 8.
Proof. vm_compute. reflexivity. Qed.

(** ** Rounds *)

#[local] Abbreviation round := (fips_round 64 (28, 34, 39) (14, 18, 41)).
#[local] Abbreviation step := (window_step 64 (28, 34, 39) (14, 18, 41) (1, 8, 7) (19, 61, 6)).

Lemma Sigma0_fips_512 x : Sigma0 x = fips_Sigma 64 (28, 34, 39) x.
Proof. reflexivity. Qed.
Lemma Sigma1_fips_512 x : Sigma1 x = fips_Sigma 64 (14, 18, 41) x.
Proof. reflexivity. Qed.

Lemma Round_fips_512 a b c d e f g h k w :
  round (a, b, c, d, e, f, g, h) (k, w) =
  let '(d, h) := Round a b c d e f g h k w in (h, a, b, c, d, e, f, g).
Proof.
  unfold fips_round, Round, Ch, Maj. rewrite fips_Ch_code, fips_Maj_code. cbv zeta. cbn [fst snd].
  rewrite (add5 _ h), <- Sigma0_fips_512, <- Sigma1_fips_512. unfold add, u64. reflexivity.
Qed.

Lemma step_code_512 v w0 w1 w2 w3 w4 w5 w6 w7 w8 w9 w10 w11 w12 w13 w14 w15 k :
  step (v, [w0; w1; w2; w3; w4; w5; w6; w7; w8; w9; w10; w11; w12; w13; w14; w15]) k =
  let n := u64 (w0 + (sigma1 w14 + w9 + sigma0 w1)) in
  (round v (k, n), [w1; w2; w3; w4; w5; w6; w7; w8; w9; w10; w11; w12; w13; w14; w15; n]).
Proof.
  unfold window_step. cbn [drop app].
  assert (fips_next 64 (1, 8, 7) (19, 61, 6)
    [w0; w1; w2; w3; w4; w5; w6; w7; w8; w9; w10; w11; w12; w13; w14; w15] =
    u64 (w0 + (sigma1 w14 + w9 + sigma0 w1))) as ->; [|done].
  unfold fips_next, u64. cbv zeta. rewrite add4. cbn [length Nat.sub lookup_total list_lookup_total]. f_equal. rewrite Z.add_comm. reflexivity.
Qed.

(** The last two rounds add the four words from the left. *)
Lemma step_code_last_512 v w0 w1 w2 w3 w4 w5 w6 w7 w8 w9 w10 w11 w12 w13 w14 w15 k :
  step (v, [w0; w1; w2; w3; w4; w5; w6; w7; w8; w9; w10; w11; w12; w13; w14; w15]) k =
  let n := u64 (w0 + sigma1 w14 + w9 + sigma0 w1) in
  (round v (k, n), [w1; w2; w3; w4; w5; w6; w7; w8; w9; w10; w11; w12; w13; w14; w15; n]).
Proof. rewrite step_code_512. by rewrite !Z.add_assoc. Qed.

(** The rounds of a group, one at a time. *)
Ltac sha_round :=
  rewrite Round_fips_512;
  match goal with |- context [Round ?a ?b ?c ?d ?e ?f ?g ?h ?k ?w] =>
    destruct (Round a b c d e f g h k w) as [? ?] end; cbv iota.

Tactic Notation "sha_group" integer(n) :=
  repeat match goal with v : vars |- _ => destruct v as [[[[[[[? ?] ?] ?] ?] ?] ?] ?] end;
  cbn [foldl]; do n (rewrite step_code_512; cbv zeta); repeat (rewrite step_code_last_512; cbv zeta);
  do 16 sha_round.

(** The schedule words of a block. *)
Definition block_words (chunk : list Z) : list Z :=
  map (fun i => ReadBE64 (take 8 (drop (8 * i) chunk))) (seq 0 16).

Ltac sixteen W :=
  do 16 (destruct W as [|? W]; [done|]); destruct W; [|done].

Lemma Transform_0_fips_512 v chunk :
  Transform_0 v chunk = (foldl round v (zip (take 16 K) (block_words chunk)), block_words chunk).
Proof.
  unfold Transform_0, K, block_words. cbn [take seq map zip zip_with Nat.mul Nat.add]. cbv zeta.
  sha_group 0. reflexivity.
Qed.

Lemma Transform_1_fips_512 vW :
  length vW.2 = 16%nat -> Transform_1 vW = foldl step vW (take 16 (drop 16 K)).
Proof.
  destruct vW as [v W]. intros Hl. cbn [snd] in Hl. sixteen W.
  unfold Transform_1, K. cbn [take drop]. cbv zeta. cbn [lookup_total list_lookup_total].
  sha_group 16. reflexivity.
Qed.

Lemma Transform_2_fips_512 vW :
  length vW.2 = 16%nat -> Transform_2 vW = foldl step vW (take 16 (drop 32 K)).
Proof.
  destruct vW as [v W]. intros Hl. cbn [snd] in Hl. sixteen W.
  unfold Transform_2, K. cbn [take drop]. cbv zeta. cbn [lookup_total list_lookup_total].
  sha_group 16. reflexivity.
Qed.

Lemma Transform_3_fips_512 vW :
  length vW.2 = 16%nat -> Transform_3 vW = foldl step vW (take 16 (drop 48 K)).
Proof.
  destruct vW as [v W]. intros Hl. cbn [snd] in Hl. sixteen W.
  unfold Transform_3, K. cbn [take drop]. cbv zeta. cbn [lookup_total list_lookup_total].
  sha_group 16. reflexivity.
Qed.

Lemma Transform_4_fips_512 vW :
  length vW.2 = 16%nat -> Transform_4 vW = (foldl step vW (drop 64 K)).1.
Proof.
  destruct vW as [v W]. intros Hl. cbn [snd] in Hl. sixteen W.
  unfold Transform_4, K. cbn [take drop]. cbv zeta. cbn [lookup_total list_lookup_total].
  sha_group 14. cbn [fst]. reflexivity.
Qed.

(** Replace the window after a group by a new variable. *)
Ltac apply_window x Hl :=
  match goal with |- context [foldl step x ?ks] =>
    let y := fresh "y" in let Hy := fresh "Hy" in
    pose proof (length_window _ _ _ _ _ x ks Hl : length (foldl step x ks).2 = 16%nat) as Hy;
    set (y := foldl step x ks) in *; clearbody y; clear x Hl; rename y into x, Hy into Hl
  end.

Lemma Transform_fips_512 s chunk :
  length s = 8%nat ->
  Transform s chunk = fips_compress 64 (28, 34, 39) (14, 18, 41) (1, 8, 7) (19, 61, 6) K s (block_words chunk).
Proof.
  intros Hs. rewrite <- window_compress_spec by (done || (apply Nat.leb_le; done)). unfold Transform, window_compress. cbv zeta.
  set (v := foldl round _ _).
  rewrite Transform_0_fips_512. fold v.
  set (x := (v, block_words chunk)). assert (length x.2 = 16%nat) as Hl by done. clearbody x.
  change (drop 16 K) with (take 16 (drop 16 K) ++ take 16 (drop 32 K) ++ take 16 (drop 48 K) ++ drop 64 K).
  rewrite !foldl_app.
  rewrite (Transform_1_fips_512 x Hl). apply_window x Hl.
  rewrite (Transform_2_fips_512 x Hl). apply_window x Hl.
  rewrite (Transform_3_fips_512 x Hl). apply_window x Hl.
  rewrite (Transform_4_fips_512 x Hl).
  destruct (foldl step _ _).1 as [[[[[[[a b] c] d] e] f] g] h].
  do 8 (destruct s as [|? s]; [done|]). destruct s; [|done]. reflexivity.
Qed.

(** ** The whole function *)

Definition state_ok (s : list Z) : Prop := length s = 8%nat /\ Forall (word 64) s.

Lemma block_words_load_512 b :
  Forall byte b -> length b = 128%nat ->
  block_words b = map (fun i => load_le 8 (rev (take 8 (drop (8 * i) b)))) (seq 0 16).
Proof.
  intros Hb Hl. apply map_ext_in. intros i Hi%in_seq. apply ReadBE64_load.
  - by apply Forall_take, Forall_drop.
  - rewrite length_take, length_drop. lia.
Qed.

Lemma Transform_compress_512 b s :
  Forall byte b -> length b = 128%nat -> state_ok s ->
  Transform s b = sha512_compress s b /\ state_ok (sha512_compress s b).
Proof.
  intros Hb Hl [Hs _]. unfold sha512_compress. rewrite <- K_fips_512.
  split; [|apply fips_compress_words; [lia|exact Hs]].
  rewrite Transform_fips_512, block_words_load_512 by done. reflexivity.
Qed.

Lemma Initialize_ok_512 : state_ok Initialize.
Proof. split; [done|]. by repeat (apply Forall_cons_2; [done|]). Qed.

(** The words of the state, most significant byte first. *)
Lemma digest_ok_512 s :
  state_ok s ->
  WriteBE64 (s !!! 0%nat) ++ WriteBE64 (s !!! 1%nat) ++ WriteBE64 (s !!! 2%nat) ++ WriteBE64 (s !!! 3%nat) ++
  WriteBE64 (s !!! 4%nat) ++ WriteBE64 (s !!! 5%nat) ++ WriteBE64 (s !!! 6%nat) ++ WriteBE64 (s !!! 7%nat) =
  concat (map (fun x => rev (store_le 8 x)) s).
Proof.
  intros [Hl Hw]. do 8 (destruct s as [|? s]; [done|]). destruct s; [|done].
  rewrite !list.Forall_cons in Hw. destruct_and! Hw.
  cbn [lookup_total list_lookup_total map concat]. rewrite !WriteBE64_store by done.
  by rewrite app_nil_r.
Qed.

Lemma padded_bytes_512 m :
  Forall byte m -> Forall byte (md_pad 128 16 (fun x => rev (store_le 16 x)) m).
Proof. intros. apply md_pad_bytes; [done|]. intros. apply Forall_rev, store_le_bytes. Qed.

(** [Finalize] on an object that was given the bytes [m]. *)
Lemma CSHA512_Finalize_ok h m :
  hasher_ok 128 Transform Initialize h m -> Forall byte m ->
  8 * Z.of_nat (length m) < 2 ^ 64 ->
  exists h', CSHA512_Finalize h = Some (h', sha512 m) /\ length (hbuf h') = 128%nat.
Proof.
  intros Hok Hm Hlen. unfold CSHA512_Finalize. rewrite (bit_count_ok _ _ _ _ _ Hok Hlen).
  set (x := 8 * Z.of_nat (length m)) in *.
  assert (word 64 x) as Hx by (unfold word; lia).
  rewrite WriteBE64_store by done.
  rewrite memcpy_in_bounds by (rewrite length_rev, length_store_le; simpl; lia).
  cbn [mbind option_bind]. rewrite length_rev, length_store_le.
  change (take 8 (replicate 16 0)) with (replicate 8 0).
  change (drop (8 + 8) (replicate 16 0)) with (@nil Z). rewrite app_nil_r.
  assert (replicate 8 0 ++ rev (store_le 8 x) = rev (store_le 16 x)) as ->.
  { change 16%nat with (8 + 8)%nat. rewrite (store_le_add 8 8 x), rev_app_distr. f_equal.
    rewrite Z.shiftr_div_pow2 by lia. unfold word in Hx. by rewrite Z.div_small by lia. }
  destruct (Write_padding_ok 128 Transform Initialize ltac:(lia) ltac:(by exists (2 ^ 57)) 16 239 h m
    (rev (store_le 16 x))) as (h'&->&Hl&Hs);
    [done|by rewrite length_rev, length_store_le|done|].
  exists h'. cbn [mbind option_bind]. cbv zeta. split; [|done]. repeat f_equal.
  assert (state_ok (hs h') /\
    hs h' = md_hash 128 16 (fun x => rev (store_le 16 x)) sha512_compress Initialize m) as [Hst E].
  { unfold md_hash. cbv zeta. set (p := md_pad _ _ _ m).
    change (hs h' = fold_blocks 128 (fun b s => Transform s b) (length p / 128) p Initialize) in Hs.
    rewrite Hs.
    destruct (fold_blocks_agree 128 (fun b s => Transform s b) (fun b s => sha512_compress s b)
      state_ok (length p / 128) p Initialize) as [-> HP]; try done.
    - intros b s Hb Hl' Hst. by apply Transform_compress_512.
    - rewrite Nat.mul_comm. apply Nat.Div0.mul_div_le.
    - by apply padded_bytes_512.
    - apply Initialize_ok_512. }
  rewrite digest_ok_512 by done. by rewrite E, Initialize_fips_512.
Qed.

(** However the message is split over calls of [Write], and whatever memory the
    object was created in, [Finalize] returns the SHA-512 digest of FIPS 180-4 of the whole
    message, no access leaves the buffers, and after [Reset] the object is a new one. The
    standard, and the 64-bit counter of bytes, limit messages to fewer than 2^64 bits. *)
Theorem sha512_streaming mem chunks :
  length mem = 128%nat -> Forall byte (concat chunks) ->
  8 * Z.of_nat (length (concat chunks)) < 2 ^ 64 ->
  exists h h' mem',
    foldl (fun oh data => h ← oh; CSHA512_Write h data) (Some (CSHA512 mem)) chunks = Some h /\
    CSHA512_Finalize h = Some (h', sha512 (concat chunks)) /\
    CSHA512_Reset h' = CSHA512 mem' /\ length mem' = 128%nat.
Proof.
  intros Hmem Hb Hlen.
  destruct (Writes_ok 128 Transform Initialize ltac:(lia) ltac:(by exists (2 ^ 57)) (CSHA512 mem) [] chunks)
    as (h&Hw&Hok); [by apply hasher_ok_init; [lia|]|].
  destruct (CSHA512_Finalize_ok h (concat chunks) Hok Hb Hlen) as (h'&Hf&Hl).
  exists h, h', (hbuf h'). split_and!; done.
Qed.

(** The message [abc], in two calls. *)
Lemma sha512_streaming_witness :
  exists h h' mem',
    foldl (fun oh data => h ← oh; CSHA512_Write h data) (Some (CSHA512 (replicate 128 0xcc))) [[97]; [98; 99]]
      = Some h /\
    CSHA512_Finalize h = Some (h', sha512 [97; 98; 99]) /\
    CSHA512_Reset h' = CSHA512 mem' /\ length mem' = 128%nat.
Proof.
  apply (sha512_streaming (replicate 128 0xcc) [[97]; [98; 99]]); [done| |done].
  by repeat (apply Forall_cons_2; [done|]).
Defined.

(** The digest of [abc] that the standard lists. *)
Example sha512_abc :
  sha512 [97; 98; 99] =
  [0xdd; 0xaf; 0x35; 0xa1; 0x93; 0x61; 0x7a; 0xba; 0xcc; 0x41; 0x73; 0x49; 0xae; 0x20; 0x41; 0x31;
   0x12; 0xe6; 0xfa; 0x4e; 0x89; 0xa9; 0x7e; 0xa2; 0x0a; 0x9e; 0xee; 0xe6; 0x4b; 0x55; 0xd3; 0x9a;
   0x21; 0x92; 0x99; 0x2a; 0x27; 0x4f; 0xc1; 0xa8; 0x36; 0xba; 0x3c; 0x23; 0xa3; 0xfe; 0xeb; 0xbd;
   0x45; 0x4d; 0x44; 0x23; 0x64; 0x3c; 0xe8; 0x0e; 0x2a; 0x9a; 0xc9; 0x4f; 0xa5; 0x4c; 0xa4; 0x9f].
Proof. vm_compute. reflexivity. Qed.

(** ** The interface *)

Lemma concat_words_length_512 s :
  length (concat (map (fun x => rev (store_le 8 x)) s)) = (8 * length s)%nat.
Proof.
  induction s as [|x s IH]; [done|]. cbn [map concat]. rewrite length_app, length_rev, length_store_le, IH.
  cbn [length]. lia.
Qed.

Lemma sha512_state m :
  length (md_hash 128 16 (fun x => rev (store_le 16 x)) sha512_compress (fips_constants 64 2 8) m)
  = 8%nat.
Proof.
  unfold md_hash. cbv zeta. set (p := md_pad _ _ _ m). clearbody p.
  apply (fold_blocks_inv 128 _ (fun s => length s = 8%nat)); [|rewrite <- Initialize_fips_512; done].
  intros b s Hs. unfold sha512_compress. rewrite <- K_fips_512. by apply fips_compress_words.
Qed.

#[export] Instance SHA512_ops : CryptoHash := {
  hash_block := 128;
  hash_size := 64;
  hash_new := CSHA512;
  hash_write := CSHA512_Write;
  hash_finalize := CSHA512_Finalize;
  hash_reset := CSHA512_Reset;
}.

#[export, refine] Instance SHA512_spec : CryptoHashSpec SHA512_ops := {
  digest := sha512;
  hash_rep := hasher_ok 128 Transform Initialize;
}.
Proof.
  - intros mem Hm. apply hasher_ok_init; [lia|exact Hm].
  - intros h m data Hok. apply Write_ok; [lia|by exists (2 ^ 57)|exact Hok].
  - intros h m Hok Hm Hl. destruct (CSHA512_Finalize_ok h m Hok Hm Hl) as (h'&E&Hl').
    exists h'. split; [exact E|]. apply hasher_ok_init; [lia|exact Hl'].
  - intros m. unfold sha512. rewrite concat_words_length_512, sha512_state. reflexivity.
  - intros m. apply Forall_concat, Forall_map, Forall_true. intros x. apply Forall_rev, store_le_bytes.
  - cbn. lia.
Defined.
