(* ===== verification/Hash.v ===== *)
(** * Hash wrappers, HMAC and SipHash: [src/src/hash.h], [src/src/hash.cpp],
      [src/src/crypto/hmac_sha256.cpp], [src/src/crypto/hmac_sha512.cpp]

    The classes and functions built from the hashers.  Objects on the stack are created
    in memory of unknown contents, which is an argument ([mem]). *)

From S2P Require Import Prelude BitReflect SphTypes BlockBuffer Hasher Sha2Spec Sha256 Sha512.

#[local] Open Scope c_scope.

(** ** [CHash256]: SHA-256 applied twice *)

(** The object is the [CSHA256] that it holds. *)
Definition CHash256 (mem : list Z) : CHasher := CSHA256 mem.
Definition CHash256_Write (h : CHasher) (data : list Z) : option CHasher := CSHA256_Write h data.
Definition CHash256_Reset (h : CHasher) : CHasher := CSHA256_Reset h.

Definition CHash256_Finalize (h : CHasher) : option (list Z) :=
  '(h, buf) ← CSHA256_Finalize h;
  h ← CSHA256_Write (CSHA256_Reset h) buf;
  '(_, hash) ← CSHA256_Finalize h;
  Some hash.

(** [Hash] of one, two and three ranges of bytes; an empty range writes 0 bytes. *)
Definition Hash1 (mem p1 : list Z) : option (list Z) :=
  h ← CHash256_Write (CHash256 mem) p1;
  CHash256_Finalize h.

Definition Hash2 (mem p1 p2 : list Z) : option (list Z) :=
  h ← CHash256_Write (CHash256 mem) p1;
  h ← CHash256_Write h p2;
  CHash256_Finalize h.

Definition Hash3 (mem p1 p2 p3 : list Z) : option (list Z) :=
  h ← CHash256_Write (CHash256 mem) p1;
  h ← CHash256_Write h p2;
  h ← CHash256_Write h p3;
  CHash256_Finalize h.

(** ** HMAC, over either hasher *)

Section hmac.
Context `{ops : CryptoHash}.

(** The members [outer] and [inner]. *)
Record CHMAC := { outer : CHasher; inner : CHasher }.

(** [for (n = 0; n < 64; n++) rkey[n] ^= c] *)
Definition xor_key (c : Z) (rkey : list Z) : list Z := map (fun x => x ⊕ c) rkey.

(** The key as a block: padded with zeros, or hashed when it is longer than a block. *)
Definition CHMAC_key (mem_rkey mem_key key : list Z) : option (list Z) :=
  if (length key <=? hash_block)%nat then
    rkey ← memcpy mem_rkey 0 key;
    memset rkey (length key) 0 (hash_block - length key)
  else
    h ← hash_write (hash_new mem_key) key;
    '(_, hash) ← hash_finalize h;
    rkey ← memcpy mem_rkey 0 hash;
    memset rkey hash_size 0 (hash_block - hash_size).

(** The constructor. *)
Definition new_CHMAC (mem_outer mem_inner mem_rkey mem_key key : list Z) : option CHMAC :=
  rkey ← CHMAC_key mem_rkey mem_key key;
  let rkey := xor_key 0x5c rkey in
  outer ← hash_write (hash_new mem_outer) rkey;
  let rkey := xor_key (0x5c ⊕ 0x36) rkey in
  inner ← hash_write (hash_new mem_inner) rkey;
  Some {| outer := outer; inner := inner |}.

Definition CHMAC_Write (c : CHMAC) (data : list Z) : option CHMAC :=
  inner ← hash_write (inner c) data;
  Some {| outer := outer c; inner := inner |}.

Definition CHMAC_Finalize (c : CHMAC) : option (list Z) :=
  '(_, temp) ← hash_finalize (inner c);
  outer ← hash_write (outer c) temp;
  '(_, hash) ← hash_finalize outer;
  Some hash.
End hmac.

Definition new_CHMAC_SHA256 := new_CHMAC (ops := SHA256_ops).
Definition CHMAC_SHA256_Write := CHMAC_Write (ops := SHA256_ops).
Definition CHMAC_SHA256_Finalize := CHMAC_Finalize (ops := SHA256_ops).
Definition new_CHMAC_SHA512 := new_CHMAC (ops := SHA512_ops).
Definition CHMAC_SHA512_Write := CHMAC_Write (ops := SHA512_ops).
Definition CHMAC_SHA512_Finalize := CHMAC_Finalize (ops := SHA512_ops).

(** [BIP32Hash]: the child key derivation. *)
Definition BIP32Hash (mem_outer mem_inner mem_rkey mem_key chainCode : list Z) (nChild header : Z)
    (data : list Z) : option (list Z) :=
  let num := [(nChild >> 24) .& 0xFF; (nChild >> 16) .& 0xFF; (nChild >> 8) .& 0xFF;
              (nChild >> 0) .& 0xFF] in
  c ← new_CHMAC_SHA512 mem_outer mem_inner mem_rkey mem_key chainCode;
  c ← CHMAC_SHA512_Write c [header];
  c ← CHMAC_SHA512_Write c data;
  c ← CHMAC_SHA512_Write c num;
  CHMAC_SHA512_Finalize c.

(** ** SipHash *)

Definition ROTL (x b : Z) : Z := u64 (x << b) .| (x >> (64 - b)).

Definition sipvars : Type := Z * Z * Z * Z.

Definition SIPROUND (v : sipvars) : sipvars :=
  let '(v0, v1, v2, v3) := v in
  let v0 := u64 (v0 + v1) in let v1 := ROTL v1 13 in let v1 := v1 ⊕ v0 in
  let v0 := ROTL v0 32 in
  let v2 := u64 (v2 + v3) in let v3 := ROTL v3 16 in let v3 := v3 ⊕ v2 in
  let v0 := u64 (v0 + v3) in let v3 := ROTL v3 21 in let v3 := v3 ⊕ v0 in
  let v2 := u64 (v2 + v1) in let v1 := ROTL v1 17 in let v1 := v1 ⊕ v2 in
  let v2 := ROTL v2 32 in
  (v0, v1, v2, v3).

(** [v], [tmp] and [count]; [count] is an [int]. *)
Record CSipHasher := SipHasher { sv : sipvars; tmp : Z; count : Z }.

Definition new_CSipHasher (k0 k1 : Z) : CSipHasher :=
  SipHasher (0x736f6d6570736575 ⊕ k0, 0x646f72616e646f6d ⊕ k1,
             0x6c7967656e657261 ⊕ k0, 0x7465646279746573 ⊕ k1) 0 0.

(** [v3 ^= t; SIPROUND; SIPROUND; v0 ^= t;] *)
Definition sip_word (v : sipvars) (t : Z) : sipvars :=
  let '(v0, v1, v2, v3) := v in
  let '(v0, v1, v2, v3) := SIPROUND (SIPROUND (v0, v1, v2, v3 ⊕ t)) in
  (v0 ⊕ t, v1, v2, v3).

(** [Write(uint64_t)]; [None] is the assertion, or the overflow of [count]. *)
Definition CSipHasher_Write64 (h : CSipHasher) (data : Z) : option CSipHasher :=
  if Z.rem (count h) 8 =? 0 then
    if count h + 8 <? 2 ^ 31 then Some (SipHasher (sip_word (sv h) data) (tmp h) (count h + 8))
    else None
  else None.

(** [Write(const unsigned char*, size_t)]: one byte of the loop. *)
Definition sip_byte (h : CSipHasher) (b : Z) : option CSipHasher :=
  let t := tmp h .| u64 (b << (8 * Z.rem (count h) 8)) in
  let c := count h + 1 in
  if c <? 2 ^ 31 then
    if c .& 7 =? 0 then Some (SipHasher (sip_word (sv h) t) 0 c)
    else Some (SipHasher (sv h) t c)
  else None.

Definition CSipHasher_Write (h : CSipHasher) (data : list Z) : option CSipHasher :=
  foldl (fun oh b => h ← oh; sip_byte h b) (Some h) data.

(** [v2 ^= 0xFF], four rounds and the result. *)
Definition sip_finish (v : sipvars) : Z :=
  let '(v0, v1, v2, v3) := v in
  let '(v0, v1, v2, v3) := SIPROUND (SIPROUND (SIPROUND (SIPROUND (v0, v1, v2 ⊕ 0xFF, v3)))) in
  v0 ⊕ v1 ⊕ v2 ⊕ v3.

Definition CSipHasher_Finalize (h : CSipHasher) : Z :=
  let t := tmp h .| u64 (u64 (count h) << 56) in
  sip_finish (sip_word (sv h) t).

(** [uint256::GetUint64] of the 32 bytes [val]. *)
Definition GetUint64 (val : list Z) (pos : nat) : Z :=
  let ptr := drop (pos * 8) val in
  (ptr !!! 0%nat) .| ((ptr !!! 1%nat) << 8) .| ((ptr !!! 2%nat) << 16) .|
  ((ptr !!! 3%nat) << 24) .| ((ptr !!! 4%nat) << 32) .| ((ptr !!! 5%nat) << 40) .|
  ((ptr !!! 6%nat) << 48) .| ((ptr !!! 7%nat) << 56).

Definition SipHashUint256 (k0 k1 : Z) (val : list Z) : Z :=
  let d := GetUint64 val 0 in
  let v0 := 0x736f6d6570736575 ⊕ k0 in
  let v1 := 0x646f72616e646f6d ⊕ k1 in
  let v2 := 0x6c7967656e657261 ⊕ k0 in
  let v3 := 0x7465646279746573 ⊕ k1 ⊕ d in
  let '(v0, v1, v2, v3) := SIPROUND (SIPROUND (v0, v1, v2, v3)) in
  let v0 := v0 ⊕ d in
  let d := GetUint64 val 1 in
  let v3 := v3 ⊕ d in
  let '(v0, v1, v2, v3) := SIPROUND (SIPROUND (v0, v1, v2, v3)) in
  let v0 := v0 ⊕ d in
  let d := GetUint64 val 2 in
  let v3 := v3 ⊕ d in
  let '(v0, v1, v2, v3) := SIPROUND (SIPROUND (v0, v1, v2, v3)) in
  let v0 := v0 ⊕ d in
  let d := GetUint64 val 3 in
  let v3 := v3 ⊕ d in
  let '(v0, v1, v2, v3) := SIPROUND (SIPROUND (v0, v1, v2, v3)) in
  let v0 := v0 ⊕ d in
  let v3 := v3 ⊕ u64 (4 << 59) in
  let '(v0, v1, v2, v3) := SIPROUND (SIPROUND (v0, v1, v2, v3)) in
  let v0 := v0 ⊕ u64 (4 << 59) in
  let v2 := v2 ⊕ 0xFF in
  let '(v0, v1, v2, v3) := SIPROUND (SIPROUND (SIPROUND (SIPROUND (v0, v1, v2, v3)))) in
  v0 ⊕ v1 ⊕ v2 ⊕ v3.

(** ** References *)

Definition sha256d (m : list Z) : list Z := sha256 (sha256 m).

(** HMAC of RFC 2104 with the digest function [H] of block size [bs]. *)
Definition hmac (bs : nat) (H : list Z -> list Z) (key m : list Z) : list Z :=
  let k := if (bs <? length key)%nat then H key else key in
  let k := k ++ replicate (bs - length k) 0 in
  H (map (Z.lxor 0x5c) k ++ H (map (Z.lxor 0x36) k ++ m)).

(** SipHash-2-4 on a message: the 64-bit words of the message in order, then the word that
    holds its last [length m mod 8] bytes and, in the top byte, its length modulo 256. *)
Definition siphash_words (m : list Z) : list Z :=
  map (fun i => load_le 8 (drop (8 * i) m)) (seq 0 (length m / 8)).
Definition siphash_last (m : list Z) : Z :=
  load_le 8 (drop (8 * (length m / 8)) m) + (Z.of_nat (length m) mod 256) * 2 ^ 56.
Definition siphash (k0 k1 : Z) (m : list Z) : Z :=
  sip_finish (foldl sip_word (sv (new_CSipHasher k0 k1)) (siphash_words m ++ [siphash_last m])).

(** ** [CHash256] *)

Lemma sha256_bytes m : Forall byte (sha256 m).
Proof. exact (digest_bytes (ops := SHA256_ops) m). Qed.
Lemma length_sha256 m : length (sha256 m) = 32%nat.
Proof. exact (length_digest (ops := SHA256_ops) m). Qed.

#[local] Abbreviation rep256 := (hash_rep (ops := SHA256_ops)).

Lemma CHash256_new mem : length mem = 64%nat -> rep256 (CHash256 mem) [].
Proof. exact (hash_new_rep (ops := SHA256_ops) mem). Qed.

Lemma CHash256_Write_ok h m data :
  rep256 h m -> exists h', CHash256_Write h data = Some h' /\ rep256 h' (m ++ data).
Proof. exact (hash_write_rep (ops := SHA256_ops) h m data). Qed.

Lemma CHash256_Finalize_ok h m :
  rep256 h m -> Forall byte m -> 8 * Z.of_nat (length m) < 2 ^ 64 ->
  CHash256_Finalize h = Some (sha256d m).
Proof.
  intros Hr Hm Hl. unfold CHash256_Finalize.
  destruct (hash_finalize_rep (ops := SHA256_ops) h m Hr Hm Hl) as (h1&E1&Hr1).
  cbn [hash_finalize SHA256_ops] in E1. rewrite E1. cbn [mbind option_bind].
  destruct (hash_write_rep (ops := SHA256_ops) _ [] (sha256 m) Hr1) as (h2&E2&Hr2).
  cbn [hash_write hash_reset SHA256_ops] in E2. change (digest m) with (sha256 m). rewrite E2.
  cbn [mbind option_bind].
  destruct (hash_finalize_rep (ops := SHA256_ops) h2 _ Hr2) as (h3&E3&_).
  - apply sha256_bytes.
  - cbn [app]. rewrite length_sha256. done.
  - cbn [hash_finalize SHA256_ops] in E3. rewrite E3. reflexivity.
Qed.

(** The three overloads of [Hash] hash the concatenation. *)
Lemma Hash_ok mem p1 p2 p3 :
  length mem = 64%nat -> Forall byte (p1 ++ p2 ++ p3) ->
  8 * Z.of_nat (length (p1 ++ p2 ++ p3)) < 2 ^ 64 ->
  Hash3 mem p1 p2 p3 = Some (sha256d (p1 ++ p2 ++ p3)) /\
  (p3 = [] -> Hash2 mem p1 p2 = Some (sha256d (p1 ++ p2))) /\
  (p2 = [] -> p3 = [] -> Hash1 mem p1 = Some (sha256d p1)).
Proof.
  intros Hmem Hb Hl.
  destruct (CHash256_Write_ok _ [] p1 (CHash256_new mem Hmem)) as (h1&E1&R1).
  destruct (CHash256_Write_ok _ _ p2 R1) as (h2&E2&R2).
  destruct (CHash256_Write_ok _ _ p3 R2) as (h3&E3&R3). rewrite <- app_assoc in R3.
  split; [|split].
  - unfold Hash3. rewrite E1. cbn [mbind option_bind]. rewrite E2. cbn [mbind option_bind].
    rewrite E3. by apply CHash256_Finalize_ok.
  - intros ->. rewrite app_nil_r in *. unfold Hash2. rewrite E1. cbn [mbind option_bind].
    rewrite E2. by apply CHash256_Finalize_ok.
  - intros -> ->. rewrite !app_nil_r in *. unfold Hash1. rewrite E1.
    by apply CHash256_Finalize_ok.
Qed.

(** ** HMAC *)

Section hmac_proofs.
Context `{ops : CryptoHash} `{spec : !CryptoHashSpec ops}.

Lemma CHMAC_key_ok mem_rkey mem_key key :
  length mem_rkey = hash_block -> length mem_key = hash_block -> Forall byte key ->
  8 * Z.of_nat (length key) < 2 ^ 64 ->
  let k := if (hash_block <? length key)%nat then digest key else key in
  CHMAC_key mem_rkey mem_key key = Some (k ++ replicate (hash_block - length k) 0).
Proof.
  intros Hr Hk Hb Hl k.
  assert (forall d, (length d <= hash_block)%nat ->
    (rkey ← memcpy mem_rkey 0 d; memset rkey (length d) 0 (hash_block - length d)) =
    Some (d ++ replicate (hash_block - length d) 0)) as Hpad.
  { intros d Hd. rewrite memcpy_in_bounds by lia. cbn [mbind option_bind take Nat.add app].
    rewrite take_0, app_nil_l.
    unfold memset. rewrite memcpy_in_bounds by (rewrite !length_app, length_replicate, length_drop; lia).
    rewrite take_app_length, length_replicate, drop_ge; [by rewrite app_nil_r|].
    rewrite length_app, length_drop. lia. }
  unfold CHMAC_key. subst k. destruct (Nat.leb_spec (length key) hash_block) as [Hle|Hgt].
  - destruct (Nat.ltb_spec hash_block (length key)); [lia|]. by apply Hpad.
  - destruct (Nat.ltb_spec hash_block (length key)); [|lia].
    destruct (hash_write_rep _ [] key (hash_new_rep mem_key Hk)) as (h1&->&R1).
    cbn [mbind option_bind app] in *.
    destruct (hash_finalize_rep h1 key R1 Hb Hl) as (h2&->&_). cbn [mbind option_bind].
    rewrite <- (length_digest key). apply Hpad. rewrite length_digest. apply hash_size_block.
Qed.

Lemma xor_key_lxor c k : xor_key c k = map (Z.lxor c) k.
Proof. apply map_ext. intros. apply Z.lxor_comm. Qed.

Lemma map_lxor_bytes c k : byte c -> Forall byte k -> Forall byte (map (Z.lxor c) k).
Proof.
  intros Hc Hk. apply Forall_map. apply (list.Forall_impl _ _ _ Hk). intros. by apply word_lxor.
Qed.

(** The memory in which the objects and arrays of a computation are created. *)
Definition hmac_mem (mo mi mr mk : list Z) : Prop :=
  length mo = hash_block /\ length mi = hash_block /\ length mr = hash_block /\ length mk = hash_block.

Lemma CHMAC_ok mo mi mr mk key chunks :
  hmac_mem mo mi mr mk -> Forall byte key -> Forall byte (concat chunks) ->
  8 * Z.of_nat (length key) < 2 ^ 64 ->
  8 * Z.of_nat (hash_block + length (concat chunks)) < 2 ^ 64 ->
  8 * Z.of_nat (hash_block + hash_size) < 2 ^ 64 ->
  (c ← new_CHMAC mo mi mr mk key;
   c ← foldl (fun oc data => c ← oc; CHMAC_Write c data) (Some c) chunks;
   CHMAC_Finalize c) = Some (hmac hash_block digest key (concat chunks)).
Proof.
  intros (Ho&Hi&Hr&Hmk) Hkey Hm Hlk Hlm Hls. unfold new_CHMAC, hmac.
  rewrite CHMAC_key_ok by done. cbn [mbind option_bind].
  set (k := if (_ <? _)%nat then digest key else key).
  set (K := k ++ replicate (hash_block - length k) 0).
  assert (length k <= hash_block)%nat as Hk.
  { subst k. destruct (Nat.ltb_spec hash_block (length key)); [|lia].
    rewrite length_digest. apply hash_size_block. }
  assert (length K = hash_block) as HK by (subst K; rewrite length_app, length_replicate; lia).
  assert (Forall byte K) as HKb.
  { apply Forall_app_2; [|by apply Forall_replicate]. subst k.
    case_match; [apply digest_bytes|done]. }
  rewrite !xor_key_lxor, map_map.
  assert (map (fun x => Z.lxor (0x5c ⊕ 0x36) (Z.lxor 0x5c x)) K = map (Z.lxor 0x36) K) as ->.
  { apply map_ext. intros x. by rewrite <- Z.lxor_assoc. }
  clearbody K. clear Hk. clearbody k.
  destruct (hash_write_rep _ [] (map (Z.lxor 0x5c) K) (hash_new_rep mo Ho)) as (ho&->&Ro).
  cbn [mbind option_bind].
  destruct (hash_write_rep _ [] (map (Z.lxor 0x36) K) (hash_new_rep mi Hi)) as (hi&->&Ri).
  cbn [mbind option_bind app] in *.
  assert (forall chunks hi m, hash_rep hi m ->
    exists hi', foldl (fun oc data => c ← oc; CHMAC_Write c data)
      (Some {| outer := ho; inner := hi |}) chunks = Some {| outer := ho; inner := hi' |} /\
      hash_rep hi' (m ++ concat chunks)) as Hw.
  { clear. induction chunks as [|d chunks IH]; intros hi m R.
    - exists hi. by rewrite app_nil_r.
    - destruct (hash_write_rep hi m d R) as (h1&E1&R1). cbn [foldl mbind option_bind concat].
      unfold CHMAC_Write at 2. cbn [outer inner]. rewrite E1, app_assoc. by apply IH. }
  destruct (Hw chunks hi _ Ri) as (hi'&->&Ri'). cbn [mbind option_bind].
  unfold CHMAC_Finalize. cbn [outer inner].
  destruct (hash_finalize_rep hi' _ Ri') as (h3&->&_).
  { apply Forall_app_2; [|done]. by apply map_lxor_bytes. }
  { rewrite length_app, length_map, HK. done. }
  cbn [mbind option_bind].
  destruct (hash_write_rep ho _ (digest (map (Z.lxor 0x36) K ++ concat chunks)) Ro) as (h4&->&R4).
  cbn [mbind option_bind].
  destruct (hash_finalize_rep h4 _ R4) as (h5&->&_); [| |done].
  { apply Forall_app_2; [by apply map_lxor_bytes|apply digest_bytes]. }
  { rewrite length_app, length_map, HK, length_digest. done. }
Qed.
End hmac_proofs.

(** [CHMAC_SHA256] and [CHMAC_SHA512] compute the HMAC of RFC 2104 for every key,
    shorter or longer than a block, and every message, however it is split over calls of
    [Write]; [BIP32Hash] is the HMAC-SHA-512 with the chain code as key of the header
    byte, the 32 bytes of data and the big-endian child number. *)
Theorem hmac_rfc2104 mo mi mr mk mo' mi' mr' mk' key chunks nChild header data :
  hmac_mem (ops := SHA256_ops) mo mi mr mk -> hmac_mem (ops := SHA512_ops) mo' mi' mr' mk' ->
  Forall byte key -> Forall byte (concat chunks) -> byte header -> Forall byte data ->
  length data = 32%nat -> word 32 nChild ->
  8 * Z.of_nat (length key) < 2 ^ 64 -> 8 * (128 + Z.of_nat (length (concat chunks))) < 2 ^ 64 ->
  (c ← new_CHMAC_SHA256 mo mi mr mk key;
   c ← foldl (fun oc data => c ← oc; CHMAC_SHA256_Write c data) (Some c) chunks;
   CHMAC_SHA256_Finalize c) = Some (hmac 64 sha256 key (concat chunks)) /\
  (c ← new_CHMAC_SHA512 mo' mi' mr' mk' key;
   c ← foldl (fun oc data => c ← oc; CHMAC_SHA512_Write c data) (Some c) chunks;
   CHMAC_SHA512_Finalize c) = Some (hmac 128 sha512 key (concat chunks)) /\
  BIP32Hash mo' mi' mr' mk' key nChild header data =
    Some (hmac 128 sha512 key (header :: data ++ rev (store_le 4 nChild))).
Proof.
  intros Hm Hm' Hkey Hb Hh Hd Hld Hn Hlk Hl. split_and!.
  - refine (CHMAC_ok (ops := SHA256_ops) (spec := SHA256_spec) mo mi mr mk key chunks _ _ _ _ _ _);
      try done; cbn [hash_block SHA256_ops]; lia.
  - refine (CHMAC_ok (ops := SHA512_ops) (spec := SHA512_spec) mo' mi' mr' mk' key chunks _ _ _ _ _ _);
      try done; cbn [hash_block SHA512_ops]; lia.
  - assert (rev (store_le 4 nChild) =
      [(nChild >> 24) .& 0xFF; (nChild >> 16) .& 0xFF; (nChild >> 8) .& 0xFF; (nChild >> 0) .& 0xFF]) as E.
    { cbn [store_le rev app]. unfold uchar. rewrite !Z.shiftr_shiftr by lia. done. }
    pose proof (CHMAC_ok (ops := SHA512_ops) mo' mi' mr' mk' key
      [[header]; data; rev (store_le 4 nChild)]) as H.
    cbn [concat app foldl] in H. rewrite app_nil_r, E in H. rewrite E.
    etrans; [|refine (H _ _ _ _ _ _); try done].
    + unfold BIP32Hash, new_CHMAC_SHA512, CHMAC_SHA512_Write, CHMAC_SHA512_Finalize. cbv zeta.
      destruct (new_CHMAC _ _ _ _ _) as [c|]; [|done]. cbn [mbind option_bind].
      destruct (CHMAC_Write c [header]) as [c1|]; [|done]. cbn [mbind option_bind].
      by destruct (CHMAC_Write c1 data).
    + apply Forall_cons_2; [done|]. apply Forall_app_2; [done|].
      rewrite <- E. apply Forall_rev, store_le_bytes.
    + cbn [hash_block SHA512_ops length]. rewrite length_app, Hld. done.
Qed.

(** A key longer than a block of SHA-256, the message in two calls. *)
Lemma hmac_rfc2104_witness :
  let r n := replicate n 0xaa in
  BIP32Hash (r 128%nat) (r 128%nat) (r 128%nat) (r 128%nat) (r 80%nat) 1 2 (r 32%nat) =
    Some (hmac 128 sha512 (r 80%nat) (2 :: r 32%nat ++ [0; 0; 0; 1])).
Proof.
  intros r.
  assert (forall n, Forall byte (r n)) as Hr by (intros; by apply Forall_replicate).
  refine (proj2 (proj2 (hmac_rfc2104 (r 64%nat) (r 64%nat) (r 64%nat) (r 64%nat)
    (r 128%nat) (r 128%nat) (r 128%nat) (r 128%nat) (r 80%nat) [[1]; [2; 3]] 1 2 (r 32%nat)
    _ _ _ _ _ _ _ _ _ _))); try done.
  by repeat (apply Forall_cons_2; [done|]).
Defined.

(** ** SipHash *)

Lemma load_le_snoc n r b :
  (length r < n)%nat -> Forall byte r ->
  load_le n (r ++ [b]) = load_le n r .| (b << (8 * Z.of_nat (length r))).
Proof.
  revert r. induction n as [|n IH]; intros r Hl Hb; [lia|].
  destruct r as [|x r]; cbn [app length].
  - cbn [load_le]. change (8 * Z.of_nat 0) with 0.
    by rewrite load_le_nil, Z.shiftl_0_l, Z.lor_0_l, Z.lor_0_r, Z.shiftl_0_r.
  - cbn [load_le]. apply Forall_cons_1 in Hb as [Hx Hb]. simpl in Hl.
    rewrite IH by (done || lia). rewrite Z.shiftl_lor, Z.shiftl_shiftl by lia.
    rewrite Z.lor_assoc. f_equal. f_equal. lia.
Qed.

(** The object after the bytes [m]. *)
Definition sip_obj (k0 k1 : Z) (m : list Z) : CSipHasher :=
  SipHasher (foldl sip_word (sv (new_CSipHasher k0 k1)) (siphash_words m))
    (load_le 8 (drop (8 * (length m / 8)) m)) (Z.of_nat (length m)).

Lemma siphash_words_full m b :
  ((length m + 1) mod 8 = 0)%nat ->
  siphash_words (m ++ [b]) =
  siphash_words m ++ [load_le 8 (drop (8 * (length m / 8)) m ++ [b])] /\
  drop (8 * (length (m ++ [b]) / 8)) (m ++ [b]) = [].
Proof.
  intros Hm. rewrite length_app. cbn [length].
  pose proof (Nat.div_mod_eq (length m) 8) as E1. pose proof (Nat.div_mod_eq (length m + 1) 8) as E2.
  pose proof (Nat.mod_upper_bound (length m) 8 ltac:(lia)).
  assert ((length m + 1) / 8 = length m / 8 + 1)%nat as Hq by lia.
  split; [|apply drop_ge; rewrite length_app; cbn [length]; lia].
  unfold siphash_words. rewrite length_app. cbn [length]. rewrite Hq, seq_app, map_app. cbn [seq map].
  rewrite Nat.add_0_l. f_equal.
  - apply map_ext_in. intros i Hi%in_seq. rewrite drop_app_le by lia.
    rewrite <- (load_le_take 8 8 (drop (8 * i) m ++ [b])), <- (load_le_take 8 8 (drop (8 * i) m)) by lia.
    rewrite take_app_le by (rewrite length_drop; lia). done.
  - by rewrite drop_app_le by lia.
Qed.

Lemma siphash_words_part m b :
  ((length m + 1) mod 8 <> 0)%nat ->
  siphash_words (m ++ [b]) = siphash_words m /\
  drop (8 * (length (m ++ [b]) / 8)) (m ++ [b]) = drop (8 * (length m / 8)) m ++ [b].
Proof.
  intros Hm. rewrite length_app. cbn [length].
  pose proof (Nat.div_mod_eq (length m) 8) as E1. pose proof (Nat.div_mod_eq (length m + 1) 8) as E2.
  pose proof (Nat.mod_upper_bound (length m) 8 ltac:(lia)).
  pose proof (Nat.mod_upper_bound (length m + 1) 8 ltac:(lia)).
  assert ((length m + 1) / 8 = length m / 8)%nat as Hq by lia.
  rewrite Hq. split; [|by rewrite drop_app_le by lia].
  unfold siphash_words. rewrite length_app. cbn [length]. rewrite Hq.
  apply map_ext_in. intros i Hi%in_seq. rewrite drop_app_le by lia.
  rewrite <- (load_le_take 8 8 (drop (8 * i) m ++ [b])), <- (load_le_take 8 8 (drop (8 * i) m)) by lia.
  rewrite take_app_le by (rewrite length_drop; lia). done.
Qed.

Lemma sip_byte_ok k0 k1 m b :
  Forall byte m -> byte b -> Z.of_nat (length m) + 1 < 2 ^ 31 ->
  sip_byte (sip_obj k0 k1 m) b = Some (sip_obj k0 k1 (m ++ [b])).
Proof.
  intros Hm Hb Hl. unfold sip_byte, sip_obj. cbn [tmp count sv]. cbv zeta.
  pose proof (Nat.div_mod_eq (length m) 8) as E1.
  pose proof (Nat.mod_upper_bound (length m) 8 ltac:(lia)) as Hlt.
  set (r := drop (8 * (length m / 8)) m).
  assert (length r = length m mod 8)%nat as Hr by (subst r; rewrite length_drop; lia).
  assert (load_le 8 r .| u64 (b << (8 * Z.rem (Z.of_nat (length m)) 8)) = load_le 8 (r ++ [b])) as ->.
  { rewrite load_le_snoc; [|lia|by apply Forall_drop]. f_equal.
    rewrite Z.rem_mod_nonneg by lia. rewrite Hr, Nat2Z.inj_mod. change (Z.of_nat 8) with 8.
    unfold u64. apply word_mod_id.
    assert (0 <= Z.of_nat (length m) mod 8 < 8) by (apply Z.mod_pos_bound; lia).
    apply word_shiftl; [lia|]. apply (word_mono 8); [lia|done]. }
  destruct (Z.ltb_spec (Z.of_nat (length m) + 1) (2 ^ 31)) as [_|?]; [|lia].
  assert ((Z.of_nat (length m) + 1) .& 7 = Z.of_nat ((length m + 1) mod 8)) as ->.
  { change 7 with (Z.ones 3). rewrite Z.land_ones by lia. rewrite Nat2Z.inj_mod. f_equal. lia. }
  rewrite length_app. cbn [length].
  replace (Z.of_nat (length m + 1)) with (Z.of_nat (length m) + 1) by lia.
  destruct (decide ((length m + 1) mod 8 = 0)%nat) as [H0|H0].
  - rewrite H0. destruct (siphash_words_full m b H0) as [-> Ed]. rewrite length_app in Ed. cbn [length] in Ed.
    rewrite Ed, foldl_app. done.
  - destruct (siphash_words_part m b H0) as [-> Ed]. rewrite length_app in Ed. cbn [length] in Ed.
    rewrite Ed. destruct (Z.eqb_spec (Z.of_nat ((length m + 1) mod 8)) 0) as [?|_]; [lia|]. done.
Qed.

Lemma sip_Write_ok k0 k1 m data :
  Forall byte (m ++ data) -> Z.of_nat (length (m ++ data)) < 2 ^ 31 ->
  CSipHasher_Write (sip_obj k0 k1 m) data = Some (sip_obj k0 k1 (m ++ data)).
Proof.
  unfold CSipHasher_Write. revert m. induction data as [|b data IH]; intros m Hb Hl.
  - by rewrite app_nil_r.
  - cbn [foldl mbind option_bind]. rewrite length_app in Hl. cbn [length] in Hl.
    pose proof Hb as [Hm Hb']%Forall_app. apply Forall_cons_1 in Hb' as [Hb1 Hb2].
    rewrite sip_byte_ok by (done || lia).
    assert (m ++ b :: data = (m ++ [b]) ++ data) as Em by (by rewrite <- app_assoc).
    rewrite Em in Hb |- *. apply IH; [done|].
    rewrite !length_app. cbn [length]. lia.
Qed.

Lemma sip_Finalize_ok k0 k1 m :
  Forall byte m -> Z.of_nat (length m) < 2 ^ 31 ->
  CSipHasher_Finalize (sip_obj k0 k1 m) = siphash k0 k1 m.
Proof.
  intros Hm Hl. unfold CSipHasher_Finalize, siphash. rewrite foldl_app. cbn [foldl].
  unfold sip_obj. cbn [sv tmp count]. f_equal. f_equal. unfold siphash_last.
  set (r := drop _ m).
  assert (length r < 8)%nat as Hr.
  { subst r. rewrite length_drop. pose proof (Nat.div_mod_eq (length m) 8).
    pose proof (Nat.mod_upper_bound (length m) 8 ltac:(lia)). lia. }
  assert (word 56 (load_le 8 r)) as Hw.
  { rewrite <- (take_ge r 7) by lia. rewrite (load_le_add 7 1).
    rewrite (drop_ge (take 7 r) 7) by (rewrite length_take; lia).
    rewrite load_le_nil, Z.shiftl_0_l, Z.lor_0_r. apply (load_le_word_short 7).
    by apply Forall_take, Forall_drop. }
  assert (u64 (u64 (Z.of_nat (length m)) << 56) = (Z.of_nat (length m) mod 256) * 2 ^ 56) as ->.
  { unfold u64. rewrite (Z.mod_small (Z.of_nat (length m))) by lia.
    rewrite Z.shiftl_mul_pow2 by lia. change (2 ^ 64) with (256 * 2 ^ 56).
    by rewrite Z.mul_mod_distr_r by lia. }
  rewrite <- Z.shiftl_mul_pow2 by lia. set (c := _ mod 256).
  assert (load_le 8 r .& (c << 56) = 0) as E.
  { apply Z.bits_inj'. intros i Hi. rewrite Z.land_spec, Z.testbit_0_l.
    destruct (decide (i < 56)).
    - by rewrite (Z.shiftl_spec_low _ _ i), andb_false_r by lia.
    - by rewrite (word_testbit_high 56) by (done || lia). }
  by rewrite <- (Z.add_lor_land (load_le 8 r) (c << 56)), E, Z.add_0_r.
Qed.

Lemma sip_word_tuple v0 v1 v2 v3 t :
  sip_word (v0, v1, v2, v3) t =
  let '(v0, v1, v2, v3) := SIPROUND (SIPROUND (v0, v1, v2, v3 ⊕ t)) in (v0 ⊕ t, v1, v2, v3).
Proof. done. Qed.

Lemma GetUint64_load val i :
  length val = 32%nat -> (i < 4)%nat -> GetUint64 val i = load_le 8 (drop (8 * i) val).
Proof.
  intros Hl Hi. unfold GetUint64. rewrite (Nat.mul_comm i 8). cbv zeta.
  set (p := drop (8 * i) val). assert (8 <= length p)%nat as Hp by (subst p; rewrite length_drop; lia).
  clearbody p. do 8 (destruct p as [|? p]; [simpl in Hp; lia|]).
  rewrite <- (load_le_take 8 8) by lia. cbn [take].
  rewrite <- (sph_dec64le_load _ _ _ _ _ _ _ _ p). reflexivity.
Qed.

(** The specialised function on 32 bytes. *)
Lemma SipHashUint256_ok k0 k1 val :
  Forall byte val -> length val = 32%nat -> SipHashUint256 k0 k1 val = siphash k0 k1 val.
Proof.
  intros Hb Hl. unfold siphash, siphash_words, siphash_last. rewrite Hl.
  change (32 / 8)%nat with 4%nat. cbn [seq map app foldl].
  rewrite (drop_ge val (8 * 4)) by lia. rewrite load_le_nil.
  change (0 + Z.of_nat 32 mod 256 * 2 ^ 56) with (u64 (4 << 59)).
  unfold SipHashUint256. rewrite !GetUint64_load by (done || lia). cbv zeta.
  unfold new_CSipHasher. cbn [sv].
  do 5 (rewrite sip_word_tuple; destruct (SIPROUND (SIPROUND _)) as [[[? ?] ?] ?]).
  unfold sip_finish. reflexivity.
Qed.

(** Writing a 64-bit word is writing its 8 bytes in little-endian order. *)
Lemma sip_Write64_ok k0 k1 m d :
  Forall byte m -> word 64 d -> (length m mod 8 = 0)%nat -> Z.of_nat (length m) + 8 < 2 ^ 31 ->
  CSipHasher_Write64 (sip_obj k0 k1 m) d = Some (sip_obj k0 k1 (m ++ store_le 8 d)).
Proof.
  intros Hb Hd Hm Hl. unfold CSipHasher_Write64, sip_obj. cbn [count sv tmp].
  rewrite Z.rem_mod_nonneg by lia. change 8 with (Z.of_nat 8) at 1.
  rewrite <- Nat2Z.inj_mod, Hm. cbn [Z.eqb Z.of_nat].
  destruct (Z.ltb_spec (Z.of_nat (length m) + 8) (2 ^ 31)) as [_|?]; [|lia].
  pose proof (Nat.div_mod_eq (length m) 8) as E. rewrite Hm, Nat.add_0_r in E.
  assert (length (m ++ store_le 8 d) = length m + 8)%nat as El by (by rewrite length_app, length_store_le).
  assert ((length m + 8) / 8 = length m / 8 + 1)%nat as Eq.
  { replace (length m + 8)%nat with (length m + 1 * 8)%nat by lia. by rewrite Nat.div_add. }
  unfold siphash_words. rewrite El, Eq, seq_app, map_app, foldl_app. cbn [seq map foldl].
  rewrite Nat.add_0_l. do 2 f_equal; [|f_equal|lia].
  - f_equal.
    + f_equal. apply map_ext_in. intros i Hi%in_seq. rewrite drop_app_le by lia.
      rewrite <- (load_le_take 8 8 (drop (8 * i) m ++ _)), <- (load_le_take 8 8 (drop (8 * i) m)) by lia.
      by rewrite take_app_le by (rewrite length_drop; lia).
    + rewrite <- E, drop_app_length. by rewrite load_le_store_le.
  - rewrite !drop_ge; [done|rewrite El; lia|lia].
Qed.

(** [CSipHasher] computes SipHash-2-4: for any way of writing the bytes of a message
    the result is that of the whole message, a 64-bit [Write] stands for 8 bytes, and the
    function specialised to [uint256] returns the same value. Messages are shorter than
    2^31 bytes, the range of the [int] counter. *)
Theorem siphash_24 k0 k1 chunks d val :
  Forall byte (concat chunks) -> word 64 d -> Forall byte val -> length val = 32%nat ->
  Z.of_nat (length (concat chunks)) + 8 < 2 ^ 31 ->
  let m := concat chunks in
  (h ← foldl (fun oh data => h ← oh; CSipHasher_Write h data) (Some (new_CSipHasher k0 k1)) chunks;
   Some (CSipHasher_Finalize h)) = Some (siphash k0 k1 m) /\
  ((length m mod 8 = 0)%nat ->
   (h ← CSipHasher_Write (new_CSipHasher k0 k1) m; CSipHasher_Write64 h d) =
   CSipHasher_Write (new_CSipHasher k0 k1) (m ++ store_le 8 d)) /\
  SipHashUint256 k0 k1 val = siphash k0 k1 val.
Proof.
  intros Hb Hd Hv Hlv Hl m. subst m. change (new_CSipHasher k0 k1) with (sip_obj k0 k1 []). split_and!.
  - assert (forall cs p, Forall byte (p ++ concat cs) -> Z.of_nat (length (p ++ concat cs)) < 2 ^ 31 ->
      foldl (fun oh data => h ← oh; CSipHasher_Write h data) (Some (sip_obj k0 k1 p)) cs =
      Some (sip_obj k0 k1 (p ++ concat cs))) as Hw.
    { induction cs as [|c cs IH]; intros p Hp Hlp; [by rewrite app_nil_r|].
      cbn [foldl mbind option_bind concat] in *. rewrite app_assoc in *.
      rewrite sip_Write_ok; [by apply IH|by apply Forall_app in Hp as [??]|].
      rewrite length_app in Hlp. lia. }
    rewrite (Hw chunks [] Hb) by (cbn [app]; lia). cbn [mbind option_bind app].
    by rewrite sip_Finalize_ok by (done || lia).
  - intros H0. rewrite !sip_Write_ok; cbn [app]; try done.
    + cbn [mbind option_bind]. by apply sip_Write64_ok.
    + apply Forall_app_2; [done|]. apply store_le_bytes.
    + rewrite length_app, length_store_le. lia.
    + lia.
  - by apply SipHashUint256_ok.
Qed.

(** Ten bytes in two calls. *)
Lemma siphash_24_witness :
  (h ← foldl (fun oh data => h ← oh; CSipHasher_Write h data) (Some (new_CSipHasher 1 2))
         [[1; 2; 3]; [4; 5; 6; 7; 8; 9; 10]];
   Some (CSipHasher_Finalize h)) = Some (siphash 1 2 [1; 2; 3; 4; 5; 6; 7; 8; 9; 10]).
Proof.
  refine (proj1 (siphash_24 1 2 [[1; 2; 3]; [4; 5; 6; 7; 8; 9; 10]] 5 (replicate 32 7) _ _ _ _ _)); try done.
  - by repeat (apply Forall_cons_2; [done|]).
  - by apply Forall_replicate.
Defined.
