(* ===== verification/Merkle.v ===== *)
(** * Merkle trees: [src/src/consensus/merkle.cpp]

    The constant-space computation of the root, of the mutation flag and of a branch, and
    the check of a branch.  The references are recursive functions on the list of leaves;
    the last theorem is what the mutation flag is for: up to a hash collision, an
    unmutated list of leaves is determined by its root. *)

From stdpp Require Import sets.
From S2P Require Import Prelude SphTypes BlockBuffer Hasher Sha2Spec Sha256 Hash.

#[local] Open Scope c_scope.

(** [uint256]: 32 bytes; the default constructor clears them. *)
Abbreviation uint256 := (list Z).
Definition uint256_zero : uint256 := replicate 32 0.

Section computation.
(** [CHash256().Write(a.begin(), 32).Write(b.begin(), 32).Finalize(...)] *)
Context (hash_pair : uint256 -> uint256 -> option uint256).

(** [!(count & (((uint32_t)1) << level))]; [None] is a shift by 32 or more. *)
Definition bit_clear (count : Z) (level : nat) : option bool :=
  if (level <? 32)%nat then Some (count .& u32 (1 << Z.of_nat level) =? 0) else None.

(** [if (pbranch) { ... }]: what is appended to the branch when [i] and [h] are combined. *)
Definition push_branch (pbranch : bool) (matchlevel : Z) (level : nat) (i h : uint256)
    (matchh : bool) (branch : list uint256) : bool * list uint256 :=
  if pbranch then
    if matchh then (matchh, branch ++ [i])
    else if matchlevel =? Z.of_nat level then (true, branch ++ [h])
    else (matchh, branch)
  else (matchh, branch).

(** [for (level = 0; !(count & (1 << level)); level++) { ... }] *)
Fixpoint leaf_loop (fuel : nat) (pbranch : bool) (inner : list uint256) (matchlevel count : Z)
    (level : nat) (h : uint256) (matchh mutated : bool) (branch : list uint256)
    : option (nat * uint256 * bool * bool * list uint256) :=
  clear ← bit_clear count level;
  if clear : bool then
    match fuel with
    | O => None
    | S fuel =>
        i ← inner !! level;
        let '(matchh, branch) := push_branch pbranch matchlevel level i h matchh branch in
        let mutated := mutated || bool_decide (i = h) in
        h ← hash_pair i h;
        leaf_loop fuel pbranch inner matchlevel count (S level) h matchh mutated branch
    end
  else Some (level, h, matchh, mutated, branch).

(** The local variables of the first loop. *)
Record mstate := MState {
  m_count : Z; m_inner : list uint256; m_matchlevel : Z; m_mutated : bool; m_branch : list uint256
}.

(** The body of [while (count < leaves.size())]. *)
Definition add_leaf (pbranch : bool) (branchpos : Z) (st : mstate) (leaf : uint256) : option mstate :=
  let matchh := m_count st =? branchpos in
  let count := u32 (m_count st + 1) in
  '(level, h, matchh, mutated, branch) ←
    leaf_loop 32 pbranch (m_inner st) (m_matchlevel st) count 0 leaf matchh (m_mutated st) (m_branch st);
  if (level <? length (m_inner st))%nat then
    Some (MState count (<[level := h]> (m_inner st))
      (if matchh : bool then Z.of_nat level else m_matchlevel st) mutated branch)
  else None.

Definition add_leaves (pbranch : bool) (branchpos : Z) (st : mstate) (leaves : list uint256)
    : option mstate :=
  foldl (fun ost leaf => st ← ost; add_leaf pbranch branchpos st leaf) (Some st) leaves.

(** [while (!(count & (1 << level))) level++] *)
Fixpoint skip_levels (fuel : nat) (count : Z) (level : nat) : option nat :=
  clear ← bit_clear count level;
  if clear : bool then match fuel with O => None | S fuel => skip_levels fuel count (S level) end
  else Some level.

(** The inner loop of the final sweep. *)
Fixpoint sweep_up (fuel : nat) (pbranch : bool) (inner : list uint256) (matchlevel count : Z)
    (level : nat) (h : uint256) (matchh : bool) (branch : list uint256)
    : option (nat * uint256 * bool * list uint256) :=
  clear ← bit_clear count level;
  if clear : bool then
    match fuel with
    | O => None
    | S fuel =>
        i ← inner !! level;
        let '(matchh, branch) := push_branch pbranch matchlevel level i h matchh branch in
        h ← hash_pair i h;
        sweep_up fuel pbranch inner matchlevel count (S level) h matchh branch
    end
  else Some (level, h, matchh, branch).

(** [while (count != (((uint32_t)1) << level)) { ... }] *)
Fixpoint sweep (fuel : nat) (pbranch : bool) (inner : list uint256) (matchlevel count : Z)
    (level : nat) (h : uint256) (matchh : bool) (branch : list uint256)
    : option (uint256 * list uint256) :=
  if (level <? 32)%nat then
    if count =? u32 (1 << Z.of_nat level) then Some (h, branch)
    else
      match fuel with
      | O => None
      | S fuel =>
          let branch := if pbranch && matchh then branch ++ [h] else branch in
          h ← hash_pair h h;
          let count := u32 (count + u32 (1 << Z.of_nat level)) in
          '(level, h, matchh, branch) ←
            sweep_up 32 pbranch inner matchlevel count (S level) h matchh branch;
          sweep fuel pbranch inner matchlevel count level h matchh branch
      end
  else None.

(** The root, the mutation flag and the branch; [pbranch] says whether a branch is asked
    for. *)
Definition MerkleComputation (leaves : list uint256) (branchpos : Z) (pbranch : bool)
    : option (uint256 * bool * list uint256) :=
  if (length leaves =? 0)%nat then Some (uint256_zero, false, [])
  else
    st ← add_leaves pbranch branchpos (MState 0 (replicate 32 uint256_zero) (-1) false []) leaves;
    level ← skip_levels 32 (m_count st) 0;
    h ← m_inner st !! level;
    let matchh := m_matchlevel st =? Z.of_nat level in
    '(h, branch) ← sweep 32 pbranch (m_inner st) (m_matchlevel st) (m_count st) level h matchh (m_branch st);
    Some (h, m_mutated st, branch).
End computation.

(** ** The interface functions *)

Definition ComputeMerkleRoot (mem : list Z) (leaves : list uint256) : option (uint256 * bool) :=
  '(hash, mutated, _) ← MerkleComputation (Hash2 mem) leaves (u32 (-1)) false;
  Some (hash, mutated).

Definition ComputeMerkleBranch (mem : list Z) (leaves : list uint256) (position : Z)
    : option (list uint256) :=
  '(_, _, ret) ← MerkleComputation (Hash2 mem) leaves position true;
  Some ret.

Definition ComputeMerkleRootFromBranch (mem : list Z) (leaf : uint256) (vMerkleBranch : list uint256)
    (nIndex : Z) : option uint256 :=
  r ← foldl (fun r it =>
        '(hash, nIndex) ← r;
        hash ← (if nIndex .& 1 =? 0 then Hash2 mem hash it else Hash2 mem it hash);
        Some (hash, nIndex >> 1)) (Some (leaf, nIndex)) vMerkleBranch;
  Some r.1.

(** Over the vector [vtx] of the transactions of a block. *)
Section block_functions.
Context {Tx : Type} (GetHash GetWitnessHash : Tx -> uint256) (mem : list Z).

Definition BlockMerkleRoot (vtx : list Tx) : option (uint256 * bool) :=
  ComputeMerkleRoot mem (map GetHash vtx).

(** [leaves[0]] is cleared; with [fIgnoreCoinStake] the second transaction is left out and
    the last leaf stays clear.  Without transactions [leaves[0]] is outside the vector. *)
Definition BlockWitnessMerkleRoot (vtx : list Tx) (fIgnoreCoinStake : bool)
    : option (uint256 * bool) :=
  let leaves := replicate (length vtx) uint256_zero in
  if (0 <? length leaves)%nat then
    let leaves := <[0%nat := uint256_zero]> leaves in
    let first := if fIgnoreCoinStake then 2%nat else 1%nat in
    let k := if fIgnoreCoinStake then 1%nat else 0%nat in
    let leaves := foldl (fun leaves '(s, tx) => <[(s - k)%nat := GetWitnessHash tx]> leaves) leaves
                    (drop first (imap pair vtx)) in
    ComputeMerkleRoot mem leaves
  else None.

Definition BlockMerkleBranch (vtx : list Tx) (position : Z) : option (list uint256) :=
  ComputeMerkleBranch mem (map GetHash vtx) position.
End block_functions.

(** ** References *)

Section reference.
Context (f : uint256 -> uint256 -> uint256).

(** The root of the tree of height [k] over at most [2^k] leaves: a missing right subtree
    is replaced by the left one. *)
Fixpoint tree_root (k : nat) (l : list uint256) : uint256 :=
  match k with
  | O => l !!! 0%nat
  | S k =>
      if (length l <=? 2 ^ k)%nat then f (tree_root k l) (tree_root k l)
      else f (tree_root k (take (2 ^ k) l)) (tree_root k (drop (2 ^ k) l))
  end.

(** The sibling hashes from leaf [pos] to the root. *)
Fixpoint tree_branch (k : nat) (l : list uint256) (pos : nat) : list uint256 :=
  match k with
  | O => []
  | S k =>
      if (length l <=? 2 ^ k)%nat then tree_branch k l pos ++ [tree_root k l]
      else if (pos <? 2 ^ k)%nat then
        tree_branch k (take (2 ^ k) l) pos ++ [tree_root k (drop (2 ^ k) l)]
      else tree_branch k (drop (2 ^ k) l) (pos - 2 ^ k) ++ [tree_root k (take (2 ^ k) l)]
  end.

(** The pairs that are hashed to build that tree. *)
Fixpoint tree_pairs (k : nat) (l : list uint256) : list (uint256 * uint256) :=
  match k with
  | O => []
  | S k =>
      if (length l <=? 2 ^ k)%nat then (tree_root k l, tree_root k l) :: tree_pairs k l
      else (tree_root k (take (2 ^ k) l), tree_root k (drop (2 ^ k) l))
           :: tree_pairs k (take (2 ^ k) l) ++ tree_pairs k (drop (2 ^ k) l)
  end.

(** The block of [2^k] leaves with index [i]. *)
Definition block (l : list uint256) (k i : nat) : list uint256 := take (2 ^ k) (drop (i * 2 ^ k) l).

(** Two complete sibling subtrees have the same root. *)
Definition tree_mutated (l : list uint256) : Prop :=
  exists k i, ((2 * i + 2) * 2 ^ k <= length l)%nat /\
    tree_root k (block l k (2 * i)) = tree_root k (block l k (2 * i + 1)).

Definition merkle_root (l : list uint256) : uint256 :=
  if (length l =? 0)%nat then uint256_zero else tree_root (Nat.log2_up (length l)) l.
End reference.

(** ** Blocks of leaves *)

Lemma pow2_pos k : (0 < 2 ^ k)%nat.
Proof. induction k; simpl; lia. Qed.
#[local] Hint Resolve pow2_pos : core.

Lemma pow2_S k : (2 ^ S k = 2 * 2 ^ k)%nat.
Proof. apply Nat.pow_succ_r'. Qed.

Lemma div_pow2_S c k : (c / 2 ^ S k = c / 2 ^ k / 2)%nat.
Proof. by rewrite pow2_S, Nat.mul_comm, <- Nat.Div0.div_div. Qed.

Lemma length_block l k i : ((i + 1) * 2 ^ k <= length l)%nat -> length (block l k i) = (2 ^ k)%nat.
Proof. intros H. unfold block. rewrite length_take, length_drop. lia. Qed.

(** A block is two blocks of half the size. *)
Lemma block_S l k i :
  ((2 * i + 2) * 2 ^ k <= length l)%nat ->
  take (2 ^ k) (block l (S k) i) = block l k (2 * i) /\
  drop (2 ^ k) (block l (S k) i) = block l k (2 * i + 1).
Proof.
  intros H. unfold block. rewrite pow2_S.
  split.
  - rewrite take_take, Nat.min_l by lia. f_equal. f_equal. lia.
  - rewrite skipn_firstn_comm, drop_drop. f_equal; [lia|]. f_equal. lia.
Qed.

Lemma block_app l x k i :
  ((i + 1) * 2 ^ k <= length l)%nat -> block (l ++ x) k i = block l k i.
Proof.
  intros H. unfold block. rewrite drop_app_le by lia. apply take_app_le. rewrite length_drop. lia.
Qed.

Section reference_proofs.
Context (f : uint256 -> uint256 -> uint256).
#[local] Abbreviation tree_root := (tree_root f).
#[local] Abbreviation tree_branch := (tree_branch f).
#[local] Abbreviation tree_mutated := (tree_mutated f).

Lemma tree_root_S k l i :
  ((2 * i + 2) * 2 ^ k <= length l)%nat ->
  tree_root (S k) (block l (S k) i) =
  f (tree_root k (block l k (2 * i))) (tree_root k (block l k (2 * i + 1))).
Proof.
  intros H. cbn [Merkle.tree_root].
  rewrite length_block by (rewrite pow2_S; lia). pose proof (pow2_pos k).
  destruct (Nat.leb_spec (2 ^ S k) (2 ^ k)) as [Hle|_]; [rewrite pow2_S in Hle; lia|].
  by destruct (block_S l k i H) as [-> ->].
Qed.

(** Positions in a block. *)
Lemma tree_branch_S k l i pos :
  ((2 * i + 2) * 2 ^ k <= length l)%nat -> (pos / 2 ^ k = 2 * i \/ pos / 2 ^ k = 2 * i + 1)%nat ->
  tree_branch (S k) (block l (S k) i) (pos mod 2 ^ S k) =
  if decide (pos / 2 ^ k = 2 * i)%nat
  then tree_branch k (block l k (2 * i)) (pos mod 2 ^ k) ++ [tree_root k (block l k (2 * i + 1))]
  else tree_branch k (block l k (2 * i + 1)) (pos mod 2 ^ k) ++ [tree_root k (block l k (2 * i))].
Proof.
  intros H Hpos. cbn [Merkle.tree_branch].
  rewrite length_block by (rewrite pow2_S; lia). pose proof (pow2_pos k).
  destruct (Nat.leb_spec (2 ^ S k) (2 ^ k)) as [Hle|_]; [rewrite pow2_S in Hle; lia|].
  destruct (block_S l k i H) as [-> ->].
  assert (pos mod 2 ^ S k = (pos / 2 ^ k - 2 * i) * 2 ^ k + pos mod 2 ^ k)%nat as ->.
  { rewrite pow2_S, Nat.mul_comm, Nat.Div0.mod_mul_r. rewrite (Nat.mul_comm (2 ^ k)), Nat.add_comm.
    f_equal. f_equal.
    pose proof (Nat.div_mod_eq (pos / 2 ^ k) 2).
    pose proof (Nat.mod_upper_bound (pos / 2 ^ k) 2 ltac:(lia)). lia. }
  pose proof (Nat.mod_upper_bound pos (2 ^ k) ltac:(lia)).
  destruct (decide (pos / 2 ^ k = 2 * i)%nat) as [E|E].
  - rewrite E, Nat.sub_diag, Nat.mul_0_l, Nat.add_0_l.
    destruct (Nat.ltb_spec (pos mod 2 ^ k) (2 ^ k)); [done|lia].
  - replace (pos / 2 ^ k - 2 * i)%nat with 1%nat by lia. rewrite Nat.mul_1_l.
    destruct (Nat.ltb_spec (2 ^ k + pos mod 2 ^ k) (2 ^ k)); [lia|].
    by replace (2 ^ k + pos mod 2 ^ k - 2 ^ k)%nat with (pos mod 2 ^ k)%nat by lia.
Qed.

(** Adding a leaf completes the pairs of subtrees that end with it. *)
Lemma tree_mutated_snoc l x :
  tree_mutated (l ++ [x]) <->
  tree_mutated l \/
  exists k, Nat.divide (2 ^ S k) (length l + 1) /\
    let q := ((length l + 1) / 2 ^ k)%nat in
    tree_root k (block (l ++ [x]) k (q - 2)) = tree_root k (block (l ++ [x]) k (q - 1)).
Proof.
  unfold Merkle.tree_mutated. split.
  - intros (k&i&Hl&E). rewrite length_app in Hl. cbn [length] in Hl. pose proof (pow2_pos k).
    destruct (decide ((2 * i + 2) * 2 ^ k <= length l)%nat) as [Hle|Hgt].
    + left. exists k, i. split; [done|]. rewrite !block_app in E by lia. done.
    + right. exists k. assert (length l + 1 = (2 * i + 2) * 2 ^ k)%nat as El by lia.
      split; [exists (i + 1)%nat; rewrite pow2_S; lia|]. cbv zeta.
      rewrite El, Nat.div_mul by lia.
      by replace (2 * i + 2 - 2)%nat with (2 * i)%nat by lia; replace (2 * i + 2 - 1)%nat with (2 * i + 1)%nat by lia.
  - intros [(k&i&Hl&E)|(k&[d Hd]&E)].
    + exists k, i. rewrite length_app, !block_app by lia. split; [lia|done].
    + pose proof (pow2_pos k). rewrite pow2_S in Hd. exists k, (d - 1)%nat. rewrite length_app. cbn [length].
      assert (0 < d)%nat by (destruct d; lia).
      split; [nia|]. cbv zeta in E. rewrite Hd in E.
      replace (d * (2 * 2 ^ k))%nat with ((2 * d) * 2 ^ k)%nat in E by lia.
      rewrite Nat.div_mul in E by lia.
      replace (2 * (d - 1))%nat with (2 * d - 2)%nat by lia.
      by replace (2 * d - 2 + 1)%nat with (2 * d - 1)%nat by lia.
Qed.
End reference_proofs.

(** ** The first loop *)

Lemma bit_clear_even c level :
  (level < 32)%nat -> bit_clear (Z.of_nat c) level = Some (Nat.even (c / 2 ^ level)).
Proof.
  intros Hl. unfold bit_clear. destruct (Nat.ltb_spec level 32); [|lia]. f_equal.
  assert (u32 (1 << Z.of_nat level) = 2 ^ Z.of_nat level) as ->.
  { unfold u32. rewrite Z.shiftl_mul_pow2, Z.mul_1_l by lia. apply Z.mod_small.
    split; [lia|]. apply Z.pow_lt_mono_r; lia. }
  apply Bool.eq_iff_eq_true. rewrite Z.eqb_eq, Nat.even_spec.
  assert (Z.testbit (Z.of_nat c) (Z.of_nat level) = Nat.odd (c / 2 ^ level)) as Hb.
  { rewrite Z.testbit_odd, Z.shiftr_div_pow2 by lia.
    change 2 with (Z.of_nat 2). rewrite <- Nat2Z.inj_pow, <- Nat2Z.inj_div.
    apply Bool.eq_iff_eq_true. rewrite Z.odd_spec, Nat.odd_spec. split.
    - intros [m Hm]. exists (Z.to_nat m). lia.
    - intros [m Hm]. exists (Z.of_nat m). lia. }
  rewrite <- Nat.even_spec. rewrite <- Nat.negb_odd, <- Hb.
  split.
  - intros E. apply (f_equal (fun x => Z.testbit x (Z.of_nat level))) in E.
    rewrite Z.land_spec, Z.pow2_bits_true, Z.testbit_0_l, andb_true_r in E by lia. by rewrite E.
  - intros Hn%negb_true_iff. apply Z.bits_inj'. intros i Hi.
    rewrite Z.land_spec, Z.testbit_0_l. destruct (decide (i = Z.of_nat level)) as [->|].
    + by rewrite Hn.
    + rewrite Z.pow2_bits_false by lia. apply andb_false_r.
Qed.

(** Quotients by a power of 2 of the number before a multiple of it. *)
Lemma div_before q k : (0 < q)%nat -> ((q * 2 ^ k - 1) / 2 ^ k = q - 1)%nat.
Proof.
  intros Hq. pose proof (pow2_pos k). symmetry.
  apply (Nat.div_unique _ _ _ (2 ^ k - 1)); [lia|]. nia.
Qed.

(** Two numbers with the same quotient when neither interval ends between them. *)
Lemma div_same c k : (~ Nat.divide (2 ^ k) (c + 1))%nat -> ((c + 1) / 2 ^ k = c / 2 ^ k)%nat.
Proof.
  intros Hd. pose proof (pow2_pos k).
  pose proof (Nat.div_mod_eq c (2 ^ k)) as E. pose proof (Nat.mod_upper_bound c (2 ^ k) ltac:(lia)).
  assert (c mod 2 ^ k + 1 <> 2 ^ k)%nat.
  { intros E'. apply Hd. exists (c / 2 ^ k + 1)%nat. nia. }
  symmetry. apply (Nat.div_unique _ _ _ (c mod 2 ^ k + 1)); lia.
Qed.

Section computation_proofs.
Context (f : uint256 -> uint256 -> uint256) (hash_pair : uint256 -> uint256 -> option uint256).
Context (V : uint256 -> Prop).
Context (hash_ok : forall a b, V a -> V b -> hash_pair a b = Some (f a b) /\ V (f a b)).
#[local] Abbreviation tree_root := (tree_root f).
#[local] Abbreviation tree_branch := (tree_branch f).
#[local] Abbreviation tree_mutated := (tree_mutated f).

Lemma tree_root_valid k l : Forall V l -> l <> [] -> V (tree_root k l).
Proof.
  revert l. induction k as [|k IH]; intros l Hl Hne; cbn [Merkle.tree_root].
  - destruct l; [done|]. by apply Forall_cons_1 in Hl as [? _].
  - pose proof (pow2_pos k). destruct (Nat.leb_spec (length l) (2 ^ k)) as [Hle|Hgt].
    + apply hash_ok; by apply IH.
    + apply hash_ok; apply IH; auto using Forall_take, Forall_drop.
      * intros E%(f_equal length). rewrite length_take in E. simpl in E. lia.
      * intros E%(f_equal length). rewrite length_drop in E. simpl in E. lia.
Qed.

Lemma block_valid l k i :
  Forall V l -> (i * 2 ^ k < length l)%nat -> V (tree_root k (block l k i)).
Proof.
  intros Hl Hi. pose proof (pow2_pos k). apply tree_root_valid.
  - by apply Forall_take, Forall_drop.
  - intros E%(f_equal length). unfold block in E. rewrite length_take, length_drop in E. simpl in E. lia.
Qed.

(** [inner] after the leaves [l]: one complete subtree per bit of the count. *)
Definition inner_ok (inner : list uint256) (l : list uint256) : Prop :=
  length inner = 32%nat /\
  forall b, Nat.odd (length l / 2 ^ b) = true -> (b < 32)%nat ->
    inner !! b = Some (tree_root b (block l b (length l / 2 ^ b - 1))).

(** The subtree of [inner] that holds the leaf [pos], and its branch. *)
Definition match_at (l : list uint256) (pos b : nat) (branch : list uint256) : Prop :=
  Nat.odd (length l / 2 ^ b) = true /\ (pos / 2 ^ b = length l / 2 ^ b - 1)%nat /\
  branch = tree_branch b (block l b (pos / 2 ^ b)) (pos mod 2 ^ b).

Definition match_ok (l : list uint256) (pos : nat) (matchlevel : Z) (branch : list uint256) : Prop :=
  if decide (pos < length l)%nat then exists b, matchlevel = Z.of_nat b /\ match_at l pos b branch
  else matchlevel = -1 /\ branch = [].

(** A leaf is in one subtree only. *)
Lemma match_unique c pos b j :
  Nat.odd (c / 2 ^ b) = true -> (pos / 2 ^ b = c / 2 ^ b - 1)%nat ->
  Nat.odd (c / 2 ^ j) = true -> (pos / 2 ^ j = c / 2 ^ j - 1)%nat -> b = j.
Proof.
  assert (forall b j, Nat.odd (c / 2 ^ b) = true -> (pos / 2 ^ b = c / 2 ^ b - 1)%nat ->
    Nat.odd (c / 2 ^ j) = true -> (pos / 2 ^ j = c / 2 ^ j - 1)%nat -> (b < j)%nat -> False) as H.
  { clear. intros b j Hb Eb Hj Ej Hlt.
    replace j with (b + S (j - b - 1))%nat in Hj, Ej by lia. set (d := (j - b - 1)%nat) in *. clearbody d.
    rewrite Nat.pow_add_r, <- !Nat.Div0.div_div, Eb in Ej. rewrite Nat.pow_add_r, <- Nat.Div0.div_div in Hj.
    set (q := (c / 2 ^ b)%nat) in *. clearbody q. apply Nat.odd_spec in Hb as [m ->].
    rewrite pow2_S, <- !Nat.Div0.div_div in *. replace (2 * m + 1 - 1)%nat with (m * 2)%nat in Ej by lia.
    replace (2 * m + 1)%nat with (1 + m * 2)%nat in Hj, Ej by lia.
    rewrite Nat.div_mul, Nat.div_add in Ej by lia. rewrite Nat.div_add in Hj by lia.
    change (1 / 2)%nat with 0%nat in *. rewrite Nat.add_0_l in *.
    destruct (m / 2 ^ d)%nat; [done|lia]. }
  intros Hb Eb Hj Ej. destruct (Nat.lt_trichotomy b j) as [?|[?|?]]; [|done|]; exfalso; eauto.
Qed.

(** The state of the inner loop at level [j], when the leaf [x] is added to [l]. *)
Definition loop_match (l : list uint256) (x : uint256) (pos : nat) (ml : Z) (j : nat)
    (matchh : bool) (branch : list uint256) : Prop :=
  let q := ((length l + 1) / 2 ^ j)%nat in
  if matchh then (pos / 2 ^ j = q - 1)%nat /\
    branch = tree_branch j (block (l ++ [x]) j (pos / 2 ^ j)) (pos mod 2 ^ j)
  else (pos / 2 ^ j <> q - 1)%nat /\ match_ok l pos ml branch.

Definition loop_mutated (l : list uint256) (x : uint256) (j : nat) (mutated : bool) : Prop :=
  mutated = true <->
  tree_mutated l \/
  exists k, (k < j)%nat /\
    let q := ((length l + 1) / 2 ^ k)%nat in
    tree_root k (block (l ++ [x]) k (q - 2)) = tree_root k (block (l ++ [x]) k (q - 1)).

Definition loop_inv (pbranch : bool) (l : list uint256) (x : uint256) (pos : nat) (ml : Z) (j : nat)
    (h : uint256) (matchh mutated : bool) (branch : list uint256) : Prop :=
  Nat.divide (2 ^ j) (length l + 1) /\
  h = tree_root j (block (l ++ [x]) j ((length l + 1) / 2 ^ j - 1)) /\
  loop_mutated l x j mutated /\
  (pbranch = true -> loop_match l x pos ml j matchh branch).

(** The even quotients of a multiple of [2^j]. *)
Lemma even_quotient c j d :
  (c = d * 2 ^ j)%nat -> (0 < c)%nat -> Nat.even (c / 2 ^ j) = true ->
  exists i, (c = (2 * i + 2) * 2 ^ j /\ c / 2 ^ j = 2 * i + 2 /\ c / 2 ^ S j = i + 1 /\
    (c - 1) / 2 ^ j = 2 * i + 1)%nat.
Proof.
  intros Hc Hpos He. pose proof (pow2_pos j).
  assert (c / 2 ^ j = d)%nat as Hq by (rewrite Hc; apply Nat.div_mul; lia).
  rewrite Hq in He. apply Nat.even_spec in He as [m Hm].
  assert (0 < m)%nat by (destruct m; lia). exists (m - 1)%nat.
  assert (d = 2 * (m - 1) + 2)%nat as Hd by lia. split_and!; [lia|lia| |].
  - rewrite div_pow2_S, Hq, Hm, Nat.mul_comm, Nat.div_mul; lia.
  - rewrite Hc, div_before by lia. lia.
Qed.

Lemma leaf_step pbranch inner l x pos ml j h matchh mutated branch :
  inner_ok inner l -> Forall V (l ++ [x]) -> (j < 32)%nat ->
  Nat.even ((length l + 1) / 2 ^ j) = true ->
  loop_inv pbranch l x pos ml j h matchh mutated branch ->
  exists i, inner !! j = Some i /\ hash_pair i h = Some (f i h) /\
    let '(matchh', branch') := push_branch pbranch ml j i h matchh branch in
    loop_inv pbranch l x pos ml (S j) (f i h) matchh' (mutated || bool_decide (i = h)) branch'.
Proof.
  intros [Hli Hin] HV Hj He ([d Hd]&Hh&Hmu&Hma).
  destruct (even_quotient _ _ _ Hd ltac:(lia) He) as (i&Ec&Eq&Eq'&Eb).
  rewrite Nat.add_sub in Eb.
  assert (length l = (2 * i + 2) * 2 ^ j - 1)%nat as El by lia. pose proof (pow2_pos j).
  assert (length (l ++ [x]) = (2 * i + 2) * 2 ^ j)%nat as El' by (rewrite length_app; cbn [length]; lia).
  set (L := tree_root j (block (l ++ [x]) j (2 * i))).
  assert (h = tree_root j (block (l ++ [x]) j (2 * i + 1))) as Hh'.
  { rewrite Hh, Eq. by replace (2 * i + 2 - 1)%nat with (2 * i + 1)%nat by lia. }
  exists L.
  assert (inner !! j = Some L) as HL.
  { rewrite Hin; [|rewrite Eb; apply Nat.odd_spec; by exists i|done].
    rewrite Eb, Nat.add_sub. unfold L. by rewrite block_app by nia. }
  assert (V L /\ V h) as [VL Vh] by (rewrite Hh'; split; apply block_valid; (done || nia)).
  split; [done|]. split; [by apply hash_ok|].
  assert (f L h = tree_root (S j) (block (l ++ [x]) (S j) ((length l + 1) / 2 ^ S j - 1))) as EH.
  { rewrite Eq', Nat.add_sub, tree_root_S by lia. by rewrite Hh'. }
  assert (loop_mutated l x (S j) (mutated || bool_decide (L = h))) as Hmu'.
  { unfold loop_mutated in *. rewrite orb_true_iff, bool_decide_eq_true, Hmu. split.
    - intros [[?|(k&Hk&E)]|E]; [by left|right; exists k; split; [lia|done]|].
      right. exists j. split; [lia|]. cbv zeta. rewrite Eq. rewrite Hh' in E.
      replace (2 * i + 2 - 2)%nat with (2 * i)%nat by lia.
      by replace (2 * i + 2 - 1)%nat with (2 * i + 1)%nat by lia.
    - intros [?|(k&Hk&E)]; [by left; left|]. destruct (decide (k = j)) as [->|].
      + right. cbv zeta in E. rewrite Eq in E. rewrite Hh'. unfold L.
        replace (2 * i + 2 - 2)%nat with (2 * i)%nat in E by lia.
        by replace (2 * i + 2 - 1)%nat with (2 * i + 1)%nat in E by lia.
      + left. right. exists k. split; [lia|done]. }
  assert (Nat.divide (2 ^ S j) (length l + 1)) as Hdv by (exists (i + 1)%nat; rewrite pow2_S; lia).
  assert (pbranch = true ->
    let '(matchh', branch') := push_branch pbranch ml j L h matchh branch in
    loop_match l x pos ml (S j) matchh' branch') as Hma'.
  2: { destruct (push_branch _ _ _ _ _ _ _) as [matchh' branch']. by split_and!. }
  intros Hpb. specialize (Hma Hpb). unfold push_branch. rewrite Hpb. unfold loop_match in *.
  cbv zeta in *. rewrite Eq in Hma. rewrite Eq'. rewrite !div_pow2_S, Nat.add_sub.
  destruct matchh.
  - destruct Hma as [Ep Eb']. replace (2 * i + 2 - 1)%nat with (2 * i + 1)%nat in Ep by lia.
    assert (pos / 2 ^ j / 2 = i)%nat as ->.
    { rewrite Ep. symmetry. apply (Nat.div_unique _ _ _ 1); lia. }
    split; [done|]. rewrite tree_branch_S by lia.
    destruct (decide _) as [?|_]; [lia|]. by rewrite Eb', Ep.
  - destruct Hma as [Hne Hok]. destruct (Z.eqb_spec ml (Z.of_nat j)) as [E|E].
    + unfold match_ok in Hok. destruct (decide _); [|destruct Hok; lia].
      destruct Hok as (b&Eml&Hodd&Epb&Ebr). assert (b = j) as -> by lia. rewrite Eb in Epb.
      replace (2 * i + 1 - 1)%nat with (2 * i)%nat in Epb by lia.
      assert (pos / 2 ^ j / 2 = i)%nat as ->.
      { rewrite Epb, Nat.mul_comm. apply Nat.div_mul. lia. }
      split; [done|]. rewrite tree_branch_S by lia.
      destruct (decide _) as [_|?]; [|lia]. rewrite Ebr, Epb, Hh'.
      by rewrite (block_app l [x] j (2 * i)) by nia.
    + split; [|done]. intros E2.
      assert (pos / 2 ^ j = 2 * i)%nat as Epb.
      { pose proof (Nat.div_mod_eq (pos / 2 ^ j) 2).
        pose proof (Nat.mod_upper_bound (pos / 2 ^ j) 2 ltac:(lia)). lia. }
      unfold match_ok in Hok. destruct (decide _) as [Hlt|Hge].
      * destruct Hok as (b&Eml&Hodd&Epb'&_). apply E. rewrite Eml. f_equal.
        apply (match_unique (length l) pos b j); [done|done| |].
        -- rewrite Eb. apply Nat.odd_spec. by exists i.
        -- lia.
      * apply Hge. rewrite El. pose proof (Nat.div_mod_eq pos (2 ^ j)).
        pose proof (Nat.mod_upper_bound pos (2 ^ j) ltac:(lia)). nia.
Qed.

Lemma leaf_loop_ok fuel pbranch inner l x pos ml j h matchh mutated branch :
  inner_ok inner l -> Forall V (l ++ [x]) -> Z.of_nat (length l) + 1 < 2 ^ 32 -> (32 <= fuel + j)%nat ->
  loop_inv pbranch l x pos ml j h matchh mutated branch ->
  exists j' h' matchh' mutated' branch',
    leaf_loop hash_pair fuel pbranch inner ml (Z.of_nat (length l + 1)) j h matchh mutated branch =
      Some (j', h', matchh', mutated', branch') /\ (j' < 32)%nat /\
    Nat.odd ((length l + 1) / 2 ^ j') = true /\
    loop_inv pbranch l x pos ml j' h' matchh' mutated' branch'.
Proof.
  intros Hin HV Hlen. revert j h matchh mutated branch.
  induction fuel as [|fuel IH]; intros j h matchh mutated branch Hf Hinv.
  all: assert (j < 32)%nat as Hj by
    (destruct Hinv as [[d Hd] _]; destruct (decide (j < 32)%nat) as [|Hge]; [done|];
     assert (2 ^ 32 <= Z.of_nat (2 ^ j)) by (rewrite Nat2Z.inj_pow; apply Z.pow_le_mono_r; lia);
     destruct d; nia).
  - lia.
  - cbn [leaf_loop]. rewrite bit_clear_even by done. cbn [mbind option_bind].
    destruct (Nat.even _) eqn:He.
    2: { exists j, h, matchh, mutated, branch. split_and!; try done. by rewrite <- Nat.negb_even, He. }
    destruct (leaf_step pbranch inner l x pos ml j h matchh mutated branch) as (i&->&Eh&Hinv'); try done.
    cbn [mbind option_bind]. destruct (push_branch _ _ _ _ _ _ _) as [matchh' branch'].
    rewrite Eh. cbn [mbind option_bind]. apply IH; [lia|done].
Qed.

Lemma pow2_divide a b : (a <= b)%nat -> Nat.divide (2 ^ a) (2 ^ b).
Proof. intros H. exists (2 ^ (b - a))%nat. rewrite <- Nat.pow_add_r. f_equal. lia. Qed.

(** The number of trailing zeros [j] of [c]. *)
Lemma divide_trailing c j k :
  (0 < c)%nat -> Nat.divide (2 ^ j) c -> Nat.odd (c / 2 ^ j) = true ->
  (Nat.divide (2 ^ k) c <-> (k <= j)%nat).
Proof.
  intros Hc Hj Hodd. split.
  - intros Hk. destruct (decide (k <= j)%nat) as [|Hgt]; [done|]. exfalso.
    assert (Nat.divide (2 ^ S j) c) as [d Hd].
    { eapply Nat.divide_trans; [|exact Hk]. apply pow2_divide. lia. }
    rewrite pow2_S in Hd. replace (d * (2 * 2 ^ j))%nat with ((2 * d) * 2 ^ j)%nat in Hd by lia.
    pose proof (pow2_pos j). rewrite Hd, Nat.div_mul in Hodd by lia.
    rewrite Nat.odd_mul in Hodd. done.
  - intros Hk. eapply Nat.divide_trans; [|exact Hj]. by apply pow2_divide.
Qed.

Lemma odd_divide c b : Nat.odd (c / 2 ^ b) = true -> (0 < c)%nat.
Proof. intros H. destruct c; [|lia]. by rewrite Nat.Div0.div_0_l in H. Qed.

(** [inner] and the match after the new subtree has been stored. *)
Lemma inner_ok_store inner l x j :
  inner_ok inner l -> (j < 32)%nat -> Nat.divide (2 ^ j) (length l + 1) ->
  Nat.odd ((length l + 1) / 2 ^ j) = true ->
  inner_ok (<[j := tree_root j (block (l ++ [x]) j ((length l + 1) / 2 ^ j - 1))]> inner) (l ++ [x]).
Proof.
  intros [Hl Hin] Hj Hd Hodd. split; [by rewrite length_insert|].
  rewrite length_app. cbn [length]. intros b Hb Hb32.
  destruct (decide (b = j)) as [->|Hne].
  { by rewrite list_lookup_insert_eq by lia. }
  rewrite list_lookup_insert_ne by done.
  assert (~ Nat.divide (2 ^ S b) (length l + 1))%nat as Hnd.
  { intros [d Hd']. rewrite Hd', pow2_S in Hb. replace (d * (2 * 2 ^ b))%nat with ((2 * d) * 2 ^ b)%nat in Hb by lia.
    pose proof (pow2_pos b). rewrite Nat.div_mul, Nat.odd_mul in Hb by lia. done. }
  assert (j < b)%nat as Hjb.
  { destruct (decide (j < b)%nat) as [|Hge]; [done|]. exfalso. apply Hnd.
    eapply Nat.divide_trans; [|exact Hd]. apply pow2_divide. lia. }
  assert (~ Nat.divide (2 ^ b) (length l + 1))%nat as Hnd'.
  { intros H%(divide_trailing _ j); [lia|lia|done|done]. }
  rewrite (div_same _ _ Hnd') in Hb |- *. rewrite Hin by done. f_equal. f_equal.
  pose proof (odd_divide _ _ Hb). pose proof (pow2_pos b).
  symmetry. apply block_app.
  assert (0 < length l / 2 ^ b)%nat by (destruct (length l / 2 ^ b)%nat; [done|lia]).
  pose proof (Nat.Div0.mul_div_le (length l) (2 ^ b)). nia.
Qed.

Lemma match_ok_store l x pos ml j matchh branch :
  Nat.divide (2 ^ j) (length l + 1) -> Nat.odd ((length l + 1) / 2 ^ j) = true ->
  loop_match l x pos ml j matchh branch ->
  match_ok (l ++ [x]) pos (if matchh then Z.of_nat j else ml) branch.
Proof.
  intros Hd Hodd. pose proof (pow2_pos j). unfold loop_match, match_ok. cbv zeta.
  rewrite length_app. cbn [length]. pose proof (Nat.div_mod_eq pos (2 ^ j)) as Edm.
  pose proof (Nat.mod_upper_bound pos (2 ^ j) ltac:(lia)).
  pose proof Hd as [d Ed]. assert ((length l + 1) / 2 ^ j = d)%nat as Eq by (rewrite Ed; apply Nat.div_mul; lia).
  assert (0 < d)%nat by (destruct d; lia).
  destruct matchh.
  - intros [Ep Ebr]. rewrite Eq in Ep. destruct (decide _) as [_|Hge]; [|exfalso; apply Hge; nia].
    exists j. split; [done|]. unfold match_at. rewrite length_app. cbn [length].
    split_and!; [done|by rewrite Eq|done].
  - intros [Hne Hok]. destruct (decide (pos < length l)%nat) as [Hlt|Hge].
    2: { destruct (decide _) as [Hlt|_]; [|done]. exfalso. apply Hne.
         assert (pos = length l) as -> by lia. rewrite Eq. replace (length l) with (d * 2 ^ j - 1)%nat by lia.
         by apply div_before. }
    destruct (decide _) as [_|?]; [|lia]. destruct Hok as (b&->&Hob&Epb&Ebr). exists b. split; [done|].
    unfold match_at. rewrite length_app. cbn [length].
    assert (~ Nat.divide (2 ^ b) (length l + 1))%nat as Hnd.
    { intros Hb. pose proof Hb as [e Ee]. pose proof (pow2_pos b).
      apply (divide_trailing _ j b) in Hb; [|lia|done|done].
      assert (length l / 2 ^ b = e - 1)%nat as Eb.
      { replace (length l) with (e * 2 ^ b - 1)%nat by lia. apply div_before. destruct e; lia. }
      apply Hne. rewrite Eq.
      (* the leaf is in the block of the new subtree *)
      rewrite Eb in Epb, Hob. apply Nat.odd_spec in Hob as [m Hm].
      assert (b <> j). { intros ->. rewrite Eq in Hodd. apply Nat.odd_spec in Hodd as [m' Hm']. nia. }
      replace j with (S b + (j - S b))%nat in Eq |- * by lia.
      rewrite Nat.pow_add_r, <- !Nat.Div0.div_div, !div_pow2_S in Eq |- *.
      rewrite Epb. replace (e - 1 - 1)%nat with (m * 2)%nat by lia. rewrite Nat.div_mul by lia.
      assert ((length l + 1) / 2 ^ b = e)%nat as Ee' by (rewrite Ee; apply Nat.div_mul; lia).
      rewrite Ee' in Eq. replace e with ((m + 1) * 2)%nat in Eq by lia. rewrite Nat.div_mul in Eq by lia.
      assert (Nat.divide (2 ^ (j - S b)) (m + 1)) as [g Hg].
      { assert (2 ^ j = 2 ^ (j - S b) * (2 * 2 ^ b))%nat as Ej.
        { rewrite <- pow2_S, <- Nat.pow_add_r. f_equal. lia. }
        exists d. assert ((m + 1) * (2 * 2 ^ b) = d * 2 ^ (j - S b) * (2 * 2 ^ b))%nat by nia. nia. }
      rewrite Hg, Nat.div_mul in Eq by (pose proof (pow2_pos (j - S b)); lia).
      replace m with (g * 2 ^ (j - S b) - 1)%nat by lia. rewrite <- Eq. apply div_before.
      destruct g; lia. }
    rewrite (div_same _ _ Hnd). split_and!; [done|done|].
    rewrite Ebr. f_equal. rewrite Epb. symmetry. apply block_app.
    assert (0 < length l / 2 ^ b)%nat by (destruct (length l / 2 ^ b)%nat; [done|lia]).
    pose proof (Nat.Div0.mul_div_le (length l) (2 ^ b)). nia.
Qed.

Definition state_ok (pbranch : bool) (pos : nat) (l : list uint256) (st : mstate) : Prop :=
  m_count st = Z.of_nat (length l) /\ inner_ok (m_inner st) l /\
  (m_mutated st = true <-> tree_mutated l) /\
  (pbranch = true -> match_ok l pos (m_matchlevel st) (m_branch st)).

Lemma loop_inv_start pbranch branchpos pos l x st :
  (pbranch = true -> branchpos = Z.of_nat pos) -> state_ok pbranch pos l st ->
  loop_inv pbranch l x pos (m_matchlevel st) 0 x (m_count st =? branchpos) (m_mutated st) (m_branch st).
Proof.
  intros Hpos (Hc&_&Hmu&Hma). unfold loop_inv, loop_mutated, loop_match. cbv zeta.
  change (2 ^ 0)%nat with 1%nat. rewrite Nat.div_1_r, Nat.add_sub. split_and!.
  - apply Nat.divide_1_l.
  - cbn [Merkle.tree_root]. unfold block. change (2 ^ 0)%nat with 1%nat.
    by rewrite Nat.mul_1_r, drop_app_length.
  - rewrite Hmu. split; [by left|]. intros [?|(k&?&_)]; [done|lia].
  - intros Hpb. specialize (Hpos Hpb). specialize (Hma Hpb). subst branchpos. rewrite Hc.
    unfold match_ok in Hma. rewrite !Nat.div_1_r. destruct (Z.eqb_spec (Z.of_nat (length l)) (Z.of_nat pos)) as [E|E].
    + destruct (decide _); [lia|]. destruct Hma as [_ ->]. cbn [Merkle.tree_branch]. split; [lia|done].
    + split; [lia|done].
Qed.

Lemma add_leaf_ok pbranch branchpos pos l x st :
  (pbranch = true -> branchpos = Z.of_nat pos) ->
  Forall V (l ++ [x]) -> Z.of_nat (length l) + 1 < 2 ^ 32 -> state_ok pbranch pos l st ->
  exists st', add_leaf hash_pair pbranch branchpos st x = Some st' /\ state_ok pbranch pos (l ++ [x]) st'.
Proof.
  intros Hpos HV Hlen Hst. pose proof (loop_inv_start pbranch branchpos pos l x st Hpos Hst) as Hinv.
  destruct Hst as (Hc&Hin&Hmu&Hma). unfold add_leaf.
  replace (u32 (m_count st + 1)) with (Z.of_nat (length l + 1))
    by (rewrite Hc; unfold u32; rewrite Z.mod_small by lia; lia).
  destruct (leaf_loop_ok 32 pbranch (m_inner st) l x pos (m_matchlevel st) 0 x _ _ _ Hin HV Hlen ltac:(lia) Hinv)
    as (j&h&mh&mu&br&->&Hj&Hodd&(Hd&Hh&Hmu'&Hma')).
  cbn [mbind option_bind]. destruct (Nat.ltb_spec j (length (m_inner st))) as [_|Hge].
  2: { destruct Hin as [Hl _]. lia. }
  eexists. split; [done|]. unfold state_ok. cbn [m_count m_inner m_mutated m_matchlevel m_branch].
  split_and!.
  - by rewrite length_app.
  - rewrite Hh. by apply inner_ok_store.
  - unfold loop_mutated in Hmu'. rewrite Hmu', tree_mutated_snoc.
    apply or_iff_compat_l. apply exist_proper. intros k.
    rewrite (divide_trailing _ j) by (done || lia). apply and_iff_compat_r. lia.
  - intros Hpb. apply (match_ok_store l x pos (m_matchlevel st)); [done|done|by apply Hma'].
Qed.

Lemma add_leaves_ok pbranch branchpos pos l l' st :
  (pbranch = true -> branchpos = Z.of_nat pos) ->
  Forall V (l ++ l') -> Z.of_nat (length (l ++ l')) < 2 ^ 32 -> state_ok pbranch pos l st ->
  exists st', add_leaves hash_pair pbranch branchpos st l' = Some st' /\ state_ok pbranch pos (l ++ l') st'.
Proof.
  intros Hpos. unfold add_leaves. revert l st. induction l' as [|x l' IH]; intros l st HV Hlen Hst.
  - exists st. by rewrite app_nil_r.
  - assert (l ++ x :: l' = (l ++ [x]) ++ l') as E by (by rewrite <- app_assoc). rewrite E in *.
    destruct (add_leaf_ok pbranch branchpos pos l x st) as (st1&E1&Hst1); try done.
    + by apply Forall_app in HV as [? _].
    + rewrite !length_app in Hlen. cbn [length] in Hlen. lia.
    + cbn [foldl mbind option_bind]. rewrite E1. by apply IH.
Qed.

Lemma state_ok_init pbranch pos : state_ok pbranch pos [] (MState 0 (replicate 32 uint256_zero) (-1) false []).
Proof.
  split_and!; cbn [m_count m_inner m_mutated m_matchlevel m_branch length].
  - done.
  - split; [done|]. cbn [length]. intros b Hb _. by rewrite Nat.Div0.div_0_l in Hb.
  - split; [done|]. intros (k&i&Hl&_). pose proof (pow2_pos k). cbn [length] in Hl. nia.
  - intros _. unfold match_ok. cbn [length]. destruct (decide _); [lia|done].
Qed.

(** ** The final sweep *)

(** The number of nodes at level [j]. *)
Definition nodes (n j : nat) : nat := ((n + 2 ^ j - 1) / 2 ^ j)%nat.

Lemma nodes_bounds n j :
  (0 < n)%nat -> (0 < nodes n j /\ (nodes n j - 1) * 2 ^ j < n <= nodes n j * 2 ^ j)%nat.
Proof.
  intros Hn. unfold nodes. pose proof (pow2_pos j).
  pose proof (Nat.div_mod_eq (n + 2 ^ j - 1) (2 ^ j)) as E.
  pose proof (Nat.mod_upper_bound (n + 2 ^ j - 1) (2 ^ j) ltac:(lia)).
  destruct ((n + 2 ^ j - 1) / 2 ^ j)%nat as [|q]; [lia|]. split; [lia|].
  rewrite Nat.sub_succ, Nat.sub_0_r. lia.
Qed.

Lemma nodes_unique n j c : (0 < c)%nat -> ((c - 1) * 2 ^ j < n <= c * 2 ^ j)%nat -> nodes n j = c.
Proof.
  intros Hc H. unfold nodes. pose proof (pow2_pos j). symmetry.
  apply (Nat.div_unique _ _ _ (n + 2 ^ j - 1 - c * 2 ^ j)); nia.
Qed.

(** What is at level [j]: the last node, the rest of the leaves and the match. *)
Definition sweep_match (l : list uint256) (pos : nat) (ml : Z) (j : nat) (matchh : bool)
    (branch : list uint256) : Prop :=
  let c := nodes (length l) j in
  if matchh then (pos / 2 ^ j = c - 1)%nat /\
    branch = tree_branch j (drop ((c - 1) * 2 ^ j) l) (pos mod 2 ^ j)
  else (pos / 2 ^ j < c - 1)%nat /\ exists b, ml = Z.of_nat b /\ match_at l pos b branch.

Definition sweep_inv (pbranch : bool) (l : list uint256) (pos : nat) (ml : Z) (j : nat) (h : uint256)
    (matchh : bool) (branch : list uint256) : Prop :=
  h = tree_root j (drop ((nodes (length l) j - 1) * 2 ^ j) l) /\
  (j = 0%nat \/ (2 ^ j < 2 * length l)%nat) /\
  (pbranch = true -> (pos < length l)%nat -> sweep_match l pos ml j matchh branch).

Lemma mod_pow2_S pos j : (pos mod 2 ^ S j = (pos / 2 ^ j) mod 2 * 2 ^ j + pos mod 2 ^ j)%nat.
Proof.
  rewrite pow2_S, Nat.mul_comm, Nat.Div0.mod_mul_r, (Nat.mul_comm (2 ^ j)). lia.
Qed.

Lemma sweep_dup pbranch l pos ml j h matchh branch :
  Forall V l -> (0 < length l)%nat -> Nat.odd (nodes (length l) j) = true -> nodes (length l) j <> 1%nat ->
  sweep_inv pbranch l pos ml j h matchh branch ->
  hash_pair h h = Some (f h h) /\
  sweep_inv pbranch l pos ml (S j) (f h h) matchh (if pbranch && matchh then branch ++ [h] else branch) /\
  (nodes (length l) (S j) * 2 ^ S j = nodes (length l) j * 2 ^ j + 2 ^ j /\
   length l < nodes (length l) (S j) * 2 ^ S j)%nat.
Proof.
  intros HV Hn Hodd H1 (Hh&Hj&Hma). pose proof (pow2_pos j) as Hp.
  destruct (nodes_bounds (length l) j Hn) as (Hc&Hlo&Hhi).
  apply Nat.odd_spec in Hodd as [m Hm].
  assert (nodes (length l) (S j) = m + 1)%nat as Ec.
  { apply nodes_unique; [lia|]. rewrite pow2_S. nia. }
  assert ((nodes (length l) (S j) - 1) * 2 ^ S j = (nodes (length l) j - 1) * 2 ^ j)%nat as Es.
  { rewrite Ec, Hm, pow2_S. nia. }
  set (r := drop ((nodes (length l) j - 1) * 2 ^ j) l) in *.
  assert (length r <= 2 ^ j /\ 0 < length r)%nat as [Hr Hr0] by (subst r; rewrite length_drop; nia).
  assert (V h) as Vh.
  { rewrite Hh. apply tree_root_valid; [by apply Forall_drop|]. intros E. rewrite E in Hr0. cbn [length] in Hr0. lia. }
  split; [by apply hash_ok|]. split.
  2: { rewrite Ec, pow2_S, Hm. nia. }
  split_and!.
  - rewrite Es. fold r. cbn [Merkle.tree_root]. destruct (Nat.leb_spec (length r) (2 ^ j)); [|lia]. by rewrite Hh.
  - right. rewrite pow2_S. nia.
  - intros Hpb Hpos. specialize (Hma Hpb Hpos). unfold sweep_match in *. cbv zeta in *. rewrite Hpb, Es. fold r in Hma |- *.
    rewrite Ec. rewrite div_pow2_S, Nat.add_sub. destruct matchh; cbn [andb].
    + destruct Hma as [Ep Ebr]. rewrite Hm in Ep. replace (2 * m + 1 - 1)%nat with (m * 2)%nat in Ep by lia.
      split; [rewrite Ep; apply Nat.div_mul; lia|]. cbn [Merkle.tree_branch].
      destruct (Nat.leb_spec (length r) (2 ^ j)); [|lia].
      rewrite mod_pow2_S, Ep, Nat.Div0.mod_mul, Nat.mul_0_l, Nat.add_0_l. by rewrite Ebr, Hh.
    + destruct Hma as [Hlt Hb]. split; [|done]. apply Nat.Div0.div_lt_upper_bound. lia.
Qed.

Lemma sweep_combine pbranch inner l pos ml j h matchh branch :
  inner_ok inner l -> Forall V l -> (0 < length l)%nat -> (j < 32)%nat ->
  Nat.even (nodes (length l) j) = true -> (length l < nodes (length l) j * 2 ^ j)%nat ->
  sweep_inv pbranch l pos ml j h matchh branch ->
  exists i, inner !! j = Some i /\ hash_pair i h = Some (f i h) /\
    (let '(matchh', branch') := push_branch pbranch ml j i h matchh branch in
     sweep_inv pbranch l pos ml (S j) (f i h) matchh' branch') /\
    (nodes (length l) (S j) * 2 ^ S j = nodes (length l) j * 2 ^ j)%nat.
Proof.
  intros [_ Hin] HV Hn Hj32 Heven Hpart (Hh&Hj&Hma). pose proof (pow2_pos j) as Hp.
  destruct (nodes_bounds (length l) j Hn) as (Hc&Hlo&Hhi).
  apply Nat.even_spec in Heven as [m' Hm']. assert (exists m, m' = m + 1)%nat as [m ->] by (exists (m' - 1)%nat; lia).
  assert (nodes (length l) j = 2 * m + 2)%nat as Hm by lia. clear Hm'. rewrite Hm in *.
  assert (nodes (length l) (S j) = m + 1)%nat as Ec by (apply nodes_unique; [lia|]; rewrite pow2_S; nia).
  assert (length l / 2 ^ j = 2 * m + 1)%nat as Eq.
  { symmetry. apply (Nat.div_unique _ _ _ (length l - (2 * m + 1) * 2 ^ j)); nia. }
  assert (Nat.odd (length l / 2 ^ j) = true) as Hodd by (rewrite Eq; apply Nat.odd_spec; by exists m).
  set (L := tree_root j (block l j (2 * m))). exists L.
  assert (inner !! j = Some L) as HL by (rewrite Hin by done; rewrite Eq, Nat.add_sub; done).
  replace (2 * m + 2 - 1)%nat with (2 * m + 1)%nat in * by lia.
  set (r := drop (m * 2 ^ S j) l).
  assert (take (2 ^ j) r = block l j (2 * m) /\ drop (2 ^ j) r = drop ((2 * m + 1) * 2 ^ j) l) as [Et Ed].
  { subst r. unfold block. rewrite drop_drop, pow2_S. split; [f_equal|]; f_equal; lia. }
  assert (2 ^ j < length r)%nat as Hr by (subst r; rewrite length_drop, pow2_S; nia).
  assert (V L /\ V h) as [VL Vh].
  { split; [apply block_valid; [done|nia]|]. rewrite Hh. apply tree_root_valid; [by apply Forall_drop|].
    intros E%(f_equal length). rewrite length_drop in E. cbn [length] in E. lia. }
  split; [done|]. split; [by apply hash_ok|]. split; [|rewrite Ec, pow2_S; lia].
  assert (f L h = tree_root (S j) r) as EH.
  { cbn [Merkle.tree_root]. destruct (Nat.leb_spec (length r) (2 ^ j)); [lia|]. by rewrite Et, Ed, <- Hh. }
  assert (pbranch = true -> (pos < length l)%nat ->
    let '(matchh', branch') := push_branch pbranch ml j L h matchh branch in
    sweep_match l pos ml (S j) matchh' branch') as Hma'.
  2: { destruct (push_branch _ _ _ _ _ _ _) as [matchh' branch'].
       split_and!; [by rewrite Ec, Nat.add_sub|right; rewrite pow2_S; nia|done]. }
  intros Hpb Hpos. specialize (Hma Hpb Hpos). unfold push_branch. rewrite Hpb. unfold sweep_match in *.
  cbv zeta in *. rewrite Ec, Nat.add_sub. fold r. rewrite div_pow2_S. rewrite Hm in Hma.
  replace (2 * m + 2 - 1)%nat with (2 * m + 1)%nat in Hma by lia.
  assert (forall b, (b < 2)%nat -> (pos / 2 ^ j = 2 * m + b)%nat ->
    (pos / 2 ^ j / 2 = m)%nat /\ tree_branch (S j) r (pos mod 2 ^ S j) =
      if decide (b = 0)%nat then tree_branch j (block l j (2 * m)) (pos mod 2 ^ j) ++ [h]
      else tree_branch j (drop ((2 * m + 1) * 2 ^ j) l) (pos mod 2 ^ j) ++ [L]) as Hbr.
  { intros b Hb Ep. assert (pos / 2 ^ j / 2 = m)%nat as E2 by (rewrite Ep; symmetry; apply (Nat.div_unique _ _ _ b); lia).
    assert ((pos / 2 ^ j) mod 2 = b)%nat as E3 by (rewrite Ep; symmetry; apply (Nat.mod_unique _ _ m); lia).
    split; [done|]. cbn [Merkle.tree_branch]. destruct (Nat.leb_spec (length r) (2 ^ j)); [lia|].
    rewrite Et, Ed, <- Hh, mod_pow2_S, E3. pose proof (Nat.mod_upper_bound pos (2 ^ j) ltac:(lia)).
    destruct (decide (b = 0)%nat) as [->|].
    - rewrite Nat.mul_0_l, Nat.add_0_l. destruct (Nat.ltb_spec (pos mod 2 ^ j) (2 ^ j)); [done|lia].
    - assert (b = 1)%nat as -> by lia. rewrite Nat.mul_1_l.
      destruct (Nat.ltb_spec (2 ^ j + pos mod 2 ^ j) (2 ^ j)); [lia|].
      by replace (2 ^ j + pos mod 2 ^ j - 2 ^ j)%nat with (pos mod 2 ^ j)%nat by lia. }
  destruct matchh.
  - destruct Hma as [Ep Ebr]. destruct (Hbr 1%nat ltac:(lia) Ep) as [E1 E2]. rewrite E2.
    destruct (decide _) as [?|_]; [lia|]. by rewrite Ebr.
  - destruct Hma as [Hlt (b&Eml&Hob&Epb&Ebr)]. destruct (Z.eqb_spec ml (Z.of_nat j)) as [E|E].
    + assert (b = j) as -> by lia. rewrite Eq, Nat.add_sub in Epb.
      destruct (Hbr 0%nat ltac:(lia) ltac:(lia)) as [E1 E2]. rewrite E2.
      destruct (decide _) as [_|?]; [|lia]. split; [exact E1|]. by rewrite Ebr, Epb.
    + split; [|by exists b].
      assert (pos / 2 ^ j <> 2 * m)%nat.
      { intros Ep. apply E. rewrite Eml. f_equal. apply (match_unique (length l) pos b j); try done. lia. }
      apply Nat.Div0.div_lt_upper_bound. lia.
Qed.

(** Levels stay below 32 as long as there are at most 2^31 leaves. *)
Lemma level_bound (l : list uint256) j :
  Z.of_nat (length l) <= 2 ^ 31 -> j = 0%nat \/ (2 ^ j < 2 * length l)%nat -> (j < 32)%nat.
Proof.
  intros Hl [->|Hj]; [lia|]. destruct (decide (j < 32)%nat) as [|Hge]; [done|]. exfalso.
  assert (2 ^ 32 <= Z.of_nat (2 ^ j)) by (rewrite Nat2Z.inj_pow; apply Z.pow_le_mono_r; lia). lia.
Qed.

Lemma count_bound (l : list uint256) j :
  (0 < length l)%nat -> Z.of_nat (length l) <= 2 ^ 31 -> (j < 32)%nat ->
  Z.of_nat (nodes (length l) j * 2 ^ j) < 2 ^ 32.
Proof.
  intros Hn Hl Hj. destruct (nodes_bounds (length l) j Hn) as (Hc&Hlo&_).
  rewrite Nat2Z.inj_mul, Nat2Z.inj_pow. change (Z.of_nat 2) with 2.
  assert (Z.of_nat (nodes (length l) j) - 1 < 2 ^ (31 - Z.of_nat j)) as H.
  { apply (Z.mul_lt_mono_pos_r (2 ^ Z.of_nat j)); [lia|]. rewrite <- Z.pow_add_r by lia.
    replace (31 - Z.of_nat j + Z.of_nat j) with 31 by lia.
    assert (Z.of_nat ((nodes (length l) j - 1) * 2 ^ j) < 2 ^ 31) as H by lia.
    rewrite Nat2Z.inj_mul, Nat2Z.inj_pow, Nat2Z.inj_sub in H by lia. exact H. }
  assert (Z.of_nat (nodes (length l) j) * 2 ^ Z.of_nat j <= 2 ^ (31 - Z.of_nat j) * 2 ^ Z.of_nat j) as H2
    by (apply Z.mul_le_mono_nonneg_r; lia).
  rewrite <- Z.pow_add_r in H2 by lia. replace (31 - Z.of_nat j + Z.of_nat j) with 31 in H2 by lia. lia.
Qed.

Lemma u32_pow2 j : (j < 32)%nat -> u32 (1 << Z.of_nat j) = Z.of_nat (2 ^ j).
Proof.
  intros Hj. unfold u32. rewrite Z.shiftl_mul_pow2, Z.mul_1_l, Nat2Z.inj_pow by lia. apply Z.mod_small.
  split; [lia|]. apply Z.pow_lt_mono_r; lia.
Qed.

Lemma sweep_up_ok fuel pbranch inner l pos ml j h matchh branch count :
  inner_ok inner l -> Forall V l -> (0 < length l)%nat -> Z.of_nat (length l) <= 2 ^ 31 ->
  (32 <= fuel + j)%nat -> count = (nodes (length l) j * 2 ^ j)%nat -> (length l < count)%nat ->
  sweep_inv pbranch l pos ml j h matchh branch ->
  exists j' h' matchh' branch',
    sweep_up hash_pair fuel pbranch inner ml (Z.of_nat count) j h matchh branch =
      Some (j', h', matchh', branch') /\ (j <= j')%nat /\ Nat.odd (nodes (length l) j') = true /\
    count = (nodes (length l) j' * 2 ^ j')%nat /\
    sweep_inv pbranch l pos ml j' h' matchh' branch'.
Proof.
  intros Hin HV Hn Hl. revert j h matchh branch.
  induction fuel as [|fuel IH]; intros j h matchh branch Hf Hc Hpart Hinv.
  all: assert (j < 32)%nat as Hj by (destruct Hinv as (_&Hj&_); by apply (level_bound l)).
  { lia. }
  cbn [sweep_up]. rewrite bit_clear_even by done. cbn [mbind option_bind]. pose proof (pow2_pos j).
  assert (count / 2 ^ j = nodes (length l) j)%nat as -> by (rewrite Hc; apply Nat.div_mul; lia).
  destruct (Nat.even _) eqn:He.
  2: { exists j, h, matchh, branch. split_and!; try done. by rewrite <- Nat.negb_even, He. }
  destruct (sweep_combine pbranch inner l pos ml j h matchh branch) as (i&->&Eh&Hinv'&Ec); try done.
  { by rewrite <- Hc. }
  cbn [mbind option_bind]. destruct (push_branch _ _ _ _ _ _ _) as [matchh' branch'].
  rewrite Eh. cbn [mbind option_bind].
  destruct (IH (S j) (f i h) matchh' branch') as (j'&h'&mh&br&->&?&?&?&?); [lia|lia|done|done|].
  exists j', h', mh, br. split_and!; try done. lia.
Qed.

Lemma sweep_ok fuel pbranch inner l pos ml j h matchh branch :
  inner_ok inner l -> Forall V l -> (0 < length l)%nat -> Z.of_nat (length l) <= 2 ^ 31 ->
  (32 <= fuel + j)%nat -> Nat.odd (nodes (length l) j) = true ->
  sweep_inv pbranch l pos ml j h matchh branch ->
  exists branch',
    sweep hash_pair fuel pbranch inner ml (Z.of_nat (nodes (length l) j * 2 ^ j)) j h matchh branch =
      Some (tree_root (Nat.log2_up (length l)) l, branch') /\
    (pbranch = true -> (pos < length l)%nat ->
     branch' = tree_branch (Nat.log2_up (length l)) l pos).
Proof.
  intros Hin HV Hn Hl. revert j h matchh branch.
  induction fuel as [|fuel IH]; intros j h matchh branch Hf Hodd Hinv.
  all: pose proof Hinv as (Hh&Hj0&Hma).
  all: assert (j < 32)%nat as Hj by (by apply (level_bound l)).
  { lia. }
  cbn [sweep]. destruct (Nat.ltb_spec j 32) as [_|?]; [|lia]. rewrite u32_pow2 by done.
  destruct (nodes_bounds (length l) j Hn) as (Hc&Hlo&Hhi). pose proof (pow2_pos j).
  destruct (Z.eqb_spec (Z.of_nat (nodes (length l) j * 2 ^ j)) (Z.of_nat (2 ^ j))) as [E|E].
  - assert (nodes (length l) j = 1)%nat as E1 by nia. rewrite E1 in *.
    assert (Nat.log2_up (length l) = j) as ->.
    { destruct j as [|j]; [by rewrite Nat.log2_up_eqn0; cbn in *; lia|].
      destruct Hj0 as [?|Hj0]; [lia|]. rewrite pow2_S in *.
      apply Nat.log2_up_unique; [lia|]. rewrite Nat.pred_succ, pow2_S. lia. }
    rewrite Nat.mul_0_l, drop_0 in Hh || (cbn [Nat.sub Nat.mul] in Hh; rewrite drop_0 in Hh).
    exists branch. rewrite <- Hh. split; [done|]. intros Hpb Hpos. specialize (Hma Hpb Hpos).
    unfold sweep_match in Hma. cbv zeta in Hma. rewrite E1 in Hma. destruct matchh; [|lia].
    destruct Hma as [_ ->]. cbn [Nat.sub Nat.mul]. rewrite drop_0, Nat.mod_small by lia. done.
  - assert (nodes (length l) j <> 1)%nat as Hne by nia.
    destruct (sweep_dup pbranch l pos ml j h matchh branch HV Hn Hodd Hne Hinv) as (->&Hinv'&Ec&Hpart).
    cbn [mbind option_bind].
    assert (u32 (Z.of_nat (nodes (length l) j * 2 ^ j) + Z.of_nat (2 ^ j)) =
            Z.of_nat (nodes (length l) (S j) * 2 ^ S j)) as ->.
    { rewrite Ec. unfold u32. rewrite <- Nat2Z.inj_add, <- Ec. apply Z.mod_small. split; [lia|].
      destruct Hinv' as (_&Hj1&_). apply count_bound; [done|done|by apply (level_bound l)]. }
    destruct (sweep_up_ok 32 pbranch inner l pos ml (S j) (f h h) matchh
      (if pbranch && matchh then branch ++ [h] else branch) (nodes (length l) (S j) * 2 ^ S j)%nat)
      as (j'&h'&mh&br&->&Hjj&Hodd'&Ec'&Hinv''); try done; [lia|].
    cbn [mbind option_bind]. rewrite Ec'. apply IH; [lia|done|done].
Qed.

Lemma skip_levels_ok fuel c j :
  (0 < c)%nat -> Z.of_nat c < 2 ^ 32 -> (32 <= fuel + j)%nat -> Nat.divide (2 ^ j) c ->
  exists j', skip_levels fuel (Z.of_nat c) j = Some j' /\ (j' < 32)%nat /\ Nat.divide (2 ^ j') c /\
    Nat.odd (c / 2 ^ j') = true.
Proof.
  intros Hc Hlt. revert j. induction fuel as [|fuel IH]; intros j Hf Hd.
  all: assert (j < 32)%nat as Hj by
    (pose proof Hd as [d Ed]; destruct (decide (j < 32)%nat) as [|Hge]; [done|];
     assert (2 ^ 32 <= Z.of_nat (2 ^ j)) by (rewrite Nat2Z.inj_pow; apply Z.pow_le_mono_r; lia);
     destruct d; nia).
  { lia. }
  cbn [skip_levels]. rewrite bit_clear_even by done. cbn [mbind option_bind].
  destruct (Nat.even _) eqn:He.
  - apply IH; [lia|]. pose proof Hd as [d Ed]. destruct (even_quotient _ _ _ Ed Hc He) as (i&Ec&_).
    exists (i + 1)%nat. rewrite pow2_S. lia.
  - exists j. split_and!; try done. by rewrite <- Nat.negb_even, He.
Qed.

(** The whole computation on a non-empty list. *)
Lemma MerkleComputation_ok l branchpos pos pbranch :
  (pbranch = true -> branchpos = Z.of_nat pos) ->
  Forall V l -> (0 < length l)%nat -> Z.of_nat (length l) <= 2 ^ 31 ->
  exists mutated branch,
    MerkleComputation hash_pair l branchpos pbranch =
      Some (tree_root (Nat.log2_up (length l)) l, mutated, branch) /\
    (mutated = true <-> tree_mutated l) /\
    (pbranch = true -> (pos < length l)%nat -> branch = tree_branch (Nat.log2_up (length l)) l pos).
Proof.
  intros Hpos HV Hn Hl. unfold MerkleComputation. destruct (Nat.eqb_spec (length l) 0) as [?|_]; [lia|].
  destruct (add_leaves_ok pbranch branchpos pos [] l _ Hpos HV ltac:(cbn [app]; lia) (state_ok_init pbranch pos))
    as (st&->&(Hc&Hin&Hmu&Hma)). cbn [mbind option_bind app] in *. rewrite Hc.
  destruct (skip_levels_ok 32 (length l) 0 Hn ltac:(lia) ltac:(lia) (Nat.divide_1_l _)) as (j&->&Hj&Hd&Hodd).
  cbn [mbind option_bind]. pose proof (pow2_pos j). pose proof Hd as [d Ed].
  assert (length l / 2 ^ j = d)%nat as Eq by (rewrite Ed; apply Nat.div_mul; lia).
  assert (0 < d)%nat by (destruct d; lia).
  assert (nodes (length l) j = d) as Enod by (apply nodes_unique; [lia|]; nia).
  pose proof Hin as [_ Hin']. rewrite (Hin' j Hodd Hj). cbn [mbind option_bind]. cbv zeta.
  set (h := tree_root j (block l j _)). set (mh := m_matchlevel st =? Z.of_nat j).
  assert (drop ((d - 1) * 2 ^ j) l = block l j (d - 1)) as Eblk.
  { unfold block. rewrite take_ge; [done|]. rewrite length_drop. nia. }
  assert (sweep_inv pbranch l pos (m_matchlevel st) j h mh (m_branch st)) as Hinv.
  { split_and!.
    - subst h. by rewrite Enod, Eq, Eblk.
    - right. nia.
    - intros Hpb Hp. specialize (Hma Hpb). unfold match_ok in Hma.
      destruct (decide _) as [_|?]; [|lia]. destruct Hma as (b&Eml&Hm).
      unfold sweep_match. cbv zeta. rewrite Enod. subst mh.
      destruct (Z.eqb_spec (m_matchlevel st) (Z.of_nat j)) as [E|E].
      + assert (b = j) as -> by lia. destruct Hm as (_&Ep&Ebr). rewrite Eq in Ep.
        split; [done|]. rewrite Eblk. by rewrite Ebr, Ep.
      + split; [|by exists b].
        assert (pos / 2 ^ j <> d - 1)%nat.
        { intros Ep. apply E. rewrite Eml. f_equal. destruct Hm as (Hob&Epb&_).
          apply (match_unique (length l) pos b j); try done. by rewrite Eq. }
        assert (pos / 2 ^ j < d)%nat by (apply Nat.Div0.div_lt_upper_bound; lia). lia. }
  destruct (sweep_ok 32 pbranch (m_inner st) l pos (m_matchlevel st) j h mh (m_branch st))
    as (br&Es&Hbr); try done; [lia|by rewrite Enod, <- Eq|].
  rewrite Enod, <- Ed in Es. rewrite Es. cbn [mbind option_bind].
  exists (m_mutated st), br. done.
Qed.
End computation_proofs.

(** ** The hash function *)

Definition sha_pair (a b : uint256) : uint256 := sha256d (a ++ b).
Definition valid_hash (x : uint256) : Prop := length x = 32%nat /\ Forall byte x.

#[export] Instance valid_hash_dec x : Decision (valid_hash x).
Proof. unfold valid_hash. apply _. Defined.

Lemma sha_pair_ok mem a b :
  length mem = 64%nat -> valid_hash a -> valid_hash b ->
  Hash2 mem a b = Some (sha_pair a b) /\ valid_hash (sha_pair a b).
Proof.
  intros Hmem [La Ba] [Lb Bb]. split.
  - destruct (Hash_ok mem a b []) as (_&H&_); [done| | |by apply H].
    + rewrite app_nil_r. by apply Forall_app_2.
    + rewrite app_nil_r, length_app, La, Lb. done.
  - split; [apply length_sha256|apply sha256_bytes].
Qed.

(** ** Level by level

    The same root, computed as the comment of the source describes it: every level is
    built from the one below, the last node of an odd level is combined with itself. *)

Fixpoint level_up (f : uint256 -> uint256 -> uint256) (l : list uint256) : list uint256 :=
  match l with
  | a :: b :: l => f a b :: level_up f l
  | [a] => [f a a]
  | [] => []
  end.

Section levels.
Context (f : uint256 -> uint256 -> uint256).

Lemma list_ind2 {A} (P : list A -> Prop) :
  P [] -> (forall a, P [a]) -> (forall a b l, P l -> P (a :: b :: l)) -> forall l, P l.
Proof.
  intros H0 H1 H2 l. assert (P l /\ forall a, P (a :: l)) as [? _]; [|done].
  induction l as [|b l [IH1 IH2]]; [done|]. split; [apply IH2|]. intros a. apply H2, IH1.
Qed.

Lemma length_level_up l : length (level_up f l) = ((length l + 1) / 2)%nat.
Proof.
  induction l as [| |a b l IH] using list_ind2; [done|done|]. cbn [level_up length]. rewrite IH.
  replace (S (S (length l)) + 1)%nat with (length l + 1 + 1 * 2)%nat by lia. rewrite Nat.div_add; lia.
Qed.

Lemma level_up_take m l : level_up f (take (2 * m) l) = take m (level_up f l).
Proof.
  revert l. induction m as [|m IH]; intros l; [by rewrite !take_0|].
  replace (2 * S m)%nat with (S (S (2 * m))) by lia.
  destruct l as [|a [|b l]]; [done| |]; cbn [level_up take]; [by rewrite take_nil|]. by rewrite IH.
Qed.

Lemma level_up_drop m l : level_up f (drop (2 * m) l) = drop m (level_up f l).
Proof.
  revert l. induction m as [|m IH]; intros l; [by rewrite !drop_0|].
  replace (2 * S m)%nat with (S (S (2 * m))) by lia.
  destruct l as [|a [|b l]]; [done| |]; cbn [level_up drop]; [by rewrite drop_nil|]. by rewrite IH.
Qed.

Lemma tree_root_level_up k l :
  (0 < length l <= 2 ^ S k)%nat -> tree_root f (S k) l = tree_root f k (level_up f l).
Proof.
  revert l. induction k as [|k IH]; intros l [H0 Hl].
  - destruct l as [|a [|b [|]]]; [cbn in H0; lia|done|done|cbn in Hl; lia].
  - assert (length (level_up f l) <= 2 ^ k <-> length l <= 2 ^ S k)%nat as Hiff.
    { rewrite length_level_up, pow2_S. pose proof (Nat.div_mod_eq (length l + 1) 2).
      pose proof (Nat.mod_upper_bound (length l + 1) 2 ltac:(lia)). lia. }
    change (tree_root f (S (S k)) l) with
      (if (length l <=? 2 ^ S k)%nat then f (tree_root f (S k) l) (tree_root f (S k) l)
       else f (tree_root f (S k) (take (2 ^ S k) l)) (tree_root f (S k) (drop (2 ^ S k) l))).
    change (tree_root f (S k) (level_up f l)) with
      (if (length (level_up f l) <=? 2 ^ k)%nat
       then f (tree_root f k (level_up f l)) (tree_root f k (level_up f l))
       else f (tree_root f k (take (2 ^ k) (level_up f l))) (tree_root f k (drop (2 ^ k) (level_up f l)))).
    destruct (Nat.leb_spec (length l) (2 ^ S k)) as [Hle|Hgt];
      destruct (Nat.leb_spec (length (level_up f l)) (2 ^ k)) as [Hle'|Hgt']; try lia.
    + by rewrite IH by lia.
    + rewrite <- level_up_take, <- level_up_drop, <- pow2_S. rewrite (pow2_S (S k)) in Hl.
      rewrite !IH; [done| |]; rewrite ?length_take, ?length_drop; lia.
Qed.

(** Climbing [log2_up n] levels leaves the root. *)
Lemma merkle_root_levels l :
  (0 < length l)%nat ->
  Nat.iter (Nat.log2_up (length l)) (level_up f) l = [merkle_root f l].
Proof.
  intros Hn. unfold merkle_root. destruct (Nat.eqb_spec (length l) 0) as [?|_]; [lia|].
  assert (forall k l, (0 < length l <= 2 ^ k)%nat -> Nat.iter k (level_up f) l = [tree_root f k l]) as H.
  { clear. induction k as [|k IH]; intros l [H0 Hl].
    - destruct l as [|a [|]]; [cbn in H0; lia|done|cbn in Hl; lia].
    - rewrite Nat.iter_succ_r, IH, tree_root_level_up; [done|lia|].
      rewrite length_level_up. rewrite pow2_S in Hl. pose proof (Nat.div_mod_eq (length l + 1) 2).
      pose proof (Nat.mod_upper_bound (length l + 1) 2 ltac:(lia)). lia. }
  apply H. split; [done|]. destruct (decide (length l = 1)%nat) as [->|]; [done|].
  apply Nat.log2_up_spec. lia.
Qed.
End levels.

(** C3: For every list of at most 2^31 leaves the constant-space computation ends without
    reading outside its array or shifting by the width of the counter, and returns the
    root of the Merkle tree: the value that remains when the levels are computed one after
    the other, with the last node of an odd level combined with itself. The mutation flag
    is set exactly when two complete sibling subtrees have the same root. *)
Theorem merkle_root_spec mem leaves :
  length mem = 64%nat -> Forall valid_hash leaves -> Z.of_nat (length leaves) <= 2 ^ 31 ->
  exists mutated,
    ComputeMerkleRoot mem leaves = Some (merkle_root sha_pair leaves, mutated) /\
    (mutated = true <-> tree_mutated sha_pair leaves) /\
    (leaves <> [] ->
     Nat.iter (Nat.log2_up (length leaves)) (level_up sha_pair) leaves = [merkle_root sha_pair leaves]).
Proof.
  intros Hmem HV Hl. unfold ComputeMerkleRoot. destruct (decide (0 < length leaves)%nat) as [Hn|Hn].
  - destruct (MerkleComputation_ok sha_pair (Hash2 mem) valid_hash (fun a b => sha_pair_ok mem a b Hmem)
      leaves (u32 (-1)) 0 false) as (mutated&branch&->&Hmu&_); try done.
    exists mutated. cbn [mbind option_bind]. split_and!; [|done|].
    + unfold merkle_root. destruct (Nat.eqb_spec (length leaves) 0); [lia|done].
    + intros _. by apply merkle_root_levels.
  - destruct leaves; [|cbn in Hn; lia]. exists false. split_and!; [done| |done].
    split; [done|]. intros (k&i&H&_). pose proof (pow2_pos k). cbn [length] in H. nia.
Qed.

(** Three leaves. *)
Lemma merkle_root_spec_witness :
  exists mutated,
    ComputeMerkleRoot (replicate 64 0) [replicate 32 1; replicate 32 2; replicate 32 3] =
      Some (merkle_root sha_pair [replicate 32 1; replicate 32 2; replicate 32 3], mutated).
Proof.
  destruct (merkle_root_spec (replicate 64 0) [replicate 32 1; replicate 32 2; replicate 32 3])
    as (m&Hm&_); [done| |done|by exists m].
  by repeat (apply Forall_cons_2; [split; [done|]; by apply Forall_replicate|]).
Defined.

(** ** Branches *)

(** One element of the branch. *)
Definition branch_step (mem : list Z) (r : option (uint256 * Z)) (it : uint256) : option (uint256 * Z) :=
  '(hash, nIndex) ← r;
  hash ← (if nIndex .& 1 =? 0 then Hash2 mem hash it else Hash2 mem it hash);
  Some (hash, nIndex >> 1).

Lemma branch_root_ok mem k l pos idx :
  length mem = 64%nat -> Forall valid_hash l -> (pos < length l <= 2 ^ k)%nat ->
  (idx mod 2 ^ k = pos)%nat ->
  foldl (branch_step mem) (Some (l !!! pos, Z.of_nat idx)) (tree_branch sha_pair k l pos) =
  Some (tree_root sha_pair k l, Z.of_nat (idx / 2 ^ k)).
Proof.
  intros Hmem. revert l pos. induction k as [|k IH]; intros l pos HV Hpos Hidx.
  { cbn [tree_branch tree_root foldl]. change (2 ^ 0)%nat with 1%nat in *. rewrite Nat.div_1_r.
    by replace pos with 0%nat by lia. }
  pose proof (pow2_pos k) as Hp. rewrite mod_pow2_S in Hidx. rewrite div_pow2_S.
  pose proof (Nat.mod_upper_bound idx (2 ^ k) ltac:(lia)) as Hm.
  pose proof (Nat.mod_upper_bound (idx / 2 ^ k) 2 ltac:(lia)) as Hm2.
  assert (forall q, Z.of_nat q .& 1 = Z.of_nat (q mod 2)) as Hland.
  { intros q. change 1 with (Z.ones 1) at 1. rewrite Z.land_ones by lia. by rewrite Nat2Z.inj_mod. }
  assert (forall q, Z.of_nat q >> 1 = Z.of_nat (q / 2)) as Hshr.
  { intros q. rewrite Z.shiftr_div_pow2 by lia. by rewrite Nat2Z.inj_div. }
  assert (forall l', Forall valid_hash l' -> (0 < length l')%nat -> valid_hash (tree_root sha_pair k l')) as HVr.
  { intros l' HV' Hl'. apply (tree_root_valid sha_pair (Hash2 mem) valid_hash); [|done|].
    - intros. by apply sha_pair_ok.
    - intros ->. cbn [length] in Hl'. lia. }
  cbn [tree_branch tree_root]. destruct (Nat.leb_spec (length l) (2 ^ k)) as [Hle|Hgt].
  - assert ((idx / 2 ^ k) mod 2 = 0)%nat as E0 by nia. rewrite E0, Nat.mul_0_l, Nat.add_0_l in Hidx.
    rewrite foldl_app, IH by (done || lia). cbn [foldl branch_step mbind option_bind].
    rewrite Hland, E0. cbn [Z.of_nat Z.eqb]. rewrite Hshr.
    destruct (sha_pair_ok mem (tree_root sha_pair k l) (tree_root sha_pair k l)) as [-> _]; try done;
      apply HVr; (done || lia).
  - assert (Forall valid_hash (take (2 ^ k) l) /\ Forall valid_hash (drop (2 ^ k) l)) as [HVt HVd]
      by auto using Forall_take, Forall_drop.
    assert (length (take (2 ^ k) l) = 2 ^ k /\ length (drop (2 ^ k) l) = length l - 2 ^ k)%nat as [Lt Ld]
      by (rewrite length_take, length_drop; lia).
    rewrite pow2_S in Hpos.
    destruct (sha_pair_ok mem (tree_root sha_pair k (take (2 ^ k) l)) (tree_root sha_pair k (drop (2 ^ k) l)))
      as [Hh _]; [done|apply HVr; (done || lia)|apply HVr; (done || lia)|].
    destruct (Nat.ltb_spec pos (2 ^ k)) as [Hlt|Hge]; rewrite foldl_app.
    + assert ((idx / 2 ^ k) mod 2 = 0)%nat as E0 by nia. rewrite E0, Nat.mul_0_l, Nat.add_0_l in Hidx.
      replace (l !!! pos) with (take (2 ^ k) l !!! pos).
      2: { rewrite !list_lookup_total_alt, lookup_take_lt by done. done. }
      rewrite IH by (done || lia). cbn [foldl branch_step mbind option_bind].
      rewrite Hland, E0. cbn [Z.of_nat Z.eqb]. by rewrite Hshr, Hh.
    + assert ((idx / 2 ^ k) mod 2 = 1)%nat as E1 by nia. rewrite E1, Nat.mul_1_l in Hidx.
      replace (l !!! pos) with (drop (2 ^ k) l !!! (pos - 2 ^ k)%nat).
      2: { rewrite !list_lookup_total_alt, lookup_drop. do 2 f_equal. lia. }
      rewrite IH by (done || lia). cbn [foldl branch_step mbind option_bind].
      rewrite Hland, E1. change (Z.of_nat 1 =? 0) with false. cbv iota. by rewrite Hshr, Hh.
Qed.

(** C32: The branch that [ComputeMerkleBranch] returns for a position inside the list leads
    from the leaf at that position to the root: [ComputeMerkleRootFromBranch] on it returns
    what [ComputeMerkleRoot] returns. *)
Theorem merkle_branch_verifies mem leaves pos :
  length mem = 64%nat -> Forall valid_hash leaves -> Z.of_nat (length leaves) <= 2 ^ 31 ->
  (pos < length leaves)%nat ->
  exists branch root mutated,
    ComputeMerkleBranch mem leaves (Z.of_nat pos) = Some branch /\
    ComputeMerkleRoot mem leaves = Some (root, mutated) /\
    ComputeMerkleRootFromBranch mem (leaves !!! pos) branch (Z.of_nat pos) = Some root.
Proof.
  intros Hmem HV Hl Hpos. unfold ComputeMerkleBranch, ComputeMerkleRoot.
  assert (forall a b, valid_hash a -> valid_hash b -> Hash2 mem a b = Some (sha_pair a b) /\ valid_hash (sha_pair a b))
    as Hok by (intros; by apply sha_pair_ok).
  destruct (MerkleComputation_ok sha_pair (Hash2 mem) valid_hash Hok leaves (Z.of_nat pos) pos true)
    as (mu&br&->&_&Hbr); try done; [lia|].
  destruct (MerkleComputation_ok sha_pair (Hash2 mem) valid_hash Hok leaves (u32 (-1)) 0 false)
    as (mu'&br'&->&_&_); try done; [lia|].
  rewrite Hbr by done. cbn [mbind option_bind].
  eexists _, _, _. split; [done|]. split; [done|]. unfold ComputeMerkleRootFromBranch.
  change (foldl _ _ _) with (foldl (branch_step mem) (Some (leaves !!! pos, Z.of_nat pos))
    (tree_branch sha_pair (Nat.log2_up (length leaves)) leaves pos)).
  assert (length leaves <= 2 ^ Nat.log2_up (length leaves))%nat as Hup.
  { destruct (decide (length leaves = 1)%nat) as [->|]; [done|]. apply Nat.log2_up_spec. lia. }
  rewrite branch_root_ok; [done|done|done|lia|]. apply Nat.mod_small. lia.
Qed.

(** The last of three leaves. *)
Lemma merkle_branch_verifies_witness :
  let leaves := [replicate 32 1; replicate 32 2; replicate 32 3] in
  exists branch root mutated,
    ComputeMerkleBranch (replicate 64 0) leaves 2 = Some branch /\
    ComputeMerkleRoot (replicate 64 0) leaves = Some (root, mutated) /\
    ComputeMerkleRootFromBranch (replicate 64 0) (leaves !!! 2%nat) branch 2 = Some root.
Proof.
  intros leaves. apply (merkle_branch_verifies (replicate 64 0) leaves 2); [done| |done|cbn; lia].
  by repeat (apply Forall_cons_2; [split; [done|]; by apply Forall_replicate|]).
Defined.

(** ** What the mutation flag is for *)

Section binding.
Context (f : uint256 -> uint256 -> uint256).

(** Among the pairs that were hashed two different ones have the same hash. *)
Definition collision (hashed : list (uint256 * uint256)) : Prop :=
  exists a b c d, (a, b) ∈ hashed /\ (c, d) ∈ hashed /\ (a, b) <> (c, d) /\ f a b = f c d.

Lemma tree_mutated_take l k : tree_mutated f (take k l) -> tree_mutated f l.
Proof.
  intros (j&i&Hl&E). rewrite length_take in Hl. exists j, i. split; [lia|].
  rewrite <- (take_drop k l), !block_app; [done| |]; rewrite length_take; lia.
Qed.

Lemma tree_mutated_drop l k :
  (length l <= 2 * 2 ^ k)%nat -> tree_mutated f (drop (2 ^ k) l) -> tree_mutated f l.
Proof.
  intros Hk (j&i&Hl&E). rewrite length_drop in Hl. pose proof (pow2_pos j).
  assert (j < k)%nat as Hjk.
  { destruct (decide (j < k)%nat) as [|Hge]; [done|].
    assert (2 ^ k <= 2 ^ j)%nat by (apply Nat.pow_le_mono_r; lia). nia. }
  assert (2 ^ k = 2 * 2 ^ (k - 1 - j) * 2 ^ j)%nat as Ek.
  { rewrite <- pow2_S, <- Nat.pow_add_r. f_equal. lia. }
  exists j, (i + 2 ^ (k - 1 - j))%nat. split; [nia|].
  assert (forall i', block l j (2 * 2 ^ (k - 1 - j) + i') = block (drop (2 ^ k) l) j i') as Hb.
  { intros i'. unfold block. rewrite drop_drop. do 2 f_equal. rewrite Ek. nia. }
  replace (2 * (i + 2 ^ (k - 1 - j)))%nat with (2 * 2 ^ (k - 1 - j) + 2 * i)%nat by lia.
  replace (2 * 2 ^ (k - 1 - j) + 2 * i + 1)%nat with (2 * 2 ^ (k - 1 - j) + (2 * i + 1))%nat by lia.
  by rewrite !Hb.
Qed.

Lemma tree_pairs_S k l P :
  tree_pairs f (S k) l ⊆ P ->
  if (length l <=? 2 ^ k)%nat then (tree_root f k l, tree_root f k l) ∈ P /\ tree_pairs f k l ⊆ P
  else (tree_root f k (take (2 ^ k) l), tree_root f k (drop (2 ^ k) l)) ∈ P /\
    tree_pairs f k (take (2 ^ k) l) ⊆ P /\ tree_pairs f k (drop (2 ^ k) l) ⊆ P.
Proof. cbn [tree_pairs]. intros H. destruct (_ <=? _)%nat; set_solver. Qed.

Lemma pair_injective P a b c d :
  (a, b) ∈ P -> (c, d) ∈ P -> f a b = f c d -> (a = c /\ b = d) \/ collision P.
Proof.
  intros Hp Hq E. destruct (decide ((a, b) = (c, d))) as [[= -> ->]|Hne]; [by left|].
  right. by exists a, b, c, d.
Qed.

Lemma tree_binding P k l1 l2 :
  (0 < length l1 <= 2 ^ k)%nat -> (0 < length l2 <= 2 ^ k)%nat ->
  tree_pairs f k l1 ⊆ P -> tree_pairs f k l2 ⊆ P ->
  ~ tree_mutated f l1 -> ~ tree_mutated f l2 ->
  tree_root f k l1 = tree_root f k l2 -> l1 = l2 \/ collision P.
Proof.
  revert l1 l2. induction k as [|k IH]; intros l1 l2 H1 H2 P1 P2 M1 M2 E.
  { destruct l1 as [|a [|]]; cbn in H1; [lia| |lia]. destruct l2 as [|b [|]]; cbn in H2; [lia| |lia].
    left. cbn in E. by subst. }
  rewrite pow2_S in H1, H2. pose proof (pow2_pos k).
  apply tree_pairs_S in P1. apply tree_pairs_S in P2.
  (* one list fills the right subtree, the other does not reach it *)
  assert (forall l l', (0 < length l <= 2 ^ k)%nat -> (2 ^ k < length l' <= 2 * 2 ^ k)%nat ->
    ~ tree_mutated f l' ->
    (tree_root f k l, tree_root f k l) ∈ P ->
    (tree_root f k (take (2 ^ k) l'), tree_root f k (drop (2 ^ k) l')) ∈ P ->
    tree_pairs f k (take (2 ^ k) l') ⊆ P -> tree_pairs f k (drop (2 ^ k) l') ⊆ P ->
    f (tree_root f k l) (tree_root f k l) =
    f (tree_root f k (take (2 ^ k) l')) (tree_root f k (drop (2 ^ k) l')) -> collision P) as Hmix.
  { intros l l' Hl Hl' M' Q1 Q2 Q3 Q4 E'. destruct (pair_injective _ _ _ _ _ Q1 Q2 E') as [[E1 E2]|?]; [|done].
    assert (length (take (2 ^ k) l') = 2 ^ k)%nat as Lt by (rewrite length_take; lia).
    assert (length (drop (2 ^ k) l') = length l' - 2 ^ k)%nat as Ld by apply length_drop.
    destruct (IH (take (2 ^ k) l') (drop (2 ^ k) l')) as [Eq|?]; [lia|lia|done|done| | |congruence| |done].
    - intros M. by apply M', (tree_mutated_take _ (2 ^ k)).
    - intros M. apply M', (tree_mutated_drop _ k); [lia|done].
    - exfalso. apply M'. exists k, 0%nat. apply (f_equal length) in Eq. rewrite Lt, Ld in Eq.
      split; [lia|]. unfold block. rewrite Nat.mul_0_l, Nat.add_0_l, Nat.mul_1_l, drop_0.
      rewrite (take_ge (drop _ _)) by lia. congruence. }
  change (tree_root f (S k) l1) with
    (if (length l1 <=? 2 ^ k)%nat then f (tree_root f k l1) (tree_root f k l1)
     else f (tree_root f k (take (2 ^ k) l1)) (tree_root f k (drop (2 ^ k) l1))) in E.
  change (tree_root f (S k) l2) with
    (if (length l2 <=? 2 ^ k)%nat then f (tree_root f k l2) (tree_root f k l2)
     else f (tree_root f k (take (2 ^ k) l2)) (tree_root f k (drop (2 ^ k) l2))) in E.
  destruct (Nat.leb_spec (length l1) (2 ^ k)) as [L1|L1];
    destruct (Nat.leb_spec (length l2) (2 ^ k)) as [L2|L2]; destruct P1 as [Q1 P1], P2 as [Q2 P2].
  - destruct (pair_injective _ _ _ _ _ Q1 Q2 E) as [[E1 _]|?]; [|by right]. apply IH; (done || lia).
  - right. destruct P2. apply (Hmix l1 l2); (done || lia).
  - right. destruct P1. apply (Hmix l2 l1); (done || lia).
  - destruct (pair_injective _ _ _ _ _ Q1 Q2 E) as [[E1 E2]|?]; [|by right]. destruct P1, P2.
    destruct (IH (take (2 ^ k) l1) (take (2 ^ k) l2)) as [Et|?]; try (by right); try done;
      try (rewrite !length_take; lia); try (intros M; by eapply M1, tree_mutated_take);
      try (intros M; by eapply M2, tree_mutated_take).
    destruct (IH (drop (2 ^ k) l1) (drop (2 ^ k) l2)) as [Ed|?]; try (by right); try done;
      try (rewrite !length_drop; lia); try (intros M; eapply M1, tree_mutated_drop; [|done]; lia);
      try (intros M; eapply M2, tree_mutated_drop; [|done]; lia).
    left. by rewrite <- (take_drop (2 ^ k) l1), <- (take_drop (2 ^ k) l2), Et, Ed.
Qed.
End binding.

(** The purpose of the mutation flag. When two lists of leaves whose trees have the
    same height have the same root, and the computation reports neither as mutated, the
    lists are equal, or among the pairs hashed in the two trees there are two different ones
    that double SHA-256 maps to the same value. *)
Theorem merkle_root_binding mem l1 l2 root :
  length mem = 64%nat -> Forall valid_hash l1 -> Forall valid_hash l2 ->
  Z.of_nat (length l1) <= 2 ^ 31 -> Z.of_nat (length l2) <= 2 ^ 31 ->
  (0 < length l1)%nat -> (0 < length l2)%nat ->
  Nat.log2_up (length l1) = Nat.log2_up (length l2) ->
  ComputeMerkleRoot mem l1 = Some (root, false) -> ComputeMerkleRoot mem l2 = Some (root, false) ->
  l1 = l2 \/
  collision sha_pair (tree_pairs sha_pair (Nat.log2_up (length l1)) l1 ++
                      tree_pairs sha_pair (Nat.log2_up (length l2)) l2).
Proof.
  intros Hmem V1 V2 L1 L2 N1 N2 Hk E1 E2.
  assert (forall l, Forall valid_hash l -> Z.of_nat (length l) <= 2 ^ 31 -> (0 < length l)%nat ->
    ComputeMerkleRoot mem l = Some (root, false) ->
    tree_root sha_pair (Nat.log2_up (length l)) l = root /\ ~ tree_mutated sha_pair l /\
    (0 < length l <= 2 ^ Nat.log2_up (length l))%nat) as H.
  { clear -Hmem. intros l HV Hl Hn E. unfold ComputeMerkleRoot in E.
    destruct (MerkleComputation_ok sha_pair (Hash2 mem) valid_hash (fun a b => sha_pair_ok mem a b Hmem)
      l (u32 (-1)) 0 false) as (mu&br&Em&Hmu&_); try done.
    rewrite Em in E. cbn [mbind option_bind] in E. injection E as Er ->. split_and!; [done| |done|].
    - intros M. apply Hmu in M. done.
    - destruct (decide (length l = 1)%nat) as [->|]; [done|]. apply Nat.log2_up_spec. lia. }
  destruct (H l1 V1 L1 N1 E1) as (R1&M1&B1). destruct (H l2 V2 L2 N2 E2) as (R2&M2&B2).
  rewrite <- Hk in *. apply (tree_binding _ _ (Nat.log2_up (length l1))); try done; [by apply list_subseteq_app_l|by apply list_subseteq_app_r|congruence].
Qed.

(** Two leaves. *)
Lemma merkle_root_binding_witness :
  let l := [replicate 32 1; replicate 32 2] in
  let p := (replicate 32 1, replicate 32 2) in
  l = l \/ collision sha_pair [p; p].
Proof.
  intros l p.
  assert (Forall valid_hash l) as HV.
  { by repeat (apply Forall_cons_2; [split; [done|]; by apply Forall_replicate|]). }
  apply (merkle_root_binding (replicate 64 0) l l (sha_pair (replicate 32 1) (replicate 32 2)));
    [done|done|done|cbn; lia|cbn; lia|cbn; lia|cbn; lia|done| |].
  all: vm_compute; reflexivity.
Defined.

(** The limit of 2^31 leaves is that of the code: with one leaf more the counter of the
    sweep wraps to 0 and the inner loop shifts by 32, whatever the hashes are. *)
Lemma sweep_overflow_step hash_pair fuel inner ml j h matchh :
  (j < 30)%nat ->
  sweep hash_pair (S fuel) false inner ml (2 ^ 31 + 2 ^ Z.of_nat j) j h matchh [] =
  (h ← hash_pair h h; sweep hash_pair fuel false inner ml (2 ^ 31 + 2 ^ Z.of_nat (S j)) (S j) h matchh []).
Proof. intros Hj. do 30 (destruct j as [|j]; [reflexivity|]). lia. Qed.

Lemma sweep_overflow hash_pair inner ml h matchh :
  sweep hash_pair 32 false inner ml (2 ^ 31 + 1) 0 h matchh [] = None.
Proof.
  change (2 ^ 31 + 1) with (2 ^ 31 + 2 ^ Z.of_nat 0).
  do 30 (rewrite sweep_overflow_step by lia; destruct (hash_pair h h) as [h'|]; [|reflexivity];
    clear h; rename h' into h; cbn [mbind option_bind]).
  cbn [sweep]. change (30 <? 32)%nat with true. cbv iota.
  change (2 ^ 31 + 2 ^ Z.of_nat 30 =? u32 (1 << Z.of_nat 30)) with false. cbv iota. destruct (hash_pair h h) as [h'|]; [|reflexivity].
  cbn [mbind option_bind]. cbv zeta.
  change (u32 (2 ^ 31 + 2 ^ Z.of_nat 30 + u32 (1 << Z.of_nat 30))) with 0.
  cbn [sweep_up]. change (bit_clear 0 31) with (Some true). cbn [mbind option_bind].
  destruct (inner !! 31%nat) as [i|]; [|reflexivity]. cbn [mbind option_bind push_branch].
  by destruct (hash_pair i h').
Qed.
