(* ===== verification/VersionBits.v ===== *)
(** * Version bits: [src/src/versionbits.h], [src/src/versionbits.cpp], parts of [src/src/main.cpp]

    The activation of rule changes by signalling (BIP 9): a state per deployment and
    period of blocks, computed along the chain and cached.  The reference is the state
    machine of BIP 9 on the chain of a block; the theorem is that the cache and the
    shortcut for early blocks do not show, provided block times obey the rule that the
    shortcut relies on. *)

From S2P Require Import Prelude SphTypes ArithUint256 BlockIndex Chain.
From stdpp Require Import sorting.

#[local] Open Scope Z_scope.
#[local] Open Scope c_scope.

Inductive ThresholdState :=
  | THRESHOLD_DEFINED
  | THRESHOLD_STARTED
  | THRESHOLD_LOCKED_IN
  | THRESHOLD_ACTIVE
  | THRESHOLD_FAILED.

#[export] Instance ThresholdState_eq_dec : EqDecision ThresholdState.
Proof. solve_decision. Defined.

(** [std::map<const CBlockIndex*, ThresholdState>]; the null pointer is a key. *)
Abbreviation ThresholdConditionCache := (gmap (option ptr) ThresholdState).

(** The virtual functions, at given parameters. *)
Class AbstractThresholdConditionChecker := {
  Condition : ptr -> option bool;
  BeginTime : Z;
  EndTime : Z;
  Period : Z;
  Threshold : Z;
}.

Section get_state.
Context (h : heap) `{chk : AbstractThresholdConditionChecker}.

(** [pindexPrev->GetAncestor(pindexPrev->nHeight - ((pindexPrev->nHeight + 1) % nPeriod))];
    [None] is a division by zero or an invalid pointer. *)
Definition first_of_period (p : ptr) : option (option ptr) :=
  b ← h !! p;
  if Period =? 0 then None else GetAncestor h p (nHeight b - Z.rem (nHeight b + 1) Period).

(** [while (cache.count(pindexPrev) == 0) { ... }] *)
Fixpoint walk_back (fuel : nat) (cache : ThresholdConditionCache) (pindexPrev : option ptr)
    (vToCompute : list ptr) : option (ThresholdConditionCache * option ptr * list ptr) :=
  match cache !! pindexPrev with
  | Some _ => Some (cache, pindexPrev, vToCompute)
  | None =>
      match pindexPrev with
      | None => Some (<[None := THRESHOLD_DEFINED]> cache, None, vToCompute)
      | Some q =>
          mtp ← GetMedianTimePast h q;
          if mtp <? BeginTime then Some (<[Some q := THRESHOLD_DEFINED]> cache, Some q, vToCompute)
          else
            match fuel with
            | O => None
            | S fuel =>
                b ← h !! q;
                prev ← GetAncestor h q (nHeight b - Period);
                walk_back fuel cache prev (vToCompute ++ [q])
            end
      end
  end.

(** [for (int i = 0; i < nPeriod; i++) { ... }] *)
Fixpoint count_loop (n : nat) (pindexCount : option ptr) (count : Z) : option Z :=
  match n with
  | O => Some count
  | S n =>
      p ← pindexCount;
      c ← Condition p;
      b ← h !! p;
      count_loop n (pprev b) (if c : bool then count + 1 else count)
  end.

(** The [switch (state)]. *)
Definition next_state (p : ptr) (state : ThresholdState) : option ThresholdState :=
  match state with
  | THRESHOLD_DEFINED =>
      mtp ← GetMedianTimePast h p;
      Some (if EndTime <=? mtp then THRESHOLD_FAILED
            else if BeginTime <=? mtp then THRESHOLD_STARTED else state)
  | THRESHOLD_STARTED =>
      mtp ← GetMedianTimePast h p;
      if EndTime <=? mtp then Some THRESHOLD_FAILED
      else
        count ← count_loop (Z.to_nat Period) (Some p) 0;
        Some (if Threshold <=? count then THRESHOLD_LOCKED_IN else state)
  | THRESHOLD_LOCKED_IN => Some THRESHOLD_ACTIVE
  | THRESHOLD_FAILED | THRESHOLD_ACTIVE => Some state
  end.

(** [while (!vToCompute.empty()) { ... }], the blocks in the order they are popped. *)
Fixpoint walk_forward (l : list ptr) (cache : ThresholdConditionCache) (state : ThresholdState)
    : option (ThresholdState * ThresholdConditionCache) :=
  match l with
  | [] => Some (state, cache)
  | p :: l =>
      stateNext ← next_state p state;
      walk_forward l (<[Some p := stateNext]> cache) stateNext
  end.

Definition GetStateFor (cache : ThresholdConditionCache) (pindexPrev : option ptr)
    : option (ThresholdState * ThresholdConditionCache) :=
  pindexPrev ← match pindexPrev with None => Some None | Some p => first_of_period p end;
  let fuel := match pindexPrev with
              | None => O
              | Some p => match h !! p with Some b => S (Z.to_nat (nHeight b)) | None => O end
              end in
  '(cache, pindexPrev, vToCompute) ← walk_back fuel cache pindexPrev [];
  state ← cache !! pindexPrev;
  walk_forward (rev vToCompute) cache state.
End get_state.

(** ** The deployments *)

Record BIP9Deployment := mkDeployment { bit : Z; nStartTime : Z; nTimeout : Z }.

(** The consensus parameters that are read here. *)
Record DeploymentParams := mkDeploymentParams {
  nRuleChangeActivationThreshold : Z; nMinerConfirmationWindow : Z;
  vDeployments : list BIP9Deployment; sigActivationTime : Z }.

(** [DEPLOYMENT_TESTDUMMY] to [DEPLOYMENT_COMMUNITYFUND] *)
Definition MAX_VERSION_BITS_DEPLOYMENTS : nat := 6.
Definition DEPLOYMENT_SEGWIT : nat := 2.

Definition VERSIONBITS_TOP_BITS : Z := 0x70000000.
Definition VERSIONBITS_TOP_BITS_SIG : Z := 0x71000000.
(** [0xF0000000UL] as an [int32_t]. *)
Definition VERSIONBITS_TOP_MASK : Z := 0xF0000000 - 2 ^ 32.
Definition nSegWitVersionMask : Z := 0x00000020.

(** [ThresholdConditionCache caches[MAX_VERSION_BITS_DEPLOYMENTS]] *)
Abbreviation VersionBitsCache := (list ThresholdConditionCache).

Section deployments.
Context (h : heap) (params : DeploymentParams).

Definition IsSigHFEnabled (pindexPrev : option ptr) : option bool :=
  match pindexPrev with
  | None => Some false
  | Some p => mtp ← GetMedianTimePast h p; Some (sigActivationTime params <=? mtp)
  end.

Definition Mask (d : BIP9Deployment) : Z := u32 (1 << bit d).

(** [((pindex->nVersion & VERSIONBITS_TOP_MASK) == IsSigHFEnabled(...) ? ... : ...) && ...]:
    the comparison is the condition of [?:]. *)
Definition VersionBits_Condition (d : BIP9Deployment) (p : ptr) : option bool :=
  b ← h !! p;
  sig ← IsSigHFEnabled (Some p);
  let top := if (nVersion b .& VERSIONBITS_TOP_MASK) =? Z.b2z sig
             then VERSIONBITS_TOP_BITS_SIG else VERSIONBITS_TOP_BITS in
  Some (negb (top =? 0) && negb ((u32 (nVersion b) .& Mask d) =? 0)).

(** A [uint32_t] returned as [int] *)
Definition int_of_uint32 (n : Z) : Z := if n <? 2 ^ 31 then n else n - 2 ^ 32.

(** The two parameters of type [uint32_t] are returned as [int]. *)
Definition VersionBitsConditionChecker (d : BIP9Deployment) : AbstractThresholdConditionChecker := {|
  Condition := VersionBits_Condition d;
  BeginTime := nStartTime d;
  EndTime := nTimeout d;
  Period := int_of_uint32 (nMinerConfirmationWindow params);
  Threshold := int_of_uint32 (nRuleChangeActivationThreshold params);
|}.

Definition VersionBitsCache_Clear : VersionBitsCache := replicate MAX_VERSION_BITS_DEPLOYMENTS ∅.

Definition VersionBitsState (caches : VersionBitsCache) (pindexPrev : option ptr) (pos : nat)
    : option (ThresholdState * VersionBitsCache) :=
  d ← vDeployments params !! pos;
  cache ← caches !! pos;
  '(s, cache) ← GetStateFor h (chk := VersionBitsConditionChecker d) cache pindexPrev;
  Some (s, <[pos := cache]> caches).

Definition VersionBitsMask (pos : nat) : option Z := d ← vDeployments params !! pos; Some (Mask d).

Definition IsWitnessEnabled (caches : VersionBitsCache) (pindexPrev : option ptr)
    : option (bool * VersionBitsCache) :=
  '(s, caches) ← VersionBitsState caches pindexPrev DEPLOYMENT_SEGWIT;
  Some (bool_decide (s = THRESHOLD_ACTIVE), caches).

Definition IsWitnessLocked (caches : VersionBitsCache) (pindexPrev : option ptr)
    : option (bool * VersionBitsCache) :=
  '(s, caches) ← VersionBitsState caches pindexPrev DEPLOYMENT_SEGWIT;
  Some (bool_decide (s = THRESHOLD_LOCKED_IN), caches).

(** The versions that signal a deployment. *)
Definition signalling (s : ThresholdState) : bool :=
  bool_decide (s = THRESHOLD_LOCKED_IN) || bool_decide (s = THRESHOLD_STARTED) ||
  bool_decide (s = THRESHOLD_ACTIVE).

Definition ComputeBlockVersion (caches : VersionBitsCache) (pindexPrev : option ptr)
    : option (Z * VersionBitsCache) :=
  sig ← IsSigHFEnabled pindexPrev;
  let nVersion := if sig : bool then VERSIONBITS_TOP_BITS_SIG else VERSIONBITS_TOP_BITS in
  '(nVersion, caches) ←
    foldl (fun r i =>
      '(nVersion, caches) ← r;
      '(state, caches) ← VersionBitsState caches pindexPrev i;
      mask ← VersionBitsMask i;
      Some (if signalling state then nVersion .| mask else nVersion, caches))
    (Some (nVersion, caches)) (seq 0 MAX_VERSION_BITS_DEPLOYMENTS);
  '(witness, caches) ← IsWitnessEnabled caches pindexPrev;
  Some (if witness : bool then nVersion .| nSegWitVersionMask else nVersion, caches).

(** [chainActive.Tip()] is the argument [tip]. *)
Definition VersionBitsTipState (caches : VersionBitsCache) (tip : option ptr) (pos : nat)
    : option (ThresholdState * VersionBitsCache) :=
  VersionBitsState caches tip pos.
End deployments.

(** ** Reference: BIP 9 *)

Section bip9.
Context (h : heap) `{chk : AbstractThresholdConditionChecker}.

(** The median time of a block, and the number of blocks of the period ending with it that
    signal. *)
Definition mtp (p : ptr) : Z := default 0 (GetMedianTimePast h p).
Definition signals (p : ptr) : Z :=
  Z.of_nat (length (filter (fun i => (q ← back h i p; Condition q) = Some true) (seq 0 (Z.to_nat Period)))).

(** The transitions at the end of a period. *)
Inductive bip9_step (p : ptr) : ThresholdState -> ThresholdState -> Prop :=
  | defined_stays : mtp p < BeginTime -> mtp p < EndTime -> bip9_step p THRESHOLD_DEFINED THRESHOLD_DEFINED
  | defined_starts : BeginTime <= mtp p < EndTime -> bip9_step p THRESHOLD_DEFINED THRESHOLD_STARTED
  | defined_fails : EndTime <= mtp p -> bip9_step p THRESHOLD_DEFINED THRESHOLD_FAILED
  | started_fails : EndTime <= mtp p -> bip9_step p THRESHOLD_STARTED THRESHOLD_FAILED
  | started_locks : mtp p < EndTime -> Threshold <= signals p ->
      bip9_step p THRESHOLD_STARTED THRESHOLD_LOCKED_IN
  | started_stays : mtp p < EndTime -> signals p < Threshold ->
      bip9_step p THRESHOLD_STARTED THRESHOLD_STARTED
  | locked_activates : bip9_step p THRESHOLD_LOCKED_IN THRESHOLD_ACTIVE
  | active_stays : bip9_step p THRESHOLD_ACTIVE THRESHOLD_ACTIVE
  | failed_stays : bip9_step p THRESHOLD_FAILED THRESHOLD_FAILED.

(** The state after the period that ends with [pindexPrev]: the chain starts out defined,
    and every period makes one transition. *)
Inductive bip9_state : option ptr -> ThresholdState -> Prop :=
  | state_genesis : bip9_state None THRESHOLD_DEFINED
  | state_period p b s s' :
      h !! p = Some b -> (nHeight b + 1) mod Period = 0 ->
      bip9_state (ancestor h p (nHeight b - Period)) s -> bip9_step p s s' ->
      bip9_state (Some p) s'.

(** The last block of the last complete period, for the block after [pindexPrev]. *)
Definition period_end (pindexPrev : option ptr) : option ptr :=
  p ← pindexPrev; b ← h !! p; ancestor h p (nHeight b - (nHeight b + 1) mod Period).

(** Every cached state is right. *)
Definition cache_ok (cache : ThresholdConditionCache) : Prop :=
  map_Forall (fun p s => bip9_state p s) cache.
End bip9.

(** The rule for block times that the shortcut relies on: a block is not earlier than the
    median time of its predecessors. *)
Definition times_ok (h : heap) : Prop :=
  forall p b q m, h !! p = Some b -> pprev b = Some q -> GetMedianTimePast h q = Some m -> m <= nTime b.

(** ** Median times grow *)

Section median.
Implicit Types (l ts : list Z) (x r t : Z).

Abbreviation count_ge x l := (length (filter (fun y => x <= y) l)).

Lemma count_ge_perm x l ts : l ≡ₚ ts -> count_ge x l = count_ge x ts.
Proof. intros E. by rewrite E. Qed.

Lemma count_ge_take x n l : (count_ge x l <= count_ge x (take n l) + (length l - n))%nat.
Proof.
  rewrite <- (take_drop n l) at 1. rewrite filter_app, length_app.
  pose proof (length_filter (fun y => x <= y) (drop n l)) as H. rewrite length_drop in H. lia.
Qed.

Lemma count_ge_Forall x l : Forall (fun y => x <= y) l -> count_ge x l = length l.
Proof.
  induction 1 as [|y l Hy _ IH]; [done|]. rewrite filter_cons_True by done. cbn [length]. by rewrite IH.
Qed.

Lemma count_lt_Forall x l : Forall (fun y => y < x) l -> count_ge x l = 0%nat.
Proof.
  induction 1 as [|y l Hy _ IH]; [done|]. rewrite filter_cons_False by lia. done.
Qed.

(** In a sorted list: how many elements are at least the one at position [i], and what a
    number of large elements says about it. *)
Lemma sorted_lookup l i r :
  StronglySorted Z.le l -> l !! i = Some r ->
  (length l - i <= count_ge r l)%nat /\
  forall x, (length l - i <= count_ge x l)%nat -> x <= r.
Proof.
  intros Hs Hi. pose proof (lookup_lt_Some _ _ _ Hi) as Hlt. pose proof (take_drop_middle l i r Hi) as El.
  assert (Forall (fun y => y <= r) (take i l) /\ Forall (fun y => r <= y) (drop (S i) l)) as [Ht Hd].
  { rewrite <- El in Hs. apply StronglySorted_app in Hs as (H1&_&H3). split.
    - apply list.Forall_forall. intros y Hy. apply H1; [done|]. left.
    - by apply StronglySorted_inv in H3 as [_ ?]. }
  assert (length (take i l) = i /\ length (drop (S i) l) = length l - S i)%nat as [Lt Ld]
    by (rewrite length_take, length_drop; lia).
  split.
  - rewrite <- El at 2. rewrite filter_app, filter_cons_True, length_app by lia. cbn [length].
    rewrite (count_ge_Forall r (drop (S i) l)) by done. lia.
  - intros x Hx. destruct (decide (x <= r)) as [|Hgt]; [done|]. exfalso.
    rewrite <- El in Hx at 2. rewrite filter_app, filter_cons_False, length_app in Hx by lia.
    rewrite (count_lt_Forall x (take i l)) in Hx.
    2: { apply (list.Forall_impl _ _ _ Ht). intros y ?. cbn in *. lia. }
    pose proof (length_filter (fun y => x <= y) (drop (S i) l)). lia.
Qed.

(** A new block that is not earlier than the median does not lower it. *)
Lemma median_mono ts t l l' m m' :
  (0 < length ts <= nMedianTimeSpan)%nat ->
  l ≡ₚ ts -> StronglySorted Z.le l -> l !! (length ts / 2)%nat = Some m ->
  let ts' := t :: take (nMedianTimeSpan - 1) ts in
  l' ≡ₚ ts' -> StronglySorted Z.le l' -> l' !! (length ts' / 2)%nat = Some m' ->
  m <= t -> m <= m'.
Proof.
  intros Hlen El Hs Hm ts' El' Hs' Hm' Ht.
  destruct (sorted_lookup l _ _ Hs Hm) as [H1 _]. destruct (sorted_lookup l' _ _ Hs' Hm') as [_ H2].
  apply H2. rewrite (count_ge_perm m l' ts' El'), (Permutation_length El').
  rewrite (count_ge_perm m l ts El), (Permutation_length El) in H1.
  subst ts'. rewrite filter_cons_True by done. cbn [length].
  pose proof (count_ge_take m (nMedianTimeSpan - 1) ts). rewrite length_take.
  unfold nMedianTimeSpan in *. cbn [Nat.sub] in *.
  assert (forall n, n / 2 * 2 <= n /\ n < n / 2 * 2 + 2)%nat as Hdiv.
  { intros n. pose proof (Nat.div_mod_eq n 2). pose proof (Nat.mod_upper_bound n 2 ltac:(lia)). lia. }
  pose proof (Hdiv (length ts)). pose proof (Hdiv (S (10 `min` length ts))). lia.
Qed.
End median.

Lemma past_times_cons h n p b :
  h !! p = Some b -> past_times h (S n) (Some p) = (ts ← past_times h n (pprev b); Some (GetBlockTime b :: ts)).
Proof. intros Hp. cbn [past_times]. by rewrite Hp. Qed.

Lemma past_times_take h n m p ts :
  (n <= m)%nat -> past_times h m p = Some ts -> past_times h n p = Some (take n ts).
Proof.
  revert m p ts. induction n as [|n IH]; intros m p ts Hle E; [by rewrite take_0|].
  destruct m as [|m]; [lia|]. destruct p as [p|]; [|injection E as <-; done].
  cbn [past_times] in E |- *. destruct (h !! p) as [b|]; [|done]. cbn [mbind option_bind] in *.
  destruct (past_times h m (pprev b)) as [ts'|] eqn:E'; [|done]. cbn [mbind option_bind] in E.
  injection E as <-. rewrite (IH m (pprev b) ts'); [done|lia|done].
Qed.

Section times.
Context (h : heap) (Hok : index_ok h).

Lemma mtp_spec p b : h !! p = Some b -> GetMedianTimePast h p = Some (mtp h p).
Proof.
  intros Hp. destruct (GetMedianTimePast_spec h p b Hok Hp) as (ts&l&r&_&_&_&_&_&E).
  unfold mtp. by rewrite E.
Qed.

Context (Htimes : times_ok h).

Lemma mtp_pprev p b q : h !! p = Some b -> pprev b = Some q -> mtp h q <= mtp h p.
Proof.
  intros Hp Hq. destruct (Hok p b Hp) as (_&Hprev&_). unfold prev_ok in Hprev. rewrite Hq in Hprev.
  destruct Hprev as (bq&Hbq&_).
  destruct (GetMedianTimePast_spec h p b Hok Hp) as (ts'&l'&m'&Ets'&_&El'&Hs'&Hm'&E').
  destruct (GetMedianTimePast_spec h q bq Hok Hbq) as (ts&l&m&Ets&Hlen&El&Hs&Hm&E).
  unfold mtp. rewrite E, E'. cbn [default from_option id].
  assert (ts' = GetBlockTime b :: take (nMedianTimeSpan - 1) ts) as ->.
  { change nMedianTimeSpan with (S (nMedianTimeSpan - 1)) in Ets' at 1.
    rewrite (past_times_cons _ _ _ _ Hp), Hq in Ets'.
    rewrite (past_times_take h (nMedianTimeSpan - 1) nMedianTimeSpan (Some q) ts) in Ets' by (done || (unfold nMedianTimeSpan; lia)).
    cbn [mbind option_bind] in Ets'. by injection Ets' as <-. }
  apply (median_mono ts (GetBlockTime b) l l' m m'); try done.
  by apply (Htimes p b q m).
Qed.

Lemma mtp_back n p q : back h n p = Some q -> mtp h q <= mtp h p.
Proof.
  revert p. induction n as [|n IH]; intros p E; [injection E as <-; done|]. cbn [back] in E.
  destruct (h !! p) as [b|] eqn:Hp; [|done]. cbn in E. destruct (pprev b) as [r|] eqn:Hr; [|done].
  cbn in E. pose proof (IH r E). pose proof (mtp_pprev p b r Hp Hr). lia.
Qed.
End times.

(** ** The code follows BIP 9 *)

Section refinement.
Context (h : heap) (Hok : index_ok h) `{chk : AbstractThresholdConditionChecker}.
Context (Hper : 0 < Period).
Context (Hcond : forall p b, h !! p = Some b -> is_Some (Condition p)).

(** The last block of a period. *)
Definition aligned (p : ptr) (b : CBlockIndex) : Prop :=
  h !! p = Some b /\ (nHeight b + 1) mod Period = 0.

Lemma height_range p b : h !! p = Some b -> 0 <= nHeight b.
Proof. intros Hp. destruct (Hok p b Hp) as (?&_). lia. Qed.

Lemma aligned_height p b : aligned p b -> Period <= nHeight b + 1.
Proof.
  intros [Hp Hm]. pose proof (height_range p b Hp).
  apply Z.mod_divide in Hm as [k Hk]; [|lia]. destruct (decide (0 < k)); nia.
Qed.

Lemma aligned_prev p b :
  aligned p b ->
  match ancestor h p (nHeight b - Period) with
  | None => True
  | Some q => exists bq, aligned q bq /\ nHeight bq = nHeight b - Period /\
                back h (Z.to_nat Period) p = Some q
  end.
Proof.
  intros [Hp Hm]. unfold ancestor. rewrite Hp. cbn [mbind option_bind].
  destruct (decide (0 <= nHeight b - Period <= nHeight b)) as [Hr|Hr]; [|by rewrite bool_decide_false].
  rewrite bool_decide_true by done. replace (nHeight b - (nHeight b - Period)) with Period by lia.
  destruct (back_ok h (Z.to_nat Period) p b Hok Hp ltac:(lia)) as (q&bq&E&Hq&Hh). rewrite E.
  exists bq. split_and!; [|lia|done]. split; [done|].
  replace (nHeight bq + 1) with (nHeight b + 1 + (-1) * Period) by lia. by rewrite Z.mod_add by lia.
Qed.

Lemma first_of_period_spec p b :
  h !! p = Some b -> first_of_period h p = Some (period_end h (Some p)).
Proof.
  intros Hp. unfold first_of_period, period_end. rewrite Hp. cbn [mbind option_bind]. rewrite Hp. cbn [mbind option_bind].
  destruct (Z.eqb_spec Period 0); [lia|]. pose proof (height_range p b Hp).
  rewrite Z.rem_mod_nonneg by lia. by apply (GetAncestor_spec h p b).
Qed.

Lemma period_end_aligned p :
  match period_end h p with None => True | Some q => exists bq, aligned q bq end.
Proof.
  destruct p as [p|]; [|done]. unfold period_end. cbn [mbind option_bind].
  destruct (h !! p) as [b|] eqn:Hp; [|done]. cbn [mbind option_bind].
  unfold ancestor. rewrite Hp. cbn [mbind option_bind].
  destruct (decide (0 <= nHeight b - (nHeight b + 1) mod Period <= nHeight b)) as [Hr|Hr];
    [|by rewrite bool_decide_false].
  rewrite bool_decide_true by done.
  destruct (back_ok h (Z.to_nat (nHeight b - (nHeight b - (nHeight b + 1) mod Period))) p b Hok Hp ltac:(lia))
    as (q&bq&->&Hq&Hh).
  exists bq. split; [done|]. rewrite Hh, Z2Nat.id by lia.
  replace (nHeight b - (nHeight b - (nHeight b - (nHeight b + 1) mod Period)) + 1) with
    (nHeight b + 1 - (nHeight b + 1) mod Period) by lia.
  rewrite Zminus_mod_idemp_r. by rewrite Z.sub_diag.
Qed.

(** The counting loop. *)
Lemma count_loop_spec n p b c :
  h !! p = Some b -> Z.of_nat n <= nHeight b + 1 ->
  count_loop h n (Some p) c = Some (c + Z.of_nat (length
    (filter (fun i => (q ← back h i p; Condition q) = Some true) (seq 0 n)))).
Proof.
  revert p b c. induction n as [|n IH]; intros p b c Hp Hn; [cbn; f_equal; lia|].
  cbn [count_loop mbind option_bind]. destruct (Hcond p b Hp) as [v Hv]. rewrite Hv. cbn [mbind option_bind].
  rewrite Hp. cbn [mbind option_bind].
  assert (length (filter (fun i => (q ← back h i p; Condition q) = Some true) (seq 0 (S n))) =
    (if v then 1 else 0) + length (filter (fun i => (q ← back h (S i) p; Condition q) = Some true) (seq 0 n)))%nat as ->.
  { cbn [seq]. rewrite <- seq_shift, filter_cons. cbn [back mbind option_bind].
    rewrite Hv. assert (forall l, length (filter (fun i => (q ← back h i p; Condition q) = Some true) (map S l)) =
      length (filter (fun i => (q ← back h (S i) p; Condition q) = Some true) l)) as Hmap.
    { induction l as [|i l IHl]; [done|]. cbn [map]. rewrite !filter_cons.
      destruct (decide _); cbn [length]; by rewrite IHl. }
    rewrite <- Hmap. destruct v; [rewrite decide_True by done|rewrite decide_False by done]; done. }
  destruct n as [|n]; [cbn [count_loop seq filter length]; f_equal; destruct v; cbn; lia|].
  destruct (Hok p b Hp) as (Hr&Hprev&_). unfold prev_ok in Hprev.
  destruct (pprev b) as [q|] eqn:Ep; [|lia]. destruct Hprev as (bq&Hq&E).
  rewrite (IH q bq) by (done || lia). f_equal.
  assert (length (filter (fun i => (r ← back h i q; Condition r) = Some true) (seq 0 (S n))) =
    length (filter (fun i => (r ← back h (S i) p; Condition r) = Some true) (seq 0 (S n)))) as ->.
  { f_equal. apply list_filter_iff. intros i. cbn [back]. rewrite Hp. cbn [mbind option_bind]. rewrite Ep. done. }
  destruct v; lia.
Qed.

Lemma next_state_step p b s :
  aligned p b -> exists s', next_state h p s = Some s' /\ bip9_step h p s s'.
Proof.
  intros Ha. pose proof (aligned_height p b Ha) as Hh. destruct Ha as [Hp _].
  unfold next_state. rewrite (mtp_spec h Hok p b Hp).
  rewrite (count_loop_spec (Z.to_nat Period) p b 0 Hp) by lia. cbn [mbind option_bind]. rewrite Z.add_0_l.
  destruct s.
  - destruct (Z.leb_spec EndTime (mtp h p)) as [He|He].
    { eexists. split; [done|]. by apply defined_fails. }
    destruct (Z.leb_spec BeginTime (mtp h p)) as [Hb|Hb]; eexists; (split; [done|]).
    + by apply defined_starts.
    + by apply defined_stays.
  - destruct (Z.leb_spec EndTime (mtp h p)) as [He|He].
    { eexists. split; [done|]. by apply started_fails. }
    destruct (Z.leb_spec Threshold (signals h p)) as [Hc|Hc]; unfold signals in Hc;
      [rewrite (proj2 (Z.leb_le _ _)) by lia|rewrite (proj2 (Z.leb_gt _ _)) by lia];
      eexists; (split; [done|]); [by apply started_locks|by apply started_stays].
  - eexists. split; [done|]. apply locked_activates.
  - eexists. split; [done|]. apply active_stays.
  - eexists. split; [done|]. apply failed_stays.
Qed.

(** Going forward from a known state. *)
Fixpoint path_ok (prev : option ptr) (l : list ptr) : Prop :=
  match l with
  | [] => True
  | p :: l => (exists b, aligned p b /\ ancestor h p (nHeight b - Period) = prev) /\ path_ok (Some p) l
  end.

Lemma walk_forward_ok prev l cache s :
  path_ok prev l -> bip9_state h prev s -> cache_ok h cache ->
  exists s' cache', walk_forward h l cache s = Some (s', cache') /\
    bip9_state h (default prev (last (map Some l))) s' /\ cache_ok h cache'.
Proof.
  revert prev cache s. induction l as [|p l IH]; intros prev cache s Hpath Hs Hc.
  - exists s, cache. done.
  - destruct Hpath as [(b&Ha&<-) Hpath]. cbn [walk_forward].
    destruct (next_state_step p b s Ha) as (s1&->&Hstep). cbn [mbind option_bind].
    assert (bip9_state h (Some p) s1) as Hs1 by (destruct Ha; by eapply state_period).
    destruct (IH (Some p) (<[Some p := s1]> cache) s1 Hpath Hs1) as (s'&cache'&E&Hs'&Hc').
    { by apply map_Forall_insert_2. }
    exists s', cache'. split_and!; [done| |done]. cbn [map]. rewrite last_cons.
    by destruct (last (map Some l)).
Qed.

(** Going back to a known state, over blocks of which the state is not known. *)
Context (Htimes : times_ok h) (Hstart : BeginTime <= EndTime).

(** The shortcut: before the start time every state is [THRESHOLD_DEFINED]. *)
Lemma early_defined p b : aligned p b -> mtp h p < BeginTime -> bip9_state h (Some p) THRESHOLD_DEFINED.
Proof.
  assert (forall n p b, aligned p b -> (Z.to_nat (nHeight b) < n)%nat -> mtp h p < BeginTime ->
    bip9_state h (Some p) THRESHOLD_DEFINED) as H.
  { clear p b. induction n as [|n IH]; intros p b Ha Hn Ht; [lia|].
    pose proof (aligned_prev p b Ha) as Hprev. pose proof (aligned_height p b Ha). pose proof Ha as [Hp Hm].
    apply (state_period h p b THRESHOLD_DEFINED); [done|done| |apply defined_stays; lia].
    destruct (ancestor h p (nHeight b - Period)) as [q|]; [|apply state_genesis].
    destruct Hprev as (bq&Haq&Hh&Hbk). apply (IH q bq); [done| |].
    - pose proof (height_range q bq (proj1 Haq)). lia.
    - pose proof (mtp_back h Hok Htimes _ _ _ Hbk). lia. }
  intros Ha. eapply H; [exact Ha|]. apply Nat.lt_succ_diag_r.
Qed.

Lemma walk_back_ok fuel cache p v :
  cache_ok h cache -> path_ok p (rev v) ->
  match p with
  | None => True
  | Some q => exists b, aligned q b /\ (S (Z.to_nat (nHeight b)) <= fuel)%nat
  end ->
  exists cache' p' v' s, walk_back h fuel cache p v = Some (cache', p', v') /\
    cache_ok h cache' /\ cache' !! p' = Some s /\ path_ok p' (rev v') /\
    default p' (last (map Some (rev v'))) = default p (last (map Some (rev v))).
Proof.
  revert cache p v. induction fuel as [|fuel IH]; intros cache p v Hc Hpath Hp; cbn [walk_back].
  all: destruct (cache !! p) as [s|] eqn:Es; [by exists cache, p, v, s|].
  all: destruct p as [q|].
  all: try (exists (<[None := THRESHOLD_DEFINED]> cache), None, v, THRESHOLD_DEFINED;
    split_and!; [done| |by rewrite lookup_insert_eq|done|done];
    apply map_Forall_insert_2; [apply state_genesis|done]).
  { destruct Hp as (b&_&Hf). lia. }
  destruct Hp as (b&Ha&Hf). pose proof Ha as [Hq _]. rewrite (mtp_spec h Hok q b Hq). cbn [mbind option_bind].
  destruct (Z.ltb_spec (mtp h q) BeginTime) as [Hlt|Hge].
  { exists (<[Some q := THRESHOLD_DEFINED]> cache), (Some q), v, THRESHOLD_DEFINED.
    split_and!; [done| |by rewrite lookup_insert_eq|done|done].
    apply map_Forall_insert_2; [by apply (early_defined q b)|done]. }
  rewrite Hq. cbn [mbind option_bind]. rewrite (GetAncestor_spec h q b) by done. cbn [mbind option_bind].
  pose proof (aligned_prev q b Ha) as Hprev.
  destruct (IH cache (ancestor h q (nHeight b - Period)) (v ++ [q])) as (c'&p'&v'&s&E&Hc'&Hs&Hpath'&Hend).
  - done.
  - rewrite rev_unit. cbn [path_ok]. split; [by exists b|done].
  - destruct (ancestor h q _) as [r|]; [|done]. destruct Hprev as (br&Har&Hh&_).
    exists br. split; [done|]. pose proof (height_range r br (proj1 Har)). lia.
  - exists c', p', v', s. split_and!; try done. rewrite Hend, rev_unit. cbn [map]. rewrite last_cons.
    by destruct (last (map Some (rev v))).
Qed.

Lemma GetStateFor_ok cache p :
  cache_ok h cache -> match p with None => True | Some q => is_Some (h !! q) end ->
  exists s cache', GetStateFor h cache p = Some (s, cache') /\
    bip9_state h (period_end h p) s /\ cache_ok h cache'.
Proof.
  intros Hc Hp. unfold GetStateFor.
  assert (match p with None => Some None | Some p => first_of_period h p end = Some (period_end h p)) as ->.
  { destruct p as [q|]; [|done]. destruct Hp as [b Hb]. by apply (first_of_period_spec q b). }
  cbn [mbind option_bind]. pose proof (period_end_aligned p) as Ha.
  destruct (walk_back_ok (match period_end h p with None => O
     | Some p => match h !! p with Some b => S (Z.to_nat (nHeight b)) | None => O end end) cache
     (period_end h p) []) as (c'&p'&v'&s&E&Hc'&Hs&Hpath&Hend).
  - done.
  - done.
  - destruct (period_end h p) as [q|]; [|done]. destruct Ha as (b&Hq&Hm). rewrite Hq. by exists b.
  - rewrite E. cbn [mbind option_bind]. rewrite Hs. cbn [mbind option_bind].
    assert (bip9_state h p' s) as Hst by exact (Hc' p' s Hs).
    destruct (walk_forward_ok p' (rev v') c' s Hpath Hst Hc') as (s'&c''&E'&Hs'&Hc'').
    exists s', c''. split_and!; [done| |done]. by rewrite Hend in Hs'.
Qed.
End refinement.

(** ** BIP 9 is deterministic *)

Section deterministic.
Context (h : heap) `{chk : AbstractThresholdConditionChecker}.

Lemma bip9_step_det p s s1 s2 : bip9_step h p s s1 -> bip9_step h p s s2 -> s1 = s2.
Proof. intros H1 H2. destruct H1; inversion H2; subst; done || lia. Qed.

Lemma bip9_state_det p s1 s2 : bip9_state h p s1 -> bip9_state h p s2 -> s1 = s2.
Proof.
  intros H1. revert s2. induction H1 as [|p b s s' Hp Hm Hs IH Hstep]; intros s2 H2.
  - by inversion H2.
  - inversion H2 as [|p' b' s0 s0' Hp' Hm' Hs0 Hstep0]; subst. assert (b' = b) as -> by congruence.
    assert (s = s0) as -> by (by apply IH). by apply (bip9_step_det p s0).
Qed.
End deterministic.

(** ** Rules that agree on a chain *)

Section agree.
Context (h : heap).

(** Two rules agree when they have the same parameters and the same blocks signal. *)
Definition rules_agree (chk chk' : AbstractThresholdConditionChecker) : Prop :=
  BeginTime (AbstractThresholdConditionChecker := chk) = BeginTime (AbstractThresholdConditionChecker := chk') /\
  EndTime (AbstractThresholdConditionChecker := chk) = EndTime (AbstractThresholdConditionChecker := chk') /\
  Period (AbstractThresholdConditionChecker := chk) = Period (AbstractThresholdConditionChecker := chk') /\
  Threshold (AbstractThresholdConditionChecker := chk) = Threshold (AbstractThresholdConditionChecker := chk') /\
  forall p b, h !! p = Some b ->
    Condition (AbstractThresholdConditionChecker := chk) p = Condition (AbstractThresholdConditionChecker := chk') p.

Lemma rules_agree_sym chk chk' : rules_agree chk chk' -> rules_agree chk' chk.
Proof. intros (?&?&?&?&Hc). split_and!; [done..|]. intros p b Hp. symmetry. by apply (Hc p b). Qed.

Context (Hok : index_ok h).

Lemma signals_agree chk chk' p b :
  rules_agree chk chk' -> h !! p = Some b ->
  Period (AbstractThresholdConditionChecker := chk) <= nHeight b + 1 -> signals h (chk := chk) p = signals h (chk := chk') p.
Proof.
  intros (_&_&HP&_&Hc) Hp Hle. unfold signals. rewrite <- HP. f_equal.
  assert (forall l, Forall (fun i => Z.of_nat i <= nHeight b) l ->
    length (filter (fun i => (q ← back h i p; Condition (AbstractThresholdConditionChecker := chk) q) = Some true) l) =
    length (filter (fun i => (q ← back h i p; Condition (AbstractThresholdConditionChecker := chk') q) = Some true) l)) as H.
  { induction 1 as [|i l Hi _ IH]; [done|]. rewrite !filter_cons.
    destruct (back_ok h i p b Hok Hp ltac:(lia)) as (q&bq&E&Hq&_). rewrite E. cbn [mbind option_bind]. rewrite (Hc q bq Hq).
    destruct (decide _); cbn [length]; by rewrite IH. }
  apply H, list.Forall_forall. intros i Hi%elem_of_seq. lia.
Qed.

Lemma bip9_step_agree chk chk' p b s s' :
  rules_agree chk chk' -> h !! p = Some b -> Period (AbstractThresholdConditionChecker := chk) <= nHeight b + 1 ->
  bip9_step h (chk := chk) p s s' -> bip9_step h (chk := chk') p s s'.
Proof.
  intros Ha Hp Hle Hs. pose proof (signals_agree chk chk' p b Ha Hp Hle) as Hsig. destruct Ha as (HB&HE&_&HT&_).
  destruct Hs; rewrite ?HB, ?HE, ?HT, ?Hsig in *; by constructor.
Qed.

Lemma bip9_state_agree chk chk' p s :
  0 < Period (AbstractThresholdConditionChecker := chk) -> rules_agree chk chk' ->
  bip9_state h (chk := chk) p s -> bip9_state h (chk := chk') p s.
Proof.
  intros Hper Ha. induction 1 as [|p b s s' Hp Hm _ IH Hstep]; [apply state_genesis|].
  pose proof (aligned_height h Hok (chk := chk) Hper p b (conj Hp Hm)) as Hle.
  pose proof Ha as (_&_&HP&_). apply (state_period h (chk := chk') p b s); [done|by rewrite <- HP|by rewrite <- HP|].
  by apply (bip9_step_agree chk chk' p b).
Qed.
End agree.

(** ** The deployments *)

(** The parenthesis of the condition makes [?:] select between two non-zero constants: the
    top bits of the version are not looked at. *)
Lemma condition_ignores_top_bits h params d p b :
  index_ok h -> h !! p = Some b ->
  VersionBits_Condition h params d p = Some (negb ((u32 (nVersion b) .& Mask d) =? 0)).
Proof.
  intros Hok Hp. unfold VersionBits_Condition, IsSigHFEnabled. rewrite Hp. cbn [mbind option_bind].
  rewrite (mtp_spec h Hok p b Hp). cbn [mbind option_bind]. cbv zeta. f_equal. by destruct (_ =? Z.b2z _).
Qed.

(** What the parameters of a network satisfy: the window and the threshold fit an [int], the
    bits are bits of a version, and no deployment times out before it starts. *)
Definition params_ok (params : DeploymentParams) : Prop :=
  0 < nMinerConfirmationWindow params < 2 ^ 31 /\ 0 <= nRuleChangeActivationThreshold params < 2 ^ 31 /\
  length (vDeployments params) = MAX_VERSION_BITS_DEPLOYMENTS /\
  Forall (fun d => 0 <= bit d < 32 /\ nStartTime d <= nTimeout d) (vDeployments params).

#[export] Instance params_ok_dec params : Decision (params_ok params).
Proof. unfold params_ok. apply _. Defined.

(** Which versions signal a deployment.  By BIP 9 (with the top bits of this network, see
    versionbits.h) the version has the top bits and the bit of the deployment. *)
Definition bit_signal (d : BIP9Deployment) (version : Z) : bool := Z.testbit version (bit d).
Definition bip9_signal (d : BIP9Deployment) (version : Z) : bool :=
  ((version .& VERSIONBITS_TOP_MASK) =? VERSIONBITS_TOP_BITS) && bit_signal d version.

(** The rules of BIP 9 for a deployment, with a given signal. *)
Definition bip9_rules (h : heap) (params : DeploymentParams) (signal : BIP9Deployment -> Z -> bool) (d : BIP9Deployment)
    : AbstractThresholdConditionChecker := {|
  Condition p := b ← h !! p; Some (signal d (nVersion b));
  BeginTime := nStartTime d;
  EndTime := nTimeout d;
  Period := nMinerConfirmationWindow params;
  Threshold := nRuleChangeActivationThreshold params;
|}.

(** The state of deployment [pos] for the block after [pindexPrev]. *)
Definition deployment_state (h : heap) (params : DeploymentParams) (signal : BIP9Deployment -> Z -> bool)
    (pindexPrev : option ptr) (pos : nat) (s : ThresholdState) : Prop :=
  exists d, vDeployments params !! pos = Some d /\
    bip9_state h (chk := bip9_rules h params signal d) (period_end h (chk := bip9_rules h params signal d) pindexPrev) s.

Definition caches_ok (h : heap) (params : DeploymentParams) (caches : VersionBitsCache) : Prop :=
  length caches = MAX_VERSION_BITS_DEPLOYMENTS /\
  forall pos d c, vDeployments params !! pos = Some d -> caches !! pos = Some c ->
    cache_ok h (chk := bip9_rules h params bit_signal d) c.

Lemma version_mask_bit d v : 0 <= bit d < 32 -> negb ((u32 v .& Mask d) =? 0) = bit_signal d v.
Proof.
  intros Hb. unfold Mask, u32, bit_signal. rewrite Z.shiftl_1_l, (Z.mod_small (2 ^ bit d)).
  2: { split; [apply Z.pow_nonneg; lia|apply Z.pow_lt_mono_r; lia]. }
  rewrite <- (Z.mod_pow2_bits_low v 32 (bit d)) by lia. generalize (v mod 2 ^ 32). intros w.
  destruct (Z.testbit w (bit d)) eqn:E.
  - apply negb_true_iff, Z.eqb_neq. intros E0. apply (f_equal (fun x => Z.testbit x (bit d))) in E0.
    rewrite Z.land_spec, E, Z.pow2_bits_true, Z.bits_0 in E0 by lia. done.
  - apply negb_false_iff, Z.eqb_eq, Z.bits_inj_0. intros n. rewrite Z.land_spec.
    destruct (decide (n = bit d)) as [->|Hn]; [by rewrite E|]. rewrite Z.pow2_bits_false by lia. apply andb_false_r.
Qed.

(** The rules in the code are those with the bit alone as the signal. *)
Lemma code_rules h params d :
  index_ok h -> params_ok params -> d ∈ vDeployments params ->
  rules_agree h (VersionBitsConditionChecker h params d) (bip9_rules h params bit_signal d).
Proof.
  intros Hok (Hw&Ht&_&Hd) Hin. rewrite list.Forall_forall in Hd. destruct (Hd d Hin) as [Hbit _].
  assert (forall n, n < 2 ^ 31 -> int_of_uint32 n = n) as Hint
    by (intros n Hn; unfold int_of_uint32; by rewrite (proj2 (Z.ltb_lt _ _))).
  unfold rules_agree. cbn [BeginTime EndTime Period Threshold Condition VersionBitsConditionChecker bip9_rules].
  split_and!; [done|done|apply Hint; lia|apply Hint; lia|]. intros p b Hp.
  rewrite (condition_ignores_top_bits h params d p b Hok Hp), Hp. cbn [mbind option_bind]. by rewrite version_mask_bit.
Qed.

(** On a chain where whoever sets the bit also sets the top bits, they are those of BIP 9. *)
Lemma bip9_rules_agree h params d :
  (forall p b, h !! p = Some b -> bit_signal d (nVersion b) = true -> bip9_signal d (nVersion b) = true) ->
  rules_agree h (bip9_rules h params bit_signal d) (bip9_rules h params bip9_signal d).
Proof.
  intros Hb. split_and!; [done..|]. intros p b Hp. cbn [Condition bip9_rules]. rewrite Hp. cbn [mbind option_bind]. f_equal.
  specialize (Hb p b Hp). unfold bip9_signal in *. destruct (bit_signal d (nVersion b)); [by rewrite Hb|by rewrite andb_false_r].
Qed.

Lemma caches_clear_ok h params : caches_ok h params VersionBitsCache_Clear.
Proof.
  split; [done|]. intros pos d c _ Hc. unfold VersionBitsCache_Clear in Hc.
  apply lookup_replicate in Hc as [-> _]. apply map_Forall_empty.
Qed.

Lemma VersionBitsState_ok h params caches p pos :
  index_ok h -> times_ok h -> params_ok params -> caches_ok h params caches ->
  match p with None => True | Some q => is_Some (h !! q) end -> (pos < MAX_VERSION_BITS_DEPLOYMENTS)%nat ->
  exists s caches', VersionBitsState h params caches p pos = Some (s, caches') /\
    deployment_state h params bit_signal p pos s /\ caches_ok h params caches'.
Proof.
  intros Hok Ht Hpar [Hlc Hcs] Hp Hpos. pose proof Hpar as (Hw&_&Hlen&Hse). unfold VersionBitsState.
  destruct (lookup_lt_is_Some_2 (vDeployments params) pos) as [d Hd]; [lia|].
  assert (d ∈ vDeployments params) as Hin by by eapply list_elem_of_lookup_2.
  destruct (lookup_lt_is_Some_2 caches pos) as [c Hc]; [lia|]. rewrite Hd, Hc. cbn [mbind option_bind].
  pose proof (code_rules h params d Hok Hpar Hin) as Ha. pose proof (rules_agree_sym _ _ _ Ha) as Ha'.
  pose proof Ha as (_&_&HP&_). assert (0 < Period (AbstractThresholdConditionChecker := VersionBitsConditionChecker h params d)) as Hper
    by (rewrite HP; cbn; lia).
  assert (forall q s, bip9_state h (chk := VersionBitsConditionChecker h params d) q s <->
    bip9_state h (chk := bip9_rules h params bit_signal d) q s) as Heq.
  { intros q s. split; apply bip9_state_agree; try done. cbn. lia. }
  rewrite list.Forall_forall in Hse. destruct (Hse d Hin) as [_ Hst].
  destruct (GetStateFor_ok h Hok (chk := VersionBitsConditionChecker h params d) Hper) with (cache := c) (p := p)
    as (s&c'&E&Hs&Hc'); try done.
  - intros q b Hq. cbn [Condition VersionBitsConditionChecker].
    rewrite (condition_ignores_top_bits h params d q b Hok Hq). done.
  - intros q s Hq. apply Heq. by apply (Hcs pos d c).
  - rewrite E. cbn [mbind option_bind]. exists s, (<[pos := c']> caches). split_and!; [done| |].
    { exists d. split; [done|]. apply Heq. unfold period_end in Hs |- *. by rewrite HP in Hs. }
    split; [by rewrite length_insert|]. intros pos' d' c2 Hd' Hl.
    destruct (decide (pos' = pos)) as [->|Hne].
    + rewrite list_lookup_insert_eq in Hl by lia. injection Hl as <-. assert (d' = d) as -> by congruence.
      intros q s0 Hq. by apply Heq, Hc'.
    + rewrite list_lookup_insert_ne in Hl by done. by apply (Hcs pos' d' c2).
Qed.

Lemma deployment_state_det h params signal p pos s1 s2 :
  deployment_state h params signal p pos s1 -> deployment_state h params signal p pos s2 -> s1 = s2.
Proof. intros (d&Hd&H1) (d'&Hd'&H2). simplify_eq. by eapply bip9_state_det. Qed.

Lemma deployment_state_bip9 h params p pos s :
  index_ok h -> params_ok params -> deployment_state h params bit_signal p pos s ->
  (forall d q b, vDeployments params !! pos = Some d -> h !! q = Some b -> bit_signal d (nVersion b) = true ->
     (nVersion b .& VERSIONBITS_TOP_MASK) = VERSIONBITS_TOP_BITS) ->
  deployment_state h params bip9_signal p pos s.
Proof.
  intros Hok (Hw&_) (d&Hd&Hs) Htop. exists d. split; [done|]. unfold period_end in *.
  refine (bip9_state_agree h Hok (bip9_rules h params bit_signal d) _ _ _ _ _ Hs); [cbn; lia|].
  apply bip9_rules_agree. intros q b Hq Hb. unfold bip9_signal. by rewrite (Htop d q b Hd Hq Hb), Hb.
Qed.

(** C4: The state that [VersionBitsState] returns is the one state that the state machine of
    BIP 9 assigns to the deployment for the block after [pindexPrev], found by one transition
    per complete period from the genesis block on, where a block signals when it has the bit
    of the deployment, whatever its top bits: the code does not test them (a misplaced
    parenthesis).  When every block with the bit also has the top bits of versionbits.h, it is
    the state by BIP 9's own signal.  The caches may hold any states that are right, and they
    are right again after the call; the walk over the chain ends and stays inside the index.
    The shortcut for early blocks needs that no block is earlier than the median time of its
    predecessors, and that deployments start before they time out. *)
Theorem versionbits_is_bip9 h params caches p pos :
  index_ok h -> times_ok h -> params_ok params -> caches_ok h params caches ->
  match p with None => True | Some q => is_Some (h !! q) end -> (pos < MAX_VERSION_BITS_DEPLOYMENTS)%nat ->
  exists s caches', VersionBitsState h params caches p pos = Some (s, caches') /\
    deployment_state h params bit_signal p pos s /\ (forall s', deployment_state h params bit_signal p pos s' -> s' = s) /\
    ((forall d q b, vDeployments params !! pos = Some d -> h !! q = Some b -> bit_signal d (nVersion b) = true ->
        (nVersion b .& VERSIONBITS_TOP_MASK) = VERSIONBITS_TOP_BITS) ->
     deployment_state h params bip9_signal p pos s /\ (forall s', deployment_state h params bip9_signal p pos s' -> s' = s)) /\
    caches_ok h params caches'.
Proof.
  intros Hok Ht Hpar Hcs Hp Hpos.
  destruct (VersionBitsState_ok h params caches p pos Hok Ht Hpar Hcs Hp Hpos) as (s&caches'&E&Hs&Hc').
  exists s, caches'. split_and!; try done; [intros s' Hs'; by eapply deployment_state_det|]. intros Htop.
  pose proof (deployment_state_bip9 h params p pos s Hok Hpar Hs Htop). split; [done|]. intros s' Hs'. by eapply deployment_state_det.
Qed.

(** The version with the bits of the deployments [l] that are to be signalled. *)
Definition version_bits (params : DeploymentParams) (st : nat -> ThresholdState) (v : Z) (l : list nat) : Z :=
  foldl (fun v i => if signalling (st i) then v .| default 0 (VersionBitsMask params i) else v) v l.

(** [ComputeBlockVersion] returns the top bits that the block time selects together with
    the bits of exactly those deployments whose BIP 9 state is started, locked in or active,
    and the segregated-witness bit when that deployment is active, and leaves right caches. *)
Theorem compute_block_version h params caches p st :
  index_ok h -> times_ok h -> params_ok params -> caches_ok h params caches ->
  match p with None => True | Some q => is_Some (h !! q) end ->
  (forall i, (i < MAX_VERSION_BITS_DEPLOYMENTS)%nat -> deployment_state h params bit_signal p i (st i)) ->
  exists sig caches', IsSigHFEnabled h params p = Some sig /\ caches_ok h params caches' /\
    ComputeBlockVersion h params caches p =
      Some (let v := version_bits params st
                       (if sig : bool then VERSIONBITS_TOP_BITS_SIG else VERSIONBITS_TOP_BITS)
                       (seq 0 MAX_VERSION_BITS_DEPLOYMENTS) in
            if bool_decide (st DEPLOYMENT_SEGWIT = THRESHOLD_ACTIVE) then v .| nSegWitVersionMask else v,
            caches').
Proof.
  intros Hok Ht Hpar Hcs Hp Hst.
  assert (exists sig, IsSigHFEnabled h params p = Some sig) as [sig Hsig].
  { destruct p as [q|]; [|by exists false]. destruct Hp as [b Hb]. unfold IsSigHFEnabled.
    rewrite (mtp_spec h Hok q b Hb). cbn [mbind option_bind]. eauto. }
  assert (forall caches i, caches_ok h params caches -> (i < MAX_VERSION_BITS_DEPLOYMENTS)%nat ->
    exists caches', VersionBitsState h params caches p i = Some (st i, caches') /\ caches_ok h params caches') as Hvb.
  { intros cs i Hcs' Hi. destruct (VersionBitsState_ok h params cs p i Hok Ht Hpar Hcs' Hp Hi) as (s&cs'&E&Hs&Hc').
    exists cs'. split; [|done]. rewrite E. do 2 f_equal.
    exact (deployment_state_det _ _ _ _ _ _ _ Hs (Hst i Hi)). }
  assert (forall l v cs, Forall (fun i => (i < MAX_VERSION_BITS_DEPLOYMENTS)%nat) l -> caches_ok h params cs ->
    exists cs', caches_ok h params cs' /\ foldl (fun r i =>
      '(nVersion, caches) ← r;
      '(state, caches) ← VersionBitsState h params caches p i;
      mask ← VersionBitsMask params i;
      Some (if signalling state then nVersion .| mask else nVersion, caches))
      (Some (v, cs)) l = Some (version_bits params st v l, cs')) as Hfold.
  { induction l as [|i l IH]; intros v cs Hl Hc; [by exists cs|].
    apply Forall_cons_1 in Hl as [Hi Hl]. destruct (Hvb cs i Hc Hi) as (cs1&E1&Hc1).
    cbn [foldl version_bits mbind option_bind]. rewrite E1. cbn [mbind option_bind].
    assert (exists m, VersionBitsMask params i = Some m) as [m Hm].
    { destruct Hpar as (_&_&Hlen&_). destruct (lookup_lt_is_Some_2 (vDeployments params) i) as [d Hd]; [lia|].
      unfold VersionBitsMask. rewrite Hd. cbn [mbind option_bind]. eauto. }
    rewrite Hm. cbn [mbind option_bind default from_option id]. by apply IH. }
  destruct (Hfold (seq 0 MAX_VERSION_BITS_DEPLOYMENTS)
    (if sig : bool then VERSIONBITS_TOP_BITS_SIG else VERSIONBITS_TOP_BITS) caches) as (cs1&Hc1&E1); [|done|].
  { apply list.Forall_forall. intros i Hi%elem_of_seq. lia. }
  destruct (Hvb cs1 DEPLOYMENT_SEGWIT Hc1) as (cs2&E2&Hc2); [unfold DEPLOYMENT_SEGWIT, MAX_VERSION_BITS_DEPLOYMENTS; lia|].
  exists sig, cs2. split_and!; [done|done|]. unfold ComputeBlockVersion. rewrite Hsig. cbn [mbind option_bind].
  cbv zeta. rewrite E1. cbn [mbind option_bind]. unfold IsWitnessEnabled. rewrite E2. cbn [mbind option_bind]. done.
Qed.

(** ** Witnesses *)

Definition times_okb (h : heap) : bool :=
  forallb (fun '(p, b) => match pprev b with
    | None => true
    | Some q => match GetMedianTimePast h q with Some m => m <=? nTime b | None => true end
    end) (map_to_list h).

Lemma times_okb_ok h : times_okb h = true -> times_ok h.
Proof.
  unfold times_okb. rewrite forallb_forall. intros H p b q m Hp Hq Hm.
  specialize (H (p, b)). cbv beta iota in H. rewrite Hq, Hm in H. apply Z.leb_le, H.
  apply list_elem_of_In, elem_of_map_to_list, Hp.
Qed.

(** Six deployments on the bit that the blocks of the sample set; periods of two blocks. *)
Definition sample_params : DeploymentParams :=
  mkDeploymentParams 1 2 (replicate 6 (mkDeployment 0 500 (2 ^ 40))) (2 ^ 40).

Lemma sample_times : times_ok (st_heap Sample.index).
Proof. apply times_okb_ok. vm_compute. reflexivity. Qed.

Lemma sample_params_ok : params_ok sample_params.
Proof. apply (bool_decide_unpack _). by vm_compute. Qed.

(** The block after the last one of the sample chain. *)
Lemma versionbits_is_bip9_witness :
  exists s caches',
    VersionBitsState (st_heap Sample.index) sample_params VersionBitsCache_Clear (Some 7%positive) 2 =
      Some (s, caches') /\
    deployment_state (st_heap Sample.index) sample_params bit_signal (Some 7%positive) 2 s.
Proof.
  destruct (versionbits_is_bip9 (st_heap Sample.index) sample_params VersionBitsCache_Clear (Some 7%positive) 2)
    as (s&c&E&Hs&_).
  - exact (ok_index _ sample_ok).
  - exact sample_times.
  - exact sample_params_ok.
  - apply caches_clear_ok.
  - vm_compute. by eexists.
  - unfold MAX_VERSION_BITS_DEPLOYMENTS. lia.
  - exists s, c. exact (conj E Hs).
Defined.

Lemma compute_block_version_witness :
  exists caches',
    ComputeBlockVersion (st_heap Sample.index) sample_params VersionBitsCache_Clear (Some 7%positive) =
      Some (0x70000021, caches').
Proof.
  destruct (compute_block_version (st_heap Sample.index) sample_params VersionBitsCache_Clear (Some 7%positive)
    (fun _ => THRESHOLD_ACTIVE)) as (sig&c&Hsig&_&E).
  - exact (ok_index _ sample_ok).
  - exact sample_times.
  - exact sample_params_ok.
  - apply caches_clear_ok.
  - vm_compute. by eexists.
  - intros i Hi.
    destruct (VersionBitsState_ok (st_heap Sample.index) sample_params VersionBitsCache_Clear (Some 7%positive) i)
      as (s&cs&E&Hs&_); [exact (ok_index _ sample_ok)|exact sample_times|exact sample_params_ok
      |apply caches_clear_ok|vm_compute; by eexists|exact Hi|].
    replace THRESHOLD_ACTIVE with s; [exact Hs|].
    apply (f_equal (fmap fst)) in E. cbn [fmap option_fmap option_map fst] in E.
    assert (Some s = Some THRESHOLD_ACTIVE) as [= ->]; [|reflexivity]. rewrite <- E.
    unfold MAX_VERSION_BITS_DEPLOYMENTS in Hi. do 6 (destruct i as [|i]; [vm_compute; reflexivity|]). lia.
  - exists c. rewrite E. vm_compute in Hsig. injection Hsig as <-. reflexivity.
Defined.

(** ** Without the rule for block times

    The validation of headers does not enforce the rule.  Two chains of blocks that all
    signal, with periods of one block: when later blocks are dated back, the median time
    falls below the start of the deployment, and a deployment that was active is reported
    as defined. *)

Module BackDated.
Definition block (height time : Z) : CBlockIndex :=
  set_links (CBlockIndex_of_header (mkHeader 1 uint256_null uint256_null time 0x207fffff 0)) None
    (if height =? 0 then None else Some (Z.to_pos height)) height.
Definition times : list Z := [100; 101; 102; 103; 10; 11; 12; 13; 14].
Definition chain : heap :=
  list_to_map (imap (fun i t => (Pos.of_succ_nat i, block (Z.of_nat i) t)) times).
Definition params : DeploymentParams :=
  mkDeploymentParams 1 1 (replicate 6 (mkDeployment 0 50 (2 ^ 40))) (2 ^ 40).
Definition state_after (p : ptr) : option ThresholdState :=
  fst <$> VersionBitsState chain params VersionBitsCache_Clear (Some p) DEPLOYMENT_SEGWIT.
End BackDated.

Lemma active_deployment_lost :
  BackDated.state_after 4%positive = Some THRESHOLD_ACTIVE /\
  BackDated.state_after 9%positive = Some THRESHOLD_DEFINED.
Proof. vm_compute. done. Qed.
