(* ===== verification/Serialize.v ===== *)
(** * Serialization: [src/src/serialize.h]

    The integers of the network and disk formats: fixed-width words, compact sizes and
    variable-length integers.  Writing gives the bytes that are appended to the stream;
    reading takes the bytes that remain and gives a value and the rest, or the exception
    that is thrown. *)

From S2P Require Import Prelude SphTypes.

#[local] Open Scope c_scope.

(** ** Streams *)

(** [std::ios_base::failure], and a failed assertion, which ends the program *)
Inductive ser_error :=
  | EndOfData
  | NonCanonical
  | SizeTooLarge
  | StringLimit
  | SuperfluousWitness
  | UnknownOptionalData
  | AssertionFailed.

Definition result (A : Type) : Type := ser_error + A.

#[export] Instance result_ret : MRet result := fun A x => inr x.
#[export] Instance result_bind : MBind result := fun A B f m =>
  match m with inl e => inl e | inr x => f x end.

Definition throw {A} (e : ser_error) : result A := inl e.

(** [s.read(pch, nSize)] *)
Definition read (n : nat) (s : list Z) : result (list Z * list Z) :=
  if (n <=? length s)%nat then inr (take n s, drop n s) else inl EndOfData.

(** [s.ignore(nSize)] *)
Definition ignore (n : nat) (s : list Z) : result (list Z) :=
  if (n <=? length s)%nat then inr (drop n s) else inl EndOfData.

(** ** Words, on a little-endian machine *)

Definition ser_writedata8 (obj : Z) : list Z := [uchar obj].
Definition ser_writedata16 (obj : Z) : list Z := store_le 2 obj.
Definition ser_writedata32 (obj : Z) : list Z := store_le 4 obj.
Definition ser_writedata64 (obj : Z) : list Z := store_le 8 obj.

Definition ser_readdata (n : nat) (s : list Z) : result (Z * list Z) :=
  '(b, s) ← read n s; mret (load_le n b, s).
Definition ser_readdata8 : list Z -> result (Z * list Z) := ser_readdata 1.
Definition ser_readdata16 : list Z -> result (Z * list Z) := ser_readdata 2.
Definition ser_readdata32 : list Z -> result (Z * list Z) := ser_readdata 4.
Definition ser_readdata64 : list Z -> result (Z * list Z) := ser_readdata 8.

(** ** Compact sizes *)

Definition MAX_SIZE : Z := 0x02000000.

Definition GetSizeOfCompactSize (nSize : Z) : Z :=
  if nSize <? 253 then 1
  else if nSize <=? 0xFFFF then 1 + 2
  else if nSize <=? 0xFFFFFFFF then 1 + 4
  else 1 + 8.

Definition WriteCompactSize (nSize : Z) : list Z :=
  if nSize <? 253 then ser_writedata8 nSize
  else if nSize <=? 0xFFFF then ser_writedata8 253 ++ ser_writedata16 nSize
  else if nSize <=? 0xFFFFFFFF then ser_writedata8 254 ++ ser_writedata32 nSize
  else ser_writedata8 255 ++ ser_writedata64 nSize.

Definition ReadCompactSize (s : list Z) : result (Z * list Z) :=
  '(chSize, s) ← ser_readdata8 s;
  '(nSizeRet, s) ←
    (if chSize <? 253 then mret (chSize, s)
     else if chSize =? 253 then
       '(n, s) ← ser_readdata16 s;
       if n <? 253 then throw NonCanonical else mret (n, s)
     else if chSize =? 254 then
       '(n, s) ← ser_readdata32 s;
       if n <? 0x10000 then throw NonCanonical else mret (n, s)
     else
       '(n, s) ← ser_readdata64 s;
       if n <? 0x100000000 then throw NonCanonical else mret (n, s));
  if nSizeRet >? MAX_SIZE then throw SizeTooLarge else mret (nSizeRet, s).

(** [LimitedString<Limit>] *)
Definition LimitedString_Serialize (str : list Z) : list Z :=
  WriteCompactSize (Z.of_nat (length str)) ++ str.

Definition LimitedString_Unserialize (Limit : Z) (s : list Z) : result (list Z * list Z) :=
  '(size, s) ← ReadCompactSize s;
  if size >? Limit then throw StringLimit else read (Z.to_nat size) s.

(** ** Variable-length integers, for an unsigned type of [w] bits *)

Fixpoint GetSizeOfVarInt_loop (fuel : nat) (n : Z) (nRet : Z) : option Z :=
  match fuel with
  | O => None
  | S fuel =>
      let nRet := nRet + 1 in
      if n <=? 0x7F then Some nRet else GetSizeOfVarInt_loop fuel ((n >> 7) - 1) nRet
  end.

(** [unsigned char tmp[(sizeof(n)*8+6)/7]] *)
Definition varint_size (w : Z) : nat := Z.to_nat ((w + 6) / 7).

Definition GetSizeOfVarInt (w n : Z) : option Z := GetSizeOfVarInt_loop (varint_size w) n 0.

(** The loop that fills [tmp]; [room] is what is left of the array, and writing past its end
    gives [None]. *)
Fixpoint WriteVarInt_loop (room : nat) (n : Z) (tmp : list Z) : option (list Z) :=
  match room with
  | O => None
  | S room =>
      let tmp := tmp ++ [(n .& 0x7F) .| (if (length tmp =? 0)%nat then 0x00 else 0x80)] in
      if n <=? 0x7F then Some tmp else WriteVarInt_loop room ((n >> 7) - 1) tmp
  end.

(** The bytes of [tmp], the last one first. *)
Definition WriteVarInt (w n : Z) : option (list Z) :=
  tmp ← WriteVarInt_loop (varint_size w) n [];
  Some (rev tmp).

(** Every iteration reads a byte. *)
Fixpoint ReadVarInt_loop (w n : Z) (s : list Z) : result (Z * list Z) :=
  match s with
  | [] => inl EndOfData
  | chData :: s =>
      let n := ((n << 7) mod 2 ^ w) .| (chData .& 0x7F) in
      if negb (chData .& 0x80 =? 0) then ReadVarInt_loop w ((n + 1) mod 2 ^ w) s
      else inr (n, s)
  end.
Definition ReadVarInt (w : Z) (s : list Z) : result (Z * list Z) := ReadVarInt_loop w 0 s.

(** ** Reference: the encodings *)

(** [cont m cs]: the continuation bytes [cs] stand for [m]; the byte that follows adds to
    [(m + 1) * 128]. *)
Inductive cont : Z -> list Z -> Prop :=
  | cont_one d : 0 <= d < 128 -> cont d [d + 128]
  | cont_more m cs d : cont m cs -> 0 <= d < 128 -> cont ((m + 1) * 128 + d) (cs ++ [d + 128]).

(** The encoding of a number. *)
Inductive varint : Z -> list Z -> Prop :=
  | varint_one d : 0 <= d < 128 -> varint d [d]
  | varint_more m cs d : cont m cs -> 0 <= d < 128 -> varint ((m + 1) * 128 + d) (cs ++ [d]).

(** ** Words *)

Lemma read_app n b s : length b = n -> read n (b ++ s) = inr (b, s).
Proof.
  intros Hl. unfold read. rewrite length_app, Hl.
  destruct (Nat.leb_spec n (n + length s)); [|lia]. by rewrite take_app_length', drop_app_length'.
Qed.

Lemma ser_readdata_store n x s :
  word (8 * Z.of_nat n) x -> ser_readdata n (store_le n x ++ s) = inr (x, s).
Proof.
  intros Hx. unfold ser_readdata. rewrite read_app by apply length_store_le.
  cbn [mbind result_bind]. by rewrite load_le_store_le.
Qed.

(** What was read is what writing gives. *)
Lemma ser_readdata_inv n s x r :
  Forall byte s -> ser_readdata n s = inr (x, r) ->
  s = store_le n x ++ r /\ word (8 * Z.of_nat n) x /\ Forall byte r.
Proof.
  intros Hs. unfold ser_readdata, read. destruct (Nat.leb_spec n (length s)) as [Hle|]; [|done].
  cbn [mbind result_bind mret result_ret]. intros [= <- <-].
  rewrite store_le_load_le; [|by apply Forall_take|by rewrite length_take; lia].
  rewrite take_drop. split_and!; [done| |by apply Forall_drop].
  apply load_le_word; [by apply Forall_take|]. rewrite length_take. lia.
Qed.

(** Compact sizes have one encoding. *)
Lemma ReadCompactSize_iff s n rest :
  Forall byte s -> 0 <= n < 2 ^ 64 ->
  (ReadCompactSize s = inr (n, rest) <-> n <= MAX_SIZE /\ s = WriteCompactSize n ++ rest) /\
  Z.of_nat (length (WriteCompactSize n)) = GetSizeOfCompactSize n.
Proof.
  intros Hs Hn. split; [split|].
  - unfold ReadCompactSize. destruct (ser_readdata8 s) as [e|[c s1]] eqn:E1; [done|].
    apply ser_readdata_inv in E1 as (->&Hc&Hs1); [|done]. cbn [mbind result_bind].
    change (8 * Z.of_nat 1) with 8 in Hc.
    assert (forall k lo m s2, (1 < k)%nat ->
      ('(n, s) ← ser_readdata k s1; if n <? lo then throw NonCanonical else mret (n, s)) = inr (m, s2) ->
      s1 = store_le k m ++ s2 /\ word (8 * Z.of_nat k) m /\ lo <= m) as Hk.
    { intros k lo m s2 _. destruct (ser_readdata k s1) as [e|[m' s3]] eqn:E; [done|].
      cbn [mbind result_bind]. destruct (Z.ltb_spec m' lo); [done|]. intros [= <- <-].
      apply ser_readdata_inv in E as (?&?&_); done. }
    assert (forall r : result (Z * list Z), ('(m, s) ← r; if m >? MAX_SIZE then throw SizeTooLarge else mret (m, s)) =
      inr (n, rest) -> r = inr (n, rest) /\ n <= MAX_SIZE) as Hmax.
    { intros [e|[m s2]]; [done|]. cbn [mbind result_bind]. rewrite Z.gtb_ltb.
      destruct (Z.ltb_spec MAX_SIZE m); [done|]. intros [= -> ->]. done. }
    intros [E Hle]%Hmax. split; [done|]. unfold WriteCompactSize, MAX_SIZE in *.
    assert (ser_writedata8 c = store_le 1 c) as _ by done.
    destruct (Z.ltb_spec c 253) as [H1|H1].
    { injection E as -> ->. destruct (Z.ltb_spec n 253); [done|lia]. }
    destruct (Z.eqb_spec c 253) as [->|H2].
    { apply Hk in E as (->&Hw&Hlo); [|lia]. change (8 * Z.of_nat 2) with 16 in Hw.
      destruct (Z.ltb_spec n 253); [lia|]. unfold word in Hw. destruct (Z.leb_spec n 0xFFFF); [done|lia]. }
    destruct (Z.eqb_spec c 254) as [->|H3].
    { apply Hk in E as (->&Hw&Hlo); [|lia]. change (8 * Z.of_nat 4) with 32 in Hw.
      destruct (Z.ltb_spec n 253); [lia|]. destruct (Z.leb_spec n 0xFFFF); [lia|].
      unfold word in Hw. destruct (Z.leb_spec n 0xFFFFFFFF); [done|lia]. }
    apply Hk in E as (->&Hw&Hlo); [|lia]. lia.
  - intros [Hle ->]. unfold ReadCompactSize, WriteCompactSize, MAX_SIZE in *.
    assert (forall c s, byte c -> ser_readdata8 (ser_writedata8 c ++ s) = inr (c, s)) as H8
      by (intros c s' Hc; exact (ser_readdata_store 1 c s' Hc)).
    destruct (Z.ltb_spec n 253) as [H1|H1].
    { rewrite H8 by (unfold word; lia). cbn [mbind result_bind]. destruct (Z.ltb_spec n 253); [|lia].
      cbn [mbind result_bind mret result_ret]. rewrite Z.gtb_ltb. destruct (Z.ltb_spec 0x02000000 n); [lia|done]. }
    destruct (Z.leb_spec n 0xFFFF) as [H2|H2].
    { rewrite <- app_assoc, H8 by done. cbn [mbind result_bind]. cbn [Z.ltb Z.compare Z.eqb Pos.compare Pos.compare_cont Pos.eqb].
      rewrite (ser_readdata_store 2) by (unfold word; change (2 ^ (8 * Z.of_nat 2)) with 65536; lia).
      cbn [mbind result_bind]. destruct (Z.ltb_spec n 253); [lia|]. cbn [mbind result_bind mret result_ret].
      rewrite Z.gtb_ltb. destruct (Z.ltb_spec 0x02000000 n); [lia|done]. }
    destruct (Z.leb_spec n 0xFFFFFFFF) as [H3|H3]; [|lia].
    rewrite <- app_assoc, H8 by done. cbn [mbind result_bind]. cbn [Z.ltb Z.compare Z.eqb Pos.compare Pos.compare_cont Pos.eqb].
    rewrite (ser_readdata_store 4) by (unfold word; change (2 ^ (8 * Z.of_nat 4)) with 4294967296; lia).
    cbn [mbind result_bind]. destruct (Z.ltb_spec n 0x10000); [lia|]. cbn [mbind result_bind mret result_ret].
    rewrite Z.gtb_ltb. destruct (Z.ltb_spec 0x02000000 n); [lia|done].
  - unfold WriteCompactSize, GetSizeOfCompactSize. repeat case_match; done.
Qed.

(** What is wrong with a stream that does not start with a size, and the exception for it: it ends
    early, the size is written in a longer form than it needs, or it is above [MAX_SIZE]. *)
Definition operand_bytes (c : Z) : nat := if c =? 253 then 2 else if c =? 254 then 4 else 8.
Definition least_operand (c : Z) : Z := if c =? 253 then 253 else if c =? 254 then 0x10000 else 0x100000000.

Inductive size_defect : list Z -> ser_error -> Prop :=
  | no_first_byte : size_defect [] EndOfData
  | operand_cut c s : 253 <= c <= 255 -> (length s < operand_bytes c)%nat -> size_defect (c :: s) EndOfData
  | not_shortest c n s : 253 <= c <= 255 -> 0 <= n < least_operand c -> size_defect (c :: store_le (operand_bytes c) n ++ s) NonCanonical
  | above_limit n s : MAX_SIZE < n < 2 ^ 64 -> size_defect (WriteCompactSize n ++ s) SizeTooLarge.

Lemma ser_readdata8_cons c s : byte c -> ser_readdata8 (c :: s) = inr (c, s).
Proof.
  intros Hc. assert ([c] = store_le 1 c) as E by (cbn [store_le]; by rewrite uchar_id).
  change (c :: s) with ([c] ++ s). rewrite E. exact (ser_readdata_store 1 c s Hc).
Qed.

(** Reading after the first byte *)
Lemma ReadCompactSize_operand c s :
  253 <= c <= 255 ->
  ReadCompactSize (c :: s) =
  '(n, s) ← ser_readdata (operand_bytes c) s;
  if n <? least_operand c then throw NonCanonical else if n >? MAX_SIZE then throw SizeTooLarge else mret (n, s).
Proof.
  intros Hc. unfold ReadCompactSize. rewrite ser_readdata8_cons by (unfold word; lia). cbn [mbind result_bind].
  destruct (Z.ltb_spec c 253); [lia|]. unfold operand_bytes, least_operand, ser_readdata16, ser_readdata32, ser_readdata64.
  destruct (Z.eqb_spec c 253); [|destruct (Z.eqb_spec c 254)]; (destruct (ser_readdata _ s) as [?|[x r]]; [done|]; cbn [mbind result_bind]; by destruct (x <? _)).
Qed.

Lemma ser_readdata_short k s : ser_readdata k s = inl EndOfData <-> (length s < k)%nat.
Proof. unfold ser_readdata, read. destruct (Nat.leb_spec k (length s)); cbn; split; (done || lia). Qed.

Lemma ser_readdata_error k s e : ser_readdata k s = inl e -> e = EndOfData /\ (length s < k)%nat.
Proof. unfold ser_readdata, read. destruct (Nat.leb_spec k (length s)); cbn; [done|]. intros [= <-]. split; [done|lia]. Qed.

Lemma operand_written c n :
  253 <= c <= 255 -> least_operand c <= n -> word (8 * Z.of_nat (operand_bytes c)) n ->
  WriteCompactSize n = c :: store_le (operand_bytes c) n.
Proof.
  intros Hc Hn Hw. assert (c = 253 \/ c = 254 \/ c = 255) as [->|[->| ->]] by lia; unfold word in Hw; cbn in Hn, Hw; unfold WriteCompactSize.
  all: repeat match goal with |- context [Z.ltb ?a ?b] => destruct (Z.ltb_spec a b); [lia|] | |- context [Z.leb ?a ?b] => destruct (Z.leb_spec a b); [try lia|try lia] end.
  all: done.
Qed.

Lemma size_written n :
  253 <= n < 2 ^ 64 -> exists c, 253 <= c <= 255 /\ least_operand c <= n /\ word (8 * Z.of_nat (operand_bytes c)) n.
Proof.
  intros Hn. unfold word. destruct (decide (n <= 0xFFFF)); [exists 253|destruct (decide (n <= 0xFFFFFFFF)); [exists 254|exists 255]]; cbn; lia.
Qed.

Lemma ReadCompactSize_error s e : Forall byte s -> ReadCompactSize s = inl e <-> size_defect s e.
Proof.
  intros Hs. split.
  - destruct s as [|c s]; [intros [= <-]; constructor|]. apply Forall_cons_1 in Hs as [Hc Hs]. unfold word in Hc.
    destruct (decide (c < 253)) as [Hlt|Hge].
    + unfold ReadCompactSize. rewrite ser_readdata8_cons by (unfold word; lia). cbn [mbind result_bind].
      destruct (Z.ltb_spec c 253); [|lia]. cbn [mbind result_bind mret result_ret]. rewrite Z.gtb_ltb.
      destruct (Z.ltb_spec MAX_SIZE c); [unfold MAX_SIZE in *; lia|done].
    + rewrite ReadCompactSize_operand by lia. destruct (ser_readdata (operand_bytes c) s) as [e'|[n r]] eqn:E; cbn [mbind result_bind].
      * intros [= <-]. apply ser_readdata_error in E as [-> ?]. apply operand_cut; [lia|done].
      * apply ser_readdata_inv in E as (->&Hw&_); [|done]. rewrite Z.gtb_ltb.
        destruct (Z.ltb_spec n (least_operand c)); [intros [= <-]; apply not_shortest; [lia|by destruct Hw]|].
        destruct (Z.ltb_spec MAX_SIZE n); [|done]. intros [= <-].
        rewrite app_comm_cons, <- operand_written by (done || lia). apply above_limit. split; [done|].
        destruct Hw as [_ Hw]. eapply Z.lt_le_trans; [exact Hw|]. unfold operand_bytes. repeat case_match; done.
  - destruct 1 as [|c s Hc Hl|c n s Hc Hn|n s Hn]; [done|rewrite ReadCompactSize_operand by done..|].
    + apply ser_readdata_short in Hl as ->. done.
    + rewrite ser_readdata_store. 
      * cbn [mbind result_bind]. destruct (Z.ltb_spec n (least_operand c)); [done|lia].
      * revert Hn. unfold word, least_operand, operand_bytes. repeat case_match; cbn; lia.
    + unfold MAX_SIZE in Hn. destruct (size_written n) as (c&Hc&Hlo&Hw); [lia|]. rewrite (operand_written c) by done. cbn [app].
      rewrite ReadCompactSize_operand by done. rewrite ser_readdata_store by done. cbn [mbind result_bind]. rewrite Z.gtb_ltb.
      destruct (Z.ltb_spec n (least_operand c)); [lia|]. destruct (Z.ltb_spec MAX_SIZE n); [done|unfold MAX_SIZE in *; lia].
Qed.

(** C33: Compact sizes have one encoding: for a stream of bytes [ReadCompactSize] returns [n]
    and the rest exactly when [n] is at most [MAX_SIZE] and the stream starts with what
    [WriteCompactSize] writes for [n], which takes [GetSizeOfCompactSize] bytes.  It throws exactly
    for the streams that have one of the defects of [size_defect], with the exception of that defect:
    the end of the data, a form that is not the shortest, or a size above [MAX_SIZE]. *)
Theorem compact_size_canonical s n rest :
  Forall byte s -> 0 <= n < 2 ^ 64 ->
  (ReadCompactSize s = inr (n, rest) <-> n <= MAX_SIZE /\ s = WriteCompactSize n ++ rest) /\
  Z.of_nat (length (WriteCompactSize n)) = GetSizeOfCompactSize n /\
  (forall e, ReadCompactSize s = inl e <-> size_defect s e).
Proof.
  intros Hs Hn. destruct (ReadCompactSize_iff s n rest Hs Hn) as [? ?]. split_and!; [done..|]. intros e. by apply ReadCompactSize_error.
Qed.

Lemma compact_size_canonical_witness :
  ReadCompactSize [253; 0; 1; 7] = inr (256, [7]) /\ [253; 0; 1; 7] = WriteCompactSize 256 ++ [7] /\
  (ReadCompactSize [253; 7; 0] = inl NonCanonical <-> size_defect [253; 7; 0] NonCanonical).
Proof.
  assert (Forall byte [253; 0; 1; 7]) as Hb by (by repeat (apply Forall_cons_2; [done|])).
  split_and!; [|reflexivity|].
  - apply (proj1 (compact_size_canonical [253; 0; 1; 7] 256 [7] Hb ltac:(lia))). split; [done|reflexivity].
  - apply (compact_size_canonical [253; 7; 0] 7 []); [by repeat (apply Forall_cons_2; [done|])|lia].
Defined.

(** ** Variable-length integers *)

Lemma cont_nonneg m cs : cont m cs -> 0 <= m /\ cs <> [].
Proof.
  induction 1 as [d Hd|m cs d _ [IH _] Hd]; split; [lia|done|lia|]. by destruct cs.
Qed.

Lemma digit_lor d : 0 <= d < 128 -> d .| 0x80 = d + 128.
Proof.
  intros Hd. assert (d .& 0x80 = 0) as E.
  { apply Z.bits_inj'. intros i Hi. rewrite Z.land_spec, Z.testbit_0_l. change 0x80 with (2 ^ 7).
    destruct (decide (i = 7)) as [->|]; [|by rewrite Z.pow2_bits_false, andb_false_r by lia].
    rewrite (word_testbit_high 7); [done|unfold word; lia|lia]. }
  by rewrite <- (Z.add_lor_land d 0x80), E, Z.add_0_r.
Qed.

Lemma land_7F n : n .& 0x7F = n mod 128.
Proof. change 0x7F with (Z.ones 7). by rewrite Z.land_ones. Qed.

(** A byte as a digit and a flag. *)
Lemma byte_split c : byte c -> exists d f, 0 <= d < 128 /\ c = d + (if f : bool then 128 else 0).
Proof.
  unfold word. intros Hc. destruct (decide (c < 128)); [exists c, false|exists (c - 128), true]; lia.
Qed.

Lemma flag_spec d (f : bool) : 0 <= d < 128 ->
  (d + (if f then 128 else 0)) .& 0x7F = d /\ negb ((d + (if f then 128 else 0)) .& 0x80 =? 0) = f.
Proof.
  intros Hd. split.
  - rewrite land_7F. destruct f; [|by rewrite Z.add_0_r, Z.mod_small].
    replace (d + 128) with (d + 1 * 128) by lia. rewrite Z.mod_add by lia. by apply Z.mod_small.
  - destruct f.
    + rewrite <- digit_lor by done. rewrite Z.land_lor_distr_l. change (0x80 .& 0x80) with 0x80.
      destruct (Z.eqb_spec ((d .& 0x80) .| 0x80) 0) as [E|]; [|done].
      apply Z.lor_eq_0_iff in E as [_ E]. done.
    + rewrite Z.add_0_r. pose proof (digit_lor d Hd) as E.
      pose proof (Z.add_lor_land d 0x80) as E2. assert (d .& 0x80 = 0) as -> by lia. done.
Qed.

(** One byte of the reading loop, on the value modulo [2^w]. *)
Lemma read_step w n d (f : bool) s :
  7 <= w -> 0 <= d < 128 ->
  ReadVarInt_loop w (n mod 2 ^ w) ((d + (if f then 128 else 0)) :: s) =
  if f then ReadVarInt_loop w ((n * 128 + d + 1) mod 2 ^ w) s else inr ((n * 128 + d) mod 2 ^ w, s).
Proof.
  intros Hw Hd. cbn [ReadVarInt_loop]. destruct (flag_spec d f Hd) as [-> ->].
  assert ((((n mod 2 ^ w) << 7) mod 2 ^ w) .| d = (n * 128 + d) mod 2 ^ w) as E.
  { rewrite Z.shiftl_mul_pow2 by lia. change (2 ^ 7) with 128. rewrite Z.mul_mod_idemp_l by lia.
    assert ((n * 128) mod 2 ^ w = (n mod 2 ^ (w - 7)) * 128) as ->.
    { replace (2 ^ w) with (2 ^ (w - 7) * 128) by (change 128 with (2 ^ 7); rewrite <- Z.pow_add_r by lia; f_equal; lia).
      by rewrite Z.mul_mod_distr_r by lia. }
    set (q := n mod 2 ^ (w - 7)). assert (0 <= q < 2 ^ (w - 7)) as Hq by (apply Z.mod_pos_bound; lia).
    assert (q * 128 + d < 2 ^ w) as Hlt.
    { replace (2 ^ w) with (2 ^ (w - 7) * 128) by (change 128 with (2 ^ 7); rewrite <- Z.pow_add_r by lia; f_equal; lia). nia. }
    transitivity (q * 128 + d).
    - change 128 with (2 ^ 7). rewrite <- Z.shiftl_mul_pow2 by lia.
      rewrite <- (Z.add_lor_land (q << 7) d).
      assert ((q << 7) .& d = 0) as ->; [|by rewrite Z.add_0_r].
      apply Z.bits_inj'. intros i Hi. rewrite Z.land_spec, Z.testbit_0_l. destruct (decide (i < 7)).
      + by rewrite Z.shiftl_spec_low.
      + rewrite (word_testbit_high 7 d); [by rewrite andb_false_r|unfold word; lia|lia].
    - apply (Zmod_unique _ _ (n / 2 ^ (w - 7))); [nia|].
      pose proof (Z.div_mod n (2 ^ (w - 7)) ltac:(lia)) as En. fold q in En.
      replace (2 ^ w) with (2 ^ (w - 7) * 128) by (change 128 with (2 ^ 7); rewrite <- Z.pow_add_r by lia; f_equal; lia).
      nia. }
  rewrite E. destruct f; [|done]. f_equal. by rewrite Z.add_mod_idemp_l by lia.
Qed.

(** Reading continuation bytes and whole encodings. *)
Lemma read_cont w m cs s :
  7 <= w -> cont m cs -> ReadVarInt_loop w 0 (cs ++ s) = ReadVarInt_loop w ((m + 1) mod 2 ^ w) s.
Proof.
  intros Hw Hc. revert s. induction Hc as [d Hd|m cs d _ IH Hd]; intros s.
  - exact (read_step w 0 d true s Hw Hd).
  - rewrite <- app_assoc, IH. cbn [app]. exact (read_step w (m + 1) d true s Hw Hd).
Qed.

Lemma read_varint w n bs s :
  7 <= w -> varint n bs -> ReadVarInt w (bs ++ s) = inr (n mod 2 ^ w, s).
Proof.
  intros Hw Hv. unfold ReadVarInt. destruct Hv as [d Hd|m cs d Hc Hd].
  - pose proof (read_step w 0 d false s Hw Hd) as E. rewrite Z.add_0_r in E. exact E.
  - rewrite <- app_assoc, (read_cont w m cs) by done. cbn [app].
    pose proof (read_step w (m + 1) d false s Hw Hd) as E. rewrite Z.add_0_r in E. exact E.
Qed.

(** A stream has an encoding at its start, or ends inside one. *)
Lemma varint_prefix s :
  Forall byte s ->
  (exists n bs rest, s = bs ++ rest /\ varint n bs) \/
  (s = [] \/ exists m, cont m s).
Proof.
  intros Hs. induction s as [|c s IH] using rev_ind; [by right; left|].
  apply Forall_app in Hs as [Hs Hc]. apply Forall_cons_1 in Hc as [Hc _].
  destruct (IH Hs) as [(n&bs&rest&->&Hv)|Hcont].
  { left. exists n, bs, (rest ++ [c]). by rewrite app_assoc. }
  destruct (byte_split c Hc) as (d&f&Hd&->). destruct Hcont as [->|[m Hm]].
  - destruct f.
    + right. right. exists d. by apply cont_one.
    + left. exists d, [d], []. rewrite Z.add_0_r. split; [done|]. by apply varint_one.
  - destruct f.
    + right. right. exists ((m + 1) * 128 + d). by apply cont_more.
    + left. exists ((m + 1) * 128 + d), (s ++ [d]), []. rewrite Z.add_0_r, app_nil_r.
      split; [done|]. by apply varint_more.
Qed.

(** Encodings are unique. *)
Lemma cont_unique m cs1 cs2 : cont m cs1 -> cont m cs2 -> cs1 = cs2.
Proof.
  intros H1. revert cs2. induction H1 as [d Hd|m cs d Hc IH Hd]; intros cs2 H2; inversion H2; subst.
  - done.
  - pose proof (cont_nonneg _ _ H). lia.
  - pose proof (cont_nonneg _ _ Hc). lia.
  - assert (m0 = m /\ d0 = d) as [-> ->].
    { pose proof (cont_nonneg _ _ H0). pose proof (cont_nonneg _ _ Hc).
      assert (m0 = m) by nia. lia. }
    by rewrite (IH cs0).
Qed.

Lemma varint_unique n bs1 bs2 : varint n bs1 -> varint n bs2 -> bs1 = bs2.
Proof.
  intros H1 H2. destruct H1 as [d Hd|m cs d Hc Hd]; inversion H2; subst.
  - done.
  - pose proof (cont_nonneg _ _ H). lia.
  - pose proof (cont_nonneg _ _ Hc). lia.
  - assert (m0 = m /\ d0 = d) as [-> ->].
    { pose proof (cont_nonneg _ _ H0). pose proof (cont_nonneg _ _ Hc). assert (m0 = m) by nia. lia. }
    by rewrite (cont_unique m cs cs0).
Qed.


(** The loops that write, with room for the digits. *)
Lemma write_cont room n :
  (0 < room)%nat -> 0 <= n < 2 ^ (7 * Z.of_nat room) ->
  exists ds, cont n (rev ds) /\ (length ds <= room)%nat /\ Forall byte ds /\
    (forall tmp, tmp <> [] -> WriteVarInt_loop room n tmp = Some (tmp ++ ds)) /\
    (forall r, GetSizeOfVarInt_loop room n r = Some (r + Z.of_nat (length ds))).
Proof.
  revert n. induction room as [|room IH]; intros n Hr Hn; [lia|].
  assert (forall tmp : list Z, tmp <> [] -> (length tmp =? 0)%nat = false) as Hne
    by (intros [|] ?; done).
  assert (byte (n mod 128 + 128)) as Hb.
  { pose proof (Z.mod_pos_bound n 128 ltac:(lia)). unfold word. lia. }
  destruct (decide (n <= 0x7F)) as [Hle|Hgt].
  - exists [n + 128]. rewrite (Z.mod_small n) in Hb by lia. split_and!.
    + apply cont_one. lia.
    + cbn. lia.
    + by apply Forall_cons_2.
    + intros tmp Ht. cbn [WriteVarInt_loop]. rewrite (Hne tmp Ht), land_7F, Z.mod_small, digit_lor by lia.
      by rewrite (proj2 (Z.leb_le _ _)) by lia.
    + intros r. cbn [GetSizeOfVarInt_loop]. rewrite (proj2 (Z.leb_le _ _)) by lia. done.
  - assert ((n >> 7) - 1 = n / 128 - 1) as Es by (rewrite Z.shiftr_div_pow2 by lia; done).
    assert (128 <= n) as H128 by lia.
    assert (1 <= n / 128) by (apply Z.div_le_lower_bound; lia).
    assert (n / 128 < 2 ^ (7 * Z.of_nat room)) as Hq.
    { apply Z.div_lt_upper_bound; [lia|]. replace (7 * Z.of_nat (S room)) with (7 * Z.of_nat room + 7) in Hn by lia.
      rewrite Z.pow_add_r in Hn by lia. change (2 ^ 7) with 128 in Hn. lia. }
    assert (0 < room)%nat as Hr'.
    { destruct room; [|lia]. change (2 ^ (7 * Z.of_nat 0)) with 1 in Hq. lia. }
    destruct (IH (n / 128 - 1) Hr' ltac:(lia)) as (ds&Hc&Hl&Hds&Hw&Hsz).
    exists ((n mod 128 + 128) :: ds). pose proof (Z.mod_pos_bound n 128 ltac:(lia)) as Hm.
    pose proof (Z.div_mod n 128 ltac:(lia)) as En. split_and!.
    + cbn [rev]. replace n with ((n / 128 - 1 + 1) * 128 + n mod 128) at 1 by lia. by apply cont_more.
    + cbn [length]. lia.
    + by apply Forall_cons_2.
    + intros tmp Ht. cbn [WriteVarInt_loop]. rewrite (Hne tmp Ht), land_7F, digit_lor, Es by lia.
      rewrite (proj2 (Z.leb_gt _ _)) by lia. rewrite Hw by (by destruct tmp). by rewrite <- app_assoc.
    + intros r. cbn [GetSizeOfVarInt_loop]. rewrite (proj2 (Z.leb_gt _ _)) by lia. rewrite Es, Hsz.
      cbn [length]. f_equal. lia.
Qed.

Lemma varint_room w n :
  0 < w -> word w n -> (0 < varint_size w)%nat /\ n < 2 ^ (7 * Z.of_nat (varint_size w)).
Proof.
  intros Hw [_ Hn]. unfold varint_size.
  pose proof (Z.div_mod (w + 6) 7 ltac:(lia)). pose proof (Z.mod_pos_bound (w + 6) 7 ltac:(lia)).
  split; [lia|]. eapply Z.lt_le_trans; [exact Hn|]. apply Z.pow_le_mono_r; lia.
Qed.

Lemma WriteVarInt_ok w n :
  0 < w -> word w n ->
  exists bs, WriteVarInt w n = Some bs /\ varint n bs /\ Forall byte bs /\
    GetSizeOfVarInt w n = Some (Z.of_nat (length bs)) /\ (length bs <= varint_size w)%nat.
Proof.
  intros Hw Hn. destruct (varint_room w n Hw Hn) as [Hr Hlt]. pose proof (proj1 Hn) as H0.
  unfold WriteVarInt, GetSizeOfVarInt. destruct (varint_size w) as [|room]; [lia|].
  cbn [WriteVarInt_loop GetSizeOfVarInt_loop length Nat.eqb app]. rewrite land_7F, Z.lor_0_r.
  pose proof (Z.mod_pos_bound n 128 ltac:(lia)) as Hm.
  destruct (Z.leb_spec n 0x7F) as [Hle|Hgt].
  - rewrite Z.mod_small by lia. exists [n]. cbn [mbind option_bind rev app length]. split_and!; [done| | |done|lia].
    + apply varint_one. lia.
    + apply Forall_cons_2; [unfold word; lia|done].
  - assert ((n >> 7) - 1 = n / 128 - 1) as -> by (rewrite Z.shiftr_div_pow2 by lia; done).
    assert (1 <= n / 128) by (apply Z.div_le_lower_bound; lia).
    assert (n / 128 < 2 ^ (7 * Z.of_nat room)) as Hq.
    { apply Z.div_lt_upper_bound; [lia|]. replace (7 * Z.of_nat (S room)) with (7 * Z.of_nat room + 7) in Hlt by lia.
      rewrite Z.pow_add_r in Hlt by lia. change (2 ^ 7) with 128 in Hlt. lia. }
    assert (0 < room)%nat as Hr'.
    { destruct room; [|lia]. change (2 ^ (7 * Z.of_nat 0)) with 1 in Hq. lia. }
    destruct (write_cont room (n / 128 - 1) Hr' ltac:(lia)) as (ds&Hc&Hl&Hds&Hwr&Hsz).
    rewrite Hwr by done. rewrite Hsz. cbn [mbind option_bind].
    exists (rev ([n mod 128] ++ ds)). split_and!; [done| | | |].
    + cbn [app rev]. pose proof (Z.div_mod n 128 ltac:(lia)).
      replace n with ((n / 128 - 1 + 1) * 128 + n mod 128) at 1 by lia. by apply varint_more.
    + apply Forall_rev, Forall_cons_2; [unfold word; lia|done].
    + rewrite length_rev. cbn [app length]. f_equal. lia.
    + rewrite length_rev. cbn [app length]. lia.
Qed.

(** Variable-length integers of an unsigned type of [w] bits: writing a number stays
    inside the array of digits and produces its one encoding, of [GetSizeOfVarInt] bytes,
    and reading gives the number back and leaves the rest of the stream. Conversely every
    stream of bytes either ends inside an encoding, which is reported, or starts with the
    encoding of some number, of which the [w] low bits are returned without an error. *)
Theorem varint_codec w n rest s :
  7 <= w -> word w n -> Forall byte s ->
  (exists bs, WriteVarInt w n = Some bs /\ varint n bs /\ (forall bs', varint n bs' -> bs' = bs) /\
     GetSizeOfVarInt w n = Some (Z.of_nat (length bs)) /\ (length bs <= varint_size w)%nat /\
     ReadVarInt w (bs ++ rest) = inr (n, rest)) /\
  (ReadVarInt w s = inl EndOfData \/
   exists m bs r, s = bs ++ r /\ varint m bs /\ ReadVarInt w s = inr (m mod 2 ^ w, r)).
Proof.
  intros Hw Hn Hs. split.
  - destruct (WriteVarInt_ok w n ltac:(lia) Hn) as (bs&E&Hv&_&Hsz&Hl). exists bs. split_and!; try done.
    + intros bs' Hv'. by apply (varint_unique n).
    + rewrite (read_varint w n) by done. by rewrite word_mod_id.
  - destruct (varint_prefix s Hs) as [(m&bs&r&->&Hv)|[->|[m Hc]]].
    + right. exists m, bs, r. split_and!; [done|done|]. by apply read_varint.
    + by left.
    + left. unfold ReadVarInt. rewrite <- (app_nil_r s). by rewrite (read_cont w m s) by done.
Qed.

(** The number 65535, and a stream that does not fit 32 bits. *)
Lemma varint_codec_witness :
  exists bs, WriteVarInt 32 65535 = Some bs /\ ReadVarInt 32 (bs ++ [1]) = inr (65535, [1]).
Proof.
  destruct (varint_codec 32 65535 [1] [0xff; 0xff; 0xff; 0xff; 0xff; 0x00]) as [(bs&E&_&_&_&_&R) _];
    [lia|done|by repeat (apply Forall_cons_2; [done|])|].
  exists bs. exact (conj E R).
Defined.

(** The table in the comment of the source gives [0x82 0xFD 0x7F] for 65535 and
    [0x80 0xFF 0x7F] for 16511. *)
Example varint_table :
  WriteVarInt 64 65535 = Some [0x82; 0xFE; 0x7F] /\ WriteVarInt 64 16511 = Some [0xFF; 0x7F] /\
  WriteVarInt 64 (2 ^ 32) = Some [0x8E; 0xFE; 0xFE; 0xFF; 0x00].
Proof. vm_compute. done. Qed.

(** An encoding that is too long for the type is read without an error. *)
Example varint_wraps : ReadVarInt 32 [0x8F; 0xFE; 0xFE; 0xFF; 0x00] = inr (2 ^ 28, []).
Proof. vm_compute. done. Qed.
