(* ===== verification/Script.v ===== *)
(** Scripts (script/script.h and script/script.cpp): opcodes, numbers on the stack
    ([CScriptNum]), the encoding of pushes and of instructions, and the functions that
    recognise or measure scripts. A script, and an element of the stack, is a list of bytes;
    an iterator into a script is the rest of the script from there. *)

From S2P Require Import Prelude SphTypes BlockBuffer Hasher.

#[local] Open Scope c_scope.

(** ** Limits and opcodes *)

Definition MAX_SCRIPT_ELEMENT_SIZE : Z := 520.
Definition MAX_OPS_PER_SCRIPT : Z := 201.
Definition MAX_PUBKEYS_PER_MULTISIG : Z := 20.
Definition MAX_SCRIPT_SIZE : Z := 10000.
Definition LOCKTIME_THRESHOLD : Z := 500000000.

Definition OP_0 : Z := 0x00.
Definition OP_FALSE : Z := OP_0.
Definition OP_PUSHDATA1 : Z := 0x4c.
Definition OP_PUSHDATA2 : Z := 0x4d.
Definition OP_PUSHDATA4 : Z := 0x4e.
Definition OP_1NEGATE : Z := 0x4f.
Definition OP_RESERVED : Z := 0x50.
Definition OP_1 : Z := 0x51.
Definition OP_TRUE : Z := OP_1.
Definition OP_2 : Z := 0x52.
Definition OP_3 : Z := 0x53.
Definition OP_4 : Z := 0x54.
Definition OP_5 : Z := 0x55.
Definition OP_6 : Z := 0x56.
Definition OP_7 : Z := 0x57.
Definition OP_8 : Z := 0x58.
Definition OP_9 : Z := 0x59.
Definition OP_10 : Z := 0x5a.
Definition OP_11 : Z := 0x5b.
Definition OP_12 : Z := 0x5c.
Definition OP_13 : Z := 0x5d.
Definition OP_14 : Z := 0x5e.
Definition OP_15 : Z := 0x5f.
Definition OP_16 : Z := 0x60.
Definition OP_NOP : Z := 0x61.
Definition OP_VER : Z := 0x62.
Definition OP_IF : Z := 0x63.
Definition OP_NOTIF : Z := 0x64.
Definition OP_VERIF : Z := 0x65.
Definition OP_VERNOTIF : Z := 0x66.
Definition OP_ELSE : Z := 0x67.
Definition OP_ENDIF : Z := 0x68.
Definition OP_VERIFY : Z := 0x69.
Definition OP_RETURN : Z := 0x6a.
Definition OP_TOALTSTACK : Z := 0x6b.
Definition OP_FROMALTSTACK : Z := 0x6c.
Definition OP_2DROP : Z := 0x6d.
Definition OP_2DUP : Z := 0x6e.
Definition OP_3DUP : Z := 0x6f.
Definition OP_2OVER : Z := 0x70.
Definition OP_2ROT : Z := 0x71.
Definition OP_2SWAP : Z := 0x72.
Definition OP_IFDUP : Z := 0x73.
Definition OP_DEPTH : Z := 0x74.
Definition OP_DROP : Z := 0x75.
Definition OP_DUP : Z := 0x76.
Definition OP_NIP : Z := 0x77.
Definition OP_OVER : Z := 0x78.
Definition OP_PICK : Z := 0x79.
Definition OP_ROLL : Z := 0x7a.
Definition OP_ROT : Z := 0x7b.
Definition OP_SWAP : Z := 0x7c.
Definition OP_TUCK : Z := 0x7d.
Definition OP_CAT : Z := 0x7e.
Definition OP_SUBSTR : Z := 0x7f.
Definition OP_LEFT : Z := 0x80.
Definition OP_RIGHT : Z := 0x81.
Definition OP_SIZE : Z := 0x82.
Definition OP_INVERT : Z := 0x83.
Definition OP_AND : Z := 0x84.
Definition OP_OR : Z := 0x85.
Definition OP_XOR : Z := 0x86.
Definition OP_EQUAL : Z := 0x87.
Definition OP_EQUALVERIFY : Z := 0x88.
Definition OP_RESERVED1 : Z := 0x89.
Definition OP_RESERVED2 : Z := 0x8a.
Definition OP_1ADD : Z := 0x8b.
Definition OP_1SUB : Z := 0x8c.
Definition OP_2MUL : Z := 0x8d.
Definition OP_2DIV : Z := 0x8e.
Definition OP_NEGATE : Z := 0x8f.
Definition OP_ABS : Z := 0x90.
Definition OP_NOT : Z := 0x91.
Definition OP_0NOTEQUAL : Z := 0x92.
Definition OP_ADD : Z := 0x93.
Definition OP_SUB : Z := 0x94.
Definition OP_MUL : Z := 0x95.
Definition OP_DIV : Z := 0x96.
Definition OP_MOD : Z := 0x97.
Definition OP_LSHIFT : Z := 0x98.
Definition OP_RSHIFT : Z := 0x99.
Definition OP_BOOLAND : Z := 0x9a.
Definition OP_BOOLOR : Z := 0x9b.
Definition OP_NUMEQUAL : Z := 0x9c.
Definition OP_NUMEQUALVERIFY : Z := 0x9d.
Definition OP_NUMNOTEQUAL : Z := 0x9e.
Definition OP_LESSTHAN : Z := 0x9f.
Definition OP_GREATERTHAN : Z := 0xa0.
Definition OP_LESSTHANOREQUAL : Z := 0xa1.
Definition OP_GREATERTHANOREQUAL : Z := 0xa2.
Definition OP_MIN : Z := 0xa3.
Definition OP_MAX : Z := 0xa4.
Definition OP_WITHIN : Z := 0xa5.
Definition OP_RIPEMD160 : Z := 0xa6.
Definition OP_SHA1 : Z := 0xa7.
Definition OP_SHA256 : Z := 0xa8.
Definition OP_HASH160 : Z := 0xa9.
Definition OP_HASH256 : Z := 0xaa.
Definition OP_CODESEPARATOR : Z := 0xab.
Definition OP_CHECKSIG : Z := 0xac.
Definition OP_CHECKSIGVERIFY : Z := 0xad.
Definition OP_CHECKMULTISIG : Z := 0xae.
Definition OP_CHECKMULTISIGVERIFY : Z := 0xaf.
Definition OP_NOP1 : Z := 0xb0.
Definition OP_CHECKLOCKTIMEVERIFY : Z := 0xb1.
Definition OP_NOP2 : Z := OP_CHECKLOCKTIMEVERIFY.
Definition OP_CHECKSEQUENCEVERIFY : Z := 0xb2.
Definition OP_NOP3 : Z := OP_CHECKSEQUENCEVERIFY.
Definition OP_NOP4 : Z := 0xb3.
Definition OP_NOP5 : Z := 0xb4.
Definition OP_NOP6 : Z := 0xb5.
Definition OP_NOP7 : Z := 0xb6.
Definition OP_NOP8 : Z := 0xb7.
Definition OP_NOP9 : Z := 0xb8.
Definition OP_NOP10 : Z := 0xb9.
Definition OP_DIVIDEND : Z := 0xd1.
Definition OP_SMALLDATA : Z := 0xf9.
Definition OP_SMALLINTEGER : Z := 0xfa.
Definition OP_PUBKEYS : Z := 0xfb.
Definition OP_PUBKEYHASH : Z := 0xfd.
Definition OP_PUBKEY : Z := 0xfe.
Definition OP_INVALIDOPCODE : Z := 0xff.

Abbreviation valtype := (list Z).
Abbreviation CScript := (list Z).

Definition vsize {A} (l : list A) : Z := Z.of_nat (length l).

(** ** Numbers *)

Definition INT_MIN : Z := - 2 ^ 31.
Definition INT_MAX : Z := 2 ^ 31 - 1.
Definition INT64_MIN : Z := - 2 ^ 63.
Definition INT64_MAX : Z := 2 ^ 63 - 1.
Definition int64_range (x : Z) : bool := (INT64_MIN <=? x) && (x <=? INT64_MAX).

(** The exceptions of [CScriptNum]. *)
Inductive scriptnum_error := scriptnum_overflow | scriptnum_nonminimal.

Definition nDefaultMaxNumSize : Z := 4.

(** The loop of [CScriptNum::set_vch] from byte [i] on. *)
Fixpoint set_vch_bytes (i : Z) (vch : valtype) (result : Z) : Z :=
  match vch with
  | [] => result
  | b :: vch => set_vch_bytes (i + 1) vch (result .| (b << (8 * i)))
  end.

Definition set_vch (vch : valtype) : Z :=
  match list.last vch with
  | None => 0
  | Some back =>
      let result := set_vch_bytes 0 vch 0 in
      if negb (back .& 0x80 =? 0)
      then - (result .& (Z.lnot (0x80 << (8 * (vsize vch - 1))) mod 2 ^ 64))
      else result
  end.

(** The test for the shortest encoding in the constructor. *)
Definition minimally_encoded (vch : valtype) : bool :=
  match list.last vch with
  | None => true
  | Some back =>
      negb ((back .& 0x7f =? 0) &&
            ((vsize vch <=? 1) ||
             ((default 0 (vch !! (length vch - 2)%nat) .& 0x80) =? 0)))
  end.

(** [CScriptNum::CScriptNum(vch, fRequireMinimal, nMaxNumSize)] *)
Definition CScriptNum (vch : valtype) (fRequireMinimal : bool) (nMaxNumSize : Z)
    : scriptnum_error + Z :=
  if vsize vch >? nMaxNumSize then inl scriptnum_overflow
  else if fRequireMinimal && negb (minimally_encoded vch) then inl scriptnum_nonminimal
  else inr (set_vch vch).

(** [operator+=], [operator-=] and [operator-] with their assertions; [operator+] and
    [operator-] of two numbers, where a signed overflow is undefined. *)
Definition sn_add_assign (m rhs : Z) : option Z :=
  if (rhs =? 0) || ((rhs >? 0) && (m <=? INT64_MAX - rhs)) || ((rhs <? 0) && (m >=? INT64_MIN - rhs))
  then Some (m + rhs) else None.
Definition sn_sub_assign (m rhs : Z) : option Z :=
  if (rhs =? 0) || ((rhs >? 0) && (m >=? INT64_MIN + rhs)) || ((rhs <? 0) && (m <=? INT64_MAX + rhs))
  then Some (m - rhs) else None.
Definition sn_neg (m : Z) : option Z := if m =? INT64_MIN then None else Some (- m).
Definition sn_add (m rhs : Z) : option Z := if int64_range (m + rhs) then Some (m + rhs) else None.
Definition sn_sub (m rhs : Z) : option Z := if int64_range (m - rhs) then Some (m - rhs) else None.

Definition getint (m : Z) : Z :=
  if m >? INT_MAX then INT_MAX else if m <? INT_MIN then INT_MIN else m.

(** The loop of [CScriptNum::serialize], which has at most eight bytes to write. *)
Fixpoint serialize_abs (fuel : nat) (absvalue : Z) : option valtype :=
  if absvalue =? 0 then Some []
  else match fuel with
       | O => None
       | S fuel => rest ← serialize_abs fuel (absvalue >> 8); Some (absvalue .& 0xff :: rest)
       end.

Definition set_back (l : list Z) (f : Z -> Z) : list Z :=
  match list.last l with Some x => removelast l ++ [f x] | None => l end.

Definition serialize (value : Z) : option valtype :=
  if value =? 0 then Some []
  else
    let neg := value <? 0 in
    result ← serialize_abs 8 (u64 (if neg then - value else value));
    back ← list.last result;
    Some (if negb (back .& 0x80 =? 0) then result ++ [if neg then 0x80 else 0]
          else if neg then set_back result (fun b => b .| 0x80) else result).

Definition getvch (m : Z) : option valtype := serialize m.

(** ** Writing scripts *)

Definition WriteLE16 (x : Z) : list Z := store_le 2 x.
Definition ReadLE16 (p : list Z) : Z := load_le 2 p.

(** [operator<<] for an opcode and for data *)
Definition push_opcode (s : CScript) (opcode : Z) : option CScript :=
  if (opcode <? 0) || (opcode >? 0xff) then None else Some (s ++ [opcode]).

Definition push_data (s : CScript) (b : valtype) : CScript :=
  s ++ (if vsize b <? OP_PUSHDATA1 then [vsize b]
        else if vsize b <=? 0xff then [OP_PUSHDATA1; vsize b]
        else if vsize b <=? 0xffff then OP_PUSHDATA2 :: WriteLE16 (vsize b)
        else OP_PUSHDATA4 :: WriteLE32 (u32 (vsize b))) ++ b.

Definition push_int64 (s : CScript) (n : Z) : option CScript :=
  if (n =? -1) || ((n >=? 1) && (n <=? 16)) then Some (s ++ [n + (OP_1 - 1)])
  else if n =? 0 then Some (s ++ [OP_0])
  else vch ← serialize n; Some (push_data s vch).

(** ** Reading scripts *)

(** The size of the operand of a push, and the iterator after it. *)
Definition operand_size (opcode : Z) (pc : CScript) : option Z * CScript :=
  if opcode <? OP_PUSHDATA1 then (Some opcode, pc)
  else if opcode =? OP_PUSHDATA1 then
    if vsize pc <? 1 then (None, pc) else (head pc, drop 1 pc)
  else if opcode =? OP_PUSHDATA2 then
    if vsize pc <? 2 then (None, pc) else (Some (ReadLE16 pc), drop 2 pc)
  else if vsize pc <? 4 then (None, pc) else (Some (ReadLE32 pc), drop 4 pc).

(** [CScript::GetOp2] at [pc]: the opcode and its operand, if there is a complete
    instruction, and where the iterator is left. *)
Definition GetOp2 (pc : CScript) : option (Z * valtype) * CScript :=
  match pc with
  | [] => (None, pc)
  | opcode :: pc =>
      if opcode <=? OP_PUSHDATA4 then
        match operand_size opcode pc with
        | (None, pc) => (None, pc)
        | (Some nSize, pc) =>
            if u32 (vsize pc) <? nSize then (None, pc)
            else (Some (opcode, take (Z.to_nat nSize) pc), drop (Z.to_nat nSize) pc)
        end
      else (Some (opcode, []), pc)
  end.

(** [GetOp] as a condition: the instruction and the rest, or failure. *)
Definition GetOp (pc : CScript) : option (Z * valtype * CScript) :=
  match GetOp2 pc with (Some (opcode, vch), pc) => Some (opcode, vch, pc) | (None, _) => None end.

Definition DecodeOP_N (opcode : Z) : option Z :=
  if opcode =? OP_0 then Some 0
  else if (opcode >=? OP_1) && (opcode <=? OP_16) then Some (opcode - (OP_1 - 1)) else None.

Definition EncodeOP_N (n : Z) : option Z :=
  if (n >=? 0) && (n <=? 16) then Some (if n =? 0 then OP_0 else OP_1 + n - 1) else None.

(** [CScript::FindAndDelete]: the inner loop that skips copies of [b] at [pc] *)
Fixpoint skip_copies (fuel : nat) (b pc : CScript) (nFound : Z) : option (CScript * Z) :=
  match fuel with
  | O => None
  | S fuel =>
      if (vsize b <=? vsize pc) && bool_decide (take (length b) pc = b)
      then skip_copies fuel b (drop (length b) pc) (nFound + 1) else Some (pc, nFound)
  end.

(** The outer loop; [pc2] to [pc] is what the last instruction covered. *)
Fixpoint fad_loop (fuel : nat) (b pc2 pc result : CScript) (nFound : Z) : option (CScript * Z) :=
  match fuel with
  | O => None
  | S fuel =>
      let result := result ++ take (length pc2 - length pc) pc2 in
      '(pc, nFound) ← skip_copies (S (length pc)) b pc nFound;
      match GetOp pc with
      | Some (_, _, pc') => fad_loop fuel b pc pc' result nFound
      | None => Some (result ++ pc, nFound)
      end
  end.

Definition FindAndDelete (s b : CScript) : option (CScript * Z) :=
  if (length b =? 0)%nat then Some (s, 0)
  else
    '(result, nFound) ← fad_loop (S (length s)) b s s [] 0;
    Some (if nFound >? 0 then result else s, nFound).

Fixpoint Find_loop (fuel : nat) (op : Z) (pc : CScript) (nFound : Z) : option Z :=
  match fuel with
  | O => None
  | S fuel =>
      match GetOp pc with
      | Some (opcode, _, pc) => Find_loop fuel op pc (if opcode =? op then nFound + 1 else nFound)
      | None => Some nFound
      end
  end.

Definition Find (s : CScript) (op : Z) : option Z := Find_loop (S (length s)) op s 0.

(** ** Measuring and recognising scripts *)

(** [CScript::GetSigOpCount(fAccurate)] *)
Fixpoint sigop_loop (fuel : nat) (fAccurate : bool) (pc : CScript) (lastOpcode n : Z) : option Z :=
  match fuel with
  | O => None
  | S fuel =>
      match GetOp pc with
      | None => Some n
      | Some (opcode, _, pc) =>
          n ← (if (opcode =? OP_CHECKSIG) || (opcode =? OP_CHECKSIGVERIFY) then Some (u32 (n + 1))
               else if (opcode =? OP_CHECKMULTISIG) || (opcode =? OP_CHECKMULTISIGVERIFY) then
                 if fAccurate && (lastOpcode >=? OP_1) && (lastOpcode <=? OP_16)
                 then k ← DecodeOP_N lastOpcode; Some (u32 (n + k))
                 else Some (u32 (n + MAX_PUBKEYS_PER_MULTISIG))
               else Some n);
          sigop_loop fuel fAccurate pc opcode n
      end
  end.

Definition GetSigOpCount (s : CScript) (fAccurate : bool) : option Z :=
  sigop_loop (S (length s)) fAccurate s OP_INVALIDOPCODE 0.

Definition at_is (s : CScript) (i : nat) (b : Z) : bool := bool_decide (s !! i = Some b).

Definition IsPayToPublicKeyHash (s : CScript) : bool :=
  (vsize s =? 25) && at_is s 0 OP_DUP && at_is s 1 OP_HASH160 && at_is s 2 0x14 &&
  at_is s 23 OP_EQUALVERIFY && at_is s 24 OP_CHECKSIG.

Definition IsDividendContribution (s : CScript) : bool :=
  (vsize s =? 2) && at_is s 0 OP_RETURN && at_is s 1 OP_DIVIDEND.

Definition IsPayToScriptHash (s : CScript) : bool :=
  (vsize s =? 23) && at_is s 0 OP_HASH160 && at_is s 1 0x14 && at_is s 22 OP_EQUAL.

Definition IsPayToWitnessScriptHash (s : CScript) : bool :=
  (vsize s =? 34) && at_is s 0 OP_0 && at_is s 1 0x20.

(** [None] is [false]. The assertion of [DecodeOP_N] holds, since the opcode has just been
    tested. *)
Definition IsWitnessProgram (s : CScript) : option (Z * valtype) :=
  if (vsize s <? 4) || (vsize s >? 42) then None
  else match s with
       | v :: n :: program =>
           if negb (v =? OP_0) && ((v <? OP_1) || (v >? OP_16)) then None
           else if n + 2 =? vsize s then version ← DecodeOP_N v; Some (version, program)
           else None
       | _ => None
       end.

(** [CScript::IsPushOnly] *)
Fixpoint push_only_loop (fuel : nat) (pc : CScript) : option bool :=
  match pc, fuel with
  | [], _ => Some true
  | _, O => None
  | _, S fuel =>
      match GetOp pc with
      | None => Some false
      | Some (opcode, _, pc) => if opcode >? OP_16 then Some false else push_only_loop fuel pc
      end
  end.

Definition IsPushOnly (s : CScript) : option bool := push_only_loop (length s) s.

(** The operand of the last instruction of a script of pushes; [None] when the script has
    another instruction or does not parse. *)
Fixpoint last_push_loop (fuel : nat) (pc : CScript) (data : valtype) : option (option valtype) :=
  match pc, fuel with
  | [], _ => Some (Some data)
  | _, O => None
  | _, S fuel =>
      match GetOp pc with
      | None => Some None
      | Some (opcode, data, pc) => if opcode >? OP_16 then Some None else last_push_loop fuel pc data
      end
  end.

(** [CScript::GetSigOpCount(scriptSig)] *)
Definition GetSigOpCount_P2SH (scriptPubKey scriptSig : CScript) : option Z :=
  if negb (IsPayToScriptHash scriptPubKey) then GetSigOpCount scriptPubKey true
  else
    data ← last_push_loop (length scriptSig) scriptSig [];
    match data with None => Some 0 | Some data => GetSigOpCount data true end.

Definition IsUnspendable (s : CScript) : bool :=
  ((vsize s >? 0) && bool_decide (head s = Some OP_RETURN)) || (vsize s >? MAX_SCRIPT_SIZE).

(** ** Numbers are their little-endian digits *)

Definition le_val (l : list Z) : Z := foldr (fun b v => b + 256 * v) 0 l.

Lemma le_val_cons b l : le_val (b :: l) = b + 256 * le_val l.
Proof. done. Qed.

Lemma vsize_cons {A} (b : A) l : vsize (b :: l) = vsize l + 1.
Proof. unfold vsize. cbn [length]. lia. Qed.

Lemma vsize_nonneg {A} (l : list A) : 0 <= vsize l.
Proof. unfold vsize. lia. Qed.

Lemma pow_vsize_cons {A} (b : A) l : 256 ^ vsize (b :: l) = 256 * 256 ^ vsize l.
Proof. rewrite vsize_cons, Z.pow_add_r by (pose proof (vsize_nonneg l); lia). lia. Qed.

Lemma le_val_app l k : le_val (l ++ k) = le_val l + 256 ^ vsize l * le_val k.
Proof.
  induction l as [|b l IH]; [change (le_val k = 0 + 256 ^ 0 * le_val k); lia|].
  cbn [app]. rewrite !le_val_cons, IH, pow_vsize_cons. lia.
Qed.

Lemma le_val_bound l : Forall byte l -> 0 <= le_val l < 256 ^ vsize l.
Proof.
  induction 1 as [|b l Hb Hl IH]; [done|]. rewrite le_val_cons, pow_vsize_cons. unfold word in Hb. lia.
Qed.

Lemma lor_shiftl_add a b n : 0 <= n -> word n a -> 0 <= b -> a .| (b << n) = a + b * 2 ^ n.
Proof.
  intros Hn Ha Hb. rewrite Z.shiftl_mul_pow2 by lia. rewrite <- Z.lxor_lor, <- Z.add_nocarry_lxor; [done| |].
  all: apply Z.bits_inj'; intros i Hi; rewrite Z.land_spec, Z.bits_0, <- Z.shiftl_mul_pow2, Z.shiftl_spec by lia.
  all: destruct (Z.ltb_spec i n); [by rewrite (Z.testbit_neg_r b (i - n)), andb_false_r by lia|].
  all: by rewrite (word_testbit_high n a) by done.
Qed.

Lemma set_vch_bytes_val i l r :
  0 <= i -> word (8 * i) r -> Forall byte l ->
  set_vch_bytes i l r = r + 2 ^ (8 * i) * le_val l.
Proof.
  intros Hi Hr Hl. revert i r Hi Hr. induction Hl as [|b l Hb Hl IH]; intros i r Hi Hr.
  { cbn. lia. }
  cbn [set_vch_bytes le_val foldr]. fold (le_val l).
  rewrite (lor_shiftl_add r b); [|lia|done|unfold word in Hb; lia].
  assert (2 ^ (8 * (i + 1)) = 2 ^ (8 * i) * 256) as E.
  { replace (8 * (i + 1)) with (8 * i + 8) by lia. rewrite Z.pow_add_r by lia. done. }
  rewrite IH; [rewrite E; ring|lia| ].
  unfold word in *. rewrite E. nia.
Qed.

(** What [set_vch] reads: the sign is the top bit of the last byte. *)
Definition num_val (l : list Z) (back : Z) : Z :=
  if back <? 128 then le_val (l ++ [back]) else - le_val (l ++ [back - 128]).

Lemma testbit_top b : byte b -> negb (b .& 0x80 =? 0) = (128 <=? b).
Proof.
  intros Hb. change (byte b) with (0 <= b < 256) in Hb. revert b Hb. apply below_literal. by vm_compute; repeat constructor.
Qed.

Lemma strip_top_bit back j :
  byte back -> 128 <= back -> 0 <= j ->
  negb (Z.testbit 128 j) && Z.testbit back j = Z.testbit (back - 128) j.
Proof.
  intros Hb Hge Hj. assert (back - 128 = Z.land back 127) as ->.
  { change 127 with (Z.ones 7). rewrite Z.land_ones by lia. unfold word in Hb.
    apply (Z.mod_unique _ _ 1); lia. }
  rewrite Z.land_spec, andb_comm. destruct (Z.ltb_spec j 8).
  - f_equal. assert (0 <= j < 8) as Hj8 by lia. clear Hj H. revert j Hj8.
    apply below_literal. by vm_compute; repeat constructor.
  - by rewrite (word_testbit_high 8 back) by (done || lia).
Qed.

Lemma set_vch_val l back :
  Forall byte (l ++ [back]) -> (length l < 8)%nat -> set_vch (l ++ [back]) = num_val l back.
Proof.
  intros H Hlen. pose proof H as [Hl Hb]%Forall_app. apply Forall_cons_1 in Hb as [Hb _].
  pose proof (le_val_bound l Hl) as Bl. unfold vsize in Bl.
  unfold set_vch. rewrite last_snoc, set_vch_bytes_val by (done || (unfold word; lia)).
  change (2 ^ (8 * 0)) with 1. rewrite Z.mul_1_l, Z.add_0_l.
  rewrite testbit_top by done. unfold num_val. rewrite (Z.leb_antisym back 128), !le_val_app. cbn [le_val foldr].
  unfold vsize in *. rewrite length_app. cbn [length].
  replace (Z.of_nat (length l + 1) - 1) with (Z.of_nat (length l)) by lia.
  destruct (Z.ltb_spec back 128); cbn [negb]; [lia|]. f_equal.
  set (n := Z.of_nat (length l)) in *. assert (256 ^ n = 2 ^ (8 * n)) as E.
  { rewrite Z.pow_mul_r by lia. done. }
  rewrite E in *. assert (0 <= 8 * n < 57) as Hn by lia.
  assert (word (8 * n) (le_val l)) as W by done.
  apply Z.bits_inj'. intros i Hi. rewrite Z.land_spec.
  replace (2 ^ (8 * n) * (back + 256 * 0)) with (back * 2 ^ (8 * n)) by lia.
  replace (2 ^ (8 * n) * (back - 128 + 256 * 0)) with ((back - 128) * 2 ^ (8 * n)) by lia.
  unfold word in Hb. rewrite <- !lor_shiftl_add by (done || lia).
  rewrite !Z.lor_spec, !Z.shiftl_spec by lia.
  assert (Z.testbit (Z.lnot (0x80 << (8 * n)) mod 2 ^ 64) i =
    if i <? 64 then negb (Z.testbit 0x80 (i - 8 * n)) else false) as ->.
  { destruct (Z.ltb_spec i 64); [|by rewrite Z.mod_pow2_bits_high by lia].
    rewrite Z.mod_pow2_bits_low, Z.lnot_spec, Z.shiftl_spec by lia. done. }
  destruct (Z.ltb_spec i (8 * n)).
  { rewrite !(Z.testbit_neg_r _ (i - 8 * n)) by lia. rewrite !orb_false_r.
    destruct (Z.ltb_spec i 64); [by rewrite andb_true_r|lia]. }
  rewrite (word_testbit_high (8 * n) (le_val l)) by done. rewrite !orb_false_l.
  destruct (Z.ltb_spec i 64) as [Hi64|Hi64].
  - rewrite <- strip_top_bit by (unfold word; lia). apply andb_comm.
  - rewrite andb_false_r. symmetry. apply (word_testbit_high 7); [unfold word; lia|lia].
Qed.

(** [serialize_abs] writes the digits that have no zero at the top. *)
Lemma serialize_abs_digits fuel l :
  Forall byte l -> list.last l <> Some 0 -> (length l <= fuel)%nat ->
  serialize_abs fuel (le_val l) = Some l.
Proof.
  intros Hl. revert fuel. induction Hl as [|b l Hb Hl IH]; intros fuel Hlast Hf.
  { by destruct fuel. }
  assert (0 < le_val (b :: l)) as Hpos.
  { pose proof (le_val_bound l Hl). rewrite le_val_cons. unfold word in Hb.
    destruct l as [|c l]; [|].
    - cbn. enough (b <> 0) by lia. intros ->. by apply Hlast.
    - enough (0 < le_val (c :: l)) by lia.
      destruct (decide (le_val (c :: l) = 0)) as [E|]; [|lia].
      specialize (IH 0%nat). cbn [serialize_abs] in IH.
      exfalso. clear IH Hf fuel H. revert c Hlast Hl E. induction l as [|d l IHl]; intros c Hlast Hl E.
      + cbn in E, Hlast. apply Hlast. f_equal. lia.
      + apply Forall_cons_1 in Hl as [Hc Hl]. rewrite le_val_cons in E.
        pose proof (le_val_bound (d :: l) Hl). unfold word in Hc. apply (IHl d); [done|done|lia]. }
  destruct fuel as [|fuel]; [cbn in Hf; lia|]. cbn [serialize_abs].
  destruct (Z.eqb_spec (le_val (b :: l)) 0); [lia|].
  change 0xff with (Z.ones 8). rewrite Z.land_ones, Z.shiftr_div_pow2 by lia.
  rewrite le_val_cons. change (2 ^ 8) with 256. unfold word in Hb. change (2 ^ 8) with 256 in Hb.
  replace ((b + 256 * le_val l) / 256) with (le_val l)
    by (apply (Z.div_unique _ _ _ b); lia).
  replace ((b + 256 * le_val l) mod 256) with b
    by (apply (Z.mod_unique _ _ (le_val l)); lia).
  rewrite IH; [done| |cbn in Hf; lia]. intros E. apply Hlast. destruct l; [done|]. done.
Qed.

Lemma serialize_abs_total fuel a :
  0 <= a < 256 ^ Z.of_nat fuel ->
  exists l, serialize_abs fuel a = Some l /\ Forall byte l /\ list.last l <> Some 0 /\ le_val l = a /\
    (length l <= fuel)%nat.
Proof.
  revert a. induction fuel as [|fuel IH]; intros a Ha.
  { exists []. cbn in Ha. replace a with 0 by lia. split_and!; (done || constructor). }
  cbn [serialize_abs]. destruct (Z.eqb_spec a 0) as [->|Hne].
  { exists []. split_and!; (done || cbn; (lia || constructor)). }
  change 0xff with (Z.ones 8). rewrite Z.land_ones, Z.shiftr_div_pow2 by lia. change (2 ^ 8) with 256.
  rewrite Nat2Z.inj_succ, Z.pow_succ_r in Ha by lia.
  destruct (IH (a / 256)) as (l&->&Hl&Hlast&Hv&Hn).
  { split; [apply Z.div_pos; lia|]. apply Z.div_lt_upper_bound; lia. }
  exists (a mod 256 :: l). cbn [mbind option_bind]. pose proof (Z.mod_pos_bound a 256).
  pose proof (Z.div_mod a 256). rewrite le_val_cons. split_and!; [done| | |lia|cbn; lia].
  - constructor; [unfold word; lia|done].
  - destruct l as [|c l]; [|done]. cbn in Hv. intros [= E]. lia.
Qed.

Lemma byte_low b : byte b -> b .& 0x7f = b mod 128.
Proof. intros _. change 0x7f with (Z.ones 7). by rewrite Z.land_ones by lia. Qed.

Lemma byte_set_top b : 0 <= b < 128 -> b .| 0x80 = b + 128.
Proof. intros Hb. change 0x80 with (1 << 7). by rewrite (lor_shiftl_add b 1 7) by (unfold word; lia). Qed.

Lemma minimally_encoded_snoc l back :
  Forall byte (l ++ [back]) ->
  minimally_encoded (l ++ [back]) = true <->
  (back mod 128 <> 0 \/ exists l' c, l = l' ++ [c] /\ 128 <= c).
Proof.
  intros [Hl Hb]%Forall_app. apply Forall_cons_1 in Hb as [Hb _].
  unfold minimally_encoded. rewrite last_snoc, byte_low by done. unfold vsize. rewrite length_app. cbn [length].
  replace (length l + 1 - 2)%nat with (length l - 1)%nat by lia.
  destruct (Z.eqb_spec (back mod 128) 0) as [E|E]; cbn [andb]; [|split; [by left|done]].
  destruct l as [|c l _] using rev_ind.
  { cbn. split; [done|]. intros [?|(l'&c&H&_)]; [done|]. by destruct l'. }
  apply Forall_app in Hl as [Hl Hc]. apply Forall_cons_1 in Hc as [Hc _].
  rewrite length_app. cbn [length].
  rewrite lookup_app_l by (rewrite length_app; cbn [length]; lia).
  rewrite lookup_app_r by lia. replace (length l + 1 - 1 - length l)%nat with 0%nat by lia. cbn [lookup list_lookup default]. unfold id.
  destruct (Z.leb_spec (Z.of_nat (length l + 1 + 1)) 1); [lia|]. cbn [orb].
  pose proof (testbit_top c Hc) as Ht. destruct (c .& 0x80 =? 0); cbn [negb] in Ht |- *; symmetry in Ht.
  - apply Z.leb_gt in Ht. split; [done|]. intros [?|(l'&c'&Heq&?)]; [done|].
    apply app_inj_tail in Heq as [_ ->]. lia.
  - apply Z.leb_le in Ht. split; [|done]. intros _. right. by exists l, c.
Qed.

Lemma le_val_top l b : Forall byte l -> le_val (l ++ [b]) = le_val l + 256 ^ vsize l * b.
Proof. intros _. rewrite le_val_app, le_val_cons. cbn [le_val foldr]. lia. Qed.

Lemma le_val_zero_top l : le_val (l ++ [0]) = le_val l.
Proof. rewrite le_val_app, le_val_cons. change (le_val []) with 0. lia. Qed.

Lemma pow256_bits n : 0 <= n -> 256 ^ n = 2 ^ (8 * n).
Proof. intros. by rewrite Z.pow_mul_r by lia. Qed.

(** The magnitude and sign of a list of digits that ends with [back]. *)
Lemma num_val_bound l back :
  Forall byte (l ++ [back]) -> Z.abs (num_val l back) < 2 ^ (8 * (vsize l + 1) - 1).
Proof.
  intros [Hl Hb]%Forall_app. apply Forall_cons_1 in Hb as [Hb _].
  pose proof (le_val_bound l Hl). pose proof (vsize_nonneg l).
  replace (8 * (vsize l + 1) - 1) with (8 * vsize l + 7) by lia.
  rewrite Z.pow_add_r, <- pow256_bits by lia. unfold word in Hb. change (2 ^ 7) with 128.
  unfold num_val. destruct (Z.ltb_spec back 128); rewrite le_val_top by done; nia.
Qed.

Lemma serialize_nonzero v l :
  v <> 0 -> Z.abs v < 2 ^ 63 -> Forall byte l -> list.last l <> Some 0 -> (length l <= 8)%nat ->
  le_val l = Z.abs v ->
  serialize v = (back ← list.last l;
    Some (if 128 <=? back then l ++ [if v <? 0 then 0x80 else 0]
          else if v <? 0 then set_back l (fun b => b .| 0x80) else l)).
Proof.
  intros Hv Hlt Hl Hlast Hn E. unfold serialize. destruct (Z.eqb_spec v 0); [done|].
  assert (u64 (if v <? 0 then - v else v) = le_val l) as ->.
  { unfold u64. rewrite E. destruct (Z.ltb_spec v 0); rewrite Z.mod_small by lia; lia. }
  rewrite serialize_abs_digits by done. cbn [mbind option_bind].
  destruct (list.last l) as [b|] eqn:Eb; [|done]. cbn [mbind option_bind]. rewrite testbit_top; [done|].
  apply last_Some_elem_of in Eb. by eapply list.Forall_forall in Eb.
Qed.

Lemma set_back_snoc l b f : set_back (l ++ [b]) f = l ++ [f b].
Proof. unfold set_back. by rewrite last_snoc, removelast_last. Qed.

Lemma serialize_num l back :
  Forall byte (l ++ [back]) -> (length l < 8)%nat -> minimally_encoded (l ++ [back]) = true ->
  serialize (num_val l back) = Some (l ++ [back]).
Proof.
  intros H Hlen Hm. apply minimally_encoded_snoc in Hm; [|done].
  pose proof (num_val_bound l back H) as Hbd.
  assert (Z.abs (num_val l back) < 2 ^ 63) as Hbd63.
  { eapply Z.lt_le_trans; [exact Hbd|]. apply Z.pow_le_mono_r; unfold vsize; lia. }
  clear Hbd. apply Forall_app in H as [Hl Hb]. apply Forall_cons_1 in Hb as [Hb _]. unfold word in Hb. change (2 ^ 8) with 256 in Hb.
  pose proof (le_val_bound l Hl) as Bl. unfold num_val in *.
  pose proof (Z.pow_pos_nonneg 256 (vsize l) ltac:(lia) (vsize_nonneg l)).
  destruct (decide (back mod 128 = 0)) as [E|E].
  - destruct Hm as [?|(l'&c&->&Hc)]; [done|].
    apply Forall_app in Hl as [Hl' Hc']. apply Forall_cons_1 in Hc' as [Hc' _].
    assert (0 < le_val (l' ++ [c])) as Hpos.
    { rewrite le_val_top by done. pose proof (le_val_bound l' Hl').
      pose proof (Z.pow_pos_nonneg 256 (vsize l') ltac:(lia) (vsize_nonneg l')). nia. }
    assert (back = 0 \/ back = 128) as Hbk.
    { pose proof (Z.div_mod back 128). assert (0 <= back / 128 < 2); [|lia].
      split; [apply Z.div_pos; lia|apply Z.div_lt_upper_bound; lia]. }
    rewrite (serialize_nonzero _ (l' ++ [c])); rewrite ?last_snoc; try done.
    + cbn [mbind option_bind]. destruct (Z.leb_spec 128 c); [|lia]. do 2 f_equal.
      destruct Hbk as [-> | ->].
      * change (0 <? 128) with true. cbv iota. destruct (Z.ltb_spec (le_val ((l' ++ [c]) ++ [0])) 0) as [Hx|]; [|done].
        rewrite ?(Z.sub_diag 128), le_val_zero_top in Hx. lia.
      * change (128 <? 128) with false. cbv iota.
        destruct (Z.ltb_spec (- le_val ((l' ++ [c]) ++ [128 - 128])) 0) as [Hx|Hx]; [done|].
        rewrite ?(Z.sub_diag 128), le_val_zero_top in Hx. lia.
    + destruct Hbk as [-> | ->]; [change (0 <? 128) with true|change (128 <? 128) with false; change (128 - 128) with 0];
        cbv iota; rewrite le_val_zero_top; lia.
    + apply Forall_app; split; [done|by apply Forall_singleton].
    + intros [= ->]. lia.
    + lia.
    + destruct Hbk as [-> | ->]; [change (0 <? 128) with true|change (128 <? 128) with false; change (128 - 128) with 0];
        cbv iota; rewrite le_val_zero_top; lia.
  - destruct (Z.ltb_spec back 128) as [Hlt|Hge].
    + rewrite Z.mod_small in E by lia.
      rewrite (serialize_nonzero _ (l ++ [back])); rewrite ?last_snoc, ?length_app; try done.
      * cbn [mbind option_bind]. destruct (Z.leb_spec 128 back); [lia|].
        destruct (Z.ltb_spec (le_val (l ++ [back])) 0) as [Hx|]; [|done].
        rewrite le_val_top in Hx by done. nia.
      * rewrite le_val_top by done. nia.
      * apply Forall_app; split; [done|]. apply Forall_singleton. unfold word; lia.
      * intros [= ->]. lia.
      * cbn [length]. lia.
      * rewrite le_val_top by done. nia.
    + assert (back - 128 <> 0) by (intros Hx; apply E; replace back with 128 by lia; done).
      rewrite (serialize_nonzero _ (l ++ [back - 128])); rewrite ?last_snoc, ?length_app; try done.
      * cbn [mbind option_bind]. destruct (Z.leb_spec 128 (back - 128)); [lia|].
        destruct (Z.ltb_spec (- le_val (l ++ [back - 128])) 0) as [Hx|Hx].
        -- rewrite set_back_snoc, byte_set_top by lia. do 3 f_equal. lia.
        -- rewrite le_val_top in Hx by done. nia.
      * rewrite le_val_top by done. nia.
      * apply Forall_app; split; [done|]. apply Forall_singleton. unfold word; lia.
      * intros [= ?]. lia.
      * cbn [length]. lia.
      * rewrite le_val_top by done. nia.
Qed.

(** What [serialize] returns, for every [int64_t] but the smallest. *)
Lemma serialize_spec v :
  Z.abs v < 2 ^ 63 ->
  v = 0 /\ serialize v = Some [] \/
  exists l back, serialize v = Some (l ++ [back]) /\ Forall byte (l ++ [back]) /\
    minimally_encoded (l ++ [back]) = true /\ num_val l back = v /\
    (forall k, 1 <= k -> Z.abs v < 2 ^ (8 * k - 1) -> vsize (l ++ [back]) <= k).
Proof.
  intros Hv. destruct (decide (v = 0)) as [->|Hne]; [by left|right].
  destruct (serialize_abs_total 8 (Z.abs v)) as (d&_&Hd&Hlast&Hval&Hlen).
  { split; [lia|]. eapply Z.lt_le_trans; [exact Hv|]. by vm_compute. }
  rewrite (serialize_nonzero v d) by done.
  destruct d as [|b l _] using rev_ind; [cbn in Hval; lia|]. rewrite last_snoc in Hlast |- *. cbn [mbind option_bind].
  pose proof Hd as [Hl Hb]%Forall_app. apply Forall_cons_1 in Hb as [Hb _]. unfold word in Hb. change (2 ^ 8) with 256 in Hb.
  assert (b <> 0) by congruence. rewrite length_app in Hlen. cbn [length] in Hlen.
  pose proof (le_val_bound l Hl) as Bl. pose proof (vsize_nonneg l) as Nl.
  assert (forall n, vsize l + 1 = n -> vsize (l ++ [b]) = n) as Sn.
  { intros n <-. unfold vsize. rewrite length_app. cbn [length]. lia. }
  rewrite le_val_top in Hval by done.
  assert (forall j k, 0 <= j -> 1 <= k -> 2 ^ j * 256 ^ vsize l <= Z.abs v -> Z.abs v < 2 ^ (8 * k - 1) ->
    j + 8 * vsize l < 8 * k - 1) as Hpow.
  { intros j k Hj Hk H1 H2. apply (Z.pow_lt_mono_r_iff 2); [lia|lia|].
    rewrite Z.pow_add_r, <- pow256_bits by lia. lia. }
  destruct (Z.leb_spec 128 b).
  - exists (l ++ [b]), (if v <? 0 then 0x80 else 0).
    assert (Forall byte ((l ++ [b]) ++ [if v <? 0 then 0x80 else 0])) as Hall.
    { apply Forall_app; split; [done|]. apply Forall_singleton. destruct (v <? 0); unfold word; lia. }
    split_and!; [done|done| | |].
    + apply minimally_encoded_snoc; [done|]. right. by exists l, b.
    + unfold num_val. destruct (Z.ltb_spec v 0).
      * change (128 <? 128) with false. cbv iota. change (128 - 128) with 0. rewrite le_val_zero_top, le_val_top by done. lia.
      * change (0 <? 128) with true. cbv iota. rewrite le_val_zero_top, le_val_top by done. lia.
    + intros k Hk Hlt. specialize (Hpow 7 k ltac:(lia) Hk ltac:(change (2 ^ 7) with 128; nia) Hlt).
      unfold vsize in *. rewrite !length_app. cbn [length]. lia.
  - exists l, (if v <? 0 then b + 128 else b).
    assert (Forall byte (l ++ [if v <? 0 then b + 128 else b])) as Hall.
    { apply Forall_app; split; [done|]. apply Forall_singleton. destruct (v <? 0); unfold word; lia. }
    split_and!; [|done| | |].
    + destruct (v <? 0); [|done]. by rewrite set_back_snoc, byte_set_top by lia.
    + apply minimally_encoded_snoc; [done|]. left. destruct (v <? 0); [|by rewrite Z.mod_small by lia].
      replace (b + 128) with (b + 1 * 128) by lia. by rewrite Z_mod_plus_full, Z.mod_small by lia.
    + unfold num_val. destruct (Z.ltb_spec v 0).
      * destruct (Z.ltb_spec (b + 128) 128); [lia|]. replace (b + 128 - 128) with b by lia. rewrite le_val_top by done. lia.
      * destruct (Z.ltb_spec b 128); [|lia]. rewrite le_val_top by done. lia.
    + intros k Hk Hlt. specialize (Hpow 0 k ltac:(lia) Hk ltac:(change (2 ^ 0) with 1; nia) Hlt).
      unfold vsize in *. rewrite !length_app. cbn [length]. lia.
Qed.

Lemma serialize_size v vch k :
  serialize v = Some vch -> 1 <= k <= 8 -> Z.abs v < 2 ^ (8 * k - 1) -> vsize vch <= k.
Proof.
  intros H Hk Hlt. assert (Z.abs v < 2 ^ 63) as H63.
  { eapply Z.lt_le_trans; [exact Hlt|]. apply Z.pow_le_mono_r; lia. }
  destruct (serialize_spec v H63) as [[-> E]|(l&b&E&_&_&_&Hs)]; rewrite E in H; injection H as <-.
  - unfold vsize. cbn [length]. lia.
  - by apply Hs; [lia|].
Qed.

Lemma serialize_inv v vch :
  serialize v = Some vch -> Z.abs v < 2 ^ 63 ->
  Forall byte vch /\ minimally_encoded vch = true /\ set_vch vch = v.
Proof.
  intros H H63. pose proof (serialize_size v vch 8 H ltac:(lia) ltac:(done)) as Hs.
  destruct (serialize_spec v H63) as [[-> E]|(l&b&E&Hb&Hm&Hn&_)]; rewrite E in H; injection H as <-; [done|].
  unfold vsize in Hs. rewrite length_app in Hs. cbn [length] in Hs.
  split_and!; [done|done|]. rewrite set_vch_val by (done || lia). done.
Qed.

Lemma serialize_total v : Z.abs v < 2 ^ 63 -> exists vch, serialize v = Some vch.
Proof. intros H. destruct (serialize_spec v H) as [[_ E]|(l&b&E&_)]; by eexists. Qed.

Lemma set_vch_range vch k :
  Forall byte vch -> vsize vch <= k -> k <= 8 -> Z.abs (set_vch vch) < 2 ^ (8 * k - 1) \/ k < 1.
Proof.
  intros Hv Hs Hk. destruct (Z.ltb_spec k 1); [by right|left].
  destruct vch as [|b l _] using rev_ind; [change (set_vch []) with 0; apply Z.pow_pos_nonneg; lia|].
  unfold vsize in Hs. rewrite length_app in Hs. cbn [length] in Hs.
  rewrite set_vch_val by (done || lia). eapply Z.lt_le_trans; [by apply num_val_bound|].
  apply Z.pow_le_mono_r; unfold vsize; lia.
Qed.

Lemma CScriptNum_range vch b k v :
  Forall byte vch -> 1 <= k <= 8 -> CScriptNum vch b k = inr v -> Z.abs v < 2 ^ (8 * k - 1).
Proof.
  intros Hv Hk. unfold CScriptNum. rewrite Z.gtb_ltb. destruct (Z.ltb_spec k (vsize vch)); [done|].
  destruct (b && _); [done|]. intros [= <-]. destruct (set_vch_range vch k Hv) as [?|?]; (done || lia).
Qed.

(** Script numbers have one shortest encoding, which is the one the constructor accepts when
    it asks for the shortest one: it returns [v] exactly when [v] has at most [8 * k - 1] bits
    besides the sign and [vch] is what [serialize] writes for it. Without that demand it
    accepts every vector of at most [k] bytes, again with a number of that range. *)
Theorem scriptnum_codec vch v k :
  Forall byte vch -> 1 <= k <= 8 ->
  (CScriptNum vch true k = inr v <-> Z.abs v < 2 ^ (8 * k - 1) /\ serialize v = Some vch) /\
  (vsize vch <= k <-> exists w, CScriptNum vch false k = inr w) /\
  (CScriptNum vch false k = inr v -> Z.abs v < 2 ^ (8 * k - 1)).
Proof.
  intros Hv Hk. unfold CScriptNum. cbn [andb].
  assert (vsize vch <= k -> Z.abs (set_vch vch) < 2 ^ (8 * k - 1)) as Hrange.
  { intros Hs. destruct (set_vch_range vch k Hv Hs); lia. }
  rewrite Z.gtb_ltb. split_and!.
  - destruct (Z.ltb_spec k (vsize vch)) as [Hs|Hs]; (split; [intros H|intros [Hlt H]]); try done.
    + exfalso. pose proof (serialize_size v vch k H ltac:(lia) Hlt). lia.
    + destruct (minimally_encoded vch) eqn:Em; [|done]. injection H as <-. split; [by apply Hrange|].
      destruct vch as [|b l _] using rev_ind; [done|]. unfold vsize in Hs. rewrite length_app in Hs. cbn [length] in Hs.
      rewrite set_vch_val by (done || lia). by apply serialize_num; [|lia|].
    + apply serialize_inv in H as (_&Em&->); [by rewrite Em|].
      eapply Z.lt_le_trans; [exact Hlt|]. apply Z.pow_le_mono_r; lia.
  - destruct (Z.ltb_spec k (vsize vch)); (split; [intros|intros [w H']]); try (done || lia). by eexists.
  - destruct (Z.ltb_spec k (vsize vch)); [done|]. intros [= <-]. by apply Hrange.
Qed.

(** The numbers 1000 and -255, and negative zero, which is not a shortest encoding. *)
Lemma scriptnum_codec_witness :
  CScriptNum [0xe8; 0x03] true 4 = inr 1000 /\ serialize (-255) = Some [0xff; 0x80] /\
  CScriptNum [0x80] true 4 = inl scriptnum_nonminimal /\ CScriptNum [0x80] false 4 = inr 0.
Proof.
  split; [|by vm_compute].
  apply (scriptnum_codec [0xe8; 0x03] 1000 4); [|lia|by vm_compute].
  repeat (apply Forall_cons_2; [unfold word; lia|]); constructor.
Defined.

(** ** Instructions *)

(** An instruction is a non-empty prefix of what is left; its operand is the end of that
    prefix. *)
Lemma GetOp_split pc opcode vch pc' :
  GetOp pc = Some (opcode, vch, pc') ->
  exists pre, pc = opcode :: pre ++ vch ++ pc' /\ (OP_PUSHDATA4 < opcode -> pre ++ vch = []).
Proof.
  unfold GetOp, GetOp2. destruct pc as [|op pc]; [done|].
  destruct (Z.leb_spec op OP_PUSHDATA4) as [Hop|Hop].
  - destruct (operand_size op pc) as [[nSize|] pc1] eqn:Es; [|done].
    destruct (u32 (vsize pc1) <? nSize); [done|]. intros [= <- <- <-].
    assert (exists pre, pc = pre ++ pc1) as [pre ->].
    { unfold operand_size in Es. destruct (op <? OP_PUSHDATA1); [injection Es as <- <-; by exists []|].
      destruct (op =? OP_PUSHDATA1); [|destruct (op =? OP_PUSHDATA2)];
        (match type of Es with (if ?c then _ else _) = _ => destruct c end; [done|];
         injection Es as _ <-; eexists; symmetry; apply take_drop). }
    exists pre. rewrite take_drop. split; [done|lia].
  - intros [= <- <- <-]. exists []. split; [done|done].
Qed.

Lemma GetOp_shorter pc opcode vch pc' :
  GetOp pc = Some (opcode, vch, pc') -> (length vch + length pc' < length pc)%nat.
Proof. intros (pre&->&_)%GetOp_split. cbn [length]. rewrite !length_app. lia. Qed.

Lemma GetOp_bytes pc opcode vch pc' :
  Forall byte pc -> GetOp pc = Some (opcode, vch, pc') ->
  byte opcode /\ Forall byte vch /\ Forall byte pc'.
Proof.
  intros H (pre&->&_)%GetOp_split. apply Forall_cons_1 in H as [Ho H].
  by rewrite !Forall_app in H; destruct H as (_&?&?).
Qed.

Lemma GetOp_opcode opcode pc : OP_PUSHDATA4 < opcode -> GetOp (opcode :: pc) = Some (opcode, [], pc).
Proof. intros H. unfold GetOp, GetOp2. by destruct (Z.leb_spec opcode OP_PUSHDATA4); [lia|]. Qed.

(** The opcode that [operator<<] chooses for data. *)
Definition push_op (b : valtype) : Z :=
  if vsize b <? OP_PUSHDATA1 then vsize b
  else if vsize b <=? 0xff then OP_PUSHDATA1
  else if vsize b <=? 0xffff then OP_PUSHDATA2 else OP_PUSHDATA4.

Lemma push_op_le b : 0 <= push_op b <= OP_PUSHDATA4.
Proof.
  pose proof (vsize_nonneg b). unfold push_op, OP_PUSHDATA1, OP_PUSHDATA2, OP_PUSHDATA4.
  destruct (Z.ltb_spec (vsize b) 0x4c); [lia|].
  destruct (vsize b <=? 0xff); [lia|]. destruct (vsize b <=? 0xffff); lia.
Qed.

Lemma take_vsize (b rest : valtype) : take (Z.to_nat (vsize b)) (b ++ rest) = b.
Proof. unfold vsize. rewrite Nat2Z.id. apply take_app_length. Qed.
Lemma drop_vsize (b rest : valtype) : drop (Z.to_nat (vsize b)) (b ++ rest) = rest.
Proof. unfold vsize. rewrite Nat2Z.id. apply drop_app_length. Qed.

Lemma push_data_app s b : push_data s b = s ++ push_data [] b.
Proof. done. Qed.

Lemma load_store_app n v rest :
  word (8 * Z.of_nat n) v -> load_le n (store_le n v ++ rest) = v.
Proof.
  intros Hv. rewrite <- (load_le_take n n) by lia.
  rewrite take_app_le by (rewrite length_store_le; lia).
  rewrite take_ge by (rewrite length_store_le; lia). rewrite load_le_store_le by done. done.
Qed.

Lemma GetOp_push_data b rest :
  vsize (b ++ rest) < 2 ^ 32 -> GetOp (push_data [] b ++ rest) = Some (push_op b, b, rest).
Proof.
  intros Hs. pose proof (vsize_nonneg b) as Hb.
  assert (vsize b <= vsize (b ++ rest)) as Hle by (unfold vsize; rewrite length_app; lia).
  assert (u32 (vsize (b ++ rest)) <? vsize b = false) as Hu.
  { unfold u32. rewrite Z.mod_small by (pose proof (vsize_nonneg (b ++ rest)); lia). apply Z.ltb_ge. lia. }
  unfold push_data, push_op. rewrite app_nil_l.
  destruct (Z.ltb_spec (vsize b) OP_PUSHDATA1) as [H1|H1].
  { cbn [app]. unfold GetOp, GetOp2, operand_size.
    destruct (Z.leb_spec (vsize b) OP_PUSHDATA4); [|unfold OP_PUSHDATA1, OP_PUSHDATA4 in *; lia].
    destruct (Z.ltb_spec (vsize b) OP_PUSHDATA1); [|lia]. by rewrite Hu, take_vsize, drop_vsize. }
  destruct (Z.leb_spec (vsize b) 0xff) as [H2|H2].
  { cbn [app]. unfold GetOp, GetOp2, operand_size.
    change (OP_PUSHDATA1 <=? OP_PUSHDATA4) with true. change (OP_PUSHDATA1 <? OP_PUSHDATA1) with false.
    change (OP_PUSHDATA1 =? OP_PUSHDATA1) with true. cbv iota. rewrite vsize_cons.
    destruct (Z.ltb_spec (vsize (b ++ rest) + 1) 1); [pose proof (vsize_nonneg (b ++ rest)); lia|].
    change (list.head (vsize b :: b ++ rest)) with (Some (vsize b)).
    change (drop 1 (vsize b :: b ++ rest)) with (b ++ rest). cbv iota beta. by rewrite Hu, take_vsize, drop_vsize. }
  destruct (Z.leb_spec (vsize b) 0xffff) as [H3|H3].
  { unfold GetOp, GetOp2, operand_size. cbn [app].
    change (OP_PUSHDATA2 <=? OP_PUSHDATA4) with true. change (OP_PUSHDATA2 <? OP_PUSHDATA1) with false.
    change (OP_PUSHDATA2 =? OP_PUSHDATA1) with false. change (OP_PUSHDATA2 =? OP_PUSHDATA2) with true. cbv iota.
    unfold WriteLE16, ReadLE16. rewrite <- app_assoc.
    destruct (Z.ltb_spec (vsize (store_le 2 (vsize b) ++ b ++ rest)) 2) as [Hx|_].
    { unfold vsize in Hx at 1. rewrite length_app, length_store_le in Hx. lia. }
    rewrite load_store_app by (unfold word; lia).
    rewrite drop_app_ge, length_store_le, drop_0 by (rewrite length_store_le; lia).
    by rewrite Hu, take_vsize, drop_vsize. }
  unfold GetOp, GetOp2, operand_size. cbn [app].
  change (OP_PUSHDATA4 <=? OP_PUSHDATA4) with true. change (OP_PUSHDATA4 <? OP_PUSHDATA1) with false.
  change (OP_PUSHDATA4 =? OP_PUSHDATA1) with false. change (OP_PUSHDATA4 =? OP_PUSHDATA2) with false. cbv iota.
  unfold WriteLE32, ReadLE32. rewrite <- app_assoc.
  replace (u32 (vsize b)) with (vsize b) by (unfold u32; rewrite Z.mod_small; lia).
  destruct (Z.ltb_spec (vsize (store_le 4 (vsize b) ++ b ++ rest)) 4) as [Hx|_].
  { unfold vsize in Hx at 1. rewrite length_app, length_store_le in Hx. lia. }
  rewrite load_store_app by (unfold word; lia).
  rewrite drop_app_ge, length_store_le, drop_0 by (rewrite length_store_le; lia).
  by rewrite Hu, take_vsize, drop_vsize.
Qed.

(** *** Fuel: every instruction takes at least one byte *)

Lemma sigop_loop_total fuel fAccurate pc lastOpcode n :
  (length pc < fuel)%nat -> is_Some (sigop_loop fuel fAccurate pc lastOpcode n).
Proof.
  revert pc lastOpcode n. induction fuel as [|fuel IH]; intros pc lastOpcode n Hf; [lia|].
  cbn [sigop_loop]. destruct (GetOp pc) as [[[op vch] pc']|] eqn:E; [|by eexists].
  apply GetOp_shorter in E. assert (length pc' < fuel)%nat as Hf' by lia.
  destruct (_ || _); [by apply IH|]. destruct (_ || _); [|by apply IH].
  destruct (fAccurate && _ && _) eqn:Ec; [|by apply IH].
  apply andb_prop in Ec as [[_ Ha]%andb_prop Hb]. unfold DecodeOP_N.
  rewrite Ha, Hb. by destruct (lastOpcode =? OP_0); apply IH.
Qed.

Lemma GetSigOpCount_total s fAccurate : is_Some (GetSigOpCount s fAccurate).
Proof. apply sigop_loop_total. lia. Qed.

Lemma push_only_loop_total fuel pc : (length pc <= fuel)%nat -> is_Some (push_only_loop fuel pc).
Proof.
  revert pc. induction fuel as [|fuel IH]; intros [|b pc] Hf; [by eexists|cbn in Hf; lia|by eexists|].
  cbn [push_only_loop]. destruct (GetOp (b :: pc)) as [[[op vch] pc']|] eqn:E; [|by eexists].
  apply GetOp_shorter in E. destruct (op >? OP_16); [by eexists|]. apply IH. cbn in Hf, E. lia.
Qed.

Lemma IsPushOnly_total s : is_Some (IsPushOnly s).
Proof. by apply push_only_loop_total. Qed.

Lemma skip_copies_total fuel b pc n :
  b <> [] -> (length pc < fuel)%nat ->
  exists k pc' n', skip_copies fuel b pc n = Some (pc', n') /\ n' = n + Z.of_nat k /\
    pc = concat (replicate k b) ++ pc'.
Proof.
  intros Hb. revert pc n. induction fuel as [|fuel IH]; intros pc n Hf; [lia|]. cbn [skip_copies].
  destruct ((vsize b <=? vsize pc) && bool_decide (take (length b) pc = b)) eqn:Ec.
  - apply andb_prop in Ec as [_ Et%bool_decide_eq_true].
    assert (0 < length b)%nat by (destruct b; [done|cbn; lia]).
    destruct (IH (drop (length b) pc) (n + 1)) as (k&pc'&n'&->&->&Hpc).
    { rewrite length_drop. destruct pc; [|cbn [length] in Hf |- *; lia]. rewrite take_nil in Et. by subst b. }
    exists (S k), pc', (n + 1 + Z.of_nat k). split_and!; [done|lia|].
    cbn [replicate concat]. rewrite <- app_assoc, <- Hpc, <- Et at 1. by rewrite take_drop.
  - exists 0%nat, pc, n. split_and!; [done|lia|done].
Qed.

(** [FindAndDelete] ends, and what it returns is shorter by the copies it counts. *)
Lemma fad_loop_total fuel b done_ pc result n :
  b <> [] -> (length pc < fuel)%nat ->
  exists r n', fad_loop fuel b (done_ ++ pc) pc result n = Some (r, n') /\ n <= n' /\
    vsize r + (n' - n) * vsize b = vsize result + vsize (done_ ++ pc).
Proof.
  intros Hb. revert done_ pc result n. induction fuel as [|fuel IH]; intros dn pc result n Hf; [lia|].
  cbn [fad_loop]. destruct (skip_copies_total (S (length pc)) b pc n Hb) as (k&pc'&n'&->&->&Hpc); [lia|].
  cbn [mbind option_bind].
  assert (take (length (dn ++ pc) - length pc) (dn ++ pc) = dn) as ->.
  { rewrite length_app, Nat.add_sub. apply take_app_length. }
  assert (length pc = k * length b + length pc')%nat as Hlen.
  { rewrite Hpc at 1. rewrite length_app. f_equal. clear. induction k as [|k IH]; [done|].
    cbn [replicate concat]. rewrite length_app, IH. lia. }
  destruct (GetOp pc') as [[[op vch] pc'']|] eqn:E.
  - pose proof (GetOp_shorter _ _ _ _ E). apply GetOp_split in E as (pre&->&_).
    destruct (IH (op :: pre ++ vch) pc'' (result ++ dn) (n + Z.of_nat k)) as (r&n''&Hr&Hn&Hv); [lia|].
    exists r, n''. split_and!; [|lia|].
    + rewrite <- Hr. f_equal. cbn [app]. by rewrite <- app_assoc.
    + unfold vsize in *. rewrite !length_app in *. cbn [length app] in *. rewrite !length_app in *. nia.
  - exists ((result ++ dn) ++ pc'), (n + Z.of_nat k). split_and!; [done|lia|].
    unfold vsize in *. rewrite !length_app in *. nia.
Qed.

Lemma FindAndDelete_total s b :
  exists r n, FindAndDelete s b = Some (r, n) /\ 0 <= n /\ vsize r + n * vsize b = vsize s.
Proof.
  unfold FindAndDelete. destruct (Nat.eqb_spec (length b) 0) as [E|E].
  { exists s, 0. split_and!; [done|lia|lia]. }
  destruct (fad_loop_total (S (length s)) b [] s [] 0) as (r&n&Hr&Hn&Hv); [by destruct b|lia|].
  cbn [app] in Hr, Hv. rewrite Hr. cbn [mbind option_bind]. exists (if n >? 0 then r else s), n.
  rewrite Z.gtb_ltb. change (vsize []) with 0 in Hv. split_and!; [done|done|]. destruct (Z.ltb_spec 0 n); [lia|].
  replace n with 0 by lia. lia.
Qed.
