(* ===== verification/Interpreter.v ===== *)
(** The script interpreter (script/interpreter.cpp): the encodings of signatures and keys,
    every instruction of [EvalScript], [VerifyScript] with its pay-to-script-hash and witness
    programs, and the count of signature operations of a witness.

    The stacks of the code are vectors whose top is the last element; here the top is the
    head of a list, so that [stacktop(-i)] is the element with index [i - 1]. An evaluation
    ends in one of four ways, the constructors of [outcome]. *)

From Stdlib Require Import ZifyBool.
From S2P Require Import Prelude SphTypes Script.

#[local] Open Scope c_scope.

Inductive ScriptError :=
  | SCRIPT_ERR_OK | SCRIPT_ERR_UNKNOWN_ERROR | SCRIPT_ERR_EVAL_FALSE | SCRIPT_ERR_OP_RETURN
  | SCRIPT_ERR_SCRIPT_SIZE | SCRIPT_ERR_PUSH_SIZE | SCRIPT_ERR_OP_COUNT | SCRIPT_ERR_STACK_SIZE
  | SCRIPT_ERR_SIG_COUNT | SCRIPT_ERR_PUBKEY_COUNT
  | SCRIPT_ERR_VERIFY | SCRIPT_ERR_EQUALVERIFY | SCRIPT_ERR_CHECKMULTISIGVERIFY
  | SCRIPT_ERR_CHECKSIGVERIFY | SCRIPT_ERR_NUMEQUALVERIFY
  | SCRIPT_ERR_BAD_OPCODE | SCRIPT_ERR_DISABLED_OPCODE | SCRIPT_ERR_INVALID_STACK_OPERATION
  | SCRIPT_ERR_INVALID_ALTSTACK_OPERATION | SCRIPT_ERR_UNBALANCED_CONDITIONAL
  | SCRIPT_ERR_NEGATIVE_LOCKTIME | SCRIPT_ERR_UNSATISFIED_LOCKTIME
  | SCRIPT_ERR_SIG_HASHTYPE | SCRIPT_ERR_SIG_DER | SCRIPT_ERR_MINIMALDATA | SCRIPT_ERR_SIG_PUSHONLY
  | SCRIPT_ERR_SIG_HIGH_S | SCRIPT_ERR_SIG_NULLDUMMY | SCRIPT_ERR_PUBKEYTYPE | SCRIPT_ERR_CLEANSTACK
  | SCRIPT_ERR_MINIMALIF | SCRIPT_ERR_SIG_NULLFAIL
  | SCRIPT_ERR_DISCOURAGE_UPGRADABLE_NOPS | SCRIPT_ERR_DISCOURAGE_UPGRADABLE_WITNESS_PROGRAM
  | SCRIPT_ERR_WITNESS_PROGRAM_WRONG_LENGTH | SCRIPT_ERR_WITNESS_PROGRAM_WITNESS_EMPTY
  | SCRIPT_ERR_WITNESS_PROGRAM_MISMATCH | SCRIPT_ERR_WITNESS_MALLEATED
  | SCRIPT_ERR_WITNESS_MALLEATED_P2SH | SCRIPT_ERR_WITNESS_UNEXPECTED | SCRIPT_ERR_WITNESS_PUBKEYTYPE.

#[export] Instance ScriptError_eq_dec : EqDecision ScriptError.
Proof. solve_decision. Defined.

Inductive SigVersion := SIGVERSION_BASE | SIGVERSION_WITNESS_V0.

#[export] Instance SigVersion_eq_dec : EqDecision SigVersion.
Proof. solve_decision. Defined.

(** The exceptions that the [catch] of [EvalScript] may see. *)
Inductive exn := ScriptNum (e : scriptnum_error) | OutOfRange | StackEmpty.

(** [Ret]: the code goes on. [Fail]: it returns [false] with an error. [Exn]: it throws.
    [Crash]: an assertion fails, memory outside an array is read, or a signed number
    overflows. *)
Inductive outcome (A : Type) := Ret (a : A) | Fail (e : ScriptError) | Exn (x : exn) | Crash.
Arguments Ret {A} a.
Arguments Fail {A} e.
Arguments Exn {A} x.
Arguments Crash {A}.

#[export] Instance outcome_ret : MRet outcome := @Ret.
#[export] Instance outcome_bind : MBind outcome := fun A B f m =>
  match m with Ret a => f a | Fail e => Fail e | Exn x => Exn x | Crash => Crash end.

Definition checked {A} (o : option A) : outcome A := match o with Some a => Ret a | None => Crash end.

(** ** Flags *)

Definition SCRIPT_VERIFY_NONE : Z := 0.
Definition SCRIPT_VERIFY_P2SH : Z := 1 << 0.
Definition SCRIPT_VERIFY_STRICTENC : Z := 1 << 1.
Definition SCRIPT_VERIFY_DERSIG : Z := 1 << 2.
Definition SCRIPT_VERIFY_LOW_S : Z := 1 << 3.
Definition SCRIPT_VERIFY_NULLDUMMY : Z := 1 << 4.
Definition SCRIPT_VERIFY_SIGPUSHONLY : Z := 1 << 5.
Definition SCRIPT_VERIFY_MINIMALDATA : Z := 1 << 6.
Definition SCRIPT_VERIFY_DISCOURAGE_UPGRADABLE_NOPS : Z := 1 << 7.
Definition SCRIPT_VERIFY_CLEANSTACK : Z := 1 << 8.
Definition SCRIPT_VERIFY_CHECKLOCKTIMEVERIFY : Z := 1 << 9.
Definition SCRIPT_VERIFY_CHECKSEQUENCEVERIFY : Z := 1 << 10.
Definition SCRIPT_VERIFY_WITNESS : Z := 1 << 11.
Definition SCRIPT_VERIFY_DISCOURAGE_UPGRADABLE_WITNESS_PROGRAM : Z := 1 << 12.
Definition SCRIPT_VERIFY_MINIMALIF : Z := 1 << 13.
Definition SCRIPT_VERIFY_NULLFAIL : Z := 1 << 14.
Definition SCRIPT_VERIFY_WITNESS_PUBKEYTYPE : Z := 1 << 15.

(** [(flags & f) != 0] *)
Definition has (flags f : Z) : bool := negb (flags .& f =? 0).

Definition SIGHASH_ALL : Z := 1.
Definition SIGHASH_NONE : Z := 2.
Definition SIGHASH_SINGLE : Z := 3.
Definition SIGHASH_ANYONECANPAY : Z := 0x80.

(** [CTxIn::SEQUENCE_LOCKTIME_DISABLE_FLAG] *)
Definition SEQUENCE_LOCKTIME_DISABLE_FLAG : Z := 1 << 31.

(** ** Interfaces: who checks signatures, and the hash functions *)

Class BaseSignatureChecker := {
  CheckSig : valtype -> valtype -> CScript -> SigVersion -> option bool;
  CheckLockTime : Z -> option bool;
  CheckSequence : Z -> option bool;
}.

(** [CPubKey::CheckLowS] is a function of secp256k1; the hash functions are those of the
    objects that the code creates, fills and finalizes. *)
Class ScriptCrypto := {
  CheckLowS : valtype -> bool;
  hash_ripemd160 : valtype -> valtype;
  hash_sha1 : valtype -> valtype;
  hash_sha256 : valtype -> valtype;
  hash_hash160 : valtype -> valtype;
  hash_hash256 : valtype -> valtype;
}.

(** What the interpreter relies on: digests are bytes, 20 or 32 of them. *)
Definition digest (n : Z) (v : valtype) : Prop := Forall byte v /\ vsize v = n.

Class ScriptCryptoSpec (crypto : ScriptCrypto) := {
  ripemd160_digest v : digest 20 (hash_ripemd160 v);
  sha1_digest v : digest 20 (hash_sha1 v);
  sha256_digest v : digest 32 (hash_sha256 v);
  hash160_digest v : digest 20 (hash_hash160 v);
  hash256_digest v : digest 32 (hash_hash256 v);
}.

(** A checker that answers, for elements of the stack and scripts. *)
Class CheckerSpec (checker : BaseSignatureChecker) := {
  CheckSig_total sig key code v : is_Some (CheckSig sig key code v);
  CheckLockTime_total n : is_Some (CheckLockTime n);
  CheckSequence_total n : is_Some (CheckSequence n);
}.

(** ** Values, keys and signatures *)

(** The loop of [CastToBool] *)
Fixpoint CastToBool (vch : valtype) : bool :=
  match vch with
  | [] => false
  | b :: rest =>
      if negb (b =? 0) then negb ((length rest =? 0)%nat && (b =? 0x80)) else CastToBool rest
  end.

Definition IsCompressedOrUncompressedPubKey (vchPubKey : valtype) : option bool :=
  if vsize vchPubKey <? 33 then Some false
  else
    b ← vchPubKey !! 0%nat;
    Some (if b =? 0x04 then vsize vchPubKey =? 65
          else if (b =? 0x02) || (b =? 0x03) then vsize vchPubKey =? 33 else false).

Definition IsCompressedPubKey (vchPubKey : valtype) : option bool :=
  if negb (vsize vchPubKey =? 33) then Some false
  else b ← vchPubKey !! 0%nat; Some (negb (negb (b =? 0x02) && negb (b =? 0x03))).

(** [sig[i]]: [None] is an access outside the vector. *)
Definition sig_at (sig : valtype) (i : Z) : option Z := if i <? 0 then None else sig !! Z.to_nat i.

(** The tests of one integer of the signature, which starts at [p] and has [len] bytes. *)
Definition der_integer (sig : valtype) (p len : Z) : option bool :=
  t ← sig_at sig (p - 2);
  if negb (t =? 0x02) then Some false
  else if len =? 0 then Some false
  else
    b ← sig_at sig p;
    if negb (b .& 0x80 =? 0) then Some false
    else if (len >? 1) && (b =? 0x00) then c ← sig_at sig (p + 1); Some (negb (c .& 0x80 =? 0))
    else Some true.

Definition IsValidSignatureEncoding (sig : valtype) : option bool :=
  if vsize sig <? 9 then Some false
  else if vsize sig >? 73 then Some false
  else
    b0 ← sig_at sig 0;
    if negb (b0 =? 0x30) then Some false
    else
      b1 ← sig_at sig 1;
      if negb (b1 =? vsize sig - 3) then Some false
      else
        lenR ← sig_at sig 3;
        if 5 + lenR >=? vsize sig then Some false
        else
          lenS ← sig_at sig (5 + lenR);
          if negb (lenR + lenS + 7 =? vsize sig) then Some false
          else
            r ← der_integer sig 4 lenR;
            if negb r then Some false else der_integer sig (lenR + 6) lenS.

Abbreviation vstack := (list valtype).

Section interpreter.
Context `{crypto : ScriptCrypto} `{checker : BaseSignatureChecker}.

Definition IsLowDERSignature (vchSig : valtype) : outcome unit :=
  valid ← checked (IsValidSignatureEncoding vchSig);
  if negb valid then Fail SCRIPT_ERR_SIG_DER
  else if negb (CheckLowS (take (length vchSig - 1) vchSig)) then Fail SCRIPT_ERR_SIG_HIGH_S
  else Ret tt.

Definition IsDefinedHashtypeSignature (vchSig : valtype) : bool :=
  match list.last vchSig with
  | None => false
  | Some b =>
      let nHashType := b .& (Z.lnot SIGHASH_ANYONECANPAY mod 2 ^ 32) in
      negb ((nHashType <? SIGHASH_ALL) || (nHashType >? SIGHASH_SINGLE))
  end.

Definition CheckSignatureEncoding (vchSig : valtype) (flags : Z) : outcome unit :=
  if (length vchSig =? 0)%nat then Ret tt
  else
    _ ← (if has flags (SCRIPT_VERIFY_DERSIG .| SCRIPT_VERIFY_LOW_S .| SCRIPT_VERIFY_STRICTENC) then
           valid ← checked (IsValidSignatureEncoding vchSig);
           if negb valid then Fail SCRIPT_ERR_SIG_DER else Ret tt
         else Ret tt);
    _ ← (if has flags SCRIPT_VERIFY_LOW_S then IsLowDERSignature vchSig else Ret tt);
    if has flags SCRIPT_VERIFY_STRICTENC && negb (IsDefinedHashtypeSignature vchSig)
    then Fail SCRIPT_ERR_SIG_HASHTYPE else Ret tt.

Definition CheckPubKeyEncoding (vchPubKey : valtype) (flags : Z) (sigversion : SigVersion) : outcome unit :=
  _ ← (if has flags SCRIPT_VERIFY_STRICTENC then
         ok ← checked (IsCompressedOrUncompressedPubKey vchPubKey);
         if negb ok then Fail SCRIPT_ERR_PUBKEYTYPE else Ret tt
       else Ret tt);
  if has flags SCRIPT_VERIFY_WITNESS_PUBKEYTYPE && bool_decide (sigversion = SIGVERSION_WITNESS_V0) then
    ok ← checked (IsCompressedPubKey vchPubKey);
    if negb ok then Fail SCRIPT_ERR_WITNESS_PUBKEYTYPE else Ret tt
  else Ret tt.

Definition CheckMinimalPush (data : valtype) (opcode : Z) : bool :=
  match data with
  | [] => opcode =? OP_0
  | b :: rest =>
      if (vsize data =? 1) && (b >=? 1) && (b <=? 16) then opcode =? OP_1 + (b - 1)
      else if (vsize data =? 1) && (b =? 0x81) then opcode =? OP_1NEGATE
      else if vsize data <=? 75 then opcode =? vsize data
      else if vsize data <=? 255 then opcode =? OP_PUSHDATA1
      else if vsize data <=? 65535 then opcode =? OP_PUSHDATA2
      else true
  end.

(** ** Instructions *)

Definition vchFalse : valtype := [].
Definition vchTrue : valtype := [1].
Definition vch_of_bool (b : bool) : valtype := if b then vchTrue else vchFalse.
Definition bn_of_bool (b : bool) : Z := if b then 1 else 0.

(** [stacktop(-i)] *)
Definition stacktop (stack : vstack) (i : Z) : outcome valtype :=
  if (1 <=? i) then match stack !! Z.to_nat (i - 1) with Some v => Ret v | None => Exn OutOfRange end
  else Exn OutOfRange.

Definition popstack (stack : vstack) : outcome vstack :=
  match stack with [] => Exn StackEmpty | _ :: stack => Ret stack end.

Definition bad_stack {A} : outcome A := Fail SCRIPT_ERR_INVALID_STACK_OPERATION.

(** [if (stack.size() < n) return set_error(...)] in front of [k] *)
Definition at_least {A} (n : nat) (stack : vstack) (k : outcome A) : outcome A :=
  if (length stack <? n)%nat then bad_stack else k.

(** [swap(stacktop(-i), stacktop(-j))], [stack.erase(stack.end()-i, stack.end()-j)] and
    [stack.insert(stack.end()-i, vch)]; an iterator outside the vector is undefined behaviour. *)
Definition swap_top (stack : vstack) (i j : Z) : outcome vstack :=
  a ← stacktop stack i;
  b ← stacktop stack j;
  Ret (<[Z.to_nat (j - 1) := a]> (<[Z.to_nat (i - 1) := b]> stack)).
Definition erase_top (stack : vstack) (i j : nat) : outcome vstack :=
  if (j <=? i)%nat && (i <=? length stack)%nat then Ret (take j stack ++ drop i stack) else Crash.
Definition insert_top (stack : vstack) (i : nat) (vch : valtype) : outcome vstack :=
  if (i <=? length stack)%nat then Ret (take i stack ++ vch :: drop i stack) else Crash.

(** [CScriptNum(vch, fRequireMinimal, nMaxNumSize)] inside the [try] block *)
Definition num (vch : valtype) (fRequireMinimal : bool) (nMaxNumSize : Z) : outcome Z :=
  match CScriptNum vch fRequireMinimal nMaxNumSize with inr n => Ret n | inl e => Exn (ScriptNum e) end.

Definition push_num (n : Z) (stack : vstack) : outcome vstack :=
  vch ← checked (getvch n); Ret (vch :: stack).

(** [OP_CHECKLOCKTIMEVERIFY] and [OP_CHECKSEQUENCEVERIFY] leave the stack as it is. *)
Definition op_checklocktimeverify (flags : Z) (fRequireMinimal : bool) (stack : vstack) : outcome unit :=
  if negb (has flags SCRIPT_VERIFY_CHECKLOCKTIMEVERIFY) then
    if has flags SCRIPT_VERIFY_DISCOURAGE_UPGRADABLE_NOPS
    then Fail SCRIPT_ERR_DISCOURAGE_UPGRADABLE_NOPS else Ret tt
  else
    at_least 1 stack (
      top ← stacktop stack 1;
      nLockTime ← num top fRequireMinimal 5;
      if nLockTime <? 0 then Fail SCRIPT_ERR_NEGATIVE_LOCKTIME
      else
        ok ← checked (CheckLockTime nLockTime);
        if negb ok then Fail SCRIPT_ERR_UNSATISFIED_LOCKTIME else Ret tt).

Definition op_checksequenceverify (flags : Z) (fRequireMinimal : bool) (stack : vstack) : outcome unit :=
  if negb (has flags SCRIPT_VERIFY_CHECKSEQUENCEVERIFY) then
    if has flags SCRIPT_VERIFY_DISCOURAGE_UPGRADABLE_NOPS
    then Fail SCRIPT_ERR_DISCOURAGE_UPGRADABLE_NOPS else Ret tt
  else
    at_least 1 stack (
      top ← stacktop stack 1;
      nSequence ← num top fRequireMinimal 5;
      if nSequence <? 0 then Fail SCRIPT_ERR_NEGATIVE_LOCKTIME
      else if negb (nSequence .& SEQUENCE_LOCKTIME_DISABLE_FLAG =? 0) then Ret tt
      else
        ok ← checked (CheckSequence nSequence);
        if negb ok then Fail SCRIPT_ERR_UNSATISFIED_LOCKTIME else Ret tt).

(** [OP_IF] and [OP_NOTIF]: the rest of the stack and the branch that is taken *)
Definition op_if (flags : Z) (sigversion : SigVersion) (fExec : bool) (opcode : Z) (stack : vstack)
    : outcome (vstack * bool) :=
  if fExec then
    if (length stack <? 1)%nat then Fail SCRIPT_ERR_UNBALANCED_CONDITIONAL
    else
      vch ← stacktop stack 1;
      if bool_decide (sigversion = SIGVERSION_WITNESS_V0) && has flags SCRIPT_VERIFY_MINIMALIF &&
         ((vsize vch >? 1) || ((vsize vch =? 1) && negb (bool_decide (head vch = Some 1))))
      then Fail SCRIPT_ERR_MINIMALIF
      else
        let fValue := CastToBool vch in
        stack ← popstack stack;
        Ret (stack, if opcode =? OP_NOTIF then negb fValue else fValue)
  else Ret (stack, false).

(** The instructions that only move elements of the stack, [OP_VERIFY], [OP_SIZE] and the
    comparisons; [None] is another opcode. *)
Definition op_stack (opcode : Z) (stack : vstack) : option (outcome vstack) :=
  if opcode =? OP_VERIFY then Some (at_least 1 stack (
    top ← stacktop stack 1;
    if CastToBool top then popstack stack else Fail SCRIPT_ERR_VERIFY))
  else if opcode =? OP_2DROP then Some (at_least 2 stack (
    stack ← popstack stack; popstack stack))
  else if opcode =? OP_2DUP then Some (at_least 2 stack (
    vch1 ← stacktop stack 2; vch2 ← stacktop stack 1; Ret (vch2 :: vch1 :: stack)))
  else if opcode =? OP_3DUP then Some (at_least 3 stack (
    vch1 ← stacktop stack 3; vch2 ← stacktop stack 2; vch3 ← stacktop stack 1; Ret (vch3 :: vch2 :: vch1 :: stack)))
  else if opcode =? OP_2OVER then Some (at_least 4 stack (
    vch1 ← stacktop stack 4; vch2 ← stacktop stack 3; Ret (vch2 :: vch1 :: stack)))
  else if opcode =? OP_2ROT then Some (at_least 6 stack (
    vch1 ← stacktop stack 6; vch2 ← stacktop stack 5; stack ← erase_top stack 6 4; Ret (vch2 :: vch1 :: stack)))
  else if opcode =? OP_2SWAP then Some (at_least 4 stack (
    stack ← swap_top stack 4 2; swap_top stack 3 1))
  else if opcode =? OP_IFDUP then Some (at_least 1 stack (
    vch ← stacktop stack 1; Ret (if CastToBool vch then vch :: stack else stack)))
  else if opcode =? OP_DEPTH then Some (push_num (vsize stack) stack)
  else if opcode =? OP_DROP then Some (at_least 1 stack (popstack stack))
  else if opcode =? OP_DUP then Some (at_least 1 stack (
    vch ← stacktop stack 1; Ret (vch :: stack)))
  else if opcode =? OP_NIP then Some (at_least 2 stack (erase_top stack 2 1))
  else if opcode =? OP_OVER then Some (at_least 2 stack (
    vch ← stacktop stack 2; Ret (vch :: stack)))
  else if opcode =? OP_ROT then Some (at_least 3 stack (
    stack ← swap_top stack 3 2; swap_top stack 2 1))
  else if opcode =? OP_SWAP then Some (at_least 2 stack (swap_top stack 2 1))
  else if opcode =? OP_TUCK then Some (at_least 2 stack (
    vch ← stacktop stack 1; insert_top stack 2 vch))
  else if opcode =? OP_SIZE then Some (at_least 1 stack (
    vch ← stacktop stack 1; push_num (vsize vch) stack))
  else if (opcode =? OP_EQUAL) || (opcode =? OP_EQUALVERIFY) then Some (at_least 2 stack (
    vch1 ← stacktop stack 2;
    vch2 ← stacktop stack 1;
    let fEqual := bool_decide (vch1 = vch2) in
    stack ← popstack stack;
    stack ← popstack stack;
    let stack := vch_of_bool fEqual :: stack in
    if opcode =? OP_EQUALVERIFY
    then if fEqual then popstack stack else Fail SCRIPT_ERR_EQUALVERIFY
    else Ret stack))
  else None.

(** [OP_PICK] and [OP_ROLL] *)
Definition op_pick_roll (fRequireMinimal : bool) (opcode : Z) (stack : vstack) : outcome vstack :=
  at_least 2 stack (
    top ← stacktop stack 1;
    m ← num top fRequireMinimal nDefaultMaxNumSize;
    let n := getint m in
    stack ← popstack stack;
    if (n <? 0) || (n >=? vsize stack) then bad_stack
    else
      vch ← stacktop stack (n + 1);
      stack ← (if opcode =? OP_ROLL then erase_top stack (S (Z.to_nat n)) (Z.to_nat n) else Ret stack);
      Ret (vch :: stack)).

(** [OP_1ADD] to [OP_0NOTEQUAL] *)
Definition op_unary (fRequireMinimal : bool) (opcode : Z) (stack : vstack) : outcome vstack :=
  at_least 1 stack (
      top ← stacktop stack 1;
      bn ← num top fRequireMinimal nDefaultMaxNumSize;
      bn ← checked (if opcode =? OP_1ADD then sn_add_assign bn 1
                    else if opcode =? OP_1SUB then sn_sub_assign bn 1
                    else if opcode =? OP_NEGATE then sn_neg bn
                    else if opcode =? OP_ABS then if bn <? 0 then sn_neg bn else Some bn
                    else if opcode =? OP_NOT then Some (bn_of_bool (bn =? 0))
                    else if opcode =? OP_0NOTEQUAL then Some (bn_of_bool (negb (bn =? 0)))
                    else None);
      stack ← popstack stack;
      push_num bn stack).

(** [OP_ADD] to [OP_MAX] *)
Definition op_binary (fRequireMinimal : bool) (opcode : Z) (stack : vstack) : outcome vstack :=
  at_least 2 stack (
      top1 ← stacktop stack 2;
      bn1 ← num top1 fRequireMinimal nDefaultMaxNumSize;
      top2 ← stacktop stack 1;
      bn2 ← num top2 fRequireMinimal nDefaultMaxNumSize;
      bn ← checked (if opcode =? OP_ADD then sn_add bn1 bn2
                    else if opcode =? OP_SUB then sn_sub bn1 bn2
                    else if opcode =? OP_BOOLAND then Some (bn_of_bool (negb (bn1 =? 0) && negb (bn2 =? 0)))
                    else if opcode =? OP_BOOLOR then Some (bn_of_bool (negb (bn1 =? 0) || negb (bn2 =? 0)))
                    else if opcode =? OP_NUMEQUAL then Some (bn_of_bool (bn1 =? bn2))
                    else if opcode =? OP_NUMEQUALVERIFY then Some (bn_of_bool (bn1 =? bn2))
                    else if opcode =? OP_NUMNOTEQUAL then Some (bn_of_bool (negb (bn1 =? bn2)))
                    else if opcode =? OP_LESSTHAN then Some (bn_of_bool (bn1 <? bn2))
                    else if opcode =? OP_GREATERTHAN then Some (bn_of_bool (bn1 >? bn2))
                    else if opcode =? OP_LESSTHANOREQUAL then Some (bn_of_bool (bn1 <=? bn2))
                    else if opcode =? OP_GREATERTHANOREQUAL then Some (bn_of_bool (bn1 >=? bn2))
                    else if opcode =? OP_MIN then Some (if bn1 <? bn2 then bn1 else bn2)
                    else if opcode =? OP_MAX then Some (if bn1 >? bn2 then bn1 else bn2)
                    else None);
      stack ← popstack stack;
      stack ← popstack stack;
      stack ← push_num bn stack;
      if opcode =? OP_NUMEQUALVERIFY then
        top ← stacktop stack 1;
        if CastToBool top then popstack stack else Fail SCRIPT_ERR_NUMEQUALVERIFY
      else Ret stack).

Definition op_within (fRequireMinimal : bool) (stack : vstack) : outcome vstack :=
  at_least 3 stack (
    top1 ← stacktop stack 3;
    bn1 ← num top1 fRequireMinimal nDefaultMaxNumSize;
    top2 ← stacktop stack 2;
    bn2 ← num top2 fRequireMinimal nDefaultMaxNumSize;
    top3 ← stacktop stack 1;
    bn3 ← num top3 fRequireMinimal nDefaultMaxNumSize;
    stack ← popstack stack;
    stack ← popstack stack;
    stack ← popstack stack;
    Ret (vch_of_bool ((bn2 <=? bn1) && (bn1 <? bn3)) :: stack)).

(** [OP_RIPEMD160] to [OP_HASH256] *)
Definition op_hash (opcode : Z) (stack : vstack) : outcome vstack :=
  at_least 1 stack (
      vch ← stacktop stack 1;
      rest ← popstack stack;
      Ret ((if opcode =? OP_RIPEMD160 then hash_ripemd160 vch
            else if opcode =? OP_SHA1 then hash_sha1 vch
            else if opcode =? OP_SHA256 then hash_sha256 vch
            else if opcode =? OP_HASH160 then hash_hash160 vch
            else hash_hash256 vch) :: rest)).

(** [scriptCode.FindAndDelete(CScript(vchSig))], in scripts without a witness *)
Definition drop_signature (sigversion : SigVersion) (scriptCode : CScript) (vchSig : valtype)
    : outcome CScript :=
  match sigversion with
  | SIGVERSION_BASE => '(code, _) ← checked (FindAndDelete scriptCode (push_data [] vchSig)); Ret code
  | SIGVERSION_WITNESS_V0 => Ret scriptCode
  end.

(** [OP_CHECKSIG] and [OP_CHECKSIGVERIFY] *)
Definition op_checksig (flags : Z) (sigversion : SigVersion) (opcode : Z) (pbegincodehash : CScript)
    (stack : vstack) : outcome vstack :=
  at_least 2 stack (
      vchSig ← stacktop stack 2;
      vchPubKey ← stacktop stack 1;
      scriptCode ← drop_signature sigversion pbegincodehash vchSig;
      _ ← CheckSignatureEncoding vchSig flags;
      _ ← CheckPubKeyEncoding vchPubKey flags sigversion;
      fSuccess ← checked (CheckSig vchSig vchPubKey scriptCode sigversion);
      if negb fSuccess && has flags SCRIPT_VERIFY_NULLFAIL && negb (length vchSig =? 0)%nat
      then Fail SCRIPT_ERR_SIG_NULLFAIL
      else
        stack ← popstack stack;
        stack ← popstack stack;
        let stack := vch_of_bool fSuccess :: stack in
        if opcode =? OP_CHECKSIGVERIFY
        then if fSuccess : bool then popstack stack else Fail SCRIPT_ERR_CHECKSIGVERIFY
        else Ret stack).

(** *** [OP_CHECKMULTISIG] *)

(** Dropping the signatures [isig], [isig + 1], ... from the script *)
Fixpoint drop_signatures (n : nat) (sigversion : SigVersion) (stack : vstack) (isig : Z)
    (scriptCode : CScript) : outcome CScript :=
  match n with
  | O => Ret scriptCode
  | S n =>
      vchSig ← stacktop stack isig;
      scriptCode ← drop_signature sigversion scriptCode vchSig;
      drop_signatures n sigversion stack (isig + 1) scriptCode
  end.

(** The loop that looks for a key for each signature *)
Fixpoint multisig_loop (fuel : nat) (flags : Z) (sigversion : SigVersion) (scriptCode : CScript)
    (stack : vstack) (isig ikey nSigsCount nKeysCount : Z) : outcome bool :=
  if nSigsCount >? 0 then
    match fuel with
    | O => Crash
    | S fuel =>
        vchSig ← stacktop stack isig;
        vchPubKey ← stacktop stack ikey;
        _ ← CheckSignatureEncoding vchSig flags;
        _ ← CheckPubKeyEncoding vchPubKey flags sigversion;
        fOk ← checked (CheckSig vchSig vchPubKey scriptCode sigversion);
        let isig := if fOk : bool then isig + 1 else isig in
        let nSigsCount := if fOk then nSigsCount - 1 else nSigsCount in
        let ikey := ikey + 1 in
        let nKeysCount := nKeysCount - 1 in
        if nSigsCount >? nKeysCount then Ret false
        else multisig_loop fuel flags sigversion scriptCode stack isig ikey nSigsCount nKeysCount
    end
  else Ret true.

(** [while (i-- > 1)] with [n] for [i - 1] *)
Fixpoint multisig_cleanup (n : nat) (flags : Z) (fSuccess : bool) (ikey2 : Z) (stack : vstack)
    : outcome vstack :=
  match n with
  | O => Ret stack
  | S n =>
      nullfail ← (if negb fSuccess && has flags SCRIPT_VERIFY_NULLFAIL && (ikey2 =? 0)
                  then top ← stacktop stack 1; Ret (negb (length top =? 0)%nat) else Ret false);
      if nullfail : bool then Fail SCRIPT_ERR_SIG_NULLFAIL
      else
        let ikey2 := if ikey2 >? 0 then ikey2 - 1 else ikey2 in
        stack ← popstack stack;
        multisig_cleanup n flags fSuccess ikey2 stack
  end.

Definition op_checkmultisig (flags : Z) (sigversion : SigVersion) (fRequireMinimal : bool) (opcode : Z)
    (pbegincodehash : CScript) (stack : vstack) (nOpCount : Z) : outcome (vstack * Z) :=
  if vsize stack <? 1 then bad_stack
  else
    top ← stacktop stack 1;
    m ← num top fRequireMinimal nDefaultMaxNumSize;
    let nKeysCount := getint m in
    if (nKeysCount <? 0) || (nKeysCount >? MAX_PUBKEYS_PER_MULTISIG) then Fail SCRIPT_ERR_PUBKEY_COUNT
    else
      let nOpCount := nOpCount + nKeysCount in
      if nOpCount >? MAX_OPS_PER_SCRIPT then Fail SCRIPT_ERR_OP_COUNT
      else
        let ikey := 2 in
        let ikey2 := nKeysCount + 2 in
        let i := 2 + nKeysCount in
        if vsize stack <? i then bad_stack
        else
          top ← stacktop stack i;
          m ← num top fRequireMinimal nDefaultMaxNumSize;
          let nSigsCount := getint m in
          if (nSigsCount <? 0) || (nSigsCount >? nKeysCount) then Fail SCRIPT_ERR_SIG_COUNT
          else
            let isig := i + 1 in
            let i := i + 1 + nSigsCount in
            if vsize stack <? i then bad_stack
            else
              scriptCode ← drop_signatures (Z.to_nat nSigsCount) sigversion stack isig pbegincodehash;
              fSuccess ← multisig_loop (Z.to_nat nKeysCount) flags sigversion scriptCode stack isig ikey
                           nSigsCount nKeysCount;
              stack ← multisig_cleanup (Z.to_nat (i - 1)) flags fSuccess ikey2 stack;
              at_least 1 stack (
                dummy ← stacktop stack 1;
                if has flags SCRIPT_VERIFY_NULLDUMMY && negb (length dummy =? 0)%nat
                then Fail SCRIPT_ERR_SIG_NULLDUMMY
                else
                  stack ← popstack stack;
                  let stack := vch_of_bool fSuccess :: stack in
                  if opcode =? OP_CHECKMULTISIGVERIFY
                  then if fSuccess : bool then stack ← popstack stack; Ret (stack, nOpCount)
                       else Fail SCRIPT_ERR_CHECKMULTISIGVERIFY
                  else Ret (stack, nOpCount)).

(** ** [EvalScript] *)

Record evalstate := EvalState {
  stack : vstack; altstack : vstack;
  vfExec : list bool;  (* the innermost branch first *)
  pbegincodehash : CScript; nOpCount : Z }.

Definition set_stack (st : evalstate) (s : vstack) : evalstate :=
  EvalState s (altstack st) (vfExec st) (pbegincodehash st) (nOpCount st).
Definition set_vfExec (st : evalstate) (v : list bool) : evalstate :=
  EvalState (stack st) (altstack st) v (pbegincodehash st) (nOpCount st).

Definition disabled (opcode : Z) : bool :=
  existsb (Z.eqb opcode)
    [OP_CAT; OP_SUBSTR; OP_LEFT; OP_RIGHT; OP_INVERT; OP_AND; OP_OR; OP_XOR; OP_2MUL; OP_2DIV; OP_MUL;
     OP_DIV; OP_MOD; OP_LSHIFT; OP_RSHIFT].

Definition is_one_of (opcode : Z) (l : list Z) : bool := existsb (Z.eqb opcode) l.

(** The [switch]; [pc] is the iterator behind the instruction. *)
Definition exec_opcode (flags : Z) (sigversion : SigVersion) (fExec : bool) (opcode : Z) (pc : CScript)
    (st : evalstate) : outcome evalstate :=
  let fRequireMinimal := has flags SCRIPT_VERIFY_MINIMALDATA in
  let on_stack (r : outcome vstack) : outcome evalstate := s ← r; Ret (set_stack st s) in
  if (opcode =? OP_1NEGATE) || ((OP_1 <=? opcode) && (opcode <=? OP_16)) then
    on_stack (push_num (opcode - (OP_1 - 1)) (stack st))
  else if opcode =? OP_NOP then Ret st
  else if opcode =? OP_CHECKLOCKTIMEVERIFY then
    _ ← op_checklocktimeverify flags fRequireMinimal (stack st); Ret st
  else if opcode =? OP_CHECKSEQUENCEVERIFY then
    _ ← op_checksequenceverify flags fRequireMinimal (stack st); Ret st
  else if is_one_of opcode [OP_NOP1; OP_NOP4; OP_NOP5; OP_NOP6; OP_NOP7; OP_NOP8; OP_NOP9; OP_NOP10] then
    if has flags SCRIPT_VERIFY_DISCOURAGE_UPGRADABLE_NOPS
    then Fail SCRIPT_ERR_DISCOURAGE_UPGRADABLE_NOPS else Ret st
  else if (opcode =? OP_IF) || (opcode =? OP_NOTIF) then
    '(s, fValue) ← op_if flags sigversion fExec opcode (stack st);
    Ret (set_vfExec (set_stack st s) (fValue :: vfExec st))
  else if opcode =? OP_ELSE then
    match vfExec st with
    | [] => Fail SCRIPT_ERR_UNBALANCED_CONDITIONAL
    | f :: v => Ret (set_vfExec st (negb f :: v)) end
  else if opcode =? OP_ENDIF then
    match vfExec st with
    | [] => Fail SCRIPT_ERR_UNBALANCED_CONDITIONAL
    | _ :: v => Ret (set_vfExec st v) end
  else if opcode =? OP_RETURN then Fail SCRIPT_ERR_OP_RETURN
  else if opcode =? OP_TOALTSTACK then
    at_least 1 (stack st) (
      top ← stacktop (stack st) 1;
      rest ← popstack (stack st);
      Ret (EvalState rest (top :: altstack st) (vfExec st) (pbegincodehash st) (nOpCount st)))
  else if opcode =? OP_FROMALTSTACK then
    if (length (altstack st) <? 1)%nat then Fail SCRIPT_ERR_INVALID_ALTSTACK_OPERATION
    else
      top ← stacktop (altstack st) 1;
      rest ← popstack (altstack st);
      Ret (EvalState (top :: stack st) rest (vfExec st) (pbegincodehash st) (nOpCount st))
  else
    match op_stack opcode (stack st) with
    | Some r => on_stack r
    | None =>
        if (opcode =? OP_PICK) || (opcode =? OP_ROLL) then
          on_stack (op_pick_roll fRequireMinimal opcode (stack st))
        else if is_one_of opcode [OP_1ADD; OP_1SUB; OP_NEGATE; OP_ABS; OP_NOT; OP_0NOTEQUAL] then
          on_stack (op_unary fRequireMinimal opcode (stack st))
        else if is_one_of opcode
          [OP_ADD; OP_SUB; OP_BOOLAND; OP_BOOLOR; OP_NUMEQUAL; OP_NUMEQUALVERIFY; OP_NUMNOTEQUAL;
           OP_LESSTHAN; OP_GREATERTHAN; OP_LESSTHANOREQUAL; OP_GREATERTHANOREQUAL; OP_MIN; OP_MAX] then
          on_stack (op_binary fRequireMinimal opcode (stack st))
        else if opcode =? OP_WITHIN then on_stack (op_within fRequireMinimal (stack st))
        else if is_one_of opcode [OP_RIPEMD160; OP_SHA1; OP_SHA256; OP_HASH160; OP_HASH256] then
          on_stack (op_hash opcode (stack st))
        else if opcode =? OP_CODESEPARATOR then
          Ret (EvalState (stack st) (altstack st) (vfExec st) pc (nOpCount st))
        else if (opcode =? OP_CHECKSIG) || (opcode =? OP_CHECKSIGVERIFY) then
          on_stack (op_checksig flags sigversion opcode (pbegincodehash st) (stack st))
        else if (opcode =? OP_CHECKMULTISIG) || (opcode =? OP_CHECKMULTISIGVERIFY) then
          '(s, n) ← op_checkmultisig flags sigversion fRequireMinimal opcode (pbegincodehash st) (stack st)
                      (nOpCount st);
          Ret (EvalState s (altstack st) (vfExec st) (pbegincodehash st) n)
        else Fail SCRIPT_ERR_BAD_OPCODE
    end.

(** The body of the loop, after the instruction has been read *)
Definition eval_instr (flags : Z) (sigversion : SigVersion) (opcode : Z) (vchPushValue : valtype)
    (pc : CScript) (st : evalstate) : outcome evalstate :=
  let fExec := forallb id (vfExec st) in
  if vsize vchPushValue >? MAX_SCRIPT_ELEMENT_SIZE then Fail SCRIPT_ERR_PUSH_SIZE
  else
    let n := if opcode >? OP_16 then nOpCount st + 1 else nOpCount st in
    if (opcode >? OP_16) && (n >? MAX_OPS_PER_SCRIPT) then Fail SCRIPT_ERR_OP_COUNT
    else
      let st := EvalState (stack st) (altstack st) (vfExec st) (pbegincodehash st) n in
      if disabled opcode then Fail SCRIPT_ERR_DISABLED_OPCODE
      else
        st ← (if fExec && (0 <=? opcode) && (opcode <=? OP_PUSHDATA4) then
                if has flags SCRIPT_VERIFY_MINIMALDATA && negb (CheckMinimalPush vchPushValue opcode)
                then Fail SCRIPT_ERR_MINIMALDATA
                else Ret (set_stack st (vchPushValue :: stack st))
              else if fExec || ((OP_IF <=? opcode) && (opcode <=? OP_ENDIF))
              then exec_opcode flags sigversion fExec opcode pc st
              else Ret st);
        if vsize (stack st) + vsize (altstack st) >? 1000 then Fail SCRIPT_ERR_STACK_SIZE else Ret st.

Fixpoint eval_loop (fuel : nat) (flags : Z) (sigversion : SigVersion) (pc : CScript) (st : evalstate)
    : outcome evalstate :=
  match pc, fuel with
  | [], _ => Ret st
  | _, O => Crash
  | _, S fuel =>
      match GetOp pc with
      | None => Fail SCRIPT_ERR_BAD_OPCODE
      | Some (opcode, vchPushValue, pc) =>
          st ← eval_instr flags sigversion opcode vchPushValue pc st;
          eval_loop fuel flags sigversion pc st
      end
  end.

Definition EvalScript (stk : vstack) (script : CScript) (flags : Z) (sigversion : SigVersion) : outcome vstack :=
  if vsize script >? MAX_SCRIPT_SIZE then Fail SCRIPT_ERR_SCRIPT_SIZE
  else
    match eval_loop (length script) flags sigversion script (EvalState stk [] [] script 0) with
    | Exn _ => Fail SCRIPT_ERR_UNKNOWN_ERROR
    | Fail e => Fail e
    | Crash => Crash
    | Ret st => match vfExec st with [] => Ret (stack st) | _ => Fail SCRIPT_ERR_UNBALANCED_CONDITIONAL end
    end.

(** ** [VerifyScript] *)

(** The end of [VerifyWitnessProgram]: the script runs on the witness and has to leave one
    element, which is true. *)
Definition run_witness (flags : Z) (stk : vstack) (scriptPubKey : CScript) : outcome unit :=
  if existsb (fun e => vsize e >? MAX_SCRIPT_ELEMENT_SIZE) (rev stk) then Fail SCRIPT_ERR_PUSH_SIZE
  else
    stk ← EvalScript stk scriptPubKey flags SIGVERSION_WITNESS_V0;
    match stk with
    | [top] => if CastToBool top then Ret tt else Fail SCRIPT_ERR_EVAL_FALSE
    | _ => Fail SCRIPT_ERR_EVAL_FALSE
    end.

(** [VerifyWitnessProgram]; the witness is the vector of the code, its last element last. *)
Definition VerifyWitnessProgram (witness : vstack) (witversion : Z) (program : valtype) (flags : Z)
    : outcome unit :=
  if witversion =? 0 then
    if vsize program =? 32 then
      match rev witness with
      | [] => Fail SCRIPT_ERR_WITNESS_PROGRAM_WITNESS_EMPTY
      | scriptPubKey :: stk =>
          if bool_decide (hash_sha256 scriptPubKey = program) then run_witness flags stk scriptPubKey
          else Fail SCRIPT_ERR_WITNESS_PROGRAM_MISMATCH
      end
    else if vsize program =? 20 then
      if negb (vsize witness =? 2) then Fail SCRIPT_ERR_WITNESS_PROGRAM_MISMATCH
      else run_witness flags (rev witness)
             ([OP_DUP; OP_HASH160] ++ push_data [] program ++ [OP_EQUALVERIFY; OP_CHECKSIG])
    else Fail SCRIPT_ERR_WITNESS_PROGRAM_WRONG_LENGTH
  else if has flags SCRIPT_VERIFY_DISCOURAGE_UPGRADABLE_WITNESS_PROGRAM
  then Fail SCRIPT_ERR_DISCOURAGE_UPGRADABLE_WITNESS_PROGRAM
  else Ret tt.

(** [if (stack.empty()) ...; if (CastToBool(stack.back()) == false) ...] *)
Definition eval_true (stk : vstack) : outcome unit :=
  match stk with
  | [] => Fail SCRIPT_ERR_EVAL_FALSE
  | top :: _ => if CastToBool top then Ret tt else Fail SCRIPT_ERR_EVAL_FALSE
  end.

(** [stack.resize(1)], which keeps the bottom of the stack *)
Definition resize1 (stk : vstack) : vstack := match rev stk with [] => [[]] | x :: _ => [x] end.

(** A bare witness program: the stack and whether there was one *)
Definition verify_bare_witness (scriptSig scriptPubKey : CScript) (witness : vstack) (flags : Z) (stk : vstack)
    : outcome (vstack * bool) :=
  if has flags SCRIPT_VERIFY_WITNESS then
    match IsWitnessProgram scriptPubKey with
    | Some (version, program) =>
        if negb (vsize scriptSig =? 0) then Fail SCRIPT_ERR_WITNESS_MALLEATED
        else
          _ ← VerifyWitnessProgram witness version program flags;
          Ret (resize1 stk, true)
    | None => Ret (stk, false)
    end
  else Ret (stk, false).

(** The redeem script of pay-to-script-hash, evaluated on what [scriptSig] left *)
Definition verify_p2sh (scriptSig : CScript) (witness : vstack) (flags : Z) (stackCopy : vstack)
    (hadWitness : bool) : outcome (vstack * bool) :=
  pushOnly ← checked (IsPushOnly scriptSig);
  if negb pushOnly then Fail SCRIPT_ERR_SIG_PUSHONLY
  else
    match stackCopy with
    | [] => Crash
    | pubKey2 :: stk =>
        stk ← EvalScript stk pubKey2 flags SIGVERSION_BASE;
        _ ← eval_true stk;
        if has flags SCRIPT_VERIFY_WITNESS then
          match IsWitnessProgram pubKey2 with
          | Some (version, program) =>
              if negb (bool_decide (scriptSig = push_data [] pubKey2)) then Fail SCRIPT_ERR_WITNESS_MALLEATED_P2SH
              else
                _ ← VerifyWitnessProgram witness version program flags;
                Ret (resize1 stk, true)
          | None => Ret (stk, hadWitness)
          end
        else Ret (stk, hadWitness)
    end.

Definition VerifyScript (scriptSig scriptPubKey : CScript) (witness : option vstack) (flags : Z) : outcome unit :=
  let witness := default [] witness in
  pushOnly ← (if has flags SCRIPT_VERIFY_SIGPUSHONLY then checked (IsPushOnly scriptSig) else Ret true);
  if negb pushOnly then Fail SCRIPT_ERR_SIG_PUSHONLY
  else
    stackCopy ← EvalScript [] scriptSig flags SIGVERSION_BASE;
    stk ← EvalScript stackCopy scriptPubKey flags SIGVERSION_BASE;
    _ ← eval_true stk;
    '(stk, hadWitness) ← verify_bare_witness scriptSig scriptPubKey witness flags stk;
    '(stk, hadWitness) ←
      (if has flags SCRIPT_VERIFY_P2SH && IsPayToScriptHash scriptPubKey
       then verify_p2sh scriptSig witness flags stackCopy hadWitness else Ret (stk, hadWitness));
    _ ← (if has flags SCRIPT_VERIFY_CLEANSTACK then
           if negb (has flags SCRIPT_VERIFY_P2SH && has flags SCRIPT_VERIFY_WITNESS) then Crash
           else if negb (vsize stk =? 1) then Fail SCRIPT_ERR_CLEANSTACK else Ret tt
         else Ret tt);
    if has flags SCRIPT_VERIFY_WITNESS then
      if negb (has flags SCRIPT_VERIFY_P2SH) then Crash
      else if negb hadWitness && negb (length witness =? 0)%nat then Fail SCRIPT_ERR_WITNESS_UNEXPECTED
      else Ret tt
    else Ret tt.

(** ** Signature operations of a witness *)

Definition WitnessSigOps (witversion : Z) (witprogram : valtype) (witness : vstack) : option Z :=
  if witversion =? 0 then
    if vsize witprogram =? 20 then Some 1
    else if (vsize witprogram =? 32) then
      match rev witness with [] => Some 0 | subscript :: _ => GetSigOpCount subscript true end
    else Some 0
  else Some 0.

(** The operand of the last instruction; the result of [GetOp] is not looked at. *)
Fixpoint last_operand (fuel : nat) (pc : CScript) (data : valtype) : option valtype :=
  match pc, fuel with
  | [], _ => Some data
  | _, O => None
  | _, S fuel =>
      match GetOp2 pc with
      | (Some (_, data), pc) => last_operand fuel pc data
      | (None, pc) => last_operand fuel pc []
      end
  end.

Definition CountWitnessSigOps (scriptSig scriptPubKey : CScript) (witness : option vstack) (flags : Z)
    : option Z :=
  let witness := default [] witness in
  if negb (has flags SCRIPT_VERIFY_WITNESS) then Some 0
  else if negb (has flags SCRIPT_VERIFY_P2SH) then None
  else
    match IsWitnessProgram scriptPubKey with
    | Some (version, program) => WitnessSigOps version program witness
    | None =>
        pushOnly ← (if IsPayToScriptHash scriptPubKey then IsPushOnly scriptSig else Some false);
        if pushOnly : bool then
          subscript ← last_operand (length scriptSig) scriptSig [];
          match IsWitnessProgram subscript with
          | Some (version, program) => WitnessSigOps version program witness
          | None => Some 0
          end
        else Some 0
    end.
End interpreter.

(** * Safety *)

(** ** How an evaluation may end *)

(** A result with [P], a specific error, or an exception of a script number: no other exception,
    no failed assertion, no access outside the stack. *)
Definition safe {A} (P : A -> Prop) (m : outcome A) : Prop :=
  match m with
  | Ret a => P a
  | Fail e => e <> SCRIPT_ERR_OK /\ e <> SCRIPT_ERR_UNKNOWN_ERROR
  | Exn (ScriptNum _) => True
  | _ => False
  end.

Lemma safe_bind {A B} (P : A -> Prop) (Q : B -> Prop) m (f : A -> outcome B) :
  safe P m -> (forall a, P a -> safe Q (f a)) -> safe Q (m ≫= f).
Proof. destruct m as [a| |[]|]; cbn; auto. Qed.

Lemma safe_impl {A} (P Q : A -> Prop) m : safe P m -> (forall a, P a -> Q a) -> safe Q m.
Proof. destruct m as [a| |[]|]; cbn; auto. Qed.

Lemma safe_bad_stack {A} (P : A -> Prop) : safe P bad_stack.
Proof. done. Qed.

Lemma safe_checked {A} (P : A -> Prop) (o : option A) a : o = Some a -> P a -> safe P (checked o).
Proof. intros -> Ha. exact Ha. Qed.

Lemma safe_total {A} (o : option A) : is_Some o -> safe (fun a => o = Some a) (checked o).
Proof. intros [a ->]. done. Qed.

Create HintDb safe.
#[export] Hint Resolve safe_bad_stack : safe.

(** ** Elements *)

Definition elem_ok (v : valtype) : Prop := Forall byte v /\ vsize v <= MAX_SCRIPT_ELEMENT_SIZE.

Lemma elem_ok_nil : elem_ok [].
Proof. split; [constructor|done]. Qed.

Lemma elem_ok_bool b : elem_ok (vch_of_bool b).
Proof. destruct b; [|apply elem_ok_nil]. split; [|done]. apply Forall_singleton. unfold word. lia. Qed.

Lemma elem_ok_digest n v : n <= 32 -> digest n v -> elem_ok v.
Proof. intros Hn [Hb Hs]. split; [done|]. unfold MAX_SCRIPT_ELEMENT_SIZE. lia. Qed.

#[export] Hint Resolve elem_ok_nil elem_ok_bool : safe.

Lemma num_safe v b k :
  Forall byte v -> 1 <= k <= 8 -> safe (fun n => Z.abs n < 2 ^ (8 * k - 1)) (num v b k).
Proof.
  intros Hv Hk. unfold num. destruct (CScriptNum v b k) as [e|n] eqn:E; [done|]. cbn.
  by apply (CScriptNum_range v b).
Qed.

Lemma getint_small m : Z.abs m < 2 ^ 31 -> getint m = m.
Proof.
  intros H. unfold getint, INT_MAX, INT_MIN. rewrite Z.gtb_ltb.
  destruct (Z.ltb_spec (2 ^ 31 - 1) m); [lia|]. by destruct (Z.ltb_spec m (- 2 ^ 31)); [lia|].
Qed.

Lemma push_num_safe n s : Z.abs n < 2 ^ 63 -> Forall elem_ok s -> safe (Forall elem_ok) (push_num n s).
Proof.
  intros Hn Hs. unfold push_num, getvch. destruct (serialize_total n Hn) as [vch E]. rewrite E.
  cbn. constructor; [|done]. pose proof (serialize_size n vch 8 E ltac:(lia) ltac:(done)).
  apply serialize_inv in E as (Hb&_); [|done]. split; [done|]. unfold MAX_SCRIPT_ELEMENT_SIZE. lia.
Qed.

Lemma stacktop_safe s i : 1 <= i <= vsize s -> Forall elem_ok s -> safe elem_ok (stacktop s i).
Proof.
  intros Hi Hs. unfold stacktop. destruct (Z.leb_spec 1 i); [|lia]. unfold vsize in Hi.
  destruct (lookup_lt_is_Some_2 s (Z.to_nat (i - 1))) as [v E]; [lia|]. rewrite E. cbn.
  by eapply list.Forall_lookup_1.
Qed.

(** ** Encodings *)

Lemma sig_at_total sig i : Forall byte sig -> 0 <= i < vsize sig -> exists b, sig_at sig i = Some b /\ byte b.
Proof.
  intros Hb Hi. unfold sig_at, vsize in *. destruct (Z.ltb_spec i 0); [lia|].
  destruct (lookup_lt_is_Some_2 sig (Z.to_nat i)) as [b E]; [lia|]. exists b. split; [done|].
  by eapply list.Forall_lookup_1.
Qed.

Lemma der_integer_total sig p len :
  Forall byte sig -> 2 <= p -> p + len <= vsize sig -> 0 <= len -> is_Some (der_integer sig p len).
Proof.
  intros Hb Hp Hl Hlen. unfold der_integer.
  destruct (sig_at_total sig (p - 2) Hb) as (t&->&_); [lia|]. cbn [mbind option_bind].
  destruct (negb (t =? 2)); [by eexists|]. destruct (Z.eqb_spec len 0); [by eexists|].
  destruct (sig_at_total sig p Hb) as (b&->&_); [lia|]. cbn [mbind option_bind].
  destruct (negb (b .& 0x80 =? 0)); [by eexists|]. rewrite Z.gtb_ltb.
  destruct (Z.ltb_spec 1 len); cbn [andb]; [|by eexists]. destruct (b =? 0); [|by eexists].
  destruct (sig_at_total sig (p + 1) Hb) as (c&->&_); [lia|]. by eexists.
Qed.

Lemma IsValidSignatureEncoding_total sig : Forall byte sig -> is_Some (IsValidSignatureEncoding sig).
Proof.
  intros Hb. unfold IsValidSignatureEncoding. destruct (Z.ltb_spec (vsize sig) 9); [by eexists|].
  destruct (vsize sig >? 73); [by eexists|].
  destruct (sig_at_total sig 0 Hb) as (b0&->&_); [lia|]. cbn [mbind option_bind].
  destruct (negb (b0 =? 0x30)); [by eexists|].
  destruct (sig_at_total sig 1 Hb) as (b1&->&_); [lia|]. cbn [mbind option_bind].
  destruct (negb (b1 =? vsize sig - 3)); [by eexists|].
  destruct (sig_at_total sig 3 Hb) as (lenR&->&HR); [lia|]. cbn [mbind option_bind]. unfold word in HR.
  rewrite Z.geb_leb. destruct (Z.leb_spec (vsize sig) (5 + lenR)); [by eexists|].
  destruct (sig_at_total sig (5 + lenR) Hb) as (lenS&->&HS); [lia|]. cbn [mbind option_bind]. unfold word in HS.
  destruct (Z.eqb_spec (lenR + lenS + 7) (vsize sig)); [|by eexists]. cbn [negb].
  destruct (der_integer_total sig 4 lenR Hb) as [r ->]; [lia..|]. cbn [mbind option_bind].
  destruct (negb r); [by eexists|]. apply der_integer_total; (done || lia).
Qed.

(** The accesses to a stack that is long enough *)
Lemma stacktop_1 a s : stacktop (a :: s) 1 = Ret a.
Proof. done. Qed.
Lemma stacktop_2 a b s : stacktop (a :: b :: s) 2 = Ret b.
Proof. done. Qed.
Lemma stacktop_3 a b c s : stacktop (a :: b :: c :: s) 3 = Ret c.
Proof. done. Qed.
Lemma stacktop_4 a b c d s : stacktop (a :: b :: c :: d :: s) 4 = Ret d.
Proof. done. Qed.
Lemma stacktop_5 a b c d e s : stacktop (a :: b :: c :: d :: e :: s) 5 = Ret e.
Proof. done. Qed.
Lemma stacktop_6 a b c d e f s : stacktop (a :: b :: c :: d :: e :: f :: s) 6 = Ret f.
Proof. done. Qed.
Lemma swap_top_21 a b s : swap_top (a :: b :: s) 2 1 = Ret (b :: a :: s).
Proof. done. Qed.
Lemma swap_top_31 a b c s : swap_top (a :: b :: c :: s) 3 1 = Ret (c :: b :: a :: s).
Proof. done. Qed.
Lemma swap_top_32 a b c s : swap_top (a :: b :: c :: s) 3 2 = Ret (a :: c :: b :: s).
Proof. done. Qed.
Lemma swap_top_42 a b c d s : swap_top (a :: b :: c :: d :: s) 4 2 = Ret (a :: d :: c :: b :: s).
Proof. done. Qed.

Ltac stack_eval :=
  repeat progress (
    cbn [at_least length Nat.ltb Nat.leb mbind outcome_bind popstack erase_top insert_top andb take drop app];
    rewrite ?stacktop_1, ?stacktop_2, ?stacktop_3, ?stacktop_4, ?stacktop_5, ?stacktop_6,
      ?swap_top_21, ?swap_top_31, ?swap_top_32, ?swap_top_42).

Section safety.
Context `{crypto : ScriptCrypto} `{checker : BaseSignatureChecker}.
Context `{!ScriptCryptoSpec crypto} `{!CheckerSpec checker}.

Lemma IsLowDERSignature_safe sig : Forall byte sig -> safe (fun _ => True) (IsLowDERSignature sig).
Proof.
  intros Hb. eapply safe_bind; [by apply safe_total, IsValidSignatureEncoding_total|].
  intros v _. destruct (negb v); [done|]. by destruct (negb (CheckLowS _)).
Qed.

Lemma CheckSignatureEncoding_safe sig flags :
  Forall byte sig -> safe (fun _ => True) (CheckSignatureEncoding sig flags).
Proof.
  intros Hb. unfold CheckSignatureEncoding. destruct (length sig =? 0)%nat; [done|].
  eapply (safe_bind (fun _ => True)); [|intros _ _; eapply (safe_bind (fun _ => True))].
  - destruct (has _ _); [|done]. eapply safe_bind; [by apply safe_total, IsValidSignatureEncoding_total|].
    intros v _. by destruct (negb v).
  - destruct (has _ _); [|done]. by apply IsLowDERSignature_safe.
  - intros _ _. by destruct (_ && _).
Qed.

Lemma pubkey_total key :
  is_Some (IsCompressedOrUncompressedPubKey key) /\ is_Some (IsCompressedPubKey key).
Proof.
  unfold IsCompressedOrUncompressedPubKey, IsCompressedPubKey. unfold vsize. destruct key as [|b key].
  { split; by eexists. }
  split.
  - destruct (_ <? _); by eexists.
  - destruct (negb _); by eexists.
Qed.

Lemma CheckPubKeyEncoding_safe key flags v : safe (fun _ => True) (CheckPubKeyEncoding key flags v).
Proof.
  unfold CheckPubKeyEncoding. destruct (pubkey_total key) as [H1 H2].
  eapply (safe_bind (fun _ => True)).
  - destruct (has _ _); [|done]. eapply safe_bind; [by apply safe_total|]. intros ok _. by destruct (negb ok).
  - intros _ _. destruct (_ && _); [|done]. eapply safe_bind; [by apply safe_total|].
    intros ok _. by destruct (negb ok).
Qed.

Lemma drop_signature_safe v code sig : safe (fun _ => True) (drop_signature v code sig).
Proof.
  destruct v; [|done]. cbn [drop_signature].
  destruct (FindAndDelete_total code (push_data [] sig)) as (r&n&->&_). done.
Qed.

(** ** Instructions *)

(** Destructs a stack as far as an instruction tests its size, evaluates the accesses, and
    collects what is known of the elements. *)
Ltac stack_cases :=
  repeat match goal with
    | H : Forall elem_ok (_ :: _) |- _ => apply Forall_cons_1 in H as [? H]
    | |- safe _ (at_least _ ?s _) => progress (repeat (destruct s as [|? s]; [exact (safe_bad_stack _)|])); stack_eval
    end.

Lemma op_checklocktimeverify_safe flags b s :
  Forall elem_ok s -> safe (fun _ => True) (op_checklocktimeverify flags b s).
Proof.
  intros Hs. unfold op_checklocktimeverify. destruct (negb _); [by destruct (has _ _)|].
  destruct s as [|top s]; [done|]. stack_eval. apply Forall_cons_1 in Hs as [[Hb _] _].
  eapply safe_bind; [by apply num_safe; [|lia]|]. intros n _. destruct (n <? 0); [done|].
  eapply safe_bind; [apply safe_total, CheckLockTime_total|]. intros ok _. by destruct (negb ok).
Qed.

Lemma op_checksequenceverify_safe flags b s :
  Forall elem_ok s -> safe (fun _ => True) (op_checksequenceverify flags b s).
Proof.
  intros Hs. unfold op_checksequenceverify. destruct (negb _); [by destruct (has _ _)|].
  destruct s as [|top s]; [done|]. stack_eval. apply Forall_cons_1 in Hs as [[Hb _] _].
  eapply safe_bind; [by apply num_safe; [|lia]|]. intros n _. destruct (n <? 0); [done|].
  destruct (negb _); [done|].
  eapply safe_bind; [apply safe_total, CheckSequence_total|]. intros ok _. by destruct (negb ok).
Qed.

Lemma op_if_safe flags v fExec opcode s :
  Forall elem_ok s -> safe (fun r => Forall elem_ok r.1) (op_if flags v fExec opcode s).
Proof.
  intros Hs. unfold op_if. destruct fExec; [|done]. destruct s as [|vch s]; [done|]. stack_eval.
  apply Forall_cons_1 in Hs as [_ Hs]. by destruct (_ && _).
Qed.


Lemma op_stack_safe opcode s r :
  vsize s < 2 ^ 31 -> Forall elem_ok s -> op_stack opcode s = Some r -> safe (Forall elem_ok) r.
Proof.
  intros Hn Hs. unfold op_stack.
  repeat match goal with
    | |- (if ?c then Some _ else _) = Some _ -> _ => destruct c
    end; intros E; simplify_eq; pose proof Hs as Hs'; try (apply push_num_safe; [unfold vsize in *; lia|done]); stack_cases;
    try (by repeat first [apply Forall_cons_2 | assumption | apply elem_ok_bool]).
  - by destruct (CastToBool _).
  - cbn. destruct (CastToBool _); by repeat apply Forall_cons_2.
  - apply push_num_safe; [|by apply Forall_cons_2]. destruct H as [_ H]. unfold MAX_SCRIPT_ELEMENT_SIZE, vsize in *. lia.
  - destruct (opcode =? OP_EQUALVERIFY); [by destruct (bool_decide _)|]. apply Forall_cons_2; [apply elem_ok_bool|done].
Qed.

Lemma op_pick_roll_safe b opcode s :
  Forall elem_ok s -> safe (Forall elem_ok) (op_pick_roll b opcode s).
Proof.
  intros Hs. unfold op_pick_roll. stack_cases. destruct H as [Hb _].
  eapply safe_bind; [by apply num_safe; [|unfold nDefaultMaxNumSize; lia]|].
  intros m Hm. cbn [popstack mbind outcome_bind]. rewrite getint_small by done.
  destruct (Z.ltb_spec m 0); [done|]. rewrite Z.geb_leb. cbn [orb].
  destruct (Z.leb_spec (vsize (l0 :: s)) m); [done|].
  assert (Forall elem_ok (l0 :: s)) as Hs' by by apply Forall_cons_2.
  eapply safe_bind; [by apply stacktop_safe; [lia|]|]. intros v Hv.
  destruct (opcode =? OP_ROLL); [|by apply Forall_cons_2]. unfold erase_top. rewrite (proj2 (Nat.leb_le _ _)) by lia.
  rewrite (proj2 (Nat.leb_le (S _) _)) by (unfold vsize in *; lia). cbn [andb mbind outcome_bind].
  apply Forall_cons_2; [done|]. apply list.Forall_app. split; [by apply Forall_take|by apply Forall_drop].
Qed.

(** The numbers that arise have an [int64_t]: no assertion of [CScriptNum] fails. *)
Lemma sn_add_assign_ok m r : INT64_MIN <= m <= INT64_MAX -> INT64_MIN <= m + r <= INT64_MAX ->
  sn_add_assign m r = Some (m + r).
Proof.
  intros Hm H. unfold sn_add_assign.
  by replace (_ || _) with true by (unfold INT64_MIN, INT64_MAX in *; lia).
Qed.

Lemma sn_sub_assign_ok m r : INT64_MIN <= m <= INT64_MAX -> INT64_MIN <= m - r <= INT64_MAX ->
  sn_sub_assign m r = Some (m - r).
Proof.
  intros Hm H. unfold sn_sub_assign.
  by replace (_ || _) with true by (unfold INT64_MIN, INT64_MAX in *; lia).
Qed.

Lemma sn_neg_ok m : INT64_MIN < m -> sn_neg m = Some (- m).
Proof. intros H. unfold sn_neg. by destruct (Z.eqb_spec m INT64_MIN); [lia|]. Qed.

Lemma sn_add_ok m r : INT64_MIN <= m + r <= INT64_MAX -> sn_add m r = Some (m + r).
Proof. intros H. unfold sn_add, int64_range. by replace (_ && _) with true by lia. Qed.

Lemma sn_sub_ok m r : INT64_MIN <= m - r <= INT64_MAX -> sn_sub m r = Some (m - r).
Proof. intros H. unfold sn_sub, int64_range. by replace (_ && _) with true by lia. Qed.

Lemma bn_of_bool_small b : Z.abs (bn_of_bool b) < 2 ^ 63.
Proof. destruct b; cbn; lia. Qed.

Lemma op_unary_safe b opcode s :
  is_one_of opcode [OP_1ADD; OP_1SUB; OP_NEGATE; OP_ABS; OP_NOT; OP_0NOTEQUAL] = true ->
  Forall elem_ok s -> safe (Forall elem_ok) (op_unary b opcode s).
Proof.
  intros Ho Hs. unfold op_unary. stack_cases. destruct H as [Hb _].
  eapply safe_bind; [by apply num_safe; [|unfold nDefaultMaxNumSize; lia]|]. intros bn Hbn.
  cbv beta in Hbn. change (2 ^ (8 * nDefaultMaxNumSize - 1)) with (2 ^ 31) in Hbn.
  eapply (safe_bind (fun n => Z.abs n < 2 ^ 63)); [|intros n Hn; by apply push_num_safe].
  cbn [is_one_of existsb] in Ho.
  rewrite sn_add_assign_ok, sn_sub_assign_ok, sn_neg_ok by (unfold INT64_MIN, INT64_MAX; lia).
  destruct (opcode =? OP_1ADD); [cbn; lia|]. destruct (opcode =? OP_1SUB); [cbn; lia|].
  destruct (opcode =? OP_NEGATE); [cbn; lia|]. destruct (opcode =? OP_ABS); [destruct (bn <? 0); cbn; lia|].
  destruct (opcode =? OP_NOT); [apply bn_of_bool_small|].
  destruct (opcode =? OP_0NOTEQUAL); [apply bn_of_bool_small|done].
Qed.

Lemma op_binary_safe b opcode s :
  is_one_of opcode
    [OP_ADD; OP_SUB; OP_BOOLAND; OP_BOOLOR; OP_NUMEQUAL; OP_NUMEQUALVERIFY; OP_NUMNOTEQUAL;
     OP_LESSTHAN; OP_GREATERTHAN; OP_LESSTHANOREQUAL; OP_GREATERTHANOREQUAL; OP_MIN; OP_MAX] = true ->
  Forall elem_ok s -> safe (Forall elem_ok) (op_binary b opcode s).
Proof.
  intros Ho Hs. unfold op_binary. stack_cases. destruct H as [Hb2 _], H0 as [Hb1 _].
  eapply safe_bind; [by apply num_safe; [|unfold nDefaultMaxNumSize; lia]|]. intros bn1 H1.
  eapply safe_bind; [by apply num_safe; [|unfold nDefaultMaxNumSize; lia]|]. intros bn2 H2.
  cbv beta in H1, H2. change (2 ^ (8 * nDefaultMaxNumSize - 1)) with (2 ^ 31) in H1, H2.
  eapply (safe_bind (fun n => Z.abs n < 2 ^ 63)).
  - cbn [is_one_of existsb] in Ho. rewrite sn_add_ok, sn_sub_ok by (unfold INT64_MIN, INT64_MAX; lia).
    destruct (opcode =? OP_ADD); [cbn; lia|]. destruct (opcode =? OP_SUB); [cbn; lia|].
    repeat match goal with
      | |- safe _ (checked (if ?c then Some (bn_of_bool _) else _)) => destruct c; [apply bn_of_bool_small|]
      end.
    destruct (opcode =? OP_MIN); [destruct (bn1 <? bn2); cbn; lia|].
    destruct (opcode =? OP_MAX); [destruct (bn1 >? bn2); cbn; lia|done].
  - intros n Hn. unfold push_num, getvch. destruct (serialize_total n Hn) as [vch E].
    pose proof (push_num_safe n s Hn Hs) as Hp. unfold push_num, getvch in Hp. rewrite E in Hp |- *.
    cbn [checked mbind outcome_bind] in Hp |- *. destruct (opcode =? OP_NUMEQUALVERIFY); [|done].
    change (stacktop (vch :: s) 1) with (Ret vch). cbn [mbind outcome_bind]. destruct (CastToBool vch); done.
Qed.

Lemma op_within_safe b s : Forall elem_ok s -> safe (Forall elem_ok) (op_within b s).
Proof.
  intros Hs. unfold op_within. stack_cases. destruct H as [? _], H0 as [? _], H1 as [? _].
  do 3 (eapply safe_bind; [by apply num_safe; [|unfold nDefaultMaxNumSize; lia]|]; intros ? _).
  apply Forall_cons_2; [apply elem_ok_bool|done].
Qed.

Lemma op_hash_safe opcode s : Forall elem_ok s -> safe (Forall elem_ok) (op_hash opcode s).
Proof.
  intros Hs. unfold op_hash. stack_cases. apply Forall_cons_2; [|done].
  destruct (opcode =? OP_RIPEMD160); [eapply elem_ok_digest, ripemd160_digest; lia|].
  destruct (opcode =? OP_SHA1); [eapply elem_ok_digest, sha1_digest; lia|].
  destruct (opcode =? OP_SHA256); [eapply elem_ok_digest, sha256_digest; lia|].
  destruct (opcode =? OP_HASH160); [eapply elem_ok_digest, hash160_digest; lia|].
  eapply elem_ok_digest, hash256_digest; lia.
Qed.

Lemma op_checksig_safe flags v opcode code s :
  Forall elem_ok s -> safe (Forall elem_ok) (op_checksig flags v opcode code s).
Proof.
  intros Hs. unfold op_checksig. stack_cases. destruct H0 as [Hsig _].
  eapply safe_bind; [apply drop_signature_safe|]. intros code' _.
  eapply safe_bind; [by apply CheckSignatureEncoding_safe|]. intros _ _.
  eapply safe_bind; [apply CheckPubKeyEncoding_safe|]. intros _ _.
  eapply safe_bind; [apply safe_total, CheckSig_total|]. intros ok _.
  destruct (_ && _); [done|]. destruct (opcode =? OP_CHECKSIGVERIFY); [by destruct ok|].
  apply Forall_cons_2; [apply elem_ok_bool|done].
Qed.

Lemma drop_signatures_safe n v s isig code :
  Forall elem_ok s -> 1 <= isig -> isig + Z.of_nat n <= vsize s + 1 ->
  safe (fun _ => True) (drop_signatures n v s isig code).
Proof.
  intros Hs. revert isig code. induction n as [|n IH]; intros isig code H1 H2; [done|].
  cbn [drop_signatures]. eapply safe_bind; [by apply stacktop_safe; [lia|]|]. intros sig _.
  eapply safe_bind; [apply drop_signature_safe|]. intros code' _. apply IH; lia.
Qed.

Lemma multisig_loop_safe fuel flags v code s isig ikey nSigs nKeys :
  Forall elem_ok s -> 1 <= isig -> 1 <= ikey -> 0 <= nSigs <= nKeys ->
  isig + nSigs <= vsize s + 1 -> ikey + nKeys <= vsize s + 1 -> nKeys <= Z.of_nat fuel ->
  safe (fun _ => True) (multisig_loop fuel flags v code s isig ikey nSigs nKeys).
Proof.
  intros Hs. revert isig ikey nSigs nKeys.
  induction fuel as [|fuel IH]; intros isig ikey nSigs nKeys H1 H2 H3 H4 H5 H6; cbn [multisig_loop];
    rewrite Z.gtb_ltb; destruct (Z.ltb_spec 0 nSigs); [lia|done| |done].
  eapply safe_bind; [by apply stacktop_safe; [lia|]|]. intros sig [Hsig _].
  eapply safe_bind; [by apply stacktop_safe; [lia|]|]. intros key _.
  eapply safe_bind; [by apply CheckSignatureEncoding_safe|]. intros _ _.
  eapply safe_bind; [apply CheckPubKeyEncoding_safe|]. intros _ _.
  eapply safe_bind; [apply safe_total, CheckSig_total|]. intros ok _. cbv zeta.
  rewrite Z.gtb_ltb. destruct (Z.ltb_spec (nKeys - 1) (if ok then nSigs - 1 else nSigs)); [done|].
  apply IH; destruct ok; lia.
Qed.

Lemma multisig_cleanup_safe n flags ok ikey2 s :
  Forall elem_ok s -> Z.of_nat n <= vsize s -> safe (Forall elem_ok) (multisig_cleanup n flags ok ikey2 s).
Proof.
  revert ikey2 s. induction n as [|n IH]; intros ikey2 s Hs Hn; [done|]. cbn [multisig_cleanup].
  destruct s as [|top s]; [unfold vsize in Hn; cbn in Hn; lia|].
  eapply (safe_bind (fun _ => True)).
  - destruct (_ && _); [|done]. eapply safe_bind; [apply stacktop_safe; [|done]|done].
    rewrite vsize_cons. pose proof (vsize_nonneg s). lia.
  - intros nf _. destruct nf; [done|]. cbn [popstack mbind outcome_bind]. apply IH.
    + by apply Forall_cons_1 in Hs as [_ Hs].
    + rewrite vsize_cons in Hn. lia.
Qed.

Lemma op_checkmultisig_safe flags v b opcode code s n :
  Forall elem_ok s ->
  safe (fun r => Forall elem_ok r.1 /\ r.2 <= MAX_OPS_PER_SCRIPT) (op_checkmultisig flags v b opcode code s n).
Proof.
  intros Hs. unfold op_checkmultisig. destruct (Z.ltb_spec (vsize s) 1); [done|].
  eapply safe_bind; [by apply stacktop_safe; [lia|]|]. intros top [Htop _].
  eapply safe_bind; [by apply num_safe; [|unfold nDefaultMaxNumSize; lia]|]. intros k Hk.
  rewrite getint_small by done. cbv zeta. clear Hk.
  destruct (Z.ltb_spec k 0); [done|]. rewrite !Z.gtb_ltb. cbn [orb].
  destruct (Z.ltb_spec MAX_PUBKEYS_PER_MULTISIG k); [done|].
  destruct (Z.ltb_spec MAX_OPS_PER_SCRIPT (n + k)) as [|Hops]; [done|].
  destruct (Z.ltb_spec (vsize s) (2 + k)); [done|].
  eapply safe_bind; [by apply stacktop_safe; [lia|]|]. intros top2 [Htop2 _].
  eapply safe_bind; [by apply num_safe; [|unfold nDefaultMaxNumSize; lia]|]. intros m Hm.
  rewrite getint_small by done. clear Hm. destruct (Z.ltb_spec m 0); [done|]. rewrite Z.gtb_ltb. cbn [orb].
  destruct (Z.ltb_spec k m); [done|]. destruct (Z.ltb_spec (vsize s) (2 + k + 1 + m)); [done|].
  eapply safe_bind; [apply drop_signatures_safe; (done || lia)|]. intros code' _.
  eapply safe_bind; [apply multisig_loop_safe; (done || lia)|]. intros ok _.
  eapply safe_bind; [apply multisig_cleanup_safe; (done || lia)|]. intros s' Hs'.
  destruct s' as [|dummy s']; [done|]. stack_eval. apply Forall_cons_1 in Hs' as [_ Hs'].
  destruct (_ && _); [done|]. destruct (opcode =? OP_CHECKMULTISIGVERIFY); [by destruct ok|].
  split; [|done]. apply Forall_cons_2; [apply elem_ok_bool|done].
Qed.

(** ** States *)

Record st_ok (st : evalstate) : Prop := {
  st_stack : Forall elem_ok (stack st);
  st_altstack : Forall elem_ok (altstack st);
  st_ops : nOpCount st <= MAX_OPS_PER_SCRIPT;
}.

Lemma on_stack_safe st r :
  st_ok st -> safe (Forall elem_ok) r ->
  safe st_ok (s ← r; Ret (set_stack st s)).
Proof. intros [? ? ?] Hr. eapply safe_bind; [exact Hr|]. intros s Hs. by split. Qed.

Lemma exec_opcode_safe flags v fExec opcode pc st :
  st_ok st -> vsize (stack st) < 2 ^ 31 -> safe st_ok (exec_opcode flags v fExec opcode pc st).
Proof.
  intros Hst Hn. pose proof Hst as [Hs Ha Ho]. unfold exec_opcode.
  destruct ((opcode =? OP_1NEGATE) || _) eqn:E1.
  { apply on_stack_safe; [done|]. apply push_num_safe; [|done].
    apply orb_prop in E1 as [E1|E1]; unfold OP_1NEGATE, OP_1, OP_16 in *; lia. }
  clear E1.
  destruct (opcode =? OP_NOP); [done|].
  destruct (opcode =? OP_CHECKLOCKTIMEVERIFY).
  { eapply safe_bind; [by apply op_checklocktimeverify_safe|]. done. }
  destruct (opcode =? OP_CHECKSEQUENCEVERIFY).
  { eapply safe_bind; [by apply op_checksequenceverify_safe|]. done. }
  destruct (is_one_of opcode [OP_NOP1; _; _; _; _; _; _; _]); [by destruct (has _ _)|].
  destruct ((opcode =? OP_IF) || _).
  { eapply safe_bind; [by apply op_if_safe|]. intros [s f] Hs'. by split. }
  destruct (opcode =? OP_ELSE); [destruct (vfExec st); [done|by split]|].
  destruct (opcode =? OP_ENDIF); [destruct (vfExec st); [done|by split]|].
  destruct (opcode =? OP_RETURN); [done|].
  destruct (opcode =? OP_TOALTSTACK).
  { destruct (stack st) as [|top s]; [done|]. apply Forall_cons_1 in Hs as [? ?]. split; [done| |done].
    by apply Forall_cons_2. }
  destruct (opcode =? OP_FROMALTSTACK).
  { destruct (altstack st) as [|top s]; [done|]. apply Forall_cons_1 in Ha as [? ?]. split; [|done|done].
    by apply Forall_cons_2. }
  destruct (op_stack opcode (stack st)) as [r|] eqn:Er.
  { apply on_stack_safe; [done|]. by eapply op_stack_safe. }
  destruct (_ || _); [by apply on_stack_safe, op_pick_roll_safe|].
  destruct (is_one_of opcode [OP_1ADD; _; _; _; _; _]) eqn:E2; [by apply on_stack_safe, op_unary_safe|].
  destruct (is_one_of opcode (OP_ADD :: _)) eqn:E3; [by apply on_stack_safe, op_binary_safe|].
  clear E2 E3. destruct (opcode =? OP_WITHIN); [by apply on_stack_safe, op_within_safe|].
  destruct (is_one_of opcode _); [by apply on_stack_safe, op_hash_safe|].
  destruct (opcode =? OP_CODESEPARATOR); [by split|].
  destruct (_ || _); [by apply on_stack_safe, op_checksig_safe|].
  destruct (_ || _); [|done].
  eapply safe_bind; [by apply op_checkmultisig_safe|]. intros [s n] [Hs' Hn']. by split.
Qed.

Definition stack_size (st : evalstate) : Z := vsize (stack st) + vsize (altstack st).

Lemma eval_instr_safe flags v opcode vch pc st :
  st_ok st -> Forall byte vch -> stack_size st < 2 ^ 31 ->
  safe (fun st' => st_ok st' /\ stack_size st' <= 1000) (eval_instr flags v opcode vch pc st).
Proof.
  intros [Hs Ha Ho] Hv Hn. unfold eval_instr, stack_size in *. rewrite !Z.gtb_ltb.
  pose proof (vsize_nonneg (altstack st)).
  destruct (Z.ltb_spec MAX_SCRIPT_ELEMENT_SIZE (vsize vch)) as [|Hle]; [done|]. cbv zeta.
  destruct ((OP_16 <? opcode) && _) eqn:Eops; [done|]. destruct (disabled opcode); [done|].
  set (st1 := EvalState _ _ _ _ _).
  assert (st_ok st1) as Hst1. { split; [done|done|]. cbn [nOpCount st1]. destruct (OP_16 <? opcode); cbn [andb] in Eops; lia. }
  clear Eops. eapply (safe_bind st_ok).
  - destruct (_ && _ && _).
    + destruct (_ && _); [done|]. destruct Hst1. split; [|done|done]. by apply Forall_cons_2.
    + destruct (_ || _); [|done]. apply exec_opcode_safe; [done|]. cbn [stack st1]. lia.
  - intros st' Hst'. rewrite Z.gtb_ltb. by destruct (Z.ltb_spec 1000 (vsize (stack st') + vsize (altstack st'))).
Qed.

Lemma eval_loop_safe fuel flags v pc st :
  st_ok st -> Forall byte pc -> stack_size st < 2 ^ 31 -> (length pc <= fuel)%nat ->
  safe (fun st' => st_ok st' /\ stack_size st' <= Z.max 1000 (stack_size st)) (eval_loop fuel flags v pc st).
Proof.
  revert pc st. induction fuel as [|fuel IH]; intros pc st Hst Hpc Hn Hf.
  { destruct pc; [split; [done|lia]|]. cbn in Hf. lia. }
  destruct pc as [|c pc]; [split; [done|lia]|]. cbn [eval_loop].
  destruct (GetOp (c :: pc)) as [[[op vch] pc']|] eqn:E; [|done].
  pose proof (GetOp_shorter _ _ _ _ E). destruct (GetOp_bytes _ _ _ _ Hpc E) as (_&Hv&Hpc').
  eapply safe_bind; [by apply eval_instr_safe|]. intros st' [Hst' Hn'].
  eapply safe_impl; [apply IH; (done || cbn in *; lia)|]. intros st'' [? ?]. split; [done|lia].
Qed.

Lemma EvalScript_safe stk script flags v :
  Forall elem_ok stk -> vsize stk < 2 ^ 31 -> Forall byte script ->
  match EvalScript stk script flags v with
  | Ret stk' => Forall elem_ok stk' /\ vsize stk' <= Z.max 1000 (vsize stk)
  | Fail e => e <> SCRIPT_ERR_OK /\
      (e = SCRIPT_ERR_UNKNOWN_ERROR ->
       exists x, eval_loop (length script) flags v script (EvalState stk [] [] script 0) = Exn (ScriptNum x))
  | _ => False
  end.
Proof.
  intros Hs Hn Hb. unfold EvalScript. destruct (vsize script >? MAX_SCRIPT_SIZE); [done|].
  assert (stack_size (EvalState stk [] [] script 0) = vsize stk) as Hsz.
  { unfold stack_size, vsize. cbn [stack altstack length]. lia. }
  pose proof (eval_loop_safe (length script) flags v script (EvalState stk [] [] script 0)) as H.
  rewrite Hsz in H. specialize (H ltac:(by split) Hb Hn ltac:(done)).
  destruct (eval_loop _ _ _ _ _) as [st|e|[x| |]|]; try done.
  - destruct H as [[Hst _ _] Hle]. destruct (vfExec st); [|done]. split; [done|]. unfold stack_size in Hle.
    pose proof (vsize_nonneg (altstack st)). lia.
  - destruct H. done.
  - split; [done|]. intros _. by exists x.
Qed.

(** [VerifyScript] needs the flags that its assertions state. *)
Definition flags_ok (flags : Z) : Prop :=
  (has flags SCRIPT_VERIFY_CLEANSTACK = true ->
   has flags SCRIPT_VERIFY_P2SH = true /\ has flags SCRIPT_VERIFY_WITNESS = true) /\
  (has flags SCRIPT_VERIFY_WITNESS = true -> has flags SCRIPT_VERIFY_P2SH = true).

(** An end of [VerifyScript]: success or an error. *)
Definition ends {A} (P : A -> Prop) (m : outcome A) : Prop :=
  match m with Ret a => P a | Fail e => e <> SCRIPT_ERR_OK | _ => False end.

Lemma ends_bind {A B} (P : A -> Prop) (Q : B -> Prop) m (f : A -> outcome B) :
  ends P m -> (forall a, P a -> ends Q (f a)) -> ends Q (m ≫= f).
Proof. destruct m; cbn; auto. Qed.

Definition stack_ok (s : vstack) : Prop := Forall elem_ok s /\ vsize s < 2 ^ 31.

Lemma stack_ok_nil : stack_ok [].
Proof. split; [constructor|]. change (vsize (@nil valtype)) with 0. lia. Qed.

Lemma EvalScript_ends stk script flags v :
  stack_ok stk -> Forall byte script -> ends stack_ok (EvalScript stk script flags v).
Proof.
  intros [Hs Hn] Hb. pose proof (EvalScript_safe stk script flags v Hs Hn Hb) as H.
  destruct (EvalScript _ _ _ _); [|by destruct H|done|done]. destruct H. split; [done|lia].
Qed.

Lemma eval_true_ends s : ends (fun _ => True) (eval_true s).
Proof. destruct s as [|top s]; [done|]. cbn. by destruct (CastToBool top). Qed.

Lemma IsWitnessProgram_bytes s version program :
  Forall byte s -> IsWitnessProgram s = Some (version, program) -> Forall byte program /\ vsize program <= 40.
Proof.
  intros Hb. unfold IsWitnessProgram. destruct (_ || _) eqn:E; [done|].
  destruct s as [|a [|n p]]; [done..|]. destruct (_ && _); [done|]. destruct (_ =? _); [|done].
  destruct (DecodeOP_N a); [|done]. intros [= _ <-]. rewrite !vsize_cons in E.
  apply Forall_cons_1 in Hb as [_ Hb]. apply Forall_cons_1 in Hb as [_ Hb]. split; [done|lia].
Qed.

Lemma push_data_bytes b : Forall byte b -> vsize b <= 40 -> Forall byte (push_data [] b).
Proof.
  intros Hb Hs. pose proof (vsize_nonneg b). unfold push_data. rewrite app_nil_l.
  destruct (Z.ltb_spec (vsize b) OP_PUSHDATA1); [|unfold OP_PUSHDATA1 in *; lia].
  apply Forall_app. split; [|done]. apply Forall_singleton. unfold word. lia.
Qed.

Lemma run_witness_ends flags stk s :
  Forall (Forall byte) stk -> vsize stk < 2 ^ 31 -> Forall byte s ->
  ends (fun _ => True) (run_witness flags stk s).
Proof.
  intros Hstk Hsn Hs. unfold run_witness. destruct (existsb _ _) eqn:E; [done|].
  eapply (ends_bind stack_ok).
  - apply EvalScript_ends; [|done]. split; [|done]. apply list.Forall_forall. intros e He. split.
    + by eapply list.Forall_forall in He; [|exact Hstk].
    + destruct (Z.leb_spec (vsize e) MAX_SCRIPT_ELEMENT_SIZE) as [|Hlt]; [done|]. exfalso.
      assert (existsb (fun e => vsize e >? MAX_SCRIPT_ELEMENT_SIZE) (rev stk) = true); [|congruence].
      apply existsb_exists. exists e. split; [|rewrite Z.gtb_ltb; by apply Z.ltb_lt].
      apply in_rev. rewrite rev_involutive. by apply list_elem_of_In.
  - intros s' _. destruct s' as [|top [|]]; [done| |done]. by destruct (CastToBool top).
Qed.

Lemma VerifyWitnessProgram_ends witness version program flags :
  Forall (Forall byte) witness -> vsize witness < 2 ^ 31 -> Forall byte program -> vsize program <= 40 ->
  ends (fun _ => True) (VerifyWitnessProgram witness version program flags).
Proof.
  intros Hw Hn Hp Hps. unfold VerifyWitnessProgram.
  assert (Forall (Forall byte) (rev witness)) as Hr by by apply Forall_rev.
  assert (vsize (rev witness) = vsize witness) as Hrn by (unfold vsize; by rewrite length_rev).
  destruct (version =? 0); [|by destruct (has _ _)].
  destruct (vsize program =? 32).
  - destruct (rev witness) as [|s stk]; [done|]. apply Forall_cons_1 in Hr as [? ?]. rewrite vsize_cons in Hrn.
    destruct (bool_decide _); [|done]. apply run_witness_ends; (done || lia).
  - destruct (vsize program =? 20); [|done]. destruct (negb _); [done|]. apply run_witness_ends; [done|lia|].
    repeat (apply Forall_cons_2; [unfold word, OP_DUP, OP_HASH160; lia|]). apply Forall_app. split; [by apply push_data_bytes|].
    repeat (apply Forall_cons_2; [unfold word, OP_EQUALVERIFY, OP_CHECKSIG; lia|]). constructor.
Qed.

(** On an empty stack pay-to-script-hash fails at its first instruction. *)
Lemma p2sh_empty_stack s flags v : IsPayToScriptHash s = true -> EvalScript [] s flags v = bad_stack.
Proof.
  unfold IsPayToScriptHash, at_is. rewrite !andb_true_iff, !bool_decide_eq_true. intros [[[Hn H0] _] _].
  destruct s as [|c s]; [done|]. injection H0 as ->. unfold EvalScript. rewrite Z.gtb_ltb.
  destruct (Z.ltb_spec MAX_SCRIPT_SIZE (vsize (OP_HASH160 :: s))); [unfold MAX_SCRIPT_SIZE in *; lia|]. reflexivity.
Qed.

Lemma verify_p2sh_ends scriptSig witness flags stk hadWitness :
  stk <> [] -> stack_ok stk -> Forall (Forall byte) witness -> vsize witness < 2 ^ 31 ->
  ends (fun _ => True) (verify_p2sh scriptSig witness flags stk hadWitness).
Proof.
  intros Hne [Hs Hn] Hw Hwn. unfold verify_p2sh. destruct (IsPushOnly_total scriptSig) as [po ->].
  cbn [checked mbind outcome_bind]. destruct (negb po); [done|]. destruct stk as [|pk stk]; [done|].
  apply Forall_cons_1 in Hs as [[Hpk _] Hs]. rewrite vsize_cons in Hn.
  eapply ends_bind; [apply EvalScript_ends; [split; [done|lia]|done]|]. intros stk' _.
  eapply ends_bind; [apply eval_true_ends|]. intros _ _. destruct (has _ _); [|done].
  destruct (IsWitnessProgram pk) as [[ver prog]|] eqn:E; [|done].
  destruct (IsWitnessProgram_bytes _ _ _ Hpk E). destruct (negb _); [done|].
  eapply ends_bind; [by apply VerifyWitnessProgram_ends|]. done.
Qed.

Lemma VerifyScript_ends scriptSig scriptPubKey witness flags :
  flags_ok flags -> Forall byte scriptSig -> Forall byte scriptPubKey ->
  Forall (Forall byte) (default [] witness) -> vsize (default [] witness) < 2 ^ 31 ->
  ends (fun _ => True) (VerifyScript scriptSig scriptPubKey witness flags).
Proof.
  intros [Hcs Hw] Hsig Hpk Hwb Hwn. unfold VerifyScript. set (wit := default [] witness) in *. cbv zeta.
  eapply (ends_bind (fun _ => True)).
  { destruct (has flags SCRIPT_VERIFY_SIGPUSHONLY); [|done]. by destruct (IsPushOnly_total scriptSig) as [po ->]. }
  intros po _. destruct (negb po); [done|].
  eapply ends_bind; [by apply EvalScript_ends; [apply stack_ok_nil|]|]. intros copy Hcopy.
  destruct (EvalScript copy scriptPubKey flags SIGVERSION_BASE) as [stk|e| |] eqn:E;
    pose proof (EvalScript_ends copy scriptPubKey flags SIGVERSION_BASE Hcopy Hpk) as Hend;
    rewrite E in Hend; try done.
  cbn [mbind outcome_bind]. eapply ends_bind; [apply eval_true_ends|]. intros _ _.
  eapply (ends_bind (fun _ => True)).
  { unfold verify_bare_witness. clear Hcs Hw. destruct (has flags SCRIPT_VERIFY_WITNESS); [|done].
    destruct (IsWitnessProgram scriptPubKey) as [[ver prog]|] eqn:Ew; [|done].
    destruct (IsWitnessProgram_bytes _ _ _ Hpk Ew). destruct (negb _); [done|].
    eapply ends_bind; [by apply VerifyWitnessProgram_ends|]. done. }
  intros [stk2 had] _. eapply (ends_bind (fun _ => True)).
  { destruct (_ && _) eqn:Ep; [|done]. apply verify_p2sh_ends; try done. intros ->.
    apply andb_prop in Ep as [_ Ep]. by rewrite (p2sh_empty_stack _ flags SIGVERSION_BASE Ep) in E. }
  intros [stk3 had2] _. eapply (ends_bind (fun _ => True)).
  { destruct (has flags SCRIPT_VERIFY_CLEANSTACK); [|done]. destruct Hcs as [-> ->]; [done|]. cbn.
    by destruct (negb _). }
  intros _ _. destruct (has flags SCRIPT_VERIFY_WITNESS); [|done]. rewrite Hw by done. cbn [negb].
  by destruct (_ && _).
Qed.
End safety.

(** ** Concrete hash functions and a checker, for the witnesses *)

Definition toy_crypto : ScriptCrypto := {|
  CheckLowS _ := true;
  hash_ripemd160 v := replicate 20 (foldr Z.add 0 v mod 256);
  hash_sha1 v := replicate 20 (foldr Z.add 1 v mod 256);
  hash_sha256 v := replicate 32 (foldr Z.add 0 v mod 256);
  hash_hash160 v := replicate 20 (foldr Z.add 0 v mod 256);
  hash_hash256 v := replicate 32 (foldr Z.add 1 v mod 256) |}.

(** A signature is valid when it is the key. *)
Definition toy_checker : BaseSignatureChecker := {|
  CheckSig sig key _ _ := Some (bool_decide (sig = key));
  CheckLockTime n := Some (n <=? 100);
  CheckSequence n := Some (n <=? 100) |}.

Lemma replicate_digest n z : digest (Z.of_nat n) (replicate n (z mod 256)).
Proof.
  split; [|unfold vsize; by rewrite length_replicate]. apply Forall_replicate. unfold word.
  apply Z.mod_pos_bound. lia.
Qed.

#[export] Instance toy_crypto_spec : ScriptCryptoSpec toy_crypto.
Proof. split; intros v; first [apply (replicate_digest 20)|apply (replicate_digest 32)]. Qed.

#[export] Instance toy_checker_spec : CheckerSpec toy_checker.
Proof. by split; intros; eexists. Qed.

(** ** How evaluations end *)

(** C13: [EvalScript] returns for every script and every stack of elements of at most 520 bytes,
    with any signature checker that answers: it never reads outside the stack, a vector or a
    script, never overflows and never fails an assertion. On success the elements are still
    of at most 520 bytes, and the stack holds no more than 1000 of them (or as many as there
    were); on failure an error is set, and [UNKNOWN_ERROR] only when a number on the stack
    does not parse. [VerifyScript] ends in success or with an error, for every pair of
    scripts and every witness, under flags that its assertions allow. *)
Theorem script_evaluation_ends `{crypto : ScriptCrypto} `{checker : BaseSignatureChecker}
    (Hcrypto : ScriptCryptoSpec crypto) (Hchecker : CheckerSpec checker)
    (stk : vstack) (script scriptSig : CScript) (witness : vstack) (flags : Z) (v : SigVersion) :
  Forall elem_ok stk -> vsize stk < 2 ^ 31 -> Forall byte script -> Forall byte scriptSig ->
  Forall (Forall byte) witness -> vsize witness < 2 ^ 31 -> flags_ok flags ->
  match EvalScript stk script flags v with
  | Ret stk' => Forall elem_ok stk' /\ vsize stk' <= Z.max 1000 (vsize stk)
  | Fail e => e <> SCRIPT_ERR_OK /\
      (e = SCRIPT_ERR_UNKNOWN_ERROR ->
       exists x, eval_loop (length script) flags v script (EvalState stk [] [] script 0) = Exn (ScriptNum x))
  | _ => False
  end /\
  (VerifyScript scriptSig script (Some witness) flags = Ret tt \/
   exists e, e <> SCRIPT_ERR_OK /\ VerifyScript scriptSig script (Some witness) flags = Fail e).
Proof.
  intros Hs Hn Hb Hsig Hw Hwn Hf. split; [by apply EvalScript_safe|].
  pose proof (VerifyScript_ends scriptSig script (Some witness) flags Hf Hsig Hb Hw Hwn) as H.
  destruct (VerifyScript _ _ _ _) as [[]|e| |]; [by left| |done|done]. right. by exists e.
Qed.

Lemma script_evaluation_ends_witness :
  match @EvalScript toy_crypto toy_checker [[7]] [OP_DUP; OP_1ADD] 0 SIGVERSION_BASE with
  | Ret stk' => Forall elem_ok stk' /\ vsize stk' <= 1000
  | _ => False
  end.
Proof.
  pose proof (@script_evaluation_ends toy_crypto toy_checker _ _ [[7]] [OP_DUP; OP_1ADD] [] [] 0 SIGVERSION_BASE
    ltac:(apply Forall_singleton; split; [by apply Forall_singleton|by vm_compute]) ltac:(by vm_compute)
    ltac:(repeat (apply Forall_cons_2; [by vm_compute|]); constructor) ltac:(constructor) ltac:(constructor)
    ltac:(by vm_compute) ltac:(by split)) as [H _]. vm_compute in H |- *. exact H.
Defined.

(** ** Unspendable outputs *)

Lemma EvalScript_return `{crypto : ScriptCrypto} `{checker : BaseSignatureChecker} stk rest flags v :
  exists e, EvalScript stk (OP_RETURN :: rest) flags v = Fail e.
Proof.
  unfold EvalScript. destruct (_ >? _); [by eexists|]. cbn [length eval_loop].
  rewrite GetOp_opcode by done. by eexists.
Qed.

(** What [IsUnspendable] lets the node drop from the set of coins can never be spent:
    verification fails for every [scriptSig], every witness and all flags. *)
Theorem unspendable_sound `{crypto : ScriptCrypto} `{checker : BaseSignatureChecker}
    (scriptSig scriptPubKey : CScript) (witness : option vstack) (flags : Z) :
  IsUnspendable scriptPubKey = true -> VerifyScript scriptSig scriptPubKey witness flags <> Ret tt.
Proof.
  intros Hu. assert (forall stk, exists e, EvalScript stk scriptPubKey flags SIGVERSION_BASE = Fail e) as Hev.
  { intros stk. unfold IsUnspendable in Hu. apply orb_true_iff in Hu as [Hu|Hu].
    - apply andb_true_iff in Hu as [_ Hu%bool_decide_eq_true]. destruct scriptPubKey as [|c rest]; [done|].
      injection Hu as ->. apply EvalScript_return.
    - unfold EvalScript. rewrite Hu. by eexists. }
  unfold VerifyScript. cbv zeta. destruct (if has flags SCRIPT_VERIFY_SIGPUSHONLY then _ else _) as [po| | |]; try done.
  cbn [mbind outcome_bind]. destruct (negb po); [done|].
  destruct (EvalScript [] scriptSig flags SIGVERSION_BASE) as [copy| | |]; try done. cbn [mbind outcome_bind].
  by destruct (Hev copy) as [e ->].
Qed.

Lemma unspendable_sound_witness :
  @VerifyScript toy_crypto toy_checker [OP_1] [OP_RETURN; OP_1] None 0 <> Ret tt.
Proof. apply (@unspendable_sound toy_crypto toy_checker). by vm_compute. Defined.
