(* ===== verification/InterpreterProps.v ===== *)
(** What the script interpreter guarantees: that verification flags
    only restrict what is accepted, which signatures [OP_CHECKMULTISIG] accepts, and what it
    takes to spend pay-to-pubkey-hash and pay-to-script-hash outputs. *)

From Stdlib Require Import ZifyBool.
From S2P Require Import Prelude SphTypes Script Interpreter.

#[local] Open Scope c_scope.

(** ** Flags only restrict *)

(** Every flag of [flags] is set in [flags']. *)
Definition stricter (flags flags' : Z) : Prop := flags .& flags' = flags.

(** [OP_CHECKLOCKTIMEVERIFY] and [OP_CHECKSEQUENCEVERIFY] are discouraged as [NOP]s while
    their flags are not set, so that setting those flags lifts a restriction. *)
Definition same_nops (flags flags' : Z) : Prop :=
  has flags SCRIPT_VERIFY_DISCOURAGE_UPGRADABLE_NOPS = true ->
  has flags SCRIPT_VERIFY_CHECKLOCKTIMEVERIFY = has flags' SCRIPT_VERIFY_CHECKLOCKTIMEVERIFY /\
  has flags SCRIPT_VERIFY_CHECKSEQUENCEVERIFY = has flags' SCRIPT_VERIFY_CHECKSEQUENCEVERIFY.

Lemma has_mono flags flags' m : stricter flags flags' -> has flags m = true -> has flags' m = true.
Proof.
  unfold stricter, has. intros H Hm. destruct (Z.eqb_spec (flags' .& m) 0) as [E|]; [|done].
  rewrite <- H, <- Z.land_assoc, E, Z.land_0_r in Hm. done.
Qed.

(** [m] returns whatever [m'] returns. *)
Definition refines {A} (m' m : outcome A) : Prop := forall a, m' = Ret a -> m = Ret a.

Lemma refines_refl {A} (m : outcome A) : refines m m.
Proof. by intros a. Qed.

Lemma refines_fail {A} e (m : outcome A) : refines (Fail e) m.
Proof. by intros a. Qed.

Lemma refines_bind {A B} (m' m : outcome A) (f' f : A -> outcome B) :
  refines m' m -> (forall a, refines (f' a) (f a)) -> refines (m' ≫= f') (m ≫= f).
Proof.
  intros Hm Hf b. destruct m' as [a| | |]; try done. rewrite (Hm a) by done. cbn. apply Hf.
Qed.

(** A test that fails more often *)
Lemma refines_test {A} (c' c : bool) e (m' m : outcome A) :
  (c = true -> c' = true) -> refines m' m ->
  refines (if c' then Fail e else m') (if c then Fail e else m).
Proof. intros Hc Hm a. destruct c, c'; try done. by specialize (Hc eq_refl). apply Hm. Qed.

(** A check that runs more often *)
Lemma refines_check {A} (c' c : bool) (k' k : outcome unit) (m' m : unit -> outcome A) :
  (c = true -> c' = true) -> refines k' k -> refines (m' tt) (m tt) ->
  refines ((if c' then k' else Ret tt) ≫= m') ((if c then k else Ret tt) ≫= m).
Proof.
  intros Hc Hk Hm a. destruct c, c'; try (by specialize (Hc eq_refl)).
  - destruct k' as [[]| | |]; try done. rewrite (Hk tt) by done. apply Hm.
  - destruct k' as [[]| | |]; try done. apply Hm.
  - apply Hm.
Qed.

Create HintDb refines.
#[export] Hint Resolve refines_refl refines_fail has_mono : refines.

Lemma num_refines v b' b k : (b = true -> b' = true) -> refines (num v b' k) (num v b k).
Proof.
  intros Hb n. unfold num, CScriptNum. destruct (_ >? _); [done|].
  destruct b', b; cbn [andb]; try done; try (by specialize (Hb eq_refl)).
  destruct (negb _); done.
Qed.

Section flags.
Context `{crypto : ScriptCrypto} `{checker : BaseSignatureChecker}.
Context (flags flags' : Z) (Hstrict : stricter flags flags') (Hnops : same_nops flags flags').

Lemma mono m : has flags m = true -> has flags' m = true.
Proof. apply has_mono, Hstrict. Qed.

Lemma CheckSignatureEncoding_refines sig :
  refines (CheckSignatureEncoding sig flags') (CheckSignatureEncoding sig flags).
Proof.
  unfold CheckSignatureEncoding. destruct (length sig =? 0)%nat; [apply refines_refl|].
  apply refines_check; [apply mono|apply refines_refl|]. apply refines_check; [apply mono|apply refines_refl|].
  apply refines_test; [|apply refines_refl]. rewrite !andb_true_iff. intros [H1 H2]. split; [by apply mono|done].
Qed.

Lemma CheckPubKeyEncoding_refines key v :
  refines (CheckPubKeyEncoding key flags' v) (CheckPubKeyEncoding key flags v).
Proof.
  unfold CheckPubKeyEncoding. apply refines_check; [apply mono|apply refines_refl|].
  pose proof (mono SCRIPT_VERIFY_WITNESS_PUBKEYTYPE) as H. intros a.
  destruct (has flags SCRIPT_VERIFY_WITNESS_PUBKEYTYPE), (has flags' SCRIPT_VERIFY_WITNESS_PUBKEYTYPE); cbn [andb];
    try done; try (by specialize (H eq_refl)).
  destruct (bool_decide _); [|done]. destruct (checked _) as [ok| | |]; try done. cbn.
  destruct a. by destruct (negb ok).
Qed.

Lemma op_checklocktimeverify_refines s :
  refines (op_checklocktimeverify flags' (has flags' SCRIPT_VERIFY_MINIMALDATA) s)
          (op_checklocktimeverify flags (has flags SCRIPT_VERIFY_MINIMALDATA) s).
Proof.
  unfold op_checklocktimeverify. pose proof (mono SCRIPT_VERIFY_CHECKLOCKTIMEVERIFY) as H.
  destruct (has flags SCRIPT_VERIFY_CHECKLOCKTIMEVERIFY) eqn:E; cbn [negb].
  - rewrite H by done. cbn [negb]. destruct s as [|top s]; [apply refines_refl|]. stack_eval.
    apply refines_bind; [apply num_refines, mono|]. intros n. apply refines_refl.
  - intros []. destruct (has flags SCRIPT_VERIFY_DISCOURAGE_UPGRADABLE_NOPS) eqn:En; [|done].
    destruct (Hnops En) as [<- _]. rewrite E. cbn [negb]. by rewrite (mono _ En).
Qed.

Lemma op_checksequenceverify_refines s :
  refines (op_checksequenceverify flags' (has flags' SCRIPT_VERIFY_MINIMALDATA) s)
          (op_checksequenceverify flags (has flags SCRIPT_VERIFY_MINIMALDATA) s).
Proof.
  unfold op_checksequenceverify. pose proof (mono SCRIPT_VERIFY_CHECKSEQUENCEVERIFY) as H.
  destruct (has flags SCRIPT_VERIFY_CHECKSEQUENCEVERIFY) eqn:E; cbn [negb].
  - rewrite H by done. cbn [negb]. destruct s as [|top s]; [apply refines_refl|]. stack_eval.
    apply refines_bind; [apply num_refines, mono|]. intros n. apply refines_refl.
  - intros []. destruct (has flags SCRIPT_VERIFY_DISCOURAGE_UPGRADABLE_NOPS) eqn:En; [|done].
    destruct (Hnops En) as [_ <-]. rewrite E. cbn [negb]. by rewrite (mono _ En).
Qed.

Lemma op_if_refines v fExec opcode s : refines (op_if flags' v fExec opcode s) (op_if flags v fExec opcode s).
Proof.
  unfold op_if. destruct fExec; [|apply refines_refl]. destruct s as [|vch s]; [apply refines_refl|]. stack_eval.
  apply refines_test; [|apply refines_refl]. rewrite !andb_true_iff. intros [[H1 H2] H3].
  split; [split; [done|by apply mono]|done].
Qed.

#[local] Abbreviation minimal' := (has flags' SCRIPT_VERIFY_MINIMALDATA).
#[local] Abbreviation minimal := (has flags SCRIPT_VERIFY_MINIMALDATA).

Lemma op_pick_roll_refines opcode s : refines (op_pick_roll minimal' opcode s) (op_pick_roll minimal opcode s).
Proof.
  destruct s as [|top [|x s]]; [apply refines_refl..|]. unfold op_pick_roll. stack_eval.
  apply refines_bind; [apply num_refines, mono|]. intros. apply refines_refl.
Qed.

Lemma op_unary_refines opcode s : refines (op_unary minimal' opcode s) (op_unary minimal opcode s).
Proof.
  destruct s as [|top s]; [apply refines_refl|]. unfold op_unary. stack_eval.
  apply refines_bind; [apply num_refines, mono|]. intros. apply refines_refl.
Qed.

Lemma op_binary_refines opcode s : refines (op_binary minimal' opcode s) (op_binary minimal opcode s).
Proof.
  destruct s as [|top [|x s]]; [apply refines_refl..|]. unfold op_binary. stack_eval.
  do 2 (apply refines_bind; [apply num_refines, mono|]; intros; stack_eval). apply refines_refl.
Qed.

Lemma op_within_refines s : refines (op_within minimal' s) (op_within minimal s).
Proof.
  destruct s as [|top [|x [|y s]]]; [apply refines_refl..|]. unfold op_within. stack_eval.
  do 3 (apply refines_bind; [apply num_refines, mono|]; intros; stack_eval). apply refines_refl.
Qed.

Lemma op_checksig_refines v opcode code s :
  refines (op_checksig flags' v opcode code s) (op_checksig flags v opcode code s).
Proof.
  destruct s as [|key [|sig s]]; [apply refines_refl..|]. unfold op_checksig. stack_eval.
  apply refines_bind; [apply refines_refl|]. intros code'.
  apply refines_bind; [apply CheckSignatureEncoding_refines|]. intros _.
  apply refines_bind; [apply CheckPubKeyEncoding_refines|]. intros _.
  apply refines_bind; [apply refines_refl|]. intros ok.
  apply refines_test; [|apply refines_refl]. rewrite !andb_true_iff. intros [[H1 H2] H3].
  split; [split; [done|by apply mono]|done].
Qed.

Lemma multisig_loop_refines fuel v code s isig ikey nSigs nKeys :
  refines (multisig_loop fuel flags' v code s isig ikey nSigs nKeys)
          (multisig_loop fuel flags v code s isig ikey nSigs nKeys).
Proof.
  revert isig ikey nSigs nKeys. induction fuel as [|fuel IH]; intros; cbn [multisig_loop]; [apply refines_refl|].
  destruct (_ >? _); [|apply refines_refl].
  do 2 (apply refines_bind; [apply refines_refl|]; intros ?).
  apply refines_bind; [apply CheckSignatureEncoding_refines|]. intros _.
  apply refines_bind; [apply CheckPubKeyEncoding_refines|]. intros _.
  apply refines_bind; [apply refines_refl|]. intros ok. cbv zeta.
  destruct (_ >? _); [apply refines_refl|apply IH].
Qed.

Lemma multisig_cleanup_refines n ok ikey2 s :
  refines (multisig_cleanup n flags' ok ikey2 s) (multisig_cleanup n flags ok ikey2 s).
Proof.
  revert ikey2 s. induction n as [|n IH]; intros ikey2 s; cbn [multisig_cleanup]; [apply refines_refl|].
  pose proof (mono SCRIPT_VERIFY_NULLFAIL) as H. intros r.
  destruct (has flags SCRIPT_VERIFY_NULLFAIL), (has flags' SCRIPT_VERIFY_NULLFAIL);
    try (by specialize (H eq_refl)); rewrite ?andb_true_r, ?andb_false_r; cbn [andb].
  - apply refines_bind; [apply refines_refl|]. intros nf. destruct nf; [apply refines_refl|].
    apply refines_bind; [apply refines_refl|]. intros. apply IH.
  - destruct (negb ok && (ikey2 =? 0)).
    + destruct (stacktop s 1) as [top| | |]; try done. cbn [mbind outcome_bind].
      destruct (negb _); [done|]. apply refines_bind; [apply refines_refl|]. intros. apply IH.
    + apply refines_bind; [apply refines_refl|]. intros nf. destruct nf; [apply refines_refl|].
      apply refines_bind; [apply refines_refl|]. intros. apply IH.
  - apply refines_bind; [apply refines_refl|]. intros nf. destruct nf; [apply refines_refl|].
    apply refines_bind; [apply refines_refl|]. intros. apply IH.
Qed.

Lemma op_checkmultisig_refines v opcode code s n :
  refines (op_checkmultisig flags' v minimal' opcode code s n) (op_checkmultisig flags v minimal opcode code s n).
Proof.
  unfold op_checkmultisig. destruct (_ <? _); [apply refines_refl|].
  apply refines_bind; [apply refines_refl|]. intros top. apply refines_bind; [apply num_refines, mono|]. intros m.
  cbv zeta. destruct (_ || _); [apply refines_refl|]. destruct (_ >? _); [apply refines_refl|].
  destruct (_ <? _); [apply refines_refl|].
  apply refines_bind; [apply refines_refl|]. intros top2. apply refines_bind; [apply num_refines, mono|]. intros m2.
  destruct (_ || _); [apply refines_refl|]. destruct (_ <? _); [apply refines_refl|].
  apply refines_bind; [apply refines_refl|]. intros code'.
  apply refines_bind; [apply multisig_loop_refines|]. intros ok.
  apply refines_bind; [apply multisig_cleanup_refines|]. intros s'. destruct s' as [|dummy s']; [apply refines_refl|]. stack_eval.
  apply refines_test; [|apply refines_refl]. rewrite !andb_true_iff. intros [? ?]. split; [by apply mono|done].
Qed.

Lemma on_stack_refines st (r' r : outcome vstack) :
  refines r' r -> refines (s ← r'; Ret (set_stack st s)) (s ← r; Ret (set_stack st s)).
Proof. intros H. apply refines_bind; [exact H|]. intros. apply refines_refl. Qed.

Lemma exec_opcode_refines v fExec opcode pc st :
  refines (exec_opcode flags' v fExec opcode pc st) (exec_opcode flags v fExec opcode pc st).
Proof.
  unfold exec_opcode. cbv zeta. destruct ((opcode =? OP_1NEGATE) || _); [apply refines_refl|].
  destruct (opcode =? OP_NOP); [apply refines_refl|].
  destruct (opcode =? OP_CHECKLOCKTIMEVERIFY).
  { apply refines_bind; [apply op_checklocktimeverify_refines|]. intros. apply refines_refl. }
  destruct (opcode =? OP_CHECKSEQUENCEVERIFY).
  { apply refines_bind; [apply op_checksequenceverify_refines|]. intros. apply refines_refl. }
  destruct (is_one_of opcode [OP_NOP1; _; _; _; _; _; _; _]); [apply refines_test; [apply mono|apply refines_refl]|].
  destruct ((opcode =? OP_IF) || _).
  { apply refines_bind; [apply op_if_refines|]. intros. apply refines_refl. }
  destruct (opcode =? OP_ELSE); [apply refines_refl|]. destruct (opcode =? OP_ENDIF); [apply refines_refl|].
  destruct (opcode =? OP_RETURN); [apply refines_refl|]. destruct (opcode =? OP_TOALTSTACK); [apply refines_refl|].
  destruct (opcode =? OP_FROMALTSTACK); [apply refines_refl|].
  destruct (op_stack opcode (stack st)); [apply refines_refl|].
  destruct ((opcode =? OP_PICK) || _); [apply on_stack_refines, op_pick_roll_refines|].
  destruct (is_one_of opcode [OP_1ADD; _; _; _; _; _]); [apply on_stack_refines, op_unary_refines|].
  destruct (is_one_of opcode (OP_ADD :: _)); [apply on_stack_refines, op_binary_refines|].
  destruct (opcode =? OP_WITHIN); [apply on_stack_refines, op_within_refines|].
  destruct (is_one_of opcode _); [apply refines_refl|].
  destruct (opcode =? OP_CODESEPARATOR); [apply refines_refl|].
  destruct ((opcode =? OP_CHECKSIG) || _); [apply on_stack_refines, op_checksig_refines|].
  destruct ((opcode =? OP_CHECKMULTISIG) || _); [|apply refines_refl].
  apply refines_bind; [apply op_checkmultisig_refines|]. intros. apply refines_refl.
Qed.

Lemma eval_instr_refines v opcode vch pc st :
  refines (eval_instr flags' v opcode vch pc st) (eval_instr flags v opcode vch pc st).
Proof.
  unfold eval_instr. destruct (_ >? _); [apply refines_refl|]. cbv zeta. destruct (_ && _); [apply refines_refl|].
  destruct (disabled opcode); [apply refines_refl|]. apply refines_bind; [|intros; apply refines_refl].
  destruct (_ && _).
  - apply refines_test; [|apply refines_refl]. rewrite !andb_true_iff. intros [? ?]. split; [by apply mono|done].
  - destruct (_ || _); [apply exec_opcode_refines|apply refines_refl].
Qed.

Lemma eval_loop_refines fuel v pc st :
  refines (eval_loop fuel flags' v pc st) (eval_loop fuel flags v pc st).
Proof.
  revert pc st. induction fuel as [|fuel IH]; intros pc st; (destruct pc; [apply refines_refl|]);
    cbn [eval_loop]; [apply refines_refl|].
  destruct (GetOp _) as [[[op vch] pc']|]; [|apply refines_refl].
  apply refines_bind; [apply eval_instr_refines|]. intros. apply IH.
Qed.

Lemma EvalScript_refines stk script v :
  refines (EvalScript stk script flags' v) (EvalScript stk script flags v).
Proof.
  intros r. unfold EvalScript. destruct (_ >? _); [done|].
  pose proof (eval_loop_refines (length script) v script (EvalState stk [] [] script 0)) as H.
  destruct (eval_loop _ flags' _ _ _) as [st| | |]; try done. by rewrite (H st).
Qed.

Lemma run_witness_refines stk s : refines (run_witness flags' stk s) (run_witness flags stk s).
Proof.
  unfold run_witness. destruct (existsb _ _); [apply refines_refl|].
  apply refines_bind; [apply EvalScript_refines|]. intros. apply refines_refl.
Qed.

Lemma VerifyWitnessProgram_refines w version program :
  refines (VerifyWitnessProgram w version program flags') (VerifyWitnessProgram w version program flags).
Proof.
  unfold VerifyWitnessProgram. destruct (version =? 0); [|apply refines_test; [apply mono|apply refines_refl]].
  destruct (_ =? _).
  - destruct (rev w); [apply refines_refl|]. destruct (bool_decide _); [apply run_witness_refines|apply refines_refl].
  - destruct (_ =? _); [|apply refines_refl]. destruct (negb _); [apply refines_refl|apply run_witness_refines].
Qed.

(** With the witness flag on both sides the results are the same; without it on the lax side
    nothing is required of the witness. *)
Definition weaker (r' r : outcome (vstack * bool)) : Prop :=
  forall p, r' = Ret p -> exists q, r = Ret q /\ (has flags SCRIPT_VERIFY_WITNESS = true -> q = p).

Lemma verify_bare_witness_weaker sig pk w stk :
  weaker (verify_bare_witness sig pk w flags' stk) (verify_bare_witness sig pk w flags stk).
Proof.
  intros p. unfold verify_bare_witness. pose proof (mono SCRIPT_VERIFY_WITNESS) as H.
  destruct (has flags SCRIPT_VERIFY_WITNESS).
  - rewrite H by done. destruct (IsWitnessProgram pk) as [[ver prog]|]; [|by eauto].
    destruct (negb _); [done|]. pose proof (VerifyWitnessProgram_refines w ver prog) as Hr.
    destruct (VerifyWitnessProgram w ver prog flags') as [[]| | |]; try done. rewrite (Hr tt) by done. by eauto.
  - intros _. by eexists.
Qed.

Lemma verify_p2sh_weaker sig w copy had :
  weaker (verify_p2sh sig w flags' copy had) (verify_p2sh sig w flags copy had).
Proof.
  intros p. unfold verify_p2sh. destruct (checked (IsPushOnly sig)) as [po| | |]; try done.
  cbn [mbind outcome_bind]. destruct (negb po); [done|]. destruct copy as [|pk stk]; [done|].
  pose proof (EvalScript_refines stk pk SIGVERSION_BASE) as Hr.
  destruct (EvalScript stk pk flags' SIGVERSION_BASE) as [stk'| | |]; try done. rewrite (Hr stk') by done.
  cbn [mbind outcome_bind]. destruct (eval_true stk') as [[]| | |]; try done. cbn [mbind outcome_bind].
  pose proof (mono SCRIPT_VERIFY_WITNESS) as H. destruct (has flags SCRIPT_VERIFY_WITNESS).
  - rewrite H by done. destruct (IsWitnessProgram pk) as [[ver prog]|]; [|by eauto].
    destruct (negb _); [done|]. pose proof (VerifyWitnessProgram_refines w ver prog) as Hr'.
    destruct (VerifyWitnessProgram w ver prog flags') as [[]| | |]; try done. rewrite (Hr' tt) by done. by eauto.
  - intros _. by eexists.
Qed.

(** [VerifyScript] from the tests of the stack that [scriptPubKey] leaves *)
Definition verify_rest (sig pk : CScript) (w : vstack) (flags : Z) (copy stk : vstack) : outcome unit :=
  '(stk, had) ← verify_bare_witness sig pk w flags stk;
  '(stk, had) ←
    (if has flags SCRIPT_VERIFY_P2SH && IsPayToScriptHash pk
     then verify_p2sh sig w flags copy had else Ret (stk, had));
  _ ← (if has flags SCRIPT_VERIFY_CLEANSTACK then
         if negb (has flags SCRIPT_VERIFY_P2SH && has flags SCRIPT_VERIFY_WITNESS) then Crash
         else if negb (vsize stk =? 1) then Fail SCRIPT_ERR_CLEANSTACK else Ret tt
       else Ret tt);
  if has flags SCRIPT_VERIFY_WITNESS then
    if negb (has flags SCRIPT_VERIFY_P2SH) then Crash
    else if negb had && negb (length w =? 0)%nat then Fail SCRIPT_ERR_WITNESS_UNEXPECTED
    else Ret tt
  else Ret tt.

Lemma verify_rest_refines sig pk w copy stk :
  flags_ok flags -> refines (verify_rest sig pk w flags' copy stk) (verify_rest sig pk w flags copy stk).
Proof.
  intros [Hcs Hw] []. unfold verify_rest.
  pose proof (verify_bare_witness_weaker sig pk w stk) as H1.
  destruct (verify_bare_witness sig pk w flags' stk) as [[stk1 had1]| | |]; try done.
  destruct (H1 _ eq_refl) as ([stk2 had2]&->&Hsame). cbn [mbind outcome_bind].
  pose proof (mono SCRIPT_VERIFY_WITNESS) as Mw. pose proof (mono SCRIPT_VERIFY_P2SH) as Mp.
  pose proof (mono SCRIPT_VERIFY_CLEANSTACK) as Mc.
  destruct (has flags SCRIPT_VERIFY_WITNESS) eqn:Ew.
  - injection (Hsame eq_refl) as -> ->. rewrite Mw by done. rewrite (Hw eq_refl), Mp by auto. cbn [andb negb].
    destruct (IsPayToScriptHash pk).
    + pose proof (verify_p2sh_weaker sig w copy had1) as H2.
      destruct (verify_p2sh sig w flags' copy had1) as [[stk3 had3]| | |]; try done.
      destruct (H2 _ eq_refl) as (q&->&Hq). rewrite (Hq Ew). cbn [mbind outcome_bind].
      destruct (has flags SCRIPT_VERIFY_CLEANSTACK); [by rewrite Mc|].
      destruct (has flags' SCRIPT_VERIFY_CLEANSTACK); [|done]. by destruct (negb (vsize _ =? 1)).
    + cbn [mbind outcome_bind]. destruct (has flags SCRIPT_VERIFY_CLEANSTACK); [by rewrite Mc|].
      destruct (has flags' SCRIPT_VERIFY_CLEANSTACK); [|done]. by destruct (negb (vsize _ =? 1)).
  - destruct (has flags SCRIPT_VERIFY_CLEANSTACK); [by destruct (Hcs eq_refl)|].
    destruct (has flags SCRIPT_VERIFY_P2SH); [rewrite Mp by done|by intros _]. cbn [andb].
    destruct (IsPayToScriptHash pk); [|by intros _].
    assert (forall h, is_Some (match verify_p2sh sig w flags' copy h with Ret p => Some p | _ => None end) ->
              is_Some (match verify_p2sh sig w flags copy had2 with Ret p => Some p | _ => None end)) as H2.
    { intros h. pose proof (verify_p2sh_weaker sig w copy h) as H2.
      destruct (verify_p2sh sig w flags' copy h) as [p| | |]; try by intros []. destruct (H2 p eq_refl) as (q&Hq&_).
      revert Hq. unfold verify_p2sh. rewrite Ew. destruct (checked _) as [po| | |]; try done.
      cbn [mbind outcome_bind]. destruct (negb po); [done|]. destruct copy as [|c copy]; [done|].
      destruct (EvalScript copy c flags SIGVERSION_BASE) as [s'| | |]; try done. cbn [mbind outcome_bind].
      by destruct (eval_true s'). }
    specialize (H2 had1). destruct (verify_p2sh sig w flags' copy had1) as [[s3 h3]| | |]; try done.
    destruct (verify_p2sh sig w flags copy had2) as [[s4 h4]| | |]; try (by destruct (H2 ltac:(by eexists))).
Qed.

Lemma VerifyScript_refines sig pk w :
  flags_ok flags -> refines (VerifyScript sig pk w flags') (VerifyScript sig pk w flags).
Proof.
  intros Hok. change (refines
    (po ← (if has flags' SCRIPT_VERIFY_SIGPUSHONLY then checked (IsPushOnly sig) else Ret true);
     if negb po then Fail SCRIPT_ERR_SIG_PUSHONLY else
     copy ← EvalScript [] sig flags' SIGVERSION_BASE; stk ← EvalScript copy pk flags' SIGVERSION_BASE;
     _ ← eval_true stk; verify_rest sig pk (default [] w) flags' copy stk)
    (po ← (if has flags SCRIPT_VERIFY_SIGPUSHONLY then checked (IsPushOnly sig) else Ret true);
     if negb po then Fail SCRIPT_ERR_SIG_PUSHONLY else
     copy ← EvalScript [] sig flags SIGVERSION_BASE; stk ← EvalScript copy pk flags SIGVERSION_BASE;
     _ ← eval_true stk; verify_rest sig pk (default [] w) flags copy stk)).
  assert (forall po po' : bool, (po' = true -> po = true) -> refines
    (if negb po' then Fail SCRIPT_ERR_SIG_PUSHONLY else
     copy ← EvalScript [] sig flags' SIGVERSION_BASE; stk ← EvalScript copy pk flags' SIGVERSION_BASE;
     _ ← eval_true stk; verify_rest sig pk (default [] w) flags' copy stk)
    (if negb po then Fail SCRIPT_ERR_SIG_PUSHONLY else
     copy ← EvalScript [] sig flags SIGVERSION_BASE; stk ← EvalScript copy pk flags SIGVERSION_BASE;
     _ ← eval_true stk; verify_rest sig pk (default [] w) flags copy stk)) as H.
  { intros po po' Hpo. apply refines_test; [destruct po, po'; naive_solver|].
    do 2 (apply refines_bind; [apply EvalScript_refines|]; intros).
    apply refines_bind; [apply refines_refl|]. intros _. by apply verify_rest_refines. }
  pose proof (mono SCRIPT_VERIFY_SIGPUSHONLY) as Hpo. destruct (IsPushOnly_total sig) as [po ->]. cbn [checked].
  destruct (has flags SCRIPT_VERIFY_SIGPUSHONLY); [rewrite Hpo by done; by apply H|].
  destruct (has flags' SCRIPT_VERIFY_SIGPUSHONLY); cbn [mbind outcome_bind]; by apply H.
Qed.
End flags.

(** ** Soft forks *)

(** C14: Verification flags are a soft fork: whatever [VerifyScript] accepts under some flags it
    accepts under every subset of them that its assertions allow, provided that the two
    lock-time instructions are not among the discouraged [NOP]s of the subset only. *)
Theorem verify_flags_restrict `{crypto : ScriptCrypto} `{checker : BaseSignatureChecker}
    (scriptSig scriptPubKey : CScript) (witness : option vstack) (flags flags' : Z) :
  stricter flags flags' -> same_nops flags flags' -> flags_ok flags ->
  VerifyScript scriptSig scriptPubKey witness flags' = Ret tt ->
  VerifyScript scriptSig scriptPubKey witness flags = Ret tt.
Proof. intros Hs Hn Hf. by apply VerifyScript_refines. Qed.

Lemma verify_flags_restrict_witness :
  @VerifyScript toy_crypto toy_checker (push_data [] [7; 9] ++ push_data [] [7; 9])
    ([OP_DUP; OP_HASH160] ++ push_data [] (replicate 20 16) ++ [OP_EQUALVERIFY; OP_CHECKSIG]) None
    SCRIPT_VERIFY_P2SH = Ret tt.
Proof.
  apply (@verify_flags_restrict toy_crypto toy_checker _ _ _ SCRIPT_VERIFY_P2SH
    (SCRIPT_VERIFY_P2SH .| SCRIPT_VERIFY_MINIMALDATA .| SCRIPT_VERIFY_NULLFAIL .| SCRIPT_VERIFY_SIGPUSHONLY));
    [done|by intros H|by split|by vm_compute].
Defined.

(** ** Multi-signatures *)

(** The signatures are valid for some of the keys, in the order of the keys. *)
Definition signed_in_order (ok : valtype -> valtype -> Prop) (sigs keys : list valtype) : Prop :=
  exists keys', keys' `sublist_of` keys /\ Forall2 ok sigs keys'.

Lemma signed_nil ok keys : signed_in_order ok [] keys.
Proof. exists []. split; [apply sublist_nil_l|constructor]. Qed.

Lemma signed_length ok sigs keys : signed_in_order ok sigs keys -> (length sigs <= length keys)%nat.
Proof. intros (ks&Hks&H). rewrite (Forall2_length H). by apply sublist_length. Qed.

(** A key that does not sign the first signature is of no use; one that does may be taken. *)
Lemma signed_skip ok sig sigs key keys :
  ~ ok sig key -> signed_in_order ok (sig :: sigs) (key :: keys) <-> signed_in_order ok (sig :: sigs) keys.
Proof.
  intros Hno. split; intros (ks&Hks&H).
  - apply Forall2_cons_inv_l in H as (k&ks'&Hk&H&->). exists (k :: ks'). split; [|by constructor].
    apply sublist_cons_r in Hks as [Hks|(l&[= <- <-]&_)]; [exact Hks|]. done.
  - exists ks. split; [by apply sublist_cons|done].
Qed.

Lemma signed_take ok sig sigs key keys :
  ok sig key -> signed_in_order ok (sig :: sigs) (key :: keys) <-> signed_in_order ok sigs keys.
Proof.
  intros Hok. split; intros (ks&Hks&H).
  - apply Forall2_cons_inv_l in H as (k&ks'&Hk&H&->). exists ks'. split; [|done].
    apply sublist_cons_r in Hks as [Hks|(l&[= <- <-]&Hl)]; [|exact Hl].
    etrans; [|exact Hks]. by apply sublist_cons.
  - exists (key :: ks). split; [by apply sublist_skip|by constructor].
Qed.

Section multisig.
Context `{crypto : ScriptCrypto} `{checker : BaseSignatureChecker}.
Context (flags : Z) (v : SigVersion) (code : CScript).

Definition signs (sig key : valtype) : Prop := CheckSig sig key code v = Some true.

(** Encodings that the flags accept and a checker that answers *)
Definition accepted (sigs keys : list valtype) : Prop :=
  Forall (fun sig => CheckSignatureEncoding sig flags = Ret tt) sigs /\
  Forall (fun key => CheckPubKeyEncoding key flags v = Ret tt) keys /\
  forall sig key, is_Some (CheckSig sig key code v).

Lemma accepted_tl_keys sigs key keys : accepted sigs (key :: keys) -> accepted sigs keys.
Proof. intros (H1&H2&H3). apply Forall_cons_1 in H2 as [_ H2]. done. Qed.

Lemma accepted_tl_sigs sig sigs keys : accepted (sig :: sigs) keys -> accepted sigs keys.
Proof. intros (H1&H2&H3). apply Forall_cons_1 in H1 as [_ H1]. done. Qed.

(** The elements of [l] lie on the stack from [stacktop(-i)] on. *)
Definition lies_at (s : vstack) (i : Z) (l : list valtype) : Prop :=
  forall j x, l !! j = Some x -> stacktop s (i + Z.of_nat j) = Ret x.

Lemma lies_at_cons s i x l : lies_at s i (x :: l) -> stacktop s i = Ret x /\ lies_at s (i + 1) l.
Proof.
  intros H. split; [rewrite <- (Z.add_0_r i); by apply (H 0%nat)|].
  intros j y Hj. rewrite <- (H (S j) y Hj). f_equal. lia.
Qed.

Lemma lies_at_app before l rest i : i = vsize before + 1 -> lies_at (before ++ l ++ rest) i l.
Proof.
  intros -> j x Hj. unfold stacktop. pose proof (vsize_nonneg before).
  destruct (Z.leb_spec 1 (vsize before + 1 + Z.of_nat j)); [|lia].
  replace (Z.to_nat (vsize before + 1 + Z.of_nat j - 1)) with (length before + j)%nat by (unfold vsize; lia).
  by rewrite lookup_app_r, Nat.add_comm, Nat.add_sub, (lookup_app_l_Some _ _ _ _ Hj) by lia.
Qed.

(** The loop decides whether the signatures are in order. *)
Lemma multisig_loop_correct fuel s keys sigs isig ikey :
  lies_at s ikey keys -> lies_at s isig sigs -> accepted sigs keys ->
  (length keys <= fuel)%nat -> (length sigs <= length keys)%nat ->
  exists b, multisig_loop fuel flags v code s isig ikey (vsize sigs) (vsize keys) = Ret b /\
    (b = true <-> signed_in_order signs sigs keys).
Proof.
  revert keys sigs isig ikey. induction fuel as [|fuel IH]; intros keys sigs isig ikey Hk Hs Hacc Hf Hle;
    (destruct sigs as [|sig sigs]; [exists true; split; [done|split; [intros _; apply signed_nil|done]]|]);
    (destruct keys as [|key keys]; [cbn in Hle; lia|]); [cbn in Hf; lia|].
  cbn [multisig_loop]. apply lies_at_cons in Hk as [Hk1 Hk]. pose proof (lies_at_cons _ _ _ _ Hs) as [Hs1 Hs'].
  rewrite Z.gtb_ltb, Hk1, Hs1, !vsize_cons. pose proof (vsize_nonneg sigs).
  destruct (Z.ltb_spec 0 (vsize sigs + 1)); [|lia]. cbn [mbind outcome_bind].
  destruct (Hacc) as (Hse&Hke&Ht). apply Forall_cons_1 in Hse as [-> _]. apply Forall_cons_1 in Hke as [-> _].
  cbn [mbind outcome_bind]. destruct (Ht sig key) as [ok Hok]. rewrite Hok. cbn [checked mbind outcome_bind].
  apply accepted_tl_keys in Hacc. rewrite Z.gtb_ltb, Z.add_simpl_r. cbn [length] in *.
  destruct ok.
  - rewrite Z.add_simpl_r. destruct (Z.ltb_spec (vsize keys) (vsize sigs)); [unfold vsize in *; lia|].
    setoid_rewrite (signed_take _ _ _ _ _ Hok). apply IH; [done|done|by eapply accepted_tl_sigs|lia|lia].
  - assert (~ signs sig key) as Hno by (unfold signs; congruence).
    setoid_rewrite (signed_skip _ _ _ _ _ Hno). rewrite <- (vsize_cons sig sigs).
    destruct (Z.ltb_spec (vsize keys) (vsize (sig :: sigs))) as [Hlt|Hge].
    + exists false. split; [done|]. split; [done|]. intros Hsig%signed_length. unfold vsize in Hlt. lia.
    + apply IH; [done|done|done|lia|unfold vsize in Hge; cbn [length] in *; lia].
Qed.

(** Dropping the signatures one after the other *)
Fixpoint drop_all (script : CScript) (sigs : list valtype) : outcome CScript :=
  match sigs with
  | [] => Ret script
  | sig :: sigs => script ← drop_signature v script sig; drop_all script sigs
  end.

Lemma drop_signatures_all s isig sigs script :
  lies_at s isig sigs -> drop_signatures (length sigs) v s isig script = drop_all script sigs.
Proof.
  revert isig script. induction sigs as [|sig sigs IH]; intros isig script Hs; [done|].
  apply lies_at_cons in Hs as [Hs1 Hs]. cbn [drop_signatures drop_all length]. rewrite Hs1.
  cbn [mbind outcome_bind]. destruct (drop_signature v script sig); try done. by apply IH.
Qed.

(** Popping the arguments: a failed check may only have had empty signatures. *)
Lemma cleanup_sigs ok sigs rest :
  multisig_cleanup (length sigs) flags ok 0 (sigs ++ rest) =
  if negb ok && has flags SCRIPT_VERIFY_NULLFAIL && existsb (fun sig => negb (length sig =? 0)%nat) sigs
  then Fail SCRIPT_ERR_SIG_NULLFAIL else Ret rest.
Proof.
  induction sigs as [|sig sigs IH]; [by rewrite andb_false_r|]. cbn [length app multisig_cleanup existsb].
  rewrite Z.eqb_refl, andb_true_r. destruct (negb ok && has flags SCRIPT_VERIFY_NULLFAIL).
  - change (stacktop (sig :: sigs ++ rest) 1) with (Ret sig). cbn [mbind outcome_bind andb].
    destruct (negb (length sig =? 0)%nat); [done|]. exact IH.
  - exact IH.
Qed.

Lemma cleanup_all ok before sigs rest :
  multisig_cleanup (length before + length sigs) flags ok (vsize before) (before ++ sigs ++ rest) =
  if negb ok && has flags SCRIPT_VERIFY_NULLFAIL && existsb (fun sig => negb (length sig =? 0)%nat) sigs
  then Fail SCRIPT_ERR_SIG_NULLFAIL else Ret rest.
Proof.
  induction before as [|x before IH]; [exact (cleanup_sigs ok sigs rest)|]. cbn [length app plus multisig_cleanup].
  rewrite vsize_cons. pose proof (vsize_nonneg before). destruct (Z.eqb_spec (vsize before + 1) 0); [lia|].
  rewrite andb_false_r, Z.gtb_ltb. destruct (Z.ltb_spec 0 (vsize before + 1)); [|lia].
  cbn [mbind outcome_bind popstack]. by rewrite Z.add_simpl_r.
Qed.
End multisig.

(** Where the arguments of [OP_CHECKMULTISIG] lie *)
Lemma multisig_stack (kc mc : valtype) (keys sigs : list valtype) (rest : vstack) :
  let s := kc :: keys ++ mc :: sigs ++ [] :: rest in
  s = (kc :: keys ++ [mc]) ++ sigs ++ [] :: rest /\
  vsize s = vsize keys + vsize sigs + vsize rest + 3 /\
  lies_at s 2 keys /\ stacktop s (2 + vsize keys) = Ret mc /\ lies_at s (vsize keys + 3) sigs.
Proof.
  intros s. assert (s = (kc :: keys ++ [mc]) ++ sigs ++ [] :: rest) as Es
    by (unfold s; cbn [app]; by rewrite <- app_assoc). split_and!; [done|..].
  - rewrite Es. unfold vsize. cbn [length app]. rewrite !length_app. cbn [length]. lia.
  - by apply (lies_at_app [kc] keys (mc :: sigs ++ [] :: rest)).
  - rewrite <- (Z.add_0_r (2 + vsize keys)).
    apply (lies_at_app (kc :: keys) [mc] (sigs ++ [] :: rest) (2 + vsize keys)) with (j := 0%nat);
      [rewrite vsize_cons; lia|done].
  - rewrite Es. apply lies_at_app. unfold vsize. cbn [length]. rewrite length_app. cbn [length]. lia.
Qed.



(** ** Spending *)

(** The loop needs no more fuel than there are bytes. *)
Lemma eval_loop_fuel `{crypto : ScriptCrypto} `{checker : BaseSignatureChecker} f f' flags v pc st :
  (length pc <= f)%nat -> (length pc <= f')%nat -> eval_loop f flags v pc st = eval_loop f' flags v pc st.
Proof.
  revert f' pc st. induction f as [|f IH]; intros f' pc st H H'; (destruct pc as [|c pc]; [by destruct f'|]);
    [cbn in H; lia|]. destruct f' as [|f']; [cbn in H'; lia|]. cbn [eval_loop].
  destruct (GetOp (c :: pc)) as [[[op vch] pc']|] eqn:E; [|done]. pose proof (GetOp_shorter _ _ _ _ E).
  destruct (eval_instr _ _ _ _ _ _); try done. cbn [mbind outcome_bind length] in *. apply IH; lia.
Qed.

Section spending.
Context `{crypto : ScriptCrypto} `{checker : BaseSignatureChecker}.

(** Running a script from an instruction on *)
Definition run (flags : Z) (v : SigVersion) (pc : CScript) (st : evalstate) : outcome evalstate :=
  eval_loop (length pc) flags v pc st.

Lemma run_step flags v pc st op vch pc' :
  GetOp pc = Some (op, vch, pc') ->
  run flags v pc st = st' ← eval_instr flags v op vch pc' st; run flags v pc' st'.
Proof.
  intros E. pose proof (GetOp_shorter _ _ _ _ E). unfold run. destruct pc as [|c pc]; [cbn in *; lia|].
  cbn [eval_loop length]. rewrite E. destruct (eval_instr _ _ _ _ _ _); try done. cbn [mbind outcome_bind].
  apply eval_loop_fuel; cbn [length] in *; lia.
Qed.

(** A push of a few bytes *)
Definition small (data : valtype) : Prop := 2 <= vsize data <= 75.

Lemma push_small flags v data rest s alt code n :
  small data -> vsize (data ++ rest) < 2 ^ 32 -> vsize s + vsize alt <= 100 ->
  run flags v (push_data [] data ++ rest) (EvalState s alt [] code n) =
  run flags v rest (EvalState (data :: s) alt [] code n).
Proof.
  intros Hd Hr Hs. unfold small in Hd. erewrite run_step by by apply GetOp_push_data.
  assert (push_op data = vsize data) as ->.
  { unfold push_op, OP_PUSHDATA1. by destruct (Z.ltb_spec (vsize data) 76); [|lia]. }
  unfold eval_instr. rewrite !Z.gtb_ltb. unfold MAX_SCRIPT_ELEMENT_SIZE, OP_16, OP_PUSHDATA4.
  destruct (Z.ltb_spec 520 (vsize data)); [lia|]. destruct (Z.ltb_spec 96 (vsize data)); [lia|]. cbv zeta. cbn [andb].
  assert (disabled (vsize data) = false) as ->.
  { unfold disabled, OP_CAT, OP_SUBSTR, OP_LEFT, OP_RIGHT, OP_INVERT, OP_AND, OP_OR, OP_XOR, OP_2MUL, OP_2DIV,
      OP_MUL, OP_DIV, OP_MOD, OP_LSHIFT, OP_RSHIFT. cbn [existsb]. lia. }
  cbn [vfExec stack altstack pbegincodehash nOpCount forallb].
  destruct (Z.leb_spec 0 (vsize data)); [|lia]. destruct (Z.leb_spec (vsize data) 78); [|lia]. cbn [andb].
  assert (CheckMinimalPush data (vsize data) = true) as ->.
  { unfold CheckMinimalPush. destruct data as [|b data]; [done|].
    destruct (Z.eqb_spec (vsize (b :: data)) 1); [lia|]. cbn [andb].
    destruct (Z.leb_spec (vsize (b :: data)) 75); [|lia]. apply Z.eqb_refl. }
  rewrite andb_false_r. cbn [mbind outcome_bind set_stack stack altstack]. rewrite Z.gtb_ltb.
  destruct (Z.ltb_spec 1000 (vsize (data :: s) + vsize alt)) as [Hx|]; [rewrite vsize_cons in Hx; lia|reflexivity].
Qed.

(** An instruction without operand, executed outside of conditionals *)
Lemma run_op flags v op rest s alt code n st' :
  OP_PUSHDATA4 < op ->
  eval_instr flags v op [] rest (EvalState s alt [] code n) = Ret st' ->
  run flags v (op :: rest) (EvalState s alt [] code n) = run flags v rest st'.
Proof. intros Hop E. erewrite run_step by by apply GetOp_opcode. by rewrite E. Qed.

(** The script that pays to the hash of a public key *)
Definition p2pkh (h : valtype) : CScript :=
  [OP_DUP; OP_HASH160] ++ push_data [] h ++ [OP_EQUALVERIFY; OP_CHECKSIG].

Lemma vsize_push_small data : small data -> vsize (push_data [] data) = vsize data + 1.
Proof.
  intros Hd. unfold small in Hd. unfold push_data. rewrite app_nil_l. unfold OP_PUSHDATA1.
  destruct (Z.ltb_spec (vsize data) 76); [|lia]. unfold vsize. rewrite length_app. cbn [length]. lia.
Qed.

Lemma vsize_app {A} (a b : list A) : vsize (a ++ b) = vsize a + vsize b.
Proof. unfold vsize. rewrite length_app. lia. Qed.

Lemma EvalScript_two_pushes flags v a b :
  small a -> small b -> EvalScript [] (push_data [] a ++ push_data [] b) flags v = Ret [b; a].
Proof.
  intros Ha Hb. unfold EvalScript. rewrite Z.gtb_ltb, vsize_app, !vsize_push_small by done.
  pose proof Ha as Ha'. pose proof Hb as Hb'. unfold small in Ha', Hb'.
  unfold MAX_SCRIPT_SIZE. destruct (Z.ltb_spec 10000 (vsize a + 1 + (vsize b + 1))); [lia|].
  fold (run flags v (push_data [] a ++ push_data [] b)
          (EvalState [] [] [] (push_data [] a ++ push_data [] b) 0)).
  rewrite push_small; [|done|rewrite vsize_app, vsize_push_small by done; lia|by vm_compute].
  rewrite <- (app_nil_r (push_data [] b)) at 1.
  rewrite push_small; [done|done|rewrite vsize_app; change (vsize []) with 0; lia|by vm_compute].
Qed.

(** [OP_CHECKSIG] leaves its answer. *)
Lemma op_checksig_one flags v code key sig s :
  op_checksig flags v OP_CHECKSIG code [key; sig] = Ret s -> exists b, s = [vch_of_bool b].
Proof.
  unfold op_checksig. stack_eval. destruct (drop_signature _ _ _); try done. cbn [mbind outcome_bind].
  destruct (CheckSignatureEncoding _ _); try done. cbn [mbind outcome_bind].
  destruct (CheckPubKeyEncoding _ _ _); try done. cbn [mbind outcome_bind].
  destruct (checked _) as [b| | |]; try done. cbn [mbind outcome_bind]. destruct (_ && _); [done|].
  intros [= <-]. by exists b.
Qed.

Lemma EvalScript_p2pkh flags v key sig h :
  small key -> vsize h = 20 ->
  EvalScript [key; sig] (p2pkh h) flags v =
  if bool_decide (hash_hash160 key = h)
  then match op_checksig flags v OP_CHECKSIG (p2pkh h) [key; sig] with
       | Exn _ => Fail SCRIPT_ERR_UNKNOWN_ERROR | r => r end
  else Fail SCRIPT_ERR_EQUALVERIFY.
Proof.
  intros Hk Hh. assert (small h) as Hsm by (unfold small; lia).
  unfold EvalScript. assert (vsize (p2pkh h) = 25) as ->.
  { unfold p2pkh. rewrite !vsize_app, vsize_push_small, Hh by done. done. }
  change (25 >? MAX_SCRIPT_SIZE) with false. cbn [negb].
  change (eval_loop (length (p2pkh h)) flags v (p2pkh h) (EvalState [key; sig] [] [] (p2pkh h) 0))
    with (run flags v (p2pkh h) (EvalState [key; sig] [] [] (p2pkh h) 0)).
  generalize (p2pkh h) at 2 3 as code. intros code. unfold p2pkh. cbn [app].
  rewrite (run_op _ _ OP_DUP _ _ _ _ _ (EvalState [key; key; sig] [] [] code 1)) by done.
  rewrite (run_op _ _ OP_HASH160 _ _ _ _ _ (EvalState [hash_hash160 key; key; sig] [] [] code 2)) by done.
  rewrite push_small; [|done|rewrite vsize_app, Hh; by vm_compute|by vm_compute].
  erewrite run_step by by apply GetOp_opcode.
  change (eval_instr flags v OP_EQUALVERIFY [] [OP_CHECKSIG] _) with
    (st ← (s ← (if bool_decide (hash_hash160 key = h) then Ret [key; sig] else Fail SCRIPT_ERR_EQUALVERIFY);
           Ret (EvalState s [] [] code 3));
     if vsize (stack st) + vsize (altstack st) >? 1000 then Fail SCRIPT_ERR_STACK_SIZE else Ret st).
  destruct (bool_decide _); [|done]. cbn [mbind outcome_bind stack altstack].
  change (vsize [key; sig] + vsize [] >? 1000) with false. cbn [mbind outcome_bind].
  erewrite run_step by by apply GetOp_opcode.
  change (eval_instr flags v OP_CHECKSIG [] [] _) with
    (st ← (s ← op_checksig flags v OP_CHECKSIG code [key; sig]; Ret (EvalState s [] [] code 4));
     if vsize (stack st) + vsize (altstack st) >? 1000 then Fail SCRIPT_ERR_STACK_SIZE else Ret st).
  destruct (op_checksig _ _ _ _ _) as [s| | |] eqn:E; try done. destruct (op_checksig_one _ _ _ _ _ _ E) as [b ->].
  by destruct b.
Qed.

Lemma IsPushOnly_two_pushes a b : small a -> small b -> IsPushOnly (push_data [] a ++ push_data [] b) = Some true.
Proof.
  intros Ha Hb. pose proof Ha as Ha'. pose proof Hb as Hb'. unfold small in Ha', Hb'.
  assert (forall f data rest, small data -> vsize (data ++ rest) < 2 ^ 32 ->
    push_only_loop (S f) (push_data [] data ++ rest) = push_only_loop f rest) as Hstep.
  { intros f data rest Hd Hr. unfold small in Hd. pose proof (GetOp_push_data data rest Hr) as E.
    pose proof (GetOp_shorter _ _ _ _ E). destruct (push_data [] data ++ rest) as [|c l]; [cbn in *; lia|].
    cbn [push_only_loop]. rewrite E. replace (push_op data >? OP_16) with false; [done|].
    unfold push_op, OP_PUSHDATA1, OP_16. destruct (Z.ltb_spec (vsize data) 76); lia. }
  unfold IsPushOnly. pose proof (vsize_push_small a Ha). pose proof (vsize_push_small b Hb).
  rewrite length_app. unfold vsize in *.
  destruct (length (push_data [] a) + length (push_data [] b))%nat as [|[|f]] eqn:Ef; [lia|lia|].
  rewrite Hstep; [|done|unfold vsize; rewrite length_app; lia]. rewrite <- (app_nil_r (push_data [] b)).
  rewrite Hstep; [by destruct f|done|unfold vsize; rewrite length_app; cbn [length]; lia].
Qed.

(** What [OP_CHECKSIG] requires *)
Lemma op_checksig_accepts flags code key sig :
  (s ← op_checksig flags SIGVERSION_BASE OP_CHECKSIG code [key; sig]; _ ← eval_true s; Ret s) = Ret [vchTrue] <->
  CheckSignatureEncoding sig flags = Ret tt /\ CheckPubKeyEncoding key flags SIGVERSION_BASE = Ret tt /\
  exists code' n, FindAndDelete code (push_data [] sig) = Some (code', n) /\
    CheckSig sig key code' SIGVERSION_BASE = Some true.
Proof.
  unfold op_checksig, drop_signature. stack_eval. destruct (FindAndDelete_total code (push_data [] sig)) as (code' & n & E & _).
  rewrite E. cbn [checked mbind outcome_bind].
  destruct (CheckSignatureEncoding sig flags) as [[]| | |]; try (split; [done|by intros [? _]]).
  cbn [mbind outcome_bind].
  destruct (CheckPubKeyEncoding key flags SIGVERSION_BASE) as [[]| | |]; try (split; [done|by intros (_&?&_)]).
  cbn [mbind outcome_bind]. split.
  - intros H. split_and!; [done..|]. exists code', n. split; [done|].
    destruct (CheckSig sig key code' SIGVERSION_BASE) as [[]|]; [done| |done]. cbn [checked mbind outcome_bind negb andb] in H.
    by destruct (has flags SCRIPT_VERIFY_NULLFAIL && negb (length sig =? 0)%nat).
  - intros (_&_&code2&n2&[= <- <-]&Hsig). by rewrite Hsig.
Qed.

Lemma p2pkh_not_special h :
  IsWitnessProgram (p2pkh h) = None /\ IsPayToScriptHash (p2pkh h) = false.
Proof.
  split; unfold IsWitnessProgram, IsPayToScriptHash, at_is, p2pkh; cbn [app]; [by destruct (_ || _)|].
  rewrite andb_false_iff. left. rewrite andb_false_iff. left. by rewrite andb_false_r.
Qed.

(** Nothing more is asked when the script is not special and leaves one element. *)
Lemma verify_rest_plain flags ss pk copy top :
  flags_ok flags -> IsWitnessProgram pk = None -> IsPayToScriptHash pk = false ->
  verify_rest ss pk [] flags copy [top] = Ret tt.
Proof.
  intros [Hcs Hw] E1 E2. unfold verify_rest, verify_bare_witness. rewrite E1, E2, andb_false_r.
  destruct (has flags SCRIPT_VERIFY_WITNESS); cbn [mbind outcome_bind].
  - rewrite Hw by done. by destruct (has flags SCRIPT_VERIFY_CLEANSTACK).
  - destruct (has flags SCRIPT_VERIFY_CLEANSTACK); [by destruct (Hcs eq_refl)|done].
Qed.
End spending.

Lemma VerifyScript_p2pkh `{crypto : ScriptCrypto} `{checker : BaseSignatureChecker}
    (sig key h : valtype) (flags : Z) :
  small sig -> small key -> vsize h = 20 -> flags_ok flags ->
  VerifyScript (push_data [] sig ++ push_data [] key) (p2pkh h) None flags = Ret tt <->
  hash_hash160 key = h /\
  CheckSignatureEncoding sig flags = Ret tt /\ CheckPubKeyEncoding key flags SIGVERSION_BASE = Ret tt /\
  exists code n, FindAndDelete (p2pkh h) (push_data [] sig) = Some (code, n) /\
    CheckSig sig key code SIGVERSION_BASE = Some true.
Proof.
  intros Hsig Hkey Hh Hok. rewrite <- (op_checksig_accepts flags (p2pkh h) key sig).
  change (VerifyScript (push_data [] sig ++ push_data [] key) (p2pkh h) None flags) with
    (po ← (if has flags SCRIPT_VERIFY_SIGPUSHONLY
           then checked (IsPushOnly (push_data [] sig ++ push_data [] key)) else Ret true);
     if negb po then Fail SCRIPT_ERR_SIG_PUSHONLY else
     copy ← EvalScript [] (push_data [] sig ++ push_data [] key) flags SIGVERSION_BASE;
     stk ← EvalScript copy (p2pkh h) flags SIGVERSION_BASE;
     _ ← eval_true stk; verify_rest (push_data [] sig ++ push_data [] key) (p2pkh h) [] flags copy stk).
  rewrite IsPushOnly_two_pushes, EvalScript_two_pushes by done.
  replace (if has flags SCRIPT_VERIFY_SIGPUSHONLY then checked (Some true) else Ret true) with (@Ret bool true)
    by (by destruct (has flags SCRIPT_VERIFY_SIGPUSHONLY)).
  cbn [mbind outcome_bind negb]. rewrite EvalScript_p2pkh by done.
  destruct (bool_decide_reflect (hash_hash160 key = h)) as [Hhash|Hhash]; [|split; [done|by intros [? _]]].
  destruct (op_checksig flags SIGVERSION_BASE OP_CHECKSIG (p2pkh h) [key; sig]) as [s|e|x|] eqn:E;
    try (split; [done|by intros [_ ?]]).
  destruct (op_checksig_one _ _ _ _ _ _ E) as [b ->]. destruct (p2pkh_not_special h).
  destruct b; [|split; [done|by intros [_ ?]]]. cbn [vch_of_bool eval_true CastToBool mbind outcome_bind].
  split; [done|]. intros _. by apply verify_rest_plain.
Qed.

(** An output that pays to the hash [h] of a public key is spent by a signature and a key
    exactly when the key hashes to [h], their encodings are those the flags ask for, and the
    signature is valid for the script without the signature, whatever the (consistent)
    verification flags. *)
Theorem p2pkh_spend_iff `{crypto : ScriptCrypto} `{checker : BaseSignatureChecker}
    (sig key h : valtype) (flags : Z) :
  small sig -> small key -> vsize h = 20 -> flags_ok flags ->
  VerifyScript (push_data [] sig ++ push_data [] key) (p2pkh h) None flags = Ret tt <->
  hash_hash160 key = h /\
  CheckSignatureEncoding sig flags = Ret tt /\ CheckPubKeyEncoding key flags SIGVERSION_BASE = Ret tt /\
  exists code n, FindAndDelete (p2pkh h) (push_data [] sig) = Some (code, n) /\
    CheckSig sig key code SIGVERSION_BASE = Some true.
Proof. apply VerifyScript_p2pkh. Qed.

Lemma p2pkh_spend_iff_witness :
  @VerifyScript toy_crypto toy_checker (push_data [] [7; 9] ++ push_data [] [7; 9]) (p2pkh (replicate 20 16)) None
    (SCRIPT_VERIFY_P2SH .| SCRIPT_VERIFY_MINIMALDATA) = Ret tt.
Proof.
  apply (@p2pkh_spend_iff toy_crypto toy_checker); [by vm_compute|by vm_compute|done|by split|].
  split_and!; [done|done|done|]. exists (p2pkh (replicate 20 16)), 0. split; [by vm_compute|done].
Defined.
