(* ===== verification/Codec.v ===== *)
(** Serialization templates ([src/src/serialize.h]) and what it means for a format to be
    canonical: vectors, byte strings and signed integers, each with the proof that reading
    accepts exactly what writing gives. *)

From S2P Require Import Prelude SphTypes Serialize.

#[local] Open Scope c_scope.

(** ** Integers with a sign *)

Definition int_range (w x : Z) : Prop := - 2 ^ (w - 1) <= x < 2 ^ (w - 1).
Definition to_signed (w x : Z) : Z := if x <? 2 ^ (w - 1) then x else x - 2 ^ w.

(** [ser_writedata32(s, a)] with [int32_t a], [ser_writedata64(s, a)] with [int64_t a] *)
Definition Serialize_int32 (a : Z) : list Z := ser_writedata32 (a mod 2 ^ 32).
Definition Serialize_int64 (a : Z) : list Z := ser_writedata64 (a mod 2 ^ 64).
Definition Unserialize_int32 (s : list Z) : result (Z * list Z) :=
  '(x, s) ← ser_readdata32 s; mret (to_signed 32 x, s).
Definition Unserialize_int64 (s : list Z) : result (Z * list Z) :=
  '(x, s) ← ser_readdata64 s; mret (to_signed 64 x, s).

(** ** Byte strings: [std::string], and vectors of [unsigned char] *)

Definition Serialize_bytes (v : list Z) : list Z := WriteCompactSize (Z.of_nat (length v)) ++ v.

(** The strings are read at once. *)
Definition Unserialize_string (s : list Z) : result (list Z * list Z) :=
  '(nSize, s) ← ReadCompactSize s;
  if negb (nSize =? 0) then read (Z.to_nat nSize) s else mret ([], s).

(** The loop of [Unserialize_impl]: at most 5000000 bytes at a time. *)
Fixpoint read_blocks (fuel : nat) (nSize i : Z) (v s : list Z) : result (list Z * list Z) :=
  if i <? nSize then
    match fuel with
    | O => throw EndOfData
    | S fuel =>
        let blk := Z.min (nSize - i) (1 + 4999999 / 1) in
        '(b, s) ← read (Z.to_nat blk) s;
        read_blocks fuel nSize (i + blk) (v ++ b) s
    end
  else mret (v, s).

Definition Unserialize_bytes (s : list Z) : result (list Z * list Z) :=
  '(nSize, s) ← ReadCompactSize s;
  read_blocks (Z.to_nat (nSize / 5000000 + 1)) nSize 0 [] s.

Definition GetSerializeSize_bytes (v : list Z) : Z :=
  GetSizeOfCompactSize (Z.of_nat (length v)) + Z.of_nat (length v).

(** ** Vectors of other types *)

Section vector.
Context {T : Type} (Serialize : T -> list Z) (Unserialize : list Z -> result (T * list Z)).
(** [5000000 / sizeof(T)] *)
Context (per : Z).

Definition Serialize_vector (v : list T) : list Z :=
  WriteCompactSize (Z.of_nat (length v)) ++ concat (map Serialize v).

(** [for (; i < nMid; i++) Unserialize(is, v[i], nType, nVersion);] for [n] elements *)
Fixpoint read_elements (n : nat) (v : list T) (s : list Z) : result (list T * list Z) :=
  match n with
  | O => mret (v, s)
  | S n => '(x, s) ← Unserialize s; read_elements n (v ++ [x]) s
  end.

Fixpoint read_chunks (fuel : nat) (nSize nMid : Z) (v : list T) (s : list Z) : result (list T * list Z) :=
  if nMid <? nSize then
    match fuel with
    | O => throw EndOfData
    | S fuel =>
        let i := nMid in
        let nMid := nMid + per in
        let nMid := if nMid >? nSize then nSize else nMid in
        '(v, s) ← read_elements (Z.to_nat (nMid - i)) v s;
        read_chunks fuel nSize nMid v s
    end
  else mret (v, s).

Definition Unserialize_vector (s : list Z) : result (list T * list Z) :=
  '(nSize, s) ← ReadCompactSize s;
  read_chunks (Z.to_nat (nSize / per + 1)) nSize 0 [] s.
End vector.

(** ** Canonical formats *)

(** On streams of bytes, reading accepts exactly what writing gives for the values of
    [wf]. *)
Definition canonical {T} (wf : T -> Prop) (ser : T -> list Z) (unser : list Z -> result (T * list Z)) : Prop :=
  forall s x rest, Forall byte s -> unser s = inr (x, rest) <-> wf x /\ s = ser x ++ rest.

Lemma canonical_read {T} {wf : T -> Prop} {ser unser} :
  canonical wf ser unser ->
  forall x rest, Forall byte (ser x) -> Forall byte rest -> wf x -> unser (ser x ++ rest) = inr (x, rest).
Proof. intros H x rest Hx Hr Hw. apply H; [by apply Forall_app|done]. Qed.

(** Two values with the same bytes are equal. *)
Lemma canonical_inj {T} {wf : T -> Prop} {ser unser} :
  canonical wf ser unser ->
  forall x y rx ry, wf x -> wf y -> Forall byte (ser x ++ rx) -> ser x ++ rx = ser y ++ ry -> x = y /\ rx = ry.
Proof.
  intros H x y rx ry Hx Hy Hb E. assert (unser (ser x ++ rx) = inr (x, rx)) as E1 by by apply H.
  assert (unser (ser x ++ rx) = inr (y, ry)) as E2 by (rewrite E; apply H; [by rewrite <- E|done]).
  rewrite E1 in E2. by injection E2.
Qed.

Lemma bind_inr {A B} (m : result A) (f : A -> result B) y :
  (m ≫= f) = inr y <-> exists x, m = inr x /\ f x = inr y.
Proof. destruct m as [e|x]; cbn; split; [done|by intros (?&?&?)|by exists x|by intros (?&[= ->]&?)]. Qed.

(** Reading a value and going on *)
Lemma canonical_bind {T B} {wf : T -> Prop} {ser unser} (f : T * list Z -> result B) s y :
  canonical wf ser unser -> Forall byte s ->
  (unser s ≫= f) = inr y <->
  exists x rest, wf x /\ s = ser x ++ rest /\ Forall byte rest /\ f (x, rest) = inr y.
Proof.
  intros H Hs. rewrite bind_inr. split.
  - intros ([x rest]&E&Hf). apply H in E as [Hx ->]; [|done]. apply Forall_app in Hs as [_ Hr].
    by exists x, rest.
  - intros (x&rest&Hx&->&_&Hf). exists (x, rest). split; [|done]. by apply H.
Qed.

(** A format that has been shown canonical, found by its reader *)
Class Canonical {T} (wf : T -> Prop) (ser : T -> list Z) (unser : list Z -> result (T * list Z)) :=
  canonical_format : canonical wf ser unser.

Lemma read_field {T B} `{C : Canonical T wf ser unser} (f : T * list Z -> result B) s y :
  Forall byte s -> (unser s ≫= f) = inr y ->
  exists x rest, wf x /\ s = ser x ++ rest /\ Forall byte rest /\ f (x, rest) = inr y.
Proof. intros Hs. by apply canonical_bind. Qed.

Lemma written_field {T B} `{C : Canonical T wf ser unser} (f : T * list Z -> result B) x rest y :
  wf x -> Forall byte (ser x ++ rest) -> f (x, rest) = inr y -> (unser (ser x ++ rest) ≫= f) = inr y.
Proof.
  intros Hx Hs Hf. apply (canonical_bind _ _ _ C Hs). exists x, rest. by apply Forall_app in Hs as [_ Hs].
Qed.

(** Taking a reader apart, and running one on what was written *)
Ltac read_fields :=
  repeat match goal with
  | E : (_ ?s ≫= _) = inr _, Hs : Forall byte ?s |- _ =>
      let x := fresh "x" in let r := fresh "r" in let Hx := fresh "Hx" in let Hr := fresh "Hr" in
      apply (read_field _ _ _ Hs) in E as (x&r&Hx&->&Hr&E)
  end.
Ltac write_fields :=
  rewrite <- ?app_assoc;
  repeat match goal with
  | Hs : Forall byte ?s |- (?unser ?s ≫= _) = inr _ =>
      let C := constr:(_ : Canonical _ _ unser) in
      apply (written_field (C := C)); [try done|exact Hs|apply Forall_app in Hs as [_ Hs]]
  end.

(** ** Words *)

Lemma canonical_word n : canonical (word (8 * Z.of_nat n)) (store_le n) (ser_readdata n).
Proof.
  intros s x rest Hs. split.
  - intros E. apply ser_readdata_inv in E as (->&?&_); [|done]. done.
  - intros [Hx ->]. by apply ser_readdata_store.
Qed.

#[export] Instance canonical_uint8 : Canonical byte ser_writedata8 ser_readdata8.
Proof. exact (canonical_word 1). Qed.
#[export] Instance canonical_uint32 : Canonical (word 32) ser_writedata32 ser_readdata32.
Proof. exact (canonical_word 4). Qed.

Lemma to_signed_mod w a : 0 < w -> int_range w a -> to_signed w (a mod 2 ^ w) = a.
Proof.
  intros Hw Ha. unfold int_range, to_signed in *. assert (2 ^ w = 2 * 2 ^ (w - 1)) as E
    by (rewrite <- Z.pow_succ_r by lia; f_equal; lia).
  assert (a mod 2 ^ w = if a <? 0 then a + 2 ^ w else a) as ->.
  { destruct (Z.ltb_spec a 0); [rewrite <- (Z_mod_plus_full a 1 (2 ^ w))|]; rewrite Z.mod_small; lia. }
  destruct (Z.ltb_spec a 0); case_match eqn:Ec; rewrite ?Z.ltb_lt, ?Z.ltb_ge in Ec; lia.
Qed.

Lemma mod_to_signed w x : 0 < w -> word w x -> int_range w (to_signed w x) /\ to_signed w x mod 2 ^ w = x.
Proof.
  intros Hw Hx. unfold word, int_range, to_signed in *. assert (2 ^ w = 2 * 2 ^ (w - 1)) as E
    by (rewrite <- Z.pow_succ_r by lia; f_equal; lia).
  destruct (Z.ltb_spec x (2 ^ (w - 1))).
  - split; [lia|]. by apply Z.mod_small.
  - split; [lia|]. rewrite <- (Z_mod_plus_full (x - 2 ^ w) 1 (2 ^ w)), Z.mod_small; lia.
Qed.

Lemma canonical_signed n :
  (0 < n)%nat ->
  canonical (int_range (8 * Z.of_nat n)) (fun a => store_le n (a mod 2 ^ (8 * Z.of_nat n)))
    (fun s => '(x, s) ← ser_readdata n s; mret (to_signed (8 * Z.of_nat n) x, s)).
Proof.
  intros Hn s a rest Hs. rewrite (canonical_bind _ _ _ (canonical_word n) Hs). split.
  - intros (x&r&Hx&->&_&[= <- <-]). destruct (mod_to_signed (8 * Z.of_nat n) x) as [? ->]; [lia|done|done].
  - intros [Ha ->]. exists (a mod 2 ^ (8 * Z.of_nat n)), rest. apply Forall_app in Hs as [_ Hs]. split_and!; [|done..|].
    + apply word_mod. lia.
    + cbn. rewrite to_signed_mod; [done|lia|done].
Qed.

#[export] Instance canonical_int32 : Canonical (int_range 32) Serialize_int32 Unserialize_int32.
Proof. exact (canonical_signed 4 ltac:(lia)). Qed.
#[export] Instance canonical_int64 : Canonical (int_range 64) Serialize_int64 Unserialize_int64.
Proof. exact (canonical_signed 8 ltac:(lia)). Qed.

(** A fixed number of bytes *)
Definition bytes_of_length (n : nat) (v : list Z) : Prop := Forall byte v /\ length v = n.

#[export] Instance canonical_array n : Canonical (bytes_of_length n) (fun v => v) (read n).
Proof.
  intros s x rest Hs. split.
  - unfold read. destruct (Nat.leb_spec n (length s)); [|done]. intros [= <- <-]. rewrite take_drop.
    split; [|done]. split; [by apply Forall_take|]. rewrite length_take. lia.
  - intros [[_ Hl] ->]. by apply read_app.
Qed.

(** ** Byte strings and vectors *)

Definition fits_size {A} (v : list A) : Prop := Z.of_nat (length v) <= MAX_SIZE.

#[export] Instance canonical_size :
  Canonical (fun n => 0 <= n <= MAX_SIZE) WriteCompactSize ReadCompactSize.
Proof.
  intros s n rest Hs. split.
  - intros E. assert (0 <= n < 2 ^ 64) as Hn.
    { unfold ReadCompactSize in E. destruct (ser_readdata8 s) as [|[c s1]] eqn:E1; [done|].
      apply ser_readdata_inv in E1 as (->&Hc&Hs1); [|done]. cbn [mbind result_bind] in E.
      apply bind_inr in E as ([m s2]&E&Em). rewrite Z.gtb_ltb in Em.
      destruct (Z.ltb_spec MAX_SIZE m); [done|]. injection Em as -> ->. unfold MAX_SIZE in *.
      assert (0 <= n); [|lia]. destruct (c <? 253); [injection E as -> _; destruct Hc; lia|].
      assert (forall k lo, ('(n, s) ← ser_readdata k s1; if n <? lo then throw NonCanonical else mret (n, s)) =
        inr (n, rest) -> 0 <= n) as Hk.
      { intros k lo Ek. apply bind_inr in Ek as ([m s3]&Er&Ek). apply ser_readdata_inv in Er as (_&Hm&_); [|done].
        destruct (m <? lo); [done|]. injection Ek as -> _. by destruct Hm. }
      destruct (c =? 253); [by eapply (Hk 2%nat)|]. destruct (c =? 254); [by eapply (Hk 4%nat)|by eapply (Hk 8%nat)]. }
    apply (ReadCompactSize_iff s n rest Hs Hn) in E as [? ->]. split; [lia|done].
  - intros [Hn ->]. apply ReadCompactSize_iff; [done|unfold MAX_SIZE in *; lia|]. split; [lia|done].
Qed.

Lemma read_add n m s :
  read (n + m) s = '(a, s) ← read n s; '(b, s) ← read m s; mret (a ++ b, s).
Proof.
  unfold read. destruct (Nat.leb_spec n (length s)); cbn [mbind result_bind].
  - rewrite length_drop. destruct (Nat.leb_spec m (length s - n)), (Nat.leb_spec (n + m) (length s)); try lia; [|done].
    cbn. by rewrite drop_drop, <- take_take_drop.
  - destruct (Nat.leb_spec (n + m) (length s)); [lia|done].
Qed.

(** The blocks together are one read. *)
Lemma read_blocks_read fuel nSize i v s :
  0 <= i <= nSize -> nSize - i <= 5000000 * Z.of_nat fuel ->
  read_blocks fuel nSize i v s = '(b, s) ← read (Z.to_nat (nSize - i)) s; mret (v ++ b, s).
Proof.
  revert i v s. induction fuel as [|fuel IH]; intros i v s Hi Hf; cbn [read_blocks].
  - destruct (Z.ltb_spec i nSize); [lia|]. replace (nSize - i) with 0 by lia.
    change (Z.to_nat 0) with 0%nat. unfold read. cbn [Nat.leb mbind result_bind take]. by rewrite app_nil_r, drop_0.
  - destruct (Z.ltb_spec i nSize).
    + change (1 + 4999999 / 1) with 5000000. set (blk := Z.min (nSize - i) 5000000).
      replace (Z.to_nat (nSize - i)) with (Z.to_nat blk + Z.to_nat (nSize - (i + blk)))%nat by lia.
      rewrite read_add. destruct (read (Z.to_nat blk) s) as [e|[b s']]; [done|]. cbn [mbind result_bind].
      rewrite IH by lia. destruct (read _ s') as [e|[c s'']]; [done|]. cbn. by rewrite app_assoc.
    + replace (nSize - i) with 0 by lia.
    change (Z.to_nat 0) with 0%nat. unfold read. cbn [Nat.leb mbind result_bind take]. by rewrite app_nil_r, drop_0.
Qed.

Lemma canonical_sized {T} (elems : Z -> list Z -> result (list T * list Z)) (ser : list T -> list Z) wf :
  (forall n, 0 <= n <= MAX_SIZE ->
     canonical (fun v => wf v /\ Z.of_nat (length v) = n) ser (elems n)) ->
  canonical (fun v => wf v /\ fits_size v) (fun v => WriteCompactSize (Z.of_nat (length v)) ++ ser v)
    (fun s => '(n, s) ← ReadCompactSize s; elems n s).
Proof.
  intros H s v rest Hs. rewrite (canonical_bind _ _ _ canonical_size Hs). split.
  - intros (n&r&Hn&->&Hr&E). apply H in E as [[Hw <-] ->]; [|done..]. unfold fits_size.
    rewrite <- app_assoc. split; [split; [done|lia]|done].
  - intros [[Hw Hf] ->]. unfold fits_size in Hf. exists (Z.of_nat (length v)), (ser v ++ rest).
    rewrite <- app_assoc in Hs. apply Forall_app in Hs as [_ Hs]. split_and!; [lia|lia|by rewrite <- app_assoc|done|].
    apply H; [lia|done|done].
Qed.

#[export] Instance canonical_bytes : Canonical (fun v => Forall byte v /\ fits_size v) Serialize_bytes Unserialize_bytes.
Proof.
  unfold Serialize_bytes, Unserialize_bytes.
  apply (canonical_sized (fun n => read_blocks (Z.to_nat (n / 5000000 + 1)) n 0 []) (fun v => v)).
  intros n Hn s v rest Hs. rewrite read_blocks_read; [|lia|].
  - rewrite (canonical_bind _ _ _ (canonical_array (Z.to_nat (n - 0))) Hs). unfold bytes_of_length. split.
    + intros (x&r&[Hx Hl]&->&_&[= <- <-]). split_and!; [done|lia|done].
    + intros [[Hv Hl] ->]. apply Forall_app in Hs as [_ Hs]. exists v, rest. split_and!; [done|lia|done..].
  - pose proof (Z.div_mod n 5000000 ltac:(lia)). pose proof (Z.mod_pos_bound n 5000000 ltac:(lia)).
    pose proof (Z.div_pos n 5000000 ltac:(lia)). lia.
Qed.

#[export] Instance canonical_string : Canonical (fun v => Forall byte v /\ fits_size v) Serialize_bytes Unserialize_string.
Proof.
  unfold Serialize_bytes, Unserialize_string.
  apply (canonical_sized (fun n s => if negb (n =? 0) then read (Z.to_nat n) s else mret ([], s)) (fun v => v)).
  intros n Hn s v rest Hs. destruct (Z.eqb_spec n 0) as [->|Hne]; cbn [negb].
  - split; [intros [= <- <-]; split_and!; [constructor|done|done]|].
    intros [[_ Hl] ->]. by destruct v.
  - rewrite (canonical_array (Z.to_nat n) s v rest Hs). unfold bytes_of_length.
    split; intros [[? ?] ?]; split_and!; (done || lia).
Qed.

Section vector.
Context {T : Type} {wf : T -> Prop} {Serialize : T -> list Z} {Unserialize : list Z -> result (T * list Z)}.
Context (HT : canonical wf Serialize Unserialize).

Lemma read_elements_canonical n v :
  forall s w rest, Forall byte s ->
  read_elements Unserialize n v s = inr (w, rest) <->
  exists u, w = v ++ u /\ Forall wf u /\ length u = n /\ s = concat (map Serialize u) ++ rest.
Proof.
  revert v. induction n as [|n IH]; intros v s w rest Hs; cbn [read_elements].
  - split; [intros [= <- <-]; exists []; by rewrite app_nil_r|]. intros (u&->&_&Hu&->).
    destruct u; [|done]. by rewrite app_nil_r.
  - rewrite (canonical_bind _ _ _ HT Hs). split.
    + intros (x&r&Hx&->&Hr&E). apply IH in E as (u&->&Hu&Hl&->); [|done]. exists (x :: u). cbn.
      rewrite <- !app_assoc. split_and!; [done|by apply Forall_cons_2|lia|done].
    + intros (u&->&Hu&Hl&->). destruct u as [|x u]; [done|]. apply Forall_cons_1 in Hu as [Hx Hu]. cbn in Hs |- *.
      rewrite <- app_assoc in Hs |- *. apply Forall_app in Hs as [_ Hs].
      exists x, (concat (map Serialize u) ++ rest). split_and!; [done..|]. apply IH; [done|].
      exists u. cbn in Hl. rewrite <- app_assoc. split_and!; [done|done|lia|done].
Qed.

Lemma read_elements_add n m v s :
  read_elements Unserialize (n + m) v s =
  '(v, s) ← read_elements Unserialize n v s; read_elements Unserialize m v s.
Proof.
  revert v s. induction n as [|n IH]; intros v s; [done|]. cbn [plus read_elements].
  destruct (Unserialize s) as [e|[x s']]; [done|]. cbn [mbind result_bind]. apply IH.
Qed.

Lemma read_chunks_elements per fuel nSize nMid v s :
  0 < per -> 0 <= nMid <= nSize -> nSize - nMid <= per * Z.of_nat fuel ->
  read_chunks Unserialize per fuel nSize nMid v s = read_elements Unserialize (Z.to_nat (nSize - nMid)) v s.
Proof.
  intros Hp. revert nMid v s. induction fuel as [|fuel IH]; intros nMid v s Hi Hf; cbn [read_chunks].
  - destruct (Z.ltb_spec nMid nSize); [lia|]. by replace (nSize - nMid) with 0 by lia.
  - destruct (Z.ltb_spec nMid nSize); [|by replace (nSize - nMid) with 0 by lia].
    rewrite Z.gtb_ltb. set (mid := if nSize <? nMid + per then nSize else nMid + per).
    assert (mid = Z.min nSize (nMid + per)) as Em by (unfold mid; destruct (Z.ltb_spec nSize (nMid + per)); lia).
    replace (Z.to_nat (nSize - nMid)) with (Z.to_nat (mid - nMid) + Z.to_nat (nSize - mid))%nat by lia.
    rewrite read_elements_add. destruct (read_elements _ (Z.to_nat (mid - nMid)) v s) as [e|[v' s']]; [done|].
    cbn [mbind result_bind]. apply IH; lia.
Qed.

Lemma canonical_vector per :
  0 < per ->
  canonical (fun v => Forall wf v /\ fits_size v) (Serialize_vector Serialize) (Unserialize_vector Unserialize per).
Proof.
  intros Hp. unfold Serialize_vector, Unserialize_vector.
  apply (canonical_sized (fun n => read_chunks Unserialize per (Z.to_nat (n / per + 1)) n 0 [])
           (fun v => concat (map Serialize v))).
  intros n Hn s v rest Hs. rewrite read_chunks_elements; [|done|lia|].
  - rewrite read_elements_canonical by done. split.
    + intros (u&->&Hu&Hl&->). split_and!; [done|cbn; lia|done].
    + intros [[Hv Hl] ->]. exists v. split_and!; [done|done|lia|done].
  - pose proof (Z.div_mod n per ltac:(lia)). pose proof (Z.mod_pos_bound n per ltac:(lia)).
    pose proof (Z.div_pos n per ltac:(lia)). nia.
Qed.
End vector.
