(* ===== verification/Transaction.v ===== *)
(** Transactions ([src/src/primitives/transaction.h], [transaction.cpp]): the data, the
    basic and the extended serialization, hashes, weights and values.

    A [CTransaction] caches its hash; every constructor and every deserialization updates it,
    and here [GetHash] computes it. *)

From S2P Require Import Prelude SphTypes Hasher Sha2Spec Sha256 Hash Serialize Codec Script.

#[local] Open Scope c_scope.

(** ** Data *)

(** [uint256]: 32 bytes *)
Abbreviation uint256 := (list Z).
Definition hash_null : uint256 := replicate 32 0.

Record COutPoint := { hash : uint256; n : Z }.

Definition COutPoint_IsNull (o : COutPoint) : bool := bool_decide (hash o = hash_null) && (n o =? 2 ^ 32 - 1).

Record CTxIn := { prevout : COutPoint; scriptSig : CScript; nSequence : Z }.
Record CTxOut := { nValue : Z; scriptPubKey : CScript }.

(** Constants of [CTxIn], for relative lock times *)
Definition SEQUENCE_FINAL : Z := 0xffffffff.
Definition SEQUENCE_LOCKTIME_TYPE_FLAG : Z := 1 << 22.
Definition SEQUENCE_LOCKTIME_MASK : Z := 0x0000ffff.

#[export] Instance COutPoint_eq_dec : EqDecision COutPoint.
Proof. solve_decision. Defined.
#[export] Instance CTxIn_eq_dec : EqDecision CTxIn.
Proof. solve_decision. Defined.
#[export] Instance CTxOut_eq_dec : EqDecision CTxOut.
Proof. solve_decision. Defined.

(** [CTxOut::SetNull] *)
Definition CTxOut_null : CTxOut := {| nValue := -1; scriptPubKey := [] |}.
Definition CTxOut_IsNull (o : CTxOut) : bool := nValue o =? -1.
Definition CTxOut_IsEmpty (o : CTxOut) : bool := (nValue o =? 0) && (length (scriptPubKey o) =? 0)%nat.

(** [CScriptWitness]: the elements of the stack *)
Abbreviation CScriptWitness := (list (list Z)).
Definition CTxInWitness_IsNull (w : CScriptWitness) : bool := (length w =? 0)%nat.
Definition CTxWitness_IsNull (wit : list CScriptWitness) : bool := forallb CTxInWitness_IsNull wit.

Record CTransaction := {
  nVersion : Z; nTime : Z; vin : list CTxIn; vout : list CTxOut; wit : list CScriptWitness;
  nLockTime : Z; strDZeel : list Z }.

#[export] Instance CTransaction_eq_dec : EqDecision CTransaction.
Proof. solve_decision. Defined.

Definition CURRENT_VERSION : Z := 1.
(** [CTransaction()] *)
Definition new_CTransaction : CTransaction :=
  {| nVersion := CURRENT_VERSION; nTime := 0; vin := []; vout := []; wit := []; nLockTime := 0; strDZeel := [] |}.

Definition CTransaction_IsNull (tx : CTransaction) : bool := (length (vin tx) =? 0)%nat && (length (vout tx) =? 0)%nat.

Definition IsCoinBase (tx : CTransaction) : bool :=
  match vin tx with [i] => COutPoint_IsNull (prevout i) | _ => false end.

Definition IsCoinStake (tx : CTransaction) : bool :=
  match vin tx with
  | i :: _ =>
      negb (COutPoint_IsNull (prevout i)) && (2 <=? length (vout tx))%nat &&
      match vout tx with o :: _ => CTxOut_IsEmpty o | [] => false end
  | [] => false
  end.

(** ** Serialization *)

Definition SERIALIZE_TRANSACTION_NO_WITNESS : Z := 0x40000000.
Definition WITNESS_SCALE_FACTOR : Z := 4.

Definition COutPoint_Serialize (o : COutPoint) : list Z := hash o ++ ser_writedata32 (n o).
Definition COutPoint_Unserialize (s : list Z) : result (COutPoint * list Z) :=
  '(h, s) ← read 32 s;
  '(k, s) ← ser_readdata32 s;
  mret ({| hash := h; n := k |}, s).

Definition CTxIn_Serialize (i : CTxIn) : list Z :=
  COutPoint_Serialize (prevout i) ++ Serialize_bytes (scriptSig i) ++ ser_writedata32 (nSequence i).
Definition CTxIn_Unserialize (s : list Z) : result (CTxIn * list Z) :=
  '(o, s) ← COutPoint_Unserialize s;
  '(sig, s) ← Unserialize_bytes s;
  '(q, s) ← ser_readdata32 s;
  mret ({| prevout := o; scriptSig := sig; nSequence := q |}, s).

Definition CTxOut_Serialize (o : CTxOut) : list Z :=
  Serialize_int64 (nValue o) ++ Serialize_bytes (scriptPubKey o).
Definition CTxOut_Unserialize (s : list Z) : result (CTxOut * list Z) :=
  '(v, s) ← Unserialize_int64 s;
  '(pk, s) ← Unserialize_bytes s;
  mret ({| nValue := v; scriptPubKey := pk |}, s).

(** How many elements a vector is enlarged by at a time, [5000000 / sizeof(T)], depends on the
    platform. *)
Class Platform := {
  per_CTxIn : Z; per_CTxOut : Z; per_vector : Z;
  per_CTxIn_pos : 0 < per_CTxIn; per_CTxOut_pos : 0 < per_CTxOut; per_vector_pos : 0 < per_vector }.

Definition Serialize_vin : list CTxIn -> list Z := Serialize_vector CTxIn_Serialize.
Definition Unserialize_vin `{Platform} : list Z -> result (list CTxIn * list Z) :=
  Unserialize_vector CTxIn_Unserialize per_CTxIn.
Definition Serialize_vout : list CTxOut -> list Z := Serialize_vector CTxOut_Serialize.
Definition Unserialize_vout `{Platform} : list Z -> result (list CTxOut * list Z) :=
  Unserialize_vector CTxOut_Unserialize per_CTxOut.
Definition CTxInWitness_Serialize : CScriptWitness -> list Z := Serialize_vector Serialize_bytes.
Definition CTxInWitness_Unserialize `{Platform} : list Z -> result (CScriptWitness * list Z) :=
  Unserialize_vector Unserialize_bytes per_vector.

(** [vtxinwit.resize(k)] *)
Definition resize_wit (w : list CScriptWitness) (k : nat) : list CScriptWitness :=
  take k w ++ replicate (k - length w) [].

(** [CTxWitness]: an entry for each input, without their number *)
Definition CTxWitness_Serialize (w : list CScriptWitness) : option (list Z) :=
  if CTxWitness_IsNull w then None else Some (concat (map CTxInWitness_Serialize w)).
Definition CTxWitness_Unserialize `{Platform} (k : nat) (s : list Z) : result (list CScriptWitness * list Z) :=
  '(w, s) ← read_elements CTxInWitness_Unserialize k [] s;
  if CTxWitness_IsNull w then throw SuperfluousWitness else mret (w, s).

Definition with_wit (tx : CTransaction) (w : list CScriptWitness) : CTransaction :=
  {| nVersion := nVersion tx; nTime := nTime tx; vin := vin tx; vout := vout tx; wit := w;
     nLockTime := nLockTime tx; strDZeel := strDZeel tx |}.

Definition no_witness (nVersion : Z) : bool := negb (nVersion .& SERIALIZE_TRANSACTION_NO_WITNESS =? 0).

(** Writing: [None] is a failed assertion or an exception. Writing a witness also enlarges it
    to the number of inputs. *)
Definition SerializeTransaction (tx : CTransaction) (ver : Z) : option (list Z * CTransaction) :=
  if (length (vin tx) <? length (wit tx))%nat then None
  else
    let flags := if negb (no_witness ver) && negb (CTxWitness_IsNull (wit tx)) then 1 else 0 in
    let tx' := if flags =? 1 then with_wit tx (resize_wit (wit tx) (length (vin tx))) else tx in
    w ← (if flags =? 1 then CTxWitness_Serialize (wit tx') else Some []);
    Some (Serialize_int32 (nVersion tx) ++ ser_writedata32 (nTime tx) ++
          (if negb (flags =? 0) then Serialize_vin [] ++ ser_writedata8 flags else []) ++
          Serialize_vin (vin tx) ++ Serialize_vout (vout tx) ++ w ++
          ser_writedata32 (nLockTime tx) ++
          (if nVersion tx >=? 2 then Serialize_bytes (strDZeel tx) else []), tx').

(** Reading into the object [prev] *)
Definition UnserializeTransaction `{Platform} (prev : CTransaction) (ver : Z) (s : list Z)
    : result (CTransaction * list Z) :=
  '(v, s) ← Unserialize_int32 s;
  '(t, s) ← ser_readdata32 s;
  '(ins, s) ← Unserialize_vin s;
  '(flags, ins, outs, s) ←
    (if (length ins =? 0)%nat && negb (no_witness ver) then
       '(flags, s) ← ser_readdata8 s;
       if negb (flags =? 0) then
         '(ins, s) ← Unserialize_vin s;
         '(outs, s) ← Unserialize_vout s;
         mret (flags, ins, outs, s)
       else mret (flags, ins, [], s)
     else
       '(outs, s) ← Unserialize_vout s;
       mret (0, ins, outs, s));
  '(flags, w, s) ←
    (if negb (flags .& 1 =? 0) && negb (no_witness ver) then
       '(w, s) ← CTxWitness_Unserialize (length ins) s;
       mret (flags ⊕ 1, w, s)
     else mret (flags, [], s));
  if negb (flags =? 0) then throw UnknownOptionalData
  else
    '(lock, s) ← ser_readdata32 s;
    '(zeel, s) ← (if v >=? 2 then Unserialize_string s else mret (strDZeel prev, s));
    mret ({| nVersion := v; nTime := t; vin := ins; vout := outs; wit := w; nLockTime := lock; strDZeel := zeel |}, s).

(** ** Hashes, sizes and values *)

(** [SerializeHash] of the transaction, with [SERIALIZE_TRANSACTION_NO_WITNESS]; [mem] is the
    memory of the hash object. *)
Definition GetHash (mem : list Z) (tx : CTransaction) : option uint256 :=
  '(b, _) ← SerializeTransaction tx SERIALIZE_TRANSACTION_NO_WITNESS; Hash1 mem b.
Definition GetWitnessHash (mem : list Z) (tx : CTransaction) : option uint256 :=
  '(b, _) ← SerializeTransaction tx 0; Hash1 mem b.

(** The size computer of [::GetSerializeSize] counts the bytes that writing gives. *)
Definition GetSerializeSize (tx : CTransaction) (ver : Z) : option Z :=
  '(b, _) ← SerializeTransaction tx ver; Some (Z.of_nat (length b)).

Definition GetTransactionWeight (tx : CTransaction) : option Z :=
  base ← GetSerializeSize tx SERIALIZE_TRANSACTION_NO_WITNESS;
  total ← GetSerializeSize tx 0;
  Some (base * (WITNESS_SCALE_FACTOR - 1) + total).

(** The loop of [CalculateModifiedSize] over the inputs *)
Definition modified_size (ins : list CTxIn) (nTxSize : Z) : Z :=
  foldl (fun size i =>
    let offset := 41 + Z.min 110 (u32 (vsize (scriptSig i))) in
    if size >? offset then size - offset else size) nTxSize ins.

Definition CalculateModifiedSize (tx : CTransaction) (nTxSize : Z) : option Z :=
  size ← (if nTxSize =? 0
          then w ← GetTransactionWeight tx; Some (u32 ((w + WITNESS_SCALE_FACTOR - 1) / WITNESS_SCALE_FACTOR))
          else Some nTxSize);
  Some (modified_size (vin tx) size).

Definition COIN : Z := 100000000.
Definition MAX_MONEY : Z := 31557600 * COIN.
Definition MoneyRange (v : Z) : bool := (v >=? 0) && (v <=? MAX_MONEY).

(** The loop of [GetValueOut]: [None] is a signed overflow, [Some None] an exception. *)
Fixpoint GetValueOut_loop (outs : list CTxOut) (nValueOut : Z) : option (option Z) :=
  match outs with
  | [] => Some (Some nValueOut)
  | o :: outs =>
      let v := nValueOut + nValue o in
      if int64_range v then
        if negb (MoneyRange (nValue o)) || negb (MoneyRange v) then Some None else GetValueOut_loop outs v
      else None
  end.
Definition GetValueOut (tx : CTransaction) : option (option Z) := GetValueOut_loop (vout tx) 0.

(** ** The formats are canonical *)

Definition COutPoint_ok (o : COutPoint) : Prop := bytes_of_length 32 (hash o) /\ word 32 (n o).
Definition script_ok (s : CScript) : Prop := Forall byte s /\ fits_size s.
Definition CTxIn_ok (i : CTxIn) : Prop := COutPoint_ok (prevout i) /\ script_ok (scriptSig i) /\ word 32 (nSequence i).
Definition CTxOut_ok (o : CTxOut) : Prop := int_range 64 (nValue o) /\ script_ok (scriptPubKey o).
Definition witness_ok (w : CScriptWitness) : Prop := Forall script_ok w /\ fits_size w.

#[export] Instance canonical_COutPoint : Canonical COutPoint_ok COutPoint_Serialize COutPoint_Unserialize.
Proof.
  intros s o rest Hs. unfold COutPoint_Unserialize, COutPoint_Serialize. split.
  - intros E. read_fields. injection E as <- <-. by rewrite <- app_assoc.
  - destruct o as [h k]. intros [[Hh Hk] ->]. cbn [hash n] in *. rewrite <- app_assoc in Hs. by write_fields.
Qed.

#[export] Instance canonical_CTxIn : Canonical CTxIn_ok CTxIn_Serialize CTxIn_Unserialize.
Proof.
  intros s i rest Hs. unfold CTxIn_Unserialize, CTxIn_Serialize. split.
  - intros E. read_fields. injection E as <- <-. by rewrite <- !app_assoc.
  - destruct i as [o sig q]. intros [(Ho&Hsig&Hq) ->]. cbn [prevout scriptSig nSequence] in *.
    rewrite <- !app_assoc in Hs. by write_fields.
Qed.

#[export] Instance canonical_CTxOut : Canonical CTxOut_ok CTxOut_Serialize CTxOut_Unserialize.
Proof.
  intros s o rest Hs. unfold CTxOut_Unserialize, CTxOut_Serialize. split.
  - intros E. read_fields. injection E as <- <-. by rewrite <- app_assoc.
  - destruct o as [v pk]. intros [[Hv Hpk] ->]. cbn [nValue scriptPubKey] in *. rewrite <- app_assoc in Hs. by write_fields.
Qed.

Section codec.
Context `{platform : Platform}.

#[export] Instance canonical_vin :
  Canonical (fun v => Forall CTxIn_ok v /\ fits_size v) Serialize_vin Unserialize_vin.
Proof. apply (canonical_vector canonical_CTxIn), per_CTxIn_pos. Qed.

#[export] Instance canonical_vout :
  Canonical (fun v => Forall CTxOut_ok v /\ fits_size v) Serialize_vout Unserialize_vout.
Proof. apply (canonical_vector canonical_CTxOut), per_CTxOut_pos. Qed.

#[export] Instance canonical_CTxInWitness :
  Canonical witness_ok CTxInWitness_Serialize CTxInWitness_Unserialize.
Proof. apply (canonical_vector canonical_bytes), per_vector_pos. Qed.

#[export] Instance canonical_CTxWitness k :
  Canonical (fun w => Forall witness_ok w /\ length w = k /\ CTxWitness_IsNull w = false)
    (fun w => concat (map CTxInWitness_Serialize w)) (CTxWitness_Unserialize k).
Proof.
  intros s w rest Hs. unfold CTxWitness_Unserialize. rewrite bind_inr. split.
  - intros ([w' r]&E&Ew). apply (read_elements_canonical canonical_CTxInWitness) in E as (u&->&Hu&Hl&->); [|done].
    cbn [app] in Ew. destruct (CTxWitness_IsNull u) eqn:En; [done|]. by injection Ew as <- <-.
  - intros [(Hw&Hl&Hn) ->]. exists (w, rest). rewrite Hn. split; [|done].
    apply (read_elements_canonical canonical_CTxInWitness); [done|]. by exists w.
Qed.

(** The transactions that reading into [prev] can give: witnesses have an entry for each
    input, one of them not empty; [strDZeel] is left alone below version 2; and, where
    witnesses are read, a transaction without inputs has no outputs. *)
Record tx_read (prev : CTransaction) (ver : Z) (tx : CTransaction) : Prop := {
  read_nVersion : int_range 32 (nVersion tx);
  read_nTime : word 32 (nTime tx);
  read_vin : Forall CTxIn_ok (vin tx) /\ fits_size (vin tx);
  read_vout : Forall CTxOut_ok (vout tx) /\ fits_size (vout tx);
  read_wit : wit tx = [] \/
    no_witness ver = false /\ Forall witness_ok (wit tx) /\ length (wit tx) = length (vin tx) /\
    CTxWitness_IsNull (wit tx) = false;
  read_nLockTime : word 32 (nLockTime tx);
  read_strDZeel : if nVersion tx >=? 2 then script_ok (strDZeel tx) else strDZeel tx = strDZeel prev;
  read_empty : no_witness ver = false -> vin tx = [] -> vout tx = [];
}.

(** The end of the format *)
Definition tail_bytes (v lock : Z) (zeel : list Z) : list Z :=
  ser_writedata32 lock ++ (if v >=? 2 then Serialize_bytes zeel else []).

Lemma SerializeTransaction_basic tx ver :
  wit tx = [] ->
  SerializeTransaction tx ver =
    Some (Serialize_int32 (nVersion tx) ++ ser_writedata32 (nTime tx) ++ Serialize_vin (vin tx) ++
          Serialize_vout (vout tx) ++ tail_bytes (nVersion tx) (nLockTime tx) (strDZeel tx), tx).
Proof. intros Hw. unfold SerializeTransaction. rewrite Hw. cbn [length Nat.ltb]. by rewrite andb_false_r. Qed.

Lemma resize_wit_id w : resize_wit w (length w) = w.
Proof. unfold resize_wit. by rewrite Nat.sub_diag, firstn_all, app_nil_r. Qed.

Lemma SerializeTransaction_extended tx ver :
  no_witness ver = false -> CTxWitness_IsNull (wit tx) = false -> length (wit tx) = length (vin tx) ->
  SerializeTransaction tx ver =
    Some (Serialize_int32 (nVersion tx) ++ ser_writedata32 (nTime tx) ++ Serialize_vin [] ++ ser_writedata8 1 ++
          Serialize_vin (vin tx) ++ Serialize_vout (vout tx) ++ concat (map CTxInWitness_Serialize (wit tx)) ++
          tail_bytes (nVersion tx) (nLockTime tx) (strDZeel tx), tx).
Proof.
  intros Hv Hn Hl. unfold SerializeTransaction. rewrite Hl, Nat.ltb_irrefl, Hv, Hn. cbn [negb andb].
  rewrite <- Hl, resize_wit_id. cbn [Z.eqb Pos.eqb with_wit wit]. unfold CTxWitness_Serialize. rewrite Hn.
  cbn [mbind option_bind negb]. rewrite <- !app_assoc. by destruct tx.
Qed.

(** Reading the end *)
Lemma read_tail prev v t ins outs w s tx rest :
  Forall byte s ->
  ('(lock, s) ← ser_readdata32 s;
   '(zeel, s) ← (if v >=? 2 then Unserialize_string s else mret (strDZeel prev, s));
   mret ({| nVersion := v; nTime := t; vin := ins; vout := outs; wit := w; nLockTime := lock; strDZeel := zeel |}, s))
    = inr (tx, rest) <->
  exists lock zeel,
    tx = {| nVersion := v; nTime := t; vin := ins; vout := outs; wit := w; nLockTime := lock; strDZeel := zeel |} /\
    word 32 lock /\ (if v >=? 2 then script_ok zeel else zeel = strDZeel prev) /\ s = tail_bytes v lock zeel ++ rest.
Proof.
  intros Hs. unfold tail_bytes. destruct (v >=? 2).
  - split.
    + intros E. read_fields. injection E as <- <-. exists x, x0. by rewrite <- app_assoc.
    + intros (lock&zeel&->&Hl&Hz&->). rewrite <- app_assoc in Hs. by write_fields.
  - split.
    + intros E. read_fields. injection E as <- <-. exists x, (strDZeel prev). by rewrite app_nil_r.
    + intros (lock&zeel&->&Hl&->&->). rewrite app_nil_r in Hs |- *. by write_fields.
Qed.

(** What reading accepts is what writing gives. *)
Lemma read_is_written prev ver s tx rest :
  Forall byte s -> UnserializeTransaction prev ver s = inr (tx, rest) ->
  tx_read prev ver tx /\ exists b, SerializeTransaction tx ver = Some (b, tx) /\ s = b ++ rest.
Proof.
  intros Hs E. unfold UnserializeTransaction in E. read_fields.
  rename x into v, x0 into t, x1 into ins.
  apply bind_inr in E as ([[[flags ins'] outs] s']&E1&E).
  apply bind_inr in E as ([[flags' w] s'']&E2&E).
  destruct (Z.eqb_spec flags' 0) as [->|]; [|done]. cbn [negb] in E.
  destruct ((length ins =? 0)%nat && negb (no_witness ver)) eqn:Ec.
  - apply andb_true_iff in Ec as [Ei%Nat.eqb_eq Ev%negb_true_iff]. destruct ins; [|done].
    read_fields. rename x into fl. destruct (Z.eqb_spec fl 0) as [->|Hfl]; cbn [negb] in E1.
    + injection E1 as <- <- <- <-. cbn [Z.land Z.eqb negb andb] in E2. injection E2 as <- <-.
      apply read_tail in E as (lock&zeel&->&Hl&Hz&->); [|done]. split.
      * split; try done; by left.
      * eexists. split; [by apply SerializeTransaction_basic|]. cbn. by rewrite <- !app_assoc.
    + read_fields. injection E1 as <- <- <- <-. rename x into ins, x0 into outs'. rewrite Ev in E2. cbn [negb] in E2.
      rewrite andb_true_r in E2. destruct (negb (fl .& 1 =? 0)) eqn:Ef.
      2: { injection E2 as E2 _ _. done. }
      read_fields. injection E2 as E2 <- <-. apply Z.lxor_eq in E2 as ->. destruct Hx5 as (Hw&Hwl&Hn).
      apply read_tail in E as (lock&zeel&->&Hl&Hz&->); [|done]. split.
      * split; try done; [by right|]. cbn [vin]. intros _ Hi. rewrite Hi in Hwl. by destruct x.
      * eexists. split; [by apply SerializeTransaction_extended|]. cbn [nVersion nTime vin vout wit nLockTime strDZeel].
        by rewrite <- !app_assoc.
  - read_fields. injection E1 as <- <- <- <-. cbn [Z.land Z.eqb negb andb] in E2. injection E2 as <- <-.
    apply read_tail in E as (lock&zeel&->&Hl&Hz&->); [|done]. split.
    + split; try done; [by left|]. cbn [vin vout]. intros Hv ->. by rewrite Hv in Ec.
    + eexists. split; [by apply SerializeTransaction_basic|]. cbn [nVersion nTime vin vout wit nLockTime strDZeel].
      by rewrite <- !app_assoc.
Qed.

Lemma Some_fst_inj {A B} (a b : A) (x y : B) : Some (a, x) = Some (b, y) -> a = b.
Proof. congruence. Qed.

Lemma written_is_read prev ver tx rest b :
  tx_read prev ver tx -> SerializeTransaction tx ver = Some (b, tx) -> Forall byte (b ++ rest) ->
  UnserializeTransaction prev ver (b ++ rest) = inr (tx, rest).
Proof.
  destruct tx as [v t ins outs w lock zeel]. intros [Hv Ht Hi Ho Hw Hl Hz He].
  cbn [nVersion nTime vin vout wit nLockTime strDZeel] in *. unfold UnserializeTransaction.
  destruct Hw as [->|(Hver&Hw&Hwl&Hn)].
  - rewrite SerializeTransaction_basic by done. cbn [nVersion nTime vin vout wit nLockTime strDZeel].
    intros <-%Some_fst_inj Hs. rewrite <- !app_assoc in Hs. write_fields.
    destruct ((length ins =? 0)%nat && negb (no_witness ver)) eqn:Ec.
    + apply andb_true_iff in Ec as [Ei%Nat.eqb_eq Ev%negb_true_iff]. destruct ins; [|done].
      rewrite He in Hs |- * by done. change (Serialize_vout []) with (ser_writedata8 0) in Hs |- *.
      rewrite bind_inr. eexists (0, [], [], tail_bytes v lock zeel ++ rest). split.
      { apply written_field; [done|done|done]. }
      apply Forall_app in Hs as [_ Hs]. cbn [Z.land Z.eqb negb andb mbind result_bind mret result_ret].
      apply read_tail; [done|]. by exists lock, zeel.
    + rewrite bind_inr. eexists (0, ins, outs, tail_bytes v lock zeel ++ rest). split.
      { apply written_field; [done|done|done]. }
      apply Forall_app in Hs as [_ Hs]. cbn [Z.land Z.eqb negb andb mbind result_bind mret result_ret].
      apply read_tail; [done|]. by exists lock, zeel.
  - rewrite SerializeTransaction_extended by done. cbn [nVersion nTime vin vout wit nLockTime strDZeel].
    intros <-%Some_fst_inj Hs. rewrite <- !app_assoc in Hs. write_fields.
    rewrite Hver. cbn [length Nat.eqb negb andb].
    rewrite bind_inr. eexists (1, ins, outs, concat (map CTxInWitness_Serialize w) ++ tail_bytes v lock zeel ++ rest). split.
    { apply written_field; [done|done|]. apply Forall_app in Hs as [_ Hs]. cbn [Z.eqb negb]. by write_fields. }
    apply Forall_app in Hs as [_ Hs]. apply Forall_app in Hs as [_ Hs]. apply Forall_app in Hs as [_ Hs].
    rewrite bind_inr. eexists (0, w, tail_bytes v lock zeel ++ rest). split.
    { change (negb (1 .& 1 =? 0) && true) with true. cbn iota. by write_fields. }
    apply Forall_app in Hs as [_ Hs]. apply read_tail; [done|]. by exists lock, zeel.
Qed.
End codec.

(** C28: The serialization of transactions is canonical: from any stream of bytes, in either
    mode, deserialization returns a transaction and the rest exactly when the stream starts
    with the serialization of that transaction, which then has the well-formed fields of
    [tx_read]. So every transaction has one encoding, basic or extended, and each is read
    back. *)
Theorem transaction_codec `{platform : Platform} (prev tx : CTransaction) (ver : Z) (s rest : list Z) :
  Forall byte s ->
  UnserializeTransaction prev ver s = inr (tx, rest) <->
  tx_read prev ver tx /\ exists b, SerializeTransaction tx ver = Some (b, tx) /\ s = b ++ rest.
Proof.
  intros Hs. split; [by apply read_is_written|]. intros (Htx&b&Hb&->). by apply written_is_read.
Qed.

#[export] Instance platform64 : Platform.
Proof. refine {| per_CTxIn := 5000000 / 104; per_CTxOut := 5000000 / 40; per_vector := 5000000 / 24 |}; done. Defined.

(** A transaction with one input, one output and a witness *)
Definition sample_tx : CTransaction :=
  {| nVersion := 2; nTime := 7;
     vin := [{| prevout := {| hash := replicate 32 5; n := 1 |}; scriptSig := [81]; nSequence := 9 |}];
     vout := [{| nValue := 600; scriptPubKey := [81; 82] |}]; wit := [[[1; 2]; []]]; nLockTime := 11;
     strDZeel := [104; 105] |}.

(** A decidable property of a list holds of its elements. *)
Lemma Forall_by {A} (P : A -> Prop) `{!forall x, Decision (P x)} l : forallb (fun x => bool_decide (P x)) l = true -> Forall P l.
Proof.
  intros Hall. apply list.Forall_forall. intros x Hx. rewrite forallb_forall in Hall. apply list_elem_of_In in Hx.
  apply (proj1 (bool_decide_eq_true (P x))). by apply Hall.
Qed.

Lemma transaction_codec_witness :
  exists s, SerializeTransaction sample_tx 0 = Some (s, sample_tx) /\
    UnserializeTransaction new_CTransaction 0 (s ++ [3]) = inr (sample_tx, [3]).
Proof.
  eexists. split; [by vm_compute|].
  apply (transaction_codec new_CTransaction sample_tx 0).
  - apply (Forall_by byte). by vm_compute.
  - split; [|eexists; split; [by vm_compute|done]].
    assert (forall l : list Z, forallb (fun x => bool_decide (byte x)) l = true -> Forall byte l) as Hb
      by (intros l; apply (Forall_by byte)).
    split; cbn [nVersion nTime vin vout wit nLockTime strDZeel sample_tx]; try done.
    + split; [|by vm_compute]. apply Forall_singleton. split_and!; [split|split|];
        cbn [prevout hash n scriptSig nSequence]; try (by vm_compute); try (apply Hb; by vm_compute). split; [apply Hb|]; by vm_compute.
    + split; [|by vm_compute]. apply Forall_singleton. split; [by vm_compute|]. split; [apply Hb|]; by vm_compute.
    + right. split_and!; [done| |done|done]. apply Forall_singleton. split; [|by vm_compute].
      repeat (apply Forall_cons_2; [split; [apply Hb|]; by vm_compute|]). constructor.
    + split; [apply Hb|]; by vm_compute.
Defined.

(** ** Transaction hashes *)

(** A transaction whose fields are in the ranges of their types, as [CheckTransaction] and
    deserialization leave it *)
Record tx_ok (tx : CTransaction) : Prop := {
  ok_nVersion : int_range 32 (nVersion tx);
  ok_nTime : word 32 (nTime tx);
  ok_vin : Forall CTxIn_ok (vin tx) /\ fits_size (vin tx);
  ok_vout : Forall CTxOut_ok (vout tx) /\ fits_size (vout tx);
  ok_wit : (length (wit tx) <= length (vin tx))%nat;
  ok_nLockTime : word 32 (nLockTime tx);
  ok_strDZeel : script_ok (strDZeel tx);
}.

(** What the transaction hash commits to: all but the witness, and the text only from version
    2 on. *)
Definition committed (tx : CTransaction) : CTransaction :=
  {| nVersion := nVersion tx; nTime := nTime tx; vin := vin tx; vout := vout tx; wit := [];
     nLockTime := nLockTime tx; strDZeel := if nVersion tx >=? 2 then strDZeel tx else [] |}.

(** The basic serialization *)
Definition tx_bytes (tx : CTransaction) : list Z :=
  Serialize_int32 (nVersion tx) ++ ser_writedata32 (nTime tx) ++ Serialize_vin (vin tx) ++
  Serialize_vout (vout tx) ++ tail_bytes (nVersion tx) (nLockTime tx) (strDZeel tx).

Lemma SerializeTransaction_no_witness tx :
  (length (wit tx) <= length (vin tx))%nat ->
  SerializeTransaction tx SERIALIZE_TRANSACTION_NO_WITNESS = Some (tx_bytes tx, tx).
Proof.
  intros Hw. unfold SerializeTransaction. destruct (Nat.ltb_spec (length (vin tx)) (length (wit tx))); [lia|].
  change (no_witness SERIALIZE_TRANSACTION_NO_WITNESS) with true. cbn [negb andb Z.eqb mbind option_bind].
  by rewrite app_nil_l.
Qed.

Lemma committed_bytes tx : tx_bytes (committed tx) = tx_bytes tx.
Proof. unfold tx_bytes, committed, tail_bytes. cbn [nVersion nTime vin vout nLockTime strDZeel]. by destruct (nVersion tx >=? 2). Qed.

(** Writing gives bytes. *)
Lemma WriteCompactSize_bytes k : Forall byte (WriteCompactSize k).
Proof.
  unfold WriteCompactSize, ser_writedata8, ser_writedata16, ser_writedata32, ser_writedata64.
  assert (forall c l, Forall byte l -> Forall byte ([uchar c] ++ l)) as Hc
    by (intros c l Hl; apply Forall_app; split; [apply Forall_singleton, uchar_byte|done]).
  repeat case_match; [apply Forall_singleton, uchar_byte|apply Hc, store_le_bytes..].
Qed.

Lemma Serialize_bytes_bytes v : Forall byte v -> Forall byte (Serialize_bytes v).
Proof. intros Hv. apply Forall_app. split; [apply WriteCompactSize_bytes|done]. Qed.

Lemma Serialize_vector_bytes {T} (ser : T -> list Z) v :
  Forall (fun x => Forall byte (ser x)) v -> Forall byte (Serialize_vector ser v).
Proof.
  intros Hv. apply Forall_app. split; [apply WriteCompactSize_bytes|].
  induction Hv as [|x v Hx _ IH]; [constructor|]. cbn. by apply Forall_app.
Qed.

Lemma CTxIn_bytes i : CTxIn_ok i -> Forall byte (CTxIn_Serialize i).
Proof.
  intros ([[Hh _] _]&[Hs _]&_). unfold CTxIn_Serialize, COutPoint_Serialize. rewrite !Forall_app.
  split_and!; [done|apply store_le_bytes|by apply Serialize_bytes_bytes|apply store_le_bytes].
Qed.

Lemma CTxOut_bytes o : CTxOut_ok o -> Forall byte (CTxOut_Serialize o).
Proof. intros [_ [Hs _]]. apply Forall_app. split; [apply store_le_bytes|by apply Serialize_bytes_bytes]. Qed.

Lemma tx_bytes_bytes tx : tx_ok tx -> Forall byte (tx_bytes tx).
Proof.
  intros [_ _ [Hi _] [Ho _] _ _ [Hz _]]. unfold tx_bytes, tail_bytes. rewrite !Forall_app.
  split_and!; try apply store_le_bytes.
  - apply Serialize_vector_bytes. eapply Forall_impl; [|exact Hi]. apply CTxIn_bytes.
  - apply Serialize_vector_bytes. eapply Forall_impl; [|exact Ho]. apply CTxOut_bytes.
  - case_match; [by apply Serialize_bytes_bytes|constructor].
Qed.

(** The bytes are few enough to be hashed. *)
Lemma length_WriteCompactSize k : (length (WriteCompactSize k) <= 9)%nat.
Proof. unfold WriteCompactSize. repeat case_match; cbn; lia. Qed.

Lemma length_Serialize_bytes v : fits_size v -> Z.of_nat (length (Serialize_bytes v)) <= 2 ^ 25 + 9.
Proof.
  unfold fits_size, MAX_SIZE, Serialize_bytes. intros Hv. rewrite length_app.
  pose proof (length_WriteCompactSize (Z.of_nat (length v))). lia.
Qed.

Lemma length_Serialize_vector {T} (ser : T -> list Z) v :
  Forall (fun x => Z.of_nat (length (ser x)) <= 2 ^ 26) v -> fits_size v ->
  Z.of_nat (length (Serialize_vector ser v)) <= 2 ^ 52.
Proof.
  intros Hv Hf. unfold Serialize_vector. rewrite length_app. pose proof (length_WriteCompactSize (Z.of_nat (length v))).
  assert (Z.of_nat (length (concat (map ser v))) <= 2 ^ 26 * Z.of_nat (length v)) as Hc.
  { clear Hf H. induction Hv as [|x v Hx _ IH]; [done|]. cbn [map concat length]. rewrite length_app. lia. }
  unfold fits_size, MAX_SIZE in Hf. lia.
Qed.

Lemma length_Serialize_vin ins :
  Forall CTxIn_ok ins -> fits_size ins -> Z.of_nat (length (Serialize_vin ins)) <= 2 ^ 52.
Proof.
  intros Hi. apply length_Serialize_vector. eapply Forall_impl; [|exact Hi]. intros i ([[_ Hh] _]&[_ Hs]&_).
  unfold CTxIn_Serialize, COutPoint_Serialize. rewrite !length_app, Hh. apply length_Serialize_bytes in Hs.
  unfold ser_writedata32. rewrite !length_store_le. lia.
Qed.

Lemma length_Serialize_vout outs :
  Forall CTxOut_ok outs -> fits_size outs -> Z.of_nat (length (Serialize_vout outs)) <= 2 ^ 52.
Proof.
  intros Ho. apply length_Serialize_vector. eapply Forall_impl; [|exact Ho]. intros o [_ [_ Hs]].
  unfold CTxOut_Serialize. rewrite !length_app. apply length_Serialize_bytes in Hs.
  unfold Serialize_int64, ser_writedata64. rewrite length_store_le. lia.
Qed.

Lemma length_tx_bytes tx : tx_ok tx -> 8 * Z.of_nat (length (tx_bytes tx)) < 2 ^ 64.
Proof.
  intros [_ _ [Hi Hil] [Ho Hol] _ _ [_ Hz]].
  pose proof (length_Serialize_vin _ Hi Hil). pose proof (length_Serialize_vout _ Ho Hol).
  apply length_Serialize_bytes in Hz. unfold tx_bytes, tail_bytes. rewrite !length_app.
  unfold Serialize_int32, ser_writedata32. rewrite !length_store_le. case_match; cbn [length]; lia.
Qed.

Lemma committed_read tx : tx_ok tx -> tx_read new_CTransaction SERIALIZE_TRANSACTION_NO_WITNESS (committed tx).
Proof.
  intros [? ? ? ? ? ? ?]. split; cbn [committed nVersion nTime vin vout wit nLockTime strDZeel]; try done.
  - by left.
  - by destruct (nVersion tx >=? 2).
Qed.

Lemma tx_bytes_inj tx1 tx2 : tx_ok tx1 -> tx_ok tx2 -> tx_bytes tx1 = tx_bytes tx2 -> committed tx1 = committed tx2.
Proof.
  intros H1 H2 E. pose proof (tx_bytes_bytes tx1 H1) as Hb.
  assert (forall tx, tx_ok tx -> tx_bytes tx = tx_bytes tx1 ->
    UnserializeTransaction (H := platform64) new_CTransaction SERIALIZE_TRANSACTION_NO_WITNESS (tx_bytes tx1) =
      inr (committed tx, [])) as Hread.
  { intros tx Htx Etx. rewrite <- (app_nil_r (tx_bytes tx1)). apply written_is_read; [by apply committed_read| |by rewrite app_nil_r].
    rewrite SerializeTransaction_no_witness by (cbn; lia). by rewrite committed_bytes, Etx. }
  pose proof (Hread tx1 H1 eq_refl) as E1. pose proof (Hread tx2 H2 (eq_sym E)) as E2. congruence.
Qed.

Lemma GetHash_ok mem tx : length mem = 64%nat -> tx_ok tx -> GetHash mem tx = Some (sha256d (tx_bytes tx)).
Proof.
  intros Hm Htx. unfold GetHash. rewrite SerializeTransaction_no_witness by apply Htx. cbn [mbind option_bind].
  apply (Hash_ok mem (tx_bytes tx) [] []); rewrite ?app_nil_r; [done|by apply tx_bytes_bytes| |done|done].
  by apply length_tx_bytes.
Qed.

(** The hash of a transaction is the double SHA-256 of its basic serialization, and it
    commits to every field but the witness (and the text of transactions below version 2):
    two transactions with the same hash agree on all of them unless their serializations are
    two different byte strings with the same double SHA-256. *)
Theorem transaction_hash_commits (mem : list Z) (tx1 tx2 : CTransaction) :
  length mem = 64%nat -> tx_ok tx1 -> tx_ok tx2 ->
  GetHash mem tx1 = Some (sha256d (tx_bytes tx1)) /\
  (GetHash mem tx1 = GetHash mem tx2 ->
   committed tx1 = committed tx2 \/
   (tx_bytes tx1 <> tx_bytes tx2 /\ sha256d (tx_bytes tx1) = sha256d (tx_bytes tx2))).
Proof.
  intros Hm H1 H2. split; [by apply GetHash_ok|]. rewrite !GetHash_ok by done. intros [= E].
  destruct (decide (tx_bytes tx1 = tx_bytes tx2)) as [Eb|Eb]; [left; by apply tx_bytes_inj|by right].
Qed.

(** A decidable proposition without variables, by computation *)
Ltac by_decide := match goal with |- ?P => apply (bool_decide_unpack P); by vm_compute end.

#[export] Instance int_range_dec w x : Decision (int_range w x).
Proof. unfold int_range. apply _. Defined.
#[export] Instance fits_size_dec {A} (v : list A) : Decision (fits_size v).
Proof. unfold fits_size. apply _. Defined.
#[export] Instance script_ok_dec s : Decision (script_ok s).
Proof. unfold script_ok. apply _. Defined.
#[export] Instance CTxIn_ok_dec i : Decision (CTxIn_ok i).
Proof. unfold CTxIn_ok, COutPoint_ok, bytes_of_length. apply _. Defined.
#[export] Instance CTxOut_ok_dec o : Decision (CTxOut_ok o).
Proof. unfold CTxOut_ok. apply _. Defined.

Lemma tx_ok_iff tx :
  (int_range 32 (nVersion tx) /\ word 32 (nTime tx) /\ (Forall CTxIn_ok (vin tx) /\ fits_size (vin tx)) /\
   (Forall CTxOut_ok (vout tx) /\ fits_size (vout tx)) /\ (length (wit tx) <= length (vin tx))%nat /\
   word 32 (nLockTime tx) /\ script_ok (strDZeel tx)) <-> tx_ok tx.
Proof. split; [intros (?&?&?&?&?&?&?); by split|intros [? ? ? ? ? ? ?]; tauto]. Qed.

#[export] Instance tx_ok_dec tx : Decision (tx_ok tx).
Proof.
  refine (cast_if (decide (int_range 32 (nVersion tx) /\ word 32 (nTime tx) /\ (Forall CTxIn_ok (vin tx) /\ fits_size (vin tx)) /\
    (Forall CTxOut_ok (vout tx) /\ fits_size (vout tx)) /\ (length (wit tx) <= length (vin tx))%nat /\
    word 32 (nLockTime tx) /\ script_ok (strDZeel tx)))); by rewrite <- tx_ok_iff.
Defined.

Lemma transaction_hash_commits_witness :
  GetHash (replicate 64 0) sample_tx = Some (sha256d (tx_bytes sample_tx)) /\
  committed sample_tx = committed (with_wit sample_tx []).
Proof.
  assert (tx_ok sample_tx /\ tx_ok (with_wit sample_tx [])) as [Ha Hb] by (split; by_decide).
  destruct (transaction_hash_commits (replicate 64 0) _ _ eq_refl Ha Hb) as [H1 H2].
  destruct (transaction_hash_commits (replicate 64 0) _ _ eq_refl Hb Ha) as [H1' _].
  assert (tx_bytes (with_wit sample_tx []) = tx_bytes sample_tx) as E by reflexivity.
  split; [exact H1|]. rewrite H1, H1', E in H2. destruct (H2 eq_refl) as [H|[H _]]; [exact H|]. by destruct H.
Defined.
