(* ===== verification/Dividend.v ===== *)
(** Dividends ([src/src/dividend/dividend.cpp], [dividendtx.cpp], [dividendledger.cpp]): the ledger
    of contributions, and what a coin is worth once the contributions that matured after it have
    been shared out.  The ratios that are compared with the threshold are [double]s, modelled by
    the IEEE 754 operations of the Standard Library.

    The theorem says what [GetTotalWithDividend] computes, with integers instead of [double]s and
    256-bit numbers wherever those do not show, and that it terminates without an exception. *)

From Stdlib Require Import SpecFloat.
From stdpp Require Import gmap sorting.
From S2P Require Import Prelude SphTypes ArithUint256 BlockIndex Pow Serialize Codec Script Transaction.

#[local] Open Scope Z_scope.
#[local] Open Scope c_scope.

(** ** Doubles *)

(** The conversion of an integer and the division, rounded to the nearest [double] *)
Definition to_double (x : Z) : spec_float := binary_normalize 53 1024 x 0 false.
Definition double_div (a b : spec_float) : spec_float := SFdiv 53 1024 a b.

(** [0.0001] *)
Definition DIVIDEND_THRESHOLD : spec_float := S754_finite false 7378697629483821 (-66).
Definition DIVIDEND_MIN_AGE : Z := 10.

(** ** The ledger *)

(** A [CDividendTx]: the transaction, the hash that it caches, and the block it is in *)
Record CDividendTx := DividendTx { dtx : CTransaction; dtx_hash : uint256; dtx_hashBlock : uint256 }.

(** What the functions read: the block index, the height of the tip of the active chain, the
    parameter [nLastPOWBlock], the ledger, and [std::sort] by a key, which leaves the order of
    equal keys open.  The values of [dtxOrdered] are pointers into [mapLedger], here hashes. *)
Record Dividends := {
  div_heap : heap; div_index : gmap uint256 ptr; div_tip : option Z; div_lastPOW : Z;
  mapLedger : gmap uint256 CDividendTx; dtxOrdered : list uint256;
  std_sort : (CDividendTx -> Z) -> list CDividendTx -> list CDividendTx }.

Definition IsDividend_out (txout : CTxOut) : bool := IsDividendContribution (scriptPubKey txout).
Definition IsDividend (tx : CTransaction) : bool := existsb IsDividend_out (vout tx).

(** [GetDividendCredit] of an output and of a transaction; [None] is an exception. *)
Definition GetDividendCredit_out (txout : CTxOut) : option Z :=
  if negb (MoneyRange (nValue txout)) then None else Some (if IsDividend_out txout then nValue txout else 0).

Fixpoint credit_loop (outs : list CTxOut) (nCredit : Z) : option Z :=
  match outs with
  | [] => Some nCredit
  | o :: outs =>
      c ← GetDividendCredit_out o;
      let nCredit := nCredit + c in
      if negb (MoneyRange nCredit) then None else credit_loop outs nCredit
  end.
Definition GetDividendCredit (d : CDividendTx) : option Z := credit_loop (vout (dtx d)) 0.

(** [AddToLedger] of a transaction that is not read from the file; [written] is what [WriteTx]
    answers. *)
Definition AddToLedger (D : Dividends) (d : CDividendTx) (written : bool) : bool * Dividends :=
  if bool_decide (dtx_hashBlock d = hash_null) then (false, D)
  else
    match mapLedger D !! dtx_hash d with
    | Some _ => (true, D)
    | None =>
        let ordered := match div_index D !! dtx_hashBlock d with Some _ => dtx_hash d :: dtxOrdered D | None => dtxOrdered D end in
        (written, {| div_heap := div_heap D; div_index := div_index D; div_tip := div_tip D; div_lastPOW := div_lastPOW D;
                     mapLedger := <[dtx_hash d := d]> (mapLedger D); dtxOrdered := ordered; std_sort := std_sort D |})
    end.

Section dividends.
Context (D : Dividends).

(** [GetHeight]: the pointers of the block index are valid. *)
Definition GetHeight (d : CDividendTx) : Z :=
  match div_index D !! dtx_hashBlock d with
  | Some p => match div_heap D !! p with Some b => BlockIndex.nHeight b | None => -1 end
  | None => -1
  end.
Definition GetMatureHeight (d : CDividendTx) : Z :=
  let height := GetHeight d in if height >? 0 then height + DIVIDEND_MIN_AGE else height.

(** [None]: there is no tip. *)
Definition isMatureAt (height : Z) : option bool := tip ← div_tip D; Some (tip >=? height + DIVIDEND_MIN_AGE).
Definition isMature (d : CDividendTx) : option bool := isMatureAt (GetHeight d).
Definition isImmature (d : CDividendTx) : option bool := m ← isMature d; Some (negb m).

(** [GetOrdered] *)
Definition GetOrdered : list CDividendTx := std_sort D GetHeight (omap (fun k => mapLedger D !! k) (dtxOrdered D)).

(** The ledger as a list.  The order is not that of [std::map]: what uses the list sorts it, adds it
    up or asks whether one of its elements has a property. *)
Definition ledger : list CDividendTx := snd <$> map_to_list (mapLedger D).

Definition GetPayoutsBefore (d : CDividendTx) (untilHeight : Z) : list CDividendTx :=
  std_sort D GetHeight (filter (fun x => GetHeight x <= GetHeight d /\ GetHeight x > untilHeight /\ dtx_hash d <> dtx_hash x) ledger).
Definition GetPayoutsAfter (d : CDividendTx) (untilHeight : Z) : list CDividendTx :=
  filter (fun x => GetHeight x >= GetHeight d /\ GetHeight x < untilHeight /\ dtx_hash d <> dtx_hash x) ledger.

(** ** Thresholds *)

(** [GetMoneySupplyAtHeight] *)
Fixpoint supply_loop (n : nat) (i total : Z) : option Z :=
  match n with
  | O => Some total
  | S n =>
      r ← (if i <=? div_lastPOW D then Some (GetBlockSubsidy i) else GetProofOfStakeReward i 0 0);
      total ← int64 (total + r);
      supply_loop n (i + 1) total
  end.
Definition GetMoneySupplyAtHeight (height : Z) : option Z := supply_loop (Z.to_nat height) 0 0.
Definition GetCoinSupply (d : CDividendTx) : option Z := GetMoneySupplyAtHeight (GetMatureHeight d).

Definition GetModifier (amount supply : Z) : spec_float := double_div (to_double amount) (to_double (supply - amount)).
Definition GetPayoutModifier (d : CDividendTx) : option spec_float :=
  credit ← GetDividendCredit d; supply ← GetCoinSupply d; Some (GetModifier credit supply).

Definition ExceedsThresholdSolo (d : CDividendTx) : option bool :=
  im ← isImmature d;
  if im : bool then Some false else m ← GetPayoutModifier d; Some (SFleb DIVIDEND_THRESHOLD m).

(** The sum of the credits of some transactions, from [total] on *)
Fixpoint sum_credits (l : list CDividendTx) (total : Z) : option Z :=
  match l with
  | [] => Some total
  | d :: l => c ← GetDividendCredit d; total ← int64 (total + c); sum_credits l total
  end.

(** The loop of [ExceedsThresholdWithPriors]: [Some None] is [return false], otherwise the number
    of transactions in [unpaids], each of which is [tx] itself. *)
Fixpoint priors_loop (with_priors : CDividendTx -> option bool) (tx : CDividendTx) (l : list CDividendTx) (unpaids : nat)
    : option (option nat) :=
  match l with
  | [] => Some (Some unpaids)
  | d :: l =>
      if negb (GetHeight d =? GetHeight tx) then
        im ← isImmature d;
        if im : bool then Some None
        else
          solo ← ExceedsThresholdSolo d;
          if solo : bool then Some (Some unpaids)
          else
            w ← with_priors d;
            if w : bool then Some (Some unpaids) else priors_loop with_priors tx l (S unpaids)
      else priors_loop with_priors tx l (S unpaids)
  end.

(** The transactions it recurs on are mature, and for those it returns at once: two calls are
    enough. *)
Fixpoint with_priors (fuel : nat) (tx : CDividendTx) : option bool :=
  match fuel with
  | O => None
  | S fuel =>
      im ← isImmature tx;
      if negb im then Some false
      else
        r ← priors_loop (with_priors fuel) tx (rev (GetPayoutsBefore tx (-1))) 0;
        match r with
        | None => Some false
        | Some unpaids =>
            total ← GetDividendCredit tx;
            supply ← GetCoinSupply tx;
            total ← sum_credits (replicate unpaids tx) total;
            Some (SFleb DIVIDEND_THRESHOLD (GetModifier total supply))
        end
  end.
Definition ExceedsThresholdWithPriors : CDividendTx -> option bool := with_priors 2.

(** [a || b] with a second operand that may fail *)
Definition or_else (a b : option bool) : option bool := x ← a; if x : bool then Some true else b.

Definition DoesExceedThreshold (d : CDividendTx) : option bool :=
  im ← isImmature d;
  if im : bool then Some false else or_else (ExceedsThresholdSolo d) (ExceedsThresholdWithPriors d).

Fixpoint any_exceeds (l : list CDividendTx) : option bool :=
  match l with
  | [] => Some false
  | d :: l => or_else (ExceedsThresholdSolo d) (or_else (ExceedsThresholdWithPriors d) (any_exceeds l))
  end.
Definition ExceedsThresholdWithSubsequents (d : CDividendTx) (blockHeight : Z) : option bool :=
  any_exceeds (GetPayoutsAfter d blockHeight).

Definition ExceedsThresholdAt (d : CDividendTx) (blockHeight : Z) : option bool :=
  im ← isImmature d;
  if im : bool then Some false
  else or_else (ExceedsThresholdSolo d) (or_else (ExceedsThresholdWithPriors d) (ExceedsThresholdWithSubsequents d blockHeight)).

(** ** Payouts *)

Fixpoint paid_loop (l : list CDividendTx) (d : CDividendTx) (ending : Z) : option Z :=
  match l with
  | [] => Some ending
  | x :: l =>
      if GetHeight x =? GetHeight d then paid_loop l d ending
      else
        e ← DoesExceedThreshold x;
        paid_loop l d (if e : bool then GetHeight x else ending)
  end.
Definition GetPaidBlockBefore (d : CDividendTx) : option Z := paid_loop (GetPayoutsBefore d (-1)) d (-1).

Definition GetExceedChainFor (d : CDividendTx) : option (list CDividendTx) :=
  e ← DoesExceedThreshold d;
  if negb e then Some []
  else
    lastPaidHeight ← GetPaidBlockBefore d;
    let priors := GetPayoutsBefore d lastPaidHeight in
    supply ← GetCoinSupply d;
    total ← sum_credits priors 0;
    Some ((if SFltb DIVIDEND_THRESHOLD (GetModifier total supply) then priors else []) ++ [d]).

(** The body of the loops of [GetTotalWithDividend] and [GetDividendPayoutUntil] *)
Definition share (bigAmount : base_uint) (d : CDividendTx) : option base_uint :=
  chain ← GetExceedChainFor d;
  total ← sum_credits chain 0;
  if total =? 0 then Some bigAmount
  else
    let fund := of_uint64 (u64 total) in
    supply ← GetCoinSupply d;
    credit ← GetDividendCredit d;
    supply ← int64 (supply - credit);
    mint ← op_div (op_mul bigAmount fund) (of_uint64 (u64 supply));
    Some (op_add bigAmount mint).

Fixpoint total_loop (l : list CDividendTx) (blockHeight : Z) (bigAmount : base_uint) : option base_uint :=
  match l with
  | [] => Some bigAmount
  | d :: l =>
      paid ← (if GetMatureHeight d >=? blockHeight
              then e ← DoesExceedThreshold d; if e : bool then isMature d else Some false
              else Some false);
      bigAmount ← (if paid : bool then share bigAmount d else Some bigAmount);
      total_loop l blockHeight bigAmount
  end.

(** [uint64_t] to [CAmount] *)
Definition amount_of_uint64 (x : Z) : Z := if x <? 2 ^ 63 then x else x - 2 ^ 64.

Definition GetTotalWithDividend (amount blockHeight : Z) : option Z :=
  big ← total_loop GetOrdered blockHeight (of_uint64 (u64 amount));
  Some (amount_of_uint64 (GetLow64 big)).

Definition GetDividendPayout (amount blockHeight : Z) : option Z :=
  total ← GetTotalWithDividend amount blockHeight;
  if total >? amount then int64 (total - amount) else Some 0.

Fixpoint until_loop (l : list CDividendTx) (blockHeight untilHeight : Z) (bigAmount : base_uint) : option base_uint :=
  match l with
  | [] => Some bigAmount
  | d :: l =>
      paid ← (if (GetMatureHeight d >=? blockHeight) && (GetMatureHeight d <? untilHeight)
              then m ← isMature d; if m : bool then DoesExceedThreshold d else Some false
              else Some false);
      bigAmount ← (if paid : bool then share bigAmount d else Some bigAmount);
      until_loop l blockHeight untilHeight bigAmount
  end.

Definition GetDividendPayoutUntil (amount blockHeight untilHeight : Z) : option Z :=
  big ← until_loop GetOrdered blockHeight untilHeight (of_uint64 (u64 amount));
  Some (amount_of_uint64 (GetLow64 big)).

(** [GetDividendFundAt] *)
Fixpoint fund_loop (l : list CDividendTx) (blockHeight total : Z) : option Z :=
  match l with
  | [] => Some total
  | d :: l =>
      e ← ExceedsThresholdAt d blockHeight;
      total ← (if negb e then c ← GetDividendCredit d; int64 (total + c) else Some total);
      fund_loop l blockHeight total
  end.
Definition GetDividendFundAt (blockHeight : Z) : option Z :=
  fund_loop (filter (fun d => GetMatureHeight d <= blockHeight) GetOrdered) blockHeight 0.

(** [GetTotalPaid] *)
Fixpoint paid_total_loop (l : list CDividendTx) (height total : Z) : option Z :=
  match l with
  | [] => Some total
  | d :: l =>
      e ← ExceedsThresholdAt d height;
      total ← (if e : bool then c ← GetDividendCredit d; int64 (total + c) else Some total);
      paid_total_loop l height total
  end.
Definition GetTotalPaid : option Z := tip ← div_tip D; paid_total_loop GetOrdered tip 0.

(** [GetBalance] *)
Definition GetBalance : option Z := sum_credits ledger 0.
End dividends.

(** ** What is shared out *)

Section shares.
Context (D : Dividends).

Definition credit (d : CDividendTx) : Z := default 0 (GetDividendCredit d).
Definition supply (d : CDividendTx) : Z := default 0 (GetCoinSupply D d).
Definition credits (l : list CDividendTx) : Z := foldr (fun d a => credit d + a) 0 l.
Definition mature (d : CDividendTx) : bool := default (-1) (div_tip D) >=? GetHeight D d + DIVIDEND_MIN_AGE.

(** A contribution is paid out when it is old enough and at least a ten-thousandth of the rest of
    the supply, as [double]s. *)
Definition paid (d : CDividendTx) : bool := mature d && SFleb DIVIDEND_THRESHOLD (GetModifier (credit d) (supply d)).

(** The height of the last contribution before that was paid out, and the contributions since *)
Definition last_paid (d : CDividendTx) : Z :=
  foldl (fun ending x => if negb (GetHeight D x =? GetHeight D d) && paid x then GetHeight D x else ending) (-1)
    (GetPayoutsBefore D d (-1)).
Definition since (d : CDividendTx) : list CDividendTx := GetPayoutsBefore D d (last_paid d).

(** What is shared out with a contribution: the contribution, and what came in since the last
    payout when that alone is above the threshold *)
Definition fund (d : CDividendTx) : Z :=
  (if SFltb DIVIDEND_THRESHOLD (GetModifier (credits (since d)) (supply d)) then credits (since d) else 0) + credit d.

(** The amount with its part of the fund *)
Definition grow (blockHeight amount : Z) (d : CDividendTx) : Z :=
  if (GetMatureHeight D d >=? blockHeight) && paid d then amount + amount * fund d / (supply d - credit d) else amount.
Definition grown (amount blockHeight : Z) : Z := foldl (grow blockHeight) amount (GetOrdered D).

(** The ledgers the functions are made for: there is a tip, sorting permutes, heights are small,
    the contributions are amounts of money, none of them is the whole supply, and together they
    are below 2^61. *)
Record ledger_ok : Prop := {
  lo_tip : is_Some (div_tip D);
  lo_sort : forall key l, std_sort D key l ≡ₚ l;
  lo_heights : forall p b, div_heap D !! p = Some b -> 0 <= BlockIndex.nHeight b < 2 ^ 31 - 10;
  lo_credit : forall k d, mapLedger D !! k = Some d -> is_Some (GetDividendCredit d) /\ credit d < supply d;
  lo_sum : credits (ledger D) < 2 ^ 61 }.

Context (Hok : ledger_ok).

(** *** The supply *)

Lemma supply_loop_ok n i total :
  0 <= i -> 0 <= total <= (78894 * Z.min i 101 + 12 * i) * COIN -> i + Z.of_nat n <= 2 ^ 31 ->
  exists s, supply_loop D n i total = Some s /\ total <= s < 2 ^ 62.
Proof.
  revert i total. induction n as [|n IH]; intros i total Hi Ht Hn; cbn [supply_loop].
  { exists total. split; [done|]. unfold Pow.COIN, COIN in *. lia. }
  assert (exists r, (if i <=? div_lastPOW D then Some (GetBlockSubsidy i) else GetProofOfStakeReward i 0 0) = Some r /\
    0 <= r <= (78894 * (Z.min (i + 1) 101 - Z.min i 101) + 12) * COIN) as (r&->&Hr).
  { destruct (i <=? div_lastPOW D).
    - eexists. split; [done|]. unfold GetBlockSubsidy. change (7889400 / 100) with 78894. unfold Pow.COIN, COIN.
      destruct (Z.leb_spec i 100); lia.
    - destruct (reward_value i 0 0 ltac:(lia)) as (s&->&_&Hs&_). eexists. split; [done|]. unfold Pow.COIN, COIN in *. lia. }
  cbn [mbind option_bind]. rewrite int64_Some by (unfold Pow.COIN, COIN in *; lia). cbn [mbind option_bind].
  destruct (IH (i + 1) (total + r)) as (s&E&Hs); [lia|unfold Pow.COIN, COIN in *; lia|lia|]. exists s. split; [done|]. lia.
Qed.

Lemma height_bounds d : -1 <= GetHeight D d < 2 ^ 31 - 10.
Proof.
  unfold GetHeight. destruct (div_index D !! dtx_hashBlock d) as [p|]; [|lia].
  destruct (div_heap D !! p) as [b|] eqn:E; [|lia]. apply (lo_heights Hok) in E. lia.
Qed.

Lemma supply_ok d : GetCoinSupply D d = Some (supply d) /\ 0 <= supply d < 2 ^ 62.
Proof.
  unfold supply, GetCoinSupply, GetMoneySupplyAtHeight. pose proof (height_bounds d) as Hh.
  assert (GetMatureHeight D d < 2 ^ 31) as Hm.
  { unfold GetMatureHeight, DIVIDEND_MIN_AGE. destruct (GetHeight D d >? 0); lia. }
  destruct (supply_loop_ok (Z.to_nat (GetMatureHeight D d)) 0 0) as (s&->&Hs); [lia|unfold Pow.COIN, COIN; lia|lia|]. done.
Qed.

(** *** Credits *)

Lemma MoneyRange_bounds v : MoneyRange v = true -> 0 <= v < 2 ^ 52.
Proof. unfold MoneyRange, MAX_MONEY, COIN. rewrite andb_true_iff, Z.geb_le, Z.leb_le. lia. Qed.

Lemma credit_loop_nonneg outs c r : 0 <= c -> credit_loop outs c = Some r -> 0 <= r.
Proof.
  revert c. induction outs as [|o outs IH]; intros c Hc; cbn [credit_loop]; [by intros [= <-]|].
  destruct (GetDividendCredit_out o) as [x|]; [|done]. cbn [mbind option_bind].
  destruct (MoneyRange (c + x)) eqn:E; cbn [negb]; [|done]. apply MoneyRange_bounds in E. apply IH. lia.
Qed.

Definition known (d : CDividendTx) : Prop := exists k, mapLedger D !! k = Some d.

Lemma credit_ok d : known d -> GetDividendCredit d = Some (credit d) /\ 0 <= credit d < supply d.
Proof.
  intros [k Hk]. destruct (lo_credit Hok k d Hk) as [[c Ec] Hs]. unfold credit in *. rewrite Ec in Hs |- *. cbn in Hs |- *.
  split; [done|]. split; [|done]. eapply (credit_loop_nonneg _ 0); [lia|exact Ec].
Qed.

Lemma ledger_known d : d ∈ ledger D <-> known d.
Proof.
  unfold ledger. rewrite list_elem_of_fmap. split.
  - intros ([k x]&->&Hx%elem_of_map_to_list). by exists k.
  - intros [k Hk]. exists (k, d). split; [done|]. by apply elem_of_map_to_list.
Qed.

Lemma before_known d h : Forall known (GetPayoutsBefore D d h).
Proof.
  apply list.Forall_forall. intros x. unfold GetPayoutsBefore. rewrite (lo_sort Hok), list_elem_of_filter. intros [_ Hx].
  by apply ledger_known.
Qed.

Lemma ordered_known : Forall known (GetOrdered D).
Proof.
  apply list.Forall_forall. intros x. unfold GetOrdered. rewrite (lo_sort Hok), list_elem_of_omap. intros (k&_&Hx). by exists k.
Qed.

Lemma credits_cons d l : credits (d :: l) = credit d + credits l.
Proof. done. Qed.

Lemma credits_nonneg l : Forall known l -> 0 <= credits l.
Proof. induction 1 as [|d l Hd _ IH]; [done|]. apply credit_ok in Hd as [_ Hd]. rewrite credits_cons. lia. Qed.

Lemma credits_perm l k : l ≡ₚ k -> credits l = credits k.
Proof. induction 1; rewrite ?credits_cons; lia. Qed.

Lemma credits_filter (P : CDividendTx -> Prop) `{!forall x, Decision (P x)} l : Forall known l -> credits (filter P l) <= credits l.
Proof.
  induction 1 as [|d l Hd _ IH]; [done|]. apply credit_ok in Hd as [_ Hd]. rewrite filter_cons. destruct (decide (P d)); rewrite ?credits_cons; lia.
Qed.

Lemma credits_before d h : credits (GetPayoutsBefore D d h) < 2 ^ 61.
Proof.
  unfold GetPayoutsBefore. rewrite (credits_perm _ _ (lo_sort Hok _ _)). eapply Z.le_lt_trans; [apply credits_filter|apply (lo_sum Hok)].
  apply list.Forall_forall. intros x. apply ledger_known.
Qed.

Lemma credit_small d : known d -> credit d < 2 ^ 61.
Proof.
  intros Hd. apply ledger_known in Hd as Hin. pose proof (lo_sum Hok) as Hs.
  assert (forall l, Forall known l -> d ∈ l -> credit d <= credits l) as H.
  { induction 1 as [|x l Hx Hl IH]; [by intros ?%not_elem_of_nil|]. rewrite elem_of_cons. apply credits_nonneg in Hl as Hl'.
    apply credit_ok in Hx as [_ Hx]. rewrite credits_cons. intros [->|H]; [lia|]. specialize (IH H). lia. }
  eapply Z.le_lt_trans; [apply (H (ledger D)); [|done]|done]. apply list.Forall_forall. intros x. apply ledger_known.
Qed.

Lemma sum_credits_ok l t :
  Forall known l -> 0 <= t -> t + credits l < 2 ^ 63 -> sum_credits l t = Some (t + credits l).
Proof.
  intros Hl. revert t. induction Hl as [|d l Hd Hl IH]; intros t Ht Hs; cbn [sum_credits]; [f_equal; change (credits []) with 0; lia|]. rewrite credits_cons in *.
  destruct (credit_ok d Hd) as [-> Hc]. cbn [mbind option_bind]. pose proof (credits_nonneg l Hl).
  rewrite int64_Some by lia. cbn [mbind option_bind]. rewrite IH by lia. f_equal. lia.
Qed.

(** *** Thresholds *)

Lemma isMature_ok d : isMature D d = Some (mature d).
Proof. unfold isMature, isMatureAt, mature. destruct (lo_tip Hok) as [t ->]. done. Qed.

(** The test with the contributions before is false of those it is used on: only a contribution
    that is large enough by itself is ever paid out. *)
Lemma DoesExceedThreshold_ok d : known d -> DoesExceedThreshold D d = Some (paid d).
Proof.
  intros Hd. unfold DoesExceedThreshold, ExceedsThresholdSolo, ExceedsThresholdWithPriors, isImmature, GetPayoutModifier, paid.
  cbn [with_priors]. unfold isImmature. rewrite isMature_ok. cbn [mbind option_bind]. destruct (mature d); cbn [negb andb]; [|done].
  destruct (credit_ok d Hd) as [-> _]. destruct (supply_ok d) as [-> _]. cbn [mbind option_bind or_else]. by destruct (SFleb _ _).
Qed.

Lemma paid_loop_ok d l e :
  Forall known l -> paid_loop D l d e =
    Some (foldl (fun ending x => if negb (GetHeight D x =? GetHeight D d) && paid x then GetHeight D x else ending) e l).
Proof.
  intros Hl. revert e. induction Hl as [|x l Hx _ IH]; intros e; [done|]. cbn [paid_loop foldl].
  destruct (GetHeight D x =? GetHeight D d); cbn [negb andb]; [apply IH|]. rewrite DoesExceedThreshold_ok by done. apply IH.
Qed.

Lemma GetExceedChainFor_ok d :
  known d -> exists chain, GetExceedChainFor D d = Some chain /\ (paid d = true -> sum_credits chain 0 = Some (fund d)) /\
    0 <= fund d < 2 ^ 62.
Proof.
  intros Hd. pose proof (credits_before d (last_paid d)) as Hb. pose proof (before_known d (last_paid d)) as Hk.
  pose proof (credits_nonneg _ Hk) as Hn. pose proof (credit_small d Hd) as Hs. destruct (credit_ok d Hd) as [_ Hc].
  assert (0 <= fund d < 2 ^ 62) as Hf by (unfold fund, since; destruct (SFltb _ _); lia).
  unfold GetExceedChainFor. rewrite DoesExceedThreshold_ok by done. cbn [mbind option_bind]. destruct (paid d); cbn [negb].
  2: { exists []. split; [done|]. by split. }
  unfold GetPaidBlockBefore. rewrite paid_loop_ok by apply before_known. cbn [mbind option_bind]. fold (last_paid d).
  destruct (supply_ok d) as [-> _]. cbn [mbind option_bind]. rewrite sum_credits_ok by (done || lia). cbn [mbind option_bind].
  rewrite Z.add_0_l. eexists. split; [done|]. split; [|done]. intros _.
  assert (forall l, credits (l ++ [d]) = credits l + credit d) as Happ by (induction l as [|x l IH]; cbn [app]; rewrite ?credits_cons; change (credits []) with 0 in *; lia).
  fold (since d) in *. unfold fund in *. destruct (SFltb _ _).
  - rewrite sum_credits_ok; [by rewrite Happ| |lia|rewrite Happ; lia]. apply Forall_app. split; [done|]. by apply Forall_singleton.
  - cbn [app]. assert (credits [d] = credit d) as E1 by (rewrite credits_cons; change (credits []) with 0; lia).
    rewrite sum_credits_ok; [by rewrite E1|by apply Forall_singleton|lia|rewrite E1; lia].
Qed.

(** *** Amounts *)

Lemma share_ok big d :
  known d -> paid d = true -> uint_ok big -> val big < 2 ^ 64 ->
  exists big', share D big d = Some big' /\ uint_ok big' /\
    val big' = val big + val big * fund d / (supply d - credit d).
Proof.
  intros Hd Hp Hb Hv. destruct (GetExceedChainFor_ok d Hd) as (chain&E&Hf&Hfund). specialize (Hf Hp).
  destruct (credit_ok d Hd) as [Ec Hc]. destruct (supply_ok d) as [Es Hs]. pose proof (val_ok _ Hb) as Hv0.
  unfold share. rewrite E. cbn [mbind option_bind]. rewrite Hf. cbn [mbind option_bind].
  destruct (Z.eqb_spec (fund d) 0) as [E0|_]; [exists big; split; [done|]; split; [done|]; rewrite E0, Z.mul_0_r, Z.div_0_l; lia|].
  rewrite Es, Ec. cbn [mbind option_bind]. rewrite int64_Some by lia. cbn [mbind option_bind].
  rewrite !u64_small by lia. destruct (of_uint64_spec (fund d)) as [Hfo Hfv]; [unfold word; lia|].
  destruct (of_uint64_spec (supply d - credit d)) as [Hso Hsv]; [unfold word; lia|].
  destruct (op_mul_spec big _ Hb Hfo) as [Hmo Hmv]. rewrite Hfv, Z.mod_small in Hmv by nia.
  pose proof (op_div_spec _ _ Hmo Hso) as Hdiv. rewrite Hmv, Hsv in Hdiv.
  destruct (op_div _ _) as [q|]; [|lia]. destruct Hdiv as (_&Hqo&Hqv). cbn [mbind option_bind]. destruct (op_add_spec big q Hb Hqo) as [Hao Hav].
  eexists. split; [done|]. split; [done|]. rewrite Hav, Hqv. apply Z.mod_small.
  assert (0 <= val big * fund d / (supply d - credit d) <= val big * fund d) by (split; [apply Z.div_pos; nia|apply Z.div_le_upper_bound; nia]).
  nia.
Qed.

Lemma grow_ge h a d : known d -> 0 <= a -> a <= grow h a d.
Proof.
  intros Hd Ha. unfold grow. destruct (_ && _); [|lia]. destruct (credit_ok d Hd) as [_ Hc].
  destruct (GetExceedChainFor_ok d Hd) as (_&_&_&Hf). assert (0 <= a * fund d / (supply d - credit d)) by (apply Z.div_pos; nia). lia.
Qed.

Lemma grown_ge h a l : Forall known l -> 0 <= a -> a <= foldl (grow h) a l.
Proof.
  intros Hl. revert a. induction Hl as [|d l Hd _ IH]; intros a Ha; cbn [foldl]; [lia|].
  pose proof (grow_ge h a d Hd Ha). specialize (IH (grow h a d)). lia.
Qed.

Lemma total_loop_ok h l big :
  Forall known l -> uint_ok big -> foldl (grow h) (val big) l < 2 ^ 63 ->
  exists big', total_loop D l h big = Some big' /\ uint_ok big' /\ val big' = foldl (grow h) (val big) l.
Proof.
  intros Hl. revert big. induction Hl as [|d l Hd Hl IH]; intros big Hb Hf; cbn [total_loop foldl] in *; [by exists big|].
  pose proof (val_ok _ Hb) as Hv. pose proof (grow_ge h (val big) d Hd ltac:(lia)) as Hg.
  pose proof (grown_ge h (grow h (val big) d) l Hl ltac:(lia)) as Hg2.
  assert (exists big', (paid ← (if GetMatureHeight D d >=? h then e ← DoesExceedThreshold D d; if e : bool then isMature D d else Some false
      else Some false); if paid : bool then share D big d else Some big) = Some big' /\ uint_ok big' /\ val big' = grow h (val big) d) as (big'&E&Hb'&Hv').
  { unfold grow. destruct (GetMatureHeight D d >=? h); cbn [andb mbind option_bind]; [|by exists big].
    rewrite DoesExceedThreshold_ok by done. cbn [mbind option_bind]. destruct (paid d) eqn:Ep; [|by exists big].
    rewrite isMature_ok. cbn [mbind option_bind]. assert (mature d = true) as -> by (unfold paid in Ep; by apply andb_true_iff in Ep as [? _]).
    apply share_ok; [done|done|done|lia]. }
  destruct (if GetMatureHeight D d >=? h then _ else _) as [p|]; [|done]. cbn [mbind option_bind] in *.
  rewrite E. cbn [mbind option_bind]. rewrite <- Hv' in *. apply IH; [done|lia].
Qed.
End shares.

(** What a coin is worth: [GetTotalWithDividend] gives its amount with its part of every
    contribution that was paid out at the height of the coin or later, each share rounded down, in
    the order of the heights; it is not below the amount, and is the amount when nothing was paid
    out.  A contribution is paid out when it matured and is large enough by itself. *)
Theorem dividend_total (D : Dividends) (amount blockHeight : Z) :
  ledger_ok D -> 0 <= amount -> grown D amount blockHeight < 2 ^ 63 ->
  GetTotalWithDividend D amount blockHeight = Some (grown D amount blockHeight) /\ amount <= grown D amount blockHeight /\
  (Forall (fun d => (GetMatureHeight D d >=? blockHeight) && paid D d = false) (GetOrdered D) -> grown D amount blockHeight = amount).
Proof.
  intros Hok Ha Hg. pose proof (ordered_known D Hok) as Hk. pose proof (grown_ge D Hok blockHeight amount _ Hk Ha) as Hge.
  fold (grown D amount blockHeight) in Hge. split; [|split; [done|]].
  - unfold GetTotalWithDividend. rewrite u64_small by lia. destruct (of_uint64_spec amount) as [Ho Hv]; [unfold word; lia|].
    destruct (total_loop_ok D Hok blockHeight (GetOrdered D) (of_uint64 amount) Hk Ho) as (big&->&Hb&Hbv); [by rewrite Hv|].
    cbn [mbind option_bind]. rewrite GetLow64_spec, Hbv, Hv by done. fold (grown D amount blockHeight).
    rewrite Z.mod_small by lia. unfold amount_of_uint64. by rewrite (proj2 (Z.ltb_lt _ _)).
  - intros Hall. unfold grown. clear Hg Hge Hk. revert Hall. generalize (GetOrdered D). intros l Hall. revert amount Ha.
    induction Hall as [|d l Hd _ IH]; intros amount Ha; [done|]. cbn [foldl]. unfold grow at 2. rewrite Hd. by apply IH.
Qed.

(** Without contributions a coin is worth its amount. *)
Lemma no_dividends D amount blockHeight :
  (forall key, std_sort D key [] = []) -> dtxOrdered D = [] -> 0 <= amount < 2 ^ 63 ->
  GetTotalWithDividend D amount blockHeight = Some amount.
Proof.
  intros Hs Ho Ha. unfold GetTotalWithDividend, GetOrdered. rewrite Ho. cbn [omap list_omap]. rewrite Hs. cbn [total_loop mbind option_bind].
  rewrite u64_small by lia. destruct (of_uint64_spec amount) as [Hok Hv]; [unfold word; lia|].
  rewrite GetLow64_spec, Hv by done. rewrite Z.mod_small by lia. unfold amount_of_uint64. by rewrite (proj2 (Z.ltb_lt _ _)) by lia.
Qed.

(** ** Instances *)

Module SampleLedger.
(** Contributions in a block at height 3, with the tip at height 20; at maturity the supply is
    1,025,622 coins. *)
Definition contribution (time amount : Z) : CDividendTx :=
  {| dtx := {| nVersion := 1; nTime := time; vin := []; vout := [{| nValue := amount; scriptPubKey := [OP_RETURN; OP_DIVIDEND] |};
                {| nValue := 5; scriptPubKey := [81] |}]; wit := []; nLockTime := 0; strDZeel := [] |};
     dtx_hash := [time]; dtx_hashBlock := [9] |}.
Definition block : CBlockIndex :=
  set_links (CBlockIndex_of_header (mkHeader 1 uint256_null uint256_null 1000 0x207fffff 0)) None None 3.
Definition sort (key : CDividendTx -> Z) (l : list CDividendTx) : list CDividendTx :=
  merge_sort (H := fun a b => Z.le_dec (key a) (key b)) (fun a b => key a <= key b) l.
Definition state (l : list CDividendTx) : Dividends :=
  {| div_heap := {[ 1%positive := block ]}; div_index := {[ [9] := 1%positive ]}; div_tip := Some 20; div_lastPOW := 100;
     mapLedger := list_to_map ((fun d => (dtx_hash d, d)) <$> l); dtxOrdered := dtx_hash <$> l; std_sort := sort |}.
Definition one : Dividends := state [contribution 1 2562200000000].
End SampleLedger.

Lemma sample_ledger_ok : ledger_ok SampleLedger.one.
Proof.
  split.
  - by eexists.
  - intros key l. apply merge_sort_Permutation.
  - intros p b. cbn. rewrite lookup_singleton_Some. intros [_ <-]. by vm_compute.
  - intros k d. cbn. rewrite lookup_insert_Some, lookup_empty. intros [[_ <-]|[_ ?]]; [|done]. split; [by eexists|by vm_compute].
  - by vm_compute.
Qed.

(** A coin of 1,000 from height 7 is worth 25 more. *)
Lemma dividend_total_witness :
  GetTotalWithDividend SampleLedger.one 1000 7 = Some 1025 /\ 1000 <= grown SampleLedger.one 1000 7.
Proof.
  destruct (dividend_total SampleLedger.one 1000 7 sample_ledger_ok) as (E&Hge&_); [lia|by vm_compute|].
  split; [|exact Hge]. rewrite E. by vm_compute.
Defined.

(** Two contributions at the same height are each paid out together with the other: twice what
    came in is shared. *)
Lemma same_height_paid_twice :
  let d1 := SampleLedger.contribution 1 2562200000000 in
  let d2 := SampleLedger.contribution 2 1000000000000 in
  let D := SampleLedger.state [d1; d2] in
  paid D d1 = true /\ paid D d2 = true /\ fund D d1 = credit d1 + credit d2 /\ fund D d2 = credit d1 + credit d2.
Proof. by vm_compute. Qed.

(** Contributions below the threshold are not added up: the test that would is not reached. *)
Lemma small_contributions_unpaid :
  let d1 := SampleLedger.contribution 1 6000000000 in
  let d2 := SampleLedger.contribution 2 6000000000 in
  let D := SampleLedger.state [d1; d2] in
  SFleb DIVIDEND_THRESHOLD (GetModifier (credit d1 + credit d2) (supply D d2)) = true /\
  DoesExceedThreshold D d1 = Some false /\ DoesExceedThreshold D d2 = Some false.
Proof. by vm_compute. Qed.
