(* ===== verification/Coins.v ===== *)
(** Unspent outputs ([src/src/coins.h], [coins.cpp], [txdb.cpp]): the coins of a transaction,
    the interface of views, the database at the bottom and the caches stacked on it.

    The theorems show that a cache on any view that keeps the promises of the interface keeps
    them too, so that a stack of caches behaves like one map from transaction hashes to
    unspent outputs, whatever is fetched, uncached or flushed in between. *)

From stdpp Require Import gmap.
From S2P Require Import Prelude SphTypes Serialize Codec Script Transaction.

#[local] Open Scope c_scope.

(** ** Coins *)

Record CCoins := Coins {
  fCoinBase : bool; fCoinStake : bool; c_vout : list CTxOut; nHeight : Z; c_nVersion : Z }.

#[export] Instance CCoins_eq_dec : EqDecision CCoins.
Proof. solve_decision. Defined.

(** [CCoins()] and [Clear()] *)
Definition new_CCoins : CCoins := Coins false false [] 0 0.

Definition set_vout (c : CCoins) (v : list CTxOut) : CCoins :=
  Coins (fCoinBase c) (fCoinStake c) v (nHeight c) (c_nVersion c).

(** Removing the spent outputs at the end *)
Definition trim (v : list CTxOut) : list CTxOut :=
  foldr (fun o v => if CTxOut_IsNull o && (length v =? 0)%nat then [] else o :: v) [] v.
Definition Cleanup (c : CCoins) : CCoins := set_vout c (trim (c_vout c)).

Definition ClearUnspendable (c : CCoins) : CCoins :=
  Cleanup (set_vout c (map (fun o => if IsUnspendable (scriptPubKey o) then CTxOut_null else o) (c_vout c))).

Definition FromTx (tx : CTransaction) (nHeightIn : Z) : CCoins :=
  ClearUnspendable (Coins (IsCoinBase tx) (IsCoinStake tx) (vout tx) nHeightIn (nVersion tx)).

Definition IsPruned (c : CCoins) : bool := forallb CTxOut_IsNull (c_vout c).

Definition IsAvailable (c : CCoins) (nPos : Z) : bool :=
  match c_vout c !! Z.to_nat nPos with Some o => negb (CTxOut_IsNull o) | None => false end.

(** [Spend]: whether there was an output, and the coins without it *)
Definition Spend (c : CCoins) (nPos : Z) : bool * CCoins :=
  if IsAvailable c nPos
  then (true, Cleanup (set_vout c (<[Z.to_nat nPos := CTxOut_null]> (c_vout c))))
  else (false, c).

(** [operator==] *)
Definition CCoins_eq (a b : CCoins) : bool :=
  if IsPruned a && IsPruned b then true
  else bool_decide (fCoinBase a = fCoinBase b) && (nHeight a =? nHeight b) &&
       (c_nVersion a =? c_nVersion b) && bool_decide (c_vout a = c_vout b).

(** ** Views *)

Definition DIRTY : Z := 1.
Definition FRESH : Z := 2.
Record CCoinsCacheEntry := Entry { coins : CCoins; flags : Z }.
Definition new_entry : CCoinsCacheEntry := Entry new_CCoins 0.
Definition is_dirty (e : CCoinsCacheEntry) : bool := negb (flags e .& DIRTY =? 0).
Definition is_fresh (e : CCoinsCacheEntry) : bool := negb (flags e .& FRESH =? 0).

(** The keys are bytes of hashes; the order of [boost::unordered_map] is not defined, and no
    result depends on it. *)
Abbreviation CCoinsMap := (gmap uint256 CCoinsCacheEntry).

(** [CCoinsView]: reading may change the state of a view, which may be a cache. [BatchWrite]
    gives [None] when an assertion fails. *)
Class CCoinsView (V : Type) := {
  GetCoins : uint256 -> V -> option CCoins * V;
  HaveCoins : uint256 -> V -> bool * V;
  GetBestBlock : V -> uint256 * V;
  BatchWrite : CCoinsMap -> uint256 -> V -> option (bool * V);
}.

(** *** The database *)

(** What is read back after coins have been written: the format has no place for
    [fCoinStake], nor for the sign of the version, and spent outputs are not stored. *)
Definition disk_int (v : Z) : Z := if v <? 0 then v .& 0x7F else v.
Definition disk_vout (v : list CTxOut) : list CTxOut :=
  trim (map (fun o => if CTxOut_IsNull o then CTxOut_null else o) v).
Definition disk_coins (c : CCoins) : CCoins :=
  Coins (fCoinBase c) false (disk_vout (c_vout c)) (nHeight c) (disk_int (c_nVersion c)).

Record CCoinsViewDB := { db_coins : gmap uint256 CCoins; db_best : uint256 }.

(** One entry of the batch *)
Definition db_write (txid : uint256) (e : CCoinsCacheEntry) (m : gmap uint256 CCoins) : gmap uint256 CCoins :=
  if is_dirty e then if IsPruned (coins e) then delete txid m else <[txid := disk_coins (coins e)]> m
  else m.

#[export] Instance CCoinsViewDB_view : CCoinsView CCoinsViewDB := {
  GetCoins txid d := (db_coins d !! txid, d);
  HaveCoins txid d := (bool_decide (is_Some (db_coins d !! txid)), d);
  GetBestBlock d := (db_best d, d);
  BatchWrite mapCoins hashBlock d :=
    Some (true, {| db_coins := map_fold db_write (db_coins d) mapCoins;
                   db_best := if bool_decide (hashBlock = hash_null) then db_best d else hashBlock |});
}.

(** *** Caches *)

Record CCoinsViewCache (V : Type) := Cache {
  base : V; hasModifier : bool; hashBlock : uint256; cacheCoins : CCoinsMap }.
Arguments Cache {V} base hasModifier hashBlock cacheCoins.
Arguments base {V} c.
Arguments hasModifier {V} c.
Arguments hashBlock {V} c.
Arguments cacheCoins {V} c.

Section cache.
Context {V : Type} `{CCoinsView V}.
Abbreviation cache := (CCoinsViewCache V).

Definition new_cache (b : V) : cache := Cache b false hash_null ∅.

Definition set_base (c : cache) (b : V) : cache := Cache b (hasModifier c) (hashBlock c) (cacheCoins c).
Definition set_coins (c : cache) (m : CCoinsMap) : cache := Cache (base c) (hasModifier c) (hashBlock c) m.
Definition set_modifier (c : cache) (b : bool) : cache := Cache (base c) b (hashBlock c) (cacheCoins c).

Definition FetchCoins (txid : uint256) (c : cache) : option CCoinsCacheEntry * cache :=
  match cacheCoins c !! txid with
  | Some e => (Some e, c)
  | None =>
      let '(r, b) := GetCoins txid (base c) in
      match r with
      | None => (None, set_base c b)
      | Some tmp =>
          let e := Entry tmp (if IsPruned tmp then FRESH else 0) in
          (Some e, set_coins (set_base c b) (<[txid := e]> (cacheCoins c)))
      end
  end.

Definition cache_GetCoins (txid : uint256) (c : cache) : option CCoins * cache :=
  let '(r, c) := FetchCoins txid c in (coins <$> r, c).

(** [AccessCoins]: the pointer is followed at once. *)
Definition AccessCoins (txid : uint256) (c : cache) : option CCoins * cache :=
  let '(r, c) := FetchCoins txid c in (coins <$> r, c).

Definition cache_HaveCoins (txid : uint256) (c : cache) : bool * cache :=
  let '(r, c) := FetchCoins txid c in
  (match r with Some e => negb (length (c_vout (coins e)) =? 0)%nat | None => false end, c).

Definition HaveCoinsInCache (txid : uint256) (c : cache) : bool := bool_decide (is_Some (cacheCoins c !! txid)).

Definition cache_GetBestBlock (c : cache) : uint256 * cache :=
  if bool_decide (hashBlock c = hash_null) then
    let '(h, b) := GetBestBlock (base c) in (h, Cache b (hasModifier c) h (cacheCoins c))
  else (hashBlock c, c).

Definition SetBestBlock (hashBlockIn : uint256) (c : cache) : cache :=
  Cache (base c) (hasModifier c) hashBlockIn (cacheCoins c).

(** One entry of a child cache that is written *)
Definition batch_entry (txid : uint256) (e : CCoinsCacheEntry) (us : CCoinsMap) : CCoinsMap :=
  if is_dirty e then
    match us !! txid with
    | None =>
        if is_fresh e && IsPruned (coins e) then us
        else <[txid := Entry (coins e) (DIRTY .| (if is_fresh e then FRESH else 0))]> us
    | Some u =>
        if is_fresh u && IsPruned (coins e) then delete txid us
        else <[txid := Entry (coins e) (flags u .| DIRTY)]> us
    end
  else us.

Definition cache_BatchWrite (mapCoins : CCoinsMap) (hashBlockIn : uint256) (c : cache) : option (bool * cache) :=
  if hasModifier c then None
  else Some (true, Cache (base c) (hasModifier c) hashBlockIn (map_fold batch_entry (cacheCoins c) mapCoins)).

#[export] Instance CCoinsViewCache_view : CCoinsView cache := {
  GetCoins := cache_GetCoins; HaveCoins := cache_HaveCoins;
  GetBestBlock := cache_GetBestBlock; BatchWrite := cache_BatchWrite }.

Definition Flush (c : cache) : option (bool * cache) :=
  '(fOk, b) ← BatchWrite (cacheCoins c) (hashBlock c) (base c);
  Some (fOk, Cache b (hasModifier c) (hashBlock c) ∅).

Definition Uncache (txid : uint256) (c : cache) : cache :=
  match cacheCoins c !! txid with
  | Some e => if flags e =? 0 then set_coins c (delete txid (cacheCoins c)) else c
  | None => c
  end.

(** *** Modifiers *)

(** [ModifyCoins]: the modifier refers to the entry of [txid]. *)
Definition ModifyCoins (txid : uint256) (c : cache) : option cache :=
  if hasModifier c then None
  else
    let '(e, c) :=
      match cacheCoins c !! txid with
      | Some e => (e, c)
      | None =>
          let '(r, b) := GetCoins txid (base c) in
          (match r with
           | None => Entry new_CCoins FRESH
           | Some tmp => Entry tmp (if IsPruned tmp then FRESH else 0)
           end, set_base c b)
      end in
    Some (set_modifier (set_coins c (<[txid := Entry (coins e) (flags e .| DIRTY)]> (cacheCoins c))) true).

Definition ModifyNewCoins (txid : uint256) (coinbase : bool) (c : cache) : option cache :=
  if hasModifier c then None
  else
    let e := default new_entry (cacheCoins c !! txid) in
    let fl := if coinbase then flags e else FRESH in
    Some (set_modifier (set_coins c (<[txid := Entry new_CCoins (fl .| DIRTY)]> (cacheCoins c))) true).

(** What is done through [operator->]; the entry is there as long as the modifier lives. *)
Definition modify (txid : uint256) (f : CCoins -> CCoins) (c : cache) : cache :=
  set_coins c (alter (fun e => Entry (f (coins e)) (flags e)) txid (cacheCoins c)).

(** [~CCoinsModifier] *)
Definition release (txid : uint256) (c : cache) : option cache :=
  if negb (hasModifier c) then None
  else
    e ← cacheCoins c !! txid;
    let e := Entry (Cleanup (coins e)) (flags e) in
    Some (set_modifier (set_coins c
      (if is_fresh e && IsPruned (coins e) then delete txid (cacheCoins c)
       else <[txid := e]> (cacheCoins c))) false).

(** The coins that a modifier gives access to *)
Definition modified (txid : uint256) (c : cache) : option CCoins := coins <$> cacheCoins c !! txid.

(** *** Queries on inputs *)

(** [GetOutputFor] and [GetHeightFor]: [None] is a failed assertion. *)
Definition GetOutputFor (input : CTxIn) (c : cache) : option CTxOut * cache :=
  let '(r, c) := AccessCoins (hash (prevout input)) c in
  (cs ← r; if IsAvailable cs (n (prevout input)) then c_vout cs !! Z.to_nat (n (prevout input)) else None, c).

Definition GetHeightFor (input : CTxIn) (c : cache) : option Z * cache :=
  let '(r, c) := AccessCoins (hash (prevout input)) c in
  (cs ← r; if IsAvailable cs (n (prevout input)) then Some (nHeight cs) else None, c).

Fixpoint have_inputs_loop (ins : list CTxIn) (c : cache) : bool * cache :=
  match ins with
  | [] => (true, c)
  | i :: ins =>
      let '(r, c) := AccessCoins (hash (prevout i)) c in
      match r with
      | Some cs => if IsAvailable cs (n (prevout i)) then have_inputs_loop ins c else (false, c)
      | None => (false, c)
      end
  end.

Definition HaveInputs (tx : CTransaction) (c : cache) : bool * cache :=
  if negb (IsCoinBase tx) then have_inputs_loop (vin tx) c else (true, c).
End cache.

(** ** What views promise *)

(** The unspent outputs of coins, as they survive on disk; [None] when all are spent. *)
Definition unspent (c : CCoins) : option CCoins := if IsPruned c then None else Some (disk_coins c).

Lemma trim_cons o v :
  trim (o :: v) = if CTxOut_IsNull o && (length (trim v) =? 0)%nat then [] else o :: trim v.
Proof. done. Qed.

Lemma trim_idem v : trim (trim v) = trim v.
Proof.
  induction v as [|o v IH]; [done|]. rewrite trim_cons. destruct (_ && _) eqn:E; [done|].
  rewrite trim_cons, IH, E. done.
Qed.

Lemma trim_nulls v : forallb CTxOut_IsNull (trim v) = forallb CTxOut_IsNull v.
Proof.
  induction v as [|o v IH]; [done|]. rewrite trim_cons. cbn [forallb]. destruct (CTxOut_IsNull o) eqn:E; cbn [andb].
  - destruct (Nat.eqb_spec (length (trim v)) 0) as [Hl|Hl]; cbn [forallb].
    + rewrite <- IH. by destruct (trim v).
    + by rewrite E, IH.
  - cbn [forallb]. by rewrite E.
Qed.

Lemma trim_nil v : forallb CTxOut_IsNull v = true <-> trim v = [].
Proof.
  induction v as [|o v IH]; [done|]. rewrite trim_cons. cbn [forallb]. destruct (CTxOut_IsNull o); cbn [andb]; [|done].
  rewrite IH. destruct (trim v); done.
Qed.

Lemma null_null o : CTxOut_IsNull (if CTxOut_IsNull o then CTxOut_null else o) = CTxOut_IsNull o.
Proof. by destruct (CTxOut_IsNull o) eqn:E. Qed.

(** Clearing spent outputs and trimming may be exchanged. *)
Lemma trim_map (f : CTxOut -> CTxOut) v :
  (forall o, CTxOut_IsNull (f o) = CTxOut_IsNull o) -> trim (map f v) = map f (trim v).
Proof.
  intros Hf. induction v as [|o v IH]; [done|]. cbn [map]. rewrite !trim_cons, Hf, IH, length_map. by destruct (_ && _).
Qed.

Lemma disk_vout_trim v : disk_vout (trim v) = disk_vout v.
Proof. unfold disk_vout. rewrite !trim_map, trim_idem; [done|apply null_null..]. Qed.

Lemma disk_vout_idem v : disk_vout (disk_vout v) = disk_vout v.
Proof.
  unfold disk_vout. rewrite !trim_map, !trim_idem, map_map by apply null_null. apply map_ext. intros o. by rewrite null_null; destruct (CTxOut_IsNull o).
Qed.

Lemma disk_vout_nulls v : forallb CTxOut_IsNull (disk_vout v) = forallb CTxOut_IsNull v.
Proof.
  unfold disk_vout. rewrite trim_nulls. induction v as [|o v IH]; [done|]. cbn [map forallb]. by rewrite null_null, IH.
Qed.

Lemma disk_int_idem v : disk_int (disk_int v) = disk_int v.
Proof.
  unfold disk_int. destruct (Z.ltb_spec v 0); [|by destruct (Z.ltb_spec v 0); [lia|]].
  change 0x7F with (Z.ones 7). rewrite Z.land_ones by lia. pose proof (Z.mod_pos_bound v (2 ^ 7) ltac:(lia)).
  destruct (Z.ltb_spec (v mod 2 ^ 7) 0); [lia|done].
Qed.

Lemma disk_coins_idem c : disk_coins (disk_coins c) = disk_coins c.
Proof. unfold disk_coins. cbn [fCoinBase fCoinStake c_vout nHeight c_nVersion]. by rewrite disk_vout_idem, disk_int_idem. Qed.

Lemma unspent_disk c : unspent (disk_coins c) = unspent c.
Proof.
  unfold unspent, IsPruned. rewrite disk_coins_idem. cbn [c_vout disk_coins]. by rewrite disk_vout_nulls.
Qed.

Lemma unspent_Cleanup c : unspent (Cleanup c) = unspent c.
Proof.
  unfold unspent, IsPruned, disk_coins, Cleanup, set_vout.
  cbn [fCoinBase fCoinStake c_vout nHeight c_nVersion]. by rewrite trim_nulls, disk_vout_trim.
Qed.

Lemma unspent_None c : unspent c = None <-> IsPruned c = true.
Proof. unfold unspent. by destruct (IsPruned c). Qed.

(** A property of coins that storing them keeps; the views keep it for all their coins. *)
Class CoinInv (Q : CCoins -> Prop) := {
  inv_new : Q new_CCoins;
  inv_disk c : Q c -> Q (disk_coins c);
  inv_Cleanup c : Q c -> Q (Cleanup c);
}.

#[export] Instance CoinInv_True : CoinInv (fun _ => True).
Proof. by split. Qed.

(** A map may be written to a view when what it marks fresh is not unspent there. *)
Definition fresh_ok (Q : CCoins -> Prop) (v : uint256 -> option CCoins) (m : CCoinsMap) : Prop :=
  forall txid e, m !! txid = Some e -> (is_fresh e = true -> v txid = None) /\ Q (coins e).

(** The contents after the dirty entries have been written *)
Definition written (v : uint256 -> option CCoins) (m : CCoinsMap) (txid : uint256) : option CCoins :=
  match m !! txid with Some e => if is_dirty e then unspent (coins e) else v txid | None => v txid end.

(** The contents of a view, the states in which it keeps its promises, and the promises. *)
Class CoinsViewSpec (Q : CCoins -> Prop) (V : Type) `{CCoinsView V} := {
  contents : V -> uint256 -> option CCoins;
  view_ok : V -> Prop;
  GetCoins_spec v txid : view_ok v ->
    let '(r, v') := GetCoins txid v in
    (r ≫= unspent) = contents v txid /\ (forall cs, r = Some cs -> Q cs) /\ view_ok v' /\
    forall t, contents v' t = contents v t;
  HaveCoins_spec v txid : view_ok v ->
    let '(r, v') := HaveCoins txid v in
    (contents v txid <> None -> r = true) /\ view_ok v' /\ forall t, contents v' t = contents v t;
  GetBestBlock_spec v : view_ok v ->
    view_ok (GetBestBlock v).2 /\ forall t, contents (GetBestBlock v).2 t = contents v t;
  BatchWrite_spec v m h : view_ok v -> fresh_ok Q (contents v) m ->
    exists v', BatchWrite m h v = Some (true, v') /\ view_ok v' /\
      forall t, contents v' t = written (contents v) m t;
}.
Arguments contents Q {V _ _} _ _.
Arguments view_ok Q {V _ _} _.
Arguments GetCoins_spec {Q V _ _} v txid _.
Arguments HaveCoins_spec {Q V _ _} v txid _.
Arguments GetBestBlock_spec {Q V _ _} v _.
Arguments BatchWrite_spec {Q V _ _} v m h _ _.

(** *** The database keeps them *)

(** Writing entry by entry, in any order, is writing each key. *)
Lemma fold_pointwise {A B} (f : uint256 -> A -> gmap uint256 B -> gmap uint256 B) (g : A -> option B -> option B) :
  (forall k e m, f k e m !! k = g e (m !! k)) -> (forall k e m t, t <> k -> f k e m !! t = m !! t) ->
  forall d (m : gmap uint256 A) t,
    map_fold f d m !! t = match m !! t with Some e => g e (d !! t) | None => d !! t end.
Proof.
  intros Hk Ho d m. apply (map_fold_weak_ind (fun r m => forall t, r !! t =
    match m !! t with Some e => g e (d !! t) | None => d !! t end)); [done|].
  intros k e m' r Hm IH t. destruct (decide (t = k)) as [->|Hne].
  - by rewrite Hk, IH, Hm, lookup_insert_eq.
  - by rewrite Ho, lookup_insert_ne by done.
Qed.

Lemma db_write_lookup m d t :
  map_fold db_write d m !! t =
  match m !! t with
  | Some e => if is_dirty e then if IsPruned (coins e) then None else Some (disk_coins (coins e)) else d !! t
  | None => d !! t
  end.
Proof.
  apply (fold_pointwise db_write (fun e o =>
    if is_dirty e then if IsPruned (coins e) then None else Some (disk_coins (coins e)) else o)).
  - intros k e m'. unfold db_write. repeat case_match; by simplify_map_eq.
  - intros k e m' t' Hne. unfold db_write. repeat case_match; by simplify_map_eq.
Qed.

#[export] Program Instance CCoinsViewDB_spec Q `{!CoinInv Q} : CoinsViewSpec Q CCoinsViewDB := {
  contents d txid := db_coins d !! txid ≫= unspent;
  view_ok d := forall t cs, db_coins d !! t = Some cs -> Q cs;
}.
Next Obligation. intros Q HQ d txid Hd. cbn. split_and!; [done|apply Hd|done|done]. Qed.
Next Obligation. intros Q HQ d txid Hd. cbn. split_and!; [|done..]. by destruct (db_coins d !! txid). Qed.
Next Obligation. done. Qed.
Next Obligation.
  intros Q HQ d m h Hd Hf. eexists. split; [done|]. split; cbn [db_coins].
  - intros t cs. rewrite db_write_lookup. specialize (Hd t). specialize (Hf t).
    destruct (m !! t) as [e|]; [|apply Hd]. destruct (is_dirty e); [|apply Hd]. destruct (IsPruned (coins e)); [done|].
    intros [= <-]. by apply inv_disk, (Hf e).
  - intros t. rewrite db_write_lookup. unfold written. destruct (m !! t) as [e|]; [|done]. destruct (is_dirty e); [|done].
    destruct (IsPruned (coins e)) eqn:E; cbn [mbind option_bind].
    + symmetry. by apply unspent_None.
    + by rewrite unspent_disk.
Qed.

(** *** So does a cache on a view that does *)

Lemma land_pow2 x i : 0 <= i -> negb (x .& 2 ^ i =? 0) = Z.testbit x i.
Proof.
  intros Hi. destruct (Z.eqb_spec (x .& 2 ^ i) 0) as [E|E]; cbn [negb].
  - symmetry. apply (f_equal (fun y => Z.testbit y i)) in E.
    by rewrite Z.land_spec, Z.pow2_bits_true, andb_true_r, Z.bits_0 in E by lia.
  - symmetry. apply not_false_is_true. intros Hb. apply E, Z.bits_inj'. intros j Hj.
    rewrite Z.land_spec, Z.bits_0, Z.pow2_bits_eqb by lia. destruct (Z.eqb_spec i j) as [->|]; [by rewrite Hb|apply andb_false_r].
Qed.

Lemma is_dirty_bit e : is_dirty e = Z.testbit (flags e) 0.
Proof. exact (land_pow2 (flags e) 0 ltac:(lia)). Qed.
Lemma is_fresh_bit e : is_fresh e = Z.testbit (flags e) 1.
Proof. exact (land_pow2 (flags e) 1 ltac:(lia)). Qed.

Lemma or_dirty c f : is_dirty (Entry c (f .| DIRTY)) = true /\ is_fresh (Entry c (f .| DIRTY)) = is_fresh (Entry c f).
Proof. rewrite is_dirty_bit, !is_fresh_bit. cbn [flags]. rewrite !Z.lor_spec. split; [apply orb_true_r|apply orb_false_r]. Qed.

Section spec.
Context {V : Type} `{HV : CCoinsView V} (Q : CCoins -> Prop) `{HQ : !CoinInv Q} `{!CoinsViewSpec Q V}.
Abbreviation cache := (CCoinsViewCache V).
#[local] Abbreviation contents := (contents Q).
#[local] Abbreviation view_ok := (view_ok Q).

(** A fresh entry is not unspent below, an entry that is not dirty is what is below. *)
Definition entry_ok (v : uint256 -> option CCoins) (txid : uint256) (e : CCoinsCacheEntry) : Prop :=
  (is_fresh e = true -> v txid = None) /\ (is_dirty e = false -> unspent (coins e) = v txid) /\ Q (coins e).

Definition entries_ok (c : cache) : Prop :=
  view_ok (base c) /\ forall txid e, cacheCoins c !! txid = Some e -> entry_ok (contents (base c)) txid e.

Definition cache_contents (c : cache) (txid : uint256) : option CCoins :=
  match cacheCoins c !! txid with Some e => unspent (coins e) | None => contents (base c) txid end.

Lemma entry_ok_ext v v' t e : v' t = v t -> entry_ok v t e -> entry_ok v' t e.
Proof. intros E. unfold entry_ok. by rewrite E. Qed.

(** An entry as it comes from the view below *)
Lemma fetched_entry_ok v t tmp :
  v t = unspent tmp -> Q tmp -> entry_ok v t (Entry tmp (if IsPruned tmp then FRESH else 0)).
Proof.
  intros E HQt. unfold entry_ok. rewrite is_fresh_bit, E. cbn [coins flags].
  split; [|done]. destruct (IsPruned tmp) eqn:Ep; [|done]. intros _. by apply unspent_None.
Qed.

Lemma FetchCoins_spec c txid :
  entries_ok c ->
  let '(r, c') := FetchCoins txid c in
  ((coins <$> r) ≫= unspent) = cache_contents c txid /\ entries_ok c' /\ hasModifier c' = hasModifier c /\
  (forall t, cache_contents c' t = cache_contents c t) /\ cacheCoins c' !! txid = r.
Proof.
  intros [Hb Hc]. unfold FetchCoins, cache_contents. destruct (cacheCoins c !! txid) as [e|] eqn:E.
  - split_and!; [done|done|done|done|done].
  - pose proof (GetCoins_spec (base c) txid Hb) as H. destruct (GetCoins txid (base c)) as [[tmp|] b].
    + destruct H as (Hr&HQr&Hb'&Hv). cbn [mbind option_bind] in Hr. split_and!; [done| |done| |by simplify_map_eq].
      * split; [done|]. cbn [cacheCoins base set_coins set_base]. intros t e. rewrite lookup_insert_Some.
        intros [[<- <-]|[Hne He]]; [apply fetched_entry_ok; [congruence|by apply HQr]|].
        eapply entry_ok_ext; [apply Hv|by apply Hc].
      * intros t. cbn [cacheCoins base set_coins set_base]. destruct (decide (t = txid)) as [->|Hne].
        -- by rewrite lookup_insert_eq, E.
        -- rewrite lookup_insert_ne by done. by destruct (cacheCoins c !! t).
    + destruct H as (Hr&_&Hb'&Hv). split_and!; [done| |done| |done].
      * split; [done|]. intros t e He. eapply entry_ok_ext; [apply Hv|by apply Hc].
      * intros t. cbn [cacheCoins base set_base]. by destruct (cacheCoins c !! t).
Qed.

(** Entry by entry, writing to a cache *)
Lemma batch_lookup (m us : CCoinsMap) t :
  map_fold batch_entry us m !! t =
  match m !! t with
  | Some e =>
      if is_dirty e then
        match us !! t with
        | None => if is_fresh e && IsPruned (coins e) then None
                  else Some (Entry (coins e) (DIRTY .| (if is_fresh e then FRESH else 0)))
        | Some u => if is_fresh u && IsPruned (coins e) then None else Some (Entry (coins e) (flags u .| DIRTY))
        end
      else us !! t
  | None => us !! t
  end.
Proof.
  apply (fold_pointwise batch_entry (fun e o =>
    if is_dirty e then
      match o with
      | None => if is_fresh e && IsPruned (coins e) then None
                else Some (Entry (coins e) (DIRTY .| (if is_fresh e then FRESH else 0)))
      | Some u => if is_fresh u && IsPruned (coins e) then None else Some (Entry (coins e) (flags u .| DIRTY))
      end
    else o)).
  - intros k e m'. unfold batch_entry. repeat case_match; by simplify_map_eq.
  - intros k e m' t' Hne. unfold batch_entry. repeat case_match; by simplify_map_eq.
Qed.

Lemma BatchWrite_entries (m : CCoinsMap) h c :
  entries_ok c -> fresh_ok Q (cache_contents c) m ->
  let c' := Cache (base c) false h (map_fold batch_entry (cacheCoins c) m) in
  entries_ok c' /\ forall t, cache_contents c' t = written (cache_contents c) m t.
Proof.
  intros [Hb Hc] Hf c'. assert (forall t, (forall e, cacheCoins c' !! t = Some e -> entry_ok (contents (base c)) t e) /\
    cache_contents c' t = written (cache_contents c) m t) as H.
  2: { split; [split; [done|]; intros t e; apply H|apply H]. }
  intros t. unfold written, cache_contents. cbn [cacheCoins base c']. rewrite batch_lookup.
  pose proof (Hc t) as Hct. specialize (Hf t). unfold cache_contents in Hf.
  destruct (m !! t) as [e|]; [|by split]. destruct (is_dirty e); [|by split]. destruct (Hf e eq_refl) as [Hf' HQe]. clear Hf. rename Hf' into Hf.
  destruct (cacheCoins c !! t) as [u|].
  - destruct (Hct u eq_refl) as (Hu&_&_). destruct (is_fresh u) eqn:Eu; cbn [andb].
    + destruct (IsPruned (coins e)) eqn:Ep; [split; [done|]; rewrite Hu by done; symmetry; by apply unspent_None|].
      split; [|done]. intros e' [= <-]. destruct (or_dirty (coins e) (flags u)) as [Hd _].
      split_and!; [intros _; by apply Hu|by rewrite Hd|done].
    + split; [|done]. intros e' [= <-]. destruct (or_dirty (coins e) (flags u)) as [Hd Hfr].
      split_and!; [|by rewrite Hd|done]. rewrite Hfr. rewrite is_fresh_bit in Eu |- *. cbn [flags]. congruence.
  - destruct (is_fresh e) eqn:Ee; cbn [andb].
    + destruct (IsPruned (coins e)) eqn:Ep; [split; [done|]; rewrite Hf by done; symmetry; by apply unspent_None|].
      split; [|done]. intros e' [= <-]. split_and!; [|by rewrite is_dirty_bit|done]. intros _. by apply Hf.
    + split; [|done]. intros e' [= <-]. split_and!; [|by rewrite is_dirty_bit|done]. by rewrite is_fresh_bit.
Qed.

#[export] Program Instance CCoinsViewCache_spec : CoinsViewSpec Q cache := {
  contents := cache_contents;
  view_ok c := hasModifier c = false /\ entries_ok c;
}.
Next Obligation.
  intros c txid [Hm Hc]. cbn [GetCoins CCoinsViewCache_view]. unfold cache_GetCoins.
  pose proof (FetchCoins_spec c txid Hc) as H. destruct (FetchCoins txid c) as [r c'].
  destruct H as (?&Hok&?&?&Hl). split_and!; [done| |congruence|done|done].
  intros cs Hcs. destruct r as [e|]; [|done]. injection Hcs as <-. by apply (proj2 Hok txid e).
Qed.
Next Obligation.
  intros c txid [Hm Hc]. cbn [HaveCoins CCoinsViewCache_view]. unfold cache_HaveCoins.
  pose proof (FetchCoins_spec c txid Hc) as H. destruct (FetchCoins txid c) as [r c'].
  destruct H as (Hr&?&?&?&_). split_and!; [|congruence|done|done]. rewrite <- Hr.
  destruct r as [e|]; cbn; [|done]. unfold unspent, IsPruned. by destruct (c_vout (coins e)).
Qed.
Next Obligation.
  intros c [Hm [Hb Hc]]. cbn [GetBestBlock CCoinsViewCache_view]. unfold cache_GetBestBlock.
  destruct (bool_decide _); [|by split]. pose proof (GetBestBlock_spec (base c) Hb) as [H1 H2].
  destruct (GetBestBlock (base c)) as [h b]. cbn [snd] in *. split.
  - split; [done|]. split; [done|]. intros t e He. eapply entry_ok_ext; [apply H2|by apply Hc].
  - intros t. unfold cache_contents. cbn. by destruct (cacheCoins c !! t).
Qed.
Next Obligation.
  intros c m h [Hm Hc] Hf. cbn [BatchWrite CCoinsViewCache_view]. unfold cache_BatchWrite. rewrite Hm.
  destruct (BatchWrite_entries m h c Hc Hf). eexists. by split.
Qed.

(** *** Flushing and forgetting *)

Lemma Flush_spec (c : cache) :
  view_ok c ->
  exists c', Flush c = Some (true, c') /\ view_ok c' /\ cacheCoins c' = ∅ /\
    (forall t, contents c' t = contents c t) /\ forall t, contents (base c') t = contents c t.
Proof.
  intros [Hm [Hb Hc]]. unfold Flush.
  destruct (BatchWrite_spec (base c) (cacheCoins c) (hashBlock c) Hb) as (b&E&Hb'&Hv).
  { intros t e He. by destruct (Hc t e He) as (?&_&?). }
  assert (forall t, contents b t = contents c t) as Hbc.
  { intros t. rewrite Hv. unfold written. cbn. unfold cache_contents. destruct (cacheCoins c !! t) as [e|] eqn:Et; [|done].
    destruct (is_dirty e) eqn:Ed; [done|]. symmetry. by apply Hc. }
  rewrite E. cbn [mbind option_bind]. eexists. split; [done|]. split_and!; [|done| |done].
  - split; [done|]. split; [done|]. intros t e. cbn. by rewrite lookup_empty.
  - intros t. rewrite <- Hbc. cbn. unfold cache_contents. cbn. by rewrite lookup_empty.
Qed.

Lemma Uncache_spec (c : cache) txid :
  view_ok c -> view_ok (Uncache txid c) /\ base (Uncache txid c) = base c /\
    forall t, contents (Uncache txid c) t = contents c t.
Proof.
  intros [Hm [Hb Hc]]. unfold Uncache. destruct (cacheCoins c !! txid) as [e|] eqn:E; [|done].
  destruct (Z.eqb_spec (flags e) 0) as [Ef|]; [|done]. split_and!; [|done|].
  - split; [done|]. split; [done|]. intros t e'. cbn. rewrite lookup_delete_Some. intros [_ He]. by apply Hc.
  - intros t. cbn. unfold cache_contents. cbn. destruct (decide (t = txid)) as [->|Hne].
    + rewrite lookup_delete_eq, E. symmetry. apply (Hc txid e E). by rewrite is_dirty_bit, Ef.
    + by rewrite lookup_delete_ne by done.
Qed.

(** *** Modifiers *)

(** A modifier on [txid] is alive and gives access to [cs]. *)
Definition editing (txid : uint256) (cs : CCoins) (c : cache) : Prop :=
  entries_ok c /\ hasModifier c = true /\ exists fl, cacheCoins c !! txid = Some (Entry cs fl) /\ is_dirty (Entry cs fl) = true.

Lemma editing_insert (c : cache) txid cs fl :
  entries_ok c -> Q cs -> (is_fresh (Entry cs fl) = true -> contents (base c) txid = None) ->
  editing txid cs (set_modifier (set_coins c (<[txid := Entry cs (fl .| DIRTY)]> (cacheCoins c))) true).
Proof.
  intros [Hb Hc] HQc Hf. destruct (or_dirty cs fl) as [Hd Hfr]. split_and!; [|done|].
  - split; [done|]. cbn. intros t e. rewrite lookup_insert_Some. intros [[<- <-]|[_ He]]; [|by apply Hc].
    split_and!; [by rewrite Hfr|by rewrite Hd|done].
  - exists (fl .| DIRTY). split; [apply lookup_insert_eq|done].
Qed.

Lemma insert_contents (c : cache) txid e t :
  t <> txid -> cache_contents (set_modifier (set_coins c (<[txid := e]> (cacheCoins c))) true) t = cache_contents c t.
Proof. intros Hne. unfold cache_contents. cbn. by rewrite lookup_insert_ne. Qed.

Lemma ModifyCoins_spec (c : cache) txid :
  view_ok c ->
  exists c1 cs, ModifyCoins txid c = Some c1 /\ editing txid cs c1 /\ Q cs /\ unspent cs = contents c txid /\
    (forall t, t <> txid -> cache_contents c1 t = contents c t) /\ (forall t, contents (base c1) t = contents (base c) t).
Proof.
  intros [Hm Hok]. pose proof Hok as [Hb Hc]. unfold ModifyCoins. rewrite Hm. cbn [contents CCoinsViewCache_spec].
  unfold cache_contents at 1. destruct (cacheCoins c !! txid) as [e|] eqn:E.
  - eexists _, (coins e). split; [done|]. split_and!; [|by apply (Hc txid e E)|done| |done].
    + apply editing_insert; [done|by apply (Hc txid e E)|]. intros Hf. apply (Hc txid e E). by rewrite is_fresh_bit in Hf |- *.
    + intros t Hne. by apply insert_contents.
  - pose proof (GetCoins_spec (base c) txid Hb) as Hg. destruct (GetCoins txid (base c)) as [r b].
    destruct Hg as (Hr&HQr&Hb'&Hv).
    assert (entries_ok (set_base c b)) as Hok'.
    { split; [done|]. intros t e He. eapply entry_ok_ext; [apply Hv|by apply Hc]. }
    assert (forall t e, t <> txid -> cache_contents (set_modifier (set_coins (set_base c b) (<[txid := e]> (cacheCoins c))) true) t
      = cache_contents c t) as Hother.
    { intros t e Hne. rewrite (insert_contents (set_base c b)) by done. unfold cache_contents. cbn.
      by destruct (cacheCoins c !! t). }
    destruct r as [tmp|]; cbn [mbind option_bind] in Hr.
    + eexists _, tmp. split; [done|]. split_and!; [|by apply HQr|done|intros t Hne; by apply Hother|done].
      apply (editing_insert (set_base c b) txid tmp (if IsPruned tmp then FRESH else 0));
        [done|by apply HQr|]. cbn. rewrite Hv. apply (fetched_entry_ok (contents (base c)) txid tmp); [done|by apply HQr].
    + eexists _, new_CCoins. split; [done|]. split_and!; [|apply inv_new|done|intros t Hne; by apply Hother|done].
      apply (editing_insert (set_base c b) txid new_CCoins FRESH); [done|apply inv_new|]. intros _. cbn. by rewrite Hv.
Qed.

Lemma ModifyNewCoins_spec (c : cache) txid coinbase :
  view_ok c -> (coinbase = false -> contents (base c) txid = None) ->
  exists c1, ModifyNewCoins txid coinbase c = Some c1 /\ editing txid new_CCoins c1 /\ base c1 = base c /\
    forall t, t <> txid -> cache_contents c1 t = contents c t.
Proof.
  intros [Hm Hok] Hn. pose proof Hok as [Hb Hc]. unfold ModifyNewCoins. rewrite Hm. eexists. split; [done|]. split_and!; [|done|].
  - apply editing_insert; [done|apply inv_new|]. destruct coinbase; [|by intros; apply Hn]. rewrite is_fresh_bit. cbn [flags].
    destruct (cacheCoins c !! txid) as [e|] eqn:E; cbn [default]; [|done]. intros Hf. apply (Hc txid e E). by rewrite is_fresh_bit.
  - intros t Hne. by apply insert_contents.
Qed.

Lemma modify_spec (c : cache) txid cs f :
  editing txid cs c -> Q (f cs) ->
  editing txid (f cs) (modify txid f c) /\ base (modify txid f c) = base c /\ modified txid c = Some cs /\
    forall t, t <> txid -> cache_contents (modify txid f c) t = cache_contents c t.
Proof.
  intros ([Hb Hc]&Hm&fl&E&Hd) HQf. unfold modify, modified. rewrite E. split_and!; [|done|done|].
  - split_and!; [|done|].
    + split; [done|]. cbn. intros t e. rewrite lookup_alter_Some. intros [(<-&e0&He0&->)|[_ He]]; [|by apply Hc].
      rewrite E in He0. injection He0 as <-. specialize (Hc txid _ E). destruct Hc as (Hf&_&_). split_and!.
      * intros Hfr. apply Hf. by rewrite is_fresh_bit in Hfr |- *.
      * intros Hdd. by rewrite is_dirty_bit in Hd, Hdd; cbn in Hd, Hdd; congruence.
      * done.
    + exists fl. cbn. rewrite lookup_alter_eq, E. cbn. split; [done|]. by rewrite is_dirty_bit in Hd |- *.
  - intros t Hne. unfold cache_contents. cbn. by rewrite lookup_alter_ne.
Qed.

Lemma release_spec (c : cache) txid cs :
  editing txid cs c ->
  exists c', release txid c = Some c' /\ view_ok c' /\ base c' = base c /\ contents c' txid = unspent cs /\
    forall t, t <> txid -> contents c' t = cache_contents c t.
Proof.
  intros ([Hb Hc]&Hm&fl&E&Hd). unfold release. rewrite Hm, E. cbn [negb mbind option_bind coins flags].
  set (e := Entry (Cleanup cs) fl). assert (is_fresh e = true -> contents (base c) txid = None) as Hf.
  { intros Hfr. apply (Hc txid _ E). by rewrite is_fresh_bit in Hfr |- *. }
  destruct (is_fresh e && IsPruned (Cleanup cs)) eqn:Ee.
  - apply andb_true_iff in Ee as [Hfr Hp]. eexists. split; [done|]. split_and!; [|done| |].
    + split; [done|]. split; [done|]. cbn. intros t e'. rewrite lookup_delete_Some. intros [_ He]. by apply Hc.
    + cbn. unfold cache_contents. cbn. rewrite lookup_delete_eq, Hf by done. symmetry. rewrite <- unspent_Cleanup.
      by apply unspent_None.
    + intros t Hne. cbn. unfold cache_contents. cbn. by rewrite lookup_delete_ne.
  - eexists. split; [done|]. split_and!; [|done| |].
    + split; [done|]. split; [done|]. cbn. intros t e'. rewrite lookup_insert_Some.
      intros [[<- <-]|[_ He]]; [|by apply Hc]. split_and!; [done| |by apply inv_Cleanup, (Hc txid _ E)].
      intros Hdd. unfold e in Hdd. rewrite is_dirty_bit in Hd, Hdd. cbn in Hd, Hdd. congruence.
    + cbn. unfold cache_contents. cbn. rewrite lookup_insert_eq. exact (unspent_Cleanup cs).
    + intros t Hne. cbn. unfold cache_contents. cbn. by rewrite lookup_insert_ne.
Qed.
End spec.

(** ** What is seen exactly *)

(** The promises above are about the coins as they survive on disk.  These are about the very
    coins that a reader gets: a view is a map from hashes to coins, which a write to a cache
    below keeps as they are, and a write to the database reduces to what the format holds.
    Coins with all outputs spent count as none. *)
Definition live (cs : CCoins) : option CCoins := if IsPruned cs then None else Some cs.
Definition trimmed (cs : CCoins) : Prop := trim (c_vout cs) = c_vout cs.

Lemma live_None cs : live cs = None <-> IsPruned cs = true.
Proof. unfold live. by destruct (IsPruned cs). Qed.
Lemma live_unspent cs : live cs ≫= unspent = unspent cs.
Proof. unfold live. destruct (IsPruned cs) eqn:E; [|done]. symmetry. by apply unspent_None. Qed.
Lemma live_disk cs : live (disk_coins cs) = disk_coins <$> live cs.
Proof. unfold live, IsPruned. cbn [c_vout disk_coins]. rewrite disk_vout_nulls. by destruct (forallb _ _). Qed.
Lemma trimmed_Cleanup cs : trimmed (Cleanup cs).
Proof. unfold trimmed. cbn. apply trim_idem. Qed.
Lemma trimmed_disk cs : trimmed (disk_coins cs).
Proof. unfold trimmed. cbn. apply trim_idem. Qed.
Lemma trimmed_pruned cs : trimmed cs -> IsPruned cs = (length (c_vout cs) =? 0)%nat.
Proof.
  unfold trimmed, IsPruned. intros E. destruct (forallb CTxOut_IsNull (c_vout cs)) eqn:Ef.
  - apply trim_nil in Ef. rewrite <- E, Ef. done.
  - destruct (c_vout cs); [done|]. done.
Qed.

(** What is seen once the entry [o] of a batch has been written where [s] was seen *)
Definition stored (s : option CCoins) (o : option CCoinsCacheEntry) (s' : option CCoins) : Prop :=
  match o with
  | Some e => if is_dirty e then s' = live (coins e) \/ s' = disk_coins <$> live (coins e) else s' = s
  | None => s' = s
  end.

Class CoinsViewSeen (Q : CCoins -> Prop) (V : Type) `{CoinsViewSpec Q V} := {
  seen : V -> uint256 -> option CCoins;
  seen_ok : V -> Prop;
  seen_live v t cs : seen v t = Some cs -> IsPruned cs = false;
  seen_contents v t : contents Q v t = seen v t ≫= unspent;
  GetCoins_seen v txid : view_ok Q v -> seen_ok v ->
    let '(r, v') := GetCoins txid v in
    r ≫= live = seen v txid /\ (forall cs, r = Some cs -> trimmed cs) /\ seen_ok v' /\ forall t, seen v' t = seen v t;
  HaveCoins_seen v txid : view_ok Q v -> seen_ok v ->
    let '(r, v') := HaveCoins txid v in
    r = bool_decide (is_Some (seen v txid)) /\ seen_ok v' /\ forall t, seen v' t = seen v t;
  BatchWrite_seen v m h r v' : view_ok Q v -> seen_ok v -> fresh_ok Q (contents Q v) m ->
    (forall t e, m !! t = Some e -> trimmed (coins e)) -> BatchWrite m h v = Some (r, v') ->
    seen_ok v' /\ forall t, stored (seen v t) (m !! t) (seen v' t);
}.
Arguments seen Q {V _ _ _} _ _.
Arguments seen_ok Q {V _ _ _} _.

#[export] Program Instance CCoinsViewDB_seen Q `{!CoinInv Q} : CoinsViewSeen Q CCoinsViewDB := {
  seen d txid := db_coins d !! txid ≫= live;
  seen_ok d := forall t cs, db_coins d !! t = Some cs -> trimmed cs /\ IsPruned cs = false;
}.
Next Obligation. intros Q HQ d t cs. cbn. destruct (db_coins d !! t) as [w|]; [|done]. cbn. unfold live. destruct (IsPruned w) eqn:E; [done|]. by intros [= <-]. Qed.
Next Obligation. intros Q HQ d t. cbn. destruct (db_coins d !! t) as [w|]; [|done]. cbn. by rewrite live_unspent. Qed.
Next Obligation. intros Q HQ d t _ Hd. cbn. split_and!; [done| |done|done]. intros cs Hcs. by apply (Hd t). Qed.
Next Obligation.
  intros Q HQ d t _ Hd. cbn. split_and!; [|done..]. destruct (db_coins d !! t) as [w|] eqn:E; [|done].
  destruct (Hd t w E) as [_ Hp]. cbn. unfold live. rewrite Hp. done.
Qed.
Next Obligation.
  intros Q HQ d m h r v' _ Hd _ Hm [= <- <-]. split; cbn [db_coins seen].
  - intros t cs. rewrite db_write_lookup. specialize (Hd t). specialize (Hm t).
    destruct (m !! t) as [e|]; [|apply Hd]. destruct (is_dirty e); [|apply Hd]. destruct (IsPruned (coins e)) eqn:Ep; [done|].
    intros [= <-]. split; [apply trimmed_disk|]. unfold IsPruned. cbn. by rewrite disk_vout_nulls.
  - intros t. rewrite db_write_lookup. unfold stored. destruct (m !! t) as [e|]; [|done]. destruct (is_dirty e); [|done]. right.
    unfold live at 2. destruct (IsPruned (coins e)) eqn:Ep; [done|]. cbn. rewrite live_disk. unfold live. by rewrite Ep.
Qed.

Section seen_cache.
Context {V : Type} `{HV : CCoinsView V} (Q : CCoins -> Prop) `{HQ : !CoinInv Q} `{!CoinsViewSpec Q V} `{!CoinsViewSeen Q V}.
Abbreviation cache := (CCoinsViewCache V).
#[local] Abbreviation contents := (contents Q).
#[local] Abbreviation view_ok := (view_ok Q).
#[local] Abbreviation seen := (seen Q).
#[local] Abbreviation seen_ok := (seen_ok Q).

Lemma seen_None (v : V) t : contents v t = None -> seen v t = None.
Proof.
  intros E. rewrite seen_contents in E. destruct (seen v t) as [w|] eqn:Es; [|done]. cbn in E.
  apply seen_live in Es. apply unspent_None in E. congruence.
Qed.

Definition cache_seen (c : cache) (txid : uint256) : option CCoins :=
  match cacheCoins c !! txid with Some e => live (coins e) | None => seen (base c) txid end.

Definition entry_seen (v : uint256 -> option CCoins) (txid : uint256) (e : CCoinsCacheEntry) : Prop :=
  trimmed (coins e) /\ (is_dirty e = false -> live (coins e) = v txid).

Definition cache_seen_ok (c : cache) : Prop :=
  seen_ok (base c) /\ forall t e, cacheCoins c !! t = Some e -> entry_seen (seen (base c)) t e.

Lemma FetchCoins_seen (c : cache) txid :
  view_ok c -> cache_seen_ok c ->
  let '(r, c') := FetchCoins txid c in
  (coins <$> r) ≫= live = cache_seen c txid /\ (forall cs, coins <$> r = Some cs -> trimmed cs) /\ cache_seen_ok c' /\
  (forall t, cache_seen c' t = cache_seen c t) /\ forall t, seen (base c') t = seen (base c) t.
Proof.
  intros [_ [Hvb _]] [Hb Hc]. unfold FetchCoins, cache_seen. destruct (cacheCoins c !! txid) as [e|] eqn:E.
  - split_and!; [done| |done|done|done]. intros cs [= <-]. by apply (Hc txid e).
  - pose proof (GetCoins_seen (base c) txid Hvb Hb) as H. destruct (GetCoins txid (base c)) as [[tmp|] b].
    + destruct H as (Hr&Hcl&Hb'&Hv). cbn [mbind option_bind] in Hr. split_and!; [done| | | |done].
      * intros cs [= <-]. by apply Hcl.
      * split; [done|]. cbn [cacheCoins base set_coins set_base]. intros t e. rewrite lookup_insert_Some.
        intros [[<- <-]|[Hne He]]; (split; [|intros Hd]); cbn [coins].
        -- by apply Hcl.
        -- by rewrite Hv.
        -- by apply (Hc t e).
        -- rewrite Hv. by apply (Hc t e).
      * intros t. cbn [cacheCoins base set_coins set_base]. destruct (decide (t = txid)) as [->|Hne].
        -- by rewrite lookup_insert_eq, E.
        -- rewrite lookup_insert_ne by done. by destruct (cacheCoins c !! t).
    + destruct H as (Hr&_&Hb'&Hv). split_and!; [done|done| | |done].
      * split; [done|]. intros t e He. destruct (Hc t e He) as [? Hd]. split; [done|]. intros Hdd. cbn [base set_base]. rewrite Hv. by apply Hd.
      * intros t. cbn [cacheCoins base set_base]. by destruct (cacheCoins c !! t).
Qed.

Lemma batch_seen (m : CCoinsMap) h (c : cache) :
  view_ok c -> cache_seen_ok c -> fresh_ok Q (contents c) m -> (forall t e, m !! t = Some e -> trimmed (coins e)) ->
  let c' := Cache (base c) false h (map_fold batch_entry (cacheCoins c) m) in
  cache_seen_ok c' /\ forall t, stored (cache_seen c t) (m !! t) (cache_seen c' t).
Proof.
  intros [_ [_ Hent]] [Hb Hc] Hf Hcl c'.
  assert (forall t, (forall e, cacheCoins c' !! t = Some e -> entry_seen (seen (base c)) t e) /\
    stored (cache_seen c t) (m !! t) (cache_seen c' t)) as H.
  2: { split; [split; [done|]; intros t e; apply H|apply H]. }
  intros t. unfold stored, cache_seen. cbn [cacheCoins base c']. rewrite batch_lookup. specialize (Hc t). specialize (Hf t). specialize (Hcl t).
  specialize (Hent t). destruct (m !! t) as [e|]; [|by split]. destruct (is_dirty e) eqn:Ed; [|by split].
  destruct (Hf e eq_refl) as [Hfe _]. specialize (Hcl e eq_refl). cbn [contents CCoinsViewCache_spec] in Hfe. unfold cache_contents in Hfe.
  destruct (cacheCoins c !! t) as [u|].
  - destruct (is_fresh u && IsPruned (coins e)) eqn:Ep.
    + apply andb_true_iff in Ep as [Hfr Hp]. split; [done|]. left. rewrite (proj2 (live_None _) Hp). apply seen_None, (Hent u eq_refl), Hfr.
    + split; [|by left]. intros e' [= <-]. destruct (or_dirty (coins e) (flags u)) as [Hd _]. split; [done|by rewrite Hd].
  - destruct (is_fresh e && IsPruned (coins e)) eqn:Ep.
    + apply andb_true_iff in Ep as [Hfr Hp]. split; [done|]. left. rewrite (proj2 (live_None _) Hp). by apply seen_None, Hfe.
    + split; [|by left]. intros e' [= <-]. split; [done|by rewrite is_dirty_bit; destruct (is_fresh e)].
Qed.

#[export] Program Instance CCoinsViewCache_seen : CoinsViewSeen Q cache := {
  seen := cache_seen;
  seen_ok := cache_seen_ok;
}.
Next Obligation.
  intros c t cs. unfold cache_seen. destruct (cacheCoins c !! t) as [e|]; [|apply seen_live]. unfold live.
  destruct (IsPruned (coins e)) eqn:E; [done|]. by intros [= <-].
Qed.
Next Obligation.
  intros c t. cbn. unfold cache_contents, cache_seen. destruct (cacheCoins c !! t) as [e|]; [by rewrite live_unspent|apply seen_contents].
Qed.
Next Obligation.
  intros c txid Hok Hs. cbn [GetCoins CCoinsViewCache_view]. unfold cache_GetCoins. pose proof (FetchCoins_seen c txid Hok Hs) as H.
  destruct (FetchCoins txid c) as [r c']. destruct H as (?&?&?&?&_). done.
Qed.
Next Obligation.
  intros c txid Hok Hs. cbn [HaveCoins CCoinsViewCache_view]. unfold cache_HaveCoins. pose proof (FetchCoins_seen c txid Hok Hs) as H.
  destruct (FetchCoins txid c) as [r c']. destruct H as (Hr&Hcl&Hs'&Hv&_). split_and!; [|done..].
  rewrite <- Hr. destruct r as [e|]; [|done]. cbn. rewrite <- (trimmed_pruned (coins e)) by by apply Hcl.
  unfold live. by destruct (IsPruned (coins e)).
Qed.
Next Obligation.
  intros c m h r c' Hok Hs Hf Hcl. pose proof Hok as [Hm _]. cbn [BatchWrite CCoinsViewCache_view]. unfold cache_BatchWrite. rewrite Hm.
  intros [= <- <-]. exact (batch_seen m h c Hok Hs Hf Hcl).
Qed.

Lemma Flush_seen (c c' : cache) r :
  view_ok c -> seen_ok c -> Flush c = Some (r, c') ->
  seen_ok c' /\ forall t, seen c' t = seen c t \/ seen c' t = disk_coins <$> seen c t.
Proof.
  intros [Hm [Hb He]] [Hsb Hs]. unfold Flush.
  destruct (BatchWrite_spec (base c) (cacheCoins c) (hashBlock c) Hb) as (b&E&Hb'&_).
  { intros t e Ht. by destruct (He t e Ht) as (?&_&?). }
  destruct (BatchWrite_seen (base c) (cacheCoins c) (hashBlock c) true b Hb Hsb) as [Hsb' Hst]; [| |done|].
  { intros t e Ht. by destruct (He t e Ht) as (?&_&?). }
  { intros t e Ht. by apply (Hs t e). }
  rewrite E. cbn [mbind option_bind]. intros [= <- <-]. split.
  - split; [done|]. cbn. intros t e. by rewrite lookup_empty.
  - intros t. cbn. unfold cache_seen. cbn. rewrite lookup_empty. specialize (Hst t). unfold stored in Hst.
    destruct (cacheCoins c !! t) as [e|] eqn:Et; [|by left]. destruct (is_dirty e) eqn:Ed; [done|]. left. rewrite Hst. symmetry.
    by apply (Hs t e).
Qed.

Lemma Uncache_seen (c : cache) txid :
  seen_ok c -> seen_ok (Uncache txid c) /\ forall t, seen (Uncache txid c) t = seen c t.
Proof.
  intros [Hb Hs]. unfold Uncache. destruct (cacheCoins c !! txid) as [e|] eqn:E; [|done].
  destruct (Z.eqb_spec (flags e) 0) as [Ef|]; [|done]. split.
  - split; [done|]. cbn. intros t e'. rewrite lookup_delete_Some. intros [_ He]. by apply Hs.
  - intros t. cbn. unfold cache_seen. cbn. destruct (decide (t = txid)) as [->|Hne]; [|by rewrite lookup_delete_ne].
    rewrite lookup_delete_eq, E. symmetry. apply (Hs txid e E). by rewrite is_dirty_bit, Ef.
Qed.

(** A modifier that has been opened on coins [cs] in a cache that was seen as [m] *)
Definition opened (m : uint256 -> option CCoins) (txid : uint256) (cs : CCoins) (c : cache) : Prop :=
  seen_ok (base c) /\ (exists fl, cacheCoins c !! txid = Some (Entry cs fl) /\ is_dirty (Entry cs fl) = true) /\
  (forall t, t <> txid -> cache_seen c t = m t) /\
  forall t e, t <> txid -> cacheCoins c !! t = Some e -> entry_seen (seen (base c)) t e.

Lemma opened_insert (c : cache) b txid cs fl :
  seen_ok c -> seen_ok b -> (forall t, seen b t = seen (base c) t) ->
  opened (seen c) txid cs (set_modifier (set_coins (set_base c b) (<[txid := Entry cs (fl .| DIRTY)]> (cacheCoins c))) true).
Proof.
  intros [_ Hs] Hb Hv. split_and!; [done| | |].
  - exists (fl .| DIRTY). cbn. split; [apply lookup_insert_eq|]. apply (or_dirty cs fl).
  - intros t Hne. unfold cache_seen. cbn. rewrite lookup_insert_ne by done. unfold cache_seen. by destruct (cacheCoins c !! t).
  - cbn. intros t e Hne. rewrite lookup_insert_ne by done. intros He. destruct (Hs t e He) as [? Hd]. split; [done|].
    intros Hdd. rewrite Hv. by apply Hd.
Qed.

Lemma ModifyCoins_seen (c c1 : cache) txid :
  view_ok c -> seen_ok c -> ModifyCoins txid c = Some c1 ->
  exists cs, live cs = seen c txid /\ opened (seen c) txid cs c1 /\ modified txid c1 = Some cs.
Proof.
  intros [Hm [Hvb _]] Hs. pose proof Hs as [Hb Hc]. unfold ModifyCoins, modified. rewrite Hm. cbn [seen CCoinsViewCache_seen].
  unfold cache_seen at 1. destruct (cacheCoins c !! txid) as [e|] eqn:E.
  - intros [= <-]. exists (coins e). split_and!; [done| |cbn; by rewrite lookup_insert_eq].
    exact (opened_insert c (base c) txid (coins e) (flags e) Hs Hb (fun _ => eq_refl)).
  - pose proof (GetCoins_seen (base c) txid Hvb Hb) as H. destruct (GetCoins txid (base c)) as [r b].
    destruct H as (Hr&_&Hb'&Hv).
    destruct r as [tmp|]; cbn [mbind option_bind] in Hr; intros [= <-].
    + exists tmp. split_and!; [done| |cbn; by rewrite lookup_insert_eq]. by apply opened_insert.
    + exists new_CCoins. split_and!; [done| |cbn; by rewrite lookup_insert_eq]. by apply opened_insert.
Qed.

Lemma ModifyNewCoins_seen (c c1 : cache) txid coinbase :
  seen_ok c -> ModifyNewCoins txid coinbase c = Some c1 -> opened (seen c) txid new_CCoins c1.
Proof.
  intros Hs. unfold ModifyNewCoins. destruct (hasModifier c); [done|]. intros [= <-]. pose proof Hs as [Hb _].
  exact (opened_insert c (base c) txid new_CCoins _ Hs Hb (fun _ => eq_refl)).
Qed.

Lemma modify_release_seen (m : uint256 -> option CCoins) (c c' : cache) txid cs f :
  opened m txid cs c -> editing Q txid (f cs) (modify txid f c) -> release txid (modify txid f c) = Some c' ->
  seen_ok c' /\ forall t, seen c' t = if decide (t = txid) then live (Cleanup (f cs)) else m t.
Proof.
  intros (Hb&(fl&E&Hd)&Ho&Hent) ([_ Hedit]&Hmod&_). unfold release. rewrite Hmod. cbn [negb].
  assert (cacheCoins (modify txid f c) !! txid = Some (Entry (f cs) fl)) as El by (cbn; by rewrite lookup_alter_eq, E).
  rewrite El. cbn [mbind option_bind coins flags].
  assert (is_fresh (Entry (Cleanup (f cs)) fl) = true -> seen (base c) txid = None) as Hfresh.
  { intros Hfr. apply seen_None. apply (Hedit txid _ El). by rewrite is_fresh_bit in Hfr |- *. }
  intros [= <-]. split; [split; [done|]|]; cbn [base cacheCoins set_coins set_modifier modify].
  - intros t e. destruct (is_fresh _ && IsPruned _).
    + rewrite lookup_delete_Some. intros [Hne He]. rewrite lookup_alter_ne in He by done. by apply Hent.
    + rewrite lookup_insert_Some. intros [[<- <-]|[Hne He]].
      * split; [apply trimmed_Cleanup|]. intros Hdd. rewrite is_dirty_bit in Hd, Hdd. cbn in Hd, Hdd. congruence.
      * rewrite lookup_alter_ne in He by done. by apply Hent.
  - intros t. cbn [seen CCoinsViewCache_seen]. unfold cache_seen. cbn [base cacheCoins set_coins set_modifier modify].
    destruct (decide (t = txid)) as [->|Hne].
    + destruct (is_fresh _ && IsPruned _) eqn:Ep.
      * apply andb_true_iff in Ep as [Hfr Hp]. rewrite lookup_delete_eq, Hfresh by done. symmetry. by apply live_None.
      * by rewrite lookup_insert_eq.
    + rewrite <- Ho by done. unfold cache_seen. destruct (is_fresh _ && IsPruned _).
      * by rewrite lookup_delete_ne, lookup_alter_ne by done.
      * by rewrite lookup_insert_ne, lookup_alter_ne by done.
Qed.
End seen_cache.

(** ** A cache is a map *)

(** What is done to a cache: reads, a modification through a modifier, the coins of a new
    transaction, forgetting and flushing. *)
Inductive cache_op :=
  | OpGet (txid : uint256)
  | OpHave (txid : uint256)
  | OpModify (txid : uint256) (f : CCoins -> CCoins)
  | OpNew (txid : uint256) (coinbase : bool) (cs : CCoins)
  | OpUncache (txid : uint256)
  | OpFlush.

(** What the caller gets to see; coins that are all spent are as good as none. *)
Inductive answer := Read (r : option CCoins) | Have (b : bool) | Done.

Section trace.
Context {V : Type} `{HV : CCoinsView V}.
Abbreviation cache := (CCoinsViewCache V).

(** One operation: the answer, and the cache; [None] is a failed assertion. *)
Definition run_op (op : cache_op) (c : cache) : option (answer * cache) :=
  match op with
  | OpGet txid => let '(r, c) := GetCoins txid c in Some (Read (r ≫= live), c)
  | OpHave txid => let '(b, c) := HaveCoins txid c in Some (Have b, c)
  | OpModify txid f => c ← ModifyCoins txid c; c ← release txid (modify txid f c); Some (Done, c)
  | OpNew txid coinbase cs =>
      c ← ModifyNewCoins txid coinbase c; c ← release txid (modify txid (fun _ => cs) c); Some (Done, c)
  | OpUncache txid => Some (Done, Uncache txid c)
  | OpFlush => '(ok, c) ← Flush c; if ok : bool then Some (Done, c) else None
  end.

Fixpoint run_ops (ops : list cache_op) (c : cache) : option (list answer * cache) :=
  match ops with
  | [] => Some ([], c)
  | op :: ops => '(r, c) ← run_op op c; '(rs, c) ← run_ops ops c; Some (r :: rs, c)
  end.
End trace.

(** The map: reads answer from it, writes set one hash, and a flush may reduce coins to what the
    format on disk holds of them, without [fCoinStake] and the sign of the version.  A
    modification of spent coins starts from some coins without outputs. *)
Inductive map_step : cache_op -> (uint256 -> option CCoins) -> answer -> (uint256 -> option CCoins) -> Prop :=
  | step_get txid m m' : (forall t, m' t = m t) -> map_step (OpGet txid) m (Read (m txid)) m'
  | step_have txid m m' : (forall t, m' t = m t) -> map_step (OpHave txid) m (Have (bool_decide (is_Some (m txid)))) m'
  | step_modify txid f cs m m' :
      live cs = m txid -> (forall t, m' t = if decide (t = txid) then live (Cleanup (f cs)) else m t) ->
      map_step (OpModify txid f) m Done m'
  | step_new txid coinbase cs m m' :
      (forall t, m' t = if decide (t = txid) then live (Cleanup cs) else m t) -> map_step (OpNew txid coinbase cs) m Done m'
  | step_uncache txid m m' : (forall t, m' t = m t) -> map_step (OpUncache txid) m Done m'
  | step_flush m m' : (forall t, m' t = m t \/ m' t = disk_coins <$> m t) -> map_step OpFlush m Done m'.

Inductive map_steps : list cache_op -> (uint256 -> option CCoins) -> list answer -> (uint256 -> option CCoins) -> Prop :=
  | steps_nil m : map_steps [] m [] m
  | steps_cons op ops m m1 m2 r rs :
      map_step op m r m1 -> map_steps ops m1 rs m2 -> map_steps (op :: ops) m (r :: rs) m2.

(** [known]: the hashes that have been written before. New transactions other than coinbases
    have hashes that were not. *)
Fixpoint allowed (Q : CCoins -> Prop) (known : uint256 -> Prop) (ops : list cache_op) : Prop :=
  match ops with
  | [] => True
  | OpModify txid f :: ops => (forall cs, Q cs -> Q (f cs)) /\ allowed Q (fun t => t = txid \/ known t) ops
  | OpNew txid coinbase cs :: ops =>
      (coinbase = false -> ~ known txid) /\ Q cs /\ allowed Q (fun t => t = txid \/ known t) ops
  | _ :: ops => allowed Q known ops
  end.

Section refinement.
Context {V : Type} `{HV : CCoinsView V} (Q : CCoins -> Prop) `{HQ : !CoinInv Q} `{!CoinsViewSpec Q V} `{!CoinsViewSeen Q V}.
Abbreviation cache := (CCoinsViewCache V).
#[local] Abbreviation contents := (contents Q).
#[local] Abbreviation view_ok := (view_ok Q).
#[local] Abbreviation seen := (seen Q).
#[local] Abbreviation seen_ok := (seen_ok Q).
#[local] Abbreviation allowed := (allowed Q).

(** The cache is in order, and nothing is unspent under an unknown hash, here or below. *)
Definition in_order (known : uint256 -> Prop) (c : cache) : Prop :=
  view_ok c /\ seen_ok c /\ forall t, ~ known t -> contents (base c) t = None /\ contents c t = None.

Lemma in_order_new known (c c' : cache) txid :
  in_order known c -> view_ok c' -> seen_ok c' -> (forall t, contents (base c') t = contents (base c) t) ->
  (forall t, t <> txid -> contents c' t = contents c t) -> in_order (fun t => t = txid \/ known t) c'.
Proof.
  intros (_&_&Hk) Hok Hs Hb Ho. split_and!; [done..|]. intros t Ht.
  assert (t <> txid) by (intros ->; apply Ht; by left). rewrite Hb, Ho by done. apply Hk. intros ?. apply Ht. by right.
Qed.

Lemma in_order_same known (c c' : cache) :
  in_order known c -> view_ok c' -> seen_ok c' ->
  (forall t, contents (base c') t = contents (base c) t \/ contents (base c') t = contents c t) ->
  (forall t, contents c' t = contents c t) -> in_order known c'.
Proof.
  intros (_&_&Hk) Hok Hs Hb Ho. split_and!; [done..|]. intros t Ht. destruct (Hk t Ht) as [H1 H2]. rewrite Ho.
  split; [|done]. destruct (Hb t); congruence.
Qed.

(** Reading leaves what is below as it is. *)
Lemma Fetch_base (c : cache) txid : view_ok (base c) ->
  forall t, contents (base (FetchCoins txid c).2) t = contents (base c) t.
Proof.
  intros Hb t. unfold FetchCoins. destruct (cacheCoins c !! txid); [done|].
  pose proof (GetCoins_spec (Q := Q) (base c) txid Hb) as H. destruct (GetCoins txid (base c)) as [[tmp|] b]; apply H.
Qed.

Lemma run_read (c : cache) txid known :
  in_order known c ->
  let '(r, c') := FetchCoins txid c in
  in_order known c' /\ (coins <$> r) ≫= live = seen c txid /\ forall t, seen c' t = seen c t.
Proof.
  intros Ho. pose proof Ho as (Hok&Hs&_). pose proof Hok as [_ Hent].
  pose proof (FetchCoins_seen Q c txid Hok Hs) as H. pose proof (FetchCoins_spec Q c txid Hent) as H2.
  pose proof (Fetch_base c txid (proj1 Hent)) as Hb. destruct (FetchCoins txid c) as [r c'].
  destruct H as (?&_&?&Hv&_), H2 as (_&He&Hm&Hc&_). split_and!; [|done|done].
  apply (in_order_same known c); [done|split; [|done]|done|intros t; left; apply Hb|done]. rewrite Hm. apply Hok.
Qed.

(** One operation is one step of the map. *)
Lemma run_op_spec known op ops (c : cache) :
  allowed known (op :: ops) -> in_order known c ->
  exists r c' known', run_op op c = Some (r, c') /\ map_step op (seen c) r (seen c') /\ in_order known' c' /\ allowed known' ops.
Proof.
  intros Ha Ho. pose proof Ho as (Hok&Hs&Hk).
  destruct op as [txid|txid|txid f|txid cb cs|txid|]; cbn [run_op allowed] in *.
  - pose proof (run_read c txid known Ho) as H. cbn. unfold cache_GetCoins. destruct (FetchCoins txid c) as [r c'].
    destruct H as (Ho'&Hr&Hv). eexists _, c', known. split; [done|]. rewrite Hr. split; [by constructor|done].
  - pose proof (run_read c txid known Ho) as H. pose proof (HaveCoins_seen (Q := Q) c txid Hok Hs) as H2. cbn in H2 |- *.
    unfold cache_HaveCoins in *. destruct (FetchCoins txid c) as [r c']. destruct H as (Ho'&_&Hv), H2 as (Hr&_).
    eexists _, c', known. split; [done|]. rewrite Hr. split; [by constructor|done].
  - destruct Ha as (HQf&Ha). destruct (ModifyCoins_spec Q c txid Hok) as (c1&cs&E1&He&HQc&_&Hoth&Hb). rewrite E1. cbn [mbind option_bind].
    destruct (ModifyCoins_seen Q c c1 txid Hok Hs E1) as (cs'&Hl&Hop&Hm).
    destruct (modify_spec Q c1 txid cs f He (HQf cs HQc)) as (He2&Hb2&Hm2&Ho2). rewrite Hm2 in Hm. injection Hm as <-.
    destruct (release_spec Q _ txid (f cs) He2) as (c3&E3&Hok3&Hb3&_&Ho3). rewrite E3. cbn [mbind option_bind].
    destruct (modify_release_seen Q _ _ _ _ _ f Hop He2 E3) as [Hs3 Hv3].
    eexists _, c3, _. split; [done|]. split; [by econstructor|]. split; [|exact Ha].
    apply (in_order_new known c c3 txid); [done|done|done|congruence|]. intros t Hne. rewrite Ho3, Ho2, Hoth by done. done.
  - destruct Ha as (Hn&HQc&Ha). destruct (ModifyNewCoins_spec Q c txid cb Hok) as (c1&E1&He&Hb&Hoth).
    { intros ->. by apply Hk, Hn. }
    rewrite E1. cbn [mbind option_bind]. pose proof (ModifyNewCoins_seen Q c c1 txid cb Hs E1) as Hop.
    destruct (modify_spec Q c1 txid new_CCoins (fun _ => cs) He HQc) as (He2&Hb2&_&Ho2).
    destruct (release_spec Q _ txid cs He2) as (c3&E3&Hok3&Hb3&_&Ho3). rewrite E3. cbn [mbind option_bind].
    destruct (modify_release_seen Q _ _ _ _ _ (fun _ => cs) Hop He2 E3) as [Hs3 Hv3].
    eexists _, c3, _. split; [done|]. split; [by constructor|]. split; [|exact Ha].
    apply (in_order_new known c c3 txid); [done|done|done|congruence|]. intros t Hne. rewrite Ho3, Ho2, Hoth by done. done.
  - destruct (Uncache_spec Q c txid Hok) as (Hok'&Hb&Hv). destruct (Uncache_seen Q c txid Hs) as [Hs' Hv'].
    eexists _, _, known. split; [done|]. split; [by constructor|]. split; [|done].
    apply (in_order_same known c); [done|done|done|intros t; left; by rewrite Hb|done].
  - destruct (Flush_spec Q c Hok) as (c'&E&Hok'&_&Hv&Hb). destruct (Flush_seen Q c c' true Hok Hs E) as [Hs' Hv'].
    rewrite E. eexists _, c', known. split; [done|]. split; [by constructor|]. split; [|done].
    apply (in_order_same known c); [done|done|done|intros t; right; apply Hb|done].
Qed.

Lemma run_ops_spec known ops (c : cache) :
  allowed known ops -> in_order known c ->
  exists rs c', run_ops ops c = Some (rs, c') /\ view_ok c' /\ seen_ok c' /\ map_steps ops (seen c) rs (seen c').
Proof.
  revert known c. induction ops as [|op ops IH]; intros known c Ha Ho.
  - destruct Ho as (?&?&_). exists [], c. split_and!; [done..|constructor].
  - destruct (run_op_spec known op ops c Ha Ho) as (r&c1&k1&E&Hstep&Ho1&Ha1). cbn [run_ops]. rewrite E. cbn [mbind option_bind].
    destruct (IH k1 c1 Ha1 Ho1) as (rs&c2&E2&?&?&?). rewrite E2. exists (r :: rs), c2. split_and!; [done..|by econstructor].
Qed.
End refinement.

(** C25: A cache on any view that keeps its promises (the database, or another cache) behaves as
    one map from hashes to coins: for every sequence of reads, queries, modifications, new
    transactions, uncachings and flushes, no assertion fails, and there is a run of the map in
    which every read gives exactly the coins of the map, every query says whether there are any,
    a modification and a new transaction set the coins of one hash, and uncaching changes
    nothing.  A flush may reduce coins to what the disk format holds of them: outputs, height and
    coinbase mark stay, [fCoinStake] and the sign of the version are lost.  New transactions other
    than coinbases must have hashes that were never written. Any property [Q] of coins that
    storing them keeps stays true of all coins. *)
Theorem coins_cache_is_map {V : Type} `{HV : CCoinsView V} (Q : CCoins -> Prop) `{HQ : !CoinInv Q} `{!CoinsViewSpec Q V}
    `{!CoinsViewSeen Q V} (known : uint256 -> Prop) (ops : list cache_op) (c : CCoinsViewCache V) :
  view_ok Q c -> seen_ok Q c -> (forall t, ~ known t -> contents Q (base c) t = None /\ contents Q c t = None) ->
  allowed Q known ops ->
  exists rs c', run_ops ops c = Some (rs, c') /\ view_ok Q c' /\ seen_ok Q c' /\ map_steps ops (seen Q c) rs (seen Q c').
Proof. intros Hok Hs Hk Ha. by apply (run_ops_spec Q known). Qed.

(** A cache on a cache on a database, as the node has them *)
Definition sample_view : CCoinsViewCache (CCoinsViewCache CCoinsViewDB) :=
  new_cache (new_cache {| db_coins := ∅; db_best := hash_null |}).
Definition sample_coins : CCoins := Coins true false [{| nValue := 5; scriptPubKey := [81] |}] 3 1.

Lemma coins_cache_is_map_witness :
  exists rs c', run_ops [OpNew [7] true sample_coins; OpFlush; OpGet [7]; OpModify [7] (fun _ => new_CCoins); OpFlush; OpHave [7]] sample_view =
      Some (rs, c') /\
    map_steps [OpNew [7] true sample_coins; OpFlush; OpGet [7]; OpModify [7] (fun _ => new_CCoins); OpFlush; OpHave [7]]
      (seen (fun _ => True) sample_view) rs (seen (fun _ => True) c') /\
    rs = [Done; Done; Read (Some sample_coins); Done; Done; Have false].
Proof.
  destruct (coins_cache_is_map (fun _ => True) (fun _ => False)
    [OpNew [7] true sample_coins; OpFlush; OpGet [7]; OpModify [7] (fun _ => new_CCoins); OpFlush; OpHave [7]] sample_view)
    as (rs&c'&E&_&_&Hc).
  - split; [done|]. split; [|intros t e; cbn; by rewrite lookup_empty]. split; [done|]. split; [done|].
    intros t e. cbn. by rewrite lookup_empty.
  - split; [|intros t e; cbn; by rewrite lookup_empty]. split; [|intros t e; cbn; by rewrite lookup_empty].
    intros t cs. cbn. by rewrite lookup_empty.
  - intros t _. cbn. unfold cache_contents. cbn. unfold cache_contents. cbn. by rewrite !lookup_empty.
  - by repeat split.
  - exists rs, c'. split; [exact E|]. split; [exact Hc|]. vm_compute in E. by injection E as <- _.
Defined.

(** ** What the cache does not promise *)

(** [ModifyNewCoins] marks the entry fresh even when the cache holds a dirty entry over coins
    that are unspent below: connecting a transaction again after disconnecting it, without a
    flush in between, and spending it makes its outputs unspent again. *)
Lemma fresh_resurrects :
  let c := new_cache {| db_coins := {[ [7] := sample_coins ]}; db_best := hash_null |} in
  exists c', run_ops [OpModify [7] (fun _ => new_CCoins); OpNew [7] false sample_coins;
                      OpModify [7] (fun _ => new_CCoins); OpFlush; OpGet [7]] c =
    Some ([Done; Done; Done; Done; Read (Some sample_coins)], c').
Proof. by eexists. Qed.

(** That coins come from a coinstake is forgotten once they have been flushed and read again. *)
Lemma coinstake_forgotten :
  let cs := Coins false true [{| nValue := 5; scriptPubKey := [81] |}] 3 1 in
  let c := new_cache {| db_coins := ∅; db_best := hash_null |} in
  (c ← ModifyNewCoins [7] false c; c ← release [7] (modify [7] (fun _ => cs) c);
   '(_, c) ← Flush c; Some (fCoinStake <$> (GetCoins [7] c).1)) = Some (Some false).
Proof. reflexivity. Qed.
