(* ===== verification/Undo.v ===== *)
(** Connecting and disconnecting the coins of a block ([src/src/main.cpp], [undo.h]):
    spending the inputs of a transaction with the data to undo it, adding its outputs, and
    the way back. Disconnecting a block that was connected restores what can be read of every
    coin, except for the mark of coinstakes, which undo data does not keep. *)

From stdpp Require Import gmap.
From S2P Require Import Prelude SphTypes Serialize Codec Script Transaction Coins.

#[local] Open Scope c_scope.

(** [CTxInUndo] *)
Record CTxInUndo := TxInUndo { txout : CTxOut; u_fCoinBase : bool; u_nHeight : Z; u_nVersion : Z }.
Definition new_CTxInUndo (o : CTxOut) : CTxInUndo := TxInUndo o false 0 0.

Section undo.
Context {V : Type} `{HV : CCoinsView V}.
Abbreviation cache := (CCoinsViewCache V).

(** [CTransaction::GetHash] *)
Context (txhash : CTransaction -> uint256).

(** ** Connecting *)

(** The undo data of an output of [cs]; [cs'] is what is left without it. *)
Definition undo_data (o : CTxOut) (cs' : CCoins) : CTxInUndo :=
  if (length (c_vout cs') =? 0)%nat then TxInUndo o (fCoinBase cs') (u32 (nHeight cs')) (c_nVersion cs')
  else new_CTxInUndo o.

(** Spending an output: its undo data and what is left; [None] is a failed assertion. *)
Definition spend_coins (cs : CCoins) (nPos : Z) : option (CTxInUndo * CCoins) :=
  o ← c_vout cs !! Z.to_nat nPos;
  if CTxOut_IsNull o then None
  else let cs' := (Spend cs nPos).2 in Some (undo_data o cs', cs').

(** One round of the loop of [UpdateCoins] *)
Definition spend_input (txin : CTxIn) (inputs : cache) : option (CTxInUndo * cache) :=
  let h := hash (prevout txin) in
  inputs ← ModifyCoins h inputs;
  cs ← modified h inputs;
  '(undo, cs') ← spend_coins cs (n (prevout txin));
  inputs ← release h (modify h (fun _ => cs') inputs);
  Some (undo, inputs).

Fixpoint spend_inputs (ins : list CTxIn) (inputs : cache) : option (list CTxInUndo * cache) :=
  match ins with
  | [] => Some ([], inputs)
  | i :: ins =>
      '(u, inputs) ← spend_input i inputs;
      '(us, inputs) ← spend_inputs ins inputs;
      Some (u :: us, inputs)
  end.

Definition UpdateCoins (tx : CTransaction) (inputs : cache) (height : Z) : option (list CTxInUndo * cache) :=
  '(vprevout, inputs) ← (if negb (IsCoinBase tx) then spend_inputs (vin tx) inputs else Some ([], inputs));
  inputs ← ModifyNewCoins (txhash tx) (IsCoinBase tx) inputs;
  inputs ← release (txhash tx) (modify (txhash tx) (fun _ => FromTx tx height) inputs);
  Some (vprevout, inputs).

(** The transactions of a block in order, each with its undo data ([ConnectBlock] drops that of
    the coinbase) *)
Fixpoint connect_txs (vtx : list CTransaction) (view : cache) (height : Z) : option (list (list CTxInUndo) * cache) :=
  match vtx with
  | [] => Some ([], view)
  | tx :: vtx =>
      '(u, view) ← UpdateCoins tx view height;
      '(us, view) ← connect_txs vtx view height;
      Some (u :: us, view)
  end.

(** ** Disconnecting *)

(** [vout.resize(k)] *)
Definition resize_vout (v : list CTxOut) (k : nat) : list CTxOut := take k v ++ replicate (k - length v) CTxOut_null.

(** What [ApplyTxInUndo] does to the coins; [None] is an access outside the vector. *)
Definition undo_coins (undo : CTxInUndo) (cs : CCoins) (nPos : Z) : option (bool * CCoins) :=
  let '(fClean, cs) :=
    if negb (u_nHeight undo =? 0)
    then (IsPruned cs, Coins (u_fCoinBase undo) false [] (u_nHeight undo) (u_nVersion undo))
    else (negb (IsPruned cs), cs) in
  let fClean := if IsAvailable cs nPos then false else fClean in
  let v := if Z.of_nat (length (c_vout cs)) <? u32 (nPos + 1)
           then resize_vout (c_vout cs) (Z.to_nat (u32 (nPos + 1))) else c_vout cs in
  if Z.of_nat (length v) <=? nPos then None
  else Some (fClean, set_vout cs (<[Z.to_nat nPos := txout undo]> v)).

Definition ApplyTxInUndo (undo : CTxInUndo) (view : cache) (out : COutPoint) : option (bool * cache) :=
  view ← ModifyCoins (hash out) view;
  cs ← modified (hash out) view;
  '(fClean, cs) ← undo_coins undo cs (n out);
  view ← release (hash out) (modify (hash out) (fun _ => cs) view);
  Some (fClean, view).

(** [for (j = tx.vin.size(); j-- > 0;)]: the last input first *)
Fixpoint undo_inputs (ins : list (CTxIn * CTxInUndo)) (view : cache) : option (bool * cache) :=
  match ins with
  | [] => Some (true, view)
  | (i, u) :: ins =>
      '(ok, view) ← undo_inputs ins view;
      '(ok', view) ← ApplyTxInUndo u view (prevout i);
      Some (ok && ok', view)
  end.

(** The outputs of a transaction are checked and removed. *)
Definition remove_outputs (tx : CTransaction) (height : Z) (view : cache) : option (bool * cache) :=
  view ← ModifyCoins (txhash tx) view;
  cs ← modified (txhash tx) view;
  let outs := ClearUnspendable cs in
  let outsBlock := FromTx tx height in
  let outs := if c_nVersion outsBlock <? 0
              then Coins (fCoinBase outs) (fCoinStake outs) (c_vout outs) (nHeight outs) (c_nVersion outsBlock)
              else outs in
  view ← release (txhash tx) (modify (txhash tx) (fun _ => new_CCoins) view);
  Some (CCoins_eq outs outsBlock, view).

(** One transaction; [Some None] is the error of inconsistent undo data. *)
Definition disconnect_tx (tx : CTransaction) (txundo : list CTxInUndo) (height : Z) (view : cache)
    : option (option (bool * cache)) :=
  '(ok, view) ← remove_outputs tx height view;
  if negb (length txundo =? length (vin tx))%nat then Some None
  else
    '(ok', view) ← undo_inputs (zip (vin tx) txundo) view;
    Some (Some (ok && ok', view)).

(** The loop of [DisconnectBlock] over the transactions with their undo data, the last one
    first; the first transaction of a block has no inputs to restore. *)
Fixpoint disconnect_rest (vtx : list (CTransaction * list CTxInUndo)) (height : Z) (view : cache)
    : option (option (bool * cache)) :=
  match vtx with
  | [] => Some (Some (true, view))
  | (tx, u) :: vtx =>
      r ← disconnect_rest vtx height view;
      match r with
      | None => Some None
      | Some (ok, view) =>
          r ← disconnect_tx tx u height view;
          match r with None => Some None | Some (ok', view) => Some (Some (ok && ok', view)) end
      end
  end.

(** [DisconnectBlock] between reading the undo data and the indexes of addresses: whether all
    was clean *)
Definition disconnect_txs (vtx : list CTransaction) (vtxundo : list (list CTxInUndo)) (height : Z) (view : cache)
    : option (option (bool * cache)) :=
  if negb (length vtxundo + 1 =? length vtx)%nat then Some None
  else
    match vtx with
    | [] => Some None
    | coinbase :: vtx =>
        r ← disconnect_rest (zip vtx vtxundo) height view;
        match r with
        | None => Some None
        | Some (ok, view) =>
            '(ok', view) ← remove_outputs coinbase height view;
            Some (Some (ok && ok', view))
        end
    end.
End undo.

(** ** Outputs by position *)

(** The unspent output at a position *)
Definition out_at (v : list CTxOut) (i : nat) : option CTxOut :=
  o ← v !! i; if CTxOut_IsNull o then None else Some o.

(** Spent outputs are null in one way, and versions are not negative: such coins are stored
    exactly, but for the coinstake flag. *)
Definition nulls_ok (v : list CTxOut) : Prop := Forall (fun o => CTxOut_IsNull o = true -> o = CTxOut_null) v.
Definition clean (c : CCoins) : Prop := nulls_ok (c_vout c) /\ 0 <= c_nVersion c.

Lemma out_at_cons o v i : out_at (o :: v) (S i) = out_at v i.
Proof. done. Qed.

Lemma trim_ext v w :
  nulls_ok v -> nulls_ok w -> (forall i, out_at v i = out_at w i) -> trim v = trim w.
Proof.
  assert (forall v, (forall i, out_at v i = None) -> trim v = []) as Hnil.
  { intros u Hu. apply trim_nil. apply forallb_forall. intros o Ho. apply list_elem_of_In, list_elem_of_lookup in Ho as [i Hi].
    specialize (Hu i). unfold out_at in Hu. rewrite Hi in Hu. cbn in Hu. by destruct (CTxOut_IsNull o). }
  revert w. induction v as [|o v IH]; intros w Hv Hw He.
  - symmetry. apply Hnil. intros i. by rewrite <- He.
  - destruct w as [|p w]; [apply Hnil; intros i; by rewrite He|].
    apply Forall_cons_1 in Hv as [Ho Hv]. apply Forall_cons_1 in Hw as [Hp Hw].
    assert (trim v = trim w) as Et by (apply IH; [done|done|]; intros i; exact (He (S i))).
    specialize (He 0%nat). cbn in He. rewrite !trim_cons, Et.
    destruct (CTxOut_IsNull o) eqn:Eo, (CTxOut_IsNull p) eqn:Ep; try done.
    + by rewrite Ho, Hp.
    + by injection He as ->.
Qed.

Lemma out_at_trim v i : out_at (trim v) i = out_at v i.
Proof.
  revert i. induction v as [|o v IH]; intros i; [done|]. rewrite trim_cons.
  destruct (CTxOut_IsNull o && (length (trim v) =? 0)%nat) eqn:E.
  - apply andb_true_iff in E as [Eo El%Nat.eqb_eq]. destruct i as [|i]; [cbn; by rewrite Eo|].
    rewrite out_at_cons, <- IH. by destruct (trim v).
  - destruct i as [|i]; [done|]. by rewrite !out_at_cons.
Qed.

Lemma pruned_out_at c : IsPruned c = true <-> forall i, out_at (c_vout c) i = None.
Proof.
  unfold IsPruned. rewrite forallb_forall. split.
  - intros H i. unfold out_at. destruct (c_vout c !! i) as [o|] eqn:E; [|done]. cbn.
    rewrite (H o); [done|]. by apply list_elem_of_In, (list_elem_of_lookup_2 _ i).
  - intros H o Ho. apply list_elem_of_In, list_elem_of_lookup in Ho as [i Hi]. specialize (H i). unfold out_at in H.
    rewrite Hi in H. cbn in H. by destruct (CTxOut_IsNull o).
Qed.

Lemma out_at_insert v i o j :
  (i < length v)%nat -> out_at (<[i := o]> v) j = if decide (j = i) then if CTxOut_IsNull o then None else Some o else out_at v j.
Proof.
  intros Hi. unfold out_at. destruct (decide (j = i)) as [->|Hne].
  - by rewrite list_lookup_insert_eq.
  - by rewrite list_lookup_insert_ne.
Qed.

Lemma out_at_resize v k i : (length v <= k)%nat -> out_at (resize_vout v k) i = out_at v i.
Proof.
  intros Hk. unfold resize_vout, out_at. rewrite take_ge by done. destruct (decide (i < length v)%nat).
  - by rewrite lookup_app_l.
  - rewrite lookup_app_r, (lookup_ge_None_2 v) by lia. cbn.
    destruct (replicate (k - length v) CTxOut_null !! (i - length v)%nat) as [o|] eqn:E; [|done].
    apply lookup_replicate in E as [-> _]. done.
Qed.

Lemma nulls_ok_insert v i o : nulls_ok v -> (CTxOut_IsNull o = true -> o = CTxOut_null) -> nulls_ok (<[i := o]> v).
Proof. intros Hv Ho. by apply Forall_insert. Qed.

Lemma nulls_ok_resize v k : nulls_ok v -> nulls_ok (resize_vout v k).
Proof. intros Hv. apply Forall_app. split; [by apply Forall_take|by apply Forall_replicate]. Qed.

Lemma nulls_ok_trim v : nulls_ok v -> nulls_ok (trim v).
Proof.
  intros Hv. induction Hv as [|o v Ho Hv IH]; [constructor|]. rewrite trim_cons. destruct (_ && _); [constructor|].
  by apply Forall_cons_2.
Qed.

Lemma nulls_ok_clear (b : CTxOut -> bool) v :
  nulls_ok v -> nulls_ok (map (fun o => if b o then CTxOut_null else o) v).
Proof.
  intros Hv. apply Forall_map. eapply Forall_impl; [|exact Hv]. intros o Ho. cbn. by destruct (b o).
Qed.

#[export] Instance clean_inv : CoinInv clean.
Proof.
  split.
  - split; [constructor|done].
  - intros c [Hv Hn]. split; cbn [disk_coins c_vout c_nVersion].
    + apply nulls_ok_trim, nulls_ok_clear, Hv.
    + unfold disk_int. by destruct (Z.ltb_spec (c_nVersion c) 0); [lia|].
  - intros c [Hv Hn]. split; [|done]. by apply nulls_ok_trim.
Qed.

(** Clean coins have the same unspent outputs when they have them at the same positions and
    come from the same transaction. *)
Lemma disk_vout_clean v : nulls_ok v -> disk_vout v = trim v.
Proof.
  intros Hv. unfold disk_vout. f_equal. rewrite <- (map_id v) at 2. apply map_ext_in. intros o Ho.
  unfold nulls_ok in Hv. rewrite List.Forall_forall in Hv.
  destruct (CTxOut_IsNull o) eqn:E; [|done]. symmetry. by apply Hv.
Qed.

Lemma disk_int_pos v : 0 <= v -> disk_int v = v.
Proof. intros Hv. unfold disk_int. by destruct (Z.ltb_spec v 0); [lia|]. Qed.

Lemma unspent_ext a b :
  clean a -> clean b -> (forall i, out_at (c_vout a) i = out_at (c_vout b) i) ->
  fCoinBase a = fCoinBase b -> nHeight a = nHeight b -> c_nVersion a = c_nVersion b -> unspent a = unspent b.
Proof.
  intros [Ha Ha'] [Hb Hb'] Ho E1 E2 E3. assert (IsPruned a = IsPruned b) as Ep.
  { apply Bool.eq_iff_eq_true. rewrite !pruned_out_at. by setoid_rewrite Ho. }
  unfold unspent, disk_coins. rewrite Ep, !disk_vout_clean, (trim_ext _ _ Ha Hb Ho), E1, E2, E3 by done. done.
Qed.

Lemma unspent_inv a b :
  clean a -> clean b -> unspent a = unspent b ->
  (forall i, out_at (c_vout a) i = out_at (c_vout b) i) /\
  (IsPruned b = false -> fCoinBase a = fCoinBase b /\ nHeight a = nHeight b /\ c_nVersion a = c_nVersion b).
Proof.
  intros [Ha Ha'] [Hb Hb']. unfold unspent, disk_coins. rewrite !disk_vout_clean, !disk_int_pos by done.
  destruct (IsPruned a) eqn:Ea, (IsPruned b) eqn:Eb; try done.
  - intros _. split; [|done]. intros i. rewrite pruned_out_at in Ea, Eb. by rewrite Ea, Eb.
  - intros [= E1 E2 E3 E4]. split; [|done]. intros i. by rewrite <- out_at_trim, E2, out_at_trim.
Qed.

(** ** Spending and undoing *)

Lemma out_at_Some v i o : v !! i = Some o -> CTxOut_IsNull o = false -> out_at v i = Some o.
Proof. intros E Ho. unfold out_at. rewrite E. cbn. by rewrite Ho. Qed.

Lemma IsAvailable_out_at c nPos : IsAvailable c nPos = bool_decide (is_Some (out_at (c_vout c) (Z.to_nat nPos))).
Proof.
  unfold IsAvailable, out_at. destruct (c_vout c !! Z.to_nat nPos) as [o|]; [|done]. cbn.
  by destruct (CTxOut_IsNull o).
Qed.

Lemma spend_coins_out cs nPos u cs' :
  clean cs -> spend_coins cs nPos = Some (u, cs') ->
  exists o, out_at (c_vout cs) (Z.to_nat nPos) = Some o /\ CTxOut_IsNull o = false /\ u = undo_data o cs' /\ clean cs' /\
    c_vout cs' = trim (<[Z.to_nat nPos := CTxOut_null]> (c_vout cs)) /\
    (forall j, out_at (c_vout cs') j = if decide (j = Z.to_nat nPos) then None else out_at (c_vout cs) j) /\
    fCoinBase cs' = fCoinBase cs /\ nHeight cs' = nHeight cs /\ c_nVersion cs' = c_nVersion cs.
Proof.
  intros [Hv Hn]. unfold spend_coins. destruct (c_vout cs !! Z.to_nat nPos) as [o|] eqn:E; [|done]. cbn [mbind option_bind].
  destruct (CTxOut_IsNull o) eqn:Eo; [done|]. intros [= <- <-]. exists o.
  assert (out_at (c_vout cs) (Z.to_nat nPos) = Some o) as Ho by by apply out_at_Some.
  unfold Spend. rewrite IsAvailable_out_at, Ho, bool_decide_true by done. cbn [snd Cleanup set_vout c_vout fCoinBase nHeight c_nVersion].
  split_and!; try done.
  - split; [|done]. apply nulls_ok_trim. by apply nulls_ok_insert.
  - intros j. rewrite out_at_trim, out_at_insert by by apply lookup_lt_Some in E. done.
Qed.

Lemma undo_spend cs nPos u cs' cs2 :
  clean cs -> 0 < nHeight cs < 2 ^ 32 -> 0 <= nPos < 2 ^ 32 - 1 -> spend_coins cs nPos = Some (u, cs') ->
  clean cs2 -> unspent cs2 = unspent cs' ->
  exists r, undo_coins u cs2 nPos = Some (true, r) /\ clean r /\ unspent r = unspent cs.
Proof.
  intros Hc Hh Hp Hs Hc2 Hu. destruct (spend_coins_out cs nPos u cs' Hc Hs) as (o&Ho&Hno&->&Hc'&Hv'&Hout&E1&E2&E3).
  destruct (unspent_inv cs2 cs' Hc2 Hc' Hu) as [Hout2 Hmeta]. unfold undo_coins.
  assert (forall cs3 fl, clean cs3 -> (forall j, out_at (c_vout cs3) j = out_at (c_vout cs') j) ->
    fCoinBase cs3 = fCoinBase cs -> nHeight cs3 = nHeight cs -> c_nVersion cs3 = c_nVersion cs -> fl = true ->
    txout (undo_data o cs') = o ->
    let fClean := if IsAvailable cs3 nPos then false else fl in
    let v := if Z.of_nat (length (c_vout cs3)) <? u32 (nPos + 1)
             then resize_vout (c_vout cs3) (Z.to_nat (u32 (nPos + 1))) else c_vout cs3 in
    exists r, (if Z.of_nat (length v) <=? nPos then None
       else Some (fClean, set_vout cs3 (<[Z.to_nat nPos := txout (undo_data o cs')]> v))) = Some (true, r) /\
      clean r /\ unspent r = unspent cs) as Hfin.
  { intros cs3 fl [Hv3 Hn3] Hj F1 F2 F3 -> ->. cbv zeta. rewrite IsAvailable_out_at, Hj, Hout, decide_True by done.
    rewrite bool_decide_false by (by intros [? ?]). unfold u32. rewrite Z.mod_small by lia.
    set (v := if _ <? _ then _ else _).
    assert ((Z.to_nat nPos < length v)%nat /\ nulls_ok v /\ forall j, out_at v j = out_at (c_vout cs3) j) as (Hl&Hnv&Hvj).
    { unfold v. destruct (Z.ltb_spec (Z.of_nat (length (c_vout cs3))) (nPos + 1)).
      - split_and!; [|by apply nulls_ok_resize|intros j; apply out_at_resize; lia].
        unfold resize_vout. rewrite length_app, length_take, length_replicate. lia.
      - split_and!; [lia|done|done]. }
    destruct (Z.leb_spec (Z.of_nat (length v)) nPos); [lia|]. eexists. split; [done|].
    assert (clean (set_vout cs3 (<[Z.to_nat nPos:=o]> v))) as Hcr.
    { split; [|done]. apply nulls_ok_insert; [done|congruence]. }
    split; [done|]. apply unspent_ext; [done|done| |done|done|done].
    intros j. cbn [set_vout c_vout]. rewrite out_at_insert, Hvj, Hj, Hout, Hno by done.
    destruct (decide (j = Z.to_nat nPos)) as [->|]; [by rewrite Ho|done]. }
  unfold undo_data in *. destruct (Nat.eqb_spec (length (c_vout cs')) 0) as [El|El]; cbn [u_nHeight new_CTxInUndo].
  - (* the last output: the metadata is in the undo data *)
    assert (u32 (nHeight cs') = nHeight cs) as Eh by (unfold u32; rewrite E2; apply Z.mod_small; lia).
    rewrite Eh in *. destruct (Z.eqb_spec (nHeight cs) 0); [lia|]. cbn [negb].
    assert (c_vout cs' = []) as Env by (by destruct (c_vout cs')).
    assert (IsPruned cs2 = true) as Ep2. { apply pruned_out_at. intros i. by rewrite Hout2, Env. }
    rewrite Ep2. apply Hfin; cbn [fCoinBase nHeight c_nVersion c_vout]; try done.
    + destruct Hc'. split; [constructor|done].
    + intros j. by rewrite Env.
  - cbn [Z.eqb negb]. assert (IsPruned cs' = false) as Ep'.
    { apply not_true_is_false. intros Ht%trim_nil. rewrite Hv', trim_idem, <- Hv' in Ht. by rewrite Ht in El. }
    assert (IsPruned cs2 = false) as Ep2.
    { apply not_true_is_false. rewrite pruned_out_at. intros Ht. apply not_true_iff_false in Ep'. apply Ep', pruned_out_at.
      intros i. by rewrite <- Hout2. }
    destruct (Hmeta Ep') as (F1&F2&F3). rewrite Ep2. apply Hfin; try done; congruence.
Qed.

Section views.
Context {V : Type} `{HV : CCoinsView V} `{!CoinsViewSpec clean V}.
Abbreviation cache := (CCoinsViewCache V).
#[local] Abbreviation contents := (contents clean).
#[local] Abbreviation view_ok := (view_ok clean).
Context (txhash : CTransaction -> uint256).

(** A modification that depends on the coins *)
Lemma edit_spec (c c1 : cache) txid cs cs' :
  editing clean txid cs c1 -> clean cs' -> (forall t, contents (base c1) t = contents (base c) t) ->
  (forall t, t <> txid -> cache_contents clean c1 t = contents c t) ->
  exists c2, release txid (modify txid (fun _ => cs') c1) = Some c2 /\ view_ok c2 /\ contents c2 txid = unspent cs' /\
    (forall t, t <> txid -> contents c2 t = contents c t) /\ (forall t, contents (base c2) t = contents (base c) t).
Proof.
  intros He Hc Hb Ho. destruct (modify_spec clean c1 txid cs (fun _ => cs') He Hc) as (He2&Hb2&_&Ho2).
  destruct (release_spec clean _ txid cs' He2) as (c3&->&Hok3&Hb3&Ht3&Ho3). exists c3. split_and!; [done|done|done| |].
  - intros t Hne. rewrite Ho3, Ho2, Ho by done. done.
  - intros t. rewrite Hb3, Hb2. apply Hb.
Qed.

Definition same_base (c' c : cache) : Prop := forall t, contents (base c') t = contents (base c) t.

Lemma spend_input_spec c i u c' :
  view_ok c -> spend_input i c = Some (u, c') ->
  exists cs cs', clean cs /\ unspent cs = contents c (hash (prevout i)) /\ spend_coins cs (n (prevout i)) = Some (u, cs') /\
    view_ok c' /\ contents c' (hash (prevout i)) = unspent cs' /\
    (forall t, t <> hash (prevout i) -> contents c' t = contents c t) /\ same_base c' c.
Proof.
  intros Hok E. unfold spend_input in E.
  destruct (ModifyCoins_spec clean c (hash (prevout i)) Hok) as (c1&cs&E1&He&HQ&Hu&Ho&Hb). rewrite E1 in E. cbn [mbind option_bind] in E.
  destruct (modify_spec clean c1 _ cs (fun _ => cs) He HQ) as (_&_&Hm&_). rewrite Hm in E. cbn [mbind option_bind] in E.
  destruct (spend_coins cs (n (prevout i))) as [[u' cs']|] eqn:Es; [|done]. cbn [mbind option_bind] in E.
  destruct (spend_coins_out _ _ _ _ HQ Es) as (_&_&_&_&Hc'&_).
  destruct (edit_spec c c1 _ cs cs' He Hc' Hb Ho) as (c2&E2&?&?&?&?). rewrite E2 in E. injection E as <- <-. by exists cs, cs'.
Qed.

Lemma ApplyTxInUndo_spec c i u cs cs' :
  view_ok c -> clean cs -> 0 < nHeight cs < 2 ^ 32 -> 0 <= n (prevout i) < 2 ^ 32 - 1 ->
  spend_coins cs (n (prevout i)) = Some (u, cs') -> contents c (hash (prevout i)) = unspent cs' ->
  exists c', ApplyTxInUndo u c (prevout i) = Some (true, c') /\ view_ok c' /\
    contents c' (hash (prevout i)) = unspent cs /\ (forall t, t <> hash (prevout i) -> contents c' t = contents c t) /\
    same_base c' c.
Proof.
  intros Hok Hc Hh Hn Hs Hcc. unfold ApplyTxInUndo.
  destruct (ModifyCoins_spec clean c (hash (prevout i)) Hok) as (c1&cs2&->&He&HQ&Hu&Ho&Hb). cbn [mbind option_bind].
  destruct (modify_spec clean c1 _ cs2 (fun _ => cs2) He HQ) as (_&_&->&_). cbn [mbind option_bind].
  destruct (undo_spend cs (n (prevout i)) u cs' cs2 Hc Hh Hn Hs HQ) as (r&->&Hr&Hur); [congruence|]. cbn [mbind option_bind].
  destruct (edit_spec c c1 _ cs2 r He Hr Hb Ho) as (c2&->&?&?&?&?). exists c2. split_and!; [done|done|congruence|done|done].
Qed.

(** Coins have positive heights, outputs can be addressed. *)
Definition heights_ok (m : uint256 -> option CCoins) : Prop := forall t d, m t = Some d -> 0 < nHeight d < 2 ^ 31.
Definition input_ok (i : CTxIn) : Prop := 0 <= n (prevout i) < 2 ^ 32 - 1.

Lemma unspent_height cs d : unspent cs = Some d -> nHeight cs = nHeight d.
Proof. unfold unspent. destruct (IsPruned cs); [done|]. by intros [= <-]. Qed.

Lemma spent_exists cs nPos u cs' : clean cs -> spend_coins cs nPos = Some (u, cs') -> exists d, unspent cs = Some d.
Proof.
  intros Hc Hs. destruct (spend_coins_out cs nPos u cs' Hc Hs) as (o&Ho&_). unfold unspent.
  destruct (IsPruned cs) eqn:E; [|by eexists]. rewrite pruned_out_at in E. by rewrite E in Ho.
Qed.

Lemma spend_undo_inputs ins c us c1 :
  view_ok c -> heights_ok (contents c) -> Forall input_ok ins -> spend_inputs ins c = Some (us, c1) ->
  (view_ok c1 /\ length us = length ins /\ heights_ok (contents c1) /\ same_base c1 c /\
   forall t, contents c t = None -> contents c1 t = None) /\
  forall c2, view_ok c2 -> (forall t, contents c2 t = contents c1 t) ->
    exists c3, undo_inputs (zip ins us) c2 = Some (true, c3) /\ view_ok c3 /\ same_base c3 c2 /\
      forall t, contents c3 t = contents c t.
Proof.
  revert c us c1. induction ins as [|i ins IH]; intros c us c1 Hok Hh Hi E; cbn [spend_inputs] in E.
  { injection E as <- <-. split; [by split_and!|]. intros c2 Hok2 Hc2. by exists c2. }
  apply Forall_cons_1 in Hi as [Hi His].
  destruct (spend_input i c) as [[u c']|] eqn:Es; [|done]. cbn [mbind option_bind] in E.
  destruct (spend_inputs ins c') as [[us' c1']|] eqn:Er; [|done]. cbn [mbind option_bind] in E. injection E as <- <-.
  destruct (spend_input_spec c i u c' Hok Es) as (cs&cs'&Hc&Hu&Hs&Hok'&Ht&Ho&Hb).
  destruct (spent_exists cs _ u cs' Hc Hs) as [d Hd].
  destruct (spend_coins_out cs _ u cs' Hc Hs) as (_&_&_&_&_&_&_&_&Eh&_).
  assert (0 < nHeight cs < 2 ^ 31) as Hhc.
  { rewrite (unspent_height cs d Hd). apply (Hh (hash (prevout i))). congruence. }
  assert (heights_ok (contents c')) as Hh'.
  { intros t e He. destruct (decide (t = hash (prevout i))) as [->|Hne].
    - rewrite Ht in He. rewrite <- (unspent_height cs' e He), Eh. done.
    - rewrite Ho in He by done. by apply (Hh t). }
  destruct (IH c' us' c1' Hok' Hh' His Er) as [(Hok1&Hl&Hh1&Hb1&Hn1) Hundo]. split.
  - split_and!; [done|cbn; congruence|done|intros t; by rewrite Hb1, Hb|].
    intros t Hnone. apply Hn1. destruct (decide (t = hash (prevout i))) as [->|Hne]; [congruence|by rewrite Ho].
  - intros c2 Hok2 Hc2. destruct (Hundo c2 Hok2 Hc2) as (c3&E3&Hok3&Hb3&Hc3). cbn [zip zip_with undo_inputs].
    fold (zip ins us'). rewrite E3. cbn [mbind option_bind].
    destruct (ApplyTxInUndo_spec c3 i u cs cs' Hok3 Hc ltac:(lia) Hi Hs) as (c4&->&Hok4&Ht4&Ho4&Hb4); [by rewrite Hc3|].
    exists c4. split_and!; [done|done|intros t; by rewrite Hb4, Hb3|]. intros t.
    destruct (decide (t = hash (prevout i))) as [->|Hne]; [congruence|]. by rewrite Ho4, Hc3, Ho by done.
Qed.

(** ** Transactions *)

(** A transaction as [CheckTransaction] leaves it: no negative amounts; the version is not
    negative either. *)
Definition coins_tx_ok (tx : CTransaction) : Prop :=
  0 <= nVersion tx /\ Forall (fun o => 0 <= nValue o) (vout tx) /\ (IsCoinBase tx = false -> Forall input_ok (vin tx)).

Lemma not_null o : 0 <= nValue o -> CTxOut_IsNull o = false.
Proof. unfold CTxOut_IsNull. intros H. destruct (Z.eqb_spec (nValue o) (-1)); [lia|done]. Qed.

Lemma FromTx_clean tx height : coins_tx_ok tx -> clean (FromTx tx height).
Proof.
  intros (Hv&Ho&_). split; [|done]. apply nulls_ok_trim, nulls_ok_clear. eapply Forall_impl; [|exact Ho].
  intros o Hn. cbn in Hn. by rewrite not_null.
Qed.

Lemma out_at_clear v i :
  out_at (map (fun o => if IsUnspendable (scriptPubKey o) then CTxOut_null else o) v) i =
  (o ← out_at v i; if IsUnspendable (scriptPubKey o) then None else Some o).
Proof.
  unfold out_at. rewrite list_lookup_fmap. destruct (v !! i) as [o|]; [|done]. cbn.
  destruct (IsUnspendable (scriptPubKey o)) eqn:E; destruct (CTxOut_IsNull o) eqn:En; cbn; rewrite ?E, ?En; done.
Qed.

Lemma out_at_FromTx tx height i o :
  out_at (c_vout (FromTx tx height)) i = Some o -> IsUnspendable (scriptPubKey o) = false.
Proof.
  unfold FromTx, ClearUnspendable, Cleanup. cbn [c_vout set_vout]. rewrite out_at_trim, out_at_clear.
  destruct (out_at (vout tx) i) as [o'|]; [|done]. cbn. destruct (IsUnspendable (scriptPubKey o')) eqn:E; [done|].
  by intros [= <-].
Qed.

(** The check of [DisconnectBlock] succeeds for the coins that were added. *)
Lemma outputs_match tx height cs :
  coins_tx_ok tx -> clean cs -> unspent cs = unspent (FromTx tx height) ->
  CCoins_eq (ClearUnspendable cs) (FromTx tx height) = true.
Proof.
  intros Htx Hc Hu. pose proof (FromTx_clean tx height Htx) as Hf. destruct (unspent_inv _ _ Hc Hf Hu) as [Ho Hm].
  assert (c_vout (ClearUnspendable cs) = c_vout (FromTx tx height)) as Ev.
  { unfold ClearUnspendable, Cleanup. cbn [c_vout set_vout].
    replace (c_vout (FromTx tx height)) with (trim (c_vout (FromTx tx height))) by apply trim_idem.
    apply trim_ext; [apply nulls_ok_clear, Hc|apply Hf|]. intros i. rewrite out_at_clear, Ho.
    destruct (out_at (c_vout (FromTx tx height)) i) as [o|] eqn:E; [|done]. cbn. by rewrite (out_at_FromTx _ _ _ _ E). }
  unfold CCoins_eq. destruct (IsPruned (FromTx tx height)) eqn:Ep.
  - assert (IsPruned (ClearUnspendable cs) = true) as ->; [|done]. unfold IsPruned in *. by rewrite Ev.
  - destruct (Hm eq_refl) as (E1&E2&E3). rewrite andb_false_r. rewrite Ev. unfold ClearUnspendable, Cleanup.
    cbn [fCoinBase nHeight c_nVersion set_vout]. rewrite E1, E2, E3, !Z.eqb_refl, !bool_decide_true by done. done.
Qed.

Lemma remove_outputs_spec tx height c m :
  coins_tx_ok tx -> view_ok c -> contents c (txhash tx) = unspent (FromTx tx height) -> m (txhash tx) = None ->
  (forall t, t <> txhash tx -> contents c t = m t) ->
  exists c', remove_outputs txhash tx height c = Some (true, c') /\ view_ok c' /\ same_base c' c /\
    forall t, contents c' t = m t.
Proof.
  intros Htx Hok Ht Hnone Ho. unfold remove_outputs.
  destruct (ModifyCoins_spec clean c (txhash tx) Hok) as (c1&cs&->&He&HQ&Hu&Ho1&Hb). cbn [mbind option_bind].
  destruct (modify_spec clean c1 _ cs (fun _ => cs) He HQ) as (_&_&->&_). cbn [mbind option_bind].
  destruct (edit_spec c c1 _ cs new_CCoins He inv_new Hb Ho1) as (c2&->&Hok2&Ht2&Ho2&Hb2). cbn [mbind option_bind].
  assert (c_nVersion (FromTx tx height) <? 0 = false) as -> by (apply Z.ltb_ge; apply Htx).
  exists c2. rewrite outputs_match by (done || congruence). split_and!; [done|done|done|].
  intros t. destruct (decide (t = txhash tx)) as [->|Hne]; [by rewrite Ht2, Hnone|by rewrite Ho2, Ho].
Qed.

(** The hash of a new transaction is not in use, neither in the cache nor below. *)
Definition new_hash (c : cache) (h : uint256) : Prop := contents c h = None /\ contents (base c) h = None.

Lemma connect_disconnect_tx tx c us c1 height :
  coins_tx_ok tx -> 0 < height < 2 ^ 31 -> view_ok c -> heights_ok (contents c) -> new_hash c (txhash tx) ->
  UpdateCoins txhash tx c height = Some (us, c1) ->
  (view_ok c1 /\ heights_ok (contents c1) /\ same_base c1 c /\
   forall t, t <> txhash tx -> contents c t = None -> contents c1 t = None) /\
  forall c2, view_ok c2 -> (forall t, contents c2 t = contents c1 t) ->
    (IsCoinBase tx = false ->
     exists c3, disconnect_tx txhash tx us height c2 = Some (Some (true, c3)) /\ view_ok c3 /\
       forall t, contents c3 t = contents c t) /\
    (IsCoinBase tx = true ->
     exists c3, remove_outputs txhash tx height c2 = Some (true, c3) /\ view_ok c3 /\
       forall t, contents c3 t = contents c t).
Proof.
  intros Htx Hheight Hok Hh [Hn Hnb] E. unfold UpdateCoins in E.
  destruct (if negb (IsCoinBase tx) then _ else _) as [[us' cs]|] eqn:Ein; [|done]. cbn [mbind option_bind] in E.
  assert ((view_ok cs /\ heights_ok (contents cs) /\ same_base cs c /\ forall t, contents c t = None -> contents cs t = None) /\
    (IsCoinBase tx = true -> cs = c) /\
    (IsCoinBase tx = false -> length us' = length (vin tx) /\ forall c2, view_ok c2 -> (forall t, contents c2 t = contents cs t) ->
      exists c3, undo_inputs (zip (vin tx) us') c2 = Some (true, c3) /\ view_ok c3 /\ forall t, contents c3 t = contents c t))
    as ((Hoks&Hhs&Hbs&Hns)&Hcb&Hundo).
  { pose proof (proj2 (proj2 Htx)) as Hin. destruct (IsCoinBase tx); cbn [negb] in Ein.
    - injection Ein as <- <-. by split_and!.
    - destruct (spend_undo_inputs (vin tx) c us' cs Hok Hh (Hin eq_refl) Ein) as [(?&?&?&?&?) Hu].
      split_and!; try done. intros _. split; [done|]. intros c2 Ha Hb. destruct (Hu c2 Ha Hb) as (c3&?&?&_&?). by exists c3. }
  destruct (ModifyNewCoins_spec clean cs (txhash tx) (IsCoinBase tx) Hoks) as (c4&E4&He4&Hb4&Ho4).
  { intros _. by rewrite Hbs. }
  rewrite E4 in E. cbn [mbind option_bind] in E.
  destruct (edit_spec cs c4 _ new_CCoins (FromTx tx height) He4 (FromTx_clean tx height Htx)) as (c5&E5&Hok5&Ht5&Ho5&Hb5);
    [by rewrite Hb4|exact Ho4|]. rewrite E5 in E. injection E as <- <-. split.
  - split_and!; [done| |intros t; by rewrite Hb5, Hbs|].
    + intros t d Hd. destruct (decide (t = txhash tx)) as [->|Hne]; [|rewrite Ho5 in Hd by done; by apply (Hhs t)].
      rewrite Ht5 in Hd. by rewrite <- (unspent_height _ _ Hd).
    + intros t Hne Hnone. rewrite Ho5 by done. by apply Hns.
  - intros c2 Hok2 Hc2.
    destruct (remove_outputs_spec tx height c2 (contents cs) Htx Hok2) as (c3&E3&Hok3&Hb3&Hc3);
      [by rewrite Hc2|by apply Hns|intros t Hne; by rewrite Hc2, Ho5|]. split.
    + intros Hncb. destruct (Hundo Hncb) as [Hl Hu]. unfold disconnect_tx. rewrite E3. cbn [mbind option_bind].
      rewrite Hl, Nat.eqb_refl. cbn [negb]. destruct (Hu c3 Hok3 Hc3) as (c6&->&?&?). by exists c6.
    + intros Hiscb. exists c3. rewrite <- (Hcb Hiscb). done.
Qed.

(** ** Blocks *)

(** The hashes of the transactions that follow stay new. *)
Lemma still_new vtx tx (c c' : cache) :
  Forall (fun x => new_hash c (txhash x)) vtx -> txhash tx ∉ map txhash vtx -> same_base c' c ->
  (forall t, t <> txhash tx -> contents c t = None -> contents c' t = None) ->
  Forall (fun x => new_hash c' (txhash x)) vtx.
Proof.
  rewrite !list.Forall_forall. intros Hnew Hni Hb Hn x Hx. destruct (Hnew x Hx) as [Hx1 Hx2]. split; [|by rewrite Hb].
  apply Hn; [|done]. intros Ex. apply Hni. rewrite <- Ex. by apply list_elem_of_fmap_2.
Qed.

Lemma connect_disconnect_rest vtx c us c1 height :
  Forall coins_tx_ok vtx -> Forall (fun tx => IsCoinBase tx = false) vtx -> 0 < height < 2 ^ 31 ->
  NoDup (map txhash vtx) -> Forall (fun tx => new_hash c (txhash tx)) vtx ->
  view_ok c -> heights_ok (contents c) -> connect_txs txhash vtx c height = Some (us, c1) ->
  view_ok c1 /\ length us = length vtx /\
  forall c2, view_ok c2 -> (forall t, contents c2 t = contents c1 t) ->
    exists c3, disconnect_rest txhash (zip vtx us) height c2 = Some (Some (true, c3)) /\ view_ok c3 /\
      forall t, contents c3 t = contents c t.
Proof.
  revert c us c1. induction vtx as [|tx vtx IH]; intros c us c1 Htx Hcb Hht Hnd Hnew Hok Hh E; cbn [connect_txs] in E.
  { injection E as <- <-. split_and!; [done|done|]. intros c2 Ha Hb. by exists c2. }
  apply Forall_cons_1 in Htx as [Htx Htxs]. apply Forall_cons_1 in Hcb as [Hcb Hcbs]. apply Forall_cons_1 in Hnew as [Hnew Hnews].
  cbn [map] in Hnd. apply NoDup_cons_1_1 in Hnd as Hni. apply NoDup_cons_1_2 in Hnd.
  destruct (UpdateCoins txhash tx c height) as [[u c']|] eqn:Eu; [|done]. cbn [mbind option_bind] in E.
  destruct (connect_txs txhash vtx c' height) as [[us' c1']|] eqn:Er; [|done]. injection E as <- <-.
  destruct (connect_disconnect_tx tx c u c' height Htx Hht Hok Hh Hnew Eu) as [(Hok'&Hh'&Hb'&Hn') Hundo].
  destruct (IH c' us' c1' Htxs Hcbs Hht Hnd) as (Hok1&Hl&Hrest); [|done|done|done|].
  { by eapply still_new. }
  split_and!; [done|cbn; congruence|]. intros c2 Hok2 Hc2. cbn [zip zip_with disconnect_rest]. fold (zip vtx us').
  destruct (Hrest c2 Hok2 Hc2) as (c3&->&Hok3&Hc3). cbn [mbind option_bind].
  destruct (proj1 (Hundo c3 Hok3 Hc3) Hcb) as (c4&->&?&?). by exists c4.
Qed.
End views.

(** What a reader finds in two views under every hash is the same but for [fCoinStake]: coins
    with nothing unspent in both, or coins with the same outputs, height, version and coinbase
    mark. *)
Definition same_but_stake (a b : CCoins) : Prop :=
  (forall i, out_at (c_vout a) i = out_at (c_vout b) i) /\ nHeight a = nHeight b /\ c_nVersion a = c_nVersion b /\
  fCoinBase a = fCoinBase b.
Definition same_reads {V : Type} `{CCoinsView V} (c c' : V) : Prop :=
  forall t, match (GetCoins t c).1 ≫= live, (GetCoins t c').1 ≫= live with
            | None, None => True
            | Some a, Some b => same_but_stake a b
            | _, _ => False
            end.

Lemma same_contents_reads {V : Type} `{HV : CCoinsView V} `{!CoinsViewSpec clean V} (c c' : V) :
  view_ok clean c -> view_ok clean c' -> (forall t, contents clean c' t = contents clean c t) -> same_reads c c'.
Proof.
  intros Hc Hc' E t. specialize (E t). pose proof (GetCoins_spec (Q := clean) c t Hc) as H1.
  pose proof (GetCoins_spec (Q := clean) c' t Hc') as H2.
  destruct (GetCoins t c) as [r v], (GetCoins t c') as [r' v']. cbn [fst]. destruct H1 as (H1&Q1&_), H2 as (H2&Q2&_).
  rewrite <- H1, <- H2 in E. clear H1 H2. destruct r as [a|], r' as [b|]; cbn [mbind option_bind] in *.
  - destruct (unspent_inv b a (Q2 b eq_refl) (Q1 a eq_refl) E) as [Ho Hm]. unfold live.
    assert (IsPruned a = IsPruned b) as Ep.
    { unfold unspent in E. destruct (IsPruned a), (IsPruned b); done. }
    rewrite <- Ep. destruct (IsPruned a) eqn:Ea; [done|].
    destruct Hm as (Hb&Hh&Hv); [congruence|]. split_and!; congruence || (intros i; symmetry; apply Ho).
  - unfold live. symmetry in E. apply unspent_None in E. by rewrite E.
  - unfold live. apply unspent_None in E. by rewrite E.
  - done.
Qed.

(** C26: Disconnecting a block undoes connecting it, but for the coin-stake marks: when the
    transactions of a block, a coinbase and others, have been applied to a view by [UpdateCoins],
    the loop of [DisconnectBlock] run with the undo data on any view with the resulting contents
    finds everything clean and gives a view in which every hash reads as before, with the same
    outputs, height, version and coinbase mark; the undo data have no place for [fCoinStake]
    (see [undo_loses_stake_mark]).  No assertion fails and no vector is accessed outside its
    bounds on the way.  The transactions have different hashes with nothing unspent under them,
    versions and values that are not negative, and inputs other than the last index; the heights
    are positive. *)
Theorem disconnect_restores_coins {V : Type} `{HV : CCoinsView V} `{!CoinsViewSpec clean V}
    (txhash : CTransaction -> uint256) (coinbase : CTransaction) (vtx : list CTransaction) (height : Z)
    (c c1 : CCoinsViewCache V) (u : list CTxInUndo) (us : list (list CTxInUndo)) :
  IsCoinBase coinbase = true -> Forall (fun tx => IsCoinBase tx = false) vtx ->
  Forall coins_tx_ok (coinbase :: vtx) -> NoDup (map txhash (coinbase :: vtx)) ->
  Forall (fun tx => new_hash c (txhash tx)) (coinbase :: vtx) -> 0 < height < 2 ^ 31 ->
  view_ok clean c -> heights_ok (contents clean c) ->
  connect_txs txhash (coinbase :: vtx) c height = Some (u :: us, c1) ->
  view_ok clean c1 /\
  forall c2, view_ok clean c2 -> (forall t, contents clean c2 t = contents clean c1 t) ->
    exists c3, disconnect_txs txhash (coinbase :: vtx) us height c2 = Some (Some (true, c3)) /\ view_ok clean c3 /\
      same_reads c c3.
Proof.
  intros Hcb Hcbs Htx Hnd Hnew Hht Hok Hh E. cbn [connect_txs] in E.
  apply Forall_cons_1 in Htx as [Htx Htxs]. apply Forall_cons_1 in Hnew as [Hnew Hnews]. cbn [map] in Hnd.
  apply NoDup_cons_1_1 in Hnd as Hni. apply NoDup_cons_1_2 in Hnd.
  destruct (UpdateCoins txhash coinbase c height) as [[u' c']|] eqn:Eu; [|done]. cbn [mbind option_bind] in E.
  destruct (connect_txs txhash vtx c' height) as [[us' c1']|] eqn:Er; [|done]. injection E as _ <- <-.
  destruct (connect_disconnect_tx txhash coinbase c u' c' height Htx Hht Hok Hh Hnew Eu) as [(Hok'&Hh'&Hb'&Hn') Hundo].
  destruct (connect_disconnect_rest txhash vtx c' us' c1' height Htxs Hcbs Hht Hnd) as (Hok1&Hl&Hrest); [|done|done|done|].
  { by eapply still_new. }
  split; [done|]. intros c2 Hok2 Hc2. unfold disconnect_txs. rewrite Hl. cbn [length]. rewrite Nat.add_1_r, Nat.eqb_refl. cbn [negb].
  destruct (Hrest c2 Hok2 Hc2) as (c3&->&Hok3&Hc3). cbn [mbind option_bind].
  destruct (proj2 (Hundo c3 Hok3 Hc3) Hcb) as (c4&->&?&?). exists c4. split_and!; [done|done|]. by apply same_contents_reads.
Qed.

(** A coinbase and a transaction that spends the only output of transaction [[1]] *)
Definition toy_hash (tx : CTransaction) : uint256 := [nTime tx].
Definition toy_out (v : Z) : CTxOut := {| nValue := v; scriptPubKey := [81] |}.
Definition toy_coinbase : CTransaction :=
  {| nVersion := 1; nTime := 2; vin := [{| prevout := {| hash := hash_null; n := 2 ^ 32 - 1 |}; scriptSig := []; nSequence := 0 |}];
     vout := [toy_out 12]; wit := []; nLockTime := 0; strDZeel := [] |}.
Definition toy_spend : CTransaction :=
  {| nVersion := 1; nTime := 3; vin := [{| prevout := {| hash := [1]; n := 0 |}; scriptSig := []; nSequence := 0 |}];
     vout := [toy_out 4; toy_out 1]; wit := []; nLockTime := 0; strDZeel := [] |}.
Definition toy_view : CCoinsViewCache CCoinsViewDB :=
  new_cache {| db_coins := {[ [1] := Coins true false [toy_out 5] 3 1 ]}; db_best := hash_null |}.

Lemma disconnect_restores_coins_witness :
  exists u us c1 c3, connect_txs toy_hash [toy_coinbase; toy_spend] toy_view 9 = Some (u :: us, c1) /\
    disconnect_txs toy_hash [toy_coinbase; toy_spend] us 9 c1 = Some (Some (true, c3)) /\
    (exists cs, (GetCoins [1] c3).1 = Some cs /\ same_but_stake (Coins true false [toy_out 5] 3 1) cs) /\
    (GetCoins [3] c3).1 ≫= live = None.
Proof.
  assert (match connect_txs toy_hash [toy_coinbase; toy_spend] toy_view 9 with Some (_ :: _, _) => true | _ => false end = true) as E
    by (vm_compute; reflexivity).
  destruct (connect_txs toy_hash [toy_coinbase; toy_spend] toy_view 9) as [[[|u us] c1]|] eqn:Ec; [done| |done].
  destruct (disconnect_restores_coins toy_hash toy_coinbase [toy_spend] 9 toy_view c1 u us) as [Hok Hall].
  - done.
  - by apply Forall_singleton.
  - apply Forall_cons_2; [|apply Forall_singleton]; (split_and!; [done|..]).
    + by apply Forall_singleton.
    + done.
    + by repeat (apply Forall_cons_2; [done|]); constructor.
    + intros _. by apply Forall_singleton.
  - apply NoDup_cons_2; [|apply NoDup_singleton]. rewrite list_elem_of_singleton. done.
  - apply Forall_cons_2; [done|]. by apply Forall_singleton.
  - done.
  - split; [done|]. split; [|intros t e; cbn; by rewrite lookup_empty]. intros t cs. cbn.
    rewrite lookup_singleton_Some. intros [_ <-]. split; [by apply Forall_singleton|done].
  - intros t d. cbn. unfold cache_contents. cbn. rewrite lookup_empty.
    destruct (decide (t = [1])) as [->|Hne]; [rewrite lookup_singleton_eq|by rewrite lookup_singleton_ne by done].
    by intros [= <-].
  - exact Ec.
  - destruct (Hall c1 Hok (fun t => eq_refl)) as (c3&E3&_&Hc). exists u, us, c1, c3.
    split; [done|]. split; [exact E3|]. pose proof (Hc [1]) as H1. pose proof (Hc [3]) as H3. split.
    + replace ((GetCoins [1] toy_view).1 ≫= live) with (Some (Coins true false [toy_out 5] 3 1)) in H1 by reflexivity.
      destruct (GetCoins [1] c3).1 as [cs|]; [|done]. cbn [mbind option_bind] in H1. exists cs. split; [done|].
      unfold live in H1. destruct (IsPruned cs); [done|exact H1].
    + replace ((GetCoins [3] toy_view).1 ≫= live) with (@None CCoins) in H3 by reflexivity.
      destruct ((GetCoins [3] c3).1 ≫= live); done.
Defined.

(** Coins of a coin stake that were made and spent in the cache come back without the mark. *)
Lemma undo_loses_stake_mark :
  let stake := Coins false true [toy_out 5] 3 1 in
  let view := Cache {| db_coins := ∅; db_best := hash_null |} false hash_null {[ [1] := Entry stake (DIRTY .| FRESH) ]} in
  ('(us, c) ← connect_txs toy_hash [toy_coinbase; toy_spend] view 9;
   r ← disconnect_txs toy_hash [toy_coinbase; toy_spend] (tail us) 9 c;
   '(ok, c) ← r;
   Some ((GetCoins [1] view).1, ok, (GetCoins [1] c).1)) =
  Some (Some stake, true, Some (Coins false false [toy_out 5] 3 1)).
Proof. vm_compute. reflexivity. Qed.
