(* ===== verification/Compressor.v ===== *)
(** Compact formats of coins on disk ([src/src/compressor.h], [compressor.cpp], the
    serialization of [CCoins] in [coins.h] and of [CTxInUndo] in [undo.h]): amounts, scripts of
    standard shapes, the mask of unspent outputs and undo data. What is read back is what the
    database view of [Coins.v] keeps. *)

From stdpp Require Import gmap.
From S2P Require Import Prelude SphTypes Serialize Codec Script Transaction Coins Undo.

#[local] Open Scope c_scope.

(** ** Amounts *)

(** [while (((n % 10) == 0) && e < 9)]; [rounds] is [9 - e]. *)
Fixpoint strip_zeros (rounds : nat) (n e : Z) : Z * Z :=
  match rounds with
  | O => (n, e)
  | S rounds => if n mod 10 =? 0 then strip_zeros rounds (n / 10) (e + 1) else (n, e)
  end.

(** [None] is a failed assertion. *)
Definition CompressAmount (n : Z) : option Z :=
  if n =? 0 then Some 0
  else
    let '(n, e) := strip_zeros 9 n 0 in
    if e <? 9 then
      let d := n mod 10 in
      if (d >=? 1) && (d <=? 9) then Some ((1 + (n / 10 * 9 + d - 1) * 10 + e) mod 2 ^ 64) else None
    else Some ((1 + (n - 1) * 10 + 9) mod 2 ^ 64).

(** [while (e) { n *= 10; e--; }] *)
Definition scale (e : nat) (n : Z) : Z := Nat.iter e (fun n => n * 10 mod 2 ^ 64) n.

Definition DecompressAmount (x : Z) : Z :=
  if x =? 0 then 0
  else
    let x := x - 1 in
    let e := x mod 10 in
    let x := x / 10 in
    let n := if e <? 9 then (x / 9 * 10 + (x mod 9 + 1)) mod 2 ^ 64 else (x + 1) mod 2 ^ 64 in
    scale (Z.to_nat e) n.

(** ** Scripts *)

(** [CPubKey::IsFullyValid] and [CPubKey::Decompress], which parse a point of the curve; the
    bytes of the key before and after *)
Class KeyCurve := {
  key_IsFullyValid : list Z -> bool;
  key_Decompress : list Z -> option (list Z);
}.

(** What they promise: a decompressed key has 65 bytes, and an uncompressed key that is valid is
    found again from its first coordinate and the parity of the second. *)
Class KeyCurveSpec `{KeyCurve} := {
  decompress_size k u : key_Decompress k = Some u -> length u = 65%nat;
  decompress_parity k :
    Forall byte k -> length k = 65%nat -> k !!! 0%nat = 4 -> key_IsFullyValid k = true ->
    key_Decompress ((2 .| (k !!! 64%nat .& 1)) :: take 32 (drop 1 k)) = Some k;
}.

Definition nSpecialScripts : Z := 6.

Definition IsToKeyID (script : CScript) : option (list Z) :=
  if (vsize script =? 25) && at_is script 0 OP_DUP && at_is script 1 OP_HASH160 && at_is script 2 20 &&
     at_is script 23 OP_EQUALVERIFY && at_is script 24 OP_CHECKSIG
  then Some (take 20 (drop 3 script)) else None.

Definition IsToScriptID (script : CScript) : option (list Z) :=
  if (vsize script =? 23) && at_is script 0 OP_HASH160 && at_is script 1 20 && at_is script 22 OP_EQUAL
  then Some (take 20 (drop 2 script)) else None.

Section compressor.
Context `{KeyCurve}.

(** The bytes of the public key *)
Definition IsToPubKey (script : CScript) : option (list Z) :=
  if (vsize script =? 35) && at_is script 0 33 && at_is script 34 OP_CHECKSIG &&
     (at_is script 1 0x02 || at_is script 1 0x03)
  then Some (take 33 (drop 1 script))
  else if (vsize script =? 67) && at_is script 0 65 && at_is script 66 OP_CHECKSIG && at_is script 1 0x04
  then let pubkey := take 65 (drop 1 script) in if key_IsFullyValid pubkey then Some pubkey else None
  else None.

Definition Compress (script : CScript) : option (list Z) :=
  match IsToKeyID script with
  | Some keyID => Some (0x00 :: keyID)
  | None =>
      match IsToScriptID script with
      | Some scriptID => Some (0x01 :: scriptID)
      | None =>
          pubkey ← IsToPubKey script;
          let x := take 32 (drop 1 pubkey) in
          if at_is pubkey 0 0x02 || at_is pubkey 0 0x03 then Some (pubkey !!! 0%nat :: x)
          else if at_is pubkey 0 0x04 then Some ((0x04 .| (pubkey !!! 64%nat .& 0x01)) :: x)
          else None
      end
  end.

Definition GetSpecialSize (nSize : Z) : nat :=
  if (nSize =? 0) || (nSize =? 1) then 20
  else if (nSize =? 2) || (nSize =? 3) || (nSize =? 4) || (nSize =? 5) then 32
  else 0.

(** [Decompress]: whether it succeeds and the script, which it leaves as it was if not; [None]
    is a failed assertion. *)
Definition Decompress (nSize : Z) (inp : list Z) (script : CScript) : option (bool * CScript) :=
  if nSize =? 0 then Some (true, [OP_DUP; OP_HASH160; 20] ++ inp ++ [OP_EQUALVERIFY; OP_CHECKSIG])
  else if nSize =? 1 then Some (true, [OP_HASH160; 20] ++ inp ++ [OP_EQUAL])
  else if (nSize =? 2) || (nSize =? 3) then Some (true, [33; nSize] ++ inp ++ [OP_CHECKSIG])
  else if (nSize =? 4) || (nSize =? 5) then
    match key_Decompress (nSize - 2 :: inp) with
    | None => Some (false, script)
    | Some pubkey =>
        if negb (length pubkey =? 65)%nat then None else Some (true, [65] ++ pubkey ++ [OP_CHECKSIG])
    end
  else Some (false, script).

Definition CScriptCompressor_Serialize (script : CScript) : option (list Z) :=
  match Compress script with
  | Some compr => Some compr
  | None => nSize ← WriteVarInt 32 (u32 (vsize script + nSpecialScripts)); Some (nSize ++ script)
  end.

Definition CScriptCompressor_GetSerializeSize (script : CScript) : option Z :=
  match Compress script with
  | Some compr => Some (vsize compr)
  | None => nSize ← GetSizeOfVarInt 32 (u32 (vsize script + nSpecialScripts)); Some (u32 (vsize script + nSize))
  end.

(** Reading into an object that holds [script] *)
Definition CScriptCompressor_Unserialize (script : CScript) (s : list Z) : result (CScript * list Z) :=
  '(nSize, s) ← ReadVarInt 32 s;
  if nSize <? nSpecialScripts then
    '(vch, s) ← read (GetSpecialSize nSize) s;
    match Decompress nSize vch script with
    | Some (_, script) => mret (script, s)
    | None => throw AssertionFailed
    end
  else
    let nSize := nSize - nSpecialScripts in
    if nSize >? MAX_SCRIPT_SIZE then
      s ← ignore (Z.to_nat nSize) s;
      match push_opcode script OP_RETURN with
      | Some script => mret (script, s)
      | None => throw AssertionFailed
      end
    else read (Z.to_nat nSize) s.

(** ** Outputs *)

Definition CTxOutCompressor_Serialize (o : CTxOut) : option (list Z) :=
  nVal ← CompressAmount (nValue o mod 2 ^ 64);
  v ← WriteVarInt 64 nVal;
  c ← CScriptCompressor_Serialize (scriptPubKey o);
  Some (v ++ c).

Definition CTxOutCompressor_GetSerializeSize (o : CTxOut) : option Z :=
  nVal ← CompressAmount (nValue o mod 2 ^ 64);
  v ← GetSizeOfVarInt 64 nVal;
  c ← CScriptCompressor_GetSerializeSize (scriptPubKey o);
  Some (v + c).

Definition CTxOutCompressor_Unserialize (o : CTxOut) (s : list Z) : result (CTxOut * list Z) :=
  '(nVal, s) ← ReadVarInt 64 s;
  '(script, s) ← CScriptCompressor_Unserialize (scriptPubKey o) s;
  mret ({| nValue := to_signed 64 (DecompressAmount nVal); scriptPubKey := script |}, s).

(** ** Coins *)

(** Whether an output is there and unspent *)
Definition avail (v : list CTxOut) (i : nat) : bool :=
  match v !! i with Some o => negb (CTxOut_IsNull o) | None => false end.

(** [CalcMaskSize]: the bytes of the mask and how many are not zero; the loop runs while
    [2 + b * 8 < vout.size()]. *)
Definition CalcMaskSize (v : list CTxOut) : nat * nat :=
  foldl (fun '(nLastUsedByte, nNonzeroBytes) b =>
    let fZero := negb (existsb (fun i => avail v (2 + b * 8 + i)) (seq 0 8)) in
    if negb fZero then (b + 1, nNonzeroBytes + 1)%nat else (nLastUsedByte, nNonzeroBytes))
    (0%nat, 0%nat) (seq 0 ((length v + 5) / 8)).

(** A byte of the mask *)
Definition chAvail (v : list CTxOut) (b : nat) : Z :=
  foldl (fun ch i => if avail v (2 + b * 8 + i) then ch .| (1 << Z.of_nat i) else ch) 0 (seq 0 8).

(** The outputs that are not null *)
Definition unspent_outs (v : list CTxOut) : list CTxOut := filter (fun o => CTxOut_IsNull o = false) v.

Definition header_code (c : CCoins) : Z :=
  let nMaskCode := Z.of_nat (CalcMaskSize (c_vout c)).2 in
  let fFirst := avail (c_vout c) 0 in
  let fSecond := avail (c_vout c) 1 in
  u32 (8 * (nMaskCode - (if fFirst || fSecond then 0 else 1)) + (if fCoinBase c then 1 else 0) +
       (if fFirst then 2 else 0) + (if fSecond then 4 else 0)).

(** [assert(fFirst || fSecond || nMaskCode)] *)
Definition has_unspent (v : list CTxOut) : bool :=
  avail v 0 || avail v 1 || negb ((CalcMaskSize v).2 =? 0)%nat.

Definition CCoins_Serialize (c : CCoins) : option (list Z) :=
  let v := c_vout c in
  if negb (has_unspent v) then None
  else
    version ← WriteVarInt 32 (c_nVersion c);
    code ← WriteVarInt 32 (header_code c);
    outs ← mapM CTxOutCompressor_Serialize (unspent_outs v);
    height ← WriteVarInt 32 (nHeight c);
    Some (version ++ code ++ map (chAvail v) (seq 0 (CalcMaskSize v).1) ++ concat outs ++ height).

Definition CCoins_GetSerializeSize (c : CCoins) : option Z :=
  let v := c_vout c in
  if negb (has_unspent v) then None
  else
    version ← GetSizeOfVarInt 32 (c_nVersion c);
    code ← GetSizeOfVarInt 32 (header_code c);
    outs ← mapM CTxOutCompressor_GetSerializeSize (unspent_outs v);
    height ← GetSizeOfVarInt 32 (nHeight c);
    Some (u32 (version + code + Z.of_nat (CalcMaskSize v).1 + foldr Z.add 0 outs + height)).

(** The bits of a byte of the mask *)
Definition mask_bits (ch : Z) : list bool := map (fun p => negb (ch .& (1 << Z.of_nat p) =? 0)) (seq 0 8).

(** [while (nMaskCode > 0)]: every round reads a byte. *)
Fixpoint read_mask (s : list Z) (nMaskCode : Z) (vAvail : list bool) : result (list bool * list Z) :=
  if nMaskCode >? 0 then
    match s with
    | [] => inl EndOfData
    | ch :: s => read_mask s (if negb (ch =? 0) then nMaskCode - 1 else nMaskCode) (vAvail ++ mask_bits ch)
    end
  else inr (vAvail, s).

(** The outputs that are there; the others are null. *)
Fixpoint read_outs (vAvail : list bool) (s : list Z) : result (list CTxOut * list Z) :=
  match vAvail with
  | [] => mret ([], s)
  | a :: vAvail =>
      '(o, s) ← (if a then CTxOutCompressor_Unserialize CTxOut_null s else mret (CTxOut_null, s));
      '(v, s) ← read_outs vAvail s;
      mret (o :: v, s)
  end.

(** A variable-length [int]; left shifts that leave the type wrap. *)
Definition ReadVarInt_int (s : list Z) : result (Z * list Z) :=
  '(x, s) ← ReadVarInt 32 s; mret (to_signed 32 x, s).

(** Reading into an object with a coinstake flag, which is left as it is *)
Definition CCoins_Unserialize (stake : bool) (s : list Z) : result (CCoins * list Z) :=
  '(version, s) ← ReadVarInt_int s;
  '(nCode, s) ← ReadVarInt 32 s;
  let vAvail := [negb (nCode .& 2 =? 0); negb (nCode .& 4 =? 0)] in
  let nMaskCode := u32 (nCode / 8 + (if negb (nCode .& 6 =? 0) then 0 else 1)) in
  '(vAvail, s) ← read_mask s nMaskCode vAvail;
  '(v, s) ← read_outs vAvail s;
  '(height, s) ← ReadVarInt_int s;
  mret (Cleanup (Coins (negb (nCode .& 1 =? 0)) stake v height version), s).

(** ** Undo data *)

Definition undo_code (u : CTxInUndo) : Z := u32 (u_nHeight u * 2 + (if u_fCoinBase u then 1 else 0)).

Definition CTxInUndo_Serialize (u : CTxInUndo) : option (list Z) :=
  code ← WriteVarInt 32 (undo_code u);
  version ← (if u_nHeight u >? 0 then WriteVarInt 32 (u_nVersion u) else Some []);
  o ← CTxOutCompressor_Serialize (txout u);
  Some (code ++ version ++ o).

Definition CTxInUndo_GetSerializeSize (u : CTxInUndo) : option Z :=
  code ← GetSizeOfVarInt 32 (undo_code u);
  version ← (if u_nHeight u >? 0 then GetSizeOfVarInt 32 (u_nVersion u) else Some 0);
  o ← CTxOutCompressor_GetSerializeSize (txout u);
  Some (u32 (code + version + o)).

(** Reading into an object that holds [u] *)
Definition CTxInUndo_Unserialize (u : CTxInUndo) (s : list Z) : result (CTxInUndo * list Z) :=
  '(nCode, s) ← ReadVarInt 32 s;
  let height := nCode / 2 in
  '(version, s) ← (if height >? 0 then ReadVarInt_int s else mret (u_nVersion u, s));
  '(o, s) ← CTxOutCompressor_Unserialize (txout u) s;
  mret (TxInUndo o (negb (nCode .& 1 =? 0)) height version, s).
End compressor.

(** ** Amounts *)

Lemma strip_zeros_pow rounds e m a :
  (e = rounds \/ (e < rounds)%nat /\ m mod 10 <> 0) ->
  strip_zeros rounds (m * 10 ^ Z.of_nat e) a = (m, a + Z.of_nat e).
Proof.
  revert e a. induction rounds as [|rounds IH]; intros e a He.
  - assert (e = 0%nat) as -> by lia. cbn [strip_zeros Z.of_nat]. by rewrite Z.mul_1_r, Z.add_0_r.
  - cbn [strip_zeros]. destruct e as [|e].
    + destruct He as [|[_ Hm]]; [done|]. cbn [Z.of_nat]. rewrite Z.mul_1_r, Z.add_0_r.
      by rewrite (proj2 (Z.eqb_neq _ _) Hm).
    + rewrite Nat2Z.inj_succ, Z.pow_succ_r by lia.
      replace (m * (10 * 10 ^ Z.of_nat e)) with (m * 10 ^ Z.of_nat e * 10) by lia.
      rewrite Z.mod_mul, Z.div_mul by lia. cbn [Z.eqb]. rewrite IH; [f_equal; lia|]. lia.
Qed.

Lemma strip_zeros_spec rounds n :
  exists m e, n = m * 10 ^ Z.of_nat e /\ (e = rounds \/ (e < rounds)%nat /\ m mod 10 <> 0).
Proof.
  revert n. induction rounds as [|rounds IH]; intros n.
  - exists n, 0%nat. cbn [Z.of_nat]. lia.
  - destruct (decide (n mod 10 = 0)) as [Hn|Hn].
    + destruct (IH (n / 10)) as (m&e&E&He). exists m, (S e). split; [|lia].
      rewrite Nat2Z.inj_succ, Z.pow_succ_r by lia. pose proof (Z.div_mod n 10). lia.
    + exists n, 0%nat. cbn [Z.of_nat]. lia.
Qed.

Lemma scale_pow e n : 0 <= n -> n * 10 ^ Z.of_nat e < 2 ^ 64 -> scale e n = n * 10 ^ Z.of_nat e.
Proof.
  intros Hn. unfold scale. induction e as [|e IH]; [cbn; lia|].
  rewrite Nat2Z.inj_succ, Z.pow_succ_r by lia. intros Hlt. pose proof (Z.pow_pos_nonneg 10 (Z.of_nat e) ltac:(lia) ltac:(lia)).
  rewrite Nat.iter_succ, IH by nia. rewrite Z.mod_small by nia. lia.
Qed.

(** The number that stands for [m * 10 ^ e] *)
Lemma compress_pow m e :
  0 < m -> (e = 9%nat \/ (e < 9)%nat /\ m mod 10 <> 0) ->
  exists x, 0 < x < 10 * m + 10 /\ CompressAmount (m * 10 ^ Z.of_nat e) = Some (x mod 2 ^ 64) /\
    (x - 1) mod 10 = Z.of_nat e /\
    (if decide (e = 9%nat) then (x - 1) / 10 + 1 = m
     else (x - 1) / 10 / 9 * 10 + ((x - 1) / 10 mod 9 + 1) = m).
Proof.
  intros Hm He. pose proof (Z.pow_pos_nonneg 10 (Z.of_nat e) ltac:(lia) ltac:(lia)) as Hp. unfold CompressAmount.
  rewrite (proj2 (Z.eqb_neq _ _)) by nia. rewrite (strip_zeros_pow 9 e m 0 He), Z.add_0_l.
  destruct (decide (e = 9%nat)) as [->|Hne].
  - exists (1 + (m - 1) * 10 + 9). split_and!; [lia|lia|done|..]; Z.to_euclidean_division_equations; lia.
  - destruct He as [|[He Hd]]; [done|]. rewrite (proj2 (Z.ltb_lt _ _)) by lia.
    pose proof (Z.mod_pos_bound m 10 ltac:(lia)) as Hb. pose proof (Z.div_mod m 10 ltac:(lia)) as Hdm.
    pose proof (Z.div_pos m 10 ltac:(lia) ltac:(lia)) as Hq.
    rewrite Z.geb_leb, (proj2 (Z.leb_le 1 _)), (proj2 (Z.leb_le _ 9)) by lia. cbn [andb].
    set (q := m / 10) in *. set (d := m mod 10) in *. exists (1 + (q * 9 + d - 1) * 10 + Z.of_nat e).
    split_and!; [lia|lia|done|..].
    + symmetry. apply (Z.mod_unique _ _ (q * 9 + d - 1)); lia.
    + assert ((1 + (q * 9 + d - 1) * 10 + Z.of_nat e - 1) / 10 = q * 9 + (d - 1)) as ->
        by (symmetry; apply (Z.div_unique _ _ _ (Z.of_nat e)); lia).
      assert ((q * 9 + (d - 1)) / 9 = q) as -> by (symmetry; apply (Z.div_unique _ _ _ (d - 1)); lia).
      assert ((q * 9 + (d - 1)) mod 9 = d - 1) as -> by (symmetry; apply (Z.mod_unique _ _ q); lia). lia.
Qed.

Lemma CompressAmount_ok n :
  0 <= n < 2 ^ 60 -> exists x, CompressAmount n = Some x /\ word 64 x /\ DecompressAmount x = n.
Proof.
  intros Hn. destruct (decide (n = 0)) as [->|H0]; [by exists 0|].
  destruct (strip_zeros_spec 9 n) as (m&e&->&He).
  pose proof (Z.pow_pos_nonneg 10 (Z.of_nat e) ltac:(lia) ltac:(lia)) as Hp. assert (0 < m) as Hm by nia.
  destruct (compress_pow m e Hm He) as (x&Hx&->&Emod&Ediv). assert (m < 2 ^ 60) by nia.
  rewrite Z.mod_small by lia. exists x. split_and!; [done|unfold word; lia|].
  unfold DecompressAmount. rewrite (proj2 (Z.eqb_neq x 0)) by lia. rewrite Emod, Nat2Z.id.
  destruct (decide (e = 9%nat)) as [->|Hne].
  - change (Z.of_nat 9 <? 9) with false. cbv iota. rewrite Ediv, Z.mod_small by lia. apply scale_pow; lia.
  - rewrite (proj2 (Z.ltb_lt _ _)) by lia. rewrite Ediv, Z.mod_small by lia. apply scale_pow; lia.
Qed.

Lemma DecompressAmount_ok x : 0 <= x <= 10 ^ 11 -> CompressAmount (DecompressAmount x) = Some x.
Proof.
  intros Hx. unfold DecompressAmount. destruct (Z.eqb_spec x 0) as [->|H0]; [done|].
  pose proof (Z.mod_pos_bound (x - 1) 10 ltac:(lia)) as He. pose proof (Z.div_mod (x - 1) 10 ltac:(lia)) as Ex.
  set (e := (x - 1) mod 10) in *. set (y := (x - 1) / 10) in *.
  pose proof (Z.mod_pos_bound y 9 ltac:(lia)) as Hd. pose proof (Z.div_mod y 9 ltac:(lia)) as Ey.
  set (m := if e <? 9 then y / 9 * 10 + (y mod 9 + 1) else y + 1).
  assert (0 < m <= 2 * 10 ^ 10) as Hm by (unfold m; destruct (e <? 9); lia).
  assert (10 ^ e <= 10 ^ 9) as Hpow by (apply Z.pow_le_mono_r; lia).
  assert (m * 10 ^ e < 2 ^ 64) as Hlt.
  { unfold m in *. destruct (Z.ltb_spec e 9).
    - assert (10 ^ e <= 10 ^ 8) by (apply Z.pow_le_mono_r; lia). nia.
    - nia. }
  assert (scale (Z.to_nat e) (if e <? 9 then (y / 9 * 10 + (y mod 9 + 1)) mod 2 ^ 64 else (y + 1) mod 2 ^ 64) = m * 10 ^ e) as ->.
  { transitivity (scale (Z.to_nat e) m).
    - f_equal. unfold m in *. destruct (e <? 9); apply Z.mod_small; lia.
    - rewrite scale_pow by (rewrite ?Z2Nat.id; lia). by rewrite Z2Nat.id by lia. }
  assert (Z.to_nat e = 9%nat \/ (Z.to_nat e < 9)%nat /\ m mod 10 <> 0) as Hc.
  { unfold m. destruct (Z.ltb_spec e 9); [right|left; lia]. split; [lia|].
    rewrite Z.add_comm, Z.mod_add, Z.mod_small by lia. lia. }
  destruct (compress_pow m (Z.to_nat e) ltac:(lia) Hc) as (x'&Hx'&E&Emod&Ediv). rewrite Z2Nat.id in E, Emod by lia.
  rewrite E. f_equal. rewrite Z.mod_small by lia.
  pose proof (Z.div_mod (x' - 1) 10 ltac:(lia)) as Ex2. set (y' := (x' - 1) / 10) in *.
  assert (y' = y); [|lia]. unfold m in Ediv. destruct (Z.ltb_spec e 9).
  - rewrite decide_False in Ediv by lia. pose proof (Z.mod_pos_bound y' 9 ltac:(lia)). pose proof (Z.div_mod y' 9 ltac:(lia)). lia.
  - rewrite decide_True in Ediv by lia. lia.
Qed.

(** ** Scripts *)

Lemma varint_ok w n :
  7 <= w -> word w n ->
  exists bs, WriteVarInt w n = Some bs /\ Forall byte bs /\ GetSizeOfVarInt w n = Some (vsize bs) /\
    (length bs <= varint_size w)%nat /\ forall rest, ReadVarInt w (bs ++ rest) = inr (n, rest).
Proof.
  intros Hw Hn. destruct (WriteVarInt_ok w n ltac:(lia) Hn) as (bs&E&Hv&Hb&Hs&Hl). exists bs. split_and!; try done.
  intros rest. rewrite (read_varint w n) by done. by rewrite Z.mod_small.
Qed.

(** What the tests on the bytes of a script say of it, element by element *)
Tactic Notation "take_apart" ident(s) integer(n) :=
  do n (destruct s as [|? s]; [try (intros; discriminate)|]);
  (destruct s as [|? s]; [|intros; exfalso; unfold vsize in *; cbn [length] in *; lia]).
Ltac read_bytes :=
  unfold at_is in *; cbn [lookup list_lookup drop take lookup_total list_lookup_total] in *;
  repeat match goal with
  | H : _ && _ = true |- _ => apply andb_true_iff in H as [? ?]
  | H : _ || _ = true |- _ => apply orb_true_iff in H as [?|?]
  | H : bool_decide (_ = _) = true |- _ => apply bool_decide_eq_true in H; injection H as ->
  end.

Lemma IsToKeyID_inv s k :
  IsToKeyID s = Some k -> length k = 20%nat /\ s = [OP_DUP; OP_HASH160; 20] ++ k ++ [OP_EQUALVERIFY; OP_CHECKSIG].
Proof.
  unfold IsToKeyID. destruct (_ && _) eqn:E; [|done]. intros [= <-].
  assert (vsize s = 25) as Hl by (read_bytes; by apply Z.eqb_eq).
  revert Hl E. take_apart s 25. intros _ E. by read_bytes.
Qed.

Lemma IsToScriptID_inv s k :
  IsToScriptID s = Some k -> length k = 20%nat /\ s = [OP_HASH160; 20] ++ k ++ [OP_EQUAL].
Proof.
  unfold IsToScriptID. destruct (_ && _) eqn:E; [|done]. intros [= <-].
  assert (vsize s = 23) as Hl by (read_bytes; by apply Z.eqb_eq).
  revert Hl E. take_apart s 23. intros _ E. by read_bytes.
Qed.

Section compressor_ok.
Context `{KeyCurveSpec}.

Lemma IsToPubKey_inv s k :
  IsToPubKey s = Some k ->
  (length k = 33%nat /\ (k !!! 0%nat = 2 \/ k !!! 0%nat = 3) /\ s = [33] ++ k ++ [OP_CHECKSIG]) \/
  (length k = 65%nat /\ k !!! 0%nat = 4 /\ key_IsFullyValid k = true /\ s = [65] ++ k ++ [OP_CHECKSIG]).
Proof.
  unfold IsToPubKey. destruct (_ && _) eqn:E.
  - intros [= <-]. left. assert (vsize s = 35) as Hl by (read_bytes; by apply Z.eqb_eq).
    revert Hl E. take_apart s 35. intros _ E. read_bytes; split_and!; auto.
  - clear E. destruct (_ && _) eqn:E; [|done]. destruct (key_IsFullyValid _) eqn:Ev; [|done]. intros [= <-]. right.
    assert (vsize s = 67) as Hl by (read_bytes; by apply Z.eqb_eq).
    revert Hl E Ev. take_apart s 67. intros _ E Ev. by read_bytes.
Qed.

Lemma parity_code x : byte x -> 0x04 .| (x .& 0x01) = 4 + x mod 2 /\ 2 .| (x .& 1) = 2 + x mod 2.
Proof.
  intros _. change 0x01 with (Z.ones 1). rewrite Z.land_ones by lia. change (2 ^ 1) with 2.
  pose proof (Z.mod_pos_bound x 2 ltac:(lia)). assert (x mod 2 = 0 \/ x mod 2 = 1) as [-> | ->] by lia; done.
Qed.

(** What [Compress] gives, [Decompress] takes back. *)
Lemma Compress_inv s c :
  Forall byte s -> Compress s = Some c ->
  exists k inp, c = k :: inp /\ 0 <= k < nSpecialScripts /\ length inp = GetSpecialSize k /\ Forall byte inp /\
    forall script, Decompress k inp script = Some (true, s).
Proof.
  intros Hs. unfold Compress.
  destruct (IsToKeyID s) as [k|] eqn:E1.
  { intros [= <-]. apply IsToKeyID_inv in E1 as [Hl ->]. exists 0, k.
    apply Forall_app in Hs as [_ [Hk _]%Forall_app]. done. }
  destruct (IsToScriptID s) as [k|] eqn:E2.
  { intros [= <-]. apply IsToScriptID_inv in E2 as [Hl ->]. exists 1, k.
    apply Forall_app in Hs as [_ [Hk _]%Forall_app]. done. }
  destruct (IsToPubKey s) as [k|] eqn:E3; [|done]. cbn [mbind option_bind].
  apply IsToPubKey_inv in E3 as [(Hl&Hk&->)|(Hl&Hk&Hv&->)]; destruct k as [|k0 x]; try done;
    apply Forall_app in Hs as [_ [[Hk0 Hx]%Forall_cons_1 _]%Forall_app]; cbn [lookup_total list_lookup_total] in Hk;
    unfold at_is; cbn [lookup list_lookup lookup_total list_lookup_total drop].
  - cbn in Hl. rewrite !drop_0, take_ge by lia.
    destruct Hk as [-> | ->]; cbn; intros [= <-]; (eexists _, _; split_and!; [done|done|done|cbn; lia|done|]). all: done.
  - subst k0. rewrite !drop_0. cbn [bool_decide decide_rel]. intros E. injection E as <-.
    set (y := x !!! 63%nat). assert (byte y) as Hy by by apply (lookup_total_Forall byte).
    destruct (parity_code y Hy) as [E4 E2']. rewrite E4. exists (4 + y mod 2), (take 32 x).
    pose proof (Z.mod_pos_bound y 2 ltac:(lia)) as Hm. cbn in Hl. split_and!; [done|lia|unfold nSpecialScripts; lia|..].
    + rewrite length_take.
      assert (GetSpecialSize (4 + y mod 2) = 32%nat) as -> by (assert (y mod 2 = 0 \/ y mod 2 = 1) as [-> | ->] by lia; done).
      lia.
    + by apply Forall_take.
    + intros script. unfold Decompress. rewrite !(proj2 (Z.eqb_neq _ _)) by lia. cbn [orb].
      replace ((4 + y mod 2 =? 4) || (4 + y mod 2 =? 5)) with true
        by (assert (y mod 2 = 0 \/ y mod 2 = 1) as [-> | ->] by lia; done).
      pose proof (decompress_parity (4 :: x) ltac:(by apply Forall_cons_2) ltac:(cbn; lia) eq_refl Hv) as Hd.
      cbn [drop lookup_total list_lookup_total] in Hd. fold y in Hd. rewrite E2', drop_0 in Hd.
      replace (4 + y mod 2 - 2) with (2 + y mod 2) by lia. rewrite Hd. cbn [length]. by rewrite Hl.
Qed.

(** Scripts that are not too long are read back. *)
Lemma CScriptCompressor_ok s :
  Forall byte s -> vsize s <= MAX_SCRIPT_SIZE ->
  exists bs, CScriptCompressor_Serialize s = Some bs /\ CScriptCompressor_GetSerializeSize s = Some (vsize bs) /\
    Forall byte bs /\ forall script rest, CScriptCompressor_Unserialize script (bs ++ rest) = inr (s, rest).
Proof.
  intros Hs Hl. unfold CScriptCompressor_Serialize, CScriptCompressor_GetSerializeSize, CScriptCompressor_Unserialize.
  unfold MAX_SCRIPT_SIZE in Hl. pose proof (vsize_nonneg s) as Hp. destruct (Compress s) as [c|] eqn:E.
  - destruct (Compress_inv s c Hs E) as (k&inp&->&Hk&Hi&Hb&Hd). eexists. split_and!; [done|done|..].
    + apply Forall_cons_2; [|done]. unfold nSpecialScripts in Hk. unfold byte, word. lia.
    + intros script rest. cbn [app]. unfold nSpecialScripts in Hk.
      change (k :: inp ++ rest) with ([k] ++ inp ++ rest).
      rewrite (read_varint 32 k) by (try (constructor); lia). rewrite Z.mod_small by lia. cbn [mbind result_bind].
      rewrite (proj2 (Z.ltb_lt _ _)) by (unfold nSpecialScripts; lia). rewrite read_app by done. cbn [mbind result_bind].
      by rewrite Hd.
  - rewrite u32_small by (unfold nSpecialScripts; lia).
    destruct (varint_ok 32 (vsize s + nSpecialScripts)) as (bs&->&Hb&->&Hl'&Hr); [lia|unfold word, nSpecialScripts; lia|].
    cbn [mbind option_bind]. eexists. split_and!; [done|..].
    + f_equal. unfold vsize. rewrite length_app. rewrite u32_small; [lia|]. change (varint_size 32) with 5%nat in Hl'. unfold vsize in *. lia.
    + by apply Forall_app.
    + intros script rest. rewrite <- app_assoc, Hr. cbn [mbind result_bind].
      rewrite (proj2 (Z.ltb_ge _ _)) by (unfold nSpecialScripts; lia).
      replace (vsize s + nSpecialScripts - nSpecialScripts) with (vsize s) by lia.
      rewrite Z.gtb_ltb, (proj2 (Z.ltb_ge _ _)) by (unfold MAX_SCRIPT_SIZE; lia).
      unfold vsize. rewrite Nat2Z.id. by apply read_app.
Qed.
End compressor_ok.

(** ** Outputs *)

(** Outputs that the format keeps exactly; larger scripts are unspendable. *)
Definition out_disk_ok (o : CTxOut) : Prop :=
  0 <= nValue o < 2 ^ 60 /\ Forall byte (scriptPubKey o) /\ vsize (scriptPubKey o) <= MAX_SCRIPT_SIZE.

Lemma CTxOutCompressor_ok `{KeyCurveSpec} o :
  out_disk_ok o ->
  exists bs, CTxOutCompressor_Serialize o = Some bs /\ CTxOutCompressor_GetSerializeSize o = Some (vsize bs) /\
    Forall byte bs /\ forall o' rest, CTxOutCompressor_Unserialize o' (bs ++ rest) = inr (o, rest).
Proof.
  intros (Hv&Hb&Hl). unfold CTxOutCompressor_Serialize, CTxOutCompressor_GetSerializeSize, CTxOutCompressor_Unserialize.
  destruct (CompressAmount_ok (nValue o) Hv) as (x&Ex&Hx&Ed). rewrite Z.mod_small, Ex by lia. cbn [mbind option_bind].
  destruct (varint_ok 64 x ltac:(lia) Hx) as (b1&->&Hb1&->&_&R1).
  destruct (CScriptCompressor_ok (scriptPubKey o) Hb Hl) as (b2&->&->&Hb2&R2). cbn [mbind option_bind].
  eexists. split_and!; [done|unfold vsize; rewrite length_app; f_equal; lia|by apply Forall_app|].
  intros o' rest. rewrite <- app_assoc, R1. cbn [mbind result_bind]. rewrite R2, Ed. cbn [mbind result_bind].
  unfold to_signed. rewrite (proj2 (Z.ltb_lt _ _)) by lia. by destruct o.
Qed.

(** ** The mask *)

Lemma avail_out_at v i : avail v i = bool_decide (is_Some (out_at v i)).
Proof.
  unfold avail, out_at. destruct (v !! i) as [o|]; cbn [mbind option_bind].
  - destruct (CTxOut_IsNull o); cbn [negb]; symmetry; [by apply bool_decide_eq_false_2; intros []|by apply bool_decide_eq_true_2].
  - symmetry. by apply bool_decide_eq_false_2; intros [].
Qed.

Lemma avail_lt v i : avail v i = true -> (i < length v)%nat.
Proof. unfold avail. destruct (v !! i) eqn:E; [intros _; by eapply lookup_lt_Some|done]. Qed.

(** A byte of the mask is not zero when one of its outputs is there. *)
Definition used (v : list CTxOut) (b : nat) : bool := existsb (fun i => avail v (2 + b * 8 + i)) (seq 0 8).

Lemma used_true v b : used v b = true <-> exists i, (i < 8)%nat /\ avail v (2 + b * 8 + i) = true.
Proof.
  unfold used. rewrite existsb_exists. split; intros (i&Hi&Ha); exists i; (split; [|done]).
  - apply in_seq in Hi. lia.
  - apply in_seq. lia.
Qed.

Lemma chAvail_spec v b :
  mask_bits (chAvail v b) = map (fun p => avail v (2 + b * 8 + p)) (seq 0 8) /\
  negb (chAvail v b =? 0) = used v b /\ byte (chAvail v b).
Proof.
  unfold mask_bits, chAvail, used, byte, word. cbn [seq map existsb foldl].
  generalize (avail v (2 + b * 8 + 0)), (avail v (2 + b * 8 + 1)), (avail v (2 + b * 8 + 2)), (avail v (2 + b * 8 + 3)),
    (avail v (2 + b * 8 + 4)), (avail v (2 + b * 8 + 5)), (avail v (2 + b * 8 + 6)), (avail v (2 + b * 8 + 7)).
  by intros [] [] [] [] [] [] [] [].
Qed.

Lemma chAvail_used v b : used v b = true <-> chAvail v b <> 0.
Proof. destruct (chAvail_spec v b) as (_&<-&_). by rewrite negb_true_iff, Z.eqb_neq. Qed.

(** The number of bytes that are not zero *)
Definition nonzero (bs : list Z) : nat := length (filter (fun b => b <> 0) bs).

(** [CalcMaskSize]: the mask ends with its last byte that is not zero. *)
Lemma CalcMaskSize_spec v :
  let '(nBytes, nNonzero) := CalcMaskSize v in
  (forall i, avail v i = true -> (i < 2 + nBytes * 8)%nat) /\
  nNonzero = nonzero (map (chAvail v) (seq 0 nBytes)) /\ (nBytes <= length v)%nat /\
  (nBytes = 0%nat \/ exists k, nBytes = S k /\ used v k = true).
Proof.
  unfold CalcMaskSize. set (f := foldl _ _).
  assert (forall m, let '(nBytes, nNonzero) := f (seq 0 m) in
    (forall i, avail v i = true -> (i < 2 + m * 8)%nat -> (i < 2 + nBytes * 8)%nat) /\
    nNonzero = nonzero (map (chAvail v) (seq 0 nBytes)) /\ (nBytes <= m)%nat /\
    nNonzero = nonzero (map (chAvail v) (seq 0 m)) /\
    (nBytes = 0%nat \/ exists k, nBytes = S k /\ used v k = true)) as Hm.
  { induction m as [|m IH]; [by split_and!; auto|]. rewrite seq_S. cbn [Nat.add]. unfold f in *. rewrite foldl_app.
    destruct (foldl _ _ (seq 0 m)) as [k c]. destruct IH as (Hi&Hc&Hk&Hcm&Hlast). cbn [foldl]. rewrite negb_involutive.
    fold (used v m). unfold nonzero in *. rewrite map_app, list.filter_app, length_app. cbn [map].
    destruct (used v m) eqn:Eu.
    - assert (chAvail v m <> 0) as Hnz by by apply chAvail_used.
      rewrite filter_cons_True by done. rewrite Nat.add_1_r. split_and!; [lia|..]; try lia.
      + rewrite seq_S, map_app, list.filter_app, length_app. cbn [Nat.add map]. rewrite filter_cons_True by done. cbn. lia.
      + cbn. lia.
      + right. by exists m.
    - assert (chAvail v m = 0) as Hz by (apply dec_stable; intros Hn%chAvail_used; congruence).
      rewrite filter_cons_False by (rewrite Hz; auto). split_and!; try done; [|lia|cbn; lia].
      intros i Ha Hlt. destruct (decide (i < 2 + m * 8)%nat); [by apply Hi|]. exfalso.
      assert (used v m = true); [|congruence]. apply used_true. exists (i - (2 + m * 8))%nat. split; [lia|].
      by replace (2 + m * 8 + (i - (2 + m * 8)))%nat with i by lia. }
  specialize (Hm ((length v + 5) / 8)%nat). destruct (f _) as [k c]. destruct Hm as (Hi&Hc&Hk&_&Hl).
  pose proof (Nat.div_mod (length v + 5) 8 ltac:(lia)). pose proof (Nat.mod_upper_bound (length v + 5) 8 ltac:(lia)).
  split_and!; try done.
  - intros i Ha. apply Hi; [done|]. apply avail_lt in Ha. lia.
  - destruct Hl as [->|(j&->&Hu)]; [lia|]. apply used_true in Hu as (i&_&Ha). apply avail_lt in Ha. lia.
Qed.

(** Reading a mask that ends with a byte that is not zero *)
Lemma read_mask_ok bs av rest :
  (bs = [] \/ exists bs' b, bs = bs' ++ [b] /\ b <> 0) ->
  read_mask (bs ++ rest) (Z.of_nat (nonzero bs)) av = inr (av ++ concat (map mask_bits bs), rest).
Proof.
  revert av. induction bs as [|b bs IH]; intros av Hlast.
  - cbn [app map concat]. rewrite app_nil_r. by destruct rest.
  - assert (bs = [] /\ b <> 0 \/ exists bs' c, bs = bs' ++ [c] /\ c <> 0) as Hcase.
    { destruct Hlast as [|(bs'&c&E&Hc)]; [done|]. destruct bs' as [|b' bs'].
      - injection E as -> ->. by left.
      - injection E as -> ->. right. by exists bs', c. }
    assert (0 < nonzero (b :: bs))%nat as Hpos.
    { unfold nonzero. destruct Hcase as [[-> Hb]|(bs'&c&->&Hc)].
      - rewrite filter_cons_True by done. cbn. lia.
      - change (b :: bs' ++ [c]) with ((b :: bs') ++ [c]). rewrite list.filter_app, length_app, (filter_cons_True _ c) by done. cbn. lia. }
    cbn [app read_mask]. rewrite Z.gtb_ltb, (proj2 (Z.ltb_lt _ _)) by lia.
    replace (if negb (b =? 0) then Z.of_nat (nonzero (b :: bs)) - 1 else Z.of_nat (nonzero (b :: bs))) with (Z.of_nat (nonzero bs)).
    + rewrite IH by (destruct Hcase as [[-> _]|?]; auto). cbn [map concat]. by rewrite <- app_assoc.
    + unfold nonzero. destruct (Z.eqb_spec b 0) as [->|Hb]; cbn [negb].
      * rewrite filter_cons_False by auto. done.
      * rewrite filter_cons_True by done. cbn [length]. lia.
Qed.

(** ** Coins *)

Lemma omap_seq_bound {A} (f : nat -> option A) n m :
  (forall i, is_Some (f i) -> (i < n)%nat) -> (n <= m)%nat -> omap f (seq 0 m) = omap f (seq 0 n).
Proof.
  intros Hf Hm. replace m with (n + (m - n))%nat by lia. rewrite seq_app, omap_app.
  enough (omap f (seq (0 + n) (m - n)) = []) as -> by by rewrite app_nil_r.
  assert (Forall (fun i => (n <= i)%nat) (seq (0 + n) (m - n))) as Hge by (apply Forall_seq; lia).
  induction Hge as [|i l Hi _ IH]; [done|]. cbn. destruct (f i) as [a|] eqn:E; [|done].
  specialize (Hf i ltac:(by exists a)). lia.
Qed.

Lemma omap_fmap {A B C} (f : B -> option C) (g : A -> B) (l : list A) : omap f (g <$> l) = omap (fun x => f (g x)) l.
Proof. induction l as [|x l IH]; [done|]. cbn. by rewrite IH. Qed.

Lemma unspent_outs_at v n :
  (forall i, avail v i = true -> (i < n)%nat) -> unspent_outs v = omap (out_at v) (seq 0 n).
Proof.
  intros Hn. transitivity (omap (out_at v) (seq 0 (length v))).
  - clear n Hn. induction v as [|o v IH]; [done|]. cbn [length seq]. rewrite <- fmap_S_seq. cbn [omap list_omap].
    rewrite omap_fmap. unfold unspent_outs in *. cbn [out_at lookup list_lookup mbind option_bind].
    destruct (CTxOut_IsNull o) eqn:E.
    + rewrite filter_cons_False by congruence. exact IH.
    + rewrite filter_cons_True by done. f_equal. exact IH.
  - assert (forall i, is_Some (out_at v i) -> avail v i = true) as Ha
      by (intros i Hi; rewrite avail_out_at; by apply bool_decide_eq_true_2).
    destruct (decide (n <= length v)%nat).
    + apply omap_seq_bound; [|done]. auto.
    + symmetry. apply omap_seq_bound; [|lia]. intros i Hi. by apply avail_lt, Ha.
Qed.

Lemma read_outs_ok `{KeyCurveSpec} v ps :
  (forall i o, out_at v i = Some o -> out_disk_ok o) ->
  exists outs, mapM CTxOutCompressor_Serialize (omap (out_at v) ps) = Some outs /\
    mapM CTxOutCompressor_GetSerializeSize (omap (out_at v) ps) = Some (map vsize outs) /\ Forall byte (concat outs) /\
    forall rest, read_outs (map (avail v) ps) (concat outs ++ rest) =
      inr (map (fun i => default CTxOut_null (out_at v i)) ps, rest).
Proof.
  intros Hv. induction ps as [|i ps (outs&E&Es&Hb&R)]; [by exists []|]. cbn [omap list_omap map read_outs].
  rewrite avail_out_at. destruct (out_at v i) as [o|] eqn:Eo.
  - destruct (CTxOutCompressor_ok o (Hv i o Eo)) as (bs&E1&E2&Hb1&R1). exists (bs :: outs). cbn [mapM].
    rewrite E1, E2, E, Es. split_and!; [done|done|by apply Forall_app|]. intros rest. cbn [concat].
    rewrite <- app_assoc, bool_decide_eq_true_2 by done. by rewrite R1; cbn [mbind result_bind]; rewrite R.
  - exists outs. split_and!; [done..|]. intros rest. rewrite bool_decide_eq_false_2 by by intros []. cbn [mbind result_bind mret result_ret].
    by rewrite R.
Qed.

Lemma trim_read v n :
  (forall i, avail v i = true -> (i < n)%nat) ->
  trim (map (fun i => default CTxOut_null (out_at v i)) (seq 0 n)) = disk_vout v.
Proof.
  intros Hn. apply trim_ext.
  - apply Forall_map, list.Forall_forall. intros i _. unfold out_at. destruct (v !! i) as [o|]; [|done]. cbn.
    destruct (CTxOut_IsNull o) eqn:E; [done|]. cbn. congruence.
  - apply Forall_map, list.Forall_forall. intros o _. cbn. by destruct (CTxOut_IsNull o) eqn:E; [|congruence].
  - intros i. unfold out_at at 1 3. rewrite !list_lookup_fmap.
    assert (forall o, out_at v i = Some o -> CTxOut_IsNull o = false) as Hnn.
    { intros o. unfold out_at. destruct (v !! i) as [p|]; [|done]. cbn. by destruct (CTxOut_IsNull p) eqn:E; [|intros [= <-]]. }
    transitivity (out_at v i).
    + destruct (decide (i < n)%nat).
      * rewrite lookup_seq_lt by done. cbn. destruct (out_at v i) as [o|]; cbn; [by rewrite Hnn|done].
      * rewrite lookup_seq_ge by lia. cbn. destruct (out_at v i) as [o|] eqn:E; [|done].
        assert (i < n)%nat; [|lia]. apply Hn. rewrite avail_out_at, E. by apply bool_decide_eq_true_2.
    + unfold out_at. destruct (v !! i) as [o|]; [|done]. cbn. rewrite null_null. by destruct (CTxOut_IsNull o).
Qed.

Lemma mask_bits_seq v n :
  [avail v 0; avail v 1] ++ concat (map mask_bits (map (chAvail v) (seq 0 n))) = map (avail v) (seq 0 (2 + n * 8)).
Proof.
  induction n as [|n IH]; [done|]. rewrite seq_S, !map_app, concat_app, app_assoc, IH. cbn [map concat].
  destruct (chAvail_spec v (0 + n)) as (->&_). rewrite app_nil_r.
  replace (2 + S n * 8)%nat with (2 + n * 8 + 8)%nat by lia. rewrite (seq_app (2 + n * 8)), map_app. f_equal.
  transitivity (map (avail v) (Nat.add (2 + n * 8) <$> seq 0 8)); [symmetry; apply map_map|].
  by rewrite fmap_add_seq, Nat.add_0_r.
Qed.

(** A code of eight times a number and three bits *)
Lemma low_bits q c m : 0 <= c < 8 -> 0 <= m < 8 -> (8 * q + c) .& m = c .& m.
Proof.
  intros Hc Hm. assert (m = Z.land m 7) as E by (change 7 with (Z.ones 3); rewrite Z.land_ones, Z.mod_small by lia; done).
  assert (Z.land (8 * q + c) 7 = c) as Ec.
  { change 7 with (Z.ones 3). rewrite Z.land_ones by lia. change (2 ^ 3) with 8.
    rewrite (Z.mul_comm 8), Z.add_comm, Z.mod_add, Z.mod_small by lia. done. }
  rewrite E, (Z.land_comm m), !Z.land_assoc, Ec, E. f_equal.
  change 7 with (Z.ones 3). by rewrite Z.land_ones, Z.mod_small by lia.
Qed.

Lemma code_parts q (b f s : bool) :
  0 <= q ->
  let code := 8 * q + (if b then 1 else 0) + (if f then 2 else 0) + (if s then 4 else 0) in
  negb (code .& 1 =? 0) = b /\ negb (code .& 2 =? 0) = f /\ negb (code .& 4 =? 0) = s /\
  negb (code .& 6 =? 0) = f || s /\ code / 8 = q.
Proof.
  intros Hq code. set (c := (if b then 1 else 0) + (if f then 2 else 0) + (if s then 4 else 0)).
  assert (0 <= c < 8) as Hc by (unfold c; destruct b, f, s; lia). replace code with (8 * q + c) by (unfold code, c; lia).
  rewrite !low_bits by lia. assert ((8 * q + c) / 8 = q) as ->; [|unfold c; by destruct b, f, s].
  symmetry. apply (Z.div_unique _ _ _ c); lia.
Qed.

Lemma varint_int_ok x :
  int_range 32 x ->
  exists bs, WriteVarInt 32 x = Some bs /\ Forall byte bs /\ GetSizeOfVarInt 32 x = Some (vsize bs) /\
    forall rest, ReadVarInt_int (bs ++ rest) = inr (disk_int x, rest).
Proof.
  unfold int_range. intros Hx. unfold ReadVarInt_int, disk_int, to_signed. destruct (Z.ltb_spec x 0) as [Hneg|Hpos].
  - exists [x .& 0x7F]. unfold WriteVarInt, GetSizeOfVarInt. change (varint_size 32) with 5%nat.
    cbn [WriteVarInt_loop GetSizeOfVarInt_loop length Nat.eqb app]. rewrite (proj2 (Z.leb_le x 0x7F)), Z.lor_0_r by lia.
    rewrite land_7F. pose proof (Z.mod_pos_bound x 128 ltac:(lia)). split_and!; [done| |done|].
    + apply Forall_singleton. unfold byte, word. lia.
    + intros rest. change (x mod 128 :: rest) with ([x mod 128] ++ rest). rewrite (read_varint 32 (x mod 128) [x mod 128]) by (try constructor; lia). cbn [mbind result_bind].
      rewrite Z.mod_small by lia. by rewrite (proj2 (Z.ltb_lt _ _)) by lia.
  - destruct (varint_ok 32 x) as (bs&?&?&?&_&R); [lia|unfold word; lia|]. exists bs. split_and!; try done.
    intros rest. rewrite R. cbn [mbind result_bind]. by rewrite (proj2 (Z.ltb_lt _ _)) by lia.
Qed.

(** Coins that the format can hold *)
Record coins_disk_ok (c : CCoins) : Prop := {
  disk_outs : forall i o, out_at (c_vout c) i = Some o -> out_disk_ok o;
  disk_size : vsize (c_vout c) < 2 ^ 28;
  disk_height : 0 <= nHeight c < 2 ^ 31;
  disk_version : int_range 32 (c_nVersion c);
}.

(** [assert(fFirst || fSecond || nMaskCode)] holds of coins that are not all spent. *)
Lemma has_unspent_ok c : has_unspent (c_vout c) = negb (IsPruned c).
Proof.
  set (v := c_vout c). unfold has_unspent. pose proof (CalcMaskSize_spec v) as Hs.
  destruct (CalcMaskSize v) as [nb nz]. destruct Hs as (Hi&Hz&_&Hl). cbn [snd].
  destruct (IsPruned c) eqn:E; cbn [negb].
  - pose proof (proj1 (pruned_out_at c) E) as Hp. fold v in Hp.
    assert (forall i, avail v i = false) as Hna
      by (intros i; rewrite avail_out_at, Hp; by apply bool_decide_eq_false_2; intros []).
    rewrite !Hna. cbn [orb]. destruct Hl as [->|(k&_&Hu)]; [by rewrite Hz|].
    apply used_true in Hu as (i&_&Hi'). by rewrite Hna in Hi'.
  - destruct (avail v 0) eqn:E0, (avail v 1) eqn:E1; try done. cbn [orb]. apply negb_true_iff, Nat.eqb_neq.
    destruct Hl as [->|(k&->&Hu)].
    + exfalso. assert (IsPruned c = true); [|congruence]. apply pruned_out_at. intros i. fold v.
      destruct (out_at v i) as [o|] eqn:Eo; [|done]. assert (avail v i = true) as Ha by (rewrite avail_out_at, Eo; by apply bool_decide_eq_true_2).
      specialize (Hi i Ha). destruct i as [|[|i]]; [congruence|congruence|lia].
    + rewrite Hz. apply chAvail_used in Hu. unfold nonzero. rewrite seq_S, map_app, list.filter_app, length_app. cbn [Nat.add map].
      rewrite filter_cons_True by done. cbn. lia.
Qed.

Lemma vsize_concat (bs : list (list Z)) : vsize (concat bs) = foldr Z.add 0 (map vsize bs).
Proof. induction bs as [|b bs IH]; [done|]. cbn [concat map foldr]. rewrite <- IH. unfold vsize. rewrite length_app. lia. Qed.

(** The parts of the code in the header *)
Lemma header_code_parts c :
  coins_disk_ok c -> IsPruned c = false ->
  let code := header_code c in let v := c_vout c in
  word 32 code /\ negb (code .& 1 =? 0) = fCoinBase c /\ negb (code .& 2 =? 0) = avail v 0 /\
  negb (code .& 4 =? 0) = avail v 1 /\
  u32 (code / 8 + (if negb (code .& 6 =? 0) then 0 else 1)) = Z.of_nat (CalcMaskSize v).2.
Proof.
  intros [_ Hsz _ _] Hp. cbv zeta. unfold header_code. pose proof (has_unspent_ok c) as Hun. rewrite Hp in Hun.
  pose proof (CalcMaskSize_spec (c_vout c)) as Hs. unfold has_unspent in Hun.
  destruct (CalcMaskSize (c_vout c)) as [nb nz]. destruct Hs as (_&Hz&Hnb&_). cbn [fst snd] in *.
  set (v := c_vout c) in *. set (q := Z.of_nat nz - (if avail v 0 || avail v 1 then 0 else 1)).
  assert (0 <= q < 2 ^ 28) as Hq.
  { assert (nz <= nb)%nat as Hle.
    { rewrite Hz. unfold nonzero. etransitivity; [apply length_filter|]. by rewrite length_map, length_seq. }
    unfold vsize in Hsz. unfold q. destruct (avail v 0 || avail v 1); [lia|].
    apply negb_true_iff, Nat.eqb_neq in Hun. lia. }
  destruct (code_parts q (fCoinBase c) (avail v 0) (avail v 1) (proj1 Hq)) as (C1&C2&C4&C6&C8).
  set (code := 8 * q + _ + _ + _) in *.
  assert (0 <= code < 2 ^ 32) as Hcode by (unfold code; destruct (fCoinBase c), (avail v 0), (avail v 1); lia).
  rewrite (u32_small code) by done. split_and!; [apply Hcode..|done|done|done|]. rewrite C6, C8.
  unfold q in *. rewrite u32_small; destruct (avail v 0 || avail v 1); lia.
Qed.

(** The format of coins on disk keeps what the database view keeps. *)
Lemma CCoins_format `{HK : KeyCurve} `{!KeyCurveSpec} (c : CCoins) :
  coins_disk_ok c ->
  if IsPruned c then CCoins_Serialize c = None
  else exists bs, CCoins_Serialize c = Some bs /\ Forall byte bs /\ CCoins_GetSerializeSize c = Some (u32 (vsize bs)) /\
    forall rest, CCoins_Unserialize false (bs ++ rest) = inr (disk_coins c, rest) /\
      forall stake, CCoins_Unserialize stake (bs ++ rest) =
        inr (Coins (fCoinBase c) stake (disk_vout (c_vout c)) (nHeight c) (disk_int (c_nVersion c)), rest).
Proof.
  intros Hc. unfold CCoins_Serialize, CCoins_GetSerializeSize. rewrite has_unspent_ok, negb_involutive.
  destruct (IsPruned c) eqn:Hp; [done|]. destruct (header_code_parts c Hc Hp) as (Hcode&C1&C2&C4&C8).
  destruct Hc as [Ho _ Hh Hver]. set (code := header_code c) in *. pose proof (CalcMaskSize_spec (c_vout c)) as Hs.
  destruct (CalcMaskSize (c_vout c)) as [nb nz]. destruct Hs as (Hi&Hz&_&Hl). cbn [fst snd] in *. cbv zeta.
  set (v := c_vout c) in *.
  destruct (varint_int_ok _ Hver) as (b1&->&Hb1&->&R1). destruct (varint_ok 32 code ltac:(lia) Hcode) as (b2&->&Hb2&->&_&R2).
  rewrite (unspent_outs_at v _ Hi). destruct (read_outs_ok v (seq 0 (2 + nb * 8)) Ho) as (outs&->&->&Hb3&R3).
  destruct (varint_int_ok (nHeight c)) as (b4&->&Hb4&->&R4); [unfold int_range; lia|]. cbn [mbind option_bind].
  assert (forall rest stake, CCoins_Unserialize stake
    ((b1 ++ b2 ++ map (chAvail v) (seq 0 nb) ++ concat outs ++ b4) ++ rest) =
    inr (Coins (fCoinBase c) stake (disk_vout v) (nHeight c) (disk_int (c_nVersion c)), rest)) as R.
  { intros rest stake. unfold CCoins_Unserialize. rewrite <- !app_assoc, R1. cbn [mbind result_bind]. rewrite R2.
    cbn [mbind result_bind]. rewrite C1, C2, C4, C8, Hz, read_mask_ok; [|].
    - cbn [mbind result_bind]. rewrite mask_bits_seq, R3. cbn [mbind result_bind]. rewrite R4. cbn [mbind result_bind].
      unfold Cleanup, set_vout. cbn [fCoinBase fCoinStake c_vout nHeight c_nVersion]. rewrite (trim_read v _ Hi).
      unfold disk_int at 1. by rewrite (proj2 (Z.ltb_ge _ _)) by lia.
    - destruct Hl as [->|(k&->&Hu)]; [by left|right]. exists (map (chAvail v) (seq 0 k)), (chAvail v k).
      by rewrite seq_S, map_app, <- chAvail_used. }
  eexists. split_and!; [done|..].
  - repeat (apply Forall_app; split; [done|]). apply Forall_app. split; [|by apply Forall_app].
    apply Forall_map, list.Forall_forall. intros b _. apply chAvail_spec.
  - rewrite <- vsize_concat. unfold vsize. rewrite !length_app, length_map, length_seq. do 2 f_equal. lia.
  - intros rest. split; [apply R|]. intros stake. apply R.
Qed.

(** The compression of amounts is lossless: for every amount below 2^60, and so for every
    amount of money, [CompressAmount] passes its assertion and gives a 64-bit number that
    [DecompressAmount] takes back to the amount; and every number up to 10^11 stands for one
    amount only, the one that is compressed to it. *)
Theorem amount_compression (n x : Z) :
  (0 <= n < 2 ^ 60 \/ MoneyRange n = true ->
    exists y, CompressAmount n = Some y /\ word 64 y /\ DecompressAmount y = n) /\
  (0 <= x <= 10 ^ 11 -> CompressAmount (DecompressAmount x) = Some x).
Proof.
  split; [|apply DecompressAmount_ok]. intros Hn. apply CompressAmount_ok. destruct Hn as [Hn|Hn]; [done|].
  unfold MoneyRange, MAX_MONEY, COIN in Hn. apply andb_true_iff in Hn as [H1 H2].
  apply Z.geb_le in H1. apply Z.leb_le in H2. lia.
Qed.

Lemma amount_compression_witness :
  (exists y, CompressAmount 60000000000 = Some y /\ word 64 y /\ DecompressAmount y = 60000000000) /\
  CompressAmount (DecompressAmount 600) = Some 600.
Proof. split; [apply (amount_compression 60000000000 0); left; lia|apply (amount_compression 0 600); lia]. Defined.

(** ** Undo data *)

(** Undo data that the format keeps *)
Record undo_disk_ok (u : CTxInUndo) : Prop := {
  undo_out : out_disk_ok (txout u);
  undo_height : 0 <= u_nHeight u < 2 ^ 31;
  undo_version : 0 <= u_nVersion u < 2 ^ 31;
  undo_short : u_nHeight u = 0 -> u_nVersion u = 0;
}.

Lemma undo_code_parts h (b : bool) :
  0 <= h -> (h * 2 + (if b then 1 else 0)) / 2 = h /\ negb ((h * 2 + (if b then 1 else 0)) .& 1 =? 0) = b.
Proof.
  intros Hh. split; [symmetry; apply (Z.div_unique _ _ _ (if b then 1 else 0)); destruct b; lia|].
  change 1 with (Z.ones 1) at 2. rewrite Z.land_ones, Z.add_comm, Z.mod_add by lia. by destruct b.
Qed.

(** Undo data is written and read back. *)
Lemma undo_disk_format `{KeyCurveSpec} u :
  undo_disk_ok u ->
  exists bs, CTxInUndo_Serialize u = Some bs /\ CTxInUndo_GetSerializeSize u = Some (u32 (vsize bs)) /\ Forall byte bs /\
    forall rest, CTxInUndo_Unserialize (new_CTxInUndo CTxOut_null) (bs ++ rest) = inr (u, rest).
Proof.
  intros [Ho Hh Hv Hs]. unfold CTxInUndo_Serialize, CTxInUndo_GetSerializeSize, CTxInUndo_Unserialize, undo_code.
  destruct (undo_code_parts (u_nHeight u) (u_fCoinBase u) (proj1 Hh)) as [E2 E1].
  set (code := u_nHeight u * 2 + _) in *. assert (word 32 code) as Hc by (unfold word, code; destruct (u_fCoinBase u); lia).
  rewrite (u32_small code) by done. destruct (varint_ok 32 code ltac:(lia) Hc) as (b1&->&Hb1&->&_&R1).
  destruct (CTxOutCompressor_ok _ Ho) as (b3&->&->&Hb3&R3). cbn [mbind option_bind].
  assert (exists b2, (if u_nHeight u >? 0 then WriteVarInt 32 (u_nVersion u) else Some []) = Some b2 /\ Forall byte b2 /\
    (if u_nHeight u >? 0 then GetSizeOfVarInt 32 (u_nVersion u) else Some 0) = Some (vsize b2) /\
    forall rest, (if u_nHeight u >? 0 then ReadVarInt_int (b2 ++ rest) else inr (0, b2 ++ rest)) = inr (u_nVersion u, rest))
    as (b2&->&Hb2&->&R2).
  { rewrite Z.gtb_ltb. destruct (Z.ltb_spec 0 (u_nHeight u)).
    - destruct (varint_int_ok (u_nVersion u)) as (b2&?&?&?&R2); [unfold int_range; lia|]. exists b2. split_and!; try done.
      intros rest. rewrite R2. unfold disk_int. by rewrite (proj2 (Z.ltb_ge _ _)) by lia.
    - exists []. split_and!; try done. intros rest. by rewrite Hs by lia. }
  cbn [mbind option_bind]. eexists. split_and!; [done|..].
  - unfold vsize. rewrite !length_app. do 2 f_equal. lia.
  - by repeat (apply Forall_app; split).
  - intros rest. rewrite <- !app_assoc, R1. cbn [mbind result_bind]. rewrite E2, E1. cbn [u_nVersion new_CTxInUndo mret result_ret].
    rewrite R2. cbn [mbind result_bind]. rewrite R3. by destruct u.
Qed.


Lemma trim_length v : (length (trim v) <= length v)%nat.
Proof. induction v as [|o v IH]; [done|]. rewrite trim_cons. destruct (_ && _); cbn [length]; lia. Qed.

(** The coins that a transaction of valid amounts adds are in the format, *)
Lemma FromTx_disk_ok tx height :
  Forall (fun o => MoneyRange (nValue o) = true /\ Forall byte (scriptPubKey o)) (vout tx) ->
  vsize (vout tx) < 2 ^ 28 -> 0 <= height < 2 ^ 31 -> int_range 32 (nVersion tx) ->
  coins_disk_ok (FromTx tx height).
Proof.
  intros Ho Hsz Hh Hv. split; [..|done|done].
  - intros i o E. pose proof (out_at_FromTx _ _ _ _ E) as Hun. revert E.
    unfold FromTx, ClearUnspendable, Cleanup. cbn [c_vout set_vout]. rewrite out_at_trim, out_at_clear.
    destruct (out_at (vout tx) i) as [o'|] eqn:E; [|done]. cbn. destruct (IsUnspendable (scriptPubKey o')); [done|].
    intros [= ->]. unfold out_at in E. destruct (vout tx !! i) as [p|] eqn:El; [|done]. cbn in E.
    destruct (CTxOut_IsNull p); [done|]. injection E as ->. destruct (Forall_lookup_1 _ _ _ _ Ho El) as [Hm Hb].
    unfold MoneyRange, MAX_MONEY, COIN in Hm. apply andb_true_iff in Hm as [H1%Z.geb_le H2%Z.leb_le].
    unfold IsUnspendable in Hun. apply orb_false_iff in Hun as [_ Hun]. rewrite Z.gtb_ltb in Hun. apply Z.ltb_ge in Hun.
    split_and!; [lia|lia|done|done].
  - unfold FromTx, ClearUnspendable, Cleanup, vsize in *. cbn [c_vout set_vout].
    pose proof (trim_length (map (fun o => if IsUnspendable (scriptPubKey o) then CTxOut_null else o) (vout tx))) as Hl.
    rewrite length_map in Hl. lia.
Qed.

(** and so is the undo data of an output that is spent. *)
Lemma spend_disk_ok cs nPos u cs' :
  coins_disk_ok cs -> 0 <= c_nVersion cs -> 0 < nHeight cs -> spend_coins cs nPos = Some (u, cs') -> undo_disk_ok u.
Proof.
  intros [Ho _ Hh Hv] Hpos Hht. unfold spend_coins. destruct (c_vout cs !! Z.to_nat nPos) as [o|] eqn:E; [|done].
  cbn [mbind option_bind]. destruct (CTxOut_IsNull o) eqn:En; [done|]. intros [= <- <-].
  assert (out_disk_ok o) as Hok by (apply (Ho (Z.to_nat nPos)); unfold out_at; rewrite E; cbn; by rewrite En).
  unfold undo_data, Spend, IsAvailable. rewrite E, En. cbn [negb snd]. unfold Cleanup, set_vout.
  cbn [fCoinBase nHeight c_nVersion c_vout]. unfold int_range in Hv.
  destruct (length _ =? 0)%nat; split; cbn [txout u_nHeight u_nVersion new_CTxInUndo]; try done; rewrite ?u32_small by lia; lia.
Qed.

(** ** A curve of one point, the generator of secp256k1 *)

Definition generator_x : list Z :=
  [121; 190; 102; 126; 249; 220; 187; 172; 85; 160; 98; 149; 206; 135; 11; 7;
   2; 155; 252; 219; 45; 206; 40; 217; 89; 242; 129; 91; 22; 248; 23; 152].
Definition generator_y : list Z :=
  [72; 58; 218; 119; 38; 163; 196; 101; 93; 164; 251; 252; 14; 17; 8; 168;
   253; 23; 180; 72; 166; 133; 84; 25; 156; 71; 208; 143; 251; 16; 212; 184].

#[export] Instance one_point : KeyCurve := {
  key_IsFullyValid k := bool_decide (k = 4 :: generator_x ++ generator_y);
  key_Decompress k := if bool_decide (k = 2 :: generator_x) then Some (4 :: generator_x ++ generator_y) else None;
}.

#[export] Instance one_point_spec : KeyCurveSpec.
Proof.
  split.
  - intros k u. unfold key_Decompress, one_point. by destruct (bool_decide _); [intros [= <-]|].
  - intros k _ _ _. unfold key_IsFullyValid, one_point. intros ->%bool_decide_eq_true. done.
Qed.

(** Coins with outputs 0, 3 and 12 unspent, of three kinds *)
Definition sample_disk_coins : CCoins :=
  let p2pkh := [OP_DUP; OP_HASH160; 20] ++ replicate 20 7 ++ [OP_EQUALVERIFY; OP_CHECKSIG] in
  let p2pk := [65; 4] ++ generator_x ++ generator_y ++ [OP_CHECKSIG] in
  Coins true true ([{| nValue := 60000000000; scriptPubKey := p2pkh |}; CTxOut_null; CTxOut_null; {| nValue := 1; scriptPubKey := p2pk |}] ++
    replicate 8 CTxOut_null ++ [{| nValue := 234925952; scriptPubKey := [OP_1] |}; CTxOut_null]) 203998 (-1).

Definition sample_undo : CTxInUndo := undo_data {| nValue := 234925952; scriptPubKey := [OP_1] |} (Coins true false [] 203998 1).


Definition p2pkh_of (h : list Z) : CScript := [OP_DUP; OP_HASH160; 20] ++ h ++ [OP_EQUALVERIFY; OP_CHECKSIG].

(** The two examples in the comment of [coins.h] *)
Example coins_example_1 :
  CCoins_Unserialize false
    [1; 4; 131; 88; 0; 129; 97; 21; 148; 78; 7; 127; 231; 200; 3; 207; 165; 127; 41; 179; 107; 248; 124; 29; 53; 139; 184; 94] =
  inr (Coins false false [CTxOut_null; {| nValue := 60000000000; scriptPubKey := p2pkh_of
    [129; 97; 21; 148; 78; 7; 127; 231; 200; 3; 207; 165; 127; 41; 179; 107; 248; 124; 29; 53] |}] 203998 1, []).
Proof. by vm_compute. Qed.

Example coins_example_2 :
  CCoins_Unserialize false
    [1; 9; 4; 64; 134; 239; 151; 213; 121; 0; 97; 176; 28; 170; 181; 15; 27; 142; 156; 80; 165; 5; 126; 180; 60; 45; 149; 99; 164; 238; 187; 209; 35; 0; 140; 152; 143; 26; 74; 77; 226; 22; 30; 15; 80; 170; 199; 241; 126; 127; 149; 85; 202; 164; 134; 175; 59] =
  inr (Coins true false (replicate 4 CTxOut_null ++ [{| nValue := 234925952; scriptPubKey := p2pkh_of
    [97; 176; 28; 170; 181; 15; 27; 142; 156; 80; 165; 5; 126; 180; 60; 45; 149; 99; 164; 238] |}] ++ replicate 11 CTxOut_null ++
    [{| nValue := 110397; scriptPubKey := p2pkh_of
    [140; 152; 143; 26; 74; 77; 226; 22; 30; 15; 80; 170; 199; 241; 126; 127; 149; 85; 202; 164] |}]) 120891 1, []).
Proof. by vm_compute. Qed.

