(* ===== verification/SigHash.v ===== *)
(** Signature hashes and the signature checker of transactions ([src/src/script/interpreter.cpp]
    from [CTransactionSignatureSerializer] to [TransactionSignatureChecker], [CScriptCheck] of
    [main.cpp]): what a signature commits to, in both versions, and the checker as an
    implementation of the interface of the script interpreter. *)

From S2P Require Import Prelude SphTypes BlockBuffer Hasher Sha2Spec Sha256 Hash Serialize Codec Script Interpreter InterpreterProps.
From S2P Require Import Transaction.

#[local] Open Scope c_scope.

(** ** The transaction as it is signed *)

(** [while (scriptCode.GetOp(it, opcode))] with the count of separators; every round takes at
    least a byte, so that the fuel is the length of the script and one. *)
Fixpoint count_separators (fuel : nat) (it : CScript) (nCodeSeparators : Z) : option Z :=
  match fuel with
  | O => None
  | S fuel =>
      match GetOp2 it with
      | (Some (opcode, _), it) =>
          count_separators fuel it (if opcode =? OP_CODESEPARATOR then nCodeSeparators + 1 else nCodeSeparators)
      | (None, _) => Some nCodeSeparators
      end
  end.

(** The second loop: what is between [itBegin] and a separator is written without it. *)
Fixpoint write_pieces (fuel : nat) (itBegin it : CScript) : option (list Z) :=
  match fuel with
  | O => None
  | S fuel =>
      match GetOp2 it with
      | (Some (opcode, _), it) =>
          if opcode =? OP_CODESEPARATOR then
            rest ← write_pieces fuel it it;
            Some (take (length itBegin - length it - 1) itBegin ++ rest)
          else write_pieces fuel itBegin it
      | (None, it) => Some (take (length itBegin - length it) itBegin)
      end
  end.

Definition SerializeScriptCode (scriptCode : CScript) : option (list Z) :=
  nCodeSeparators ← count_separators (S (length scriptCode)) scriptCode 0;
  body ← write_pieces (S (length scriptCode)) scriptCode scriptCode;
  Some (WriteCompactSize (vsize scriptCode - nCodeSeparators) ++ body).

(** [CTransactionSignatureSerializer]; [None] is an access outside a vector. *)
Section serializer.
Context (txTo : CTransaction) (scriptCode : CScript) (nIn : nat) (nHashType : Z).

Definition fAnyoneCanPay : bool := has nHashType SIGHASH_ANYONECANPAY.
Definition fHashSingle : bool := nHashType .& 0x1f =? SIGHASH_SINGLE.
Definition fHashNone : bool := nHashType .& 0x1f =? SIGHASH_NONE.

Definition SerializeInput (nInput : nat) : option (list Z) :=
  let nInput := if fAnyoneCanPay then nIn else nInput in
  i ← vin txTo !! nInput;
  script ← (if negb (nInput =? nIn)%nat then Some (Serialize_bytes []) else SerializeScriptCode scriptCode);
  Some (COutPoint_Serialize (prevout i) ++ script ++
        (if negb (nInput =? nIn)%nat && (fHashSingle || fHashNone) then Serialize_int32 0
         else ser_writedata32 (nSequence i))).

Definition SerializeOutput (nOutput : nat) : option (list Z) :=
  if fHashSingle && negb (nOutput =? nIn)%nat then Some (CTxOut_Serialize CTxOut_null)
  else o ← vout txTo !! nOutput; Some (CTxOut_Serialize o).

Definition signature_Serialize : option (list Z) :=
  let nInputs := if fAnyoneCanPay then 1%nat else length (vin txTo) in
  let nOutputs := if fHashNone then 0%nat else if fHashSingle then S nIn else length (vout txTo) in
  ins ← mapM SerializeInput (seq 0 nInputs);
  outs ← mapM SerializeOutput (seq 0 nOutputs);
  Some (Serialize_int32 (nVersion txTo) ++ ser_writedata32 (nTime txTo) ++
        WriteCompactSize (Z.of_nat nInputs) ++ concat ins ++ WriteCompactSize (Z.of_nat nOutputs) ++ concat outs ++
        ser_writedata32 (nLockTime txTo) ++ Serialize_bytes (strDZeel txTo)).
End serializer.

(** ** The hash *)

Section hash.
(** The memory of the hash objects *)
Context (mem : list Z).

Definition GetPrevoutHash (txTo : CTransaction) : option uint256 :=
  Hash1 mem (concat (map (fun i => COutPoint_Serialize (prevout i)) (vin txTo))).
Definition GetSequenceHash (txTo : CTransaction) : option uint256 :=
  Hash1 mem (concat (map (fun i => ser_writedata32 (nSequence i)) (vin txTo))).
Definition GetOutputsHash (txTo : CTransaction) : option uint256 :=
  Hash1 mem (concat (map CTxOut_Serialize (vout txTo))).

Record PrecomputedTransactionData := {
  hashPrevouts : uint256; hashSequence : uint256; hashOutputs : uint256 }.

Definition new_PrecomputedTransactionData (txTo : CTransaction) : option PrecomputedTransactionData :=
  p ← GetPrevoutHash txTo; s ← GetSequenceHash txTo; o ← GetOutputsHash txTo;
  Some {| hashPrevouts := p; hashSequence := s; hashOutputs := o |}.

(** The three hashes of the witness version *)
Definition witness_prevouts (txTo : CTransaction) (nHashType : Z) (cache : option PrecomputedTransactionData) : option uint256 :=
  if negb (has nHashType SIGHASH_ANYONECANPAY) then
    match cache with Some c => Some (hashPrevouts c) | None => GetPrevoutHash txTo end
  else Some hash_null.

Definition witness_sequence (txTo : CTransaction) (nHashType : Z) (cache : option PrecomputedTransactionData) : option uint256 :=
  if negb (has nHashType SIGHASH_ANYONECANPAY) && negb (fHashSingle nHashType) && negb (fHashNone nHashType) then
    match cache with Some c => Some (hashSequence c) | None => GetSequenceHash txTo end
  else Some hash_null.

Definition witness_outputs (txTo : CTransaction) (nIn : nat) (nHashType : Z) (cache : option PrecomputedTransactionData)
    : option uint256 :=
  if negb (fHashSingle nHashType) && negb (fHashNone nHashType) then
    match cache with Some c => Some (hashOutputs c) | None => GetOutputsHash txTo end
  else if fHashSingle nHashType && (nIn <? length (vout txTo))%nat then
    o ← vout txTo !! nIn; Hash1 mem (CTxOut_Serialize o)
  else Some hash_null.

(** [uint256S("00...01")] *)
Definition hash_one : uint256 := 1 :: replicate 31 0.

Definition SignatureHash (scriptCode : CScript) (txTo : CTransaction) (nIn : nat) (nHashType amount : Z)
    (sigversion : SigVersion) (cache : option PrecomputedTransactionData) : option uint256 :=
  match sigversion with
  | SIGVERSION_WITNESS_V0 =>
      p ← witness_prevouts txTo nHashType cache;
      s ← witness_sequence txTo nHashType cache;
      o ← witness_outputs txTo nIn nHashType cache;
      i ← vin txTo !! nIn;
      Hash1 mem (Serialize_int32 (nVersion txTo) ++ p ++ s ++ COutPoint_Serialize (prevout i) ++
                 Serialize_bytes scriptCode ++ Serialize_int64 amount ++ ser_writedata32 (nSequence i) ++ o ++
                 ser_writedata32 (nLockTime txTo) ++ Serialize_int32 nHashType)
  | SIGVERSION_BASE =>
      if (length (vin txTo) <=? nIn)%nat then Some hash_one
      else if fHashSingle nHashType && (length (vout txTo) <=? nIn)%nat then Some hash_one
      else
        b ← signature_Serialize txTo scriptCode nIn nHashType;
        Hash1 mem (b ++ Serialize_int32 nHashType)
  end.
End hash.

(** ** The checker *)

(** [CPubKey::GetLen], and whether [Set] of these bytes gives a valid key *)
Definition GetLen (chHeader : Z) : Z :=
  if (chHeader =? 2) || (chHeader =? 3) then 33
  else if (chHeader =? 4) || (chHeader =? 6) || (chHeader =? 7) then 65 else 0.

Definition CPubKey_IsValid (vch : list Z) : bool :=
  match vch with [] => false | c :: _ => negb (GetLen c =? 0) && (GetLen c =? vsize vch) end.


Section checker.
(** The memory of the hash objects, and [CPubKey::Verify] of the bytes of a valid key *)
Context (mem : list Z) (Verify : list Z -> uint256 -> list Z -> bool).
Context (txTo : CTransaction) (nIn : nat) (amount : Z) (txdata : option PrecomputedTransactionData).

Definition tx_CheckSig (vchSigIn vchPubKey : valtype) (scriptCode : CScript) (sigversion : SigVersion) : option bool :=
  if negb (CPubKey_IsValid vchPubKey) then Some false
  else
    match rev vchSigIn with
    | [] => Some false
    | nHashType :: r =>
        sighash ← SignatureHash mem scriptCode txTo nIn nHashType amount sigversion txdata;
        Some (Verify vchPubKey sighash (rev r))
    end.

Definition tx_CheckLockTime (lockTime : Z) : option bool :=
  if negb ((nLockTime txTo <? LOCKTIME_THRESHOLD) && (lockTime <? LOCKTIME_THRESHOLD) ||
           (nLockTime txTo >=? LOCKTIME_THRESHOLD) && (lockTime >=? LOCKTIME_THRESHOLD)) then Some false
  else if lockTime >? nLockTime txTo then Some false
  else
    i ← vin txTo !! nIn;
    Some (negb (SEQUENCE_FINAL =? nSequence i)).

Definition tx_CheckSequence (sequence : Z) : option bool :=
  i ← vin txTo !! nIn;
  let txToSequence := nSequence i in
  if u32 (nVersion txTo) <? 2 then Some false
  else if negb (txToSequence .& SEQUENCE_LOCKTIME_DISABLE_FLAG =? 0) then Some false
  else
    let nLockTimeMask := SEQUENCE_LOCKTIME_TYPE_FLAG .| SEQUENCE_LOCKTIME_MASK in
    let txToSequenceMasked := txToSequence .& nLockTimeMask in
    let nSequenceMasked := sequence .& nLockTimeMask in
    if negb ((txToSequenceMasked <? SEQUENCE_LOCKTIME_TYPE_FLAG) && (nSequenceMasked <? SEQUENCE_LOCKTIME_TYPE_FLAG) ||
             (txToSequenceMasked >=? SEQUENCE_LOCKTIME_TYPE_FLAG) && (nSequenceMasked >=? SEQUENCE_LOCKTIME_TYPE_FLAG))
    then Some false
    else Some (negb (nSequenceMasked >? txToSequenceMasked)).

#[export] Instance TransactionSignatureChecker : BaseSignatureChecker := {
  CheckSig := tx_CheckSig; CheckLockTime := tx_CheckLockTime; CheckSequence := tx_CheckSequence }.
End checker.

(** [CScriptCheck::operator()] of an input that spends [scriptPubKey], with some checker; the
    result of a script that fails or throws is [false]. *)
Definition CScriptCheck `{ScriptCrypto} (checker : BaseSignatureChecker) (ptxTo : CTransaction) (nIn : nat)
    (scriptPubKey : CScript) (nFlags : Z) : option bool :=
  i ← vin ptxTo !! nIn;
  if IsCoinStake ptxTo && (nIn =? 0)%nat then
    k ← GetSigOpCount (scriptSig i) true;
    Some (k =? 0)
  else
    match VerifyScript (scriptSig i) scriptPubKey (wit ptxTo !! nIn) nFlags with
    | Ret _ => Some true
    | Fail _ | Exn _ => Some false
    | Crash => None
    end.

(** ** The script that is signed *)

(** [parsed s s']: the whole of [s] is read as instructions, and [s'] is [s] without the
    [OP_CODESEPARATOR]s. *)
Inductive parsed : CScript -> CScript -> Prop :=
  | parsed_nil : parsed [] []
  | parsed_separator s s' : parsed s s' -> parsed (OP_CODESEPARATOR :: s) s'
  | parsed_op op v pre s s' :
      op <> OP_CODESEPARATOR -> GetOp (op :: pre ++ s) = Some (op, v, s) -> parsed s s' ->
      parsed (op :: pre ++ s) (op :: pre ++ s').

Lemma GetOp_GetOp2 pc opcode v r : GetOp pc = Some (opcode, v, r) -> GetOp2 pc = (Some (opcode, v), r).
Proof. unfold GetOp. destruct (GetOp2 pc) as [[[??]|] ?]; naive_solver. Qed.

Lemma parsed_length s s' : parsed s s' -> (length s' <= length s)%nat.
Proof. induction 1; cbn [length]; rewrite ?length_app; lia. Qed.

Lemma parsed_bytes s s' : parsed s s' -> Forall byte s -> Forall byte s'.
Proof.
  induction 1 as [|s s' _ IH|op v pre s s' _ _ _ IH]; [done| |];
    rewrite !list.Forall_cons, ?list.Forall_app; [tauto|]. intros (?&?&?). auto.
Qed.

Lemma GetOp2_separator s : GetOp2 (OP_CODESEPARATOR :: s) = (Some (OP_CODESEPARATOR, []), s).
Proof. apply GetOp_GetOp2, GetOp_opcode. by vm_compute. Qed.

Lemma count_separators_parsed s s' k fuel :
  parsed s s' -> (length s < fuel)%nat -> count_separators fuel s k = Some (k + (vsize s - vsize s')).
Proof.
  intros H. revert k fuel. unfold vsize.
  induction H as [|s s' _ IH|op v pre s s' Hop Hg _ IH]; intros k [|fuel]; cbn [length count_separators]; intros Hf;
    [lia| |lia| |lia|].
  - cbn. f_equal. lia.
  - rewrite GetOp2_separator, Z.eqb_refl, IH by lia. f_equal. lia.
  - rewrite (GetOp_GetOp2 _ _ _ _ Hg). apply Z.eqb_neq in Hop as ->. rewrite length_app in Hf. rewrite IH by lia.
    f_equal. rewrite !length_app. lia.
Qed.

Lemma write_pieces_parsed s s' fuel b :
  parsed s s' -> (length s < fuel)%nat -> write_pieces fuel (b ++ s) s = Some (b ++ s').
Proof.
  intros H. revert b fuel.
  induction H as [|s s' _ IH|op v pre s s' Hop Hg _ IH]; intros b [|fuel]; cbn [length write_pieces]; intros Hf;
    [lia| |lia| |lia|].
  - cbn. rewrite app_nil_r, Nat.sub_0_r, firstn_all. done.
  - rewrite GetOp2_separator, Z.eqb_refl, (IH []) by lia. cbn [mbind option_bind app]. f_equal. f_equal.
    rewrite length_app. cbn [length]. replace (length b + S (length s) - length s - 1)%nat with (length b) by lia.
    by rewrite take_app_length.
  - rewrite (GetOp_GetOp2 _ _ _ _ Hg). apply Z.eqb_neq in Hop as ->. rewrite length_app in Hf.
    specialize (IH (b ++ op :: pre) fuel ltac:(lia)). by rewrite <- !app_assoc in IH.
Qed.

(** The two loops write the script without its separators. *)
Lemma SerializeScriptCode_parsed s s' : parsed s s' -> SerializeScriptCode s = Some (Serialize_bytes s').
Proof.
  intros H. unfold SerializeScriptCode. rewrite (count_separators_parsed s s') by (auto; lia). cbn [mbind option_bind].
  rewrite (write_pieces_parsed s s' _ []) by (auto; lia). cbn [mbind option_bind app]. unfold Serialize_bytes.
  do 3 f_equal. unfold vsize. lia.
Qed.

Lemma count_separators_total fuel s k : (length s < fuel)%nat -> is_Some (count_separators fuel s k).
Proof.
  revert s k. induction fuel as [|fuel IH]; intros s k Hf; [lia|]. cbn [count_separators].
  destruct (GetOp2 s) as [[[op v]|] r] eqn:E; [|done]. apply IH.
  assert (GetOp s = Some (op, v, r)) as Hs%GetOp_shorter by (unfold GetOp; by rewrite E). lia.
Qed.

Lemma write_pieces_total fuel b s : (length s < fuel)%nat -> is_Some (write_pieces fuel b s).
Proof.
  revert b s. induction fuel as [|fuel IH]; intros b s Hf; [lia|]. cbn [write_pieces].
  destruct (GetOp2 s) as [[[op v]|] r] eqn:E; [|done].
  assert (GetOp s = Some (op, v, r)) as Hs%GetOp_shorter by (unfold GetOp; by rewrite E).
  destruct (op =? OP_CODESEPARATOR); [|apply IH; lia]. destruct (IH r r ltac:(lia)) as [w ->]. done.
Qed.

Lemma SerializeScriptCode_total s : is_Some (SerializeScriptCode s).
Proof.
  unfold SerializeScriptCode. destruct (count_separators_total (S (length s)) s 0 ltac:(lia)) as [k ->].
  destruct (write_pieces_total (S (length s)) s s ltac:(lia)) as [b ->]. done.
Qed.

(** ** The copy that is signed *)

(** The transaction that a signature of input [nIn] signs, as a transaction: the scripts of the
    other inputs are blank, and the hash type leaves out inputs, outputs and sequence numbers.
    [code] is the script without separators. *)
Section copy.
Context (tx : CTransaction) (code : CScript) (nIn : nat) (nHashType : Z).

Definition own_input (i : CTxIn) : CTxIn :=
  {| prevout := prevout i; scriptSig := code; nSequence := nSequence i |}.
Definition other_input (i : CTxIn) : CTxIn :=
  {| prevout := prevout i; scriptSig := [];
     nSequence := if fHashSingle nHashType || fHashNone nHashType then 0 else nSequence i |}.

Definition signed_inputs : list CTxIn :=
  if fAnyoneCanPay nHashType then own_input <$> option_list (vin tx !! nIn)
  else imap (fun j i => if (j =? nIn)%nat then own_input i else other_input i) (vin tx).

Definition signed_outputs : list CTxOut :=
  if fHashNone nHashType then []
  else if fHashSingle nHashType then replicate nIn CTxOut_null ++ option_list (vout tx !! nIn)
  else vout tx.

Definition signed_copy : CTransaction :=
  {| nVersion := nVersion tx; nTime := nTime tx; vin := signed_inputs; vout := signed_outputs; wit := [];
     nLockTime := nLockTime tx; strDZeel := strDZeel tx |}.
End copy.

(** What is hashed: the bytes of the copy and the hash type.  A transaction of a version below 2
    is serialized without [strDZeel], but the signature hash has it all the same. *)
Definition extra_text (c : CTransaction) : list Z :=
  if nVersion c >=? 2 then [] else Serialize_bytes (strDZeel c).
Definition copy_bytes (c : CTransaction) (nHashType : Z) : list Z :=
  tx_bytes c ++ extra_text c ++ Serialize_int32 nHashType.

(** In every version these are the fields in order, [strDZeel] included. *)
Lemma copy_bytes_fields c nHashType :
  copy_bytes c nHashType =
  Serialize_int32 (nVersion c) ++ ser_writedata32 (nTime c) ++ Serialize_vin (vin c) ++ Serialize_vout (vout c) ++
  ser_writedata32 (nLockTime c) ++ Serialize_bytes (strDZeel c) ++ Serialize_int32 nHashType.
Proof.
  unfold copy_bytes, extra_text, tx_bytes, tail_bytes. rewrite <- !app_assoc. destruct (nVersion c >=? 2); by rewrite ?app_nil_l.
Qed.

(** The bounds that [SignatureHash] checks before it hashes *)
Definition signable (tx : CTransaction) (nIn : nat) (nHashType : Z) : Prop :=
  (nIn < length (vin tx))%nat /\ (fHashSingle nHashType = true -> (nIn < length (vout tx))%nat).

Lemma mapM_seq {B} (f : nat -> option B) (g : list B) :
  (forall j x, g !! j = Some x -> f j = Some x) -> mapM f (seq 0 (length g)) = Some g.
Proof.
  intros H. apply mapM_Some_2, Forall2_same_length_lookup_2; [apply length_seq|].
  intros j x y Hx Hy. apply lookup_seq in Hx as [-> _]. by apply H.
Qed.

Section copies.
Context (tx : CTransaction) (scriptCode code : CScript) (nIn : nat) (nHashType : Z).
Context (Hcode : parsed scriptCode code) (Hsign : signable tx nIn nHashType).

Lemma signed_inputs_ok :
  mapM (SerializeInput tx scriptCode nIn nHashType) (seq 0 (if fAnyoneCanPay nHashType then 1 else length (vin tx))) =
    Some (map CTxIn_Serialize (signed_inputs tx code nIn nHashType)).
Proof.
  assert (forall j i, (fAnyoneCanPay nHashType = true -> j = nIn) -> vin tx !! j = Some i ->
    SerializeInput tx scriptCode nIn nHashType j = Some (CTxIn_Serialize
      (if (j =? nIn)%nat then own_input code i else other_input nHashType i))) as Hin.
  { intros j i Hj Hi. unfold SerializeInput.
    replace (if fAnyoneCanPay nHashType then nIn else j) with j by (destruct (fAnyoneCanPay nHashType); [by apply Hj|done]).
    rewrite Hi. cbn [mbind option_bind]. destruct (j =? nIn)%nat; cbn [negb andb].
    - rewrite (SerializeScriptCode_parsed _ _ Hcode). done.
    - cbn [mbind option_bind]. unfold CTxIn_Serialize, other_input. cbn [prevout scriptSig nSequence].
      destruct (fHashSingle nHashType || fHashNone nHashType); done. }
  destruct Hsign as [[i Hi]%lookup_lt_is_Some_2 _]. unfold signed_inputs. destruct (fAnyoneCanPay nHashType) eqn:Ea.
  - rewrite Hi. cbn [option_list fmap list_fmap map seq mapM]. specialize (Hin nIn i ltac:(done) Hi). rewrite Nat.eqb_refl in Hin.
    unfold SerializeInput in *. rewrite Ea in *. rewrite Hin. done.
  - rewrite <- (length_imap (fun j i => if (j =? nIn)%nat then own_input code i else other_input nHashType i) (vin tx)),
      <- (length_map CTxIn_Serialize). apply mapM_seq. intros j x Hx.
    apply list_lookup_fmap_Some in Hx as (y&->&Hy). apply list_lookup_imap_Some in Hy as (k&Hk&->). by apply Hin.
Qed.

Lemma signed_outputs_ok :
  mapM (SerializeOutput tx nIn nHashType)
       (seq 0 (if fHashNone nHashType then 0 else if fHashSingle nHashType then S nIn else length (vout tx))) =
    Some (map CTxOut_Serialize (signed_outputs tx nIn nHashType)).
Proof.
  unfold signed_outputs. destruct (fHashNone nHashType); [done|]. destruct (fHashSingle nHashType) eqn:Es.
  - destruct Hsign as [_ H]. specialize (H Es) as [o Ho]%lookup_lt_is_Some_2. rewrite Ho. cbn [option_list].
    replace (S nIn) with (length (map CTxOut_Serialize (replicate nIn CTxOut_null ++ [o])))
      by (rewrite length_map, length_app, length_replicate; cbn; lia).
    apply mapM_seq. intros j x (y&->&Hy)%list_lookup_fmap_Some. unfold SerializeOutput. rewrite Es. cbn [andb].
    apply lookup_app_Some in Hy as [[-> Hj]%lookup_replicate|[Hl Hy]].
    + apply Nat.lt_neq, Nat.eqb_neq in Hj as ->. done.
    + rewrite length_replicate in *. apply list_lookup_singleton_Some in Hy as [Hj <-].
      replace j with nIn by lia. rewrite Nat.eqb_refl, Ho. done.
  - rewrite <- (length_map CTxOut_Serialize). apply mapM_seq. intros j x (y&->&Hy)%list_lookup_fmap_Some.
    unfold SerializeOutput. rewrite Es, Hy. done.
Qed.

Lemma length_signed_inputs :
  length (signed_inputs tx code nIn nHashType) = if fAnyoneCanPay nHashType then 1%nat else length (vin tx).
Proof.
  unfold signed_inputs. destruct Hsign as [[i Hi]%lookup_lt_is_Some_2 _].
  destruct (fAnyoneCanPay nHashType); [by rewrite Hi|apply length_imap].
Qed.

Lemma length_signed_outputs :
  length (signed_outputs tx nIn nHashType) =
    if fHashNone nHashType then 0%nat else if fHashSingle nHashType then S nIn else length (vout tx).
Proof.
  unfold signed_outputs. destruct (fHashNone nHashType); [done|]. destruct (fHashSingle nHashType) eqn:Es; [|done].
  destruct Hsign as [_ H]. specialize (H Es) as [o Ho]%lookup_lt_is_Some_2.
  rewrite Ho, length_app, length_replicate. cbn. lia.
Qed.

Lemma signature_Serialize_ok :
  signature_Serialize tx scriptCode nIn nHashType ≫= (fun b => Some (b ++ Serialize_int32 nHashType)) =
    Some (copy_bytes (signed_copy tx code nIn nHashType) nHashType).
Proof.
  unfold signature_Serialize. rewrite signed_inputs_ok. cbn [mbind option_bind]. rewrite signed_outputs_ok.
  cbn [mbind option_bind]. rewrite copy_bytes_fields. unfold signed_copy, Serialize_vin, Serialize_vout, Serialize_vector.
  cbn [nVersion nTime vin vout nLockTime strDZeel].
  rewrite length_signed_inputs, length_signed_outputs, <- !app_assoc. done.
Qed.

(** A copy of a transaction within the ranges of its types is within them. *)
Lemma signed_copy_ok : tx_ok tx -> script_ok code -> tx_ok (signed_copy tx code nIn nHashType).
Proof.
  intros [Hv Ht [Hi Hil] [Ho Hol] _ Hl Hz] Hs.
  assert (forall i, CTxIn_ok i -> CTxIn_ok (own_input code i)) as Hown by (intros i (?&_&?); done).
  assert (forall i, CTxIn_ok i -> CTxIn_ok (other_input nHashType i)) as Hother.
  { intros i (?&_&?). split_and!; [done|split; [constructor|by vm_compute]|]. cbn. destruct (_ || _); [by vm_compute|done]. }
  split; cbn [nVersion nTime vin vout wit nLockTime strDZeel signed_copy]; try done.
  - split.
    + unfold signed_inputs. destruct (fAnyoneCanPay nHashType).
      * destruct (vin tx !! nIn) as [i|] eqn:E; constructor; [|constructor]. apply Hown. by eapply Forall_lookup_1.
      * apply Forall_lookup_2. intros j x (y&Hy&->)%list_lookup_imap_Some.
        assert (CTxIn_ok y) by by eapply Forall_lookup_1. destruct (j =? nIn)%nat; auto.
    + unfold fits_size in *. rewrite length_signed_inputs. destruct (fAnyoneCanPay nHashType); [by vm_compute|done].
  - assert (CTxOut_ok CTxOut_null) as Hnull by (split; [by vm_compute|split; [constructor|by vm_compute]]).
    split.
    + unfold signed_outputs. destruct (fHashNone nHashType); [constructor|]. destruct (fHashSingle nHashType); [|done].
      apply Forall_app. split; [by apply Forall_replicate|]. destruct (vout tx !! nIn) as [o|] eqn:E; constructor; [|constructor].
      by eapply Forall_lookup_1.
    + unfold fits_size in *. rewrite length_signed_outputs. destruct (fHashNone nHashType); [by vm_compute|].
      destruct (fHashSingle nHashType) eqn:Es; [|done]. destruct Hsign as [_ H]. specialize (H Es). lia.
  - cbn. lia.
Qed.
End copies.

(** ** What a signature of the first version commits to *)

Lemma copy_bytes_bytes c t : tx_ok c -> Forall byte (copy_bytes c t).
Proof.
  intros [_ _ [Hi _] [Ho _] _ _ [Hz _]]. rewrite copy_bytes_fields, !Forall_app.
  split_and!; try apply store_le_bytes.
  - apply Serialize_vector_bytes. eapply Forall_impl; [|exact Hi]. apply CTxIn_bytes.
  - apply Serialize_vector_bytes. eapply Forall_impl; [|exact Ho]. apply CTxOut_bytes.
  - by apply Serialize_bytes_bytes.
Qed.

Lemma length_copy_bytes c t : tx_ok c -> 8 * Z.of_nat (length (copy_bytes c t)) < 2 ^ 64.
Proof.
  intros [_ _ [Hi Hil] [Ho Hol] _ _ [_ Hz]].
  pose proof (length_Serialize_vin _ Hi Hil). pose proof (length_Serialize_vout _ Ho Hol).
  apply length_Serialize_bytes in Hz. rewrite copy_bytes_fields, !length_app.
  unfold Serialize_int32, ser_writedata32. rewrite !length_store_le. lia.
Qed.

(** One field after the other is read off two equal byte strings. *)
Ltac same_field C E Hb :=
  let E' := fresh in
  let Hb' := fresh in
  apply (canonical_inj C) in E as [E' E];
  [ pose proof (proj2 (proj1 (Forall_app _ _ _) Hb)) as Hb'; clear Hb; rename Hb' into Hb | done | done | exact Hb ].

Lemma copy_bytes_inj c1 c2 t1 t2 :
  tx_ok c1 -> tx_ok c2 -> wit c1 = wit c2 -> int_range 32 t1 -> int_range 32 t2 ->
  copy_bytes c1 t1 = copy_bytes c2 t2 -> c1 = c2 /\ t1 = t2.
Proof.
  intros H1 H2 Hw Ht1 Ht2 E. pose proof (copy_bytes_bytes c1 t1 H1) as Hb. rewrite !copy_bytes_fields in E. rewrite copy_bytes_fields in Hb.
  destruct H1 as [? ? ? ? _ ? ?], H2 as [? ? ? ? _ ? ?].
  same_field canonical_int32 E Hb. same_field (canonical_word 4) E Hb.
  same_field (canonical_vin (platform := platform64)) E Hb. same_field (canonical_vout (platform := platform64)) E Hb.
  same_field (canonical_word 4) E Hb. same_field canonical_bytes E Hb.
  rewrite <- (app_nil_r (Serialize_int32 t1)), <- (app_nil_r (Serialize_int32 t2)) in E.
  rewrite <- (app_nil_r (Serialize_int32 t1)) in Hb. same_field canonical_int32 E Hb.
  split; [|done]. destruct c1, c2. cbn in *. congruence.
Qed.

(** Two byte strings that are a collision of the double SHA-256 *)
Definition collides (a b : list Z) : Prop := a <> b /\ sha256d a = sha256d b.

Lemma sha256d_inj a b : sha256d a = sha256d b -> a = b \/ collides a b.
Proof. intros E. destruct (decide (a = b)); [by left|by right]. Qed.

(** What the signer of input [nIn] hands over: the transaction, the script code and the script
    code without its separators, the input and the hash type, within their ranges *)
Record signing (tx : CTransaction) (scriptCode code : CScript) (nIn : nat) (nHashType : Z) : Prop := {
  sg_tx : tx_ok tx;
  sg_code : parsed scriptCode code /\ script_ok scriptCode;
  sg_index : signable tx nIn nHashType;
  sg_type : int_range 32 nHashType }.

Lemma signing_copy_ok tx scriptCode code nIn t :
  signing tx scriptCode code nIn t -> tx_ok (signed_copy tx code nIn t).
Proof.
  intros [Htx [Hp [Hb Hf]] Hi _]. apply signed_copy_ok; [done|done|]. split; [by eapply parsed_bytes|].
  pose proof (parsed_length _ _ Hp). unfold fits_size in *. lia.
Qed.

(** Within the bounds the hash is that of the copy. *)
Lemma SignatureHash_base mem tx script code nIn t amount cache :
  length mem = 64%nat -> signing tx script code nIn t ->
  SignatureHash mem script tx nIn t amount SIGVERSION_BASE cache =
    Some (sha256d (copy_bytes (signed_copy tx code nIn t) t)).
Proof.
  intros Hm H. pose proof (signing_copy_ok _ _ _ _ _ H) as Hok.
  destruct H as [_ [Hp _] [Hi Ho] _]. unfold SignatureHash.
  destruct (Nat.leb_spec (length (vin tx)) nIn); [lia|].
  replace (fHashSingle t && (length (vout tx) <=? nIn)%nat) with false.
  2: { destruct (fHashSingle t); [|done]. specialize (Ho eq_refl). symmetry. by apply Nat.leb_gt. }
  pose proof (signature_Serialize_ok tx script code nIn t Hp (conj Hi Ho)) as E.
  destruct (signature_Serialize tx script nIn t) as [b|]; [|done]. cbn [mbind option_bind] in *. injection E as ->.
  apply (Hash_ok mem _ [] []); rewrite ?app_nil_r; [done|by apply copy_bytes_bytes|by apply length_copy_bytes|done|done].
Qed.

(** C17: The signature hash of the first version is the double SHA-256 of the serialization of a
    modified copy of the transaction followed by the hash type: the copy has the script code,
    without its code separators, in the input that is signed, blank scripts in the others, and
    the inputs, outputs and sequence numbers that the hash type keeps.  In versions below 2 the
    text [strDZeel], which the serialization of such a transaction does not have, is hashed in
    between.  Two signings with the same hash have the same copy and the same hash type, or else
    exhibit a collision of the hash.  An input or, under [SIGHASH_SINGLE], an output that does
    not exist gives the constant 1. *)
Theorem legacy_sighash (mem : list Z) (tx1 tx2 : CTransaction) (script1 script2 code1 code2 : CScript)
    (nIn1 nIn2 : nat) (t1 t2 amount1 amount2 : Z) (cache1 cache2 : option PrecomputedTransactionData) :
  length mem = 64%nat -> signing tx1 script1 code1 nIn1 t1 -> signing tx2 script2 code2 nIn2 t2 ->
  let c1 := signed_copy tx1 code1 nIn1 t1 in
  let c2 := signed_copy tx2 code2 nIn2 t2 in
  let h1 := SignatureHash mem script1 tx1 nIn1 t1 amount1 SIGVERSION_BASE cache1 in
  let h2 := SignatureHash mem script2 tx2 nIn2 t2 amount2 SIGVERSION_BASE cache2 in
  (exists bytes, SerializeTransaction c1 SERIALIZE_TRANSACTION_NO_WITNESS = Some (bytes, c1) /\
     h1 = Some (sha256d (bytes ++ (if nVersion tx1 >=? 2 then [] else Serialize_bytes (strDZeel tx1)) ++ Serialize_int32 t1))) /\
  (h1 = h2 -> (c1 = c2 /\ t1 = t2) \/ collides (copy_bytes c1 t1) (copy_bytes c2 t2)) /\
  (forall tx script nIn t amount cache, ~ signable tx nIn t ->
     SignatureHash mem script tx nIn t amount SIGVERSION_BASE cache = Some hash_one).
Proof.
  intros Hm H1 H2 c1 c2 h1 h2.
  pose proof (SignatureHash_base mem _ _ _ _ _ amount1 cache1 Hm H1) as E1.
  pose proof (SignatureHash_base mem _ _ _ _ _ amount2 cache2 Hm H2) as E2.
  split_and!.
  - exists (tx_bytes c1). split; [apply SerializeTransaction_no_witness; cbn; lia|exact E1].
  - unfold h1, h2. rewrite E1, E2. intros [= E]. apply sha256d_inj in E as [E|E]; [left|by right].
    apply copy_bytes_inj in E; [done| |  |done|apply H1|apply H2]; by eapply signing_copy_ok.
  - intros tx script nIn t amount cache Hn. unfold SignatureHash, signable in *.
    destruct (Nat.leb_spec (length (vin tx)) nIn); [done|]. destruct (fHashSingle t); [|naive_solver]. cbn [andb].
    destruct (Nat.leb_spec (length (vout tx)) nIn); [done|]. naive_solver.
Qed.

(** ** What a signature of the witness version commits to *)

(** The three hashes of BIP 143 and the bytes that are hashed in the end, for input [i] *)
Section bip143.
Context (tx : CTransaction) (nIn : nat) (nHashType : Z).

Definition prevouts_bytes : list Z := concat (map COutPoint_Serialize (map prevout (vin tx))).
Definition sequences_bytes : list Z := concat (map ser_writedata32 (map nSequence (vin tx))).
Definition outputs_bytes : list Z := concat (map CTxOut_Serialize (vout tx)).

Definition bip143_prevouts : uint256 :=
  if fAnyoneCanPay nHashType then hash_null else sha256d prevouts_bytes.
Definition bip143_sequence : uint256 :=
  if fAnyoneCanPay nHashType || fHashSingle nHashType || fHashNone nHashType then hash_null else sha256d sequences_bytes.
Definition bip143_outputs : uint256 :=
  if fHashSingle nHashType then
    match vout tx !! nIn with Some o => sha256d (CTxOut_Serialize o) | None => hash_null end
  else if fHashNone nHashType then hash_null else sha256d outputs_bytes.

Definition bip143_bytes (i : CTxIn) (scriptCode : CScript) (amount : Z) : list Z :=
  Serialize_int32 (nVersion tx) ++ bip143_prevouts ++ bip143_sequence ++ COutPoint_Serialize (prevout i) ++
  Serialize_bytes scriptCode ++ Serialize_int64 amount ++ ser_writedata32 (nSequence i) ++ bip143_outputs ++
  ser_writedata32 (nLockTime tx) ++ Serialize_int32 nHashType.
End bip143.

Lemma concat_bytes {T} (wf : T -> Prop) (ser : T -> list Z) l :
  (forall x, wf x -> Forall byte (ser x)) -> Forall wf l -> Forall byte (concat (map ser l)).
Proof. intros H. induction 1; cbn; [constructor|]. apply Forall_app. auto. Qed.

Lemma length_concat {T} (wf : T -> Prop) (ser : T -> list Z) k l :
  (forall x, wf x -> (length (ser x) <= k)%nat) -> Forall wf l -> (length (concat (map ser l)) <= k * length l)%nat.
Proof.
  intros H. induction 1 as [|x l Hx _ IH]; cbn; [lia|]. rewrite length_app. specialize (H x Hx). lia.
Qed.

(** Encodings that are not empty can be read off their concatenation. *)
Lemma concat_inj {T} (wf : T -> Prop) ser unser (C : canonical wf ser unser) l1 l2 :
  (forall x, wf x -> ser x <> []) -> Forall wf l1 -> Forall wf l2 -> Forall byte (concat (map ser l1)) ->
  concat (map ser l1) = concat (map ser l2) -> l1 = l2.
Proof.
  intros Hne H1. revert l2. induction H1 as [|x l1 Hx _ IH]; intros l2 H2 Hb E;
    destruct H2 as [|y l2 Hy H2]; cbn [map concat] in *.
  - done.
  - symmetry in E. apply app_eq_nil in E as [E _]. by apply Hne in E.
  - apply app_eq_nil in E as [E _]. by apply Hne in E.
  - apply (canonical_inj C) in E as [-> E]; [|done..]. apply Forall_app in Hb as [_ Hb]. f_equal. by apply IH.
Qed.

Lemma COutPoint_bytes o : COutPoint_ok o -> Forall byte (COutPoint_Serialize o).
Proof. intros [[Hh _] _]. apply Forall_app. split; [done|apply store_le_bytes]. Qed.
Lemma length_COutPoint o : COutPoint_ok o -> length (COutPoint_Serialize o) = 36%nat.
Proof. intros [[_ Hl] _]. unfold COutPoint_Serialize. rewrite length_app, Hl. unfold ser_writedata32. by rewrite length_store_le. Qed.

Section pieces.
Context (tx : CTransaction) (Htx : tx_ok tx).

Lemma prevouts_ok : Forall COutPoint_ok (map prevout (vin tx)).
Proof. apply Forall_map. eapply Forall_impl; [|apply Htx]. by intros i [? _]. Qed.
Lemma sequences_ok : Forall (word 32) (map nSequence (vin tx)).
Proof. apply Forall_map. eapply Forall_impl; [|apply Htx]. by intros i (_&_&?). Qed.

Lemma prevouts_bytes_ok : Forall byte (prevouts_bytes tx) /\ 8 * Z.of_nat (length (prevouts_bytes tx)) < 2 ^ 64.
Proof.
  split; [exact (concat_bytes _ _ _ COutPoint_bytes prevouts_ok)|].
  pose proof (length_concat _ COutPoint_Serialize 36 _ ltac:(intros o H; by rewrite length_COutPoint) prevouts_ok) as H.
  rewrite length_map in H. destruct (ok_vin _ Htx) as [_ Hf]. unfold prevouts_bytes, fits_size, MAX_SIZE in *. lia.
Qed.

Lemma sequences_bytes_ok : Forall byte (sequences_bytes tx) /\ 8 * Z.of_nat (length (sequences_bytes tx)) < 2 ^ 64.
Proof.
  split; [exact (concat_bytes (word 32) _ _ ltac:(intros; apply store_le_bytes) sequences_ok)|].
  pose proof (length_concat (word 32) ser_writedata32 4 _
    ltac:(intros; unfold ser_writedata32; by rewrite length_store_le) sequences_ok) as H.
  rewrite length_map in H. destruct (ok_vin _ Htx) as [_ Hf]. unfold sequences_bytes, fits_size, MAX_SIZE in *. lia.
Qed.

Lemma outputs_bytes_ok : Forall byte (outputs_bytes tx) /\ 8 * Z.of_nat (length (outputs_bytes tx)) < 2 ^ 64.
Proof.
  destruct (ok_vout _ Htx) as [Ho Hf]. split; [exact (concat_bytes _ _ _ CTxOut_bytes Ho)|].
  pose proof (length_Serialize_vout _ Ho Hf) as H. unfold Serialize_vout, Serialize_vector in H.
  rewrite length_app in H. unfold outputs_bytes. lia.
Qed.

Lemma output_bytes_ok o :
  CTxOut_ok o -> Forall byte (CTxOut_Serialize o) /\ 8 * Z.of_nat (length (CTxOut_Serialize o)) < 2 ^ 64.
Proof.
  intros Ho. split; [by apply CTxOut_bytes|]. destruct Ho as [_ [_ Hs]]. unfold CTxOut_Serialize. rewrite length_app.
  apply length_Serialize_bytes in Hs. unfold Serialize_int64, ser_writedata64. rewrite length_store_le. lia.
Qed.
End pieces.

Lemma Hash1_ok mem b :
  length mem = 64%nat -> Forall byte b /\ 8 * Z.of_nat (length b) < 2 ^ 64 -> Hash1 mem b = Some (sha256d b).
Proof. intros Hm [Hb Hl]. by apply (Hash_ok mem b [] []); rewrite ?app_nil_r. Qed.

(** The cache is absent, or the one made from the transaction. *)
Definition cache_of (mem : list Z) (tx : CTransaction) (cache : option PrecomputedTransactionData) : Prop :=
  cache = None \/ (cache = new_PrecomputedTransactionData mem tx).

Lemma hash_null_ok : bytes_of_length 32 hash_null.
Proof. split; [by apply Forall_replicate; split|done]. Qed.
Lemma sha256d_ok b : bytes_of_length 32 (sha256d b).
Proof. split; [apply sha256_bytes|apply length_sha256]. Qed.

Lemma bip143_prevouts_ok tx t : bytes_of_length 32 (bip143_prevouts tx t).
Proof. unfold bip143_prevouts. case_match; auto using hash_null_ok, sha256d_ok. Qed.
Lemma bip143_sequence_ok tx t : bytes_of_length 32 (bip143_sequence tx t).
Proof. unfold bip143_sequence. case_match; auto using hash_null_ok, sha256d_ok. Qed.
Lemma bip143_outputs_ok tx nIn t : bytes_of_length 32 (bip143_outputs tx nIn t).
Proof. unfold bip143_outputs. repeat case_match; auto using hash_null_ok, sha256d_ok. Qed.

Lemma bip143_bytes_ok tx nIn t i scriptCode amount :
  CTxIn_ok i -> script_ok scriptCode ->
  Forall byte (bip143_bytes tx nIn t i scriptCode amount) /\
  8 * Z.of_nat (length (bip143_bytes tx nIn t i scriptCode amount)) < 2 ^ 64.
Proof.
  intros (Ho&_&_) [Hs Hl]. destruct (bip143_prevouts_ok tx t) as [Hp Hpl], (bip143_sequence_ok tx t) as [Hq Hql],
    (bip143_outputs_ok tx nIn t) as [Hr Hrl]. unfold bip143_bytes. split.
  - rewrite !Forall_app. split_and!; try done; try apply store_le_bytes; [by apply COutPoint_bytes|by apply Serialize_bytes_bytes].
  - rewrite !length_app, Hpl, Hql, Hrl, (length_COutPoint _ Ho). apply length_Serialize_bytes in Hl.
    unfold Serialize_int32, Serialize_int64, ser_writedata32, ser_writedata64. rewrite !length_store_le. lia.
Qed.

Section cached.
Context (mem : list Z) (Hm : length mem = 64%nat) (tx : CTransaction) (Htx : tx_ok tx).
Context (cache : option PrecomputedTransactionData) (Hc : cache_of mem tx cache).

Lemma cached_hash {A} (f : PrecomputedTransactionData -> A) (x : A) :
  (forall c, new_PrecomputedTransactionData mem tx = Some c -> f c = x) ->
  match cache with Some c => Some (f c) | None => Some x end = Some x.
Proof. intros H. destruct Hc as [->| ->]; [done|]. destruct (new_PrecomputedTransactionData mem tx); [by rewrite H|done]. Qed.

Lemma piece_hashes :
  GetPrevoutHash mem tx = Some (sha256d (prevouts_bytes tx)) /\
  GetSequenceHash mem tx = Some (sha256d (sequences_bytes tx)) /\
  GetOutputsHash mem tx = Some (sha256d (outputs_bytes tx)).
Proof.
  unfold GetPrevoutHash, GetSequenceHash, GetOutputsHash, prevouts_bytes, sequences_bytes, outputs_bytes.
  rewrite <- (map_map prevout COutPoint_Serialize), <- (map_map nSequence ser_writedata32).
  split_and!; (apply Hash1_ok; [done|]); [by apply prevouts_bytes_ok|by apply sequences_bytes_ok|by apply outputs_bytes_ok].
Qed.

Lemma precomputed : new_PrecomputedTransactionData mem tx = Some
  {| hashPrevouts := sha256d (prevouts_bytes tx); hashSequence := sha256d (sequences_bytes tx);
     hashOutputs := sha256d (outputs_bytes tx) |}.
Proof. unfold new_PrecomputedTransactionData. destruct piece_hashes as (->&->&->). done. Qed.

(** With and without the cache, the hash is that of the bytes of BIP 143. *)
Lemma SignatureHash_witness scriptCode nIn t amount i :
  vin tx !! nIn = Some i -> script_ok scriptCode ->
  SignatureHash mem scriptCode tx nIn t amount SIGVERSION_WITNESS_V0 cache =
    Some (sha256d (bip143_bytes tx nIn t i scriptCode amount)).
Proof.
  intros Hi Hs. destruct piece_hashes as (Ep&Eq&Eo). unfold SignatureHash.
  assert (witness_prevouts mem tx t cache = Some (bip143_prevouts tx t)) as ->.
  { unfold witness_prevouts, bip143_prevouts. rewrite Ep. change (has t SIGHASH_ANYONECANPAY) with (fAnyoneCanPay t).
    destruct (fAnyoneCanPay t); cbn [negb]; [done|]. apply cached_hash. rewrite precomputed. by intros c [= <-]. }
  assert (witness_sequence mem tx t cache = Some (bip143_sequence tx t)) as ->.
  { unfold witness_sequence, bip143_sequence. rewrite Eq. change (has t SIGHASH_ANYONECANPAY) with (fAnyoneCanPay t).
    destruct (fAnyoneCanPay t), (fHashSingle t), (fHashNone t); cbn [negb andb orb]; try done.
    apply cached_hash. rewrite precomputed. by intros c [= <-]. }
  assert (witness_outputs mem tx nIn t cache = Some (bip143_outputs tx nIn t)) as ->.
  { unfold witness_outputs, bip143_outputs. rewrite Eo. destruct (fHashSingle t) eqn:Es; cbn [negb andb].
    - destruct (Nat.ltb_spec nIn (length (vout tx))) as [[o Ho]%lookup_lt_is_Some_2|Hge].
      + rewrite Ho. cbn [mbind option_bind]. apply Hash1_ok; [done|]. apply output_bytes_ok.
        apply (Forall_lookup_1 _ _ _ _ (proj1 (ok_vout _ Htx)) Ho).
      + by rewrite lookup_ge_None_2.
    - destruct (fHashNone t); cbn [negb]; [done|]. apply cached_hash. rewrite precomputed. by intros c [= <-]. }
  cbn [mbind option_bind]. rewrite Hi. cbn [mbind option_bind]. apply Hash1_ok; [done|].
  apply bip143_bytes_ok; [|done]. apply (Forall_lookup_1 _ _ _ _ (proj1 (ok_vin _ Htx)) Hi).
Qed.
End cached.

Lemma bip143_bytes_inj tx1 tx2 nIn1 nIn2 t1 t2 i1 i2 s1 s2 a1 a2 :
  tx_ok tx1 -> tx_ok tx2 -> CTxIn_ok i1 -> CTxIn_ok i2 -> script_ok s1 -> script_ok s2 ->
  int_range 64 a1 -> int_range 64 a2 -> int_range 32 t1 -> int_range 32 t2 ->
  bip143_bytes tx1 nIn1 t1 i1 s1 a1 = bip143_bytes tx2 nIn2 t2 i2 s2 a2 ->
  (nVersion tx1 = nVersion tx2 /\ nLockTime tx1 = nLockTime tx2 /\ prevout i1 = prevout i2 /\
   nSequence i1 = nSequence i2 /\ s1 = s2 /\ a1 = a2 /\ t1 = t2) /\
  bip143_prevouts tx1 t1 = bip143_prevouts tx2 t2 /\ bip143_sequence tx1 t1 = bip143_sequence tx2 t2 /\
  bip143_outputs tx1 nIn1 t1 = bip143_outputs tx2 nIn2 t2.
Proof.
  intros H1 H2 Hi1 Hi2 Hs1 Hs2 Ha1 Ha2 Ht1 Ht2 E. destruct (bip143_bytes_ok tx1 nIn1 t1 i1 s1 a1 Hi1 Hs1) as [Hb _].
  unfold bip143_bytes in E, Hb. destruct H1 as [? ? _ _ _ ? ?], H2 as [? ? _ _ _ ? ?], Hi1 as (?&_&?), Hi2 as (?&_&?).
  pose proof (bip143_prevouts_ok tx1 t1). pose proof (bip143_prevouts_ok tx2 t2).
  pose proof (bip143_sequence_ok tx1 t1). pose proof (bip143_sequence_ok tx2 t2).
  pose proof (bip143_outputs_ok tx1 nIn1 t1). pose proof (bip143_outputs_ok tx2 nIn2 t2).
  same_field canonical_int32 E Hb. same_field (canonical_array 32) E Hb. same_field (canonical_array 32) E Hb.
  same_field canonical_COutPoint E Hb. same_field canonical_bytes E Hb. same_field canonical_int64 E Hb.
  same_field (canonical_word 4) E Hb. same_field (canonical_array 32) E Hb. same_field (canonical_word 4) E Hb.
  rewrite <- (app_nil_r (Serialize_int32 t1)), <- (app_nil_r (Serialize_int32 t2)) in E.
  rewrite <- (app_nil_r (Serialize_int32 t1)) in Hb. same_field canonical_int32 E Hb. split_and!; done.
Qed.

Lemma sha256d_concat_inj {T} (wf : T -> Prop) ser unser (C : canonical wf ser unser) l1 l2 :
  (forall x, wf x -> ser x <> []) -> Forall wf l1 -> Forall wf l2 -> Forall byte (concat (map ser l1)) ->
  sha256d (concat (map ser l1)) = sha256d (concat (map ser l2)) ->
  l1 = l2 \/ collides (concat (map ser l1)) (concat (map ser l2)).
Proof. intros Hne H1 H2 Hb [E|E]%sha256d_inj; [left|by right]. by eapply concat_inj. Qed.

Lemma nonempty_of_length {A} (l : list A) k : length l = S k -> l <> [].
Proof. by destruct l. Qed.

Lemma CTxOut_nonempty o : CTxOut_ok o -> CTxOut_Serialize o <> [].
Proof.
  intros _ E. apply (f_equal length) in E. unfold CTxOut_Serialize, Serialize_int64, ser_writedata64 in E.
  rewrite length_app, length_store_le in E. cbn in E. lia.
Qed.

(** C18: The signature hash of the witness version is the double SHA-256 of the bytes of BIP 143,
    whether or not the three hashes come from the cache of the transaction.  Two signings with
    the same hash agree on the version, the lock time, the hash type, the outpoint, the
    sequence number, the script code and the amount of the input that is signed, and on all
    outpoints, all sequence numbers and all outputs, or the one output, that the hash type
    covers; or else they exhibit a collision of the hash on given byte strings. *)
Theorem witness_sighash (mem : list Z) (tx1 tx2 : CTransaction) (script1 script2 : CScript) (nIn1 nIn2 : nat)
    (t1 t2 amount1 amount2 : Z) (cache1 cache2 : option PrecomputedTransactionData) (i1 i2 : CTxIn) :
  length mem = 64%nat -> tx_ok tx1 -> tx_ok tx2 -> cache_of mem tx1 cache1 -> cache_of mem tx2 cache2 ->
  vin tx1 !! nIn1 = Some i1 -> vin tx2 !! nIn2 = Some i2 -> script_ok script1 -> script_ok script2 ->
  int_range 64 amount1 -> int_range 64 amount2 -> int_range 32 t1 -> int_range 32 t2 ->
  let b1 := bip143_bytes tx1 nIn1 t1 i1 script1 amount1 in
  let b2 := bip143_bytes tx2 nIn2 t2 i2 script2 amount2 in
  let h1 := SignatureHash mem script1 tx1 nIn1 t1 amount1 SIGVERSION_WITNESS_V0 cache1 in
  let h2 := SignatureHash mem script2 tx2 nIn2 t2 amount2 SIGVERSION_WITNESS_V0 cache2 in
  h1 = Some (sha256d b1) /\
  (h1 = h2 -> collides b1 b2 \/
   (nVersion tx1 = nVersion tx2 /\ nLockTime tx1 = nLockTime tx2 /\ prevout i1 = prevout i2 /\
    nSequence i1 = nSequence i2 /\ script1 = script2 /\ amount1 = amount2 /\ t1 = t2) /\
   (fAnyoneCanPay t1 = false ->
      map prevout (vin tx1) = map prevout (vin tx2) \/ collides (prevouts_bytes tx1) (prevouts_bytes tx2)) /\
   (fAnyoneCanPay t1 || fHashSingle t1 || fHashNone t1 = false ->
      map nSequence (vin tx1) = map nSequence (vin tx2) \/ collides (sequences_bytes tx1) (sequences_bytes tx2)) /\
   (fHashSingle t1 || fHashNone t1 = false ->
      vout tx1 = vout tx2 \/ collides (outputs_bytes tx1) (outputs_bytes tx2)) /\
   (fHashSingle t1 = true -> forall o1 o2, vout tx1 !! nIn1 = Some o1 -> vout tx2 !! nIn2 = Some o2 ->
      o1 = o2 \/ collides (CTxOut_Serialize o1) (CTxOut_Serialize o2))).
Proof.
  intros Hm H1 H2 Hc1 Hc2 Hi1 Hi2 Hs1 Hs2 Ha1 Ha2 Ht1 Ht2 b1 b2 h1 h2. unfold h1, h2.
  rewrite (SignatureHash_witness mem Hm tx1 H1 cache1 Hc1 _ _ _ _ i1), (SignatureHash_witness mem Hm tx2 H2 cache2 Hc2 _ _ _ _ i2) by done.
  split; [done|]. intros [= [E|E]%sha256d_inj]; [right|by left].
  pose proof (Forall_lookup_1 _ _ _ _ (proj1 (ok_vin _ H1)) Hi1). pose proof (Forall_lookup_1 _ _ _ _ (proj1 (ok_vin _ H2)) Hi2).
  apply bip143_bytes_inj in E as [Hf (Ep&Es&Eo)]; [|done..].
  destruct Hf as (?&?&?&?&?&?&<-). split; [done|].
  pose proof (prevouts_bytes_ok _ H1) as [? _]. pose proof (sequences_bytes_ok _ H1) as [? _]. pose proof (outputs_bytes_ok _ H1) as [? _].
  unfold bip143_prevouts, bip143_sequence, bip143_outputs in Ep, Es, Eo. split_and!.
  - intros Ef. rewrite Ef in Ep. apply (sha256d_concat_inj _ _ _ canonical_COutPoint); [|by apply prevouts_ok..|done|done].
    intros o Ho. eapply nonempty_of_length. by apply length_COutPoint.
  - intros Ef. rewrite Ef in Es. apply (sha256d_concat_inj _ _ _ (canonical_word 4)); [|by apply sequences_ok..|done|done].
    intros x _. eapply nonempty_of_length. apply length_store_le.
  - intros [Ef1 Ef2]%orb_false_iff. rewrite Ef1, Ef2 in Eo.
    apply (sha256d_concat_inj _ _ _ canonical_CTxOut); [apply CTxOut_nonempty|apply H1|apply H2|done|done].
  - intros Ef o1 o2 Ho1 Ho2. rewrite Ef, Ho1, Ho2 in Eo.
    assert (Forall CTxOut_ok [o1] /\ Forall CTxOut_ok [o2]) as [Hk1 Hk2].
    { split; (constructor; [|constructor]);
        [apply (Forall_lookup_1 _ _ _ _ (proj1 (ok_vout _ H1)) Ho1)|apply (Forall_lookup_1 _ _ _ _ (proj1 (ok_vout _ H2)) Ho2)]. }
    destruct (sha256d_concat_inj _ _ _ canonical_CTxOut [o1] [o2]) as [[= ->]|E'];
      [apply CTxOut_nonempty|done|done|by apply (concat_bytes _ _ _ CTxOut_bytes)|cbn [map concat]; by rewrite !app_nil_r|by left|].
    right. cbn [map concat] in E'. by rewrite !app_nil_r in E'.
Qed.

(** The witness version does not commit to the time and to [strDZeel] of the transaction. *)
Lemma witness_sighash_ignores mem scriptCode tx nIn t amount time zeel :
  SignatureHash mem scriptCode
    {| nVersion := nVersion tx; nTime := time; vin := vin tx; vout := vout tx; wit := wit tx;
       nLockTime := nLockTime tx; strDZeel := zeel |} nIn t amount SIGVERSION_WITNESS_V0 None =
  SignatureHash mem scriptCode tx nIn t amount SIGVERSION_WITNESS_V0 None.
Proof. reflexivity. Qed.

(** ** The checker never fails to answer *)

Lemma CSHA256_Finalize_total h m :
  hasher_ok 64 Transform Initialize h m ->
  exists h' d, CSHA256_Finalize h = Some (h', d) /\ length (hbuf h') = 64%nat.
Proof.
  intros Hok. unfold CSHA256_Finalize.
  destruct (Write_padding_ok 64 Transform Initialize ltac:(lia) ltac:(by exists (2 ^ 58)) 8 119 h m (WriteBE64 (bit_count h)))
    as (h'&->&Hl&_); [done|apply length_store_le|done|]. cbn [mbind option_bind]. cbv zeta. by eexists _, _.
Qed.

(** A hash is computed for whatever is hashed. *)
Lemma Hash1_total mem b : length mem = 64%nat -> is_Some (Hash1 mem b).
Proof.
  intros Hm. unfold Hash1. destruct (CHash256_Write_ok _ [] b (CHash256_new mem Hm)) as (h1&E1&R1). rewrite E1.
  cbn [mbind option_bind]. unfold CHash256_Finalize.
  destruct (CSHA256_Finalize_total h1 _ R1) as (h2&d&E2&Hl). rewrite E2. cbn [mbind option_bind].
  destruct (CHash256_Write_ok (CSHA256_Reset h2) [] d (CHash256_new _ Hl)) as (h3&E3&R3).
  unfold CHash256_Write in E3. rewrite E3. cbn [mbind option_bind].
  destruct (CSHA256_Finalize_total h3 _ R3) as (h4&d'&E4&_). rewrite E4. done.
Qed.

Lemma mapM_total {A B} (f : A -> option B) l : Forall (fun x => is_Some (f x)) l -> is_Some (mapM f l).
Proof. intros H. by apply mapM_is_Some_2. Qed.

Lemma SignatureHash_total mem scriptCode tx nIn t amount v cache :
  length mem = 64%nat -> (nIn < length (vin tx))%nat -> is_Some (SignatureHash mem scriptCode tx nIn t amount v cache).
Proof.
  intros Hm [i Hi]%lookup_lt_is_Some_2. pose proof (fun b => Hash1_total mem b Hm) as Hh. destruct v; unfold SignatureHash.
  - destruct (Nat.leb_spec (length (vin tx)) nIn); [done|].
    destruct (fHashSingle t && (length (vout tx) <=? nIn)%nat) eqn:Es; [done|].
    unfold signature_Serialize. destruct (SerializeScriptCode_total scriptCode) as [code Hcode].
    assert (is_Some (mapM (SerializeInput tx scriptCode nIn t) (seq 0 (if fAnyoneCanPay t then 1 else length (vin tx))))) as [ins ->].
    { apply mapM_total, list.Forall_forall. intros j Hj%elem_of_seq. unfold SerializeInput. rewrite Hcode.
      destruct (fAnyoneCanPay t); [rewrite Hi; cbn; by destruct (negb _)|].
      destruct (lookup_lt_is_Some_2 (vin tx) j ltac:(lia)) as [k ->]. cbn. by destruct (negb _). }
    assert (is_Some (mapM (SerializeOutput tx nIn t)
      (seq 0 (if fHashNone t then 0 else if fHashSingle t then S nIn else length (vout tx))))) as [outs ->].
    { apply mapM_total, list.Forall_forall. intros j Hj%elem_of_seq. unfold SerializeOutput.
      destruct (fHashSingle t && negb (j =? nIn)%nat) eqn:E; [done|].
      assert (j < length (vout tx))%nat as [o ->]%lookup_lt_is_Some_2; [|done].
      destruct (fHashNone t); [lia|]. destruct (fHashSingle t); [|lia]. cbn [andb] in *.
      apply Nat.leb_gt in Es. apply negb_false_iff, Nat.eqb_eq in E. lia. }
    cbn [mbind option_bind]. apply Hh.
  - assert (is_Some (GetPrevoutHash mem tx) /\ is_Some (GetSequenceHash mem tx) /\ is_Some (GetOutputsHash mem tx))
      as (Hp&Hs&Ho) by (split_and!; apply Hh).
    assert (is_Some (witness_prevouts mem tx t cache)) as [p ->] by (unfold witness_prevouts; repeat case_match; done).
    assert (is_Some (witness_sequence mem tx t cache)) as [s ->] by (unfold witness_sequence; repeat case_match; done).
    assert (is_Some (witness_outputs mem tx nIn t cache)) as [o ->].
    { unfold witness_outputs. destruct (negb _ && negb _); [by destruct cache|].
      destruct (fHashSingle t); [|done]. destruct (Nat.ltb_spec nIn (length (vout tx))) as [[o Eo]%lookup_lt_is_Some_2|]; [|done].
      cbn [andb]. rewrite Eo. apply Hh. }
    cbn [mbind option_bind]. rewrite Hi. apply Hh.
Qed.

(** For an input of the transaction, the checker is one that the interpreter may rely on. *)
Lemma transaction_checker mem Verify txTo nIn amount txdata :
  length mem = 64%nat -> (nIn < length (vin txTo))%nat ->
  CheckerSpec (TransactionSignatureChecker mem Verify txTo nIn amount txdata).
Proof.
  intros Hm Hn. destruct (lookup_lt_is_Some_2 _ _ Hn) as [i Hi]. split.
  - intros sig key code v. cbn [CheckSig TransactionSignatureChecker]. unfold tx_CheckSig.
    destruct (negb _); [done|]. destruct (rev sig) as [|t r]; [done|].
    destruct (SignatureHash_total mem code txTo nIn t amount v txdata Hm Hn) as [h ->]. done.
  - intros k. cbn [CheckLockTime TransactionSignatureChecker]. unfold tx_CheckLockTime. rewrite Hi. by repeat case_match.
  - intros k. cbn [CheckSequence TransactionSignatureChecker]. unfold tx_CheckSequence. rewrite Hi. cbn. by repeat case_match.
Qed.

(** ** Whole checks of an input *)

(** No instruction of the script has the opcode [d]. *)
Inductive avoids (d : Z) : CScript -> Prop :=
  | avoids_nil : avoids d []
  | avoids_op op v pc pc' : GetOp pc = Some (op, v, pc') -> op <> d -> avoids d pc' -> avoids d pc.

Lemma skip_copies_none fuel d b pc k :
  avoids d pc -> skip_copies (S fuel) (d :: b) pc k = Some (pc, k).
Proof.
  intros H. cbn [skip_copies]. rewrite bool_decide_false; [by rewrite andb_false_r|].
  destruct H as [|op v pc pc' E Hop _]; [done|]. apply GetOp_split in E as (pre&->&_). cbn. congruence.
Qed.

Lemma fad_loop_none fuel d b pc2 pc r :
  avoids d pc -> (length pc < fuel)%nat -> exists r', fad_loop fuel (d :: b) pc2 pc r 0 = Some (r', 0).
Proof.
  revert pc2 pc r. induction fuel as [|fuel IH]; intros pc2 pc r H Hf; [lia|]. cbn [fad_loop].
  rewrite skip_copies_none by done. cbn [mbind option_bind].
  destruct H as [|op v pc pc' E Hop H]; [by eexists|]. rewrite E. apply IH; [done|]. apply GetOp_shorter in E. lia.
Qed.

(** A script that has no instruction with the first byte of [b] has no copy of [b]. *)
Lemma FindAndDelete_none s d b : avoids d s -> FindAndDelete s (d :: b) = Some (s, 0).
Proof.
  intros H. unfold FindAndDelete. cbn [length Nat.eqb]. destruct (fad_loop_none (S (length s)) d b s s [] H ltac:(lia)) as [r ->]. done.
Qed.

Section p2pkh.
Context (h : valtype) (Hh : vsize h = 20).

Lemma push_20 : push_data [] h = 20 :: h.
Proof. unfold push_data. rewrite Hh. done. Qed.

Lemma GetOp_hash rest : vsize rest <= 2 -> GetOp (20 :: h ++ rest) = Some (20, h, rest).
Proof.
  intros Hr. change (20 :: h ++ rest) with ((20 :: h) ++ rest). rewrite <- push_20, GetOp_push_data.
  - unfold push_op. rewrite Hh. done.
  - unfold vsize in *. rewrite length_app. lia.
Qed.

Lemma p2pkh_avoids d : d < OP_DUP -> d <> 20 -> avoids d (p2pkh h).
Proof.
  intros Hd Hd'. unfold p2pkh. rewrite push_20.
  assert (forall op, OP_DUP <= op -> op <> d /\ OP_PUSHDATA4 < op) as Hop
    by (intros op; change OP_DUP with 118 in *; change OP_PUSHDATA4 with 78; lia).
  cbn [app]. repeat (eapply avoids_op; [first [by apply GetOp_opcode, Hop|by apply GetOp_hash]|first [by apply Hop|lia]|]).
  constructor.
Qed.

Lemma p2pkh_parsed : parsed (p2pkh h) (p2pkh h).
Proof.
  unfold p2pkh. rewrite push_20. cbn [app].
  assert (forall op s, OP_DUP <= op -> op <> OP_CODESEPARATOR -> parsed s s -> parsed (op :: s) (op :: s)) as Hop.
  { intros op s H1 H2 Hs. apply (parsed_op op [] [] s s); [done| |done]. apply GetOp_opcode.
    change OP_DUP with 118 in *. change OP_PUSHDATA4 with 78. lia. }
  apply Hop; [done|done|]. apply Hop; [done|done|]. apply (parsed_op 20 h h); [done|by apply GetOp_hash|].
  apply Hop; [done|done|]. apply Hop; [done|done|constructor].
Qed.
End p2pkh.

(** A script of two pushes has no signature operation. *)
Lemma sigops_two_pushes a b : small a -> small b -> GetSigOpCount (push_data [] a ++ push_data [] b) true = Some 0.
Proof.
  intros Ha Hb. unfold small in Ha, Hb.
  assert (forall f data rest last, small data -> vsize (data ++ rest) < 2 ^ 32 ->
    sigop_loop (S f) true (push_data [] data ++ rest) last 0 = sigop_loop f true rest (push_op data) 0) as Hstep.
  { intros f data rest last Hd Hr. unfold small in Hd. cbn [sigop_loop]. rewrite (GetOp_push_data data rest Hr).
    assert (push_op data < OP_1) as Hop.
    { unfold push_op. change OP_1 with 81. change OP_PUSHDATA1 with 76. destruct (Z.ltb_spec (vsize data) 76); lia. }
    change OP_1 with 81 in Hop.
    destruct (Z.eqb_spec (push_op data) OP_CHECKSIG) as [E|_]; [change OP_CHECKSIG with 172 in E; lia|].
    destruct (Z.eqb_spec (push_op data) OP_CHECKSIGVERIFY) as [E|_]; [change OP_CHECKSIGVERIFY with 173 in E; lia|].
    destruct (Z.eqb_spec (push_op data) OP_CHECKMULTISIG) as [E|_]; [change OP_CHECKMULTISIG with 174 in E; lia|].
    destruct (Z.eqb_spec (push_op data) OP_CHECKMULTISIGVERIFY) as [E|_]; [change OP_CHECKMULTISIGVERIFY with 175 in E; lia|].
    done. }
  unfold GetSigOpCount. pose proof (vsize_push_small a Ha). pose proof (vsize_push_small b Hb).
  assert (exists f, length (push_data [] a ++ push_data [] b) = S (S f)) as [f ->].
  { rewrite length_app. unfold vsize in *. exists (length (push_data [] a) + length (push_data [] b) - 2)%nat. lia. }
  rewrite Hstep; [|done|unfold vsize in *; rewrite length_app; lia]. rewrite <- (app_nil_r (push_data [] b)).
  rewrite Hstep; [done|done|unfold vsize in *; rewrite length_app; cbn [length]; lia].
Qed.

(** C16: An input without a witness that offers a signature and a key, as two pushes, for an
    output to a public key hash passes the script check exactly when it is the first input of a
    coin stake, which is let through without a look at the signature, or the key has that hash,
    both encodings are those the flags ask for, the key is a valid one, and the signature verifies
    under the key for the signature hash of this input: the double SHA-256 of the copy of the
    transaction, with the output's script in this input, that the hash type of the signature
    selects.  The signature does not have the 20 bytes of the hash, which it would be taken for,
    and the output that [SIGHASH_SINGLE] signs exists. *)
Theorem p2pkh_input `{crypto : ScriptCrypto} (mem : list Z) (Verify : list Z -> uint256 -> list Z -> bool)
    (tx : CTransaction) (nIn : nat) (amount : Z) (i : CTxIn) (sig key h : valtype) (t flags : Z) :
  length mem = 64%nat -> tx_ok tx -> vin tx !! nIn = Some i -> wit tx !! nIn = None ->
  byte t -> signable tx nIn t ->
  scriptSig i = push_data [] (sig ++ [t]) ++ push_data [] key ->
  small (sig ++ [t]) -> vsize (sig ++ [t]) <> 20 -> small key -> Forall byte h -> vsize h = 20 -> flags_ok flags ->
  CScriptCheck (TransactionSignatureChecker mem Verify tx nIn amount (new_PrecomputedTransactionData mem tx))
    tx nIn (p2pkh h) flags = Some true <->
  (IsCoinStake tx = true /\ nIn = 0%nat) \/
  (hash_hash160 key = h /\ CheckSignatureEncoding (sig ++ [t]) flags = Ret tt /\
   CheckPubKeyEncoding key flags SIGVERSION_BASE = Ret tt /\ CPubKey_IsValid key = true /\
   Verify key (sha256d (copy_bytes (signed_copy tx (p2pkh h) nIn t) t)) sig = true).
Proof.
  intros Hm Htx Hi Hw Ht Hsg Hsig Hsmall Hlen Hkey Hhb Hh Hok. unfold CScriptCheck. rewrite Hi. cbn [mbind option_bind].
  destruct (IsCoinStake tx && (nIn =? 0)%nat) eqn:Hcs.
  { apply andb_true_iff in Hcs as [Hcs Hn%Nat.eqb_eq]. rewrite Hsig, (sigops_two_pushes _ _ Hsmall Hkey). split; [by left|done]. }
  rewrite Hw, Hsig. set (checker := TransactionSignatureChecker _ _ _ _ _ _).
  assert (FindAndDelete (p2pkh h) (push_data [] (sig ++ [t])) = Some (p2pkh h, 0)) as Hfad.
  { destruct Hsmall as [Hs1 Hs2]. replace (push_data [] (sig ++ [t])) with (vsize (sig ++ [t]) :: sig ++ [t]).
    - apply FindAndDelete_none, p2pkh_avoids; [done| |done]. change OP_DUP with 118. lia.
    - unfold push_data. destruct (Z.ltb_spec (vsize (sig ++ [t])) OP_PUSHDATA1) as [_|H]; [|change OP_PUSHDATA1 with 76 in H; lia].
      done. }
  assert (SignatureHash mem (p2pkh h) tx nIn t amount SIGVERSION_BASE (new_PrecomputedTransactionData mem tx) =
    Some (sha256d (copy_bytes (signed_copy tx (p2pkh h) nIn t) t))) as Hhash.
  { apply (SignatureHash_base mem _ _ (p2pkh h)); [done|]. split; [done| |done|destruct Ht; unfold int_range; lia].
    split; [by apply p2pkh_parsed|]. unfold p2pkh. rewrite push_20 by done. split.
    - cbn [app]. repeat (apply list.Forall_cons; split; [by vm_compute|]). apply Forall_app. split; [done|].
      repeat (apply list.Forall_cons; split; [by vm_compute|]). constructor.
    - unfold fits_size, vsize, MAX_SIZE in *. cbn [app length]. rewrite length_app. cbn [length]. lia. }
  assert (CheckSig (sig ++ [t]) key (p2pkh h) SIGVERSION_BASE = Some true <->
    CPubKey_IsValid key = true /\ Verify key (sha256d (copy_bytes (signed_copy tx (p2pkh h) nIn t) t)) sig = true) as Hcheck.
  { cbn [CheckSig checker TransactionSignatureChecker]. unfold tx_CheckSig. destruct (CPubKey_IsValid key); cbn [negb]; [|split; [done|by intros [? _]]].
    rewrite rev_app_distr. cbn [rev app]. rewrite Hhash. cbn [mbind option_bind]. rewrite rev_involutive. split; [by intros [= ->]|by intros [_ ->]]. }
  transitivity (VerifyScript (push_data [] (sig ++ [t]) ++ push_data [] key) (p2pkh h) None flags = Ret tt).
  - destruct (VerifyScript _ _ _ _) as [[]| | |]; done.
  - rewrite VerifyScript_p2pkh by done. rewrite Hfad. split.
    + intros (?&?&?&code&k&[= <- <-]&Hc%Hcheck). tauto.
    + intros [[Hstake ->]|(?&?&?&Hc)]; [by rewrite Hstake in Hcs|].
      split_and!; [done..|]. exists (p2pkh h), 0. split; [done|]. by apply Hcheck.
Qed.

(** The first input of a coin stake passes with an empty script, whatever output it spends and
    whatever the checker says of signatures. *)
Lemma coinstake_kernel_unchecked `{crypto : ScriptCrypto} (checker : BaseSignatureChecker)
    (tx : CTransaction) (i : CTxIn) (spk : CScript) (flags : Z) :
  IsCoinStake tx = true -> vin tx !! 0%nat = Some i -> scriptSig i = [] -> CScriptCheck checker tx 0 spk flags = Some true.
Proof. intros Hc Hi Hs. unfold CScriptCheck. rewrite Hi. cbn [mbind option_bind]. rewrite Hc, Hs. done. Qed.

(** ** Instances *)

(** A transaction with two inputs and two outputs that spends an output to a key hash; the
    signature has 6 bytes and the hash type [SIGHASH_ALL], the key is a compressed one. *)
Definition sample_key : valtype := 2 :: replicate 32 7.
Definition sample_hash : valtype := @hash_hash160 toy_crypto sample_key.
Definition sample_spend (o : Z) : CTransaction :=
  {| nVersion := 2; nTime := 7;
     vin := [{| prevout := {| hash := replicate 32 5; n := 1 |};
                scriptSig := push_data [] ([48; 1; 2; 3; 4; 5] ++ [1]) ++ push_data [] sample_key; nSequence := 9 |};
             {| prevout := {| hash := replicate 32 6; n := 0 |}; scriptSig := [81]; nSequence := 8 |}];
     vout := [{| nValue := 600; scriptPubKey := [81; 82] |}; {| nValue := o; scriptPubKey := [] |}]; wit := []; nLockTime := 11;
     strDZeel := [104; 105] |}.

Lemma sample_spend_ok : tx_ok (sample_spend 1) /\ tx_ok (sample_spend 2) /\ script_ok (p2pkh sample_hash).
Proof. split_and!; by_decide. Qed.

(** Under [SIGHASH_SINGLE], what input 0 signs does not depend on output 1; under
    [SIGHASH_ALL] it does. *)
Lemma legacy_sighash_witness :
  (forall s c, SignatureHash (replicate 64 0) (p2pkh sample_hash) (sample_spend 1) 0 SIGHASH_SINGLE 0 SIGVERSION_BASE c =
     SignatureHash (replicate 64 0) (OP_CODESEPARATOR :: p2pkh sample_hash) (sample_spend 2) 0 SIGHASH_SINGLE s SIGVERSION_BASE c) /\
  signed_copy (sample_spend 1) (p2pkh sample_hash) 0 SIGHASH_ALL <> signed_copy (sample_spend 2) (p2pkh sample_hash) 0 SIGHASH_ALL.
Proof.
  destruct sample_spend_ok as (H1&H2&Hs). split; [|by vm_compute]. intros s c.
  assert (parsed (p2pkh sample_hash) (p2pkh sample_hash)) as Hp by by apply p2pkh_parsed.
  assert (forall tx k, tx_ok tx -> signable tx 0 SIGHASH_SINGLE -> parsed k (p2pkh sample_hash) -> script_ok k ->
    signing tx k (p2pkh sample_hash) 0 SIGHASH_SINGLE) as Hsg by (intros; split; [done|done|done|by vm_compute]).
  assert (signing (sample_spend 1) (p2pkh sample_hash) (p2pkh sample_hash) 0 SIGHASH_SINGLE) as S1
    by (apply Hsg; [done|split; cbn; lia|done|done]).
  assert (signing (sample_spend 2) (OP_CODESEPARATOR :: p2pkh sample_hash) (p2pkh sample_hash) 0 SIGHASH_SINGLE) as S2
    by (apply Hsg; [done|split; cbn; lia|by constructor|by_decide]).
  destruct (legacy_sighash (replicate 64 0) _ _ _ _ _ _ _ _ _ _ 0 s c c eq_refl S1 S2) as [(b1&B1&E1) _].
  destruct (legacy_sighash (replicate 64 0) _ _ _ _ _ _ _ _ _ _ s 0 c c eq_refl S2 S1) as [(b2&B2&E2) _].
  rewrite E1, E2. assert (Some b1 = Some b2) as [= ->]; [|reflexivity].
  apply (f_equal (fmap fst)) in B1, B2. transitivity (Some (b1, signed_copy (sample_spend 1) (p2pkh sample_hash) 0 SIGHASH_SINGLE).1); [reflexivity|].
  cbn [fmap option_fmap option_map fst] in B1, B2. cbn [fst]. rewrite <- B1, <- B2. reflexivity.
Defined.

Lemma witness_sighash_witness :
  SignatureHash (replicate 64 0) [81] (sample_spend 1) 1 SIGHASH_ALL 50 SIGVERSION_WITNESS_V0
    (new_PrecomputedTransactionData (replicate 64 0) (sample_spend 1)) =
  SignatureHash (replicate 64 0) [81] (sample_spend 1) 1 SIGHASH_ALL 50 SIGVERSION_WITNESS_V0 None.
Proof.
  destruct sample_spend_ok as (H1&_&_). assert (script_ok [81]) as Hs by (by_decide).
  assert (int_range 64 50 /\ int_range 32 SIGHASH_ALL) as [Ha Ht] by (split; by_decide).
  destruct (witness_sighash (replicate 64 0) (sample_spend 1) (sample_spend 1) [81] [81] 1 1 SIGHASH_ALL SIGHASH_ALL 50 50
    (new_PrecomputedTransactionData (replicate 64 0) (sample_spend 1)) None _ _ eq_refl H1 H1 (or_intror eq_refl) (or_introl eq_refl)
    eq_refl eq_refl Hs Hs Ha Ha Ht Ht) as [E1 _].
  destruct (witness_sighash (replicate 64 0) (sample_spend 1) (sample_spend 1) [81] [81] 1 1 SIGHASH_ALL SIGHASH_ALL 50 50
    None None _ _ eq_refl H1 H1 (or_introl eq_refl) (or_introl eq_refl)
    eq_refl eq_refl Hs Hs Ha Ha Ht Ht) as [E2 _].
  rewrite E1, E2. reflexivity.
Defined.

(** A verification that accepts only the signature hash of the transaction *)
Definition sample_verify (key hash sig : list Z) : bool :=
  bool_decide (hash = sha256d (copy_bytes (signed_copy (sample_spend 1) (p2pkh sample_hash) 0 1) 1)).

Lemma p2pkh_input_witness :
  @CScriptCheck toy_crypto (TransactionSignatureChecker (replicate 64 0) sample_verify (sample_spend 1) 0 0
    (new_PrecomputedTransactionData (replicate 64 0) (sample_spend 1))) (sample_spend 1) 0 (p2pkh sample_hash) SCRIPT_VERIFY_P2SH = Some true.
Proof.
  destruct sample_spend_ok as (H1&_&_).
  apply (@p2pkh_input toy_crypto (replicate 64 0) sample_verify (sample_spend 1) 0 0 _ [48; 1; 2; 3; 4; 5] sample_key sample_hash 1
    SCRIPT_VERIFY_P2SH eq_refl H1 eq_refl).
  - reflexivity.
  - by vm_compute.
  - split; cbn; lia.
  - reflexivity.
  - by vm_compute.
  - by vm_compute.
  - by vm_compute.
  - apply (Forall_by byte). by vm_compute.
  - by vm_compute.
  - by split.
  - right. split_and!; [reflexivity|by vm_compute|by vm_compute|by vm_compute|]. by apply bool_decide_eq_true_2.
Defined.
