(* ===== verification/TxVerify.v ===== *)
(** Rules for transactions ([src/src/main.cpp], [consensus/consensus.h],
    [consensus/validation.h]): the checks that need no context, lock times, relative lock
    times (BIP 68), signature operations, and the spending of coins with its conservation of
    money. *)

From stdpp Require Import gmap strings.
From S2P Require Import Prelude SphTypes BlockIndex Chain Serialize Codec Script Dividend Interpreter Transaction SigHash.
From S2P Require Import InterpreterProps Coins Undo.

#[local] Open Scope Z_scope.
#[local] Open Scope c_scope.

(** ** Validation state *)

Inductive mode_state := MODE_VALID | MODE_INVALID | MODE_ERROR.

(** [CValidationState], without the message for the log *)
Record CValidationState := ValState {
  mode : mode_state; nDoS : Z; strRejectReason : string; chRejectCode : Z; corruptionPossible : bool }.
Definition new_CValidationState : CValidationState := ValState MODE_VALID 0 "" 0 false.

Definition REJECT_INVALID : Z := 0x10.

(** Why a check fails: the level, the code and the reason that are given to [DoS] *)
Record reject := Reject { level : Z; code : Z; reason : string }.
Arguments Reject (level code)%_Z reason%_string.

(** [nDoS] is an [int] that starts at 0 and gets levels of at most 100; a sum past its range, which
    C++ leaves undefined, wraps around here. *)
Definition int_wrap (x : Z) : Z := (x + 2 ^ 31) mod 2 ^ 32 - 2 ^ 31.

Definition DoS (r : reject) (corruptionIn : bool) (st : CValidationState) : CValidationState :=
  match mode st with
  | MODE_ERROR => ValState MODE_ERROR (nDoS st) (reason r) (code r) corruptionIn
  | _ => ValState MODE_INVALID (int_wrap (nDoS st + level r)) (reason r) (code r) corruptionIn
  end.
Definition Invalid (code : Z) (reason : string) (st : CValidationState) : CValidationState :=
  DoS (Reject 0 code reason) false st.

(** ** Constants *)

Definition MAX_BLOCK_BASE_SIZE : Z := 2000000.
Definition COINBASE_MATURITY : Z := 50.
Definition LOCKTIME_VERIFY_SEQUENCE : Z := 1 << 0.
Definition SEQUENCE_LOCKTIME_GRANULARITY : Z := 9.

(** ** Checks without context *)

(** The loop over the outputs; [user] is [!tx.IsCoinBase() && !tx.IsCoinStake()]. *)
Fixpoint check_outputs (user : bool) (outs : list CTxOut) (nValueOut : Z) : option reject :=
  match outs with
  | [] => None
  | o :: outs =>
      if CTxOut_IsEmpty o && user then Some (Reject 100 0 "")
      else if nValue o <? 0 then Some (Reject 100 REJECT_INVALID "bad-txns-vout-negative")
      else if nValue o >? MAX_MONEY then Some (Reject 100 REJECT_INVALID "bad-txns-vout-toolarge")
      else
        let nValueOut := nValueOut + nValue o in
        if negb (MoneyRange nValueOut) then Some (Reject 100 REJECT_INVALID "bad-txns-txouttotal-toolarge")
        else check_outputs user outs nValueOut
  end.

(** The loop that looks for duplicate inputs *)
Fixpoint check_duplicates (vInOutPoints : list COutPoint) (ins : list CTxIn) : option reject :=
  match ins with
  | [] => None
  | i :: ins =>
      if bool_decide (prevout i ∈ vInOutPoints) then Some (Reject 100 REJECT_INVALID "bad-txns-inputs-duplicate")
      else check_duplicates (prevout i :: vInOutPoints) ins
  end.

(** The tests after the loops *)
Definition check_prevouts (tx : CTransaction) : option reject :=
  if IsCoinBase tx then
    match vin tx with
    | i :: _ => if (vsize (scriptSig i) <? 2) || (vsize (scriptSig i) >? 100)
                then Some (Reject 100 REJECT_INVALID "bad-cb-length") else None
    | [] => None
    end
  else if existsb (fun i => COutPoint_IsNull (prevout i)) (vin tx)
  then Some (Reject 10 REJECT_INVALID "bad-txns-prevout-null") else None.

(** The first failure of [CheckTransaction]; the outer [None] is the failed assertion of a
    witness for more inputs than there are. *)
Definition check_transaction (tx : CTransaction) : option (option reject) :=
  if (length (vin tx) =? 0)%nat then Some (Some (Reject 10 REJECT_INVALID "bad-txns-vin-empty"))
  else if (length (vout tx) =? 0)%nat then Some (Some (Reject 10 REJECT_INVALID "bad-txns-vout-empty"))
  else
    size ← GetSerializeSize tx SERIALIZE_TRANSACTION_NO_WITNESS;
    if size >? MAX_BLOCK_BASE_SIZE then Some (Some (Reject 100 REJECT_INVALID "bad-txns-oversize"))
    else
      match check_outputs (negb (IsCoinBase tx) && negb (IsCoinStake tx)) (vout tx) 0 with
      | Some r => Some (Some r)
      | None =>
          match check_duplicates [] (vin tx) with
          | Some r => Some (Some r)
          | None => Some (check_prevouts tx)
          end
      end.

Definition CheckTransaction (tx : CTransaction) (st : CValidationState) : option (bool * CValidationState) :=
  r ← check_transaction tx;
  match r with None => Some (true, st) | Some r => Some (false, DoS r false st) end.

(** ** Lock times *)

Definition IsFinalTx (tx : CTransaction) (nBlockHeight nBlockTime : Z) : bool :=
  if nLockTime tx =? 0 then true
  else if nLockTime tx <? (if nLockTime tx <? LOCKTIME_THRESHOLD then nBlockHeight else nBlockTime) then true
  else forallb (fun i => nSequence i =? SEQUENCE_FINAL) (vin tx).

Section locks.
Context (h : heap).

(** One input with the height of its coin: the new minima and height; [None] is undefined
    behaviour (overflow of an [int] or a null pointer). *)
Definition sequence_lock (block : ptr) (i : CTxIn) (nCoinHeight nMinHeight nMinTime : Z) : option (Z * Z * Z) :=
  if negb (nSequence i .& SEQUENCE_LOCKTIME_DISABLE_FLAG =? 0) then Some (nMinHeight, nMinTime, 0)
  else if negb (nSequence i .& SEQUENCE_LOCKTIME_TYPE_FLAG =? 0) then
    a ← GetAncestor h block (Z.max (nCoinHeight - 1) 0);
    p ← a;
    nCoinTime ← GetMedianTimePast h p;
    Some (nMinHeight, Z.max nMinTime (nCoinTime +
      u32 ((nSequence i .& SEQUENCE_LOCKTIME_MASK) << SEQUENCE_LOCKTIME_GRANULARITY) - 1), nCoinHeight)
  else
    x ← int (nCoinHeight + (nSequence i .& SEQUENCE_LOCKTIME_MASK));
    Some (Z.max nMinHeight (x - 1), nMinTime, nCoinHeight).

Fixpoint sequence_locks (block : ptr) (ins : list (CTxIn * Z)) (nMinHeight nMinTime : Z) : option (Z * Z * list Z) :=
  match ins with
  | [] => Some (nMinHeight, nMinTime, [])
  | (i, hgt) :: ins =>
      '(nMinHeight, nMinTime, hgt) ← sequence_lock block i hgt nMinHeight nMinTime;
      '(nMinHeight, nMinTime, hs) ← sequence_locks block ins nMinHeight nMinTime;
      Some (nMinHeight, nMinTime, hgt :: hs)
  end.

(** [CalculateSequenceLocks]: the pair and the new heights *)
Definition CalculateSequenceLocks (tx : CTransaction) (flags : Z) (prevHeights : list Z) (block : ptr)
    : option (Z * Z * list Z) :=
  if negb (length prevHeights =? length (vin tx))%nat then None
  else
    let fEnforceBIP68 := (u32 (nVersion tx) >=? 2) && negb (flags .& LOCKTIME_VERIFY_SEQUENCE =? 0) in
    if negb fEnforceBIP68 then Some (-1, -1, prevHeights)
    else sequence_locks block (zip (vin tx) prevHeights) (-1) (-1).

Definition EvaluateSequenceLocks (block : ptr) (lockPair : Z * Z) : option bool :=
  b ← h !! block;
  prev ← BlockIndex.pprev b;
  nBlockTime ← GetMedianTimePast h prev;
  Some (negb ((lockPair.1 >=? BlockIndex.nHeight b) || (lockPair.2 >=? nBlockTime))).

Definition SequenceLocks (tx : CTransaction) (flags : Z) (prevHeights : list Z) (block : ptr) : option (bool * list Z) :=
  '(nMinHeight, nMinTime, hs) ← CalculateSequenceLocks tx flags prevHeights block;
  r ← EvaluateSequenceLocks block (nMinHeight, nMinTime);
  Some (r, hs).
End locks.

(** ** Spending *)

Section spending.
Context {V : Type} `{HV : CCoinsView V}.
Abbreviation cache := (CCoinsViewCache V).

(** Signature operations: sums of [unsigned int] *)
Definition sum_sigops (l : list (option Z)) : option Z :=
  foldl (fun acc x => a ← acc; b ← x; Some (u32 (a + b))) (Some 0) l.

Definition GetLegacySigOpCount (tx : CTransaction) : option Z :=
  sum_sigops (map (fun i => GetSigOpCount (scriptSig i) false) (vin tx) ++
              map (fun o => GetSigOpCount (scriptPubKey o) false) (vout tx)).

Fixpoint p2sh_sigops (ins : list CTxIn) (nSigOps : Z) (inputs : cache) : option (Z * cache) :=
  match ins with
  | [] => Some (nSigOps, inputs)
  | i :: ins =>
      let '(prev, inputs) := GetOutputFor i inputs in
      o ← prev;
      k ← (if IsPayToScriptHash (scriptPubKey o) then GetSigOpCount_P2SH (scriptPubKey o) (scriptSig i) else Some 0);
      p2sh_sigops ins (u32 (nSigOps + k)) inputs
  end.
Definition GetP2SHSigOpCount (tx : CTransaction) (inputs : cache) : option (Z * cache) :=
  if IsCoinBase tx then Some (0, inputs) else p2sh_sigops (vin tx) 0 inputs.

(** The loop over the inputs; [wit] is what is left of the witnesses. *)
Fixpoint witness_sigops (ins : list CTxIn) (wit : list CScriptWitness) (flags nSigOps : Z) (inputs : cache)
    : option (Z * cache) :=
  match ins with
  | [] => Some (nSigOps, inputs)
  | i :: ins =>
      let '(prev, inputs) := GetOutputFor i inputs in
      o ← prev;
      k ← CountWitnessSigOps (scriptSig i) (scriptPubKey o) (head wit) flags;
      witness_sigops ins (tail wit) flags (nSigOps + k) inputs
  end.

Definition GetTransactionSigOpCost (tx : CTransaction) (inputs : cache) (flags : Z) : option (Z * cache) :=
  legacy ← GetLegacySigOpCount tx;
  let nSigOps := u32 (legacy * WITNESS_SCALE_FACTOR) in
  if IsCoinBase tx then Some (nSigOps, inputs)
  else
    '(nSigOps, inputs) ← (if has flags SCRIPT_VERIFY_P2SH
      then '(k, inputs) ← GetP2SHSigOpCount tx inputs; Some (nSigOps + u32 (k * WITNESS_SCALE_FACTOR), inputs)
      else Some (nSigOps, inputs));
    witness_sigops (vin tx) (wit tx) flags nSigOps inputs.

(** What the dividends depend on, and [GetBoolArg("-testnet", false)] *)
Context (D : Dividends) (testnet : bool).

Definition GetAvailableAmount (cs : CCoins) (outIndex : Z) : option Z :=
  o ← c_vout cs !! Z.to_nat outIndex; GetTotalWithDividend D (nValue o) (nHeight cs).

Definition immature (cs : CCoins) (nSpendHeight : Z) : bool :=
  (fCoinBase cs || fCoinStake cs) && negb testnet &&
  ((nSpendHeight - nHeight cs <? COINBASE_MATURITY) && (nSpendHeight - nHeight cs >? 0)).

(** The loop of [CheckTxInputs]: a failure or the value of the inputs; [None] is undefined
    behaviour (a missing coin or a signed overflow). *)
Fixpoint check_inputs (ins : list CTxIn) (nSpendHeight nValueIn : Z) (inputs : cache) : option ((reject + Z) * cache) :=
  match ins with
  | [] => Some (inr nValueIn, inputs)
  | i :: ins =>
      let '(r, inputs) := AccessCoins (hash (prevout i)) inputs in
      cs ← r;
      if immature cs nSpendHeight
      then Some (inl (Reject 0 REJECT_INVALID "bad-txns-premature-spend-of-coinbase"), inputs)
      else
        amount ← GetAvailableAmount cs (n (prevout i));
        let nValueIn := nValueIn + amount in
        if negb (int64_range nValueIn) then None
        else if negb (MoneyRange amount) || negb (MoneyRange nValueIn)
        then Some (inl (Reject 100 REJECT_INVALID "bad-txns-inputvalues-outofrange"), inputs)
        else check_inputs ins nSpendHeight nValueIn inputs
  end.

(** The tests on the fee; [Some None] is the exception of [GetValueOut]. *)
Definition check_fee (tx : CTransaction) (nValueIn : Z) : option (option (option reject)) :=
  if negb (IsCoinBase tx) && negb (IsCoinStake tx) then
    out ← GetValueOut tx;
    match out with
    | None => Some None
    | Some out =>
        Some (Some (
          if nValueIn <? out then Some (Reject 100 REJECT_INVALID "bad-txns-in-belowout")
          else
            let nTxFee := nValueIn - out in
            if nTxFee <? 0 then Some (Reject 100 REJECT_INVALID "bad-txns-fee-negative")
            else if negb (MoneyRange nTxFee) then Some (Reject 100 REJECT_INVALID "bad-txns-fee-outofrange")
            else None))
    end
  else Some (Some None).

Definition CheckTxInputs (tx : CTransaction) (st : CValidationState) (inputs : cache) (nSpendHeight : Z)
    : option (option (bool * CValidationState * cache)) :=
  let '(have, inputs) := HaveInputs tx inputs in
  if negb have then Some (Some (false, Invalid 0 "" st, inputs))
  else
    '(r, inputs) ← check_inputs (vin tx) nSpendHeight 0 inputs;
    match r with
    | inl r => Some (Some (false, DoS r false st, inputs))
    | inr nValueIn =>
        r ← check_fee tx nValueIn;
        match r with
        | None => Some None
        | Some (Some r) => Some (Some (false, DoS r false st, inputs))
        | Some None => Some (Some (true, st, inputs))
        end
    end.
End spending.

(** * What the checks without context accept *)

Definition sum_values (outs : list CTxOut) : Z := foldr (fun o s => nValue o + s) 0 outs.

Lemma MoneyRange_iff v : MoneyRange v = true <-> 0 <= v <= MAX_MONEY.
Proof. unfold MoneyRange. rewrite andb_true_iff, Z.geb_le, Z.leb_le. lia. Qed.

Lemma sum_values_nonneg outs : Forall (fun o => 0 <= nValue o) outs -> 0 <= sum_values outs.
Proof. induction 1 as [|o outs Ho _ IH]; cbn [sum_values foldr]; [lia|]. fold (sum_values outs). lia. Qed.

(** Outputs that are in range one by one and together, and not empty if [user] *)
Definition outputs_valid (user : bool) (outs : list CTxOut) (sum : Z) : Prop :=
  Forall (fun o => MoneyRange (nValue o) = true /\ (user = true -> CTxOut_IsEmpty o = false)) outs /\
  sum + sum_values outs <= MAX_MONEY.

Lemma outputs_valid_cons user o outs sum :
  outputs_valid user (o :: outs) sum <->
  MoneyRange (nValue o) = true /\ (user = true -> CTxOut_IsEmpty o = false) /\ outputs_valid user outs (sum + nValue o).
Proof.
  unfold outputs_valid. rewrite Forall_cons. cbn [sum_values foldr]. fold (sum_values outs).
  rewrite Z.add_assoc. tauto.
Qed.

Lemma outputs_valid_nonneg user outs sum : outputs_valid user outs sum -> 0 <= sum_values outs.
Proof.
  intros [Hf _]. apply sum_values_nonneg. eapply Forall_impl; [exact Hf|]. intros o [Ho%MoneyRange_iff _]. lia.
Qed.

Lemma check_outputs_ok user outs sum :
  0 <= sum <= MAX_MONEY -> check_outputs user outs sum = None <-> outputs_valid user outs sum.
Proof.
  revert sum. induction outs as [|o outs IH]; intros sum Hs.
  - split; [|done]. intros _. split; [constructor|]. cbn. lia.
  - rewrite outputs_valid_cons. cbn [check_outputs]. rewrite Z.gtb_ltb.
    destruct (CTxOut_IsEmpty o) eqn:Ee, user eqn:Eu; cbn [andb]; try (split; [done|intros (_&Hn&_); by specialize (Hn eq_refl)]).
    all: destruct (Z.ltb_spec (nValue o) 0); [split; [done|intros (Hm%MoneyRange_iff&_); lia]|].
    all: destruct (Z.ltb_spec MAX_MONEY (nValue o)); [split; [done|intros (Hm%MoneyRange_iff&_); lia]|].
    all: destruct (MoneyRange (sum + nValue o)) eqn:Em; cbn [negb].
    all: try (rewrite IH by (by apply MoneyRange_iff); rewrite MoneyRange_iff; split; [intros Hv; split_and!; (lia || done)|by intros (_&_&?)]).
    all: split; [done|]; intros (_&_&Hv); pose proof (outputs_valid_nonneg _ _ _ Hv); destruct Hv as [_ Hv].
    all: assert (MoneyRange (sum + nValue o) = true) by (apply MoneyRange_iff; lia); congruence.
Qed.

Lemma check_duplicates_ok seen ins :
  check_duplicates seen ins = None <-> NoDup (map prevout ins) /\ Forall (fun i => prevout i ∉ seen) ins.
Proof.
  revert seen. induction ins as [|i ins IH]; intros seen; cbn [check_duplicates map].
  - split; [|done]. split; constructor.
  - rewrite NoDup_cons, Forall_cons. destruct (bool_decide_reflect (prevout i ∈ seen)) as [Hin|Hout]; [split; [done|by intros (_&?&_)]|].
    rewrite IH. setoid_rewrite not_elem_of_cons. rewrite list.Forall_and.
    assert (prevout i ∉ map prevout ins <-> Forall (fun j => prevout j <> prevout i) ins) as ->; [|tauto].
    rewrite list.Forall_forall. split.
    + intros Hni j Hj E. apply Hni. rewrite <- E. by apply list_elem_of_fmap_2.
    + intros Hall (j&E&Hj)%list_elem_of_fmap. by apply (Hall j).
Qed.

Lemma check_outputs_level user outs sum r : check_outputs user outs sum = Some r -> level r = 100.
Proof.
  revert sum. induction outs as [|o outs IH]; intros sum; cbn [check_outputs]; [done|].
  repeat match goal with |- (if ?b then _ else _) = _ -> _ => destruct b; [by intros [= <-]|] end. apply IH.
Qed.

Lemma check_duplicates_level seen ins r : check_duplicates seen ins = Some r -> level r = 100.
Proof.
  revert seen. induction ins as [|i ins IH]; intros seen; cbn [check_duplicates]; [done|].
  destruct (bool_decide _); [by intros [= <-]|]. apply IH.
Qed.

(** A transaction that is valid as far as it can be seen without context *)
Record tx_valid (tx : CTransaction) : Prop := {
  valid_vin : vin tx <> [];
  valid_vout : vout tx <> [];
  valid_size : exists size, GetSerializeSize tx SERIALIZE_TRANSACTION_NO_WITNESS = Some size /\ size <= MAX_BLOCK_BASE_SIZE;
  valid_outputs : outputs_valid (negb (IsCoinBase tx) && negb (IsCoinStake tx)) (vout tx) 0;
  valid_inputs : NoDup (map prevout (vin tx));
  valid_coinbase : IsCoinBase tx = true -> exists i, vin tx = [i] /\ 2 <= vsize (scriptSig i) <= 100;
  valid_prevouts : IsCoinBase tx = false -> Forall (fun i => COutPoint_IsNull (prevout i) = false) (vin tx);
}.

Lemma IsCoinBase_single tx : IsCoinBase tx = true -> exists i, vin tx = [i].
Proof. unfold IsCoinBase. destruct (vin tx) as [|i [|? ?]]; [done|by exists i|done]. Qed.

Lemma check_prevouts_ok tx :
  check_prevouts tx = None <->
  (IsCoinBase tx = true -> exists i, vin tx = [i] /\ 2 <= vsize (scriptSig i) <= 100) /\
  (IsCoinBase tx = false -> Forall (fun i => COutPoint_IsNull (prevout i) = false) (vin tx)).
Proof.
  unfold check_prevouts. destruct (IsCoinBase tx) eqn:Ec.
  - destruct (IsCoinBase_single tx Ec) as [i ->]. rewrite Z.gtb_ltb.
    destruct (Z.ltb_spec (vsize (scriptSig i)) 2) as [Hl|Hl]; cbn [orb];
      [split; [done|]; intros [Hc _]; destruct (Hc eq_refl) as (j&[= <-]&?); lia|].
    destruct (Z.ltb_spec 100 (vsize (scriptSig i))) as [Hu|Hu];
      [split; [done|]; intros [Hc _]; destruct (Hc eq_refl) as (j&[= <-]&?); lia|].
    split; [|done]. intros _. split; [|done]. intros _. by exists i.
  - split.
    + intros E. split; [done|]. intros _. apply list.Forall_forall. intros i Hi.
      destruct (COutPoint_IsNull (prevout i)) eqn:En; [|done]. destruct (existsb _ (vin tx)) eqn:Ex; [done|].
      rewrite <- not_true_iff_false in Ex. destruct Ex. apply existsb_exists. exists i. by rewrite <- list_elem_of_In.
    + intros [_ Hf]. specialize (Hf eq_refl). destruct (existsb _ (vin tx)) eqn:Ex; [|done].
      apply existsb_exists in Ex as (i&Hi%list_elem_of_In&En). rewrite list.Forall_forall in Hf. rewrite Hf in En; done.
Qed.

Lemma GetSerializeSize_total tx ver :
  (length (wit tx) <= length (vin tx))%nat -> no_witness ver = true -> is_Some (GetSerializeSize tx ver).
Proof.
  intros Hw Hv. unfold GetSerializeSize, SerializeTransaction. rewrite (proj2 (Nat.ltb_ge _ _)) by done. rewrite Hv. by eexists.
Qed.

Lemma check_transaction_ok tx :
  (length (wit tx) <= length (vin tx))%nat ->
  exists r, check_transaction tx = Some r /\ (r = None <-> tx_valid tx) /\
    forall x, r = Some x -> level x = 10 \/ level x = 100.
Proof.
  intros Hw. unfold check_transaction.
  destruct (Nat.eqb_spec (length (vin tx)) 0) as [E1|E1]; [eexists; split_and!; [done|split; [done|]|intros x [= <-]; by left]|].
  { intros [Hv _ _ _ _ _ _]. by apply nil_length_inv in E1. }
  destruct (Nat.eqb_spec (length (vout tx)) 0) as [E2|E2]; [eexists; split_and!; [done|split; [done|]|intros x [= <-]; by left]|].
  { intros [_ Hv _ _ _ _ _]. by apply nil_length_inv in E2. }
  destruct (GetSerializeSize_total tx SERIALIZE_TRANSACTION_NO_WITNESS Hw eq_refl) as [size Es]. rewrite Es. cbn [mbind option_bind].
  rewrite Z.gtb_ltb. destruct (Z.ltb_spec MAX_BLOCK_BASE_SIZE size) as [Hs|Hs].
  { eexists. split_and!; [done|split; [done|]|intros x [= <-]; by right]. intros [_ _ (s&E&Hle) _ _ _ _]. rewrite Es in E. injection E as <-. lia. }
  destruct (check_outputs _ _ _) as [r|] eqn:Eo.
  { eexists. split_and!; [done|split; [done|]|intros x [= <-]; right; by eapply check_outputs_level].
    intros [_ _ _ Hv _ _ _]. apply check_outputs_ok in Hv; [congruence|by split]. }
  apply check_outputs_ok in Eo; [|by split].
  destruct (check_duplicates _ _) as [r|] eqn:Ed.
  { eexists. split_and!; [done|split; [done|]|intros x [= <-]; right; by eapply check_duplicates_level].
    intros [_ _ _ _ Hv _ _]. assert (check_duplicates [] (vin tx) = None); [|congruence].
    apply check_duplicates_ok. split; [done|]. apply list.Forall_forall. intros. apply not_elem_of_nil. }
  apply check_duplicates_ok in Ed as [Ed _]. eexists. split_and!; [done|..].
  - rewrite check_prevouts_ok. split; [|by intros []]. intros [Hc Hp]. split; try done.
    + intros E. by rewrite E in E1.
    + intros E. by rewrite E in E2.
    + by exists size.
  - intros x E. unfold check_prevouts in E. destruct (IsCoinBase tx).
    + destruct (vin tx) as [|i ?]; [done|]. destruct (_ || _); [|done]. injection E as <-. by right.
    + destruct (existsb _ _); [|done]. injection E as <-. by left.
Qed.

Lemma int64_money v : 0 <= v <= MAX_MONEY -> int64_range v = true.
Proof.
  unfold MAX_MONEY, COIN. intros Hv. unfold int64_range, INT64_MIN, INT64_MAX. apply andb_true_iff. rewrite !Z.leb_le. lia.
Qed.

Lemma GetValueOut_loop_valid user outs sum :
  outputs_valid user outs sum -> 0 <= sum <= MAX_MONEY -> GetValueOut_loop outs sum = Some (Some (sum + sum_values outs)).
Proof.
  revert sum. induction outs as [|o outs IH]; intros sum Hv Hs; cbn [GetValueOut_loop]; [do 2 f_equal; cbn; lia|].
  apply outputs_valid_cons in Hv as (Hm&_&Hv). pose proof (outputs_valid_nonneg _ _ _ Hv) as Hn.
  assert (0 <= sum + nValue o <= MAX_MONEY) as Hr by (apply MoneyRange_iff in Hm; destruct Hv as [_ ?]; lia).
  rewrite (int64_money _ Hr), Hm, (proj2 (MoneyRange_iff _) Hr). cbn [negb orb]. rewrite IH by done.
  cbn [sum_values foldr]. fold (sum_values outs). by rewrite Z.add_assoc.
Qed.

(** The sum of the outputs of a valid transaction is computed without overflow or exception. *)
Lemma GetValueOut_valid tx : tx_valid tx -> GetValueOut tx = Some (Some (sum_values (vout tx))).
Proof. intros [_ _ _ Ho _ _ _]. by apply (GetValueOut_loop_valid _ _ 0 Ho). Qed.

(** C20: [CheckTransaction] accepts exactly the transactions that have inputs and outputs, are
    within the size limit without their witness, have outputs that are each and together within
    the range of money and, for users, not empty, spend no output twice, and have a script of 2
    to 100 bytes if they are a coinbase and no null outpoint if not. Accepting leaves the
    validation state as it was; refusing makes a state that was not an error invalid and adds 10
    or 100 to its score, an [int]. For what is accepted, [GetValueOut] returns the sum of the outputs
    without overflow or exception. *)
Theorem check_transaction_iff (tx : CTransaction) (st : CValidationState) :
  (length (wit tx) <= length (vin tx))%nat ->
  exists b st', CheckTransaction tx st = Some (b, st') /\ (b = true <-> tx_valid tx) /\
    (b = true -> st' = st /\ GetValueOut tx = Some (Some (sum_values (vout tx)))) /\
    (b = false -> mode st <> MODE_ERROR ->
      mode st' = MODE_INVALID /\ (nDoS st' = int_wrap (nDoS st + 10) \/ nDoS st' = int_wrap (nDoS st + 100))).
Proof.
  intros Hw. destruct (check_transaction_ok tx Hw) as (r&E&Hr&Hl). unfold CheckTransaction. rewrite E. cbn [mbind option_bind].
  destruct r as [x|]; eexists _, _; (split; [done|]); split_and!; try done.
  - by rewrite <- Hr.
  - intros _ He. unfold DoS. destruct (Hl x eq_refl) as [-> | ->]; destruct (mode st); try done; split; auto.
  - by rewrite <- Hr.
  - intros _. split; [done|]. by apply GetValueOut_valid, Hr.
Qed.

(** * Relative lock times *)

Section bip68.
Context (h : heap) (Hok : index_ok h).
Context (block prev : ptr) (b : CBlockIndex) (Hblock : h !! block = Some b) (Hprev : BlockIndex.pprev b = Some prev).
Context (now : Z) (Hnow : GetMedianTimePast h prev = Some now).
Context (Hheight : BlockIndex.nHeight b + 2 ^ 16 < 2 ^ 31).

(** BIP 68: an input whose coin was mined at height [coin] may be spent by [block] when its
    sequence number has bit 31, or when the lock has passed: bit 22 tells whether the low 16 bits
    count units of 512 seconds of median time, from the block before the coin's, or blocks. *)
Definition bip68_met (i : CTxIn) (coin : Z) : Prop :=
  let k := nSequence i mod 2 ^ 16 in
  Z.testbit (nSequence i) 31 = true \/
  if Z.testbit (nSequence i) 22
  then exists p t, ancestor h block (Z.max (coin - 1) 0) = Some p /\ GetMedianTimePast h p = Some t /\ t + 512 * k <= now
  else coin + k <= BlockIndex.nHeight b.

(** Locks that have passed *)
Definition passed (nMinHeight nMinTime : Z) : Prop := nMinHeight < BlockIndex.nHeight b /\ nMinTime < now.

Lemma sequence_lock_ok i coin nMinHeight nMinTime :
  0 <= coin <= BlockIndex.nHeight b ->
  exists mh mt hgt, sequence_lock h block i coin nMinHeight nMinTime = Some (mh, mt, hgt) /\
    (passed mh mt <-> passed nMinHeight nMinTime /\ bip68_met i coin).
Proof.
  intros Hc. unfold sequence_lock, bip68_met, passed.
  change SEQUENCE_LOCKTIME_DISABLE_FLAG with (2 ^ 31). change SEQUENCE_LOCKTIME_TYPE_FLAG with (2 ^ 22).
  rewrite !land_pow2 by lia. change SEQUENCE_LOCKTIME_MASK with (Z.ones 16). rewrite Z.land_ones by lia.
  pose proof (Z.mod_pos_bound (nSequence i) (2 ^ 16) ltac:(lia)) as Hk. set (k := nSequence i mod 2 ^ 16) in *.
  destruct (Z.testbit (nSequence i) 31); [eexists _, _, _; split; [done|tauto]|].
  destruct (Z.testbit (nSequence i) 22).
  - rewrite (GetAncestor_spec h block b) by done. cbn [mbind option_bind].
    destruct (ancestor_ok h block b (Z.max (coin - 1) 0) Hok Hblock ltac:(lia)) as (q&bq&Ea&Hq&_). rewrite Ea. cbn [mbind option_bind].
    destruct (GetMedianTimePast_spec h q bq Hok Hq) as (_&_&t&_&_&_&_&_&Et). rewrite Et. cbn [mbind option_bind].
    rewrite Z.shiftl_mul_pow2 by (unfold SEQUENCE_LOCKTIME_GRANULARITY; lia). change (2 ^ SEQUENCE_LOCKTIME_GRANULARITY) with 512.
    unfold u32. rewrite Z.mod_small by lia. eexists _, _, _. split; [done|]. split.
    + intros [H1 H2]. split; [lia|right]. exists q, t. split_and!; [done|done|lia].
    + intros [[H1 H2] [?|(p&t'&[= ->]&Et'&Hle)]]; [done|]. rewrite Et in Et'. injection Et' as <-. lia.
  - unfold int. rewrite bool_decide_true by lia. cbn [mbind option_bind]. eexists _, _, _. split; [done|]. split.
    + intros [H1 H2]. split; [lia|right; lia].
    + intros [[H1 H2] [?|Hle]]; [done|]. lia.
Qed.

Lemma sequence_locks_ok ins coins nMinHeight nMinTime :
  length ins = length coins -> Forall (fun c => 0 <= c <= BlockIndex.nHeight b) coins ->
  exists mh mt hs, sequence_locks h block (zip ins coins) nMinHeight nMinTime = Some (mh, mt, hs) /\ length hs = length coins /\
    (passed mh mt <-> passed nMinHeight nMinTime /\ Forall2 bip68_met ins coins).
Proof.
  intros Hl Hf. revert ins nMinHeight nMinTime Hl. induction Hf as [|c coins Hc Hf IH]; intros [|i ins] mh mt Hl; try done.
  - eexists _, _, _. split; [done|]. split; [done|]. split; [|tauto]. intros Hp. split; [done|constructor].
  - cbn [zip zip_with sequence_locks]. destruct (sequence_lock_ok i c mh mt Hc) as (mh1&mt1&hgt&->&H1). cbn [mbind option_bind].
    destruct (IH ins mh1 mt1 ltac:(by injection Hl)) as (mh2&mt2&hs&E2&Hl2&H2). fold (zip ins coins). rewrite E2. cbn [mbind option_bind].
    eexists _, _, _. split; [done|]. split; [cbn; by rewrite Hl2|]. rewrite H2, H1, Forall2_cons. tauto.
Qed.

Lemma EvaluateSequenceLocks_ok mh mt :
  exists r, EvaluateSequenceLocks h block (mh, mt) = Some r /\ (r = true <-> passed mh mt).
Proof.
  unfold EvaluateSequenceLocks. rewrite Hblock. cbn [mbind option_bind]. rewrite Hprev. cbn [mbind option_bind].
  rewrite Hnow. cbn [mbind option_bind fst snd]. eexists. split; [done|].
  rewrite negb_true_iff, orb_false_iff, !Z.geb_leb, !Z.leb_gt. done.
Qed.
End bip68.

Lemma SequenceLocks_ok (h : heap) (tx : CTransaction) (flags : Z) (prevHeights : list Z)
    (block prev : ptr) (b : CBlockIndex) (now : Z) :
  index_ok h -> h !! block = Some b -> BlockIndex.pprev b = Some prev ->
  GetMedianTimePast h prev = Some now -> 0 <= now -> BlockIndex.nHeight b + 2 ^ 16 < 2 ^ 31 ->
  length prevHeights = length (vin tx) -> Forall (fun c => 0 <= c <= BlockIndex.nHeight b) prevHeights ->
  exists r hs, SequenceLocks h tx flags prevHeights block = Some (r, hs) /\ length hs = length prevHeights /\
    (r = true <-> nVersion tx mod 2 ^ 32 < 2 \/ Z.testbit flags 0 = false \/
       Forall2 (bip68_met h block b now) (vin tx) prevHeights).
Proof.
  intros Hok Hb Hp Hn H0 Hh Hl Hf. unfold SequenceLocks, CalculateSequenceLocks. rewrite Hl, Nat.eqb_refl. cbn [negb].
  assert (0 <= BlockIndex.nHeight b) as Hpos by by destruct (map_Forall_lookup_1 _ _ _ _ Hok Hb) as ([? _]&_).
  assert (passed b now (-1) (-1)) as Hpass by (split; lia).
  change LOCKTIME_VERIFY_SEQUENCE with (2 ^ 0). rewrite land_pow2 by lia. rewrite Z.geb_leb. fold (u32 (nVersion tx)).
  destruct (Z.leb_spec 2 (u32 (nVersion tx))) as [Hv|Hv]; cbn [andb negb].
  2: { cbn [mbind option_bind]. destruct (EvaluateSequenceLocks_ok h block prev b Hb Hp now Hn (-1) (-1)) as (r&->&Hr).
       cbn [mbind option_bind]. eexists _, _. split; [done|]. split; [done|]. tauto. }
  destruct (Z.testbit flags 0); cbn [negb].
  - destruct (sequence_locks_ok h Hok block b Hb now Hh (vin tx) prevHeights (-1) (-1) (eq_sym Hl) Hf) as (mh&mt&hs&->&Hhs&Hm).
    cbn [mbind option_bind]. destruct (EvaluateSequenceLocks_ok h block prev b Hb Hp now Hn mh mt) as (r&->&Hr). cbn [mbind option_bind].
    eexists _, _. split; [done|]. split; [by rewrite Hhs|]. rewrite Hr, Hm. split; [tauto|]. intros [?|[?|?]]; [lia|done|done].
  - cbn [mbind option_bind]. destruct (EvaluateSequenceLocks_ok h block prev b Hb Hp now Hn (-1) (-1)) as (r&->&Hr).
    cbn [mbind option_bind]. eexists _, _. split; [done|]. split; [done|]. tauto.
Qed.

(** C21: [SequenceLocks] is BIP 68: for a block of a well-formed index, and inputs whose coins
    were mined at heights up to the height of the block, it returns without undefined behaviour,
    and accepts exactly when the version (as an unsigned number) is below 2, or the rule is not
    switched on, or every input satisfies its relative lock. *)
Theorem sequence_locks_bip68 (h : heap) (tx : CTransaction) (flags : Z) (prevHeights : list Z)
    (block prev : ptr) (b : CBlockIndex) (now : Z) :
  index_ok h -> h !! block = Some b -> BlockIndex.pprev b = Some prev ->
  GetMedianTimePast h prev = Some now -> 0 <= now -> BlockIndex.nHeight b + 2 ^ 16 < 2 ^ 31 ->
  length prevHeights = length (vin tx) -> Forall (fun c => 0 <= c <= BlockIndex.nHeight b) prevHeights ->
  exists r hs, SequenceLocks h tx flags prevHeights block = Some (r, hs) /\ length hs = length prevHeights /\
    (r = true <-> nVersion tx mod 2 ^ 32 < 2 \/ Z.testbit flags 0 = false \/
       Forall2 (bip68_met h block b now) (vin tx) prevHeights).
Proof. apply SequenceLocks_ok. Qed.

(** ** Lock times that scripts ask for *)

Lemma land_single x k : 0 <= k -> x .& 2 ^ k = if Z.testbit x k then 2 ^ k else 0.
Proof.
  intros Hk. apply Z.bits_inj'. intros j Hj. rewrite Z.land_spec, Z.pow2_bits_eqb by lia.
  destruct (Z.eqb_spec k j) as [->|Hne].
  - destruct (Z.testbit x j); [by rewrite Z.pow2_bits_true|by rewrite Z.bits_0].
  - rewrite andb_false_r. destruct (Z.testbit x k); [by rewrite Z.pow2_bits_false|by rewrite Z.bits_0].
Qed.

(** What the mask of [CheckSequence] keeps: the unit and the number of units *)
Lemma sequence_mask x :
  x .& (SEQUENCE_LOCKTIME_TYPE_FLAG .| SEQUENCE_LOCKTIME_MASK) = (if Z.testbit x 22 then 2 ^ 22 else 0) + x mod 2 ^ 16.
Proof.
  change SEQUENCE_LOCKTIME_TYPE_FLAG with (2 ^ 22). change SEQUENCE_LOCKTIME_MASK with (Z.ones 16).
  rewrite Z.land_lor_distr_r, land_single, Z.land_ones by lia.
  assert ((if Z.testbit x 22 then 2 ^ 22 else 0) .& (x mod 2 ^ 16) = 0) as H0.
  { destruct (Z.testbit x 22); [|apply Z.land_0_l]. rewrite Z.land_comm, land_single by lia.
    rewrite (word_testbit_high 16); [done| |lia]. apply word_mod. lia. }
  rewrite Z.add_nocarry_lxor by done. by rewrite Z.lxor_lor.
Qed.

Lemma CheckLockTime_true tx nIn n :
  tx_CheckLockTime tx nIn n = Some true ->
  (nLockTime tx < LOCKTIME_THRESHOLD <-> n < LOCKTIME_THRESHOLD) /\ n <= nLockTime tx /\
  exists i, vin tx !! nIn = Some i /\ nSequence i <> SEQUENCE_FINAL.
Proof.
  unfold tx_CheckLockTime. rewrite !Z.geb_leb, Z.gtb_ltb.
  destruct (Z.ltb_spec (nLockTime tx) LOCKTIME_THRESHOLD), (Z.ltb_spec n LOCKTIME_THRESHOLD), (Z.leb_spec LOCKTIME_THRESHOLD (nLockTime tx)),
    (Z.leb_spec LOCKTIME_THRESHOLD n), (Z.ltb_spec (nLockTime tx) n); try done; try lia; cbn [andb orb negb];
    (destruct (vin tx !! nIn) as [i|]; [|done]); intros Hi%(inj Some)%negb_true_iff%Z.eqb_neq;
    (split_and!; [lia|lia|exists i; by split; [|apply not_eq_sym]]).
Qed.

Lemma CheckSequence_true tx nIn n :
  tx_CheckSequence tx nIn n = Some true ->
  2 <= u32 (nVersion tx) /\ exists i, vin tx !! nIn = Some i /\ Z.testbit (nSequence i) 31 = false /\
    Z.testbit (nSequence i) 22 = Z.testbit n 22 /\ n mod 2 ^ 16 <= nSequence i mod 2 ^ 16.
Proof.
  unfold tx_CheckSequence. destruct (vin tx !! nIn) as [i|]; [|done]. cbn [mbind option_bind].
  destruct (Z.ltb_spec (u32 (nVersion tx)) 2) as [|Hv]; [done|].
  change SEQUENCE_LOCKTIME_DISABLE_FLAG with (2 ^ 31). rewrite land_single by lia.
  destruct (Z.testbit (nSequence i) 31) eqn:E31; [done|]. cbn [Z.eqb negb]. rewrite !sequence_mask, !Z.geb_leb, Z.gtb_ltb.
  pose proof (Z.mod_pos_bound n (2 ^ 16) ltac:(lia)). pose proof (Z.mod_pos_bound (nSequence i) (2 ^ 16) ltac:(lia)).
  change SEQUENCE_LOCKTIME_TYPE_FLAG with (2 ^ 22). intros Hc. split; [done|]. exists i. split; [done|]. split; [done|].
  destruct (Z.testbit (nSequence i) 22), (Z.testbit n 22);
    repeat (match type of Hc with context [?a <? ?b] => destruct (Z.ltb_spec a b); try lia end);
    repeat (match type of Hc with context [?a <=? ?b] => destruct (Z.leb_spec a b); try lia end); try done; split; try done; lia.
Qed.

(** The relative lock time [n] of a coin that was mined at height [coin] has passed at [block]. *)
Definition relative_lock_passed (h : heap) (block : ptr) (b : CBlockIndex) (now n coin : Z) : Prop :=
  if Z.testbit n 22
  then exists p t, ancestor h block (Z.max (coin - 1) 0) = Some p /\ GetMedianTimePast h p = Some t /\ t + 512 * (n mod 2 ^ 16) <= now
  else coin + n mod 2 ^ 16 <= BlockIndex.nHeight b.

(** *** Scripts that start with a lock *)

(** A script that pushes an operand, executes [op], and goes on *)
Definition lock_script (op : Z) (vch : valtype) (rest : CScript) : CScript := push_data [] vch ++ op :: rest.

Section locks.
Context `{crypto : ScriptCrypto} `{checker : BaseSignatureChecker}.

(** A push outside of conditionals, if it succeeds, puts its operand on the stack. *)
Lemma push_instr flags v vch pc s alt code k st :
  eval_instr flags v (push_op vch) vch pc (EvalState s alt [] code k) = Ret st ->
  stack st = vch :: s /\ vfExec st = [].
Proof.
  unfold eval_instr. cbn [vfExec stack altstack pbegincodehash forallb nOpCount]. destruct (_ >? MAX_SCRIPT_ELEMENT_SIZE); [done|]. cbv zeta.
  destruct (_ && _); [done|]. destruct (disabled _); [done|]. pose proof (push_op_le vch) as [H1 H2].
  rewrite (proj2 (Z.leb_le _ _) H1), (proj2 (Z.leb_le _ _) H2). cbn [andb].
  destruct (_ && _); [done|]. cbn [mbind outcome_bind set_stack stack altstack vfExec].
  destruct (_ >? 1000); [done|]. by intros [= <-].
Qed.

(** If a script that starts with a lock succeeds, so does the lock, on its operand. *)
Lemma lock_script_instr flags v op vch rest stk r :
  OP_PUSHDATA4 < op -> EvalScript stk (lock_script op vch rest) flags v = Ret r ->
  exists st st', stack st = vch :: stk /\ vfExec st = [] /\ eval_instr flags v op [] rest st = Ret st'.
Proof.
  intros Hop. unfold EvalScript. destruct (_ >? MAX_SCRIPT_SIZE) eqn:Esz; [done|]. rewrite Z.gtb_ltb in Esz. apply Z.ltb_ge in Esz.
  match goal with |- context [eval_loop ?k ?f ?v ?pc ?st] => change (eval_loop k f v pc st) with (run f v pc st) end.
  intros E. assert (exists st, run flags v (lock_script op vch rest) (EvalState stk [] [] (lock_script op vch rest) 0) = Ret st) as [st Est].
  { destruct (run _ _ _ _) as [st| | |]; try done. by exists st. }
  clear E. unfold lock_script in Est at 1. rewrite (run_step _ _ _ _ (push_op vch) vch (op :: rest)) in Est.
  2: { apply GetOp_push_data. unfold lock_script, push_data, vsize, MAX_SCRIPT_SIZE in *. rewrite !length_app in *. lia. }
  destruct (eval_instr _ _ (push_op vch) _ _ _) as [st1| | |] eqn:E1; try done. cbn [mbind outcome_bind] in Est.
  apply push_instr in E1 as [Hs Hv]. rewrite (run_step _ _ _ _ op [] rest) in Est by by apply GetOp_opcode.
  destruct (eval_instr flags v op [] rest st1) as [st2| | |] eqn:E2; try done. by exists st1, st2.
Qed.

(** An instruction other than a push, executed outside of conditionals *)
Lemma instr_exec flags v op pc st st' :
  OP_PUSHDATA4 < op -> vfExec st = [] -> eval_instr flags v op [] pc st = Ret st' ->
  exists st1 st2, stack st1 = stack st /\ exec_opcode flags v true op pc st1 = Ret st2.
Proof.
  intros Hop Hv. unfold eval_instr. rewrite Hv. cbn [forallb]. destruct (vsize [] >? _); [done|]. cbv zeta. destruct (_ && (_ >? MAX_OPS_PER_SCRIPT)); [done|].
  destruct (disabled op); [done|]. rewrite (proj2 (Z.leb_gt op OP_PUSHDATA4) Hop), !andb_false_r. cbn [orb].
  destruct (exec_opcode flags v true op pc _) as [st2| | |] eqn:E; try done. intros _. by eexists _, st2; split; [|exact E].
Qed.

Lemma num_value vch m k n n' : num vch m k = Ret n -> CScriptNum vch false k = inr n' -> n = n'.
Proof.
  unfold num, CScriptNum. destruct (_ >? k); [done|]. destruct (m && _); [done|]. cbn [andb].
  destruct (set_vch vch); congruence.
Qed.

Lemma cltv_script flags vch n rest stk r :
  has flags SCRIPT_VERIFY_CHECKLOCKTIMEVERIFY = true -> CScriptNum vch false 5 = inr n ->
  EvalScript stk (lock_script OP_CHECKLOCKTIMEVERIFY vch rest) flags SIGVERSION_BASE = Ret r ->
  0 <= n /\ CheckLockTime n = Some true.
Proof.
  intros Hf Hn E. apply lock_script_instr in E as (st&st'&Hs&Hv&E); [|done]. apply instr_exec in E as (st1&st2&Hs1&E); [|done|done].
  cbn in E. unfold op_checklocktimeverify in E. rewrite Hf, Hs1, Hs in E. cbn [negb] in E.
  change (at_least 1 (vch :: stk)) with (fun k : outcome unit => k) in E. cbv beta in E. rewrite stacktop_1 in E. cbn [mbind outcome_bind] in E.
  destruct (num vch _ 5) as [k| | |] eqn:Ek; try done. apply (num_value _ _ _ _ n) in Ek as ->; [|done]. cbn [mbind outcome_bind] in E.
  destruct (Z.ltb_spec n 0); [done|]. destruct (CheckLockTime n) as [[]|]; done.
Qed.

Lemma csv_script flags vch n rest stk r :
  has flags SCRIPT_VERIFY_CHECKSEQUENCEVERIFY = true -> CScriptNum vch false 5 = inr n ->
  EvalScript stk (lock_script OP_CHECKSEQUENCEVERIFY vch rest) flags SIGVERSION_BASE = Ret r ->
  0 <= n /\ (Z.testbit n 31 = true \/ CheckSequence n = Some true).
Proof.
  intros Hf Hn E. apply lock_script_instr in E as (st&st'&Hs&Hv&E); [|done]. apply instr_exec in E as (st1&st2&Hs1&E); [|done|done].
  cbn in E. unfold op_checksequenceverify in E. rewrite Hf, Hs1, Hs in E. cbn [negb] in E.
  change (at_least 1 (vch :: stk)) with (fun k : outcome unit => k) in E. cbv beta in E. rewrite stacktop_1 in E. cbn [mbind outcome_bind] in E.
  destruct (num vch _ 5) as [k| | |] eqn:Ek; try done. apply (num_value _ _ _ _ n) in Ek as ->; [|done]. cbn [mbind outcome_bind] in E.
  destruct (Z.ltb_spec n 0); [done|]. split; [done|]. change SEQUENCE_LOCKTIME_DISABLE_FLAG with (2 ^ 31) in E.
  rewrite land_single in E by lia. destruct (Z.testbit n 31); [by left|right]. cbn [Z.eqb negb] in E.
  destruct (CheckSequence n) as [[]|]; done.
Qed.

(** An input that passes runs the script of its output, unless it is the first of a coin stake. *)
Lemma CScriptCheck_runs tx nIn spk flags :
  IsCoinStake tx && (nIn =? 0)%nat = false -> CScriptCheck checker tx nIn spk flags = Some true ->
  exists stk r, EvalScript stk spk flags SIGVERSION_BASE = Ret r.
Proof.
  intros Hcs. unfold CScriptCheck. destruct (vin tx !! nIn) as [i|]; [|done]. cbn [mbind option_bind]. rewrite Hcs.
  destruct (VerifyScript _ _ _ _) as [u| | |] eqn:E; try done. intros _. revert E. unfold VerifyScript. cbv zeta.
  destruct (if has flags SCRIPT_VERIFY_SIGPUSHONLY then _ else _) as [[]| | |]; try done. cbn [mbind outcome_bind negb].
  destruct (EvalScript [] (scriptSig i) flags SIGVERSION_BASE) as [stk| | |]; try done. cbn [mbind outcome_bind].
  destruct (EvalScript stk spk flags SIGVERSION_BASE) as [r| | |] eqn:E; try done. intros _. by exists stk, r.
Qed.
End locks.

(** C22: The two opcodes that check lock times bind the block that includes the transaction.  Let an
    input, other than the first of a coin stake, pass the script check for an output whose script
    starts with a push of the number [n] and one of the opcodes, with the flag of the opcode.
    After [OP_CHECKLOCKTIMEVERIFY], [n] is not negative and the transaction is only final at
    heights above [n], or at times after [n] when [n] is a time.  After [OP_CHECKSEQUENCEVERIFY],
    [n] is not negative and, unless its bit 31 makes the opcode a no-op, the sequence locks of the
    transaction only hold in a block where the coin that the input spends is at least [n] blocks,
    or units of 512 seconds of median time, old. *)
Theorem script_locks_bind_block `{crypto : ScriptCrypto} (mem : list Z) (Verify : list Z -> uint256 -> list Z -> bool)
    (h : heap) (tx : CTransaction) (nIn : nat) (amount : Z) (cache : option PrecomputedTransactionData)
    (vch : valtype) (n : Z) (rest : CScript) (flags seqFlags height time : Z) (prevHeights : list Z)
    (block prev : ptr) (b : CBlockIndex) (now coin : Z) :
  index_ok h -> h !! block = Some b -> BlockIndex.pprev b = Some prev ->
  GetMedianTimePast h prev = Some now -> 0 <= now -> BlockIndex.nHeight b + 2 ^ 16 < 2 ^ 31 ->
  length prevHeights = length (vin tx) -> Forall (fun c => 0 <= c <= BlockIndex.nHeight b) prevHeights ->
  0 < height -> IsCoinStake tx && (nIn =? 0)%nat = false -> CScriptNum vch false 5 = inr n ->
  let passes op := CScriptCheck (TransactionSignatureChecker mem Verify tx nIn amount cache) tx nIn (lock_script op vch rest) flags = Some true in
  (passes OP_CHECKLOCKTIMEVERIFY -> has flags SCRIPT_VERIFY_CHECKLOCKTIMEVERIFY = true -> IsFinalTx tx height time = true ->
     0 <= n < if n <? LOCKTIME_THRESHOLD then height else time) /\
  (passes OP_CHECKSEQUENCEVERIFY -> has flags SCRIPT_VERIFY_CHECKSEQUENCEVERIFY = true -> Z.testbit seqFlags 0 = true ->
     prevHeights !! nIn = Some coin -> (exists hs, SequenceLocks h tx seqFlags prevHeights block = Some (true, hs)) ->
     0 <= n /\ (Z.testbit n 31 = true \/ relative_lock_passed h block b now n coin)).
Proof.
  intros Hok Hb Hp Hn H0 Hh Hl Hf Hht Hcs Hnum passes. split.
  - intros (stk&r&E)%CScriptCheck_runs; [|done]. intros Hflag. apply (cltv_script flags vch n) in E as [Hpos E]; [|done|done].
    intros Hfin. split; [done|]. revert Hfin. apply CheckLockTime_true in E as (Hk&Hle&i&Hi&Hseq). unfold IsFinalTx.
    destruct (Z.eqb_spec (nLockTime tx) 0) as [E0|Hne].
    { intros _. rewrite E0 in *. destruct (Z.ltb_spec n LOCKTIME_THRESHOLD); [lia|]. change LOCKTIME_THRESHOLD with 500000000 in *. lia. }
    destruct (Z.ltb_spec (nLockTime tx) LOCKTIME_THRESHOLD), (Z.ltb_spec n LOCKTIME_THRESHOLD); try lia;
      (destruct (Z.ltb_spec (nLockTime tx) height), (Z.ltb_spec (nLockTime tx) time); try lia);
      rewrite forallb_forall; intros Hall; apply list_elem_of_lookup_2, list_elem_of_In, Hall, Z.eqb_eq in Hi; done.
  - intros (stk&r&E)%CScriptCheck_runs; [|done]. intros Hflag. apply (csv_script flags vch n) in E as [Hpos E]; [|done|done].
    intros Hfl Hcoin (hs&El). split; [done|]. destruct E as [Hbit|E]; [by left|right].
    apply CheckSequence_true in E as (Hv&i&Hi&H31&H22&Hle).
    destruct (SequenceLocks_ok h tx seqFlags prevHeights block prev b now) as (r'&hs'&E'&_&Hr); [done..|].
    rewrite El in E'. injection E' as <- <-. destruct (proj1 Hr eq_refl) as [Hlt|[Hb'|Hall]]; [unfold u32 in Hv; lia|congruence|].
    destruct (Forall2_lookup_lr _ _ _ _ _ _ Hall Hi Hcoin) as [Hd|Hm]; [congruence|]. unfold relative_lock_passed. rewrite <- H22.
    destruct (Z.testbit (nSequence i) 22); [|lia]. destruct Hm as (p&t&?&?&?). exists p, t. split_and!; [done|done|lia].
Qed.

(** * Spending conserves money *)

(** The outputs of coins and of what is stored of them *)
Lemma unspent_out_at cs i : out_at (c_vout cs) i = (unspent cs ≫= fun d => out_at (c_vout d) i).
Proof.
  unfold unspent. destruct (IsPruned cs) eqn:E; cbn [mbind option_bind]; [by apply pruned_out_at|].
  cbn [disk_coins c_vout]. unfold disk_vout. rewrite out_at_trim. unfold out_at. rewrite list_lookup_fmap.
  destruct (c_vout cs !! i) as [o|]; [|done]. cbn. rewrite null_null. by destruct (CTxOut_IsNull o).
Qed.

Section spend.
Context {V : Type} `{HV : CCoinsView V} (Q : CCoins -> Prop) `{HQ : !CoinInv Q} `{!CoinsViewSpec Q V} `{!CoinsViewSeen Q V}.
Abbreviation cache := (CCoinsViewCache V).
#[local] Abbreviation seen := (seen Q).
Implicit Types c : cache.

(** A view in order; reading changes nothing in what is seen. *)
Definition good c : Prop := view_ok Q c /\ seen_ok Q c.
Definition same_view (c c' : cache) : Prop := good c' /\ forall t, seen c' t = seen c t.

Lemma same_view_trans c1 c2 c3 : same_view c1 c2 -> same_view c2 c3 -> same_view c1 c3.
Proof. intros [_ H1] [H2 H3]. split; [done|]. intros t. by rewrite H3, H1. Qed.

(** The unspent output that an outpoint names, with the coins it belongs to *)
Definition coin_at c (out : COutPoint) : option (CTxOut * CCoins) :=
  cs ← seen c (hash out); o ← out_at (c_vout cs) (Z.to_nat (n out)); Some (o, cs).

Lemma coin_at_same c c' out : same_view c c' -> coin_at c' out = coin_at c out.
Proof. intros [_ H]. unfold coin_at. by rewrite H. Qed.

Lemma AccessCoins_spec c txid :
  good c -> let '(r, c') := AccessCoins txid c in same_view c c' /\ (r ≫= live) = seen c txid.
Proof.
  intros [Hok Hs]. pose proof Hok as [Hm Hc]. unfold AccessCoins. pose proof (FetchCoins_spec Q c txid Hc) as H.
  pose proof (FetchCoins_seen Q c txid Hok Hs) as H2. destruct (FetchCoins txid c) as [r c'].
  destruct H as (_&Hc'&Hm'&_), H2 as (Hr&_&Hs'&Hv&_). split; [|done].
  split; [|done]. split; [|done]. split; [congruence|done].
Qed.

(** What [AccessCoins] finds of an outpoint *)
Lemma AccessCoins_coin c out :
  good c ->
  let '(r, c') := AccessCoins (hash out) c in same_view c c' /\
    match coin_at c out with
    | Some (o, cs) => r = Some cs /\ c_vout cs !! Z.to_nat (n out) = Some o /\ CTxOut_IsNull o = false
    | None => forall cs, r = Some cs -> IsAvailable cs (n out) = false
    end.
Proof.
  intros Hc. pose proof (AccessCoins_spec c (hash out) Hc) as H. destruct (AccessCoins (hash out) c) as [r c'].
  destruct H as [Hs Hr]. split; [done|]. unfold coin_at. rewrite <- Hr.
  destruct r as [cs|]; cbn [mbind option_bind]; [|by intros ? [=]]. unfold live. destruct (IsPruned cs) eqn:Ep; cbn [mbind option_bind].
  - intros ? [= <-]. rewrite pruned_out_at in Ep. specialize (Ep (Z.to_nat (n out))). unfold IsAvailable, out_at in *.
    destruct (c_vout cs !! Z.to_nat (n out)) as [o|]; [|done]. cbn [mbind option_bind] in Ep. by destruct (CTxOut_IsNull o).
  - unfold out_at. destruct (c_vout cs !! Z.to_nat (n out)) as [o|] eqn:Eo; cbn [mbind option_bind].
    + destruct (CTxOut_IsNull o) eqn:En; [|done]. intros ? [= <-]. unfold IsAvailable. by rewrite Eo, En.
    + intros ? [= <-]. unfold IsAvailable. by rewrite Eo.
Qed.

Lemma have_inputs_ok ins c :
  good c -> let '(r, c') := have_inputs_loop ins c in same_view c c' /\
    (r = true <-> Forall (fun i => is_Some (coin_at c (prevout i))) ins).
Proof.
  revert c. induction ins as [|i ins IH]; intros c Hc; cbn [have_inputs_loop]; [done|].
  pose proof (AccessCoins_coin c (prevout i) Hc) as H. destruct (AccessCoins _ c) as [r c']. destruct H as [Hs H].
  destruct (coin_at c (prevout i)) as [[o d]|] eqn:Ec.
  - destruct H as (->&El&En). unfold IsAvailable. rewrite El, En. cbn [negb].
    specialize (IH c' (proj1 Hs)). destruct (have_inputs_loop ins c') as [r c'']. destruct IH as [Hs' Hr].
    split; [by eapply same_view_trans|]. setoid_rewrite (coin_at_same c c' _ Hs) in Hr.
    rewrite Forall_cons, Ec, Hr. split; [done|tauto].
  - assert (~ is_Some (@None (CTxOut * CCoins))) by by intros [].
    destruct r as [cs|]; [rewrite (H cs eq_refl)|]; (split; [done|]); rewrite Forall_cons, Ec; (split; [done|tauto]).
Qed.

Context (D : Dividends) (testnet : bool) (nSpendHeight : Z).

(** The depth of a coinbase or a coin stake that may be spent; the code lets those through that
    are not below the new block. *)
Definition depth_ok (height : Z) : Prop :=
  testnet = true \/ nSpendHeight - height <= 0 \/ COINBASE_MATURITY <= nSpendHeight - height.

Lemma immature_iff cs : immature testnet cs nSpendHeight = true <-> (fCoinBase cs = true \/ fCoinStake cs = true) /\ ~ depth_ok (nHeight cs).
Proof.
  unfold immature, depth_ok. rewrite !andb_true_iff, orb_true_iff, negb_true_iff, Z.ltb_lt, Z.gtb_ltb, Z.ltb_lt.
  destruct testnet; intuition (lia || congruence).
Qed.

(** What a coin is worth, with its dividends, and that this can be computed and is far from the
    limits of the type *)
Definition worth (o : CTxOut) (cs : CCoins) : Z := default 0 (GetTotalWithDividend D (nValue o) (nHeight cs)).
Definition valued c (i : CTxIn) : Prop :=
  forall o cs, coin_at c (prevout i) = Some (o, cs) ->
    is_Some (GetTotalWithDividend D (nValue o) (nHeight cs)) /\ - 2 ^ 62 <= worth o cs <= 2 ^ 62.

(** An input that can be spent: its coin is there and worth an amount in range, and has the
    depth that is asked of coins with one of the two marks. *)
Definition spendable c (i : CTxIn) : Prop :=
  exists o cs, coin_at c (prevout i) = Some (o, cs) /\ MoneyRange (worth o cs) = true /\
    (fCoinBase cs = true \/ fCoinStake cs = true -> depth_ok (nHeight cs)).

Definition input_value c (i : CTxIn) : Z :=
  match coin_at c (prevout i) with Some (o, cs) => worth o cs | None => 0 end.
Definition value_in c (ins : list CTxIn) : Z := foldr (fun i s => input_value c i + s) 0 ins.

Lemma value_in_same c c' ins : same_view c c' -> value_in c' ins = value_in c ins.
Proof.
  intros Hs. induction ins as [|i ins IH]; [done|]. cbn [value_in foldr]. fold (value_in c' ins) (value_in c ins).
  unfold input_value. by rewrite (coin_at_same c c'), IH.
Qed.

Lemma spendable_same c c' ins : same_view c c' -> Forall (spendable c') ins <-> Forall (spendable c) ins.
Proof. intros Hs. rewrite !list.Forall_forall. unfold spendable. by setoid_rewrite (coin_at_same c c' _ Hs). Qed.

Lemma valued_same c c' ins : same_view c c' -> Forall (valued c) ins -> Forall (valued c') ins.
Proof. intros Hs. rewrite !list.Forall_forall. unfold valued. by setoid_rewrite (coin_at_same c c' _ Hs). Qed.

Lemma spendable_value c i : spendable c i -> 0 <= input_value c i <= MAX_MONEY.
Proof. intros (o&d&E&Hm&_). unfold input_value. rewrite E. by apply MoneyRange_iff. Qed.

Lemma value_in_nonneg c ins : Forall (spendable c) ins -> 0 <= value_in c ins.
Proof.
  induction 1 as [|i ins Hi _ IH]; cbn [value_in foldr]; [lia|]. fold (value_in c ins).
  apply spendable_value in Hi. lia.
Qed.

Lemma check_inputs_ok ins v c :
  good c -> 0 <= v <= MAX_MONEY -> Forall (fun i => is_Some (coin_at c (prevout i))) ins -> Forall (valued c) ins ->
  exists r c', check_inputs D testnet ins nSpendHeight v c = Some (r, c') /\ same_view c c' /\
    (forall total, r = inr total -> Forall (spendable c) ins /\ total = v + value_in c ins /\ total <= MAX_MONEY) /\
    (Forall (spendable c) ins -> v + value_in c ins <= MAX_MONEY -> r = inr (v + value_in c ins)).
Proof.
  revert v c. induction ins as [|i ins IH]; intros v c Hc Hv Hins Hval; cbn [check_inputs].
  { eexists _, _. split; [done|]. split; [done|]. cbn. rewrite Z.add_0_r. split; [|done].
    intros total [= <-]. split; [constructor|]. split; [lia|lia]. }
  apply Forall_cons_1 in Hins as [Hi Hins]. apply Forall_cons_1 in Hval as [Hvi Hval].
  pose proof (AccessCoins_coin c (prevout i) Hc) as H. destruct (AccessCoins _ c) as [r c1]. destruct H as [Hs H].
  cbn [value_in foldr]. fold (value_in c ins). unfold valued in Hvi.
  destruct (coin_at c (prevout i)) as [[o cs]|] eqn:Eo; [|by destruct Hi].
  destruct H as (->&El&_). cbn [mbind option_bind]. destruct (Hvi o cs eq_refl) as [[a Ea] Ha]. clear Hvi.
  assert (input_value c i = worth o cs) as Ei by (unfold input_value; by rewrite Eo).
  destruct (immature testnet cs nSpendHeight) eqn:Em.
  { apply immature_iff in Em as [Hmark Em]. eexists _, _. split; [done|]. split; [done|]. split; [done|].
    intros [(o'&d'&E&_&Hd) _]%Forall_cons_1 _. rewrite Eo in E. injection E as <- <-. destruct Em. by apply Hd. }
  unfold GetAvailableAmount. rewrite El. cbn [mbind option_bind]. rewrite Ea. cbn [mbind option_bind].
  assert (a = input_value c i) as -> by (rewrite Ei; unfold worth; by rewrite Ea). rewrite <- Ei in Ha. set (a := input_value c i) in *.
  assert (int64_range (v + a) = true) as ->.
  { unfold int64_range, INT64_MIN, INT64_MAX. unfold MAX_MONEY, COIN in Hv. apply andb_true_iff. rewrite !Z.leb_le. lia. }
  cbn [negb]. destruct (MoneyRange a && MoneyRange (v + a)) eqn:Er.
  - apply andb_true_iff in Er as [Eam Eva]. rewrite Eam, Eva. cbn [negb orb].
    destruct (IH (v + a) c1 (proj1 Hs) (proj1 (MoneyRange_iff _) Eva)) as (r&c2&->&Hs2&Ht&Hf).
    { eapply Forall_impl; [exact Hins|]. intros j. by rewrite (coin_at_same c c1). }
    { by eapply valued_same. }
    rewrite (value_in_same c c1 _ Hs), <- Z.add_assoc in Ht, Hf. setoid_rewrite (spendable_same c c1 _ Hs) in Ht.
    setoid_rewrite (spendable_same c c1 _ Hs) in Hf.
    eexists _, _. split; [done|]. split; [by eapply same_view_trans|]. split.
    + intros total E. destruct (Ht total E) as (Hall&Etot&Hle). split; [|done]. apply Forall_cons_2; [|done].
      exists o, cs. rewrite <- Ei. split_and!; [done|done|]. intros Hmark.
      destruct (decide (depth_ok (nHeight cs))) as [|Hnd]; [done|]. rewrite (proj2 (immature_iff cs)) in Em; [done|auto].
    + intros [_ Hall]%Forall_cons_1 Hle. by apply Hf.
  - rewrite <- negb_andb, Er. cbn [negb]. eexists _, _. split; [done|]. split; [done|]. split; [done|].
    intros [Hsp Hall]%Forall_cons_1 Hle. apply value_in_nonneg in Hall as Hnn. apply spendable_value in Hsp. fold a in Hsp.
    rewrite !(proj2 (MoneyRange_iff _)) in Er by lia. done.
Qed.
End spend.

(** C19: Spending conserves money. For a valid transaction that is not a coinbase,
    [CheckTxInputs] returns without undefined behaviour or exception and leaves what the view
    shows as it is. It accepts exactly when every input names an unspent output that is worth an
    amount in range (with its dividends) and that, if its coins are marked as of a coinbase or a
    coin stake, is at least 50 blocks deep, or not below the new block, or on the test network; the
    inputs together are in the range of money; and, unless the transaction is a coin stake, the
    outputs together are worth no more than the inputs. What the spent coins are worth must be
    computable and within 2^62. *)
Theorem spending_conserves_money {V : Type} `{HV : CCoinsView V} (Q : CCoins -> Prop) `{HQ : !CoinInv Q} `{!CoinsViewSpec Q V}
    `{!CoinsViewSeen Q V} (D : Dividends) (testnet : bool) (tx : CTransaction) (st : CValidationState)
    (c : CCoinsViewCache V) (nSpendHeight : Z) :
  good Q c -> Forall (valued Q D c) (vin tx) -> tx_valid tx -> IsCoinBase tx = false ->
  exists b st' c',
    CheckTxInputs D testnet tx st c nSpendHeight = Some (Some (b, st', c')) /\ same_view Q c c' /\
    (b = true <->
       Forall (spendable Q D testnet nSpendHeight c) (vin tx) /\ value_in Q D c (vin tx) <= MAX_MONEY /\
       (IsCoinStake tx = false -> sum_values (vout tx) <= value_in Q D c (vin tx))) /\
    (b = true -> st' = st).
Proof.
  intros Hc Hval Hv Hcb. unfold CheckTxInputs, HaveInputs. rewrite Hcb. cbn [negb].
  pose proof (have_inputs_ok Q (vin tx) c Hc) as H. destruct (have_inputs_loop (vin tx) c) as [have c1]. destruct H as [Hs1 Hhave].
  destruct have; cbn [negb].
  2: { eexists _, _, _. split; [done|]. split; [done|]. split; [|done]. split; [done|]. intros (Hall&_). apply Hhave.
       eapply Forall_impl; [exact Hall|]. intros i (o&d&->&_). by eexists. }
  destruct (check_inputs_ok Q D testnet nSpendHeight (vin tx) 0 c1 (proj1 Hs1)) as (r&c2&->&Hs2&Ht&Hf).
  { unfold MAX_MONEY, COIN. lia. }
  { eapply Forall_impl; [by apply Hhave|]. intros i. by rewrite (coin_at_same Q c c1). }
  { by eapply valued_same. }
  setoid_rewrite (value_in_same Q D c c1 _ Hs1) in Ht. rewrite (value_in_same Q D c c1 _ Hs1) in Hf.
  setoid_rewrite (spendable_same Q _ _ _ c c1 _ Hs1) in Ht. setoid_rewrite (spendable_same Q _ _ _ c c1 _ Hs1) in Hf.
  rewrite Z.add_0_l in Hf. cbn [mbind option_bind]. pose proof (same_view_trans Q _ _ _ Hs1 Hs2) as Hs.
  destruct r as [x|total].
  { eexists _, _, _. split; [done|]. split; [done|]. split; [|done]. split; [done|]. intros (H1&H2&_). by specialize (Hf H1 H2). }
  destruct (Ht total eq_refl) as (Hall&Etot&Hle). change (total = value_in Q D c (vin tx)) in Etot. subst total.
  unfold check_fee. rewrite Hcb, (GetValueOut_valid tx Hv). cbn [negb andb].
  destruct (IsCoinStake tx) eqn:Est; cbn [negb]; [by eexists _, _, _; split|]. cbn [mbind option_bind].
  pose proof (outputs_valid_nonneg _ _ _ (valid_outputs _ Hv)) as Hnn.
  destruct (Z.ltb_spec (value_in Q D c (vin tx)) (sum_values (vout tx))) as [Hlt|Hge].
  { eexists _, _, _. split; [done|]. split; [done|]. split; [|done]. split; [done|]. intros (_&_&H). specialize (H eq_refl). lia. }
  rewrite (proj2 (Z.ltb_ge _ 0)) by lia. rewrite (proj2 (MoneyRange_iff _)) by lia. by eexists _, _, _; split.
Qed.

(** * Counting signature operations *)

Lemma last_push_loop_total fuel pc data : (length pc <= fuel)%nat -> is_Some (last_push_loop fuel pc data).
Proof.
  revert pc data. induction fuel as [|fuel IH]; intros [|b pc] data Hf; [by eexists|cbn in Hf; lia|by eexists|].
  cbn [last_push_loop]. destruct (GetOp (b :: pc)) as [[[op vch] pc']|] eqn:E; [|by eexists].
  apply GetOp_shorter in E. destruct (op >? OP_16); [by eexists|]. apply IH. cbn in Hf, E. lia.
Qed.

Lemma GetSigOpCount_P2SH_total s sig : is_Some (GetSigOpCount_P2SH s sig).
Proof.
  unfold GetSigOpCount_P2SH. destruct (negb _); [apply GetSigOpCount_total|].
  destruct (last_push_loop_total (length sig) sig [] (le_n _)) as [[data|] ->]; cbn [mbind option_bind];
    [apply GetSigOpCount_total|by eexists].
Qed.

Lemma operand_size_shorter op pc : (length (operand_size op pc).2 <= length pc)%nat.
Proof.
  unfold operand_size. repeat (destruct (_ <? _) || destruct (_ =? _)); cbn [snd]; rewrite ?length_drop; lia.
Qed.

Lemma GetOp2_shorter b pc : (length (GetOp2 (b :: pc)).2 <= length pc)%nat.
Proof.
  unfold GetOp2. pose proof (operand_size_shorter b pc) as Hs. destruct (b <=? OP_PUSHDATA4); [|done].
  destruct (operand_size b pc) as [[nSize|] pc0]; [|done]. destruct (_ <? _); [done|]. cbn [snd] in *. rewrite length_drop. lia.
Qed.

Lemma last_operand_total fuel pc data : (length pc <= fuel)%nat -> is_Some (last_operand fuel pc data).
Proof.
  revert pc data. induction fuel as [|fuel IH]; intros [|b pc] data Hf; [by eexists|cbn in Hf; lia|by eexists|].
  cbn [last_operand]. pose proof (GetOp2_shorter b pc) as Hs. cbn [length] in Hf.
  destruct (GetOp2 (b :: pc)) as [[[op d]|] pc']; cbn [snd] in Hs; apply IH; lia.
Qed.

Lemma WitnessSigOps_total ver prog wit : is_Some (WitnessSigOps ver prog wit).
Proof.
  unfold WitnessSigOps. destruct (ver =? 0); [|by eexists]. destruct (vsize prog =? 20); [by eexists|].
  destruct (vsize prog =? 32); [|by eexists]. destruct (rev wit); [by eexists|apply GetSigOpCount_total].
Qed.

Lemma CountWitnessSigOps_total sig s wit flags :
  (has flags SCRIPT_VERIFY_WITNESS = true -> has flags SCRIPT_VERIFY_P2SH = true) ->
  is_Some (CountWitnessSigOps sig s wit flags).
Proof.
  intros Hf. unfold CountWitnessSigOps. destruct (has flags SCRIPT_VERIFY_WITNESS); cbn [negb]; [|by eexists].
  rewrite Hf by done. cbn [negb]. destruct (IsWitnessProgram s) as [[ver prog]|]; [apply WitnessSigOps_total|].
  destruct (IsPayToScriptHash s); cbn [mbind option_bind]; [|by eexists].
  destruct (IsPushOnly_total sig) as [[] ->]; cbn [mbind option_bind]; [|by eexists].
  destruct (last_operand_total (length sig) sig [] (le_n _)) as [sub ->]. cbn [mbind option_bind].
  destruct (IsWitnessProgram sub) as [[ver prog]|]; [apply WitnessSigOps_total|by eexists].
Qed.

Lemma sum_sigops_total l : Forall is_Some l -> is_Some (sum_sigops l).
Proof.
  unfold sum_sigops. intros Hl. assert (is_Some (Some 0)) as Hacc by by eexists. revert Hacc. generalize (Some 0) as acc.
  induction Hl as [|x l [k ->] Hl IH]; intros acc Hacc; [done|]. cbn [foldl]. apply IH. destruct Hacc as [a ->]. by eexists.
Qed.

Lemma GetLegacySigOpCount_total tx : is_Some (GetLegacySigOpCount tx).
Proof.
  apply sum_sigops_total, Forall_app. split; apply Forall_map, list.Forall_forall; intros x _; apply GetSigOpCount_total.
Qed.

Section sigops.
Context {V : Type} `{HV : CCoinsView V} (Q : CCoins -> Prop) `{HQ : !CoinInv Q} `{!CoinsViewSpec Q V} `{!CoinsViewSeen Q V}.
Implicit Types c : CCoinsViewCache V.

Lemma GetOutputFor_ok c i :
  good Q c -> is_Some (coin_at Q c (prevout i)) ->
  exists o c', GetOutputFor i c = (Some o, c') /\ same_view Q c c'.
Proof.
  intros Hc [[o d] Ec]. unfold GetOutputFor. pose proof (AccessCoins_coin Q c (prevout i) Hc) as H.
  destruct (AccessCoins _ c) as [r c']. rewrite Ec in H. destruct H as (Hs&->&El&En). exists o, c'. split; [|done].
  cbn [mbind option_bind]. unfold IsAvailable. by rewrite El, En.
Qed.

Lemma coins_there_same c c' ins :
  same_view Q c c' -> Forall (fun i => is_Some (coin_at Q c (prevout i))) ins ->
  Forall (fun i => is_Some (coin_at Q c' (prevout i))) ins.
Proof. intros Hs H. eapply Forall_impl; [exact H|]. intros i. by rewrite (coin_at_same Q c c'). Qed.

Lemma p2sh_sigops_ok ins k c :
  good Q c -> Forall (fun i => is_Some (coin_at Q c (prevout i))) ins ->
  exists m c', p2sh_sigops ins k c = Some (m, c') /\ same_view Q c c'.
Proof.
  revert k c. induction ins as [|i ins IH]; intros k c Hc Hi; cbn [p2sh_sigops]; [by eexists _, _|].
  apply Forall_cons_1 in Hi as [Hi Hins]. destruct (GetOutputFor_ok c i Hc Hi) as (o&c1&->&Hs). cbn [mbind option_bind].
  assert (is_Some (if IsPayToScriptHash (scriptPubKey o) then GetSigOpCount_P2SH (scriptPubKey o) (scriptSig i) else Some 0)) as [m ->]
    by (destruct (IsPayToScriptHash _); [apply GetSigOpCount_P2SH_total|by eexists]). cbn [mbind option_bind].
  destruct (IH (u32 (k + m)) c1 (proj1 Hs) (coins_there_same c c1 ins Hs Hins)) as (m'&c2&->&Hs2).
  eexists _, _. split; [done|]. by eapply same_view_trans.
Qed.

Lemma witness_sigops_ok ins wit flags k c :
  (has flags SCRIPT_VERIFY_WITNESS = true -> has flags SCRIPT_VERIFY_P2SH = true) ->
  good Q c -> Forall (fun i => is_Some (coin_at Q c (prevout i))) ins ->
  exists m c', witness_sigops ins wit flags k c = Some (m, c') /\ same_view Q c c'.
Proof.
  intros Hf. revert wit k c. induction ins as [|i ins IH]; intros wit k c Hc Hi; cbn [witness_sigops]; [by eexists _, _|].
  apply Forall_cons_1 in Hi as [Hi Hins]. destruct (GetOutputFor_ok c i Hc Hi) as (o&c1&->&Hs). cbn [mbind option_bind].
  destruct (CountWitnessSigOps_total (scriptSig i) (scriptPubKey o) (head wit) flags Hf) as [m ->]. cbn [mbind option_bind].
  destruct (IH (tail wit) (k + m) c1 (proj1 Hs) (coins_there_same c c1 ins Hs Hins)) as (m'&c2&->&Hs2).
  eexists _, _. split; [done|]. by eapply same_view_trans.
Qed.

(** The cost of a transaction whose inputs are there is computed under all consistent flags: no
    assertion fails, and the contents of the view stay as they are. *)
Lemma sigop_cost_total tx flags c :
  (has flags SCRIPT_VERIFY_WITNESS = true -> has flags SCRIPT_VERIFY_P2SH = true) ->
  good Q c -> (IsCoinBase tx = false -> Forall (fun i => is_Some (coin_at Q c (prevout i))) (vin tx)) ->
  exists cost c', GetTransactionSigOpCost tx c flags = Some (cost, c') /\ same_view Q c c'.
Proof.
  intros Hf Hc Hi. unfold GetTransactionSigOpCost, GetP2SHSigOpCount. destruct (GetLegacySigOpCount_total tx) as [k ->].
  cbn [mbind option_bind]. destruct (IsCoinBase tx); [by eexists _, _|]. specialize (Hi eq_refl).
  destruct (has flags SCRIPT_VERIFY_P2SH) eqn:Ep.
  - destruct (p2sh_sigops_ok (vin tx) 0 c Hc Hi) as (m&c1&->&Hs). cbn [mbind option_bind].
    destruct (witness_sigops_ok (vin tx) (wit tx) flags (u32 (k * WITNESS_SCALE_FACTOR) + u32 (m * WITNESS_SCALE_FACTOR)) c1
      (fun _ => Ep) (proj1 Hs) (coins_there_same c c1 _ Hs Hi)) as (m'&c2&->&Hs2).
    eexists _, _. split; [done|]. by eapply same_view_trans.
  - cbn [mbind option_bind]. apply witness_sigops_ok; [|done|done]. intros Hw. rewrite Ep. by apply Hf.
Qed.
End sigops.

(** * Examples *)

Lemma check_transaction_iff_witness :
  exists b st', CheckTransaction toy_spend new_CValidationState = Some (b, st') /\ b = true /\ GetValueOut toy_spend = Some (Some 5).
Proof.
  destruct (check_transaction_iff toy_spend new_CValidationState) as (b&st'&E&_&Hv&_); [by apply Nat.leb_le|].
  assert (b = true) as Hb by (vm_compute in E; by injection E as <- _).
  exists b, st'. split; [done|]. split; [done|]. by apply Hv.
Defined.

(** A coin of height 4 with a lock of two blocks, spent in the block of height 6 *)
Definition locked_tx (k : Z) : CTransaction :=
  {| nVersion := 2; nTime := 3; vin := [{| prevout := {| hash := [1]; n := 0 |}; scriptSig := []; nSequence := k |}];
     vout := [toy_out 4]; wit := []; nLockTime := 0; strDZeel := [] |}.

Lemma sequence_locks_bip68_witness :
  exists r hs, SequenceLocks (st_heap BlockIndex.Sample.index) (locked_tx 2) 1 [4] 7%positive = Some (r, hs) /\ r = true /\
    exists r' hs', SequenceLocks (st_heap BlockIndex.Sample.index) (locked_tx 3) 1 [4] 7%positive = Some (r', hs') /\ r' = false.
Proof.
  assert (forall k, exists r hs, SequenceLocks (st_heap BlockIndex.Sample.index) (locked_tx k) 1 [4] 7%positive = Some (r, hs) /\
    (r = true <-> bip68_met (st_heap BlockIndex.Sample.index) 7%positive (BlockIndex.Sample.block 7) 1003
       {| prevout := {| hash := [1]; n := 0 |}; scriptSig := []; nSequence := k |} 4)) as Hall.
  { intros k. destruct (sequence_locks_bip68 (st_heap BlockIndex.Sample.index) (locked_tx k) 1 [4] 7%positive 6%positive
      (BlockIndex.Sample.block 7) 1003) as (r&hs&E&_&Hr);
      [exact (ok_index _ BlockIndex.sample_ok)|by vm_compute|by vm_compute|by vm_compute|lia|by vm_compute|done|apply Forall_singleton; by vm_compute|].
    - exists r, hs. split; [done|]. rewrite Hr. split.
      + intros [H|[H|H]]; [by vm_compute in H|done|]. by apply Forall2_cons_1 in H as [? _].
      + intros H. right; right. apply Forall2_cons. by split. }
  destruct (Hall 2) as (r&hs&E&Hr), (Hall 3) as (r'&hs'&E'&Hr'). exists r, hs. split; [done|]. split.
  - apply Hr. right. by vm_compute.
  - exists r', hs'. split; [done|]. vm_compute in E'. by injection E' as <- _.
Defined.

Definition both_locks : CTransaction :=
  {| nVersion := 2; nTime := 3; vin := [{| prevout := {| hash := [1]; n := 0 |}; scriptSig := []; nSequence := 2 |}];
     vout := [toy_out 4]; wit := []; nLockTime := 5; strDZeel := [] |}.

Lemma script_locks_bind_block_witness :
  0 <= 2 < 6 /\ relative_lock_passed (st_heap BlockIndex.Sample.index) 7%positive (BlockIndex.Sample.block 7) 1003 2 4.
Proof.
  destruct (@script_locks_bind_block toy_crypto (replicate 64 0) (fun _ _ _ => false) (st_heap BlockIndex.Sample.index) both_locks 0 0 None
    [2] 2 [] (SCRIPT_VERIFY_CHECKLOCKTIMEVERIFY .| SCRIPT_VERIFY_CHECKSEQUENCEVERIFY) 1 6 0 [4] 7%positive 6%positive
    (BlockIndex.Sample.block 7) 1003 4) as [H1 H2];
    [exact (ok_index _ BlockIndex.sample_ok)|by vm_compute|by vm_compute|by vm_compute|lia|by vm_compute|done|
     apply Forall_singleton; by vm_compute|lia|reflexivity|reflexivity|].
  split.
  - exact (H1 eq_refl eq_refl eq_refl).
  - destruct (H2 eq_refl eq_refl eq_refl eq_refl) as [_ [Hbit|H]]; [eexists; vm_compute; reflexivity|discriminate Hbit|exact H].
Defined.

(** A coin of the view, with a dividend that is rounded away *)
Lemma spending_conserves_money_witness :
  exists b st' c', CheckTxInputs SampleLedger.one false toy_spend new_CValidationState toy_view 60 = Some (Some (b, st', c')) /\
    b = true /\ sum_values (vout toy_spend) <= value_in clean SampleLedger.one toy_view (vin toy_spend).
Proof.
  assert (good clean toy_view) as Hok.
  { split.
    - split; [done|]. split; [|intros t e; cbn; by rewrite lookup_empty]. intros t cs. cbn.
      rewrite lookup_singleton_Some. intros [_ <-]. split; [by apply Forall_singleton|done].
    - split; [|intros t e; cbn; by rewrite lookup_empty]. intros t cs. cbn. rewrite lookup_singleton_Some. by intros [_ <-]. }
  destruct (check_transaction_ok toy_spend (le_S _ _ (le_n _))) as (r&E&Hr&_).
  destruct (spending_conserves_money clean SampleLedger.one false toy_spend new_CValidationState toy_view 60) as (b&st'&c'&E'&_&Hb&_).
  - done.
  - apply Forall_singleton. intros o cs Ho. vm_compute in Ho. injection Ho as <- <-. split; [vm_compute; by eexists|by vm_compute].
  - apply Hr. vm_compute in E. by injection E as <-.
  - done.
  - assert (b = true) as Hbt by (vm_compute in E'; by injection E' as <- _ _).
    exists b, st', c'. split; [done|]. split; [done|]. by apply Hb.
Defined.
