(* ===== verification/Stake.v ===== *)
(** Proof of stake ([src/src/main.cpp] from [GetWeight] to [CheckKernel], [uint256.h]): the
    stake modifier, which is drawn from blocks that are selected among the recent ones, and the
    kernel, the hash that a coin must beat for its owner to make a block. *)

From stdpp Require Import gmap sorting.
From S2P Require Import Prelude SphTypes ArithUint256 BlockIndex BigNum Pow Hasher Hash.
From S2P Require Import Serialize Codec Script Interpreter Transaction SigHash Coins.

#[local] Open Scope Z_scope.
#[local] Open Scope c_scope.

(** ** Order of hashes *)

(** [operator<] of [base_blob]: the bytes below index [i], from the last to the first *)
Fixpoint blob_lt_from (a b : uint256) (i : nat) : bool :=
  match i with
  | O => false
  | S i => if a !!! i <? b !!! i then true else if a !!! i >? b !!! i then false else blob_lt_from a b i
  end.
Definition blob_lt (a b : uint256) : bool := blob_lt_from a b 32.

(** ** The stake modifier *)

(** The parameters of [Consensus::Params] that are read here *)
Record StakeParams := mkStakeParams { nStakeMinAge : Z; nModifierInterval : Z }.

Definition MODIFIER_INTERVAL_RATIO : Z := 3.
Definition STAKE_TIMESTAMP_MASK : Z := 15.

Definition GetWeight (params : StakeParams) (nIntervalBeginning nIntervalEnd : Z) : option Z :=
  d ← int64 (nIntervalEnd - nIntervalBeginning); int64 (d - nStakeMinAge params).

(** The loop of [GetLastStakeModifier]; the height of the block is enough fuel. *)
Fixpoint last_generated (fuel : nat) (h : heap) (pindex : ptr) : option ptr :=
  b ← h !! pindex;
  match BlockIndex.pprev b with
  | Some q =>
    if negb (GeneratedStakeModifier b) then
      match fuel with
      | O => None
      | S fuel => last_generated fuel h q
      end
    else Some pindex
  | None => Some pindex
  end.

(** [GetLastStakeModifier]: the modifier and its time; the inner [None] is the error. *)
Definition GetLastStakeModifier (h : heap) (pindex : option ptr) : option (option (Z * Z)) :=
  match pindex with
  | None => Some None
  | Some p =>
    b ← h !! p;
    q ← last_generated (Z.to_nat (BlockIndex.nHeight b)) h p;
    c ← h !! q;
    Some (Some (if negb (GeneratedStakeModifier c) then 1 else nStakeModifier c, GetBlockTime c))
  end.

(** [nModifierInterval] is an [unsigned int], and so is the quotient. *)
Definition GetStakeModifierSelectionIntervalSection (params : StakeParams) (nSection : Z) : option Z :=
  if (nSection >=? 0) && (nSection <? 64) then
    Some (u32 (nModifierInterval params * 63) / (63 + ((63 - nSection) * (MODIFIER_INTERVAL_RATIO - 1))))
  else None.

Definition sum_sections (params : StakeParams) (sections : list nat) : option Z :=
  foldl (fun acc nSection => a ← acc; s ← GetStakeModifierSelectionIntervalSection params (Z.of_nat nSection); Some (a + s))
    (Some 0) sections.
Definition GetStakeModifierSelectionInterval (params : StakeParams) : option Z := sum_sections params (seq 0 64).

(** [operator<] of pairs of a time and a hash, and the relation that sorting uses *)
Definition item_lt (a b : Z * uint256) : bool :=
  (a.1 <? b.1) || (negb (b.1 <? a.1) && blob_lt a.2 b.2).
Definition item_le (a b : Z * uint256) : Prop := item_lt b a = false.
#[export] Instance item_le_dec : RelDecision item_le.
Proof. intros a b. unfold item_le. apply _. Defined.

(** The first loop of [ComputeNextStakeModifier]: the blocks from [pindex] back to the start of
    the interval, in this order *)
Fixpoint candidates (fuel : nat) (h : heap) (pindex : option ptr) (nSelectionIntervalStart : Z) : option (list (Z * uint256)) :=
  match pindex with
  | None => Some []
  | Some p =>
    b ← h !! p;
    if GetBlockTime b >=? nSelectionIntervalStart then
      hash ← phashBlock b;
      match fuel with
      | O => None
      | S fuel => rest ← candidates fuel h (BlockIndex.pprev b) nSelectionIntervalStart; Some ((GetBlockTime b, hash) :: rest)
      end
    else Some []
  end.

Section modifier.
(** The memory of the hash objects, the objects and the map of the index *)
Context (mem : list Z) (h : heap) (mapBlockIndex : gmap uint256 ptr).

(** [Hash] of the proof and the previous modifier, divided by 2^32 for proof of stake *)
Definition hashSelection (b : CBlockIndex) (nStakeModifierPrev : Z) : option uint256 :=
  hash ← Hash1 mem (ArithToUint256 (hashProof b) ++ ser_writedata64 nStakeModifierPrev);
  Some (if IsProofOfStake b then ArithToUint256 (op_shr (UintToArith256 hash) 32) else hash).

(** The loop of [SelectBlockFromCandidates] with [hashBest] and [*pindexSelected], once
    [fSelected] is set; the result is [fSelected], or [false] for an unknown block. *)
Fixpoint select_loop (mapSelectedBlocks : gmap uint256 ptr) (nSelectionIntervalStop nStakeModifierPrev : Z)
    (vSortedByTimestamp : list (Z * uint256)) (best : option (uint256 * ptr)) : option (bool * option ptr) :=
  match vSortedByTimestamp with
  | [] => Some (bool_decide (is_Some best), snd <$> best)
  | item :: rest =>
    match mapBlockIndex !! item.2 with
    | None => Some (false, snd <$> best)
    | Some pindex =>
      b ← h !! pindex;
      if bool_decide (is_Some best) && (GetBlockTime b >? nSelectionIntervalStop) then Some (true, snd <$> best)
      else
        hash ← phashBlock b;
        match mapSelectedBlocks !! hash with
        | Some _ => select_loop mapSelectedBlocks nSelectionIntervalStop nStakeModifierPrev rest best
        | None =>
          s ← hashSelection b nStakeModifierPrev;
          let best := match best with
                      | Some (hashBest, p) => if blob_lt s hashBest then Some (s, pindex) else Some (hashBest, p)
                      | None => Some (s, pindex)
                      end in
          select_loop mapSelectedBlocks nSelectionIntervalStop nStakeModifierPrev rest best
        end
    end
  end.

Definition SelectBlockFromCandidates (vSortedByTimestamp : list (Z * uint256)) (mapSelectedBlocks : gmap uint256 ptr)
    (nSelectionIntervalStop nStakeModifierPrev : Z) : option (bool * option ptr) :=
  select_loop mapSelectedBlocks nSelectionIntervalStop nStakeModifierPrev vSortedByTimestamp None.

Context (params : StakeParams).

(** The rounds [nRound], [nRound + 1], ...; the inner [None] is the error. *)
Fixpoint modifier_rounds (rounds : list nat) (vSortedByTimestamp : list (Z * uint256)) (nStakeModifierPrev : Z)
    (mapSelectedBlocks : gmap uint256 ptr) (nSelectionIntervalStop nStakeModifierNew : Z) : option (option Z) :=
  match rounds with
  | [] => Some (Some nStakeModifierNew)
  | nRound :: rounds =>
    section ← GetStakeModifierSelectionIntervalSection params (Z.of_nat nRound);
    let nSelectionIntervalStop := nSelectionIntervalStop + section in
    '(ok, pindex) ← SelectBlockFromCandidates vSortedByTimestamp mapSelectedBlocks nSelectionIntervalStop nStakeModifierPrev;
    if negb ok then Some None
    else
      p ← pindex;
      b ← h !! p;
      hash ← phashBlock b;
      modifier_rounds rounds vSortedByTimestamp nStakeModifierPrev (<[hash := p]> mapSelectedBlocks) nSelectionIntervalStop
        (nStakeModifierNew .| u64 (GetStakeEntropyBit b << Z.of_nat nRound))
  end.

(** [GetTargetSpacing] of main.h *)
Definition GetTargetSpacing (nHeight : Z) : Z := 30.

(** [reserve] of a vector of pairs of 40 bytes throws beyond the largest size of an object. *)
Definition reserve_pairs (size : Z) : option unit := if size <=? (2 ^ 63 - 1) / 40 then Some tt else None.

(** [ComputeNextStakeModifier]: the result, [nStakeModifier] and [fGeneratedStakeModifier] *)
Definition ComputeNextStakeModifier (pindexPrev : option ptr) : option (bool * Z * bool) :=
  match pindexPrev with
  | None => Some (false, 0, true)
  | Some p =>
    prev ← h !! p;
    last ← GetLastStakeModifier h pindexPrev;
    match last with
    | None => Some (false, 0, false)
    | Some (nStakeModifier, nModifierTime) =>
      let interval := nModifierInterval params in
      if interval =? 0 then None
      else if nModifierTime / interval >=? GetBlockTime prev / interval then Some (true, nStakeModifier, false)
      else if GetTargetSpacing (BlockIndex.nHeight prev) =? 0 then None
      else
        _ ← reserve_pairs (u32 (64 * interval) / GetTargetSpacing (BlockIndex.nHeight prev));
        nSelectionInterval ← GetStakeModifierSelectionInterval params;
        let nSelectionIntervalStart := GetBlockTime prev / interval * interval - nSelectionInterval in
        items ← candidates (S (Z.to_nat (BlockIndex.nHeight prev))) h pindexPrev nSelectionIntervalStart;
        let vSortedByTimestamp := merge_sort item_le (rev items) in
        let rounds := seq 0 (Nat.min 64 (length vSortedByTimestamp)) in
        r ← modifier_rounds rounds vSortedByTimestamp nStakeModifier ∅ nSelectionIntervalStart 0;
        Some (match r with Some nStakeModifierNew => (true, nStakeModifierNew, true) | None => (false, nStakeModifier, false) end)
    end
  end.
End modifier.

(** ** The kernel *)

Section kernel.
Context `{OpenSSL} (mem : list Z) (params : StakeParams).

(** What is hashed: the modifier, the time of the block of the coin, the time of its
    transaction, its outpoint, and the time of the new block *)
Definition kernel_bytes (nStakeModifier nTimeBlockFrom nTimeTxPrev : Z) (prevout : COutPoint) (nTimeTx : Z) : list Z :=
  ser_writedata64 nStakeModifier ++ ser_writedata32 nTimeBlockFrom ++ ser_writedata32 nTimeTxPrev ++
  Transaction.hash prevout ++ ser_writedata32 (n prevout) ++ ser_writedata32 nTimeTx.

(** [CheckStakeKernelHashV2]; [proof] is [hashProofOfStake] and [targetProofOfStake], which
    stay as they are where the function returns before it sets them. *)
Definition CheckStakeKernelHashV2 (pindexPrev : CBlockIndex) (nBits nTimeBlockFrom : Z) (txPrev : CTransaction)
    (prevout : COutPoint) (nTimeTx : Z) (proof : base_uint * base_uint) : option (bool * (base_uint * base_uint)) :=
  if nTimeTx <? Transaction.nTime txPrev then Some (false, proof)
  else if u32 (nTimeBlockFrom + nStakeMinAge params) >? nTimeTx then Some (false, proof)
  else
    o ← vout txPrev !! Z.to_nat (n prevout);
    bnTarget ← BN_mul (CBigNum_SetCompact nBits) (setint64 (nValue o));
    let targetProofOfStake := UintToArith256 (getuint256 bnTarget) in
    hash ← Hash1 mem (kernel_bytes (nStakeModifier pindexPrev) nTimeBlockFrom (Transaction.nTime txPrev) prevout nTimeTx);
    let hashProofOfStake := UintToArith256 hash in
    Some (negb (bn_gt (setuint256 (ArithToUint256 hashProofOfStake)) bnTarget), (hashProofOfStake, targetProofOfStake)).

Definition CheckStakeKernelHash (pindexPrev : CBlockIndex) (nBits : Z) (blockFrom : CBlockIndex) (txPrev : CTransaction)
    (prevout : COutPoint) (nTimeTx : Z) (proof : base_uint * base_uint) : option (bool * (base_uint * base_uint)) :=
  CheckStakeKernelHashV2 pindexPrev nBits (u32 (GetBlockTime blockFrom)) txPrev prevout nTimeTx proof.

Definition CheckCoinStakeTimestamp (nHeight nTimeBlock nTimeTx : Z) : bool :=
  if nHeight >? 0 then (nTimeBlock =? nTimeTx) && (nTimeTx .& STAKE_TIMESTAMP_MASK =? 0) else nTimeBlock =? nTimeTx.

(** [GetTransaction] with its fallback to the block files, and the index *)
Context (GetTransaction : uint256 -> option (CTransaction * uint256)) (h : heap) (mapBlockIndex : gmap uint256 ptr).

(** [CheckKernel] with the time it writes to [*pBlockTime]; the message that is returned when the wallet does not have the transaction
    is a pointer that is not null. *)
Definition CheckKernel (inWallet : uint256 -> bool) (pindexPrev : ptr) (nBits nTime : Z) (prevout : COutPoint)
    : option (bool * option Z) :=
  match GetTransaction (Transaction.hash prevout) with
  | None => Some (false, None)
  | Some (txPrev, hashBlock) =>
    match mapBlockIndex !! hashBlock with
    | None => Some (false, None)
    | Some p =>
      pblockindex ← h !! p;
      if GetBlockTime pblockindex + nStakeMinAge params >? nTime then Some (false, None)
      else if negb (inWallet (Transaction.hash prevout)) then Some (true, Some (GetBlockTime pblockindex))
      else
        prev ← h !! pindexPrev;
        '(ok, _) ← CheckStakeKernelHash prev nBits pblockindex txPrev prevout (u32 nTime) (zero_uint, zero_uint);
        Some (ok, Some (GetBlockTime pblockindex))
    end
  end.

(** [CheckProofOfStake] without a queue of checks, as it is called; [tip] is [pcoinsTip]. *)
Definition CheckProofOfStake `{crypto : ScriptCrypto} {V : Type} `{CCoinsView V} (checker : BaseSignatureChecker) (tip : V)
    (pindexPrev : ptr) (tx : CTransaction) (nBits : Z) (proof : base_uint * base_uint) (fCHeckSignature : bool)
    : option (bool * (base_uint * base_uint)) :=
  if negb (IsCoinStake tx) then Some (false, proof)
  else
    txin ← vin tx !! 0%nat;
    match GetTransaction (Transaction.hash (prevout txin)) with
    | None => Some (false, proof)
    | Some (txPrev, hashBlock) =>
      signed ← (if fCHeckSignature then
                  c ← (AccessCoins (Transaction.hash (prevout txin)) (new_cache tip)).1;
                  o ← c_vout c !! Z.to_nat (n (prevout txin));
                  CScriptCheck checker tx 0 (scriptPubKey o) SCRIPT_VERIFY_NONE
                else Some true);
      if negb signed then Some (false, proof)
      else
        match mapBlockIndex !! hashBlock with
        | None => Some (false, proof)
        | Some p =>
          pblockindex ← h !! p;
          txhash ← GetHash mem txPrev;
          if negb (bool_decide (Transaction.hash (prevout txin) = txhash)) then Some (false, proof)
          else
            prev ← h !! pindexPrev;
            CheckStakeKernelHash prev nBits pblockindex txPrev (prevout txin) (Transaction.nTime tx) proof
        end
    end.
End kernel.

(** * Selection of blocks *)

(** ** The order *)

Lemma blob_lt_asym a b i : blob_lt_from a b i = true -> blob_lt_from b a i = false.
Proof.
  induction i as [|i IH]; [done|]. cbn [blob_lt_from]. rewrite !Z.gtb_ltb.
  destruct (Z.ltb_spec (a !!! i) (b !!! i)), (Z.ltb_spec (b !!! i) (a !!! i)); try done; lia.
Qed.

Lemma blob_ge_trans a b c i :
  blob_lt_from b a i = false -> blob_lt_from c b i = false -> blob_lt_from c a i = false.
Proof.
  induction i as [|i IH]; [done|]. cbn [blob_lt_from]. rewrite !Z.gtb_ltb.
  destruct (Z.ltb_spec (b !!! i) (a !!! i)), (Z.ltb_spec (a !!! i) (b !!! i)), (Z.ltb_spec (c !!! i) (b !!! i)),
    (Z.ltb_spec (b !!! i) (c !!! i)), (Z.ltb_spec (c !!! i) (a !!! i)), (Z.ltb_spec (a !!! i) (c !!! i)); try done; try lia.
Qed.

Lemma item_le_iff a b : item_le a b <-> a.1 < b.1 \/ a.1 = b.1 /\ blob_lt b.2 a.2 = false.
Proof.
  unfold item_le, item_lt. rewrite orb_false_iff, andb_false_iff, negb_false_iff, Z.ltb_ge, Z.ltb_lt. intuition lia.
Qed.

#[export] Instance item_le_total : Total item_le.
Proof.
  intros a b. rewrite !item_le_iff. destruct (Z.lt_trichotomy a.1 b.1) as [?|[?|?]]; [tauto| |tauto].
  destruct (blob_lt b.2 a.2) eqn:E; [|auto]. apply blob_lt_asym in E. auto.
Qed.

#[export] Instance item_le_trans : Transitive item_le.
Proof.
  intros a b c. rewrite !item_le_iff. intros [?|[? H1]] [?|[? H2]]; try (left; lia).
  right. split; [lia|]. by apply (blob_ge_trans a.2 b.2 c.2 32).
Qed.

Lemma item_le_time a b : item_le a b -> a.1 <= b.1.
Proof. rewrite item_le_iff. lia. Qed.

(** The order of hashes is that of the numbers they stand for. *)
Lemma load_le_succ i l :
  Forall byte l -> (i < length l)%nat -> load_le (S i) l = load_le i l + 256 ^ Z.of_nat i * (l !!! i).
Proof.
  intros Hb [x Hx]%lookup_lt_is_Some_2. replace (S i) with (i + 1)%nat by lia. rewrite load_le_add, Z.shiftl_mul_pow2 by lia.
  pose proof (load_le_word_short i l Hb) as Hw. rewrite Z.lor_comm, lor_high by (done || lia).
  rewrite (list_lookup_total_correct _ _ _ Hx). apply take_drop_middle in Hx as Hl.
  assert (drop i l = x :: drop (S i) l) as -> by (by apply drop_S). cbn [load_le].
  rewrite Z.shiftl_0_l, Z.lor_0_r. replace (256 ^ Z.of_nat i) with (2 ^ (8 * Z.of_nat i)) by (rewrite Z.pow_mul_r by lia; done). lia.
Qed.

Lemma blob_lt_from_val a b i :
  Forall byte a -> Forall byte b -> (i <= length a)%nat -> (i <= length b)%nat ->
  blob_lt_from a b i = (load_le i a <? load_le i b).
Proof.
  intros Ha Hb. induction i as [|i IH]; intros H1 H2; [done|]. cbn [blob_lt_from]. rewrite Z.gtb_ltb, !load_le_succ, IH by (done || lia).
  pose proof (load_le_word_short i a Ha) as Wa. pose proof (load_le_word_short i b Hb) as Wb. unfold word in Wa, Wb.
  replace (2 ^ (8 * Z.of_nat i)) with (256 ^ Z.of_nat i) in * by (rewrite Z.pow_mul_r by lia; done).
  assert (0 < 256 ^ Z.of_nat i) by lia. set (B := 256 ^ Z.of_nat i) in *.
  destruct (Z.ltb_spec (a !!! i) (b !!! i)); [symmetry; apply Z.ltb_lt; nia|].
  destruct (Z.ltb_spec (b !!! i) (a !!! i)); [symmetry; apply Z.ltb_ge; nia|].
  replace (b !!! i) with (a !!! i) by lia.
  destruct (Z.ltb_spec (load_le i a) (load_le i b)); symmetry; [apply Z.ltb_lt|apply Z.ltb_ge]; lia.
Qed.

Lemma blob_lt_val a b : bytes_of_length 32 a -> bytes_of_length 32 b -> blob_lt a b = (load_le 32 a <? load_le 32 b).
Proof. intros [Ha La] [Hb Lb]. apply blob_lt_from_val; [done|done|lia|lia]. Qed.

(** ** One round *)

(** The fields that proof of stake reads are within their ranges. *)
Record stake_entry_ok (b : CBlockIndex) : Prop := {
  se_time : word 32 (BlockIndex.nTime b);
  se_proof : uint_ok (hashProof b);
  se_modifier : word 64 (nStakeModifier b) }.

(** The selection value of a block: the hash of its proof and of the previous modifier as a
    number, divided by 2^32 for a proof-of-stake block *)
Definition selection_value (prevModifier : Z) (b : CBlockIndex) : Z :=
  let v := load_le 32 (sha256d (store_le 32 (val (hashProof b)) ++ store_le 8 prevModifier)) in
  if IsProofOfStake b then v / 2 ^ 32 else v.

Lemma hashSelection_ok mem b m :
  length mem = 64%nat -> stake_entry_ok b ->
  exists s, hashSelection mem b m = Some s /\ bytes_of_length 32 s /\ load_le 32 s = selection_value m b.
Proof.
  intros Hm [_ Hp _]. unfold hashSelection, selection_value. destruct (ArithToUint256_spec _ Hp) as [-> _].
  set (bs := store_le 32 (val (hashProof b)) ++ ser_writedata64 m).
  rewrite (Hash1_ok mem bs Hm).
  2: { unfold bs, ser_writedata64. split; [apply Forall_app; split; apply store_le_bytes|]. rewrite length_app, !length_store_le. done. }
  cbn [mbind option_bind]. change (store_le 32 (val (hashProof b)) ++ store_le 8 m) with bs.
  destruct (sha256d_ok bs) as [Hb Hl]. destruct (IsProofOfStake b).
  2: { exists (sha256d bs). split; [reflexivity|]. split; [exact (conj Hb Hl)|reflexivity]. }
  destruct (UintToArith256_spec _ Hb Hl) as (Hu&_&Hv). destruct (op_shr_spec (UintToArith256 (sha256d bs)) 32 Hu ltac:(lia)) as [Hu' Hv'].
  destruct (ArithToUint256_spec _ Hu') as [-> _]. eexists. split; [reflexivity|]. split; [split; [apply store_le_bytes|apply length_store_le]|].
  rewrite load_le_store_le, Hv', Hv; [reflexivity|]. rewrite Hv', Hv. pose proof (load_le_word_short 32 _ Hb) as [H1 H2].
  split; [apply Z.div_pos; lia|]. change (8 * Z.of_nat 32) with 256 in *. apply Z.div_lt_upper_bound; lia.
Qed.

Section rounds.
Context (mem : list Z) (Hm : length mem = 64%nat) (h : heap) (mp : gmap uint256 ptr).
Context (Hmp : forall hash p, mp !! hash = Some p <-> exists b, h !! p = Some b /\ phashBlock b = Some hash).
Context (Hse : map_Forall (fun _ => stake_entry_ok) h).

(** An item of the list stands for a block of the index. *)
Definition stands_for (item : Z * uint256) (p : ptr) (b : CBlockIndex) : Prop :=
  mp !! item.2 = Some p /\ h !! p = Some b /\ phashBlock b = Some item.2 /\ GetBlockTime b = item.1.
Definition known (item : Z * uint256) : Prop := exists p b, stands_for item p b.

(** The value of an item, by its block *)
Definition item_value (m : Z) (item : Z * uint256) : Z :=
  match mp !! item.2 ≫= fun p => h !! p with Some b => selection_value m b | None => 0 end.

Lemma item_value_of m item p b : stands_for item p b -> item_value m item = selection_value m b.
Proof. intros (E1&E2&_). unfold item_value. rewrite E1. cbn. by rewrite E2. Qed.

(** Items that are not among those already chosen; the map holds the hashes of these *)
Definition open (chosen : list (Z * uint256)) (item : Z * uint256) : Prop := item.2 ∉ chosen.*2.
Definition covers (mapSelected : gmap uint256 ptr) (chosen : list (Z * uint256)) : Prop :=
  forall x, mapSelected !! x = None <-> x ∉ chosen.*2.

Lemma select_loop_some mapSelected chosen stop m items s hb pb ib bb :
  covers mapSelected chosen -> StronglySorted item_le items -> Forall known items ->
  stands_for ib pb bb -> bytes_of_length 32 s -> load_le 32 s = item_value m ib -> s = hb ->
  exists item p b, select_loop mem h mp mapSelected stop m items (Some (hb, pb)) = Some (true, Some p) /\ stands_for item p b /\
    (item = ib \/ item ∈ items /\ open chosen item /\ item.1 <= stop) /\
    item_value m item <= item_value m ib /\
    forall j, j ∈ items -> open chosen j -> j.1 <= stop -> item_value m item <= item_value m j.
Proof.
  intros Hcov Hs. revert s hb pb ib bb. induction Hs as [|x items _ IH Hx]; intros s hb pb ib bb Hk Hib Hsb Hv ->.
  { exists ib, pb, bb. cbn. split_and!; [done|done|by left|done|]. intros j Hj. by apply not_elem_of_nil in Hj. }
  apply list.Forall_cons in Hk as [(p&b&Hxp) Hk]. pose proof Hxp as (E1&E2&E3&E4). cbn [select_loop]. rewrite E1, E2. cbn [mbind option_bind].
  rewrite E3, E4. cbn [mbind option_bind]. rewrite (bool_decide_true (is_Some (Some _))) by done. rewrite Z.gtb_ltb. cbn [andb].
  destruct (Z.ltb_spec stop x.1) as [Hlt|Hle].
  { exists ib, pb, bb. split_and!; [done|done|by left|done|]. intros j Hj _ Hjs.
    apply elem_of_cons in Hj as [->|Hj]; [lia|]. rewrite list.Forall_forall in Hx. apply Hx, item_le_time in Hj. lia. }
  destruct (mapSelected !! x.2) as [q|] eqn:Ec.
  { destruct (IH hb hb pb ib bb Hk Hib Hsb Hv eq_refl) as (item&p'&b'&E&Hst&Hin&Hle'&Hall).
    exists item, p', b'. split_and!; [done|done| |done|].
    - destruct Hin as [->|(?&?&?)]; [by left|right]. split_and!; [by right|done|done].
    - intros j Hj Ho Hjs. apply elem_of_cons in Hj as [->|Hj]; [|by apply Hall]. apply Hcov in Ho. congruence. }
  assert (open chosen x) as Hxo by by apply Hcov.
  destruct (hashSelection_ok mem b m Hm (map_Forall_lookup_1 _ _ _ _ Hse E2)) as (t&->&Ht&Hvt). cbn [mbind option_bind].
  rewrite <- (item_value_of m x p b Hxp) in Hvt. rewrite blob_lt_val, Hvt, Hv by done.
  destruct (Z.ltb_spec (item_value m x) (item_value m ib)) as [Hlt|Hge].
  - destruct (IH t t p x b Hk Hxp Ht Hvt eq_refl) as (item&p'&b'&E&Hst&Hin&Hle'&Hall).
    exists item, p', b'. split_and!; [done|done| |lia|].
    + right. destruct Hin as [->|(?&?&?)]; [split_and!; [by left|done|done]|split_and!; [by right|done|done]].
    + intros j Hj Ho Hjs. apply elem_of_cons in Hj as [->|Hj]; [done|by apply Hall].
  - destruct (IH hb hb pb ib bb Hk Hib Hsb Hv eq_refl) as (item&p'&b'&E&Hst&Hin&Hle'&Hall).
    exists item, p', b'. split_and!; [done|done| |done|].
    + destruct Hin as [->|(?&?&?)]; [by left|right]. split_and!; [by right|done|done].
    + intros j Hj Ho Hjs. apply elem_of_cons in Hj as [->|Hj]; [lia|by apply Hall].
Qed.

(** What a round selects: among the open items within the round one of least value, or, when
    there is none, the first open item *)
Definition selects (chosen : list (Z * uint256)) (stop m : Z) (items : list (Z * uint256)) (item : Z * uint256) : Prop :=
  item ∈ items /\ open chosen item /\
  (item.1 <= stop /\ (forall j, j ∈ items -> open chosen j -> j.1 <= stop -> item_value m item <= item_value m j) \/
   stop < item.1 /\ forall j, j ∈ items -> open chosen j -> item_le item j).

Lemma SelectBlock_ok mapSelected chosen stop m items :
  covers mapSelected chosen -> StronglySorted item_le items -> Forall known items -> (exists j, j ∈ items /\ open chosen j) ->
  exists item p b, SelectBlockFromCandidates mem h mp items mapSelected stop m = Some (true, Some p) /\ stands_for item p b /\
    selects chosen stop m items item.
Proof.
  unfold SelectBlockFromCandidates. intros Hcov Hs. induction Hs as [|x items Hs IH Hx]; intros Hk (j&Hj&Ho).
  { by apply not_elem_of_nil in Hj. }
  apply list.Forall_cons in Hk as [(p&b&Hxp) Hk]. pose proof Hxp as (E1&E2&E3&E4). cbn [select_loop]. rewrite E1, E2. cbn [mbind option_bind].
  rewrite E3. cbn [mbind option_bind]. rewrite (bool_decide_false (is_Some None)) by apply is_Some_None. cbn [andb].
  destruct (mapSelected !! x.2) as [q|] eqn:Ec.
  { assert (forall k, k ∈ x :: items -> open chosen k -> k ∈ items) as Hrest.
    { intros k Hk' Hok. apply elem_of_cons in Hk' as [->|?]; [|done]. apply Hcov in Hok. congruence. }
    destruct IH as (item&p'&b'&E&Hst&Hin&Hop&Hcase); [done|exists j; auto|]. exists item, p', b'. split_and!; [done|done|].
    split; [by right|]. split; [done|]. destruct Hcase as [[? Hall]|[? Hall]]; [left|right]; (split; [done|]); auto. }
  destruct (hashSelection_ok mem b m Hm (map_Forall_lookup_1 _ _ _ _ Hse E2)) as (t&->&Ht&Hvt). cbn [mbind option_bind].
  rewrite <- (item_value_of m x p b Hxp) in Hvt. assert (open chosen x) as Hxo by by apply Hcov.
  destruct (select_loop_some mapSelected chosen stop m items t t p x b Hcov Hs Hk Hxp Ht Hvt eq_refl) as (item&p'&b'&E&Hst&Hin&Hle&Hall).
  exists item, p', b'. split_and!; [done|done|]. destruct Hin as [->|(Hin&Hop&Hit)].
  - split; [by left|]. split; [done|]. destruct (Z.le_gt_cases x.1 stop) as [Hle'|Hgt]; [left|right].
    + split; [done|]. intros k Hk' Hok Hks. apply elem_of_cons in Hk' as [->|?]; [done|by apply Hall].
    + split; [lia|]. intros k Hk' Hok. apply elem_of_cons in Hk' as [->|Hk']; [by apply item_le_iff; right; split; [|by destruct (blob_lt x.2 x.2) eqn:Eb; [apply blob_lt_asym in Eb as Eb'; unfold blob_lt in *; congruence|]]|].
      rewrite list.Forall_forall in Hx. by apply Hx.
  - split; [by right|]. split; [done|]. left. split; [done|]. intros k Hk' Hok Hks.
    apply elem_of_cons in Hk' as [->|?]; [done|by apply Hall].
Qed.

(** ** The rounds *)

Definition entropy (item : Z * uint256) : bool :=
  match mp !! item.2 ≫= fun p => h !! p with Some b => Z.testbit (nFlags b) 1 | None => false end.

Lemma entropy_bit b : GetStakeEntropyBit b = Z.b2z (Z.testbit (nFlags b) 1).
Proof.
  unfold GetStakeEntropyBit. change BLOCK_STAKE_ENTROPY with (2 ^ 1). apply Z.bits_inj'. intros j Hj.
  rewrite Z.shiftr_spec, Z.land_spec, Z.pow2_bits_eqb by lia. destruct (Z.eqb_spec 1 (j + 1)) as [E|E].
  - replace j with 0 by lia. rewrite andb_true_r. by rewrite Z.b2z_bit0.
  - rewrite andb_false_r. symmetry. destruct (Z.testbit (nFlags b) 1); [|apply Z.bits_0]. apply Z.bits_above_log2; cbn; lia.
Qed.

(** An item remains to be chosen as long as fewer than all are. *)
Lemma some_open chosen (items : list (Z * uint256)) :
  NoDup items.*2 -> (length chosen < length items)%nat -> exists j, j ∈ items /\ open chosen j.
Proof.
  intros Hnd Hl. destruct (decide (Forall (fun j => j.2 ∈ chosen.*2) items)) as [Hall|Hn].
  - assert (items.*2 ⊆+ chosen.*2) as Hsub%submseteq_length.
    { apply NoDup_submseteq; [done|]. intros x (j&->&Hj)%list_elem_of_fmap. rewrite list.Forall_forall in Hall. by apply Hall. }
    rewrite !length_fmap in Hsub. lia.
  - apply not_Forall_Exists, list.Exists_exists in Hn as (j&Hj&Ho); [|intros x; apply _]. by exists j.
Qed.

Context (params : StakeParams).

Definition section_length (k : nat) : Z :=
  u32 (nModifierInterval params * 63) / (63 + (63 - Z.of_nat k) * (MODIFIER_INTERVAL_RATIO - 1)).

Lemma section_ok k : (k < 64)%nat -> GetStakeModifierSelectionIntervalSection params (Z.of_nat k) = Some (section_length k).
Proof.
  intros Hk. unfold GetStakeModifierSelectionIntervalSection, section_length.
  destruct (Z.ltb_spec (Z.of_nat k) 64), (Z.geb_spec (Z.of_nat k) 0); try lia. done.
Qed.

(** The end of round [k] when the selection begins at [start] *)
Definition round_end (start : Z) (k : nat) : Z := foldr (fun j s => section_length j + s) start (seq 0 (S k)).

Lemma round_end_S start k : round_end start (S k) = round_end start k + section_length (S k).
Proof.
  unfold round_end. rewrite (seq_S (S k)), foldr_app. cbn [foldr Nat.add].
  assert (forall l a b, foldr (fun j s => section_length j + s) (a + b) l = foldr (fun j s => section_length j + s) b l + a) as H.
  { intros l a b. induction l as [|x l IH]; cbn [foldr]; [lia|rewrite IH; lia]. }
  rewrite H. lia.
Qed.

(** The end of the round before round [k] *)
Definition round_begin (start : Z) (k : nat) : Z := match k with O => start | S k => round_end start k end.

Lemma round_begin_S start k : round_begin start k + section_length k = round_end start k.
Proof. destruct k; [unfold round_end; cbn; lia|]. by rewrite round_end_S. Qed.

Lemma bit_added new e k : 0 <= k < 64 -> forall j, 0 <= j ->
  Z.testbit (new .| u64 (Z.b2z e << k)) j = Z.testbit new j || (e && (j =? k)).
Proof.
  intros Hk j Hj. rewrite Z.lor_spec. f_equal. unfold u64.
  assert (0 <= Z.b2z e << k < 2 ^ 64) as Hr.
  { rewrite Z.shiftl_mul_pow2 by lia. pose proof (Z.pow_lt_mono_r 2 k 64 ltac:(lia) ltac:(lia) ltac:(lia)).
    pose proof (Z.pow_pos_nonneg 2 k ltac:(lia) ltac:(lia)). destruct e; cbn [Z.b2z]; lia. }
  rewrite Z.mod_small by done. destruct e; cbn [Z.b2z andb].
  - rewrite Z.shiftl_1_l, Z.pow2_bits_eqb by lia. apply Z.eqb_sym.
  - by rewrite Z.shiftl_0_l, Z.bits_0.
Qed.

Lemma modifier_rounds_ok items start m n :
  StronglySorted item_le items -> Forall known items -> NoDup items.*2 ->
  forall chosen mapSelected new, covers mapSelected chosen -> (length chosen + n <= Nat.min 64 (length items))%nat ->
  exists sel new', length sel = n /\
    modifier_rounds mem h mp params (seq (length chosen) n) items m mapSelected (round_begin start (length chosen)) new = Some (Some new') /\
    (forall r item, sel !! r = Some item ->
       selects (chosen ++ take r sel) (round_end start (length chosen + r)) m items item) /\
    (forall j, 0 <= j -> Z.testbit new' j = Z.testbit new j ||
       (bool_decide (Z.of_nat (length chosen) <= j) && default false (entropy <$> sel !! Z.to_nat (j - Z.of_nat (length chosen))))).
Proof.
  intros Hs Hk Hnd. induction n as [|n IH]; intros chosen mapSelected new Hcov Hn.
  { exists [], new. split_and!; [done|done|done|]. intros j Hj. cbn. by rewrite andb_false_r, orb_false_r. }
  destruct (SelectBlock_ok mapSelected chosen (round_end start (length chosen)) m items Hcov Hs Hk (some_open chosen items Hnd ltac:(lia)))
    as (item&p&b&Esel&Hst&Hsel). pose proof Hst as (E1&E2&E3&_).
  assert (covers (<[item.2 := p]> mapSelected) (chosen ++ [item])) as Hcov'.
  { intros x. rewrite fmap_app, not_elem_of_app, lookup_insert_None, (Hcov x). cbn. rewrite not_elem_of_cons.
    pose proof (not_elem_of_nil x). intuition congruence. }
  destruct (IH (chosen ++ [item]) (<[item.2 := p]> mapSelected) (new .| u64 (GetStakeEntropyBit b << Z.of_nat (length chosen))) Hcov')
    as (sel&new'&Hl&E&Hrounds&Hbits); [rewrite length_app; cbn [length]; lia|]. rewrite length_app in *. cbn [length] in *. rewrite Nat.add_1_r in *.
  exists (item :: sel), new'. split_and!.
  - cbn. by rewrite Hl.
  - cbn [seq modifier_rounds]. rewrite section_ok by lia. cbn [mbind option_bind]. rewrite round_begin_S, Esel. cbn [mbind option_bind negb].
    rewrite E2. cbn [mbind option_bind]. rewrite E3. cbn [mbind option_bind]. exact E.
  - intros [|r] i Hi; cbn [lookup list_lookup take] in *.
    + injection Hi as <-. by rewrite app_nil_r, Nat.add_0_r.
    + specialize (Hrounds r i Hi). rewrite <- app_assoc in Hrounds. by replace (length chosen + S r)%nat with (S (length chosen) + r)%nat by lia.
  - intros j Hj. rewrite Hbits, entropy_bit, bit_added by lia.
    assert (entropy item = Z.testbit (nFlags b) 1) as <- by (unfold entropy; rewrite E1; cbn; by rewrite E2).
    destruct (Z.eqb_spec j (Z.of_nat (length chosen))) as [->|Hne].
    + rewrite (bool_decide_false (Z.of_nat (S _) <= _)), (bool_decide_true (Z.of_nat _ <= _)) by lia.
      replace (Z.to_nat (Z.of_nat (length chosen) - Z.of_nat (length chosen))) with O by lia. cbn. by rewrite andb_true_r, orb_false_r.
    + rewrite andb_false_r, orb_false_r. f_equal. destruct (decide (Z.of_nat (length chosen) <= j)).
      * rewrite !bool_decide_true by lia. replace (Z.to_nat (j - Z.of_nat (length chosen))) with (S (Z.to_nat (j - Z.of_nat (S (length chosen))))) by lia. done.
      * by rewrite !bool_decide_false by lia.
Qed.
End rounds.

(** ** The walks *)

(** [q] is the last ancestor of [p] that generated a modifier, or the first block. *)
Definition last_modifier_block (h : heap) (p q : ptr) (c : CBlockIndex) : Prop :=
  exists n, back h n p = Some q /\ h !! q = Some c /\ (GeneratedStakeModifier c = true \/ BlockIndex.pprev c = None) /\
    forall k q' b', (k < n)%nat -> back h k p = Some q' -> h !! q' = Some b' -> GeneratedStakeModifier b' = false.

Lemma last_generated_ok fuel h p b :
  index_ok h -> h !! p = Some b -> (Z.to_nat (BlockIndex.nHeight b) <= fuel)%nat ->
  exists q c, last_generated fuel h p = Some q /\ last_modifier_block h p q c.
Proof.
  intros Hok. revert p b. induction fuel as [|fuel IH]; intros p b Hp Hf; cbn [last_generated]; rewrite Hp; cbn [mbind option_bind];
    destruct (Hok p b Hp) as (Hh&Hprev&_); unfold prev_ok in Hprev; destruct (BlockIndex.pprev b) as [q|] eqn:Eq.
  - destruct Hprev as (bq&Hq&E). destruct (Hok q bq Hq) as (Hhq&_). lia.
  - exists p, b. split; [done|]. exists O. split_and!; [done|done|by right|lia].
  - destruct (GeneratedStakeModifier b) eqn:Eg; cbn [negb].
    { exists p, b. split; [done|]. exists O. split_and!; [done|done|by left|lia]. }
    destruct Hprev as (bq&Hq&E). destruct (Hok q bq Hq) as (Hhq&_). destruct (IH q bq Hq ltac:(lia)) as (r&c&Er&n&Hback&Hc&Hend&Hall).
    exists r, c. split; [done|]. exists (S n). split_and!; [|done|done|].
    + cbn [back]. rewrite Hp. cbn. by rewrite Eq.
    + intros [|k] q' b' Hk Hb' Hq'; [cbn in Hb'; injection Hb' as <-; congruence|]. cbn [back] in Hb'. rewrite Hp in Hb'. cbn in Hb'.
      rewrite Eq in Hb'. cbn in Hb'. apply (Hall k q' b'); [lia|done|done].
  - exists p, b. split; [done|]. exists O. split_and!; [done|done|by right|lia].
Qed.

(** The blocks from [p] back to the first that is older than [start] *)
Definition recent (h : heap) (start : Z) (p : ptr) (item : Z * uint256) : Prop :=
  exists n q bq, back h n p = Some q /\ h !! q = Some bq /\ phashBlock bq = Some item.2 /\ GetBlockTime bq = item.1 /\
    forall k q' b', (k <= n)%nat -> back h k p = Some q' -> h !! q' = Some b' -> start <= GetBlockTime b'.

Lemma recent_step h start p b item :
  h !! p = Some b ->
  recent h start p item <->
  start <= GetBlockTime b /\
  (phashBlock b = Some item.2 /\ GetBlockTime b = item.1 \/ exists q, BlockIndex.pprev b = Some q /\ recent h start q item).
Proof.
  intros Hp. split.
  - intros (n&q&bq&Hback&Hq&Hhash&Ht&Hall). split; [apply (Hall O p b); [lia|done|done]|]. destruct n as [|n].
    + injection Hback as <-. left. rewrite Hp in Hq. by injection Hq as <-.
    + right. cbn [back] in Hback. rewrite Hp in Hback. cbn in Hback. destruct (BlockIndex.pprev b) as [r|] eqn:Er; [|done].
      exists r. split; [done|]. exists n, q, bq. split_and!; [done..|]. intros k q' b' Hk Hb'. apply (Hall (S k) q' b'); [lia|].
      cbn [back]. rewrite Hp. cbn. by rewrite Er.
  - intros [Ht [[Hhash Hti]|(r&Er&n&q&bq&Hback&Hq&Hhash&Hti&Hall)]].
    + exists O, p, b. split_and!; [done..|]. intros k q' b' Hk Hb' Hq'. replace k with O in Hb' by lia. injection Hb' as <-.
      rewrite Hp in Hq'. by injection Hq' as <-.
    + exists (S n), q, bq. assert (forall k, back h (S k) p = back h k r) as Hs by (intros k; cbn [back]; rewrite Hp; cbn; by rewrite Er).
      rewrite Hs. split_and!; [done..|]. intros [|k] q' b' Hk Hb' Hq'; [injection Hb' as <-; rewrite Hp in Hq'; by injection Hq' as <-|].
      rewrite Hs in Hb'. apply (Hall k q' b'); [lia|done|done].
Qed.

Section walks.
Context (h : heap) (mp : gmap uint256 ptr) (Hok : index_ok h).
Context (Hmp : forall hash p, mp !! hash = Some p <-> exists b, h !! p = Some b /\ phashBlock b = Some hash).
Context (Hhash : map_Forall (fun _ b => is_Some (phashBlock b)) h).

Lemma candidates_ok fuel start p b :
  h !! p = Some b -> (Z.to_nat (BlockIndex.nHeight b) < fuel)%nat ->
  exists items, candidates fuel h (Some p) start = Some items /\ NoDup items.*2 /\
    (forall j, j ∈ items <-> recent h start p j) /\
    Forall (fun j => exists q bq, stands_for h mp j q bq /\ BlockIndex.nHeight bq <= BlockIndex.nHeight b) items.
Proof.
  revert p b. induction fuel as [|fuel IH]; intros p b Hp Hf; [lia|]. cbn [candidates]. rewrite Hp. cbn [mbind option_bind].
  destruct (Z.geb_spec (GetBlockTime b) start) as [Ht|Ht].
  2: { exists []. split_and!; [done|constructor| |constructor]. intros j. rewrite (recent_step h start p b) by done.
       split; [intros H; by apply not_elem_of_nil in H|lia]. }
  destruct (map_Forall_lookup_1 _ _ _ _ Hhash Hp) as [x Hx]. rewrite Hx. cbn [mbind option_bind].
  assert (stands_for h mp (GetBlockTime b, x) p b) as Hst by (split_and!; [apply Hmp; by exists b|done|done|done]).
  destruct (Hok p b Hp) as (Hh&Hprev&_). unfold prev_ok in Hprev. destruct (BlockIndex.pprev b) as [q|] eqn:Eq.
  - destruct Hprev as (bq&Hq&E). destruct (Hok q bq Hq) as (Hhq&_). destruct (IH q bq Hq ltac:(lia)) as (items&->&Hnd&Hin&Hall). cbn [mbind option_bind].
    eexists. split; [done|]. split_and!.
    + cbn. apply NoDup_cons. split; [|done]. intros (j&Ej&Hj)%list_elem_of_fmap. rewrite list.Forall_forall in Hall.
      destruct (Hall j Hj) as (r&br&(Er&Hr&_)&Hhr). rewrite <- Ej in Er. destruct Hst as (Ep&_). cbn [snd] in *. rewrite Ep in Er.
      injection Er as <-. rewrite Hp in Hr. injection Hr as <-. lia.
    + intros j. rewrite elem_of_cons, Hin, (recent_step h start p b j Hp), Hx, Eq. destruct j as [jt jh]. cbn [fst snd]. split.
      * intros [[= -> ->]|Hr]; (split; [lia|]); [by left|right; by exists q].
      * intros [_ [[[= ->] ->]|(r&[= <-]&Hr)]]; auto.
    + constructor; [exists p, b; split; [done|lia]|]. eapply list.Forall_impl; [exact Hall|]. intros j (r&br&?&?). exists r, br. split; [done|lia].
  - cbn [candidates]. destruct fuel as [|fuel]; cbn [candidates mbind option_bind]; (eexists; split; [done|]; split_and!).
    1,4: cbn; apply NoDup_singleton.
    2,4: constructor; [exists p, b; split; [done|lia]|constructor].
    all: intros j; rewrite list_elem_of_singleton, (recent_step h start p b j Hp), Hx, Eq; destruct j as [jt jh]; cbn [fst snd];
      (split; [intros [= -> ->]; split; [lia|by left]|intros [_ [[[= ->] ->]|(r&?&_)]]; done]).
Qed.
End walks.

(** The reservation of a 32-bit number of pairs does not throw. *)
Lemma reserve_modest interval height : reserve_pairs (u32 (64 * interval) / GetTargetSpacing height) = Some tt.
Proof.
  unfold reserve_pairs, GetTargetSpacing. assert (0 <= u32 (64 * interval) < 2 ^ 32) as Hw by (apply Z.mod_pos_bound; lia).
  destruct (Z.leb_spec (u32 (64 * interval) / 30) ((2 ^ 63 - 1) / 40)) as [|Hlt]; [done|].
  assert (u32 (64 * interval) / 30 <= u32 (64 * interval)) by (apply Z.div_le_upper_bound; lia).
  change ((2 ^ 63 - 1) / 40) with 230584300921369395 in Hlt. lia.
Qed.

(** C12: On a well-formed index, [ComputeNextStakeModifier] of a block always succeeds.  While
    the last generated modifier, that of the nearest ancestor that has one or else 1, is of the
    same interval of time, it is kept.  Otherwise a new 64-bit modifier is made from the blocks
    since the start of the selection interval: round after round, a block not selected before is
    drawn, one with the least selection value among those within the round, or the first in
    order of time when there are none, and its entropy bit is the bit of the round; there are 64
    rounds, or as many as there are blocks. *)
Theorem stake_modifier_spec (mem : list Z) (st : index_state) (params : StakeParams) (p : ptr) (b : CBlockIndex) :
  let h := st_heap st in let mp := mapBlockIndex st in
  length mem = 64%nat -> state_ok st -> map_Forall (fun _ => stake_entry_ok) h -> 0 < nModifierInterval params ->
  h !! p = Some b ->
  exists q c m g,
    last_modifier_block h p q c /\ ComputeNextStakeModifier mem h mp params (Some p) = Some (true, m, g) /\
    let last := if GeneratedStakeModifier c then nStakeModifier c else 1 in
    let interval x := GetBlockTime x / nModifierInterval params in
    if interval c >=? interval b then m = last /\ g = false
    else
      g = true /\
      exists start items sel,
        GetStakeModifierSelectionInterval params = Some (interval b * nModifierInterval params - start) /\
        StronglySorted item_le items /\ NoDup items.*2 /\ (forall j, j ∈ items <-> recent h start p j) /\
        length sel = Nat.min 64 (length items) /\
        (forall r item, sel !! r = Some item -> selects h mp (take r sel) (round_end params start r) last items item) /\
        (forall r, 0 <= r -> Z.testbit m r = default false (entropy h mp <$> sel !! Z.to_nat r)).
Proof.
  intros h mp Hm [Hok _ Hhash Hmp _] Hse Hint Hp. fold h in Hok, Hhash, Hmp. fold mp in Hmp.
  destruct (last_generated_ok (Z.to_nat (BlockIndex.nHeight b)) h p b Hok Hp ltac:(lia)) as (q&c&Eq&Hlast).
  assert (h !! q = Some c) as Hq by by destruct Hlast as (?&?&?&_).
  exists q, c. unfold ComputeNextStakeModifier, GetLastStakeModifier. rewrite Hp. cbn [mbind option_bind]. rewrite Eq. cbn [mbind option_bind].
  rewrite Hq. cbn [mbind option_bind]. destruct (Z.eqb_spec (nModifierInterval params) 0) as [|_]; [lia|].
  replace (if negb (GeneratedStakeModifier c) then 1 else nStakeModifier c) with (if GeneratedStakeModifier c then nStakeModifier c else 1)
    by by destruct (GeneratedStakeModifier c).
  set (last := if GeneratedStakeModifier c then nStakeModifier c else 1). cbv zeta.
  destruct (_ >=? _); [by exists last, false|].
  assert (exists total, GetStakeModifierSelectionInterval params = Some total) as [total Htot].
  { unfold GetStakeModifierSelectionInterval, sum_sections. eexists. reflexivity. }
  rewrite (reserve_modest (nModifierInterval params)), Htot. cbn [mbind option_bind Z.eqb GetTargetSpacing]. set (start := GetBlockTime b / nModifierInterval params * nModifierInterval params - total).
  destruct (candidates_ok h mp Hok Hmp Hhash (S (Z.to_nat (BlockIndex.nHeight b))) start p b Hp ltac:(lia)) as (l&->&Hnd&Hin&Hall).
  cbn [mbind option_bind]. set (items := merge_sort item_le (rev l)).
  assert (items ≡ₚ l) as Hperm by (unfold items; rewrite merge_sort_Permutation; symmetry; apply Permutation_rev).
  assert (NoDup items.*2) as Hnd' by by rewrite Hperm.
  assert (Forall (known h mp) items) as Hk.
  { rewrite Hperm. eapply list.Forall_impl; [exact Hall|]. intros j (r&br&?&_). by exists r, br. }
  destruct (modifier_rounds_ok mem Hm h mp Hse params items start last (Nat.min 64 (length items))) with (chosen := @nil (Z * uint256))
    (mapSelected := (∅ : gmap uint256 ptr)) (new := 0) as (sel&m&Hl&E&Hr&Hb);
    [apply StronglySorted_merge_sort; apply _|done|done| |cbn [length]; lia|].
  { intros x. rewrite lookup_empty. split; [intros _; apply not_elem_of_nil|done]. }
  cbn [length round_begin] in E. rewrite E. cbn [mbind option_bind]. exists m, true. split; [done|]. split; [done|]. split; [done|].
  exists start, items, sel. split_and!; [unfold start; f_equal; lia|apply StronglySorted_merge_sort; apply _|done| |done| |].
  - intros j. by rewrite Hperm.
  - intros r item Hi. exact (Hr r item Hi).
  - intros r Hr0. rewrite Hb by done. rewrite Z.bits_0. cbn [orb length]. rewrite bool_decide_true by lia. cbn [andb]. by rewrite Z.sub_0_r.
Qed.

(** * The kernel *)

(** The number that a kernel must keep below the target: the hash of what identifies the coin
    and the moment *)
Abbreviation kernel_value nStakeModifier nTimeBlockFrom nTimeTxPrev prevout nTimeTx :=
  (load_le 32 (sha256d (kernel_bytes nStakeModifier nTimeBlockFrom nTimeTxPrev prevout nTimeTx))).

Lemma kernel_bytes_ok m f t o x :
  COutPoint_ok o -> Forall byte (kernel_bytes m f t o x) /\ 8 * Z.of_nat (length (kernel_bytes m f t o x)) < 2 ^ 64.
Proof.
  intros [[Hb Hl] _]. unfold kernel_bytes, ser_writedata64, ser_writedata32. split.
  - rewrite !Forall_app. split_and!; try apply store_le_bytes. exact Hb.
  - rewrite !length_app, Hl, !length_store_le. lia.
Qed.

(** Two kernels with the same hash are of the same coin, at the same times, under the same
    modifier, or else they exhibit a collision. *)
Lemma kernel_commits m1 f1 t1 o1 x1 m2 f2 t2 o2 x2 :
  word 64 m1 -> word 64 m2 -> word 32 f1 -> word 32 f2 -> word 32 t1 -> word 32 t2 -> COutPoint_ok o1 -> COutPoint_ok o2 ->
  word 32 x1 -> word 32 x2 -> sha256d (kernel_bytes m1 f1 t1 o1 x1) = sha256d (kernel_bytes m2 f2 t2 o2 x2) ->
  (m1 = m2 /\ f1 = f2 /\ t1 = t2 /\ o1 = o2 /\ x1 = x2) \/ collides (kernel_bytes m1 f1 t1 o1 x1) (kernel_bytes m2 f2 t2 o2 x2).
Proof.
  intros Hm1 Hm2 Hf1 Hf2 Ht1 Ht2 Ho1 Ho2 Hx1 Hx2 [E|E]%sha256d_inj; [left|by right].
  destruct (kernel_bytes_ok m1 f1 t1 o1 x1 Ho1) as [Hb _]. unfold kernel_bytes in E, Hb.
  destruct Ho1 as [Hh1 Hn1], Ho2 as [Hh2 Hn2].
  same_field (canonical_word 8) E Hb. same_field (canonical_word 4) E Hb. same_field (canonical_word 4) E Hb.
  same_field (canonical_array 32) E Hb. same_field (canonical_word 4) E Hb.
  rewrite <- (app_nil_r (ser_writedata32 x1)), <- (app_nil_r (ser_writedata32 x2)) in E.
  rewrite <- (app_nil_r (ser_writedata32 x1)) in Hb. same_field (canonical_word 4) E Hb.
  split_and!; try done. destruct o1, o2. cbn in *. congruence.
Qed.

(** The rule for the kernel: the coin was made no later than now, is old enough, and the hash
    is at most the target times the value of the coin. *)
Definition kernel_rule (params : StakeParams) (nStakeModifier nBits nTimeBlockFrom nTimeTxPrev : Z) (prevout : COutPoint)
    (value nTimeTx : Z) : Prop :=
  nTimeTxPrev <= nTimeTx /\ u32 (nTimeBlockFrom + nStakeMinAge params) <= nTimeTx /\
  kernel_value nStakeModifier nTimeBlockFrom nTimeTxPrev prevout nTimeTx <= signed_compact nBits * value.

Lemma load_store_mod k v : load_le k (store_le k v) = v mod 2 ^ (8 * Z.of_nat k).
Proof.
  revert v. induction k as [|k IH]; intros v; [by rewrite Z.mod_1_r|]. cbn [store_le load_le]. rewrite IH, uchar_mod.
  rewrite Z.lor_comm, Z.shiftl_mul_pow2, lor_high by (try lia; apply word_mod; lia). rewrite Z.shiftr_div_pow2 by lia.
  replace (8 * Z.of_nat (S k)) with (8 + 8 * Z.of_nat k) by lia. rewrite Z.pow_add_r, Z.rem_mul_r by lia. lia.
Qed.

Lemma bind_some {A B} (f : A -> option B) (x : A) : Some x ≫= f = f x.
Proof. reflexivity. Qed.

Section kernel_proofs.
Context `{spec : OpenSSL_spec} (mem : list Z) (Hm : length mem = 64%nat) (params : StakeParams).

Lemma CheckStakeKernelHashV2_ok prev nBits f txPrev o out x proof :
  word 32 nBits -> COutPoint_ok o -> vout txPrev !! Z.to_nat (n o) = Some out -> int_range 64 (nValue out) ->
  exists ok pr, CheckStakeKernelHashV2 mem params prev nBits f txPrev o x proof = Some (ok, pr) /\
    (ok = true <-> kernel_rule params (nStakeModifier prev) nBits f (Transaction.nTime txPrev) o (nValue out) x) /\
    (ok = true -> val pr.1 = kernel_value (nStakeModifier prev) f (Transaction.nTime txPrev) o x /\
       val pr.2 = (signed_compact nBits * nValue out) mod 2 ^ 256).
Proof.
  intros Hn Ho Hout Hv. unfold CheckStakeKernelHashV2, kernel_rule.
  destruct (Z.ltb_spec x (Transaction.nTime txPrev)) as [H1|H1];
    [exists false, proof; split; [done|]; split; [split; [done|intros (?&_&_); lia]|done]|].
  rewrite Z.gtb_ltb. destruct (Z.ltb_spec x (u32 (f + nStakeMinAge params))) as [H2|H2];
    [exists false, proof; split; [done|]; split; [split; [done|intros (_&?&_); lia]|done]|].
  rewrite Hout, bind_some. destruct (bn_mul (CBigNum_SetCompact nBits) (setint64 (nValue out))) as (t&Et&Hval).
  rewrite Et, bind_some. cbv zeta. assert (- 2 ^ 63 <= nValue out < 2 ^ 63) as Hv' by (change (2 ^ 63) with (2 ^ (64 - 1)); exact Hv).
  rewrite (CBigNum_SetCompact_val _ Hn), (setint64_val _ Hv') in Hval.
  pose proof (kernel_bytes_ok (nStakeModifier prev) f (Transaction.nTime txPrev) o x Ho) as Hkb.
  generalize dependent (kernel_bytes (nStakeModifier prev) f (Transaction.nTime txPrev) o x). intros bs Hkb.
  rewrite (Hash1_ok mem bs Hm Hkb), bind_some.
  destruct (sha256d_ok bs) as [Hb Hl]. generalize dependent (sha256d bs). intros d Hb Hl.
  destruct (UintToArith256_spec _ Hb Hl) as (Hu&Hback&Huv).
  rewrite Hback. unfold bn_gt. rewrite bn_cmp, (setuint256_val _ Hb Hl), Hval.
  assert (0 <= load_le 32 d) as Hk0 by apply (load_le_word_short 32 d Hb).
  set (kv := load_le 32 d) in *. clearbody kv. eexists _, _. split; [reflexivity|]. cbn [fst snd]. split.
  - rewrite negb_true_iff. unfold sign. destruct (Z.compare_spec kv (signed_compact nBits * nValue out)); cbn; split; try done; lia.
  - intros Hle. split; [exact Huv|]. unfold getuint256. rewrite get_bytes_val, Hval.
    assert (kv <= signed_compact nBits * nValue out) as Hle'.
    { rewrite negb_true_iff in Hle. unfold sign in Hle.
      destruct (Z.compare_spec kv (signed_compact nBits * nValue out)); cbn in Hle; try done; lia. }
    rewrite Z.abs_eq by lia. set (v := signed_compact nBits * nValue out). destruct (UintToArith256_spec (store_le 32 v)) as (_&_&->);
      [apply store_le_bytes|apply length_store_le|]. rewrite (load_store_mod 32 v). change (8 * Z.of_nat 32) with 256. reflexivity.
Qed.

(** The coin that the first input [i] of a transaction names: the transaction [txPrev] with the
    hash of the input, in the block [from] of the index, and its output [o] *)
Definition staked_coin (GetTransaction : uint256 -> option (CTransaction * uint256)) (h : heap) (mp : gmap uint256 ptr)
    (tx : CTransaction) (i : CTxIn) (txPrev : CTransaction) (from : CBlockIndex) (o : CTxOut) : Prop :=
  exists hashBlock p,
    vin tx !! 0%nat = Some i /\ GetTransaction (Transaction.hash (prevout i)) = Some (txPrev, hashBlock) /\
    sha256d (tx_bytes txPrev) = Transaction.hash (prevout i) /\
    mp !! hashBlock = Some p /\ h !! p = Some from /\ vout txPrev !! Z.to_nat (n (prevout i)) = Some o.

Lemma staked_coin_unique GetTransaction h mp tx i txPrev from o i' txPrev' from' o' :
  staked_coin GetTransaction h mp tx i txPrev from o -> staked_coin GetTransaction h mp tx i' txPrev' from' o' ->
  i = i' /\ txPrev = txPrev' /\ from = from' /\ o = o'.
Proof. intros (hb&q&Ei&Eg&_&Eq&Ef&Eo) (hb'&q'&Ei'&Eg'&_&Eq'&Ef'&Eo'). simplify_eq. done. Qed.

(** A coin stake is valid on top of [prev]: its first input names a transaction by its hash,
    in a block of the index, and the output it names meets the rule for the kernel. *)
Definition stake_valid (GetTransaction : uint256 -> option (CTransaction * uint256)) (h : heap) (mp : gmap uint256 ptr)
    (prev : CBlockIndex) (tx : CTransaction) (nBits : Z) : Prop :=
  IsCoinStake tx = true /\
  exists i txPrev from o, staked_coin GetTransaction h mp tx i txPrev from o /\
    kernel_rule params (nStakeModifier prev) nBits (GetBlockTime from) (Transaction.nTime txPrev) (prevout i) (nValue o)
      (Transaction.nTime tx).

(** The proof hash and the target that go with a staked coin *)
Definition stake_proof (prev : CBlockIndex) (nBits : Z) (tx : CTransaction) (i : CTxIn) (txPrev : CTransaction)
    (from : CBlockIndex) (o : CTxOut) (pr : base_uint * base_uint) : Prop :=
  val pr.1 = kernel_value (nStakeModifier prev) (GetBlockTime from) (Transaction.nTime txPrev) (prevout i) (Transaction.nTime tx) /\
  val pr.2 = (signed_compact nBits * nValue o) mod 2 ^ 256.

Context (GetTransaction : uint256 -> option (CTransaction * uint256)) (st : index_state).
Context (Hst : state_ok st) (Hse : map_Forall (fun _ => stake_entry_ok) (st_heap st)).
Context (Hget : forall id txPrev hashBlock, GetTransaction id = Some (txPrev, hashBlock) -> tx_ok txPrev).

Lemma CheckProofOfStake_ok `{crypto : ScriptCrypto} {V : Type} `{HV : CCoinsView V} checker tip p prev tx nBits proof :
  st_heap st !! p = Some prev -> tx_ok tx -> word 32 nBits ->
  (forall i txPrev hashBlock, vin tx !! 0%nat = Some i -> GetTransaction (Transaction.hash (prevout i)) = Some (txPrev, hashBlock) ->
     n (prevout i) < Z.of_nat (length (vout txPrev))) ->
  exists ok pr, CheckProofOfStake mem params GetTransaction (st_heap st) (mapBlockIndex st) checker tip p tx nBits proof false =
      Some (ok, pr) /\
    (ok = true <-> stake_valid GetTransaction (st_heap st) (mapBlockIndex st) prev tx nBits) /\
    (ok = true -> forall i txPrev from o, staked_coin GetTransaction (st_heap st) (mapBlockIndex st) tx i txPrev from o ->
       stake_proof prev nBits tx i txPrev from o pr).
Proof.
  intros Hp Htx Hn Hrange. unfold CheckProofOfStake, stake_valid.
  destruct (IsCoinStake tx) eqn:Ecs; cbn [negb]; [|exists false, proof; split; [done|]; split; [split; [done|by intros [? _]]|done]].
  destruct (vin tx !! 0%nat) as [i|] eqn:Ei.
  2: { unfold IsCoinStake in Ecs. by destruct (vin tx). }
  rewrite bind_some.
  assert (CTxIn_ok i) as (Ho&_&_) by apply (Forall_lookup_1 _ _ _ _ (proj1 (ok_vin _ Htx)) Ei).
  destruct (GetTransaction (Transaction.hash (prevout i))) as [[txPrev hb]|] eqn:Eg.
  2: { exists false, proof. split; [done|]. split; [|done]. split; [done|]. intros (_&i'&t'&f'&o'&(b'&q'&Ei'&E&_)&_). congruence. }
  rewrite bind_some. cbn [negb]. destruct (mapBlockIndex st !! hb) as [q|] eqn:Eq.
  2: { exists false, proof. split; [done|]. split; [|done]. split; [done|]. intros (_&i'&t'&f'&o'&(b'&q'&Ei'&E&_&Eq'&_)&_). congruence. }
  destruct (proj1 (ok_map _ Hst hb q) Eq) as (from&Hfrom&_). rewrite Hfrom, bind_some, (GetHash_ok mem txPrev Hm (Hget _ _ _ Eg)), bind_some.
  destruct (bool_decide_reflect (Transaction.hash (prevout i) = sha256d (tx_bytes txPrev))) as [Ehash|Ehash]; cbn [negb].
  2: { exists false, proof. split; [done|]. split; [|done]. split; [done|]. intros (_&i'&t'&f'&o'&(b'&q'&Ei'&E&Eh&_)&_). congruence. }
  rewrite Hp, bind_some. unfold CheckStakeKernelHash.
  assert (is_Some (vout txPrev !! Z.to_nat (n (prevout i)))) as [o Eo].
  { apply lookup_lt_is_Some_2. specialize (Hrange i txPrev hb eq_refl Eg). destruct Ho as [_ [? _]]. lia. }
  assert (u32 (GetBlockTime from) = GetBlockTime from) as ->.
  { unfold u32, GetBlockTime. apply Z.mod_small. destruct (map_Forall_lookup_1 _ _ _ _ Hse Hfrom) as [Hw _ _]. exact Hw. }
  assert (int_range 64 (nValue o)) as Hv.
  { apply (Forall_lookup_1 _ _ _ _ (proj1 (ok_vout _ (Hget _ _ _ Eg))) Eo). }
  destruct (CheckStakeKernelHashV2_ok prev nBits (GetBlockTime from) txPrev (prevout i) o (Transaction.nTime tx) proof Hn Ho Eo Hv)
    as (ok&pr&->&Hiff&Hpr). exists ok, pr. split; [reflexivity|].
  assert (staked_coin GetTransaction (st_heap st) (mapBlockIndex st) tx i txPrev from o) as Hcoin
    by (exists hb, q; split_and!; [exact Ei|exact Eg|by symmetry|done..]).
  split.
  - rewrite Hiff. split.
    + intros Hr. split; [done|]. by exists i, txPrev, from, o.
    + intros (_&i'&t'&f'&o'&Hcoin'&Hr). by destruct (staked_coin_unique _ _ _ _ _ _ _ _ _ _ _ _ Hcoin Hcoin') as (<-&<-&<-&<-).
  - intros Hok i' t' f' o' Hcoin'. destruct (staked_coin_unique _ _ _ _ _ _ _ _ _ _ _ _ Hcoin Hcoin') as (<-&<-&<-&<-). exact (Hpr Hok).
Qed.

(** The index of the output is not compared with the number of outputs before the access. *)
Lemma kernel_out_of_range prev nBits f txPrev o x proof :
  (length (vout txPrev) <= Z.to_nat (n o))%nat -> Transaction.nTime txPrev <= x -> u32 (f + nStakeMinAge params) <= x ->
  CheckStakeKernelHashV2 mem params prev nBits f txPrev o x proof = None.
Proof.
  intros Hl H1 H2. unfold CheckStakeKernelHashV2. rewrite Z.gtb_ltb.
  destruct (Z.ltb_spec x (Transaction.nTime txPrev)); [lia|]. destruct (Z.ltb_spec x (u32 (f + nStakeMinAge params))); [lia|].
  by rewrite lookup_ge_None_2.
Qed.
End kernel_proofs.

(** C11: [CheckProofOfStake] accepts a transaction exactly when it is a coin stake whose first
    input names, by its hash, a known transaction in a block of the index, and the output it
    names meets the rule for the kernel: the coin is not from the future, its block is at least
    the minimum age old, and the double SHA-256 of the stake modifier, the times and the outpoint,
    as a number, is at most the target of [nBits] times the value of the output.  On acceptance the
    two numbers it hands back are that hash and that target (modulo 2^256).  The call is the one of
    [ConnectBlock], which does not check the signature again; the index of the output
    must be one of the transaction, which the code does not check. *)
Theorem proof_of_stake_iff `{spec : OpenSSL_spec} `{crypto : ScriptCrypto} {V : Type} `{HV : CCoinsView V}
    (mem : list Z) (params : StakeParams) (GetTransaction : uint256 -> option (CTransaction * uint256)) (st : index_state)
    (checker : BaseSignatureChecker) (tip : V) (p : ptr) (prev : CBlockIndex) (tx : CTransaction) (nBits : Z)
    (proof : base_uint * base_uint) :
  length mem = 64%nat -> state_ok st -> map_Forall (fun _ => stake_entry_ok) (st_heap st) ->
  (forall id txPrev hashBlock, GetTransaction id = Some (txPrev, hashBlock) -> tx_ok txPrev) ->
  st_heap st !! p = Some prev -> tx_ok tx -> word 32 nBits ->
  (forall i txPrev hashBlock, vin tx !! 0%nat = Some i -> GetTransaction (Transaction.hash (prevout i)) = Some (txPrev, hashBlock) ->
     n (prevout i) < Z.of_nat (length (vout txPrev))) ->
  exists ok pr, CheckProofOfStake mem params GetTransaction (st_heap st) (mapBlockIndex st) checker tip p tx nBits proof false =
      Some (ok, pr) /\
    (ok = true <-> stake_valid params GetTransaction (st_heap st) (mapBlockIndex st) prev tx nBits) /\
    (ok = true -> forall i txPrev from o, staked_coin GetTransaction (st_heap st) (mapBlockIndex st) tx i txPrev from o ->
       stake_proof prev nBits tx i txPrev from o pr).
Proof. intros Hm Hst Hse Hget. by apply CheckProofOfStake_ok. Qed.

(** ** Instances *)

#[export] Instance stake_entry_ok_dec b : Decision (stake_entry_ok b).
Proof.
  refine (cast_if (decide (word 32 (BlockIndex.nTime b) /\ (length (hashProof b) = WIDTH /\ Forall (word 32) (hashProof b)) /\
    word 64 (nStakeModifier b)))).
  - abstract (split; unfold uint_ok; tauto).
  - abstract (intros [? [? ?] ?]; tauto).
Defined.

Lemma sample_entries_ok : map_Forall (fun _ => stake_entry_ok) (st_heap BlockIndex.Sample.index).
Proof. by_decide. Qed.

(** The sample index has a block each second, and no block has a modifier. *)
Lemma stake_modifier_spec_witness :
  exists m, ComputeNextStakeModifier (replicate 64 0) (st_heap BlockIndex.Sample.index) (mapBlockIndex BlockIndex.Sample.index)
    (mkStakeParams 2 1) (Some 7%positive) = Some (true, m, true).
Proof.
  destruct (stake_modifier_spec (replicate 64 0) BlockIndex.Sample.index (mkStakeParams 2 1) 7%positive (BlockIndex.Sample.block 7))
    as (q&c&m&g&(n&Hback&Hc&Hend&Hall)&E&Hrest); [done|exact BlockIndex.sample_ok|exact sample_entries_ok|done|by vm_compute|].
  exists m. rewrite E. cbv zeta beta in Hrest. cbn [nModifierInterval] in Hrest. rewrite !Z.div_1_r in Hrest.
  assert (GetBlockTime (BlockIndex.Sample.block 7) = 1006) as E7 by by vm_compute. rewrite E7 in Hrest.
  assert (GetBlockTime c < 1006) as Hlt.
  { clear -Hback Hc Hend. destruct n as [|n].
    { injection Hback as <-. vm_compute in Hc. injection Hc as <-. destruct Hend as [Hend|Hend]; vm_compute in Hend; done. }
    do 6 (destruct n as [|n]; [vm_compute in Hback; injection Hback as <-; vm_compute in Hc; injection Hc as <-; by vm_compute|]).
    exfalso. clear -Hback. vm_compute in Hback. done. }
  destruct (Z.geb_spec (GetBlockTime c) 1006); [lia|]. destruct Hrest as [-> _]. reflexivity.
Defined.

(** A coin stake that spends the output of a transaction that sits in block 3 of the sample, with
    a target that every hash meets *)
Definition sample_stake : CTransaction :=
  {| nVersion := 2; nTime := 1008;
     vin := [{| prevout := {| Transaction.hash := sha256d (tx_bytes sample_tx); n := 0 |}; scriptSig := []; nSequence := 9 |}];
     vout := [{| nValue := 0; scriptPubKey := [] |}; {| nValue := 601; scriptPubKey := [81] |}]; wit := []; nLockTime := 0;
     strDZeel := [] |}.

Lemma sample_stake_ok : tx_ok sample_stake.
Proof.
  split; cbn [nVersion nTime vin vout wit nLockTime strDZeel sample_stake]; [by_decide|by_decide| |by_decide..].
  split; [|by_decide]. apply list.Forall_singleton. split; [split; [apply sha256d_ok|by_decide]|]. split; by_decide.
Qed.

Lemma sample_is_stake : IsCoinStake sample_stake = true.
Proof.
  unfold IsCoinStake, COutPoint_IsNull. cbn [vin sample_stake prevout n Transaction.hash].
  change (0 =? 2 ^ 32 - 1) with false. rewrite andb_false_r. reflexivity.
Qed.

Definition sample_get (id : uint256) : option (CTransaction * uint256) := Some (sample_tx, store_le 32 3).

Lemma proof_of_stake_iff_witness :
  exists pr, CheckProofOfStake (crypto := toy_crypto) (replicate 64 0) (mkStakeParams 2 1) sample_get
    (st_heap BlockIndex.Sample.index) (mapBlockIndex BlockIndex.Sample.index) toy_checker
    {| db_coins := ∅; db_best := hash_null |} 7%positive sample_stake 0x22010000 (zero_uint, zero_uint) false = Some (true, pr).
Proof.
  destruct (proof_of_stake_iff (crypto := toy_crypto) (replicate 64 0) (mkStakeParams 2 1) sample_get BlockIndex.Sample.index toy_checker
    {| db_coins := ∅; db_best := hash_null |} 7%positive (BlockIndex.Sample.block 7) sample_stake 0x22010000 (zero_uint, zero_uint))
    as (ok&pr&E&Hiff&_); [done|exact BlockIndex.sample_ok|exact sample_entries_ok| |by vm_compute|exact sample_stake_ok|by vm_compute| |].
  - intros id txPrev hb [= <- <-]. by_decide.
  - intros i txPrev hb Ei [= <- _]. injection Ei as <-. done.
  - exists pr. assert (ok = true) as Eok; [|subst ok; exact E]. apply Hiff. split; [exact sample_is_stake|].
    exists {| prevout := {| Transaction.hash := sha256d (tx_bytes sample_tx); n := 0 |}; scriptSig := []; nSequence := 9 |}, sample_tx,
      (BlockIndex.Sample.block 3), {| nValue := 600; scriptPubKey := [81; 82] |}.
    cbn [prevout Transaction.hash n nValue]. split.
    { exists (store_le 32 3), 3%positive. cbn [prevout Transaction.hash n]. split; [reflexivity|]. split; [reflexivity|]. split; [reflexivity|].
      split; [by vm_compute|]. split; [by vm_compute|]. reflexivity. }
    split; [by vm_compute|]. split; [by vm_compute|]. destruct (sha256d_ok (kernel_bytes (nStakeModifier (BlockIndex.Sample.block 7))
      (GetBlockTime (BlockIndex.Sample.block 3)) (Transaction.nTime sample_tx)
      {| Transaction.hash := sha256d (tx_bytes sample_tx); n := 0 |} (Transaction.nTime sample_stake))) as [Hb _].
    apply (load_le_word_short 32) in Hb. destruct Hb as [_ Hb]. eapply Z.le_trans; [apply Z.lt_le_incl, Hb|]. by vm_compute.
Defined.
