(* ===== verification/Standard.v ===== *)
(** Standard scripts ([src/src/script/standard.cpp]): the recognition of script templates, the
    destinations they pay to, and the scripts that pay to a destination. *)

From stdpp Require Import sets.
From S2P Require Import Prelude SphTypes Hasher Script Interpreter InterpreterProps Transaction SigHash.

#[local] Open Scope Z_scope.
#[local] Open Scope c_scope.

Inductive txnouttype :=
  | TX_NONSTANDARD | TX_PUBKEY | TX_PUBKEYHASH | TX_SCRIPTHASH | TX_MULTISIG | TX_NULL_DATA
  | TX_WITNESS_V0_SCRIPTHASH | TX_WITNESS_V0_KEYHASH | TX_DIVIDEND.

#[export] Instance txnouttype_eq_dec : EqDecision txnouttype.
Proof. solve_decision. Defined.

(** [CTxDestination] *)
Inductive CTxDestination := CNoDestination | CKeyID (id : valtype) | CScriptID (id : valtype).

#[export] Instance CTxDestination_eq_dec : EqDecision CTxDestination.
Proof. solve_decision. Defined.

(** ** Recognition *)

Definition template_pubkey : CScript := [OP_PUBKEY; OP_CHECKSIG].
Definition template_pubkeyhash : CScript := [OP_DUP; OP_HASH160; OP_PUBKEYHASH; OP_EQUALVERIFY; OP_CHECKSIG].
Definition template_multisig : CScript := [OP_SMALLINTEGER; OP_PUBKEYS; OP_SMALLINTEGER; OP_CHECKMULTISIG].

Definition key_size (vch : valtype) : bool := (vsize vch >=? 33) && (vsize vch <=? 65).

(** The inner loop for [OP_PUBKEYS]: the last instruction that was read, what follows it and the
    solutions; a failed [GetOp] leaves [OP_INVALIDOPCODE] without operand. *)
Fixpoint read_keys (fuel : nat) (opcode1 : Z) (vch1 : valtype) (pc1 : CScript) (vSolutionsRet : list valtype)
    : option (Z * valtype * CScript * list valtype) :=
  if key_size vch1 then
    match fuel with
    | O => None
    | S fuel =>
        match GetOp2 pc1 with
        | (Some (opcode1, vch1'), pc1) => read_keys fuel opcode1 vch1' pc1 (vSolutionsRet ++ [vch1])
        | (None, pc1) => Some (OP_INVALIDOPCODE, [], pc1, vSolutionsRet ++ [vch1])
        end
    end
  else Some (opcode1, vch1, pc1, vSolutionsRet).

(** [TX_MULTISIG]: the first and the last solution are the numbers of signatures and keys. *)
Definition multisig_counts (vSolutionsRet : list valtype) : option bool :=
  front ← vSolutionsRet !! 0%nat;
  m ← front !! 0%nat;
  back ← vSolutionsRet !! (length vSolutionsRet - 1)%nat;
  n ← back !! 0%nat;
  Some (negb ((m <? 1) || (n <? 1) || (m >? n) || negb (u64 (vsize vSolutionsRet - 2) =? n))).

(** What the instruction [opcode1] [vch1] does at [opcode2] of a template: the new solutions, or
    no match; the outer [None] is a failed assertion. *)
Definition match_op (opcode1 : Z) (vch1 : valtype) (opcode2 : Z) (vch2 : valtype) (vSolutionsRet : list valtype)
    : option (option (list valtype)) :=
  if opcode2 =? OP_PUBKEY then
    Some (if (vsize vch1 <? 33) || (vsize vch1 >? 65) then None else Some (vSolutionsRet ++ [vch1]))
  else if opcode2 =? OP_PUBKEYHASH then
    Some (if negb (vsize vch1 =? 20) then None else Some (vSolutionsRet ++ [vch1]))
  else if opcode2 =? OP_SMALLINTEGER then
    if (opcode1 =? OP_0) || ((opcode1 >=? OP_1) && (opcode1 <=? OP_16))
    then n ← DecodeOP_N opcode1; Some (Some (vSolutionsRet ++ [[n]])) else Some None
  else Some (if negb (opcode1 =? opcode2) || negb (bool_decide (vch1 = vch2)) then None else Some vSolutionsRet).

(** The comparison with a template.  The inner [None] is no match; otherwise the result of the
    function and the solutions.  Every round reads an instruction, so that the fuel is the length
    of the script and one; without fuel, and where an element is read from an empty vector,
    there is no result. *)
Fixpoint match_template (fuel : nat) (type : txnouttype) (pc1 pc2 : CScript) (vSolutionsRet : list valtype)
    : option (option (bool * list valtype)) :=
  match fuel with
  | O => None
  | S fuel =>
      if (length pc1 =? 0)%nat && (length pc2 =? 0)%nat then
        ok ← (if bool_decide (type = TX_MULTISIG) then multisig_counts vSolutionsRet else Some true);
        Some (Some (ok, vSolutionsRet))
      else
        match GetOp pc1, GetOp pc2 with
        | Some (opcode1, vch1, pc1), Some (opcode2, vch2, pc2) =>
            if opcode2 =? OP_PUBKEYS then
              '(opcode1, vch1, pc1, vSolutionsRet) ← read_keys (S (length pc1)) opcode1 vch1 pc1 vSolutionsRet;
              match GetOp pc2 with
              | None => Some None
              | Some (opcode2, vch2, pc2) =>
                  r ← match_op opcode1 vch1 opcode2 vch2 vSolutionsRet;
                  match r with None => Some None | Some sols => match_template fuel type pc1 pc2 sols end
              end
            else
              r ← match_op opcode1 vch1 opcode2 vch2 vSolutionsRet;
              match r with None => Some None | Some sols => match_template fuel type pc1 pc2 sols end
        | _, _ => Some None
        end
  end.

(** The scan of the templates in the order of their types *)
Fixpoint scan_templates (script : CScript) (templates : list (txnouttype * CScript)) : option (bool * txnouttype * list valtype) :=
  match templates with
  | [] => Some (false, TX_NONSTANDARD, [])
  | (type, script2) :: templates =>
      r ← match_template (S (length script)) type script script2 [];
      match r with
      | Some (ok, sols) => Some (ok, type, sols)
      | None => scan_templates script templates
      end
  end.

Definition mTemplates : list (txnouttype * CScript) :=
  [(TX_PUBKEY, template_pubkey); (TX_PUBKEYHASH, template_pubkeyhash); (TX_MULTISIG, template_multisig)].

(** [Solver]: the result, [typeRet] and [vSolutionsRet]; an unknown witness version leaves
    [typeRet] as it was. *)
Definition Solver (scriptPubKey : CScript) (typeRet : txnouttype) : option (bool * txnouttype * list valtype) :=
  if IsPayToScriptHash scriptPubKey then Some (true, TX_SCRIPTHASH, [take 20 (drop 2 scriptPubKey)])
  else if IsDividendContribution scriptPubKey then Some (true, TX_DIVIDEND, [])
  else
    match IsWitnessProgram scriptPubKey with
    | Some (witnessversion, witnessprogram) =>
        Some (if (witnessversion =? 0) && (vsize witnessprogram =? 20) then (true, TX_WITNESS_V0_KEYHASH, [witnessprogram])
              else if (witnessversion =? 0) && (vsize witnessprogram =? 32) then (true, TX_WITNESS_V0_SCRIPTHASH, [witnessprogram])
              else (false, typeRet, []))
    | None =>
        data ← (if (vsize scriptPubKey >=? 1) && at_is scriptPubKey 0 OP_RETURN then IsPushOnly (drop 1 scriptPubKey) else Some false);
        if data : bool then Some (true, TX_NULL_DATA, []) else scan_templates scriptPubKey mTemplates
    end.

Section destinations.
Context `{crypto : ScriptCrypto}.

(** [ExtractDestination]: the inner [None] is [false]. *)
Definition ExtractDestination (scriptPubKey : CScript) : option (option CTxDestination) :=
  '(ok, whichType, vSolutions) ← Solver scriptPubKey TX_NONSTANDARD;
  if negb ok then Some None
  else
    match whichType with
    | TX_PUBKEY =>
        key ← vSolutions !! 0%nat;
        Some (if negb (CPubKey_IsValid key) then None else Some (CKeyID (hash_hash160 key)))
    | TX_PUBKEYHASH => h ← vSolutions !! 0%nat; Some (Some (CKeyID h))
    | TX_SCRIPTHASH => h ← vSolutions !! 0%nat; Some (Some (CScriptID h))
    | _ => Some None
    end.

(** [ExtractDestinations]: the result, [typeRet], [addressRet] and [nRequiredRet] *)
Definition ExtractDestinations (scriptPubKey : CScript) (nRequiredRet : Z) : option (bool * txnouttype * list CTxDestination * Z) :=
  '(ok, typeRet, vSolutions) ← Solver scriptPubKey TX_NONSTANDARD;
  if negb ok then Some (false, typeRet, [], nRequiredRet)
  else
    match typeRet with
    | TX_NULL_DATA => Some (false, typeRet, [], nRequiredRet)
    | TX_MULTISIG =>
        front ← vSolutions !! 0%nat;
        m ← front !! 0%nat;
        let keys := List.filter CPubKey_IsValid (take (length vSolutions - 2) (drop 1 vSolutions)) in
        let addressRet := map (fun key => CKeyID (hash_hash160 key)) keys in
        Some (negb (length addressRet =? 0)%nat, typeRet, addressRet, m)
    | TX_DIVIDEND => Some (true, typeRet, [], nRequiredRet)
    | _ =>
        address ← ExtractDestination scriptPubKey;
        Some (match address with
              | None => (false, typeRet, [], 1)
              | Some address => (true, typeRet, [address], 1)
              end)
    end.

(** ** Scripts for destinations *)

(** [CScriptVisitor] and [GetScriptForDestination] *)
Definition GetScriptForDestination (dest : CTxDestination) : CScript :=
  match dest with
  | CNoDestination => []
  | CKeyID id => [OP_DUP; OP_HASH160] ++ push_data [] id ++ [OP_EQUALVERIFY; OP_CHECKSIG]
  | CScriptID id => [OP_HASH160] ++ push_data [] id ++ [OP_EQUAL]
  end.

Definition GetScriptForRawPubKey (pubKey : valtype) : CScript := push_data [] pubKey ++ [OP_CHECKSIG].

(** [None] is a failed assertion of [EncodeOP_N]. *)
Definition GetScriptForMultisig (nRequired : Z) (keys : list valtype) : option CScript :=
  m ← EncodeOP_N nRequired;
  n ← EncodeOP_N (vsize keys);
  Some ([m] ++ concat (map (push_data []) keys) ++ [n; OP_CHECKMULTISIG]).

Definition GetScriptForWitness (redeemscript : CScript) : option CScript :=
  '(ok, typ, vSolutions) ← Solver redeemscript TX_NONSTANDARD;
  match (if ok : bool then typ else TX_NONSTANDARD) with
  | TX_PUBKEY => key ← vSolutions !! 0%nat; Some ([OP_0] ++ push_data [] (hash_hash160 key))
  | TX_PUBKEYHASH => h ← vSolutions !! 0%nat; Some ([OP_0] ++ push_data [] h)
  | _ => Some ([OP_0] ++ push_data [] (hash_sha256 redeemscript))
  end.
End destinations.

(** ** The shapes of standard scripts *)

(** [reads pc l pc']: the instructions [l] take [pc] to [pc']. *)
Inductive reads : CScript -> list (Z * valtype) -> CScript -> Prop :=
  | reads_nil pc : reads pc [] pc
  | reads_cons pc opcode vch pc1 l pc2 :
      GetOp pc = Some (opcode, vch, pc1) -> reads pc1 l pc2 -> reads pc ((opcode, vch) :: l) pc2.

(** The opcode of a small number *)
Definition OP_N (n : Z) : Z := OP_1 + n - 1.

Inductive standard : CScript -> txnouttype -> list valtype -> Prop :=
  | standard_scripthash h : vsize h = 20 -> standard ([OP_HASH160; 20] ++ h ++ [OP_EQUAL]) TX_SCRIPTHASH [h]
  | standard_dividend : standard [OP_RETURN; OP_DIVIDEND] TX_DIVIDEND []
  | standard_keyhash h : vsize h = 20 -> standard ([OP_0; 20] ++ h) TX_WITNESS_V0_KEYHASH [h]
  | standard_witness_scripthash h : vsize h = 32 -> standard ([OP_0; 32] ++ h) TX_WITNESS_V0_SCRIPTHASH [h]
  | standard_null_data data l :
      reads data l [] -> Forall (fun i => i.1 <= OP_16) l -> standard (OP_RETURN :: data) TX_NULL_DATA []
  | standard_pubkey script op key :
      reads script [(op, key); (OP_CHECKSIG, [])] [] -> key_size key -> standard script TX_PUBKEY [key]
  | standard_pubkeyhash script op h :
      reads script [(OP_DUP, []); (OP_HASH160, []); (op, h); (OP_EQUALVERIFY, []); (OP_CHECKSIG, [])] [] ->
      vsize h = 20 -> standard script TX_PUBKEYHASH [h]
  | standard_multisig script m keys :
      reads script ((OP_N m, []) :: keys ++ [(OP_N (vsize keys), []); (OP_CHECKMULTISIG, [])]) [] ->
      1 <= m <= vsize keys -> vsize keys <= 16 -> Forall (fun i => key_size i.2) keys ->
      standard script TX_MULTISIG ([[m]] ++ keys.*2 ++ [[vsize keys]]).

(** *** Instructions *)

Lemma reads_app pc l1 pc1 l2 pc2 : reads pc l1 pc1 -> reads pc1 l2 pc2 -> reads pc (l1 ++ l2) pc2.
Proof. induction 1; [done|]. intros. eapply reads_cons; eauto. Qed.

Lemma reads_app_inv pc l1 l2 pc2 : reads pc (l1 ++ l2) pc2 -> exists pc1, reads pc l1 pc1 /\ reads pc1 l2 pc2.
Proof.
  revert pc. induction l1 as [|i l1 IH]; intros pc H; [exists pc; split; [constructor|done]|].
  inversion H; subst. edestruct IH as (pc1'&?&?); [done|]. exists pc1'. split; [econstructor|]; eassumption.
Qed.

Lemma reads_one pc op v pc' : reads pc [(op, v)] pc' <-> GetOp pc = Some (op, v, pc').
Proof.
  split; [|intros H; econstructor; [exact H|constructor]].
  inversion 1 as [|????? ? Hop Hr]; subst. by inversion Hr; subst.
Qed.

Lemma reads_shorter pc l pc' : reads pc l pc' -> (length l + length pc' <= length pc)%nat.
Proof. induction 1 as [|????? ? H%GetOp_shorter]; cbn [length]; lia. Qed.

(** The operand of an opcode, and of a direct push *)
Lemma GetOp_head pc op v pc' : GetOp pc = Some (op, v, pc') -> list.head pc = Some op /\ (OP_PUSHDATA4 < op -> v = []).
Proof. intros (pre&->&H)%GetOp_split. split; [done|]. intros. by destruct (app_eq_nil _ _ (H H0)). Qed.

Lemma GetOp_direct op pc v pc' : op < OP_PUSHDATA1 -> GetOp (op :: pc) = Some (op, v, pc') -> 0 <= op ->
  pc = v ++ pc' /\ vsize v = op.
Proof.
  intros Hop H H0. unfold GetOp, GetOp2, operand_size in H.
  assert (op <=? OP_PUSHDATA4 = true) as E by (apply Z.leb_le; unfold OP_PUSHDATA1, OP_PUSHDATA4 in *; lia).
  rewrite E in H. apply Z.ltb_lt in Hop. rewrite Hop in H.
  destruct (Z.ltb_spec (u32 (vsize pc)) op) as [|Hs]; [done|]. injection H as <- <-.
  split; [by rewrite take_drop|]. unfold vsize. rewrite length_take.
  assert (u32 (vsize pc) <= vsize pc) by (unfold u32; apply Z.mod_le; [apply vsize_nonneg|lia]).
  unfold vsize in *. lia.
Qed.

(** *** The comparison with a template *)

Lemma GetOp_of_GetOp2 pc op v pc' : GetOp pc = Some (op, v, pc') <-> GetOp2 pc = (Some (op, v), pc').
Proof. unfold GetOp. destruct (GetOp2 pc) as [[[??]|] ?]; split; congruence. Qed.

Lemma GetOp2_rest pc r pc' : GetOp2 pc = (r, pc') -> (length pc' <= length pc)%nat.
Proof.
  destruct r as [[op v]|].
  { intros H%GetOp_of_GetOp2%GetOp_shorter. lia. }
  unfold GetOp2, operand_size. destruct pc as [|o pc]; [by intros [= <-]|].
  repeat case_match; intros [= <-]; simplify_eq; cbn [length]; rewrite ?length_drop; lia.
Qed.

Lemma read_keys_total fuel op v pc sols : (length pc < fuel)%nat ->
  exists op' v' pc' sols', read_keys fuel op v pc sols = Some (op', v', pc', sols') /\ (length pc' <= length pc)%nat.
Proof.
  revert op v pc sols. induction fuel as [|fuel IH]; intros op v pc sols Hf; [lia|]. cbn [read_keys].
  destruct (key_size v); [|by eauto 6].
  destruct (GetOp2 pc) as [[[op1 v1]|] pc1] eqn:E.
  - pose proof (proj2 (GetOp_of_GetOp2 _ _ _ _) E) as Hs%GetOp_shorter.
    destruct (IH op1 v1 pc1 (sols ++ [v])) as (?&?&?&?&->&?); [lia|]. do 4 eexists. split; [done|lia].
  - apply GetOp2_rest in E. by eauto 8.
Qed.

(** The comparison does not depend on the fuel, and has a result. *)
Definition matches (type : txnouttype) (pc1 pc2 : CScript) (sols : list valtype) : option (option (bool * list valtype)) :=
  match_template (S (length pc1)) type pc1 pc2 sols.

Lemma match_template_fuel type : forall n fuel pc1 pc2 sols,
  (length pc1 <= n)%nat -> (length pc1 < fuel)%nat -> match_template fuel type pc1 pc2 sols = matches type pc1 pc2 sols.
Proof.
  induction n as [|n IH]; intros fuel pc1 pc2 sols Hn Hf; unfold matches; (destruct fuel as [|fuel]; [lia|]).
  { destruct pc1; [|cbn in Hn; lia]. done. }
  cbn [match_template]. destruct (_ && _); [done|].
  destruct (GetOp pc1) as [[[o1 v1] q1]|] eqn:E; [|done]. apply GetOp_shorter in E.
  destruct (GetOp pc2) as [[[o2 v2] q2]|]; [|done].
  destruct (o2 =? OP_PUBKEYS).
  - destruct (read_keys_total (S (length q1)) o1 v1 q1 sols) as (o&v&q&s&->&Hq); [lia|]. cbn [mbind option_bind].
    destruct (GetOp q2) as [[[o3 v3] q3]|]; [|done].
    destruct (match_op o v o3 v3 s) as [[s'|]|]; [|done..]. cbn [mbind option_bind]. rewrite !IH; [done|lia..].
  - destruct (match_op o1 v1 o2 v2 sols) as [[s'|]|]; [|done..]. cbn [mbind option_bind]. rewrite !IH; [done|lia..].
Qed.

Lemma matches_nil type pc sols :
  matches type pc [] sols =
  if (length pc =? 0)%nat then ok ← (if bool_decide (type = TX_MULTISIG) then multisig_counts sols else Some true); Some (Some (ok, sols))
  else Some None.
Proof. unfold matches. cbn [match_template]. rewrite andb_true_r. destruct (length pc =? 0)%nat; [done|]. by destruct (GetOp pc) as [[[??]?]|]. Qed.

Lemma matches_cons type pc1 op2 pc2 sols : OP_PUSHDATA4 < op2 -> op2 <> OP_PUBKEYS ->
  matches type pc1 (op2 :: pc2) sols =
  match GetOp pc1 with
  | None => Some None
  | Some (op1, v1, pc1) =>
      r ← match_op op1 v1 op2 [] sols;
      match r with None => Some None | Some sols => matches type pc1 pc2 sols end
  end.
Proof.
  intros Hop Hne. unfold matches at 1. cbn [match_template length Nat.eqb]. rewrite andb_false_r, (GetOp_opcode op2) by done.
  destruct (GetOp pc1) as [[[o1 v1] q1]|] eqn:E; [|done]. apply GetOp_shorter in E.
  apply Z.eqb_neq in Hne. rewrite Hne.
  destruct (match_op o1 v1 op2 [] sols) as [[s'|]|]; [|done..]. cbn [mbind option_bind].
  by rewrite (match_template_fuel type (length q1)) by lia.
Qed.

Lemma matches_keys type pc1 op2 pc2 sols : OP_PUSHDATA4 < op2 ->
  matches type pc1 (OP_PUBKEYS :: op2 :: pc2) sols =
  match GetOp pc1 with
  | None => Some None
  | Some (op1, v1, pc1) =>
      '(op1, v1, pc1, sols) ← read_keys (S (length pc1)) op1 v1 pc1 sols;
      r ← match_op op1 v1 op2 [] sols;
      match r with None => Some None | Some sols => matches type pc1 pc2 sols end
  end.
Proof.
  intros Hop. unfold matches at 1. cbn [match_template length Nat.eqb]. rewrite andb_false_r, (GetOp_opcode OP_PUBKEYS) by done.
  destruct (GetOp pc1) as [[[o1 v1] q1]|] eqn:E; [|done]. apply GetOp_shorter in E.
  change (OP_PUBKEYS =? OP_PUBKEYS) with true. cbv iota.
  destruct (read_keys_total (S (length q1)) o1 v1 q1 sols) as (o&v&q&s&->&Hq); [lia|]. cbn [mbind option_bind].
  rewrite (GetOp_opcode op2) by done.
  destruct (match_op o v op2 [] s) as [[s'|]|]; [|done..]. cbn [mbind option_bind].
  by rewrite (match_template_fuel type (length q)) by lia.
Qed.

(** What the operation of a template accepts *)
Lemma match_op_pubkey op v v2 sols : match_op op v OP_PUBKEY v2 sols = Some (if key_size v then Some (sols ++ [v]) else None).
Proof.
  unfold match_op, key_size. change (OP_PUBKEY =? OP_PUBKEY) with true. cbv iota.
  destruct (Z.ltb_spec (vsize v) 33), (Z.geb_spec (vsize v) 33), (Z.gtb_spec (vsize v) 65), (Z.leb_spec (vsize v) 65); first [done|lia].
Qed.

Lemma match_op_keyhash op v v2 sols : match_op op v OP_PUBKEYHASH v2 sols = Some (if vsize v =? 20 then Some (sols ++ [v]) else None).
Proof. unfold match_op. cbn. by destruct (vsize v =? 20). Qed.

Definition small_op (op : Z) : bool := (op =? OP_0) || ((op >=? OP_1) && (op <=? OP_16)).
Definition small_value (op : Z) : Z := if op =? OP_0 then 0 else op - (OP_1 - 1).

Lemma match_op_small op v v2 sols :
  match_op op v OP_SMALLINTEGER v2 sols = Some (if small_op op then Some (sols ++ [[small_value op]]) else None).
Proof.
  unfold match_op, small_op, small_value, DecodeOP_N. change (OP_SMALLINTEGER =? OP_PUBKEY) with false.
  change (OP_SMALLINTEGER =? OP_PUBKEYHASH) with false. change (OP_SMALLINTEGER =? OP_SMALLINTEGER) with true. cbv iota.
  destruct (op =? OP_0); [done|]. cbn [orb]. by destruct ((op >=? OP_1) && (op <=? OP_16)).
Qed.

Lemma match_op_exact op v op2 sols :
  op2 < OP_SMALLINTEGER -> match_op op v op2 [] sols = Some (if bool_decide (op = op2 /\ v = []) then Some sols else None).
Proof.
  intros H. unfold match_op, OP_SMALLINTEGER, OP_PUBKEY, OP_PUBKEYHASH in *.
  repeat match goal with |- context [op2 =? ?c] => destruct (Z.eqb_spec op2 c); [lia|] end.
  destruct (Z.eqb_spec op op2), (decide (v = [])) as [->|]; cbn [negb orb]; repeat case_bool_decide; naive_solver.
Qed.

(** *** The three templates *)

Lemma reads_cons_iff pc op v l pc2 :
  reads pc ((op, v) :: l) pc2 <-> exists pc1, GetOp pc = Some (op, v, pc1) /\ reads pc1 l pc2.
Proof. split; [inversion 1; subst; eauto|]. intros (?&?&?). by eapply reads_cons. Qed.

Lemma reads_nil_iff pc pc' : reads pc [] pc' <-> pc = pc'.
Proof. split; [by inversion 1|]. intros ->. constructor. Qed.

Definition accepts (r : option (bool * list valtype)) (P : list valtype -> Prop) : Prop :=
  forall ok sols, r = Some (ok, sols) <-> ok = true /\ P sols.

Lemma accepts_none (P : list valtype -> Prop) : (forall sols, ~ P sols) -> accepts None P.
Proof. intros H ok sols. split; [done|]. intros [_ HP]. by destruct (H sols). Qed.

#[local] Instance accepts_proper r : Proper (pointwise_relation _ iff ==> iff) (accepts r).
Proof. intros P Q H. unfold accepts. by setoid_rewrite H. Qed.

(** One operation of a template: it fails, or leaves the rest of the script to the rest of the
    template. *)
Lemma accepts_step type pc1 op2 pc2 sols (c : Z -> valtype -> bool) (f : Z -> valtype -> list valtype) (P : list valtype -> Prop) :
  OP_PUSHDATA4 < op2 -> op2 <> OP_PUBKEYS ->
  (forall op v, match_op op v op2 [] sols = Some (if c op v then Some (f op v) else None)) ->
  (forall op v pc, GetOp pc1 = Some (op, v, pc) -> c op v = true ->
    exists r, matches type pc pc2 (f op v) = Some r /\ accepts r P) ->
  ((forall op v pc, GetOp pc1 = Some (op, v, pc) -> c op v = false) -> forall sols, ~ P sols) ->
  exists r, matches type pc1 (op2 :: pc2) sols = Some r /\ accepts r P.
Proof.
  intros Hop Hne Hm Hok Hno. rewrite matches_cons by done.
  destruct (GetOp pc1) as [[[op v] pc]|]; [|exists None; split; [done|apply accepts_none, Hno; done]].
  rewrite Hm. cbn [mbind option_bind]. destruct (c op v) eqn:E; [by eapply Hok|].
  exists None. split; [done|]. apply accepts_none, Hno. by intros ??? [= <- <- <-].
Qed.

Lemma accepts_exact type pc1 op2 pc2 sols (P : list valtype -> Prop) :
  OP_PUSHDATA4 < op2 < OP_SMALLINTEGER ->
  (forall pc, GetOp pc1 = Some (op2, [], pc) -> exists r, matches type pc pc2 sols = Some r /\ accepts r P) ->
  ((forall pc, GetOp pc1 <> Some (op2, [], pc)) -> forall sols, ~ P sols) ->
  exists r, matches type pc1 (op2 :: pc2) sols = Some r /\ accepts r P.
Proof.
  intros Hop Hok Hno. apply (accepts_step _ _ _ _ _ (fun op v => bool_decide (op = op2 /\ v = [])) (fun _ _ => sols)).
  - lia.
  - unfold OP_SMALLINTEGER, OP_PUBKEYS in *. lia.
  - intros. apply match_op_exact. lia.
  - intros op v pc HG [-> ->]%bool_decide_eq_true. by apply Hok.
  - intros Hf. apply Hno. intros pc HG%Hf. apply bool_decide_eq_false in HG. naive_solver.
Qed.

Lemma accepts_end type pc sols (P : list valtype -> Prop) : type <> TX_MULTISIG ->
  (pc = [] -> forall s, P s <-> s = sols) -> (pc <> [] -> forall s, ~ P s) ->
  exists r, matches type pc [] sols = Some r /\ accepts r P.
Proof.
  intros Ht H1 H2. rewrite matches_nil. rewrite bool_decide_false by done. destruct pc as [|x pc]; cbn [length Nat.eqb mbind option_bind].
  - eexists. split; [done|]. intros ok s. rewrite H1 by done. naive_solver.
  - exists None. split; [done|]. by apply accepts_none, H2.
Qed.

Lemma matches_pubkey s :
  exists r, matches TX_PUBKEY s template_pubkey [] = Some r /\
    accepts r (fun sols => exists op key, reads s [(op, key); (OP_CHECKSIG, [])] [] /\ key_size key /\ sols = [key]).
Proof.
  setoid_rewrite reads_cons_iff. setoid_rewrite reads_cons_iff. setoid_rewrite reads_nil_iff. unfold template_pubkey.
  apply (accepts_step _ _ _ _ _ (fun _ v => key_size v) (fun _ v => [v])); [done|done|intros; apply match_op_pubkey| |].
  - intros op v pc HG Hk. apply accepts_exact; [done| |].
    + intros pc' HG'. apply accepts_end; [done| |]; intros; subst; naive_solver.
    + naive_solver.
  - intros Hf sols (op&key&(pc&HG%Hf&_)&Hk&_). by rewrite HG in Hk.
Qed.

Lemma matches_pubkeyhash s :
  exists r, matches TX_PUBKEYHASH s template_pubkeyhash [] = Some r /\
    accepts r (fun sols => exists op h,
      reads s [(OP_DUP, []); (OP_HASH160, []); (op, h); (OP_EQUALVERIFY, []); (OP_CHECKSIG, [])] [] /\
      vsize h = 20 /\ sols = [h]).
Proof.
  do 5 setoid_rewrite reads_cons_iff. setoid_rewrite reads_nil_iff. unfold template_pubkeyhash.
  apply accepts_exact; [done| |naive_solver]. intros pc1 H1.
  apply accepts_exact; [done| |naive_solver]. intros pc2 H2.
  apply (accepts_step _ _ _ _ _ (fun _ v => vsize v =? 20) (fun _ v => [v])); [done|done|intros; apply match_op_keyhash| |].
  - intros op h pc3 H3 Hh%Z.eqb_eq. apply accepts_exact; [done| |naive_solver]. intros pc4 H4.
    apply accepts_exact; [done| |naive_solver]. intros pc5 H5. apply accepts_end; [done| |]; intros; subst; naive_solver.
  - intros Hf sols (op&h&Hr&Hh&_). destruct Hr as (?&Ha&?&Hb&?&Hc&_). simplify_eq. apply Hf, Z.eqb_neq in Hc. done.
Qed.

Lemma read_keys_inv fuel op v pc sols op' v' pc' sols' :
  read_keys fuel op v pc sols = Some (op', v', pc', sols') -> op' <> OP_INVALIDOPCODE ->
  exists keys l, (op, v) :: l = keys ++ [(op', v')] /\ reads pc l pc' /\ Forall (fun i => key_size i.2) keys /\
    sols' = sols ++ keys.*2.
Proof.
  revert op v pc sols. induction fuel as [|fuel IH]; intros op v pc sols; cbn [read_keys]; destruct (key_size v) eqn:Ek; try done.
  - intros [= <- <- <- <-] _. exists [], []. rewrite app_nil_r. repeat constructor.
  - destruct (GetOp2 pc) as [[[op1 v1]|] pc1] eqn:E; [|by intros [= <- <- <- <-]].
    intros Hrk Hop. destruct (IH _ _ _ _ Hrk Hop) as (keys&l&Hl&Hr&Hk&->). exists ((op, v) :: keys), ((op1, v1) :: l).
    split; [by rewrite Hl|]. split; [eapply reads_cons; [by apply GetOp_of_GetOp2|done]|]. split; [constructor; [cbn [snd]; by rewrite Ek|done]|].
    cbn [fmap list_fmap]. by rewrite <- app_assoc.
  - intros [= <- <- <- <-] _. exists [], []. rewrite app_nil_r. repeat constructor.
Qed.

Lemma read_keys_ok fuel op v pc sols keys l op' v' pc' :
  (op, v) :: l = keys ++ [(op', v')] -> reads pc l pc' -> Forall (fun i => key_size i.2) keys -> key_size v' = false ->
  (length pc < fuel)%nat -> read_keys fuel op v pc sols = Some (op', v', pc', sols ++ keys.*2).
Proof.
  revert fuel op v pc sols l. induction keys as [|[o k] keys IH]; intros fuel op v pc sols l Hl Hr Hk Hv Hf; cbn [app] in Hl.
  - injection Hl as -> -> ->. apply reads_nil_iff in Hr as ->. destruct fuel; cbn [read_keys]; rewrite Hv; by rewrite app_nil_r.
  - injection Hl as -> -> ->. apply list.Forall_cons in Hk as [Hk1 Hk]. cbn [snd] in Hk1.
    destruct fuel as [|fuel]; [lia|]. cbn [read_keys]. destruct (key_size k) eqn:Ek; [|done].
    destruct (keys ++ [(op', v')]) as [|[o1 k1] l1] eqn:E; [by destruct keys|].
    apply reads_cons_iff in Hr as (pc1&HG&Hr). pose proof (GetOp_shorter _ _ _ _ HG).
    apply GetOp_of_GetOp2 in HG as ->. rewrite (IH _ _ _ _ _ l1) by (done || lia).
    cbn [fmap list_fmap]. by rewrite <- app_assoc.
Qed.

Lemma multisig_counts_ok m n (ks : list valtype) : vsize ks < 2 ^ 64 ->
  multisig_counts ([[m]] ++ ks ++ [[n]]) = Some (negb ((m <? 1) || (n <? 1) || (m >? n) || negb (vsize ks =? n))).
Proof.
  intros Hs. unfold multisig_counts.
  replace ((length ([[m]] ++ ks ++ [[n]]) - 1)%nat) with (length ([m] :: ks)).
  2:{ cbn [app length]. rewrite length_app. cbn [length]. lia. }
  change ([[m]] ++ ks ++ [[n]]) with (([m] :: ks) ++ [[n]]) at 2. rewrite list_lookup_middle by done.
  cbn [lookup list_lookup app mbind option_bind].
  replace (vsize ([m] :: ks ++ [[n]]) - 2) with (vsize ks) by (unfold vsize; cbn [length]; rewrite length_app; cbn [length]; lia).
  unfold u64. rewrite Z.mod_small by (pose proof (vsize_nonneg ks); lia). done.
Qed.

Lemma small_op_N op n : small_op op = true -> 1 <= small_value op -> small_value op = n -> op = OP_N n.
Proof. unfold small_op, small_value, OP_N, OP_1. destruct (op =? OP_0); lia. Qed.

Lemma small_N n : 1 <= n <= 16 -> small_op (OP_N n) = true /\ small_value (OP_N n) = n /\ OP_PUSHDATA4 < OP_N n.
Proof.
  unfold small_op, small_value, OP_N, OP_1, OP_0, OP_16, OP_PUSHDATA4. intros.
  destruct (Z.eqb_spec (0x51 + n - 1) 0); [lia|]. destruct (Z.geb_spec (0x51 + n - 1) 0x51); [|lia].
  destruct (Z.leb_spec (0x51 + n - 1) 0x60); [|lia]. repeat split; lia.
Qed.

Definition multisig_shape (s : CScript) (sols : list valtype) : Prop :=
  exists m keys,
    reads s ((OP_N m, []) :: keys ++ [(OP_N (vsize keys), []); (OP_CHECKMULTISIG, [])]) [] /\
    1 <= m <= vsize keys /\ vsize keys <= 16 /\ Forall (fun i => key_size i.2) keys /\
    sols = [[m]] ++ keys.*2 ++ [[vsize keys]].

Lemma matches_multisig_ok s sols : vsize s < 2 ^ 64 ->
  multisig_shape s sols -> matches TX_MULTISIG s template_multisig [] = Some (Some (true, sols)).
Proof.
  intros Hs (m&keys&Hr&Hm&Hn&Hk&->). destruct (small_N m) as (Hm1&Hm2&_); [lia|].
  destruct (small_N (vsize keys)) as (Hn1&Hn2&_); [lia|].
  apply reads_cons_iff in Hr as (pc1&HG1&Hr). unfold template_multisig.
  rewrite matches_cons, HG1, match_op_small, Hm1, Hm2 by done. cbn [mbind option_bind app].
  rewrite matches_keys by done.
  change [(OP_N (vsize keys), []); (OP_CHECKMULTISIG, [])] with ([(OP_N (vsize keys), [])] ++ [(OP_CHECKMULTISIG, [] : valtype)]) in Hr.
  rewrite app_assoc in Hr. apply reads_app_inv in Hr as (pc4&Hr&Hc).
  destruct (keys ++ [(OP_N (vsize keys), [])]) as [|[o1 v1] l] eqn:El; [by destruct keys|].
  apply reads_cons_iff in Hr as (pc2&HG2&Hr). rewrite HG2.
  rewrite (read_keys_ok _ o1 v1 pc2 _ keys l (OP_N (vsize keys)) [] pc4) by (done || lia).
  cbn [mbind option_bind]. rewrite match_op_small, Hn1, Hn2. cbn [mbind option_bind].
  apply reads_one in Hc. rewrite matches_cons, Hc, match_op_exact by done. cbn [mbind option_bind].
  rewrite bool_decide_true by done. rewrite matches_nil. cbn [length Nat.eqb]. rewrite bool_decide_true by done.
  change ([[m]] ++ keys.*2) with ([m] :: keys.*2). cbn [app].
  change ([m] :: keys.*2 ++ [[vsize keys]]) with ([[m]] ++ keys.*2 ++ [[vsize keys]]).
  assert (vsize keys.*2 = vsize keys) as Ev by (unfold vsize; by rewrite length_fmap).
  rewrite multisig_counts_ok by lia. rewrite Ev, Z.eqb_refl.
  destruct (Z.ltb_spec m 1); [lia|]. destruct (Z.ltb_spec (vsize keys) 1); [lia|]. by destruct (Z.gtb_spec m (vsize keys)); [lia|].
Qed.

Lemma small_op_valid op : small_op op = true -> op <> OP_INVALIDOPCODE.
Proof. intros H ->. done. Qed.

Lemma GetOp_operand pc op v pc' : GetOp pc = Some (op, v, pc') -> OP_PUSHDATA4 < op -> v = [].
Proof. intros [_ H]%GetOp_head. exact H. Qed.

Lemma matches_multisig s : vsize s < 2 ^ 64 ->
  exists r, matches TX_MULTISIG s template_multisig [] = Some r /\ forall sols, r = Some (true, sols) <-> multisig_shape s sols.
Proof.
  intros Hs.
  enough (exists r, matches TX_MULTISIG s template_multisig [] = Some r /\ forall sols, r = Some (true, sols) -> multisig_shape s sols)
    as (r&Hr&H).
  { exists r. split; [done|]. intros sols. split; [apply H|]. intros Hm%matches_multisig_ok; [congruence|done]. }
  unfold template_multisig. rewrite matches_cons by done. destruct (GetOp s) as [[[om vm] pc1]|] eqn:HG1; [|by eexists].
  rewrite match_op_small. cbn [mbind option_bind]. destruct (small_op om) eqn:Hm; [|by eexists].
  rewrite matches_keys by done. destruct (GetOp pc1) as [[[o1 v1] pc2]|] eqn:HG2; [|by eexists].
  destruct (read_keys_total (S (length pc2)) o1 v1 pc2 ([] ++ [[small_value om]])) as (o&v&pc3&sols'&E&_); [lia|].
  rewrite E. cbn [mbind option_bind]. rewrite match_op_small. cbn [mbind option_bind].
  destruct (small_op o) eqn:Ho; [|by eexists].
  apply read_keys_inv in E as (keys&l&El&Hr&Hk&->); [|by apply small_op_valid].
  rewrite matches_cons by done. destruct (GetOp pc3) as [[[oc vc] pc4]|] eqn:HG3; [|by eexists].
  rewrite match_op_exact by done. cbn [mbind option_bind].
  case_bool_decide as Hc; [destruct Hc as [-> ->]|by eexists].
  rewrite matches_nil. destruct pc4 as [|]; [|by eexists]. cbn [length Nat.eqb]. rewrite bool_decide_true by done.
  assert (vsize keys.*2 = vsize keys) as Ev by (unfold vsize; by rewrite length_fmap).
  assert (vsize keys < 2 ^ 64) as Hs2.
  { apply reads_shorter in Hr. apply GetOp_shorter in HG1. apply GetOp_shorter in HG2.
    apply (f_equal length) in El. rewrite length_app in El. cbn [length] in El. unfold vsize in *. lia. }
  rewrite <- app_assoc. cbn [app]. change ([small_value om] :: keys.*2 ++ [[small_value o]]) with ([[small_value om]] ++ keys.*2 ++ [[small_value o]]).
  rewrite multisig_counts_ok by lia. cbn [mbind option_bind]. eexists. split; [done|]. intros sols [= Hok <-].
  rewrite Ev in Hok. apply negb_true_iff in Hok. rewrite !orb_false_iff in Hok. destruct Hok as [[[H1 H2] H3] H4].
  rewrite Z.ltb_ge in H1, H2. apply negb_false_iff, Z.eqb_eq in H4. rewrite Z.gtb_ltb, Z.ltb_ge in H3.
  pose proof (small_op_N om (small_value om) Hm H1 eq_refl) as Eom. pose proof (small_op_N o (vsize keys) Ho H2 (eq_sym H4)) as Eo.
  assert (vsize keys <= 16) as H16.
  { rewrite H4. unfold small_op in Ho. unfold small_value. destruct (o =? OP_0); [lia|]. unfold OP_1, OP_16 in *. lia. }
  destruct (small_N (small_value om)) as (_&_&Lm); [lia|]. destruct (small_N (vsize keys)) as (_&_&Ln); [lia|].
  exists (small_value om), keys. rewrite <- Eom, <- Eo. split; [|by repeat split; [..|rewrite <- H4]; lia || done].
  rewrite <- Eom in Lm. rewrite <- Eo in Ln.
  assert (vm = []) as -> by (by eapply GetOp_operand). eapply reads_cons; [exact HG1|].
  change [(o, []); (OP_CHECKMULTISIG, [])] with ([(o, [] : valtype)] ++ [(OP_CHECKMULTISIG, [] : valtype)]).
  rewrite app_assoc. eapply reads_app; [|apply reads_one; exact HG3].
  assert (reads pc1 ((o1, v1) :: l) pc3) as Hr1 by (by eapply reads_cons).
  rewrite El in Hr1. assert (v = []) as ->; [|done].
  apply reads_app_inv in Hr1 as (pc'&_&HG%reads_one). by eapply GetOp_operand.
Qed.

(** *** The tests on the bytes *)

Lemma at_is_true s i b : at_is s i b = true <-> s !! i = Some b.
Proof. apply bool_decide_eq_true. Qed.

Lemma IsPayToScriptHash_iff s : IsPayToScriptHash s = true <-> exists h, vsize h = 20 /\ s = [OP_HASH160; 20] ++ h ++ [OP_EQUAL].
Proof.
  unfold IsPayToScriptHash. rewrite !andb_true_iff, !at_is_true, Z.eqb_eq. split.
  - intros [[[Hs H0] H1] H2]. destruct s as [|x0 [|x1 s]]; [done..|]. cbn in H0, H1. injection H0 as ->. injection H1 as ->.
    rewrite !vsize_cons in Hs. change (s !! 20%nat = Some OP_EQUAL) in H2.
    exists (take 20 s). unfold vsize in Hs. split; [unfold vsize; rewrite length_take; lia|].
    cbn [app]. do 2 f_equal. rewrite <- (take_drop 20 s) at 1. f_equal.
    rewrite (drop_S s OP_EQUAL 20) by done. f_equal. apply drop_ge. lia.
  - intros (h&Hh&->). unfold vsize in *. cbn [app length]. rewrite length_app. cbn [length].
    split; [split; [split; [lia|done]|done]|]. cbn. change ((h ++ [OP_EQUAL]) !! 20%nat = Some OP_EQUAL).
    by rewrite list_lookup_middle by lia.
Qed.

Lemma IsDividend_iff s : IsDividendContribution s = true <-> s = [OP_RETURN; OP_DIVIDEND].
Proof.
  unfold IsDividendContribution. rewrite !andb_true_iff, !at_is_true, Z.eqb_eq. split; [|by intros ->].
  intros [[Hs H0] H1]. destruct s as [|x0 [|x1 [|x2 s]]]; [done..| |unfold vsize in Hs; cbn [length] in Hs; lia].
  cbn in H0, H1. by simplify_eq.
Qed.

Lemma IsWitness_iff s v p :
  IsWitnessProgram s = Some (v, p) <->
  exists op n, s = op :: n :: p /\ small_op op = true /\ small_value op = v /\ n = vsize p /\ 2 <= n <= 40.
Proof.
  unfold IsWitnessProgram. split.
  - destruct (_ || _) eqn:E; [done|]. rewrite orb_false_iff in E. destruct E as [E1 E2].
    rewrite Z.ltb_ge in E1. rewrite Z.gtb_ltb, Z.ltb_ge in E2. destruct s as [|op [|n s]]; [done..|].
    rewrite !vsize_cons in *. destruct (_ && _) eqn:Eo; [done|]. destruct (Z.eqb_spec (n + 2) (vsize s + 1 + 1)); [|done].
    unfold DecodeOP_N, small_op, small_value.
    destruct (op =? OP_0) eqn:E0; [intros [= <- <-]; exists op, n; repeat split; rewrite ?E0; lia|].
    destruct ((op >=? OP_1) && (op <=? OP_16)) eqn:Er; [|done]. intros [= <- <-]. exists op, n. rewrite E0. repeat split; (done || lia).
  - intros (op&n&->&Hop&Hv&->&Hn). rewrite !vsize_cons.
    destruct (Z.ltb_spec (vsize p + 1 + 1) 4); [lia|]. destruct (Z.gtb_spec (vsize p + 1 + 1) 42); [lia|]. cbn [orb].
    destruct (Z.eqb_spec (vsize p + 2) (vsize p + 1 + 1)); [|lia].
    unfold small_op, small_value, DecodeOP_N in *. destruct (op =? OP_0); [by subst|]. cbn [orb negb andb] in *.
    rewrite Hop. replace ((op <? OP_1) || (op >? OP_16)) with false by (unfold OP_1, OP_16 in *; lia). cbn. by subst.
Qed.

Lemma push_only_iff fuel s : (length s <= fuel)%nat ->
  push_only_loop fuel s = Some true <-> exists l, reads s l [] /\ Forall (fun i => i.1 <= OP_16) l.
Proof.
  revert s. induction fuel as [|fuel IH]; intros s Hf; (destruct s as [|x s]; [split; [by exists []; repeat constructor|done]|]); [cbn in Hf; lia|].
  cbn [push_only_loop]. remember (x :: s) as q. destruct (GetOp q) as [[[op v] pc]|] eqn:E.
  - pose proof (GetOp_shorter _ _ _ _ E). destruct (Z.gtb_spec op OP_16).
    + split; [done|]. intros (l&Hl&Ha). destruct l as [|[o w] l]; [apply reads_nil_iff in Hl; by subst|].
      apply reads_cons_iff in Hl as (?&Hl&_). simplify_eq. apply list.Forall_cons in Ha as [Ha _]. cbn in Ha. lia.
    + rewrite IH by lia. split; intros (l&Hl&Ha).
      * exists ((op, v) :: l). split; [by eapply reads_cons|]. constructor; [cbn; lia|done].
      * destruct l as [|[o w] l]; [apply reads_nil_iff in Hl; by subst|].
        apply reads_cons_iff in Hl as (?&Hl&?). simplify_eq. apply list.Forall_cons in Ha as [_ Ha]. eauto.
  - split; [done|]. intros (l&Hl&_). destruct l as [|[o w] l]; [apply reads_nil_iff in Hl; by subst|].
    apply reads_cons_iff in Hl as (?&Hl&_). congruence.
Qed.

(** The scripts that reach the templates *)
Definition templated (s : CScript) : Prop :=
  IsPayToScriptHash s = false /\ IsDividendContribution s = false /\ IsWitnessProgram s = None /\ at_is s 0 OP_RETURN = false.

Lemma Solver_templated s t : templated s -> Solver s t = scan_templates s mTemplates.
Proof. intros (H1&H2&H3&H4). unfold Solver. rewrite H1, H2, H3, H4, andb_false_r. done. Qed.

Lemma templated_first s op v pc :
  GetOp s = Some (op, v, pc) -> op <> OP_HASH160 -> op <> OP_RETURN -> IsWitnessProgram s = None -> templated s.
Proof.
  intros [Hh _]%GetOp_head H1 H2 Hw. destruct s as [|x s]; [done|]. injection Hh as ->.
  repeat split; [..|done|]; apply not_true_is_false.
  - intros (h&_&Eh)%IsPayToScriptHash_iff. cbn [app] in Eh. congruence.
  - intros Ed%IsDividend_iff. congruence.
  - intros Hx%at_is_true. by injection Hx.
Qed.

Lemma key_op pc op v pc' : GetOp pc = Some (op, v, pc') -> key_size v -> op <= OP_PUSHDATA4 /\ op <> OP_0.
Proof.
  intros HG Hk. split.
  - destruct (Z.le_gt_cases op OP_PUSHDATA4) as [|Hgt]; [done|]. apply GetOp_operand in HG; [by subst|lia].
  - intros ->. pose proof (GetOp_head _ _ _ _ HG) as [Hh _]. destruct pc as [|x pc]; [done|]. injection Hh as ->.
    apply GetOp_direct in HG as [_ Hv]; [|done..]. unfold key_size in Hk. rewrite Hv in Hk. done.
Qed.

Lemma first_no_witness s op v pc : GetOp s = Some (op, v, pc) -> small_op op = false -> IsWitnessProgram s = None.
Proof.
  intros [Hh _]%GetOp_head Ho. destruct (IsWitnessProgram s) as [[w p]|] eqn:E; [|done].
  apply IsWitness_iff in E as (o&n&->&Hs&_). injection Hh as ->. congruence.
Qed.

(** A multisignature script is no witness program: the program would be the first key alone. *)
Lemma multisig_no_witness s op o key l pc :
  reads s ((op, []) :: (o, key) :: l) pc -> l <> [] -> 0x51 <= op -> IsWitnessProgram s = None.
Proof.
  intros Hr Hl Hop. destruct (IsWitnessProgram s) as [[w p]|] eqn:E; [|done].
  apply IsWitness_iff in E as (op'&n&->&_&_&->&Hn).
  apply reads_cons_iff in Hr as (pc1&HG&Hr). pose proof (GetOp_head _ _ _ _ HG) as [Hh _]. injection Hh as ->.
  rewrite GetOp_opcode in HG by (unfold OP_PUSHDATA4; lia). injection HG as <-.
  apply reads_cons_iff in Hr as (pc2&HG&Hr). pose proof (GetOp_head _ _ _ _ HG) as [Hh _]. injection Hh as <-.
  apply GetOp_direct in HG as [-> Hv]; [|unfold OP_PUSHDATA1; lia..].
  assert (pc2 = []) as ->. { unfold vsize in Hv. rewrite length_app in Hv. apply nil_length_inv. lia. }
  destruct l as [|[o1 k1] l]; [done|]. by apply reads_cons_iff in Hr as (?&?&_).
Qed.

(** *** The order of the templates *)

Lemma scan_unfold s :
  scan_templates s mTemplates =
  r1 ← matches TX_PUBKEY s template_pubkey [];
  match r1 with
  | Some (ok, sols) => Some (ok, TX_PUBKEY, sols)
  | None =>
      r2 ← matches TX_PUBKEYHASH s template_pubkeyhash [];
      match r2 with
      | Some (ok, sols) => Some (ok, TX_PUBKEYHASH, sols)
      | None =>
          r3 ← matches TX_MULTISIG s template_multisig [];
          Some (match r3 with Some (ok, sols) => (ok, TX_MULTISIG, sols) | None => (false, TX_NONSTANDARD, []) end)
      end
  end.
Proof.
  unfold scan_templates, mTemplates, matches. destruct (match_template _ TX_PUBKEY _ _ _) as [[[??]|]|]; [done| |done].
  cbn [mbind option_bind]. destruct (match_template _ TX_PUBKEYHASH _ _ _) as [[[??]|]|]; [done| |done].
  cbn [mbind option_bind]. by destruct (match_template _ TX_MULTISIG _ _ _) as [[[??]|]|].
Qed.

Definition template_shape (s : CScript) (T : txnouttype) (sols : list valtype) : Prop :=
  match T with
  | TX_PUBKEY => exists op key, reads s [(op, key); (OP_CHECKSIG, [])] [] /\ key_size key /\ sols = [key]
  | TX_PUBKEYHASH =>
      exists op h, reads s [(OP_DUP, []); (OP_HASH160, []); (op, h); (OP_EQUALVERIFY, []); (OP_CHECKSIG, [])] [] /\
        vsize h = 20 /\ sols = [h]
  | TX_MULTISIG => multisig_shape s sols
  | _ => False
  end.

(** The first instruction tells the templates apart. *)
Lemma template_first s T sols : template_shape s T sols ->
  exists op v l, reads s ((op, v) :: l) [] /\
    match T with TX_PUBKEY => key_size v = true | TX_PUBKEYHASH => op = OP_DUP /\ v = [] | _ => 0x51 <= op <= 0x60 /\ v = [] end.
Proof.
  destruct T; cbn; try done.
  - intros (op&key&Hr&Hk&_). exists op, key. eexists. split; [exact Hr|]. by destruct (key_size key).
  - intros (op&h&Hr&_). do 3 eexists. split; [exact Hr|done].
  - intros (m&keys&Hr&Hm&Hn&_). do 3 eexists. split; [exact Hr|]. unfold OP_N, OP_1. split; [lia|done].
Qed.

Lemma template_unique s T1 S1 T2 S2 : template_shape s T1 S1 -> template_shape s T2 S2 -> T1 = T2.
Proof.
  intros H1 H2. pose proof (template_first _ _ _ H1) as (o1&v1&l1&R1&C1). pose proof (template_first _ _ _ H2) as (o2&v2&l2&R2&C2).
  apply reads_cons_iff in R1 as (p1&G1&_). apply reads_cons_iff in R2 as (p2&G2&_). simplify_eq.
  destruct T1, T2; try done; cbn in C1, C2; destruct_and?; subst; first [done|unfold OP_DUP in *; lia].
Qed.

Lemma scan_spec s : vsize s < 2 ^ 64 ->
  exists ok T S, scan_templates s mTemplates = Some (ok, T, S) /\ forall T' S', (ok, T, S) = (true, T', S') <-> template_shape s T' S'.
Proof.
  intros Hs. rewrite scan_unfold.
  destruct (matches_pubkey s) as (r1&->&A1), (matches_pubkeyhash s) as (r2&->&A2), (matches_multisig s Hs) as (r3&->&A3).
  cbn [mbind option_bind]. destruct r1 as [[ok1 s1]|].
  { destruct (A1 ok1 s1) as [[-> H1] _]; [done|]. do 3 eexists. split; [done|]. intros T' S'. split; [by intros [= <- <-]|].
    intros H2. pose proof (template_unique s TX_PUBKEY s1 _ _ H1 H2) as <-. pose proof (proj2 (A1 true S') (conj eq_refl H2)). by simplify_eq. }
  destruct r2 as [[ok2 s2]|].
  { destruct (A2 ok2 s2) as [[-> H1] _]; [done|]. do 3 eexists. split; [done|]. intros T' S'. split; [by intros [= <- <-]|].
    intros H2. pose proof (template_unique s TX_PUBKEYHASH s2 _ _ H1 H2) as <-. pose proof (proj2 (A2 true S') (conj eq_refl H2)). by simplify_eq. }
  assert (forall T' S', template_shape s T' S' -> T' = TX_MULTISIG /\ r3 = Some (true, S')) as HT.
  { intros T' S' H. destruct T'; try done; [by pose proof (proj2 (A1 true S') (conj eq_refl H))|by pose proof (proj2 (A2 true S') (conj eq_refl H))|].
    split; [done|]. by apply A3. }
  destruct r3 as [[ok s3]|]; do 3 eexists; (split; [done|]); intros T' S'; split.
  - intros [= -> <- <-]. by apply A3.
  - intros [-> ?]%HT. by simplify_eq.
  - done.
  - by intros [_ ?]%HT.
Qed.

Lemma template_templated s T S : template_shape s T S -> templated s.
Proof.
  intros H. pose proof (template_first _ _ _ H) as (op&v&l&Hr&C). pose proof Hr as (pc&HG&_)%reads_cons_iff.
  destruct T; try done; cbn in C.
  - destruct (key_op _ _ _ _ HG) as [? ?]; [by rewrite C|]. unfold OP_PUSHDATA4, OP_0 in *.
    eapply templated_first; [exact HG|unfold OP_HASH160, OP_RETURN; lia..|]. eapply first_no_witness; [exact HG|].
    unfold small_op, OP_0, OP_1. lia.
  - destruct C as [-> ->]. eapply templated_first; [exact HG|done..|]. by eapply first_no_witness; [exact HG|].
  - destruct C as [C ->]. eapply templated_first; [exact HG|unfold OP_HASH160, OP_RETURN; lia..|].
    destruct H as (m&keys&Hk&Hm&_). destruct keys as [|[o key] keys]; [unfold vsize in Hm; cbn in Hm; lia|].
    cbn [app] in Hk. eapply multisig_no_witness; [exact Hk|by destruct keys|unfold OP_N, OP_1; lia].
Qed.

(** The kinds that are recognised by their bytes *)
Definition byte_shape (s : CScript) (T : txnouttype) (sols : list valtype) : Prop :=
  match T with
  | TX_SCRIPTHASH => exists h, vsize h = 20 /\ s = [OP_HASH160; 20] ++ h ++ [OP_EQUAL] /\ sols = [h]
  | TX_DIVIDEND => s = [OP_RETURN; OP_DIVIDEND] /\ sols = []
  | TX_WITNESS_V0_KEYHASH => exists h, vsize h = 20 /\ s = [OP_0; 20] ++ h /\ sols = [h]
  | TX_WITNESS_V0_SCRIPTHASH => exists h, vsize h = 32 /\ s = [OP_0; 32] ++ h /\ sols = [h]
  | TX_NULL_DATA => exists data, s = OP_RETURN :: data /\ IsPushOnly data = Some true /\ sols = []
  | _ => False
  end.

Lemma IsPushOnly_iff s : IsPushOnly s = Some true <-> exists l, reads s l [] /\ Forall (fun i => i.1 <= OP_16) l.
Proof. by apply push_only_iff. Qed.

Lemma standard_iff s T S : standard s T S <-> byte_shape s T S \/ template_shape s T S.
Proof.
  split.
  - destruct 1 as [h| |h|h|data l Hr Hl|s op key|s op h|s m keys]; [left..|right|right|right]; cbn; eauto 10.
    + exists data. rewrite IsPushOnly_iff. eauto.
    + by exists m, keys.
  - intros [H|H].
    + destruct T; try done.
      * destruct H as (h&Hh&->&->). by constructor.
      * destruct H as (data&->&(l&?&?)%IsPushOnly_iff&->). by eapply standard_null_data.
      * destruct H as (h&Hh&->&->). by constructor.
      * destruct H as (h&Hh&->&->). by constructor.
      * destruct H as (->&->). constructor.
    + destruct T; try done.
      * destruct H as (op&key&?&?&->). by econstructor.
      * destruct H as (op&h&?&?&->). by econstructor.
      * destruct H as (m&keys&?&?&?&?&->). by econstructor.
Qed.

Lemma witness_v0 p n : vsize p = n -> 2 <= n <= 40 -> IsWitnessProgram ([OP_0; n] ++ p) = Some (0, p).
Proof. intros <- Hn. apply IsWitness_iff. by exists OP_0, (vsize p). Qed.

Lemma scripthash_solution h : vsize h = 20 -> take 20 (drop 2 ([OP_HASH160; 20] ++ h ++ [OP_EQUAL])) = h.
Proof.
  intros Hh. change (drop 2 ([OP_HASH160; 20] ++ h ++ [OP_EQUAL])) with (h ++ [OP_EQUAL]).
  apply take_app_length'. unfold vsize in Hh. lia.
Qed.

Lemma Solver_bytes s t T S : byte_shape s T S -> Solver s t = Some (true, T, S).
Proof.
  intros H. unfold Solver. destruct T; try done.
  - destruct H as (h&Hh&->&->). rewrite (proj2 (IsPayToScriptHash_iff _)) by eauto. by rewrite scripthash_solution.
  - destruct H as (data&->&Hd&->).
    replace (IsPayToScriptHash _) with false.
    2:{ symmetry. apply not_true_is_false. intros (h&_&Eh)%IsPayToScriptHash_iff. by injection Eh. }
    replace (IsDividendContribution _) with false.
    2:{ symmetry. apply not_true_is_false. intros Ed%IsDividend_iff. injection Ed as ->. by vm_compute in Hd. }
    replace (IsWitnessProgram _) with (@None (Z * valtype)).
    2:{ symmetry. destruct (IsWitnessProgram _) as [[v p]|] eqn:E; [|done]. apply IsWitness_iff in E as (op&n&Eop&Ho&_). by injection Eop as <- _. }
    rewrite vsize_cons. destruct (Z.geb_spec (vsize data + 1) 1); [|pose proof (vsize_nonneg data); lia].
    change (at_is (OP_RETURN :: data) 0 OP_RETURN) with true. cbn [andb drop]. change (drop 0 data) with data. by rewrite Hd.
  - destruct H as (h&Hh&->&->). rewrite witness_v0 by lia. rewrite Hh. unfold IsPayToScriptHash, IsDividendContribution, at_is.
    rewrite !bool_decide_false by done. by rewrite !andb_false_r.
  - destruct H as (h&Hh&->&->). rewrite witness_v0 by lia. rewrite Hh. unfold IsPayToScriptHash, IsDividendContribution, at_is.
    rewrite !bool_decide_false by done. by rewrite !andb_false_r.
  - by destruct H as (->&->).
Qed.


Lemma Solver_cases s t : vsize s < 2 ^ 64 ->
  exists r, Solver s t = Some r /\ forall T S, r = (true, T, S) -> byte_shape s T S \/ template_shape s T S.
Proof.
  intros Hs. unfold Solver. destruct (IsPayToScriptHash s) eqn:E1.
  { eexists. split; [done|]. intros T S [= <- <-]. left. apply IsPayToScriptHash_iff in E1 as (h&Hh&->). exists h.
    by rewrite scripthash_solution. }
  destruct (IsDividendContribution s) eqn:E2.
  { eexists. split; [done|]. intros T S [= <- <-]. left. by apply IsDividend_iff in E2. }
  destruct (IsWitnessProgram s) as [[v p]|] eqn:E3.
  { eexists. split; [done|]. intros T S Hr. left. apply IsWitness_iff in E3 as (op&n&->&Ho&Hv&->&Hn).
    assert (v = 0 -> op = OP_0) as H0.
    { intros ->. unfold small_op, small_value in *. destruct (Z.eqb_spec op OP_0); [done|]. unfold OP_1, OP_0 in *. lia. }
    destruct (Z.eqb_spec v 0) as [Hv0|]; cbn [andb] in Hr; [|done]. rewrite (H0 Hv0).
    destruct (Z.eqb_spec (vsize p) 20) as [Hp|]; [injection Hr as <- <-; exists p; by rewrite Hp|].
    destruct (Z.eqb_spec (vsize p) 32) as [Hp|]; [injection Hr as <- <-; exists p; by rewrite Hp|done]. }
  match goal with |- context [mbind _ ?d] => set (data := d) end. assert (exists b, data = Some b /\ (b = true -> byte_shape s TX_NULL_DATA [])) as (b&->&Hb).
  { subst data. destruct (_ && _) eqn:E; [|exists false; done]. apply andb_true_iff in E as [_ E%at_is_true].
    destruct s as [|x s]; [done|]. injection E as ->. destruct (IsPushOnly_total s) as [b Hb]. cbn [drop].
    change (drop 0 s) with s. exists b. split; [done|]. intros ->. by exists s. }
  cbn [mbind option_bind]. destruct b.
  { eexists. split; [done|]. intros T S [= <- <-]. by left; apply Hb. }
  destruct (scan_spec s Hs) as (ok&T&S&->&H). eexists. split; [done|]. intros T' S' Hr. right. by apply H.
Qed.

Lemma Solver_iff s t T S : vsize s < 2 ^ 64 -> Solver s t = Some (true, T, S) <-> standard s T S.
Proof.
  intros Hs. rewrite standard_iff. split.
  - destruct (Solver_cases s t Hs) as (r&->&Hc). intros [= ->]. by apply Hc.
  - intros [H|H]; [by apply Solver_bytes|]. rewrite Solver_templated by (by eapply template_templated).
    destruct (scan_spec s Hs) as (ok&T'&S'&->&HT). f_equal. by apply HT.
Qed.

(** C23: [Solver] gives an answer for every script, and accepts a script with a type and
    solutions exactly when the script has the shape of that type: the byte patterns of pay to
    script hash, of witness programs and of dividends, data after OP_RETURN, and the templates of
    keys, key hashes and multisignatures with any encoding of their pushes, where a
    multisignature asks for between 1 and 16 keys and no more signatures than keys.  In
    particular no script has two types or two sets of solutions. *)
Theorem solver_recognizes (script : CScript) (typeRet : txnouttype) :
  vsize script < 2 ^ 64 ->
  is_Some (Solver script typeRet) /\
  (forall T S, Solver script typeRet = Some (true, T, S) <-> standard script T S) /\
  (forall T1 S1 T2 S2, standard script T1 S1 -> standard script T2 S2 -> T1 = T2 /\ S1 = S2).
Proof.
  intros Hs. split; [destruct (Solver_cases script typeRet Hs) as (r&->&_); by eexists|].
  split; [intros; by apply Solver_iff|].
  intros T1 S1 T2 S2 H1%(Solver_iff _ typeRet) H2%(Solver_iff _ typeRet); [|done..]. rewrite H1 in H2. by simplify_eq.
Qed.

(** ** Destinations *)

Lemma reads_push b l pc pc' : vsize (b ++ pc) < 2 ^ 32 -> reads pc l pc' -> reads (push_data [] b ++ pc) ((push_op b, b) :: l) pc'.
Proof. intros Hs Hr. eapply reads_cons; [by apply GetOp_push_data|done]. Qed.

Lemma reads_op op l pc pc' : OP_PUSHDATA4 < op -> reads pc l pc' -> reads (op :: pc) ((op, []) :: l) pc'.
Proof. intros Hs Hr. eapply reads_cons; [by apply GetOp_opcode|done]. Qed.

Lemma push_data_size b : vsize b <= vsize (push_data [] b) <= vsize b + 5.
Proof.
  unfold push_data. rewrite app_nil_l, vsize_app.
  repeat case_match; unfold vsize, WriteLE16, WriteLE32; cbn [length]; rewrite ?length_store_le; lia.
Qed.

Lemma push_data_20 b : vsize b = 20 -> push_data [] b = 20 :: b.
Proof. intros H. unfold push_data. by rewrite H. Qed.
Lemma push_data_32 b : vsize b = 32 -> push_data [] b = 32 :: b.
Proof. intros H. unfold push_data. by rewrite H. Qed.

Lemma standard_keyid id : vsize id = 20 ->
  standard ([OP_DUP; OP_HASH160] ++ push_data [] id ++ [OP_EQUALVERIFY; OP_CHECKSIG]) TX_PUBKEYHASH [id].
Proof.
  intros Hid. apply (standard_pubkeyhash _ (push_op id)); [|done]. cbn [app]. do 2 (apply reads_op; [done|]).
  apply reads_push; [rewrite vsize_app, Hid; done|]. do 2 (apply reads_op; [done|]). constructor.
Qed.

Lemma key_size_iff v : key_size v <-> 33 <= vsize v <= 65.
Proof. unfold key_size. rewrite Is_true_true, andb_true_iff, Z.geb_le, Z.leb_le. done. Qed.

Lemma standard_rawkey key : key_size key -> standard (GetScriptForRawPubKey key) TX_PUBKEY [key].
Proof.
  intros Hk. apply (standard_pubkey _ (push_op key)); [|done]. unfold GetScriptForRawPubKey.
  apply key_size_iff in Hk. apply reads_push; [rewrite vsize_app; change (vsize [OP_CHECKSIG]) with 1; lia|]. apply reads_op; [done|]. constructor.
Qed.

Definition key_push (key : valtype) : Z * valtype := (push_op key, key).

Lemma reads_keys keys tail l : vsize tail <= 16 -> vsize keys <= 16 -> Forall key_size keys -> reads tail l [] ->
  reads (concat (map (push_data []) keys) ++ tail) (map key_push keys ++ l) [] /\
  vsize (concat (map (push_data []) keys)) <= 70 * vsize keys.
Proof.
  intros Ht Hn Hk Hl. induction Hk as [|key keys H1 Hk IH]; [done|]. rewrite vsize_cons in Hn. destruct IH as [IH IHs]; [lia|].
  cbn [map concat app]. rewrite <- app_assoc. pose proof (push_data_size key). rewrite vsize_app, vsize_cons.
  apply key_size_iff in H1. split; [|lia].
  apply reads_push; [rewrite !vsize_app; lia|done].
Qed.

Lemma standard_multisig_script m keys : 1 <= m <= vsize keys -> vsize keys <= 16 -> Forall key_size keys ->
  exists s, GetScriptForMultisig m keys = Some s /\ vsize s < 2 ^ 32 /\ standard s TX_MULTISIG ([[m]] ++ keys ++ [[vsize keys]]).
Proof.
  intros Hm Hn Hk. unfold GetScriptForMultisig.
  assert (forall n, 1 <= n <= 16 -> EncodeOP_N n = Some (OP_N n)) as HE.
  { intros n Hn'. unfold EncodeOP_N. destruct (Z.geb_spec n 0), (Z.leb_spec n 16), (Z.eqb_spec n 0); (done || lia). }
  rewrite !HE by lia. cbn [mbind option_bind]. eexists. split; [done|].
  destruct (small_N m) as (_&_&Lm); [lia|]. destruct (small_N (vsize keys)) as (_&_&Ln); [lia|].
  destruct (reads_keys keys [OP_N (vsize keys); OP_CHECKMULTISIG] [(OP_N (vsize keys), []); (OP_CHECKMULTISIG, [])]) as [Hr Hs];
    [done|done|done|do 2 (apply reads_op; [done|]); constructor|].
  split; [rewrite !vsize_app; unfold vsize in *; cbn [length]; lia|].
  assert (vsize (map key_push keys) = vsize keys) as Ev by (unfold vsize; by rewrite length_map).
  assert ((map key_push keys).*2 = keys) as Ek by (clear; induction keys; cbn; congruence).
  match goal with |- standard ?s _ _ => pose proof (standard_multisig s m (map key_push keys)) as H end.
  rewrite Ev, Ek in H. apply H; [by apply reads_op|done|done|].
  clear -Hk. induction Hk; constructor; done.
Qed.

Lemma standard_one s T sols : standard s T sols -> T ∈ [TX_PUBKEY; TX_PUBKEYHASH; TX_SCRIPTHASH] -> exists x, sols = [x].
Proof. destruct 1; set_solver. Qed.

Section destination_props.
Context `{crypto : ScriptCrypto} `{spec : !ScriptCryptoSpec crypto}.

(** The scripts that pay to a destination *)
Definition pays_to (script : CScript) (d : CTxDestination) : Prop :=
  match d with
  | CNoDestination => False
  | CKeyID id =>
      standard script TX_PUBKEYHASH [id] \/
      exists key, standard script TX_PUBKEY [key] /\ CPubKey_IsValid key = true /\ id = hash_hash160 key
  | CScriptID id => vsize id = 20 /\ script = GetScriptForDestination (CScriptID id)
  end.

Definition destination_ok (d : CTxDestination) : Prop :=
  match d with CNoDestination => False | CKeyID id | CScriptID id => vsize id = 20 end.

Lemma standard_scripthash_iff s h : standard s TX_SCRIPTHASH [h] <-> vsize h = 20 /\ s = GetScriptForDestination (CScriptID h).
Proof.
  split.
  - inversion 1; subst. split; [done|]. cbn [GetScriptForDestination]. by rewrite push_data_20.
  - intros [Hh ->]. cbn [GetScriptForDestination]. rewrite push_data_20 by done. by constructor.
Qed.

Lemma ExtractDestination_total s : vsize s < 2 ^ 64 -> is_Some (ExtractDestination s).
Proof.
  intros Hs. unfold ExtractDestination. destruct (Solver s TX_NONSTANDARD) as [[[ok T] S]|] eqn:E.
  2:{ by destruct (Solver_cases s TX_NONSTANDARD Hs) as (?&?&_); congruence. }
  cbn [mbind option_bind]. destruct ok; [|by eexists]. apply Solver_iff in E; [|done].
  destruct T; try (by eexists); (destruct (standard_one _ _ _ E) as [x ->]; [set_solver|by eexists]).
Qed.

Lemma ExtractDestination_iff s d : vsize s < 2 ^ 64 -> ExtractDestination s = Some (Some d) <-> pays_to s d.
Proof.
  intros Hs. unfold ExtractDestination. split.
  - destruct (Solver s TX_NONSTANDARD) as [[[ok T] S]|] eqn:E; [|done]. cbn [mbind option_bind].
    destruct ok; [|done]. apply Solver_iff in E; [|done]. cbn [negb].
    destruct T; try done; (destruct (standard_one _ _ _ E) as [x ->]; [set_solver|]); cbn [lookup list_lookup mbind option_bind].
    + destruct (CPubKey_IsValid x) eqn:Ek; [|done]. intros [= <-]. right. by exists x.
    + intros [= <-]. by left.
    + intros [= <-]. by apply standard_scripthash_iff.
  - destruct d as [|id|id]; [done| |].
    + intros [H|(key&H&Hk&->)]; apply (Solver_iff _ TX_NONSTANDARD) in H as ->; try done.
      cbn [mbind option_bind negb lookup list_lookup]. by rewrite Hk.
    + intros H%standard_scripthash_iff. by apply (Solver_iff _ TX_NONSTANDARD) in H as ->.
Qed.

Lemma valid_key_size key : CPubKey_IsValid key = true -> key_size key.
Proof.
  rewrite key_size_iff. destruct key as [|c key]; [done|]. unfold CPubKey_IsValid, GetLen. repeat case_match; lia.
Qed.

Lemma GetScriptForDestination_pays d : destination_ok d -> pays_to (GetScriptForDestination d) d.
Proof. destruct d as [|id|id]; [done| |done]. intros Hid. left. by apply standard_keyid. Qed.

Lemma GetScriptForDestination_size d : destination_ok d -> vsize (GetScriptForDestination d) < 2 ^ 64.
Proof.
  destruct d as [|id|id]; [done| |]; cbn [destination_ok GetScriptForDestination]; intros Hid; rewrite push_data_20 by done;
    unfold vsize in *; cbn [length app]; rewrite length_app; cbn [length]; lia.
Qed.

Lemma ExtractDestinations_multisig s m keys k : vsize s < 2 ^ 64 -> 1 <= vsize keys ->
  standard s TX_MULTISIG ([[m]] ++ keys ++ [[vsize keys]]) -> Forall (fun key => CPubKey_IsValid key = true) keys ->
  ExtractDestinations s k = Some (true, TX_MULTISIG, map (fun key => CKeyID (hash_hash160 key)) keys, m).
Proof.
  intros Hs Hn H Hk. unfold ExtractDestinations. apply (Solver_iff _ TX_NONSTANDARD) in H as ->; [|done].
  cbn [mbind option_bind negb app lookup list_lookup length drop]. change (drop 0 (keys ++ [[vsize keys]])) with (keys ++ [[vsize keys]]).
  replace (take _ _) with keys.
  2:{ rewrite length_app. cbn [length]. symmetry. apply take_app_length'. lia. }
  assert (List.filter CPubKey_IsValid keys = keys) as ->.
  { clear -Hk. induction Hk as [|key keys H1 _ IH]; [done|]. cbn [List.filter]. by rewrite H1, IH. }
  rewrite length_map. destruct keys; [done|]. done.
Qed.

Lemma hash160_size v : vsize (hash_hash160 v) = 20.
Proof. apply hash160_digest. Qed.
Lemma sha256_size v : vsize (hash_sha256 v) = 32.
Proof. apply sha256_digest. Qed.

Lemma Solver_keyhash h t : vsize h = 20 -> Solver ([OP_0; 20] ++ h) t = Some (true, TX_WITNESS_V0_KEYHASH, [h]).
Proof. intros Hh. apply Solver_bytes. by exists h. Qed.

Lemma GetScriptForWitness_ok script : vsize script < 2 ^ 64 ->
  exists w T h, GetScriptForWitness script = Some w /\ (forall t, Solver w t = Some (true, T, [h])) /\
    ((exists key, standard script TX_PUBKEY [key] /\ T = TX_WITNESS_V0_KEYHASH /\ h = hash_hash160 key) \/
     standard script TX_PUBKEYHASH [h] /\ T = TX_WITNESS_V0_KEYHASH \/
     (forall S, ~ standard script TX_PUBKEY S /\ ~ standard script TX_PUBKEYHASH S) /\
       T = TX_WITNESS_V0_SCRIPTHASH /\ h = hash_sha256 script).
Proof.
  intros Hs. unfold GetScriptForWitness. destruct (Solver_cases script TX_NONSTANDARD Hs) as ([[ok T] S]&E&_). rewrite E.
  cbn [mbind option_bind].
  assert (forall U, (if ok then T else TX_NONSTANDARD) = U -> U = TX_PUBKEY \/ U = TX_PUBKEYHASH -> ok = true /\ standard script T S) as Hok.
  { intros U <-. destruct ok; [|intros [|]; done]. intros _. split; [done|]. by apply Solver_iff in E. }
  assert (T = TX_PUBKEY \/ T = TX_PUBKEYHASH -> ok = true -> exists x, S = [x]) as H1.
  { intros HT ->. apply Solver_iff in E; [|done]. apply (standard_one _ _ _ E). destruct HT as [->| ->]; set_solver. }
  assert ((if ok then T else TX_NONSTANDARD) = TX_PUBKEY \/ (if ok then T else TX_NONSTANDARD) = TX_PUBKEYHASH \/
    forall S, ~ standard script TX_PUBKEY S /\ ~ standard script TX_PUBKEYHASH S) as Hc.
  { destruct (decide (ok = true /\ T = TX_PUBKEY)) as [[-> ->]|N1]; [by left|].
    destruct (decide (ok = true /\ T = TX_PUBKEYHASH)) as [[-> ->]|N2]; [by right; left|].
    right; right. intros S'. split; intros H%(Solver_iff _ TX_NONSTANDARD); try done; rewrite E in H; naive_solver. }
  destruct Hc as [Hc|[Hc|Hc]].
  - destruct (Hok _ Hc) as [-> HS]; [by left|]. subst T. destruct (H1 (or_introl eq_refl) eq_refl) as [key ->].
    cbn [lookup list_lookup mbind option_bind]. rewrite push_data_20 by apply hash160_size.
    do 3 eexists. split; [done|]. split; [intros; apply Solver_keyhash, hash160_size|]. left. by exists key.
  - destruct (Hok _ Hc) as [-> HS]; [by right|]. subst T. destruct (H1 (or_intror eq_refl) eq_refl) as [h ->].
    cbn [lookup list_lookup mbind option_bind].
    assert (vsize h = 20) as Hh by (by inversion HS). rewrite push_data_20 by done.
    do 3 eexists. split; [done|]. split; [intros; by apply Solver_keyhash|]. right; left. done.
  - exists ([OP_0] ++ push_data [] (hash_sha256 script)), TX_WITNESS_V0_SCRIPTHASH, (hash_sha256 script).
    split; [|split; [|by right; right]].
    + destruct ok; [|done]. apply Solver_iff in E; [|done]. destruct T; try done; by destruct (Hc S).
    + intros t. rewrite push_data_32 by apply sha256_size. apply Solver_bytes. exists (hash_sha256 script). split; [apply sha256_size|done].
Qed.

(** C24: Destinations and scripts.  [ExtractDestination] answers for every script, and finds a
    destination exactly when the script pays to it: a key hash, a key with that hash, or a
    script hash.  The scripts that are built for destinations, for keys and for multisignatures
    of up to 16 valid keys are recognised as what they were built for, and the witness program
    of a script is recognised too: for a key or a key hash it holds the key hash, otherwise the
    hash of the script. *)
Theorem destination_roundtrip :
  (forall script d, vsize script < 2 ^ 64 ->
    is_Some (ExtractDestination script) /\ (ExtractDestination script = Some (Some d) <-> pays_to script d)) /\
  (forall d, destination_ok d -> ExtractDestination (GetScriptForDestination d) = Some (Some d)) /\
  (forall key, CPubKey_IsValid key = true ->
    ExtractDestination (GetScriptForRawPubKey key) = Some (Some (CKeyID (hash_hash160 key)))) /\
  (forall m keys k, 1 <= m <= vsize keys -> vsize keys <= 16 -> Forall (fun key => CPubKey_IsValid key = true) keys ->
    exists s, GetScriptForMultisig m keys = Some s /\
      ExtractDestinations s k = Some (true, TX_MULTISIG, map (fun key => CKeyID (hash_hash160 key)) keys, m)) /\
  (forall script, vsize script < 2 ^ 64 ->
    exists w T h, GetScriptForWitness script = Some w /\ (forall t, Solver w t = Some (true, T, [h])) /\
      ((exists key, standard script TX_PUBKEY [key] /\ T = TX_WITNESS_V0_KEYHASH /\ h = hash_hash160 key) \/
       standard script TX_PUBKEYHASH [h] /\ T = TX_WITNESS_V0_KEYHASH \/
       (forall S, ~ standard script TX_PUBKEY S /\ ~ standard script TX_PUBKEYHASH S) /\
         T = TX_WITNESS_V0_SCRIPTHASH /\ h = hash_sha256 script)).
Proof.
  split; [intros script d Hs; split; [by apply ExtractDestination_total|by apply ExtractDestination_iff]|].
  split; [intros d Hd; apply ExtractDestination_iff; [by apply GetScriptForDestination_size|by apply GetScriptForDestination_pays]|].
  split.
  { intros key Hk. pose proof (valid_key_size key Hk) as Hz. apply ExtractDestination_iff.
    - unfold GetScriptForRawPubKey. rewrite vsize_app. pose proof (push_data_size key). apply key_size_iff in Hz. change (vsize [OP_CHECKSIG]) with 1. lia.
    - right. exists key. split; [by apply standard_rawkey|done]. }
  split; [|apply GetScriptForWitness_ok].
  intros m keys k Hm Hn Hk. destruct (standard_multisig_script m keys) as (s&Es&Hs&HS); [done|done| |].
  { eapply list.Forall_impl; [exact Hk|]. intros ?. apply valid_key_size. }
  exists s. split; [done|]. apply ExtractDestinations_multisig; [lia|lia|done|done].
Qed.
End destination_props.

(** A multisignature of two keys, with one of them pushed the long way *)
Definition sample_key (c : Z) : valtype := 2 :: replicate 32 c.
Definition sample_multisig : CScript :=
  [OP_1] ++ (33 :: sample_key 7) ++ (OP_PUSHDATA1 :: 33 :: sample_key 9) ++ [OP_1 + 1; OP_CHECKMULTISIG].

Lemma solver_recognizes_witness : standard sample_multisig TX_MULTISIG [[1]; sample_key 7; sample_key 9; [2]].
Proof.
  assert (vsize sample_multisig < 2 ^ 64) as Hs by done.
  destruct (solver_recognizes sample_multisig TX_NONSTANDARD Hs) as (_&H&_). apply H. by vm_compute.
Defined.

Definition toy_id (c : Z) : CTxDestination := CKeyID (hash_hash160 (ScriptCrypto := toy_crypto) (sample_key c)).

Lemma destination_roundtrip_witness :
  ExtractDestinations (crypto := toy_crypto) sample_multisig 0 = Some (true, TX_MULTISIG, [toy_id 7; toy_id 9], 1) /\
  ExtractDestination (crypto := toy_crypto) (GetScriptForRawPubKey (sample_key 7)) = Some (Some (toy_id 7)).
Proof.
  split; [by vm_compute|]. destruct (destination_roundtrip (crypto := toy_crypto)) as (_&_&H&_). by apply H.
Defined.
