(* ===== verification/Block.v ===== *)
(** Blocks ([src/src/primitives/block.h], [block.cpp], and the block functions of [main.cpp]):
    headers and blocks with their formats and hashes, the Merkle tree of a block, and the
    checks that a block passes before it is connected.

    The X13 hash of old headers ([Hash9]), the verification of signatures and the reader of JSON
    are parameters. *)

From stdpp Require Import gmap strings.
From S2P Require Import Prelude SphTypes ArithUint256 BlockIndex Chain Pow Hasher Sha2Spec Sha256 Hash Merkle VersionBits.
From S2P Require Import Serialize Codec Script Interpreter InterpreterProps Transaction SigHash Coins TxVerify Stake Standard.

#[local] Open Scope Z_scope.
#[local] Open Scope c_scope.

Abbreviation uint256 := (list Z).

(** ** Data and formats *)

(** [CBlock], a header with transactions and a signature; [vMerkleTree] is only written by
    [BuildMerkleTree], below. *)
Record CBlock := mkBlock {
  header : CBlockHeader; vtx : list CTransaction; vchBlockSig : list Z; fChecked : bool }.

Definition CBlockHeader_Serialize (b : CBlockHeader) : list Z :=
  Serialize_int32 (hdr_nVersion b) ++ hdr_hashPrevBlock b ++ hdr_hashMerkleRoot b ++
  ser_writedata32 (hdr_nTime b) ++ ser_writedata32 (hdr_nBits b) ++ ser_writedata32 (hdr_nNonce b).
Definition CBlockHeader_Unserialize (s : list Z) : result (CBlockHeader * list Z) :=
  '(v, s) ← Unserialize_int32 s;
  '(prev, s) ← read 32 s;
  '(root, s) ← read 32 s;
  '(t, s) ← ser_readdata32 s;
  '(bits, s) ← ser_readdata32 s;
  '(nonce, s) ← ser_readdata32 s;
  mret (mkHeader v prev root t bits nonce, s).

Definition SER_GETHASH : Z := 1 << 2.
Definition SER_BLOCKHEADERONLY : Z := 1 << 17.

Definition tx_Serialize (ver : Z) (tx : CTransaction) : option (list Z) := fst <$> SerializeTransaction tx ver.

(** [None] is a failed assertion in a transaction. *)
Definition CBlock_Serialize (block : CBlock) (nType ver : Z) : option (list Z) :=
  if nType .& (SER_GETHASH .| SER_BLOCKHEADERONLY) =? 0 then
    txs ← mapM (tx_Serialize ver) (vtx block);
    Some (CBlockHeader_Serialize (header block) ++ WriteCompactSize (Z.of_nat (length (vtx block))) ++ concat txs ++
          Serialize_bytes (vchBlockSig block))
  else Some (CBlockHeader_Serialize (header block)).

(** [per] is [5000000 / sizeof(CTransaction)]; [fChecked] is left as it was. *)
Definition CBlock_Unserialize `{Platform} (per : Z) (prev : CBlock) (nType ver : Z) (s : list Z) : result (CBlock * list Z) :=
  '(hdr, s) ← CBlockHeader_Unserialize s;
  if nType .& (SER_GETHASH .| SER_BLOCKHEADERONLY) =? 0 then
    '(txs, s) ← Unserialize_vector (UnserializeTransaction new_CTransaction ver) per s;
    '(sig, s) ← Unserialize_bytes s;
    mret (mkBlock hdr txs sig (fChecked prev), s)
  else mret (mkBlock hdr [] [] (fChecked prev), s).

Definition CBlock_GetSerializeSize (block : CBlock) (nType ver : Z) : option Z :=
  b ← CBlock_Serialize block nType ver; Some (Z.of_nat (length b)).

(** [GetBlockWeight]: [SER_NETWORK] writes everything. *)
Definition SER_NETWORK : Z := 1 << 0.
Definition GetBlockWeight (block : CBlock) : option Z :=
  base ← CBlock_GetSerializeSize block SER_NETWORK SERIALIZE_TRANSACTION_NO_WITNESS;
  total ← CBlock_GetSerializeSize block SER_NETWORK 0;
  Some (base * (WITNESS_SCALE_FACTOR - 1) + total).

(** [IsProofOfStake] and [IsProofOfWork] *)
Definition CBlock_IsProofOfStake (block : CBlock) : bool :=
  match vtx block with _ :: tx :: _ => IsCoinStake tx | _ => false end.
Definition CBlock_IsProofOfWork (block : CBlock) : bool := negb (CBlock_IsProofOfStake block).

Section hashes.
(** The memory of the hash objects, and [Hash9] of a range of bytes *)
Context (mem : list Z) (Hash9 : list Z -> uint256).

(** [CBlockHeader::GetPoWHash]: the bytes from [nVersion] to [nNonce] are those of the format,
    on a little-endian machine. *)
Definition GetPoWHash (b : CBlockHeader) : uint256 := Hash9 (CBlockHeader_Serialize b).
Definition Header_GetHash (b : CBlockHeader) : option uint256 :=
  if hdr_nVersion b >? 6 then Hash1 mem (CBlockHeader_Serialize b) else Some (GetPoWHash b).

(** [CBlockHeader::GetStakeEntropyBit] *)
Definition Header_GetStakeEntropyBit (b : CBlockHeader) : option Z :=
  hash ← Header_GetHash b; Some (GetLow64 (UintToArith256 hash) .& 1).

(** ** Merkle trees *)

Definition Block_MerkleRoot (block : CBlock) : option (uint256 * bool) :=
  hashes ← mapM (GetHash mem) (vtx block);
  BlockMerkleRoot (fun hash => hash) mem hashes.

(** Only the transactions from the third on, or from the second on, are asked for their witness
    hash. *)
Definition Block_WitnessMerkleRoot (block : CBlock) (fIgnoreCoinStake : bool) : option (uint256 * bool) :=
  let first := if fIgnoreCoinStake then 2%nat else 1%nat in
  hashes ← mapM (GetWitnessHash mem) (drop first (vtx block));
  BlockWitnessMerkleRoot (fun hash => hash) mem (replicate (Nat.min first (length (vtx block))) uint256_zero ++ hashes) fIgnoreCoinStake.

(** [CBlock::BuildMerkleTree]: the loop over a level of [nSize] nodes that starts at [j] *)
Fixpoint build_level (fuel j nSize i : nat) (vMerkleTree : list uint256) : option (list uint256) :=
  if (i <? nSize)%nat then
    match fuel with
    | O => None
    | S fuel =>
        let i2 := Nat.min (i + 1) (nSize - 1) in
        a ← vMerkleTree !! (j + i)%nat;
        b ← vMerkleTree !! (j + i2)%nat;
        hash ← Hash2 mem a b;
        build_level fuel j nSize (i + 2) (vMerkleTree ++ [hash])
    end
  else Some vMerkleTree.

Fixpoint build_levels (fuel j nSize : nat) (vMerkleTree : list uint256) : option (list uint256) :=
  if (1 <? nSize)%nat then
    match fuel with
    | O => None
    | S fuel =>
        vMerkleTree ← build_level nSize j nSize 0 vMerkleTree;
        build_levels fuel (j + nSize) ((nSize + 1) / 2) vMerkleTree
    end
  else Some vMerkleTree.

(** The root and [vMerkleTree] *)
Definition BuildMerkleTree (block : CBlock) : option (uint256 * list uint256) :=
  hashes ← mapM (GetHash mem) (vtx block);
  vMerkleTree ← build_levels (length hashes) 0 (length hashes) hashes;
  Some (default uint256_zero (last vMerkleTree), vMerkleTree).
End hashes.

(** ** Checks of a block *)

(** A check passes, or fails with a change of the validation state; the outer [None] is undefined
    behaviour or a failed assertion. *)
Abbreviation verdict := (option (CValidationState -> CValidationState)).
Definition pass : option verdict := Some None.
Definition reject_if (c : bool) (f : CValidationState -> CValidationState) : option verdict :=
  Some (if c then Some f else None).
Definition and_then (a b : option verdict) : option verdict :=
  v ← a; match v with Some f => Some (Some f) | None => b end.
#[local] Notation "a ;; b" := (and_then a b) (at level 100, right associativity).

Definition dos (level code : Z) (reason : string) (corruption : bool) : CValidationState -> CValidationState :=
  DoS (Reject level code reason) corruption.

Definition MAX_BLOCK_WEIGHT : Z := 8000000.
Definition MAX_BLOCK_SIGOPS_COST : Z := 80000.

Section check_block.
Context (mem : list Z) (Hash9 : list Z -> uint256) (params : Params).
(** [CPubKey::Verify] of the bytes of a valid key *)
Context (Verify : list Z -> uint256 -> list Z -> bool).
(** [mapBlockIndex.size()] and [chainActive.Height()] *)
Context (nIndex height : Z).

(** [CBlockIndex(block)] has no flags, so that [IsProofOfWork] holds of it for every header. *)
Definition CheckBlockHeader (block : CBlockHeader) : option verdict :=
  let pblock := CBlockIndex_of_header block in
  if BlockIndex.IsProofOfWork pblock && (nIndex <=? u64 (nLastPOWBlock params)) then
    hash ← Header_GetHash mem Hash9 block;
    reject_if (negb (CheckProofOfWork height hash (hdr_nBits block) params)) (dos 50 REJECT_INVALID "high-hash" false)
  else pass.

Definition CheckBlockSignature (block : CBlock) : option bool :=
  if CBlock_IsProofOfWork block then Some (length (vchBlockSig block) =? 0)%nat
  else if (length (vchBlockSig block) =? 0)%nat then Some false
  else
    tx ← vtx block !! 1%nat;
    txout ← vout tx !! 1%nat;
    '(ok, whichType, vSolutions) ← Solver (scriptPubKey txout) TX_NONSTANDARD;
    if negb ok then Some false
    else if bool_decide (whichType = TX_PUBKEY) then
      vchPubKey ← vSolutions !! 0%nat;
      hash ← Header_GetHash mem Hash9 (header block);
      Some (CPubKey_IsValid vchPubKey && Verify vchPubKey hash (vchBlockSig block))
    else Some false.

Definition check_merkle_root (block : CBlock) : option verdict :=
  '(hashMerkleRoot2, mutated) ← Block_MerkleRoot mem block;
  (reject_if (negb (bool_decide (hdr_hashMerkleRoot (header block) = hashMerkleRoot2)))
     (dos 100 REJECT_INVALID "bad-txnmrklroot" true) ;;
   reject_if mutated (dos 100 REJECT_INVALID "bad-txns-duplicate" true)).

Definition check_coinstakes (block : CBlock) : option verdict :=
  if CBlock_IsProofOfStake block then
    second ← vtx block !! 1%nat;
    (reject_if ((length (vtx block) =? 0)%nat || negb (IsCoinStake second)) (dos 100 0 "" false) ;;
     reject_if (existsb IsCoinStake (drop 2 (vtx block))) (dos 100 0 "" false))
  else pass.

Definition check_sizes (block : CBlock) : option verdict :=
  bad ← (if (length (vtx block) =? 0)%nat || (Z.of_nat (length (vtx block)) >? MAX_BLOCK_BASE_SIZE) then Some true
         else size ← CBlock_GetSerializeSize block SER_NETWORK SERIALIZE_TRANSACTION_NO_WITNESS;
              Some (size >? MAX_BLOCK_BASE_SIZE));
  reject_if bad (dos 100 REJECT_INVALID "bad-blk-length" false).

Definition check_coinbases (block : CBlock) : option verdict :=
  reject_if (match vtx block with tx :: _ => negb (IsCoinBase tx) | [] => true end)
    (dos 100 REJECT_INVALID "bad-cb-missing" false) ;;
  reject_if (existsb IsCoinBase (drop 1 (vtx block))) (dos 100 REJECT_INVALID "bad-cb-multiple" false).

(** [state.Invalid] with the code and the reason that [CheckTransaction] has set *)
Fixpoint check_transactions (txs : list CTransaction) : option verdict :=
  match txs with
  | [] => pass
  | tx :: txs =>
      r ← check_transaction tx;
      match r with
      | Some r => Some (Some (fun st => let st := DoS r false st in Invalid (chRejectCode st) (strRejectReason st) st))
      | None => check_transactions txs
      end
  end.

Definition block_sigops (txs : list CTransaction) : option Z := sum_sigops (map GetLegacySigOpCount txs).

Definition check_sigops (block : CBlock) : option verdict :=
  nSigOps ← block_sigops (vtx block);
  reject_if (u32 (nSigOps * WITNESS_SCALE_FACTOR) >? MAX_BLOCK_SIGOPS_COST) (dos 100 REJECT_INVALID "bad-blk-sigops" false).

Definition check_block (block : CBlock) (fCheckMerkleRoot fCheckSig : bool) : option verdict :=
  (if CBlock_IsProofOfWork block then CheckBlockHeader (header block) else pass) ;;
  (if fCheckMerkleRoot then check_merkle_root block else pass) ;;
  check_coinstakes block ;;
  check_sizes block ;;
  check_coinbases block ;;
  (if fCheckSig then ok ← CheckBlockSignature block; reject_if (negb ok) (fun st => st) else pass) ;;
  check_transactions (vtx block) ;;
  check_sigops block.

Definition set_fChecked (block : CBlock) : CBlock := mkBlock (header block) (vtx block) (vchBlockSig block) true.

(** [CheckBlock]: the result, the state and the block with its flag *)
Definition CheckBlock (block : CBlock) (st : CValidationState) (fCheckMerkleRoot fCheckSig : bool)
    : option (bool * CValidationState * CBlock) :=
  if fChecked block then Some (true, st, block)
  else
    v ← check_block block fCheckMerkleRoot fCheckSig;
    Some (match v with
          | Some f => (false, f st, block)
          | None => (true, st, if fCheckMerkleRoot then set_fChecked block else block)
          end).
End check_block.

(** ** Checks in the context of the chain *)

Record ContextParams := mkContextParams {
  cp_pow : Params; cp_deployments : DeploymentParams;
  hashGenesisBlock : uint256; nFirstPOSBlock : Z;
  nMajorityEnforceBlockUpgrade : Z; nMajorityRejectBlockOutdated : Z; nMajorityWindow : Z }.

Definition DEPLOYMENT_CSV : nat := 1.
Definition REJECT_OBSOLETE : Z := 0x11.

(** [GetWitnessCommitmentIndex]; [None] is an access to a missing coinbase. *)
Definition is_commitment (script : CScript) : bool :=
  (vsize script >=? 38) && at_is script 0 OP_RETURN && at_is script 1 0x24 && at_is script 2 0xaa &&
  at_is script 3 0x21 && at_is script 4 0xa9 && at_is script 5 0xed.

Definition commitment_index (outs : list CTxOut) : Z :=
  foldl (fun commitpos '(o, out) => if is_commitment (scriptPubKey out) then Z.of_nat o else commitpos) (-1) (imap pair outs).

Definition GetWitnessCommitmentIndex (block : CBlock) : option Z :=
  coinbase ← vtx block !! 0%nat; Some (commitment_index (vout coinbase)).

(** The digits of [%08x] *)
Definition hex_digit (d : Z) : Ascii.ascii := Ascii.ascii_of_nat (Z.to_nat (if d <? 10 then 48 + d else 87 + d)).
Definition hex8 (v : Z) : string :=
  foldr (fun i s => String.String (hex_digit ((u32 v >> (4 * Z.of_nat i)) .& 15)) s) ""%string (rev (seq 0 8)).
Definition bad_version (v : Z) : string := ("bad-version(0x" ++ hex8 v ++ ")")%string.

Section contextual.
Context (mem : list Z) (Hash9 : list Z -> uint256) (params : ContextParams).
(** Whether a string is a JSON array for [UniValue::read] *)
Context (JsonArray : list Z -> bool).
Context (h : heap).

(** [IsSuperMajority]: [n] is [nMajorityWindow - i]. *)
Fixpoint super_majority (n : nat) (minVersion nRequired : Z) (pstart : option ptr) (nFound : Z) : option bool :=
  match n, pstart with
  | S n, Some p =>
      if nFound <? nRequired then
        b ← h !! p;
        super_majority n minVersion nRequired (pprev b)
          (if BlockIndex.nVersion b >=? minVersion then u32 (nFound + 1) else nFound)
      else Some true
  | _, _ => Some (nFound >=? nRequired)
  end.
Definition IsSuperMajority (minVersion : Z) (pstart : option ptr) (nRequired : Z) : option bool :=
  super_majority (Z.to_nat (nMajorityWindow params)) minVersion (u32 nRequired) pstart 0.

Fixpoint check_versions (versions : list Z) (nVersion : Z) (pindexPrev : option ptr) : option verdict :=
  match versions with
  | [] => pass
  | version :: versions =>
      if nVersion <? version then
        old ← IsSuperMajority version pindexPrev (nMajorityRejectBlockOutdated params);
        (reject_if old (Invalid REJECT_OBSOLETE (bad_version (version - 1))) ;; check_versions versions nVersion pindexPrev)
      else check_versions versions nVersion pindexPrev
  end.

(** The result and the cache of version bits *)
Definition ContextualCheckBlockHeader (caches : VersionBitsCache) (block : CBlockHeader) (pindexPrev : option ptr)
    (nAdjustedTime : Z) : option (verdict * VersionBitsCache) :=
  let nVersion := hdr_nVersion block in
  early ← (reject_if (hdr_nTime block >? nAdjustedTime + 2 * 60 * 60) (Invalid REJECT_INVALID "time-too-new") ;;
           check_versions [2; 3; 4] nVersion pindexPrev ;;
           if negb (nVersion .& VERSIONBITS_TOP_BITS_SIG =? VERSIONBITS_TOP_BITS_SIG) then
             sig ← IsSigHFEnabled h (cp_deployments params) pindexPrev;
             reject_if sig (Invalid REJECT_OBSOLETE (bad_version nVersion))
           else pass);
  match early with
  | Some f => Some (Some f, caches)
  | None =>
      if negb (nVersion .& nSegWitVersionMask =? nSegWitVersionMask) then
        '(witness, caches) ← IsWitnessEnabled h (cp_deployments params) caches pindexPrev;
        Some (if witness : bool then Some (Invalid REJECT_OBSOLETE (bad_version nVersion)) else None, caches)
      else Some (None, caches)
  end.

(** The witness commitment, when the witness rules are active: whether there is one *)
Definition check_commitment (block : CBlock) : option (verdict * bool) :=
  commitpos ← GetWitnessCommitmentIndex block;
  if negb (commitpos =? -1) then
    '(hashWitness, _) ← Block_WitnessMerkleRoot mem block true;
    coinbase ← vtx block !! 0%nat;
    match wit coinbase with
    | [[nonce]] =>
        if vsize nonce =? 32 then
          hashWitness ← Hash2 mem hashWitness nonce;
          out ← vout coinbase !! Z.to_nat commitpos;
          if bool_decide (hashWitness = take 32 (drop 6 (scriptPubKey out))) then Some (None, true)
          else Some (Some (dos 100 REJECT_INVALID "bad-witness-merkle-match" true), false)
        else Some (Some (dos 100 REJECT_INVALID "bad-witness-nonce-size" true), false)
    | _ => Some (Some (dos 100 REJECT_INVALID "bad-witness-nonce-size" true), false)
    end
  else Some (None, false).

Definition block_height (pindexPrev : option ptr) : option Z :=
  match pindexPrev with None => Some 0 | Some p => b ← h !! p; int (BlockIndex.nHeight b + 1) end.

Definition check_final (block : CBlock) (nHeight nLockTimeCutoff : Z) : option verdict :=
  reject_if (negb (forallb (fun tx => IsFinalTx tx nHeight nLockTimeCutoff) (vtx block)))
    (dos 10 REJECT_INVALID "bad-txns-nonfinal" false).

Definition starts_with (expect s : CScript) : bool := (vsize expect <=? vsize s) && bool_decide (take (length expect) s = expect).

(** The height in the coinbase *)
Definition check_height (block : CBlock) (nHeight : Z) (pindexPrev : option ptr) : option verdict :=
  if hdr_nVersion (header block) >=? 2 then
    majority ← IsSuperMajority 2 pindexPrev (nMajorityEnforceBlockUpgrade params);
    if majority : bool then
      expect ← push_int64 [] nHeight;
      coinbase ← vtx block !! 0%nat;
      i ← vin coinbase !! 0%nat;
      reject_if (negb (starts_with expect (scriptSig i))) (dos 100 REJECT_INVALID "bad-cb-height" false)
    else pass
  else pass.

(** The checks before those of the witness.  In the first two the message is given where [DoS]
    expects the flag for corruption, and a string literal is true. *)
Definition check_early (block : CBlock) (csv : bool) (pindexPrev : option ptr) : option verdict :=
  nHeight ← block_height pindexPrev;
  (reject_if (CBlock_IsProofOfWork block && (nHeight >? nLastPOWBlock (cp_pow params))) (dos 10 REJECT_INVALID "check-pow-height" true) ;;
   reject_if (CBlock_IsProofOfStake block && (nHeight <? nFirstPOSBlock params)) (dos 10 REJECT_INVALID "check-pos-height" true) ;;
   (if CBlock_IsProofOfStake block then
      tx ← vtx block !! 1%nat;
      reject_if (negb (CheckCoinStakeTimestamp nHeight (hdr_nTime (header block)) (nTime tx)))
        (Invalid REJECT_INVALID "check-coinstake-timestamp")
    else pass) ;;
   (nLockTimeCutoff ← (if csv : bool then p ← pindexPrev; GetMedianTimePast h p else Some (hdr_nTime (header block)));
    check_final block nHeight nLockTimeCutoff) ;;
   check_height block nHeight pindexPrev).

Definition check_weight (block : CBlock) : option verdict :=
  weight ← GetBlockWeight block;
  reject_if (weight >? MAX_BLOCK_WEIGHT) (dos 100 REJECT_INVALID "bad-blk-weight" false).

Definition check_stake_coinbase (block : CBlock) : option verdict :=
  if CBlock_IsProofOfStake block then
    coinbase ← vtx block !! 0%nat;
    reject_if (existsb (fun o => (nValue o >? 0) && negb (JsonArray (strDZeel coinbase))) (vout coinbase)) (dos 100 0 "" false)
  else pass.

Definition check_late (block : CBlock) (witness : bool) : option verdict :=
  '(v, fHaveWitness) ← (if witness then check_commitment block else Some (None, false));
  match v with
  | Some f => Some (Some f)
  | None =>
      reject_if (negb fHaveWitness && negb (forallb (fun tx => CTxWitness_IsNull (wit tx)) (vtx block)))
        (dos 100 REJECT_INVALID "unexpected-witness" true) ;;
      check_weight block ;;
      check_stake_coinbase block
  end.

Definition ContextualCheckBlock (caches : VersionBitsCache) (block : CBlock) (pindexPrev : option ptr)
    : option (verdict * VersionBitsCache) :=
  '(csv, caches) ← VersionBitsState h (cp_deployments params) caches pindexPrev DEPLOYMENT_CSV;
  early ← check_early block (bool_decide (csv = THRESHOLD_ACTIVE)) pindexPrev;
  match early with
  | Some f => Some (Some f, caches)
  | None =>
      '(witness, caches) ← IsWitnessEnabled h (cp_deployments params) caches pindexPrev;
      late ← check_late block witness;
      Some (late, caches)
  end.
End contextual.

(** ** Accepting a header *)

(** The checkpoints by height, as the map holds them *)
Abbreviation MapCheckpoints := (list (Z * uint256)).

Fixpoint last_known (m : gmap uint256 ptr) (hashes : list uint256) : option ptr :=
  match hashes with
  | [] => None
  | hash :: hashes => match m !! hash with Some p => Some p | None => last_known m hashes end
  end.
Definition GetLastCheckpoint (checkpoints : MapCheckpoints) (m : gmap uint256 ptr) : option ptr :=
  last_known m (rev (map snd checkpoints)).

Section accept_header.
Context (mem : list Z) (Hash9 : list Z -> uint256) (params : ContextParams) (checkpoints : MapCheckpoints).
(** [fCheckpointsEnabled], [chainActive.Height()] and [GetAdjustedTime()] *)
Context (fCheckpointsEnabled : bool) (height nAdjustedTime : Z).

Definition CheckIndexAgainstCheckpoint (st : index_state) (pindexPrev : ptr) : option verdict :=
  prev ← st_heap st !! pindexPrev;
  hash ← phashBlock prev;
  if bool_decide (hash = hashGenesisBlock params) then pass
  else
    nHeight ← int (BlockIndex.nHeight prev + 1);
    match GetLastCheckpoint checkpoints (mapBlockIndex st) with
    | None => pass
    | Some c => check ← st_heap st !! c; reject_if (nHeight <? BlockIndex.nHeight check) (dos 100 0 "" false)
    end.

(** The checks of a header that is not known; the verdict and the cache of version bits *)
Definition check_new_header (st : index_state) (caches : VersionBitsCache) (block : CBlockHeader) : option (verdict * VersionBitsCache) :=
  v ← CheckBlockHeader mem Hash9 (cp_pow params) (Z.of_nat (size (mapBlockIndex st))) height block;
  match v with
  | Some f => Some (Some f, caches)
  | None =>
      match mapBlockIndex st !! hdr_hashPrevBlock block with
      | None => Some (Some (dos 10 0 "bad-prevblk" false), caches)
      | Some pindexPrev =>
          prev ← st_heap st !! pindexPrev;
          if negb (nStatus prev .& BLOCK_FAILED_MASK =? 0) then Some (Some (dos 100 REJECT_INVALID "bad-prevblk" false), caches)
          else
            v ← (if fCheckpointsEnabled then CheckIndexAgainstCheckpoint st pindexPrev else pass);
            match v with
            | Some f => Some (Some f, caches)
            | None => ContextualCheckBlockHeader params (st_heap st) caches block (Some pindexPrev) nAdjustedTime
            end
      end
  end.

(** [AcceptBlockHeader] with the address [new] for a new entry: the result, the validation state,
    [*ppindex], the block index and the cache *)
Definition AcceptBlockHeader (st : index_state) (caches : VersionBitsCache) (block : CBlockHeader) (vst : CValidationState) (new : ptr)
    : option (bool * CValidationState * option ptr * index_state * VersionBitsCache) :=
  hash ← Header_GetHash mem Hash9 block;
  let add caches :=
    '(pindex, st) ← AddToBlockIndex (fun _ => hash) st block new;
    Some (true, vst, Some pindex, st, caches) in
  if bool_decide (hash = hashGenesisBlock params) then add caches
  else
    match mapBlockIndex st !! hash with
    | Some pindex =>
        b ← st_heap st !! pindex;
        Some (if negb (nStatus b .& BLOCK_FAILED_MASK =? 0) then (false, Invalid 0 "duplicate" vst, Some pindex, st, caches)
              else (true, vst, Some pindex, st, caches))
    | None =>
        '(v, caches) ← check_new_header st caches block;
        match v with
        | Some f => Some (false, f vst, None, st, caches)
        | None => add caches
        end
    end.
End accept_header.

(** ** The tree of a block *)

Lemma mapM_all {A B} (f : A -> option B) (g : A -> B) l : Forall (fun x => f x = Some (g x)) l -> mapM f l = Some (map g l).
Proof. induction 1 as [|x l Hx _ IH]; [done|]. cbn. rewrite Hx. cbn. by rewrite IH. Qed.

Section merkle_tree.
Context (mem : list Z) (Hmem : length mem = 64%nat).

Lemma level_up_step l k a :
  l !! (2 * k)%nat = Some a ->
  exists b, l !! Nat.min (2 * k + 1) (length l - 1) = Some b /\
    take (S k) (level_up sha_pair l) = take k (level_up sha_pair l) ++ [sha_pair a b].
Proof.
  revert l. induction k as [|k IH]; intros l Ha.
  - destruct l as [|x [|y l]]; [done| |]; cbn in Ha; injection Ha as ->; [by exists a|]. exists y. done.
  - replace (2 * S k)%nat with (S (S (2 * k))) in * by lia. destruct l as [|x [|y l]]; [done|done|].
    destruct (IH l Ha) as (b&Hb&Ht). exists b. cbn [length level_up]. split.
    + assert (2 * k < length l)%nat by (by eapply lookup_lt_Some).
      replace (Nat.min (S (S (2 * k)) + 1) (S (S (length l)) - 1)) with (S (S (Nat.min (2 * k + 1) (length l - 1)))) by lia. done.
    + change (take (S (S k)) (sha_pair x y :: level_up sha_pair l)) with (sha_pair x y :: take (S k) (level_up sha_pair l)).
      rewrite Ht. done.
Qed.

Lemma lookup_middle_level {A} (pre l post : list A) i x : l !! i = Some x -> (pre ++ l ++ post) !! (length pre + i)%nat = Some x.
Proof. intros H. rewrite lookup_app_r by lia. replace (length pre + i - length pre)%nat with i by lia. by apply lookup_app_l_Some. Qed.

Lemma build_level_ok fuel pre l k : Forall valid_hash l -> (length l <= 2 * k + fuel)%nat -> (2 * k <= length l + 1)%nat ->
  build_level mem fuel (length pre) (length l) (2 * k) (pre ++ l ++ take k (level_up sha_pair l)) =
    Some (pre ++ l ++ level_up sha_pair l).
Proof.
  intros HV. revert k. induction fuel as [|fuel IH]; intros k Hf Hk; cbn [build_level];
    (destruct (Nat.ltb_spec (2 * k) (length l)) as [Hlt|Hge]; [lia || idtac|]).
  - rewrite take_ge; [done|]. rewrite length_level_up. apply Nat.lt_succ_r, Nat.Div0.div_lt_upper_bound; lia.
  - destruct (lookup_lt_is_Some_2 l (2 * k)) as [a Ha]; [done|]. destruct (level_up_step l k a Ha) as (b&Hb&Ht).
    rewrite (lookup_middle_level _ _ _ _ _ Ha), (lookup_middle_level _ _ _ _ _ Hb).
    assert (valid_hash a) by (by eapply Forall_lookup_1). assert (valid_hash b) by (by eapply Forall_lookup_1).
    destruct (sha_pair_ok mem a b) as [E _]; [done..|]. cbn [mbind option_bind]. rewrite E. cbn [mbind option_bind].
    replace (2 * k + 2)%nat with (2 * S k)%nat by lia. rewrite <- !app_assoc, <- Ht. apply IH; lia.
  - rewrite take_ge; [done|]. rewrite length_level_up. apply Nat.lt_succ_r, Nat.Div0.div_lt_upper_bound; lia.
Qed.

Lemma level_up_valid l : Forall valid_hash l -> Forall valid_hash (level_up sha_pair l).
Proof.
  induction l as [|a|a b l IH] using list_ind2; [done| |].
  - intros [Ha _]%list.Forall_cons. constructor; [by apply (sha_pair_ok mem)|done].
  - intros [Ha [Hb Hl]%list.Forall_cons]%list.Forall_cons. constructor; [by apply (sha_pair_ok mem)|by apply IH].
Qed.

Lemma half_up n : (2 <= n)%nat -> (0 < (n + 1) / 2 < n)%nat /\ Nat.log2_up n = S (Nat.log2_up ((n + 1) / 2)).
Proof.
  intros Hn. split; [split; [apply Nat.div_str_pos; lia|apply Nat.Div0.div_lt_upper_bound; lia]|].
  destruct (decide (n = 2)%nat) as [->|]; [done|]. set (k := Nat.log2_up ((n + 1) / 2)).
  pose proof (Nat.div_mod_eq (n + 1) 2). pose proof (Nat.mod_upper_bound (n + 1) 2 ltac:(lia)).
  assert (2 ^ Nat.pred k < (n + 1) / 2 <= 2 ^ k)%nat as [H1 H2] by (apply Nat.log2_up_spec; lia).
  assert (0 < k)%nat by (apply Nat.log2_up_pos; lia).
  apply Nat.log2_up_unique; [lia|]. destruct k as [|k]; [lia|]. cbn [Nat.pred] in *. rewrite !Nat.pow_succ_r' in *. lia.
Qed.

Lemma merkle_root_level_up l : (2 <= length l)%nat -> merkle_root sha_pair (level_up sha_pair l) = merkle_root sha_pair l.
Proof.
  intros Hl. destruct (half_up (length l) Hl) as [Hh Hk]. unfold merkle_root. rewrite length_level_up.
  destruct (Nat.eqb_spec ((length l + 1) / 2) 0); [lia|]. destruct (Nat.eqb_spec (length l) 0); [lia|].
  rewrite Hk. symmetry. apply tree_root_level_up. rewrite <- Hk. split; [lia|]. apply Nat.log2_up_spec. lia.
Qed.

Lemma build_levels_ok fuel pre l : Forall valid_hash l -> (0 < length l <= fuel)%nat ->
  exists tree, build_levels mem fuel (length pre) (length l) (pre ++ l) = Some tree /\
    last tree = Some (merkle_root sha_pair l).
Proof.
  revert pre l. induction fuel as [|fuel IH]; intros pre l HV Hf; [lia|]. cbn [build_levels].
  destruct (Nat.ltb_spec 1 (length l)) as [Hl|Hl].
  - pose proof (build_level_ok (length l) pre l 0 HV) as Hb. change (2 * 0)%nat with 0%nat in Hb. rewrite take_0, app_nil_r in Hb.
    rewrite Hb by lia. cbn [mbind option_bind]. destruct (half_up (length l)) as [Hh _]; [lia|].
    destruct (IH (pre ++ l) (level_up sha_pair l)) as (tree&Et&El); [by apply level_up_valid|rewrite length_level_up; lia|].
    rewrite length_app, length_level_up, <- app_assoc in Et. exists tree. split; [done|]. rewrite El, merkle_root_level_up by lia. done.
  - destruct l as [|x [|]]; [cbn in Hf; lia| |cbn in Hl; lia]. exists (pre ++ [x]). split; [done|]. by rewrite last_snoc.
Qed.
End merkle_tree.

Definition txid (tx : CTransaction) : uint256 := sha256d (tx_bytes tx).

Lemma valid_sha256d b : valid_hash (sha256d b).
Proof. split; [apply length_sha256|apply sha256_bytes]. Qed.

Lemma block_hashes mem block : length mem = 64%nat -> Forall tx_ok (vtx block) ->
  mapM (GetHash mem) (vtx block) = Some (map txid (vtx block)) /\ Forall valid_hash (map txid (vtx block)).
Proof.
  intros Hm Hok. split.
  - apply mapM_all. eapply list.Forall_impl; [exact Hok|]. intros tx Htx. by apply GetHash_ok.
  - apply list.Forall_forall. intros x (tx&->&_)%list_elem_of_fmap. apply valid_sha256d.
Qed.

Lemma ComputeMerkleRoot_ok mem l : length mem = 64%nat -> Forall valid_hash l -> Z.of_nat (length l) <= 2 ^ 31 ->
  exists mutated, ComputeMerkleRoot mem l = Some (merkle_root sha_pair l, mutated) /\ (mutated = true <-> tree_mutated sha_pair l).
Proof.
  intros Hm HV Hl. unfold ComputeMerkleRoot. destruct (decide (0 < length l)%nat) as [Hn|Hn].
  - destruct (MerkleComputation_ok sha_pair (Hash2 mem) valid_hash (fun a b => sha_pair_ok mem a b Hm)
      l (u32 (-1)) 0 false) as (mutated&branch&->&Hmu&_); try done.
    exists mutated. cbn [mbind option_bind]. split; [|done].
    unfold merkle_root. destruct (Nat.eqb_spec (length l) 0); [lia|done].
  - destruct l; [|cbn in Hn; lia]. exists false. split; [done|].
    split; [done|]. intros (k&i&H&_). pose proof (pow2_pos k). cbn [length] in H. nia.
Qed.

(** The leaves of a block and its root *)
Definition leaves (block : CBlock) : list uint256 := map txid (vtx block).
Definition block_root (block : CBlock) : uint256 := merkle_root sha_pair (leaves block).

Lemma Block_MerkleRoot_ok mem block : length mem = 64%nat -> Forall tx_ok (vtx block) -> Z.of_nat (length (vtx block)) <= 2 ^ 31 ->
  exists mutated, Block_MerkleRoot mem block = Some (block_root block, mutated) /\
    (mutated = true <-> tree_mutated sha_pair (leaves block)).
Proof.
  intros Hm Hok Hl. destruct (block_hashes mem block Hm Hok) as [E HV]. unfold Block_MerkleRoot. rewrite E, bind_some.
  unfold BlockMerkleRoot. rewrite map_id. apply ComputeMerkleRoot_ok; [done|done|unfold leaves; by rewrite length_map].
Qed.

(** The tree that a block builds level by level in one vector has the same root as the
    constant-space computation that validation uses, for every block of at most 2^31
    transactions, the empty one included: the Merkle root of the hashes of the transactions. *)
Theorem build_merkle_tree (mem : list Z) (block : CBlock) :
  length mem = 64%nat -> Forall tx_ok (vtx block) -> Z.of_nat (length (vtx block)) <= 2 ^ 31 ->
  exists tree mutated,
    BuildMerkleTree mem block = Some (block_root block, tree) /\
    Block_MerkleRoot mem block = Some (block_root block, mutated).
Proof.
  intros Hm Hok Hl. destruct (Block_MerkleRoot_ok mem block Hm Hok Hl) as (mutated&E2&_).
  destruct (block_hashes mem block Hm Hok) as [E HV]. unfold BuildMerkleTree. rewrite E, bind_some.
  destruct (decide (vtx block = [])) as [En|En].
  - exists [], mutated. split; [|done]. unfold block_root, leaves. by rewrite En.
  - destruct (build_levels_ok mem Hm (length (map txid (vtx block))) [] (map txid (vtx block)) HV) as (tree&Et&El).
    { rewrite length_map. destruct (vtx block); [done|]. cbn. lia. }
    exists tree, mutated. split; [|done]. change ([] ++ map txid (vtx block)) with (map txid (vtx block)) in Et.
    change (length (@nil (list Z))) with 0%nat in Et. rewrite Et, bind_some, El. done.
Qed.

(** ** What [CheckBlock] accepts *)

(** A check that answers: it passes when [P] holds, and otherwise changes the state in a way
    that [R] describes. *)
Definition judges (a : option verdict) (P : Prop) (R : (CValidationState -> CValidationState) -> Prop) : Prop :=
  exists v, a = Some v /\ (v = None <-> P) /\ forall f, v = Some f -> ~ P /\ R f.

Lemma judges_and a b P Q R S : judges a P R -> (P -> judges b Q S) ->
  judges (and_then a b) (P /\ Q) (fun f => (~ P /\ R f) \/ (P /\ ~ Q /\ S f)).
Proof.
  intros (v&->&HP&HR) Hb. unfold and_then. cbn [mbind option_bind]. destruct v as [f|].
  - exists (Some f). destruct (HR f eq_refl) as [HnP Hf]. split; [done|]. split; [split; [done|tauto]|].
    intros g [= <-]. split; [tauto|]. by left.
  - assert P as H by by apply HP. destruct (Hb H) as (w&->&HQ&HS). exists w. split; [done|]. split; [tauto|].
    intros g Hg. destruct (HS g Hg). split; [tauto|]. by right.
Qed.

Lemma judges_if (c : bool) f (P : Prop) (R : (CValidationState -> CValidationState) -> Prop) :
  (c = false <-> P) -> R f -> judges (reject_if c f) P R.
Proof.
  intros HP HR. unfold reject_if. exists (if c then Some f else None). split; [done|]. destruct c.
  - split; [split; [done|intros H%HP; done]|]. intros g [= <-]. split; [|done]. intros H%HP. done.
  - split; [split; [intros _; by apply HP|done]|done].
Qed.

Lemma judges_pass (P : Prop) R : P -> judges pass P R.
Proof. intros. exists None. split; [done|]. split; [done|done]. Qed.

Lemma judges_mono a (P Q : Prop) (R S : (CValidationState -> CValidationState) -> Prop) :
  judges a P R -> (P <-> Q) -> (forall f, R f -> S f) -> judges a Q S.
Proof. intros (v&->&HP&HR) HPQ HRS. exists v. split; [done|]. split; [tauto|]. intros f Hf. destruct (HR f Hf). split; [tauto|auto]. Qed.

(** Blocks with fields of their width *)
Record header_ok (b : CBlockHeader) : Prop := {
  hdr_ok_version : int_range 32 (hdr_nVersion b);
  hdr_ok_prev : bytes_of_length 32 (hdr_hashPrevBlock b);
  hdr_ok_root : bytes_of_length 32 (hdr_hashMerkleRoot b);
  hdr_ok_time : word 32 (hdr_nTime b);
  hdr_ok_bits : word 32 (hdr_nBits b);
  hdr_ok_nonce : word 32 (hdr_nNonce b);
}.

Record CBlock_ok (block : CBlock) : Prop := {
  block_ok_header : header_ok (header block);
  block_ok_vtx : Forall tx_ok (vtx block) /\ Z.of_nat (length (vtx block)) <= 2 ^ 31;
  block_ok_sig : script_ok (vchBlockSig block);
}.

#[export] Instance canonical_header : Canonical header_ok CBlockHeader_Serialize CBlockHeader_Unserialize.
Proof.
  intros s b rest Hs. unfold CBlockHeader_Unserialize, CBlockHeader_Serialize. split.
  - intros E. read_fields. injection E as <- <-. cbn [hdr_nVersion hdr_hashPrevBlock hdr_hashMerkleRoot hdr_nTime hdr_nBits hdr_nNonce].
    split; [by constructor|]. by rewrite <- !app_assoc.
  - destruct b as [v p r t bi no]. intros [[Hv Hp Hr Ht Hb Hn] ->].
    cbn [hdr_nVersion hdr_hashPrevBlock hdr_hashMerkleRoot hdr_nTime hdr_nBits hdr_nNonce] in *.
    rewrite <- !app_assoc in Hs. by write_fields.
Qed.

Lemma header_bytes b : header_ok b -> Forall byte (CBlockHeader_Serialize b) /\ length (CBlockHeader_Serialize b) = 80%nat.
Proof.
  intros [_ [Bp Lp] [Br Lr] _ _ _]. unfold CBlockHeader_Serialize, Serialize_int32, ser_writedata32. split.
  - rewrite !list.Forall_app. split_and!; auto using store_le_bytes.
  - rewrite !length_app, !length_store_le, Lp, Lr. done.
Qed.

(** *** Sizes and signature operations *)

Definition block_bytes (block : CBlock) : list Z :=
  CBlockHeader_Serialize (header block) ++ WriteCompactSize (Z.of_nat (length (vtx block))) ++
  concat (map tx_bytes (vtx block)) ++ Serialize_bytes (vchBlockSig block).

Lemma CBlock_Serialize_base block : Forall tx_ok (vtx block) ->
  CBlock_Serialize block SER_NETWORK SERIALIZE_TRANSACTION_NO_WITNESS = Some (block_bytes block).
Proof.
  intros Hok. unfold CBlock_Serialize. change (SER_NETWORK .& _ =? 0) with true. cbv iota.
  rewrite (mapM_all _ tx_bytes), bind_some; [done|]. eapply list.Forall_impl; [exact Hok|].
  intros tx Htx. unfold tx_Serialize. by rewrite SerializeTransaction_no_witness by apply Htx.
Qed.

Lemma tx_bytes_pos tx : (0 < length (tx_bytes tx))%nat.
Proof. unfold tx_bytes, Serialize_int32, ser_writedata32. rewrite length_app, length_store_le. lia. Qed.

Lemma length_concat_sum {A} (f : A -> list Z) l : length (concat (map f l)) = sum_list_with (fun x => length (f x)) l.
Proof. induction l as [|x l IH]; [done|]. cbn [map concat sum_list_with]. by rewrite length_app, IH. Qed.

Lemma count_le_size block : (length (vtx block) <= length (block_bytes block))%nat.
Proof.
  unfold block_bytes. rewrite !length_app, length_concat_sum.
  enough (length (vtx block) <= sum_list_with (fun tx => length (tx_bytes tx)) (vtx block))%nat by lia.
  induction (vtx block) as [|tx l IH]; [done|]. cbn [length sum_list_with]. pose proof (tx_bytes_pos tx). lia.
Qed.

(** The scripts of a transaction, and the signature operations that are counted in them *)
Definition tx_scripts (tx : CTransaction) : list CScript := map scriptSig (vin tx) ++ map scriptPubKey (vout tx).
Definition sum_of (l : list Z) : Z := foldr Z.add 0 l.
Definition script_sigops (s : CScript) : Z := default 0 (GetSigOpCount s false).
Definition tx_sigops (tx : CTransaction) : Z := sum_of (map script_sigops (tx_scripts tx)).

Lemma sigop_loop_bound fuel pc last n m :
  0 <= n -> n + 20 * vsize pc < 2 ^ 32 -> sigop_loop fuel false pc last n = Some m -> n <= m <= n + 20 * vsize pc.
Proof.
  revert pc last n. induction fuel as [|fuel IH]; intros pc last n Hn Hb; cbn [sigop_loop]; [done|].
  destruct (GetOp pc) as [[[op v] pc']|] eqn:E; [|intros [= <-]; pose proof (vsize_nonneg pc); lia].
  apply GetOp_shorter in E. assert (vsize pc' + 1 <= vsize pc) as Hs by (unfold vsize; lia).
  assert (forall k, 0 <= k <= 20 -> sigop_loop fuel false pc' op (u32 (n + k)) = Some m -> n <= m <= n + 20 * vsize pc) as Hk.
  { intros k Hk. rewrite u32_small by (pose proof (vsize_nonneg pc'); lia). intros H%IH; lia. }
  cbn [andb]. destruct (_ || _); [cbn [mbind option_bind]; apply Hk; lia|].
  destruct (_ || _); cbn [mbind option_bind]; [apply Hk; unfold MAX_PUBKEYS_PER_MULTISIG; lia|].
  intros H%IH; lia.
Qed.

Lemma script_sigops_bound s : 20 * vsize s < 2 ^ 32 ->
  GetSigOpCount s false = Some (script_sigops s) /\ 0 <= script_sigops s <= 20 * vsize s.
Proof.
  intros Hs. unfold script_sigops. destruct (GetSigOpCount_total s false) as [m Hm]. rewrite Hm. change (default 0 (Some m)) with m.
  split; [done|]. unfold GetSigOpCount in Hm. apply sigop_loop_bound in Hm; lia.
Qed.

Lemma sum_of_nonneg l : Forall (Z.le 0) l -> 0 <= sum_of l.
Proof. induction 1 as [|x l Hx _ IH]; [done|]. cbn [sum_of foldr]. fold (sum_of l). lia. Qed.

Lemma sum_sigops_ok (l : list Z) : Forall (Z.le 0) l -> sum_of l < 2 ^ 32 -> sum_sigops (map Some l) = Some (sum_of l).
Proof.
  unfold sum_sigops. assert (forall a, 0 <= a -> Forall (Z.le 0) l -> a + sum_of l < 2 ^ 32 ->
    foldl (fun acc x => a ← acc; b ← x; Some (u32 (a + b))) (Some a) (map Some l) = Some (a + sum_of l)) as H.
  { clear. induction l as [|x l IH]; intros a Ha Hl Hs; cbn [map foldl sum_of foldr]; [by rewrite Z.add_0_r|].
    fold (sum_of l). cbn [sum_of foldr] in Hs. fold (sum_of l) in Hs. apply list.Forall_cons in Hl as [Hx Hl].
    pose proof (sum_of_nonneg l Hl).
    cbn [mbind option_bind]. rewrite u32_small by lia. rewrite IH by (done || lia). f_equal. lia. }
  intros Hl Hs. rewrite (H 0); [done|lia|done|lia].
Qed.

Lemma sum_of_bound {A} (f : A -> Z) (g : A -> nat) l : Forall (fun x => 0 <= f x <= 20 * Z.of_nat (g x)) l ->
  0 <= sum_of (map f l) <= 20 * Z.of_nat (sum_list_with g l) /\ Forall (Z.le 0) (map f l).
Proof.
  induction 1 as [|x l Hx _ [IH1 IH2]]; [done|]. cbn [map sum_of foldr sum_list_with]. fold (sum_of (map f l)).
  split; [lia|]. constructor; [lia|done].
Qed.

Lemma scripts_size tx : (sum_list_with length (tx_scripts tx) <= length (tx_bytes tx))%nat.
Proof.
  assert (forall l, (length l <= length (Serialize_bytes l))%nat) as Hb.
  { intros l. unfold Serialize_bytes. rewrite length_app. lia. }
  unfold tx_scripts, tx_bytes. rewrite sum_list_with_app, !length_app.
  assert (sum_list_with length (map scriptSig (vin tx)) <= length (Serialize_vin (vin tx)))%nat.
  { unfold Serialize_vin, Serialize_vector. rewrite length_app, length_concat_sum. 
    enough (sum_list_with length (map scriptSig (vin tx)) <= sum_list_with (fun x => length (CTxIn_Serialize x)) (vin tx))%nat by lia.
    induction (vin tx) as [|i l IH]; [done|]. cbn [map sum_list_with]. unfold CTxIn_Serialize at 1. rewrite !length_app.
    specialize (Hb (scriptSig i)). lia. }
  assert (sum_list_with length (map scriptPubKey (vout tx)) <= length (Serialize_vout (vout tx)))%nat.
  { unfold Serialize_vout, Serialize_vector. rewrite length_app, length_concat_sum.
    enough (sum_list_with length (map scriptPubKey (vout tx)) <= sum_list_with (fun x => length (CTxOut_Serialize x)) (vout tx))%nat by lia.
    induction (vout tx) as [|i l IH]; [done|]. cbn [map sum_list_with]. unfold CTxOut_Serialize at 1. rewrite !length_app.
    specialize (Hb (scriptPubKey i)). lia. }
  lia.
Qed.

Lemma tx_sigops_ok tx : 20 * Z.of_nat (length (tx_bytes tx)) < 2 ^ 32 ->
  GetLegacySigOpCount tx = Some (tx_sigops tx) /\ 0 <= tx_sigops tx <= 20 * Z.of_nat (length (tx_bytes tx)).
Proof.
  intros Hs. pose proof (scripts_size tx) as Hz.
  assert (Forall (fun s => GetSigOpCount s false = Some (script_sigops s) /\ 0 <= script_sigops s <= 20 * Z.of_nat (length s)) (tx_scripts tx)) as HF.
  { apply list.Forall_forall. intros s Hin. apply script_sigops_bound.
    assert (length s <= sum_list_with length (tx_scripts tx))%nat by (by apply sum_list_with_in). unfold vsize. lia. }
  apply list.Forall_and in HF as [HF1 HF2]. destruct (sum_of_bound script_sigops length _ HF2) as [Hb Hn].
  split; [|unfold tx_sigops; lia]. unfold GetLegacySigOpCount.
  replace (_ ++ _) with (map Some (map script_sigops (tx_scripts tx))); [by apply sum_sigops_ok; unfold tx_sigops in *; [|lia]|].
  unfold tx_scripts in *. rewrite !map_app, !map_map. apply list.Forall_app in HF1 as [H1 H2].
  apply list.Forall_fmap in H1. apply list.Forall_fmap in H2. f_equal; symmetry; apply map_ext_Forall; done.
Qed.

(** *** The rules of a block *)

Section rules.
Context (mem : list Z) (Hash9 : list Z -> uint256) (params : Params) (Verify : list Z -> uint256 -> list Z -> bool) (nIndex height : Z).

Definition block_hash (b : CBlockHeader) : uint256 :=
  if hdr_nVersion b >? 6 then sha256d (CBlockHeader_Serialize b) else Hash9 (CBlockHeader_Serialize b).

Definition work_rule (b : CBlockHeader) : Prop :=
  nIndex <= u64 (nLastPOWBlock params) -> CheckProofOfWork height (block_hash b) (hdr_nBits b) params = true.

(** No signature for proof of work; otherwise one by the key that the second output of the
    coinstake pays to *)
Definition signature_rule (block : CBlock) : Prop :=
  if CBlock_IsProofOfWork block then vchBlockSig block = []
  else vchBlockSig block <> [] /\
    exists tx out key, vtx block !! 1%nat = Some tx /\ vout tx !! 1%nat = Some out /\
      standard (scriptPubKey out) TX_PUBKEY [key] /\ CPubKey_IsValid key = true /\
      Verify key (block_hash (header block)) (vchBlockSig block) = true.

Definition root_rule (block : CBlock) : Prop :=
  hdr_hashMerkleRoot (header block) = block_root block /\ ~ tree_mutated sha_pair (leaves block).

Definition coinstake_rule (txs : list CTransaction) : Prop :=
  match txs with _ :: tx :: rest => IsCoinStake tx = true -> Forall (fun tx => IsCoinStake tx = false) rest | _ => True end.

Definition coinbase_rule (txs : list CTransaction) : Prop :=
  match txs with tx :: rest => IsCoinBase tx = true /\ Forall (fun tx => IsCoinBase tx = false) rest | [] => False end.

Definition size_rule (block : CBlock) : Prop :=
  vtx block <> [] /\ Z.of_nat (length (block_bytes block)) <= MAX_BLOCK_BASE_SIZE.

Definition sigops_rule (txs : list CTransaction) : Prop := 4 * sum_of (map tx_sigops txs) <= MAX_BLOCK_SIGOPS_COST.

Record block_rules (block : CBlock) : Prop := {
  valid_work : CBlock_IsProofOfWork block = true -> work_rule (header block);
  valid_root : root_rule block;
  valid_coinstakes : coinstake_rule (vtx block);
  valid_block_size : size_rule block;
  valid_coinbases : coinbase_rule (vtx block);
  valid_signature : signature_rule block;
  valid_txs : Forall tx_valid (vtx block);
  valid_sigops : sigops_rule (vtx block);
}.

Hypothesis Hmem : length mem = 64%nat.

Lemma Header_GetHash_ok b : header_ok b -> Header_GetHash mem Hash9 b = Some (block_hash b).
Proof.
  intros [Hb Hl]%header_bytes. unfold Header_GetHash, block_hash. destruct (hdr_nVersion b >? 6); [|done].
  apply (Hash_ok mem (CBlockHeader_Serialize b) [] []); rewrite ?app_nil_r; [done|done| |done|done]. rewrite Hl. done.
Qed.

Definition rejects (code : Z) (reason : string) (corruption : bool) (f : CValidationState -> CValidationState) : Prop :=
  exists level, f = dos level code reason corruption.

Lemma header_judged b : header_ok b -> judges (CheckBlockHeader mem Hash9 params nIndex height b) (work_rule b) (rejects REJECT_INVALID "high-hash" false).
Proof.
  intros Hb. unfold CheckBlockHeader, work_rule.
  change (BlockIndex.IsProofOfWork (CBlockIndex_of_header b)) with true. cbn [andb].
  destruct (Z.leb_spec nIndex (u64 (nLastPOWBlock params))) as [Hi|Hi]; [|apply judges_pass; lia].
  rewrite (Header_GetHash_ok b Hb), bind_some. apply judges_if; [|by eexists]. rewrite negb_false_iff. tauto.
Qed.

Lemma root_judged block : CBlock_ok block ->
  judges (check_merkle_root mem block) (root_rule block) (fun f => rejects REJECT_INVALID "bad-txnmrklroot" true f \/ rejects REJECT_INVALID "bad-txns-duplicate" true f).
Proof.
  intros Hok. destruct (block_ok_vtx _ Hok) as [Ht Hl].
  destruct (Block_MerkleRoot_ok mem block Hmem Ht Hl) as (mutated&E&Hmu). unfold check_merkle_root. rewrite E, bind_some.
  eapply judges_mono; [apply judges_and|..].
  - apply (judges_if _ _ (hdr_hashMerkleRoot (header block) = block_root block) (rejects REJECT_INVALID "bad-txnmrklroot" true)); [|by eexists].
    rewrite negb_false_iff. apply bool_decide_eq_true.
  - intros _. apply (judges_if _ _ (~ tree_mutated sha_pair (leaves block)) (rejects REJECT_INVALID "bad-txns-duplicate" true)); [|by eexists].
    rewrite <- Hmu. by destruct mutated.
  - done.
  - intros f [[_ Hf]|(_&_&Hf)]; [by left|by right].
Qed.

Lemma existsb_false {A} (p : A -> bool) l : existsb p l = false <-> Forall (fun x => p x = false) l.
Proof. induction l as [|x l IH]; [done|]. cbn [existsb]. rewrite orb_false_iff, list.Forall_cons, IH. done. Qed.

Lemma coinstakes_judged block : judges (check_coinstakes block) (coinstake_rule (vtx block)) (rejects 0 "" false).
Proof.
  unfold check_coinstakes, CBlock_IsProofOfStake. destruct (vtx block) as [|t0 [|t1 rest]] eqn:E; [by apply judges_pass..|].
  destruct (IsCoinStake t1) eqn:Es; [|by apply judges_pass; cbn [coinstake_rule]; rewrite Es]. cbn [lookup list_lookup drop mbind option_bind length Nat.eqb orb].
  change (drop 0 rest) with rest. rewrite Es. eapply judges_mono; [apply judges_and|..].
  - by apply (judges_if _ _ True (rejects 0 "" false)); [|eexists].
  - intros _. apply (judges_if _ _ (Forall (fun tx => IsCoinStake tx = false) rest) (rejects 0 "" false)); [|by eexists]. apply existsb_false.
  - cbn [coinstake_rule]. rewrite Es. split; [by intros [_ ?]|intros H; split; [done|by apply H]].
  - intros f [[_ Hf]|(_&_&Hf)]; done.
Qed.

Lemma sizes_judged block : Forall tx_ok (vtx block) -> judges (check_sizes block) (size_rule block) (rejects REJECT_INVALID "bad-blk-length" false).
Proof.
  intros Hok. unfold check_sizes, size_rule, CBlock_GetSerializeSize. rewrite CBlock_Serialize_base by done. rewrite bind_some.
  pose proof (count_le_size block) as Hc. destruct (vtx block) as [|tx l] eqn:E; [by apply judges_if; [naive_solver|eexists]|].
  cbn [length Nat.eqb orb]. destruct (Z.gtb_spec (Z.of_nat (S (length l))) MAX_BLOCK_BASE_SIZE) as [Hgt|_].
  - cbn [mbind option_bind]. apply judges_if; [|by eexists]. split; [done|]. intros [_ H]. cbn [length] in Hc. lia.
  - cbn [mbind option_bind]. apply judges_if; [|by eexists]. rewrite Z.gtb_ltb, Z.ltb_ge. naive_solver.
Qed.

Lemma coinbases_judged block :
  judges (check_coinbases block) (coinbase_rule (vtx block)) (fun f => rejects REJECT_INVALID "bad-cb-missing" false f \/ rejects REJECT_INVALID "bad-cb-multiple" false f).
Proof.
  unfold check_coinbases. destruct (vtx block) as [|tx l].
  - eapply judges_mono; [apply (judges_and _ _ False True (rejects REJECT_INVALID "bad-cb-missing" false) (fun _ => True))|..].
    + by apply (judges_if _ _ False (rejects REJECT_INVALID "bad-cb-missing" false)); [|eexists].
    + by intros [].
    + split; [by intros [[] _]|by intros []].
    + intros f [[_ Hf]|[[] _]]. by left.
  - cbn [drop]. change (drop 0 l) with l. eapply judges_mono; [apply judges_and|..].
    + apply (judges_if _ _ (IsCoinBase tx = true) (rejects REJECT_INVALID "bad-cb-missing" false)); [apply negb_false_iff|by eexists].
    + intros _. apply (judges_if _ _ (Forall (fun tx => IsCoinBase tx = false) l) (rejects REJECT_INVALID "bad-cb-multiple" false)); [apply existsb_false|by eexists].
    + done.
    + intros f [[_ Hf]|(_&_&Hf)]; [by left|by right].
Qed.

Lemma signature_checked block : CBlock_ok block ->
  exists ok, CheckBlockSignature mem Hash9 Verify block = Some ok /\ (ok = true <-> signature_rule block).
Proof.
  intros Hok. unfold CheckBlockSignature, signature_rule. destruct (CBlock_IsProofOfWork block) eqn:Ew.
  { eexists. split; [done|]. rewrite Nat.eqb_eq. split; [apply nil_length_inv|by intros ->]. }
  destruct (vchBlockSig block) as [|s0 s] eqn:Es; [exists false; split; [done|naive_solver]|]. cbn [length Nat.eqb].
  unfold CBlock_IsProofOfWork, CBlock_IsProofOfStake in Ew. apply negb_false_iff in Ew.
  destruct (vtx block) as [|t0 [|t1 rest]] eqn:Et; [done..|]. cbn [lookup list_lookup mbind option_bind].
  pose proof (block_ok_vtx _ Hok) as [Ht _]. rewrite Et in Ht.
  assert (tx_ok t1) as Ht1 by (by eapply (Forall_lookup_1 _ _ 1%nat)).
  destruct (vout t1 !! 1%nat) as [out|] eqn:Eo.
  2:{ apply lookup_ge_None_1 in Eo. unfold IsCoinStake in Ew. destruct (vin t1); [done|].
      apply andb_true_iff in Ew as [[_ Ew]%andb_true_iff _]. apply Nat.leb_le in Ew. lia. }
  assert (vsize (scriptPubKey out) < 2 ^ 64) as Hsz.
  { pose proof (ok_vout _ Ht1) as [Ho _]. assert (CTxOut_ok out) as [_ [_ Hf]] by (by eapply Forall_lookup_1).
    unfold fits_size, vsize in *. unfold MAX_SIZE in *. lia. }
  cbn [mbind option_bind]. destruct (Solver_cases (scriptPubKey out) TX_NONSTANDARD Hsz) as ([[ok T] S]&E&_).
  rewrite E. cbn [mbind option_bind]. rewrite (Header_GetHash_ok (header block)) by apply Hok.
  assert (forall tx o, Some t1 = Some tx -> vout tx !! 1%nat = Some o -> tx = t1 /\ o = out) as Hu by (intros ?? [= <-]; split; congruence).
  destruct ok; cbn [negb].
  2:{ exists false. split; [done|]. split; [done|]. intros (_&tx&o&key&Htx&Ho&Hk&_). destruct (Hu _ _ Htx Ho) as [-> ->].
      apply (Solver_iff _ TX_NONSTANDARD) in Hk; [congruence|done]. }
  pose proof E as Hst. apply Solver_iff in Hst; [|done]. case_bool_decide as HT.
  - subst T. destruct (standard_one _ _ _ Hst) as [key ->]; [set_solver|]. cbn [lookup list_lookup]. rewrite !bind_some.
    eexists. split; [done|]. rewrite andb_true_iff. split.
    + intros [Hk Hv]. split; [done|]. by exists t1, out, key.
    + intros (_&tx&o&key'&Htx&Ho&Hk&Hkv&Hv). destruct (Hu _ _ Htx Ho) as [-> ->].
      apply (Solver_iff _ TX_NONSTANDARD) in Hk; [|done]. rewrite E in Hk. by simplify_eq.
  - exists false. split; [done|]. split; [done|]. intros (_&tx&o&key&Htx&Ho&Hk&_). destruct (Hu _ _ Htx Ho) as [-> ->].
    apply (Solver_iff _ TX_NONSTANDARD) in Hk; [congruence|done].
Qed.

Lemma signature_judged block : CBlock_ok block ->
  judges (ok ← CheckBlockSignature mem Hash9 Verify block; reject_if (negb ok) (fun st => st)) (signature_rule block) (eq (fun st => st)).
Proof.
  intros (ok&->&Hs)%signature_checked. cbn [mbind option_bind]. apply judges_if; [|done]. by rewrite negb_false_iff.
Qed.

(** What [CheckBlock] does with the state when a transaction fails *)
Definition tx_rejects (f : CValidationState -> CValidationState) : Prop :=
  exists r : reject, f = fun st => let st := DoS r false st in Invalid (chRejectCode st) (strRejectReason st) st.

Lemma transactions_judged txs : Forall tx_ok txs -> judges (check_transactions txs) (Forall tx_valid txs) tx_rejects.
Proof.
  induction 1 as [|tx txs Htx _ IH]; [by apply judges_pass|]. cbn [check_transactions].
  destruct (check_transaction_ok tx (ok_wit _ Htx)) as (r&->&Hr&_). cbn [mbind option_bind]. destruct r as [r|].
  - assert (~ Forall tx_valid (tx :: txs)) as Hn by (rewrite list.Forall_cons; by intros [H%Hr _]).
    eexists. split; [done|]. split; [done|]. intros f [= <-]. split; [done|by exists r].
  - eapply judges_mono; [exact IH| |done]. rewrite list.Forall_cons. split; [|tauto]. intros; split; [by apply Hr|done].
Qed.

Lemma sigops_judged block : size_rule block -> judges (check_sigops block) (sigops_rule (vtx block)) (rejects REJECT_INVALID "bad-blk-sigops" false).
Proof.
  intros [_ Hs]. unfold check_sigops, block_sigops, sigops_rule.
  assert (sum_list_with (fun tx => length (tx_bytes tx)) (vtx block) <= length (block_bytes block))%nat as Hz.
  { unfold block_bytes. rewrite !length_app, length_concat_sum. lia. }
  unfold MAX_BLOCK_BASE_SIZE in Hs.
  assert (Forall (fun tx => GetLegacySigOpCount tx = Some (tx_sigops tx) /\ 0 <= tx_sigops tx <= 20 * Z.of_nat (length (tx_bytes tx))) (vtx block)) as HF.
  { apply list.Forall_forall. intros tx Hin. apply tx_sigops_ok.
    assert (length (tx_bytes tx) <= sum_list_with (fun tx => length (tx_bytes tx)) (vtx block))%nat by (by apply (sum_list_with_in _ (fun tx => length (tx_bytes tx)))). lia. }
  apply list.Forall_and in HF as [HF1 HF2]. destruct (sum_of_bound tx_sigops (fun tx => length (tx_bytes tx)) _ HF2) as [Hb Hn].
  replace (map GetLegacySigOpCount (vtx block)) with (map Some (map tx_sigops (vtx block))).
  2:{ rewrite map_map. symmetry. by apply map_ext_Forall. }
  rewrite sum_sigops_ok by (done || lia). cbn [mbind option_bind]. rewrite u32_small by (unfold WITNESS_SCALE_FACTOR; lia).
  apply judges_if; [|by eexists]. rewrite Z.gtb_ltb, Z.ltb_ge. unfold WITNESS_SCALE_FACTOR. lia.
Qed.

(** The ways in which [CheckBlock] fails *)
Inductive block_fault (block : CBlock) (f : CValidationState -> CValidationState) : Prop :=
  | fault_work : CBlock_IsProofOfWork block = true -> ~ work_rule (header block) -> rejects REJECT_INVALID "high-hash" false f -> block_fault block f
  | fault_root : ~ root_rule block -> rejects REJECT_INVALID "bad-txnmrklroot" true f \/ rejects REJECT_INVALID "bad-txns-duplicate" true f -> block_fault block f
  | fault_coinstakes : root_rule block -> ~ coinstake_rule (vtx block) -> rejects 0 "" false f -> block_fault block f
  | fault_size : root_rule block -> ~ size_rule block -> rejects REJECT_INVALID "bad-blk-length" false f -> block_fault block f
  | fault_coinbases : root_rule block -> vtx block <> [] -> ~ coinbase_rule (vtx block) ->
      rejects REJECT_INVALID "bad-cb-missing" false f \/ rejects REJECT_INVALID "bad-cb-multiple" false f -> block_fault block f
  | fault_signature : root_rule block -> ~ signature_rule block -> f = (fun st => st) -> block_fault block f
  | fault_txs : root_rule block -> ~ Forall tx_valid (vtx block) -> tx_rejects f -> block_fault block f
  | fault_sigops : root_rule block -> ~ sigops_rule (vtx block) -> rejects REJECT_INVALID "bad-blk-sigops" false f -> block_fault block f.

Lemma work_judged block : CBlock_ok block ->
  judges (if CBlock_IsProofOfWork block then CheckBlockHeader mem Hash9 params nIndex height (header block) else pass)
    (CBlock_IsProofOfWork block = true -> work_rule (header block))
    (fun f => CBlock_IsProofOfWork block = true /\ rejects REJECT_INVALID "high-hash" false f).
Proof.
  intros Hok. destruct (CBlock_IsProofOfWork block); [|by apply judges_pass].
  eapply judges_mono; [apply header_judged, Hok|split; auto|]. by intros f Hf.
Qed.

Lemma check_block_judged block : CBlock_ok block ->
  judges (check_block mem Hash9 params Verify nIndex height block true true) (block_rules block) (block_fault block).
Proof.
  intros Hok. pose proof (block_ok_vtx _ Hok) as [Ht _]. unfold check_block. eapply judges_mono.
  - apply judges_and; [by apply work_judged|intros _].
    apply judges_and; [by apply root_judged|intros Hroot].
    apply judges_and; [apply coinstakes_judged|intros _].
    apply judges_and; [by apply sizes_judged|intros Hsize].
    apply judges_and; [apply coinbases_judged|intros _].
    apply judges_and; [by apply signature_judged|intros _].
    apply judges_and; [by apply transactions_judged|intros _]. by apply sigops_judged.
  - split; [by intros (?&?&?&?&?&?&?&?)|by intros []].
  - intros f [[Hw [Hp Hf]]|(_&_&[[Hr Hf]|(Hr&_&[[Hc Hf]|(_&_&[[Hz Hf]|(Hsz&_&[[Hb Hf]|(_&_&[[Hs Hf]|(_&_&[[Hx Hf]|(_&Hg&Hf)])])])])])])].
    + apply fault_work; [done| |done]. intros H. by apply Hw.
    + by apply fault_root.
    + by apply fault_coinstakes.
    + by apply fault_size.
    + apply fault_coinbases; [done|apply Hsz|done|done].
    + by apply fault_signature.
    + by apply fault_txs.
    + by apply fault_sigops.
Qed.

Lemma dos_mode level code reason c st : mode st <> MODE_ERROR -> mode (dos level code reason c st) = MODE_INVALID.
Proof. unfold dos, DoS. by destruct (mode st). Qed.

Lemma block_fault_effect block f st : block_fault block f -> mode st <> MODE_ERROR -> f st = st \/ mode (f st) = MODE_INVALID.
Proof.
  intros H Hm. assert (forall code reason c, rejects code reason c f -> f st = st \/ mode (f st) = MODE_INVALID) as Hr.
  { intros code reason c [level ->]. right. by apply dos_mode. }
  destruct H as [_ _ Hf|_ [Hf|Hf]|_ _ Hf|_ _ Hf|_ _ _ [Hf|Hf]|_ _ ->|_ _ [r ->]|_ _ Hf]; eauto.
  right. unfold Invalid, DoS. by destruct (mode st).
Qed.

Lemma CheckBlock_cases block st : CBlock_ok block -> fChecked block = false ->
  exists v, CheckBlock mem Hash9 params Verify nIndex height block st true true =
      Some (match v with Some f => (false, f st, block) | None => (true, st, set_fChecked block) end) /\
    (v = None <-> block_rules block) /\ (forall f, v = Some f -> block_fault block f).
Proof.
  intros Hok Hc. destruct (check_block_judged block Hok) as (v&E&Hv&Hf). exists v. unfold CheckBlock. rewrite Hc, E, bind_some.
  split; [done|]. split; [done|]. intros f Hx. by destruct (Hf f Hx).
Qed.
End rules.

(** C7: [CheckBlock] answers for every block, and a block that it has not seen passes exactly
    when it keeps the rules: proof of work while that is asked for, a Merkle root that matches and
    is not mutated, a single coinbase, first, and a single coinstake, second, at most 2000000
    bytes without witnesses, a signature of the header by the key that the coinstake pays to (and
    none for proof of work), transactions that are valid without context, and at most 20000
    signature operations, counted without wrapping around.  A block that passes is marked and
    leaves the validation state alone; one that fails leaves the state as it was or makes it
    invalid. *)
Theorem check_block_iff (mem : list Z) (Hash9 : list Z -> uint256) (params : Params)
    (Verify : list Z -> uint256 -> list Z -> bool) (nIndex height : Z) (block : CBlock) (st : CValidationState) :
  length mem = 64%nat -> CBlock_ok block -> fChecked block = false ->
  exists b st' block', CheckBlock mem Hash9 params Verify nIndex height block st true true = Some (b, st', block') /\
    (b = true <-> block_rules Hash9 params Verify nIndex height block) /\
    (b = true -> st' = st /\ block' = set_fChecked block) /\
    (b = false -> block' = block /\ (mode st <> MODE_ERROR -> st' = st \/ mode st' = MODE_INVALID)).
Proof.
  intros Hm Hok Hc. destruct (CheckBlock_cases mem Hash9 params Verify nIndex height Hm block st Hok Hc) as (v&E&Hv&Hf).
  destruct v as [f|]; do 3 eexists; (split; [exact E|]).
  - split; [by rewrite <- Hv|]. split; [done|]. intros _. split; [done|]. intros Hmode. eapply block_fault_effect; [by apply Hf|done].
  - split; [by rewrite <- Hv|]. done.
Qed.

(** ** What the hash of a block commits to *)

Definition block_pairs (block : CBlock) : list (uint256 * uint256) :=
  tree_pairs sha_pair (Nat.log2_up (length (vtx block))) (leaves block).

(** Two of the values that were hashed for the transactions of the blocks collide. *)
Definition content_collision (b1 b2 : CBlock) : Prop :=
  (exists t1 t2, t1 ∈ vtx b1 /\ t2 ∈ vtx b2 /\ tx_bytes t1 <> tx_bytes t2 /\ txid t1 = txid t2) \/
  collision sha_pair (block_pairs b1 ++ block_pairs b2).

(** The transactions without what their hashes leave out *)
Definition contents (block : CBlock) : list CTransaction := map committed (vtx block).

Lemma leaves_commit l1 l2 : Forall tx_ok l1 -> Forall tx_ok l2 -> map txid l1 = map txid l2 ->
  map committed l1 = map committed l2 \/
  exists t1 t2, t1 ∈ l1 /\ t2 ∈ l2 /\ tx_bytes t1 <> tx_bytes t2 /\ txid t1 = txid t2.
Proof.
  revert l2. induction l1 as [|t1 l1 IH]; intros [|t2 l2] H1 H2 E; try done; [by left|].
  apply list.Forall_cons in H1 as [H1 Hl1]. apply list.Forall_cons in H2 as [H2 Hl2]. cbn [map] in E.
  injection E as E El. destruct (decide (tx_bytes t1 = tx_bytes t2)) as [Eb|Hne].
  - destruct (IH l2 Hl1 Hl2 El) as [IHe|(a&b&Ha&Hb&?&?)].
    + left. cbn [map]. f_equal; [by apply tx_bytes_inj|done].
    + right. exists a, b. split; [by right|]. split; [by right|done].
  - right. exists t1, t2. split; [by left|]. split; [by left|done].
Qed.

Lemma log2_up_ge n : (0 < n)%nat -> (n <= 2 ^ Nat.log2_up n)%nat.
Proof. intros Hn. destruct (decide (n = 1)%nat) as [->|]; [done|]. apply Nat.log2_up_spec. lia. Qed.

Lemma root_commits b1 b2 : CBlock_ok b1 -> CBlock_ok b2 -> vtx b1 <> [] -> vtx b2 <> [] ->
  Nat.log2_up (length (vtx b1)) = Nat.log2_up (length (vtx b2)) -> hdr_hashMerkleRoot (header b1) = hdr_hashMerkleRoot (header b2) ->
  root_rule b1 -> root_rule b2 -> contents b1 = contents b2 \/ content_collision b1 b2.
Proof.
  intros Ho1 Ho2 N1 N2 Hk Eh [R1 M1] [R2 M2]. pose proof (block_ok_vtx _ Ho1) as [T1 _]. pose proof (block_ok_vtx _ Ho2) as [T2 _].
  assert (forall b, vtx b <> [] -> (0 < length (leaves b) <= 2 ^ Nat.log2_up (length (vtx b)))%nat) as Hlen.
  { intros b Hb. unfold leaves. rewrite length_map. destruct (vtx b) as [|t l]; [done|]. split; [cbn; lia|]. apply log2_up_ge. cbn; lia. }
  assert (forall b, vtx b <> [] -> block_root b = tree_root sha_pair (Nat.log2_up (length (vtx b))) (leaves b)) as Hroot.
  { intros b Hb. unfold block_root, merkle_root, leaves. rewrite length_map. by destruct (vtx b). }
  destruct (tree_binding sha_pair (block_pairs b1 ++ block_pairs b2) (Nat.log2_up (length (vtx b1))) (leaves b1) (leaves b2)) as [El|Hc].
  - by apply Hlen.
  - rewrite Hk. by apply Hlen.
  - by apply list_subseteq_app_l.
  - rewrite Hk. by apply list_subseteq_app_r.
  - done.
  - done.
  - rewrite <- (Hroot b1 N1). rewrite Hk, <- (Hroot b2 N2). congruence.
  - destruct (leaves_commit _ _ T1 T2 El) as [?|?]; [by left|right; by left].
  - right. by right.
Qed.

(** The rules that do not depend on what is left out *)
Lemma coinbase_committed txs : coinbase_rule (map committed txs) <-> coinbase_rule txs.
Proof. destruct txs as [|tx txs]; [done|]. cbn [map coinbase_rule]. rewrite list.Forall_fmap. done. Qed.

Lemma coinstake_committed txs : coinstake_rule (map committed txs) <-> coinstake_rule txs.
Proof. destruct txs as [|t0 [|t1 txs]]; [done..|]. cbn [map coinstake_rule]. rewrite list.Forall_fmap. done. Qed.

Lemma stake_committed b1 b2 : contents b1 = contents b2 -> CBlock_IsProofOfStake b1 = CBlock_IsProofOfStake b2.
Proof.
  assert (forall b, CBlock_IsProofOfStake b = match contents b with _ :: tx :: _ => IsCoinStake tx | _ => false end) as H.
  { intros b. unfold CBlock_IsProofOfStake, contents. by destruct (vtx b) as [|? [|? ?]]. }
  intros E. by rewrite !H, E.
Qed.

Lemma committed_ok tx : tx_ok tx -> tx_ok (committed tx).
Proof.
  intros [H1 H2 H3 H4 H5 H6 H7]. constructor; cbn [committed nVersion nTime vin vout wit nLockTime strDZeel length]; try done; [lia|].
  destruct (nVersion tx >=? 2); [done|]. split; [constructor|]. unfold fits_size. cbn. done.
Qed.

Lemma tx_valid_committed tx : tx_ok tx -> tx_valid (committed tx) <-> tx_valid tx.
Proof.
  intros Hok. assert (GetSerializeSize (committed tx) SERIALIZE_TRANSACTION_NO_WITNESS = GetSerializeSize tx SERIALIZE_TRANSACTION_NO_WITNESS) as E.
  { unfold GetSerializeSize. rewrite (SerializeTransaction_no_witness (committed tx)) by apply (ok_wit _ (committed_ok _ Hok)).
    rewrite (SerializeTransaction_no_witness tx) by apply (ok_wit _ Hok). rewrite !bind_some. by rewrite committed_bytes. }
  split; intros [H1 H2 H3 H4 H5 H6 H7]; constructor; try done; [by rewrite <- E|by rewrite E].
Qed.

Lemma txs_valid_committed txs : Forall tx_ok txs -> Forall tx_valid (map committed txs) <-> Forall tx_valid txs.
Proof.
  induction 1 as [|tx txs Htx _ IH]; [done|]. cbn [map]. rewrite !list.Forall_cons, tx_valid_committed, IH by done. done.
Qed.

Lemma sigops_committed txs : sigops_rule (map committed txs) <-> sigops_rule txs.
Proof. unfold sigops_rule. rewrite map_map. done. Qed.

(** Two blocks with the same hash: the headers collide, or they are the same and so are the
    transactions, unless those collide. *)
Lemma same_hash_header Hash9 h1 h2 : header_ok h1 -> header_ok h2 -> block_hash Hash9 h1 = block_hash Hash9 h2 ->
  h1 = h2 \/ CBlockHeader_Serialize h1 <> CBlockHeader_Serialize h2.
Proof.
  intros H1 H2 _. destruct (decide (CBlockHeader_Serialize h1 = CBlockHeader_Serialize h2)) as [E|]; [left|by right].
  destruct (canonical_inj canonical_header h1 h2 [] []) as [? _]; [done|done| |by rewrite !app_nil_r|done].
  rewrite app_nil_r. by apply header_bytes.
Qed.

(** C8: The hash of a block commits to its contents.  When two blocks that keep the rules of
    [CheckBlock] have the same hash and Merkle trees of the same height, they have the same header
    and the same transactions up to what transaction hashes leave out, or two headers collide
    under the hash of blocks, or two transactions or two inner nodes of the trees collide under
    double SHA-256. *)
Theorem block_hash_commits (mem : list Z) (Hash9 : list Z -> uint256) (params : Params)
    (Verify : list Z -> uint256 -> list Z -> bool) (nIndex height : Z) (b1 b2 : CBlock) :
  length mem = 64%nat -> CBlock_ok b1 -> CBlock_ok b2 ->
  block_rules Hash9 params Verify nIndex height b1 -> block_rules Hash9 params Verify nIndex height b2 ->
  Nat.log2_up (length (vtx b1)) = Nat.log2_up (length (vtx b2)) ->
  Header_GetHash mem Hash9 (header b1) = Header_GetHash mem Hash9 (header b2) ->
  (header b1 = header b2 /\ contents b1 = contents b2) \/
  (CBlockHeader_Serialize (header b1) <> CBlockHeader_Serialize (header b2) /\
   block_hash Hash9 (header b1) = block_hash Hash9 (header b2)) \/
  content_collision b1 b2.
Proof.
  intros Hm Ho1 Ho2 V1 V2 Hk E. pose proof (block_ok_header _ Ho1) as Hh1. pose proof (block_ok_header _ Ho2) as Hh2.
  rewrite !Header_GetHash_ok in E by done. injection E as E.
  destruct (same_hash_header Hash9 _ _ Hh1 Hh2 E) as [Eh|Hne]; [|right; left; done].
  destruct (root_commits b1 b2) as [Ec|Hc]; try done; [apply V1|apply V2|by rewrite Eh|apply V1|apply V2|by left|right; by right].
Qed.

(** The state that a fault leaves, with the flag and the reason *)
Lemma rejects_state code reason c f st : mode st = MODE_VALID -> rejects code reason c f ->
  mode (f st) = MODE_INVALID /\ corruptionPossible (f st) = c /\ strRejectReason (f st) = reason.
Proof. intros Hst [level ->]. unfold dos, DoS. by rewrite Hst. Qed.

(** Blocks with the header and the tree of [b] that pass [CheckBlock] have the contents of [b],
    when its Merkle root is right. *)
Lemma passing_twin Hash9 params Verify nIndex height b1 b2 : CBlock_ok b1 -> CBlock_ok b2 -> vtx b1 <> [] ->
  header b2 = header b1 -> Nat.log2_up (length (vtx b2)) = Nat.log2_up (length (vtx b1)) -> root_rule b1 ->
  block_rules Hash9 params Verify nIndex height b2 ->
  content_collision b1 b2 \/
  (contents b1 = contents b2 /\ coinstake_rule (vtx b1) /\ coinbase_rule (vtx b1) /\ Forall tx_valid (vtx b1) /\ sigops_rule (vtx b1)).
Proof.
  intros Ho1 Ho2 N1 Eh Hk R1 V2. pose proof (block_ok_vtx _ Ho1) as [T1 _]. pose proof (block_ok_vtx _ Ho2) as [T2 _].
  destruct (root_commits b1 b2) as [Ec|Hc]; try done; [apply V2|by rewrite Eh|apply V2|right; split; [done|]|by left].
  rewrite <- (coinstake_committed (vtx b1)), <- (coinbase_committed (vtx b1)), <- (txs_valid_committed (vtx b1)),
    <- (sigops_committed (vtx b1)) by done. fold (contents b1). rewrite Ec. unfold contents.
  rewrite coinstake_committed, coinbase_committed, txs_valid_committed, sigops_committed by done. by destruct V2.
Qed.

(** C1: Blame.  When [CheckBlock] refuses a block, either a reason is given that is not one of the
    header, or no other block with that header passes.  The reasons that are not of the
    header: the signature of the block is wrong, and then the state is left as it was, so that
    nothing is marked; the Merkle root does not fit the transactions or the tree is mutated, and
    then the flag for corruption is set; the block is too long, a size that counts the signature,
    which the header does not commit to; and the work is too low for a block without coinstake,
    which no block without coinstake can then satisfy.  After every other refusal the state is invalid without the flag,
    and every block with that header and a Merkle tree of the same height is refused too while the
    index and the chain are the same ones, unless two transactions or two inner nodes
    collide under double SHA-256. *)
Theorem check_block_blame (mem : list Z) (Hash9 : list Z -> uint256) (params : Params)
    (Verify : list Z -> uint256 -> list Z -> bool) (nIndex height : Z) (b1 : CBlock) (st st' : CValidationState) (b1' : CBlock) :
  length mem = 64%nat -> CBlock_ok b1 -> fChecked b1 = false -> mode st = MODE_VALID ->
  CheckBlock mem Hash9 params Verify nIndex height b1 st true true = Some (false, st', b1') ->
  let refused b2 := exists st2, CheckBlock mem Hash9 params Verify nIndex height b2 st true true = Some (false, st2, b2) in
  let twin b2 := CBlock_ok b2 /\ fChecked b2 = false /\ header b2 = header b1 in
  (st' = st /\ CheckBlockSignature mem Hash9 Verify b1 = Some false) \/
  mode st' = MODE_INVALID /\
  ((corruptionPossible st' = true /\ ~ root_rule b1) \/
   (strRejectReason st' = "bad-blk-length"%string /\ ~ size_rule b1) \/
   (strRejectReason st' = "high-hash"%string /\ CBlock_IsProofOfWork b1 = true /\
    forall b2, twin b2 -> CBlock_IsProofOfWork b2 = true -> refused b2) \/
   (corruptionPossible st' = false /\
    forall b2, twin b2 -> Nat.log2_up (length (vtx b2)) = Nat.log2_up (length (vtx b1)) -> refused b2 \/ content_collision b1 b2)).
Proof.
  intros Hm Ho1 F1 Hst E1 refused twin.
  destruct (CheckBlock_cases mem Hash9 params Verify nIndex height Hm b1 st Ho1 F1) as (v1&E1'&_&Hf1). rewrite E1 in E1'.
  destruct v1 as [f|]; [|done]. injection E1' as -> _. specialize (Hf1 f eq_refl).
  assert (forall b2, twin b2 -> refused b2 \/ block_rules Hash9 params Verify nIndex height b2) as Hb2.
  { intros b2 (Ho2&F2&_). destruct (CheckBlock_cases mem Hash9 params Verify nIndex height Hm b2 st Ho2 F2) as (v2&E2&Hv2&_).
    destruct v2 as [g|]; [left; by eexists|right; by apply Hv2]. }
  pose proof (fun code reason c => rejects_state code reason c f st Hst) as Hrej.
  assert (root_rule b1 -> vtx b1 <> [] ->
    ~ (coinstake_rule (vtx b1) /\ coinbase_rule (vtx b1) /\ Forall tx_valid (vtx b1) /\ sigops_rule (vtx b1)) ->
    forall b2, twin b2 -> Nat.log2_up (length (vtx b2)) = Nat.log2_up (length (vtx b1)) -> refused b2 \/ content_collision b1 b2) as Hheader.
  { intros R N Hx b2 Ht Hk. destruct (Hb2 b2 Ht) as [?|V2]; [by left|]. destruct Ht as (Ho2&F2&Eh).
    destruct (passing_twin Hash9 params Verify nIndex height b1 b2 Ho1 Ho2 N Eh Hk R V2) as [?|[_ Hgood]]; [by right|].
    by destruct Hx. }
  destruct Hf1 as [Hp Hw Hf|Hr Hf|R Hx Hf|_ Hs Hf|R N Hx Hf|_ Hs ->|R Hx [r ->]|R Hx Hf]; [| | | | |left|..];
    try (right; split; [by destruct_or? Hf; try apply Hrej in Hf as (?&_); unfold Invalid, DoS; rewrite ?Hst|]).
  - do 2 right. left. apply Hrej in Hf as (_&_&?). split_and!; [done..|]. intros b2 Ht Hp2.
    destruct (Hb2 b2 Ht) as [?|V2]; [done|]. destruct Hw. rewrite <- (proj2 (proj2 Ht)). by apply V2.
  - left. by destruct Hf as [(_&?&_)%Hrej|(_&?&_)%Hrej].
  - do 3 right. split; [by apply Hrej in Hf as (_&?&_)|]. apply Hheader; [done| |tauto]. intros N. destruct Hx. by rewrite N.
  - right. left. by apply Hrej in Hf as (_&_&?).
  - do 3 right. split; [by destruct Hf as [(_&?&_)%Hrej|(_&?&_)%Hrej]|]. apply Hheader; tauto.
  - split; [done|]. destruct (signature_checked mem Hash9 Verify Hm b1 Ho1) as (ok&->&Hok). destruct ok; [by destruct Hs; apply Hok|done].
  - do 3 right. split; [by unfold Invalid, DoS; rewrite Hst|]. apply Hheader; [done| |tauto]. intros N. destruct Hx. by rewrite N.
  - do 3 right. split; [by apply Hrej in Hf as (_&?&_)|]. apply Hheader; [done| |tauto]. intros N. destruct Hx. rewrite N. by vm_compute.
Qed.

Lemma judges_passes a (P : Prop) R : judges a P R -> P -> a = Some None.
Proof. intros (v&->&HP&_) H. f_equal. by apply HP. Qed.

Definition with_sig (block : CBlock) (sig : list Z) : CBlock := mkBlock (header block) (vtx block) sig (fChecked block).

(** The signature is outside of the hash but inside of the size: a copy of a valid block with a
    long signature makes the state invalid, without the flag for corruption. *)
Lemma oversized_signature mem Hash9 params Verify nIndex height block sig st :
  length mem = 64%nat -> CBlock_ok block -> fChecked block = false -> block_rules Hash9 params Verify nIndex height block ->
  script_ok sig -> MAX_BLOCK_BASE_SIZE < Z.of_nat (length sig) ->
  Header_GetHash mem Hash9 (header (with_sig block sig)) = Header_GetHash mem Hash9 (header block) /\
  CheckBlock mem Hash9 params Verify nIndex height (with_sig block sig) st true true =
    Some (false, dos 100 REJECT_INVALID "bad-blk-length" false st, with_sig block sig).
Proof.
  intros Hm Hok Hc V Hsig Hlen. split; [done|]. unfold CheckBlock. change (fChecked (with_sig block sig)) with (fChecked block). rewrite Hc.
  set (b := with_sig block sig). assert (CBlock_ok b) as Hb by (constructor; [apply Hok|apply Hok|done]). unfold check_block.
  rewrite (judges_passes _ _ _ (work_judged mem Hash9 params Verify nIndex height Hm b Hb)) by apply V.
  rewrite (judges_passes _ _ _ (root_judged mem Hm b Hb)) by apply V.
  rewrite (judges_passes _ _ _ (coinstakes_judged b)) by apply V. unfold and_then at 1 2 3. cbn [mbind option_bind].
  unfold check_sizes, CBlock_GetSerializeSize. rewrite CBlock_Serialize_base by apply Hok. rewrite !bind_some.
  assert (Z.of_nat (length (block_bytes b)) >? MAX_BLOCK_BASE_SIZE = true) as Hs.
  { apply Z.gtb_lt. unfold block_bytes, Serialize_bytes. rewrite !length_app. cbn [b with_sig vchBlockSig]. lia. }
  rewrite Hs. by destruct (_ || _).
Qed.

(** ** Blocks in context *)

(** *** The extended serialization of transactions, and the tree of the witnesses *)

Definition wtx_bytes (tx : CTransaction) : list Z := default [] (tx_Serialize 0 tx).
Definition wtxid (tx : CTransaction) : uint256 := sha256d (wtx_bytes tx).

(** Transactions with witnesses that a message can carry *)
Record wtx_ok (tx : CTransaction) : Prop := {
  wtx_ok_tx : tx_ok tx;
  wtx_ok_wit : Forall witness_ok (wit tx);
  wtx_ok_size : 8 * Z.of_nat (length (wtx_bytes tx)) < 2 ^ 64;
}.

Lemma resize_wit_not_null w k : CTxWitness_IsNull w = false -> (length w <= k)%nat -> CTxWitness_IsNull (resize_wit w k) = false.
Proof.
  intros Hw Hk. unfold resize_wit, CTxWitness_IsNull in *. rewrite forallb_app, take_ge by lia. by rewrite Hw.
Qed.

Lemma witness_bytes w : Forall witness_ok w -> Forall byte (concat (map CTxInWitness_Serialize w)).
Proof.
  induction 1 as [|x w [Hx _] _ IH]; [constructor|]. cbn [map concat]. apply list.Forall_app. split; [|done].
  apply Serialize_vector_bytes. eapply list.Forall_impl; [exact Hx|]. intros s [Hs _]. by apply Serialize_bytes_bytes.
Qed.

Lemma resize_wit_ok w k : Forall witness_ok w -> Forall witness_ok (resize_wit w k).
Proof.
  intros Hw. unfold resize_wit. apply list.Forall_app. split; [by apply Forall_take|]. apply Forall_replicate.
  split; [constructor|]. unfold fits_size. done.
Qed.

Lemma tx_Serialize_full tx : tx_ok tx -> Forall witness_ok (wit tx) -> tx_Serialize 0 tx = Some (wtx_bytes tx) /\ Forall byte (wtx_bytes tx).
Proof.
  intros Hok Hw. enough (exists b, tx_Serialize 0 tx = Some b /\ Forall byte b) as (b&E&Hb).
  { unfold wtx_bytes. rewrite E. done. }
  pose proof (ok_wit _ Hok) as Hl. unfold tx_Serialize, SerializeTransaction. destruct (Nat.ltb_spec (length (vin tx)) (length (wit tx))); [lia|].
  change (no_witness 0) with false. cbn [negb andb]. pose proof (tx_bytes_bytes tx Hok) as Hb. unfold tx_bytes, tail_bytes in Hb.
  rewrite !list.Forall_app in Hb. destruct Hb as (H1&H2&H3&H4&H5&H6).
  destruct (CTxWitness_IsNull (wit tx)) eqn:En; cbn [negb Z.eqb Pos.eqb].
  - cbn [mbind option_bind fmap option_fmap option_map fst]. eexists. split; [done|]. rewrite !app_nil_l, !list.Forall_app. by split_and!.
  - cbn [with_wit wit]. unfold CTxWitness_Serialize. rewrite resize_wit_not_null by done. cbn [mbind option_bind fmap option_fmap option_map fst].
    eexists. split; [done|]. rewrite !list.Forall_app. split_and!; try done.
    + by apply Serialize_vector_bytes.
    + apply Forall_singleton. done.
    + by apply witness_bytes, resize_wit_ok.
Qed.

Lemma GetWitnessHash_ok mem tx : length mem = 64%nat -> wtx_ok tx -> GetWitnessHash mem tx = Some (wtxid tx).
Proof.
  intros Hm [Hok Hw Hs]. destruct (tx_Serialize_full tx Hok Hw) as [E Hb]. unfold tx_Serialize in E.
  destruct (SerializeTransaction tx 0) as [[b tx']|] eqn:Es; [|done]. cbn in E. injection E as ->. unfold GetWitnessHash.
  rewrite Es, bind_some. apply (Hash_ok mem (wtx_bytes tx) [] []); rewrite ?app_nil_r; done.
Qed.

(** The leaves: none for the coinbase, none for the second transaction, and one left over *)
Definition witness_leaves (txs : list CTransaction) : list uint256 :=
  match txs with
  | [] => []
  | [_] => [uint256_zero]
  | _ :: _ :: txs => uint256_zero :: map wtxid txs ++ [uint256_zero]
  end.

Lemma insert_leaves (hs : list uint256) (pre post : list uint256) (z : uint256) k : k = S (length pre) ->
  foldl (fun leaves '(s, tx) => <[(s - 1)%nat := tx]> leaves) (pre ++ replicate (length hs) z ++ post) (imap (fun i x => ((k + i)%nat, x)) hs) =
  pre ++ hs ++ post.
Proof.
  revert pre k. induction hs as [|x hs IH]; intros pre k Hk; [done|]. cbn [length replicate imap foldl].
  replace (k + 0 - 1)%nat with (length pre + 0)%nat by lia. rewrite insert_app_r. cbn [app insert list_insert].
  rewrite (imap_ext _ (fun i x => ((S k + i)%nat, x))) by (intros; cbn; f_equal; lia).
  change (pre ++ x :: replicate (length hs) z ++ post) with (pre ++ [x] ++ replicate (length hs) z ++ post). rewrite app_assoc.
  rewrite IH by (rewrite length_app; cbn; lia). by rewrite <- app_assoc.
Qed.

Lemma Block_WitnessMerkleRoot_ok mem block : length mem = 64%nat -> Forall wtx_ok (drop 2 (vtx block)) -> vtx block <> [] ->
  Z.of_nat (length (vtx block)) <= 2 ^ 31 ->
  exists mutated, Block_WitnessMerkleRoot mem block true = Some (merkle_root sha_pair (witness_leaves (vtx block)), mutated).
Proof.
  intros Hm Hok Hn Hl. unfold Block_WitnessMerkleRoot.
  rewrite (mapM_all _ wtxid), bind_some by (eapply list.Forall_impl; [exact Hok|]; intros tx Htx; by apply GetWitnessHash_ok).
  assert (valid_hash uint256_zero) as Hz by (split; [done|]; apply Forall_replicate; done).
  destruct (vtx block) as [|t0 [|t1 txs]]; [done| |]; unfold BlockWitnessMerkleRoot.
  - destruct (ComputeMerkleRoot_ok mem [uint256_zero] Hm) as (mu&E&_); [by apply Forall_singleton|done|]. exists mu. exact E.
  - cbn [length Nat.min drop]. change (drop 0 txs) with txs in *.
    assert (forall hs : list uint256, foldl (fun leaves '(s, tx) => <[(s - 1)%nat := tx]> leaves)
      (<[0%nat := uint256_zero]> (replicate (length (replicate 2 uint256_zero ++ hs)) uint256_zero))
      (drop 2 (imap pair (replicate 2 uint256_zero ++ hs))) = uint256_zero :: hs ++ [uint256_zero]) as Hi.
    { intros hs. change (uint256_zero :: hs ++ [uint256_zero]) with ([uint256_zero] ++ hs ++ [uint256_zero]).
      rewrite <- (insert_leaves hs [uint256_zero] [uint256_zero] uint256_zero 2 eq_refl). rewrite length_app. cbn [length replicate Nat.add insert list_insert app]. rewrite replicate_cons_app.
      cbn [imap drop]. change (drop 0 ?l) with l. f_equal. }
    rewrite length_app. cbn [length replicate Nat.add]. change (0 <? S (S _))%nat with true. cbv iota zeta.
    setoid_rewrite Hi.
    destruct (ComputeMerkleRoot_ok mem (uint256_zero :: map wtxid txs ++ [uint256_zero]) Hm) as (mu&E&_); [..|by exists mu].
    + constructor; [done|]. apply list.Forall_app. split; [|by apply Forall_singleton].
      apply list.Forall_forall. intros x (tx&->&_)%list_elem_of_fmap. apply valid_sha256d.
    + cbn [length] in Hl. cbn [length]. rewrite length_app, length_map. cbn [length]. lia.
Qed.

(** The block with its witnesses *)
Definition full_bytes (block : CBlock) : list Z :=
  CBlockHeader_Serialize (header block) ++ WriteCompactSize (Z.of_nat (length (vtx block))) ++
  concat (map wtx_bytes (vtx block)) ++ Serialize_bytes (vchBlockSig block).

Lemma CBlock_Serialize_full block : Forall wtx_ok (vtx block) -> CBlock_Serialize block SER_NETWORK 0 = Some (full_bytes block).
Proof.
  intros Hok. unfold CBlock_Serialize. change (SER_NETWORK .& _ =? 0) with true. cbv iota.
  rewrite (mapM_all _ wtx_bytes), bind_some; [done|]. eapply list.Forall_impl; [exact Hok|].
  intros tx [Htx Hw _]. by apply tx_Serialize_full.
Qed.

(** *** Majorities *)

(** The versions of up to [n] blocks, the given one first *)
Fixpoint past_versions (h : heap) (n : nat) (p : option ptr) : list Z :=
  match n, p with
  | S n, Some p => match h !! p with Some b => BlockIndex.nVersion b :: past_versions h n (pprev b) | None => [] end
  | _, _ => []
  end.

Definition majority (h : heap) (window : nat) (minVersion nRequired : Z) (p : option ptr) : Prop :=
  nRequired <= Z.of_nat (length (List.filter (Z.leb minVersion) (past_versions h window p))).

Definition known_ptr (h : heap) (p : option ptr) : Prop := match p with Some q => is_Some (h !! q) | None => True end.

Lemma super_majority_ok h n minVersion nRequired p nFound :
  (forall q b, h !! q = Some b -> known_ptr h (pprev b)) -> known_ptr h p -> 0 <= nFound -> nRequired < 2 ^ 32 ->
  exists r, super_majority h n minVersion nRequired p nFound = Some r /\
    (r = true <-> nRequired <= nFound + Z.of_nat (length (List.filter (Z.leb minVersion) (past_versions h n p)))).
Proof.
  intros Hh. revert p nFound. induction n as [|n IH]; intros p nFound Hp H0 HR; cbn [super_majority past_versions].
  { eexists. split; [done|]. rewrite Z.geb_le. cbn. lia. }
  destruct p as [q|]; [|eexists; split; [done|]; rewrite Z.geb_le; cbn; lia].
  destruct Hp as [b Hb]. rewrite Hb. destruct (Z.ltb_spec nFound nRequired) as [Hlt|Hge].
  - cbn [mbind option_bind List.filter]. rewrite Z.geb_leb. destruct (Z.leb_spec minVersion (BlockIndex.nVersion b)).
    + destruct (IH (pprev b) (u32 (nFound + 1))) as (r&->&Hr); [by eapply Hh|rewrite u32_small; lia|done|].
      exists r. split; [done|]. rewrite Hr, u32_small by lia. cbn [length]. lia.
    + destruct (IH (pprev b) nFound) as (r&->&Hr); [by eapply Hh|done|done|]. by exists r.
  - exists true. split; [done|]. split; [intros _|done]. pose proof (Nat2Z.is_nonneg (length (List.filter (Z.leb minVersion) (BlockIndex.nVersion b :: past_versions h n (pprev b))))). lia.
Qed.

Lemma IsSuperMajority_ok params h minVersion p nRequired :
  (forall q b, h !! q = Some b -> known_ptr h (pprev b)) -> known_ptr h p ->
  exists r, IsSuperMajority params h minVersion p nRequired = Some r /\
    (r = true <-> majority h (Z.to_nat (nMajorityWindow params)) minVersion (u32 nRequired) p).
Proof.
  intros Hh Hp. apply (super_majority_ok h _ minVersion (u32 nRequired) p 0); [done|done|lia|].
  unfold u32. apply Z.mod_pos_bound. lia.
Qed.

(** *** The rules *)

Section context_rules.
Context (mem : list Z) (params : ContextParams) (JsonArray : list Z -> bool) (h : heap).
Context (pindexPrev : option ptr) (nHeight cutoff : Z) (csv witness : bool).

(** The commitment in the coinbase, if there is one, is the hash of the root of the witnesses and
    the nonce in the witness of the coinbase. *)
Definition commitment_rule (block : CBlock) : Prop :=
  exists coinbase nonce out, vtx block !! 0%nat = Some coinbase /\ wit coinbase = [[nonce]] /\ vsize nonce = 32 /\
    vout coinbase !! Z.to_nat (commitment_index (vout coinbase)) = Some out /\
    sha_pair (merkle_root sha_pair (witness_leaves (vtx block))) nonce = take 32 (drop 6 (scriptPubKey out)).

Definition committing (block : CBlock) : bool :=
  match vtx block with coinbase :: _ => negb (commitment_index (vout coinbase) =? -1) | [] => false end.

Definition witness_rule (block : CBlock) : Prop :=
  if witness && committing block then commitment_rule block
  else Forall (fun tx => CTxWitness_IsNull (wit tx) = true) (vtx block).

Definition height_rule (block : CBlock) : Prop :=
  hdr_nVersion (header block) >= 2 ->
  majority h (Z.to_nat (nMajorityWindow params)) 2 (u32 (nMajorityEnforceBlockUpgrade params)) pindexPrev ->
  exists expect coinbase i rest, push_int64 [] nHeight = Some expect /\ vtx block !! 0%nat = Some coinbase /\
    vin coinbase !! 0%nat = Some i /\ scriptSig i = expect ++ rest.

Definition weight_rule (block : CBlock) : Prop :=
  3 * Z.of_nat (length (block_bytes block)) + Z.of_nat (length (full_bytes block)) <= MAX_BLOCK_WEIGHT.

Record context_rules (block : CBlock) : Prop := {
  ctx_pow : CBlock_IsProofOfWork block = true -> nHeight <= nLastPOWBlock (cp_pow params);
  ctx_pos : CBlock_IsProofOfStake block = true -> nFirstPOSBlock params <= nHeight;
  ctx_time : CBlock_IsProofOfStake block = true ->
    exists tx, vtx block !! 1%nat = Some tx /\ hdr_nTime (header block) = nTime tx /\ (0 < nHeight -> nTime tx mod 16 = 0);
  ctx_final : Forall (fun tx => IsFinalTx tx nHeight cutoff = true) (vtx block);
  ctx_height : height_rule block;
  ctx_witness : witness_rule block;
  ctx_weight : weight_rule block;
  ctx_coinbase : CBlock_IsProofOfStake block = true ->
    exists coinbase, vtx block !! 0%nat = Some coinbase /\
      (JsonArray (strDZeel coinbase) = true \/ Forall (fun o => nValue o <= 0) (vout coinbase));
}.
End context_rules.

Section context_proofs.
Context (mem : list Z) (Hmem : length mem = 64%nat) (params : ContextParams) (JsonArray : list Z -> bool) (h : heap).
Context (Hh : forall q b, h !! q = Some b -> known_ptr h (pprev b)).
Context (pindexPrev : option ptr) (Hprev : known_ptr h pindexPrev).
Context (block : CBlock) (Hok : CBlock_ok block) (Hw : Forall wtx_ok (vtx block)) (Hcb : coinbase_rule (vtx block)).

Abbreviation failing := (fun f : CValidationState -> CValidationState => forall st, mode st <> MODE_ERROR -> mode (f st) = MODE_INVALID).

Lemma dos_failing level code reason c : failing (dos level code reason c).
Proof. intros st. apply dos_mode. Qed.
Lemma Invalid_failing code reason : failing (Invalid code reason).
Proof. intros st Hm. unfold Invalid, DoS. by destruct (mode st). Qed.

Lemma coinbase_first : exists coinbase i rest, vtx block = coinbase :: rest /\ vin coinbase = [i].
Proof.
  unfold coinbase_rule in Hcb. destruct (vtx block) as [|cb rest]; [done|]. destruct Hcb as [Hc _].
  apply IsCoinBase_single in Hc as [i Hi]. by exists cb, i, rest.
Qed.

Lemma commitment_found outs : commitment_index outs <> -1 -> is_Some (outs !! Z.to_nat (commitment_index outs)).
Proof.
  unfold commitment_index. assert (forall (l : list (nat * CTxOut)) a, (a = -1 \/ exists o, a = Z.of_nat o /\ is_Some (outs !! o)) ->
    Forall (fun '(o, out) => outs !! o = Some out) l ->
    let r := foldl (fun commitpos '(o, out) => if is_commitment (scriptPubKey out) then Z.of_nat o else commitpos) a l in
    r = -1 \/ exists o, r = Z.of_nat o /\ is_Some (outs !! o)) as H.
  { induction l as [|[o out] l IH]; intros a Ha Hl; cbn [foldl]; [done|]. apply list.Forall_cons in Hl as [Ho Hl].
    apply IH; [|done]. destruct (is_commitment _); [|done]. right. by exists o. }
  destruct (H (imap pair outs) (-1)) as [E|(o&E&Ho)].
  - by left.
  - apply list.Forall_forall. intros [o out] Hin. apply elem_of_lookup_imap_1 in Hin as (i&x&E&Hx). injection E as -> ->. done.
  - cbv zeta in E. intros Hne. done.
  - cbv zeta in E. intros _. by rewrite E, Nat2Z.id.
Qed.

Definition commits (v : verdict) (have : bool) : Prop :=
  (v = None -> have = committing block) /\ (v = None <-> (committing block = true -> commitment_rule block)) /\
  (forall f, v = Some f -> failing f).

Lemma commits_fail f : committing block = true -> failing f -> ~ commitment_rule block ->
  exists v have, Some (Some f, false) = Some (v, have) /\ commits v have.
Proof.
  intros Hc Hf Hn. exists (Some f), false. split; [done|]. split; [done|]. split; [|by intros g [= <-]].
  split; [done|]. intros H. destruct Hn. by apply H.
Qed.

Lemma merkle_root_valid l : Forall valid_hash l -> l <> [] -> valid_hash (merkle_root sha_pair l).
Proof.
  intros Hl Hn. unfold merkle_root. destruct l; [done|]. cbn [length Nat.eqb].
  by apply (tree_root_valid sha_pair (Hash2 mem) valid_hash (fun a b => sha_pair_ok mem a b Hmem)).
Qed.

Lemma witness_root_valid txs : txs <> [] -> valid_hash (merkle_root sha_pair (witness_leaves txs)).
Proof.
  intros Hn. assert (valid_hash uint256_zero) as Hz by (split; [done|]; apply Forall_replicate; done).
  destruct txs as [|t0 [|t1 txs]]; [done| |]; apply merkle_root_valid; try done; [by apply Forall_singleton|].
  constructor; [done|]. apply list.Forall_app. split; [|by apply Forall_singleton].
  apply list.Forall_forall. intros x (tx&->&_)%list_elem_of_fmap. apply valid_sha256d.
Qed.

Lemma nonce_valid cb nonce : cb ∈ vtx block -> wit cb = [[nonce]] -> vsize nonce = 32 -> valid_hash nonce.
Proof.
  intros Hin Ew Hs. split; [unfold vsize in Hs; lia|]. rewrite list.Forall_forall in Hw. destruct (Hw cb Hin) as [_ Hwit _].
  rewrite Ew in Hwit. apply list.Forall_cons in Hwit as [[Hwit _] _]. by apply list.Forall_cons in Hwit as [[Hb _] _].
Qed.

Lemma commitment_judged : exists v have, check_commitment mem block = Some (v, have) /\ commits v have.
Proof.
  destruct coinbase_first as (cb&i&rest&Ev&_).
  assert (vtx block !! 0%nat = Some cb) as E0 by (by rewrite Ev).
  unfold check_commitment, GetWitnessCommitmentIndex. rewrite E0. cbn [mbind option_bind].
  destruct (Z.eqb_spec (commitment_index (vout cb)) (-1)) as [Hnone|Hne]; cbn [negb].
  { assert (committing block = false) as Hc by (unfold committing; by rewrite Ev, Hnone).
    exists None, false. split; [done|]. unfold commits. rewrite Hc. done. }
  assert (committing block = true) as Hc by (unfold committing; rewrite Ev; by apply negb_true_iff, Z.eqb_neq).
  destruct (Block_WitnessMerkleRoot_ok mem block Hmem) as (mu&E); [by apply Forall_drop|by rewrite Ev|apply Hok|].
  rewrite E, bind_some. destruct (commitment_found (vout cb) Hne) as [out Ho].
  assert (forall nonce, wit cb = [[nonce]] -> commitment_rule block -> vsize nonce = 32 /\
    sha_pair (merkle_root sha_pair (witness_leaves (vtx block))) nonce = take 32 (drop 6 (scriptPubKey out))) as Hinv.
  { intros nonce Ew (c&x&o&Ec&E1&E2&E3&E4). rewrite E0 in Ec. injection Ec as <-. rewrite Ew in E1. injection E1 as <-.
    rewrite Ho in E3. injection E3 as <-. done. }
  destruct (wit cb) as [|[|nonce [|]] [|]] eqn:Ew;
    try (apply commits_fail; [done|apply dos_failing|]; intros (c&x&o&Ec&E1&_); rewrite E0 in Ec; congruence).
  destruct (Z.eqb_spec (vsize nonce) 32) as [Hs|Hs].
  2:{ apply commits_fail; [done|apply dos_failing|]. intros Hr. by destruct (Hinv nonce eq_refl Hr). }
  destruct (sha_pair_ok mem _ nonce Hmem (witness_root_valid (vtx block) ltac:(by rewrite Ev))) as [Eh _].
  { eapply nonce_valid; [|exact Ew|done]. rewrite Ev. by left. }
  rewrite Eh, bind_some, Ho, bind_some. case_bool_decide as Heq.
  - exists None, true. split; [done|]. split; [by rewrite Hc|]. split; [|done]. split; [|done]. intros _ _. by exists cb, nonce, out.
  - apply commits_fail; [done|apply dos_failing|]. intros Hr. by destruct (Hinv nonce eq_refl Hr).
Qed.

Lemma starts_with_iff expect s : starts_with expect s = true <-> exists rest, s = expect ++ rest.
Proof.
  unfold starts_with. rewrite andb_true_iff, Z.leb_le, bool_decide_eq_true. split.
  - intros [_ E]. exists (drop (length expect) s). rewrite <- (take_drop (length expect) s) at 1. by rewrite E.
  - intros [rest ->]. unfold vsize. rewrite length_app, take_app_length. split; [lia|done].
Qed.

Lemma push_height_total n : 0 <= n < 2 ^ 31 -> is_Some (push_int64 [] n).
Proof.
  intros Hn. unfold push_int64. destruct (_ || _); [by eexists|]. destruct (n =? 0); [by eexists|].
  destruct (serialize_total n) as [vch ->]; [lia|]. by eexists.
Qed.

Lemma height_judged nHeight : 0 <= nHeight < 2 ^ 31 ->
  judges (check_height params h block nHeight pindexPrev) (height_rule params h pindexPrev nHeight block) failing.
Proof.
  intros Hn. unfold check_height, height_rule. destruct (Z.geb_spec (hdr_nVersion (header block)) 2) as [Hv|Hv]; [|apply judges_pass; lia].
  destruct (IsSuperMajority_ok params h 2 pindexPrev (nMajorityEnforceBlockUpgrade params) Hh Hprev) as (r&->&Hr).
  cbn [mbind option_bind]. destruct r.
  2:{ apply judges_pass. intros _ H%Hr. done. }
  destruct (push_height_total nHeight Hn) as [expect E]. rewrite E. cbn [mbind option_bind].
  destruct coinbase_first as (cb&i&rest&Ev&Ei). rewrite Ev. cbn [lookup list_lookup mbind option_bind]. rewrite Ei.
  cbn [lookup list_lookup mbind option_bind]. apply judges_if; [|apply dos_failing]. rewrite negb_false_iff, starts_with_iff. split.
  - intros [rest' Es] _ _. exists expect, cb, i, rest'. by rewrite Ei.
  - intros H. destruct H as (e&c&i'&rest'&[= <-]&[= <-]&Ei'&Es); [lia|by apply Hr|]. rewrite Ei in Ei'. injection Ei' as <-. by exists rest'.
Qed.

Lemma stake_time_iff nHeight t1 t2 : word 32 t2 ->
  CheckCoinStakeTimestamp nHeight t1 t2 = true <-> t1 = t2 /\ (0 < nHeight -> t2 mod 16 = 0).
Proof.
  intros Ht. unfold CheckCoinStakeTimestamp, STAKE_TIMESTAMP_MASK. change 15 with (Z.ones 4). rewrite Z.land_ones by lia. change (2 ^ 4) with 16.
  destruct (Z.gtb_spec nHeight 0); rewrite ?andb_true_iff, ?Z.eqb_eq; intuition lia.
Qed.

Lemma final_judged nHeight cutoff :
  judges (check_final block nHeight cutoff) (Forall (fun tx => IsFinalTx tx nHeight cutoff = true) (vtx block)) failing.
Proof.
  apply judges_if; [|apply dos_failing]. rewrite negb_false_iff, forallb_forall, list.Forall_forall.
  by setoid_rewrite list_elem_of_In.
Qed.

Lemma weight_judged : judges (check_weight block) (weight_rule block) failing.
Proof.
  unfold check_weight, GetBlockWeight, CBlock_GetSerializeSize. rewrite CBlock_Serialize_base by apply Hok. rewrite !bind_some.
  rewrite CBlock_Serialize_full by done. rewrite !bind_some. apply judges_if; [|apply dos_failing].
  rewrite Z.gtb_ltb, Z.ltb_ge. unfold weight_rule, WITNESS_SCALE_FACTOR. lia.
Qed.

Lemma stake_coinbase_judged :
  judges (check_stake_coinbase JsonArray block)
    (CBlock_IsProofOfStake block = true -> exists coinbase, vtx block !! 0%nat = Some coinbase /\
      (JsonArray (strDZeel coinbase) = true \/ Forall (fun o => nValue o <= 0) (vout coinbase))) failing.
Proof.
  unfold check_stake_coinbase. destruct (CBlock_IsProofOfStake block); [|by apply judges_pass].
  destruct coinbase_first as (cb&i&rest&Ev&_). rewrite Ev. cbn [lookup list_lookup mbind option_bind].
  apply judges_if; [|apply dos_failing]. rewrite existsb_false. split.
  - intros H _. exists cb. split; [done|]. destruct (JsonArray (strDZeel cb)); [by left|right].
    eapply list.Forall_impl; [exact H|]. intros o Ho. cbn in Ho. rewrite andb_true_r, Z.gtb_ltb, Z.ltb_ge in Ho. done.
  - intros H. destruct H as (c&[= <-]&[E|E]); [done| |].
    + rewrite E. apply list.Forall_forall. intros o _. apply andb_false_r.
    + eapply list.Forall_impl; [exact E|]. intros o Ho. cbv beta in *. by rewrite Z.gtb_ltb, (proj2 (Z.ltb_ge 0 (nValue o)) Ho).
Qed.

Lemma stake_time_judged nHeight :
  judges (if CBlock_IsProofOfStake block then
      tx ← vtx block !! 1%nat;
      reject_if (negb (CheckCoinStakeTimestamp nHeight (hdr_nTime (header block)) (nTime tx))) (Invalid REJECT_INVALID "check-coinstake-timestamp")
    else pass)
    (CBlock_IsProofOfStake block = true ->
      exists tx, vtx block !! 1%nat = Some tx /\ hdr_nTime (header block) = nTime tx /\ (0 < nHeight -> nTime tx mod 16 = 0)) failing.
Proof.
  destruct (CBlock_IsProofOfStake block) eqn:Es; [|by apply judges_pass].
  unfold CBlock_IsProofOfStake in Es. destruct (vtx block) as [|t0 [|t1 rest]] eqn:Ev; [done..|].
  cbn [lookup list_lookup mbind option_bind]. apply judges_if; [|apply Invalid_failing].
  assert (tx_ok t1) as Ht by (pose proof (block_ok_vtx _ Hok) as [Ht _]; rewrite Ev in Ht; by eapply (Forall_lookup_1 _ _ 1%nat)).
  rewrite negb_false_iff, stake_time_iff by apply Ht. split; [intros H _; by exists t1|].
  intros H. by destruct H as (tx&[= <-]&H).
Qed.

Lemma early_judged csv nHeight cutoff :
  block_height h pindexPrev = Some nHeight -> 0 <= nHeight < 2 ^ 31 ->
  (if csv : bool then p ← pindexPrev; GetMedianTimePast h p else Some (hdr_nTime (header block))) = Some cutoff ->
  judges (check_early params h block csv pindexPrev)
    ((CBlock_IsProofOfWork block = true -> nHeight <= nLastPOWBlock (cp_pow params)) /\
     (CBlock_IsProofOfStake block = true -> nFirstPOSBlock params <= nHeight) /\
     (CBlock_IsProofOfStake block = true ->
       exists tx, vtx block !! 1%nat = Some tx /\ hdr_nTime (header block) = nTime tx /\ (0 < nHeight -> nTime tx mod 16 = 0)) /\
     Forall (fun tx => IsFinalTx tx nHeight cutoff = true) (vtx block) /\
     height_rule params h pindexPrev nHeight block) failing.
Proof.
  intros Hht Hn Hcut. unfold check_early. rewrite Hht. cbn [mbind option_bind]. eapply judges_mono.
  - apply judges_and; [eapply (judges_if _ _ (CBlock_IsProofOfWork block = true -> nHeight <= nLastPOWBlock (cp_pow params)) failing); [|apply dos_failing]|intros _].
    { rewrite andb_false_iff, Z.gtb_ltb, Z.ltb_ge. destruct (CBlock_IsProofOfWork block); intuition congruence. }
    apply judges_and; [eapply (judges_if _ _ (CBlock_IsProofOfStake block = true -> nFirstPOSBlock params <= nHeight) failing); [|apply dos_failing]|intros _].
    { rewrite andb_false_iff, Z.ltb_ge. destruct (CBlock_IsProofOfStake block); intuition congruence. }
    apply judges_and; [apply stake_time_judged|intros _].
    apply judges_and; [rewrite Hcut; cbn [mbind option_bind]; apply final_judged|intros _]. by apply height_judged.
  - done.
  - intros f Hf. repeat (destruct Hf as [[_ Hf]|(_&_&Hf)]; [exact Hf|]). exact Hf.
Qed.

Lemma late_judged witness :
  judges (check_late mem JsonArray block witness)
    (witness_rule witness block /\ weight_rule block /\
     (CBlock_IsProofOfStake block = true -> exists coinbase, vtx block !! 0%nat = Some coinbase /\
       (JsonArray (strDZeel coinbase) = true \/ Forall (fun o => nValue o <= 0) (vout coinbase)))) failing.
Proof.
  unfold check_late.
  assert (exists v have, (if witness then check_commitment mem block else Some (None, false)) = Some (v, have) /\
    (v = None -> have = witness && committing block) /\
    (v = None <-> (witness && committing block = true -> commitment_rule block)) /\ (forall f, v = Some f -> failing f)) as (v&have&->&H1&H2&H3).
  { destruct witness; [apply commitment_judged|]. by exists None, false. }
  cbn [mbind option_bind]. unfold witness_rule. destruct v as [f|].
  - exists (Some f). split; [done|].
    assert (~ (witness && committing block = true -> commitment_rule block)) as Hn by (intros H%H2; done).
    destruct (witness && committing block); [|by destruct Hn]. split; [split; [done|]|].
    + intros [H _]. by destruct Hn.
    + intros g [= <-]. split; [|by apply H3]. intros [H _]. by destruct Hn.
  - specialize (H1 eq_refl) as ->. assert (witness && committing block = true -> commitment_rule block) as Hc by by apply H2.
    eapply judges_mono.
    + apply judges_and; [eapply (judges_if _ _ (if witness && committing block then True else Forall (fun tx => CTxWitness_IsNull (wit tx) = true) (vtx block)) failing); [|apply dos_failing]|intros _].
      { rewrite andb_false_iff, !negb_false_iff, forallb_forall. setoid_rewrite <- list_elem_of_In.
        destruct (witness && committing block); [intuition|]. rewrite list.Forall_forall. intuition congruence. }
      apply judges_and; [apply weight_judged|intros _]. apply stake_coinbase_judged.
    + destruct (witness && committing block); intuition.
    + intros f Hf. repeat (destruct Hf as [[_ Hf]|(_&_&Hf)]; [exact Hf|]). exact Hf.
Qed.
End context_proofs.

(** The height of the block after [pindexPrev] *)
Definition height_after (h : heap) (pindexPrev : option ptr) : Z :=
  match p ← pindexPrev; h !! p with Some b => BlockIndex.nHeight b + 1 | None => 0 end.

(** The time that lock times are compared with: the median time of the last blocks once [csv]
    holds, and the time of the block before *)
Definition lock_cutoff (h : heap) (pindexPrev : option ptr) (csv : bool) (block : CBlock) (cutoff : Z) : Prop :=
  if csv then exists p, pindexPrev = Some p /\ GetMedianTimePast h p = Some cutoff else cutoff = hdr_nTime (header block).

Lemma block_height_ok h pindexPrev : index_ok h -> known_ptr h pindexPrev -> height_after h pindexPrev < 2 ^ 31 ->
  block_height h pindexPrev = Some (height_after h pindexPrev) /\ 0 <= height_after h pindexPrev.
Proof.
  intros Hi Hp. unfold block_height, height_after. destruct pindexPrev as [p|]; [|done]. destruct Hp as [b Hb].
  cbn [mbind option_bind]. rewrite Hb. cbn [mbind option_bind]. destruct (Hi p b Hb) as (Hb1&_). intros Hlt. unfold int.
  rewrite bool_decide_true by lia. split; [done|lia].
Qed.

(** Before the first block no deployment is active. *)
Lemma genesis_defined h params signal pos s : deployment_state h params signal None pos s -> s = THRESHOLD_DEFINED.
Proof. intros (d&_&H). by inversion H. Qed.

Lemma lock_cutoff_ok h params pindexPrev csv block : index_ok h -> known_ptr h pindexPrev ->
  deployment_state h params bit_signal pindexPrev DEPLOYMENT_CSV csv ->
  let active := bool_decide (csv = THRESHOLD_ACTIVE) in
  exists cutoff, lock_cutoff h pindexPrev active block cutoff /\
    (if active then p ← pindexPrev; GetMedianTimePast h p else Some (hdr_nTime (header block))) = Some cutoff.
Proof.
  intros Hi Hp Hs active. unfold active, lock_cutoff. case_bool_decide as Ha; [|by eexists]. destruct pindexPrev as [p|].
  - destruct Hp as [b Hb]. destruct (GetMedianTimePast_spec h p b Hi Hb) as (_&_&t&_&_&_&_&_&Et). exists t. split; [by exists p|exact Et].
  - apply genesis_defined in Hs. congruence.
Qed.

Lemma linked h : index_ok h -> forall q b, h !! q = Some b -> known_ptr h (pprev b).
Proof.
  intros Hi q b Hq. destruct (Hi q b Hq) as (_&Hb&_). unfold known_ptr, prev_ok in *. destruct (pprev b) as [r|]; [|exact I].
  destruct Hb as (bq&Hb&_). by exists bq.
Qed.

(** C9: [ContextualCheckBlock] answers for every block with a coinbase, and passes exactly those
    that keep the rules of their place in the chain: proof of work up to the last such block and
    proof of stake from the first, the time of a coinstake equal to that of the block and a
    multiple of 16 seconds, no transaction before its lock time (by the median time once the
    deployment for that is active), the height in the coinbase once a majority has upgraded, a witness
    commitment that matches if there is one and the deployment of the witness rules is active and no
    witnesses otherwise, the limit on the weight, and no outputs with value in the coinbase of a
    proof-of-stake block unless its text is a JSON array.  The commitment covers the witnesses from the
    third transaction on: the second is left out with the coinbase, in every block.  The
    states of the deployments are those of their state machine; the index has to be sound, with
    block times after the median of the blocks before, parameters in their ranges, sound caches and
    room for one more height. *)
Theorem contextual_check_iff (mem : list Z) (params : ContextParams) (JsonArray : list Z -> bool) (h : heap)
    (caches : VersionBitsCache) (block : CBlock) (pindexPrev : option ptr) :
  length mem = 64%nat -> index_ok h -> times_ok h -> params_ok (cp_deployments params) -> caches_ok h (cp_deployments params) caches ->
  known_ptr h pindexPrev -> height_after h pindexPrev < 2 ^ 31 ->
  CBlock_ok block -> Forall wtx_ok (vtx block) -> coinbase_rule (vtx block) ->
  exists csv witness cutoff v c, ContextualCheckBlock mem params JsonArray h caches block pindexPrev = Some (v, c) /\
    deployment_state h (cp_deployments params) bit_signal pindexPrev DEPLOYMENT_CSV csv /\
    deployment_state h (cp_deployments params) bit_signal pindexPrev DEPLOYMENT_SEGWIT witness /\
    lock_cutoff h pindexPrev (bool_decide (csv = THRESHOLD_ACTIVE)) block cutoff /\
    (v = None <-> context_rules params JsonArray h pindexPrev (height_after h pindexPrev) cutoff
       (bool_decide (witness = THRESHOLD_ACTIVE)) block) /\
    (forall f st, v = Some f -> mode st <> MODE_ERROR -> mode (f st) = MODE_INVALID) /\
    caches_ok h (cp_deployments params) c.
Proof.
  intros Hm Hi Ht Hpar Hcs Hp Hlt Hok Hw Hcb.
  destruct (VersionBitsState_ok h (cp_deployments params) caches pindexPrev DEPLOYMENT_CSV) as (csv&c1&Ecsv&Scsv&Hc1); [done..|by vm_compute; lia|].
  destruct (VersionBitsState_ok h (cp_deployments params) c1 pindexPrev DEPLOYMENT_SEGWIT) as (witness&c2&Ewit&Swit&Hc2); [done..|by vm_compute; lia|].
  destruct (block_height_ok h pindexPrev Hi Hp Hlt) as [Eht Hge].
  destruct (lock_cutoff_ok h (cp_deployments params) pindexPrev csv block Hi Hp Scsv) as (cutoff&Hcut&Ecut).
  destruct (early_judged mem Hm params JsonArray h (linked h Hi) pindexPrev Hp block Hok Hw Hcb _ _ cutoff Eht (conj Hge Hlt) Ecut) as (v1&E1&H1&F1).
  destruct (late_judged mem Hm JsonArray block Hok Hw Hcb (bool_decide (witness = THRESHOLD_ACTIVE))) as (v2&E2&H2&F2).
  exists csv, witness, cutoff. unfold ContextualCheckBlock. rewrite Ecsv. cbn [mbind option_bind]. rewrite E1. cbn [mbind option_bind].
  destruct v1 as [f|].
  - exists (Some f), c1. destruct (F1 f eq_refl) as [Hn1 Hf]. split_and!; [done|done|done|done| | |done].
    + split; [done|]. intros []. by destruct Hn1.
    + intros g st [= <-]. apply Hf.
  - unfold IsWitnessEnabled. rewrite Ewit. cbn [mbind option_bind]. rewrite E2. cbn [mbind option_bind]. exists v2, c2.
    assert (None = None :> verdict) as HN by done. apply H1 in HN as (?&?&?&?&?). split_and!; [done|done|done|done| | |done].
    + rewrite H2. split; [intros (?&?&?); by constructor|by intros []].
    + intros f st Hf. by apply F2.
Qed.

(** ** What a block commits to with its witnesses *)

(** Trees over lists of the same length need no flag. *)
Lemma tree_binding_length f P k l1 l2 :
  length l1 = length l2 -> (0 < length l1 <= 2 ^ k)%nat -> tree_pairs f k l1 ⊆ P -> tree_pairs f k l2 ⊆ P ->
  tree_root f k l1 = tree_root f k l2 -> l1 = l2 \/ collision f P.
Proof.
  revert l1 l2. induction k as [|k IH]; intros l1 l2 El Hl P1 P2 E.
  { destruct l1 as [|a [|]], l2 as [|b [|]]; cbn in El, Hl; try lia. left. cbn in E. by subst. }
  apply tree_pairs_S in P1. apply tree_pairs_S in P2. rewrite <- El in P2. cbn [tree_root] in E. rewrite <- El in E.
  pose proof (pow2_pos k). rewrite pow2_S in Hl. destruct (Nat.leb_spec (length l1) (2 ^ k)) as [Hle|Hgt].
  - destruct P1 as [P1 Q1], P2 as [P2 Q2]. destruct (pair_injective f P _ _ _ _ P1 P2 E) as [[E1 _]|Hc]; [|by right].
    apply IH; [done|lia|done|done|done].
  - destruct P1 as (P1&A1&B1), P2 as (P2&A2&B2). destruct (pair_injective f P _ _ _ _ P1 P2 E) as [[E1 E2]|Hc]; [|by right].
    destruct (IH (take (2 ^ k) l1) (take (2 ^ k) l2)) as [Et|]; [rewrite !length_take; lia|rewrite length_take; lia|done|done|done| |by right].
    destruct (IH (drop (2 ^ k) l1) (drop (2 ^ k) l2)) as [Ed|]; [rewrite !length_drop; lia|rewrite length_drop; lia|done|done|done| |by right].
    left. by rewrite <- (take_drop (2 ^ k) l1), <- (take_drop (2 ^ k) l2), Et, Ed.
Qed.

(** The nonce, and the pairs that are hashed for the commitment *)
Definition block_nonce (block : CBlock) : uint256 :=
  match vtx block with coinbase :: _ => match wit coinbase with [[nonce]] => nonce | _ => [] end | [] => [] end.
Definition witness_pairs (block : CBlock) : list (uint256 * uint256) :=
  (merkle_root sha_pair (witness_leaves (vtx block)), block_nonce block)
  :: tree_pairs sha_pair (Nat.log2_up (length (vtx block))) (witness_leaves (vtx block)).

Definition witness_collision (b1 b2 : CBlock) : Prop :=
  (exists t1 t2, t1 ∈ vtx b1 /\ t2 ∈ vtx b2 /\ wtx_bytes t1 <> wtx_bytes t2 /\ wtxid t1 = wtxid t2) \/
  collision sha_pair (witness_pairs b1 ++ witness_pairs b2).

Lemma length_witness_leaves txs : length (witness_leaves txs) = length txs.
Proof. destruct txs as [|t0 [|t1 txs]]; [done..|]. cbn [witness_leaves length]. rewrite length_app, length_map. cbn. lia. Qed.

Lemma wtxids_commit l1 l2 : map wtxid l1 = map wtxid l2 ->
  map wtx_bytes l1 = map wtx_bytes l2 \/ exists t1 t2, t1 ∈ l1 /\ t2 ∈ l2 /\ wtx_bytes t1 <> wtx_bytes t2 /\ wtxid t1 = wtxid t2.
Proof.
  revert l2. induction l1 as [|t1 l1 IH]; intros [|t2 l2] E; try done; [by left|]. cbn [map] in E. injection E as E El.
  destruct (decide (wtx_bytes t1 = wtx_bytes t2)) as [Eb|Hne].
  - destruct (IH l2 El) as [IHe|(a&b&Ha&Hb&?&?)]; [left; cbn [map]; by rewrite Eb, IHe|].
    right. exists a, b. split; [by right|]. split; [by right|done].
  - right. exists t1, t2. split; [by left|]. split; [by left|done].
Qed.

Lemma contents_length b1 b2 : contents b1 = contents b2 -> length (vtx b1) = length (vtx b2).
Proof. intros E%(f_equal length). unfold contents in E. by rewrite !length_map in E. Qed.

Lemma commitment_nonce block : commitment_rule block ->
  exists coinbase rest out, vtx block = coinbase :: rest /\
    vout coinbase !! Z.to_nat (commitment_index (vout coinbase)) = Some out /\
    sha_pair (merkle_root sha_pair (witness_leaves (vtx block))) (block_nonce block) = take 32 (drop 6 (scriptPubKey out)).
Proof.
  intros (cb&nonce&out&E0&Ew&_&Ho&E). destruct (vtx block) as [|c rest] eqn:Ev; [done|]. injection E0 as ->.
  exists cb, rest, out. split; [done|]. split; [done|]. unfold block_nonce. by rewrite Ev, Ew.
Qed.

Lemma witness_leaves_drop l1 l2 : length l1 = length l2 -> witness_leaves l1 = witness_leaves l2 -> map wtxid (drop 2 l1) = map wtxid (drop 2 l2).
Proof.
  destruct l1 as [|a [|b l1]], l2 as [|c [|d l2]]; try done. cbn [witness_leaves drop]. intros _ E. injection E as E. by apply app_inj_tail in E as [? _].
Qed.

(** The second transaction of a block with other witnesses *)
Definition with_second_wit (block : CBlock) (w : list CScriptWitness) : CBlock :=
  mkBlock (header block) (match vtx block with t0 :: t1 :: rest => t0 :: with_wit t1 w :: rest | txs => txs end)
    (vchBlockSig block) (fChecked block).


(** ** What happens to a header *)

Section header_rules.
Context (mem : list Z) (Hmem : length mem = 64%nat) (Hash9 : list Z -> uint256) (params : ContextParams) (checkpoints : MapCheckpoints).
Context (fCheckpointsEnabled : bool) (height nAdjustedTime : Z).
Context (st : index_state) (Hst : BlockIndex.state_ok st) (block : CBlockHeader) (Hblock : header_ok block).

Abbreviation failing := (fun f : CValidationState -> CValidationState => forall st, mode st <> MODE_ERROR -> mode (f st) = MODE_INVALID).

(** No fork below the last checkpoint that is known *)
Definition checkpoint_rule (prev : CBlockIndex) : Prop :=
  fCheckpointsEnabled = true -> phashBlock prev <> Some (hashGenesisBlock params) ->
  forall c check, GetLastCheckpoint checkpoints (mapBlockIndex st) = Some c -> st_heap st !! c = Some check ->
    BlockIndex.nHeight check <= BlockIndex.nHeight prev + 1.

(** The version is that of the rules that are in force after [q]. *)
Definition version_rule (q : ptr) (witness : bool) : Prop :=
  Forall (fun version => hdr_nVersion block < version ->
    ~ majority (st_heap st) (Z.to_nat (nMajorityWindow params)) version (u32 (nMajorityRejectBlockOutdated params)) (Some q)) [2; 3; 4] /\
  (hdr_nVersion block .& VERSIONBITS_TOP_BITS_SIG <> VERSIONBITS_TOP_BITS_SIG ->
    forall t, GetMedianTimePast (st_heap st) q = Some t -> t < sigActivationTime (cp_deployments params)) /\
  (hdr_nVersion block .& nSegWitVersionMask <> nSegWitVersionMask -> witness = false).

Definition new_header_rules (witness : bool) : Prop :=
  work_rule Hash9 (cp_pow params) (Z.of_nat (size (mapBlockIndex st))) height block /\
  exists q prev, mapBlockIndex st !! hdr_hashPrevBlock block = Some q /\ st_heap st !! q = Some prev /\
    nStatus prev .& BLOCK_FAILED_MASK = 0 /\ checkpoint_rule prev /\
    hdr_nTime block <= nAdjustedTime + 7200 /\ version_rule q witness.

Lemma last_known_heap hashes c : last_known (mapBlockIndex st) hashes = Some c -> is_Some (st_heap st !! c).
Proof.
  induction hashes as [|x hashes IH]; cbn [last_known]; [done|]. destruct (mapBlockIndex st !! x) as [p|] eqn:E; [|done].
  intros [= <-]. apply (ok_map st Hst) in E as (b&Hb&_). by exists b.
Qed.

Lemma checkpoint_judged q prev : st_heap st !! q = Some prev -> BlockIndex.nHeight prev + 1 < 2 ^ 31 ->
  judges (if fCheckpointsEnabled then CheckIndexAgainstCheckpoint params checkpoints st q else pass) (checkpoint_rule prev) failing.
Proof.
  intros Hq Hn. unfold checkpoint_rule. destruct fCheckpointsEnabled; [|by apply judges_pass]. unfold CheckIndexAgainstCheckpoint.
  rewrite Hq. cbn [mbind option_bind]. destruct (ok_hash st Hst q prev Hq) as [hash Hhash]. rewrite Hhash. cbn [mbind option_bind].
  case_bool_decide as Hg; [apply judges_pass; intros _ Hne; by subst|].
  destruct (ok_index st Hst q prev Hq) as (Hb&_). unfold int. rewrite bool_decide_true by lia. cbn [mbind option_bind].
  destruct (GetLastCheckpoint checkpoints (mapBlockIndex st)) as [c|] eqn:Ec; [|by apply judges_pass].
  destruct (last_known_heap _ _ Ec) as [check Hc]. rewrite Hc. cbn [mbind option_bind].
  apply judges_if; [|intros ?; apply dos_mode]. rewrite Z.ltb_ge. split.
  - intros H _ _ c' check' [= <-] Hc'. rewrite Hc in Hc'. by injection Hc' as <-.
  - intros H. apply (H eq_refl) with c; [congruence|done|done].
Qed.

Lemma heap_closed q b : st_heap st !! q = Some b -> known_ptr (st_heap st) (pprev b).
Proof.
  intros Hq. destruct (ok_index st Hst q b Hq) as (_&Hp&_). unfold prev_ok in Hp. destruct (pprev b); [|exact I].
  destruct Hp as (bq&Hp&_). by exists bq.
Qed.

Lemma versions_judged q versions : is_Some (st_heap st !! q) ->
  judges (check_versions params (st_heap st) versions (hdr_nVersion block) (Some q))
    (Forall (fun version => hdr_nVersion block < version ->
      ~ majority (st_heap st) (Z.to_nat (nMajorityWindow params)) version (u32 (nMajorityRejectBlockOutdated params)) (Some q)) versions) failing.
Proof.
  intros Hq. induction versions as [|version versions IH]; [by apply judges_pass|]. cbn [check_versions].
  destruct (Z.ltb_spec (hdr_nVersion block) version) as [Hlt|Hge].
  - destruct (IsSuperMajority_ok params (st_heap st) version (Some q) (nMajorityRejectBlockOutdated params) heap_closed Hq) as (r&->&Hr).
    cbn [mbind option_bind]. eapply judges_mono.
    + apply judges_and; [|intros _; exact IH]. apply (judges_if _ _ (r = false) failing); [done|intros x; unfold Invalid, DoS; by destruct (mode x)].
    + rewrite list.Forall_cons. assert (r = false <-> ~ majority (st_heap st) (Z.to_nat (nMajorityWindow params)) version (u32 (nMajorityRejectBlockOutdated params)) (Some q)) as ->.
      { rewrite <- Hr. by destruct r. }
      intuition.
    + intros f [[_ Hf]|(_&_&Hf)]; exact Hf.
  - eapply judges_mono; [exact IH| |done]. rewrite list.Forall_cons. intuition lia.
Qed.

Lemma contextual_header_ok caches q witness c : is_Some (st_heap st !! q) ->
  IsWitnessEnabled (st_heap st) (cp_deployments params) caches (Some q) = Some (witness, c) ->
  exists v c', ContextualCheckBlockHeader params (st_heap st) caches block (Some q) nAdjustedTime = Some (v, c') /\
    (v = None <-> hdr_nTime block <= nAdjustedTime + 7200 /\ version_rule q witness) /\ (forall f, v = Some f -> failing f).
Proof.
  intros [b Hq] Hw. unfold ContextualCheckBlockHeader.
  destruct (GetMedianTimePast_spec (st_heap st) q b (ok_index st Hst) Hq) as (_&_&t&_&_&_&_&_&Et).
  assert (judges (if negb (hdr_nVersion block .& VERSIONBITS_TOP_BITS_SIG =? VERSIONBITS_TOP_BITS_SIG) then
      sig ← IsSigHFEnabled (st_heap st) (cp_deployments params) (Some q);
      reject_if sig (Invalid REJECT_OBSOLETE (bad_version (hdr_nVersion block))) else pass)
    (hdr_nVersion block .& VERSIONBITS_TOP_BITS_SIG <> VERSIONBITS_TOP_BITS_SIG ->
      forall t, GetMedianTimePast (st_heap st) q = Some t -> t < sigActivationTime (cp_deployments params)) failing) as Hsig.
  { destruct (Z.eqb_spec (hdr_nVersion block .& VERSIONBITS_TOP_BITS_SIG) VERSIONBITS_TOP_BITS_SIG); cbn [negb]; [by apply judges_pass|].
    unfold IsSigHFEnabled. rewrite Et. cbn [mbind option_bind]. apply judges_if; [|intros x; unfold Invalid, DoS; by destruct (mode x)].
    rewrite Z.leb_gt. split; [by intros H _ t' [= <-]|]. intros H. by apply H. }
  assert (judges (reject_if (hdr_nTime block >? nAdjustedTime + 2 * 60 * 60) (Invalid REJECT_INVALID "time-too-new"))
    (hdr_nTime block <= nAdjustedTime + 7200) failing) as Htime.
  { apply judges_if; [|intros x; unfold Invalid, DoS; by destruct (mode x)]. rewrite Z.gtb_ltb, Z.ltb_ge. lia. }
  pose proof (judges_and _ _ _ _ _ _ Htime (fun _ => judges_and _ _ _ _ _ _ (versions_judged q [2; 3; 4] ltac:(by exists b)) (fun _ => Hsig))) as (v&E&Hv&Hf).
  rewrite E. cbn [mbind option_bind]. destruct v as [f|].
  - exists (Some f), caches. split; [done|]. destruct (Hf f eq_refl) as [Hn Hf']. split.
    + split; [done|]. intros (?&?&?&?). by destruct Hn.
    + intros g [= <-]. destruct Hf' as [[_ Hg]|(_&_&[[_ Hg]|(_&_&Hg)])]; exact Hg.
  - pose proof (proj1 Hv eq_refl) as (H1&H2&H3).
    destruct (Z.eqb_spec (hdr_nVersion block .& nSegWitVersionMask) nSegWitVersionMask) as [Es|Es]; cbn [negb].
    + exists None, caches. split; [done|]. split; [|done]. split; [|done]. intros _. split; [done|]. split; [done|]. split; [done|]. done.
    + rewrite Hw. cbn [mbind option_bind]. do 2 eexists. split; [done|]. split.
      * unfold version_rule. destruct witness; [|tauto]. split; [done|]. intros (_&_&_&H). by specialize (H Es).
      * intros f Hf'. destruct witness; [|done]. injection Hf' as <-. intros x. unfold Invalid, DoS. by destruct (mode x).
Qed.

Lemma new_header_ok caches :
  (forall q bq, mapBlockIndex st !! hdr_hashPrevBlock block = Some q -> st_heap st !! q = Some bq -> BlockIndex.nHeight bq + 1 < 2 ^ 31) ->
  forall witness c, (forall q, mapBlockIndex st !! hdr_hashPrevBlock block = Some q ->
    IsWitnessEnabled (st_heap st) (cp_deployments params) caches (Some q) = Some (witness, c)) ->
  exists v c', check_new_header mem Hash9 params checkpoints fCheckpointsEnabled height nAdjustedTime st caches block = Some (v, c') /\
    (v = None <-> new_header_rules witness) /\ (forall f, v = Some f -> failing f).
Proof.
  intros Hheight witness c Hwit. unfold check_new_header.
  destruct (header_judged mem Hash9 (cp_pow params) (fun _ _ _ => true) (Z.of_nat (size (mapBlockIndex st))) height Hmem block Hblock) as (v1&E1&H1&F1).
  rewrite E1. cbn [mbind option_bind]. destruct v1 as [f|].
  { exists (Some f), caches. split; [done|]. destruct (F1 f eq_refl) as [Hn [level ->]]. split; [split; [done|by intros [? _]]|].
    intros g [= <-] x. apply dos_mode. }
  pose proof (proj1 H1 eq_refl) as Hwork. clear H1 F1.
  assert (forall level code reason, ~ new_header_rules witness ->
    exists v c', Some (Some (dos level code reason false), caches) = Some (v, c') /\ (v = None <-> new_header_rules witness) /\
      (forall f, v = Some f -> failing f)) as Hfail.
  { intros level code reason Hn. do 2 eexists. split; [done|]. split; [done|]. intros f [= <-] x. apply dos_mode. }
  destruct (mapBlockIndex st !! hdr_hashPrevBlock block) as [q|] eqn:Eq; [|apply Hfail; intros (_&q&?&Hx&_); congruence].
  destruct (proj1 (ok_map st Hst _ _) Eq) as (prev&Hq&_). rewrite Hq. cbn [mbind option_bind].
  destruct (Z.eqb_spec (nStatus prev .& BLOCK_FAILED_MASK) 0) as [Hs|Hs]; cbn [negb].
  2:{ apply Hfail. intros (_&q'&prev'&Eq'&Hq'&Hs'&_). rewrite Eq in Eq'. injection Eq' as <-. rewrite Hq in Hq'. by injection Hq' as <-. }
  destruct (checkpoint_judged q prev Hq (Hheight q prev eq_refl Hq)) as (v2&->&H2&F2). cbn [mbind option_bind].
  assert (forall R : Prop, (R <-> hdr_nTime block <= nAdjustedTime + 7200 /\ version_rule q witness) ->
    (checkpoint_rule prev /\ R) <-> new_header_rules witness) as Hrules.
  { intros R HR. unfold new_header_rules. rewrite HR. split.
    - intros (?&?&?). split; [done|]. by exists q, prev.
    - intros (_&q'&prev'&Eq'&Hq'&_&Hc&Ht&Hv). rewrite Eq in Eq'. injection Eq' as <-. rewrite Hq in Hq'. injection Hq' as <-. done. }
  destruct v2 as [f|].
  - exists (Some f), caches. split; [done|]. destruct (F2 f eq_refl) as [Hn Hf]. split; [|by intros g [= <-]]. split; [done|].
    intros H%(Hrules _ (iff_refl _)). by destruct H.
  - destruct (contextual_header_ok caches q witness c) as (v3&c3&->&H3&F3); [by exists prev|by apply Hwit|].
    exists v3, c3. split; [done|]. split; [|done]. rewrite H3. rewrite <- (Hrules _ (iff_refl _)). split; [|tauto]. intros H. split; [by apply H2|done].
Qed.
End header_rules.

(** C6: [AcceptBlockHeader] answers, keeps the invariant of the block index and all of its
    entries, and changes the index only when it accepts.  After it accepts, the header is in the
    index under its hash and the validation state is as it was; a header that was not known is
    accepted exactly when it is the genesis block or keeps the rules for new headers: proof of
    work, a known parent that has not failed, no fork below a checkpoint, a time at most two
    hours ahead, and a version that the rules in force allow.  A refusal makes the state
    invalid. *)
Theorem accept_block_header (mem : list Z) (Hash9 : list Z -> uint256) (params : ContextParams) (checkpoints : MapCheckpoints)
    (fCheckpointsEnabled : bool) (height nAdjustedTime : Z) (st : index_state) (caches c : VersionBitsCache) (witness : bool)
    (block : CBlockHeader) (vst : CValidationState) (new : ptr) :
  length mem = 64%nat -> BlockIndex.state_ok st -> header_ok block -> add_pre (block_hash Hash9) st block new ->
  (forall q, mapBlockIndex st !! hdr_hashPrevBlock block = Some q ->
    IsWitnessEnabled (st_heap st) (cp_deployments params) caches (Some q) = Some (witness, c)) ->
  mode vst <> MODE_ERROR ->
  exists b vst' p st' c',
    AcceptBlockHeader mem Hash9 params checkpoints fCheckpointsEnabled height nAdjustedTime st caches block vst new = Some (b, vst', p, st', c') /\
    BlockIndex.state_ok st' /\ st_heap st ⊆ st_heap st' /\
    (b = false -> st' = st /\ mode vst' = MODE_INVALID) /\
    (b = true -> vst' = vst /\ exists q e, p = Some q /\ st_heap st' !! q = Some e /\ phashBlock e = Some (block_hash Hash9 block)) /\
    (mapBlockIndex st !! block_hash Hash9 block = None -> b = true <->
      block_hash Hash9 block = hashGenesisBlock params \/
      new_header_rules Hash9 params checkpoints fCheckpointsEnabled height nAdjustedTime st block witness).
Proof.
  intros Hm Hst Hb Hpre Hwit Hmode. unfold AcceptBlockHeader. rewrite (Header_GetHash_ok mem Hash9 Hm block Hb), bind_some.
  set (hash := block_hash Hash9 block).
  assert (exists p st' e, AddToBlockIndex (fun _ => hash) st block new = Some (p, st') /\ BlockIndex.state_ok st' /\ st_heap st ⊆ st_heap st' /\
    st_heap st' !! p = Some e /\ phashBlock e = Some hash) as (p&st'&e&Eadd&Hst'&Hsub&He&Hph).
  { destruct (mapBlockIndex st !! hash) as [p|] eqn:Em.
    - destruct (proj1 (ok_map st Hst _ _) Em) as (e&He&Hph). exists p, st, e. unfold AddToBlockIndex. by rewrite Em.
    - destruct (AddToBlockIndex_spec (fun _ => hash) st block new Hst) as (st'&e&E&Hst'&Eh&Hph&_); [|done|].
      { destruct Hpre. constructor; done. }
      exists new, st', e. rewrite Eh. split_and!; try done; [by apply insert_subseteq, Hpre|by rewrite lookup_insert_eq]. }
  cbv zeta. rewrite Eadd. cbn [mbind option_bind].
  case_bool_decide as Hg.
  { do 5 eexists. split; [done|]. split_and!; try done; [intros _; split; [done|by exists p, e]|]. intros _. split; [by left|done]. }
  destruct (mapBlockIndex st !! hash) as [q|] eqn:Em.
  { destruct (proj1 (ok_map st Hst _ _) Em) as (eq&Heq&Hphq). rewrite Heq. cbn [mbind option_bind].
    destruct (Z.eqb_spec (nStatus eq .& BLOCK_FAILED_MASK) 0); cbn [negb]; do 5 eexists; (split; [done|]); split_and!; try done.
    - intros _. split; [done|]. by exists q, eq.
    - intros _. split; [done|]. unfold Invalid, DoS. by destruct (mode vst). }
  destruct (new_header_ok mem Hm Hash9 params checkpoints fCheckpointsEnabled height nAdjustedTime st Hst block Hb caches (pre_height _ _ _ _ Hpre) witness c Hwit)
    as (v&c'&->&Hv&Hf). cbn [mbind option_bind]. destruct v as [f|].
  - do 5 eexists. split; [done|]. split_and!; try done; [intros _; split; [done|by apply Hf]|]. intros _. split; [done|].
    intros [?|H%Hv]; done.
  - do 5 eexists. split; [done|]. split_and!; try done; [intros _; split; [done|by exists p, e]|].
    intros _. split; [|done]. intros _. right. by apply Hv.
Qed.

(** ** Examples *)

Definition sample_coinbase (w : list CScriptWitness) : CTransaction :=
  {| nVersion := 1; nTime := 96;
     vin := [{| prevout := {| hash := hash_null; n := 2 ^ 32 - 1 |}; scriptSig := [1; 7]; nSequence := 0 |}];
     vout := [{| nValue := 5; scriptPubKey := [81] |}]; wit := w; nLockTime := 0; strDZeel := [] |}.
Definition plain_spend : CTransaction :=
  {| nVersion := 1; nTime := 96;
     vin := [{| prevout := {| hash := replicate 32 9; n := 0 |}; scriptSig := []; nSequence := 0 |}];
     vout := [{| nValue := 4; scriptPubKey := [81] |}]; wit := []; nLockTime := 0; strDZeel := [] |}.

(** A block with one transaction, and its root in the header *)
Definition one_tx_block (tx : CTransaction) (sig : list Z) : CBlock :=
  mkBlock (mkHeader 7 (replicate 32 3) (txid tx) 96 0x1e00ffff 0) [tx] sig false.
Definition sample_params : Params := mkParams (replicate 32 255) false false 30 30 5 30 30.

Lemma one_tx_ok tx : tx_ok tx -> CBlock_ok (one_tx_block tx []).
Proof.
  intros Ht. destruct (valid_sha256d (tx_bytes tx)) as [Hl Hb]. constructor; cbn [one_tx_block header vtx vchBlockSig].
  - constructor; cbn [hdr_nVersion hdr_hashPrevBlock hdr_hashMerkleRoot hdr_nTime hdr_nBits hdr_nNonce]; [by_decide|by_decide|done|by_decide..].
  - split; [by apply Forall_singleton|done].
  - by_decide.
Qed.

Lemma sample_coinbase_ok : tx_ok (sample_coinbase []).
Proof. by_decide. Qed.
Lemma plain_spend_ok : tx_ok plain_spend.
Proof. by_decide. Qed.

Lemma tx_valid_by tx : tx_ok tx -> check_transaction tx = Some None -> tx_valid tx.
Proof. intros Ht E. destruct (check_transaction_ok tx (ok_wit _ Ht)) as (r&E'&Hr&_). rewrite E in E'. injection E' as <-. by apply Hr. Qed.

Lemma one_tx_root tx : root_rule (one_tx_block tx []).
Proof.
  split; [reflexivity|]. intros (k&i&H&_). change (length (leaves (one_tx_block tx []))) with 1%nat in H. pose proof (pow2_pos k). nia.
Qed.

Lemma one_tx_size tx : tx_ok tx -> (length (tx_bytes tx) <= 1000)%nat -> size_rule (one_tx_block tx []).
Proof.
  intros Ht Hl. split; [done|]. unfold block_bytes. rewrite !length_app.
  destruct (header_bytes (header (one_tx_block tx []))) as [_ ->]; [apply (block_ok_header _ (one_tx_ok tx Ht))|].
  cbn [one_tx_block vtx vchBlockSig map concat]. rewrite app_nil_r. change (length (WriteCompactSize _)) with 1%nat.
  change (length (Serialize_bytes [])) with 1%nat. unfold MAX_BLOCK_BASE_SIZE. lia.
Qed.

Lemma one_tx_sigops tx : 0 <= tx_sigops tx <= 100 -> sigops_rule (vtx (one_tx_block tx [])).
Proof. intros H. unfold sigops_rule, MAX_BLOCK_SIGOPS_COST. cbn [one_tx_block vtx map sum_of foldr]. lia. Qed.

Definition sample_block : CBlock := one_tx_block (sample_coinbase []) [].

Lemma sample_block_rules Hash9 Verify : block_rules Hash9 sample_params Verify 100 0 (sample_block).
Proof.
  constructor.
  - intros _ Hn. exfalso. vm_compute in Hn. by apply Hn.
  - apply one_tx_root.
  - exact I.
  - apply one_tx_size; [apply sample_coinbase_ok|by_decide].
  - split; [by vm_compute|constructor].
  - reflexivity.
  - apply Forall_singleton, tx_valid_by; [apply sample_coinbase_ok|by vm_compute].
  - apply one_tx_sigops. by_decide.
Qed.

Lemma build_merkle_tree_witness :
  exists tree mutated, BuildMerkleTree (replicate 64 0) sample_block = Some (block_root sample_block, tree) /\
    Block_MerkleRoot (replicate 64 0) sample_block = Some (block_root sample_block, mutated).
Proof.
  apply (build_merkle_tree (replicate 64 0) sample_block); [done| |done]. apply Forall_singleton, sample_coinbase_ok.
Defined.

(** Proof of work is not asked for any more; the coinbase is the only transaction. *)
Lemma check_block_iff_witness :
  exists st' block', CheckBlock (replicate 64 0) (fun _ => []) sample_params (fun _ _ _ => true) 100 0
    (sample_block) new_CValidationState true true = Some (true, st', block').
Proof.
  destruct (check_block_iff (replicate 64 0) (fun _ => []) sample_params (fun _ _ _ => true) 100 0
    (sample_block) new_CValidationState eq_refl (one_tx_ok _ sample_coinbase_ok) eq_refl) as (b&st'&block'&E&Hb&_).
  rewrite (proj2 Hb (sample_block_rules _ _)) in E. by exists st', block'.
Defined.

Lemma block_hash_commits_witness :
  (header sample_block = header sample_block /\ contents sample_block = contents sample_block) \/
  (CBlockHeader_Serialize (header sample_block) <> CBlockHeader_Serialize (header sample_block) /\
   block_hash (fun _ => []) (header sample_block) = block_hash (fun _ => []) (header sample_block)) \/
  content_collision sample_block sample_block.
Proof.
  apply (block_hash_commits (replicate 64 0) (fun _ => []) sample_params (fun _ _ _ => true) 100 0).
  - done.
  - apply one_tx_ok, sample_coinbase_ok.
  - apply one_tx_ok, sample_coinbase_ok.
  - apply sample_block_rules.
  - apply sample_block_rules.
  - exact eq_refl.
  - exact eq_refl.
Defined.

(** A block without a coinbase *)
Definition bad_block : CBlock := one_tx_block plain_spend [].

Lemma bad_block_fault Hash9 Verify f : block_fault Hash9 sample_params Verify 100 0 bad_block f ->
  exists reason, rejects REJECT_INVALID reason false f /\ reason <> "bad-blk-length"%string /\ reason <> "high-hash"%string.
Proof.
  intros [_ Hw _|Hr _|_ Hc _|_ Hs _|_ _ _ [Hf|Hf]|_ Hg _|_ Ht _|_ Ho _].
  - destruct Hw. intros Hn. exfalso. vm_compute in Hn. by apply Hn.
  - destruct Hr. apply one_tx_root.
  - by destruct Hc.
  - destruct Hs. apply one_tx_size; [apply plain_spend_ok|by_decide].
  - by exists "bad-cb-missing"%string.
  - by exists "bad-cb-multiple"%string.
  - by destruct Hg.
  - destruct Ht. apply Forall_singleton, tx_valid_by; [apply plain_spend_ok|by vm_compute].
  - destruct Ho. apply one_tx_sigops. by_decide.
Qed.

Lemma bad_block_checked :
  exists f, CheckBlock (replicate 64 0) (fun _ => []) sample_params (fun _ _ _ => true) 100 0 bad_block new_CValidationState true true =
      Some (false, f new_CValidationState, bad_block) /\
    mode (f new_CValidationState) = MODE_INVALID /\ corruptionPossible (f new_CValidationState) = false /\
    strRejectReason (f new_CValidationState) <> "bad-blk-length"%string /\ strRejectReason (f new_CValidationState) <> "high-hash"%string.
Proof.
  destruct (CheckBlock_cases (replicate 64 0) (fun _ => []) sample_params (fun _ _ _ => true) 100 0 eq_refl bad_block new_CValidationState
    (one_tx_ok _ plain_spend_ok) eq_refl) as (v&E&Hv&Hf). destruct v as [f|].
  - exists f. split; [exact E|]. clear E. destruct (bad_block_fault _ _ f (Hf f eq_refl)) as (reason&[level ->]&Hne).
    split; [reflexivity|]. split; [reflexivity|exact Hne].
  - exfalso. destruct (proj1 Hv eq_refl) as [_ _ _ _ [Hc _] _ _ _]. vm_compute in Hc. done.
Qed.

(** The same header and transaction with a signature *)
Definition bad_twin : CBlock := with_sig bad_block [7; 8].

Lemma bad_twin_ok : CBlock_ok bad_twin.
Proof. destruct (one_tx_ok plain_spend plain_spend_ok) as [Hh Ht _]. constructor; [exact Hh|exact Ht|by_decide]. Qed.

(** A block without a coinbase is to blame, with its header. *)
Lemma check_block_blame_witness :
  (exists st2, CheckBlock (replicate 64 0) (fun _ => []) sample_params (fun _ _ _ => true) 100 0 bad_twin new_CValidationState true true =
     Some (false, st2, bad_twin)) \/ content_collision bad_block bad_twin.
Proof.
  destruct bad_block_checked as (f&E&H1&H2&H3&H4).
  destruct (check_block_blame (replicate 64 0) (fun _ => []) sample_params (fun _ _ _ => true) 100 0 bad_block new_CValidationState
    (f new_CValidationState) bad_block) as [[Hst _]|[_ [[Hc _]|[[Hl _]|[[Hw _]|[_ Hb]]]]]].
  - reflexivity.
  - apply one_tx_ok, plain_spend_ok.
  - reflexivity.
  - reflexivity.
  - exact E.
  - rewrite Hst in H1. discriminate.
  - congruence.
  - by destruct H3.
  - by destruct H4.
  - apply (Hb bad_twin); [|reflexivity]. split; [exact bad_twin_ok|]. split; [reflexivity|exact eq_refl].
Defined.

(** The first block of a chain *)
Definition sample_deployments : DeploymentParams := mkDeploymentParams 1 1 (replicate 6 (mkDeployment 0 100 200)) 1000.
Definition sample_context : ContextParams := mkContextParams sample_params sample_deployments (replicate 32 1) 3 750 950 1000.
Definition witness_after (r : option (bool * VersionBitsCache)) : bool * VersionBitsCache := match r with Some p => p | None => (false, []) end.

Lemma wtx_ok_no_witness tx : tx_ok tx -> wit tx = [] -> wtx_bytes tx = tx_bytes tx -> wtx_ok tx.
Proof. intros Ht Hw Hb. constructor; [done|by rewrite Hw|]. rewrite Hb. by apply length_tx_bytes. Qed.

Lemma sample_deployments_ok : params_ok sample_deployments.
Proof. apply (bool_decide_unpack _). by vm_compute. Qed.

Lemma contextual_check_iff_witness :
  exists cutoff v c, ContextualCheckBlock (replicate 64 0) sample_context (fun _ => false) ∅ VersionBitsCache_Clear sample_block None = Some (v, c) /\
    cutoff = 96 /\ (v = None <-> context_rules sample_context (fun _ => false) ∅ None 0 cutoff false sample_block).
Proof.
  destruct (contextual_check_iff (replicate 64 0) sample_context (fun _ => false) ∅ VersionBitsCache_Clear sample_block None)
    as (csv&witness&cutoff&v&c&E&Hcsv&Hwit&Hcut&H&_).
  - reflexivity.
  - apply map_Forall_empty.
  - intros p b q m Hp. by rewrite lookup_empty in Hp.
  - exact sample_deployments_ok.
  - apply caches_clear_ok.
  - exact I.
  - reflexivity.
  - apply one_tx_ok, sample_coinbase_ok.
  - apply Forall_singleton, wtx_ok_no_witness; [apply sample_coinbase_ok|reflexivity|by vm_compute].
  - split; [by vm_compute|constructor].
  - apply genesis_defined in Hcsv as ->. apply genesis_defined in Hwit as ->. exists cutoff, v, c. split; [exact E|]. split; [exact Hcut|exact H].
Defined.

(** A block of three transactions that commits to the witnesses of the third; [w] is the witness of the second. *)
Definition commitment_script (d : uint256) : CScript := [OP_RETURN; 0x24; 0xaa; 0x21; 0xa9; 0xed] ++ d.
Definition committing_coinbase (d : uint256) : CTransaction :=
  {| nVersion := 1; nTime := 96;
     vin := [{| prevout := {| hash := hash_null; n := 2 ^ 32 - 1 |}; scriptSig := [1; 7]; nSequence := 0 |}];
     vout := [{| nValue := 0; scriptPubKey := commitment_script d |}]; wit := [[replicate 32 5]]; nLockTime := 0; strDZeel := [] |}.
Definition witness_spend : CTransaction := with_wit plain_spend [[[1; 2; 3]]].
Definition committing_block (d : uint256) (w : list CScriptWitness) : CBlock :=
  mkBlock (mkHeader 7 (replicate 32 3) (replicate 32 4) 96 0x1e00ffff 0) [committing_coinbase d; with_wit plain_spend w; witness_spend] [] false.
Definition committed_hash : uint256 :=
  sha_pair (merkle_root sha_pair [uint256_zero; wtxid witness_spend; uint256_zero]) (replicate 32 5).

Lemma is_commitment_script d : length d = 32%nat -> is_commitment (commitment_script d) = true.
Proof. intros Hd. unfold is_commitment, commitment_script. rewrite vsize_app. unfold vsize. rewrite Hd. reflexivity. Qed.

Lemma committing_rule d w : length d = 32%nat ->
  sha_pair (merkle_root sha_pair [uint256_zero; wtxid witness_spend; uint256_zero]) (replicate 32 5) = d ->
  commitment_rule (committing_block d w).
Proof.
  intros Hd Hs. pose proof (is_commitment_script d Hd) as Hi.
  assert (commitment_index (vout (committing_coinbase d)) = 0) as Hx.
  { unfold commitment_index, committing_coinbase. cbn [vout imap foldl scriptPubKey]. by rewrite Hi. }
  exists (committing_coinbase d), (replicate 32 5), {| nValue := 0; scriptPubKey := commitment_script d |}.
  split; [reflexivity|]. split; [reflexivity|]. split; [reflexivity|]. rewrite Hx. split; [reflexivity|].
  cbn [committing_block vtx witness_leaves map app scriptPubKey]. rewrite Hs. symmetry.
  unfold commitment_script. cbn [app drop]. change (drop 0 d) with d. apply take_ge. lia.
Qed.

Lemma committing_contents d w1 w2 : contents (committing_block d w1) = contents (committing_block d w2).
Proof. reflexivity. Qed.


(** A header on top of the sample index *)
Definition sample_header : CBlockHeader := mkHeader 6 (store_le 32 7) (replicate 32 2) 1100 0x207fffff 77.
Definition sample_Hash9 (bytes : list Z) : uint256 := replicate 32 200.

Lemma accept_block_header_witness :
  exists b vst' p st' c', AcceptBlockHeader (replicate 64 0) sample_Hash9 sample_context [] true 10 2000 BlockIndex.Sample.index
      VersionBitsCache_Clear sample_header new_CValidationState 10 = Some (b, vst', p, st', c') /\ BlockIndex.state_ok st'.
Proof.
  destruct (accept_block_header (replicate 64 0) sample_Hash9 sample_context [] true 10 2000 BlockIndex.Sample.index VersionBitsCache_Clear
    (witness_after (IsWitnessEnabled (st_heap BlockIndex.Sample.index) sample_deployments VersionBitsCache_Clear (Some 7%positive))).2
    (witness_after (IsWitnessEnabled (st_heap BlockIndex.Sample.index) sample_deployments VersionBitsCache_Clear (Some 7%positive))).1
    sample_header new_CValidationState 10%positive) as (b&vst'&p&st'&c'&E&Hst&_).
  - reflexivity.
  - exact sample_ok.
  - constructor; by_decide.
  - apply add_preb_pre. vm_compute. reflexivity.
  - intros q Hq. assert (mapBlockIndex BlockIndex.Sample.index !! hdr_hashPrevBlock sample_header = Some 7%positive) as E7 by (vm_compute; reflexivity).
    rewrite E7 in Hq. injection Hq as <-. vm_compute. reflexivity.
  - discriminate.
  - exists b, vst', p, st', c'. split; [exact E|exact Hst].
Defined.
