(* ===== verification/MerkleBlock.v ===== *)
(** Partial Merkle trees ([src/src/merkleblock.h], [merkleblock.cpp]): the proof that some
    transactions are in a block, made by a full node, and its check by a light client.

    The reference is a tree ([ptree]): the code writes and reads its nodes in depth-first order,
    one bit per node and one hash per leaf.  An access outside a vector or a shift by the width of
    the type gives [None]. *)

From stdpp Require Import gmap sets sorting.
From S2P Require Import Prelude SphTypes BlockIndex Hasher Sha2Spec Sha256 Hash Merkle Serialize Codec Transaction TxVerify Block.

#[local] Open Scope Z_scope.
#[local] Open Scope c_scope.

(** ** The code *)

Record CPartialMerkleTree := mkPMT {
  nTransactions : Z; vBits : list bool; vHash : list uint256; fBad : bool }.

Definition new_CPartialMerkleTree : CPartialMerkleTree := mkPMT 0 [] [] true.

(** [1 << height] is an [int], the sum is unsigned. *)
Definition CalcTreeWidth (nTransactions : Z) (height : nat) : option Z :=
  if (height <? 31)%nat then Some (u32 (nTransactions + (1 << Z.of_nat height) - 1) >> Z.of_nat height) else None.

(** [while (CalcTreeWidth(nHeight) > 1) nHeight++] *)
Fixpoint calc_height (fuel : nat) (nTransactions : Z) (nHeight : nat) : option nat :=
  width ← CalcTreeWidth nTransactions nHeight;
  if width >? 1 then match fuel with O => None | S fuel => calc_height fuel nTransactions (S nHeight) end
  else Some nHeight.

Section tree_code.
Context (mem : list Z) (nTx : Z).

Fixpoint CalcHash (height : nat) (pos : Z) (vTxid : list uint256) : option uint256 :=
  match height with
  | O => vTxid !! Z.to_nat pos
  | S height =>
      hl ← CalcHash height (u32 (pos * 2)) vTxid;
      width ← CalcTreeWidth nTx height;
      hr ← (if u32 (pos * 2 + 1) <? width then CalcHash height (u32 (pos * 2 + 1)) vTxid else Some hl);
      Hash2 mem hl hr
  end.

(** [for (p = pos << height; p < (pos+1) << height && p < nTransactions; p++)] *)
Fixpoint any_match (fuel : nat) (p last : Z) (vMatch : list bool) (fParentOfMatch : bool) : option bool :=
  if (p <? last) && (p <? nTx) then
    match fuel with
    | O => None
    | S fuel => b ← vMatch !! Z.to_nat p; any_match fuel (u32 (p + 1)) last vMatch (fParentOfMatch || b)
    end
  else Some fParentOfMatch.

(** [vBits] and [vHash] with what the traversal appends to them *)
Fixpoint TraverseAndBuild (height : nat) (pos : Z) (vTxid : list uint256) (vMatch : list bool)
    (out : list bool * list uint256) : option (list bool * list uint256) :=
  if (32 <=? height)%nat then None
  else
    fParentOfMatch ← any_match (Z.to_nat nTx) (u32 (pos << Z.of_nat height)) (u32 (u32 (pos + 1) << Z.of_nat height)) vMatch false;
    let out := (out.1 ++ [fParentOfMatch], out.2) in
    let store := hash ← CalcHash height pos vTxid; Some (out.1, out.2 ++ [hash]) in
    match height with
    | O => store
    | S h =>
        if negb fParentOfMatch then store
        else
          out ← TraverseAndBuild h (u32 (pos * 2)) vTxid vMatch out;
          width ← CalcTreeWidth nTx h;
          if u32 (pos * 2 + 1) <? width then TraverseAndBuild h (u32 (pos * 2 + 1)) vTxid vMatch out else Some out
    end.

(** What [TraverseAndExtract] changes: its reference arguments and [fBad] *)
Record extract_state := ExtractState {
  x_nBitsUsed : Z; x_nHashUsed : Z; x_vMatch : list uint256; x_vnIndex : list Z; x_fBad : bool }.
Definition set_bad (st : extract_state) : extract_state := ExtractState (x_nBitsUsed st) (x_nHashUsed st) (x_vMatch st) (x_vnIndex st) true.
Definition use_bit (st : extract_state) : extract_state :=
  ExtractState (u32 (x_nBitsUsed st + 1)) (x_nHashUsed st) (x_vMatch st) (x_vnIndex st) (x_fBad st).
Definition use_hash (st : extract_state) : extract_state :=
  ExtractState (x_nBitsUsed st) (u32 (x_nHashUsed st + 1)) (x_vMatch st) (x_vnIndex st) (x_fBad st).
Definition push_match (hash : uint256) (pos : Z) (st : extract_state) : extract_state :=
  ExtractState (x_nBitsUsed st) (x_nHashUsed st) (x_vMatch st ++ [hash]) (x_vnIndex st ++ [pos]) (x_fBad st).

Fixpoint TraverseAndExtract (bits : list bool) (hashes : list uint256) (height : nat) (pos : Z) (st : extract_state)
    : option (uint256 * extract_state) :=
  if x_nBitsUsed st >=? Z.of_nat (length bits) then Some (uint256_zero, set_bad st)
  else
    fParentOfMatch ← bits !! Z.to_nat (x_nBitsUsed st);
    let st := use_bit st in
    let stored (isLeaf : bool) :=
      if x_nHashUsed st >=? Z.of_nat (length hashes) then Some (uint256_zero, set_bad st)
      else
        hash ← hashes !! Z.to_nat (x_nHashUsed st);
        let st := use_hash st in
        Some (hash, if isLeaf && fParentOfMatch then push_match hash pos st else st) in
    match height with
    | O => stored true
    | S h =>
        if negb fParentOfMatch then stored false
        else
          '(hl, st) ← TraverseAndExtract bits hashes h (u32 (pos * 2)) st;
          width ← CalcTreeWidth nTx h;
          '(hr, st) ←
            (if u32 (pos * 2 + 1) <? width then
               '(hr, st) ← TraverseAndExtract bits hashes h (u32 (pos * 2 + 1)) st;
               Some (hr, if bool_decide (hr = hl) then set_bad st else st)
             else Some (hl, st));
          hash ← Hash2 mem hl hr;
          Some (hash, st)
    end.
End tree_code.

(** The constructor; [nTransactions] is an [unsigned int]. *)
Definition CPartialMerkleTree_make (mem : list Z) (vTxid : list uint256) (vMatch : list bool) : option CPartialMerkleTree :=
  let nTransactions := u32 (Z.of_nat (length vTxid)) in
  nHeight ← calc_height 32 nTransactions 0;
  '(vBits, vHash) ← TraverseAndBuild mem nTransactions nHeight 0 vTxid vMatch ([], []);
  Some (mkPMT nTransactions vBits vHash false).

(** The returned hash, [vMatch] and [vnIndex], which is only appended to, and the object with its
    flag *)
Definition ExtractMatches (mem : list Z) (t : CPartialMerkleTree) (vnIndex : list Z)
    : option (uint256 * list uint256 * list Z * CPartialMerkleTree) :=
  let failed := Some (uint256_zero, [], vnIndex, t) in
  if nTransactions t =? 0 then failed
  else if nTransactions t >? MAX_BLOCK_BASE_SIZE / 60 then failed
  else if Z.of_nat (length (vHash t)) >? nTransactions t then failed
  else if Z.of_nat (length (vBits t)) <? Z.of_nat (length (vHash t)) then failed
  else
    nHeight ← calc_height 32 (nTransactions t) 0;
    '(hashMerkleRoot, st) ←
      TraverseAndExtract mem (nTransactions t) (vBits t) (vHash t) nHeight 0 (ExtractState 0 0 [] vnIndex (fBad t));
    let t := mkPMT (nTransactions t) (vBits t) (vHash t) (x_fBad st) in
    let ret hash := Some (hash, x_vMatch st, x_vnIndex st, t) in
    if x_fBad st then ret uint256_zero
    else if negb (u32 (x_nBitsUsed st + 7) / 8 =? (Z.of_nat (length (vBits t)) + 7) / 8) then ret uint256_zero
    else if negb (x_nHashUsed st =? Z.of_nat (length (vHash t))) then ret uint256_zero
    else ret hashMerkleRoot.

(** [vBytes[p / 8] |= vBits[p] << (p % 8)] over a vector of [(size + 7) / 8] zeros, in which
    [p / 8] is a position. *)
Definition or_bit (vBytes : list Z) (e : nat * bool) : list Z :=
  alter (fun x => x .| (Z.b2z e.2 << (Z.of_nat e.1 mod 8))) (e.1 / 8)%nat vBytes.
Definition pack_bits (vBits : list bool) : list Z :=
  foldl or_bit (replicate ((length vBits + 7) / 8) 0) (imap pair vBits).
Definition unpack_bits (vBytes : list Z) : list bool :=
  map (fun p => negb (((vBytes !!! (p / 8)%nat) .& (1 << (Z.of_nat p mod 8))) =? 0)) (seq 0 (length vBytes * 8)).

(** The bytes of a vector of [uint256] are read in pieces of [5000000 / sizeof(uint256)]. *)
Definition CPartialMerkleTree_Serialize (t : CPartialMerkleTree) : list Z :=
  ser_writedata32 (nTransactions t) ++ Serialize_vector (fun hash => hash) (vHash t) ++ Serialize_bytes (pack_bits (vBits t)).
Definition CPartialMerkleTree_Unserialize (s : list Z) : result (CPartialMerkleTree * list Z) :=
  '(n, s) ← ser_readdata32 s;
  '(hashes, s) ← Unserialize_vector (read 32) (5000000 / 32) s;
  '(vBytes, s) ← Unserialize_bytes s;
  mret (mkPMT n (unpack_bits vBytes) hashes false, s).

(** [CMerkleBlock] *)
Record CMerkleBlock := mkMerkleBlock {
  mb_header : CBlockHeader; mb_txn : CPartialMerkleTree; vMatchedTxn : list (Z * uint256) }.

(** The constructor from a set of hashes *)
Definition CMerkleBlock_of_txids (mem : list Z) (blk : CBlock) (txids : list uint256) : option CMerkleBlock :=
  vHashes ← mapM (GetHash mem) (vtx blk);
  txn ← CPartialMerkleTree_make mem vHashes (map (fun hash => bool_decide (hash ∈ txids)) vHashes);
  Some (mkMerkleBlock (header blk) txn []).

(** The constructor from a filter, whose [IsRelevantAndUpdate] changes it *)
Definition CMerkleBlock_of_filter {F} (IsRelevantAndUpdate : F -> CTransaction -> bool * F) (mem : list Z) (blk : CBlock)
    (filter : F) : option (CMerkleBlock * F) :=
  vHashes ← mapM (GetHash mem) (vtx blk);
  let '(vMatch, filter) := foldl (fun '(vMatch, filter) tx =>
    let '(b, filter) := IsRelevantAndUpdate filter tx in (vMatch ++ [b], filter)) ([], filter) (vtx blk) in
  txn ← CPartialMerkleTree_make mem vHashes vMatch;
  Some (mkMerkleBlock (header blk) txn
          (omap (fun '(i, (b, hash)) => if b : bool then Some (Z.of_nat i, hash) else None) (imap pair (zip vMatch vHashes))), filter).

Definition CMerkleBlock_Serialize (b : CMerkleBlock) : list Z :=
  CBlockHeader_Serialize (mb_header b) ++ CPartialMerkleTree_Serialize (mb_txn b).
Definition CMerkleBlock_Unserialize (s : list Z) : result (CMerkleBlock * list Z) :=
  '(hdr, s) ← CBlockHeader_Unserialize s;
  '(txn, s) ← CPartialMerkleTree_Unserialize s;
  mret (mkMerkleBlock hdr txn [], s).

(** ** The reference: partial trees *)

(** A node with its stored hash and its bit, a node with a left child only, a node with two
    children. *)
Inductive ptree :=
  | PHash (matched : bool) (hash : uint256)
  | PSingle (child : ptree)
  | PNode (l r : ptree).

Fixpoint pt_bits (t : ptree) : list bool :=
  match t with
  | PHash b _ => [b]
  | PSingle t => true :: pt_bits t
  | PNode l r => true :: pt_bits l ++ pt_bits r
  end.
Fixpoint pt_hashes (t : ptree) : list uint256 :=
  match t with
  | PHash _ h => [h]
  | PSingle t => pt_hashes t
  | PNode l r => pt_hashes l ++ pt_hashes r
  end.
(** The matched leaves below a node at [pos], with their positions *)
Fixpoint pt_matches (pos : nat) (t : ptree) : list (nat * uint256) :=
  match t with
  | PHash b h => if b then [(pos, h)] else []
  | PSingle t => pt_matches (2 * pos) t
  | PNode l r => pt_matches (2 * pos) l ++ pt_matches (2 * pos + 1) r
  end.

Section ptree.
Context (f : uint256 -> uint256 -> uint256).

Fixpoint pt_root (t : ptree) : uint256 :=
  match t with
  | PHash _ h => h
  | PSingle t => f (pt_root t) (pt_root t)
  | PNode l r => f (pt_root l) (pt_root r)
  end.
(** The pairs that are hashed to get the root *)
Fixpoint pt_pairs (t : ptree) : list (uint256 * uint256) :=
  match t with
  | PHash _ _ => []
  | PSingle t => (pt_root t, pt_root t) :: pt_pairs t
  | PNode l r => (pt_root l, pt_root r) :: pt_pairs l ++ pt_pairs r
  end.

(** A partial tree at height [k] and position [pos] of the tree over [n] leaves: a node has a right
    child where the tree has one, siblings differ, and only leaves are matched. *)
Fixpoint pt_shape (n k pos : nat) (t : ptree) {struct t} : Prop :=
  match t, k with
  | PHash b _, _ => b = true -> k = 0%nat
  | PSingle t, S k => (nodes n k <= 2 * pos + 1)%nat /\ pt_shape n k (2 * pos) t
  | PNode l r, S k =>
      (2 * pos + 1 < nodes n k)%nat /\ pt_root l <> pt_root r /\
      pt_shape n k (2 * pos) l /\ pt_shape n k (2 * pos + 1) r
  | _, O => False
  end.
End ptree.

(** The tree that is made for the leaves [l] of which those with a flag in [m] are matched *)
Section build.
Context (f : uint256 -> uint256 -> uint256) (l : list uint256) (m : list bool).

Definition has_match (k pos : nat) : bool := existsb id (take (2 ^ k) (drop (pos * 2 ^ k) m)).

Fixpoint build (k pos : nat) : ptree :=
  match k with
  | O => PHash (has_match 0 pos) (l !!! pos)
  | S k =>
      if has_match (S k) pos then
        if (2 * pos + 1 <? nodes (length l) k)%nat then PNode (build k (2 * pos)) (build k (2 * pos + 1))
        else PSingle (build k (2 * pos))
      else PHash false (tree_root f (S k) (Merkle.block l (S k) pos))
  end.
End build.

(** The matched leaves, from position [off] on *)
Fixpoint matched (off : nat) (m : list bool) (l : list uint256) : list (nat * uint256) :=
  match m, l with
  | b :: m, h :: l => (if b then [(off, h)] else []) ++ matched (S off) m l
  | _, _ => []
  end.

(** ** Widths and heights *)

Lemma nodes_le n k c : (0 < n)%nat -> (nodes n k <= c <-> n <= c * 2 ^ k)%nat.
Proof. intros Hn. pose proof (nodes_bounds n k Hn). pose proof (pow2_pos k). split; intros; nia. Qed.

Lemma nodes_lt n k c : (0 < n)%nat -> (c < nodes n k <-> c * 2 ^ k < n)%nat.
Proof. intros Hn. pose proof (nodes_le n k c Hn). lia. Qed.

(** The left child of a node is in the tree; positions are below [n]. *)
Lemma nodes_left n k pos : (0 < n)%nat -> (pos < nodes n (S k))%nat -> (2 * pos < nodes n k)%nat.
Proof. intros Hn. rewrite !nodes_lt, pow2_S by done. lia. Qed.

Lemma nodes_bound n k pos : (0 < n)%nat -> (pos < nodes n k)%nat -> (pos < n)%nat.
Proof. intros Hn. rewrite nodes_lt by done. pose proof (pow2_pos k). nia. Qed.

Lemma pow2_Z k : 2 ^ Z.of_nat k = Z.of_nat (2 ^ k).
Proof. by rewrite Nat2Z.inj_pow. Qed.

Lemma CalcTreeWidth_ok n k :
  Z.of_nat n <= 2 ^ 30 -> (k < 31)%nat -> CalcTreeWidth (Z.of_nat n) k = Some (Z.of_nat (nodes n k)).
Proof.
  intros Hn Hk. unfold CalcTreeWidth. destruct (Nat.ltb_spec k 31); [|lia]. f_equal.
  rewrite Z.shiftl_mul_pow2, Z.mul_1_l by lia.
  assert (2 ^ Z.of_nat k <= 2 ^ 30) by (apply Z.pow_le_mono_r; lia).
  assert (0 < 2 ^ Z.of_nat k) by lia.
  unfold u32. rewrite Z.mod_small by lia. rewrite Z.shiftr_div_pow2 by lia.
  unfold nodes. rewrite Nat2Z.inj_div, <- pow2_Z. f_equal.
  pose proof (pow2_pos k). rewrite Nat2Z.inj_sub, Nat2Z.inj_add, <- pow2_Z by lia. lia.
Qed.

Lemma calc_height_ok fuel n k :
  (0 < n)%nat -> Z.of_nat n <= 2 ^ 30 -> (k <= Nat.log2_up n)%nat -> (Nat.log2_up n - k <= fuel)%nat ->
  calc_height fuel (Z.of_nat n) k = Some (Nat.log2_up n).
Proof.
  intros Hn Hb. assert (Nat.log2_up n <= 30)%nat as H30.
  { apply Nat.log2_up_le_pow2; [lia|]. apply Nat2Z.inj_le. rewrite <- pow2_Z. done. }
  revert k. induction fuel as [|fuel IH]; intros k Hk Hf.
  all: cbn [calc_height]; rewrite CalcTreeWidth_ok by lia; cbn [mbind option_bind]; rewrite Z.gtb_ltb.
  all: destruct (Z.ltb_spec 1 (Z.of_nat (nodes n k))) as [H1|H1].
  - assert (1 < nodes n k)%nat as H2 by lia. apply nodes_lt in H2; [|done].
    assert (k < Nat.log2_up n)%nat; [|lia].
    apply Nat.log2_up_lt_pow2; lia.
  - f_equal. lia.
  - apply IH; [|lia]. assert (1 < nodes n k)%nat as H2 by lia. apply nodes_lt in H2; [|done].
    apply Nat.log2_up_lt_pow2; lia.
  - f_equal. assert (nodes n k <= 1)%nat as H2 by lia. apply nodes_le in H2; [|done].
    assert (Nat.log2_up n <= k)%nat; [|lia]. apply Nat.log2_up_le_pow2; lia.
Qed.

(** Positions do not wrap around. *)
Lemma double_pos n k pos :
  (0 < n)%nat -> Z.of_nat n <= 2 ^ 30 -> (pos < nodes n (S k))%nat ->
  u32 (Z.of_nat pos * 2) = Z.of_nat (2 * pos) /\ u32 (Z.of_nat pos * 2 + 1) = Z.of_nat (2 * pos + 1).
Proof.
  intros Hn Hb Hp. pose proof (nodes_bound _ _ _ Hn Hp). rewrite !u32_small by lia. lia.
Qed.

(** ** Blocks of leaves *)

Lemma block_halves l k i :
  take (2 ^ k) (Merkle.block l (S k) i) = Merkle.block l k (2 * i) /\
  drop (2 ^ k) (Merkle.block l (S k) i) = Merkle.block l k (2 * i + 1).
Proof.
  unfold Merkle.block. rewrite pow2_S. split.
  - rewrite take_take, Nat.min_l by lia. f_equal. f_equal. lia.
  - rewrite skipn_firstn_comm, drop_drop. f_equal; [lia|]. f_equal. lia.
Qed.

Lemma block_short l k i :
  (0 < length l)%nat -> (length (Merkle.block l (S k) i) <=? 2 ^ k)%nat = (nodes (length l) k <=? 2 * i + 1)%nat.
Proof.
  intros Hl. unfold Merkle.block. rewrite length_take, length_drop, pow2_S. pose proof (pow2_pos k).
  pose proof (nodes_le (length l) k (2 * i + 1) Hl).
  destruct (Nat.leb_spec (nodes (length l) k) (2 * i + 1)); [apply Nat.leb_le|apply Nat.leb_gt]; nia.
Qed.

Lemma block_root f l k i :
  (0 < length l)%nat ->
  tree_root f (S k) (Merkle.block l (S k) i) =
  if (nodes (length l) k <=? 2 * i + 1)%nat
  then f (tree_root f k (Merkle.block l k (2 * i))) (tree_root f k (Merkle.block l k (2 * i)))
  else f (tree_root f k (Merkle.block l k (2 * i))) (tree_root f k (Merkle.block l k (2 * i + 1))).
Proof.
  intros Hl. cbn [tree_root]. rewrite block_short by done. destruct (block_halves l k i) as [<- <-].
  rewrite <- block_short by done. destruct (Nat.leb_spec (length (Merkle.block l (S k) i)) (2 ^ k)) as [H|H]; [|done].
  by rewrite (take_ge _ (2 ^ k)).
Qed.

Lemma block_pairs f l k i P :
  (0 < length l)%nat -> tree_pairs f (S k) (Merkle.block l (S k) i) ⊆ P ->
  tree_pairs f k (Merkle.block l k (2 * i)) ⊆ P /\
  if (nodes (length l) k <=? 2 * i + 1)%nat
  then (tree_root f k (Merkle.block l k (2 * i)), tree_root f k (Merkle.block l k (2 * i))) ∈ P
  else (tree_root f k (Merkle.block l k (2 * i)), tree_root f k (Merkle.block l k (2 * i + 1))) ∈ P /\
       tree_pairs f k (Merkle.block l k (2 * i + 1)) ⊆ P.
Proof.
  intros Hl H. apply tree_pairs_S in H. destruct (block_halves l k i) as [E1 E2]. rewrite E1, E2 in H.
  rewrite <- block_short by done. destruct (Nat.leb_spec (length (Merkle.block l (S k) i)) (2 ^ k)) as [Hs|Hs].
  - rewrite (take_ge _ (2 ^ k)) in E1 by done. rewrite E1 in H. tauto.
  - tauto.
Qed.

Lemma block_all l : (0 < length l)%nat -> Merkle.block l (Nat.log2_up (length l)) 0 = l.
Proof.
  intros Hl. unfold Merkle.block. rewrite Nat.mul_0_l, drop_0. apply take_ge.
  apply Nat.log2_up_le_pow2; lia.
Qed.

Lemma length_block_pos l k i :
  (0 < length l)%nat -> (i < nodes (length l) k)%nat -> (0 < length (Merkle.block l k i) <= 2 ^ k)%nat.
Proof.
  intros Hl Hi. apply nodes_lt in Hi; [|done]. unfold Merkle.block. rewrite length_take, length_drop.
  pose proof (pow2_pos k). lia.
Qed.

(** A leaf *)
Lemma block_leaf (l : list uint256) i : (i < length l)%nat -> Merkle.block l 0 i = [l !!! i].
Proof.
  intros Hi. destruct (lookup_lt_is_Some_2 l i Hi) as [x Hx]. unfold Merkle.block. cbn [Nat.pow].
  rewrite Nat.mul_1_r. rewrite (drop_S _ _ _ Hx). cbn. by rewrite (list_lookup_total_correct _ _ _ Hx).
Qed.

(** ** Hashes *)

Section proofs.
Context (mem : list Z) (Hmem : length mem = 64%nat).

Lemma Hash2_ok a b : valid_hash a -> valid_hash b -> Hash2 mem a b = Some (sha_pair a b).
Proof. intros Ha Hb. by apply (sha_pair_ok mem a b). Qed.

Lemma sha_pair_valid a b : valid_hash (sha_pair a b).
Proof. split; [apply length_sha256|apply sha256_bytes]. Qed.

Lemma uint256_zero_valid : valid_hash uint256_zero.
Proof. split; [done|]. by apply Forall_replicate. Qed.

Lemma pt_root_valid t : Forall valid_hash (pt_hashes t) -> valid_hash (pt_root sha_pair t).
Proof. destruct t; cbn [pt_root pt_hashes]; intros H; [by apply Forall_inv in H|apply sha_pair_valid..]. Qed.

(** ** Reading a partial tree *)

(** The state after [t] has been read *)
Definition after (t : ptree) (pos : nat) (st : extract_state) : extract_state :=
  ExtractState (x_nBitsUsed st + Z.of_nat (length (pt_bits t))) (x_nHashUsed st + Z.of_nat (length (pt_hashes t)))
    (x_vMatch st ++ map snd (pt_matches pos t)) (x_vnIndex st ++ map (fun e => Z.of_nat e.1) (pt_matches pos t)) (x_fBad st).

Lemma after_leaf b h pos st :
  x_nBitsUsed st + 1 < 2 ^ 32 -> x_nHashUsed st + 1 < 2 ^ 32 -> 0 <= x_nBitsUsed st -> 0 <= x_nHashUsed st ->
  (if b : bool then push_match h (Z.of_nat pos) (use_hash (use_bit st)) else use_hash (use_bit st)) = after (PHash b h) pos st.
Proof.
  intros. unfold after, use_hash, use_bit, push_match. destruct st as [nb nh vm vi bad]. cbn in *.
  rewrite !u32_small by lia. destruct b; cbn; by rewrite ?app_nil_r.
Qed.

Context (n : nat) (Hn : (0 < n)%nat) (Hn30 : Z.of_nat n <= 2 ^ 30).
Context (bits : list bool) (hashes : list uint256).
Context (Hbits : Z.of_nat (length bits) < 2 ^ 32) (Hhashes : Z.of_nat (length hashes) < 2 ^ 32).

(** The state where [b1] and [h1] have been read *)
Definition at_position (b1 : list bool) (h1 : list uint256) (st : extract_state) : Prop :=
  x_nBitsUsed st = Z.of_nat (length b1) /\ x_nHashUsed st = Z.of_nat (length h1).

Lemma after_position b1 h1 t pos st :
  at_position b1 h1 st -> at_position (b1 ++ pt_bits t) (h1 ++ pt_hashes t) (after t pos st).
Proof. intros [E1 E2]. split; cbn; rewrite ?E1, ?E2, length_app; lia. Qed.

(** The first bit is read. *)

Lemma read_bit b1 b b2 st :
  bits = b1 ++ b :: b2 -> x_nBitsUsed st = Z.of_nat (length b1) ->
  (x_nBitsUsed st >=? Z.of_nat (length bits)) = false /\ bits !! Z.to_nat (x_nBitsUsed st) = Some b /\
  u32 (x_nBitsUsed st + 1) = x_nBitsUsed st + 1.
Proof.
  intros E ->. assert (length bits = length b1 + S (length b2))%nat as L by (by rewrite E, length_app).
  rewrite u32_small by lia. split_and!; [rewrite Z.geb_leb; apply Z.leb_gt; lia| |done].
  by rewrite E, Nat2Z.id, list_lookup_middle.
Qed.

Lemma read_hash h1 h h2 st :
  hashes = h1 ++ h :: h2 -> x_nHashUsed st = Z.of_nat (length h1) ->
  (x_nHashUsed st >=? Z.of_nat (length hashes)) = false /\ hashes !! Z.to_nat (x_nHashUsed st) = Some h /\
  u32 (x_nHashUsed st + 1) = x_nHashUsed st + 1.
Proof.
  intros E ->. assert (length hashes = length h1 + S (length h2))%nat as L by (by rewrite E, length_app).
  rewrite u32_small by lia. split_and!; [rewrite Z.geb_leb; apply Z.leb_gt; lia| |done].
  by rewrite E, Nat2Z.id, list_lookup_middle.
Qed.

#[local] Abbreviation extract := (TraverseAndExtract mem (Z.of_nat n) bits hashes).

(** A stored hash *)
Lemma extract_leaf k pos b h b1 b2 h1 h2 st :
  (b = true -> k = 0%nat) -> bits = b1 ++ b :: b2 -> hashes = h1 ++ h :: h2 -> at_position b1 h1 st ->
  extract k (Z.of_nat pos) st = Some (h, after (PHash b h) pos st).
Proof.
  intros Hb Eb Eh [P1 P2]. destruct (read_bit _ _ _ st Eb P1) as (G1&G2&G3).
  destruct (read_hash _ _ _ st Eh P2) as (G4&G5&G6).
  assert (forall st', st' = (if b then push_match h (Z.of_nat pos) (use_hash (use_bit st)) else use_hash (use_bit st)) ->
    st' = after (PHash b h) pos st) as Ha.
  { intros st' ->. unfold after, use_hash, use_bit, push_match. cbn. rewrite G3, G6. by destruct b; cbn; rewrite ?app_nil_r. }
  destruct k as [|k]; cbn [TraverseAndExtract]; rewrite G1, G2; cbn [mbind option_bind].
  - cbn [use_bit x_nHashUsed]. rewrite G4, G5. cbn [mbind option_bind andb]. f_equal. f_equal. by apply Ha.
  - destruct b; [discriminate (Hb eq_refl)|]. cbn [negb use_bit x_nHashUsed]. rewrite G4, G5. cbn [mbind option_bind andb].
    f_equal. f_equal. by apply Ha.
Qed.

(** Descending *)
Lemma extract_inner k pos b1 b2 st :
  bits = b1 ++ true :: b2 -> x_nBitsUsed st = Z.of_nat (length b1) ->
  (k < 31)%nat -> (pos < nodes n (S k))%nat ->
  extract (S k) (Z.of_nat pos) st =
  '(hl, st) ← extract k (Z.of_nat (2 * pos)) (use_bit st);
  '(hr, st) ←
    (if (2 * pos + 1 <? nodes n k)%nat then
       '(hr, st) ← extract k (Z.of_nat (2 * pos + 1)) st;
       Some (hr, if bool_decide (hr = hl) then set_bad st else st)
     else Some (hl, st));
  hash ← Hash2 mem hl hr;
  Some (hash, st).
Proof.
  intros Eb P1 Hk Hp. destruct (read_bit _ _ _ st Eb P1) as (G1&G2&_). cbn [TraverseAndExtract].
  rewrite G1, G2. cbn [mbind option_bind negb]. destruct (double_pos n k pos) as [-> ->]; [done..|].
  rewrite CalcTreeWidth_ok by done. destruct (extract k _ _) as [[hl st']|]; [|done]. cbn [mbind option_bind].
  assert ((Z.of_nat (2 * pos + 1) <? Z.of_nat (nodes n k)) = (2 * pos + 1 <? nodes n k)%nat) as ->; [|done].
  destruct (Nat.ltb_spec (2 * pos + 1) (nodes n k)); [apply Z.ltb_lt|apply Z.ltb_ge]; lia.
Qed.

Lemma use_bit_position b1 b b2 h1 st :
  bits = b1 ++ b :: b2 -> at_position b1 h1 st -> at_position (b1 ++ [b]) h1 (use_bit st).
Proof.
  intros E [P1 P2]. destruct (read_bit _ _ _ st E P1) as (_&_&G). split; [|done]. cbn. rewrite G, length_app. cbn. lia.
Qed.

Lemma after_single b1 b2 t pos st :
  bits = b1 ++ true :: b2 -> x_nBitsUsed st = Z.of_nat (length b1) ->
  after t (2 * pos) (use_bit st) = after (PSingle t) pos st.
Proof.
  intros E P. destruct (read_bit _ _ _ st E P) as (_&_&G). unfold after. cbn. rewrite G. f_equal. lia.
Qed.

Lemma after_node b1 b2 t1 t2 pos st :
  bits = b1 ++ true :: b2 -> x_nBitsUsed st = Z.of_nat (length b1) ->
  after t2 (2 * pos + 1) (after t1 (2 * pos) (use_bit st)) = after (PNode t1 t2) pos st.
Proof.
  intros E P. destruct (read_bit _ _ _ st E P) as (_&_&G). unfold after.
  cbn [x_nBitsUsed x_nHashUsed x_vMatch x_vnIndex x_fBad use_bit pt_bits pt_hashes pt_matches length].
  rewrite G, !map_app, !length_app, <- !app_assoc. f_equal; lia.
Qed.

(** A tree that has been written is read back. *)
Lemma extract_read t : forall k pos st b1 b2 h1 h2,
  pt_shape sha_pair n k pos t -> (pos < nodes n k)%nat -> (k <= 31)%nat -> Forall valid_hash (pt_hashes t) ->
  bits = b1 ++ pt_bits t ++ b2 -> hashes = h1 ++ pt_hashes t ++ h2 -> at_position b1 h1 st ->
  extract k (Z.of_nat pos) st = Some (pt_root sha_pair t, after t pos st).
Proof.
  induction t as [b h|t IH|t1 IH1 t2 IH2]; intros k pos st b1 b2 h1 h2 Hs Hp Hk Hv Eb Eh HP.
  { cbn [pt_shape pt_bits pt_hashes app pt_root] in *. exact (extract_leaf _ _ _ _ b1 b2 h1 h2 st Hs Eb Eh HP). }
  all: destruct k as [|k]; [done|]; cbn [pt_shape pt_hashes pt_bits pt_root app] in *.
  all: rewrite (extract_inner k pos b1 _ st Eb) by (done || lia || apply HP).
  - destruct Hs as [Hw Hs]. erewrite (IH k (2 * pos)%nat (use_bit st) (b1 ++ [true]) b2 h1 h2);
      [|done|by apply nodes_left|lia|done|by rewrite Eb, <- app_assoc|done|by eapply use_bit_position].
    cbn [mbind option_bind]. destruct (Nat.ltb_spec (2 * pos + 1) (nodes n k)); [lia|]. cbn [mbind option_bind].
    rewrite Hash2_ok by by apply pt_root_valid. cbn [mbind option_bind]. by rewrite (after_single b1 _ t pos st Eb (proj1 HP)).
  - destruct Hs as (Hw&Hne&Hs1&Hs2). apply Forall_app in Hv as [Hv1 Hv2].
    rewrite <- app_assoc in Eb, Eh.
    assert (at_position (b1 ++ [true]) h1 (use_bit st)) as HP1 by by eapply use_bit_position.
    erewrite (IH1 k (2 * pos)%nat (use_bit st) (b1 ++ [true]) (pt_bits t2 ++ b2) h1 (pt_hashes t2 ++ h2));
      [|done|by apply nodes_left|lia|done|by rewrite Eb, <- app_assoc|done|done].
    cbn [mbind option_bind]. destruct (Nat.ltb_spec (2 * pos + 1) (nodes n k)); [|lia].
    erewrite (IH2 k (2 * pos + 1)%nat _ ((b1 ++ [true]) ++ pt_bits t1) b2 (h1 ++ pt_hashes t1) h2);
      [|done|done|lia|done|by rewrite Eb, <- !app_assoc|by rewrite Eh, <- !app_assoc|by apply after_position].
    cbn [mbind option_bind]. rewrite bool_decide_eq_false_2 by done.
    rewrite Hash2_ok by by apply pt_root_valid. cbn [mbind option_bind].
    by rewrite (after_node b1 _ t1 t2 pos st Eb (proj1 HP)).
Qed.

(** ** What is accepted is a partial tree *)

Context (Hvalid : Forall valid_hash hashes).

(** A position in the vectors *)
Definition in_vectors (st : extract_state) : Prop :=
  exists b1 b2 h1 h2, bits = b1 ++ b2 /\ hashes = h1 ++ h2 /\ at_position b1 h1 st.

(** [t] is what is read next. *)
Definition reads (k pos : nat) (st : extract_state) (h : uint256) (st' : extract_state) (t : ptree) : Prop :=
  pt_shape sha_pair n k pos t /\ h = pt_root sha_pair t /\ st' = after t pos st /\
  exists b1 b2 h1 h2, bits = b1 ++ pt_bits t ++ b2 /\ hashes = h1 ++ pt_hashes t ++ h2 /\ at_position b1 h1 st.

Lemma set_bad_vectors st : in_vectors st -> in_vectors (set_bad st).
Proof. by intros (b1&b2&h1&h2&?&?&?&?); exists b1, b2, h1, h2. Qed.

Lemma use_bit_vectors b1 b b2 h1 h2 st :
  bits = b1 ++ b :: b2 -> hashes = h1 ++ h2 -> at_position b1 h1 st -> in_vectors (use_bit st).
Proof.
  intros Eb Eh HP. exists (b1 ++ [b]), b2, h1, h2. split_and!; [by rewrite <- app_assoc|done|by eapply use_bit_position].
Qed.

Lemma reads_vectors k pos st h st' t : reads k pos st h st' t -> in_vectors st'.
Proof.
  intros (_&_&->&b1&b2&h1&h2&Eb&Eh&HP). exists (b1 ++ pt_bits t), b2, (h1 ++ pt_hashes t), h2.
  split_and!; [by rewrite <- app_assoc|by rewrite <- app_assoc|by apply after_position].
Qed.

Lemma position_unique b1 b2 b1' b2' h1 h2 h1' h2' st :
  bits = b1 ++ b2 -> bits = b1' ++ b2' -> hashes = h1 ++ h2 -> hashes = h1' ++ h2' ->
  at_position b1 h1 st -> at_position b1' h1' st -> b1 = b1' /\ b2 = b2' /\ h1 = h1' /\ h2 = h2'.
Proof.
  intros E1 E2 E3 E4 [P1 P2] [P3 P4]. rewrite E1 in E2. rewrite E3 in E4.
  apply app_inj_1 in E2 as [-> ->]; [|lia]. apply app_inj_1 in E4 as [-> ->]; [done|lia].
Qed.

(** Two readings in a row *)
Lemma reads_node k pos st hl st1 hr st2 t1 t2 b1 b2 h1 h2 :
  bits = b1 ++ true :: b2 -> hashes = h1 ++ h2 -> at_position b1 h1 st ->
  (2 * pos + 1 < nodes n k)%nat -> hr <> hl ->
  reads k (2 * pos) (use_bit st) hl st1 t1 -> reads k (2 * pos + 1) st1 hr st2 t2 ->
  reads (S k) pos st (sha_pair hl hr) st2 (PNode t1 t2).
Proof.
  intros Eb Eh HP Hw Hne (S1&->&->&c1&c2&d1&d2&Ec&Ed&Q1) (S2&->&->&e1&e2&f1&f2&Ee&Ef&Q2).
  pose proof (use_bit_position _ _ _ _ _ Eb HP) as HP1.
  destruct (position_unique (b1 ++ [true]) b2 c1 (pt_bits t1 ++ c2) h1 h2 d1 (pt_hashes t1 ++ d2) (use_bit st))
    as (<-&->&<-&->); [by rewrite <- app_assoc|done..|].
  pose proof (after_position _ _ t1 (2 * pos) _ Q1) as Q3.
  destruct (position_unique ((b1 ++ [true]) ++ pt_bits t1) c2 e1 (pt_bits t2 ++ e2) (h1 ++ pt_hashes t1) d2 f1 (pt_hashes t2 ++ f2)
    (after t1 (2 * pos) (use_bit st))) as (<-&->&<-&->); [by rewrite <- app_assoc|done|by rewrite <- app_assoc|done..|].
  split_and!; [cbn [pt_shape]; done|done|apply (after_node b1 (pt_bits t1 ++ pt_bits t2 ++ e2)); [done|apply HP]|].
  exists b1, e2, h1, f2. cbn [pt_bits pt_hashes app]. by rewrite <- !app_assoc.
Qed.

Lemma reads_single k pos st hl st1 t1 b1 b2 h1 h2 :
  bits = b1 ++ true :: b2 -> hashes = h1 ++ h2 -> at_position b1 h1 st -> (nodes n k <= 2 * pos + 1)%nat ->
  reads k (2 * pos) (use_bit st) hl st1 t1 -> reads (S k) pos st (sha_pair hl hl) st1 (PSingle t1).
Proof.
  intros Eb Eh HP Hw (S1&->&->&c1&c2&d1&d2&Ec&Ed&Q1).
  pose proof (use_bit_position _ _ _ _ _ Eb HP) as HP1.
  destruct (position_unique (b1 ++ [true]) b2 c1 (pt_bits t1 ++ c2) h1 h2 d1 (pt_hashes t1 ++ d2) (use_bit st))
    as (<-&->&<-&->); [by rewrite <- app_assoc|done..|].
  split_and!; [cbn [pt_shape]; done|done|apply (after_single b1 (pt_bits t1 ++ c2)); [done|apply HP]|].
  by exists b1, c2, h1, d2.
Qed.

(** The outcome of a traversal *)
Definition outcome_ok (k pos : nat) (st : extract_state) (r : option (uint256 * extract_state)) : Prop :=
  exists h st', r = Some (h, st') /\ valid_hash h /\ in_vectors st' /\
    (x_fBad st' = false -> exists t, reads k pos st h st' t).

Lemma outcome_bad k pos st st' :
  in_vectors st' -> outcome_ok k pos st (Some (uint256_zero, set_bad st')).
Proof.
  intros H. exists uint256_zero, (set_bad st'). split_and!; [done|apply uint256_zero_valid|by apply set_bad_vectors|done].
Qed.

Lemma stored_total k pos b b1 b2 h1 h2 st :
  (b = true -> k = 0%nat) -> bits = b1 ++ b :: b2 -> hashes = h1 ++ h2 -> at_position b1 h1 st ->
  outcome_ok k pos st (extract k (Z.of_nat pos) st).
Proof.
  intros Hb Eb Eh HP. destruct h2 as [|h h2].
  - assert (x_nHashUsed (use_bit st) >=? Z.of_nat (length hashes) = true) as G.
    { cbn. rewrite Z.geb_leb. apply Z.leb_le. destruct HP as [_ ->]. rewrite Eh, app_nil_r. lia. }
    pose proof (outcome_bad k pos st _ (use_bit_vectors _ _ _ _ _ _ Eb Eh HP)) as Ho.
    destruct (read_bit _ _ _ st Eb (proj1 HP)) as (G1&G2&_).
    destruct k as [|k]; cbn [TraverseAndExtract]; rewrite G1, G2; cbn [mbind option_bind].
    + by rewrite G.
    + destruct b; [discriminate (Hb eq_refl)|]. cbn [negb]. by rewrite G.
  - rewrite (extract_leaf k pos b h b1 b2 h1 h2 st Hb Eb Eh HP).
    assert (reads k pos st h (after (PHash b h) pos st) (PHash b h)) as Hr.
    { split_and!; [done..|]. by exists b1, b2, h1, h2. }
    exists h, (after (PHash b h) pos st). split_and!; [done| |by eapply reads_vectors|by eauto].
    rewrite Eh in Hvalid. apply Forall_app in Hvalid as [_ Hv]. by apply Forall_inv in Hv.
Qed.

(** The traversal ends inside the vectors, and unless it sets the flag it has read a partial tree. *)
Lemma extract_total k : forall pos st,
  (pos < nodes n k)%nat -> (k <= 31)%nat -> in_vectors st -> outcome_ok k pos st (extract k (Z.of_nat pos) st).
Proof.
  induction k as [|k IH]; intros pos st Hp Hk (b1&b2&h1&h2&Eb&Eh&HP); destruct b2 as [|b b2].
  1, 3: cbn [TraverseAndExtract]; destruct (Z.geb_spec (x_nBitsUsed st) (Z.of_nat (length bits))) as [_|Hl];
    [apply outcome_bad; by exists b1, [], h1, h2|destruct HP; rewrite Eb, app_nil_r in Hl; lia].
  { by apply (stored_total _ _ b b1 b2 h1 h2). }
  destruct b; [|by apply (stored_total _ _ false b1 b2 h1 h2)].
  rewrite (extract_inner k pos b1 b2 st Eb (proj1 HP)) by (done || lia).
  pose proof (use_bit_vectors _ _ _ _ _ _ Eb Eh HP) as V0.
  destruct (IH (2 * pos)%nat (use_bit st)) as (hl&st1&->&Vl&V1&R1); [by apply nodes_left|lia|done|]. cbn [mbind option_bind].
  destruct (Nat.ltb_spec (2 * pos + 1) (nodes n k)) as [Hw|Hw].
  - destruct (IH (2 * pos + 1)%nat st1) as (hr&st2&->&Vr&V2&R2); [done|lia|done|]. cbn [mbind option_bind].
    rewrite Hash2_ok by done. cbn [mbind option_bind].
    exists (sha_pair hl hr). eexists. split_and!; [done|apply sha_pair_valid| |].
    + by case_bool_decide; [apply set_bad_vectors|].
    + case_bool_decide as Hne; [done|]. intros Hbad. destruct (R2 Hbad) as [t2 Ht2].
      destruct R1 as [t1 Ht1]; [by destruct Ht2 as (_&_&->&_)|]. exists (PNode t1 t2). by eapply reads_node.
  - cbn [mbind option_bind]. rewrite Hash2_ok by done. cbn [mbind option_bind].
    exists (sha_pair hl hl), st1. split_and!; [done|apply sha_pair_valid|done|].
    intros Hbad. destruct (R1 Hbad) as [t1 Ht1]. exists (PSingle t1). by eapply reads_single.
Qed.
End proofs.

(** ** Matches are leaves of the real tree *)

(** The positions of the matches of a tree increase, within the leaves below it. *)
Lemma pt_matches_sorted n t : forall k pos,
  pt_shape sha_pair n k pos t ->
  StronglySorted lt (map fst (pt_matches pos t)) /\
  Forall (fun e => pos * 2 ^ k <= e.1 < (pos + 1) * 2 ^ k)%nat (pt_matches pos t).
Proof.
  induction t as [b h|t IH|t1 IH1 t2 IH2]; intros k pos Hs; cbn [pt_matches pt_shape] in *.
  - destruct b; [rewrite (Hs eq_refl)|]; cbn; [|by repeat constructor].
    split; [by repeat constructor|]. constructor; [cbn; lia|constructor].
  - destruct k as [|k]; [done|]. destruct Hs as [_ Hs]. destruct (IH _ _ Hs) as [? Hf]. split; [done|].
    eapply Forall_impl; [exact Hf|]. cbn beta. intros e. rewrite pow2_S. lia.
  - destruct k as [|k]; [done|]. destruct Hs as (_&_&S1&S2).
    destruct (IH1 _ _ S1) as [O1 F1]. destruct (IH2 _ _ S2) as [O2 F2]. split.
    + rewrite map_app. apply StronglySorted_app_2; [|done..].
      intros x y (e1&->&H1)%list_elem_of_fmap (e2&->&H2)%list_elem_of_fmap.
      rewrite Forall_forall in F1, F2. specialize (F1 _ H1). specialize (F2 _ H2). lia.
    + apply Forall_app. split; (eapply Forall_impl; [eassumption|]; cbn beta; intros e; rewrite pow2_S; lia).
Qed.

(** If the root of a partial tree is that of the node of the real tree, its matches are leaves of
    the real tree at the positions that are claimed. *)
Lemma pt_sound f P n l t : (0 < length l)%nat -> forall k pos,
  pt_shape f n k pos t -> (pos < nodes (length l) k)%nat ->
  pt_root f t = tree_root f k (Merkle.block l k pos) ->
  pt_pairs f t ⊆ P -> tree_pairs f k (Merkle.block l k pos) ⊆ P ->
  collision f P \/ Forall (fun e => l !! e.1 = Some e.2) (pt_matches pos t).
Proof.
  intros Hl. induction t as [b h|t IH|t1 IH1 t2 IH2]; intros k pos Hs Hp E HP HQ;
    cbn [pt_matches pt_shape pt_root pt_pairs] in *.
  - right. destruct b; [|constructor]. rewrite (Hs eq_refl) in E, Hp. pose proof (nodes_bound _ _ _ Hl Hp) as Hb.
    rewrite block_leaf in E by done. cbn in E. constructor; [|constructor]. cbn [fst snd]. rewrite E. by apply list_lookup_lookup_total_lt.
  - destruct k as [|k]; [done|]. destruct Hs as [Hw Hs]. rewrite block_root in E by done.
    apply block_pairs in HQ as [HQ HQ2]; [|done]. pose proof (nodes_left _ _ _ Hl Hp) as Hp1.
    assert (pt_root f t = tree_root f k (Merkle.block l k (2 * pos)) \/ collision f P) as Hr.
    { destruct (_ <=? _)%nat; [|destruct HQ2 as [HQ2 _]]; (eapply pair_injective in E as [[? _]|?]; [by left|by right| |exact HQ2]; set_solver). }
    destruct Hr as [E1|?]; [|by left]. apply (IH k (2 * pos)%nat); try done. set_solver.
  - destruct k as [|k]; [done|]. destruct Hs as (Hw&Hne&Hs1&Hs2). rewrite block_root in E by done.
    apply block_pairs in HQ as [HQ HQ2]; [|done]. pose proof (nodes_left _ _ _ Hl Hp) as Hp1.
    destruct (Nat.leb_spec (nodes (length l) k) (2 * pos + 1)) as [Hr|Hr].
    + left. eapply pair_injective in E as [[? ?]|?]; [congruence|done| |exact HQ2]. set_solver.
    + destruct HQ2 as [HQ2 HQ3]. eapply pair_injective in E as [[E1 E2]|?]; [|by left|set_solver|exact HQ2].
      destruct (IH1 k (2 * pos)%nat) as [?|F1]; try done; [set_solver|by left|].
      destruct (IH2 k (2 * pos + 1)%nat) as [?|F2]; try done; [set_solver|by left|].
      right. by apply Forall_app.
Qed.

(** ** The bits on the wire *)

Lemma length_unpack_bits v : length (unpack_bits v) = (length v * 8)%nat.
Proof. unfold unpack_bits. by rewrite length_map, length_seq. Qed.

Lemma lookup_unpack_bits v p :
  Forall byte v -> (p < length v * 8)%nat ->
  unpack_bits v !! p = Some (Z.testbit (v !!! (p / 8)%nat) (Z.of_nat (p mod 8))).
Proof.
  intros Hv Hp. unfold unpack_bits. rewrite list_lookup_fmap, lookup_seq_lt by done. cbn [fmap option_fmap option_map]. f_equal.
  cbn [plus]. rewrite Nat2Z.inj_mod. change (Z.of_nat 8) with 8. set (x := v !!! (p / 8)%nat).
  pose proof (Z.mod_pos_bound (Z.of_nat p) 8 ltac:(lia)). set (i := Z.of_nat p mod 8) in *.
  rewrite Z.shiftl_mul_pow2, Z.mul_1_l by lia. destruct (Z.testbit x i) eqn:E.
  - apply negb_true_iff, Z.eqb_neq. intros H0. apply (f_equal (fun z => Z.testbit z i)) in H0.
    by rewrite Z.land_spec, E, Z.pow2_bits_true, Z.bits_0 in H0 by lia.
  - apply negb_false_iff, Z.eqb_eq. apply Z.bits_inj'. intros j Hj. rewrite Z.land_spec, Z.bits_0.
    destruct (decide (i = j)) as [<-|Hne]; [by rewrite E|]. by rewrite Z.pow2_bits_false, andb_false_r.
Qed.

Lemma b2z_shift_testbit b i j :
  0 <= i -> 0 <= j -> Z.testbit (Z.b2z b << i) j = b && (j =? i).
Proof.
  intros Hi Hj. rewrite Z.shiftl_spec by done. destruct b; cbn [Z.b2z].
  - destruct (Z.eqb_spec j i) as [->|Hne]; [by rewrite Z.sub_diag|]. destruct (decide (j < i)).
    + by rewrite Z.testbit_neg_r by lia.
    + by rewrite Z.bits_above_log2 by (cbn; lia).
  - by rewrite Z.bits_0.
Qed.

(** Bit [j] of byte [i] is the flag at [8 i + j]. *)
Definition packed (bits : list bool) (v : list Z) : Prop :=
  Forall byte v /\
  forall i j, (i < length v)%nat -> (j < 8)%nat -> Z.testbit (v !!! i) (Z.of_nat j) = default false (bits !! (8 * i + j)%nat).

Lemma or_bit_packed bits b v :
  (length bits < 8 * length v)%nat -> packed bits v ->
  length (or_bit v (length bits, b)) = length v /\ packed (bits ++ [b]) (or_bit v (length bits, b)).
Proof.
  intros Hl [Hv Hp]. unfold or_bit. cbn [fst snd]. remember (length bits) as p eqn:Lp.
  pose proof (Nat.div_mod_eq p 8) as Ep. pose proof (Nat.mod_upper_bound p 8 ltac:(lia)) as Hm.
  assert (p / 8 < length v)%nat as Hi by lia. split; [by rewrite length_alter|].
  assert (Z.of_nat p mod 8 = Z.of_nat (p mod 8)) as -> by (by rewrite Nat2Z.inj_mod).
  split.
  - apply Forall_alter; [done|]. intros x Hx Hb. apply word_lor; [lia|done|].
    apply word_of_testbit; [lia|destruct b; apply Z.shiftl_nonneg; cbn; lia|]. intros i Hi'.
    rewrite b2z_shift_testbit by lia. destruct (Z.eqb_spec i (Z.of_nat (p mod 8))); [lia|apply andb_false_r].
  - rewrite length_alter. intros i j Hi' Hj.
    destruct (decide (i = p / 8)%nat) as [->|Hne].
    + rewrite list_lookup_total_alter_eq by done.
      rewrite Z.lor_spec, Hp, b2z_shift_testbit by (done || lia).
      destruct (Z.eqb_spec (Z.of_nat j) (Z.of_nat (p mod 8))) as [E|E].
      * assert (8 * (p / 8) + j = p)%nat as -> by lia. rewrite lookup_ge_None_2 by lia.
        rewrite lookup_app_r, <- Lp, Nat.sub_diag by lia. by destruct b.
      * rewrite andb_false_r, orb_false_r. destruct (decide (8 * (p / 8) + j < p)%nat) as [Hlt|Hge].
        -- by rewrite lookup_app_l by lia.
        -- rewrite !lookup_ge_None_2; [done|rewrite ?length_app; cbn [length]; lia..].
    + rewrite list_lookup_total_alter_ne, Hp by done. f_equal.
      destruct (decide (8 * i + j < p)%nat) as [Hlt|Hge]; [by rewrite lookup_app_l by lia|].
      rewrite !lookup_ge_None_2; [done|rewrite ?length_app; cbn [length]; lia..].
Qed.

Lemma pack_bits_packed bits : length (pack_bits bits) = ((length bits + 7) / 8)%nat /\ packed bits (pack_bits bits).
Proof.
  unfold pack_bits. assert (length bits <= 8 * ((length bits + 7) / 8))%nat as Hl.
  { pose proof (Nat.div_mod_eq (length bits + 7) 8). pose proof (Nat.mod_upper_bound (length bits + 7) 8 ltac:(lia)). lia. }
  revert Hl. generalize ((length bits + 7) / 8)%nat as N. intros N.
  induction bits as [|b bits IH] using rev_ind; intros Hl.
  - cbn [imap foldl]. rewrite length_replicate. split; [done|]. split; [by apply Forall_replicate|].
    intros i j Hi Hj. rewrite length_replicate in Hi. rewrite lookup_total_replicate_2 by done. by rewrite Z.bits_0.
  - rewrite length_app in Hl. cbn [length] in Hl. destruct IH as [L P]; [lia|]. rewrite imap_app, foldl_app. cbn [imap foldl].
    unfold compose. rewrite Nat.add_0_r. destruct (or_bit_packed bits b _ ltac:(rewrite L; lia) P) as [-> ?]. by rewrite L.
Qed.

Lemma unpack_pack bits :
  unpack_bits (pack_bits bits) = bits ++ replicate (8 * ((length bits + 7) / 8) - length bits) false.
Proof.
  destruct (pack_bits_packed bits) as [L [HB HP]]. apply list_eq. intros p.
  assert (length bits <= 8 * ((length bits + 7) / 8))%nat as Hl.
  { pose proof (Nat.div_mod_eq (length bits + 7) 8). pose proof (Nat.mod_upper_bound (length bits + 7) 8 ltac:(lia)). lia. }
  destruct (decide (p < length (pack_bits bits) * 8)%nat) as [Hp|Hp].
  - rewrite lookup_unpack_bits by done. pose proof (Nat.div_mod_eq p 8). pose proof (Nat.mod_upper_bound p 8 ltac:(lia)).
    rewrite HP by lia. replace (8 * (p / 8) + p mod 8)%nat with p by lia.
    destruct (decide (p < length bits)%nat) as [Hlt|Hge].
    + rewrite lookup_app_l by done. by destruct (lookup_lt_is_Some_2 bits p Hlt) as [b ->].
    + rewrite (lookup_ge_None_2 bits) by lia. rewrite lookup_app_r, lookup_replicate_2 by lia. done.
  - rewrite !lookup_ge_None_2; [done| |rewrite length_unpack_bits; lia]. rewrite length_app, length_replicate. lia.
Qed.

(** ** [ExtractMatches] *)

(** [t] holds the partial tree [T] over [n] leaves: the bits up to the padding of the last byte, and
    the hashes. *)
Definition encodes (t : CPartialMerkleTree) (n : nat) (T : ptree) : Prop :=
  nTransactions t = Z.of_nat n /\ 0 < nTransactions t <= MAX_BLOCK_BASE_SIZE / 60 /\
  Z.of_nat (length (vHash t)) <= nTransactions t /\
  pt_shape sha_pair n (Nat.log2_up n) 0 T /\ vHash t = pt_hashes T /\
  exists pad, vBits t = pt_bits T ++ pad /\ ((length (pt_bits T) + 7) / 8 = (length (vBits t) + 7) / 8)%nat.

Definition match_hashes (T : ptree) : list uint256 := map snd (pt_matches 0 T).
Definition match_positions (T : ptree) : list Z := map (fun e => Z.of_nat e.1) (pt_matches 0 T).

(** A tree as it can be read from a stream *)
Definition received (t : CPartialMerkleTree) : Prop :=
  word 32 (nTransactions t) /\ Forall valid_hash (vHash t) /\ Z.of_nat (length (vBits t)) <= 8 * MAX_SIZE.

Lemma pt_hashes_bits T : (length (pt_hashes T) <= length (pt_bits T))%nat.
Proof. induction T; cbn [pt_hashes pt_bits length]; rewrite ?length_app; lia. Qed.

Lemma bytes_needed a b : (Z.of_nat a + 7) / 8 = (Z.of_nat b + 7) / 8 <-> ((a + 7) / 8 = (b + 7) / 8)%nat.
Proof.
  assert (forall c, (Z.of_nat c + 7) / 8 = Z.of_nat ((c + 7) / 8)) as H.
  { intros c. rewrite Nat2Z.inj_div, Nat2Z.inj_add. done. }
  rewrite !H. lia.
Qed.

Lemma tree_limits z :
  0 < z <= MAX_BLOCK_BASE_SIZE / 60 ->
  exists n, z = Z.of_nat n /\ (0 < n)%nat /\ Z.of_nat n <= 2 ^ 30 /\ (Nat.log2_up n <= 31)%nat /\
    calc_height 32 z 0 = Some (Nat.log2_up n) /\ (0 < nodes n (Nat.log2_up n))%nat.
Proof.
  intros Hz. change (MAX_BLOCK_BASE_SIZE / 60) with 33333 in Hz. exists (Z.to_nat z).
  assert (Nat.log2_up (Z.to_nat z) <= 16)%nat.
  { apply Nat.log2_up_le_pow2; [lia|]. apply Nat2Z.inj_le. rewrite <- pow2_Z. cbn. lia. }
  split_and!; [lia..| |]; [rewrite <- (Z2Nat.id z) at 1 by lia; apply calc_height_ok; lia|].
  apply nodes_lt; lia.
Qed.

Lemma start_position t idx :
  in_vectors (vBits t) (vHash t) (ExtractState 0 0 [] idx (fBad t)) /\ at_position [] [] (ExtractState 0 0 [] idx (fBad t)).
Proof. split; [by exists [], (vBits t), [], (vHash t)|done]. Qed.

Section extract.
Context (mem : list Z) (Hmem : length mem = 64%nat).

Lemma ExtractMatches_total t idx :
  received t ->
  exists root vm vi t', ExtractMatches mem t idx = Some (root, vm, vi, t') /\
    (root = uint256_zero \/
     exists n T, encodes t n T /\ fBad t = false /\ root = pt_root sha_pair T /\ vm = match_hashes T /\
       vi = idx ++ match_positions T /\ t' = t).
Proof.
  intros (Hw&Hv&Hb). unfold ExtractMatches. destruct (Z.eqb_spec (nTransactions t) 0) as [|Hn0]; [by eauto 10|].
  rewrite !Z.gtb_ltb. destruct (Z.ltb_spec (MAX_BLOCK_BASE_SIZE / 60) (nTransactions t)) as [|Hmax]; [by eauto 10|].
  destruct (Z.ltb_spec (nTransactions t) (Z.of_nat (length (vHash t)))) as [|Hh]; [by eauto 10|].
  destruct (Z.ltb_spec (Z.of_nat (length (vBits t))) (Z.of_nat (length (vHash t)))) as [|Hbh]; [by eauto 10|].
  assert (0 < nTransactions t <= MAX_BLOCK_BASE_SIZE / 60) as Hlim by (destruct Hw; lia).
  destruct (tree_limits _ Hlim) as (n&En&Hn&Hn30&Hk&->&Hnodes). cbn [mbind option_bind].
  assert (Z.of_nat (length (vBits t)) < 2 ^ 32 /\ Z.of_nat (length (vHash t)) < 2 ^ 32) as [B1 B2] by (unfold MAX_SIZE in Hb; lia).
  destruct (start_position t idx) as [V0 P0].
  destruct (extract_total mem Hmem n Hn Hn30 (vBits t) (vHash t) B1 B2 Hv (Nat.log2_up n) 0 _ Hnodes Hk V0)
    as (h&st&E&_&_&Hr). change (Z.of_nat 0) with 0 in E. rewrite En, E. cbn [mbind option_bind].
  destruct (x_fBad st) eqn:Ebad; [by eauto 10|]. destruct (Hr eq_refl) as (T&HT&->&->&c1&c2&d1&d2&Ec&Ed&P1).
  cbn [after x_fBad x_nBitsUsed x_nHashUsed x_vMatch x_vnIndex vBits vHash] in Ebad |- *.
  destruct P0 as [Q1 Q2]. destruct P1 as [P1 P2]. rewrite Q1 in P1. rewrite Q2 in P2.
  destruct c1; [|done]. destruct d1; [|done]. cbn [app] in Ec, Ed.
  destruct (negb _) eqn:E1; [by eauto 10|]. destruct (negb (_ =? Z.of_nat (length (vHash t)))) eqn:E2; [by eauto 10|].
  apply negb_false_iff, Z.eqb_eq in E1, E2.
  do 4 eexists. split; [done|]. right. exists n, T. split_and!; [|done..|by destruct t; cbn in *; congruence].
  split_and!; [done|lia|lia|lia|done| |].
  - assert (length (vHash t) = length (pt_hashes T) + length d2)%nat as Ld by (rewrite Ed at 1; apply length_app).
    destruct d2; [by rewrite app_nil_r in Ed|cbn in Ld, E2; lia].
  - exists c2. split; [done|]. apply bytes_needed. rewrite <- E1. f_equal. rewrite u32_small; [lia|].
    assert (length (vBits t) = length (pt_bits T) + length c2)%nat as Lc by (rewrite Ec at 1; apply length_app).
    unfold MAX_SIZE in Hb. lia.
Qed.

Lemma ExtractMatches_complete t n T idx :
  received t -> encodes t n T -> fBad t = false ->
  ExtractMatches mem t idx = Some (pt_root sha_pair T, match_hashes T, idx ++ match_positions T, t).
Proof.
  intros (Hw&Hv&Hb) (En&Hlim&Hh&HT&Eh&pad&Eb&Epad) Hbad. unfold ExtractMatches.
  destruct (Z.eqb_spec (nTransactions t) 0); [lia|]. rewrite !Z.gtb_ltb.
  destruct (Z.ltb_spec (MAX_BLOCK_BASE_SIZE / 60) (nTransactions t)); [lia|].
  destruct (Z.ltb_spec (nTransactions t) (Z.of_nat (length (vHash t)))); [lia|].
  assert (length (vBits t) = length (pt_bits T) + length pad)%nat as Lb by (rewrite Eb at 1; apply length_app).
  pose proof (pt_hashes_bits T) as Hpt. rewrite <- Eh in Hpt.
  destruct (Z.ltb_spec (Z.of_nat (length (vBits t))) (Z.of_nat (length (vHash t)))); [lia|].
  destruct (tree_limits _ Hlim) as (n'&En'&Hn&Hn30&Hk&->&Hnodes). assert (n' = n) as -> by lia. cbn [mbind option_bind].
  assert (Z.of_nat (length (vBits t)) < 2 ^ 32 /\ Z.of_nat (length (vHash t)) < 2 ^ 32) as [B1 B2] by (unfold MAX_SIZE in Hb; lia).
  destruct (start_position t idx) as [_ P0]. rewrite En.
  pose proof (extract_read mem Hmem n Hn Hn30 (vBits t) (vHash t) B1 B2 T (Nat.log2_up n) 0 _ [] pad [] []
    HT Hnodes Hk ltac:(by rewrite <- Eh) Eb ltac:(by rewrite app_nil_r) P0) as E. change (Z.of_nat 0) with 0 in E. rewrite E.
  cbn [mbind option_bind after x_fBad x_nBitsUsed x_nHashUsed x_vMatch x_vnIndex vBits vHash]. rewrite Hbad.
  assert (u32 (0 + Z.of_nat (length (pt_bits T)) + 7) / 8 = (Z.of_nat (length (vBits t)) + 7) / 8) as ->.
  { rewrite u32_small by (unfold MAX_SIZE in Hb; lia). by apply bytes_needed. }
  rewrite Z.eqb_refl. rewrite Eh, Z.add_0_l, Z.eqb_refl. cbn [negb].
  do 2 f_equal. destruct t; cbn in *; congruence.
Qed.
End extract.

(** The format of a received tree *)
#[export] Instance canonical_hashes :
  Canonical (fun v => Forall (bytes_of_length 32) v /\ fits_size v) (Serialize_vector (fun hash => hash)) (Unserialize_vector (read 32) (5000000 / 32)).
Proof. apply (canonical_vector (canonical_array 32)). done. Qed.

Lemma tree_received s t rest :
  Forall byte s -> CPartialMerkleTree_Unserialize s = inr (t, rest) -> received t.
Proof.
  intros Hs E. unfold CPartialMerkleTree_Unserialize in E. read_fields. injection E as <- <-. unfold received.
  cbn [nTransactions vHash vBits]. destruct Hx0 as [Hh _]. destruct Hx1 as [_ Hf]. split_and!; [done| |].
  - eapply Forall_impl; [exact Hh|]. by intros h [? ?].
  - rewrite length_unpack_bits. unfold fits_size in Hf. lia.
Qed.

(** ** Making a partial tree *)

Section make.
Context (l : list uint256) (m : list bool) (Hl : (0 < length l)%nat) (Hl30 : Z.of_nat (length l) <= 2 ^ 30).
Context (Hm : length m = length l) (Hvalid : Forall valid_hash l).

#[local] Abbreviation n := (length l).
#[local] Abbreviation root k pos := (tree_root sha_pair k (Merkle.block l k pos)).
#[local] Abbreviation T := (build sha_pair l m).

Lemma root_valid k pos : (pos < nodes n k)%nat -> valid_hash (root k pos).
Proof.
  intros Hp. destruct k as [|k].
  - pose proof (nodes_bound _ _ _ Hl Hp). rewrite block_leaf by done. cbn. by apply Forall_lookup_total_1.
  - rewrite block_root by done. destruct (_ <=? _)%nat; apply sha_pair_valid.
Qed.

Lemma leb_of_nat a b : (Z.of_nat a <? Z.of_nat b) = (a <? b)%nat.
Proof. destruct (Nat.ltb_spec a b); [apply Z.ltb_lt|apply Z.ltb_ge]; lia. Qed.

Lemma CalcHash_ok mem (Hmem : length mem = 64%nat) k : forall pos,
  (k <= 31)%nat -> (pos < nodes n k)%nat -> CalcHash mem (Z.of_nat n) k (Z.of_nat pos) l = Some (root k pos).
Proof.
  induction k as [|k IH]; intros pos Hk Hp; cbn [CalcHash].
  - pose proof (nodes_bound _ _ _ Hl Hp). rewrite Nat2Z.id, block_leaf by done. change (tree_root sha_pair 0 [l !!! pos]) with (l !!! pos). by apply list_lookup_lookup_total_lt.
  - pose proof (nodes_left _ _ _ Hl Hp) as Hp1. destruct (double_pos n k pos) as [-> ->]; [done..|].
    rewrite (IH (2 * pos)%nat) by (done || lia). cbn [mbind option_bind]. rewrite CalcTreeWidth_ok by done. cbn [mbind option_bind].
    rewrite leb_of_nat, block_root by done. destruct (Nat.ltb_spec (2 * pos + 1) (nodes n k)) as [Hw|Hw].
    + rewrite (IH (2 * pos + 1)%nat) by (done || lia). cbn [mbind option_bind].
      destruct (Nat.leb_spec (nodes n k) (2 * pos + 1)); [lia|]. apply Hash2_ok; [done|by apply root_valid..].
    + cbn [mbind option_bind]. destruct (Nat.leb_spec (nodes n k) (2 * pos + 1)); [|lia]. apply Hash2_ok; [done|by apply root_valid..].
Qed.

Lemma any_match_ok fuel : forall p last b,
  (n - p <= fuel)%nat ->
  any_match (Z.of_nat n) fuel (Z.of_nat p) (Z.of_nat last) m b = Some (b || existsb id (take (last - p) (drop p m))).
Proof.
  induction fuel as [|fuel IH]; intros p last b Hf; cbn [any_match]; rewrite !leb_of_nat.
  all: destruct (Nat.ltb_spec p last) as [H1|H1]; cbn [andb];
    [|replace (last - p)%nat with 0%nat by lia; cbn [take existsb]; by rewrite orb_false_r].
  all: destruct (Nat.ltb_spec p n) as [H2|H2];
    [|rewrite drop_ge by lia; rewrite take_nil; cbn [existsb]; by rewrite orb_false_r].
  - lia.
  - rewrite Nat2Z.id. destruct (lookup_lt_is_Some_2 m p ltac:(lia)) as [x Hx]. rewrite Hx. cbn [mbind option_bind].
    rewrite u32_small by lia. replace (Z.of_nat p + 1) with (Z.of_nat (S p)) by lia. rewrite IH by lia.
    rewrite (drop_S m x p Hx). replace (last - p)%nat with (S (last - S p)) by lia. cbn [take existsb id].
    by rewrite orb_assoc.
Qed.

Lemma parent_of_match k pos :
  (k <= 30)%nat -> (pos < nodes n k)%nat ->
  any_match (Z.of_nat n) (Z.to_nat (Z.of_nat n)) (u32 (Z.of_nat pos << Z.of_nat k))
    (u32 (u32 (Z.of_nat pos + 1) << Z.of_nat k)) m false = Some (has_match m k pos).
Proof.
  intros Hk Hp. pose proof (nodes_bound _ _ _ Hl Hp). apply nodes_lt in Hp; [|done].
  assert (2 ^ Z.of_nat k <= 2 ^ 30) as Hpow by (apply Z.pow_le_mono_r; lia).
  rewrite (u32_small (Z.of_nat pos + 1)) by lia. rewrite !Z.shiftl_mul_pow2 by lia. rewrite !pow2_Z in *.
  rewrite !u32_small by nia. rewrite Nat2Z.id.
  replace (Z.of_nat pos * Z.of_nat (2 ^ k)) with (Z.of_nat (pos * 2 ^ k)) by lia.
  replace ((Z.of_nat pos + 1) * Z.of_nat (2 ^ k)) with (Z.of_nat ((pos + 1) * 2 ^ k)) by lia.
  rewrite any_match_ok by lia. cbn [orb]. unfold has_match. do 3 f_equal. lia.
Qed.

(** The traversal writes the bits and the hashes of the reference. *)
Lemma TraverseAndBuild_ok mem (Hmem : length mem = 64%nat) k : forall pos out,
  (k <= 30)%nat -> (pos < nodes n k)%nat ->
  TraverseAndBuild mem (Z.of_nat n) k (Z.of_nat pos) l m out = Some (out.1 ++ pt_bits (T k pos), out.2 ++ pt_hashes (T k pos)).
Proof.
  induction k as [|k IH]; intros pos out Hk Hp; cbn [TraverseAndBuild build].
  - cbn [Nat.leb]. rewrite parent_of_match by done. cbn [mbind option_bind]. rewrite CalcHash_ok by (done || lia).
    pose proof (nodes_bound _ _ _ Hl Hp). rewrite block_leaf by done. done.
  - destruct (Nat.leb_spec 32 (S k)); [lia|]. rewrite parent_of_match by done. cbn [mbind option_bind].
    destruct (has_match m (S k) pos); cbn [negb]; [|by rewrite CalcHash_ok by (done || lia)].
    pose proof (nodes_left _ _ _ Hl Hp) as Hp1. destruct (double_pos n k pos) as [-> ->]; [done..|].
    rewrite (IH (2 * pos)%nat) by (done || lia). cbn [mbind option_bind]. rewrite CalcTreeWidth_ok by (done || lia). cbn [mbind option_bind].
    rewrite leb_of_nat. destruct (Nat.ltb_spec (2 * pos + 1) (nodes n k)) as [Hw|Hw]; cbn [fst snd pt_bits pt_hashes].
    + rewrite (IH (2 * pos + 1)%nat) by (done || lia). cbn [fst snd]. by rewrite <- !app_assoc.
    + by rewrite <- !app_assoc.
Qed.

Lemma build_root k : forall pos, (pos < nodes n k)%nat -> pt_root sha_pair (T k pos) = root k pos.
Proof.
  induction k as [|k IH]; intros pos Hp; cbn [build].
  - pose proof (nodes_bound _ _ _ Hl Hp). by rewrite block_leaf.
  - destruct (has_match m (S k) pos); [|done]. pose proof (nodes_left _ _ _ Hl Hp) as Hp1. rewrite block_root by done.
    destruct (Nat.ltb_spec (2 * pos + 1) (nodes n k)), (Nat.leb_spec (nodes n k) (2 * pos + 1)); try lia;
      cbn [pt_root]; by rewrite !IH.
Qed.

Lemma build_valid k : forall pos, (pos < nodes n k)%nat -> Forall valid_hash (pt_hashes (T k pos)).
Proof.
  induction k as [|k IH]; intros pos Hp; cbn [build].
  - pose proof (nodes_bound _ _ _ Hl Hp). constructor; [by apply Forall_lookup_total_1|constructor].
  - pose proof (nodes_left _ _ _ Hl Hp) as Hp1.
    destruct (has_match m (S k) pos); [|constructor; [by apply root_valid|constructor]].
    destruct (Nat.ltb_spec (2 * pos + 1) (nodes n k)); cbn [pt_hashes]; [apply Forall_app; split|]; by apply IH.
Qed.

Lemma tree_mutated_block k pos : tree_mutated sha_pair (Merkle.block l k pos) -> tree_mutated sha_pair l.
Proof.
  intros (j&i&Hj&E). pose proof (pow2_pos j).
  assert (length (Merkle.block l k pos) <= 2 ^ k /\ pos * 2 ^ k + length (Merkle.block l k pos) <= Nat.max n (pos * 2 ^ k))%nat as [L1 L2]
    by (unfold Merkle.block; rewrite length_take, length_drop; lia).
  assert (j < k)%nat as Hjk.
  { destruct (decide (j < k)%nat) as [|Hge]; [done|].
    assert (2 ^ k <= 2 ^ j)%nat by (apply Nat.pow_le_mono_r; lia). nia. }
  assert (2 ^ k = 2 * 2 ^ (k - 1 - j) * 2 ^ j)%nat as Ek.
  { rewrite <- pow2_S, <- Nat.pow_add_r. f_equal. lia. }
  assert (forall i', ((i' + 1) * 2 ^ j <= length (Merkle.block l k pos))%nat ->
    Merkle.block (Merkle.block l k pos) j i' = Merkle.block l j (pos * (2 * 2 ^ (k - 1 - j)) + i')) as Hb.
  { intros i' Hi'. unfold Merkle.block at 1 2 3. rewrite skipn_firstn_comm, take_take, drop_drop, Nat.min_l by lia.
    do 2 f_equal. rewrite Ek. nia. }
  rewrite !Hb in E by lia. exists j, (pos * 2 ^ (k - 1 - j) + i)%nat. split; [nia|].
  replace (2 * (pos * 2 ^ (k - 1 - j) + i))%nat with (pos * (2 * 2 ^ (k - 1 - j)) + 2 * i)%nat by lia.
  rewrite <- Nat.add_assoc. done.
Qed.

(** Siblings differ in a tree that is not mutated, unless hashes collide. *)
Lemma build_shape P (Hmut : ~ tree_mutated sha_pair l) k : forall pos,
  (pos < nodes n k)%nat -> tree_pairs sha_pair k (Merkle.block l k pos) ⊆ P ->
  collision sha_pair P \/ pt_shape sha_pair n k pos (T k pos).
Proof.
  induction k as [|k IH]; intros pos Hp HP; cbn [build]; [by right|].
  destruct (has_match m (S k) pos); [|by right]. pose proof (nodes_left _ _ _ Hl Hp) as Hp1.
  apply block_pairs in HP as [HP1 HP2]; [|done].
  destruct (IH (2 * pos)%nat Hp1 HP1) as [?|S1]; [by left|].
  destruct (Nat.ltb_spec (2 * pos + 1) (nodes n k)) as [Hw|Hw], (Nat.leb_spec (nodes n k) (2 * pos + 1)); try lia; cbn [pt_shape]; [|by right].
  destruct HP2 as [_ HP2]. destruct (IH (2 * pos + 1)%nat Hw HP2) as [?|S2]; [by left|].
  destruct (decide (root k (2 * pos) = root k (2 * pos + 1))) as [E|Hne]; [|right; rewrite !build_root by done; done].
  destruct (tree_binding sha_pair P k (Merkle.block l k (2 * pos)) (Merkle.block l k (2 * pos + 1))) as [Eq|?]; try done;
    [by apply length_block_pos..| | | |by left].
  1, 2: by intros M%tree_mutated_block.
  exfalso. apply Hmut. exists k, pos. split; [|done]. apply nodes_lt in Hw; [|done].
  assert (length (Merkle.block l k (2 * pos)) = 2 ^ k)%nat as L by (apply length_block; lia).
  rewrite Eq in L. unfold Merkle.block in L. rewrite length_take, length_drop in L. pose proof (pow2_pos k). lia.
Qed.

Lemma matched_app off m1 m2 l1 l2 :
  length m1 = length l1 -> matched off (m1 ++ m2) (l1 ++ l2) = matched off m1 l1 ++ matched (off + length l1) m2 l2.
Proof.
  revert off l1. induction m1 as [|b m1 IH]; intros off [|h l1] E; try done; cbn [app matched length].
  - by rewrite Nat.add_0_r.
  - rewrite IH by (by injection E). rewrite <- app_assoc. do 3 f_equal. lia.
Qed.

Lemma matched_none off m1 l1 : existsb id m1 = false -> matched off m1 l1 = [].
Proof.
  revert off l1. induction m1 as [|b m1 IH]; intros off [|h l1] E; try done. cbn [matched existsb id] in *.
  apply orb_false_iff in E as [-> E]. by rewrite IH.
Qed.

(** The matches of the reference are the leaves with a flag. *)
Lemma build_matches k : forall pos,
  (pos < nodes n k)%nat ->
  pt_matches pos (T k pos) = matched (pos * 2 ^ k) (take (2 ^ k) (drop (pos * 2 ^ k) m)) (Merkle.block l k pos).
Proof.
  induction k as [|k IH]; intros pos Hp; cbn [build].
  - pose proof (nodes_bound _ _ _ Hl Hp) as Hb. rewrite block_leaf by done. unfold has_match. cbn [Nat.pow]. rewrite Nat.mul_1_r.
    destruct (lookup_lt_is_Some_2 m pos ltac:(lia)) as [b Eb]. rewrite (drop_S m b pos Eb). cbn [take existsb id orb pt_matches matched].
    by destruct b.
  - destruct (has_match m (S k) pos) eqn:E; [|by rewrite (matched_none _ _ _ E)].
    pose proof (nodes_left _ _ _ Hl Hp) as Hp1. pose proof (pow2_pos k).
    set (bm := take (2 ^ S k) (drop (pos * 2 ^ S k) m)). set (bl := Merkle.block l (S k) pos).
    assert (take (2 ^ k) bm = take (2 ^ k) (drop (2 * pos * 2 ^ k) m) /\ drop (2 ^ k) bm = take (2 ^ k) (drop ((2 * pos + 1) * 2 ^ k) m)) as [M1 M2].
    { unfold bm. rewrite pow2_S, take_take, skipn_firstn_comm, drop_drop. split; f_equal; try lia; f_equal; lia. }
    destruct (block_halves l k pos) as [L1 L2]. fold bl in L1, L2.
    assert (length bm = length bl) as Lbm by (unfold bm, bl, Merkle.block; rewrite !length_take, !length_drop; lia).
    rewrite <- (take_drop (2 ^ k) bm), <- (take_drop (2 ^ k) bl), matched_app, M1, M2, L1, L2 by (rewrite !length_take; lia).
    apply nodes_lt in Hp1; [|done].
    destruct (Nat.ltb_spec (2 * pos + 1) (nodes n k)) as [Hw|Hw]; cbn [pt_matches].
    + rewrite !IH by (done || by apply nodes_lt). f_equal; [f_equal; rewrite pow2_S; lia|].
      f_equal. rewrite length_block; [rewrite pow2_S; lia|]. apply nodes_lt in Hw; [|done]. lia.
    + rewrite IH by by apply nodes_lt. apply nodes_le in Hw; [|done].
      rewrite (drop_ge m ((2 * pos + 1) * 2 ^ k)) by lia. rewrite take_nil. cbn [matched]. rewrite app_nil_r.
      f_equal. rewrite pow2_S. lia.
Qed.

Lemma matched_some off m1 l1 :
  existsb id m1 = true -> length m1 = length l1 -> (0 < length (matched off m1 l1))%nat.
Proof.
  revert off l1. induction m1 as [|b m1 IH]; intros off [|h l1] E L; try done. cbn [matched existsb id length] in *.
  rewrite length_app. destruct b; [cbn; lia|]. pose proof (IH (S off) l1 E ltac:(lia)). cbn. lia.
Qed.

Lemma build_has_match k pos :
  (pos < nodes n k)%nat -> has_match m k pos = true -> (0 < length (pt_matches pos (T k pos)))%nat.
Proof.
  intros Hp Hh. rewrite build_matches by done. apply matched_some; [done|].
  unfold Merkle.block. rewrite !length_take, !length_drop. lia.
Qed.

(** At most one hash per leaf and, with every match, at most one more per level *)
Lemma build_length k : forall pos,
  (pos < nodes n k)%nat ->
  (length (pt_hashes (T k pos)) <= length (Merkle.block l k pos) /\
   length (pt_hashes (T k pos)) <= 1 + length (pt_matches pos (T k pos)) * k /\
   length (pt_bits (T k pos)) <= (k + 1) * length (Merkle.block l k pos))%nat.
Proof.
  induction k as [|k IH]; intros pos Hp; pose proof (length_block_pos l _ pos Hl Hp) as Hb.
  { cbn [build pt_hashes pt_bits pt_matches length]. split_and!; lia. }
  pose proof (nodes_left _ _ _ Hl Hp) as Hp1. destruct (IH (2 * pos)%nat Hp1) as (A1&A2&A3).
  pose proof (build_has_match (S k) pos Hp) as Hm1. cbn [build] in Hm1 |- *.
  destruct (has_match m (S k) pos); [specialize (Hm1 eq_refl)|cbn [pt_hashes pt_bits pt_matches length]; split_and!; nia].
  destruct (block_halves l k pos) as [L1 L2].
  assert (length (Merkle.block l (S k) pos) = length (Merkle.block l k (2 * pos)) + length (Merkle.block l k (2 * pos + 1)))%nat as L
    by (rewrite <- L1, <- L2, length_take, length_drop; lia).
  destruct (Nat.ltb_spec (2 * pos + 1) (nodes n k)) as [Hw|Hw]; cbn [pt_hashes pt_bits pt_matches length] in *.
  - destruct (IH (2 * pos + 1)%nat Hw) as (B1&B2&B3). rewrite !length_app in *. split_and!; nia.
  - split_and!; nia.
Qed.
End make.

(** ** Theorems *)

(** The root that the block commits to *)
Lemma ComputeMerkleRoot_inv mem l root mutated :
  length mem = 64%nat -> Forall valid_hash l -> (0 < length l)%nat -> Z.of_nat (length l) <= 2 ^ 31 ->
  ComputeMerkleRoot mem l = Some (root, mutated) ->
  root = tree_root sha_pair (Nat.log2_up (length l)) l /\ (mutated = true <-> tree_mutated sha_pair l).
Proof.
  intros Hmem HV Hl Hb E. unfold ComputeMerkleRoot in E.
  destruct (MerkleComputation_ok sha_pair (Hash2 mem) valid_hash (fun a b => sha_pair_ok mem a b Hmem)
    l (u32 (-1)) 0 false) as (mu&br&Em&Hmu&_); try done.
  rewrite Em in E. cbn [mbind option_bind] in E. by injection E as <- <-.
Qed.

(** A received partial tree is read without undefined behaviour.  If [ExtractMatches] returns
    the non-zero root of the leaves [vTxid] of a block, and the number of transactions that is
    claimed gives a tree of the same height, then the tree it has read has no other explanation:
    every hash it returns is that of a transaction of the block, at the position it returns, the
    positions increase - or among the pairs that were hashed by the block and by the partial tree
    two different ones have the same hash. *)
Theorem partial_tree_sound mem s t rest vTxid root mutated :
  length mem = 64%nat -> Forall byte s -> CPartialMerkleTree_Unserialize s = inr (t, rest) ->
  Forall valid_hash vTxid -> (0 < length vTxid)%nat -> Z.of_nat (length vTxid) <= 2 ^ 31 ->
  ComputeMerkleRoot mem vTxid = Some (root, mutated) -> root <> uint256_zero ->
  Nat.log2_up (length vTxid) = Nat.log2_up (Z.to_nat (nTransactions t)) ->
  exists found vMatch vnIndex t', ExtractMatches mem t [] = Some (found, vMatch, vnIndex, t') /\
    (found = root ->
     exists T, encodes t (Z.to_nat (nTransactions t)) T /\
       (collision sha_pair (tree_pairs sha_pair (Nat.log2_up (length vTxid)) vTxid ++ pt_pairs sha_pair T) \/
        (Forall2 (fun hash pos => vTxid !! Z.to_nat pos = Some hash) vMatch vnIndex /\ StronglySorted Z.lt vnIndex))).
Proof.
  intros Hmem Hs Et HV Hl Hb Er Hne Hk. pose proof (tree_received _ _ _ Hs Et) as Hrec.
  destruct (ExtractMatches_total mem Hmem t [] Hrec) as (found&vm&vi&t'&E&Hf). exists found, vm, vi, t'. split; [done|].
  intros ->. destruct Hf as [?|(n&T&HT&_&Eroot&->&->&_)]; [done|]. exists T.
  assert (Z.to_nat (nTransactions t) = n) as En by (destruct HT as [-> _]; lia). rewrite En in Hk |- *. split; [done|].
  destruct (ComputeMerkleRoot_inv _ _ _ _ Hmem HV Hl Hb Er) as [Er' _]. destruct HT as (_&_&_&Hshape&_).
  rewrite <- Hk in Hshape. destruct (pt_matches_sorted n T _ _ Hshape) as [Hsort _].
  destruct (pt_sound sha_pair (tree_pairs sha_pair (Nat.log2_up (length vTxid)) vTxid ++ pt_pairs sha_pair T) n vTxid T Hl
    (Nat.log2_up (length vTxid)) 0 Hshape) as [?|HF]; try (by left).
  - apply nodes_lt; lia.
  - rewrite block_all by done. congruence.
  - by apply list_subseteq_app_r.
  - rewrite block_all by done. by apply list_subseteq_app_l.
  - right. unfold match_hashes, match_positions. cbn [app]. split.
    + rewrite Forall2_fmap. apply Forall_Forall2_diag. eapply Forall_impl; [exact HF|]. cbn beta. intros e. by rewrite Nat2Z.id.
    + revert Hsort. generalize (pt_matches 0 T). intros es. induction es as [|e es IH]; cbn [map]; intros Hsort; [constructor|].
      inversion Hsort as [|? ? Hs1 Hs2]; subst. constructor; [by apply IH|].
      clear -Hs2. induction es as [|e' es IH]; [constructor|]. apply Forall_cons in Hs2 as [? ?]. constructor; [lia|by apply IH].
Qed.

(** What is sent is read back, with the bits padded. *)
Lemma tree_io n T rest :
  0 <= Z.of_nat n < 2 ^ 32 -> Forall valid_hash (pt_hashes T) -> Z.of_nat (length (pt_hashes T)) <= MAX_SIZE ->
  Z.of_nat (length (pt_bits T)) <= MAX_SIZE -> Forall byte rest ->
  CPartialMerkleTree_Unserialize (CPartialMerkleTree_Serialize (mkPMT (Z.of_nat n) (pt_bits T) (pt_hashes T) false) ++ rest) =
  inr (mkPMT (Z.of_nat n) (unpack_bits (pack_bits (pt_bits T))) (pt_hashes T) false, rest).
Proof.
  intros Hn HV HH HB Hrest. destruct (pack_bits_packed (pt_bits T)) as [Lpack [Hpack _]].
  assert (Forall (bytes_of_length 32) (pt_hashes T)) as HV' by (eapply Forall_impl; [exact HV|]; by intros h [? ?]).
  unfold CPartialMerkleTree_Unserialize, CPartialMerkleTree_Serialize. cbn [nTransactions vHash vBits].
  assert (Forall byte ((ser_writedata32 (Z.of_nat n) ++ Serialize_vector (fun hash => hash) (pt_hashes T) ++ Serialize_bytes (pack_bits (pt_bits T))) ++ rest)) as Hs.
  { rewrite !Forall_app. split_and!; [apply store_le_bytes| |by apply Serialize_bytes_bytes|done].
    apply Serialize_vector_bytes. eapply Forall_impl; [exact HV'|]. by intros h [? _]. }
  rewrite <- !app_assoc in Hs |- *. write_fields; [|done]. split; [done|]. unfold fits_size. rewrite Lpack, Nat2Z.inj_div.
  apply Z.div_le_upper_bound; [done|]. unfold MAX_SIZE in *. lia.
Qed.

Lemma padded_bits T :
  exists pad, unpack_bits (pack_bits (pt_bits T)) = pt_bits T ++ pad /\
    ((length (pt_bits T) + 7) / 8 = (length (unpack_bits (pack_bits (pt_bits T))) + 7) / 8)%nat.
Proof.
  eexists. split; [apply unpack_pack|]. rewrite length_unpack_bits. destruct (pack_bits_packed (pt_bits T)) as [-> _].
  symmetry. rewrite Nat.add_comm, Nat.div_add by done. done.
Qed.

(** A node that makes a partial tree for some transactions of a block, sends it and reads it
    back: the constructor succeeds, the format is read back with its bits padded to whole bytes, and
    unless the block is mutated or hashes collide, [ExtractMatches] returns the root of the block and
    exactly the matched transactions with their positions.  The number of hashes is at most that of
    the transactions, and at most one more than the matches times the height of the tree. *)
Theorem partial_tree_roundtrip mem vTxid vMatch root mutated rest :
  length mem = 64%nat -> Forall valid_hash vTxid -> (0 < length vTxid)%nat ->
  Z.of_nat (length vTxid) <= MAX_BLOCK_BASE_SIZE / 60 -> length vMatch = length vTxid -> Forall byte rest ->
  ComputeMerkleRoot mem vTxid = Some (root, mutated) ->
  let found := matched 0 vMatch vTxid in
  exists t t', CPartialMerkleTree_make mem vTxid vMatch = Some t /\
    CPartialMerkleTree_Unserialize (CPartialMerkleTree_Serialize t ++ rest) = inr (t', rest) /\
    vHash t' = vHash t /\ nTransactions t' = nTransactions t /\
    (length (vHash t) <= length vTxid /\ length (vHash t) <= 1 + length found * Nat.log2_up (length vTxid))%nat /\
    (mutated = true \/ collision sha_pair (tree_pairs sha_pair (Nat.log2_up (length vTxid)) vTxid) \/
     ExtractMatches mem t' [] = Some (root, map snd found, map (fun e => Z.of_nat e.1) found, t')).
Proof.
  intros Hmem HV Hl Hlim Hm Hrest Er found. set (n := length vTxid) in *.
  destruct (tree_limits (Z.of_nat n)) as (n'&En&_&Hn30&Hk&Hheight&Hnodes); [lia|]. apply Nat2Z.inj in En as <-.
  assert (Nat.log2_up n <= 30)%nat as Hk30.
  { apply Nat.log2_up_le_pow2; [lia|]. apply Nat2Z.inj_le. rewrite <- pow2_Z. done. }
  set (T := build sha_pair vTxid vMatch (Nat.log2_up n) 0).
  destruct (build_length vTxid vMatch Hl Hn30 Hm (Nat.log2_up n) 0 Hnodes) as (LH&LM&LB). fold T in LH, LM, LB.
  assert (Merkle.block vTxid (Nat.log2_up n) 0 = vTxid) as Eall by by apply block_all.
  assert (pt_matches 0 T = found) as Efound.
  { unfold T. rewrite build_matches, Eall by done. unfold found. rewrite Nat.mul_0_l, drop_0, take_ge; [done|].
    rewrite Hm. apply Nat.log2_up_le_pow2; lia. }
  rewrite Eall in LH, LB. fold n in LH, LB. rewrite Efound in LM.
  pose proof (build_valid vTxid vMatch Hl HV (Nat.log2_up n) 0 Hnodes) as HTv. fold T in HTv.
  set (t := mkPMT (Z.of_nat n) (pt_bits T) (pt_hashes T) false).
  set (t' := mkPMT (Z.of_nat n) (unpack_bits (pack_bits (pt_bits T))) (pt_hashes T) false).
  exists t, t'. change (MAX_BLOCK_BASE_SIZE / 60) with 33333 in Hlim.
  assert (Z.of_nat (length (pt_hashes T)) <= MAX_SIZE /\ Z.of_nat (length (pt_bits T)) <= MAX_SIZE) as [Hs1 Hs2] by (unfold MAX_SIZE; nia).
  assert (CPartialMerkleTree_Unserialize (CPartialMerkleTree_Serialize t ++ rest) = inr (t', rest)) as Eio by (apply tree_io; (done || lia)).
  assert (received t') as Hrec.
  { split_and!; [split; cbn; lia|done|]. cbn [vBits t']. rewrite length_unpack_bits. destruct (pack_bits_packed (pt_bits T)) as [-> _].
    pose proof (Nat.Div0.mul_div_le (length (pt_bits T) + 7) 8). unfold MAX_SIZE in *. lia. }
  split_and!; try done; try lia.
  - unfold CPartialMerkleTree_make. fold n. rewrite u32_small by lia. rewrite Hheight. cbn [mbind option_bind].
    pose proof (TraverseAndBuild_ok vTxid vMatch Hl Hn30 Hm HV mem Hmem (Nat.log2_up n) 0 ([], []) Hk30 Hnodes) as E.
    change (Z.of_nat 0) with 0 in E. fold n in E. by rewrite E.
  - destruct (ComputeMerkleRoot_inv _ _ _ _ Hmem HV Hl ltac:(lia) Er) as [Eroot Hmut]. fold n in Eroot.
    destruct mutated; [by left|right].
    destruct (build_shape vTxid vMatch Hl Hn30 Hm (tree_pairs sha_pair (Nat.log2_up n) vTxid) ltac:(intros M; by apply Hmut in M) (Nat.log2_up n) 0 Hnodes)
      as [?|Hshape]; [by rewrite Eall|by left|right]. fold T n in Hshape.
    rewrite (ExtractMatches_complete mem Hmem t' n T []).
    + cbn [app]. unfold match_hashes, match_positions. rewrite Efound. do 4 f_equal.
      unfold T. by rewrite (build_root vTxid vMatch Hl Hm), Eall, Eroot.
    + done.
    + split_and!; cbn [nTransactions vHash vBits t']; [done|lia|change (MAX_BLOCK_BASE_SIZE / 60) with 33333; lia|lia|done|done|apply padded_bits].
    + done.
Qed.

(** Two transactions, of which the second is matched: the bytes that are received *)
Lemma partial_tree_sound_witness :
  let tx1 := replicate 32 1 in let tx2 := replicate 32 2 in
  let t := mkPMT 2 [true; false; true; false; false; false; false; false] [tx1; tx2] false in
  exists found vMatch vnIndex t', ExtractMatches (replicate 64 0) t [] = Some (found, vMatch, vnIndex, t') /\
    (found = sha_pair tx1 tx2 ->
     exists T, encodes t 2 T /\
       (collision sha_pair ([(tx1, tx2)] ++ pt_pairs sha_pair T) \/
        (Forall2 (fun hash pos => [tx1; tx2] !! Z.to_nat pos = Some hash) vMatch vnIndex /\ StronglySorted Z.lt vnIndex))).
Proof.
  intros tx1 tx2 t.
  apply (partial_tree_sound (replicate 64 0) ([2; 0; 0; 0; 2] ++ tx1 ++ tx2 ++ [1; 5]) t [] [tx1; tx2] (sha_pair tx1 tx2) false).
  - done.
  - apply (bool_decide_unpack _). by vm_compute.
  - by vm_compute.
  - apply (bool_decide_unpack _). by vm_compute.
  - cbn. lia.
  - cbn. lia.
  - by vm_compute.
  - apply (bool_decide_unpack _). by vm_compute.
  - done.
Defined.

Lemma partial_tree_roundtrip_witness :
  let vTxid := [replicate 32 1; replicate 32 2; replicate 32 3] in
  let vMatch := [false; false; true] in
  let root := sha_pair (sha_pair (replicate 32 1) (replicate 32 2)) (sha_pair (replicate 32 3) (replicate 32 3)) in
  exists t t', CPartialMerkleTree_make (replicate 64 0) vTxid vMatch = Some t /\
    CPartialMerkleTree_Unserialize (CPartialMerkleTree_Serialize t ++ [7]) = inr (t', [7]) /\
    vHash t' = vHash t /\ nTransactions t' = nTransactions t /\
    (length (vHash t) <= 3 /\ length (vHash t) <= 1 + 1 * 2)%nat /\
    (false = true \/ collision sha_pair (tree_pairs sha_pair 2 vTxid) \/
     ExtractMatches (replicate 64 0) t' [] = Some (root, [replicate 32 3], [2], t')).
Proof.
  intros vTxid vMatch root.
  apply (partial_tree_roundtrip (replicate 64 0) vTxid vMatch root false [7]).
  - done.
  - apply (bool_decide_unpack _). by vm_compute.
  - cbn. lia.
  - by vm_compute.
  - done.
  - apply (bool_decide_unpack _). by vm_compute.
  - by vm_compute.
Defined.

(** The matches that [CMerkleBlock] keeps are those that the receiver extracts. *)
Lemma merkle_block_matches vMatch vHashes :
  omap (fun '(i, (b, hash)) => if b : bool then Some (Z.of_nat i, hash) else None) (imap pair (zip vMatch vHashes)) =
  map (fun e => (Z.of_nat e.1, e.2)) (matched 0 vMatch vHashes).
Proof.
  change (imap pair (zip vMatch vHashes)) with (imap (fun i => pair (0 + i)%nat) (zip vMatch vHashes)).
  generalize 0%nat as off. revert vHashes. induction vMatch as [|b m IH]; intros [|h l] off; try done.
  cbn [zip_with imap omap list_omap matched]. rewrite map_app, <- (IH l (S off)), Nat.add_0_r.
  assert (imap ((fun i => pair (off + i)%nat) ∘ S) (zip m l) = imap (fun i => pair (S off + i)%nat) (zip m l)) as ->.
  { apply imap_ext. intros i x _. unfold compose. f_equal. lia. }
  by destruct b.
Qed.

(** The header bounds the number of flag bits by [2 N - 1] for [N] hashes. A node without right
    sibling has a bit of its own: five transactions of which the last is matched have two hashes and
    five bits. *)
Lemma flag_bits_exceed :
  exists t, CPartialMerkleTree_make (replicate 64 0) (map (replicate 32) [1; 2; 3; 4; 5]) [false; false; false; false; true] = Some t /\
    length (vHash t) = 2%nat /\ length (vBits t) = 5%nat.
Proof. eexists. split; [by vm_compute|]. by vm_compute. Qed.
