(* ===== verification/Base58.v ===== *)
(** Base 58 and addresses ([src/src/base58.h], [base58.cpp], the prefixes of [chainparams.cpp],
    [CKey] of [key.h]): text for byte strings, with a checksum, and the addresses and secret keys
    that are written in it.

    Characters are bytes and a C string is the list of the characters before its terminator; an
    assertion that fails gives [None].  The test of a secret key (secp256k1) is a parameter. *)

From Stdlib Require Import Ascii.
From stdpp Require Import strings.
From S2P Require Import Prelude SphTypes Hasher Sha2Spec Sha256 Hash Merkle Serialize Codec Script Interpreter Standard.

#[local] Open Scope Z_scope.
#[local] Open Scope c_scope.

(** ** Base 58 *)

Definition chars (s : string) : list Z := map (fun a => Z.of_nat (nat_of_ascii a)) (String.list_ascii_of_string s).
Definition pszBase58 : list Z := chars "123456789ABCDEFGHJKLMNPQRSTUVWXYZabcdefghijkmnopqrstuvwxyz".

(** [isspace] of the C locale *)
Definition isspace (c : Z) : bool := (c =? 32) || ((9 <=? c) && (c <=? 13)).

(** [strchr(pszBase58, c) - pszBase58] for [c] that is not the terminator *)
Definition strchr58 (c : Z) : option Z := Z.of_nat <$> (fst <$> list_find (eq c) pszBase58).

Fixpoint skip_while (p : Z -> bool) (s : list Z) : list Z :=
  match s with c :: s' => if p c then skip_while p s' else s | [] => [] end.
Fixpoint count_while (p : Z -> bool) (s : list Z) : nat :=
  match s with c :: s' => if p c then S (count_while p s') else 0%nat | [] => 0%nat end.

(** The multiplication by 58 and the addition of [carry], over the vector from its last byte *)
Fixpoint mul58_add (b256 : list Z) (carry : Z) : list Z * Z :=
  match b256 with
  | [] => ([], carry)
  | d :: b256 =>
      let carry := carry + 58 * d in
      let '(b256, c) := mul58_add b256 (carry / 256) in (carry mod 256 :: b256, c)
  end.

(** The loop over the characters; [b256] is kept from its last byte on.  The result is the rest of
    the string, or [None] for a character that is not in the alphabet. *)
Fixpoint decode_chars (psz b256 : list Z) : option (option (list Z * list Z)) :=
  match psz with
  | [] => Some (Some ([], b256))
  | c :: psz' =>
      if isspace c then Some (Some (psz, b256))
      else
        match strchr58 c with
        | None => Some None
        | Some carry =>
            let '(b256, carry) := mul58_add b256 carry in
            if carry =? 0 then decode_chars psz' b256 else None
        end
  end.

(** [DecodeBase58]: the bytes, if it returns true *)
Definition DecodeBase58 (psz : list Z) : option (option (list Z)) :=
  let psz := skip_while isspace psz in
  let zeroes := count_while (Z.eqb 49) psz in
  let psz := skip_while (Z.eqb 49) psz in
  let size := u64 (Z.of_nat (length psz) * 733) / 1000 + 1 in
  r ← decode_chars psz (replicate (Z.to_nat size) 0);
  Some (match r with
        | None => None
        | Some (psz, b256) =>
            match skip_while isspace psz with
            | [] => Some (replicate zeroes 0 ++ skip_while (Z.eqb 0) (rev b256))
            | _ => None
            end
        end).

(** [for (...; (carry != 0 || i < length) && it != b58.rend(); it++, i++)]; the digits, [carry]
    and [i] *)
Fixpoint mul256_add (b58 : list Z) (carry i len : Z) : list Z * Z * Z :=
  match b58 with
  | [] => ([], carry, i)
  | d :: b58' =>
      if negb (carry =? 0) || (i <? len) then
        let carry := carry + 256 * d in
        let '(b58', c, i) := mul256_add b58' (carry / 58) (i + 1) len in (carry mod 58 :: b58', c, i)
      else (b58, carry, i)
  end.

Fixpoint encode_bytes (v b58 : list Z) (len : Z) : option (list Z * Z) :=
  match v with
  | [] => Some (b58, len)
  | b :: v => let '(b58, carry, i) := mul256_add b58 b 0 len in if carry =? 0 then encode_bytes v b58 i else None
  end.

(** [size] is an [int]: [None] where the conversion does not keep the value.  The digits are read
    from [size - length] on. *)
Definition EncodeBase58 (v : list Z) : option (list Z) :=
  let zeroes := count_while (Z.eqb 0) v in
  let v := skip_while (Z.eqb 0) v in
  let size := Z.of_nat (length v) * 138 / 100 + 1 in
  if size >? 2 ^ 31 - 1 then None
  else
    '(b58, len) ← encode_bytes v (replicate (Z.to_nat size) 0) 0;
    let digits := skip_while (Z.eqb 0) (drop (Z.to_nat (size - len)) (rev b58)) in
    str ← mapM (fun d => pszBase58 !! Z.to_nat d) digits;
    Some (replicate zeroes 49 ++ str).

(** ** With a checksum *)

Section check.
Context (mem : list Z).

Definition EncodeBase58Check (vchIn : list Z) : option (list Z) :=
  hash ← Hash1 mem vchIn;
  EncodeBase58 (vchIn ++ take 4 hash).

Definition DecodeBase58Check (psz : list Z) : option (option (list Z)) :=
  r ← DecodeBase58 psz;
  match r with
  | None => Some None
  | Some vchRet =>
      if (length vchRet <? 4)%nat then Some None
      else
        let n := (length vchRet - 4)%nat in
        hash ← Hash1 mem (take n vchRet);
        Some (if bool_decide (take 4 hash = drop n vchRet) then Some (take n vchRet) else None)
  end.

(** [CBase58Data] *)
Record CBase58Data := mkBase58Data { vchVersion : list Z; vchData : list Z }.
Definition new_CBase58Data : CBase58Data := mkBase58Data [] [].

(** [SetData]: [pdata] is the list of the [nSize] bytes. *)
Definition SetData (vchVersionIn pdata : list Z) : CBase58Data := mkBase58Data vchVersionIn pdata.

Definition SetString (psz : list Z) (nVersionBytes : nat) : option (bool * CBase58Data) :=
  r ← DecodeBase58Check psz;
  Some (match r with
        | Some vchTemp =>
            if (length vchTemp <? nVersionBytes)%nat then (false, new_CBase58Data)
            else (true, mkBase58Data (take nVersionBytes vchTemp) (drop nVersionBytes vchTemp))
        | None => (false, new_CBase58Data)
        end).

(** [CBase58Data::ToString] *)
Definition Base58Data_ToString (d : CBase58Data) : option (list Z) := EncodeBase58Check (vchVersion d ++ vchData d).

(** [operator<] of vectors *)
Fixpoint vector_lt (a b : list Z) : bool :=
  match a, b with
  | _, [] => false
  | [], _ :: _ => true
  | x :: a, y :: b => (x <? y) || ((x =? y) && vector_lt a b)
  end.
Definition CompareTo (d b58 : CBase58Data) : Z :=
  if vector_lt (vchVersion d) (vchVersion b58) then -1
  else if vector_lt (vchVersion b58) (vchVersion d) then 1
  else if vector_lt (vchData d) (vchData b58) then -1
  else if vector_lt (vchData b58) (vchData d) then 1
  else 0.

(** ** Addresses *)

Inductive Base58Type := PUBKEY_ADDRESS | SCRIPT_ADDRESS | SECRET_KEY | EXT_PUBLIC_KEY | EXT_SECRET_KEY.

(** [base58Prefixes] of the three networks *)
Definition CMainParams (type : Base58Type) : list Z :=
  match type with
  | PUBKEY_ADDRESS => [87] | SCRIPT_ADDRESS => [85] | SECRET_KEY => [28]
  | EXT_PUBLIC_KEY => [0xc7; 0x88; 0xB2; 0x1E] | EXT_SECRET_KEY => [0xc7; 0x88; 0xAD; 0xE4]
  end.
Definition CTestNetParams (type : Base58Type) : list Z :=
  match type with
  | PUBKEY_ADDRESS => [54] | SCRIPT_ADDRESS => [86] | SECRET_KEY => [52]
  | EXT_PUBLIC_KEY => [0x40; 0x88; 0x2B; 0xE1] | EXT_SECRET_KEY => [0x40; 0x88; 0xDA; 0x4E]
  end.
Definition CRegTestParams (type : Base58Type) : list Z :=
  match type with
  | PUBKEY_ADDRESS => [20] | SCRIPT_ADDRESS => [96] | SECRET_KEY => [39]
  | EXT_PUBLIC_KEY => [0x05; 0x38; 0x34; 0x76] | EXT_SECRET_KEY => [0x06; 0x37; 0x64; 0x13]
  end.

Context (Base58Prefix : Base58Type -> list Z).

(** [CChratosAddress::Set]: [None] for no destination, with which the object is left as it was *)
Definition Address_Set (dest : CTxDestination) : option CBase58Data :=
  match dest with
  | CKeyID id => Some (SetData (Base58Prefix PUBKEY_ADDRESS) id)
  | CScriptID id => Some (SetData (Base58Prefix SCRIPT_ADDRESS) id)
  | CNoDestination => None
  end.

Definition Address_IsValid (a : CBase58Data) : bool :=
  (length (vchData a) =? 20)%nat &&
  (bool_decide (vchVersion a = Base58Prefix PUBKEY_ADDRESS) || bool_decide (vchVersion a = Base58Prefix SCRIPT_ADDRESS)).

Definition Address_Get (a : CBase58Data) : CTxDestination :=
  if negb (Address_IsValid a) then CNoDestination
  else if bool_decide (vchVersion a = Base58Prefix PUBKEY_ADDRESS) then CKeyID (take 20 (vchData a))
  else if bool_decide (vchVersion a = Base58Prefix SCRIPT_ADDRESS) then CScriptID (take 20 (vchData a))
  else CNoDestination.

(** The hash and the type, if it returns true *)
Definition GetIndexKey (a : CBase58Data) : option (list Z * Z) :=
  if negb (Address_IsValid a) then None
  else if bool_decide (vchVersion a = Base58Prefix PUBKEY_ADDRESS) then Some (take 20 (vchData a), 1)
  else if bool_decide (vchVersion a = Base58Prefix SCRIPT_ADDRESS) then Some (take 20 (vchData a), 2)
  else None.

Definition GetKeyID (a : CBase58Data) : option CTxDestination :=
  if negb (Address_IsValid a) || negb (bool_decide (vchVersion a = Base58Prefix PUBKEY_ADDRESS)) then None
  else Some (CKeyID (take 20 (vchData a))).

Definition Address_IsScript (a : CBase58Data) : bool :=
  Address_IsValid a && bool_decide (vchVersion a = Base58Prefix SCRIPT_ADDRESS).

(** ** Secret keys *)

Record CKey := mkKey { fValid : bool; fCompressed : bool; keydata : list Z }.
Definition new_CKey : CKey := mkKey false false (replicate 32 0).

(** [CKey::Check] *)
Context (Check_key : list Z -> bool).

Definition CKey_Set (k : CKey) (data : list Z) (fCompressedIn : bool) : CKey :=
  if negb (length data =? length (keydata k))%nat then mkKey false (fCompressed k) (keydata k)
  else if Check_key data then mkKey true fCompressedIn data
  else mkKey false (fCompressed k) (keydata k).

(** [CChratosSecret::SetKey]; [None] is the failed assertion. *)
Definition Secret_SetKey (vchSecret : CKey) : option CBase58Data :=
  if fValid vchSecret then
    Some (mkBase58Data (Base58Prefix SECRET_KEY) (keydata vchSecret ++ if fCompressed vchSecret then [1] else []))
  else None.

Definition Secret_GetKey (d : CBase58Data) : option CKey :=
  if (32 <=? length (vchData d))%nat then
    Some (CKey_Set new_CKey (take 32 (vchData d)) ((32 <? length (vchData d))%nat && bool_decide (vchData d !! 32%nat = Some 1)))
  else None.

Definition Secret_IsValid (d : CBase58Data) : bool :=
  ((length (vchData d) =? 32)%nat || ((length (vchData d) =? 33)%nat && bool_decide (vchData d !! 32%nat = Some 1))) &&
  bool_decide (vchVersion d = Base58Prefix SECRET_KEY).

Definition Secret_SetString (pszSecret : list Z) : option (bool * CBase58Data) :=
  '(ok, d) ← SetString pszSecret 1; Some (ok && Secret_IsValid d, d).
End check.

(** ** Numbers in a base *)

Definition digit (base d : Z) : Prop := 0 <= d < base.
(** The value of digits, the first of which counts most *)
Abbreviation dval base ds := (foldl (fun a d => a * base + d) 0 ds).
(** The value of digits, the first of which counts least *)
Fixpoint le_val (base : Z) (ds : list Z) : Z := match ds with [] => 0 | d :: ds => d + base * le_val base ds end.

Section digits.
Context (base : Z) (Hbase : 1 < base).

Lemma dval_snoc ds d : dval base (ds ++ [d]) = dval base ds * base + d.
Proof. by rewrite foldl_app. Qed.

Lemma dval_nonneg ds : Forall (digit base) ds -> 0 <= dval base ds.
Proof.
  induction ds as [|d ds IH] using rev_ind; [done|]. rewrite Forall_app, dval_snoc. intros [H1 H2]. apply Forall_inv in H2.
  unfold digit in H2. specialize (IH H1). nia.
Qed.

Lemma base_val_bound ds : Forall (digit base) ds -> 0 <= le_val base ds < base ^ Z.of_nat (length ds).
Proof.
  induction 1 as [|d ds Hd _ IH]; [done|]. cbn [le_val length]. rewrite Nat2Z.inj_succ, Z.pow_succ_r by lia.
  unfold digit in Hd. nia.
Qed.

Lemma dval_rev ds : dval base (rev ds) = le_val base ds.
Proof. induction ds as [|d ds IH]; [done|]. cbn [rev le_val]. rewrite dval_snoc, IH. lia. Qed.

Lemma le_val_zeros k : le_val base (replicate k 0) = 0.
Proof. induction k as [|k IH]; [done|]. cbn [replicate le_val]. lia. Qed.

Lemma le_val_all_zero ds : Forall (eq 0) ds -> le_val base ds = 0.
Proof. induction 1 as [|d ds <- _ IH]; [done|]. cbn [le_val]. lia. Qed.

(** A number has one representation without leading zeros. *)
Definition no_leading_zero (ds : list Z) : Prop := match ds with d :: _ => d <> 0 | [] => True end.

Lemma no_leading_zero_app ds d : no_leading_zero (ds ++ [d]) -> no_leading_zero ds.
Proof. by destruct ds. Qed.

Lemma dval_pos ds : Forall (digit base) ds -> no_leading_zero ds -> ds <> [] -> 0 < dval base ds.
Proof.
  induction ds as [|d ds IH] using rev_ind; [done|]. rewrite Forall_app, dval_snoc. intros [H1 H2] Hz _.
  apply Forall_inv in H2. unfold digit in H2. destruct ds as [|d' ds']; [cbn in Hz |- *; lia|].
  assert (0 < dval base (d' :: ds')) by (apply IH; [done|by apply (no_leading_zero_app _ d)|done]). nia.
Qed.

Lemma dval_inj ds1 ds2 :
  Forall (digit base) ds1 -> Forall (digit base) ds2 -> no_leading_zero ds1 -> no_leading_zero ds2 ->
  dval base ds1 = dval base ds2 -> ds1 = ds2.
Proof.
  revert ds2. induction ds1 as [|d1 ds1 IH] using rev_ind; intros ds2 H1 H2 Z1 Z2 E.
  - destruct ds2 as [|d2 ds2]; [done|]. pose proof (dval_pos (d2 :: ds2) H2 Z2 ltac:(done)) as Hp. rewrite <- E in Hp. done.
  - destruct ds2 as [|d2 ds2 _] using rev_ind.
    + pose proof (dval_pos (ds1 ++ [d1]) H1 Z1 ltac:(by destruct ds1)) as Hp. rewrite E in Hp. done.
    + rewrite !dval_snoc in E. apply Forall_app in H1 as [A1 B1], H2 as [A2 B2].
      apply Forall_inv in B1, B2. unfold digit in B1, B2. assert (d1 = d2 /\ dval base ds1 = dval base ds2) as [-> E2].
      { destruct (Z.div_mod_unique base (dval base ds1) (dval base ds2) d1 d2) as [? ?]; [by left..| |done]. by rewrite !(Z.mul_comm base). }
      f_equal. apply IH; try done; by eapply no_leading_zero_app.
Qed.
End digits.

Abbreviation strip := (skip_while (Z.eqb 0)).

Lemma strip_no_leading_zero ds : no_leading_zero (strip ds).
Proof. induction ds as [|d ds IH]; [done|]. cbn [skip_while]. destruct (Z.eqb_spec 0 d); [exact IH|]. cbn. lia. Qed.

Lemma strip_id ds : no_leading_zero ds -> strip ds = ds.
Proof. destruct ds as [|d ds]; [done|]. cbn [skip_while no_leading_zero]. intros Hd. destruct (Z.eqb_spec 0 d); [lia|done]. Qed.

Lemma skip_while_suffix p s : s = take (count_while p s) s ++ skip_while p s /\ Forall (fun c => p c = true) (take (count_while p s) s).
Proof.
  induction s as [|c s [IH1 IH2]]; [done|]. cbn [count_while skip_while]. destruct (p c) eqn:E; cbn [take app].
  - split; [by f_equal|]. by constructor.
  - split; [done|constructor].
Qed.

Lemma count_while_repeat x s : take (count_while (Z.eqb x) s) s = replicate (count_while (Z.eqb x) s) x.
Proof.
  induction s as [|c s IH]; [done|]. cbn [count_while]. destruct (Z.eqb_spec x c) as [<-|]; [|done].
  cbn [take replicate]. by rewrite IH.
Qed.

(** A run of characters and the rest *)
Lemma split_run p r s :
  Forall (fun c => p c = true) r -> match s with c :: _ => p c = false | [] => True end ->
  skip_while p (r ++ s) = s /\ count_while p (r ++ s) = length r.
Proof.
  induction 1 as [|c r Hc _ IH]; intros Hs.
  - cbn [app length]. destruct s as [|c s]; [done|]. cbn. by rewrite Hs.
  - cbn [app skip_while count_while length]. rewrite Hc. destruct (IH Hs) as [-> ->]. done.
Qed.

Lemma Forall_strip (P : Z -> Prop) ds : Forall P ds -> Forall P (strip ds).
Proof. intros H. destruct (skip_while_suffix (Z.eqb 0) ds) as [E _]. rewrite E in H. by apply Forall_app in H as [_ H]. Qed.

Lemma dval_zeros base k : dval base (replicate k 0) = 0.
Proof. induction k as [|k IH]; [done|]. cbn [replicate foldl]. by rewrite Z.add_0_r. Qed.

Lemma dval_strip base ds : dval base (strip ds) = dval base ds.
Proof.
  induction ds as [|d ds IH]; [done|]. cbn [skip_while]. destruct (Z.eqb_spec 0 d) as [<-|]; [|done]. rewrite IH. done.
Qed.

(** Enough digits: [p] digits of base [a] fit in [q] digits of base [b]. *)
Lemma capacity a b p q n :
  1 < a -> 1 < b -> 0 < p -> 0 < q -> a ^ p <= b ^ q -> 0 <= n -> a ^ n <= b ^ (n * q / p + 1).
Proof.
  intros Ha Hb Hp Hq Hpq Hn. destruct (Z.le_gt_cases (a ^ n) (b ^ (n * q / p + 1))) as [|Hgt]; [done|exfalso].
  assert (0 <= n * q / p) as Hd by (apply Z.div_pos; nia).
  assert (0 <= b ^ (n * q / p + 1)) by (apply Z.pow_nonneg; lia).
  assert ((b ^ (n * q / p + 1)) ^ p < (a ^ n) ^ p) as H1 by (apply Z.pow_lt_mono_l; lia).
  rewrite <- !Z.pow_mul_r in H1 by lia.
  assert (a ^ (n * p) <= b ^ (q * n)) as H2.
  { rewrite (Z.mul_comm n p), Z.pow_mul_r, (Z.pow_mul_r b) by lia. apply Z.pow_le_mono_l. split; [|done]. apply Z.pow_nonneg. lia. }
  assert (b ^ (q * n) <= b ^ ((n * q / p + 1) * p)); [|lia]. apply Z.pow_le_mono_r; [lia|].
  pose proof (Z.div_mod (n * q) p ltac:(lia)). pose proof (Z.mod_pos_bound (n * q) p ltac:(lia)). nia.
Qed.

(** ** The alphabet *)

Definition char58 (d : Z) : Z := pszBase58 !!! Z.to_nat d.
Abbreviation digit58 := (digit 58).

Lemma length_pszBase58 : length pszBase58 = 58%nat.
Proof. by vm_compute. Qed.

Lemma lookup_char58 d : digit58 d -> pszBase58 !! Z.to_nat d = Some (char58 d).
Proof. intros [? ?]. apply list_lookup_lookup_total_lt. rewrite length_pszBase58. lia. Qed.

Lemma digit58_check (p : Z -> bool) : forallb p (map Z.of_nat (seq 0 58)) = true -> forall d, digit58 d -> p d = true.
Proof.
  intros H d [? ?]. rewrite forallb_forall in H. apply H. apply in_map_iff. exists (Z.to_nat d). split; [lia|]. apply in_seq. lia.
Qed.

Lemma strchr58_char d : digit58 d -> strchr58 (char58 d) = Some d.
Proof.
  intros Hd. refine (bool_decide_eq_true_1 _ _). revert d Hd.
  apply (digit58_check (fun d => bool_decide (strchr58 (char58 d) = Some d))). by vm_compute.
Qed.

Lemma strchr58_inv c d : strchr58 c = Some d -> digit58 d /\ c = char58 d.
Proof.
  unfold strchr58. destruct (list_find (eq c) pszBase58) as [[i x]|] eqn:E; [|done]. intros [= <-].
  apply list_find_Some in E as (Hi&<-&_). pose proof (lookup_lt_Some _ _ _ Hi). rewrite length_pszBase58 in *.
  split; [split; lia|]. unfold char58. rewrite Nat2Z.id. symmetry. by apply list_lookup_total_correct.
Qed.

Lemma char58_not_space d : digit58 d -> isspace (char58 d) = false.
Proof.
  intros Hd. refine (bool_decide_eq_true_1 _ _). revert d Hd.
  apply (digit58_check (fun d => bool_decide (isspace (char58 d) = false))). by vm_compute.
Qed.

Lemma char58_one d : digit58 d -> (49 =? char58 d) = (0 =? d).
Proof.
  intros Hd. refine (bool_decide_eq_true_1 _ _). revert d Hd.
  apply (digit58_check (fun d => bool_decide ((49 =? char58 d) = (0 =? d)))). by vm_compute.
Qed.

Lemma char58_inj ds1 ds2 :
  Forall digit58 ds1 -> Forall digit58 ds2 -> map char58 ds1 = map char58 ds2 -> ds1 = ds2.
Proof.
  intros H1. revert ds2. induction H1 as [|d1 ds1 Hd1 _ IH]; intros [|d2 ds2] H2 E; try done.
  apply list.Forall_cons in H2 as [Hd2 H2]. cbn in E. injection E as E1 E2. f_equal; [|by apply IH].
  assert (strchr58 (char58 d1) = strchr58 (char58 d2)) as E3 by by rewrite E1. rewrite !strchr58_char in E3 by done. by injection E3.
Qed.

(** ** Decoding *)

Lemma mul58_add_ok b carry :
  Forall byte b -> 0 <= carry ->
  exists b' c, mul58_add b carry = (b', c) /\ length b' = length b /\ Forall byte b' /\ 0 <= c /\
    le_val 256 b' + 256 ^ Z.of_nat (length b) * c = 58 * le_val 256 b + carry.
Proof.
  intros Hb. revert carry. induction Hb as [|d b Hd _ IH]; intros carry Hc; cbn [mul58_add].
  - exists [], carry. split_and!; try done. change (le_val 256 []) with 0. change (Z.of_nat (length (@nil Z))) with 0. lia.
  - unfold word in Hd. assert (0 <= (carry + 58 * d) / 256) by (apply Z.div_pos; lia).
    destruct (IH ((carry + 58 * d) / 256)) as (b'&c&->&L&Hb'&Hc'&E); [done|].
    exists ((carry + 58 * d) mod 256 :: b'), c. cbn [length le_val]. split_and!; [done|lia| |done|].
    + constructor; [|done]. split; apply Z.mod_pos_bound; lia.
    + rewrite Nat2Z.inj_succ, Z.pow_succ_r by lia. pose proof (Z.div_mod (carry + 58 * d) 256). nia.
Qed.

Lemma byte_digit b : Forall byte b <-> Forall (digit 256) b.
Proof. done. Qed.

(** With room for all the characters, the loop reads the characters of the alphabet up to the first
    one that is not. *)
Lemma decode_chars_ok psz : forall b,
  Forall byte b -> (le_val 256 b + 1) * 58 ^ Z.of_nat (length psz) <= 256 ^ Z.of_nat (length b) ->
  exists ds rest, Forall digit58 ds /\ psz = map char58 ds ++ rest /\
    ((match rest with c :: _ => isspace c = true | [] => True end /\
      exists b', decode_chars psz b = Some (Some (rest, b')) /\ Forall byte b' /\
        le_val 256 b' = foldl (fun a d => a * 58 + d) (le_val 256 b) ds) \/
     (match rest with c :: _ => isspace c = false /\ strchr58 c = None | [] => False end /\ decode_chars psz b = Some None)).
Proof.
  induction psz as [|c psz IH]; intros b Hb Hcap; cbn [decode_chars].
  { exists [], []. split_and!; try done. left. by eauto. }
  destruct (isspace c) eqn:Ec; [exists [], (c :: psz); split_and!; try done; left; by eauto|].
  destruct (strchr58 c) as [d|] eqn:Ed; [|exists [], (c :: psz); split_and!; try done; by right].
  apply strchr58_inv in Ed as [Hd ->]. unfold digit in Hd.
  destruct (mul58_add_ok b d Hb ltac:(lia)) as (b'&carry&->&L&Hb'&Hc&E).
  cbn [length] in Hcap. rewrite Nat2Z.inj_succ, Z.pow_succ_r in Hcap by lia.
  assert (0 < 58 ^ Z.of_nat (length psz)) by (apply Z.pow_pos_nonneg; lia).
  pose proof (base_val_bound 256 ltac:(lia) b' Hb') as HB'. pose proof (base_val_bound 256 ltac:(lia) b Hb) as HB.
  assert (carry = 0) as -> by nia. cbn [Z.eqb]. rewrite Z.mul_0_r, Z.add_0_r in E.
  destruct (IH b' Hb') as (ds&rest&Hds&->&Hr); [rewrite L; nia|].
  exists (d :: ds), rest. split_and!; [by constructor|done|]. cbn [foldl].
  by replace (le_val 256 b * 58 + d) with (le_val 256 b') by lia.
Qed.

(** ** Encoding *)

Lemma mul256_add_ok b carry i len :
  Forall digit58 b -> 0 <= carry -> Forall (eq 0) (drop (Z.to_nat (len - i)) b) ->
  exists b' c i', mul256_add b carry i len = (b', c, i') /\ length b' = length b /\ Forall digit58 b' /\ 0 <= c /\
    i <= i' <= i + Z.of_nat (length b) /\ Forall (eq 0) (drop (Z.to_nat (i' - i)) b') /\
    le_val 58 b' + 58 ^ Z.of_nat (length b) * c = 256 * le_val 58 b + carry.
Proof.
  intros Hb. revert carry i. induction Hb as [|d b Hd Hb IH]; intros carry i Hc Hz; cbn [mul256_add].
  - exists [], carry, i. split_and!; try done; [cbn; lia|by rewrite drop_nil|].
    change (le_val 58 []) with 0. change (Z.of_nat (length (@nil Z))) with 0. lia.
  - destruct (negb (carry =? 0) || (i <? len)) eqn:Estop.
    + unfold digit in Hd. assert (0 <= (carry + 256 * d) / 58) by (apply Z.div_pos; lia).
      destruct (IH ((carry + 256 * d) / 58) (i + 1)) as (b'&c&i'&->&L&Hb'&Hc'&Hi'&Hz'&E); [done| |].
      { destruct (decide (len - i <= 0)) as [Hle|Hgt].
        - replace (Z.to_nat (len - (i + 1))) with 0%nat by lia. replace (Z.to_nat (len - i)) with 0%nat in Hz by lia.
          rewrite drop_0 in Hz |- *. by apply list.Forall_cons in Hz as [_ ?].
        - replace (Z.to_nat (len - i)) with (S (Z.to_nat (len - (i + 1)))) in Hz by lia. done. }
      exists ((carry + 256 * d) mod 58 :: b'), c, i'. cbn [length le_val]. split_and!; [done|lia| |done|lia|lia| |].
      * constructor; [|done]. apply Z.mod_pos_bound. lia.
      * by replace (Z.to_nat (i' - i)) with (S (Z.to_nat (i' - (i + 1)))) by lia.
      * rewrite Nat2Z.inj_succ, Z.pow_succ_r by lia. pose proof (Z.div_mod (carry + 256 * d) 58). nia.
    + apply orb_false_iff in Estop as [Ec Ei]. apply negb_false_iff, Z.eqb_eq in Ec as ->. apply Z.ltb_ge in Ei.
      replace (Z.to_nat (len - i)) with 0%nat in Hz by lia. rewrite drop_0 in Hz.
      exists (d :: b), 0, i. split_and!; [done|done|by constructor|done|lia|lia|by rewrite Z.sub_diag|].
      rewrite (le_val_all_zero 58 (d :: b)) by done. lia.
Qed.

Lemma encode_bytes_ok v : forall b len,
  Forall byte v -> Forall digit58 b -> 0 <= len <= Z.of_nat (length b) -> Forall (eq 0) (drop (Z.to_nat len) b) ->
  (le_val 58 b + 1) * 256 ^ Z.of_nat (length v) <= 58 ^ Z.of_nat (length b) ->
  exists b' len', encode_bytes v b len = Some (b', len') /\ length b' = length b /\ Forall digit58 b' /\
    0 <= len' <= Z.of_nat (length b) /\ Forall (eq 0) (drop (Z.to_nat len') b') /\
    le_val 58 b' = foldl (fun a d => a * 256 + d) (le_val 58 b) v.
Proof.
  induction v as [|x v IH]; intros b len Hv Hb Hlen Hz Hcap; cbn [encode_bytes]; [by eauto 10|].
  apply list.Forall_cons in Hv as [Hx Hv]. unfold word in Hx.
  destruct (mul256_add_ok b x 0 len Hb ltac:(lia)) as (b'&c&i'&->&L&Hb'&Hc&Hi'&Hz'&E); [by rewrite Z.sub_0_r|].
  cbn [length] in Hcap. rewrite Nat2Z.inj_succ, Z.pow_succ_r in Hcap by lia.
  assert (0 < 256 ^ Z.of_nat (length v)) by (apply Z.pow_pos_nonneg; lia).
  pose proof (base_val_bound 58 ltac:(lia) b' Hb') as HB'. pose proof (base_val_bound 58 ltac:(lia) b Hb) as HB.
  assert (c = 0) as -> by nia. cbn [Z.eqb]. rewrite Z.mul_0_r, Z.add_0_r in E. rewrite Z.sub_0_r in Hz'.
  destruct (IH b' i' Hv Hb') as (b''&len''&->&L''&R); [lia|done|rewrite L; nia|].
  exists b'', len''. split_and!; try apply R; [done|lia|rewrite <- L; apply R|].
  cbn [foldl]. replace (le_val 58 b * 256 + x) with (le_val 58 b') by lia. apply R.
Qed.

(** ** Both directions *)

Definition spaces (s : list Z) : Prop := Forall (fun c => isspace c = true) s.

Lemma room_58 n : 0 <= n -> 58 ^ n <= 256 ^ (n * 733 / 1000 + 1).
Proof. apply (capacity 58 256 1000 733); lia. Qed.
Lemma room_256 n : 0 <= n -> 256 ^ n <= 58 ^ (n * 138 / 100 + 1).
Proof. apply (capacity 256 58 100 138); lia. Qed.

Lemma mapM_char58 ds : Forall digit58 ds -> mapM (fun d => pszBase58 !! Z.to_nat d) ds = Some (map char58 ds).
Proof. induction 1 as [|d ds Hd _ IH]; [done|]. cbn [mapM]. rewrite lookup_char58 by done. cbn [mbind option_bind]. by rewrite IH. Qed.

(** The digits that are skipped at the front are zeros. *)
Lemma strip_used b len :
  0 <= len <= Z.of_nat (length b) -> Forall (eq 0) (drop (Z.to_nat len) b) ->
  strip (drop (Z.to_nat (Z.of_nat (length b) - len)) (rev b)) = strip (rev b).
Proof.
  intros Hl Hz. rewrite <- (take_drop (Z.to_nat len) b) at 2 3. rewrite rev_app_distr, drop_app_length'.
  2: { rewrite length_rev, length_drop. lia. }
  assert (Forall (eq 0) (rev (drop (Z.to_nat len) b))) as Hr by by apply Forall_rev.
  revert Hr. generalize (rev (drop (Z.to_nat len) b)) as zs. induction 1 as [|z zs <- _ IH]; [done|]. done.
Qed.

Definition encodable (v : list Z) : Prop := Forall byte v /\ Z.of_nat (length v) <= 2 ^ 30.

(** Zeros at the front are written as they are; the rest is the number in base 58. *)
Lemma EncodeBase58_ok v :
  encodable v ->
  exists ds, EncodeBase58 v = Some (replicate (count_while (Z.eqb 0) v) 49 ++ map char58 ds) /\
    Forall digit58 ds /\ no_leading_zero ds /\ dval 58 ds = dval 256 (strip v).
Proof.
  intros [Hv Hl]. unfold EncodeBase58. set (w := strip v). assert (Forall byte w) as Hw by by apply Forall_strip.
  assert (Z.of_nat (length w) <= 2 ^ 30) as Hlw.
  { destruct (skip_while_suffix (Z.eqb 0) v) as [E _]. apply (f_equal length) in E. rewrite length_app in E. fold w in E. lia. }
  set (size := Z.of_nat (length w) * 138 / 100 + 1).
  assert (0 < size <= 2 ^ 31 - 1) as Hsize.
  { unfold size. pose proof (Z.div_pos (Z.of_nat (length w) * 138) 100 ltac:(lia) ltac:(lia)).
    assert (Z.of_nat (length w) * 138 / 100 < 2 ^ 31 - 1); [|lia]. apply Z.div_lt_upper_bound; lia. }
  rewrite Z.gtb_ltb. destruct (Z.ltb_spec (2 ^ 31 - 1) size); [lia|].
  destruct (encode_bytes_ok w (replicate (Z.to_nat size) 0) 0) as (b&len&->&Lb&Hb&Hlen&Hz&Eval).
  - done.
  - by apply Forall_replicate.
  - lia.
  - rewrite drop_0. by apply Forall_replicate.
  - rewrite le_val_zeros, length_replicate, Z2Nat.id by lia. rewrite Z.mul_1_l. apply room_256. lia.
  - rewrite length_replicate in Lb, Hlen. cbn [mbind option_bind]. rewrite Z2Nat.id in Hlen by lia.
    replace size with (Z.of_nat (length b)) by lia. rewrite strip_used by (done || lia).
    assert (Forall digit58 (strip (rev b))) as Hd by by apply Forall_strip, Forall_rev.
    exists (strip (rev b)). rewrite mapM_char58 by done. split_and!; [done|done|apply strip_no_leading_zero|].
    rewrite dval_strip, dval_rev, Eval, le_val_zeros. done.
Qed.

(** The strings that are decoded, with the number of zeros and the digits *)
Definition written (psz : list Z) (z : nat) (ds : list Z) : Prop :=
  Forall digit58 ds /\ no_leading_zero ds /\
  exists sp1 sp2, spaces sp1 /\ spaces sp2 /\ psz = sp1 ++ replicate z 49 ++ map char58 ds ++ sp2.

Lemma skip_spaces sp : spaces sp -> skip_while isspace sp = [].
Proof. induction 1 as [|c sp Hc _ IH]; [done|]. cbn [skip_while]. by rewrite Hc. Qed.

Lemma skip_spaces_inv s : skip_while isspace s = [] -> spaces s.
Proof. intros E. destruct (skip_while_suffix isspace s) as [Es Hs]. rewrite E, app_nil_r in Es. by rewrite Es. Qed.

(** The front of such a string is read: spaces and ones. *)
Lemma written_front psz z ds :
  written psz z ds ->
  exists sp, spaces sp /\ let s := skip_while isspace psz in
    count_while (Z.eqb 49) s = z /\ skip_while (Z.eqb 49) s = map char58 ds ++ sp.
Proof.
  intros (Hds&Hz&sp1&sp2&H1&H2&->).
  assert (match map char58 ds ++ sp2 with c :: _ => (49 =? c) = false | [] => True end) as Hone.
  { destruct ds as [|d ds]; cbn [map app].
    - destruct H2 as [|c sp2 Hc _]; [done|]. apply Z.eqb_neq. intros <-. by vm_compute in Hc.
    - apply list.Forall_cons in Hds as [Hd _]. rewrite char58_one by done. apply Z.eqb_neq. cbn in Hz. lia. }
  assert (match map char58 ds with c :: _ => (49 =? c) = false | [] => True end) as Hone'.
  { destruct ds as [|d ds]; [done|]. apply list.Forall_cons in Hds as [Hd _]. cbn [map]. rewrite char58_one by done. apply Z.eqb_neq. cbn in Hz. lia. }
  destruct (decide (z = 0%nat /\ ds = [])) as [[-> ->]|Hne].
  - exists []. split; [constructor|]. cbn [replicate map app]. rewrite (skip_spaces (sp1 ++ sp2)) by by apply Forall_app. done.
  - exists sp2. split; [done|]. destruct (split_run isspace sp1 (replicate z 49 ++ map char58 ds ++ sp2)) as [-> _]; [done| |].
    + destruct z as [|z]; [|done]. destruct ds as [|d ds]; [by destruct Hne|]. apply list.Forall_cons in Hds as [Hd _].
      by apply char58_not_space.
    + cbv zeta. destruct (split_run (Z.eqb 49) (replicate z 49) (map char58 ds ++ sp2)) as [-> ->]; [by apply Forall_replicate|done|].
      by rewrite length_replicate.
Qed.

Lemma not_space_run ds s :
  Forall digit58 ds -> match s with c :: _ => isspace c = true | [] => True end ->
  skip_while (fun c => negb (isspace c)) (map char58 ds ++ s) = s.
Proof.
  intros Hds Hs. apply split_run.
  - apply List.Forall_map. eapply list.Forall_impl; [exact Hds|]. cbn. intros d Hd. by rewrite char58_not_space.
  - destruct s; [done|]. by rewrite Hs.
Qed.

Lemma spaces_head s : spaces s -> match s with c :: _ => isspace c = true | [] => True end.
Proof. by destruct 1. Qed.

(** The digits of a decoded number *)
Definition decoded (z : nat) (ds v : list Z) : Prop :=
  exists w, v = replicate z 0 ++ w /\ Forall byte w /\ no_leading_zero w /\ dval 256 w = dval 58 ds.

Lemma DecodeBase58_ok psz :
  Z.of_nat (length psz) <= 2 ^ 30 ->
  exists r, DecodeBase58 psz = Some r /\
    (forall v, r = Some v -> exists z ds, written psz z ds /\ decoded z ds v) /\
    (forall z ds, written psz z ds -> exists v, r = Some v /\ decoded z ds v).
Proof.
  intros Hl. unfold DecodeBase58. set (s := skip_while isspace psz). set (s' := skip_while (Z.eqb 49) s).
  destruct (skip_while_suffix isspace psz) as [E1 H1]. fold s in E1.
  destruct (skip_while_suffix (Z.eqb 49) s) as [E2 _]. fold s' in E2. rewrite count_while_repeat in E2.
  assert (Z.of_nat (length s') <= 2 ^ 30) as Hl'.
  { apply (f_equal length) in E1, E2. rewrite !length_app in *. lia. }
  unfold u64. rewrite Z.mod_small by lia. set (size := Z.of_nat (length s') * 733 / 1000 + 1).
  assert (0 < size) as Hsize.
  { unfold size. pose proof (Z.div_pos (Z.of_nat (length s') * 733) 1000 ltac:(lia) ltac:(lia)). lia. }
  destruct (decode_chars_ok s' (replicate (Z.to_nat size) 0)) as (ds&rest&Hds&Es'&Hr).
  - by apply Forall_replicate.
  - rewrite le_val_zeros, length_replicate, Z2Nat.id by lia. rewrite Z.mul_1_l. apply room_58. lia.
  - assert (no_leading_zero ds) as Hnz.
    { destruct ds as [|d ds]; [done|]. cbn. intros ->. clear -Es'. unfold s' in Es'. cbn [map app] in Es'.
      change (char58 0) with 49 in Es'. clearbody s. revert Es'. induction s as [|c s IH]; [done|]. cbn [skip_while].
      destruct (Z.eqb_spec 49 c) as [|Hne]; [done|]. intros [= -> _]. done. }
    assert (forall z ds', written psz z ds' -> exists sp, spaces sp /\ count_while (Z.eqb 49) s = z /\ map char58 ds ++ rest = map char58 ds' ++ sp) as Hw.
    { intros z ds' Hw. destruct (written_front _ _ _ Hw) as (sp&Hsp&Hz&Hs). exists sp. split_and!; [done|done|]. by rewrite <- Es', <- Hs. }
    destruct Hr as [(Hrest&b'&->&Hb'&Eval)|(Hrest&->)]; cbn [mbind option_bind].
    + destruct (skip_while isspace rest) as [|c t] eqn:Esp.
      * eexists. split; [done|].
        assert (decoded (count_while (Z.eqb 49) s) ds (replicate (count_while (Z.eqb 49) s) 0 ++ strip (rev b'))) as Hd.
        { exists (strip (rev b')). split_and!; [done|by apply Forall_strip, Forall_rev|apply strip_no_leading_zero|].
          by rewrite dval_strip, dval_rev, Eval, le_val_zeros. }
        split.
        -- intros v [= <-]. eexists _, ds. split; [|exact Hd]. split_and!; [done|done|].
           exists (take (count_while isspace psz) psz), rest. split_and!; [done|by apply skip_spaces_inv|]. by rewrite <- Es', <- E2.
        -- intros z ds' Hw'. destruct (Hw _ _ Hw') as (sp&Hsp&<-&E). eexists. split; [done|].
           assert (ds = ds') as <-; [|done]. destruct Hw' as (Hds'&_).
           pose proof (not_space_run ds rest Hds Hrest) as R1. rewrite E, (not_space_run ds' sp Hds' (spaces_head _ Hsp)) in R1. subst sp.
           apply app_inv_tail in E. by apply char58_inj.
      * exists None. split; [done|]. split; [done|]. intros z ds' Hw'. destruct (Hw _ _ Hw') as (sp&Hsp&_&E). destruct Hw' as (Hds'&_).
        pose proof (not_space_run ds rest Hds Hrest) as R1. rewrite E, (not_space_run ds' sp Hds' (spaces_head _ Hsp)) in R1. subst sp.
        by rewrite skip_spaces in Esp.
    + exists None. split; [done|]. split; [done|]. intros z ds' Hw'. destruct (Hw _ _ Hw') as (sp&Hsp&_&E). destruct Hw' as (Hds'&_).
      destruct rest as [|c rest]; [done|]. destruct Hrest as [Hc1 Hc2].
      assert (c ∈ map char58 ds' ++ sp) as Hin by (rewrite <- E; apply elem_of_app; right; left).
      apply elem_of_app in Hin as [(d&->&Hd)%list_elem_of_fmap|Hin].
      * rewrite list.Forall_forall in Hds'. rewrite strchr58_char in Hc2; [done|]. by apply Hds'.
      * unfold spaces in Hsp. rewrite list.Forall_forall in Hsp. rewrite Hsp in Hc1; done.
Qed.

Lemma dval_lower base ds :
  1 < base -> Forall (digit base) ds -> no_leading_zero ds -> ds <> [] -> base ^ (Z.of_nat (length ds) - 1) <= dval base ds.
Proof.
  intros Hb. induction ds as [|d ds IH] using rev_ind; [done|]. rewrite list.Forall_app, dval_snoc. intros [H1 H2] Hz _.
  apply Forall_inv in H2. unfold digit in H2. rewrite length_app. cbn [length].
  destruct ds as [|d' ds']; [cbn in Hz |- *; lia|].
  specialize (IH H1 (no_leading_zero_app _ _ Hz) ltac:(done)). cbn [length] in *.
  replace (Z.of_nat (S (length ds') + 1) - 1) with (Z.succ (Z.of_nat (S (length ds')) - 1)) by lia.
  rewrite Z.pow_succ_r by lia. nia.
Qed.

Lemma dval_upper base ds : 1 < base -> Forall (digit base) ds -> dval base ds < base ^ Z.of_nat (length ds).
Proof.
  intros Hb Hd. rewrite <- (rev_involutive ds) at 1. rewrite dval_rev, <- (length_rev ds).
  apply base_val_bound; [done|by apply Forall_rev].
Qed.

(** A decoded number has no more bytes than digits. *)
Lemma decoded_encodable psz z ds v :
  Z.of_nat (length psz) <= 2 ^ 30 -> written psz z ds -> decoded z ds v -> encodable v.
Proof.
  intros Hl (Hds&_&sp1&sp2&_&_&->) (w&->&Hw&Hz&E). rewrite !length_app, length_replicate, length_map in Hl.
  split; [apply list.Forall_app; split; [by apply Forall_replicate|done]|]. rewrite length_app, length_replicate.
  assert (length w <= length ds)%nat; [|lia].
  destruct w as [|b w]; [cbn; lia|]. pose proof (dval_lower 256 (b :: w) ltac:(lia) Hw Hz ltac:(done)) as H1.
  pose proof (dval_upper 58 ds ltac:(lia) Hds) as H2. rewrite E in H1.
  assert (58 ^ Z.of_nat (length ds) <= 256 ^ Z.of_nat (length ds)) by (apply Z.pow_le_mono_l; lia).
  assert (256 ^ (Z.of_nat (length (b :: w)) - 1) < 256 ^ Z.of_nat (length ds)) as H3 by lia.
  apply Z.pow_lt_mono_r_iff in H3; cbn [length] in *; lia.
Qed.

(** What is decoded is what is written, up to spaces. *)
Lemma base58_iff psz v :
  Z.of_nat (length psz) <= 2 ^ 30 ->
  DecodeBase58 psz = Some (Some v) <->
  encodable v /\ exists sp1 str sp2, spaces sp1 /\ spaces sp2 /\ EncodeBase58 v = Some str /\ psz = sp1 ++ str ++ sp2.
Proof.
  intros Hl. destruct (DecodeBase58_ok psz Hl) as (r&->&H1&H2). split.
  - intros [= ->]. destruct (H1 v eq_refl) as (z&ds&Hw&Hd). pose proof (decoded_encodable _ _ _ _ Hl Hw Hd) as He.
    split; [done|]. destruct (EncodeBase58_ok v He) as (ds'&E&Hds'&Hz'&Ev). destruct Hw as (Hds&Hz&sp1&sp2&S1&S2&->).
    destruct Hd as (w&->&Hw&Hzw&Ew). exists sp1, (replicate z 49 ++ map char58 ds), sp2. split_and!; [done|done| |by rewrite <- app_assoc].
    destruct (split_run (Z.eqb 0) (replicate z 0) w) as [Es Ec]; [by apply Forall_replicate|destruct w; [done|cbn in Hzw; apply Z.eqb_neq; lia]|].
    rewrite length_replicate in Ec. rewrite E, Ec. rewrite Es, Ew in Ev. by rewrite (dval_inj 58 ltac:(lia) ds' ds) by done.
  - intros (He&sp1&str&sp2&S1&S2&E&Ep). destruct (EncodeBase58_ok v He) as (ds&E'&Hds&Hz&Ev). rewrite E in E'. injection E' as ->.
    destruct (H2 (count_while (Z.eqb 0) v) ds) as (v'&->&Hd).
    { split_and!; [done|done|]. exists sp1, sp2. by rewrite Ep, <- app_assoc. }
    destruct Hd as (w&->&Hw&Hzw&Ew). f_equal. f_equal. rewrite <- count_while_repeat.
    destruct (skip_while_suffix (Z.eqb 0) v) as [Es _]. rewrite Es at 3. f_equal.
    apply (dval_inj 256 ltac:(lia)); [done|apply Forall_strip, He|done|apply strip_no_leading_zero|by rewrite Ew].
Qed.


(** [str] with spaces around *)
Definition around (psz str : list Z) : Prop := exists sp1 sp2, spaces sp1 /\ spaces sp2 /\ psz = sp1 ++ str ++ sp2.

Lemma base58_around psz v :
  Z.of_nat (length psz) <= 2 ^ 30 ->
  DecodeBase58 psz = Some (Some v) <-> encodable v /\ exists str, EncodeBase58 v = Some str /\ around psz str.
Proof. intros Hl. rewrite base58_iff by done. unfold around. naive_solver. Qed.

(** ** The checksum *)

Lemma encodable_take v n : encodable v -> encodable (take n v).
Proof. intros [Hv Hl]. split; [by apply Forall_take|]. rewrite length_take. lia. Qed.

(** Payloads that leave room for the checksum *)
Definition payload (v : list Z) : Prop := Forall byte v /\ Z.of_nat (length v) + 4 <= 2 ^ 30.

Lemma checksum_ok v : Forall byte (take 4 (sha256d v)) /\ length (take 4 (sha256d v)) = 4%nat.
Proof.
  split; [apply Forall_take, sha256_bytes|]. rewrite length_take. pose proof (length_sha256 (sha256 v)) as L. unfold sha256d. rewrite L. done.
Qed.

Lemma payload_checked v : payload v -> encodable v /\ encodable (v ++ take 4 (sha256d v)).
Proof.
  intros [Hv Hl]. destruct (checksum_ok v) as [Hb Hc]. split; [split; [done|lia]|].
  split; [by apply list.Forall_app|]. rewrite length_app, Hc. lia.
Qed.

Section checked.
Context (mem : list Z) (Hmem : length mem = 64%nat).

Lemma Hash1_sha256d v : encodable v -> Hash1 mem v = Some (sha256d v).
Proof.
  intros [Hv Hl]. destruct (Hash_ok mem v [] []) as (_&_&H); [done|by rewrite !app_nil_r|rewrite !app_nil_r; lia|by apply H].
Qed.

Lemma EncodeBase58Check_ok v : payload v -> EncodeBase58Check mem v = EncodeBase58 (v ++ take 4 (sha256d v)).
Proof. intros Hv. unfold EncodeBase58Check. by rewrite Hash1_sha256d by by apply payload_checked. Qed.

Lemma base58check_iff psz v :
  Z.of_nat (length psz) <= 2 ^ 30 ->
  (exists r, DecodeBase58Check mem psz = Some r) /\
  (DecodeBase58Check mem psz = Some (Some v) <-> payload v /\ exists str, EncodeBase58Check mem v = Some str /\ around psz str).
Proof.
  intros Hl. unfold DecodeBase58Check. destruct (DecodeBase58_ok psz Hl) as (r&E&_). rewrite E. cbn [mbind option_bind].
  assert (forall v', payload v' -> (exists str, EncodeBase58Check mem v' = Some str /\ around psz str) <->
    r = Some (v' ++ take 4 (sha256d v'))) as Hiff.
  { intros v' Hv'. rewrite EncodeBase58Check_ok by done. pose proof (base58_around psz (v' ++ take 4 (sha256d v')) Hl) as H.
    rewrite E in H. pose proof (payload_checked v' Hv'). split; [intros Hs; cut (Some r = Some (Some (v' ++ take 4 (sha256d v')))); [congruence|]; tauto|].
    intros ->. tauto. }
  destruct r as [vch|]; [|split; [by eauto|]; split; [done|]; intros [Hp Hs]; by apply Hiff in Hs].
  assert (encodable vch) as He by (apply (base58_around psz vch Hl) in E; tauto).
  destruct (Nat.ltb_spec (length vch) 4) as [Hlt|Hge].
  - split; [by eauto|]. split; [done|]. intros [Hp Hs]. apply Hiff in Hs; [|done]. injection Hs as ->.
    destruct (checksum_ok v) as [_ Hc]. rewrite length_app, Hc in Hlt. lia.
  - rewrite Hash1_sha256d by by apply encodable_take. cbn [mbind option_bind]. split; [by eauto|].
    set (n := (length vch - 4)%nat). assert (payload (take n vch)) as Hp.
    { destruct He as [Hb Hlen]. split; [by apply Forall_take|]. rewrite length_take. unfold n. lia. }
    split.
    + case_bool_decide as Hd; [|done]. intros [= <-]. split; [done|]. apply Hiff; [done|]. rewrite Hd. by rewrite take_drop.
    + intros [Hp' Hs]. apply Hiff in Hs; [|done]. injection Hs as ->. destruct (checksum_ok v) as [_ Hc].
      assert (n = length v) as -> by (unfold n; rewrite length_app, Hc; lia).
      rewrite take_app_length, drop_app_length. by rewrite bool_decide_eq_true_2.
Qed.

(** ** Addresses *)

Lemma SetString_iff psz version data :
  Z.of_nat (length psz) <= 2 ^ 30 -> length version = 1%nat ->
  (exists ok d, SetString mem psz 1 = Some (ok, d) /\ (ok = false -> d = new_CBase58Data)) /\
  (SetString mem psz 1 = Some (true, mkBase58Data version data) <->
   payload (version ++ data) /\ exists str, Base58Data_ToString mem (mkBase58Data version data) = Some str /\ around psz str).
Proof.
  intros Hl Hv. unfold SetString, Base58Data_ToString. cbn [vchVersion vchData].
  pose proof (base58check_iff psz (version ++ data) Hl) as [[r E] Hiff]. rewrite E in Hiff |- *. cbn [mbind option_bind].
  destruct r as [vch|].
  - destruct (Nat.ltb_spec (length vch) 1) as [Hlt|Hge].
    + split; [eexists _, _; by split|]. split; [done|]. intros H. apply Hiff in H. injection H as ->. rewrite length_app in Hlt. lia.
    + split; [eexists _, _; by split|]. rewrite <- Hiff. split.
      * intros [= <- <-]. by rewrite take_drop.
      * intros [= ->]. by rewrite take_app_length', drop_app_length' by done.
  - split; [eexists _, _; by split|]. split; [done|]. intros H. by apply Hiff in H.
Qed.
End checked.

(** [EncodeBase58] writes every byte string and [DecodeBase58] answers for every string, without
    failing their assertions; [DecodeBase58] accepts exactly what [EncodeBase58] writes, with spaces
    around.  The same holds with the checksum: [DecodeBase58Check] gives back the payload, and
    accepts nothing but what [EncodeBase58Check] writes. *)
Theorem base58_canonical mem psz v :
  length mem = 64%nat -> Z.of_nat (length psz) <= 2 ^ 30 -> Forall byte v -> Z.of_nat (length v) + 4 <= 2 ^ 30 ->
  (exists str, EncodeBase58 v = Some str) /\ (exists str, EncodeBase58Check mem v = Some str) /\
  (exists r, DecodeBase58 psz = Some r /\ forall v', r = Some v' -> Forall byte v') /\
  (exists r, DecodeBase58Check mem psz = Some r) /\
  (DecodeBase58 psz = Some (Some v) <-> exists str, EncodeBase58 v = Some str /\ around psz str) /\
  (DecodeBase58Check mem psz = Some (Some v) <-> exists str, EncodeBase58Check mem v = Some str /\ around psz str).
Proof.
  intros Hmem Hl Hv Hlv. assert (payload v) as Hp by done. destruct (payload_checked v Hp) as [He1 He2].
  destruct (EncodeBase58_ok v He1) as (ds&E1&_). destruct (EncodeBase58_ok _ He2) as (ds2&E2&_).
  destruct (base58check_iff mem Hmem psz v Hl) as [Hc1 Hc2]. pose proof (base58_around psz v Hl) as Hb.
  destruct (DecodeBase58_ok psz Hl) as (r&Er&_). split_and!; [by eauto|rewrite EncodeBase58Check_ok by done; by eauto| |done|tauto|tauto].
  exists r. split; [done|]. intros v' ->. apply base58_around in Er as [[? _] _]; done.
Qed.

Lemma base58_canonical_witness :
  let v := [0; 1; 255] in let psz := chars " 19p" in
  (exists str, EncodeBase58 v = Some str) /\ (exists str, EncodeBase58Check (replicate 64 0) v = Some str) /\
  (exists r, DecodeBase58 psz = Some r /\ forall v', r = Some v' -> Forall byte v') /\
  (exists r, DecodeBase58Check (replicate 64 0) psz = Some r) /\
  (DecodeBase58 psz = Some (Some v) <-> exists str, EncodeBase58 v = Some str /\ around psz str) /\
  (DecodeBase58Check (replicate 64 0) psz = Some (Some v) <-> exists str, EncodeBase58Check (replicate 64 0) v = Some str /\ around psz str).
Proof.
  intros v psz. apply (base58_canonical (replicate 64 0) psz v); [done|by vm_compute| |by vm_compute].
  apply (bool_decide_unpack _). by vm_compute.
Defined.

(** A destination with a hash of 20 bytes *)
Definition hash_destination (d : CTxDestination) : Prop :=
  match d with CNoDestination => False | CKeyID id | CScriptID id => Forall byte id /\ length id = 20%nat end.

Definition networks : list (Base58Type -> list Z) := [CMainParams; CTestNetParams; CRegTestParams].

(** The prefixes of a network are single bytes that tell keys from scripts. *)
Lemma network_prefixes P :
  P ∈ networks ->
  length (P PUBKEY_ADDRESS) = 1%nat /\ length (P SCRIPT_ADDRESS) = 1%nat /\ length (P SECRET_KEY) = 1%nat /\
  Forall byte (P PUBKEY_ADDRESS) /\ Forall byte (P SCRIPT_ADDRESS) /\ Forall byte (P SECRET_KEY) /\
  P PUBKEY_ADDRESS <> P SCRIPT_ADDRESS.
Proof.
  intros H. repeat apply elem_of_cons in H as [->|H]; [..|by apply not_elem_of_nil in H].
  all: split_and!; try done; by repeat constructor.
Qed.

Lemma Address_Get_iff P a d :
  P ∈ networks -> hash_destination d -> Address_Get P a = d <-> Address_Set P d = Some a.
Proof.
  intros HP Hd. destruct (network_prefixes P HP) as (_&_&_&_&_&_&Hne).
  unfold Address_Get, Address_IsValid. destruct a as [version data]. cbn [vchVersion vchData] in *.
  destruct (Nat.eqb_spec (length data) 20) as [L|L]; cbn [andb negb].
  - rewrite (take_ge data) by lia. destruct d as [|id|id]; [done|..]; cbn [Address_Set]; unfold SetData.
    all: repeat case_bool_decide; cbn [orb negb]; subst; split; (congruence || (intros [= <- <-]; congruence)).
  - destruct d as [|id|id]; [done|..]; cbn [Address_Set]; unfold SetData; (split; [done|]); intros [= <- <-]; by destruct Hd.
Qed.

(** On every network, [SetString] answers for every text, and the address it makes is that of
    the destination [d], a hash of a key or of a script, exactly if the text is the one that
    [ToString] writes for the address of [d], with spaces around. *)
Theorem address_text mem P psz d :
  length mem = 64%nat -> P ∈ networks -> Z.of_nat (length psz) <= 2 ^ 30 -> hash_destination d ->
  exists ok a, SetString mem psz 1 = Some (ok, a) /\
    (Address_Get P a = d <->
     exists a' str, Address_Set P d = Some a' /\ Base58Data_ToString mem a' = Some str /\ around psz str).
Proof.
  intros Hmem HP Hl Hd. destruct (network_prefixes P HP) as (L1&L2&_&B1&B2&_&_).
  assert (exists version id, Address_Set P d = Some (mkBase58Data version id) /\ length version = 1%nat /\
    Forall byte version /\ Forall byte id /\ length id = 20%nat) as (version&id&Ed&Lv&Bv&Bid&Lid).
  { destruct d as [|id|id]; [done|..]; destruct Hd; by eexists _, id. }
  destruct (SetString_iff mem Hmem psz version id Hl Lv) as [(ok&a&E&Hok) Hiff]. exists ok, a. split; [done|].
  rewrite E in Hiff. split.
  - intros HG. exists (mkBase58Data version id).
    assert (a = mkBase58Data version id) as ->.
    { apply Address_Get_iff in HG; [congruence|done|done]. }
    destruct ok; [|specialize (Hok eq_refl); injection Hok as -> _; done]. destruct Hiff as [Hiff _]. destruct (Hiff eq_refl) as (_&str&Hs). by exists str.
  - intros (a'&str&Ea&Hs). rewrite Ed in Ea. injection Ea as <-.
    assert (Some (ok, a) = Some (true, mkBase58Data version id)) as [= -> ->].
    { apply Hiff. split; [|by exists str]. split; [by apply list.Forall_app|]. rewrite length_app, Lv, Lid. done. }
    by apply Address_Get_iff.
Qed.

(** The main network and the key hash of 20 bytes 7 *)
Lemma address_text_witness :
  let id := replicate 20 7 in let psz := chars "c23dp4pG9XNEs3UKXjqcePB5ihr3QSzxSB" in
  exists ok a, SetString (replicate 64 0) psz 1 = Some (ok, a) /\
    (Address_Get CMainParams a = CKeyID id <->
     exists a' str, Address_Set CMainParams (CKeyID id) = Some a' /\ Base58Data_ToString (replicate 64 0) a' = Some str /\ around psz str).
Proof.
  intros id psz. apply (address_text (replicate 64 0) CMainParams psz (CKeyID id)).
  - done.
  - apply elem_of_cons. by left.
  - by vm_compute.
  - split; [|done]. by apply Forall_replicate.
Defined.

(** ** Secret keys *)

(** The text of a valid secret key gives back the key. *)
Lemma secret_text mem P Check_key key :
  length mem = 64%nat -> P ∈ networks -> fValid key = true -> Forall byte (keydata key) -> length (keydata key) = 32%nat ->
  Check_key (keydata key) = true ->
  exists d str, Secret_SetKey P key = Some d /\ Base58Data_ToString mem d = Some str /\
    forall psz, Z.of_nat (length psz) <= 2 ^ 30 -> around psz str ->
      Secret_SetString mem P psz = Some (true, d) /\ Secret_GetKey Check_key d = Some key.
Proof.
  intros Hmem HP Hv Hb Hk Hc. destruct (network_prefixes P HP) as (_&_&L&_&_&B&_). destruct key as [v c data]. cbn [fValid fCompressed keydata] in *. subst v.
  set (body := data ++ if c then [1] else []). unfold Secret_SetKey. cbn [fValid fCompressed keydata]. fold body.
  assert (payload (P SECRET_KEY ++ body)) as Hp.
  { split; [unfold body; rewrite !list.Forall_app; split_and!; [done|done|by destruct c; repeat constructor]|].
    unfold body. rewrite !length_app, L, Hk. by destruct c. }
  destruct (EncodeBase58_ok (P SECRET_KEY ++ body ++ take 4 (sha256d (P SECRET_KEY ++ body)))) as (ds&E&_).
  { rewrite app_assoc. by apply payload_checked. }
  eexists _, _. split; [done|]. unfold Base58Data_ToString. cbn [vchVersion vchData].
  rewrite EncodeBase58Check_ok by done. split; [by rewrite <- app_assoc|]. intros psz Hl Ha.
  destruct (SetString_iff mem Hmem psz (P SECRET_KEY) body Hl L) as [_ Hs]. unfold Secret_SetString.
  assert (SetString mem psz 1 = Some (true, mkBase58Data (P SECRET_KEY) body)) as ->.
  { apply Hs. split; [done|]. eexists. split; [|exact Ha]. unfold Base58Data_ToString. cbn [vchVersion vchData].
    rewrite EncodeBase58Check_ok by done. by rewrite <- app_assoc. }
  cbn [mbind option_bind andb]. unfold Secret_IsValid, Secret_GetKey, CKey_Set. cbn [vchVersion vchData].
  fold body. assert (take 32 body = data /\ length body = (if c then 33 else 32)%nat /\ body !! 32%nat = if c then Some 1 else None) as (E1&E2&E3).
  { unfold body. rewrite take_app_length', length_app, lookup_app_r, Hk by lia. by destruct c. }
  rewrite E1, E2, E3, Hk, Hc. rewrite (bool_decide_eq_true_2 (P SECRET_KEY = P SECRET_KEY)) by done. by destruct c.
Qed.

(** [operator==] of addresses is equality. *)
Lemma vector_lt_total a b : vector_lt a b = false -> vector_lt b a = false -> a = b.
Proof.
  revert b. induction a as [|x a IH]; intros [|y b]; try done. cbn [vector_lt]. rewrite !orb_false_iff, !Z.ltb_ge.
  intros [H1 H2] [H3 H4]. assert (x = y) as -> by lia. rewrite Z.eqb_refl in *. f_equal. by apply IH.
Qed.

Lemma vector_lt_irrefl a : vector_lt a a = false.
Proof. induction a as [|x a IH]; [done|]. cbn [vector_lt]. by rewrite Z.ltb_irrefl, Z.eqb_refl. Qed.

Lemma CompareTo_eq a b : CompareTo a b = 0 <-> a = b.
Proof.
  split; [|intros ->; unfold CompareTo; by rewrite !vector_lt_irrefl].
  unfold CompareTo. destruct a, b. cbn [vchVersion vchData].
  repeat (case_match; [done|]). intros _. f_equal; by apply vector_lt_total.
Qed.
